(* ===== verification/_CoqProject ===== *)
-Q . S2P
Prelude.v
Endian.v
Intset.v
Util.v
Crc.v
CrcSpec.v
Glob.v
Dict.v
DictMap.v
DictScan.v
DictIter.v
Listpack.v
ListpackSpec.v
Adlist.v
Sds.v
SdsSpec.v
SdsOps.v
SdsText.v
SdsArgs.v
Zskiplist.v
ZskiplistSpec.v
ZskiplistOps.v
ZskiplistRange.v
Zset.v
Wire.v
Lzf.v
LzfSpec.v
Rio.v
Rdb.v
RdbSpec.v
Replication.v
Protocol.v
ProtocolSpec.v
ProtocolRun.v
ProtocolErrors.v
Cluster.v
ClusterCron.v
ClusterCommand.v
ClusterInv.v
ClusterOps.v
ClusterSlots.v
ClusterRoles.v
ClusterConfig.v
ClusterRemove.v
ClusterPackets.v
ClusterCronInv.v
ClusterStart.v
ClusterCommandInv.v
ClusterSafety.v
ClusterFaults.v
ClusterCalm.v
ClusterElection.v
ClusterVote.v
ClusterProgress.v
ClusterRuns.v
Keyspace.v
Strings.v
Keys.v
Transactions.v
KeyspaceLogic.v
Watch.v
