(* ===== verification/Prelude.v ===== *)
(** * A verification of Redis 6.2.7

    The program is the Redis server under [src/redis/redis-6.2.7/src], a store of
    data structures in memory with a text protocol, replication and a cluster
    mode. This library translates parts of it into Rocq definitions, one per C
    function or loop and under its name, and proves what makes them correct.

    ** The program and its parts

    A client sends commands; [networking.c] parses them and runs each one. The
    values are data structures of their own files: dynamic strings, linked
    lists, hash tables, integer sets, listpacks, skiplists. A master appends the
    commands that changed something to a backlog and sends them to its replicas
    ([replication.c]); [rdb.c] writes values to files and payloads through the
    streams of [rio.c], with LZF compression and a CRC-64. In cluster mode the
    keys are split into 16384 slots; the nodes gossip over the cluster bus
    ([cluster.c]), agree on the owner of each slot by epochs, and elect a replica
    in place of a master that failed.

    ** Conventions

    A C function is a function into [option]: [None] is a fault (an access
    outside its block, a read of freed memory or of NULL, a failed assertion, a
    signed overflow), so that a theorem that a call returns [Some] says that it
    is safe; [or_fault] states that a call returns or faults for a given reason.
    Errors the code reports are values. A machine integer is a [Z], with [uwrap]
    and [swrap] written where the C type wraps or is converted, and [signed64],
    [isub] and the like where a signed operation could overflow. A block of
    memory is the list of its bytes, and a pointer into it an offset; structures
    linked by pointers live in a heap from addresses to cells, so that aliasing
    and dangling pointers are expressible. What is not code of the repository (the
    allocator, the byte order of the host, hash functions, clocks, random
    numbers, the file or socket behind a stream) is an argument or a class with
    the laws the code relies on: [Host], [DictType], [Alloc], [Backend].
    C objects of type [sds] are the byte strings they hold in the files above
    [Sds.v], which proves that every operation acts on them as such.

    ** The files

    - [Prelude]: integers of a given width, byte blocks, record updates, tactics.
    - [Endian]: [endianconv.c], on hosts of both byte orders.
    - [Intset]: [intset.c] at byte level. Insertion, with or without a wider
      encoding, removal, search and the integrity check against a sorted set.
    - [Util], [Glob]: the conversions of [util.c], which are inverse to each
      other, and [stringmatchlen], with its [int] lengths, against a structural
      matcher of patterns; it differs on the empty string, which no star matches.
    - [Crc], [CrcSpec]: [crc64.c], [crcspeed.c], [crc16.c], [keyHashSlot]. The
      tables, and the code that handles eight bytes at a time, compute the
      polynomial division bit by bit. The length of a key is an [int] in the
      code, and the theorem says what this does to keys of 2^31 bytes or more.
    - [Dict], [DictMap], [DictScan], [DictIter]: [dict.c]. The two tables of an
      incremental rehash refine a finite map under every operation; a scan by
      cursor returns every element that is present during the whole scan,
      whatever else happens, and ends; iterators return each entry once.
    - [Listpack], [ListpackSpec]: [listpack.c] at byte level against a list of
      elements, and the integrity check on arbitrary bytes.
    - [Adlist]: [adlist.c] on a heap of nodes, against a list; every operation
      frames the nodes of other lists.
    - [Sds], [SdsSpec], [SdsOps], [SdsText], [SdsArgs]: [sds.c], [sds.h] with the
      five header layouts, against byte strings, for every operation that changes
      one, the formatted ones included; quoting and splitting are inverse.
    - [Zskiplist], [ZskiplistSpec], [ZskiplistOps], [ZskiplistRange], [Zset]: the
      skiplist of [t_zset.c] with its levels and spans, against a sorted list,
      and the sorted set made of a skiplist and a dictionary that share the
      scores, against a map from elements to scores.
    - [Wire], [Replication]: the encoding of commands, the circular backlog,
      [replicationFeedSlaves] and PSYNC: a replica that resynchronizes receives
      exactly the bytes it misses. The offsets of the stream are [long long]s, and
      the theorems assume that the stream ends before they overflow ([offsets_ok]).
    - [Protocol], [ProtocolSpec], [ProtocolRun], [ProtocolErrors]: the request
      parser and the command loop of [networking.c]: safe on any input, whatever
      limits CONFIG SET allows, except for a bulk length that overflows and an
      inline request of more than INT_MAX bytes; on encoded commands, cut into
      reads in any way, it runs exactly these; after an invalid request it
      replies one error and runs nothing more. Composed
      with [Replication]: a replica runs the commands of its master and relays
      their bytes unchanged.
    - [Lzf], [LzfSpec]: [lzf_c.c], [lzf_d.c]: the round trip, for any contents of
      the uninitialised hash table; the decompressor stays within its buffers on
      any input.
    - [Rio], [Rdb], [RdbSpec]: [rio.c] over a class of backends, and the numbers
      and strings of [rdb.c]: what is saved is loaded back, through any chunks,
      and loading returns on any input, but for a length so large that an
      assertion of [sds.c] aborts the server, which the theorem characterises.
    - [Cluster], [ClusterCron], [ClusterCommand]: [cluster.c]: nodes, slots,
      failure reports, epochs, elections, packets; start, reset and cron; the
      CLUSTER command. A node is a state ([clusterState]) with a heap of nodes;
      a handler is a state transformer that also lists its effects (messages
      sent, calls of the replication code).
    - [ClusterInv] to [ClusterFaults]: the invariant of a node, a program logic
      for the handlers ([wp]), a theorem per operation, and the machine made of
      all handlers: from its start a node only reaches states that satisfy the
      invariant, and no handler faults on an admissible event. Two theorems show
      events that are not admissible, which the code accepts and then faults on.
    - [ClusterCalm] to [ClusterRuns]: a whole cluster, as nodes that run the code
      and a network of ballots that may be delayed, reordered and lost. In every
      run a node sends at most one vote in an epoch; when votes are timely (each
      comes before its replica schedules the next election) at most one replica
      wins an epoch, and a run shows two winners when they are not; a candidate
      whose requests and votes are delivered wins.
    - [Keyspace], [Strings], [Keys], [Transactions]: the databases of [db.c] as
      finite maps of values and expire times ([expire.c]), the commands of
      [t_string.c], the commands on keys, databases and expire times, and MULTI,
      EXEC and WATCH ([multi.c]) with the dispatch of a command and what is
      propagated ([call], [processCommand] of [server.c]). A command is a state
      transformer that ends, does something undefined, or faults.
    - [KeyspaceLogic], [Watch]: relations between the states before and after a
      command, proved part by part, and optimistic locking: if EXEC runs its
      transaction, no watched key changed since WATCH.

    ** Bounds and fuel

    Loops over a block or a list recurse on it. The other loops have fuel, which
    the callers compute from the data: the length of the buffer that is read or
    written ([rio_write_loop], [feed_loop], the LZF loops, the request parser,
    [stringmatchlen]), the number of buckets of the tables ([dictScan]), the
    length of the skiplist plus one ([zsl_fuel]), 64 for the digits of a number.
    Each turn consumes part of it, and the theorems state that the functions
    return [Some], so that the fuel is enough; [dictScan_terminates] and
    [rdb_load_returns] say so for loops without an obvious measure. Sizes are
    bounded where the code needs it, by hypotheses on the lengths (below 2^31,
    2^32 or 2^63); [intsetMoveTail_wraps] shows what the code does beyond one of them.
    In the cluster model the times are unbounded integers and epochs wrap at 64
    bits; a handler reads the clock once. A link of the cluster bus is a number
    and the node it belongs to: freeing it is an effect, and a use of a freed link
    is not a fault of the model; [packet_ok] leaves out a MEET over a link that
    this node opened.

    ** Not modelled

    The rest of the server is listed, part by part, in the manifest: the event
    loop, connections and system calls; the commands of the data types other
    than strings; eviction and the schedule of the expire cycle; ziplists,
    quicklists and radix trees; RDB objects other than strings and the append only file; the handshake of a
    replica and full synchronization; the file of the cluster configuration,
    MIGRATE and redirections; modules and scripts, which run code from outside
    the repository; Sentinel; the command line tools and benchmarks. In the parts
    that are modelled, log messages, statistics, and the gossip entries chosen at
    random for a ping (any list) are left out; signals and threads do not occur. *)
From Stdlib Require Export ZArith Lia ZifyBool.
From stdpp Require Export base list option numbers sorting strings.
#[global] Open Scope Z_scope.

Declare Scope redis_scope.
Delimit Scope redis_scope with redis.
#[global] Open Scope redis_scope.

Create HintDb redis.

(** ** Tactics *)

(** Turn boolean comparisons on integers into propositions. *)
Ltac bool_hyps :=
  repeat match goal with
  | H : andb _ _ = true |- _ => apply andb_prop in H; destruct H
  | H : orb _ _ = false |- _ => apply orb_false_elim in H; destruct H
  | H : negb _ = true |- _ => apply negb_true_iff in H
  | H : negb _ = false |- _ => apply negb_false_iff in H
  end.

(** Case on the first boolean test of the goal, then try arithmetic. *)
Ltac case_if_lia :=
  match goal with
  | |- context [if ?b then _ else _] =>
      lazymatch type of b with
      | bool => let E := fresh "E" in destruct b eqn:E; try lia
      end
  end.

(** Show which way a boolean test goes by arithmetic, and reduce it. *)
Ltac if_true :=
  match goal with
  | |- context [if ?b then _ else _] =>
      lazymatch type of b with bool => replace b with true by (symmetry; lia) end
  end.
Ltac if_false :=
  match goal with
  | |- context [if ?b then _ else _] =>
      lazymatch type of b with bool => replace b with false by (symmetry; lia) end
  end.

(** Invert the binds of an option computation in hypotheses. *)
Ltac inv_bind H :=
  lazymatch type of H with
  | (_ ≫= _) = Some _ =>
      let x := fresh "x" in let E := fresh "E" in
      apply bind_Some in H; destruct H as (x & E & H); cbn beta in H
  end.

(** ** Lengths as integers *)

Abbreviation zlen l := (Z.of_nat (length l)) (only parsing).

(** ** Machine integers *)

Definition uwrap (w : Z) (z : Z) : Z := z mod 2 ^ w.
Definition swrap (w : Z) (z : Z) : Z := (z + 2 ^ (w - 1)) mod 2 ^ w - 2 ^ (w - 1).

Definition in_u (w : Z) (z : Z) : Prop := 0 <= z < 2 ^ w.
Definition in_s (w : Z) (z : Z) : Prop := - 2 ^ (w - 1) <= z < 2 ^ (w - 1).

Definition INT16_MIN : Z := -32768.
Definition INT16_MAX : Z := 32767.
Definition INT32_MIN : Z := -2147483648.
Definition INT32_MAX : Z := 2147483647.
Definition LLONG_MIN : Z := -9223372036854775808.
Definition LLONG_MAX : Z := 9223372036854775807.
Definition ULLONG_MAX : Z := 18446744073709551615.

Lemma uwrap_small w z : in_u w z -> uwrap w z = z.
Proof. unfold in_u, uwrap. intros. by apply Z.mod_small. Qed.

Lemma uwrap_range w z : 0 <= w -> in_u w (uwrap w z).
Proof. unfold in_u, uwrap. intros. apply Z.mod_pos_bound. lia. Qed.

Lemma pow2_split w : 1 <= w -> 2 ^ w = 2 * 2 ^ (w - 1).
Proof. intros. rewrite <- Z.pow_succ_r by lia. f_equal; lia. Qed.

Lemma swrap_small w z : 1 <= w -> in_s w z -> swrap w z = z.
Proof.
  unfold in_s, swrap. intros Hw ?. pose proof (pow2_split w Hw).
  rewrite Z.mod_small; lia.
Qed.

Lemma swrap_range w z : 1 <= w -> in_s w (swrap w z).
Proof.
  unfold in_s, swrap. intros Hw. pose proof (pow2_split w Hw).
  pose proof (Z.mod_pos_bound (z + 2 ^ (w - 1)) (2 ^ w)). lia.
Qed.

Lemma swrap_mod w z : 1 <= w -> swrap w (z mod 2 ^ w) = swrap w z.
Proof. unfold swrap. intros. by rewrite Zplus_mod_idemp_l. Qed.

(** Bits of integers of a given width. *)

Lemma in_u_bits w x : 0 <= w -> 0 <= x -> (forall i, w <= i -> Z.testbit x i = false) -> in_u w x.
Proof.
  intros Hw Hx Hb. unfold in_u. split; [done|].
  assert (E : x mod 2 ^ w = x).
  { apply Z.bits_inj'. intros i Hi. destruct (Z.lt_ge_cases i w).
    - by rewrite Z.mod_pow2_bits_low by lia.
    - by rewrite Z.mod_pow2_bits_high, Hb by lia. }
  rewrite <- E. apply Z.mod_pos_bound. lia.
Qed.

Lemma in_u_high w x i : 0 <= w -> in_u w x -> w <= i -> Z.testbit x i = false.
Proof.
  intros Hw Hx Hi. rewrite <- (Z.mod_small x (2 ^ w)) by exact Hx. apply Z.mod_pow2_bits_high. lia.
Qed.

Lemma bits_eq w x y : 0 <= w -> in_u w x -> in_u w y ->
  (forall i, 0 <= i < w -> Z.testbit x i = Z.testbit y i) -> x = y.
Proof.
  intros Hw Hx Hy Hb. apply Z.bits_inj'. intros i Hi. destruct (Z.lt_ge_cases i w); [auto|].
  by rewrite !(in_u_high w) by done.
Qed.

Lemma lor_range w x y : 0 <= w -> in_u w x -> in_u w y -> in_u w (Z.lor x y).
Proof.
  intros Hw Hx Hy. apply in_u_bits; [done|apply Z.lor_nonneg; unfold in_u in *; lia|].
  intros i Hi. rewrite Z.lor_spec, !(in_u_high w) by done. done.
Qed.

(** ** Byte buffers

    A C object is the list of its bytes, each an integer in [0,255]; an access
    outside the object is [None]. *)

Abbreviation bytes := (list Z) (only parsing).

Definition byte_ok (c : Z) : Prop := 0 <= c < 256.

Definition bget (b : bytes) (i : Z) : option Z :=
  if 0 <=? i then b !! Z.to_nat i else None.

Definition bslice (b : bytes) (off n : Z) : option bytes :=
  if (0 <=? off) && (0 <=? n) && (off + n <=? zlen b)
  then Some (take (Z.to_nat n) (drop (Z.to_nat off) b)) else None.

(** [memcpy(b + off, src, |src|)] *)
Definition bwrite (b : bytes) (off : Z) (src : bytes) : option bytes :=
  if (0 <=? off) && (off + zlen src <=? zlen b)
  then Some (take (Z.to_nat off) b ++ src ++ drop (Z.to_nat (off + zlen src)) b)
  else None.

(** [b[i] = c] *)
Definition bset (b : bytes) (i c : Z) : option bytes := bwrite b i [c].

(** [memmove(b + dst, b + src, n)] *)
Definition bmove (b : bytes) (dst src n : Z) : option bytes :=
  s ← bslice b src n; bwrite b dst s.

(** The allocator: fresh memory holds arbitrary bytes, and every theorem holds
    whatever they are. *)
Class Alloc := {
  junk : nat -> Z;
  junk_ok : forall i, byte_ok (junk i)
}.

(** [zrealloc]: the bytes past the old end are fresh. [zmalloc] is the case of
    an empty old block. *)
Definition zrealloc `{Alloc} (b : bytes) (n : Z) : bytes :=
  take (Z.to_nat n) b ++ (junk <$> seq (length b) (Z.to_nat n - length b)).
Definition zmalloc `{Alloc} (n : Z) : bytes := zrealloc [] n.

(** An allocator whose fresh bytes are all [0xAA], for concrete runs. *)
Program Definition FillAlloc : Alloc := {| junk := fun _ => 170 |}.
Next Obligation. unfold byte_ok. lia. Qed.

Notation "b .[ i ]" := (bget b i) (at level 1, format "b .[ i ]") : redis_scope.

Lemma zlen_zrealloc `{Alloc} b n : 0 <= n -> zlen (zrealloc b n) = n.
Proof.
  intros. unfold zrealloc.
  rewrite length_app, length_fmap, length_seq, length_take. lia.
Qed.

Lemma zrealloc_ok `{Alloc} b n :
  Forall byte_ok b -> Forall byte_ok (zrealloc b n).
Proof.
  intros Hb. unfold zrealloc. apply Forall_app. split.
  - by apply Forall_take.
  - apply Forall_fmap, Forall_true. intros. apply junk_ok.
Qed.

(** Growing a block keeps its bytes and appends fresh ones. *)
Lemma zrealloc_grow `{Alloc} b n :
  zlen b <= n ->
  exists fresh, zrealloc b n = b ++ fresh /\ zlen fresh = n - zlen b
                /\ Forall byte_ok fresh.
Proof.
  intros Hn. unfold zrealloc. rewrite take_ge by lia.
  eexists. split; [done|]. rewrite length_fmap, length_seq. split; [lia|].
  apply Forall_fmap, Forall_true. intros. apply junk_ok.
Qed.

(** Shrinking a block drops its tail. *)
Lemma zrealloc_shrink `{Alloc} b1 b2 n :
  n = zlen b1 -> zrealloc (b1 ++ b2) n = b1.
Proof.
  intros ->. unfold zrealloc. rewrite length_app, Nat2Z.id, take_app_length.
  replace (length b1 - (length b1 + length b2))%nat with O by lia.
  apply app_nil_r.
Qed.

Lemma bslice_app (pre mid post : bytes) :
  bslice (pre ++ mid ++ post) (zlen pre) (zlen mid) = Some mid.
Proof.
  unfold bslice. rewrite !length_app. if_true.
  rewrite !Nat2Z.id, drop_app_length, take_app_length. done.
Qed.

Lemma bslice_app_at pre mid post off n :
  off = zlen pre -> n = zlen mid -> bslice (pre ++ mid ++ post) off n = Some mid.
Proof. intros -> ->. apply bslice_app. Qed.

Lemma bwrite_app pre mid post src off :
  off = zlen pre -> length src = length mid ->
  bwrite (pre ++ mid ++ post) off src = Some (pre ++ src ++ post).
Proof.
  intros -> Hs. unfold bwrite. rewrite !length_app, Hs. if_true.
  rewrite <- Nat2Z.inj_add, !Nat2Z.id, take_app_length.
  rewrite <- drop_drop, drop_app_length, drop_app_length. done.
Qed.

Lemma bslice_head mid post n : n = zlen mid -> bslice (mid ++ post) 0 n = Some mid.
Proof. intros ->. by apply (bslice_app_at [] mid post). Qed.

Lemma bwrite_head mid post src : length src = length mid -> bwrite (mid ++ post) 0 src = Some (src ++ post).
Proof. intros Hs. by apply (bwrite_app [] mid post). Qed.

Lemma bslice_Some b off n s :
  bslice b off n = Some s ->
  exists pre post, b = pre ++ s ++ post /\ zlen pre = off /\ zlen s = n.
Proof.
  unfold bslice. case_if_lia; [|done]. intros [= <-].
  exists (take (Z.to_nat off) b), (drop (Z.to_nat n) (drop (Z.to_nat off) b)).
  rewrite take_drop, take_drop, !length_take, length_drop. split; [done|lia].
Qed.

Lemma bslice_exists (b : bytes) off n :
  0 <= off -> 0 <= n -> off + n <= zlen b ->
  exists pre s post, b = pre ++ s ++ post /\ zlen pre = off /\ zlen s = n.
Proof.
  intros. exists (take (Z.to_nat off) b),
    (take (Z.to_nat n) (drop (Z.to_nat off) b)),
    (drop (Z.to_nat n) (drop (Z.to_nat off) b)).
  rewrite take_drop, take_drop, !length_take, length_drop. split; [done|lia].
Qed.

Lemma bget_app pre c post i : i = zlen pre -> (pre ++ c :: post).[i] = Some c.
Proof.
  intros ->. unfold bget. if_true. rewrite Nat2Z.id.
  by rewrite list_lookup_middle.
Qed.

Lemma bset_app pre c post i c' :
  i = zlen pre -> bset (pre ++ c :: post) i c' = Some (pre ++ c' :: post).
Proof. intros ->. by apply (bwrite_app pre [c] post [c']). Qed.

Lemma bwrite_ok b off src b' :
  Forall byte_ok b -> Forall byte_ok src -> bwrite b off src = Some b' ->
  Forall byte_ok b'.
Proof.
  unfold bwrite. intros Hb Hs. case_if_lia; [|done]. intros [= <-].
  repeat apply Forall_app_2; auto using Forall_take, Forall_drop.
Qed.

Lemma zlen_bwrite b off src b' : bwrite b off src = Some b' -> zlen b' = zlen b.
Proof.
  unfold bwrite. case_if_lia; [|done]. intros [= <-].
  rewrite !length_app, length_take, length_drop. lia.
Qed.

(** Moving a block towards the end, over the gap that follows it. *)
Lemma bmove_right (pre s gap : bytes) dst src n :
  src = zlen pre -> n = zlen s -> dst = src + zlen gap ->
  exists x, length x = length gap /\ bmove (pre ++ s ++ gap) dst src n = Some (pre ++ x ++ s).
Proof.
  intros -> -> ->. exists (take (length gap) (s ++ gap)).
  rewrite length_take, length_app. split; [lia|].
  unfold bmove. rewrite bslice_app. cbn.
  rewrite <- (take_drop (length gap) (s ++ gap)) at 1.
  pose proof (bwrite_app (pre ++ take (length gap) (s ++ gap))
                (drop (length gap) (s ++ gap)) [] s (zlen pre + zlen gap)) as E.
  rewrite !app_nil_r, <- !app_assoc in E. apply E.
  - rewrite length_app, length_take, length_app. lia.
  - rewrite length_drop, length_app. lia.
Qed.

(** Moving a block towards the front, over the gap that precedes it. *)
Lemma bmove_left (pre gap s : bytes) dst src n :
  dst = zlen pre -> n = zlen s -> src = dst + zlen gap ->
  exists x, length x = length gap /\ bmove (pre ++ gap ++ s) dst src n = Some (pre ++ s ++ x).
Proof.
  intros -> -> ->. exists (drop (length s) (gap ++ s)).
  rewrite length_drop, length_app. split; [lia|].
  unfold bmove.
  replace (pre ++ gap ++ s) with ((pre ++ gap) ++ s ++ [])
    by (by rewrite app_nil_r, <- app_assoc).
  rewrite bslice_app_at by (rewrite ?length_app; lia). cbn.
  rewrite app_nil_r, <- app_assoc.
  rewrite <- (take_drop (length s) (gap ++ s)) at 1.
  apply bwrite_app; [done|]. rewrite length_take, length_app. lia.
Qed.

(** ** Little-endian integers *)

Fixpoint le_bytes (n : nat) (v : Z) : bytes :=
  match n with
  | O => []
  | S n => v mod 256 :: le_bytes n (v / 256)
  end.

Fixpoint le_val (bs : bytes) : Z :=
  match bs with
  | [] => 0
  | c :: bs => c + 256 * le_val bs
  end.

Definition be_bytes (n : nat) (v : Z) : bytes := reverse (le_bytes n v).
Definition be_val (bs : bytes) : Z := le_val (reverse bs).

Lemma length_le_bytes n v : length (le_bytes n v) = n.
Proof. revert v; induction n; intros; cbn; auto. Qed.

Lemma length_be_bytes n v : length (be_bytes n v) = n.
Proof. unfold be_bytes. by rewrite length_reverse, length_le_bytes. Qed.

Lemma le_bytes_ok n v : Forall byte_ok (le_bytes n v).
Proof.
  revert v; induction n; intros; cbn; constructor; auto.
  apply Z.mod_pos_bound. lia.
Qed.

Lemma pow256_S n : 2 ^ (8 * Z.of_nat (S n)) = 256 * 2 ^ (8 * Z.of_nat n).
Proof.
  replace (8 * Z.of_nat (S n)) with (8 + 8 * Z.of_nat n) by lia.
  by rewrite Z.pow_add_r by lia.
Qed.

Lemma le_val_bytes n v : le_val (le_bytes n v) = v mod 2 ^ (8 * Z.of_nat n).
Proof.
  revert v; induction n as [|n IH]; intros; cbn [le_bytes le_val].
  - by rewrite Z.mod_1_r.
  - rewrite IH, pow256_S, Z.rem_mul_r; lia.
Qed.

Lemma le_val_range bs :
  Forall byte_ok bs -> 0 <= le_val bs < 2 ^ (8 * zlen bs).
Proof.
  induction 1 as [|c bs Hc _ IH]; cbn [le_val length]; [done|].
  rewrite pow256_S. unfold byte_ok in Hc. lia.
Qed.

Lemma le_bytes_val bs : Forall byte_ok bs -> le_bytes (length bs) (le_val bs) = bs.
Proof.
  induction 1 as [|c bs Hc _ IH]; cbn [le_val le_bytes length]; [done|].
  unfold byte_ok in Hc. f_equal.
  - rewrite Z.mul_comm, Z.mod_add by lia. by apply Z.mod_small.
  - rewrite Z.mul_comm, Z.div_add by lia. rewrite Z.div_small by lia.
    by rewrite Z.add_0_l.
Qed.

Lemma be_val_bytes n v : be_val (be_bytes n v) = v mod 2 ^ (8 * Z.of_nat n).
Proof. unfold be_val, be_bytes. by rewrite reverse_involutive, le_val_bytes. Qed.

(** Encoding only depends on the value modulo the width, so a signed integer
    and its unsigned representative have the same bytes. *)
Lemma le_bytes_cong n a b :
  a mod 2 ^ (8 * Z.of_nat n) = b mod 2 ^ (8 * Z.of_nat n) -> le_bytes n a = le_bytes n b.
Proof.
  intros E. rewrite <- (le_bytes_val (le_bytes n a)), <- (le_bytes_val (le_bytes n b))
    by apply le_bytes_ok.
  by rewrite !length_le_bytes, !le_val_bytes, E.
Qed.

Lemma swrap_cong w z : 1 <= w -> swrap w z mod 2 ^ w = z mod 2 ^ w.
Proof.
  intros. unfold swrap. rewrite Zminus_mod_idemp_l. f_equal. lia.
Qed.

#[global] Arguments le_bytes : simpl never.
#[global] Arguments le_val : simpl never.
#[global] Arguments be_bytes : simpl never.
#[global] Arguments be_val : simpl never.
#[global] Arguments swrap : simpl never.
#[global] Arguments uwrap : simpl never.
#[global] Arguments bslice : simpl never.
#[global] Arguments bwrite : simpl never.
#[global] Arguments bget : simpl never.
#[global] Arguments bset : simpl never.
#[global] Arguments bmove : simpl never.
#[global] Arguments zrealloc : simpl never.

(** Reduce conversions of literals. *)
Ltac znat_lits := 
  repeat match goal with
  | |- context [Z.of_nat ?n] =>
      lazymatch n with S _ => idtac | O => idtac end;
      let z := eval vm_compute in (Z.of_nat n) in
      lazymatch z with Z0 => idtac | Zpos _ => idtac end;
      change (Z.of_nat n) with z
  | H : context [Z.of_nat ?n] |- _ =>
      lazymatch n with S _ => idtac | O => idtac end;
      let z := eval vm_compute in (Z.of_nat n) in
      lazymatch z with Z0 => idtac | Zpos _ => idtac end;
      change (Z.of_nat n) with z in H
  end.

(** ** Results and faults *)

(** A result as [P] says, or a fault, and then [F]. *)
Definition or_fault {A} (F : Prop) (o : option A) (P : A -> Prop) : Prop := (exists a, o = Some a /\ P a) \/ (o = None /\ F).

Lemma or_fault_some {A} (F : Prop) (a : A) (P : A -> Prop) : P a -> or_fault F (Some a) P.
Proof. left. by exists a. Qed.

Lemma or_fault_bind {A B} (F : Prop) (o : option A) (f : A -> option B) (P : A -> Prop) (R : B -> Prop) :
  or_fault F o P -> (forall a, P a -> or_fault F (f a) R) -> or_fault F (o ≫= f) R.
Proof. intros [(a & -> & Ha)|[-> HF]] Hf; [by apply Hf|by right]. Qed.

Lemma or_fault_mono {A} (F : Prop) (o : option A) (P R : A -> Prop) : or_fault F o P -> (forall a, P a -> R a) -> or_fault F o R.
Proof. intros [(a & -> & Ha)|H] HR; [left; eauto|by right]. Qed.

Lemma or_fault_weaken {A} (F G : Prop) (o : option A) (P : A -> Prop) : or_fault F o P -> (F -> G) -> or_fault G o P.
Proof. intros [H|[-> H]] HG; [by left|right; auto]. Qed.

(** ** Sorted lists *)

(** An element of a sorted list separates the smaller from the larger ones. *)
Lemma sorted_lookup_split (l : list Z) (i : nat) x :
  StronglySorted Z.lt l -> l !! i = Some x ->
  Forall (fun y => y < x) (take i l) /\ Forall (fun y => x < y) (drop (S i) l).
Proof.
  intros Hs Hi. rewrite <- (take_drop_middle l i x Hi) in Hs.
  apply StronglySorted_app in Hs as (Hlt & _ & Hs).
  apply StronglySorted_cons in Hs as [Hx _]. split; [|done].
  apply Forall_forall. intros y Hy. apply Hlt; [done|left].
Qed.

(** Inserting between the smaller and the larger elements keeps a list sorted. *)
Lemma sorted_insert_mid (l1 l2 : list Z) v :
  StronglySorted Z.lt (l1 ++ l2) ->
  Forall (fun y => y < v) l1 -> Forall (fun y => v < y) l2 ->
  StronglySorted Z.lt (l1 ++ v :: l2).
Proof.
  intros Hs H1 H2. apply StronglySorted_app in Hs as (Hlt & Hs1 & Hs2).
  rewrite Forall_forall in H1. pose proof H2 as H2'. rewrite Forall_forall in H2.
  apply StronglySorted_app. repeat split; [|done|by constructor].
  intros x1 x2 Hx1 [->|Hx2]%elem_of_cons; auto.
Qed.

Lemma sorted_remove_mid (l1 l2 : list Z) v :
  StronglySorted Z.lt (l1 ++ v :: l2) -> StronglySorted Z.lt (l1 ++ l2).
Proof.
  intros (Hlt & Hs1 & Hs2)%StronglySorted_app.
  apply StronglySorted_cons in Hs2 as [_ Hs2].
  apply StronglySorted_app. repeat split; auto.
  intros. apply Hlt; [done|by right].
Qed.

(** ** Character strings *)

Fixpoint of_string (s : String.string) : bytes :=
  match s with
  | String.EmptyString => []
  | String.String c s => Z.of_nat (Ascii.nat_of_ascii c) :: of_string s
  end.

(** A plain [char] is signed. *)
Definition schar (c : Z) : Z := swrap 8 c.

(** [tolower], [isdigit] and [isspace] of the C locale. *)
Definition tolower (c : Z) : Z := if (65 <=? c) && (c <=? 90) then c + 32 else c.
Definition isdigit (c : Z) : bool := (48 <=? c) && (c <=? 57).

(** ** Splitting lists *)

Lemma split_at {A} (l : list A) (n : nat) :
  (n <= length l)%nat -> exists l1 l2, l = l1 ++ l2 /\ length l1 = n.
Proof.
  intros. exists (take n l), (drop n l). rewrite take_drop, length_take. split; [done|lia].
Qed.

Lemma rev_case {A} (l : list A) : l = [] \/ exists l' x, l = l' ++ [x].
Proof. destruct l as [|x l _] using rev_ind; eauto. Qed.

Lemma schar_cases c :
  byte_ok c -> (schar c = c /\ c < 128) \/ (schar c = c - 256 /\ 128 <= c).
Proof.
  unfold byte_ok, schar, swrap. intros Hc. change (2 ^ (8 - 1)) with 128.
  change (2 ^ 8) with 256. destruct (decide (c < 128)); [left|right]; split; try lia.
  - rewrite Z.mod_small; lia.
  - replace (c + 128) with (c - 128 + 1 * 256) by lia. rewrite Z.mod_add, Z.mod_small; lia.
Qed.

(** ** Record updates

    [r <| field := v |>] is [r] with one field replaced, for every record with
    a [Settable] instance, the record rebuilt from its fields. *)

Class Settable (R : Type) := eta_of : R -> R.
Class Setter {R T} (proj : R -> T) := set_field : (T -> T) -> R -> R.

Ltac derive_setter :=
  lazymatch goal with
  | |- @Setter ?R ?T ?proj =>
      let inst := constr:(ltac:(typeclasses eauto) : Settable R) in
      let eta := eval red in inst in
      let t := eval pattern proj in eta in
      lazymatch t with
      | ?g _ => exact (fun f => g (fun r => f (proj r)))
      end
  end.
#[export] Hint Extern 0 (Setter _) => derive_setter : typeclass_instances.

Notation "r <| proj := v |>" := (set_field (proj := proj) (fun _ => v) r)
  (at level 1, left associativity, proj at level 0, format "r <| proj  :=  v |>") : redis_scope.
