(* ===== verification/Endian.v ===== *)
(** Byte-order conversion: [endianconv.c] and the [*ifbe] macros of
    [endianconv.h].

    The host's byte order is a parameter (class [Host]); every structure that
    is stored in little-endian order on all hosts (intset, ziplist) is modelled
    on top of the [*ifbe] operations, and the lemmas [load_le_*] and
    [store_le_*] below are what those clients use: they hold for both hosts. *)
From S2P Require Import Prelude.

(** [BYTE_ORDER == BIG_ENDIAN] of the compilation target. *)
Class Host := big_endian : bool.

Definition LittleHost : Host := false.
Definition BigHost : Host := true.

(** ** The representation of an unsigned integer in host memory *)

Definition host_bytes `{Host} (n : nat) (v : Z) : bytes :=
  if big_endian then be_bytes n v else le_bytes n v.

Definition host_val `{Host} (bs : bytes) : Z :=
  if big_endian then be_val bs else le_val bs.

(** ** [memrev16], [memrev32], [memrev64]: swap bytes in place *)

(** [t = x[i]; x[i] = x[j]; x[j] = t;] *)
Definition swap_bytes (x : bytes) (i j : Z) : option bytes :=
  t ← x.[i]; xj ← x.[j]; x ← bset x i xj; bset x j t.

Definition memrev16 (x : bytes) (p : Z) : option bytes :=
  swap_bytes x p (p + 1).

Definition memrev32 (x : bytes) (p : Z) : option bytes :=
  x ← swap_bytes x p (p + 3);
  swap_bytes x (p + 1) (p + 2).

Definition memrev64 (x : bytes) (p : Z) : option bytes :=
  x ← swap_bytes x p (p + 7);
  x ← swap_bytes x (p + 1) (p + 6);
  x ← swap_bytes x (p + 2) (p + 5);
  swap_bytes x (p + 3) (p + 4).

Section conv.
Context `{Host}.

Definition intrev16 (v : Z) : option Z :=
  host_val <$> memrev16 (host_bytes 2 v) 0.
Definition intrev32 (v : Z) : option Z :=
  host_val <$> memrev32 (host_bytes 4 v) 0.
Definition intrev64 (v : Z) : option Z :=
  host_val <$> memrev64 (host_bytes 8 v) 0.

Definition memrev16ifbe (x : bytes) (p : Z) : option bytes :=
  if big_endian then memrev16 x p else Some x.
Definition memrev32ifbe (x : bytes) (p : Z) : option bytes :=
  if big_endian then memrev32 x p else Some x.
Definition memrev64ifbe (x : bytes) (p : Z) : option bytes :=
  if big_endian then memrev64 x p else Some x.

Definition intrev16ifbe (v : Z) : option Z :=
  if big_endian then intrev16 v else Some v.
Definition intrev32ifbe (v : Z) : option Z :=
  if big_endian then intrev32 v else Some v.
Definition intrev64ifbe (v : Z) : option Z :=
  if big_endian then intrev64 v else Some v.

Definition htonu64 (v : Z) : option Z :=
  if big_endian then Some v else intrev64 v.
Definition ntohu64 (v : Z) : option Z :=
  if big_endian then Some v else intrev64 v.

(** Reading and writing an [n]-byte unsigned integer lvalue. *)
Definition load (n : nat) (x : bytes) (p : Z) : option Z :=
  host_val <$> bslice x p (Z.of_nat n).
Definition store (n : nat) (x : bytes) (p v : Z) : option bytes :=
  bwrite x p (host_bytes n v).
End conv.

(** ** Lemmas *)

Lemma length_host_bytes `{Host} n v : length (host_bytes n v) = n.
Proof.
  unfold host_bytes. destruct big_endian.
  - apply length_be_bytes.
  - apply length_le_bytes.
Qed.

Lemma host_val_bytes `{Host} n v :
  host_val (host_bytes n v) = v mod 2 ^ (8 * Z.of_nat n).
Proof.
  unfold host_val, host_bytes. destruct big_endian.
  - apply be_val_bytes.
  - apply le_val_bytes.
Qed.

Lemma host_bytes_ok `{Host} n v : Forall byte_ok (host_bytes n v).
Proof.
  unfold host_bytes, be_bytes. destruct big_endian; [|apply le_bytes_ok].
  apply Forall_reverse, le_bytes_ok.
Qed.

(** Split a list of known length into its elements. *)
Ltac explode l :=
  repeat (let c := fresh "c" in
          destruct l as [|c l]; cbn [length] in *; try discriminate; try lia).

Lemma swap_bytes_app pre a mid b post i j :
  i = zlen pre -> j = i + 1 + zlen mid ->
  swap_bytes (pre ++ a :: mid ++ b :: post) i j
    = Some (pre ++ b :: mid ++ a :: post).
Proof.
  intros Hi Hj. unfold swap_bytes.
  assert (E : forall c d, pre ++ c :: mid ++ d :: post
                          = (pre ++ c :: mid) ++ d :: post).
  { intros. by rewrite <- app_assoc. }
  rewrite (bget_app pre a _ i Hi). cbn.
  rewrite E, (bget_app _ b _ j) by (rewrite length_app; cbn; lia). cbn.
  rewrite <- E, (bset_app pre a _ i b Hi). cbn.
  rewrite E, (bset_app _ b _ j) by (rewrite length_app; cbn; lia).
  by rewrite <- E.
Qed.

Lemma memrev16_reverse pre w post p :
  p = zlen pre -> length w = 2%nat ->
  memrev16 (pre ++ w ++ post) p = Some (pre ++ reverse w ++ post).
Proof.
  intros -> Hw. explode w. apply (swap_bytes_app pre c [] c0 post); cbn; lia.
Qed.

Lemma swap_bytes_in pre l a mid b r i j :
  i = zlen pre + zlen l -> j = i + 1 + zlen mid ->
  swap_bytes (pre ++ l ++ a :: mid ++ b :: r) i j
    = Some (pre ++ l ++ b :: mid ++ a :: r).
Proof.
  intros Hi Hj. rewrite !(app_assoc pre).
  apply swap_bytes_app; rewrite ?length_app; lia.
Qed.

(** One swap inside an exploded window that follows [pre]. *)
Ltac swap_step pre l a mid b r :=
  let E := fresh in
  pose proof (swap_bytes_in pre l a mid b r) as E; cbn [app length] in E;
  rewrite E by lia; clear E; cbn [mbind option_bind].

Lemma memrev32_reverse pre w post p :
  p = zlen pre -> length w = 4%nat ->
  memrev32 (pre ++ w ++ post) p = Some (pre ++ reverse w ++ post).
Proof.
  intros -> Hw. explode w. unfold memrev32. cbn [app].
  swap_step pre (@nil Z) c [c0; c1] c2 post.
  swap_step pre [c2] c0 (@nil Z) c1 (c :: post). done.
Qed.

Lemma memrev64_reverse pre w post p :
  p = zlen pre -> length w = 8%nat ->
  memrev64 (pre ++ w ++ post) p = Some (pre ++ reverse w ++ post).
Proof.
  intros -> Hw. explode w. unfold memrev64. cbn [app].
  swap_step pre (@nil Z) c [c0; c1; c2; c3; c4; c5] c6 post.
  swap_step pre [c6] c0 [c1; c2; c3; c4] c5 (c :: post).
  swap_step pre [c6; c5] c1 [c2; c3] c4 (c0 :: c :: post).
  swap_step pre [c6; c5; c4] c2 (@nil Z) c3 (c1 :: c0 :: c :: post). done.
Qed.

Lemma reverse_host_bytes `{Host} n v :
  reverse (host_bytes n v) = if big_endian then le_bytes n v else be_bytes n v.
Proof.
  unfold host_bytes, be_bytes. destruct big_endian; [|done].
  apply reverse_involutive.
Qed.

(** The byte swap of an [n]-byte integer, independently of the host. *)
Definition byteswap (n : nat) (v : Z) : Z := le_val (be_bytes n v).

Lemma host_val_reverse `{Host} n v :
  host_val (reverse (host_bytes n v)) = byteswap n v.
Proof.
  rewrite reverse_host_bytes. unfold host_val, byteswap, be_val, be_bytes.
  by destruct big_endian.
Qed.

Lemma byteswap_involutive n v : byteswap n (byteswap n v) = v mod 2 ^ (8 * Z.of_nat n).
Proof.
  unfold byteswap at 1. unfold be_bytes, byteswap.
  replace (le_bytes n (le_val (be_bytes n v))) with (be_bytes n v).
  - apply be_val_bytes.
  - rewrite <- (length_be_bytes n v) at 2. symmetry. apply le_bytes_val.
    apply Forall_reverse, le_bytes_ok.
Qed.

Lemma intrev16_swap `{Host} v : intrev16 v = Some (byteswap 2 v).
Proof.
  unfold intrev16.
  pose proof (memrev16_reverse [] (host_bytes 2 v) [] 0 eq_refl
                (length_host_bytes _ _)) as E.
  cbn [app] in E. rewrite !app_nil_r in E. rewrite E. cbn.
  by rewrite host_val_reverse.
Qed.

Lemma intrev32_swap `{Host} v : intrev32 v = Some (byteswap 4 v).
Proof.
  unfold intrev32.
  pose proof (memrev32_reverse [] (host_bytes 4 v) [] 0 eq_refl
                (length_host_bytes _ _)) as E.
  cbn [app] in E. rewrite !app_nil_r in E. rewrite E. cbn.
  by rewrite host_val_reverse.
Qed.

Lemma intrev64_swap `{Host} v : intrev64 v = Some (byteswap 8 v).
Proof.
  unfold intrev64.
  pose proof (memrev64_reverse [] (host_bytes 8 v) [] 0 eq_refl
                (length_host_bytes _ _)) as E.
  cbn [app] in E. rewrite !app_nil_r in E. rewrite E. cbn.
  by rewrite host_val_reverse.
Qed.

(** ** What the [*ifbe] idiom guarantees on every host

    [v = load; intrevNNifbe(v)] reads a little-endian integer, and
    [store; memrevNNifbe] writes one. *)

Definition load_le (n : nat) (x : bytes) (p : Z) : option Z :=
  le_val <$> bslice x p (Z.of_nat n).
Definition store_le (n : nat) (x : bytes) (p v : Z) : option bytes :=
  bwrite x p (le_bytes n v).

Lemma length_bslice x p n s : bslice x p n = Some s -> zlen s = n.
Proof. intros (? & ? & _ & _ & ?)%bslice_Some. done. Qed.

Lemma bslice_ok x p n s : Forall byte_ok x -> bslice x p n = Some s -> Forall byte_ok s.
Proof.
  intros Hx (pre & post & -> & _ & _)%bslice_Some.
  apply Forall_app in Hx as [_ Hx]. by apply Forall_app in Hx as [Hx _].
Qed.

Lemma byteswap_be bs : Forall byte_ok bs -> byteswap (length bs) (be_val bs) = le_val bs.
Proof.
  intros Hb. unfold byteswap, be_bytes, be_val.
  rewrite <- (length_reverse bs), le_bytes_val by by apply Forall_reverse.
  by rewrite reverse_involutive.
Qed.

Section ifbe.
Context `{Host}.

Lemma load_ifbe n (rev : Z -> option Z) x p :
  (forall s, bslice x p (Z.of_nat n) = Some s -> Forall byte_ok s) ->
  (forall v, rev v = Some (byteswap n v)) ->
  (load n x p ≫= fun v => if big_endian then rev v else Some v) = load_le n x p.
Proof.
  intros Hx Hr. unfold load, load_le.
  destruct (bslice x p (Z.of_nat n)) as [s|] eqn:E; [|done]. cbn.
  specialize (Hx _ eq_refl). apply length_bslice in E.
  unfold host_val. destruct big_endian; [|done].
  rewrite Hr. f_equal. replace n with (length s) by lia. by apply byteswap_be.
Qed.

(** Reading back a field that was written in little-endian order. *)
Lemma load_ifbe_field n (rev : Z -> option Z) pre v post p :
  p = zlen pre -> 0 <= v < 2 ^ (8 * Z.of_nat n) ->
  (forall v, rev v = Some (byteswap n v)) ->
  (load n (pre ++ le_bytes n v ++ post) p
     ≫= fun v => if big_endian then rev v else Some v) = Some v.
Proof.
  intros -> Hv Hr.
  assert (E : bslice (pre ++ le_bytes n v ++ post) (zlen pre) (Z.of_nat n)
              = Some (le_bytes n v)).
  { apply bslice_app_at; [done|by rewrite length_le_bytes]. }
  rewrite load_ifbe; [|intros s; rewrite E; intros [= <-]; apply le_bytes_ok|done].
  unfold load_le. rewrite E. cbn. by rewrite le_val_bytes, Z.mod_small.
Qed.

Lemma load_field32 pre v post p :
  p = zlen pre -> 0 <= v < 2 ^ 32 ->
  (load 4 (pre ++ le_bytes 4 v ++ post) p ≫= intrev32ifbe) = Some v.
Proof. intros. apply load_ifbe_field; [done..|apply intrev32_swap]. Qed.

Lemma load_field16 pre v post p :
  p = zlen pre -> 0 <= v < 2 ^ 16 ->
  (load 2 (pre ++ le_bytes 2 v ++ post) p ≫= intrev16ifbe) = Some v.
Proof. intros. apply load_ifbe_field; [done..|apply intrev16_swap]. Qed.

Lemma load_le_intrev16 x p :
  Forall byte_ok x -> (load 2 x p ≫= intrev16ifbe) = load_le 2 x p.
Proof. intros. apply load_ifbe; [intros; by eapply bslice_ok|apply intrev16_swap]. Qed.

Lemma load_le_intrev32 x p :
  Forall byte_ok x -> (load 4 x p ≫= intrev32ifbe) = load_le 4 x p.
Proof. intros. apply load_ifbe; [intros; by eapply bslice_ok|apply intrev32_swap]. Qed.

Lemma load_le_intrev64 x p :
  Forall byte_ok x -> (load 8 x p ≫= intrev64ifbe) = load_le 8 x p.
Proof. intros. apply load_ifbe; [intros; by eapply bslice_ok|apply intrev64_swap]. Qed.

Lemma store_ifbe n (rev : bytes -> Z -> option bytes) x p v :
  (forall pre w post, length w = n ->
     rev (pre ++ w ++ post) (zlen pre) = Some (pre ++ reverse w ++ post)) ->
  (store n x p v ≫= fun x => if big_endian then rev x p else Some x)
  = store_le n x p v.
Proof.
  intros Hr. unfold store, store_le, bwrite.
  rewrite length_host_bytes, length_le_bytes.
  destruct (_ && _) eqn:E; [|done]. cbn. unfold host_bytes.
  destruct big_endian; [|done].
  replace p with (zlen (take (Z.to_nat p) x)) at 3 by (rewrite length_take; lia).
  rewrite Hr by apply length_be_bytes. unfold be_bytes.
  by rewrite reverse_involutive.
Qed.

Lemma store_le_memrev16 x p v :
  (store 2 x p v ≫= fun x => memrev16ifbe x p) = store_le 2 x p v.
Proof. apply store_ifbe. intros. by apply memrev16_reverse. Qed.

Lemma store_le_memrev32 x p v :
  (store 4 x p v ≫= fun x => memrev32ifbe x p) = store_le 4 x p v.
Proof. apply store_ifbe. intros. by apply memrev32_reverse. Qed.

Lemma store_le_memrev64 x p v :
  (store 8 x p v ≫= fun x => memrev64ifbe x p) = store_le 8 x p v.
Proof. apply store_ifbe. intros. by apply memrev64_reverse. Qed.

(** Writing through [intrevNNifbe] of the value. *)
Lemma store_le_intrev n (rev : Z -> option Z) x p v :
  (forall v, rev v = Some (byteswap n v)) ->
  ((if big_endian then rev v else Some v) ≫= store n x p) = store_le n x p v.
Proof.
  intros Hr. unfold store, store_le, host_bytes.
  destruct big_endian eqn:E; [|done]. rewrite Hr. cbn. f_equal.
  unfold be_bytes, byteswap.
  replace (le_bytes n (le_val (be_bytes n v))) with (be_bytes n v).
  - apply reverse_involutive.
  - rewrite <- (length_be_bytes n v) at 2. symmetry. apply le_bytes_val.
    apply Forall_reverse, le_bytes_ok.
Qed.

Lemma store_field n pre old post p v :
  p = zlen pre -> length old = n ->
  store_le n (pre ++ old ++ post) p v = Some (pre ++ le_bytes n v ++ post).
Proof.
  intros. unfold store_le. apply bwrite_app; [done|].
  rewrite length_le_bytes. done.
Qed.

(** [memrevNNifbe] on a local copy, then reading it: a little-endian read. *)
Lemma host_val_memrev {A} n (rev : bytes -> Z -> option bytes) s (f : Z -> A) :
  length s = n ->
  (forall pre w post, length w = n ->
     rev (pre ++ w ++ post) (zlen pre) = Some (pre ++ reverse w ++ post)) ->
  ((if big_endian then rev s 0 else Some s) ≫= fun x => Some (f (host_val x)))
  = Some (f (le_val s)).
Proof.
  intros Hs Hr. unfold host_val. destruct big_endian; [|done].
  specialize (Hr [] s [] Hs). cbn in Hr. change (Z.of_nat 0) with 0 in Hr.
  rewrite !app_nil_r in Hr. rewrite Hr.
  cbn. unfold be_val. by rewrite reverse_involutive.
Qed.

Lemma host_val_memrev16 {A} s (f : Z -> A) : length s = 2%nat ->
  (memrev16ifbe s 0 ≫= fun x => Some (f (host_val x))) = Some (f (le_val s)).
Proof. intros. apply (host_val_memrev 2); [done|]. intros. by apply memrev16_reverse. Qed.

Lemma host_val_memrev32 {A} s (f : Z -> A) : length s = 4%nat ->
  (memrev32ifbe s 0 ≫= fun x => Some (f (host_val x))) = Some (f (le_val s)).
Proof. intros. apply (host_val_memrev 4); [done|]. intros. by apply memrev32_reverse. Qed.

Lemma host_val_memrev64 {A} s (f : Z -> A) : length s = 8%nat ->
  (memrev64ifbe s 0 ≫= fun x => Some (f (host_val x))) = Some (f (le_val s)).
Proof. intros. apply (host_val_memrev 8); [done|]. intros. by apply memrev64_reverse. Qed.

Lemma store_le_intrev16 x p v :
  (intrev16ifbe v ≫= store 2 x p) = store_le 2 x p v.
Proof. apply store_le_intrev, intrev16_swap. Qed.

Lemma store_le_intrev32 x p v :
  (intrev32ifbe v ≫= store 4 x p) = store_le 4 x p v.
Proof. apply store_le_intrev, intrev32_swap. Qed.
End ifbe.
