(* ===== verification/Intset.v ===== *)
(** Integer sets: [intset.c].

    An intset is one heap block: a header of two 32-bit little-endian fields
    ([encoding], [length]) followed by [length] signed integers of [encoding]
    bytes each, in increasing order. The model keeps the block as the list of
    its bytes, so every read, write, [memmove] and [realloc] is the one of the
    source, and an access outside the block is [None]. *)
From S2P Require Import Prelude Endian.

Definition INTSET_ENC_INT16 : Z := 2.
Definition INTSET_ENC_INT32 : Z := 4.
Definition INTSET_ENC_INT64 : Z := 8.

(** [sizeof(intset)], the offset of [contents]; [offsetof(intset, length)]. *)
Definition sizeof_intset : Z := 8.
Definition off_length : Z := 4.

Definition _intsetValueEncoding (v : Z) : Z :=
  if (v <? INT32_MIN) || (v >? INT32_MAX) then INTSET_ENC_INT64
  else if (v <? INT16_MIN) || (v >? INT16_MAX) then INTSET_ENC_INT32
  else INTSET_ENC_INT16.

Section intset.
Context `{Host} `{Alloc}.

(** [intrev32ifbe(is->encoding)] and [intrev32ifbe(is->length)]. *)
Definition is_encoding (ist : bytes) : option Z := load 4 ist 0 ≫= intrev32ifbe.
Definition is_length (ist : bytes) : option Z := load 4 ist off_length ≫= intrev32ifbe.

Definition set_encoding (ist : bytes) (e : Z) : option bytes :=
  intrev32ifbe e ≫= store 4 ist 0.
Definition set_length (ist : bytes) (l : Z) : option bytes :=
  intrev32ifbe l ≫= store 4 ist off_length.

Definition _intsetGetEncoded (ist : bytes) (pos enc : Z) : option Z :=
  if enc =? INTSET_ENC_INT64 then
    v64 ← bslice ist (sizeof_intset + 8 * pos) 8;
    v64 ← memrev64ifbe v64 0;
    Some (swrap 64 (host_val v64))
  else if enc =? INTSET_ENC_INT32 then
    v32 ← bslice ist (sizeof_intset + 4 * pos) 4;
    v32 ← memrev32ifbe v32 0;
    Some (swrap 32 (host_val v32))
  else
    v16 ← bslice ist (sizeof_intset + 2 * pos) 2;
    v16 ← memrev16ifbe v16 0;
    Some (swrap 16 (host_val v16)).

Definition _intsetGet (ist : bytes) (pos : Z) : option Z :=
  e ← is_encoding ist;
  _intsetGetEncoded ist pos (uwrap 8 e).

Definition _intsetSet (ist : bytes) (pos value : Z) : option bytes :=
  encoding ← is_encoding ist;
  if encoding =? INTSET_ENC_INT64 then
    ist ← store 8 ist (sizeof_intset + 8 * pos) value;
    memrev64ifbe ist (sizeof_intset + 8 * pos)
  else if encoding =? INTSET_ENC_INT32 then
    ist ← store 4 ist (sizeof_intset + 4 * pos) value;
    memrev32ifbe ist (sizeof_intset + 4 * pos)
  else
    ist ← store 2 ist (sizeof_intset + 2 * pos) value;
    memrev16ifbe ist (sizeof_intset + 2 * pos).

Definition intsetNew : option bytes :=
  ist ← set_encoding (zmalloc sizeof_intset) INTSET_ENC_INT16;
  store 4 ist off_length 0.

(** [assert] failures are [None]. *)
Definition intsetResize (ist : bytes) (len : Z) : option bytes :=
  e ← is_encoding ist;
  let size := uwrap 64 (len * e) in
  if size <=? ULLONG_MAX - sizeof_intset
  then Some (zrealloc ist (sizeof_intset + size))
  else None.

(** The [while(max >= min)] loop; the result is [(min, mid, cur)] at its exit.
    [None] also stands for running out of fuel. *)
Fixpoint intsetSearch_loop (fuel : nat) (ist : bytes) (value min max mid cur : Z)
  : option (Z * Z * Z) :=
  match fuel with
  | O => None
  | S fuel =>
    if max >=? min then
      let mid := swrap 32 (Z.shiftr (uwrap 32 (uwrap 32 min + uwrap 32 max)) 1) in
      cur ← _intsetGet ist mid;
      if value >? cur then intsetSearch_loop fuel ist value (mid + 1) max mid cur
      else if value <? cur then intsetSearch_loop fuel ist value min (mid - 1) mid cur
      else Some (min, mid, cur)
    else Some (min, mid, cur)
  end.

(** Returns whether the value was found, and [*pos]. *)
Definition intsetSearch (ist : bytes) (value : Z) : option (bool * Z) :=
  len ← is_length ist;
  let max := swrap 32 (len - 1) in
  if len =? 0 then Some (false, 0)
  else
    last ← _intsetGet ist max;
    if value >? last then Some (false, len)
    else
      first ← _intsetGet ist 0;
      if value <? first then Some (false, 0)
      else
        '(min, mid, cur) ← intsetSearch_loop (S (Z.to_nat len)) ist value 0 max (-1) (-1);
        if value =? cur then Some (true, uwrap 32 mid) else Some (false, uwrap 32 min).

(** [while(length--) _intsetSet(is,length+prepend,_intsetGetEncoded(is,length,curenc))] *)
Fixpoint intsetUpgrade_loop (length : nat) (ist : bytes) (prepend curenc : Z) : option bytes :=
  match length with
  | O => Some ist
  | S length =>
    v ← _intsetGetEncoded ist (Z.of_nat length) curenc;
    ist ← _intsetSet ist (Z.of_nat length + prepend) v;
    intsetUpgrade_loop length ist prepend curenc
  end.

Definition intsetUpgradeAndAdd (ist : bytes) (value : Z) : option bytes :=
  curenc ← is_encoding ist;
  let curenc := uwrap 8 curenc in
  let newenc := _intsetValueEncoding value in
  len ← is_length ist;
  let length := swrap 32 len in
  let prepend := if value <? 0 then 1 else 0 in
  ist ← set_encoding ist newenc;
  ist ← intsetResize ist (uwrap 32 (len + 1));
  (* a negative [length] would count down past the block *)
  ist ← (if length <? 0 then None else intsetUpgrade_loop (Z.to_nat length) ist prepend curenc);
  ist ← (if prepend =? 1 then _intsetSet ist 0 value
        else len ← is_length ist; _intsetSet ist (swrap 32 len) value);
  len ← is_length ist;
  set_length ist (uwrap 32 (len + 1)).

Definition intsetMoveTail (ist : bytes) (from to : Z) : option bytes :=
  len ← is_length ist;
  let bytes := uwrap 32 (len - from) in
  encoding ← is_encoding ist;
  let size := if encoding =? INTSET_ENC_INT64 then 8
              else if encoding =? INTSET_ENC_INT32 then 4 else 2 in
  bmove ist (sizeof_intset + size * to) (sizeof_intset + size * from)
    (uwrap 32 (bytes * size)).

(** Returns the new block and [*success]. *)
Definition intsetAdd (ist : bytes) (value : Z) : option (bytes * bool) :=
  let valenc := _intsetValueEncoding value in
  e ← is_encoding ist;
  if valenc >? e then
    ist ← intsetUpgradeAndAdd ist value;
    Some (ist, true)
  else
    '(found, pos) ← intsetSearch ist value;
    if (found : bool) then Some (ist, false)
    else
      len ← is_length ist;
      ist ← intsetResize ist (uwrap 32 (len + 1));
      len ← is_length ist;
      ist ← (if pos <? len then intsetMoveTail ist pos (uwrap 32 (pos + 1)) else Some ist);
      ist ← _intsetSet ist (swrap 32 pos) value;
      len ← is_length ist;
      ist ← set_length ist (uwrap 32 (len + 1));
      Some (ist, true).

Definition intsetRemove (ist : bytes) (value : Z) : option (bytes * bool) :=
  let valenc := _intsetValueEncoding value in
  e ← is_encoding ist;
  if valenc <=? e then
    '(found, pos) ← intsetSearch ist value;
    if (found : bool) then
      len ← is_length ist;
      ist ← (if pos <? uwrap 32 (len - 1)
            then intsetMoveTail ist (uwrap 32 (pos + 1)) pos else Some ist);
      ist ← intsetResize ist (uwrap 32 (len - 1));
      ist ← set_length ist (uwrap 32 (len - 1));
      Some (ist, true)
    else Some (ist, false)
  else Some (ist, false).

Definition intsetFind (ist : bytes) (value : Z) : option bool :=
  let valenc := _intsetValueEncoding value in
  e ← is_encoding ist;
  if valenc <=? e then fst <$> intsetSearch ist value else Some false.

(** [rand()] is an argument. *)
Definition intsetRandom (ist : bytes) (rand : Z) : option Z :=
  len ← is_length ist;
  if len =? 0 then None
  else _intsetGet ist (swrap 32 (rand mod len)).

(** [None] is a fault, [Some None] the return value 0. *)
Definition intsetGet (ist : bytes) (pos : Z) : option (option Z) :=
  len ← is_length ist;
  if pos <? len then Some <$> _intsetGet ist (swrap 32 pos) else Some None.

Definition intsetLen (ist : bytes) : option Z := is_length ist.

Definition intsetBlobLen (ist : bytes) : option Z :=
  len ← is_length ist;
  e ← is_encoding ist;
  Some (uwrap 64 (sizeof_intset + uwrap 64 (len * e))).

(** [for (uint32_t i=1; i<count; i++)], from [i] on, [n] iterations left. *)
Fixpoint intsetValidate_loop (n : nat) (ist : bytes) (i prev : Z) : option bool :=
  match n with
  | O => Some true
  | S n =>
    cur ← _intsetGet ist (swrap 32 i);
    if cur <=? prev then Some false else intsetValidate_loop n ist (i + 1) cur
  end.

Definition intsetValidateIntegrity (ist : bytes) (size : Z) (deep : bool) : option bool :=
  if size <? sizeof_intset then Some false
  else
    encoding ← is_encoding ist;
    if negb ((encoding =? INTSET_ENC_INT64) || (encoding =? INTSET_ENC_INT32)
             || (encoding =? INTSET_ENC_INT16)) then Some false
    else
      let record_size := encoding in
      count ← is_length ist;
      if negb (uwrap 64 (sizeof_intset + uwrap 64 (count * record_size)) =? size) then Some false
      else if count =? 0 then Some false
      else if negb deep then Some true
      else
        prev ← _intsetGet ist 0;
        intsetValidate_loop (Z.to_nat (count - 1)) ist 1 prev.
End intset.

(** ** The set of integers a block represents *)

(** The encodings a block can have. *)
Definition enc_width (w : nat) : Prop := w = 2%nat \/ w = 4%nat \/ w = 8%nat.

(** The values that fit in [w] bytes. *)
Definition fits (w : nat) (v : Z) : Prop := in_s (8 * Z.of_nat w) v.

Fixpoint enc_list (w : nat) (l : list Z) : bytes :=
  match l with
  | [] => []
  | v :: l => le_bytes w v ++ enc_list w l
  end.

Definition block (e n : Z) (body : bytes) : bytes :=
  le_bytes 4 e ++ le_bytes 4 n ++ body.

(** [set_rep w l ist]: the block [ist], of encoding [w], holds exactly the
    elements of [l] in increasing order. *)
Record set_rep (w : nat) (l : list Z) (ist : bytes) : Prop := {
  rep_width : enc_width w;
  rep_fits : Forall (fits w) l;
  rep_sorted : StronglySorted Z.lt l;
  rep_len : zlen l < 2 ^ 31;
  rep_block : ist = block (Z.of_nat w) (zlen l) (enc_list w l)
}.

(** ** Reading and writing the fields of a block *)

Lemma length_enc_list w l : length (enc_list w l) = (w * length l)%nat.
Proof.
  induction l as [|v l IH]; cbn [enc_list length]; [lia|].
  rewrite length_app, length_le_bytes, IH. lia.
Qed.

Lemma enc_list_app w l1 l2 : enc_list w (l1 ++ l2) = enc_list w l1 ++ enc_list w l2.
Proof. induction l1 as [|v l IH]; cbn; [done|]. by rewrite IH, app_assoc. Qed.

Lemma length_block e n body : zlen (block e n body) = 8 + zlen body.
Proof. unfold block. rewrite !length_app, !length_le_bytes. lia. Qed.

Lemma fits_value w v : enc_width w -> fits w v -> swrap (8 * Z.of_nat w) v = v.
Proof. unfold enc_width. intros. apply swrap_small; [lia|done]. Qed.

Lemma ValueEncoding_fits v w :
  in_s 64 v -> enc_width w -> (_intsetValueEncoding v <= Z.of_nat w <-> fits w v).
Proof.
  unfold enc_width, fits, in_s, _intsetValueEncoding, INT32_MIN, INT32_MAX,
    INT16_MIN, INT16_MAX, INTSET_ENC_INT64, INTSET_ENC_INT32, INTSET_ENC_INT16.
  intros Hv Hw.
  destruct ((v <? -2147483648) || (v >? 2147483647)) eqn:E1;
  [|destruct ((v <? -32768) || (v >? 32767)) eqn:E2];
  destruct Hw as [->|[->| ->]]; cbn in *; lia.
Qed.

Lemma ValueEncoding_width v :
  in_s 64 v -> exists w, _intsetValueEncoding v = Z.of_nat w /\ enc_width w.
Proof.
  intros Hv. unfold _intsetValueEncoding, enc_width.
  destruct ((_ <? _) || _); [by exists 8%nat; auto|].
  destruct ((_ <? _) || _); [by exists 4%nat; auto|by exists 2%nat; auto].
Qed.

Section fields.
Context `{Host} `{Alloc}.

Lemma is_encoding_block e n body :
  0 <= e < 2 ^ 32 -> is_encoding (block e n body) = Some e.
Proof. intros. by apply (load_field32 []). Qed.

Lemma is_length_block e n body :
  0 <= n < 2 ^ 32 -> is_length (block e n body) = Some n.
Proof. intros. by apply (load_field32 (le_bytes 4 e)). Qed.

Lemma set_encoding_block e n body e' :
  set_encoding (block e n body) e' = Some (block e' n body).
Proof. unfold set_encoding. rewrite store_le_intrev32. by apply (store_field 4 []). Qed.

Lemma set_length_block e n body n' :
  set_length (block e n body) n' = Some (block e n' body).
Proof.
  unfold set_length. rewrite store_le_intrev32.
  by apply (store_field 4 (le_bytes 4 e)).
Qed.

Lemma bslice_block e n pre mid post off k :
  off = sizeof_intset + zlen pre -> k = zlen mid ->
  bslice (block e n (pre ++ mid ++ post)) off k = Some mid.
Proof.
  intros -> ->. unfold block, sizeof_intset. rewrite !(app_assoc _ _ (mid ++ _)).
  apply bslice_app_at; rewrite ?length_app, ?length_le_bytes; lia.
Qed.

Lemma bwrite_block e n pre mid post off src :
  off = sizeof_intset + zlen pre -> length src = length mid ->
  bwrite (block e n (pre ++ mid ++ post)) off src = Some (block e n (pre ++ src ++ post)).
Proof.
  intros -> Hs. unfold block, sizeof_intset. rewrite !(app_assoc _ _ (_ ++ post)).
  apply bwrite_app; [|done]. rewrite ?length_app, ?length_le_bytes; lia.
Qed.

(** [_intsetGetEncoded] with the three encodings folded into one. *)
Lemma GetEncoded_width w ist pos :
  enc_width w ->
  _intsetGetEncoded ist pos (Z.of_nat w)
  = s ← bslice ist (sizeof_intset + Z.of_nat w * pos) (Z.of_nat w);
    Some (swrap (8 * Z.of_nat w) (le_val s)).
Proof.
  unfold _intsetGetEncoded. intros [->|[->| ->]]; znat_lits;
    cbn [Z.eqb Pos.eqb INTSET_ENC_INT64 INTSET_ENC_INT32];
    destruct (bslice _ _ _) as [s|] eqn:E; try done; apply length_bslice in E;
    cbn [mbind option_bind].
  - by rewrite host_val_memrev16 by lia.
  - by rewrite host_val_memrev32 by lia.
  - by rewrite host_val_memrev64 by lia.
Qed.

Lemma GetEncoded_block w e n pre v post pos :
  enc_width w -> fits w v -> zlen pre = Z.of_nat w * pos ->
  _intsetGetEncoded (block e n (pre ++ le_bytes w v ++ post)) pos (Z.of_nat w) = Some v.
Proof.
  intros Hw Hv Hpos. rewrite GetEncoded_width by done.
  rewrite bslice_block by (rewrite ?length_le_bytes; lia). cbn.
  rewrite le_val_bytes, swrap_mod by (unfold enc_width in Hw; lia).
  by rewrite fits_value.
Qed.

Lemma intsetSet_block w n pre old post pos v :
  enc_width w -> zlen pre = Z.of_nat w * pos -> length old = w ->
  _intsetSet (block (Z.of_nat w) n (pre ++ old ++ post)) pos v
  = Some (block (Z.of_nat w) n (pre ++ le_bytes w v ++ post)).
Proof.
  intros Hw Hpos Hold. unfold _intsetSet.
  rewrite is_encoding_block by (unfold enc_width in Hw; lia). cbn [mbind option_bind].
  destruct Hw as [->|[->| ->]]; znat_lits;
    cbn [Z.eqb Pos.eqb INTSET_ENC_INT64 INTSET_ENC_INT32].
  - rewrite store_le_memrev16. apply bwrite_block; [lia|by rewrite length_le_bytes].
  - rewrite store_le_memrev32. apply bwrite_block; [lia|by rewrite length_le_bytes].
  - rewrite store_le_memrev64. apply bwrite_block; [lia|by rewrite length_le_bytes].
Qed.

Lemma intsetResize_grow w n body len :
  enc_width w -> 0 <= len < 2 ^ 32 -> zlen body <= len * Z.of_nat w ->
  exists fresh, zlen fresh = len * Z.of_nat w - zlen body /\
    intsetResize (block (Z.of_nat w) n body) len = Some (block (Z.of_nat w) n (body ++ fresh)).
Proof.
  intros Hw Hlen Hb. unfold intsetResize.
  rewrite is_encoding_block by (unfold enc_width in Hw; lia). cbn [mbind option_bind].
  assert (0 <= len * Z.of_nat w < 2 ^ 35) by (unfold enc_width in Hw; nia).
  rewrite uwrap_small by (unfold in_u; lia). unfold ULLONG_MAX, sizeof_intset. if_true.
  destruct (zrealloc_grow (block (Z.of_nat w) n body) (8 + len * Z.of_nat w))
    as (fresh & -> & Hf & _).
  - rewrite length_block. lia.
  - rewrite length_block in Hf. exists fresh. split; [lia|].
    unfold block. by rewrite <- !app_assoc.
Qed.

Lemma intsetResize_shrink w n b1 b2 len :
  enc_width w -> 0 <= len < 2 ^ 32 -> zlen b1 = len * Z.of_nat w ->
  intsetResize (block (Z.of_nat w) n (b1 ++ b2)) len = Some (block (Z.of_nat w) n b1).
Proof.
  intros Hw Hlen Hb. unfold intsetResize.
  rewrite is_encoding_block by (unfold enc_width in Hw; lia). cbn [mbind option_bind].
  assert (0 <= len * Z.of_nat w < 2 ^ 35) by (unfold enc_width in Hw; nia).
  rewrite uwrap_small by (unfold in_u; lia). unfold ULLONG_MAX, sizeof_intset. if_true.
  f_equal. unfold block. rewrite !app_assoc. apply zrealloc_shrink.
  rewrite !length_app, !length_le_bytes. lia.
Qed.

Lemma intsetGet_block w n l tail (i : nat) v :
  enc_width w -> Forall (fits w) l -> l !! i = Some v ->
  _intsetGet (block (Z.of_nat w) n (enc_list w l ++ tail)) (Z.of_nat i) = Some v.
Proof.
  intros Hw Hf Hi. unfold _intsetGet.
  rewrite is_encoding_block by (unfold enc_width in Hw; lia). cbn [mbind option_bind].
  rewrite uwrap_small by (unfold in_u, enc_width in *; lia).
  pose proof (lookup_lt_Some _ _ _ Hi) as Hlt.
  rewrite <- (take_drop_middle l i v Hi), enc_list_app, <- app_assoc. cbn [enc_list].
  rewrite <- app_assoc. apply GetEncoded_block; [done| |].
  - by apply (Forall_lookup_1 _ _ _ _ Hf Hi).
  - rewrite length_enc_list, length_take. lia.
Qed.
End fields.

(** ** Binary search *)

Section search.
Context `{Host} `{Alloc}.
Variable ist : bytes.
Variable l : list Z.
Variable v : Z.
Hypothesis get_ok : forall i x, l !! i = Some x -> _intsetGet ist (Z.of_nat i) = Some x.
Hypothesis l_sorted : StronglySorted Z.lt l.
Hypothesis l_small : zlen l < 2 ^ 31.

(** [i] is where [v] is or belongs. *)
Definition lower_bound (i : Z) : Prop :=
  (0 <= i <= zlen l) /\ Forall (fun y => y < v) (take (Z.to_nat i) l)
  /\ Forall (fun y => v <= y) (drop (Z.to_nat i) l).

Lemma lower_bound_notin i :
  0 <= i <= zlen l -> Forall (fun y => y < v) (take (Z.to_nat i) l) ->
  Forall (fun y => v < y) (drop (Z.to_nat i) l) -> (v ∉ l) /\ lower_bound i.
Proof.
  intros Hi H1 H2. split.
  - rewrite <- (take_drop (Z.to_nat i) l), elem_of_app.
    rewrite Forall_forall in H1, H2. intros [Hv|Hv]; [apply H1 in Hv|apply H2 in Hv]; lia.
  - repeat split; [lia..|done|]. eapply Forall_impl; [done|]. cbn. lia.
Qed.

Lemma lower_bound_in (i : nat) : l !! i = Some v -> (v ∈ l) /\ lower_bound (Z.of_nat i).
Proof.
  intros Hi. split; [by eapply list_elem_of_lookup_2|].
  destruct (sorted_lookup_split l i v l_sorted Hi) as [H1 H2].
  pose proof (lookup_lt_Some _ _ _ Hi). unfold lower_bound. rewrite Nat2Z.id.
  repeat split; [lia..|done|].
  rewrite (drop_S _ _ _ Hi). constructor; [lia|]. eapply Forall_impl; [done|]. cbn. lia.
Qed.

Lemma search_mid mn mx :
  0 <= mn <= mx -> mx < zlen l ->
  swrap 32 (Z.shiftr (uwrap 32 (uwrap 32 mn + uwrap 32 mx)) 1) = (mn + mx) / 2.
Proof.
  intros. rewrite (uwrap_small 32 mn), (uwrap_small 32 mx), uwrap_small by (unfold in_u; lia).
  rewrite Z.shiftr_div_pow2 by lia. change (2 ^ 1) with 2.
  apply swrap_small; [lia|]. unfold in_s. change (2 ^ (32 - 1)) with (2 ^ 31).
  assert (0 <= (mn + mx) / 2 <= mx) by (split; [apply Z.div_pos|apply Z.div_le_upper_bound]; lia).
  lia.
Qed.

Lemma search_loop_spec fuel : forall mn mx mid cur,
  0 <= mn <= mx + 1 -> mx < zlen l ->
  Forall (fun y => y < v) (take (Z.to_nat mn) l) ->
  Forall (fun y => v < y) (drop (Z.to_nat (mx + 1)) l) ->
  (mx < mn -> cur <> v) -> mx - mn + 1 < Z.of_nat fuel ->
  exists mn' mid' cur',
    intsetSearch_loop fuel ist v mn mx mid cur = Some (mn', mid', cur') /\
    (((v ∈ l) /\ cur' = v /\ lower_bound mid' /\ mid' < zlen l)
     \/ ((v ∉ l) /\ cur' <> v /\ lower_bound mn')).
Proof.
  induction fuel as [|fuel IH]; intros mn mx mid cur Hmn Hmx Hlo Hhi Hcur Hfuel; [lia|].
  cbn [intsetSearch_loop]. case_if_lia.
  - rewrite search_mid by lia.
    set (m := (mn + mx) / 2).
    assert (Hm : mn <= m <= mx).
    { unfold m. split; [apply Z.div_le_lower_bound|apply Z.div_le_upper_bound]; lia. }
    destruct (lookup_lt_is_Some_2 l (Z.to_nat m)) as [x Hx]; [lia|].
    assert (Hg : _intsetGet ist m = Some x)
      by (rewrite <- (get_ok _ _ Hx); f_equal; lia).
    rewrite Hg. cbn [mbind option_bind].
    destruct (sorted_lookup_split l _ x l_sorted Hx) as [H1 H2].
    repeat case_if_lia.
    + apply IH; try lia; [|done].
      replace (Z.to_nat (m + 1)) with (S (Z.to_nat m)) by lia.
      rewrite (take_S_r _ _ _ Hx). apply Forall_app. split; [|constructor; [lia|done]].
      eapply Forall_impl; [done|]. cbn. lia.
    + apply IH; try lia; [done|]. replace (m - 1 + 1) with m by lia.
      rewrite (drop_S _ _ _ Hx). constructor; [lia|]. eapply Forall_impl; [done|]. cbn. lia.
    + exists mn, m, x. split; [done|]. left. assert (x = v) as -> by lia.
      destruct (lower_bound_in _ Hx) as [? Hb]. rewrite Z2Nat.id in Hb by lia.
      repeat split; try done; try apply Hb; lia.
  - exists mn, mid, cur. split; [done|]. right.
    assert (mn = mx + 1) as -> by lia.
    destruct (lower_bound_notin (mx + 1)) as [? ?]; [lia|done|done|]. split; [done|].
    split; [apply Hcur; lia|done].
Qed.
End search.

(** ** Operations on the represented set *)

Section ops.
Context `{Host} `{Alloc}.

Lemma rep_get w l ist (i : nat) x :
  set_rep w l ist -> l !! i = Some x -> _intsetGet ist (Z.of_nat i) = Some x.
Proof.
  intros [Hw Hf _ _ ->] Hi.
  rewrite <- (app_nil_r (enc_list w l)). by apply intsetGet_block.
Qed.

Lemma rep_length w l ist : set_rep w l ist -> is_length ist = Some (zlen l).
Proof. intros [? ? ? ? ->]. apply is_length_block. lia. Qed.

Lemma rep_encoding w l ist : set_rep w l ist -> is_encoding ist = Some (Z.of_nat w).
Proof. intros [Hw ? ? ? ->]. apply is_encoding_block. unfold enc_width in Hw. lia. Qed.

Lemma intsetSearch_spec w l ist v :
  set_rep w l ist ->
  exists pos, intsetSearch ist v = Some (bool_decide (v ∈ l), pos) /\ lower_bound l v pos.
Proof.
  intros Hr. pose proof (rep_get w l ist) as Hg. pose proof (rep_sorted _ _ _ Hr) as Hs.
  pose proof (rep_len _ _ _ Hr) as Hn.
  unfold intsetSearch. rewrite (rep_length _ _ _ Hr). cbn [mbind option_bind].
  case_if_lia.
  { destruct l; [|cbn in E; lia]. exists 0. split; [done|]. repeat split; try done; constructor. }
  rewrite swrap_small by (unfold in_s; cbn; lia).
  destruct (lookup_lt_is_Some_2 l (length l - 1)) as [x Hx]; [lia|].
  destruct (lookup_lt_is_Some_2 l 0) as [y Hy]; [lia|].
  replace (zlen l - 1) with (Z.of_nat (length l - 1)) by lia.
  rewrite (Hg _ _ Hr Hx). cbn [mbind option_bind].
  destruct (sorted_lookup_split l _ x Hs Hx) as [Hlx _].
  destruct (sorted_lookup_split l _ y Hs Hy) as [_ Hly].
  case_if_lia.
  { exists (zlen l). destruct (lower_bound_notin l v (zlen l)) as [Hn' Hb]; try lia.
    - rewrite Nat2Z.id, take_ge by lia.
      rewrite <- (take_ge l (S (length l - 1))), (take_S_r _ _ _ Hx) by lia.
      apply Forall_app. split; [|constructor; [lia|done]].
      eapply Forall_impl; [done|]. cbn. lia.
    - rewrite Nat2Z.id, drop_ge by lia. done.
    - by rewrite bool_decide_false. }
  rewrite (Hg O _ Hr Hy : _intsetGet ist 0 = Some y). cbn [mbind option_bind].
  case_if_lia.
  { exists 0. destruct (lower_bound_notin l v 0) as [Hn' Hb]; try lia; [done| |].
    - change (Z.to_nat 0) with O. rewrite (drop_S _ _ _ Hy).
      constructor; [lia|]. eapply Forall_impl; [done|]. cbn. lia.
    - by rewrite bool_decide_false. }
  destruct (search_loop_spec ist l v (fun i x => Hg i x Hr) Hs Hn
              (S (Z.to_nat (zlen l))) 0 (Z.of_nat (length l - 1)) (-1) (-1))
    as (mn & mid & cur & -> & Hres); try lia; [done| |].
  { rewrite drop_ge by lia. done. }
  cbn. destruct Hres as [(Hin & -> & Hb & Hlt)|(Hnin & Hc & Hb)].
  - rewrite Z.eqb_refl, bool_decide_true by done. exists mid.
    rewrite uwrap_small; [done|]. unfold in_u. destruct Hb. lia.
  - if_false. rewrite bool_decide_false by done. exists mn.
    rewrite uwrap_small; [done|]. unfold in_u. destruct Hb. lia.
Qed.

(** The list around the position [intsetSearch] returns. *)
Lemma lower_bound_notin_split l v pos :
  lower_bound l v pos -> v ∉ l ->
  exists l1 l2, l = l1 ++ l2 /\ zlen l1 = pos /\ Forall (fun y => y < v) l1
                /\ Forall (fun y => v < y) l2.
Proof.
  intros (Hp & H1 & H2) Hv. exists (take (Z.to_nat pos) l), (drop (Z.to_nat pos) l).
  rewrite take_drop, length_take. repeat split; [lia|done|].
  rewrite Forall_forall in H2 |- *. intros y Hy. pose proof (H2 y Hy).
  assert (y <> v); [|lia]. intros ->. apply Hv.
  rewrite <- (take_drop (Z.to_nat pos) l). apply elem_of_app. by right.
Qed.

Lemma lower_bound_in_split l v pos :
  lower_bound l v pos -> StronglySorted Z.lt l -> v ∈ l ->
  exists l1 l2, l = l1 ++ v :: l2 /\ zlen l1 = pos.
Proof.
  intros (Hp & H1 & H2) Hs Hv.
  rewrite <- (take_drop (Z.to_nat pos) l) in Hv. apply elem_of_app in Hv as [Hv|Hv].
  { rewrite Forall_forall in H1. apply H1 in Hv. lia. }
  destruct (drop (Z.to_nat pos) l) as [|x l2] eqn:E; [by apply elem_of_nil in Hv|].
  exists (take (Z.to_nat pos) l), l2. rewrite length_take. split; [|lia].
  rewrite <- (take_drop (Z.to_nat pos) l) in Hs |- * at 1. rewrite E in *. do 2 f_equal.
  apply StronglySorted_app in Hs as (_ & _ & Hs).
  apply StronglySorted_cons in Hs as [Hs _]. rewrite Forall_forall in Hs.
  apply Forall_cons in H2 as [Hx _].
  apply elem_of_cons in Hv as [->|Hv]; [done|]. apply Hs in Hv. lia.
Qed.

Lemma MoveTail_size w : enc_width w ->
  (if Z.of_nat w =? INTSET_ENC_INT64 then 8
   else if Z.of_nat w =? INTSET_ENC_INT32 then 4 else 2) = Z.of_nat w.
Proof. by intros [->|[->| ->]]. Qed.

Lemma MoveTail_right w l1 l2 fresh n from to :
  enc_width w -> length fresh = w -> n = zlen l1 + zlen l2 -> n < 2 ^ 29 ->
  from = zlen l1 -> to = from + 1 ->
  exists x, length x = w /\
    intsetMoveTail (block (Z.of_nat w) n (enc_list w l1 ++ enc_list w l2 ++ fresh)) from to
    = Some (block (Z.of_nat w) n (enc_list w l1 ++ x ++ enc_list w l2)).
Proof.
  intros Hw Hf Hn Hlt -> ->. unfold intsetMoveTail.
  rewrite is_length_block, is_encoding_block by (unfold enc_width in Hw; lia).
  cbn [mbind option_bind]. rewrite MoveTail_size by done.
  rewrite (uwrap_small 32 (n - _)), uwrap_small by (unfold in_u, enc_width in *; lia).
  destruct (bmove_right (le_bytes 4 (Z.of_nat w) ++ le_bytes 4 n ++ enc_list w l1)
              (enc_list w l2) fresh
              (sizeof_intset + Z.of_nat w * (zlen l1 + 1))
              (sizeof_intset + Z.of_nat w * zlen l1) ((n - zlen l1) * Z.of_nat w))
    as (x & Hx & E);
    rewrite ?length_app, ?length_enc_list, ?length_le_bytes; unfold sizeof_intset; try lia.
  exists x. split; [lia|]. unfold block. rewrite <- !app_assoc in E. exact E.
Qed.

Lemma MoveTail_left w l1 gap l2 n from to :
  enc_width w -> length gap = w -> n = zlen l1 + 1 + zlen l2 -> n < 2 ^ 29 ->
  to = zlen l1 -> from = to + 1 ->
  exists x,
    intsetMoveTail (block (Z.of_nat w) n (enc_list w l1 ++ gap ++ enc_list w l2)) from to
    = Some (block (Z.of_nat w) n ((enc_list w l1 ++ enc_list w l2) ++ x)).
Proof.
  intros Hw Hf Hn Hlt -> ->. unfold intsetMoveTail.
  rewrite is_length_block, is_encoding_block by (unfold enc_width in Hw; lia).
  cbn [mbind option_bind]. rewrite MoveTail_size by done.
  rewrite (uwrap_small 32 (n - _)), uwrap_small by (unfold in_u, enc_width in *; lia).
  destruct (bmove_left (le_bytes 4 (Z.of_nat w) ++ le_bytes 4 n ++ enc_list w l1)
              gap (enc_list w l2)
              (sizeof_intset + Z.of_nat w * zlen l1)
              (sizeof_intset + Z.of_nat w * (zlen l1 + 1))
              ((n - (zlen l1 + 1)) * Z.of_nat w))
    as (x & Hx & E);
    rewrite ?length_app, ?length_enc_list, ?length_le_bytes; unfold sizeof_intset; try lia.
  exists x. unfold block. rewrite <- !app_assoc in E |- *. exact E.
Qed.

(** A suffix of the given length. *)
Lemma split_suffix (g : bytes) (k : nat) :
  (k <= length g)%nat -> exists g1 g2, g = g1 ++ g2 /\ length g2 = k.
Proof.
  intros. exists (take (length g - k) g), (drop (length g - k) g).
  rewrite take_drop, length_drop. split; [done|lia].
Qed.

(** Re-encoding back to front never overwrites an element that is still to be
    read: after the elements of [l2] have moved, those of [l1] are intact. *)
Lemma upgrade_loop_spec cw nw n p tail : forall l1 l2 gap,
  enc_width cw -> enc_width nw -> (cw < nw)%nat -> Forall (fits cw) l1 -> 0 <= p ->
  zlen (enc_list cw l1) + zlen gap = (zlen l1 + p) * Z.of_nat nw ->
  exists gap', zlen gap' = p * Z.of_nat nw /\
    intsetUpgrade_loop (length l1)
      (block (Z.of_nat nw) n (enc_list cw l1 ++ gap ++ enc_list nw l2 ++ tail)) p (Z.of_nat cw)
    = Some (block (Z.of_nat nw) n (gap' ++ enc_list nw (l1 ++ l2) ++ tail)).
Proof.
  induction l1 as [|v l1 IH] using rev_ind; intros l2 gap Hcw Hnw Hlt Hf Hp Hgap.
  { exists gap. split; [cbn in Hgap; lia|done]. }
  apply Forall_app in Hf as [Hf Hv]. apply Forall_cons in Hv as [Hv _].
  rewrite enc_list_app in *. cbn [enc_list] in *. rewrite app_nil_r in *.
  rewrite !length_app in Hgap. rewrite length_app. cbn [length] in *.
  rewrite Nat.add_1_r. cbn [intsetUpgrade_loop].
  rewrite !length_enc_list, !length_le_bytes in Hgap.
  rewrite <- app_assoc, GetEncoded_block by (rewrite ?length_enc_list; lia || done).
  cbn [mbind option_bind].
  destruct (split_suffix (le_bytes cw v ++ gap) nw) as (g1 & g2 & Hg & Hg2).
  { rewrite length_app, length_le_bytes. nia. }
  pose proof (f_equal length Hg) as Hlen. rewrite !length_app, length_le_bytes in Hlen.
  rewrite (app_assoc (le_bytes cw v)), Hg, <- app_assoc, (app_assoc (enc_list cw l1)).
  rewrite intsetSet_block by (rewrite ?length_app, ?length_enc_list; done || nia).
  cbn [mbind option_bind]. rewrite <- !app_assoc.
  destruct (IH (v :: l2) g1) as (gap' & Hgap' & E); try done.
  { rewrite length_enc_list. nia. }
  exists gap'. split; [done|]. cbn [enc_list] in E. rewrite <- app_assoc in E.
  exact E.
Qed.

(** A value that needs a larger encoding lies outside the represented range. *)
Lemma upgrade_extreme w v :
  in_s 64 v -> enc_width w -> Z.of_nat w < _intsetValueEncoding v ->
  forall x, fits w x -> if v <? 0 then v < x else x < v.
Proof.
  intros Hv Hw Hlt x Hx. pose proof (ValueEncoding_fits v w Hv Hw) as Hf.
  assert (Hn : ~ fits w v) by (rewrite <- Hf; lia).
  unfold fits, in_s in *.
  assert (0 < 2 ^ (8 * Z.of_nat w - 1)) by (apply Z.pow_pos_nonneg; unfold enc_width in Hw; lia).
  case_if_lia.
Qed.

Lemma fits_mono w w' v :
  enc_width w -> enc_width w' -> (w <= w')%nat -> fits w v -> fits w' v.
Proof.
  unfold fits, in_s. intros Hw Hw' Hle.
  assert (2 ^ (8 * Z.of_nat w - 1) <= 2 ^ (8 * Z.of_nat w' - 1))
    by (apply Z.pow_le_mono_r; lia). lia.
Qed.

Lemma intsetUpgradeAndAdd_spec w l ist v :
  set_rep w l ist -> in_s 64 v -> Z.of_nat w < _intsetValueEncoding v -> zlen l < 2 ^ 31 - 1 ->
  exists w' ist', intsetUpgradeAndAdd ist v = Some ist' /\
    set_rep w' (if v <? 0 then v :: l else l ++ [v]) ist'.
Proof.
  intros Hr Hv Hlt Hmax. pose proof (upgrade_extreme w v Hv (rep_width _ _ _ Hr) Hlt) as Hext.
  destruct (ValueEncoding_width v Hv) as (nw & Hnw & Hnww).
  unfold intsetUpgradeAndAdd.
  rewrite (rep_encoding _ _ _ Hr), (rep_length _ _ _ Hr). cbn [mbind option_bind].
  destruct Hr as [Hw Hf Hs Hn ->].
  rewrite Hnw, set_encoding_block in *. cbn [mbind option_bind].
  rewrite !uwrap_small by (unfold in_u, enc_width in *; lia).
  rewrite swrap_small by (unfold in_s; cbn; lia).
  destruct (intsetResize_grow nw (zlen l) (enc_list w l) (zlen l + 1)) as (fresh & Hfr & ->);
    [done|lia|rewrite length_enc_list; nia|]. rewrite length_enc_list in Hfr.
  cbn [mbind option_bind]. if_false. rewrite Nat2Z.id. exists nw.
  assert (Hfv : fits nw v) by (apply ValueEncoding_fits; [done..|lia]).
  assert (Hfl : Forall (fits nw) l)
    by (eapply Forall_impl; [done|]; intros x; apply fits_mono; done || lia).
  destruct (v <? 0) eqn:E.
  - destruct (upgrade_loop_spec w nw (zlen l) 1 [] l [] fresh) as (gap & Hgap & HL);
      try done; try lia; [rewrite length_enc_list; lia|].
    cbn [enc_list app] in HL. rewrite !app_nil_r in HL. rewrite HL. cbn [mbind option_bind].
    change (1 =? 1) with true. cbv iota.
    rewrite (intsetSet_block nw (zlen l) [] gap (enc_list nw l)) by (done || cbn; lia).
    cbn [mbind option_bind app]. rewrite is_length_block by lia. cbn [mbind option_bind].
    rewrite set_length_block. eexists. split; [done|].
    rewrite uwrap_small by (unfold in_u; lia). split; try done.
    + by constructor.
    + constructor; [done|]. rewrite Forall_forall in Hf |- *. intros x Hx.
      by apply Hext, Hf.
    + cbn [length]. lia.
    + f_equal. cbn [length]. lia.
  - destruct (split_suffix fresh nw) as (f1 & f2 & -> & Hf2); [nia|].
    rewrite length_app in Hfr.
    destruct (upgrade_loop_spec w nw (zlen l) 0 f2 l [] f1) as (gap & Hgap & HL);
      try done; try lia; [rewrite length_enc_list; nia|].
    cbn [enc_list app] in HL. rewrite !app_nil_r in HL. rewrite HL. cbn [mbind option_bind].
    change (0 =? 1) with false. cbv iota. rewrite is_length_block by lia. cbn [mbind option_bind].
    destruct gap; [|cbn in Hgap; lia]. cbn [app]. rewrite swrap_small by (unfold in_s; cbn; lia).
    rewrite <- (app_nil_r f2).
    rewrite intsetSet_block by (rewrite ?length_enc_list; done || lia). cbn [mbind option_bind].
    rewrite is_length_block by lia. cbn [mbind option_bind].
    rewrite set_length_block. eexists. split; [done|].
    rewrite uwrap_small by (unfold in_u; lia). split; try done.
    + apply Forall_app. auto.
    + apply sorted_insert_mid; [by rewrite app_nil_r| |done].
      rewrite Forall_forall in Hf |- *. intros x Hx. by apply Hext, Hf.
    + rewrite length_app. cbn. lia.
    + f_equal; [rewrite length_app; cbn; lia|]. by rewrite enc_list_app.
Qed.
End ops.

(** ** Decoding an arbitrary block *)

Lemma dec_list_exists w n : forall body,
  enc_width w -> Forall byte_ok body -> length body = (w * n)%nat ->
  exists l, length l = n /\ Forall (fits w) l /\ enc_list w l = body.
Proof.
  induction n as [|n IH]; intros body Hw Hok Hlen.
  { exists []. destruct body; [done|cbn in Hlen; lia]. }
  destruct (IH (drop w body)) as (l & Hl & Hf & He); [done|by apply Forall_drop| |].
  { rewrite length_drop. lia. }
  assert (1 <= 8 * Z.of_nat w) by (unfold enc_width in Hw; lia).
  set (v := swrap (8 * Z.of_nat w) (le_val (take w body))).
  exists (v :: l). split; [cbn; lia|]. split.
  - constructor; [by apply swrap_range|done].
  - cbn [enc_list]. rewrite He. rewrite <- (take_drop w body) at 2. f_equal.
    rewrite (le_bytes_cong w v (le_val (take w body))) by by apply swrap_cong.
    rewrite <- (le_bytes_val (take w body)) at 2 by by apply Forall_take.
    f_equal. rewrite length_take. lia.
Qed.

Section validate.
Context `{Host} `{Alloc}.

(** The loop accepts exactly the sorted continuations of [prev]. *)
Lemma validate_loop_spec ist (l : list Z) (i : nat) prev :
  (forall j x, l !! j = Some x -> _intsetGet ist (Z.of_nat (i + j)) = Some x) ->
  Z.of_nat i + zlen l < 2 ^ 31 ->
  intsetValidate_loop (length l) ist (Z.of_nat i) prev
  = Some (bool_decide (Sorted Z.lt (prev :: l))).
Proof.
  revert i prev. induction l as [|x l IH]; intros i prev Hg Hn; cbn [intsetValidate_loop length].
  { by rewrite bool_decide_true by repeat constructor. }
  cbn [length] in Hn. rewrite swrap_small by (unfold in_s; cbn; lia).
  pose proof (Hg O x eq_refl) as Hx. rewrite Nat.add_0_r in Hx. rewrite Hx.
  cbn [mbind option_bind]. case_if_lia.
  - rewrite bool_decide_false; [done|]. intros Hs%Sorted_inv.
    destruct Hs as [_ Hs%HdRel_inv]. lia.
  - replace (Z.of_nat i + 1) with (Z.of_nat (S i)) by lia. rewrite IH; [|..|lia].
    + f_equal. apply bool_decide_ext. split; intros Hs.
      * constructor; [done|]. constructor. lia.
      * by apply Sorted_inv in Hs as [Hs _].
    + intros j y Hj. rewrite <- (Hg (S j) y Hj). f_equal. lia.
Qed.

Lemma block_decode ist :
  Forall byte_ok ist -> 8 <= zlen ist ->
  exists e n body, ist = block e n body /\ 0 <= e < 2 ^ 32 /\ 0 <= n < 2 ^ 32
                   /\ Forall byte_ok body.
Proof.
  intros Hok Hlen.
  exists (le_val (take 4 ist)), (le_val (take 4 (drop 4 ist))), (drop 8 ist).
  assert (Ha : Forall byte_ok (take 4 ist)) by by apply Forall_take.
  assert (Hb : Forall byte_ok (take 4 (drop 4 ist))) by by apply Forall_take, Forall_drop.
  assert (La : length (take 4 ist) = 4%nat) by (rewrite length_take; lia).
  assert (Lb : length (take 4 (drop 4 ist)) = 4%nat) by (rewrite length_take, length_drop; lia).
  pose proof (le_val_range _ Ha) as Ra. pose proof (le_val_range _ Hb) as Rb.
  rewrite La in Ra. rewrite Lb in Rb. split; [|by auto using Forall_drop].
  unfold block. pose proof (le_bytes_val _ Ha) as Ea. pose proof (le_bytes_val _ Hb) as Eb.
  rewrite La in Ea. rewrite Lb in Eb. rewrite Ea, Eb.
  change 8%nat with (4 + 4)%nat. rewrite <- drop_drop. by rewrite !take_drop.
Qed.
End validate.

(** * Theorems *)

(** An empty intset represents the empty set. *)
Lemma intsetNew_spec `{Host} `{Alloc} : exists ist, intsetNew = Some ist /\ set_rep 2 [] ist.
Proof.
  unfold intsetNew.
  assert (Hz : zlen (zmalloc sizeof_intset) = 8) by by apply zlen_zrealloc.
  destruct (split_suffix (zmalloc sizeof_intset) 4) as (x & y & Hxy & Hy); [lia|].
  rewrite Hxy in *. rewrite length_app in Hz. unfold set_encoding.
  rewrite store_le_intrev32, (store_field 4 [] x y) by (done || lia).
  cbn [mbind option_bind app].
  exists (block 2 0 []). split.
  - unfold store. rewrite <- (app_nil_r y), bwrite_app by (rewrite ?length_host_bytes; done).
    unfold host_bytes, be_bytes, block. by destruct big_endian.
  - split; try done; [by left|apply SSorted_nil].
Qed.

(** Making room at [pos]: the elements from [pos] on move up by one. *)
Lemma make_room_spec `{Host} `{Alloc} w l1 l2 fresh n pos :
  enc_width w -> length fresh = w -> n = zlen l1 + zlen l2 -> n < 2 ^ 29 -> pos = zlen l1 ->
  exists x, length x = w /\
    (if pos <? n then
       intsetMoveTail (block (Z.of_nat w) n (enc_list w l1 ++ enc_list w l2 ++ fresh))
         pos (uwrap 32 (pos + 1))
     else Some (block (Z.of_nat w) n (enc_list w l1 ++ enc_list w l2 ++ fresh)))
    = Some (block (Z.of_nat w) n (enc_list w l1 ++ x ++ enc_list w l2)).
Proof.
  intros Hw Hf Hn Hmax ->. case_if_lia.
  - apply MoveTail_right; try done. rewrite uwrap_small by (unfold in_u; lia). done.
  - destruct l2; [|cbn in *; lia]. exists fresh. split; [done|].
    cbn [enc_list app]. by rewrite app_nil_r.
Qed.

(** The part of [intsetAdd] after an unsuccessful search. *)
Lemma insert_at_spec `{Host} `{Alloc} w l1 l2 v pos :
  set_rep w (l1 ++ l2) (block (Z.of_nat w) (zlen (l1 ++ l2)) (enc_list w (l1 ++ l2))) ->
  zlen (l1 ++ l2) < 2 ^ 29 -> pos = zlen l1 -> fits w v ->
  Forall (fun y => y < v) l1 -> Forall (fun y => v < y) l2 ->
  exists ist',
    (ist ← intsetResize (block (Z.of_nat w) (zlen (l1 ++ l2)) (enc_list w (l1 ++ l2)))
             (uwrap 32 (zlen (l1 ++ l2) + 1));
     len ← is_length ist;
     ist ← (if pos <? len then intsetMoveTail ist pos (uwrap 32 (pos + 1)) else Some ist);
     ist ← _intsetSet ist (swrap 32 pos) v;
     len ← is_length ist;
     ist ← set_length ist (uwrap 32 (len + 1));
     Some (ist, true)) = Some (ist', true) /\ set_rep w (l1 ++ v :: l2) ist'.
Proof.
  intros [Hw Hf Hs Hn _] Hmax -> Hv Hl1 Hl2. rewrite length_app in *.
  rewrite (uwrap_small 32 (Z.of_nat (length l1 + length l2) + 1)) by (unfold in_u; lia).
  destruct (intsetResize_grow w (Z.of_nat (length l1 + length l2)) (enc_list w (l1 ++ l2))
              (Z.of_nat (length l1 + length l2) + 1)) as (fresh & Hfr & ->);
    [done|lia|rewrite length_enc_list, length_app; nia|].
  cbn [mbind option_bind]. rewrite is_length_block by lia. cbn [mbind option_bind].
  rewrite length_enc_list, length_app in Hfr. rewrite enc_list_app, <- app_assoc.
  destruct (make_room_spec w l1 l2 fresh (Z.of_nat (length l1 + length l2)) (zlen l1))
    as (x & Hx & ->); try done; try lia. cbn [mbind option_bind].
  rewrite swrap_small by (unfold in_s; cbn; lia).
  rewrite intsetSet_block by (rewrite ?length_enc_list; done || lia). cbn [mbind option_bind].
  rewrite is_length_block by lia. cbn [mbind option_bind].
  rewrite set_length_block. cbn [mbind option_bind].
  rewrite uwrap_small by (unfold in_u; lia). eexists. split; [done|]. split; try done.
  - apply Forall_app in Hf as [? ?]. by apply Forall_app; auto.
  - by apply sorted_insert_mid.
  - rewrite length_app. cbn. lia.
  - f_equal; [rewrite length_app; cbn; lia|]. by rewrite enc_list_app.
Qed.

(** C20: adding a value in range to a well-formed intset always succeeds without a
    fault, reports whether the value was new, and yields a well-formed intset
    of exactly the old elements and the value, whether or not the encoding had
    to be widened. *)
Theorem intsetAdd_spec `{Host} `{Alloc} w l ist v :
  set_rep w l ist -> in_s 64 v -> zlen l < 2 ^ 29 ->
  exists w' l' ist', intsetAdd ist v = Some (ist', bool_decide (v ∉ l)) /\
    set_rep w' l' ist' /\ forall x, x ∈ l' <-> x = v \/ x ∈ l.
Proof.
  intros Hr Hv Hmax. unfold intsetAdd.
  pose proof (ValueEncoding_fits v w Hv (rep_width _ _ _ Hr)) as Hfit.
  rewrite (rep_encoding _ _ _ Hr). cbn [mbind option_bind]. case_if_lia.
  - destruct (intsetUpgradeAndAdd_spec w l ist v) as (w' & ist' & -> & Hr'); [done|done|lia..|].
    cbn [mbind option_bind]. rewrite bool_decide_true.
    + eexists _, _, _. split; [done|]. split; [done|]. intros x.
      destruct (v <? 0); [apply elem_of_cons|].
      rewrite elem_of_app, list_elem_of_singleton. tauto.
    + intros Hin. pose proof (rep_fits _ _ _ Hr) as Hf. rewrite Forall_forall in Hf.
      apply Hf, Hfit in Hin. lia.
  - destruct (intsetSearch_spec w l ist v Hr) as (pos & -> & Hpos). cbn [mbind option_bind].
    destruct (decide (v ∈ l)) as [Hin|Hnin].
    { rewrite bool_decide_true, bool_decide_false by tauto.
      eexists _, _, _. split; [done|]. split; [done|]. intros x. split; [tauto|].
      by intros [->|]. }
    rewrite bool_decide_false, bool_decide_true by done.
    rewrite (rep_length _ _ _ Hr). cbn [mbind option_bind]. pose proof Hr as [_ _ _ _ ->].
    destruct (lower_bound_notin_split l v pos Hpos Hnin) as (l1 & l2 & -> & Hp & Hl1 & Hl2).
    destruct (insert_at_spec w l1 l2 v pos) as (ist' & -> & Hr'); try done; [apply Hfit; lia|].
    eexists _, _, _. split; [done|]. split; [done|].
    intros y. rewrite !elem_of_app, elem_of_cons. tauto.
Qed.

(** Closing the gap at [pos]: the elements after it move down by one. *)
Lemma close_gap_spec `{Host} `{Alloc} w l1 v l2 n pos :
  enc_width w -> n = zlen l1 + 1 + zlen l2 -> n < 2 ^ 29 -> pos = zlen l1 ->
  exists x,
    (if pos <? n - 1
     then intsetMoveTail (block (Z.of_nat w) n
            (enc_list w l1 ++ le_bytes w v ++ enc_list w l2)) (pos + 1) pos
     else Some (block (Z.of_nat w) n (enc_list w l1 ++ le_bytes w v ++ enc_list w l2)))
    = Some (block (Z.of_nat w) n ((enc_list w l1 ++ enc_list w l2) ++ x)).
Proof.
  intros Hw Hn Hmax ->. case_if_lia.
  - apply MoveTail_left; try done; rewrite ?length_le_bytes; lia.
  - destruct l2; [|cbn in *; lia]. exists (le_bytes w v). cbn [enc_list].
    by rewrite !app_nil_r.
Qed.

(** Removing a value from a well-formed intset reports whether it was a
    member and yields a well-formed intset of the remaining elements. *)
Theorem intsetRemove_spec `{Host} `{Alloc} w l ist v :
  set_rep w l ist -> in_s 64 v -> zlen l < 2 ^ 29 ->
  exists l' ist', intsetRemove ist v = Some (ist', bool_decide (v ∈ l)) /\
    set_rep w l' ist' /\ forall x, x ∈ l' <-> x <> v /\ x ∈ l.
Proof.
  intros Hr Hv Hmax. unfold intsetRemove.
  pose proof (ValueEncoding_fits v w Hv (rep_width _ _ _ Hr)) as Hfit.
  rewrite (rep_encoding _ _ _ Hr). cbn [mbind option_bind].
  assert (Hno : v ∉ l -> exists l' ist',
            Some (ist, false) = Some (ist', bool_decide (v ∈ l)) /\
            set_rep w l' ist' /\ forall x, x ∈ l' <-> x <> v /\ x ∈ l).
  { intros Hnin. rewrite bool_decide_false by done. eexists _, _. split; [done|].
    split; [done|]. intros x. split; [|tauto]. intros Hx. split; [|done]. by intros ->. }
  case_if_lia; cycle 1.
  { apply Hno. intros Hin. pose proof (rep_fits _ _ _ Hr) as Hf. rewrite Forall_forall in Hf.
    apply Hf, Hfit in Hin. lia. }
  destruct (intsetSearch_spec w l ist v Hr) as (pos & -> & Hpos). cbn [mbind option_bind].
  destruct (decide (v ∈ l)) as [Hin|Hnin];
    [rewrite bool_decide_true by done|rewrite bool_decide_false in Hno |- * by done; auto].
  rewrite (rep_length _ _ _ Hr). cbn [mbind option_bind]. destruct Hr as [Hw Hf Hs Hn ->].
  destruct (lower_bound_in_split l v pos Hpos Hs Hin) as (l1 & l2 & -> & Hp).
  rewrite length_app in *. cbn [length] in *.
  rewrite !(uwrap_small 32) by (unfold in_u; lia). rewrite enc_list_app. cbn [enc_list].
  destruct (close_gap_spec w l1 v l2 (Z.of_nat (length l1 + S (length l2))) pos)
    as (x & ->); try done; try lia. cbn [mbind option_bind].
  rewrite intsetResize_shrink by (rewrite ?length_app, ?length_enc_list; done || lia).
  cbn [mbind option_bind]. rewrite set_length_block. cbn [mbind option_bind].
  exists (l1 ++ l2). eexists. split; [done|]. split; [split|]; try done.
  - apply Forall_app in Hf as [? [? ?]%Forall_cons]. by apply Forall_app.
  - by eapply sorted_remove_mid.
  - rewrite length_app. lia.
  - f_equal; [rewrite length_app; lia|]. by rewrite enc_list_app.
  - intros y. rewrite !elem_of_app, elem_of_cons.
    apply StronglySorted_app in Hs as (Hlt & _ & [Hs _]%StronglySorted_cons).
    rewrite Forall_forall in Hs. split; [|tauto].
    intros Hy. split; [|tauto]. intros ->. destruct Hy as [Hy|Hy].
    + assert (v < v); [apply Hlt; [done|left]|lia].
    + apply Hs in Hy. lia.
Qed.

(** Membership tests on a well-formed intset never fault and are exact. *)
Theorem intsetFind_spec `{Host} `{Alloc} w l ist v :
  set_rep w l ist -> in_s 64 v -> intsetFind ist v = Some (bool_decide (v ∈ l)).
Proof.
  intros Hr Hv. unfold intsetFind.
  pose proof (ValueEncoding_fits v w Hv (rep_width _ _ _ Hr)) as Hfit.
  rewrite (rep_encoding _ _ _ Hr). cbn [mbind option_bind]. case_if_lia.
  - by destruct (intsetSearch_spec w l ist v Hr) as (pos & -> & _).
  - rewrite bool_decide_false; [done|]. intros Hin. pose proof (rep_fits _ _ _ Hr) as Hf.
    rewrite Forall_forall in Hf. apply Hf, Hfit in Hin. lia.
Qed.

(** Positional access returns the elements in increasing order and 0 outside. *)
Lemma intsetGet_spec `{Host} `{Alloc} w l ist pos :
  set_rep w l ist -> 0 <= pos -> intsetGet ist pos = Some (l !! Z.to_nat pos).
Proof.
  intros Hr Hp. unfold intsetGet. rewrite (rep_length _ _ _ Hr). cbn [mbind option_bind].
  pose proof (rep_len _ _ _ Hr). case_if_lia.
  - destruct (lookup_lt_is_Some_2 l (Z.to_nat pos)) as [x Hx]; [lia|].
    rewrite swrap_small by (unfold in_s; cbn; lia). rewrite <- (Z2Nat.id pos) at 1 by lia.
    by rewrite (rep_get _ _ _ _ _ Hr Hx), Hx.
  - by rewrite lookup_ge_None_2 by lia.
Qed.

(** The random member of a non-empty set is a member, whatever [rand()] says. *)
Lemma intsetRandom_spec `{Host} `{Alloc} w l ist rand :
  set_rep w l ist -> l <> [] -> exists x, intsetRandom ist rand = Some x /\ x ∈ l.
Proof.
  intros Hr Hl. unfold intsetRandom. rewrite (rep_length _ _ _ Hr). cbn [mbind option_bind].
  pose proof (rep_len _ _ _ Hr).
  assert (0 < zlen l) by (destruct l; [done|cbn; lia]). if_false.
  pose proof (Z.mod_pos_bound rand (zlen l)).
  rewrite swrap_small by (unfold in_s; cbn; lia).
  destruct (lookup_lt_is_Some_2 l (Z.to_nat (rand mod zlen l))) as [x Hx]; [lia|].
  exists x. split; [|by eapply list_elem_of_lookup_2].
  rewrite <- (rep_get _ _ _ _ _ Hr Hx). f_equal. lia.
Qed.

(** The blob length is the size of the block. *)
Lemma intsetBlobLen_spec `{Host} `{Alloc} w l ist :
  set_rep w l ist -> intsetBlobLen ist = Some (zlen ist).
Proof.
  intros Hr. unfold intsetBlobLen.
  rewrite (rep_length _ _ _ Hr), (rep_encoding _ _ _ Hr). cbn [mbind option_bind].
  destruct Hr as [Hw ? ? ? ->]. rewrite length_block, length_enc_list.
  unfold sizeof_intset. unfold enc_width in Hw. f_equal.
  rewrite (uwrap_small 64 (_ * _)), uwrap_small by (unfold in_u; nia). lia.
Qed.

Lemma set_rep_block_inv `{Host} `{Alloc} w l e n body :
  0 <= e < 2 ^ 32 -> 0 <= n < 2 ^ 32 -> set_rep w l (block e n body) ->
  e = Z.of_nat w /\ n = zlen l /\ body = enc_list w l.
Proof.
  intros He Hn Hr. pose proof (rep_encoding _ _ _ Hr) as E1.
  pose proof (rep_length _ _ _ Hr) as E2. destruct Hr as [_ _ _ _ Hb].
  rewrite is_encoding_block in E1 by done. rewrite is_length_block in E2 by done.
  injection E1 as ->. injection E2 as ->. split; [done|]. split; [done|].
  unfold block in Hb. by apply app_inv_head, app_inv_head in Hb.
Qed.

(** The records of a block whose header is consistent with its size. *)
Lemma block_records `{Host} `{Alloc} w n body :
  enc_width w -> 0 <= n -> Forall byte_ok body -> zlen body = n * Z.of_nat w ->
  exists l, zlen l = n /\ Forall (fits w) l /\ body = enc_list w l /\
    forall i x, l !! i = Some x ->
      _intsetGet (block (Z.of_nat w) n body) (Z.of_nat i) = Some x.
Proof.
  intros Hw Hn Hok Hlen.
  destruct (dec_list_exists w (Z.to_nat n) body) as (l & Hl & Hf & Hd); [done|done|nia|].
  exists l. repeat split; [lia|done|done|]. intros i x Hx.
  rewrite <- Hd, <- (app_nil_r (enc_list _ l)). by apply intsetGet_block.
Qed.

(** Two lists a block represents are equal. *)
Lemma rep_records_unique `{Host} `{Alloc} w l l' ist :
  set_rep w l' ist -> zlen l = zlen l' ->
  (forall i x, l !! i = Some x -> _intsetGet ist (Z.of_nat i) = Some x) -> l' = l.
Proof.
  intros Hr Hlen Hget. apply list_eq_same_length with (length l); [done|lia|].
  intros i x y Hi Hx Hy. pose proof (Hget _ _ Hy) as E. apply (rep_get _ _ _ _ _ Hr) in Hx.
  congruence.
Qed.

(** On any byte string the deep integrity check never faults, and it accepts
    exactly the blocks that represent a non-empty set. *)
Theorem intsetValidateIntegrity_spec `{Host} `{Alloc} ist :
  Forall byte_ok ist -> zlen ist < 2 ^ 32 ->
  exists b, intsetValidateIntegrity ist (zlen ist) true = Some b /\
    (b = true <-> exists w l, l <> [] /\ set_rep w l ist).
Proof.
  intros Hok Hmax. unfold intsetValidateIntegrity, sizeof_intset.
  assert (Hno : (forall w l, l <> [] -> ~ set_rep w l ist) ->
    exists b, Some false = Some b /\ (b = true <-> exists w l, l <> [] /\ set_rep w l ist)).
  { intros Hn. exists false. split; [done|]. split; [done|]. intros (w & l & Hl & Hr).
    exfalso. by eapply Hn. }
  case_if_lia.
  { apply Hno. intros w l _ [_ _ _ _ ->]. rewrite length_block in E. lia. }
  destruct (block_decode ist) as (e & n & body & -> & He & Hn & Hbody); [done|lia|].
  rewrite is_encoding_block, is_length_block by done. cbn [mbind option_bind].
  rewrite length_block in *. pose proof (fun w l => set_rep_block_inv w l e n body He Hn) as Hinv.
  unfold INTSET_ENC_INT64, INTSET_ENC_INT32, INTSET_ENC_INT16.
  case_if_lia.
  { apply Hno. intros w l _ Hr. pose proof (rep_width _ _ _ Hr).
    destruct (Hinv _ _ Hr) as (-> & _ & _). unfold enc_width in *. lia. }
  rewrite (uwrap_small 64 (n * e)), uwrap_small by (unfold in_u; nia).
  case_if_lia.
  { apply Hno. intros w l _ Hr. destruct (Hinv _ _ Hr) as (-> & -> & ->).
    rewrite length_enc_list in *. lia. }
  case_if_lia.
  { apply Hno. intros w l Hl Hr. destruct (Hinv _ _ Hr) as (_ & -> & _).
    destruct l; [done|cbn in *; lia]. }
  destruct (Z_of_nat_complete e) as [w ->]; [lia|].
  assert (Hw : enc_width w) by (unfold enc_width; lia).
  destruct (block_records w n body) as (l & Hl & Hf & Hd & Hget); [done|lia|done|lia|].
  destruct l as [|x l]; [cbn in Hl; lia|]. cbn [negb].
  rewrite (Hget O x eq_refl : _intsetGet _ 0 = Some x). cbn [mbind option_bind].
  replace (Z.to_nat (n - 1)) with (length l) by (cbn in Hl; lia). change 1 with (Z.of_nat 1).
  rewrite (validate_loop_spec _ l 1 x); [|by intros j y Hy; apply Hget|unfold enc_width in Hw; cbn in Hl; nia].
  eexists. split; [done|]. rewrite bool_decide_eq_true. split.
  - intros Hs. exists w, (x :: l). split; [done|]. split; try done.
    + apply Sorted_StronglySorted; [|done]. intros ???. lia.
    + unfold enc_width in Hw. nia.
    + by rewrite Hd, Hl.
  - intros (w' & l' & _ & Hr). destruct (Hinv _ _ Hr) as (_ & Hn' & _).
    rewrite (rep_records_unique w' (x :: l) l' _ Hr) in Hr by (done || lia).
    apply StronglySorted_Sorted, (rep_sorted _ _ _ Hr).
Qed.

(** C34: [intsetMoveTail] computes the number of bytes to move in a [uint32_t].
    On a set of 2^29 64-bit integers (below the limit of 2^30 entries that
    [setTypeAdd] enforces "due to intset internals") the product wraps to 0
    and nothing is moved, so the insertion at the front that follows
    overwrites the smallest element. *)
Theorem intsetMoveTail_wraps `{Host} body :
  8 <= zlen body ->
  intsetMoveTail (block 8 (2 ^ 29) body) 0 1 = Some (block 8 (2 ^ 29) body).
Proof.
  intros Hb. unfold intsetMoveTail.
  rewrite is_length_block, is_encoding_block by lia. cbn [mbind option_bind].
  change (8 =? INTSET_ENC_INT64) with true. cbv iota.
  change (uwrap 32 (uwrap 32 (2 ^ 29 - 0) * 8)) with 0. unfold bmove, sizeof_intset.
  unfold bslice. rewrite length_block. if_true. cbn [mbind option_bind].
  change (Z.to_nat 0) with O. rewrite take_0.
  unfold bwrite. rewrite length_block. cbn [length]. if_true.
  change (Z.to_nat (8 + 8 * 1 + Z.of_nat 0)) with 16%nat.
  change (Z.to_nat (8 + 8 * 1)) with 16%nat. f_equal. apply take_drop.
Qed.

(** ** Witnesses *)

(** The set {1, 5, 70000} in its 32-bit encoding. *)
Definition ex_set : bytes := block 4 3 (enc_list 4 [1; 5; 70000]).

Lemma ex_set_rep : set_rep 4 [1; 5; 70000] ex_set.
Proof.
  split; [by right; left| | |cbn; lia|done].
  - repeat constructor; unfold fits, in_s; cbn; lia.
  - repeat constructor; lia.
Qed.

Lemma intsetAdd_spec_witness :
  exists w' l' ist',
    @intsetAdd BigHost FillAlloc ex_set 3 = Some (ist', true) /\
    set_rep w' l' ist' /\ forall x, x ∈ l' <-> x = 3 \/ x ∈ [1; 5; 70000].
Proof.
  apply (@intsetAdd_spec BigHost FillAlloc 4 [1; 5; 70000] ex_set 3);
    [exact ex_set_rep|unfold in_s; cbn; lia|cbn; lia].
Defined.

Lemma intsetRemove_spec_witness :
  exists l' ist',
    @intsetRemove LittleHost FillAlloc ex_set 5 = Some (ist', true) /\
    set_rep 4 l' ist' /\ forall x, x ∈ l' <-> x <> 5 /\ x ∈ [1; 5; 70000].
Proof.
  apply (@intsetRemove_spec LittleHost FillAlloc 4 [1; 5; 70000] ex_set 5);
    [exact ex_set_rep|unfold in_s; cbn; lia|cbn; lia].
Defined.

Lemma intsetFind_spec_witness : @intsetFind BigHost ex_set 70000 = Some true.
Proof.
  apply (@intsetFind_spec BigHost FillAlloc 4 [1; 5; 70000] ex_set 70000);
    [exact ex_set_rep|unfold in_s; cbn; lia].
Defined.

Lemma intsetValidateIntegrity_spec_witness :
  exists b, @intsetValidateIntegrity BigHost ex_set (zlen ex_set) true = Some b /\
    (b = true <-> exists w l, l <> [] /\ set_rep w l ex_set).
Proof.
  apply (@intsetValidateIntegrity_spec BigHost FillAlloc ex_set); [|vm_compute; done].
  unfold ex_set, block. repeat apply Forall_app_2; cbn [enc_list];
    repeat apply Forall_app_2; try apply le_bytes_ok. constructor.
Defined.

Lemma intsetMoveTail_wraps_witness :
  @intsetMoveTail LittleHost (block 8 (2 ^ 29) (enc_list 8 [7])) 0 1
  = Some (block 8 (2 ^ 29) (enc_list 8 [7])).
Proof. apply (@intsetMoveTail_wraps LittleHost (enc_list 8 [7])). vm_compute. done. Defined.
