(* ===== verification/Util.v ===== *)
(** Conversions and string helpers: [util.c].

    Decimal conversion in both directions ([digits10], [sdigits10],
    [ll2string], [string2ll], [string2l]) and byte searches ([mempbrk],
    [memmapchars]); the glob matcher is in [Glob.v]. *)
From S2P Require Import Prelude.

(** ** Decimal numbers *)

(** The recursion divides by 10^12: two levels are enough for 64 bits. *)
Fixpoint digits10_rec (fuel : nat) (v : Z) : option Z :=
  match fuel with
  | O => None
  | S fuel =>
    if v <? 10 then Some 1
    else if v <? 100 then Some 2
    else if v <? 1000 then Some 3
    else if v <? 1000000000000 then
      if v <? 100000000 then
        if v <? 1000000 then
          if v <? 10000 then Some 4
          else Some (5 + Z.b2z (v >=? 100000))
        else Some (7 + Z.b2z (v >=? 10000000))
      else if v <? 10000000000 then Some (9 + Z.b2z (v >=? 1000000000))
      else Some (11 + Z.b2z (v >=? 100000000000))
    else d ← digits10_rec fuel (v / 1000000000000); Some (12 + d)
  end.

Definition digits10 (v : Z) : option Z := digits10_rec 2 v.

(** The magnitude of a [long long] as an [unsigned long long]. *)
Definition magnitude (v : Z) : Z :=
  if v <? 0 then (if negb (v =? LLONG_MIN) then uwrap 64 (- v) else LLONG_MAX + 1)
  else v.

Definition sdigits10 (v : Z) : option Z :=
  if v <? 0 then d ← digits10 (magnitude v); Some (d + 1) else digits10 v.

(** The table of two-digit strings. *)
Definition digits : bytes := of_string
  "00010203040506070809101112131415161718192021222324252627282930313233343536373839404142434445464748495051525354555657585960616263646566676869707172737475767778798081828384858687888990919293949596979899"%string.

(** [dst[next] = digits[i+1]; dst[next-1] = digits[i];] *)
Definition put_pair (dst : bytes) (next i : Z) : option bytes :=
  c1 ← digits.[i + 1]; dst ← bset dst next c1;
  c0 ← digits.[i]; bset dst (next - 1) c0.

(** [while (value >= 100)]; returns [dst], [value] and [next]. *)
Fixpoint ll2string_loop (fuel : nat) (dst : bytes) (value next : Z) : option (bytes * Z * Z) :=
  if value >=? 100 then
    match fuel with
    | O => None
    | S fuel =>
      dst ← put_pair dst next (value mod 100 * 2);
      ll2string_loop fuel dst (value / 100) (next - 2)
    end
  else Some (dst, value, next).

(** Returns the length and the written buffer. A 64-bit value has at most
    20 digits, so ten iterations are enough. *)
Definition ll2string (dst : bytes) (dstlen svalue : Z) : option (Z * bytes) :=
  let value := magnitude svalue in
  let negative := if svalue <? 0 then 1 else 0 in
  d ← digits10 value;
  let length := d + negative in
  if length >=? dstlen then Some (0, dst)
  else
    let next := length in
    dst ← bset dst next 0;
    let next := next - 1 in
    '(dst, value, next) ← ll2string_loop 10 dst value next;
    dst ← (if value <? 10 then bset dst next (48 + value)
           else put_pair dst next (value * 2));
    dst ← (if negative =? 1 then bset dst 0 45 else Some dst);
    Some (length, dst).

(** [while (plen < slen && p[0] >= '0' && p[0] <= '9')]: the index reached and
    the value, or [Some None] for the early [return 0]. *)
Fixpoint string2ll_loop (fuel : nat) (s : bytes) (slen plen v : Z) : option (option (Z * Z)) :=
  match fuel with
  | O => None
  | S fuel =>
    if plen <? slen then
      c ← s.[plen];
      if (schar c >=? 48) && (schar c <=? 57) then
        if v >? ULLONG_MAX / 10 then Some None
        else
          let v := uwrap 64 (v * 10) in
          if v >? ULLONG_MAX - (schar c - 48) then Some None
          else string2ll_loop fuel s slen (plen + 1) (uwrap 64 (v + (schar c - 48)))
      else Some (Some (plen, v))
    else Some (Some (plen, v))
  end.

(** From "First digit should be 1-9" to the end; [None] is a read outside [s]
    and [Some None] the return value 0. *)
Definition string2ll_digits (s : bytes) (slen plen : Z) (negative : bool) : option (option Z) :=
  c ← s.[plen];
  if (schar c >=? 49) && (schar c <=? 57) then
    let v := schar c - 48 in
    let plen := plen + 1 in
    r ← string2ll_loop (S (Z.to_nat (slen - plen))) s slen plen v;
    match r with
    | None => Some None
    | Some (plen, v) =>
      if plen <? slen then Some None
      else if negative then
        if v >? uwrap 64 (- (LLONG_MIN + 1) + 1) then Some None
        else Some (Some (swrap 64 (uwrap 64 (- v))))
      else
        if v >? LLONG_MAX then Some None
        else Some (Some (swrap 64 v))
    end
  else Some None.

Definition string2ll (s : bytes) (slen : Z) : option (option Z) :=
  if slen =? 0 then Some None
  else
    c0 ← s.[0];
    if (slen =? 1) && (schar c0 =? 48) then Some (Some 0)
    else
      if schar c0 =? 45 then
        if slen =? 1 then Some None else string2ll_digits s slen 1 true
      else string2ll_digits s slen 0 false.

(** On the LP64 targets [long] has the range of [long long]. *)
Definition string2l (s : bytes) (slen : Z) : option (option Z) :=
  r ← string2ll s slen;
  match r with
  | None => Some None
  | Some llval =>
    if (llval <? LLONG_MIN) || (llval >? LLONG_MAX) then Some None
    else Some (Some (swrap 64 llval))
  end.

(** ** Byte searches *)

(** The inner [for]: is [c] one of the first [charslen] of [chars]? *)
Definition mem_char (c : Z) (chars : bytes) : bool := existsb (Z.eqb c) chars.

(** The index of the first byte that is in [chars]. *)
Fixpoint mempbrk_from (s chars : bytes) (j : Z) : option Z :=
  match s with
  | [] => None
  | c :: s => if mem_char c chars then Some j else mempbrk_from s chars (j + 1)
  end.

Definition mempbrk (s chars : bytes) : option Z := mempbrk_from s chars 0.

(** The inner [for] of [memmapchars]: the first match wins. *)
Fixpoint map_char (c : Z) (from to : bytes) : Z :=
  match from, to with
  | f :: from, t :: to => if c =? f then t else map_char c from to
  | _, _ => c
  end.

Definition memmapchars (s from to : bytes) : bytes := (fun c => map_char c from to) <$> s.

(** * Correctness of the decimal conversions *)

(** The decimal representation of [v] on [n] digits. *)
Fixpoint dec (n : nat) (v : Z) : bytes :=
  match n with
  | O => []
  | S n => dec n (v / 10) ++ [48 + v mod 10]
  end.

(** [v] has [d] decimal digits. *)
Definition ndigits (d : nat) (v : Z) : Prop :=
  0 <= v < 10 ^ Z.of_nat d /\ (d = 1%nat \/ (2 <= d)%nat /\ 10 ^ (Z.of_nat d - 1) <= v).

(** The canonical decimal string of a signed integer with [d] digits. *)
Definition canon (d : nat) (v : Z) : bytes :=
  if v <? 0 then 45 :: dec d (- v) else dec d v.

Lemma length_dec n v : length (dec n v) = n.
Proof. revert v; induction n; intros; cbn; [done|]. rewrite length_app, IHn. cbn. lia. Qed.

Lemma ndigits_pos d v : ndigits d v -> (1 <= d)%nat.
Proof. unfold ndigits. lia. Qed.

Lemma pow10_S n : 10 ^ Z.of_nat (S n) = 10 * 10 ^ Z.of_nat n.
Proof. by rewrite Nat2Z.inj_succ, Z.pow_succ_r by lia. Qed.

(** The number of digits is determined by the value. *)
Lemma ndigits_unique d d' v : ndigits d v -> ndigits d' v -> d = d'.
Proof.
  assert (H : forall a b, ndigits a v -> ndigits b v -> (a < b)%nat -> False).
  { unfold ndigits. intros a b (Ha & Ha') (_ & Hb) Hlt. destruct Hb as [->|[Hb Hv]]; [lia|].
    assert (10 ^ Z.of_nat a <= 10 ^ (Z.of_nat b - 1)) by (apply Z.pow_le_mono_r; lia). lia. }
  intros H1 H2. destruct (lt_eq_lt_dec d d') as [[?|?]|?]; [|done|];
    exfalso; [by apply (H d d')|by apply (H d' d)].
Qed.

Lemma ndigits_le d v n : ndigits d v -> v < 10 ^ Z.of_nat n -> (1 <= n)%nat -> (d <= n)%nat.
Proof.
  intros [_ [->|[_ Hd]]] Hv Hn; [lia|]. assert (~ (n < d)%nat); [|lia]. intros Hlt.
  assert (10 ^ Z.of_nat n <= 10 ^ (Z.of_nat d - 1)) by (apply Z.pow_le_mono_r; lia). lia.
Qed.

Ltac pick d := exists d; split; [done|cbn; lia].

Lemma digits10_rec_small fuel v :
  0 <= v < 10 ^ 12 ->
  exists d, digits10_rec (S fuel) v = Some (Z.of_nat d) /\ ndigits d v /\ (d <= 12)%nat.
Proof.
  intros Hv. cbn [digits10_rec]. unfold ndigits.
  case_if_lia; [pick 1%nat|]. case_if_lia; [pick 2%nat|]. case_if_lia; [pick 3%nat|].
  case_if_lia. case_if_lia; [case_if_lia; [case_if_lia; [pick 4%nat|]|]|].
  - destruct (v >=? 100000) eqn:E'; cbn [Z.b2z]; [pick 6%nat|pick 5%nat].
  - destruct (v >=? 10000000) eqn:E'; cbn [Z.b2z]; [pick 8%nat|pick 7%nat].
  - case_if_lia.
    + destruct (v >=? 1000000000) eqn:E'; cbn [Z.b2z]; [pick 10%nat|pick 9%nat].
    + destruct (v >=? 100000000000) eqn:E'; cbn [Z.b2z]; [pick 12%nat|pick 11%nat].
Qed.

Lemma digits10_rec_big fuel v :
  10 ^ 12 <= v ->
  digits10_rec (S fuel) v = d ← digits10_rec fuel (v / 10 ^ 12); Some (12 + d).
Proof. intros. cbn [digits10_rec]. by do 4 if_false. Qed.

Lemma digits10_ndigits v :
  0 <= v < 2 ^ 64 ->
  exists d, digits10 v = Some (Z.of_nat d) /\ ndigits d v /\ (d <= 20)%nat.
Proof.
  intros Hv. unfold digits10. destruct (decide (v < 10 ^ 12)) as [Hs|Hl].
  { destruct (digits10_rec_small 1 v) as (d & ? & ? & ?); [lia|]. exists d. split; [done|]. split; [done|lia]. }
  assert (Hq : 1 <= v / 10 ^ 12 < 10 ^ 8).
  { split; [apply Z.div_le_lower_bound|apply Z.div_lt_upper_bound]; lia. }
  destruct (digits10_rec_small 0 (v / 10 ^ 12)) as (d & Hd & Hn & _); [lia|].
  assert (d <= 8)%nat.
  { apply (ndigits_le d (v / 10 ^ 12)); [done|cbn in *; lia|lia]. }
  exists (12 + d)%nat. split; [|split; [|lia]].
  - rewrite digits10_rec_big, Hd by lia. cbn. f_equal. lia.
  - pose proof (Z.div_mod v (10 ^ 12) ltac:(lia)) as Hdm.
    pose proof (Z.mod_pos_bound v (10 ^ 12) ltac:(lia)).
    pose proof (ndigits_pos _ _ Hn). unfold ndigits in *.
    replace (Z.of_nat (12 + d)) with (12 + Z.of_nat d) by lia.
    rewrite Z.pow_add_r by lia. split; [nia|right]. split; [lia|].
    replace (12 + Z.of_nat d - 1) with (12 + (Z.of_nat d - 1)) by lia.
    rewrite Z.pow_add_r by lia. destruct Hn as (_ & [->|[? ?]]); [cbn in *; lia|nia].
Qed.

Lemma magnitude_spec v : in_s 64 v -> magnitude v = Z.abs v /\ 0 <= magnitude v < 2 ^ 64.
Proof.
  unfold in_s, magnitude, LLONG_MIN, LLONG_MAX. intros Hv.
  change (2 ^ (64 - 1)) with 9223372036854775808 in Hv.
  repeat case_if_lia. rewrite uwrap_small by (unfold in_u; lia). lia.
Qed.

Lemma digits_table k :
  0 <= k < 100 ->
  digits.[k * 2] = Some (48 + k / 10) /\ digits.[k * 2 + 1] = Some (48 + k mod 10).
Proof.
  intros Hk.
  assert (H : forallb (fun k => bool_decide (digits.[k * 2] = Some (48 + k / 10)
                          /\ digits.[k * 2 + 1] = Some (48 + k mod 10)))
                (Z.of_nat <$> seq 0 100) = true) by by vm_compute.
  rewrite forallb_forall in H. specialize (H k). apply bool_decide_eq_true in H; [done|].
  apply list_elem_of_In, list_elem_of_fmap. exists (Z.to_nat k). split; [lia|].
  apply elem_of_seq. lia.
Qed.

Lemma put_pair_spec pre a b post k next :
  0 <= k < 100 -> next = zlen pre + 1 ->
  put_pair (pre ++ a :: b :: post) next (k * 2)
  = Some (pre ++ (48 + k / 10) :: (48 + k mod 10) :: post).
Proof.
  intros Hk ->. destruct (digits_table k Hk) as [H0 H1]. unfold put_pair.
  rewrite H1. cbn [mbind option_bind].
  assert (E : forall x y, pre ++ x :: y :: post = (pre ++ [x]) ++ y :: post)
    by (intros; by rewrite <- app_assoc).
  rewrite E, bset_app by (rewrite length_app; cbn; lia). cbn [mbind option_bind].
  rewrite H0. cbn [mbind option_bind]. rewrite <- E, bset_app by lia. done.
Qed.

Lemma dec_pair n v :
  dec (S (S n)) v = dec n (v / 100) ++ [48 + v mod 100 / 10; 48 + (v mod 100) mod 10].
Proof.
  cbn [dec]. rewrite <- app_assoc. cbn [app]. rewrite Z.div_div by lia.
  change (10 * 10) with 100.
  assert (E1 : (v / 10) mod 10 = v mod 100 / 10) by (Z.div_mod_to_equations; lia).
  assert (E2 : v mod 10 = (v mod 100) mod 10) by (Z.div_mod_to_equations; lia).
  by rewrite E1, E2.
Qed.

(** The digits of [v / 100]. *)
Lemma ndigits_div100 d v : ndigits (S (S d)) v -> 100 <= v -> ndigits d (v / 100).
Proof.
  unfold ndigits. intros (Hv & Hd) H100. rewrite !pow10_S in Hv.
  split; [split; [apply Z.div_pos|apply Z.div_lt_upper_bound]; lia|].
  destruct Hd as [?|[_ Hd]]; [lia|].
  replace (Z.of_nat (S (S d)) - 1) with (2 + (Z.of_nat d - 1)) in Hd by lia.
  destruct d as [|[|d]]; [cbn in Hv; lia|by left|right]. split; [lia|].
  rewrite Z.pow_add_r in Hd by lia. apply Z.div_le_lower_bound; lia.
Qed.

Lemma ndigits_ge100 d v : ndigits d v -> 100 <= v -> exists d', d = S (S d').
Proof.
  unfold ndigits. intros (Hv & _) H. destruct d as [|[|d]]; [cbn in Hv; lia..|by eexists].
Qed.

Lemma ndigits_lt100 d v : ndigits d v -> v < 100 -> d = if v <? 10 then 1%nat else 2%nat.
Proof.
  intros Hd Hv. apply (ndigits_unique d _ v Hd). destruct Hd as [Hd _]. unfold ndigits.
  case_if_lia; cbn; lia.
Qed.

(** "Handle last 1-2 digits." *)
Lemma ll2string_last d v pre junk post next :
  ndigits d v -> v < 100 -> length junk = d -> next = zlen pre + Z.of_nat d - 1 ->
  (if v <? 10 then bset (pre ++ junk ++ post) next (48 + v)
   else put_pair (pre ++ junk ++ post) next (v * 2)) = Some (pre ++ dec d v ++ post).
Proof.
  intros Hd Hv Hj ->. rewrite (ndigits_lt100 d v Hd Hv) in *. destruct Hd as [Hd _].
  destruct (v <? 10) eqn:E.
  - destruct junk as [|a [|]]; try done. cbn [app dec]. rewrite bset_app by lia.
    by rewrite Z.mod_small by lia.
  - destruct junk as [|a [|b [|]]]; try done. cbn [app].
    rewrite put_pair_spec by lia. cbn [dec app].
    rewrite (Z.mod_small (v / 10)); [done|]. split; [apply Z.div_pos|apply Z.div_lt_upper_bound]; lia.
Qed.

(** The part of [ll2string] that writes the digits, right to left. *)
Lemma ll2string_digits fuel : forall d v pre junk post next,
  ndigits d v -> (d <= 2 * fuel + 2)%nat -> length junk = d ->
  next = zlen pre + Z.of_nat d - 1 ->
  ('(dst, value, next) ← ll2string_loop fuel (pre ++ junk ++ post) v next;
   if value <? 10 then bset dst next (48 + value) else put_pair dst next (value * 2))
  = Some (pre ++ dec d v ++ post).
Proof.
  induction fuel as [|fuel IH]; intros d v pre junk post next Hd Hf Hj Hn.
  all: cbn [ll2string_loop]; destruct (v >=? 100) eqn:E;
    [|cbn [mbind option_bind]; apply ll2string_last; done || lia].
  all: destruct (ndigits_ge100 d v Hd) as [d' ->]; [lia|].
  { destruct Hd as [Hd _]. replace d' with O in Hd by lia. cbn in Hd. lia. }
  destruct (rev_case junk) as [->|(junk' & b & ->)]; [done|].
  destruct (rev_case junk') as [->|(junk & a & ->)]; [done|].
  rewrite !length_app in Hj. cbn [length] in Hj. rewrite <- !app_assoc. cbn [app].
  rewrite (app_assoc pre junk), put_pair_spec, <- app_assoc
    by (rewrite ?length_app; try apply Z.mod_pos_bound; lia).
  cbn [mbind option_bind].
  rewrite (IH d' (v / 100)) by (try apply ndigits_div100; done || lia).
  by rewrite dec_pair, <- app_assoc.
Qed.

(** [ll2string] writes the canonical decimal string of any 64-bit integer and
    its terminator, returns its length, and leaves the rest of the buffer
    alone; when the buffer is too small it returns 0 and writes nothing. *)
Lemma ll2string_spec dst v :
  in_s 64 v ->
  exists d, ndigits d (Z.abs v) /\
    ll2string dst (zlen dst) v
    = Some (if zlen (canon d v) >=? zlen dst then (0, dst)
            else (zlen (canon d v),
                  canon d v ++ 0 :: drop (S (length (canon d v))) dst)).
Proof.
  intros Hv. destruct (magnitude_spec v Hv) as [Hm Hr]. unfold ll2string.
  destruct (digits10_ndigits (magnitude v) Hr) as (d & -> & Hd & Hd20).
  rewrite Hm in *. exists d. split; [done|]. cbn [mbind option_bind].
  set (neg := if v <? 0 then 1 else 0).
  assert (Hc : zlen (canon d v) = Z.of_nat d + neg).
  { unfold canon, neg. destruct (v <? 0); cbn [length]; rewrite length_dec; lia. }
  assert (Hneg : 0 <= neg <= 1) by (unfold neg; case_if_lia).
  rewrite Hc. case_if_lia; [done|].
  destruct (split_at dst (Z.to_nat neg)) as (pre & rest & -> & Hpre); [lia|].
  destruct (split_at rest d) as (junk & rest' & -> & Hjunk); [rewrite !length_app in *; lia|].
  destruct rest' as [|z post]; [rewrite !length_app in *; cbn in *; lia|].
  assert (Eb : bset (pre ++ junk ++ z :: post) (Z.of_nat d + neg) 0
               = Some (pre ++ junk ++ 0 :: post)).
  { rewrite !(app_assoc pre). apply bset_app. rewrite length_app. lia. }
  rewrite Eb. cbn [mbind option_bind].
  pose proof (ll2string_digits 10 d (Z.abs v) pre junk (0 :: post) (Z.of_nat d + neg - 1)) as HL.
  destruct (ll2string_loop _ _ _ _) as [[[dst' value'] next']|]; cbn [mbind option_bind] in HL |- *;
    [|discriminate HL; done || lia].
  rewrite HL by (done || lia). cbn [mbind option_bind].
  replace (S (length (canon d v))) with (length (pre ++ junk ++ [z]))
    by (rewrite !length_app; cbn [length]; lia).
  replace (pre ++ junk ++ z :: post) with ((pre ++ junk ++ [z]) ++ post)
    by (by rewrite <- !app_assoc).
  rewrite drop_app_length. unfold canon, neg in *. destruct (v <? 0) eqn:Ev; cbn [Z.eqb].
  - destruct pre as [|p0 [|]]; try done. change (1 =? 1) with true. cbv iota.
    cbn [app]. rewrite (bset_app [] p0 _ 0 45 eq_refl : bset (p0 :: _) 0 45 = _).
    cbn. by rewrite Z.abs_neq by lia.
  - destruct pre; [|done]. cbn. by rewrite Z.abs_eq by lia.
Qed.

(** ** Parsing *)

(** The value of a digit string that continues [acc]. *)
Definition dval (acc : Z) (l : bytes) : Z := fold_left (fun a c => a * 10 + (c - 48)) l acc.

Definition isdig (c : Z) : Prop := 48 <= c <= 57.
#[export] Instance isdig_dec c : Decision (isdig c).
Proof. unfold isdig. apply _. Defined.

Lemma dval_snoc acc l c : dval acc (l ++ [c]) = dval acc l * 10 + (c - 48).
Proof. unfold dval. by rewrite fold_left_app. Qed.

Lemma dval_bounds l : forall acc,
  Forall isdig l -> 0 <= acc ->
  acc * 10 ^ zlen l <= dval acc l < (acc + 1) * 10 ^ zlen l.
Proof.
  induction l as [|c l IH]; intros acc Hl Hacc; [cbn; lia|].
  apply Forall_cons in Hl as [Hc Hl]. unfold isdig in Hc. cbn [length].
  rewrite pow10_S. specialize (IH (acc * 10 + (c - 48)) Hl).
  change (dval acc (c :: l)) with (dval (acc * 10 + (c - 48)) l). nia.
Qed.

Lemma dec_isdig n v : Forall isdig (dec n v).
Proof.
  revert v; induction n; intros; cbn; [constructor|]. apply Forall_app. split; [done|].
  constructor; [|constructor]. unfold isdig. pose proof (Z.mod_pos_bound v 10). lia.
Qed.

Lemma dval_dec n v : 0 <= v < 10 ^ Z.of_nat n -> dval 0 (dec n v) = v.
Proof.
  revert v; induction n as [|n IH]; intros v Hv; [cbn in *; lia|].
  rewrite pow10_S in Hv. cbn [dec]. rewrite dval_snoc, IH.
  - pose proof (Z.div_mod v 10). lia.
  - split; [apply Z.div_pos|apply Z.div_lt_upper_bound]; lia.
Qed.

Lemma dec_dval l : Forall isdig l -> dec (length l) (dval 0 l) = l.
Proof.
  induction l as [|c l IH] using rev_ind; intros Hl; [done|].
  apply Forall_app in Hl as [Hl Hc]. apply Forall_cons in Hc as [Hc _]. unfold isdig in Hc.
  rewrite length_app, Nat.add_1_r, dval_snoc. cbn [dec].
  rewrite Z.div_add_l, (Z.div_small (c - 48)), Z.add_0_r, IH by (done || lia).
  assert (E : (dval 0 l * 10 + (c - 48)) mod 10 = c - 48)
    by (rewrite Z.add_comm, Z.mod_add, Z.mod_small; lia).
  rewrite E. do 2 f_equal. lia.
Qed.

(** A digit string with a non-zero first digit is the representation of its value. *)
Lemma ndigits_dval c l :
  49 <= c <= 57 -> Forall isdig l ->
  ndigits (S (length l)) (dval 0 (c :: l)) /\ dec (S (length l)) (dval 0 (c :: l)) = c :: l.
Proof.
  intros Hc Hl. split.
  - change (dval 0 (c :: l)) with (dval (c - 48) l).
    pose proof (dval_bounds l (c - 48) Hl). unfold ndigits. rewrite pow10_S.
    assert (0 < 10 ^ zlen l) by (apply Z.pow_pos_nonneg; lia).
    split; [nia|]. destruct l as [|c' l]; [by left|right]. split; [cbn; lia|].
    replace (Z.of_nat (S (length (c' :: l))) - 1) with (zlen (c' :: l)) by lia. nia.
  - apply (dec_dval (c :: l)). constructor; [unfold isdig; lia|done].
Qed.

(** Conversely the representation of a positive number starts with one. *)
Lemma dec_head d v :
  ndigits d v -> 0 < v ->
  exists c l, dec d v = c :: l /\ 49 <= c <= 57 /\ Forall isdig l /\ dval 0 (c :: l) = v.
Proof.
  intros Hd Hv. pose proof (dec_isdig d v) as Hdig. pose proof (length_dec d v) as Hlen.
  pose proof (ndigits_pos _ _ Hd). destruct Hd as [Hr Hd].
  pose proof (dval_dec d v Hr) as Hval.
  destruct (dec d v) as [|c l]; [cbn in Hlen; lia|].
  apply Forall_cons in Hdig as [Hc Hl]. unfold isdig in Hc. exists c, l. repeat split; try done; [|lia].
  destruct (decide (c = 48)) as [->|]; [|lia]. exfalso.
  change (dval 0 (48 :: l)) with (dval 0 l) in Hval.
  pose proof (dval_bounds l 0 Hl). cbn [length] in Hlen.
  destruct Hd as [->|[_ Hd]].
  - destruct l; [cbn in Hval; lia|done].
  - replace (Z.of_nat d - 1) with (zlen l) in Hd by lia. lia.
Qed.

(** The parsing loop: it never leaves the string, and reaches its end exactly on
    digit strings whose value fits. *)
Lemma string2ll_loop_spec slen rest : forall fuel pre acc,
  Forall byte_ok rest -> slen = zlen (pre ++ rest) -> (length rest < fuel)%nat ->
  0 <= acc < 2 ^ 64 ->
  exists r, string2ll_loop fuel (pre ++ rest) slen (zlen pre) acc = Some r /\
    match r with
    | None => ~ (Forall isdig rest /\ dval acc rest < 2 ^ 64)
    | Some (plen, v) =>
      if plen <? slen then ~ Forall isdig rest
      else Forall isdig rest /\ v = dval acc rest /\ 0 <= v < 2 ^ 64
    end.
Proof.
  induction rest as [|c rest IH]; intros fuel pre acc Hok Hs Hf Hacc;
    (destruct fuel as [|fuel]; [cbn in Hf; lia|]); cbn [string2ll_loop];
    rewrite length_app in Hs; cbn [length] in *.
  { rewrite app_nil_r. if_false. exists (Some (zlen pre, acc)). split; [done|].
    if_false. done. }
  if_true. rewrite bget_app by done. cbn [mbind option_bind].
  apply Forall_cons in Hok as [Hc Hok].
  assert (Hdg : (schar c >=? 48) && (schar c <=? 57) = bool_decide (isdig c) /\
                (isdig c -> schar c = c)).
  { unfold isdig. pose proof (schar_cases c Hc) as Hsc. unfold byte_ok in Hc.
    destruct (bool_decide_reflect (48 <= c <= 57)); lia. }
  destruct Hdg as [-> Hsc]. destruct (bool_decide_reflect (isdig c)) as [Hd|Hd].
  - rewrite (Hsc Hd). pose proof Hd as Hd'. unfold isdig in Hd. unfold ULLONG_MAX.
    pose proof (dval_bounds rest (acc * 10 + (c - 48))) as Hb.
    assert (0 < 10 ^ zlen rest) by (apply Z.pow_pos_nonneg; lia).
    change (18446744073709551615 / 10) with 1844674407370955161.
    change (2 ^ 64) with 18446744073709551616 in *.
    case_if_lia.
    { exists None. split; [done|]. intros [[_ Hr]%Forall_cons Hlt]. specialize (Hb Hr).
      change (dval acc (c :: rest)) with (dval (acc * 10 + (c - 48)) rest) in Hlt. nia. }
    rewrite (uwrap_small 64 (acc * 10)) by (unfold in_u; lia). case_if_lia.
    { exists None. split; [done|]. intros [[_ Hr]%Forall_cons Hlt]. specialize (Hb Hr).
      change (dval acc (c :: rest)) with (dval (acc * 10 + (c - 48)) rest) in Hlt. nia. }
    rewrite (uwrap_small 64) by (unfold in_u; lia).
    destruct (IH fuel (pre ++ [c]) (acc * 10 + (c - 48))) as (r & Hr & Hspec);
      [done|rewrite !length_app; cbn; lia|lia|lia|].
    rewrite <- app_assoc, length_app in Hr. cbn [app length] in Hr.
    replace (Z.of_nat (length pre + 1)) with (zlen pre + 1) in Hr by lia.
    exists r. split; [done|].
    change (dval acc (c :: rest)) with (dval (acc * 10 + (c - 48)) rest).
    destruct r as [[plen v]|]; [destruct (plen <? slen)|]; rewrite Forall_cons; tauto.
  - exists (Some (zlen pre, acc)). split; [done|]. if_true. rewrite Forall_cons. tauto.
Qed.

(** [s] is the canonical decimal string of the 64-bit integer [v]. *)
Definition canonical (s : bytes) (v : Z) : Prop :=
  in_s 64 v /\ exists d, ndigits d (Z.abs v) /\ s = canon d v.

(** A positive number: a non-zero digit, then digits. *)
Definition positive_numeral (s : bytes) (v : Z) : Prop :=
  exists c l, s = c :: l /\ 49 <= c <= 57 /\ Forall isdig l /\ v = dval 0 s.

Lemma positive_numeral_dec s v :
  positive_numeral s v <-> 0 < v /\ exists d, ndigits d v /\ s = dec d v.
Proof.
  split.
  - intros (c & l & -> & Hc & Hl & ->). destruct (ndigits_dval c l Hc Hl) as [Hd He].
    split; [|by eexists]. change (dval 0 (c :: l)) with (dval (c - 48) l).
    pose proof (dval_bounds l (c - 48) Hl).
    assert (0 < 10 ^ zlen l) by (apply Z.pow_pos_nonneg; lia). nia.
  - intros (Hv & d & Hd & ->). destruct (dec_head d v Hd Hv) as (c & l & He & ? & ? & <-).
    rewrite He. by exists c, l.
Qed.

Lemma canonical_cases s v :
  canonical s v <->
  (s = [48] /\ v = 0) \/ (positive_numeral s v /\ v <= LLONG_MAX) \/
  (exists s', s = 45 :: s' /\ positive_numeral s' (- v) /\ LLONG_MIN <= v).
Proof.
  unfold canonical, canon, in_s, LLONG_MAX, LLONG_MIN.
  change (2 ^ (64 - 1)) with 9223372036854775808. split.
  - intros (Hv & d & Hd & ->). destruct (v <? 0) eqn:E.
    + right. right. eexists. split; [done|]. split; [|lia]. apply positive_numeral_dec.
      rewrite Z.abs_neq in Hd by lia. split; [lia|by exists d].
    + rewrite Z.abs_eq in Hd by lia. destruct (decide (v = 0)) as [->|].
      * left. assert (ndigits 1 0) as H0 by (unfold ndigits; cbn; lia).
        by rewrite (ndigits_unique _ _ _ Hd H0).
      * right. left. split; [|lia]. apply positive_numeral_dec. split; [lia|by exists d].
  - intros [[-> ->]|[[[Hp (d & Hd & ->)]%positive_numeral_dec Hv]
                    |(s' & -> & [Hp (d & Hd & ->)]%positive_numeral_dec & Hv)]].
    + split; [lia|]. exists 1%nat. split; [unfold ndigits; cbn; lia|done].
    + split; [lia|]. exists d. rewrite Z.abs_eq by lia. by if_false.
    + split; [lia|]. exists d. rewrite Z.abs_neq by lia. by if_true.
Qed.

Lemma string2ll_digits_spec pre s (negative : bool) :
  Forall byte_ok s -> s <> [] ->
  exists r, string2ll_digits (pre ++ s) (zlen (pre ++ s)) (zlen pre) negative = Some r /\
    forall v, r = Some v <->
      if negative then positive_numeral s (- v) /\ LLONG_MIN <= v
      else positive_numeral s v /\ v <= LLONG_MAX.
Proof.
  intros Hok Hs. destruct s as [|c rest]; [done|]. unfold string2ll_digits.
  rewrite bget_app by done. cbn [mbind option_bind].
  apply Forall_cons in Hok as [Hc Hok]. pose proof (schar_cases c Hc) as Hsc. unfold byte_ok in Hc.
  assert (Hinv : forall v, positive_numeral (c :: rest) v <->
            (49 <= c <= 57) /\ Forall isdig rest /\ v = dval (c - 48) rest).
  { intros v. unfold positive_numeral. split; [|by intros (? & ? & ->); exists c, rest].
    by intros (? & ? & [= <- <-] & ? & ? & ->). }
  case_if_lia; cycle 1.
  { exists None. split; [done|]. intros v. destruct negative; rewrite Hinv; split; done || lia. }
  destruct (string2ll_loop_spec (zlen (pre ++ c :: rest)) rest
              (S (Z.to_nat (zlen (pre ++ c :: rest) - (zlen pre + 1)))) (pre ++ [c]) (schar c - 48))
    as (r & Hr & Hspec); [done|by rewrite <- app_assoc|rewrite !length_app; cbn [length]; lia|lia|].
  replace (zlen (pre ++ [c])) with (zlen pre + 1) in Hr by (rewrite length_app; cbn; lia).
  rewrite <- app_assoc in Hr. cbn [app] in Hr. rewrite Hr. cbn [mbind option_bind].
  replace (schar c) with c in * by lia. unfold LLONG_MIN, LLONG_MAX.
  change (uwrap 64 (- (-9223372036854775808 + 1) + 1)) with 9223372036854775808.
  change (2 ^ 64) with 18446744073709551616 in Hspec.
  destruct r as [[plen x]|]; cycle 1.
  { exists None. split; [done|]. intros v. destruct negative; rewrite Hinv; split; try done;
      intros [(_ & Hd & Hv) ?]; exfalso; apply Hspec; split; done || lia. }
  destruct (plen <? _).
  { exists None. split; [done|]. intros v. destruct negative; rewrite Hinv; (split; [done|tauto]). }
  destruct Hspec as (Hd & -> & Hx). destruct negative; case_if_lia.
  all: try (exists None; split; [done|]; intros v; rewrite Hinv; split; done || lia).
  - assert (E1 : swrap 64 (uwrap 64 (- dval (c - 48) rest)) = - dval (c - 48) rest).
    { unfold uwrap. rewrite swrap_mod by lia. apply swrap_small; [lia|]. unfold in_s. cbn. lia. }
    rewrite E1. eexists. split; [done|]. intros v. rewrite Hinv. split.
    + intros [= <-]. rewrite Z.opp_involutive. repeat split; done || lia.
    + intros [(_ & _ & Hv) _]. f_equal. lia.
  - rewrite swrap_small by (try (unfold in_s; cbn); lia). eexists. split; [done|].
    intros v. rewrite Hinv. split.
    + intros [= <-]. repeat split; done || lia.
    + by intros [(_ & _ & ->) _].
Qed.

(** [string2ll] never reads outside the string and accepts exactly the
    canonical decimal strings of 64-bit integers, returning the integer. *)
Lemma string2ll_spec s :
  Forall byte_ok s ->
  exists r, string2ll s (zlen s) = Some r /\ forall v, r = Some v <-> canonical s v.
Proof.
  intros Hok. unfold string2ll. setoid_rewrite canonical_cases.
  destruct s as [|c0 s].
  { exists None. split; [done|]. intros v. split; [done|].
    intros [[? _]|[[(? & ? & ? & _) _]|(? & ? & _)]]; done. }
  cbn [length]. if_false.
  rewrite (bget_app [] c0 s 0 eq_refl : (c0 :: s).[0] = _). cbn [mbind option_bind].
  pose proof Hok as [Hc0 Hok']%Forall_cons. pose proof (schar_cases c0 Hc0) as Hs0.
  unfold byte_ok in Hc0. case_if_lia.
  { assert (c0 = 48) as -> by lia. destruct s; [|cbn in *; lia].
    exists (Some 0). split; [done|]. intros v. split; [intros [= <-]; by left|].
    intros [[_ ->]|[[(? & ? & [= <- <-] & ? & _) _]|(? & [=] & _)]]; [done|lia]. }
  case_if_lia.
  - assert (c0 = 45) as -> by lia.
    assert (Hpos : forall v, positive_numeral (45 :: s) v -> False).
    { intros v (? & ? & [= <- <-] & ? & _). lia. }
    case_if_lia.
    + destruct s; [|cbn in *; lia]. exists None. split; [done|]. intros v. split; [done|].
      intros [[[=] _]|[[?%Hpos _]|(? & [= <-] & (? & ? & ? & _) & _)]]; done.
    + destruct (string2ll_digits_spec [45] s true) as (r & Hr & Hspec); [done|by destruct s|].
      cbn [app length] in Hr. exists r. split; [exact Hr|]. intros v. rewrite Hspec. split.
      * intros [? ?]. right. right. by exists s.
      * intros [[[=] _]|[[?%Hpos _]|(? & [= <-] & ?)]]; done.
  - destruct (string2ll_digits_spec [] (c0 :: s) false) as (r & Hr & Hspec); [done..|].
    cbn [app length] in Hr. exists r. split; [exact Hr|]. intros v. rewrite Hspec. split; [tauto|].
    intros [[[= -> ->] _]|[?|(? & [= -> <-] & _)]]; [cbn in *; lia|done|lia].
Qed.

Lemma sdigits10_canon v d :
  in_s 64 v -> ndigits d (Z.abs v) -> sdigits10 v = Some (zlen (canon d v)).
Proof.
  intros Hv Hd. destruct (magnitude_spec v Hv) as [Hm Hr].
  unfold sdigits10, canon. destruct (v <? 0) eqn:E.
  - destruct (digits10_ndigits (magnitude v) Hr) as (d' & -> & Hd' & _). rewrite Hm in *.
    rewrite (ndigits_unique _ _ _ Hd' Hd). cbn [mbind option_bind length].
    rewrite length_dec. f_equal. lia.
  - assert (Hv0 : magnitude v = v) by (unfold magnitude; by rewrite E).
    destruct (digits10_ndigits (magnitude v) Hr) as (d' & He & Hd' & _).
    rewrite Hm in Hd'. rewrite Hv0 in He. rewrite He, length_dec.
    by rewrite (ndigits_unique _ _ _ Hd' Hd).
Qed.

(** * Theorems *)

(** C33: [string2ll] and [ll2string] are inverse to each other. On every byte
    string [string2ll] returns without reading past its end; it succeeds with
    [v] exactly when [v] is the 64-bit integer that [ll2string] prints as that
    string (into any buffer that can hold it and its terminator). *)
Theorem string2ll_inverts_ll2string s dst :
  Forall byte_ok s -> zlen dst = zlen s + 1 ->
  exists r, string2ll s (zlen s) = Some r /\
    forall v, r = Some v <-> in_s 64 v /\ ll2string dst (zlen dst) v = Some (zlen s, s ++ [0])
                             /\ s <> [].
Proof.
  intros Hok Hdst. destruct (string2ll_spec s Hok) as (r & Hr & Hspec). exists r.
  split; [done|]. intros v. rewrite Hspec. unfold canonical. split.
  - intros (Hv & d & Hd & ->). split; [done|]. pose proof (ndigits_pos _ _ Hd) as Hpos.
    destruct (ll2string_spec dst v Hv) as (d' & Hd' & ->).
    rewrite (ndigits_unique _ _ _ Hd' Hd). split.
    + if_false. by rewrite drop_ge by lia.
    + intros E%(f_equal length). unfold canon in E.
      destruct (v <? 0); cbn [length] in E; [done|]. rewrite length_dec in E. cbn in E. lia.
  - intros (Hv & HL & Hs). split; [done|].
    destruct (ll2string_spec dst v Hv) as (d & Hd & E). exists d. split; [done|].
    rewrite E in HL. destruct (_ >=? _).
    + injection HL as HL _. destruct s; [done|cbn in HL; lia].
    + injection HL as HL1 HL2. apply app_inj_1 in HL2 as [-> _]; [done|lia].
Qed.

(** [ll2string] on an arbitrary buffer and any 64-bit integer never writes
    out of bounds. It returns [sdigits10] of the value, terminates the string
    there and leaves the bytes after it alone; if the string and terminator do
    not fit it returns 0 and the buffer is unchanged. *)
Theorem ll2string_bounds dst v :
  in_s 64 v ->
  exists n, sdigits10 v = Some n /\ 1 <= n <= 20 /\
    if n <? zlen dst then
      exists dst', ll2string dst (zlen dst) v = Some (n, dst') /\ zlen dst' = zlen dst /\
        dst'.[n] = Some 0 /\ drop (Z.to_nat (n + 1)) dst' = drop (Z.to_nat (n + 1)) dst
    else ll2string dst (zlen dst) v = Some (0, dst).
Proof.
  intros Hv. destruct (ll2string_spec dst v Hv) as (d & Hd & ->).
  exists (zlen (canon d v)). split; [by apply sdigits10_canon|].
  pose proof (ndigits_pos _ _ Hd).
  assert (d <= 19)%nat.
  { apply (ndigits_le d (Z.abs v)); [done| |lia]. unfold in_s in Hv. cbn in *. lia. }
  assert (Hlen : zlen (canon d v) = Z.of_nat d + if v <? 0 then 1 else 0).
  { unfold canon. destruct (v <? 0); cbn [length]; rewrite length_dec; lia. }
  split; [rewrite Hlen; case_if_lia|].
  destruct (zlen (canon d v) <? zlen dst) eqn:E; [if_false|by if_true].
  eexists. split; [done|]. rewrite !length_app. cbn [length]. rewrite length_drop.
  split; [lia|]. split; [by apply bget_app|].
  replace (Z.to_nat (zlen (canon d v) + 1)) with (S (length (canon d v))) by lia.
  replace (S (length (canon d v))) with (length (canon d v ++ [0])) at 1
    by (rewrite length_app; cbn; lia).
  replace (canon d v ++ 0 :: drop (S (length (canon d v))) dst)
    with ((canon d v ++ [0]) ++ drop (S (length (canon d v))) dst) by (by rewrite <- app_assoc).
  apply drop_app_length.
Qed.

(** ** Witnesses *)

Lemma string2ll_inverts_ll2string_witness :
  exists r, string2ll (of_string "-1024"%string) 5 = Some r /\
    forall v, r = Some v <->
      in_s 64 v /\ ll2string (replicate 6 7) 6 v
                   = Some (5, of_string "-1024"%string ++ [0])
      /\ of_string "-1024"%string <> [].
Proof.
  apply (string2ll_inverts_ll2string (of_string "-1024"%string) (replicate 6 7)); [|done].
  repeat constructor; unfold byte_ok; cbn; lia.
Defined.

Lemma ll2string_bounds_witness :
  exists n, sdigits10 LLONG_MIN = Some n /\ 1 <= n <= 20 /\
    if n <? zlen (replicate 32 1) then
      exists dst', ll2string (replicate 32 1) (zlen (replicate 32 1)) LLONG_MIN = Some (n, dst') /\
        zlen dst' = zlen (replicate 32 1) /\ dst'.[n] = Some 0 /\
        drop (Z.to_nat (n + 1)) dst' = drop (Z.to_nat (n + 1)) (replicate 32 1)
    else ll2string (replicate 32 1) (zlen (replicate 32 1)) LLONG_MIN = Some (0, replicate 32 1).
Proof.
  apply (ll2string_bounds (replicate 32 1) LLONG_MIN). unfold in_s, LLONG_MIN. cbn. lia.
Defined.
