(* ===== verification/CrcSpec.v ===== *)
(** The CRC-64 and CRC-16 code against their polynomials; the hash slot of a
    key.

    One step of the register is a linear map over [Z.lxor]; the tables hold
    powers of its eighth iterate, which is what makes the table-driven code
    equal to the bit-by-bit code. *)
From stdpp Require Import sets.
From S2P Require Import Prelude Endian Crc.
Open Scope Z_scope.

(** ** Bits *)

Ltac bits := apply Z.bits_inj'; let i := fresh "i" in intros i ?; rewrite ?Z.lxor_spec.

Lemma testbit_uwrap w x i : 0 <= w -> 0 <= i -> Z.testbit (uwrap w x) i = (i <? w) && Z.testbit x i.
Proof.
  intros. unfold uwrap. destruct (Z.ltb_spec i w).
  - by rewrite Z.mod_pow2_bits_low by lia.
  - by rewrite Z.mod_pow2_bits_high by lia.
Qed.

Lemma lxor_range w x y : 0 <= w -> in_u w x -> in_u w y -> in_u w (Z.lxor x y).
Proof.
  intros Hw Hx Hy. apply in_u_bits; [done|apply Z.lxor_nonneg; unfold in_u in *; lia|].
  intros i Hi. rewrite Z.lxor_spec, (in_u_high w x), (in_u_high w y) by done. done.
Qed.

Lemma lxor_swap a b c d : Z.lxor (Z.lxor a b) (Z.lxor c d) = Z.lxor (Z.lxor a c) (Z.lxor b d).
Proof. bits. by destruct (Z.testbit a i), (Z.testbit b i), (Z.testbit c i), (Z.testbit d i). Qed.

(** The bits of an integer read from its bytes. *)
Lemma testbit_byte x i : byte_ok x -> 8 <= i -> Z.testbit x i = false.
Proof. intros Hx Hi. apply (in_u_high 8); [lia|done|done]. Qed.

Lemma le_val_cons_xor x bs : byte_ok x -> le_val (x :: bs) = Z.lxor x (Z.shiftl (le_val bs) 8).
Proof.
  intros Hx. change (le_val (x :: bs)) with (x + 256 * le_val bs). replace (256 * le_val bs) with (Z.shiftl (le_val bs) 8)
    by (rewrite Z.shiftl_mul_pow2 by lia; lia).
  rewrite Z.add_nocarry_lxor; [done|]. bits. rewrite Z.land_spec, Z.bits_0.
  destruct (Z.lt_ge_cases i 8).
  - rewrite (Z.shiftl_spec_low _ 8 i) by lia. apply andb_false_r.
  - by rewrite (testbit_byte x i).
Qed.

Lemma testbit_le_val bs i : Forall byte_ok bs -> 0 <= i ->
  Z.testbit (le_val bs) i = match bs !! Z.to_nat (i / 8) with Some b => Z.testbit b (i mod 8) | None => false end.
Proof.
  intros Hb. revert i. induction Hb as [|x bs Hx Hb IH]; intros i Hi.
  { cbn. by rewrite Z.bits_0. }
  rewrite le_val_cons_xor, Z.lxor_spec by done.
  destruct (Z.lt_ge_cases i 8).
  - rewrite Z.shiftl_spec_low, xorb_false_r by lia.
    replace (i / 8) with 0 by (symmetry; apply Z.div_small; lia). cbn. by rewrite Z.mod_small by lia.
  - rewrite testbit_byte, xorb_false_l, Z.shiftl_spec, IH by (done || lia).
    replace (Z.to_nat (i / 8)) with (S (Z.to_nat ((i - 8) / 8))) by (Z.to_euclidean_division_equations; lia).
    cbn. replace ((i - 8) mod 8) with (i mod 8); [done|]. Z.to_euclidean_division_equations; lia.
Qed.

Lemma lookup_le_bytes n v k : (k < n)%nat -> le_bytes n v !! k = Some (Z.land (Z.shiftr v (8 * Z.of_nat k)) 255).
Proof.
  revert v k. induction n as [|n IH]; intros v k Hk; [lia|]. destruct k as [|k].
  - change (Some (v mod 2 ^ 8) = Some (Z.land (Z.shiftr v 0) 255)). f_equal. rewrite Z.shiftr_0_r. symmetry. apply (Z.land_ones v 8). lia.
  - change (le_bytes (S n) v !! S k) with (le_bytes n (v / 256) !! k). rewrite IH by lia.
    do 2 f_equal. change (v / 256) with (v / 2 ^ 8). rewrite <- Z.shiftr_div_pow2, Z.shiftr_shiftr by lia. f_equal. lia.
Qed.

Lemma testbit_land255 x i : 0 <= i -> Z.testbit (Z.land x 255) i = (i <? 8) && Z.testbit x i.
Proof.
  intros. change 255 with (Z.ones 8). rewrite Z.land_ones by lia. apply testbit_uwrap; lia.
Qed.

Lemma testbit_rev8 c i : 0 <= i < 64 -> Z.testbit (rev8 c) i = Z.testbit c (8 * (7 - i / 8) + i mod 8).
Proof.
  intros Hi. unfold rev8, byteswap. rewrite testbit_le_val by (try lia; apply Forall_reverse, le_bytes_ok).
  unfold be_bytes. rewrite reverse_lookup by (rewrite length_le_bytes; Z.to_euclidean_division_equations; lia).
  rewrite length_le_bytes, lookup_le_bytes by (Z.to_euclidean_division_equations; lia).
  rewrite testbit_land255, Z.shiftr_spec by (Z.to_euclidean_division_equations; lia).
  replace (i mod 8 <? 8) with true by (symmetry; apply Z.ltb_lt; Z.to_euclidean_division_equations; lia).
  cbn [andb]. f_equal. Z.to_euclidean_division_equations; lia.
Qed.

Lemma rev8_range c : in_u 64 (rev8 c).
Proof.
  unfold rev8, byteswap. pose proof (le_val_range (be_bytes 8 c)) as H.
  rewrite length_be_bytes in H. apply H, Forall_reverse, le_bytes_ok.
Qed.

Lemma rev8_involutive c : in_u 64 c -> rev8 (rev8 c) = c.
Proof. intros Hc. unfold rev8. rewrite byteswap_involutive. by apply Z.mod_small. Qed.

Lemma rev8_lxor a b : rev8 (Z.lxor a b) = Z.lxor (rev8 a) (rev8 b).
Proof.
  apply (bits_eq 64); [lia|apply rev8_range|apply lxor_range; [lia|apply rev8_range..]|].
  intros i Hi. by rewrite Z.lxor_spec, !testbit_rev8, Z.lxor_spec by lia.
Qed.

Lemma rev8_shift c : in_u 64 c -> uwrap 64 (Z.shiftl (rev8 c) 8) = rev8 (Z.shiftr c 8).
Proof.
  intros Hc. apply (bits_eq 64); [lia|apply uwrap_range; lia|apply rev8_range|]. intros i Hi.
  rewrite testbit_uwrap, testbit_rev8, Z.shiftr_spec by (Z.to_euclidean_division_equations; lia).
  replace (i <? 64) with true by (symmetry; apply Z.ltb_lt; lia). cbn [andb].
  destruct (Z.lt_ge_cases i 8).
  - rewrite Z.shiftl_spec_low by lia. symmetry. apply (in_u_high 64); [lia|done|].
    Z.to_euclidean_division_equations; lia.
  - rewrite Z.shiftl_spec, testbit_rev8 by lia. f_equal. Z.to_euclidean_division_equations; lia.
Qed.

(** The byte [k] of a word, after a byte swap. *)
Lemma rev8_byte c k s r : 0 <= k < 8 -> s = 8 * k -> r = 56 - s ->
  Z.land (Z.shiftr (rev8 c) s) 255 = Z.land (Z.shiftr c r) 255.
Proof.
  intros Hk -> ->. bits. rewrite !testbit_land255 by done. destruct (Z.ltb_spec i 8); [|done]. cbn [andb].
  rewrite !Z.shiftr_spec, testbit_rev8 by lia. f_equal. Z.to_euclidean_division_equations; lia.
Qed.

Lemma top_byte c : in_u 64 c -> Z.shiftr c 56 = Z.land (Z.shiftr c 56) 255.
Proof.
  intros Hc. bits. rewrite testbit_land255 by done. destruct (Z.ltb_spec i 8); [done|].
  rewrite Z.shiftr_spec by done. apply (in_u_high 64); [lia|done|lia].
Qed.

(** ** The CRC-64 register *)

Definition RPOLY : Z := 0x95ac9329ac4bc9b5.

(** One bit, one byte, [n] bytes of zeros through the (reflected) register. *)
Definition shift1 (x : Z) : Z := Z.lxor (Z.shiftr x 1) (if Z.testbit x 0 then RPOLY else 0).
Definition shift8 (x : Z) : Z := Nat.iter 8 shift1 x.

(** The checksum of [s] from the register [crc], byte by byte. *)
Definition crc64_from (crc : Z) (s : bytes) : Z := foldl (fun c x => shift8 (Z.lxor c x)) crc s.

Definition linear (f : Z -> Z) : Prop := forall a b, f (Z.lxor a b) = Z.lxor (f a) (f b).

Lemma linear_iter f n : linear f -> linear (Nat.iter n f).
Proof. intros Hf a b. induction n as [|n IH]; [done|]. rewrite !Nat.iter_succ, IH. apply Hf. Qed.

Lemma linear_shift1 : linear shift1.
Proof.
  intros a b. unfold shift1. rewrite Z.shiftr_lxor, Z.lxor_spec, lxor_swap. f_equal.
  destruct (Z.testbit a 0), (Z.testbit b 0); cbn [xorb]; by rewrite ?Z.lxor_nilpotent, ?Z.lxor_0_r, ?Z.lxor_0_l.
Qed.

Lemma linear_shift8 : linear shift8.
Proof. apply linear_iter, linear_shift1. Qed.

Lemma shift1_shiftl y n : shift1 (Z.shiftl y (Z.of_nat (S n))) = Z.shiftl y (Z.of_nat n).
Proof.
  unfold shift1. rewrite Z.shiftl_spec_low, Z.lxor_0_r by lia. rewrite Z.shiftr_shiftl_l by lia. f_equal. lia.
Qed.

Lemma shift8_shiftl y : shift8 (Z.shiftl y 8) = y.
Proof.
  assert (E : forall n, Nat.iter n shift1 (Z.shiftl y (Z.of_nat n)) = y).
  { induction n as [|n IH]; [apply Z.shiftl_0_r|]. rewrite Nat.iter_succ_r, shift1_shiftl. done. }
  apply (E 8%nat).
Qed.

Lemma low_high x : x = Z.lxor (Z.land x 255) (Z.shiftl (Z.shiftr x 8) 8).
Proof.
  bits. rewrite testbit_land255 by done. destruct (Z.ltb_spec i 8).
  - by rewrite Z.shiftl_spec_low, xorb_false_r by lia.
  - rewrite Z.shiftl_spec, Z.shiftr_spec by lia. cbn [andb xorb]. f_equal. lia.
Qed.

Lemma shift8_split x : shift8 x = Z.lxor (shift8 (Z.land x 255)) (Z.shiftr x 8).
Proof. rewrite (low_high x) at 1. by rewrite linear_shift8, shift8_shiftl. Qed.

Lemma shift8_iter_split n x :
  Nat.iter (S n) shift8 x = Z.lxor (Nat.iter (S n) shift8 (Z.land x 255)) (Nat.iter n shift8 (Z.shiftr x 8)).
Proof.
  rewrite (low_high x) at 1. rewrite (linear_iter _ (S n) linear_shift8). f_equal.
  by rewrite Nat.iter_succ_r, shift8_shiftl.
Qed.

Lemma shift1_range x : in_u 64 x -> in_u 64 (shift1 x).
Proof.
  intros Hx. apply lxor_range; [lia| |destruct Z.testbit; unfold in_u, RPOLY; lia].
  unfold in_u in *. rewrite Z.shiftr_div_pow2 by lia. Z.to_euclidean_division_equations; lia.
Qed.

Lemma shift8_range x : in_u 64 x -> in_u 64 (shift8 x).
Proof. intros Hx. unfold shift8. cbn [Nat.iter nat_rect]. by repeat apply shift1_range. Qed.

Lemma shift8_iter_range n x : in_u 64 x -> in_u 64 (Nat.iter n shift8 x).
Proof. intros Hx. induction n as [|n IH]; [done|]. by apply shift8_range. Qed.

Lemma byte_u64 x : byte_ok x -> in_u 64 x.
Proof. unfold byte_ok, in_u. lia. Qed.

Lemma shift8_byte c x : byte_ok x ->
  shift8 (Z.lxor c x) = Z.lxor (shift8 (Z.land (Z.lxor c x) 255)) (Z.shiftr c 8).
Proof.
  intros Hx. rewrite shift8_split. f_equal. rewrite Z.shiftr_lxor.
  rewrite (Z.shiftr_div_pow2 x), (Z.div_small x) by (lia || exact Hx). by rewrite Z.lxor_0_r.
Qed.

(** Eight bytes at a time, or any number of them. *)
Lemma crc64_from_word c bs : Forall byte_ok bs ->
  crc64_from c bs = Nat.iter (length bs) shift8 (Z.lxor c (le_val bs)).
Proof.
  intros Hb. revert c. induction Hb as [|x bs Hx Hb IH]; intros c.
  { symmetry. apply Z.lxor_0_r. }
  change (crc64_from c (x :: bs)) with (crc64_from (shift8 (Z.lxor c x)) bs).
  rewrite IH, le_val_cons_xor, <- Z.lxor_assoc by done. cbn [length]. rewrite Nat.iter_succ_r.
  by rewrite (linear_shift8 (Z.lxor c x)), shift8_shiftl.
Qed.

(** ** The bit-by-bit code *)

Lemma testbit_land1 x i : 0 <= i -> Z.testbit (Z.land x 1) i = (i =? 0) && Z.testbit x 0.
Proof.
  intros Hi. rewrite Z.land_spec. destruct (Z.eqb_spec i 0) as [->|]; [apply andb_true_r|].
  replace (Z.testbit 1 i) with false; [apply andb_false_r|]. symmetry. apply (in_u_high 1); [lia|unfold in_u; lia|lia].
Qed.

Lemma reflect_loop_bits n m d ret : Z.of_nat n + m <= 63 -> 0 <= m ->
  (forall i, 0 <= i -> Z.testbit ret i = (i <=? m) && Z.testbit d (m - i)) ->
  forall i, 0 <= i ->
  Z.testbit (reflect_loop n (Z.shiftr d m) ret) i = (i <=? m + Z.of_nat n) && Z.testbit d (m + Z.of_nat n - i).
Proof.
  revert m ret. induction n as [|n IH]; intros m ret Hn Hm Hr i Hi.
  { change (reflect_loop 0 _ ret) with ret. rewrite Hr by done. by rewrite Z.add_0_r. }
  cbn [reflect_loop]. rewrite Z.shiftr_shiftr by lia.
  replace (m + Z.of_nat (S n)) with (m + 1 + Z.of_nat n) by lia.
  apply IH; [lia..| |done]. clear i Hi. intros i Hi.
  rewrite Z.lor_spec, testbit_uwrap, testbit_land1, Z.shiftr_spec by lia.
  destruct (Z.eqb_spec i 0) as [->|Hn0].
  - rewrite Z.shiftl_spec_low by lia. rewrite andb_false_r, orb_false_l. cbn [andb].
    replace (0 <=? m + 1) with true by (symmetry; apply Z.leb_le; lia). cbn [andb]. f_equal. lia.
  - rewrite Z.shiftl_spec, Hr, orb_false_r by lia.
    destruct (Z.leb_spec i (m + 1)), (Z.leb_spec (i - 1) m), (Z.ltb_spec i 64); try lia; try done.
    cbn [andb]. f_equal. lia.
Qed.

Lemma testbit_reflect d i : 0 <= i -> Z.testbit (crc_reflect d 64) i = (i <=? 63) && Z.testbit d (63 - i).
Proof.
  intros Hi. unfold crc_reflect. rewrite <- (Z.shiftr_0_r d) at 1.
  apply (reflect_loop_bits 63 0); [done..| |done]. clear i Hi. intros i Hi. rewrite testbit_land1 by done.
  destruct (Z.leb_spec i 0), (Z.eqb_spec i 0) as [->|]; (done || lia).
Qed.

Lemma reflect_range d : in_u 64 (crc_reflect d 64).
Proof.
  apply in_u_bits; [lia| |].
  - apply Z.bits_iff_nonneg_ex. exists 63. intros i Hi. rewrite testbit_reflect by lia.
    by replace (i <=? 63) with false by (symmetry; apply Z.leb_gt; lia).
  - intros i Hi. rewrite testbit_reflect by lia.
    by replace (i <=? 63) with false by (symmetry; apply Z.leb_gt; lia).
Qed.

#[local] Strategy expand [shift8].
Lemma shift8_unfold x : Nat.iter 8 shift1 x = shift8 x.
Proof. reflexivity. Qed.

#[local] Opaque crc_reflect shift8.

Lemma reflect_lxor a b : crc_reflect (Z.lxor a b) 64 = Z.lxor (crc_reflect a 64) (crc_reflect b 64).
Proof.
  bits. rewrite !testbit_reflect by done. rewrite Z.lxor_spec. by destruct (i <=? 63).
Qed.

(** One turn of the loop, on the value of the tested bit of the byte. *)
Definition push (u : Z) (b : bool) : Z :=
  let u' := uwrap 64 (Z.shiftl u 1) in if xorb (Z.testbit u 63) b then Z.lxor u' POLY else u'.

Lemma push_range u b : in_u 64 (push u b).
Proof.
  unfold push. destruct xorb; [apply lxor_range; [lia| |unfold in_u, POLY; lia]|]; apply uwrap_range; lia.
Qed.

Lemma reflect_push u b r : in_u 64 u -> r = crc_reflect u 64 ->
  crc_reflect (push u b) 64 = Z.lxor (Z.shiftr r 1) (if xorb (Z.testbit r 0) b then RPOLY else 0).
Proof.
  intros Hu ->. rewrite testbit_reflect by done. change (63 - 0) with 63. cbn [Z.leb Z.compare andb].
  assert (E : crc_reflect (uwrap 64 (Z.shiftl u 1)) 64 = Z.shiftr (crc_reflect u 64) 1).
  { bits. rewrite Z.shiftr_spec, !testbit_reflect by lia.
    destruct (Z.leb_spec i 63), (Z.leb_spec (i + 1) 63); try lia; try done; cbn [andb].
    - rewrite testbit_uwrap, Z.shiftl_spec by lia. replace (63 - i <? 64) with true by (symmetry; apply Z.ltb_lt; lia).
      cbn [andb]. f_equal. lia.
    - replace i with 63 by lia. rewrite testbit_uwrap by lia. by rewrite Z.shiftl_spec_low, andb_false_r by lia. }
  unfold push. destruct xorb; [|by rewrite Z.lxor_0_r]. rewrite reflect_lxor, E. done.
Qed.

Lemma land_pow2_zero c j : 0 <= j -> (Z.land c (2 ^ j) =? 0) = negb (Z.testbit c j).
Proof.
  intros Hj. destruct (Z.testbit c j) eqn:E; cbn [negb].
  - apply Z.eqb_neq. intros H. assert (X : Z.testbit (Z.land c (2 ^ j)) j = false) by by rewrite H, Z.bits_0.
    by rewrite Z.land_spec, E, Z.pow2_bits_true in X by done.
  - apply Z.eqb_eq. bits. rewrite Z.land_spec, Z.bits_0. destruct (decide (i = j)) as [->|].
    + by rewrite E.
    + by rewrite Z.pow2_bits_false, andb_false_r.
Qed.

Lemma crc64_bits_push j u c : (j <= 8)%nat -> in_u 64 u ->
  crc64_bits j (uwrap 8 (2 ^ (8 - Z.of_nat j))) u c
  = Some (foldl (fun u k => push u (Z.testbit c k)) u (seqZ (8 - Z.of_nat j) (Z.of_nat j))).
Proof.
  revert u. induction j as [|j IH]; intros u Hj Hu; [done|].
  assert (Hs : in_u 8 (2 ^ (8 - Z.of_nat (S j)))).
  { split; [lia|]. apply Z.pow_lt_mono_r; lia. }
  rewrite uwrap_small by done. rewrite seqZ_cons by lia. cbn [foldl].
  replace (Z.succ (8 - Z.of_nat (S j))) with (8 - Z.of_nat j) by lia.
  replace (Z.pred (Z.of_nat (S j))) with (Z.of_nat j) by lia.
  rewrite <- IH by (try lia; apply push_range). set (k := 8 - Z.of_nat (S j)) in *.
  replace (8 - Z.of_nat j) with (k + 1) by lia. cbn [crc64_bits].
  replace (Z.land (2 ^ k) 255 =? 0) with false.
  2: { symmetry. apply Z.eqb_neq. change 255 with (Z.ones 8). rewrite Z.land_ones, Z.mod_small by (lia || exact Hs). lia. }
  replace (Z.shiftl (2 ^ k) 1) with (2 ^ (k + 1)) by (rewrite Z.shiftl_mul_pow2, Z.pow_add_r by lia; lia).
  f_equal. rewrite land_pow2_zero by lia. change 9223372036854775808 with (2 ^ 63).
  pose proof (land_pow2_zero u 63) as E. unfold push. rewrite E by lia. rewrite negb_involutive.
  destruct (Z.testbit c k), (Z.testbit u 63); cbn [xorb negb] in *; try done; rewrite ?E; done.
Qed.

Lemma push_shift1 c l u : in_u 64 u -> 0 <= l ->
  crc_reflect (push u (Z.testbit c l)) 64 = Z.lxor (shift1 (Z.lxor (crc_reflect u 64) (Z.shiftr c l))) (Z.shiftr c (l + 1)).
Proof.
  intros Hu Hl. rewrite (reflect_push u _ _ Hu eq_refl). unfold shift1.
  rewrite Z.shiftr_lxor, Z.shiftr_shiftr, Z.lxor_spec, Z.shiftr_spec, Z.add_0_l by lia.
  bits. rewrite ?Z.lxor_spec.
  match goal with |- context [Z.testbit (if ?b then RPOLY else 0) i] => destruct (Z.testbit (if b then RPOLY else 0) i) end;
  by destruct (Z.testbit (Z.shiftr (crc_reflect u 64) 1) i), (Z.testbit (Z.shiftr c (l + 1)) i).
Qed.

(** The eight turns of the loop are one byte through the register. *)
Lemma push_byte c n l u : in_u 64 u -> 0 <= l ->
  crc_reflect (foldl (fun u k => push u (Z.testbit c k)) u (seqZ l (Z.of_nat n))) 64
  = Z.lxor (Nat.iter n shift1 (Z.lxor (crc_reflect u 64) (Z.shiftr c l))) (Z.shiftr c (l + Z.of_nat n)).
Proof.
  revert u l. induction n as [|n IH]; intros u l Hu Hl.
  { cbn. by rewrite Z.add_0_r, Z.lxor_assoc, Z.lxor_nilpotent, Z.lxor_0_r. }
  rewrite seqZ_cons by lia. cbn [foldl]. replace (Z.pred (Z.of_nat (S n))) with (Z.of_nat n) by lia.
  rewrite IH by (try lia; apply push_range). rewrite push_shift1 by done.
  rewrite Nat.iter_succ_r, Z.lxor_assoc. replace (Z.succ l) with (l + 1) by lia.
  rewrite Z.lxor_nilpotent, Z.lxor_0_r. do 2 f_equal. lia.
Qed.

Lemma crc64_bits_shift8 u c : in_u 64 u -> byte_ok c ->
  exists u', crc64_bits 8 1 u c = Some u' /\ in_u 64 u' /\ crc_reflect u' 64 = shift8 (Z.lxor (crc_reflect u 64) c).
Proof.
  intros Hu Hc. pose proof (crc64_bits_push 8 u c (le_n 8) Hu) as E. replace (uwrap 8 (2 ^ _)) with 1 in E by reflexivity.
  replace (8 - Z.of_nat 8) with 0 in E by reflexivity. eexists. split; [exact E|]. split.
  - replace (seqZ 0 (Z.of_nat 8)) with (seqZ 0 7 ++ [7]) by reflexivity. rewrite foldl_app. apply push_range.
  - rewrite push_byte by done. rewrite Z.shiftr_0_r, (Z.shiftr_div_pow2 c) by done.
    rewrite (Z.div_small c) by exact Hc. rewrite Z.lxor_0_r. apply shift8_unfold.
Qed.

Lemma land_u64 x : in_u 64 x -> Z.land x 0xffffffffffffffff = x.
Proof. intros Hx. change 0xffffffffffffffff with (Z.ones 64). rewrite Z.land_ones by lia. by apply Z.mod_small. Qed.

Lemma crc64_bytes_spec u s : in_u 64 u -> Forall byte_ok s ->
  exists u', crc64_bytes u s = Some u' /\ in_u 64 u' /\ crc_reflect u' 64 = crc64_from (crc_reflect u 64) s.
Proof.
  intros Hu Hs. revert u Hu. induction Hs as [|c s Hc Hs IH]; intros u Hu.
  { exists u. split; [reflexivity|]. split; [exact Hu|reflexivity]. }
  destruct (crc64_bits_shift8 u c Hu Hc) as (u1 & E1 & Hu1 & R1). cbn [crc64_bytes]. rewrite E1. cbn [mbind option_bind].
  rewrite land_u64 by done. destruct (IH u1 Hu1) as (u2 & E2 & Hu2 & R2). exists u2. split; [exact E2|].
  split; [exact Hu2|]. rewrite R2, R1. reflexivity.
Qed.

Lemma crc64_slow_spec u s : in_u 64 u -> Forall byte_ok s ->
  _crc64 u s = Some (crc64_from (crc_reflect u 64) s).
Proof.
  intros Hu Hs. destruct (crc64_bytes_spec u s Hu Hs) as (u' & E & Hu' & R). unfold _crc64. rewrite E.
  cbn [mbind option_bind]. rewrite land_u64, Z.lxor_0_r, R by exact Hu'. reflexivity.
Qed.

(** ** The tables *)

(** [table[k][n]] is the byte [n] through [k + 1] zero bytes, encoded by [enc]. *)
Definition table_ok (enc : Z -> Z) (t : list (list Z)) : Prop :=
  forall k n, 0 <= k < 8 -> byte_ok n -> tab t k n = Some (enc (Nat.iter (S (Z.to_nat k)) shift8 n)).

Lemma mapM_map {A B} (f : A -> option B) (g : A -> B) l :
  (forall x, x ∈ l -> f x = Some (g x)) -> mapM f l = Some (map g l).
Proof.
  intros H. induction l as [|x l IH]; [done|]. cbn. rewrite (H x) by left. cbn.
  rewrite IH; [done|]. intros y Hy. apply H. by right.
Qed.

Lemma bget_map_seqZ (g : Z -> Z) n : byte_ok n -> (map g (seqZ 0 256)).[n] = Some (g n).
Proof.
  unfold byte_ok. intros Hn. unfold bget. replace (0 <=? n) with true by (symmetry; apply Z.leb_le; lia).
  change (map g (seqZ 0 256)) with (g <$> seqZ 0 256). rewrite list_lookup_fmap, lookup_seqZ_lt by lia.
  cbn. do 2 f_equal. lia.
Qed.

Lemma land255_byte x : byte_ok (Z.land x 255).
Proof. change 255 with (Z.ones 8). rewrite Z.land_ones by lia. apply Z.mod_pos_bound. lia. Qed.

Lemma nested_spec k c :
  nested (map shift8 (seqZ 0 256)) k c = Some (map (fun j => Nat.iter (S j) shift8 c) (seq 0 k)).
Proof.
  revert c. induction k as [|k IH]; intros c; [done|]. cbn [nested].
  rewrite bget_map_seqZ by apply land255_byte. cbn [mbind option_bind]. rewrite <- shift8_split, IH.
  cbn [mbind option_bind seq map]. do 2 f_equal. rewrite <- seq_shift, map_map. apply map_ext.
  intros j. by rewrite (Nat.iter_succ_r (S j)).
Qed.

Definition column (n : Z) : list Z := map (fun j => Nat.iter (S j) shift8 n) (seq 0 8).

Lemma column_nested n : shift8 n :: map (fun j => Nat.iter (S j) shift8 (shift8 n)) (seq 0 7) = column n.
Proof.
  unfold column. change (seq 0 8) with (0%nat :: seq 1 7). rewrite <- (seq_shift 7 0). cbn [map]. rewrite map_map.
  apply (f_equal (cons (shift8 n))), map_ext. intros j. by rewrite (Nat.iter_succ_r (S j)).
Qed.

Lemma little_table : crcspeed64little_init _crc64 = Some (map column (seqZ 0 256)).
Proof.
  unfold crcspeed64little_init. rewrite (mapM_map _ shift8).
  2: { intros n Hn%elem_of_seqZ. rewrite crc64_slow_spec by (try by unfold in_u; repeat constructor; lia).
       reflexivity. }
  cbn [mbind option_bind]. rewrite (mapM_map _ (fun c => c :: map (fun j => Nat.iter (S j) shift8 c) (seq 0 7))).
  2: { intros c _. by rewrite nested_spec. }
  rewrite map_map. apply (f_equal Some), map_ext. intros n. apply column_nested.
Qed.

Lemma tab_columns (enc : Z -> Z) k n : 0 <= k < 8 -> byte_ok n ->
  tab (map (fun n => map enc (column n)) (seqZ 0 256)) k n = Some (enc (Nat.iter (S (Z.to_nat k)) shift8 n)).
Proof.
  unfold byte_ok. intros Hk Hn. unfold tab. change (map ?f (seqZ 0 256)) with (f <$> seqZ 0 256).
  rewrite list_lookup_fmap, lookup_seqZ_lt by lia. cbn [fmap option_fmap option_map mbind option_bind].
  unfold bget. replace (0 <=? k) with true by (symmetry; apply Z.leb_le; lia). unfold column.
  rewrite map_map. change (map ?f (seq 0 8)) with (f <$> seq 0 8). rewrite list_lookup_fmap, lookup_seq_lt by lia.
  cbn [fmap option_fmap option_map]. do 2 f_equal. replace (0 + Z.of_nat (Z.to_nat n)) with n by lia. done.
Qed.

Lemma little_init_ok : exists t, crcspeed64little_init _crc64 = Some t /\ table_ok id t.
Proof.
  eexists. split; [apply little_table|]. intros k n Hk Hn. rewrite <- tab_columns by done. apply (f_equal (fun t => tab t k n)).
  apply map_ext. intros x. symmetry. apply map_id.
Qed.

Lemma big_init_ok : exists t, crcspeed64big_init _crc64 = Some t /\ table_ok rev8 t.
Proof.
  eexists. split; [unfold crcspeed64big_init; rewrite little_table; reflexivity|].
  intros k n Hk Hn. rewrite <- tab_columns by done. apply (f_equal (fun t => tab t k n)). apply map_map.
Qed.

(** ** The two byte orders

    What the loops need of the updates: the register is kept encoded by [enc],
    and a word read in the host's byte order is the encoding of its bytes. *)
Class Engine `{Host} (enc : Z -> Z) (upd_byte : Z -> Z -> option Z) (upd_word : Z -> option Z) : Prop := {
  eng_byte c x : in_u 64 c -> byte_ok x -> upd_byte (enc c) x = Some (enc (shift8 (Z.lxor c x)));
  eng_word c : in_u 64 c -> upd_word (enc c) = Some (enc (Nat.iter 8 shift8 c));
  eng_load c bs : Forall byte_ok bs -> length bs = 8%nat ->
    Z.lxor (enc c) (host_val bs) = enc (Z.lxor c (le_val bs));
}.

(** [shift8_iter_split] down to the last byte of the word. *)
Lemma iter8_bytes c : Nat.iter 8 shift8 c =
  Z.lxor (Nat.iter 8 shift8 (Z.land c 255)) (Z.lxor (Nat.iter 7 shift8 (Z.land (Z.shiftr c 8) 255))
  (Z.lxor (Nat.iter 6 shift8 (Z.land (Z.shiftr c 16) 255)) (Z.lxor (Nat.iter 5 shift8 (Z.land (Z.shiftr c 24) 255))
  (Z.lxor (Nat.iter 4 shift8 (Z.land (Z.shiftr c 32) 255)) (Z.lxor (Nat.iter 3 shift8 (Z.land (Z.shiftr c 40) 255))
  (Z.lxor (Nat.iter 2 shift8 (Z.land (Z.shiftr c 48) 255)) (Nat.iter 1 shift8 (Z.shiftr c 56)))))))).
Proof.
  do 7 (rewrite shift8_iter_split; apply (f_equal (Z.lxor _)); rewrite ?Z.shiftr_shiftr by lia; cbn [Z.add Pos.add Pos.add_carry Pos.succ]).
  reflexivity.
Qed.

Lemma tab_at enc t k n (m : nat) : table_ok enc t -> byte_ok n -> 0 <= k < 8 -> m = S (Z.to_nat k) ->
  tab t k n = Some (enc (Nat.iter m shift8 n)).
Proof. intros Ht Hn Hk ->. by apply Ht. Qed.

Ltac table_entry Ht k m :=
  rewrite (tab_at _ _ k _ m Ht) by (apply land255_byte || lia || reflexivity); cbn [mbind option_bind].

Lemma LittleEngine t : table_ok id t -> Engine (H := LittleHost) id (little_byte t) (little_word t).
Proof.
  intros Ht. split.
  - intros c x Hc Hx. unfold id, little_byte. table_entry Ht 0 1%nat. by rewrite (shift8_byte c x Hx).
  - intros c Hc. unfold id, little_word. rewrite (top_byte c Hc).
    table_entry Ht 7 8%nat. table_entry Ht 6 7%nat. table_entry Ht 5 6%nat. table_entry Ht 4 5%nat.
    table_entry Ht 3 4%nat. table_entry Ht 2 3%nat. table_entry Ht 1 2%nat. table_entry Ht 0 1%nat.
    apply (f_equal Some). rewrite (iter8_bytes c), <- (top_byte c Hc). unfold id. rewrite !Z.lxor_assoc. reflexivity.
  - intros c bs _ _. reflexivity.
Qed.

Lemma BigEngine t : table_ok rev8 t -> Engine (H := BigHost) rev8 (big_byte t) (big_word t).
Proof.
  intros Ht. split.
  - intros c x Hc Hx. unfold big_byte. rewrite (top_byte _ (rev8_range c)), (rev8_byte c 7 56 0), Z.shiftr_0_r by lia.
    assert (E : Z.lxor (Z.land c 255) x = Z.land (Z.lxor c x) 255).
    { bits. rewrite !testbit_land255, Z.lxor_spec by done. destruct (Z.ltb_spec i 8); [done|]. cbn [andb].
      by rewrite (testbit_byte x i). }
    rewrite E. table_entry Ht 0 1%nat. by rewrite (rev8_shift c Hc), <- rev8_lxor, (shift8_byte c x Hx).
  - intros c Hc. unfold big_word. rewrite (top_byte _ (rev8_range c)).
    pose proof (rev8_byte c) as B.
    rewrite (B 7 56 0), (B 6 48 8), (B 5 40 16), (B 4 32 24), (B 3 24 32), (B 2 16 40), (B 1 8 48) by lia.
    rewrite <- (Z.shiftr_0_r (rev8 c)), (B 0 0 56), Z.shiftr_0_r by lia.
    table_entry Ht 0 1%nat. table_entry Ht 1 2%nat. table_entry Ht 2 3%nat. table_entry Ht 3 4%nat.
    table_entry Ht 4 5%nat. table_entry Ht 5 6%nat. table_entry Ht 6 7%nat. table_entry Ht 7 8%nat.
    apply (f_equal Some). pose proof (iter8_bytes c) as E. rewrite (top_byte c Hc) in E.
    rewrite E, <- !rev8_lxor. apply (f_equal rev8). apply Z.bits_inj'. intros i Hi. rewrite !Z.lxor_spec. repeat destruct (Z.testbit _ i); done.
  - intros c bs Hb Hl. rewrite rev8_lxor. f_equal. unfold rev8. change (host_val (H := BigHost) bs) with (be_val bs).
    rewrite <- (byteswap_be bs Hb), Hl, byteswap_involutive. symmetry. apply Z.mod_small.
    pose proof (le_val_range (reverse bs)) as R. rewrite length_reverse, Hl in R. by apply R, Forall_reverse.
Qed.

Section loops.
Context `{HH : Host} (enc : Z -> Z) (upd_byte : Z -> Z -> option Z) (upd_word : Z -> option Z).
Context `{EE : !Engine enc upd_byte upd_word}.

Lemma crc64_from_range c s : in_u 64 c -> Forall byte_ok s -> in_u 64 (crc64_from c s).
Proof.
  intros Hc Hs. revert c Hc. induction Hs as [|x s Hx Hs IH]; intros c Hc; [done|].
  apply IH, shift8_range, lxor_range; [lia|done|by apply byte_u64].
Qed.

Lemma crc64_from_app c a b : crc64_from c (a ++ b) = crc64_from (crc64_from c a) b.
Proof. apply foldl_app. Qed.

Lemma head_loop_spec c next buf : in_u 64 c -> Forall byte_ok buf ->
  exists a b, buf = a ++ b /\ head_loop upd_byte (enc c) next buf = Some (enc (crc64_from c a), b).
Proof.
  intros Hc Hb. revert c next Hc. induction Hb as [|x buf Hx Hb IH]; intros c next Hc; [by exists [], []|].
  cbn [head_loop]. destruct (negb _); [|by exists [], (x :: buf)].
  rewrite eng_byte by done. cbn [mbind option_bind].
  destruct (IH (shift8 (Z.lxor c x)) (next + 1)) as (a & b & -> & E).
  { apply shift8_range, lxor_range; [lia|done|by apply byte_u64]. }
  exists (x :: a), b. split; [done|]. exact E.
Qed.

Lemma word_loop_spec fuel c buf : in_u 64 c -> Forall byte_ok buf -> (length buf <= fuel)%nat ->
  exists a b, buf = a ++ b /\ word_loop fuel upd_word (enc c) buf = Some (enc (crc64_from c a), b).
Proof.
  revert c buf. induction fuel as [|fuel IH]; intros c buf Hc Hb Hf; cbn [word_loop].
  { destruct buf; [|cbn in Hf; lia]. by exists [], []. }
  rewrite Z.geb_leb. destruct (Z.leb_spec 8 (zlen buf)); [|by exists [], buf].
  destruct (split_at buf 8) as (a & b & -> & Ha); [lia|].
  apply Forall_app in Hb as [Hba Hbb]. unfold load. rewrite bslice_head by lia. cbn [fmap option_fmap option_map mbind option_bind].
  assert (Hca : in_u 64 (Z.lxor c (le_val a))).
  { apply lxor_range; [lia|done|]. pose proof (le_val_range a Hba) as R. rewrite Ha in R. exact R. }
  rewrite eng_load, eng_word by done. cbn [mbind option_bind]. replace (drop 8 (a ++ b)) with b by (rewrite <- Ha; by rewrite drop_app_length).
  pose proof (crc64_from_word c a Hba) as E. rewrite Ha in E. rewrite <- E.
  destruct (IH (crc64_from c a) b) as (a' & b' & -> & E').
  { by apply crc64_from_range. }
  { done. }
  { rewrite length_app in Hf. lia. }
  exists (a ++ a'), b'. by rewrite <- app_assoc, crc64_from_app.
Qed.

Lemma tail_loop_spec c buf : in_u 64 c -> Forall byte_ok buf ->
  tail_loop upd_byte (enc c) buf = Some (enc (crc64_from c buf)).
Proof.
  intros Hc Hb. revert c Hc. induction Hb as [|x buf Hx Hb IH]; intros c Hc; [done|].
  cbn [tail_loop]. rewrite eng_byte by done. cbn [mbind option_bind]. rewrite IH; [done|].
  apply shift8_range, lxor_range; [lia|done|by apply byte_u64].
Qed.

Lemma three_loops c next buf : in_u 64 c -> Forall byte_ok buf ->
  ('(crc, buf) ← head_loop upd_byte (enc c) next buf;
   '(crc, buf) ← word_loop (length buf) upd_word crc buf;
   tail_loop upd_byte crc buf) = Some (enc (crc64_from c buf)).
Proof.
  intros Hc Hb. destruct (head_loop_spec c next buf) as (a1 & b1 & -> & E1); [done..|].
  apply Forall_app in Hb as [Ha1 Hb1]. pose proof (crc64_from_range c a1 Hc Ha1) as Hc1.
  rewrite E1. cbn [mbind option_bind].
  destruct (word_loop_spec (length b1) (crc64_from c a1) b1) as (a2 & b2 & E & E2); [done..|].
  rewrite E2. cbn [mbind option_bind]. rewrite E in Hb1. apply Forall_app in Hb1 as [Ha2 Hb2].
  rewrite tail_loop_spec by (try done; by apply crc64_from_range). by rewrite E, !crc64_from_app.
Qed.
End loops.

Lemma crc64_spec `{HH : Host} c next s : in_u 64 c -> Forall byte_ok s ->
  crc64 c next s = Some (crc64_from c s).
Proof.
  intros Hc Hs. unfold crc64, crc64_init, crcspeed64native_init, crcspeed64native. destruct HH.
  - change first_byte_of_1 with (Some 0). cbn [mbind option_bind Z.eqb negb].
    destruct big_init_ok as (t & E & Ht). rewrite E. cbn [mbind option_bind]. unfold crcspeed64big.
    pose proof (three_loops (EE := BigEngine t Ht) _ _ _ c next s Hc Hs) as L.
    destruct (head_loop _ _ next s) as [[c1 b1]|]; [|discriminate L]. cbn [mbind option_bind] in *.
    change BigHost with true in L. destruct (word_loop _ _ c1 b1) as [[c2 b2]|]; [|discriminate L]. cbn [mbind option_bind] in *.
    rewrite L. cbn [mbind option_bind]. by rewrite rev8_involutive by by apply crc64_from_range.
  - change first_byte_of_1 with (Some 1). cbn [mbind option_bind Z.eqb negb].
    destruct little_init_ok as (t & E & Ht). rewrite E. cbn [mbind option_bind].
    exact (three_loops (EE := LittleEngine t Ht) _ _ _ c next s Hc Hs).
Qed.

(** C28: The table-driven CRC-64 that protects RDB files, on a little- or
    big-endian host and for any alignment of the buffer, returns the checksum
    of the bit-by-bit code ([_crc64]), and checksumming a stream in two pieces,
    the second with the result of the first, returns the checksum of the whole. *)
Theorem crc64_correct `{HH : Host} u next next' a b :
  in_u 64 u -> Forall byte_ok a -> Forall byte_ok b ->
  exists c, in_u 64 c /\ _crc64 u (a ++ b) = Some c /\
    crc64 (crc_reflect u 64) next (a ++ b) = Some c /\
    (c' ← crc64 (crc_reflect u 64) next a; crc64 c' next' b) = Some c.
Proof.
  intros Hu Ha Hb. pose proof (reflect_range u) as Hr. assert (Hab : Forall byte_ok (a ++ b)) by by apply Forall_app.
  exists (crc64_from (crc_reflect u 64) (a ++ b)).
  split; [by apply crc64_from_range|]. split; [by apply crc64_slow_spec|]. split; [by apply crc64_spec|].
  rewrite crc64_spec by done. cbn [mbind option_bind].
  rewrite crc64_spec, crc64_from_app by (try done; by apply crc64_from_range). done.
Qed.

(** The published check value of this CRC, and an unaligned big-endian run in two pieces. *)
Lemma crc64_correct_witness :
  _crc64 0 (of_string "123456789") = Some 0xe9c6d914c4b8d9ca /\
  exists c, in_u 64 c /\ _crc64 0 (of_string "123" ++ of_string "456789abcdefghij") = Some c /\
    crc64 (HH := BigHost) (crc_reflect 0 64) 3 (of_string "123" ++ of_string "456789abcdefghij") = Some c /\
    (c' ← crc64 (HH := BigHost) (crc_reflect 0 64) 3 (of_string "123");
     crc64 (HH := BigHost) c' 6 (of_string "456789abcdefghij")) = Some c.
Proof.
  split; [vm_compute; reflexivity|].
  apply (crc64_correct (HH := BigHost) 0 3 6); [unfold in_u; lia|cbv; repeat constructor; discriminate..].
Defined.

(** ** CRC-16 *)

Definition step16 (c : Z) : Z := uwrap 16 (Z.lxor (Z.shiftl c 1) (if Z.testbit c 15 then 0x1021 else 0)).
Definition shift16 (c : Z) : Z := Nat.iter 8 step16 c.

#[local] Strategy expand [shift16].

(** The CRC-16/XMODEM of [s] from the register [c]. *)
Definition crc16_from (c : Z) (s : bytes) : Z := foldl (fun c x => shift16 (Z.lxor c (Z.shiftl x 8))) c s.

Lemma uwrap_lxor w a b : 0 <= w -> uwrap w (Z.lxor a b) = Z.lxor (uwrap w a) (uwrap w b).
Proof. intros Hw. bits. rewrite !testbit_uwrap, Z.lxor_spec by done. by destruct (i <? w). Qed.

Lemma linear_shift16 : linear shift16.
Proof.
  apply linear_iter. intros a b. unfold step16. rewrite Z.shiftl_lxor, <- uwrap_lxor, Z.lxor_spec, lxor_swap by lia.
  apply (f_equal (fun x => uwrap 16 (Z.lxor _ x))).
  by destruct (Z.testbit a 15), (Z.testbit b 15).
Qed.

Lemma step16_small c : in_u 15 c -> step16 c = Z.shiftl c 1.
Proof.
  intros Hc. unfold step16. rewrite (in_u_high 15 c 15), Z.lxor_0_r by (done || lia).
  apply uwrap_small. unfold in_u in *. rewrite Z.shiftl_mul_pow2 by lia. lia.
Qed.

Lemma shift16_low c : byte_ok c -> shift16 c = Z.shiftl c 8.
Proof.
  unfold byte_ok. intros Hc.
  assert (E : forall n, (n <= 8)%nat -> Nat.iter n step16 c = Z.shiftl c (Z.of_nat n)).
  { induction n as [|n IH]; intros Hn; [symmetry; apply Z.shiftl_0_r|]. rewrite Nat.iter_succ, IH by lia.
    assert (R : in_u 15 (Z.shiftl c (Z.of_nat n))).
    { unfold in_u. rewrite Z.shiftl_mul_pow2 by lia. split; [lia|].
      apply Z.lt_le_trans with (2 ^ 8 * 2 ^ Z.of_nat n); [nia|].
      rewrite <- Z.pow_add_r by lia. apply Z.pow_le_mono_r; lia. }
    rewrite step16_small, Z.shiftl_shiftl by (lia || exact R).
    f_equal. lia. }
  apply (E 8%nat). lia.
Qed.

Lemma crc16tab_entry n : byte_ok n -> crc16tab.[n] = Some (shift16 (Z.shiftl n 8)).
Proof.
  intros Hn. rewrite <- (bget_map_seqZ (fun n => shift16 (Z.shiftl n 8))) by done. apply (f_equal (fun t => bget t n)).
  vm_compute. reflexivity.
Qed.

Lemma schar_land x : byte_ok x -> Z.land (schar x) 255 = x.
Proof.
  intros Hx. change 255 with (Z.ones 8). rewrite Z.land_ones by lia. unfold byte_ok in Hx.
  destruct (schar_cases x) as [[-> ?]|[-> ?]]; [done| |]; Z.to_euclidean_division_equations; lia.
Qed.

Lemma crc16_index c x : in_u 16 c -> byte_ok x ->
  Z.land (Z.lxor (Z.shiftr c 8) (schar x)) 255 = Z.lxor (Z.shiftr c 8) x.
Proof.
  intros Hc Hx. bits. rewrite testbit_land255, Z.lxor_spec by done. rewrite <- (schar_land x) at 2 by done.
  rewrite testbit_land255 by done. destruct (Z.ltb_spec i 8); [done|]. cbn [andb].
  rewrite Z.shiftr_spec, (in_u_high 16 c) by (done || lia). done.
Qed.

Lemma shift16_range c : in_u 16 (shift16 c).
Proof. unfold shift16. rewrite (Nat.iter_succ 7). apply uwrap_range. lia. Qed.

#[local] Opaque shift16.

Lemma crc16_byte c x : in_u 16 c -> byte_ok x ->
  uwrap 16 (Z.lxor (Z.shiftl c 8) (shift16 (Z.shiftl (Z.lxor (Z.shiftr c 8) x) 8))) = shift16 (Z.lxor c (Z.shiftl x 8)).
Proof.
  intros Hc Hx. rewrite uwrap_lxor, (uwrap_small 16 (shift16 _)) by (lia || apply shift16_range).
  assert (E : Z.lxor c (Z.shiftl x 8) = Z.lxor (Z.land c 255) (Z.shiftl (Z.lxor (Z.shiftr c 8) x) 8)).
  { rewrite Z.shiftl_lxor, <- Z.lxor_assoc. by rewrite <- low_high. }
  rewrite E, linear_shift16, (shift16_low (Z.land c 255)) by apply land255_byte. apply (f_equal (fun y => Z.lxor y _)).
  bits. rewrite testbit_uwrap by lia. destruct (Z.lt_ge_cases i 8).
  - by rewrite !Z.shiftl_spec_low, andb_false_r by lia.
  - rewrite !Z.shiftl_spec, testbit_land255 by lia.
    destruct (Z.ltb_spec i 16), (Z.ltb_spec (i - 8) 8); (done || lia).
Qed.

Lemma crc16_loop_spec c s : in_u 16 c -> Forall byte_ok s ->
  crc16_loop c s = Some (crc16_from c s) /\ in_u 16 (crc16_from c s).
Proof.
  intros Hc Hs. revert c Hc. induction Hs as [|x s Hx Hs IH]; intros c Hc; [done|].
  cbn [crc16_loop]. rewrite crc16_index by done. rewrite crc16tab_entry.
  - cbn [mbind option_bind]. rewrite crc16_byte by done. apply IH, shift16_range.
  - rewrite <- (crc16_index c x) by done. apply land255_byte.
Qed.

Lemma crc16_spec key len pre : Forall byte_ok pre -> len = zlen pre -> zlen pre < 2 ^ 31 -> (exists post, key = pre ++ post) ->
  crc16 key len = Some (crc16_from 0 pre) /\ in_u 16 (crc16_from 0 pre).
Proof.
  intros Hp -> Hl [post ->]. unfold crc16. rewrite swrap_small by (unfold in_s; lia). rewrite Z.max_r by lia. rewrite bslice_head by done. cbn [mbind option_bind].
  apply crc16_loop_spec; [unfold in_u; lia|done].
Qed.

(** ** Hash slots *)

Lemma find_char_spec c pre rest post fuel : (length rest <= fuel)%nat ->
  let key := pre ++ rest in
  ((c ∉ rest) /\ find_char fuel (key ++ post) (zlen key) (zlen pre) c = Some (zlen key)) \/
  (exists t b, rest = t ++ c :: b /\ (c ∉ t) /\ find_char fuel (key ++ post) (zlen key) (zlen pre) c = Some (zlen pre + zlen t)).
Proof.
  revert pre fuel. induction rest as [|x rest IH]; intros pre fuel Hf key; subst key.
  - left. split; [set_solver|]. rewrite (app_nil_r pre). destruct fuel; cbn [find_char]; by rewrite Z.ltb_irrefl.
  - destruct fuel as [|fuel]; [cbn in Hf; lia|]. cbn [find_char].
    replace (zlen pre <? _) with true by (symmetry; apply Z.ltb_lt; rewrite length_app; cbn; lia).
    assert (G : ((pre ++ x :: rest) ++ post).[zlen pre] = Some x) by (rewrite <- app_assoc; by apply bget_app). rewrite G. clear G.
    cbn [mbind option_bind]. destruct (Z.eqb_spec x c) as [->|Hxc].
    { right. exists [], rest. split; [done|]. split; [set_solver|]. cbn. f_equal. lia. }
    specialize (IH (pre ++ [x]) fuel). rewrite <- (app_assoc pre) in IH. cbn [app] in IH.
    replace (zlen (pre ++ [x])) with (zlen pre + 1) in IH by (rewrite length_app; cbn; lia).
    destruct IH as [[Hc E]|(t & b & -> & Ht & E)]; [cbn in Hf; lia| |].
    + left. split; [set_solver|done].
    + right. exists (x :: t), b. split; [done|]. split; [set_solver|]. rewrite E. f_equal. cbn [length]. lia.
Qed.

(** [key] contains a hash tag: [t] between the first '{' and the first '}' after it, not empty. *)
Definition hash_tag (key t : bytes) : Prop :=
  exists a b, key = a ++ 123 :: t ++ 125 :: b /\ (123 ∉ a) /\ (125 ∉ t) /\ t <> [].

Lemma app_cons_inj (c : Z) a a' b b' : (c ∉ a) -> (c ∉ a') -> a ++ c :: b = a' ++ c :: b' -> a = a' /\ b = b'.
Proof.
  revert a'. induction a as [|x a IH]; intros [|x' a'] Ha Ha' E; cbn in E; simplify_eq; [done|set_solver..|].
  destruct (IH a') as [-> ->]; [set_solver..|done|done].
Qed.

Lemma slot_land c : 0 <= Z.land c 0x3FFF < 16384 /\ Z.land c 0x3FFF = c mod 16384.
Proof. change 0x3FFF with (Z.ones 14). rewrite Z.land_ones by lia. split; [apply Z.mod_pos_bound; lia|done]. Qed.

(** The first [keylen] bytes are hashed. *)
Lemma keyHashSlot_prefix key post : Forall byte_ok key -> zlen key < 2 ^ 31 ->
  exists slot, keyHashSlot (key ++ post) (zlen key) = Some slot /\ 0 <= slot < 16384 /\
    (forall t, hash_tag key t -> slot = crc16_from 0 t mod 16384) /\
    ((~ exists t, hash_tag key t) -> slot = crc16_from 0 key mod 16384).
Proof.
  intros Hk Hl. unfold keyHashSlot. rewrite swrap_small by (unfold in_s; lia). cbn zeta. rewrite Nat2Z.id.
  destruct (crc16_spec (key ++ post) (zlen key) key Hk eq_refl Hl) as [Ew _]; [by exists post|].
  assert (W : (~ exists t, hash_tag key t) ->
    exists slot, (crc ← crc16 (key ++ post) (zlen key); Some (Z.land crc 0x3FFF)) = Some slot /\ 0 <= slot < 16384 /\
    (forall t, hash_tag key t -> slot = crc16_from 0 t mod 16384) /\
    ((~ exists t, hash_tag key t) -> slot = crc16_from 0 key mod 16384)).
  { intros Hn. rewrite Ew. cbn [mbind option_bind]. destruct (slot_land (crc16_from 0 key)) as [R E].
    eexists. split; [reflexivity|]. split; [done|]. split; [|done]. intros t Ht. destruct Hn. by exists t. }
  destruct (find_char_spec 123 [] key post (length key)) as [[H1 E1]|(a & rest & -> & Ha & E1)]; [done|..];
    cbn [app length] in E1; change (Z.of_nat 0) with 0 in E1; rewrite E1; cbn [mbind option_bind].
  { rewrite Z.eqb_refl. apply W. intros (t & a & b & -> & _). set_solver. }
  rewrite Z.add_0_l. replace (zlen a =? _) with false by (symmetry; apply Z.eqb_neq; rewrite length_app; cbn; lia).
  pose proof (find_char_spec 125 (a ++ [123]) rest post (length (a ++ 123 :: rest))) as F.
  rewrite <- (app_assoc a) in F. cbn [app] in F.
  replace (zlen (a ++ [123])) with (zlen a + 1) in F by (rewrite length_app; cbn; lia).
  destruct F as [[H2 E2]|(t & b & -> & Ht & E2)]; [rewrite length_app; cbn; lia|..]; rewrite E2; cbn [mbind option_bind].
  { rewrite Z.eqb_refl. apply W. intros (t & a' & b & E & Ha' & _). apply app_cons_inj in E as [-> ->]; [set_solver|done..]. }
  replace (_ =? zlen (a ++ _)) with false by (symmetry; apply Z.eqb_neq; rewrite length_app; cbn [length]; rewrite length_app; cbn; lia).
  destruct (Z.eqb_spec (zlen a + 1 + zlen t) (zlen a + 1)); cbn [orb].
  { apply W. destruct t; [|cbn in *; lia]. intros (t & a' & b' & E & Ha' & Ht' & Hn).
    apply app_cons_inj in E as [-> E]; [|done..]. destruct t; [done|]. cbn in E. simplify_eq. set_solver. }
  replace (drop _ _) with (t ++ 125 :: b ++ post).
  2: { replace (Z.to_nat (zlen a + 1)) with (length (a ++ [123])) by (rewrite length_app; cbn; lia).
       replace ((a ++ 123 :: t ++ 125 :: b) ++ post) with ((a ++ [123]) ++ (t ++ 125 :: b ++ post)) by (rewrite <- !app_assoc; cbn; by rewrite <- app_assoc).
       by rewrite drop_app_length. }
  assert (Hbt : Forall byte_ok t).
  { apply Forall_app in Hk as [_ Hk]. apply Forall_cons in Hk as [_ Hk]. by apply Forall_app in Hk as [Hk _]. }
  destruct (crc16_spec (t ++ 125 :: b ++ post) (zlen a + 1 + zlen t - zlen a - 1) t) as [-> _];
    [done|lia|rewrite length_app in Hl; cbn [length] in Hl; rewrite length_app in Hl; lia|by eexists|].
  cbn [mbind option_bind]. destruct (slot_land (crc16_from 0 t)) as [R E].
  eexists. split; [reflexivity|]. split; [done|]. split.
  - intros t' (a' & b' & E' & Ha' & Ht' & Hn). apply app_cons_inj in E' as [-> E']; [|done..].
    by apply app_cons_inj in E' as [-> _].
  - intros []. exists t, a, b. split; [done|]. split; [done|]. split; [done|]. intros ->. cbn in *. lia.
Qed.

(** The bytes of a key that are hashed: its length is converted to an [int]. *)
Definition hashed (key : bytes) : bytes := take (Z.to_nat (swrap 32 (zlen key))) key.

Lemma hashed_all key : zlen key < 2 ^ 31 -> hashed key = key.
Proof. intros H. unfold hashed. rewrite swrap_small by (unfold in_s; lia). by rewrite Nat2Z.id, firstn_all. Qed.

Lemma no_tag_nil : ~ exists t, hash_tag [] t.
Proof. intros (t & a & b & E & _). by destruct a. Qed.

Lemma keyHashSlot_value key : Forall byte_ok key ->
  exists slot, keyHashSlot key (zlen key) = Some slot /\ 0 <= slot < 16384 /\
    (forall t, hash_tag (hashed key) t -> slot = crc16_from 0 t mod 16384) /\
    ((~ exists t, hash_tag (hashed key) t) -> slot = crc16_from 0 (hashed key) mod 16384).
Proof.
  intros Hk. unfold hashed. pose proof (swrap_range 32 (zlen key) ltac:(lia)) as R. unfold in_s in R. set (n := swrap 32 (zlen key)) in *.
  assert (Hn : n <= zlen key).
  { unfold n, swrap. pose proof (Z.mod_le (zlen key + 2 ^ (32 - 1)) (2 ^ 32)). lia. }
  destruct (Z.lt_ge_cases n 0) as [Hneg|Hpos].
  - exists 0. replace (Z.to_nat n) with 0%nat by lia. cbn [take]. split; [|split; [lia|split; [intros t Ht; destruct no_tag_nil; eauto|done]]].
    unfold keyHashSlot. fold n. cbn zeta. replace (Z.to_nat n) with 0%nat by lia. cbn [find_char].
    rewrite !(proj2 (Z.ltb_ge _ _)) by lia. cbn [mbind option_bind]. rewrite (proj2 (Z.eqb_neq 0 n)) by lia. rewrite (proj2 (Z.ltb_ge _ _)) by lia. cbn [mbind option_bind]. rewrite Z.eqb_refl, orb_true_r.
    unfold crc16. rewrite (swrap_small 32 n) by (unfold in_s; lia). rewrite Z.max_l by lia. change key with ([] ++ key) at 1. by rewrite bslice_head.
  - destruct (keyHashSlot_prefix (take (Z.to_nat n) key) (drop (Z.to_nat n) key)) as (slot & E & H); [by apply Forall_take|rewrite length_take; lia|].
    exists slot. split; [|done]. rewrite take_drop in E. revert E. rewrite length_take. replace (Z.of_nat _) with n by lia.
    unfold keyHashSlot. fold n. by rewrite (swrap_small 32 n) by (unfold in_s; lia).
Qed.

(** C37: [keyHashSlot] returns a slot below 16384 for every key. For a key of
    less than 2^31 bytes it is the CRC-16 of the hash tag, the bytes between the
    first opening brace and the first closing brace after it, if the key has one
    that is not empty, and of the whole key otherwise; so keys with the same tag
    are in the same slot. The length of a longer key is cut to an [int]: only that
    many bytes count, and when the [int] is negative the slot is 0. *)
Theorem keyHashSlot_spec key : Forall byte_ok key ->
  (zlen key < 2 ^ 31 -> hashed key = key) /\ (swrap 32 (zlen key) < 0 -> keyHashSlot key (zlen key) = Some 0) /\
  exists slot, keyHashSlot key (zlen key) = Some slot /\ 0 <= slot < 16384 /\
    (forall t, hash_tag (hashed key) t -> slot = crc16_from 0 t mod 16384) /\
    ((~ exists t, hash_tag (hashed key) t) -> slot = crc16_from 0 (hashed key) mod 16384).
Proof.
  intros Hk. destruct (keyHashSlot_value key Hk) as (slot & E & R & Ht & Hn). split; [apply hashed_all|]. split; [|eauto].
  intros Hneg. rewrite E. f_equal. revert Hn. unfold hashed. replace (Z.to_nat _) with 0%nat by lia. intros Hn. by rewrite (Hn no_tag_nil).
Qed.

(** The example of the cluster specification. *)
Lemma keyHashSlot_spec_witness :
  keyHashSlot (of_string "{user1000}.following") 20 = keyHashSlot (of_string "{user1000}.followers") 20 /\
  hashed (of_string "{user1000}.following") = of_string "{user1000}.following".
Proof.
  split; [vm_compute; reflexivity|].
  apply (keyHashSlot_spec (of_string "{user1000}.following")); [cbv; repeat constructor; discriminate|]. vm_compute. reflexivity.
Defined.
