(* ===== verification/Glob.v ===== *)
(** Glob-style matching: [stringmatchlen] of [util.c], used by KEYS, SCAN,
    PSUBSCRIBE and CONFIG GET.

    The matcher walks the pattern and the string with two pointers. The model
    keeps both buffers and the pointers as indices; the pattern buffer holds a
    terminating NUL, which the code does read. The reference semantics parses
    the pattern into tokens and matches them by structural recursion. *)
From S2P Require Import Prelude.

Definition c_star : Z := 42.
Definition c_quest : Z := 63.
Definition c_lbrack : Z := 91.
Definition c_rbrack : Z := 93.
Definition c_bslash : Z := 92.
Definition c_caret : Z := 94.
Definition c_dash : Z := 45.

(** [pattern[0] == string[0]], or the comparison of their [tolower]. *)
Definition char_eq (nocase : bool) (pc sc : Z) : bool :=
  if negb nocase then schar pc =? schar sc
  else tolower (schar pc) =? tolower (schar sc).

(** The range test of a class, with its swap and its lowering. *)
Definition range_match (nocase : bool) (a b sc : Z) : bool :=
  let start := schar a in
  let end_ := schar b in
  let c := schar sc in
  let (start, end_) := if start >? end_ then (end_, start) else (start, end_) in
  let '(start, end_, c) :=
    if nocase then (tolower start, tolower end_, tolower c) else (start, end_, c) in
  (c >=? start) && (c <=? end_).

(** [n -= k] for an [int]: nothing is defined below [INT_MIN]. *)
Definition isub (n k : Z) : option Z := if n - k <? - 2 ^ 31 then None else Some (n - k).

Section matcher.
Variables (p s : bytes) (nocase : bool).

(** [while (patternLen && pattern[1] == '*')] *)
Fixpoint skip_stars (fuel : nat) (pi plen : Z) : option (Z * Z) :=
  match fuel with
  | O => None
  | S fuel =>
    if negb (plen =? 0) then
      c ← p.[pi + 1];
      if c =? c_star then plen ← isub plen 1; skip_stars fuel (pi + 1) plen else Some (pi, plen)
    else Some (pi, plen)
  end.

(** The loop that skips the trailing stars once the string is exhausted. *)
Fixpoint trailing_stars (fuel : nat) (pi plen : Z) : option (Z * Z) :=
  match fuel with
  | O => None
  | S fuel =>
    c ← p.[pi];
    if c =? c_star then plen ← isub plen 1; trailing_stars fuel (pi + 1) plen else Some (pi, plen)
  end.

(** The [while(1)] over the members of a class; [si] is the current character
    of the string. Returns [pattern], [patternLen] and [match] at the break. *)
Fixpoint class_loop (fuel : nat) (pi plen si : Z) (mtch : bool) : option (Z * Z * bool) :=
  match fuel with
  | O => None
  | S fuel =>
    pc ← p.[pi];
    if (pc =? c_bslash) && (plen >=? 2) then
      let pi := pi + 1 in
      plen ← isub plen 1;
      pc ← p.[pi]; sc ← s.[si];
      plen ← isub plen 1;
      class_loop fuel (pi + 1) plen si (if schar pc =? schar sc then true else mtch)
    else if pc =? c_rbrack then Some (pi, plen, mtch)
    else if plen =? 0 then Some (pi - 1, plen + 1, mtch)
    else
      dash ← (if plen >=? 3 then c ← p.[pi + 1]; Some (c =? c_dash) else Some false);
      if (dash : bool) then
        b ← p.[pi + 2]; sc ← s.[si];
        let pi := pi + 2 in
        plen ← isub plen 2;
        plen ← isub plen 1;
        class_loop fuel (pi + 1) plen si (if range_match nocase pc b sc then true else mtch)
      else
        sc ← s.[si];
        plen ← isub plen 1;
        class_loop fuel (pi + 1) plen si (if char_eq nocase pc sc then true else mtch)
  end.

(** What follows the [switch]: advance the pattern, and when the string is
    exhausted skip the trailing stars and decide; otherwise iterate. *)
Definition after_switch (again : Z -> Z -> Z -> Z -> option bool) (pi plen si slen : Z)
  : option bool :=
  let pi := pi + 1 in
  plen ← isub plen 1;
  if slen =? 0 then
    '(pi, plen) ← trailing_stars (S (length p)) pi plen;
    Some ((plen =? 0) && (slen =? 0))
  else again pi plen si slen.

Definition match_literal (again : Z -> Z -> Z -> Z -> option bool) (pi plen si slen : Z)
  : option bool :=
  pc ← p.[pi]; sc ← s.[si];
  if negb (char_eq nocase pc sc) then Some false
  else slen ← isub slen 1; after_switch again pi plen (si + 1) slen.

Definition match_class (again : Z -> Z -> Z -> Z -> option bool) (pi plen si slen : Z)
  : option bool :=
  let pi := pi + 1 in
  plen ← isub plen 1;
  c ← p.[pi];
  let not_ := c =? c_caret in
  '(pi, plen) ← (if not_ then plen ← isub plen 1; Some (pi + 1, plen) else Some (pi, plen));
  '(pi, plen, mtch) ← class_loop (S (length p)) pi plen si false;
  let mtch := if (not_ : bool) then negb mtch else mtch in
  if negb mtch then Some false
  else slen ← isub slen 1; after_switch again pi plen (si + 1) slen.

(** [while(stringLen)] of the star case. *)
Fixpoint star_loop (rec : Z -> Z -> option bool) (fuel : nat) (si slen : Z) : option bool :=
  if slen =? 0 then Some false
  else match fuel with
  | O => None
  | S fuel =>
    b ← rec si slen;
    if (b : bool) then Some true else slen ← isub slen 1; star_loop rec fuel (si + 1) slen
  end.

(** Every iteration and every recursive call consumes the pattern, so
    [patternLen + 1] is enough fuel. *)
Fixpoint stringmatchlen (fuel : nat) (pi plen si slen : Z) : option bool :=
  match fuel with
  | O => None
  | S fuel =>
    if negb (plen =? 0) && negb (slen =? 0) then
      pc ← p.[pi];
      if pc =? c_star then
        '(pi, plen) ← skip_stars (S (length p)) pi plen;
        if plen =? 1 then Some true
        else star_loop (fun si slen => plen ← isub plen 1; stringmatchlen fuel (pi + 1) plen si slen)
               (length s) si slen
      else if pc =? c_quest then
        slen ← isub slen 1; after_switch (stringmatchlen fuel) pi plen (si + 1) slen
      else if pc =? c_lbrack then
        match_class (stringmatchlen fuel) pi plen si slen
      else if pc =? c_bslash then
        if plen >=? 2 then plen ← isub plen 1; match_literal (stringmatchlen fuel) (pi + 1) plen si slen
        else match_literal (stringmatchlen fuel) pi plen si slen
      else match_literal (stringmatchlen fuel) pi plen si slen
    else Some ((plen =? 0) && (slen =? 0))
  end.
End matcher.

(** [stringmatchlen(pattern, sdslen(pattern), string, sdslen(string), nocase)]
    with a NUL-terminated pattern: the lengths become [int]s. *)
Definition stringmatch (pattern string : bytes) (nocase : bool) : option bool :=
  stringmatchlen (pattern ++ [0]) string nocase (S (length pattern))
    0 (swrap 32 (zlen pattern)) 0 (swrap 32 (zlen string)).

(** ** Reference semantics *)

Inductive item :=
  | IChar (c : Z)
  | IEscaped (c : Z)
  | IRange (a b : Z).

Inductive token :=
  | TStar
  | TAny
  | TClass (negated : bool) (items : list item)
  | TChar (c : Z).

(** The members of a class and what follows its closing bracket; an
    unterminated class extends to the end of the pattern. *)
Fixpoint parse_items (fuel : nat) (l : bytes) : list item * bytes :=
  match fuel, l with
  | S fuel, c :: r =>
    match r with
    | e :: r' =>
      if c =? c_bslash then let '(its, t) := parse_items fuel r' in (IEscaped e :: its, t)
      else if c =? c_rbrack then ([], r)
      else
        match r' with
        | b :: r'' =>
          if e =? c_dash then let '(its, t) := parse_items fuel r'' in (IRange c b :: its, t)
          else let '(its, t) := parse_items fuel r in (IChar c :: its, t)
        | [] => let '(its, t) := parse_items fuel r in (IChar c :: its, t)
        end
    | [] => if c =? c_rbrack then ([], []) else ([IChar c], [])
    end
  | _, _ => ([], [])
  end.

Definition parse_class (l : bytes) : token * bytes :=
  match l with
  | c :: r =>
    if c =? c_caret then let '(its, t) := parse_items (length r) r in (TClass true its, t)
    else let '(its, t) := parse_items (length l) l in (TClass false its, t)
  | [] => (TClass false [], [])
  end.

(** The first token of a pattern and the rest of the pattern. *)
Definition next_token (c : Z) (r : bytes) : token * bytes :=
  if c =? c_star then (TStar, r)
  else if c =? c_quest then (TAny, r)
  else if c =? c_lbrack then parse_class r
  else if c =? c_bslash then
    match r with e :: r' => (TChar e, r') | [] => (TChar c, []) end
  else (TChar c, r).

Fixpoint tokens (fuel : nat) (l : bytes) : list token :=
  match fuel, l with
  | S fuel, c :: r => let '(t, r') := next_token c r in t :: tokens fuel r'
  | _, _ => []
  end.

Definition parse (pattern : bytes) : list token := tokens (length pattern) pattern.

Definition item_match (nocase : bool) (i : item) (sc : Z) : bool :=
  match i with
  | IChar c => char_eq nocase c sc
  | IEscaped c => schar c =? schar sc
  | IRange a b => range_match nocase a b sc
  end.

Definition token_match (nocase : bool) (t : token) (sc : Z) : bool :=
  match t with
  | TStar => false
  | TAny => true
  | TClass negated its => xorb negated (existsb (fun i => item_match nocase i sc) its)
  | TChar c => char_eq nocase c sc
  end.

(** Does some suffix of [s] satisfy [f]? *)
Fixpoint any_suffix (f : bytes -> bool) (s : bytes) : bool :=
  f s || match s with [] => false | _ :: s' => any_suffix f s' end.

Fixpoint glob (nocase : bool) (ts : list token) (s : bytes) : bool :=
  match ts with
  | [] => match s with [] => true | _ => false end
  | TStar :: ts => any_suffix (glob nocase ts) s
  | t :: ts => match s with [] => false | c :: s => token_match nocase t c && glob nocase ts s end
  end.

Example glob_ex1 : stringmatch (of_string "h[a-e^]l?o*"%string) (of_string "hello world"%string) false
  = Some true.
Proof. reflexivity. Qed.
Example glob_ex2 : stringmatch (of_string "a**[b"%string) (of_string "xaab"%string) false = Some false.
Proof. reflexivity. Qed.

(** ** The reference parser *)

Lemma parse_items_fuel n : forall m l,
  (length l <= n)%nat -> (length l <= m)%nat -> parse_items n l = parse_items m l.
Proof.
  induction n as [|n IH]; intros m l Hn Hm.
  { destruct l; [by destruct m|cbn in Hn; lia]. }
  destruct m as [|m]; [destruct l; [done|cbn in Hm; lia]|].
  destruct l as [|c [|e [|b r]]]; cbn [parse_items]; cbn [length] in *; [done|done|..].
  - rewrite (IH m []), (IH m [e]) by (cbn; lia). done.
  - rewrite (IH m (b :: r)), (IH m r), (IH m (e :: b :: r)) by (cbn; lia). done.
Qed.

Lemma parse_items_suffix n : forall l its t,
  parse_items n l = (its, t) -> exists u, l = u ++ t.
Proof.
  induction n as [|n IH]; intros l its t; [intros [= _ <-]; exists l; by rewrite app_nil_r|].
  destruct l as [|c r]; [intros [= _ <-]; by exists []|].
  assert (Hs : forall k r' its' t', (drop k r = r') ->
            parse_items n r' = (its', t') -> exists u, c :: r = u ++ t').
  { intros k r' its' t' Hr Hp. destruct (IH _ _ _ Hp) as [u Hu]. exists (c :: take k r ++ u).
    cbn. by rewrite <- app_assoc, <- Hu, <- Hr, take_drop. }
  cbn [parse_items]. destruct r as [|e r'].
  { destruct (c =? c_rbrack); intros [= _ <-]; exists [c]; done. }
  destruct (c =? c_bslash).
  { destruct (parse_items n r') eqn:E. intros [= _ <-]. by eapply (Hs 1%nat). }
  destruct (c =? c_rbrack); [intros [= _ <-]; by exists [c]|].
  destruct r' as [|b r''].
  { destruct (parse_items n [e]) eqn:E. intros [= _ <-]. by eapply (Hs O). }
  destruct (e =? c_dash).
  - destruct (parse_items n r'') eqn:E. intros [= _ <-]. by eapply (Hs 2%nat).
  - destruct (parse_items n (e :: b :: r'')) eqn:E. intros [= _ <-]. by eapply (Hs O).
Qed.

Lemma next_token_suffix c r t r' : next_token c r = (t, r') -> exists u, r = u ++ r'.
Proof.
  unfold next_token, parse_class.
  repeat match goal with
  | |- context [if ?b then _ else _] => destruct b
  end; try (intros [= _ <-]; by exists []).
  - destruct r as [|d r]; [intros [= _ <-]; by exists []|]. destruct (d =? c_caret).
    + destruct (parse_items (length r) r) eqn:E. intros [= _ <-].
      destruct (parse_items_suffix _ _ _ _ E) as [u ->]. by exists (d :: u).
    + destruct (parse_items _ (d :: r)) eqn:E. intros [= _ <-].
      by apply parse_items_suffix in E.
  - destruct r as [|e r]; intros [= _ <-]; [by exists []|by exists [e]].
Qed.

Lemma tokens_fuel n : forall m l,
  (length l <= n)%nat -> (length l <= m)%nat -> tokens n l = tokens m l.
Proof.
  induction n as [|n IH]; intros m l Hn Hm.
  { destruct l; [by destruct m|cbn in Hn; lia]. }
  destruct m as [|m]; [destruct l; [done|cbn in Hm; lia]|].
  destruct l as [|c r]; [done|]. cbn [tokens]. cbn [length] in *.
  destruct (next_token c r) as [t r'] eqn:E. f_equal.
  apply next_token_suffix in E as [u ->]. rewrite length_app in *. apply IH; lia.
Qed.

Lemma parse_cons c r : parse (c :: r) = (next_token c r).1 :: parse (next_token c r).2.
Proof.
  unfold parse. cbn [length tokens]. destruct (next_token c r) as [t r'] eqn:E. cbn. f_equal.
  apply next_token_suffix in E as [u ->]. rewrite length_app. apply tokens_fuel; lia.
Qed.

(** Only a star matches the empty string. *)
Definition is_star (t : token) : bool := match t with TStar => true | _ => false end.

Lemma glob_nil nocase ts : glob nocase ts [] = forallb is_star ts.
Proof. induction ts as [|[] ts IH]; cbn; try done. by rewrite IH, orb_false_r. Qed.

Lemma next_token_star c r : is_star (next_token c r).1 = (c =? c_star).
Proof.
  unfold next_token, parse_class. destruct (c =? c_star); [done|].
  repeat match goal with
  | |- context [if ?b then _ else _] => destruct b
  | |- context [match ?x with _ => _ end] => destruct x
  end; done.
Qed.

Lemma parse_stars n : forall l,
  (length l <= n)%nat -> forallb is_star (parse l) = forallb (fun c => c =? c_star) l.
Proof.
  induction n as [|n IH]; intros [|c r] Hn; try done; [cbn in Hn; lia|]. cbn [length] in Hn.
  rewrite parse_cons. cbn [forallb]. rewrite next_token_star.
  destruct (c =? c_star) eqn:E; cbn; [|done].
  unfold next_token. rewrite E. cbn. apply IH. lia.
Qed.

Lemma glob_nil_parse nocase l :
  glob nocase (parse l) [] = forallb (fun c => c =? c_star) l.
Proof. rewrite glob_nil. by apply (parse_stars (length l)). Qed.

(** ** The matcher computes the reference semantics *)

Lemma isub_small n k : 0 <= n -> k <= 2 -> isub n k = Some (n - k).
Proof. intros ??. unfold isub. by rewrite (proj2 (Z.ltb_ge _ _)) by lia. Qed.
Ltac isub := rewrite isub_small by (cbn [length] in *; lia); cbn [mbind option_bind].

(** Reading [k] bytes into the rest of the pattern, terminator included. *)
Lemma pat_get pre l k c i :
  (l ++ [0]) !! k = Some c -> i = zlen pre + Z.of_nat k -> (pre ++ l ++ [0]).[i] = Some c.
Proof.
  intros Hk ->. unfold bget. if_true. rewrite <- Nat2Z.inj_add, Nat2Z.id.
  rewrite lookup_app_r by lia. by replace (length pre + k - length pre)%nat with k by lia.
Qed.

Lemma skip_stars_spec r : forall fuel pre,
  (length r < fuel)%nat ->
  exists k r', r = replicate k c_star ++ r' /\
    match r' with c :: _ => c <> c_star | [] => True end /\
    skip_stars (pre ++ (c_star :: r) ++ [0]) fuel (zlen pre) (zlen (c_star :: r))
    = Some (zlen pre + Z.of_nat k, 1 + zlen r').
Proof.
  induction r as [|c r IH]; intros [|fuel] pre Hf; try (cbn in Hf; lia); cbn [skip_stars].
  all: cbn [length] in *; if_true.
  - rewrite (pat_get pre [c_star] 1 0) by (done || lia). cbn.
    exists O, []. repeat split. cbn. do 2 f_equal; lia.
  - rewrite (pat_get pre (c_star :: c :: r) 1 c) by (done || lia). cbn [mbind option_bind].
    case_if_lia.
    + assert (c = c_star) as -> by lia. isub.
      destruct (IH fuel (pre ++ [c_star])) as (k & r' & -> & Hr & HE); [lia|].
      rewrite <- app_assoc in HE. cbn [app] in HE. rewrite !length_app in *. cbn [length] in *.
      exists (S k), r'. repeat split; [done|].
      replace (Z.of_nat (length pre + 1)) with (zlen pre + 1) in HE by lia.
      replace (Z.of_nat (S (S (length (replicate k c_star) + length r'))) - 1)
        with (Z.of_nat (S (length (replicate k c_star) + length r'))) by lia.
      cbn [app]. rewrite HE. do 2 f_equal; lia.
    + exists O, (c :: r). repeat split; [lia|]. cbn [length]. do 2 f_equal; lia.
Qed.

Lemma trailing_stars_spec l : forall fuel pre,
  (length l < fuel)%nat ->
  exists pi plen, trailing_stars (pre ++ l ++ [0]) fuel (zlen pre) (zlen l) = Some (pi, plen) /\
    (plen =? 0) = forallb (fun c => c =? c_star) l.
Proof.
  induction l as [|c l IH]; intros [|fuel] pre Hf; try (cbn in Hf; lia); cbn [trailing_stars].
  - rewrite (pat_get pre [] 0 0) by (done || lia). cbn. by eexists _, _.
  - rewrite (pat_get pre (c :: l) 0 c) by (done || lia). cbn [mbind option_bind forallb].
    destruct (c =? c_star) eqn:E.
    + isub. destruct (IH fuel (pre ++ [c])) as (pi & plen & E1 & E2); [cbn in Hf; lia|].
      exists pi, plen. split; [|done]. rewrite <- app_assoc, length_app in E1.
      cbn [app length] in *.
      replace (zlen pre + 1) with (Z.of_nat (length pre + 1)) by lia.
      by replace (Z.of_nat (S (length l)) - 1) with (zlen l) by lia.
    + eexists _, _. split; [done|]. cbn [length]. lia.
Qed.

Section correct.
Variables (nocase : bool).

(** At its break the class loop has accumulated the members' verdicts and stands
    one character before the rest of the pattern. *)
Lemma class_loop_spec n : forall fuel pre l spre sc t mtch its l',
  (length l <= n)%nat -> (length l < fuel)%nat -> parse_items n l = (its, l') ->
  class_loop (pre ++ l ++ [0]) (spre ++ sc :: t) nocase fuel (zlen pre) (zlen l) (zlen spre) mtch
  = Some (zlen (pre ++ l) - zlen l' - 1, zlen l' + 1,
          mtch || existsb (fun i => item_match nocase i sc) its).
Proof.
  induction n as [|n IH]; intros [|fuel] pre l spre sc t mtch its l' Hn Hf; try lia.
  { destruct l; [|cbn in Hn; lia]. intros [= <- <-]. cbn [class_loop].
    rewrite (pat_get pre [] 0 0 (zlen pre)) by (done || lia). cbn. rewrite orb_false_r, app_nil_r.
    do 3 f_equal; lia. }
  assert (Hstep : forall u l2 its2 m pi plen, l = u ++ l2 -> (0 < length u)%nat ->
    pi = zlen pre + zlen u -> plen = zlen l2 -> parse_items n l2 = (its2, l') ->
    class_loop (pre ++ l ++ [0]) (spre ++ sc :: t) nocase fuel pi plen (zlen spre) m
    = Some (zlen (pre ++ l) - zlen l' - 1, zlen l' + 1,
            m || existsb (fun i => item_match nocase i sc) its2)).
  { intros u l2 its2 m pi plen -> Hu -> -> Hp. rewrite length_app in Hn, Hf.
    rewrite <- app_assoc, (app_assoc pre u).
    replace (zlen pre + zlen u) with (zlen (pre ++ u)) by (rewrite length_app; lia).
    rewrite (IH fuel (pre ++ u) l2 spre sc t m its2 l') by (done || lia).
    by rewrite <- app_assoc. }
  assert (Horb : forall b x, (if b : bool then true else mtch) || x = mtch || (b || x))
    by (by intros [] []; destruct mtch).
  cbn [class_loop].
  assert (Hsc : (spre ++ sc :: t).[zlen spre] = Some sc) by by apply bget_app.
  destruct l as [|c r].
  { intros [= <- <-]. rewrite (pat_get pre [] 0 0 (zlen pre)) by (done || lia). cbn.
    rewrite orb_false_r, app_nil_r. do 3 f_equal; lia. }
  rewrite (pat_get pre (c :: r) 0 c (zlen pre)) by (done || lia).
  cbn [mbind option_bind parse_items]. rewrite Hsc. cbn [mbind option_bind].
  destruct r as [|e r].
  { cbn [length]. rewrite andb_false_r. destruct (c =? c_rbrack) eqn:Er; intros [= <- <-].
    - cbn. rewrite orb_false_r, length_app. cbn. do 3 f_equal; lia.
    - if_false. if_false. cbn [mbind option_bind existsb item_match]. isub.
      rewrite (Hstep [c] [] []) by (try (by destruct n); cbn; lia). by rewrite Horb. }
  destruct (c =? c_bslash) eqn:Eb.
  { replace (zlen (c :: e :: r) >=? 2) with true by (symmetry; cbn [length]; lia). cbn [andb]. isub.
    rewrite (pat_get pre (c :: e :: r) 1 e (zlen pre + 1)) by (done || lia). cbn [mbind option_bind]. isub.
    destruct (parse_items n r) as [its2 l2] eqn:E. intros [= <- <-].
    rewrite (Hstep [c; e] r its2) by (done || cbn [length]; lia).
    cbn [existsb item_match]. by rewrite Horb. }
  cbn [andb]. destruct (c =? c_rbrack) eqn:Er.
  { intros [= <- <-]. rewrite orb_false_r, length_app. cbn [length]. do 3 f_equal; lia. }
  replace (zlen (c :: e :: r) =? 0) with false by (symmetry; cbn [length]; lia).
  destruct r as [|b r].
  { cbn [length]. if_false. cbn [mbind option_bind]. isub.
    destruct (parse_items n [e]) as [its2 l2] eqn:E. intros [= <- <-].
    rewrite (Hstep [c] [e] its2) by (done || cbn [length]; lia).
    cbn [existsb item_match]. by rewrite Horb. }
  replace (zlen (c :: e :: b :: r) >=? 3) with true by (symmetry; cbn [length]; lia).
  rewrite (pat_get pre (c :: e :: b :: r) 1 e (zlen pre + 1)) by (done || lia). cbn [mbind option_bind].
  destruct (e =? c_dash) eqn:Ed.
  - rewrite (pat_get pre (c :: e :: b :: r) 2 b (zlen pre + 2)) by (done || lia). cbn [mbind option_bind]. do 2 isub.
    destruct (parse_items n r) as [its2 l2] eqn:E. intros [= <- <-].
    rewrite (Hstep [c; e; b] r its2) by (done || cbn [length]; lia).
    cbn [existsb item_match]. by rewrite Horb.
  - isub. destruct (parse_items n (e :: b :: r)) as [its2 l2] eqn:E. intros [= <- <-].
    rewrite (Hstep [c] (e :: b :: r) its2) by (done || cbn [length]; lia).
    cbn [existsb item_match]. by rewrite Horb.
Qed.

(** [again] matches every rest of the pattern shorter than [n] on non-empty
    strings. *)
Definition matches_below (n : nat) (P S : bytes) (again : Z -> Z -> Z -> Z -> option bool) :=
  forall pre l spre t, P = pre ++ l ++ [0] -> S = spre ++ t -> (length l < n)%nat -> t <> [] ->
    again (zlen pre) (zlen l) (zlen spre) (zlen t) = Some (glob nocase (parse l) t).

Lemma after_switch_spec n P S again pre l spre t pi plen si slen :
  matches_below n P S again ->
  P = pre ++ l ++ [0] -> S = spre ++ t -> (length l < n)%nat ->
  pi = zlen pre - 1 -> plen = zlen l + 1 -> si = zlen spre -> slen = zlen t ->
  after_switch P again pi plen si slen = Some (glob nocase (parse l) t).
Proof.
  intros Hag HP HS Hn -> -> -> ->. unfold after_switch. isub.
  replace (zlen pre - 1 + 1) with (zlen pre) by lia.
  replace (zlen l + 1 - 1) with (zlen l) by lia.
  destruct t as [|c t].
  - destruct (trailing_stars_spec l (Datatypes.S (length P)) pre) as (pi & plen & E1 & E2).
    { rewrite HP, !length_app. lia. }
    rewrite <- HP in E1. rewrite E1. cbn. by rewrite E2, andb_true_r, glob_nil_parse.
  - cbn [length]. if_false. by apply (Hag pre l spre (c :: t)).
Qed.

Lemma match_literal_spec n P S again pre c l spre sc t pi plen :
  matches_below n P S again ->
  P = pre ++ (c :: l) ++ [0] -> S = spre ++ sc :: t -> (length l < n)%nat ->
  pi = zlen pre -> plen = zlen (c :: l) ->
  match_literal P S nocase again pi plen (zlen spre) (zlen (sc :: t))
  = Some (char_eq nocase c sc && glob nocase (parse l) t).
Proof.
  intros Hag HP HS Hn -> ->. unfold match_literal.
  rewrite HP at 1. rewrite (pat_get pre (c :: l) 0 c) by (done || lia). cbn [mbind option_bind].
  rewrite HS at 1. rewrite bget_app by done. cbn [mbind option_bind].
  destruct (char_eq nocase c sc); [|done]. cbn [negb andb]. isub.
  apply (after_switch_spec n P S again (pre ++ [c]) l (spre ++ [sc]) t); try done;
    rewrite ?length_app; cbn [length]; try lia.
  - by rewrite <- app_assoc.
  - by rewrite <- app_assoc.
Qed.

Lemma match_class_spec n P S again pre l spre sc t :
  matches_below n P S again ->
  P = pre ++ (c_lbrack :: l) ++ [0] -> S = spre ++ sc :: t -> (length l < n)%nat ->
  match_class P S nocase again (zlen pre) (zlen (c_lbrack :: l)) (zlen spre) (zlen (sc :: t))
  = Some (token_match nocase (parse_class l).1 sc && glob nocase (parse (parse_class l).2) t).
Proof.
  intros Hag HP HS Hn. unfold match_class.
  rewrite (isub_small (zlen (c_lbrack :: l))) by lia. cbn [mbind option_bind].
  assert (Hnext : forall u body its l' mtch b, l = u ++ body -> (length body <= length P)%nat ->
    parse_items (length body) body = (its, l') ->
    mtch = xorb b (existsb (fun i => item_match nocase i sc) its) ->
    ('(pi, plen, m) ← class_loop P S nocase (Datatypes.S (length P))
        (zlen (pre ++ c_lbrack :: u)) (zlen body) (zlen spre) false;
     let m := if b : bool then negb m else m in
     if negb m then Some false
     else slen ← isub (zlen (sc :: t)) 1; after_switch P again pi plen (zlen spre + 1) slen)
    = Some (mtch && glob nocase (parse l') t)).
  { intros u body its l' mtch b -> Hb Hp ->.
    assert (HP' : P = (pre ++ c_lbrack :: u) ++ body ++ [0])
      by (rewrite HP; cbn; by rewrite <- !app_assoc).
    rewrite HP' at 1. rewrite HS at 1.
    rewrite (class_loop_spec (length body) _ _ _ _ _ _ _ its l') by (done || lia).
    cbn [mbind option_bind orb].
    replace (if b then negb _ else _) with (xorb b (existsb (fun i => item_match nocase i sc) its))
      by (by destruct b).
    destruct (xorb b _); [|done]. cbn [negb andb]. isub.
    destruct (parse_items_suffix _ _ _ _ Hp) as [v ->].
    apply (after_switch_spec n P S again ((pre ++ c_lbrack :: u) ++ v) l' (spre ++ [sc]) t);
      try done; rewrite ?HP', ?HS, ?length_app in *; rewrite <- ?app_assoc; cbn [length app] in *;
      done || lia. }
  assert (HlP : (length l <= length P)%nat) by (rewrite HP, !length_app; cbn; lia).
  rewrite HP at 1. replace (zlen (c_lbrack :: l) - 1) with (zlen l) by (cbn [length]; lia).
  destruct l as [|c l].
  - rewrite (pat_get pre [c_lbrack] 1 0) by (done || lia). cbn [mbind option_bind].
    change (0 =? c_caret) with false. cbn [mbind option_bind].
    cbn [parse_class fst snd].
    rewrite <- (Hnext [] [] [] [] _ false) by (done || lia).
    rewrite length_app. by replace (Z.of_nat (length pre + length [c_lbrack])) with (zlen pre + 1)
      by (cbn [length]; lia).
  - rewrite (pat_get pre (c_lbrack :: c :: l) 1 c) by (done || lia). cbn [mbind option_bind parse_class].
    destruct (c =? c_caret) eqn:E; [rewrite (isub_small (zlen (c :: l))) by lia|]; cbn [mbind option_bind].
    + destruct (parse_items (length l) l) as [its l'] eqn:Ep. cbn [fst snd token_match].
      rewrite <- (Hnext [c] l its l' _ true) by (done || cbn in HlP; lia).
      rewrite length_app. cbn [length].
      replace (Z.of_nat (length pre + 2)) with (zlen pre + 1 + 1) by lia.
      by replace (Z.of_nat (Datatypes.S (length l)) - 1) with (zlen l) by lia.
    + destruct (parse_items (length (c :: l)) (c :: l)) as [its l'] eqn:Ep.
      cbn [fst snd token_match].
      rewrite <- (Hnext [] (c :: l) its l' _ false) by (done || lia).
      rewrite length_app. by replace (Z.of_nat (length pre + length [c_lbrack])) with (zlen pre + 1)
        by (cbn [length]; lia).
Qed.

Lemma star_loop_spec (rec : Z -> Z -> option bool) (g : bytes -> bool) t : forall spre,
  (forall spre' t', spre ++ t = spre' ++ t' -> t' <> [] ->
     rec (zlen spre') (zlen t') = Some (g t')) ->
  g [] = false -> forall fuel, (length t <= fuel)%nat ->
  star_loop rec fuel (zlen spre) (zlen t) = Some (any_suffix g t).
Proof.
  induction t as [|c t IH]; intros spre Hrec Hg fuel Hf; [destruct fuel; cbn; by rewrite Hg|].
  destruct fuel as [|fuel]; [cbn in Hf; lia|]. cbn [star_loop length any_suffix]. if_false.
  rewrite (Hrec spre (c :: t) eq_refl ltac:(done) : rec _ (Z.of_nat (Datatypes.S (length t))) = _).
  cbn [mbind option_bind].
  destruct (g (c :: t)); [done|]. cbn [orb]. isub.
  replace (Z.of_nat (Datatypes.S (length t)) - 1) with (zlen t) by lia.
  replace (zlen spre + 1) with (zlen (spre ++ [c])) by (rewrite length_app; cbn; lia).
  apply IH; [|done|cbn in Hf; lia]. intros spre' t' E. apply Hrec. by rewrite <- E, <- app_assoc.
Qed.

Lemma any_suffix_ext f g t : (forall t, f t = g t) -> any_suffix f t = any_suffix g t.
Proof. intros H. induction t as [|c t IH]; cbn [any_suffix]; rewrite H; [done|]. by rewrite IH. Qed.

Lemma any_suffix_nil f t : f [] = true -> any_suffix f t = true.
Proof.
  intros H. induction t as [|c t IH]; cbn [any_suffix]; [by rewrite H|].
  by rewrite IH, orb_true_r.
Qed.

Lemma any_suffix_idem f t : any_suffix (any_suffix f) t = any_suffix f t.
Proof.
  induction t as [|c t IH]; cbn [any_suffix]; [by rewrite !orb_false_r|].
  rewrite IH. by destruct (f (c :: t)), (any_suffix f t).
Qed.

Lemma any_suffix_stars ts t k :
  glob nocase (replicate k TStar ++ TStar :: ts) t = any_suffix (glob nocase ts) t.
Proof.
  revert t. induction k as [|k IH]; intros t; cbn [replicate app glob]; [done|].
  rewrite (any_suffix_ext _ _ t IH). apply any_suffix_idem.
Qed.

Lemma parse_replicate k l :
  parse (replicate k c_star ++ l) = replicate k TStar ++ parse l.
Proof. induction k as [|k IH]; cbn [replicate app]; [done|]. by rewrite parse_cons, <- IH. Qed.

Lemma stringmatchlen_spec fuel : forall P S pre l spre t,
  P = pre ++ l ++ [0] -> S = spre ++ t -> (length l < fuel)%nat -> t <> [] ->
  stringmatchlen P S nocase fuel (zlen pre) (zlen l) (zlen spre) (zlen t)
  = Some (glob nocase (parse l) t).
Proof.
  induction fuel as [|fuel IH]; intros P S pre l spre t HP HS Hf Ht; [lia|].
  assert (Hag : matches_below fuel P S (stringmatchlen P S nocase fuel))
    by (intros ? ? ? ? ? ? ? ?; by apply IH).
  destruct t as [|sc t]; [done|]. cbn [stringmatchlen].
  destruct l as [|c r]; [cbn [length]; by if_false|]. cbn [length] in Hf.
  replace (negb _ && negb _) with true by (symmetry; cbn [length]; lia).
  rewrite HP at 1. rewrite (pat_get pre (c :: r) 0 c) by (done || lia). cbn [mbind option_bind].
  rewrite parse_cons. destruct (c =? c_star) eqn:Estar.
  { assert (c = c_star) as -> by lia.
    destruct (skip_stars_spec r (Datatypes.S (length P)) pre) as (k & r' & Hr & Hr' & E).
    { rewrite HP, !length_app. cbn. lia. }
    rewrite <- HP in E. rewrite E. cbn [mbind option_bind].
    change (next_token c_star r) with (TStar, r). cbn [fst snd].
    change (TStar :: parse r) with (replicate 1 TStar ++ parse r).
    rewrite Hr, parse_replicate, app_assoc, <- replicate_add. replace (1 + k)%nat with (k + 1)%nat by lia.
    rewrite replicate_add, <- app_assoc. cbn [replicate app]. rewrite any_suffix_stars.
    destruct r' as [|c' r'].
    { cbn [length]. if_true. f_equal. symmetry. by apply any_suffix_nil. }
    replace (1 + zlen (c' :: r') =? 1) with false by (symmetry; cbn [length]; lia).
    apply star_loop_spec.
    - intros spre' t' Hst Hne. isub.
      replace (zlen pre + Z.of_nat k + 1) with (zlen (pre ++ c_star :: replicate k c_star))
        by (rewrite length_app; cbn; rewrite length_replicate; lia).
      replace (1 + zlen (c' :: r') - 1) with (zlen (c' :: r')) by lia.
      apply IH; [|by rewrite HS|rewrite Hr, length_app in Hf; lia|done].
      rewrite HP, Hr. cbn [app]. rewrite <- !app_assoc. cbn [app]. by rewrite <- ?app_assoc.
    - rewrite glob_nil_parse. cbn. by destruct (c' =? c_star) eqn:?; [lia|].
    - rewrite HS, length_app. lia. }
  unfold next_token. rewrite Estar. destruct (c =? c_quest) eqn:Eq.
  { cbn [fst snd glob token_match andb]. isub.
    apply (after_switch_spec fuel P S _ (pre ++ [c]) r (spre ++ [sc]) t); try done;
      rewrite ?length_app; cbn [length]; try lia; by rewrite <- app_assoc. }
  destruct (c =? c_lbrack) eqn:El.
  { assert (c = c_lbrack) as -> by lia.
    rewrite (match_class_spec fuel P S _ pre r spre sc t) by (done || lia).
    destruct (parse_class r) as [tk r'] eqn:Ec. cbn [fst snd].
    assert (Hns : is_star tk = false).
    { pose proof (next_token_star c_lbrack r) as H. unfold next_token in H. cbn in H.
      by rewrite Ec in H. }
    by destruct tk. }
  destruct (c =? c_bslash) eqn:Eb; [destruct r as [|e r]|].
  - cbn [length]. if_false. rewrite (match_literal_spec fuel P S _ pre c [] spre sc t) by (done || lia).
    done.
  - replace (zlen (c :: e :: r) >=? 2) with true by (symmetry; cbn [length]; lia). isub.
    rewrite (match_literal_spec fuel P S _ (pre ++ [c]) e r spre sc t);
      rewrite ?length_app; cbn [length] in *; try done; try lia. by rewrite HP, <- app_assoc.
  - rewrite (match_literal_spec fuel P S _ pre c r spre sc t) by (done || lia). done.
Qed.
End correct.

(** * Theorems *)

(** C17: for a NUL-terminated pattern and a string of less than 2^31 bytes
    [stringmatch] terminates, reads only inside the two buffers and never leaves
    the range of an [int]. On a string that is not empty it computes the glob
    semantics of the tokens of the pattern. The empty string is an exception: only
    the empty pattern matches it and not even a star does, because the main loop is
    not entered. *)
Theorem stringmatch_glob pattern string nocase : zlen pattern < 2 ^ 31 -> zlen string < 2 ^ 31 ->
  stringmatch pattern string nocase
  = Some (match string with
          | [] => match pattern with [] => true | _ => false end
          | _ => glob nocase (parse pattern) string
          end).
Proof.
  intros Hp Hs. unfold stringmatch. rewrite !swrap_small by (unfold in_s; lia). destruct string as [|c s].
  - cbn [stringmatchlen length]. rewrite andb_false_r. by destruct pattern.
  - apply (stringmatchlen_spec nocase (S (length pattern)) _ _ [] pattern []); done || lia.
Qed.

Lemma stringmatch_glob_witness :
  stringmatch (of_string "h[a-e^]l?o*") (of_string "hello world") false = Some true /\ stringmatch (of_string "*") [] false = Some false.
Proof.
  split.
  - rewrite (stringmatch_glob (of_string "h[a-e^]l?o*") (of_string "hello world") false ltac:(vm_compute; reflexivity) ltac:(vm_compute; reflexivity)). reflexivity.
  - rewrite (stringmatch_glob (of_string "*") [] false ltac:(vm_compute; reflexivity) ltac:(vm_compute; reflexivity)). reflexivity.
Defined.
