(* ===== verification/Dict.v ===== *)
(** Hash tables with incremental rehashing: [dict.c], [dict.h].

    A dictionary has two tables; while [rehashidx] is not -1 the buckets of the
    first one migrate to the second, one bucket per operation. A table is the
    list of its buckets and a bucket the list of its entries in chain order.
    The callbacks of [dictType] are the interface class [DictType]; its laws
    ([DictTypeOk]) are what the code relies on: keys that compare equal are the
    same key, and hashes are 64-bit. *)
From S2P Require Import Prelude.
From stdpp Require Import gmap.
Open Scope Z_scope.

(** ** The callbacks *)

(** [expandAllowed] receives the memory the expansion needs and the fill ratio,
    here as [used] and [size]; a NULL callback is the constant [true]. *)
Class DictType (K : Type) := {
  hashFunction : K -> Z;
  keyCompare : K -> K -> bool;
  expandAllowed : Z -> Z -> Z -> bool
}.

Class DictTypeOk (K : Type) `{DictType K} := {
  hash_range : forall k, 0 <= hashFunction k < 2 ^ 64;
  keyCompare_eq : forall a b, keyCompare a b = true <-> a = b
}.

Definition DICT_OK : Z := 0.
Definition DICT_ERR : Z := 1.
Definition DICT_HT_INITIAL_SIZE : Z := 4.
Definition dict_force_resize_ratio : Z := 5.
Definition LONG_MAX : Z := 9223372036854775807.
Definition sizeof_ptr : Z := 8.

(** ** Data *)

Record dictEntry (K V : Type) := mkEntry { key : K; val : V }.
Arguments mkEntry {K V} _ _.
Arguments key {K V} _.
Arguments val {K V} _.

Record dictht (K V : Type) := mkHt {
  table : list (list (dictEntry K V));
  size : Z;
  sizemask : Z;
  used : Z
}.
Arguments mkHt {K V} _ _ _ _.
Arguments table {K V} _.
Arguments size {K V} _.
Arguments sizemask {K V} _.
Arguments used {K V} _.

Record dict (K V : Type) := mkDict {
  ht0 : dictht K V;
  ht1 : dictht K V;
  rehashidx : Z;
  pauserehash : Z
}.
Arguments mkDict {K V} _ _ _ _.
Arguments ht0 {K V} _.
Arguments ht1 {K V} _.
Arguments rehashidx {K V} _.
Arguments pauserehash {K V} _.

(** A [dictEntry *]: the table, the bucket and the position in the chain. *)
Record entry_ref := mkRef { ref_table : bool; ref_idx : Z; ref_pos : nat }.

Section dict.
Context {K V : Type} `{DT : DictType K} `{IV : Inhabited V}.

Abbreviation ht := (dictht K V) (only parsing).
Abbreviation entry := (dictEntry K V) (only parsing).

Definition set_ht0 (d : dict K V) (h : ht) : dict K V := mkDict h (ht1 d) (rehashidx d) (pauserehash d).
Definition set_ht1 (d : dict K V) (h : ht) : dict K V := mkDict (ht0 d) h (rehashidx d) (pauserehash d).
Definition set_rehashidx (d : dict K V) (i : Z) : dict K V := mkDict (ht0 d) (ht1 d) i (pauserehash d).

(** [d->ht[t]], [false] for 0. *)
Definition get_ht (d : dict K V) (t : bool) : ht := if t then ht1 d else ht0 d.
Definition set_ht (d : dict K V) (t : bool) (h : ht) : dict K V :=
  if t then set_ht1 d h else set_ht0 d h.

Definition dictIsRehashing (d : dict K V) : bool := negb (rehashidx d =? -1).
Definition dictSize (d : dict K V) : Z := uwrap 64 (used (ht0 d) + used (ht1 d)).
Definition dictSlots (d : dict K V) : Z := uwrap 64 (size (ht0 d) + size (ht1 d)).
Definition dictPauseRehashing (d : dict K V) : dict K V :=
  mkDict (ht0 d) (ht1 d) (rehashidx d) (swrap 16 (pauserehash d + 1)).
Definition dictResumeRehashing (d : dict K V) : dict K V :=
  mkDict (ht0 d) (ht1 d) (rehashidx d) (swrap 16 (pauserehash d - 1)).

(** [ht->table[i]]: [None] outside the table (or when it is NULL). *)
Definition bucket (h : ht) (i : Z) : option (list entry) :=
  if 0 <=? i then table h !! Z.to_nat i else None.
Definition set_bucket (h : ht) (i : Z) (b : list entry) : option ht :=
  if (0 <=? i) && (i <? Z.of_nat (length (table h)))
  then Some (mkHt (<[Z.to_nat i := b]> (table h)) (size h) (sizemask h) (used h))
  else None.
Definition set_used (h : ht) (u : Z) : ht := mkHt (table h) (size h) (sizemask h) (uwrap 64 u).

Definition _dictReset : ht := mkHt [] 0 0 0.
Definition _dictInit : dict K V := mkDict _dictReset _dictReset (-1) 0.
Definition dictCreate : dict K V := _dictInit.

(** ** Sizes *)

(** [while(1)]: [i] doubles from 4; 62 iterations reach 2^63. *)
Fixpoint nextPower_loop (fuel : nat) (i sz : Z) : option Z :=
  match fuel with
  | O => None
  | S fuel => if i >=? sz then Some i else nextPower_loop fuel (uwrap 64 (i * 2)) sz
  end.

Definition _dictNextPower (sz : Z) : option Z :=
  if sz >=? LONG_MAX then Some (LONG_MAX + 1)
  else nextPower_loop 62 DICT_HT_INITIAL_SIZE sz.

(** [malloc_failed] is NULL ([None]: the allocation panics on failure) or not
    ([Some b]: [b] tells whether [ztrycalloc] succeeds). Returns the
    dictionary, the code and [*malloc_failed]. *)
Definition _dictExpand (d : dict K V) (sz : Z) (try : option bool) : option (dict K V * Z * bool) :=
  if dictIsRehashing d || (used (ht0 d) >? sz) then Some (d, DICT_ERR, false)
  else
    realsize ← _dictNextPower sz;
    if (realsize <? sz) || (uwrap 64 (realsize * sizeof_ptr) <? realsize)
    then Some (d, DICT_ERR, false)
    else if realsize =? size (ht0 d) then Some (d, DICT_ERR, false)
    else
      let failed := match try with Some ok => negb ok | None => false end in
      if failed then Some (d, DICT_ERR, true)
      else
        let n := mkHt (replicate (Z.to_nat realsize) []) realsize (realsize - 1) 0 in
        match table (ht0 d) with
        | [] => Some (set_ht0 d n, DICT_OK, false)
        | _ => Some (set_rehashidx (set_ht1 d n) 0, DICT_OK, false)
        end.

Definition dictExpand (d : dict K V) (sz : Z) : option (dict K V * Z) :=
  '(d, rc, _) ← _dictExpand d sz None; Some (d, rc).

Definition dictTryExpand (d : dict K V) (sz : Z) (alloc_ok : bool) : option (dict K V * Z) :=
  '(d, _, failed) ← _dictExpand d sz (Some alloc_ok);
  Some (d, if (failed : bool) then DICT_ERR else DICT_OK).

(** [can_resize] is the global [dict_can_resize]. *)
Definition dictResize (can_resize : bool) (d : dict K V) : option (dict K V * Z) :=
  if negb can_resize || dictIsRehashing d then Some (d, DICT_ERR)
  else
    let minimal := used (ht0 d) in
    let minimal := if minimal <? DICT_HT_INITIAL_SIZE then DICT_HT_INITIAL_SIZE else minimal in
    dictExpand d minimal.

(** ** Incremental rehashing *)

(** [while(d->ht[0].table[d->rehashidx] == NULL)]: the index of the next
    non-empty bucket and what is left of [empty_visits], or [inl] of the index
    for the early [return 1]. *)
Fixpoint skip_empty (fuel : nat) (h : ht) (idx empty_visits : Z) : option (Z + Z * Z) :=
  match fuel with
  | O => None
  | S fuel =>
    b ← bucket h idx;
    match b with
    | [] =>
      let idx := idx + 1 in
      let empty_visits := empty_visits - 1 in
      if empty_visits =? 0 then Some (inl idx) else skip_empty fuel h idx empty_visits
    | _ => Some (inr (idx, empty_visits))
    end
  end.

(** [while(de)]: push the entries of the old bucket, in order, on their new
    buckets. *)
Fixpoint move_bucket (b : list entry) (h0 h1 : ht) : option (ht * ht) :=
  match b with
  | [] => Some (h0, h1)
  | de :: b =>
    let h := Z.land (hashFunction (key de)) (sizemask h1) in
    dst ← bucket h1 h;
    h1 ← set_bucket h1 h (de :: dst);
    move_bucket b (set_used h0 (used h0 - 1)) (set_used h1 (used h1 + 1))
  end.

(** [while(n-- && d->ht[0].used != 0)]; [true] tells the early [return 1]. *)
Fixpoint rehash_loop (n : nat) (d : dict K V) (empty_visits : Z) : option (dict K V * bool) :=
  match n with
  | O => Some (d, false)
  | S n =>
    if used (ht0 d) =? 0 then Some (d, false)
    else if negb (size (ht0 d) >? rehashidx d) then None (* assert *)
    else
      r ← skip_empty (S (length (table (ht0 d)))) (ht0 d) (rehashidx d) empty_visits;
      match r with
      | inl idx => Some (set_rehashidx d idx, true)
      | inr (idx, empty_visits) =>
        b ← bucket (ht0 d) idx;
        '(h0, h1) ← move_bucket b (ht0 d) (ht1 d);
        h0 ← set_bucket h0 idx [];
        rehash_loop n (mkDict h0 h1 (idx + 1) (pauserehash d)) empty_visits
      end
  end.

(** [n] is the number of steps (1 or 100 at the call sites). *)
Definition dictRehash (d : dict K V) (n : nat) : option (dict K V * bool) :=
  if negb (dictIsRehashing d) then Some (d, false)
  else
    '(d, early) ← rehash_loop n d (Z.of_nat n * 10);
    if (early : bool) then Some (d, true)
    else if used (ht0 d) =? 0
    then Some (mkDict (ht1 d) _dictReset (-1) (pauserehash d), false)
    else Some (d, true).

Definition _dictRehashStep (d : dict K V) : option (dict K V) :=
  if pauserehash d =? 0 then '(d, _) ← dictRehash d 1; Some d else Some d.

(** [if (dictIsRehashing(d)) _dictRehashStep(d);] *)
Definition rehash_if_needed (d : dict K V) : option (dict K V) :=
  if dictIsRehashing d then _dictRehashStep d else Some d.

(** [dictRehashMilliseconds]: [clock i] tells whether the time is over after
    the i-th round; [rounds] bounds the number of rounds. *)
Fixpoint rehash_ms_loop (rounds : nat) (clock : nat -> bool) (i : nat) (d : dict K V) (rehashes : Z)
  : option (dict K V * Z) :=
  match rounds with
  | O => None
  | S rounds =>
    '(d, more) ← dictRehash d 100;
    if (more : bool) then
      let rehashes := rehashes + 100 in
      if clock i then Some (d, rehashes) else rehash_ms_loop rounds clock (S i) d rehashes
    else Some (d, rehashes)
  end.

Definition dictRehashMilliseconds (rounds : nat) (clock : nat -> bool) (d : dict K V)
  : option (dict K V * Z) :=
  if pauserehash d >? 0 then Some (d, 0) else rehash_ms_loop rounds clock O d 0.

(** ** Lookup and update *)

(** The chain walk: the position of the entry with the given key. *)
Fixpoint chain_find (b : list entry) (k : K) (pos : nat) : option nat :=
  match b with
  | [] => None
  | he :: b => if keyCompare k (key he) then Some pos else chain_find b k (S pos)
  end.

(** One iteration of [for (table = 0; table <= 1; table++)]: the index of the
    bucket and the position of the key in it. *)
Definition table_find (d : dict K V) (t : bool) (k : K) (hash : Z) : option (Z * option nat) :=
  let idx := Z.land hash (sizemask (get_ht d t)) in
  b ← bucket (get_ht d t) idx;
  Some (idx, chain_find b k 0).

(** The whole [for]: the reference found, or the index in the last table. *)
Definition find_ref (d : dict K V) (k : K) (hash : Z) : option (entry_ref + Z) :=
  '(idx, r) ← table_find d false k hash;
  match r with
  | Some pos => Some (inl (mkRef false idx pos))
  | None =>
    if negb (dictIsRehashing d) then Some (inr idx)
    else
      '(idx, r) ← table_find d true k hash;
      match r with
      | Some pos => Some (inl (mkRef true idx pos))
      | None => Some (inr idx)
      end
  end.

(** [*ref]. *)
Definition deref (d : dict K V) (r : entry_ref) : option entry :=
  b ← bucket (get_ht d (ref_table r)) (ref_idx r); b !! ref_pos r.

(** [dictSetVal(d, ref, v)]. *)
Definition dictSetVal (d : dict K V) (r : entry_ref) (v : V) : option (dict K V) :=
  let h := get_ht d (ref_table r) in
  b ← bucket h (ref_idx r);
  e ← b !! ref_pos r;
  h ← set_bucket h (ref_idx r) (<[ref_pos r := mkEntry (key e) v]> b);
  Some (set_ht d (ref_table r) h).

Definition dictTypeExpandAllowed (d : dict K V) : option bool :=
  p ← _dictNextPower (used (ht0 d) + 1);
  Some (expandAllowed (K := K) (uwrap 64 (p * sizeof_ptr)) (used (ht0 d)) (size (ht0 d))).

Definition _dictExpandIfNeeded (can_resize : bool) (d : dict K V) : option (dict K V * Z) :=
  if dictIsRehashing d then Some (d, DICT_OK)
  else if size (ht0 d) =? 0 then dictExpand d DICT_HT_INITIAL_SIZE
  else if (used (ht0 d) >=? size (ht0 d))
          && (can_resize || (used (ht0 d) / size (ht0 d) >? dict_force_resize_ratio)) then
    allowed ← dictTypeExpandAllowed d;
    if (allowed : bool) then dictExpand d (uwrap 64 (used (ht0 d) + 1)) else Some (d, DICT_OK)
  else Some (d, DICT_OK).

(** Returns the dictionary, the index (-1 for an existing key or a failed
    expansion) and [*existing]. *)
Definition _dictKeyIndex (can_resize : bool) (d : dict K V) (k : K) (hash : Z)
  : option (dict K V * Z * option entry_ref) :=
  '(d, rc) ← _dictExpandIfNeeded can_resize d;
  if rc =? DICT_ERR then Some (d, -1, None)
  else
    r ← find_ref d k hash;
    match r with
    | inl ref => Some (d, -1, Some ref)
    | inr idx => Some (d, idx, None)
    end.

(** Returns the dictionary, the new entry and [*existing]. A new entry's value
    is not initialised. *)
Definition dictAddRaw (can_resize : bool) (d : dict K V) (k : K)
  : option (dict K V * option entry_ref * option entry_ref) :=
  d ← rehash_if_needed d;
  '(d, index, existing) ← _dictKeyIndex can_resize d k (hashFunction k);
  if index =? -1 then Some (d, None, existing)
  else
    let t := dictIsRehashing d in
    let h := get_ht d t in
    b ← bucket h index;
    h ← set_bucket h index (mkEntry k inhabitant :: b);
    Some (set_ht d t (set_used h (used h + 1)), Some (mkRef t index 0), existing).

Definition dictAdd (can_resize : bool) (d : dict K V) (k : K) (v : V) : option (dict K V * Z) :=
  '(d, entry, _) ← dictAddRaw can_resize d k;
  match entry with
  | None => Some (d, DICT_ERR)
  | Some r => d ← dictSetVal d r v; Some (d, DICT_OK)
  end.

(** Returns 1 for a new key and 0 for an overwritten one. *)
Definition dictReplace (can_resize : bool) (d : dict K V) (k : K) (v : V) : option (dict K V * Z) :=
  '(d, entry, existing) ← dictAddRaw can_resize d k;
  match entry with
  | Some r => d ← dictSetVal d r v; Some (d, 1)
  | None =>
    r ← existing;
    d ← dictSetVal d r v; Some (d, 0)
  end.

Definition dictAddOrFind (can_resize : bool) (d : dict K V) (k : K) : option (dict K V * entry_ref) :=
  '(d, entry, existing) ← dictAddRaw can_resize d k;
  r ← match entry with Some r => Some r | None => existing end;
  Some (d, r).

(** Returns the unlinked entry. *)
Definition dictGenericDelete (d : dict K V) (k : K) : option (dict K V * option entry) :=
  if (used (ht0 d) =? 0) && (used (ht1 d) =? 0) then Some (d, None)
  else
    d ← rehash_if_needed d;
    r ← find_ref d k (hashFunction k);
    match r with
    | inr _ => Some (d, None)
    | inl ref =>
      let t := ref_table ref in
      let h := get_ht d t in
      b ← bucket h (ref_idx ref);
      he ← b !! ref_pos ref;
      h ← set_bucket h (ref_idx ref) (delete (ref_pos ref) b);
      Some (set_ht d t (set_used h (used h - 1)), Some he)
    end.

Definition dictDelete (d : dict K V) (k : K) : option (dict K V * Z) :=
  '(d, he) ← dictGenericDelete d k;
  Some (d, match he with Some _ => DICT_OK | None => DICT_ERR end).

Definition dictUnlink (d : dict K V) (k : K) : option (dict K V * option entry) :=
  dictGenericDelete d k.

(** [dictFind], with the entry as a pointer and as a value. *)
Definition dictFindRef (d : dict K V) (k : K) : option (dict K V * option entry_ref) :=
  if dictSize d =? 0 then Some (d, None)
  else
    d ← rehash_if_needed d;
    r ← find_ref d k (hashFunction k);
    Some (d, match r with inl ref => Some ref | inr _ => None end).

Definition dictFind (d : dict K V) (k : K) : option (dict K V * option entry) :=
  '(d, r) ← dictFindRef d k;
  match r with
  | Some ref => he ← deref d ref; Some (d, Some he)
  | None => Some (d, None)
  end.

Definition dictFetchValue (d : dict K V) (k : K) : option (dict K V * option V) :=
  '(d, he) ← dictFind d k; Some (d, option_map val he).

(** ** Clearing *)

(** [for (i = 0; i < ht->size && ht->used > 0; i++)]: the entries freed, in
    order. *)
Fixpoint clear_loop (n : nat) (i : Z) (h : ht) : option (ht * list entry) :=
  match n with
  | O => Some (h, [])
  | S n =>
    if used h >? 0 then
      b ← bucket h i;
      '(h', freed) ← clear_loop n (i + 1) (set_used h (used h - Z.of_nat (length b)));
      Some (h', b ++ freed)
    else Some (h, [])
  end.

(** Returns the reset table and the entries freed. *)
Definition _dictClear (h : ht) : option (ht * list entry) :=
  '(_, freed) ← clear_loop (Z.to_nat (size h)) 0 h; Some (_dictReset, freed).

Definition dictEmpty (d : dict K V) : option (dict K V * list entry) :=
  '(h0, f0) ← _dictClear (ht0 d);
  '(h1, f1) ← _dictClear (ht1 d);
  Some (mkDict h0 h1 (-1) 0, f0 ++ f1).

Definition dictRelease (d : dict K V) : option (list entry) :=
  '(_, f0) ← _dictClear (ht0 d);
  '(_, f1) ← _dictClear (ht1 d);
  Some (f0 ++ f1).
End dict.
