(* ===== verification/DictMap.v ===== *)
(** [dict.c] implements a finite map.

    [wf] is the invariant of the two tables during an incremental rehash, and
    [dict_map] the abstract map. Every operation keeps the invariant, moves no
    entry out of reach, never indexes outside a table, and acts on the map as
    its name says. *)
From stdpp Require Import gmap.
From S2P Require Import Prelude Dict.
Open Scope Z_scope.

Section invariant.
Context {K V : Type} `{EK : EqDecision K, CK : !Countable K} `{DT : DictType K} `{IV : Inhabited V}.

Abbreviation ht := (dictht K V) (only parsing).
Abbreviation entry := (dictEntry K V) (only parsing).

Definition ht_entries (h : ht) : list entry := concat (table h).
Definition entries (d : dict K V) : list entry := ht_entries (ht0 d) ++ ht_entries (ht1 d).

(** Every entry is in the bucket its hash selects. *)
Definition placed (h : ht) : Prop :=
  forall i b x, table h !! i = Some b -> x ∈ b ->
    Z.of_nat i = Z.land (hashFunction (key x)) (sizemask h).

(** The sizes of an allocated table: a power of two. *)
Definition shaped (h : ht) : Prop :=
  exists e, 2 <= e <= 60 /\ size h = 2 ^ e /\ sizemask h = 2 ^ e - 1
            /\ Z.of_nat (length (table h)) = 2 ^ e.

Definition counted (h : ht) : Prop := used h = Z.of_nat (length (ht_entries h)).

Definition ht_ok (h : ht) : Prop := h = _dictReset \/ (shaped h /\ placed h /\ counted h).

(** The tables while [rehashidx] runs over the first one. *)
Definition rehash_ok (d : dict K V) : Prop :=
  if dictIsRehashing d
  then shaped (ht0 d) /\ shaped (ht1 d) /\ 0 <= rehashidx d <= size (ht0 d)
       /\ (forall i b, table (ht0 d) !! i = Some b -> Z.of_nat i < rehashidx d -> b = [])
  else ht1 d = _dictReset.

Record wf (d : dict K V) : Prop := {
  wf_ht0 : ht_ok (ht0 d);
  wf_ht1 : ht_ok (ht1 d);
  wf_rehash : rehash_ok d;
  wf_nodup : NoDup (key <$> entries d);
  wf_bound : Z.of_nat (length (entries d)) < 2 ^ 62
}.

Definition pair_of (e : entry) : K * V := (key e, val e).
Definition map_of (l : list entry) : gmap K V := list_to_map (pair_of <$> l).
Definition dict_map (d : dict K V) : gmap K V := map_of (entries d).

(** ** Buckets *)

Lemma concat_insert (t : list (list entry)) i b b' :
  t !! i = Some b -> concat (<[i := b']> t) ++ b ≡ₚ concat t ++ b'.
Proof.
  intros Hi. rewrite insert_take_drop by eauto using lookup_lt_Some.
  rewrite <- (take_drop_middle t i b Hi) at 3.
  rewrite !concat_app. cbn [concat]. solve_Permutation.
Qed.

Lemma lookup_concat (t : list (list entry)) x :
  x ∈ concat t <-> exists i b, t !! i = Some b /\ x ∈ b.
Proof.
  rewrite list_elem_of_In, in_concat. setoid_rewrite <- list_elem_of_In.
  split.
  - intros (b & Hb & Hx). apply list_elem_of_lookup in Hb as [i Hi]. eauto.
  - intros (i & b & Hi & Hx). exists b. split; [eapply list_elem_of_lookup_2; eauto|done].
Qed.

Lemma shaped_mask h x : shaped h -> 0 <= x ->
  Z.land x (sizemask h) = x mod size h /\ 0 <= x mod size h < Z.of_nat (length (table h)).
Proof.
  intros (e & He & Hs & Hm & Hl) Hx. rewrite Hm, Hs, Hl.
  replace (2 ^ e - 1) with (Z.ones e) by (rewrite Z.ones_equiv; lia).
  rewrite Z.land_ones by lia. split; [done|]. apply Z.mod_pos_bound. lia.
Qed.

Lemma bucket_lookup (h : ht) i b : bucket h i = Some b <-> 0 <= i /\ table h !! Z.to_nat i = Some b.
Proof. unfold bucket. destruct (Z.leb_spec 0 i); split; intros; try tauto; try lia; done. Qed.

Lemma bucket_exists (h : ht) i : 0 <= i < Z.of_nat (length (table h)) -> exists b, bucket h i = Some b.
Proof.
  intros Hi. destruct (lookup_lt_is_Some_2 (table h) (Z.to_nat i)) as [b Hb]; [lia|].
  exists b. apply bucket_lookup. auto with lia.
Qed.

Lemma bucket_lt (h : ht) i b : bucket h i = Some b -> 0 <= i < Z.of_nat (length (table h)).
Proof. intros [? Hb]%bucket_lookup. apply lookup_lt_Some in Hb. lia. Qed.

(** The table [h] with bucket [i] replaced. *)
Definition upd (h : ht) (i : Z) (b : list entry) : ht :=
  mkHt (<[Z.to_nat i := b]> (table h)) (size h) (sizemask h) (used h).

Lemma set_bucket_upd (h : ht) i b b' : bucket h i = Some b -> set_bucket h i b' = Some (upd h i b').
Proof. intros Hb%bucket_lt. unfold set_bucket. rewrite (proj2 (andb_true_iff _ _)) by lia. done. Qed.

Lemma upd_shaped h i b : shaped (upd h i b) <-> shaped h.
Proof. unfold shaped, upd. cbn. setoid_rewrite length_insert. done. Qed.

Lemma set_used_shaped h u : shaped (set_used h u) <-> shaped h.
Proof. done. Qed.

Lemma upd_placed h i b : 0 <= i -> placed h ->
  (forall x, x ∈ b -> i = Z.land (hashFunction (key x)) (sizemask h)) -> placed (upd h i b).
Proof.
  intros H0i Hp Hb j b' x Hj Hx. unfold upd in Hj. cbn in Hj.
  apply list_lookup_insert_Some in Hj as [(<- & <- & Hl) | [_ Hj]].
  - pose proof (Hb _ Hx). cbn [upd sizemask]. lia.
  - exact (Hp _ _ _ Hj Hx).
Qed.

Lemma upd_entries h i b b' : bucket h i = Some b ->
  ht_entries (upd h i b') ++ b ≡ₚ ht_entries h ++ b'.
Proof. intros [_ Hb]%bucket_lookup. apply concat_insert. done. Qed.

Lemma reset_entries : ht_entries _dictReset = [].
Proof. done. Qed.

Lemma entry_bucket h x : shaped h -> placed h -> x ∈ ht_entries h ->
  exists b, bucket h (Z.land (hashFunction (key x)) (sizemask h)) = Some b /\ x ∈ b.
Proof.
  intros Hs Hp (i & b & Hi & Hx)%lookup_concat. pose proof (Hp _ _ _ Hi Hx) as Hj.
  exists b. rewrite <- Hj. split; [|done]. apply bucket_lookup.
  rewrite Nat2Z.id. auto with lia.
Qed.

Lemma bucket_entry h i b x : bucket h i = Some b -> x ∈ b -> x ∈ ht_entries h.
Proof. intros [_ Hb]%bucket_lookup Hx. apply lookup_concat. eauto. Qed.

(** ** Rehashing *)

Section rehash.
Context `{!DictTypeOk K}.

Lemma move_bucket_spec b : forall h0 h1,
  shaped h1 -> placed h1 -> counted h1 ->
  Z.of_nat (length b) <= used h0 < 2 ^ 64 -> used h1 + Z.of_nat (length b) < 2 ^ 64 ->
  exists h1',
    move_bucket b h0 h1
    = Some (mkHt (table h0) (size h0) (sizemask h0) (used h0 - Z.of_nat (length b)), h1')
    /\ shaped h1' /\ placed h1' /\ counted h1' /\ ht_entries h1' ≡ₚ ht_entries h1 ++ b.
Proof.
  induction b as [|de b IH]; intros h0 h1 Hs Hp Hc H0 H1; cbn [move_bucket length] in *.
  { exists h1. rewrite Z.sub_0_r, app_nil_r. destruct h0. done. }
  pose proof (hash_range (key de)) as Hr. unfold counted in Hc.
  destruct (shaped_mask h1 (hashFunction (key de)) Hs) as [Hm Hlt]; [lia|].
  set (i := Z.land _ _) in *.
  destruct (bucket_exists h1 i) as [dst Hd]; [lia|]. rewrite Hd. cbn [mbind option_bind].
  rewrite (set_bucket_upd h1 i dst) by done. cbn [mbind option_bind].
  pose proof (upd_entries h1 i dst (de :: dst) Hd) as He.
  assert (He' : ht_entries (upd h1 i (de :: dst)) ≡ₚ ht_entries h1 ++ [de]).
  { apply (Permutation_app_inv_r dst). rewrite He. solve_Permutation. }
  assert (Hu : used h1 + 1 = Z.of_nat (length (ht_entries (upd h1 i (de :: dst))))).
  { rewrite He', length_app, Hc. cbn. lia. }
  destruct (IH (set_used h0 (used h0 - 1)) (set_used (upd h1 i (de :: dst)) (used h1 + 1)))
    as (h1' & E & Hs' & Hp' & Hc' & Hl').
  - apply upd_shaped. done.
  - apply upd_placed; [lia|done|]. intros x [->|Hx]%elem_of_cons; [done|].
    destruct (proj1 (bucket_lookup _ _ _) Hd) as [? Hd']. pose proof (Hp _ _ _ Hd' Hx). lia.
  - unfold counted. cbn [used set_used]. rewrite uwrap_small by (unfold in_u; lia). exact Hu.
  - cbn [used set_used]. rewrite uwrap_small by (unfold in_u; lia). lia.
  - cbn [used set_used]. rewrite uwrap_small by (unfold in_u; lia). lia.
  - exists h1'. cbn [used upd] in *. rewrite E. split; [|split; [done|split; [done|split; [done|]]]].
    + cbn [used set_used table size sizemask]. rewrite uwrap_small by (unfold in_u; lia). do 3 f_equal. lia.
    + rewrite Hl'. change (ht_entries (set_used ?h _)) with (ht_entries h).
      rewrite He'. solve_Permutation.
Qed.

Lemma skip_empty_spec (h : ht) fuel : forall idx ev,
  0 <= idx -> (exists j b, idx <= j /\ bucket h j = Some b /\ b <> []) ->
  Z.of_nat (length (table h)) - idx < Z.of_nat fuel ->
  exists idx' r,
    skip_empty fuel h idx ev = Some r
    /\ idx <= idx' <= Z.of_nat (length (table h))
    /\ (forall i b, idx <= i < idx' -> bucket h i = Some b -> b = [])
    /\ ((r = inl idx' /\ idx < idx')
        \/ exists ev' b, r = inr (idx', ev') /\ bucket h idx' = Some b /\ b <> []).
Proof.
  induction fuel as [|fuel IH]; intros idx ev H0 (j & b & Hj & Hb & Hne) Hf.
  { apply bucket_lt in Hb. lia. }
  pose proof (bucket_lt _ _ _ Hb) as Hlt. cbn [skip_empty].
  destruct (bucket_exists h idx) as [[|e c] Hc]; [lia| |]; rewrite Hc; cbn [mbind option_bind].
  - assert (j <> idx) by congruence.
    destruct (Z.eqb_spec (ev - 1) 0).
    + exists (idx + 1), (inl (idx + 1)). split; [done|]. split; [lia|]. split; [|left; auto with lia].
      intros i b' Hi. replace i with idx by lia. congruence.
    + destruct (IH (idx + 1) (ev - 1)) as (idx' & r & E & Hr & Hemp & Hcase); [lia| |lia|].
      { exists j, b. auto with lia. }
      exists idx', r. split; [done|]. split; [lia|]. split.
      * intros i b' Hi Hb'. destruct (Z.eq_dec i idx) as [->|]; [congruence|].
        apply (Hemp i); [lia|done].
      * destruct Hcase as [[? ?]|?]; [left; auto with lia|right; done].
  - exists idx, (inr (idx, ev)). split; [done|]. split; [lia|]. split; [intros; lia|].
    right. exists ev, (e :: c). done.
Qed.

Lemma shaped_nonempty (h : ht) : shaped h -> table h <> [].
Proof. intros (e & He & _ & _ & Hl) Hn. rewrite Hn in Hl. cbn in Hl. pose proof (Z.pow_pos_nonneg 2 e). lia. Qed.

Lemma ht_ok_shaped (h : ht) : ht_ok h -> shaped h -> placed h /\ counted h.
Proof. intros [->|(? & ? & ?)] Hs; [|done]. by apply shaped_nonempty in Hs. Qed.

Lemma wf_perm d d' : wf d -> entries d' ≡ₚ entries d ->
  ht_ok (ht0 d') -> ht_ok (ht1 d') -> rehash_ok d' -> wf d'.
Proof. intros Hwf He ? ? ?. split; [done..| |]; rewrite He; apply Hwf. Qed.

Lemma wf_used d : wf d ->
  used (ht0 d) = Z.of_nat (length (ht_entries (ht0 d)))
  /\ used (ht1 d) = Z.of_nat (length (ht_entries (ht1 d)))
  /\ used (ht0 d) + used (ht1 d) = Z.of_nat (length (entries d)).
Proof.
  intros [[E0|(_ & _ & E0)] [E1|(_ & _ & E1)] _ _ _]; unfold entries; rewrite length_app;
    rewrite ?E0, ?E1; cbn; lia.
Qed.

Lemma rehashing_ok d : wf d -> dictIsRehashing d = true ->
  shaped (ht0 d) /\ shaped (ht1 d) /\ 0 <= rehashidx d <= size (ht0 d)
  /\ (forall i b, table (ht0 d) !! i = Some b -> Z.of_nat i < rehashidx d -> b = []).
Proof. intros Hwf Hr. pose proof (wf_rehash _ Hwf) as Ho. unfold rehash_ok in Ho. by rewrite Hr in Ho. Qed.

Lemma isRehashing_idx (d : dict K V) i : 0 <= i -> rehashidx d = i -> dictIsRehashing d = true.
Proof. unfold dictIsRehashing. intros ? ->. destruct (Z.eqb_spec i (-1)); [lia|done]. Qed.

(** Moving bucket [idx] keeps the invariant and the entries. *)
Lemma move_step d idx b : wf d -> dictIsRehashing d = true ->
  bucket (ht0 d) idx = Some b -> rehashidx d <= idx ->
  (forall i c, rehashidx d <= i < idx -> bucket (ht0 d) i = Some c -> c = []) ->
  exists h0 h0' h1,
    move_bucket b (ht0 d) (ht1 d) = Some (h0, h1) /\ set_bucket h0 idx [] = Some h0'
    /\ size h0' = size (ht0 d) /\ length (table h0') = length (table (ht0 d))
    /\ wf (mkDict h0' h1 (idx + 1) (pauserehash d))
    /\ entries (mkDict h0' h1 (idx + 1) (pauserehash d)) ≡ₚ entries d.
Proof.
  intros Hwf Hr Hb Hidx Hemp.
  destruct (rehashing_ok d Hwf Hr) as (Hs0 & Hs1 & Hri & Hlow).
  destruct (ht_ok_shaped _ (wf_ht0 _ Hwf) Hs0) as [Hp0 Hc0].
  destruct (ht_ok_shaped _ (wf_ht1 _ Hwf) Hs1) as [Hp1 Hc1].
  destruct (wf_used d Hwf) as (U0 & U1 & U). pose proof (wf_bound _ Hwf) as HB.
  pose proof (upd_entries (ht0 d) idx b [] Hb) as He. rewrite app_nil_r in He.
  pose proof (Permutation_length He) as Hlen. rewrite length_app in Hlen.
  pose proof (bucket_lt _ _ _ Hb) as Hlt.
  destruct (move_bucket_spec b (ht0 d) (ht1 d)) as (h1 & E & Hs1' & Hp1' & Hc1' & He1); [done..|lia|lia|].
  set (h0 := mkHt _ _ _ _) in E.
  exists h0, (upd h0 idx []), h1. split; [done|].
  assert (Hb0 : bucket h0 idx = Some b) by exact Hb.
  split; [exact (set_bucket_upd h0 idx b [] Hb0)|]. split; [done|].
  split; [apply length_insert|].
  assert (HP : entries (mkDict (upd h0 idx []) h1 (idx + 1) (pauserehash d)) ≡ₚ entries d).
  { unfold entries. cbn [Dict.ht0 Dict.ht1]. rewrite He1.
    change (ht_entries (upd h0 idx [])) with (ht_entries (upd (ht0 d) idx [])).
    rewrite <- He. solve_Permutation. }
  split; [|done]. apply (wf_perm d); [done|done| | |].
  - right. split; [by apply upd_shaped|]. split.
    + apply upd_placed; [lia|done|]. intros x Hx. by apply elem_of_nil in Hx.
    + change (used (ht0 d) - Z.of_nat (length b)
              = Z.of_nat (length (ht_entries (upd (ht0 d) idx [])))). lia.
  - right. done.
  - unfold rehash_ok. rewrite (isRehashing_idx _ (idx + 1)) by (cbn; lia).
    cbn [Dict.ht0 Dict.ht1 rehashidx]. split; [by apply upd_shaped|]. split; [done|].
    destruct Hs0 as (e & ? & Hsz & _ & Hl). split; [cbn; lia|].
    intros i c Hi Hc. cbn in Hi.
    apply list_lookup_insert_Some in Hi as [(<- & <- & _) | [Hne Hi]]; [done|].
    destruct (Z_lt_le_dec (Z.of_nat i) (rehashidx d)); [by apply (Hlow i)|].
    apply (Hemp (Z.of_nat i)); [lia|]. apply bucket_lookup. rewrite Nat2Z.id. auto with lia.
Qed.

Lemma nonempty_bucket d : wf d -> dictIsRehashing d = true -> used (ht0 d) <> 0 ->
  exists j b, rehashidx d <= j /\ bucket (ht0 d) j = Some b /\ b <> [].
Proof.
  intros Hwf Hr Hu. destruct (rehashing_ok d Hwf Hr) as (_ & _ & _ & Hlow).
  destruct (wf_used d Hwf) as (U0 & _ & _).
  destruct (ht_entries (ht0 d)) as [|x l] eqn:E; [cbn in U0; lia|].
  assert (Hx : x ∈ ht_entries (ht0 d)) by (rewrite E; set_solver).
  apply lookup_concat in Hx as (i & b & Hi & Hx).
  assert (b <> []) by (intros ->; by apply elem_of_nil in Hx).
  exists (Z.of_nat i), b. split; [|split; [|done]].
  - destruct (Z_lt_le_dec (Z.of_nat i) (rehashidx d)); [|done]. by apply Hlow in Hi.
  - apply bucket_lookup. rewrite Nat2Z.id. auto with lia.
Qed.

Lemma shaped_size (h : ht) : shaped h -> size h = Z.of_nat (length (table h)) /\ 4 <= size h <= 2 ^ 60.
Proof.
  intros (e & He & Hs & _ & Hl). pose proof (Z.pow_le_mono_r 2 2 e). pose proof (Z.pow_le_mono_r 2 e 60). lia.
Qed.

Lemma set_rehashidx_wf d idx : wf d -> dictIsRehashing d = true ->
  rehashidx d <= idx <= size (ht0 d) ->
  (forall i b, rehashidx d <= i < idx -> bucket (ht0 d) i = Some b -> b = []) ->
  wf (set_rehashidx d idx).
Proof.
  intros Hwf Hr Hidx Hemp. destruct (rehashing_ok d Hwf Hr) as (Hs0 & Hs1 & Hri & Hlow).
  apply (wf_perm d); [done|done|apply Hwf|apply Hwf|].
  unfold rehash_ok. rewrite (isRehashing_idx _ idx) by (cbn; lia).
  cbn. split; [done|]. split; [done|]. split; [lia|].
  intros i b Hi Hlt. destruct (Z_lt_le_dec (Z.of_nat i) (rehashidx d)); [by apply (Hlow i)|].
  apply (Hemp (Z.of_nat i)); [lia|]. apply bucket_lookup. rewrite Nat2Z.id. auto with lia.
Qed.

(** What a run of the loop of [dictRehash] does: the entries stay, and the
    index advances. *)
Record rehashed (d d' : dict K V) : Prop := {
  rd_wf : wf d';
  rd_on : dictIsRehashing d' = true;
  rd_entries : entries d' ≡ₚ entries d;
  rd_pause : pauserehash d' = pauserehash d;
  rd_size : size (ht0 d') = size (ht0 d);
  rd_idx : rehashidx d <= rehashidx d'
}.

Lemma rehash_loop_spec n : forall d ev, wf d -> dictIsRehashing d = true ->
  exists d' early, rehash_loop n d ev = Some (d', early) /\ rehashed d d'
    /\ (early = true -> used (ht0 d') <> 0)
    /\ (n <> O -> used (ht0 d') <> 0 -> rehashidx d < rehashidx d').
Proof.
  induction n as [|n IH]; intros d ev Hwf Hr; cbn [rehash_loop].
  { exists d, false. split; [done|]. split; [by split|]. done. }
  destruct (Z.eqb_spec (used (ht0 d)) 0) as [Hz|Hu].
  { exists d, false. split; [done|]. split; [by split|]. done. }
  destruct (rehashing_ok d Hwf Hr) as (Hs0 & Hs1 & Hri & Hlow).
  destruct (shaped_size _ Hs0) as [Hsz _].
  destruct (nonempty_bucket d Hwf Hr Hu) as (j & b & Hj & Hb & Hne).
  pose proof (bucket_lt _ _ _ Hb). if_false.
  destruct (skip_empty_spec (ht0 d) (S (length (table (ht0 d)))) (rehashidx d) ev)
    as (idx & r & -> & Hidx & Hemp & Hcase); [lia|eauto|lia|]. cbn [mbind option_bind].
  destruct Hcase as [[-> Hlt]|(ev' & c & -> & Hc & _)].
  - exists (set_rehashidx d idx), true. split; [done|]. split; [|split; [done|intros; cbn; lia]].
    split; [|apply (isRehashing_idx _ idx); [lia|done]|done..|cbn; lia].
    apply set_rehashidx_wf; [done|done|lia|done].
  - rewrite Hc. cbn [mbind option_bind].
    destruct (move_step d idx c) as (h0 & h0' & h1 & -> & E2 & Hsz' & _ & Hwf' & Hent'); [done..|lia|done|].
    cbn [mbind option_bind]. rewrite E2. cbn [mbind option_bind].
    destruct (IH _ ev' Hwf') as (d' & early & E & [] & Hearly & _).
    { apply (isRehashing_idx _ (idx + 1)); [lia|done]. }
    cbn in rd_pause0, rd_size0, rd_idx0.
    exists d', early. split; [done|]. split; [|split; [done|lia]].
    split; [done|done|by rewrite rd_entries0|done|lia|lia].
Qed.

(** Two well-formed states with the same entries. *)
Record same_entries (d d' : dict K V) : Prop := {
  se_wf : wf d';
  se_entries : entries d' ≡ₚ entries d;
  se_pause : pauserehash d' = pauserehash d
}.

Lemma same_entries_refl d : wf d -> same_entries d d.
Proof. by split. Qed.

Lemma same_entries_trans d1 d2 d3 : same_entries d1 d2 -> same_entries d2 d3 -> same_entries d1 d3.
Proof. intros [_ E1 P1] [W E2 P2]. split; [done|by rewrite E2|congruence]. Qed.

(** The first table is dropped once it is empty. *)
Lemma finish_wf d : wf d -> dictIsRehashing d = true -> used (ht0 d) = 0 ->
  same_entries d (mkDict (ht1 d) _dictReset (-1) (pauserehash d)).
Proof.
  intros Hwf Hr Hu. destruct (rehashing_ok d Hwf Hr) as (Hs0 & Hs1 & _).
  destruct (wf_used d Hwf) as (U0 & _).
  assert (E : ht_entries (ht0 d) = []) by (apply nil_length_inv; lia).
  assert (HP : entries (mkDict (ht1 d) _dictReset (-1) (pauserehash d)) ≡ₚ entries d).
  { unfold entries. cbn [ht0 ht1]. rewrite E, reset_entries. solve_Permutation. }
  split; [|done|done].
  apply (wf_perm d); [done|done|apply Hwf|by left|]. done.
Qed.

Lemma dictRehash_ok d n : wf d ->
  exists d' r, dictRehash d n = Some (d', r) /\ same_entries d d' /\ r = dictIsRehashing d'
    /\ (r = true -> n <> O -> size (ht0 d') = size (ht0 d) /\ rehashidx d < rehashidx d').
Proof.
  intros Hwf. unfold dictRehash. destruct (dictIsRehashing d) eqn:Hr; cbn [negb].
  2: { exists d, false. split; [done|]. split; [by apply same_entries_refl|]. split; [done|]. done. }
  destruct (rehash_loop_spec n d (Z.of_nat n * 10) Hwf Hr) as (d1 & early & -> & [] & Hearly & Hprog).
  cbn [mbind option_bind].
  destruct early.
  - exists d1, true. split; [done|]. split; [by split|]. split; [done|].
    intros _ Hn. split; [done|]. auto.
  - destruct (Z.eqb_spec (used (ht0 d1)) 0) as [Hz|Hz].
    + eexists _, _. split; [done|]. split; [|by split].
      eapply same_entries_trans; [|by apply finish_wf]. by split.
    + exists d1, true. split; [done|]. split; [by split|]. split; [done|].
      intros _ Hn. split; [done|]. auto.
Qed.

Lemma rehash_step_ok d : wf d -> exists d', rehash_if_needed d = Some d' /\ same_entries d d'.
Proof.
  intros Hwf. unfold rehash_if_needed, _dictRehashStep.
  destruct (dictIsRehashing d); [|eauto using same_entries_refl].
  destruct (pauserehash d =? 0); [|eauto using same_entries_refl].
  destruct (dictRehash_ok d 1 Hwf) as (d' & r & -> & Hs & _). cbn. eauto.
Qed.

Lemma rehash_ms_ok rounds clock : forall i d acc, wf d ->
  (dictIsRehashing d = true -> size (ht0 d) - rehashidx d < Z.of_nat rounds - 1) ->
  (0 < rounds)%nat ->
  exists d' r, rehash_ms_loop rounds clock i d acc = Some (d', r) /\ same_entries d d'
    /\ ((forall j, clock j = false) -> dictIsRehashing d' = false).
Proof.
  induction rounds as [|rounds IH]; intros i d acc Hwf Hm Hpos; [lia|]. cbn [rehash_ms_loop].
  destruct (dictRehash_ok d 100 Hwf) as (d1 & r & E & Hs & Hr & Hprog). rewrite E.
  cbn [mbind option_bind]. destruct r.
  2: { exists d1, acc. auto. }
  destruct (clock i) eqn:Hc.
  { exists d1, (acc + 100). split; [done|]. split; [done|]. intros Hcl. congruence. }
  destruct (Hprog eq_refl) as [Hsz Hlt]; [done|].
  assert (Hon : dictIsRehashing d = true).
  { destruct (dictIsRehashing d) eqn:Ho; [done|]. unfold dictRehash in E. rewrite Ho in E. done. }
  destruct (rehashing_ok d1 (se_wf _ _ Hs) (eq_sym Hr)) as (_ & _ & Hri & _).
  specialize (Hm Hon).
  destruct (IH (S i) d1 (acc + 100)) as (d2 & r2 & E2 & Hs2 & Hend); [apply Hs|lia|lia|].
  exists d2, r2. split; [done|]. split; [eauto using same_entries_trans|done].
Qed.

(** ** Looking a key up *)

Lemma chain_find_Some (b : list entry) k : forall pos p, chain_find b k pos = Some p ->
  exists e, (pos <= p)%nat /\ b !! (p - pos)%nat = Some e /\ key e = k.
Proof.
  induction b as [|x b IH]; intros pos p E; cbn [chain_find] in E; [done|].
  destruct (keyCompare k (key x)) eqn:Hk.
  - injection E as <-. exists x. rewrite Nat.sub_diag. apply keyCompare_eq in Hk. auto with lia.
  - destruct (IH _ _ E) as (e & Hp & Hb & He). exists e. split; [lia|]. split; [|done].
    replace (p - pos)%nat with (S (p - S pos))%nat by lia. done.
Qed.

Lemma chain_find_None (b : list entry) k : forall pos, chain_find b k pos = None -> k ∉ key <$> b.
Proof.
  induction b as [|x b IH]; intros pos E; cbn [chain_find] in E; [set_solver|].
  destruct (keyCompare k (key x)) eqn:Hk; [done|]. rewrite fmap_cons, not_elem_of_cons.
  split; [|eauto]. intros Heq. apply keyCompare_eq in Heq. congruence.
Qed.

Lemma get_ht_ok d t : wf d -> ht_ok (get_ht d t).
Proof. intros []. by destruct t. Qed.

Lemma bucket_ok d t i b : wf d -> bucket (get_ht d t) i = Some b ->
  shaped (get_ht d t) /\ placed (get_ht d t) /\ counted (get_ht d t).
Proof.
  intros Hwf Hb. destruct (get_ht_ok d t Hwf) as [E|?]; [|done].
  rewrite E in Hb. apply bucket_lt in Hb. cbn in Hb. lia.
Qed.

(** The bucket key [k] belongs to in table [t]. *)
Definition key_idx (d : dict K V) (t : bool) (k : K) : Z :=
  Z.land (hashFunction k) (sizemask (get_ht d t)).

Definition valid_ref (d : dict K V) (r : entry_ref) (b : list entry) (e : entry) : Prop :=
  bucket (get_ht d (ref_table r)) (ref_idx r) = Some b /\ b !! ref_pos r = Some e.

Lemma key_bucket d t k : shaped (get_ht d t) -> exists b, bucket (get_ht d t) (key_idx d t k) = Some b.
Proof.
  intros Hs. pose proof (hash_range k). destruct (shaped_mask _ (hashFunction k) Hs); [lia|].
  apply bucket_exists. unfold key_idx. lia.
Qed.

Lemma table_find_spec d t k : wf d -> shaped (get_ht d t) ->
  exists b r, table_find d t k (hashFunction k) = Some (key_idx d t k, r)
    /\ bucket (get_ht d t) (key_idx d t k) = Some b
    /\ match r with
       | Some p => exists e, b !! p = Some e /\ key e = k
       | None => k ∉ key <$> ht_entries (get_ht d t)
       end.
Proof.
  intros Hwf Hs. destruct (key_bucket d t k Hs) as [b Hb].
  exists b, (chain_find b k 0). unfold table_find. fold (key_idx d t k). rewrite Hb.
  split; [done|]. split; [done|]. destruct (chain_find b k 0) as [p|] eqn:E.
  - apply chain_find_Some in E as (e & _ & Hp & He). rewrite Nat.sub_0_r in Hp. eauto.
  - apply chain_find_None in E. intros (x & -> & Hx)%list_elem_of_fmap.
    destruct (bucket_ok _ _ _ _ Hwf Hb) as (_ & Hp & _).
    destruct (entry_bucket _ _ Hs Hp Hx) as (b' & Hb' & Hx'). apply E.
    unfold key_idx in Hb. rewrite Hb in Hb'. injection Hb' as <-. apply list_elem_of_fmap. eauto.
Qed.

Lemma find_ref_spec d k : wf d -> shaped (ht0 d) ->
  (exists ref b e, find_ref d k (hashFunction k) = Some (inl ref) /\ valid_ref d ref b e /\ key e = k)
  \/ (find_ref d k (hashFunction k) = Some (inr (key_idx d (dictIsRehashing d) k))
      /\ k ∉ key <$> entries d).
Proof.
  intros Hwf Hs. unfold find_ref.
  destruct (table_find_spec d false k Hwf Hs) as (b & r & -> & Hb & Hr). cbn [mbind option_bind].
  destruct r as [p|].
  { left. destruct Hr as (e & Hp & He). exists (mkRef false (key_idx d false k) p), b, e. done. }
  destruct (dictIsRehashing d) eqn:Hon; cbn [negb].
  - destruct (rehashing_ok d Hwf Hon) as (_ & Hs1 & _).
    destruct (table_find_spec d true k Hwf Hs1) as (b1 & r1 & -> & Hb1 & Hr1). cbn [mbind option_bind].
    destruct r1 as [p|].
    + left. destruct Hr1 as (e & Hp & He). exists (mkRef true (key_idx d true k) p), b1, e. done.
    + right. split; [done|]. unfold entries. rewrite fmap_app, elem_of_app. cbn in Hr, Hr1. tauto.
  - right. split; [done|]. pose proof (wf_rehash _ Hwf) as Ho. unfold rehash_ok in Ho.
    rewrite Hon in Ho. unfold entries. rewrite Ho, reset_entries, app_nil_r. done.
Qed.

(** ** Changing a bucket *)

Definition put_bucket (d : dict K V) (t : bool) (i : Z) (b : list entry) (u : Z) : dict K V :=
  let h := get_ht d t in
  set_ht d t (mkHt (<[Z.to_nat i := b]> (table h)) (size h) (sizemask h) u).

Lemma put_bucket_entries d t i b b' u : bucket (get_ht d t) i = Some b ->
  entries (put_bucket d t i b' u) ++ b ≡ₚ entries d ++ b'.
Proof.
  intros Hb. pose proof (upd_entries _ _ _ b' Hb) as He.
  unfold entries, put_bucket. destruct t; cbn [get_ht set_ht set_ht0 set_ht1 ht0 ht1] in *.
  - rewrite <- !app_assoc. apply Permutation_app_head. exact He.
  - transitivity ((ht_entries (upd (ht0 d) i b') ++ b) ++ ht_entries (ht1 d)); [solve_Permutation|].
    rewrite He. solve_Permutation.
Qed.

Lemma put_bucket_wf d t i b b' u : wf d -> bucket (get_ht d t) i = Some b ->
  (forall x, x ∈ b' -> i = key_idx d t (key x)) ->
  (b = [] -> t = dictIsRehashing d) ->
  u = used (get_ht d t) + Z.of_nat (length b') - Z.of_nat (length b) ->
  NoDup (key <$> entries (put_bucket d t i b' u)) ->
  Z.of_nat (length (entries (put_bucket d t i b' u))) < 2 ^ 62 ->
  wf (put_bucket d t i b' u).
Proof.
  intros Hwf Hb Hx Ht Hu Hnd HB. destruct (bucket_ok _ _ _ _ Hwf Hb) as (Hs & Hp & Hc).
  pose proof (bucket_lt _ _ _ Hb) as Hlt.
  pose proof (Permutation_length (upd_entries _ _ _ b' Hb)) as Hl. rewrite !length_app in Hl.
  assert (Hok : ht_ok (get_ht (put_bucket d t i b' u) t)).
  { right. unfold put_bucket, counted in *. destruct t; cbn [get_ht set_ht set_ht0 set_ht1 ht0 ht1] in *;
    (split; [by apply (upd_shaped _ i b')|]); (split; [apply (upd_placed _ i b'); [lia|done|exact Hx]|]);
    cbn [used]; unfold ht_entries in *; cbn [table upd] in *; lia. }
  assert (Hre : rehash_ok (put_bucket d t i b' u)).
  { pose proof (wf_rehash _ Hwf) as Ho. unfold rehash_ok in *.
    assert (Er : rehashidx (put_bucket d t i b' u) = rehashidx d) by (by destruct t).
    unfold dictIsRehashing in *. rewrite Er. destruct (negb (rehashidx d =? -1)) eqn:Hon.
    - destruct Ho as (H0 & H1 & Hri & Hlow). destruct t; cbn [get_ht] in *.
      + split; [done|]. split; [by apply (upd_shaped _ i b')|]. done.
      + split; [by apply (upd_shaped _ i b')|]. split; [done|]. split; [done|].
        intros j c Hj Hjl. cbn in Hj.
        apply list_lookup_insert_Some in Hj as [(<- & <- & _) | [Hne Hj]]; [|by apply (Hlow j)].
        apply bucket_lookup in Hb as [_ Hb]. rewrite (Hlow _ _ Hb Hjl) in Ht. by specialize (Ht eq_refl).
    - destruct t; [|done]. cbn [get_ht] in *. rewrite Ho in Hlt. cbn in Hlt. lia. }
  split; [| |done..].
  - destruct t; [apply Hwf|exact Hok].
  - destruct t; [exact Hok|apply Hwf].
Qed.

(** ** The abstract map *)

Lemma keys_of (l : list entry) : (pair_of <$> l).*1 = key <$> l.
Proof. rewrite <- list_fmap_compose. done. Qed.

Lemma map_of_perm l l' : NoDup (key <$> l) -> l' ≡ₚ l -> map_of l' = map_of l.
Proof.
  intros Hnd HP. unfold map_of. apply list_to_map_proper; [rewrite keys_of, HP; done|].
  by rewrite HP.
Qed.

Lemma map_of_None l k : map_of l !! k = None <-> k ∉ key <$> l.
Proof. unfold map_of. rewrite <- not_elem_of_list_to_map, keys_of. done. Qed.

Lemma map_of_elem l e : NoDup (key <$> l) -> e ∈ l -> map_of l !! key e = Some (val e).
Proof.
  intros Hnd He. apply elem_of_list_to_map; [by rewrite keys_of|].
  apply list_elem_of_fmap. exists e. done.
Qed.

Lemma map_of_cons e l : map_of (e :: l) = <[key e := val e]> (map_of l).
Proof. done. Qed.

Lemma same_entries_map d d' : wf d -> same_entries d d' -> dict_map d' = dict_map d.
Proof. intros Hwf [_ HP _]. apply map_of_perm; [apply Hwf|done]. Qed.

Lemma valid_ref_elem d ref b e : valid_ref d ref b e -> e ∈ entries d.
Proof.
  intros [Hb He]. apply list_elem_of_lookup_2 in He. apply (bucket_entry _ _ _ _ Hb) in He.
  unfold entries. apply elem_of_app. destruct (ref_table ref); auto.
Qed.

Lemma valid_ref_map d ref b e : wf d -> valid_ref d ref b e -> dict_map d !! key e = Some (val e).
Proof. intros Hwf He%valid_ref_elem. apply map_of_elem; [apply Hwf|done]. Qed.

Lemma valid_ref_idx d ref b e : wf d -> valid_ref d ref b e ->
  forall x, x ∈ b -> ref_idx ref = key_idx d (ref_table ref) (key x).
Proof.
  intros Hwf [Hb _] x Hx. destruct (bucket_ok _ _ _ _ Hwf Hb) as (_ & Hp & _).
  apply bucket_lookup in Hb as [H0 Hb]. pose proof (Hp _ _ _ Hb Hx). unfold key_idx. lia.
Qed.

Lemma list_delete_insert_eq (l : list entry) i x : delete i (<[i := x]> l) = delete i l.
Proof. revert i. induction l as [|y l IH]; intros [|i]; cbn; [done..|]. f_equal. apply IH. Qed.

(** Overwriting the value of an entry. *)
Lemma dictSetVal_ok d ref b e v : wf d -> valid_ref d ref b e ->
  exists d', dictSetVal d ref v = Some d' /\ wf d' /\ pauserehash d' = pauserehash d
    /\ dict_map d' = <[key e := v]> (dict_map d).
Proof.
  intros Hwf Hv. pose proof Hv as [Hb He]. unfold dictSetVal. rewrite Hb. cbn [mbind option_bind].
  rewrite He. cbn [mbind option_bind].
  set (e' := mkEntry (key e) v). set (b' := <[ref_pos ref := e']> b).
  rewrite (set_bucket_upd _ _ b) by done. cbn [mbind option_bind].
  set (t := ref_table ref) in *. set (i := ref_idx ref) in *.
  pose proof (put_bucket_entries d t i b b' (used (get_ht d t)) Hb) as HP.
  set (d' := put_bucket d t i b' (used (get_ht d t))) in *.
  assert (HP' : e :: entries d' ≡ₚ e' :: entries d).
  { apply (Permutation_app_inv_r (delete (ref_pos ref) b)).
    transitivity (entries d' ++ b); [rewrite (delete_Permutation b _ _ He) at 2; solve_Permutation|].
    rewrite HP. unfold b'. rewrite (delete_Permutation (<[ref_pos ref := e']> b) (ref_pos ref) e')
      by (apply list_lookup_insert_eq; eauto using lookup_lt_Some).
    rewrite list_delete_insert_eq. solve_Permutation. }
  pose proof (valid_ref_elem _ _ _ _ Hv) as Hin. apply elem_of_Permutation in Hin as [R HR].
  assert (HR' : entries d' ≡ₚ e' :: R).
  { apply (Permutation_cons_inv (a := e)). rewrite HP', HR. apply Permutation_swap. }
  pose proof (wf_nodup _ Hwf) as Hnd. pose proof (wf_bound _ Hwf) as HB.
  rewrite HR in HB.
  assert (Hnd' : NoDup (key <$> e :: R)) by (rewrite <- HR; done).
  exists d'. split; [done|]. split; [|split; [by destruct t|]].
  - apply (put_bucket_wf d t i b); [done|done| | | | |].
    + intros x (j & [(_ & <- & _)|[_ Hj]]%list_lookup_insert_Some)%list_elem_of_lookup.
      * cbn. apply (valid_ref_idx d ref b e); [done|done|]. eapply list_elem_of_lookup_2; eauto.
      * apply (valid_ref_idx d ref b e); [done|done|]. eapply list_elem_of_lookup_2; eauto.
    + intros ->. done.
    + unfold b'. rewrite length_insert. lia.
    + fold d'. rewrite HR'. done.
    + fold d'. rewrite HR'. done.
  - unfold dict_map. rewrite (map_of_perm (e' :: R) (entries d')), (map_of_perm (e :: R) (entries d)) by done.
    rewrite !map_of_cons. cbn. by rewrite insert_insert_eq.
Qed.

(** Unlinking an entry. *)
Lemma unlink_ok d ref b e : wf d -> valid_ref d ref b e ->
  let t := ref_table ref in
  let d' := put_bucket d t (ref_idx ref) (delete (ref_pos ref) b) (used (get_ht d t) - 1) in
  wf d' /\ pauserehash d' = pauserehash d /\ e :: entries d' ≡ₚ entries d
  /\ dict_map d' = delete (key e) (dict_map d).
Proof.
  intros Hwf Hv t d'. pose proof Hv as [Hb He]. fold t in Hb.
  set (b' := delete (ref_pos ref) b) in *.
  pose proof (put_bucket_entries d t _ b b' (used (get_ht d t) - 1) Hb) as HP. fold d' in HP.
  pose proof (delete_Permutation b _ _ He) as Hdel. fold b' in Hdel.
  assert (HP' : e :: entries d' ≡ₚ entries d).
  { apply (Permutation_app_inv_r b'). rewrite <- HP, Hdel. solve_Permutation. }
  pose proof (wf_nodup _ Hwf) as Hnd. pose proof (wf_bound _ Hwf) as HB.
  rewrite <- HP' in HB. rewrite <- HP', fmap_cons in Hnd. cbn [length] in HB.
  pose proof (Permutation_length Hdel) as Hlen. cbn [length] in Hlen.
  apply NoDup_cons in Hnd as [Hni Hnd].
  split; [|split; [by destruct t|split; [done|]]].
  - apply (put_bucket_wf d t _ b); [done|done| | | |done|].
    + intros x Hx. apply (valid_ref_idx d ref b e); [done|done|]. rewrite Hdel. set_solver.
    + intros ->. done.
    + lia.
    + fold d'. lia.
  - unfold dict_map. rewrite <- (map_of_perm (entries d) (e :: entries d')) by (try apply Hwf; done).
    rewrite map_of_cons, delete_insert_id; [done|]. by apply map_of_None.
Qed.

(** ** Growing *)

Lemma nextPower_loop_spec sz fuel : forall e, 0 <= e -> e + Z.of_nat fuel = 64 -> 0 < Z.of_nat fuel ->
  sz <= 2 ^ 63 ->
  exists e', nextPower_loop fuel (2 ^ e) sz = Some (2 ^ e') /\ e <= e' <= 63 /\ sz <= 2 ^ e'
    /\ (e' = e \/ 2 ^ (e' - 1) < sz).
Proof.
  induction fuel as [|fuel IH]; intros e He Hf Hpos Hsz; [lia|]. cbn [nextPower_loop].
  destruct (2 ^ e >=? sz) eqn:E.
  - exists e. split; [done|]. lia.
  - assert (e <> 63) by (intros ->; lia).
    pose proof (Z.pow_lt_mono_r 2 (e + 1) 64).
    assert (Hp : 2 ^ (e + 1) = 2 * 2 ^ e) by (rewrite Z.pow_add_r by lia; lia).
    replace (uwrap 64 (2 ^ e * 2)) with (2 ^ (e + 1))
      by (rewrite uwrap_small by (unfold in_u; lia); lia).
    destruct (IH (e + 1)) as (e' & -> & He' & Hle & Hmin); [lia..|].
    exists e'. split; [done|]. split; [lia|]. split; [done|]. right.
    destruct Hmin as [->|]; [|done]. replace (e + 1 - 1) with e by lia. lia.
Qed.

Lemma dictNextPower_ok sz : 0 <= sz <= 2 ^ 63 ->
  exists e, _dictNextPower sz = Some (2 ^ e) /\ 2 <= e <= 63 /\ sz <= 2 ^ e
    /\ (e = 2 \/ 2 ^ (e - 1) < sz).
Proof.
  intros Hsz. unfold _dictNextPower. destruct (sz >=? LONG_MAX) eqn:E; unfold LONG_MAX in *.
  - exists 63. split; [done|]. lia.
  - change DICT_HT_INITIAL_SIZE with (2 ^ 2). apply nextPower_loop_spec; lia.
Qed.

Lemma fresh_ht_ok e : 2 <= e <= 60 ->
  let n := mkHt (replicate (Z.to_nat (2 ^ e)) ([] : list entry)) (2 ^ e) (2 ^ e - 1) 0 in
  shaped n /\ ht_ok n /\ ht_entries n = [].
Proof.
  intros He n.
  assert (En : ht_entries n = []) by (unfold ht_entries; cbn; induction (Z.to_nat (2 ^ e)); done).
  assert (Hs : shaped n).
  { exists e. cbn. rewrite length_replicate. pose proof (Z.pow_pos_nonneg 2 e). lia. }
  split; [done|]. split; [|done]. right. split; [done|]. split.
  - intros i b x Hi Hx. cbn in Hi. apply lookup_replicate in Hi as [-> _]. by apply elem_of_nil in Hx.
  - unfold counted. by rewrite En.
Qed.

Lemma not_rehashing d : wf d -> dictIsRehashing d = false -> ht1 d = _dictReset /\ rehashidx d = -1.
Proof.
  intros Hwf Hr. pose proof (wf_rehash _ Hwf) as Ho. unfold rehash_ok in Ho. rewrite Hr in Ho.
  split; [done|]. unfold dictIsRehashing in Hr. destruct (Z.eqb_spec (rehashidx d) (-1)); done.
Qed.

(** Installing an empty table, as the first one or as the target of a rehash. *)
Lemma install_ok d e : wf d -> dictIsRehashing d = false -> 2 <= e <= 60 ->
  let n := mkHt (replicate (Z.to_nat (2 ^ e)) []) (2 ^ e) (2 ^ e - 1) 0 in
  let d' := match table (ht0 d) with [] => set_ht0 d n | _ => set_rehashidx (set_ht1 d n) 0 end in
  same_entries d d' /\ shaped (ht0 d').
Proof.
  intros Hwf Hr He n d'. destruct (fresh_ht_ok e He) as (Hs & Hok & En). fold n in Hs, Hok, En.
  destruct (not_rehashing d Hwf Hr) as [H1 Hi]. unfold d'. clear d'.
  destruct (table (ht0 d)) as [|c l] eqn:Et.
  - split; [|done].
    assert (HP : entries (set_ht0 d n) ≡ₚ entries d).
    { unfold entries. cbn [set_ht0 ht0 ht1]. rewrite En. unfold ht_entries. by rewrite Et. }
    split; [|done|done]. apply (wf_perm d); [done|done|done|apply Hwf|].
    unfold rehash_ok. change (dictIsRehashing (set_ht0 d n)) with (dictIsRehashing d). by rewrite Hr.
  - destruct (wf_ht0 _ Hwf) as [E|(Hs0 & _)]; [by rewrite E in Et|].
    split; [|done].
    assert (HP : entries (set_rehashidx (set_ht1 d n) 0) ≡ₚ entries d).
    { unfold entries. cbn [set_ht1 set_rehashidx ht0 ht1]. by rewrite En, H1, reset_entries. }
    split; [|done|done]. apply (wf_perm d); [done|done|apply Hwf|done|].
    unfold rehash_ok. cbn [dictIsRehashing set_rehashidx rehashidx set_ht1 ht0 ht1 negb Z.eqb].
    split; [done|]. split; [done|]. destruct (shaped_size _ Hs0). split; [lia|]. intros; lia.
Qed.

(** [realsize * sizeof(dictEntry ptr) < realsize] detects every overflow. *)
Lemma overflow_check e : 2 <= e <= 63 -> (uwrap 64 (2 ^ e * sizeof_ptr) <? 2 ^ e) = (60 <? e).
Proof.
  intros He. change sizeof_ptr with (2 ^ 3). rewrite <- Z.pow_add_r by lia.
  pose proof (Z.pow_pos_nonneg 2 e).
  destruct (Z.ltb_spec 60 e).
  - unfold uwrap. replace (e + 3) with (e - 61 + 64) by lia. rewrite Z.pow_add_r by lia.
    rewrite Z_mod_mult. lia.
  - pose proof (Z.pow_lt_mono_r 2 (e + 3) 64). pose proof (Z.pow_lt_mono_r 2 e (e + 3)).
    rewrite uwrap_small by (unfold in_u; lia). lia.
Qed.

(** The expansion does nothing when it fails. *)
Lemma dictExpand_keeps d sz try : wf d -> in_u 64 sz ->
  exists d' rc failed, _dictExpand d sz try = Some (d', rc, failed) /\ same_entries d d'.
Proof.
  intros Hwf Hu. pose proof (same_entries_refl d Hwf). unfold _dictExpand.
  destruct (dictIsRehashing d) eqn:Hr; cbn [orb]; [eauto|].
  destruct (used (ht0 d) >? sz); [eauto|].
  destruct (Z.le_gt_cases sz (2 ^ 63)) as [Hle|Hgt].
  2: { unfold _dictNextPower, LONG_MAX. if_true. cbn [mbind option_bind]. if_true. eauto. }
  assert (Hsz : 0 <= sz <= 2 ^ 63) by (unfold in_u in Hu; lia). clear Hle.
  destruct (dictNextPower_ok sz Hsz) as (e & -> & He & Hle & _). cbn [mbind option_bind].
  rewrite overflow_check by lia. destruct (2 ^ e <? sz); cbn [orb]; [eauto|].
  destruct (Z.ltb_spec 60 e); [eauto|]. destruct (2 ^ e =? size (ht0 d)); [eauto|].
  destruct (match try with Some ok => negb ok | None => false end); [eauto|].
  destruct (install_ok d e Hwf Hr) as [Hs _]; [lia|]. destruct (table (ht0 d)); eauto.
Qed.

(** It succeeds for a size that fits and that changes the table. *)
Lemma dictExpand_succeeds d sz : wf d -> dictIsRehashing d = false ->
  used (ht0 d) <= sz <= 2 ^ 60 -> 0 <= sz ->
  (forall p, _dictNextPower sz = Some p -> p <> size (ht0 d)) ->
  exists d', dictExpand d sz = Some (d', DICT_OK) /\ same_entries d d' /\ shaped (ht0 d').
Proof.
  intros Hwf Hr Hu H0 Hne. unfold dictExpand, _dictExpand. rewrite Hr. cbn [orb]. if_false.
  destruct (dictNextPower_ok sz) as (e & E & He & Hle & Hmin); [lia|].
  specialize (Hne _ E). rewrite E. cbn [mbind option_bind].
  assert (e <= 60).
  { destruct (Z.le_gt_cases e 60); [done|]. pose proof (Z.pow_le_mono_r 2 60 (e - 1)). lia. }
  rewrite overflow_check by lia. replace (2 ^ e <? sz) with false by lia. cbn [orb].
  if_false. if_false.
  destruct (install_ok d e Hwf Hr) as [Hs Hsh]; [lia|]. destruct (table (ht0 d)); eauto.
Qed.

Lemma expand_if_needed_ok cr d : wf d -> Z.of_nat (length (entries d)) < 2 ^ 60 ->
  exists d', _dictExpandIfNeeded cr d = Some (d', DICT_OK) /\ same_entries d d' /\ shaped (ht0 d').
Proof.
  intros Hwf HB. unfold _dictExpandIfNeeded. destruct (wf_used d Hwf) as (U0 & U1 & U).
  destruct (dictIsRehashing d) eqn:Hr.
  { destruct (rehashing_ok d Hwf Hr) as (Hs & _). eauto using same_entries_refl. }
  destruct (wf_ht0 _ Hwf) as [E|(Hs & _)].
  - assert (size (ht0 d) = 0) by (rewrite E; done). if_true.
    apply dictExpand_succeeds; [done|done| |done|].
    + rewrite E. cbn. done.
    + intros p Hp. rewrite E. cbn in Hp. injection Hp as <-. done.
  - destruct (shaped_size _ Hs) as [_ Hsz]. if_false.
    destruct (_ && _) eqn:Hc; [|eauto using same_entries_refl].
    unfold dictTypeExpandAllowed.
    destruct (dictNextPower_ok (used (ht0 d) + 1)) as (e & E & He & Hle & _); [lia|].
    rewrite E. cbn [mbind option_bind]. destruct (expandAllowed _ _ _); [|eauto using same_entries_refl].
    rewrite uwrap_small by (unfold in_u; lia).
    apply dictExpand_succeeds; [done|done|lia|lia|]. intros p Hp. rewrite E in Hp. injection Hp as <-. lia.
Qed.

(** ** The operations *)

Lemma elem_None d k : wf d -> k ∉ key <$> entries d <-> dict_map d !! k = None.
Proof. intros _. symmetry. apply map_of_None. Qed.

(** [dictAddRaw]: either the key exists and its entry is returned, or a fresh
    entry is in the map. *)
Lemma dictAddRaw_ok cr d k : wf d -> Z.of_nat (length (entries d)) < 2 ^ 60 ->
  exists d' new old, dictAddRaw cr d k = Some (d', new, old) /\ wf d' /\ pauserehash d' = pauserehash d
    /\ ((dict_map d !! k = None /\ old = None /\ dict_map d' = <[k := inhabitant]> (dict_map d)
         /\ exists ref b e, new = Some ref /\ valid_ref d' ref b e /\ key e = k)
       \/ (is_Some (dict_map d !! k) /\ new = None /\ dict_map d' = dict_map d
           /\ exists ref b e, old = Some ref /\ valid_ref d' ref b e /\ key e = k)).
Proof.
  intros Hwf HB. unfold dictAddRaw, _dictKeyIndex.
  destruct (rehash_step_ok d Hwf) as (d1 & -> & Hs1). cbn [mbind option_bind].
  pose proof (se_wf _ _ Hs1) as Hwf1.
  destruct (expand_if_needed_ok cr d1 Hwf1) as (d2 & -> & Hs2 & Hsh); [by rewrite (se_entries _ _ Hs1)|].
  cbn [mbind option_bind Z.eqb DICT_OK DICT_ERR]. pose proof (se_wf _ _ Hs2) as Hwf2.
  pose proof (same_entries_trans _ _ _ Hs1 Hs2) as Hs. destruct Hs as [_ HP Hpa].
  pose proof (same_entries_map d d2 Hwf (same_entries_trans _ _ _ Hs1 Hs2)) as Hmap.
  destruct (find_ref_spec d2 k Hwf2 Hsh) as [(ref & b & e & -> & Hv & He) | [-> Hni]]; cbn [mbind option_bind].
  - eexists d2, None, (Some ref). split; [done|]. split; [done|]. split; [done|]. right.
    split; [|eauto 10]. rewrite <- Hmap, <- He. erewrite valid_ref_map by eauto. done.
  - set (t := dictIsRehashing d2) in *.
    assert (Hsht : shaped (get_ht d2 t)).
    { unfold t. destruct (dictIsRehashing d2) eqn:Hr; [|done]. by destruct (rehashing_ok d2 Hwf2 Hr) as (_ & ? & _). }
    destruct (key_bucket d2 t k Hsht) as [b Hb]. set (i := key_idx d2 t k) in *.
    pose proof (bucket_lt _ _ _ Hb). if_false. rewrite Hb. cbn [mbind option_bind].
    rewrite (set_bucket_upd _ _ b) by done. cbn [mbind option_bind upd used].
    destruct (wf_used d2 Hwf2) as (U0 & U1 & U). rewrite HP in U.
    set (n := mkEntry k inhabitant : entry).
    set (d3 := put_bucket d2 t i (n :: b) (used (get_ht d2 t) + 1)).
    assert (E3 : set_ht d2 t (set_used (upd (get_ht d2 t) i (n :: b)) (used (get_ht d2 t) + 1)) = d3).
    { unfold d3, put_bucket, set_used. cbn [used upd table size sizemask].
      rewrite uwrap_small by (unfold in_u; destruct t; cbn [get_ht]; lia). done. }
    fold n. rewrite E3. exists d3, (Some (mkRef t i 0)), None. split; [done|].
    pose proof (put_bucket_entries d2 t i b (n :: b) (used (get_ht d2 t) + 1) Hb) as HP3. fold d3 in HP3.
    assert (HP3' : entries d3 ≡ₚ n :: entries d2).
    { apply (Permutation_app_inv_r b). rewrite HP3. solve_Permutation. }
    assert (Hnd3 : NoDup (key <$> entries d3)).
    { rewrite HP3', fmap_cons. apply NoDup_cons. split; [done|apply Hwf2]. }
    split; [|split; [by destruct t|]].
    + apply (put_bucket_wf d2 t i b); [done|done| |done| |done|].
      * intros x [->|Hx]%elem_of_cons; [done|]. destruct (bucket_ok _ _ _ _ Hwf2 Hb) as (_ & Hp & _).
        apply bucket_lookup in Hb as [H0 Hb]. pose proof (Hp _ _ _ Hb Hx). unfold key_idx. lia.
      * cbn [length]. lia.
      * fold d3. rewrite HP3'. cbn [length]. rewrite HP. lia.
    + left. split; [by rewrite <- Hmap; apply map_of_None|]. split; [done|]. split.
      * rewrite <- Hmap. unfold dict_map. rewrite (map_of_perm (n :: entries d2)); [done| |done].
        by rewrite <- HP3'.
      * exists (mkRef t i 0), (n :: b), n. split; [done|]. split; [|done]. split; [|done].
        apply bucket_lookup. split; [cbn; lia|]. unfold d3, put_bucket.
        destruct t; cbn [get_ht set_ht set_ht0 set_ht1 ht0 ht1 ref_table ref_idx table] in *;
          apply list_lookup_insert_eq; lia.
Qed.

Lemma dictAdd_ok cr d k v : wf d -> Z.of_nat (length (entries d)) < 2 ^ 60 ->
  exists d', wf d' /\ pauserehash d' = pauserehash d
  /\ match dict_map d !! k with
     | Some _ => dictAdd cr d k v = Some (d', DICT_ERR) /\ dict_map d' = dict_map d
     | None => dictAdd cr d k v = Some (d', DICT_OK) /\ dict_map d' = <[k := v]> (dict_map d)
     end.
Proof.
  intros Hwf HB. unfold dictAdd.
  destruct (dictAddRaw_ok cr d k Hwf HB) as (d1 & new & old & -> & Hwf1 & Hpa & Hcase).
  cbn [mbind option_bind].
  destruct Hcase as [(Hno & -> & Hm & ref & b & e & -> & Hv & <-) | ([x Hyes] & -> & Hm & _)].
  - rewrite Hno. destruct (dictSetVal_ok d1 ref b e v Hwf1 Hv) as (d2 & -> & Hwf2 & Hpa2 & Hm2).
    exists d2. split; [done|]. split; [congruence|]. cbn. split; [done|].
    by rewrite Hm2, Hm, insert_insert_eq.
  - rewrite Hyes. eauto.
Qed.

Lemma dictReplace_ok cr d k v : wf d -> Z.of_nat (length (entries d)) < 2 ^ 60 ->
  exists d', wf d' /\ pauserehash d' = pauserehash d /\ dict_map d' = <[k := v]> (dict_map d)
  /\ dictReplace cr d k v = Some (d', match dict_map d !! k with Some _ => 0 | None => 1 end).
Proof.
  intros Hwf HB. unfold dictReplace.
  destruct (dictAddRaw_ok cr d k Hwf HB) as (d1 & new & old & -> & Hwf1 & Hpa & Hcase).
  cbn [mbind option_bind].
  destruct Hcase as [(Hno & -> & Hm & ref & b & e & -> & Hv & <-) | ([x Hyes] & -> & Hm & ref & b & e & -> & Hv & <-)];
    destruct (dictSetVal_ok d1 ref b e v Hwf1 Hv) as (d2 & E2 & Hwf2 & Hpa2 & Hm2);
    exists d2; (split; [done|]); (split; [congruence|]); rewrite Hm2, Hm.
  - rewrite insert_insert_eq, Hno, E2. done.
  - rewrite Hyes. cbn [mbind option_bind]. rewrite E2. done.
Qed.

Lemma empty_map d : wf d -> used (ht0 d) = 0 -> used (ht1 d) = 0 -> dict_map d = ∅.
Proof.
  intros Hwf H0 H1. destruct (wf_used d Hwf) as (_ & _ & U). unfold dict_map.
  rewrite (nil_length_inv (entries d)) by lia. done.
Qed.

Lemma nonempty_shaped d : wf d -> used (ht0 d) + used (ht1 d) <> 0 -> shaped (ht0 d).
Proof.
  intros Hwf Hu. destruct (dictIsRehashing d) eqn:Hr.
  - by destruct (rehashing_ok d Hwf Hr).
  - destruct (not_rehashing d Hwf Hr) as [H1 _]. rewrite H1 in Hu. cbn in Hu.
    destruct (wf_ht0 _ Hwf) as [E|[? _]]; [|done]. rewrite E in Hu. done.
Qed.

Lemma dictGenericDelete_ok d k : wf d ->
  exists d' he, dictGenericDelete d k = Some (d', he) /\ wf d' /\ pauserehash d' = pauserehash d
    /\ option_map pair_of he = (fun v => (k, v)) <$> dict_map d !! k
    /\ dict_map d' = delete k (dict_map d).
Proof.
  intros Hwf. unfold dictGenericDelete. destruct (wf_used d Hwf) as (U0 & U1 & U).
  destruct (_ && _) eqn:Hz.
  { exists d, None. rewrite (empty_map d Hwf) by lia. rewrite lookup_empty, delete_empty. done. }
  destruct (rehash_step_ok d Hwf) as (d1 & -> & Hs1). cbn [mbind option_bind].
  pose proof (same_entries_map _ _ Hwf Hs1) as Hm. destruct Hs1 as [Hwf1 HP Hpa].
  destruct (wf_used d1 Hwf1) as (V0 & V1 & HV). rewrite HP in HV.
  destruct (find_ref_spec d1 k Hwf1) as [(ref & b & e & -> & Hv & <-) | [-> Hni]];
    [apply nonempty_shaped; [done|lia]|..]; cbn [mbind option_bind].
  - pose proof Hv as [Hb He]. rewrite Hb. cbn [mbind option_bind]. rewrite He. cbn [mbind option_bind].
    rewrite (set_bucket_upd _ _ b) by done. cbn [mbind option_bind].
    destruct (unlink_ok d1 ref b e Hwf1 Hv) as (Hwf2 & Hpa2 & HP2 & Hm2).
    eexists _, (Some e). split; [|split; [exact Hwf2|split; [congruence|]]].
    + do 2 f_equal. unfold put_bucket, set_used. cbn [used upd table size sizemask].
      destruct (bucket_ok _ _ _ _ Hwf1 Hb) as (_ & _ & Hc).
      pose proof (wf_bound _ Hwf1). rewrite HP in H.
      pose proof (list_elem_of_lookup_2 _ _ _ He) as Hin. apply (bucket_entry _ _ _ _ Hb) in Hin.
      assert (1 <= used (get_ht d1 (ref_table ref)) < 2 ^ 63).
      { unfold counted in Hc. split.
        - destruct (ht_entries (get_ht d1 _)); [by apply elem_of_nil in Hin|]. cbn in Hc. lia.
        - destruct (ref_table ref); cbn [get_ht]; lia. }
      rewrite uwrap_small by (unfold in_u; lia). done.
    + split; [|by rewrite Hm2, Hm]. rewrite <- Hm, (valid_ref_map _ _ _ _ Hwf1 Hv). done.
  - apply map_of_None in Hni. fold (dict_map d1) in Hni. rewrite Hm in Hni.
    exists d1, None. rewrite Hni. split; [done|]. split; [done|]. split; [done|]. split; [done|].
    by rewrite Hm, delete_id.
Qed.

Lemma dictFindRef_ok d k : wf d ->
  exists d' r, dictFindRef d k = Some (d', r) /\ same_entries d d'
    /\ match dict_map d !! k with
       | Some v => exists ref b, r = Some ref /\ valid_ref d' ref b (mkEntry k v)
       | None => r = None
       end.
Proof.
  intros Hwf. unfold dictFindRef, dictSize. destruct (wf_used d Hwf) as (U0 & U1 & U).
  pose proof (wf_bound _ Hwf). rewrite uwrap_small by (unfold in_u; lia).
  destruct (_ =? 0) eqn:Hz.
  { exists d, None. rewrite (empty_map d Hwf) by lia. rewrite lookup_empty. eauto using same_entries_refl. }
  destruct (rehash_step_ok d Hwf) as (d1 & -> & Hs1). cbn [mbind option_bind].
  pose proof (same_entries_map _ _ Hwf Hs1) as Hm. pose proof Hs1 as [Hwf1 HP _].
  destruct (wf_used d1 Hwf1) as (V0 & V1 & HV). rewrite HP in HV.
  destruct (find_ref_spec d1 k Hwf1) as [(ref & b & [ek ev] & -> & Hv & <-) | [-> Hni]];
    [apply nonempty_shaped; [done|lia]|..]; cbn [mbind option_bind].
  - exists d1, (Some ref). split; [done|]. split; [done|]. rewrite <- Hm, (valid_ref_map _ _ _ _ Hwf1 Hv). cbn. eauto.
  - apply map_of_None in Hni. fold (dict_map d1) in Hni. rewrite Hm in Hni.
    exists d1, None. by rewrite Hni.
Qed.

Lemma dictFind_ok d k : wf d ->
  exists d' he, dictFind d k = Some (d', he) /\ same_entries d d'
    /\ option_map pair_of he = (fun v => (k, v)) <$> dict_map d !! k.
Proof.
  intros Hwf. unfold dictFind. destruct (dictFindRef_ok d k Hwf) as (d' & r & -> & Hs & Hr). cbn [mbind option_bind].
  destruct (dict_map d !! k) as [v|].
  - destruct Hr as (ref & b & -> & Hb & He). unfold deref. rewrite Hb. cbn [mbind option_bind]. rewrite He. cbn [mbind option_bind]. eauto.
  - rewrite Hr. eauto.
Qed.

Lemma dictResize_ok cr d : wf d -> exists d' rc, dictResize cr d = Some (d', rc) /\ same_entries d d'.
Proof.
  intros Hwf. unfold dictResize, dictExpand.
  destruct (_ || _); [eauto using same_entries_refl|].
  destruct (wf_used d Hwf) as (U0 & U1 & U). pose proof (wf_bound _ Hwf).
  destruct (dictExpand_keeps d (if used (ht0 d) <? DICT_HT_INITIAL_SIZE then DICT_HT_INITIAL_SIZE else used (ht0 d)) None)
    as (d' & rc & f & -> & Hs); [done| |cbn; eauto].
  unfold in_u, DICT_HT_INITIAL_SIZE. destruct (_ <? _); lia.
Qed.

(** ** Clearing *)

Lemma clear_loop_ok n : forall i (h : ht), Z.of_nat n + i = Z.of_nat (length (table h)) -> 0 <= i ->
  used h = Z.of_nat (length (concat (drop (Z.to_nat i) (table h)))) -> used h < 2 ^ 64 ->
  exists h', clear_loop n i h = Some (h', concat (drop (Z.to_nat i) (table h))).
Proof.
  induction n as [|n IH]; intros i h Hn Hi Hu HB; cbn [clear_loop].
  { rewrite drop_ge by lia. eauto. }
  destruct (used h >? 0) eqn:Hz.
  2: { rewrite (nil_length_inv (concat (drop (Z.to_nat i) (table h)))) by lia. eauto. }
  destruct (bucket_exists h i) as [b Hb]; [lia|]. rewrite Hb. cbn [mbind option_bind].
  apply bucket_lookup in Hb as [_ Hb]. rewrite (drop_S _ _ _ Hb) in Hu |- *. cbn [concat] in *.
  rewrite length_app in Hu.
  destruct (IH (i + 1) (set_used h (used h - Z.of_nat (length b)))) as [h' E];
    cbn [set_used table used]; [lia|lia| | |].
  - rewrite uwrap_small by (unfold in_u; lia). replace (Z.to_nat (i + 1)) with (S (Z.to_nat i)) by lia. lia.
  - rewrite uwrap_small by (unfold in_u; lia). lia.
  - cbn [set_used table] in E. replace (Z.to_nat (i + 1)) with (S (Z.to_nat i)) in E by lia.
    rewrite E. cbn. eauto.
Qed.

Lemma dictClear_ok (h : ht) : ht_ok h -> used h < 2 ^ 64 -> _dictClear h = Some (_dictReset, ht_entries h).
Proof.
  intros [->|(Hs & Hp & Hc)] HB; [done|]. unfold _dictClear.
  destruct (shaped_size _ Hs) as [Hsz ?].
  destruct (clear_loop_ok (Z.to_nat (size h)) 0 h) as [h' ->]; [lia|lia|exact Hc|done|]. done.
Qed.

Lemma wf_create : wf (dictCreate : dict K V).
Proof. split; [by left|by left|done|constructor|done]. Qed.

Lemma dictEmpty_ok d : wf d -> dictEmpty d = Some (dictCreate, entries d).
Proof.
  intros Hwf. unfold dictEmpty. destruct (wf_used d Hwf) as (U0 & U1 & U). pose proof (wf_bound _ Hwf).
  rewrite (dictClear_ok (ht0 d)) by (try apply Hwf; lia). cbn [mbind option_bind].
  rewrite (dictClear_ok (ht1 d)) by (try apply Hwf; lia). done.
Qed.

(** ** Refinement: runs of commands *)

Inductive cmd :=
  | CAdd (cr : bool) (k : K) (v : V)
  | CReplace (cr : bool) (k : K) (v : V)
  | CDelete (k : K)
  | CFetch (k : K)
  | CSize
  | CResize (cr : bool)
  | CExpand (sz : Z)
  | CTryExpand (sz : Z) (alloc_ok : bool)
  | CRehash (n : nat)
  | CEmpty.

Inductive answer := Code (c : Z) | Value (v : option V) | Quiet.

Definition run_dict (d : dict K V) (c : cmd) : option (dict K V * answer) :=
  match c with
  | CAdd cr k v => '(d, rc) ← dictAdd cr d k v; Some (d, Code rc)
  | CReplace cr k v => '(d, rc) ← dictReplace cr d k v; Some (d, Code rc)
  | CDelete k => '(d, rc) ← dictDelete d k; Some (d, Code rc)
  | CFetch k => '(d, v) ← dictFetchValue d k; Some (d, Value v)
  | CSize => Some (d, Code (dictSize d))
  | CResize cr => '(d, _) ← dictResize cr d; Some (d, Quiet)
  | CExpand sz => '(d, _) ← dictExpand d sz; Some (d, Quiet)
  | CTryExpand sz ok => '(d, _) ← dictTryExpand d sz ok; Some (d, Quiet)
  | CRehash n => '(d, _) ← dictRehash d n; Some (d, Quiet)
  | CEmpty => '(d, _) ← dictEmpty d; Some (d, Quiet)
  end.

(** What the commands promise: a finite map. *)
Definition run_map (m : gmap K V) (c : cmd) : gmap K V * answer :=
  match c with
  | CAdd _ k v => match m !! k with Some _ => (m, Code DICT_ERR) | None => (<[k := v]> m, Code DICT_OK) end
  | CReplace _ k v => (<[k := v]> m, Code (match m !! k with Some _ => 0 | None => 1 end))
  | CDelete k => (delete k m, Code (match m !! k with Some _ => DICT_OK | None => DICT_ERR end))
  | CFetch k => (m, Value (m !! k))
  | CSize => (m, Code (Z.of_nat (base.size m)))
  | CEmpty => (∅, Quiet)
  | _ => (m, Quiet)
  end.

Definition cmd_ok (c : cmd) : Prop :=
  match c with CExpand sz | CTryExpand sz _ => in_u 64 sz | _ => True end.

Fixpoint run_dicts (d : dict K V) (cs : list cmd) : option (list answer) :=
  match cs with
  | [] => Some []
  | c :: cs => '(d, a) ← run_dict d c; l ← run_dicts d cs; Some (a :: l)
  end.

Fixpoint run_maps (m : gmap K V) (cs : list cmd) : list answer :=
  match cs with
  | [] => []
  | c :: cs => (run_map m c).2 :: run_maps (run_map m c).1 cs
  end.

Lemma dict_map_size d : wf d -> base.size (dict_map d) = length (entries d).
Proof.
  intros Hwf. unfold dict_map, map_of.
  rewrite <- (length_fmap pair_of (entries d)), <- length_map_to_list. apply Permutation_length.
  apply map_to_list_to_map. rewrite keys_of. apply Hwf.
Qed.

(** One command: same answer, and the states stay related. *)
Lemma run_dict_sim d c : wf d -> Z.of_nat (length (entries d)) < 2 ^ 60 -> cmd_ok c ->
  exists d', run_dict d c = Some (d', (run_map (dict_map d) c).2) /\ wf d'
    /\ dict_map d' = (run_map (dict_map d) c).1.
Proof.
  intros Hwf HB Hc. destruct c as [cr k v|cr k v|k|k| |cr|sz|sz ok|n|]; cbn [run_dict run_map].
  - destruct (dictAdd_ok cr d k v Hwf HB) as (d' & Hwf' & _ & Hm).
    destruct (dict_map d !! k); destruct Hm as [-> Hm]; cbn; eauto.
  - destruct (dictReplace_ok cr d k v Hwf HB) as (d' & Hwf' & _ & Hm & ->). cbn. eauto.
  - destruct (dictGenericDelete_ok d k Hwf) as (d' & he & E & Hwf' & _ & Hh & Hm).
    unfold dictDelete. rewrite E. exists d'. cbn. split; [|done].
    destruct he, (dict_map d !! k); done.
  - destruct (dictFind_ok d k Hwf) as (d' & he & E & Hs & Hh). unfold dictFetchValue. rewrite E.
    exists d'. cbn. split; [|split; [apply Hs|by apply same_entries_map]].
    destruct he as [[]|], (dict_map d !! k); unfold pair_of in Hh; cbn in *; congruence.
  - exists d. cbn. split; [|done]. rewrite dict_map_size by done.
    destruct (wf_used d Hwf) as (_ & _ & U). unfold dictSize. rewrite uwrap_small by (unfold in_u; lia).
    by rewrite U.
  - destruct (dictResize_ok cr d Hwf) as (d' & rc & -> & Hs). exists d'. cbn.
    split; [done|]. split; [apply Hs|by apply same_entries_map].
  - unfold dictExpand. destruct (dictExpand_keeps d sz None Hwf Hc) as (d' & rc & f & -> & Hs).
    exists d'. cbn. split; [done|]. split; [apply Hs|by apply same_entries_map].
  - unfold dictTryExpand. destruct (dictExpand_keeps d sz (Some ok) Hwf Hc) as (d' & rc & f & -> & Hs).
    exists d'. cbn. split; [done|]. split; [apply Hs|by apply same_entries_map].
  - destruct (dictRehash_ok d n Hwf) as (d' & r & -> & Hs & _). exists d'. cbn.
    split; [done|]. split; [apply Hs|by apply same_entries_map].
  - rewrite dictEmpty_ok by done. exists dictCreate. cbn. split; [done|]. split; [apply wf_create|done].
Qed.

Lemma run_map_size m c : (base.size (run_map m c).1 <= S (base.size m))%nat.
Proof.
  destruct c as [cr k v|cr k v|k|k| |cr|sz|sz ok|n|]; cbn [run_map fst]; try lia.
  - destruct (m !! k); cbn; [lia|]. rewrite map_size_insert. destruct (m !! k); cbn; lia.
  - rewrite map_size_insert. destruct (m !! k); cbn; lia.
  - rewrite map_size_delete. destruct (m !! k); cbn; lia.
  - rewrite map_size_empty. lia.
Qed.

Lemma run_dicts_sim cs : forall d, wf d -> Forall cmd_ok cs ->
  Z.of_nat (length (entries d)) + Z.of_nat (length cs) <= 2 ^ 60 ->
  run_dicts d cs = Some (run_maps (dict_map d) cs).
Proof.
  induction cs as [|c cs IH]; intros d Hwf Hok HB; cbn [run_dicts run_maps length] in *; [done|].
  apply Forall_cons in Hok as [Hc Hok].
  destruct (run_dict_sim d c Hwf) as (d' & -> & Hwf' & Hm); [lia|done|]. cbn [mbind option_bind].
  pose proof (run_map_size (dict_map d) c) as Hsz. rewrite <- Hm, !dict_map_size in Hsz by done.
  rewrite IH, Hm; [done|done|done|lia].
Qed.

(** C5: a dictionary is a finite map. Any sequence of additions, replacements,
    deletions, lookups, size queries, resizes (also with a failing allocation),
    rehash steps and clearings, run on a new dictionary, succeeds (no access
    outside a table, no failed assertion) and gives the answers of the finite
    map; the incremental rehash is invisible. *)
Theorem dict_refines_map (cs : list cmd) :
  Forall cmd_ok cs -> Z.of_nat (length cs) <= 2 ^ 60 ->
  run_dicts dictCreate cs = Some (run_maps ∅ cs).
Proof.
  intros Hok HB. rewrite run_dicts_sim; [done|apply wf_create|done|].
  change (Z.of_nat (length cs) <= 2 ^ 60). done.
Qed.

(** Rehashing terminates and loses nothing. On a well-formed dictionary
    [dictRehashMilliseconds] returns after at most [size + 2] rounds, the
    result is well-formed with the same entries, and unless time ran out (or
    rehashing is paused) the rehash is complete. *)
Theorem dictRehashMilliseconds_terminates (d : dict K V) (clock : nat -> bool) rounds :
  wf d -> size (ht0 d) + 2 <= Z.of_nat rounds ->
  exists d' r, dictRehashMilliseconds rounds clock d = Some (d', r)
    /\ wf d' /\ entries d' ≡ₚ entries d
    /\ (pauserehash d <= 0 -> (forall j, clock j = false) -> dictIsRehashing d' = false).
Proof.
  intros Hwf Hr. unfold dictRehashMilliseconds. destruct (Z.gtb_spec (pauserehash d) 0).
  { exists d, 0. split; [done|]. split; [done|]. split; [done|lia]. }
  destruct (rehash_ms_ok rounds clock 0 d 0 Hwf) as (d' & r & E & Hs & Hend).
  - intros Hon. destruct (rehashing_ok d Hwf Hon) as (_ & _ & ? & _). lia.
  - destruct (wf_ht0 _ Hwf) as [E|(Hs & _)]; [rewrite E in Hr; cbn in Hr; lia|].
    destruct (shaped_size _ Hs). lia.
  - exists d', r. split; [done|]. split; [apply Hs|]. split; [apply Hs|]. auto.
Qed.

(** Table sizes. For every [unsigned long] request the size computed is a
    power of two between 4 and 2^63, it is the least such size that is not
    below the request, and only a request above 2^63 is not met. *)
Theorem dictNextPower_spec sz : in_u 64 sz ->
  exists e, _dictNextPower sz = Some (2 ^ e) /\ DICT_HT_INITIAL_SIZE <= 2 ^ e <= 2 ^ 63
    /\ (sz <= 2 ^ 63 -> sz <= 2 ^ e)
    /\ (forall e', DICT_HT_INITIAL_SIZE <= 2 ^ e' -> sz <= 2 ^ e' -> 2 ^ e <= 2 ^ e' \/ 63 <= e').
Proof.
  unfold in_u. intros Hsz. destruct (Z.le_gt_cases sz (2 ^ 63)).
  - destruct (dictNextPower_ok sz) as (e & E & He & Hle & Hmin); [lia|].
    exists e. split; [done|]. split; [change DICT_HT_INITIAL_SIZE with (2 ^ 2); split; apply Z.pow_le_mono_r; lia|].
    split; [done|]. intros e' He' Hle'. left.
    destruct Hmin as [->|Hmin]; [done|]. destruct (Z.le_gt_cases (2 ^ e) (2 ^ e')) as [|Hgt]; [done|].
    apply Z.pow_lt_mono_r_iff in Hgt; [|lia|lia]. pose proof (Z.pow_le_mono_r 2 e' (e - 1)). lia.
  - exists 63. unfold _dictNextPower, LONG_MAX. if_true. split; [done|]. split; [done|]. split; [lia|].
    intros e' He' Hle. right. destruct (Z.le_gt_cases 63 e'); [done|].
    pose proof (Z.pow_le_mono_r 2 e' 63). lia.
Qed.
End rehash.
End invariant.

(** ** Concrete runs: 64-bit keys that hash to themselves. *)

Record key64 := Key64 { key64_val : Z; key64_ok : (0 <=? key64_val) && (key64_val <? 2 ^ 64) = true }.

Lemma key64_eq a b : key64_val a = key64_val b -> a = b.
Proof. destruct a as [x p], b as [y q]. cbn. intros <-. f_equal. apply proof_irrel. Qed.

#[export] Instance key64_dec : EqDecision key64.
Proof.
  intros a b. destruct (decide (key64_val a = key64_val b)) as [E|E].
  - left. by apply key64_eq.
  - right. congruence.
Defined.

Definition key64_of (z : Z) : option key64 :=
  match bool_dec ((0 <=? z) && (z <? 2 ^ 64)) true with left p => Some (Key64 z p) | right _ => None end.

#[export] Instance key64_countable : Countable key64.
Proof.
  apply (inj_countable key64_val key64_of).
  intros [z p]. unfold key64_of. cbn. destruct (bool_dec _ _) as [q|]; [|congruence].
  f_equal. by apply key64_eq.
Defined.

#[export] Instance key64_type : DictType key64 := {
  hashFunction := key64_val;
  keyCompare a b := key64_val a =? key64_val b;
  expandAllowed _ _ _ := true
}.

#[export] Instance key64_type_ok : DictTypeOk key64.
Proof.
  split.
  - intros [z p]. cbn. lia.
  - intros a b. cbn. rewrite Z.eqb_eq. split; [apply key64_eq|congruence].
Qed.

Abbreviation k64 z := (Key64 z eq_refl).

(** Five keys trigger a rehash from 4 to 8 buckets; 4 and 8 collide in both. *)
Definition sample_cmds : list (cmd (K := key64) (V := Z)) :=
  [CAdd true (k64 0) 10; CAdd true (k64 4) 11; CAdd true (k64 8) 12; CAdd true (k64 3) 13;
   CAdd true (k64 3) 14; CAdd true (k64 7) 15; CDelete (k64 4); CReplace true (k64 8) 16;
   CFetch (k64 8); CSize; CResize true; CRehash 100; CFetch (k64 4); CFetch (k64 7);
   CTryExpand 100 false; CExpand 100; CRehash 1; CSize].

Lemma dict_refines_map_witness :
  Forall cmd_ok sample_cmds /\ run_dicts dictCreate sample_cmds = Some (run_maps ∅ sample_cmds).
Proof.
  assert (H : Forall cmd_ok sample_cmds).
  { repeat (apply Forall_cons_2; [first [exact I | unfold cmd_ok, in_u; lia]|]). apply Forall_nil_2. }
  split; [exact H|]. apply (dict_refines_map sample_cmds H). vm_compute. discriminate.
Defined.

Definition sample_dict : dict key64 Z :=
  let h := mkHt [[mkEntry (k64 4) 40; mkEntry (k64 0) 0]; []; []; [mkEntry (k64 3) 30]] 4 3 3 in
  mkDict h (mkHt (replicate 8 []) 8 7 0) 0 0.

Lemma sample_dict_wf : wf sample_dict.
Proof.
  split.
  - right. split; [exists 2; done|]. split; [|done].
    intros i b x Hi Hx. do 4 (destruct i as [|i]; [cbn in Hi; injection Hi as <-; set_unfold;
      repeat (destruct Hx as [->|Hx]); done|]). done.
  - right. split; [exists 3; done|]. split; [|done].
    intros i b x Hi Hx. apply lookup_replicate in Hi as [-> _]. by apply elem_of_nil in Hx.
  - split; [exists 2; done|]. split; [exists 3; done|]. split; [done|]. intros. cbn in *. lia.
  - cbn. repeat (constructor; [set_unfold; intuition congruence|]). constructor.
  - done.
Qed.

Lemma dictRehashMilliseconds_terminates_witness :
  wf sample_dict /\ exists d' r, dictRehashMilliseconds 6 (fun _ => false) sample_dict = Some (d', r)
    /\ wf d' /\ entries d' ≡ₚ entries sample_dict
    /\ (pauserehash sample_dict <= 0 -> (forall j : nat, (fun _ => false) j = false) -> dictIsRehashing d' = false).
Proof.
  split; [exact sample_dict_wf|].
  apply (dictRehashMilliseconds_terminates sample_dict (fun _ => false) 6 sample_dict_wf).
  vm_compute. discriminate.
Defined.

Lemma dictNextPower_spec_witness : in_u 64 1000 /\
  exists e, _dictNextPower 1000 = Some (2 ^ e) /\ DICT_HT_INITIAL_SIZE <= 2 ^ e <= 2 ^ 63
    /\ (1000 <= 2 ^ 63 -> 1000 <= 2 ^ e)
    /\ (forall e', DICT_HT_INITIAL_SIZE <= 2 ^ e' -> 1000 <= 2 ^ e' -> 2 ^ e <= 2 ^ e' \/ 63 <= e').
Proof. assert (H : in_u 64 1000) by (unfold in_u; lia). split; [exact H|]. apply (dictNextPower_spec 1000 H). Defined.
