(* ===== verification/DictScan.v ===== *)
(** Traversals of a dictionary: the stateless cursor scan ([dictScan], [rev]),
    the iterators ([dictNext]) and random selection ([dictGetRandomKey]) of
    [dict.c].

    The scan theorem is the guarantee of [dictScan]'s comment: whatever happens
    to the tables between calls, an element present during the whole scan is
    returned. The argument orders hashes by their reversed bits: a cursor [v]
    has visited everything below [rev v]. *)
From stdpp Require Import gmap.
From S2P Require Import Prelude Dict DictMap.
Open Scope Z_scope.

(** ** Reversing bits *)

Definition lnot64 (m : Z) : Z := uwrap 64 (Z.lnot m).

(** [v = ((v >> s) & mask) | ((v << s) & ~mask)]. *)
Definition swap_step (s mask v : Z) : Z :=
  Z.lor (Z.land (Z.shiftr v s) mask) (Z.land (uwrap 64 (Z.shiftl v s)) (lnot64 mask)).

(** [while ((s >>= 1) > 0)]: six iterations from [s = 64]. *)
Fixpoint rev_loop (fuel : nat) (s mask v : Z) : option Z :=
  match fuel with
  | O => None
  | S fuel =>
    let s := Z.shiftr s 1 in
    if s >? 0 then
      let mask := Z.lxor mask (uwrap 64 (Z.shiftl mask s)) in
      rev_loop fuel s mask (swap_step s mask v)
    else Some v
  end.

Definition rev (v : Z) : Z := default 0 (rev_loop 7 64 (2 ^ 64 - 1) v).

(** [v |= ~m; v = rev(v); v++; v = rev(v);] *)
Definition incr_cursor (v m : Z) : Z := rev (uwrap 64 (rev (Z.lor v (lnot64 m)) + 1)).

Section scan.
Context {K V : Type} `{EK : EqDecision K, CK : !Countable K} `{DT : DictType K} `{IV : Inhabited V}.

Abbreviation ht := (dictht K V) (only parsing).
Abbreviation entry := (dictEntry K V) (only parsing).

(** [do { ... } while (v & (m0 ^ m1))]: the cursor and the entries emitted. *)
Fixpoint expand_loop (fuel : nat) (t1 : ht) (m0 m1 v : Z) : option (Z * list entry) :=
  match fuel with
  | O => None
  | S fuel =>
    b ← bucket t1 (Z.land v m1);
    let v := incr_cursor v m1 in
    if Z.land v (Z.lxor m0 m1) =? 0 then Some (v, b)
    else '(v, l) ← expand_loop fuel t1 m0 m1 v; Some (v, b ++ l)
  end.

(** The entries passed to the callback, in order, and the next cursor. *)
Definition dictScan (d : dict K V) (v : Z) : option (dict K V * Z * list entry) :=
  if dictSize d =? 0 then Some (d, 0, [])
  else
    let d := dictPauseRehashing d in
    '(v, l) ←
      (if negb (dictIsRehashing d) then
         let t0 := ht0 d in
         let m0 := sizemask t0 in
         b ← bucket t0 (Z.land v m0);
         Some (incr_cursor v m0, b)
       else
         let '(t0, t1) := if size (ht0 d) >? size (ht1 d) then (ht1 d, ht0 d) else (ht0 d, ht1 d) in
         let m0 := sizemask t0 in
         let m1 := sizemask t1 in
         b ← bucket t0 (Z.land v m0);
         '(v, l) ← expand_loop (length (table t1)) t1 m0 m1 v;
         Some (v, b ++ l));
    Some (dictResumeRehashing d, v, l).
End scan.

(** ** [rev] is the reversal of the 64 bits *)

Lemma uwrap_bit i x : 0 <= i < 64 -> Z.testbit (uwrap 64 x) i = Z.testbit x i.
Proof. intros. unfold uwrap. apply Z.mod_pow2_bits_low. lia. Qed.

Lemma lnot64_bit m i : 0 <= i < 64 -> Z.testbit (lnot64 m) i = negb (Z.testbit m i).
Proof. intros. unfold lnot64. rewrite uwrap_bit by done. apply Z.lnot_spec. lia. Qed.

Lemma lnot64_range m : in_u 64 (lnot64 m).
Proof. unfold in_u, lnot64, uwrap. apply Z.mod_pos_bound. lia. Qed.

Lemma land_range_r x y : 0 <= x -> in_u 64 y -> in_u 64 (Z.land x y).
Proof.
  intros Hx Hy. apply in_u_bits; [done|apply Z.land_nonneg; auto|].
  intros i Hi. rewrite Z.land_spec, (in_u_high 64 y) by (done || lia). apply andb_false_r.
Qed.

Lemma swap_step_range s mask v : in_u 64 mask -> 0 <= v -> in_u 64 (swap_step s mask v).
Proof.
  intros Hm Hv. apply lor_range; [done|..].
  - apply land_range_r; [by apply Z.shiftr_nonneg|done].
  - apply land_range_r; [|apply lnot64_range]. unfold uwrap. apply Z.mod_pos_bound. lia.
Qed.

(** The bit that ends up at position [i]. *)
Definition swap_src (s mask i : Z) : Z := if Z.testbit mask i then i + s else i - s.

Lemma swap_step_bit s mask v i : 0 <= s -> 0 <= i < 64 ->
  Z.testbit (swap_step s mask v) i = Z.testbit v (swap_src s mask i).
Proof.
  intros Hs Hi. unfold swap_step, swap_src.
  rewrite Z.lor_spec, !Z.land_spec, Z.shiftr_spec, uwrap_bit, Z.shiftl_spec, lnot64_bit by lia.
  destruct (Z.testbit mask i); cbn; by rewrite ?andb_true_r, ?andb_false_r, ?orb_false_r.
Qed.

Definition rev_masks : list (Z * Z) :=
  [(32, 0xFFFFFFFF); (16, 0x0000FFFF0000FFFF); (8, 0x00FF00FF00FF00FF);
   (4, 0x0F0F0F0F0F0F0F0F); (2, 0x3333333333333333); (1, 0x5555555555555555)].

Lemma rev_unfold v : rev v = foldl (fun v '(s, m) => swap_step s m v) v rev_masks.
Proof. reflexivity. Qed.

Lemma rev_range v : 0 <= v -> in_u 64 (rev v).
Proof.
  intros Hv. rewrite rev_unfold. unfold rev_masks. cbn [foldl].
  repeat (apply swap_step_range; [unfold in_u; lia|]; try done;
          match goal with |- 0 <= swap_step ?s ?m ?w =>
            cut (in_u 64 (swap_step s m w)); [unfold in_u; lia|] end).
Qed.

Lemma swap_chain (l : list (Z * Z)) : forall v i,
  Forall (fun p => 0 <= p.1) l ->
  (forall n, (n <= length l)%nat ->
     0 <= foldr (fun '(s, m) i => swap_src s m i) i (drop n l) < 64) ->
  Z.testbit (foldl (fun v '(s, m) => swap_step s m v) v l) i
  = Z.testbit v (foldr (fun '(s, m) i => swap_src s m i) i l).
Proof.
  induction l as [|[s m] l IH]; intros v i Hs Hr; [done|]. cbn [foldl foldr].
  apply Forall_cons in Hs as [Hs0 Hs]. rewrite IH; [|done|].
  - apply swap_step_bit; [done|]. exact (Hr 1%nat ltac:(cbn; lia)).
  - intros n Hn. exact (Hr (S n) ltac:(cbn; lia)).
Qed.

Lemma rev_bit v i : 0 <= i < 64 -> Z.testbit (rev v) i = Z.testbit v (63 - i).
Proof.
  intros Hi. rewrite rev_unfold.
  assert (Hall : Forall (fun i => (forall n, (n <= 6)%nat ->
      0 <= foldr (fun '(s, m) i => swap_src s m i) i (drop n rev_masks) < 64)
      /\ foldr (fun '(s, m) i => swap_src s m i) i rev_masks = 63 - i)
    (Z.of_nat <$> seq 0 64)).
  { cbn [seq fmap list_fmap].
    repeat (apply Forall_cons_2; [split; [intros n Hn; do 7 (destruct n as [|n]; [vm_compute; split; congruence|]); lia|reflexivity]|]).
    apply Forall_nil_2. }
  rewrite Forall_forall in Hall. destruct (Hall i) as [H1 H2].
  { apply list_elem_of_fmap. exists (Z.to_nat i). split; [lia|]. apply elem_of_seq. lia. }
  rewrite swap_chain; [by rewrite H2| |exact H1].
  repeat (apply Forall_cons_2; [cbn; lia|]). apply Forall_nil_2.
Qed.

Lemma rev_rev v : in_u 64 v -> rev (rev v) = v.
Proof.
  intros Hv. assert (in_u 64 (rev v)) by (apply rev_range; unfold in_u in Hv; lia).
  apply (bits_eq 64); [done|apply rev_range; unfold in_u in *; lia|done|].
  intros i Hi. rewrite !rev_bit by lia. f_equal. lia.
Qed.

Lemma rev_zero v : in_u 64 v -> rev v = 0 -> v = 0.
Proof. intros Hv E. rewrite <- (rev_rev v Hv), E. reflexivity. Qed.

(** ** The order of the cursor *)

(** The width of the block of reversed hashes that share the low [e] bits. *)
Definition block (e : Z) : Z := 2 ^ (64 - e).

Lemma block_pos e : 0 <= e <= 64 -> 0 < block e.
Proof. intros. unfold block. apply Z.pow_pos_nonneg; lia. Qed.

Lemma lor_ones_succ x k : 0 <= k -> 0 <= x -> Z.lor x (Z.ones k) + 1 = (x / 2 ^ k + 1) * 2 ^ k.
Proof.
  intros Hk Hx. pose proof (Z.pow_pos_nonneg 2 k).
  rewrite (Z.div_mod (Z.lor x (Z.ones k)) (2 ^ k)) by lia.
  replace (Z.lor x (Z.ones k) / 2 ^ k) with (x / 2 ^ k).
  - rewrite <- Z.land_ones by lia. replace (Z.land (Z.lor x (Z.ones k)) (Z.ones k)) with (Z.ones k).
    + rewrite Z.ones_equiv. lia.
    + apply Z.bits_inj'. intros i Hi. rewrite Z.land_spec, Z.lor_spec. destruct (Z.testbit (Z.ones k) i); [|by rewrite andb_false_r].
      by rewrite orb_true_r.
  - rewrite <- !Z.shiftr_div_pow2 by lia. apply Z.bits_inj'. intros i Hi.
    rewrite !Z.shiftr_spec, Z.lor_spec by lia.
    rewrite (Z.ones_spec_high k (i + k)) by lia. by rewrite orb_false_r.
Qed.

Lemma rev_fill v e : in_u 64 v -> 0 <= e <= 64 ->
  rev (Z.lor v (lnot64 (2 ^ e - 1))) = Z.lor (rev v) (Z.ones (64 - e)).
Proof.
  intros Hv He. assert (Hr : in_u 64 (rev v)) by (apply rev_range; unfold in_u in Hv; lia).
  assert (Hl : in_u 64 (Z.lor v (lnot64 (2 ^ e - 1)))) by (apply lor_range; [done|done|apply lnot64_range]).
  assert (Ho : in_u 64 (Z.ones (64 - e))).
  { unfold in_u. rewrite Z.ones_equiv. pose proof (Z.pow_pos_nonneg 2 (64 - e)).
    pose proof (Z.pow_le_mono_r 2 (64 - e) 64). lia. }
  apply (bits_eq 64); [done|apply rev_range; unfold in_u in Hl; lia|by apply lor_range|].
  intros i Hi. rewrite rev_bit, !Z.lor_spec, lnot64_bit, rev_bit by lia. f_equal.
  replace (2 ^ e - 1) with (Z.ones e) by (rewrite Z.ones_equiv; lia).
  destruct (Z.lt_ge_cases i (64 - e)).
  - rewrite (Z.ones_spec_low (64 - e)), (Z.ones_spec_high e) by lia. done.
  - rewrite (Z.ones_spec_high (64 - e)), (Z.ones_spec_low e) by lia. done.
Qed.

(** Incrementing the cursor moves to the next block. *)
Lemma rev_incr v e : in_u 64 v -> 0 <= e <= 64 ->
  in_u 64 (incr_cursor v (2 ^ e - 1))
  /\ rev (incr_cursor v (2 ^ e - 1)) = uwrap 64 ((rev v / block e + 1) * block e).
Proof.
  intros Hv He. unfold incr_cursor. rewrite rev_fill by done.
  assert (Hr : in_u 64 (rev v)) by (apply rev_range; unfold in_u in Hv; lia).
  rewrite lor_ones_succ by (unfold in_u in Hr; lia). fold (block e).
  assert (Hu : in_u 64 (uwrap 64 ((rev v / block e + 1) * block e))).
  { unfold in_u, uwrap. apply Z.mod_pos_bound. lia. }
  split; [apply rev_range; unfold in_u in Hu; lia|]. by apply rev_rev.
Qed.

(** Hashes of one block select the same bucket. *)
Lemma same_block h v e : in_u 64 h -> in_u 64 v -> 0 <= e <= 64 ->
  rev h / block e = rev v / block e -> Z.land h (2 ^ e - 1) = Z.land v (2 ^ e - 1).
Proof.
  intros Hh Hv He E. replace (2 ^ e - 1) with (Z.ones e) by (rewrite Z.ones_equiv; lia).
  apply Z.bits_inj'. intros i Hi. rewrite !Z.land_spec.
  destruct (Z.lt_ge_cases i e); [|by rewrite Z.ones_spec_high, !andb_false_r by lia].
  f_equal. unfold block in E. rewrite <- !Z.shiftr_div_pow2 in E by lia.
  apply (f_equal (fun z => Z.testbit z (e - 1 - i))) in E.
  rewrite !Z.shiftr_spec, !rev_bit in E by lia.
  replace (63 - (e - 1 - i + (64 - e))) with i in E by lia. exact E.
Qed.

Lemma div_between a b c : 0 < c -> b <= a < (b / c + 1) * c -> a / c = b / c.
Proof. intros Hc Ha. pose proof (Z.div_mod b c ltac:(lia)). pose proof (Z.mod_pos_bound b c Hc). symmetry. apply (Z.div_unique a c _ (a - b / c * c)); lia. Qed.

Lemma div_mod_block x c : 0 < c -> x < (x / c + 1) * c.
Proof. intros Hc. pose proof (Z.div_mod x c ltac:(lia)). pose proof (Z.mod_pos_bound x c Hc). lia. Qed.

(** [2^64] is a whole number of blocks. *)
Lemma block_top q e : 0 <= e <= 64 -> q * block e < 2 ^ 64 -> (q + 1) * block e <= 2 ^ 64.
Proof.
  intros He Hq. assert (E : 2 ^ 64 = 2 ^ e * block e) by (unfold block; rewrite <- Z.pow_add_r by lia; f_equal; lia).
  rewrite E in Hq |- *. pose proof (block_pos e He). apply Z.mul_lt_mono_pos_r in Hq; [|done].
  apply Z.mul_le_mono_nonneg_r; lia.
Qed.

(** The bits the two masks differ in are clear exactly at a boundary of the
    larger blocks. *)
Lemma mask_diff v e0 e1 : in_u 64 v -> 0 <= e0 <= e1 -> e1 <= 64 -> rev v mod block e1 = 0 ->
  (Z.land v (Z.lxor (2 ^ e0 - 1) (2 ^ e1 - 1)) =? 0) = (rev v mod block e0 =? 0).
Proof.
  intros Hv He He1 Hm.
  replace (2 ^ e0 - 1) with (Z.ones e0) by (rewrite Z.ones_equiv; lia).
  replace (2 ^ e1 - 1) with (Z.ones e1) by (rewrite Z.ones_equiv; lia).
  apply eq_true_iff_eq. rewrite !Z.eqb_eq. split; intros E.
  - apply Z.bits_inj'. intros i Hi. rewrite Z.bits_0. unfold block in *.
    destruct (Z.lt_ge_cases i (64 - e0)); [|by apply Z.mod_pow2_bits_high; lia].
    rewrite Z.mod_pow2_bits_low by lia.
    destruct (Z.lt_ge_cases i (64 - e1)).
    + apply (f_equal (fun z => Z.testbit z i)) in Hm. rewrite Z.bits_0, Z.mod_pow2_bits_low in Hm by lia. done.
    + rewrite rev_bit by lia. apply (f_equal (fun z => Z.testbit z (63 - i))) in E.
      rewrite Z.land_spec, Z.lxor_spec, Z.bits_0, (Z.ones_spec_high e0), (Z.ones_spec_low e1) in E by lia.
      by rewrite andb_true_r in E.
  - apply Z.bits_inj'. intros i Hi. rewrite Z.land_spec, Z.lxor_spec, Z.bits_0. unfold block in *.
    destruct (Z.lt_ge_cases i e0); [rewrite !Z.ones_spec_low by lia; by rewrite andb_false_r|].
    destruct (Z.lt_ge_cases i e1); [|rewrite !Z.ones_spec_high by lia; by rewrite andb_false_r].
    apply (f_equal (fun z => Z.testbit z (63 - i))) in E.
    rewrite Z.bits_0, Z.mod_pow2_bits_low, rev_bit in E by lia.
    replace (63 - (63 - i)) with i in E by lia. by rewrite E.
Qed.

Lemma uwrap_mod_block x e : 0 <= e <= 64 -> uwrap 64 x mod block e = x mod block e.
Proof.
  intros He. unfold uwrap. apply Z.mod_mod_divide.
  exists (2 ^ e). unfold block. rewrite <- Z.pow_add_r by lia. f_equal. lia.
Qed.

Lemma succ_block q N : 0 < N ->
  ((q + 1) mod N = 0 /\ q + 1 = (q / N + 1) * N)
  \/ ((q + 1) mod N = q mod N + 1 /\ (q + 1) / N = q / N).
Proof.
  intros HN. pose proof (Z.div_mod q N ltac:(lia)) as Hq. pose proof (Z.mod_pos_bound q N HN) as Hm.
  destruct (Z.eq_dec (q mod N) (N - 1)).
  - left. assert (E : q + 1 = (q / N + 1) * N) by lia. split; [|done]. rewrite E. apply Z_mod_mult.
  - right. split; symmetry; [apply (Z.mod_unique _ _ (q / N))|apply (Z.div_unique _ _ _ (q mod N + 1))]; lia.
Qed.

(** What a cursor has passed: all of it when the scan is over. *)
Definition cursor_end (v : Z) : Z := if v =? 0 then 2 ^ 64 else rev v.

Lemma cursor_end_incr v e : in_u 64 v -> 0 <= e <= 64 ->
  in_u 64 (incr_cursor v (2 ^ e - 1))
  /\ cursor_end (incr_cursor v (2 ^ e - 1)) = (rev v / block e + 1) * block e
  /\ rev v < (rev v / block e + 1) * block e <= 2 ^ 64.
Proof.
  intros Hv He. destruct (rev_incr v e Hv He) as [Hi E]. split; [done|].
  assert (Hr : in_u 64 (rev v)) by (apply rev_range; unfold in_u in Hv; lia).
  pose proof (block_pos e He) as HB. pose proof (div_mod_block (rev v) (block e) HB) as Hlt.
  pose proof (Z.div_mod (rev v) (block e) ltac:(lia)). pose proof (Z.mod_pos_bound (rev v) (block e) HB).
  assert (Htop : (rev v / block e + 1) * block e <= 2 ^ 64) by (apply block_top; unfold in_u in Hr; lia).
  split; [|done]. unfold cursor_end. unfold in_u in Hr.
  destruct (Z.eq_dec ((rev v / block e + 1) * block e) (2 ^ 64)) as [Et|Hne].
  - rewrite Et in E |- *. apply rev_zero in E; [|done]. by rewrite E.
  - rewrite uwrap_small in E by (unfold in_u; lia).
    destruct (Z.eqb_spec (incr_cursor v (2 ^ e - 1)) 0) as [Ez|]; [|done].
    rewrite Ez in E. change (rev 0) with 0 in E. lia.
Qed.

Section scan_spec.
Context {K V : Type} `{EK : EqDecision K, CK : !Countable K} `{DT : DictType K} `{IV : Inhabited V}.
Context `{!DictTypeOk K}.

Abbreviation ht := (dictht K V) (only parsing).
Abbreviation entry := (dictEntry K V) (only parsing).

Definition rhash (x : entry) : Z := rev (hashFunction (key x)).

Definition shaped_at (e : Z) (h : ht) : Prop :=
  2 <= e <= 60 /\ size h = 2 ^ e /\ sizemask h = 2 ^ e - 1 /\ Z.of_nat (length (table h)) = 2 ^ e.

Lemma cursor_bucket t e v : shaped_at e t -> exists b, bucket t (Z.land v (sizemask t)) = Some b.
Proof.
  intros (He & Hs & Hm & Hl). apply bucket_exists. rewrite Hm, Hl.
  replace (2 ^ e - 1) with (Z.ones e) by (rewrite Z.ones_equiv; lia).
  rewrite Z.land_ones by lia. apply Z.mod_pos_bound. lia.
Qed.

(** The bucket at the cursor holds every entry of the cursor's block. *)
Lemma block_bucket t e v b x : shaped_at e t -> placed t -> in_u 64 v ->
  bucket t (Z.land v (sizemask t)) = Some b -> x ∈ ht_entries t ->
  rev v <= rhash x < (rev v / block e + 1) * block e -> x ∈ b.
Proof.
  intros Ht Hp Hv Hb Hx Hr. pose proof Ht as (He & Hs & Hm & Hl).
  destruct (entry_bucket t x) as (b' & Hb' & Hx'); [by exists e|done|done|].
  assert (E : Z.land (hashFunction (key x)) (sizemask t) = Z.land v (sizemask t)).
  { rewrite Hm. apply same_block; [apply hash_range|done|lia|].
    apply div_between; [apply block_pos; lia|done]. }
  rewrite E, Hb in Hb'. injection Hb' as ->. done.
Qed.

Lemma expand_loop_spec t1 e0 e1 fuel : forall v,
  shaped_at e1 t1 -> placed t1 -> 0 <= e0 <= e1 -> in_u 64 v ->
  2 ^ (e1 - e0) - (rev v / block e1) mod 2 ^ (e1 - e0) <= Z.of_nat fuel ->
  exists v' l, expand_loop fuel t1 (2 ^ e0 - 1) (sizemask t1) v = Some (v', l) /\ in_u 64 v'
    /\ cursor_end v' = (rev v / block e0 + 1) * block e0
    /\ (forall x, x ∈ ht_entries t1 -> rev v <= rhash x < cursor_end v' -> x ∈ l)
    /\ (forall x, x ∈ l -> x ∈ ht_entries t1).
Proof.
  induction fuel as [|fuel IH]; intros v Ht Hp He Hv Hf; pose proof (Z.pow_pos_nonneg 2 (e1 - e0)) as HN;
    pose proof (Z.mod_pos_bound (rev v / block e1) (2 ^ (e1 - e0))) as Hmod; [lia|].
  cbn [expand_loop]. destruct (cursor_bucket t1 e1 v Ht) as [b Hb]. rewrite Hb. cbn [mbind option_bind].
  pose proof Ht as (He1 & Hs & Hm & Hl). rewrite Hm in *.
  destruct (cursor_end_incr v e1) as (Hv1 & Hend & Hlt); [done|lia|].
  destruct (rev_incr v e1) as [_ Hrev]; [done|lia|].
  set (v1 := incr_cursor v (2 ^ e1 - 1)) in *.
  set (q := rev v / block e1) in *. set (N := 2 ^ (e1 - e0)) in *.
  pose proof (block_pos e1 ltac:(lia)) as HB.
  assert (EB : block e0 = N * block e1) by (unfold block, N; rewrite <- Z.pow_add_r by lia; f_equal; lia).
  assert (Eq : rev v / block e0 = q / N) by (rewrite EB, Z.mul_comm, <- Z.div_div by lia; done).
  assert (Hbx : forall x, x ∈ b -> x ∈ ht_entries t1) by (intros; eapply bucket_entry; eauto).
  assert (Hcov : forall x, x ∈ ht_entries t1 -> rev v <= rhash x < (q + 1) * block e1 -> x ∈ b).
  { intros x Hx Hr. apply (block_bucket t1 e1 v b x); try done. by rewrite Hm. }
  assert (HN0 : 0 < N) by (apply HN; lia). clear HN. specialize (Hmod HN0).
  rewrite mask_diff; [|done|done|lia|rewrite Hrev, uwrap_mod_block by lia; apply Z_mod_mult].
  replace (rev v1 mod block e0 =? 0) with ((q + 1) mod N =? 0).
  2: { rewrite Hrev, uwrap_mod_block, EB, Z.mul_mod_distr_r by lia.
       apply eq_true_iff_eq. rewrite !Z.eqb_eq. rewrite Z.mul_eq_0. lia. }
  rewrite Eq. destruct (succ_block q N HN0) as [[-> E]|[Em Ed]].
  - cbn [Z.eqb]. exists v1, b. split; [done|]. split; [done|]. rewrite Hend.
    split; [rewrite EB, E; ring|]. split; done.
  - replace ((q + 1) mod N =? 0) with false by lia.
    assert (Hne : (q + 1) * block e1 <> 2 ^ 64).
    { intros E2. assert (Hq : q + 1 = 2 ^ e0 * N).
      { apply (Z.mul_cancel_r _ _ (block e1)); [lia|]. rewrite E2. unfold N, block.
        rewrite <- !Z.pow_add_r by lia. f_equal. lia. }
      rewrite Hq, Z_mod_mult in Em. lia. }
    rewrite uwrap_small in Hrev.
    2: { pose proof (Z.div_pos (rev v) (block e1)). pose proof (rev_range v). unfold in_u in *. fold q in H. nia. }
    assert (Eq1 : rev v1 / block e1 = q + 1) by (rewrite Hrev; apply Z.div_mul; lia).
    destruct (IH v1) as (v' & l & -> & Hv' & Hend' & Hcov' & Hl'); [done|done|done|done|rewrite Eq1; lia|].
    cbn [mbind option_bind]. exists v', (b ++ l). split; [done|]. split; [done|].
    assert (Ee : rev v1 / block e0 = q / N) by (rewrite EB, Z.mul_comm, <- Z.div_div, Eq1 by lia; done).
    rewrite Ee in Hend'. split; [done|]. split.
    + intros x Hx Hr. apply elem_of_app. destruct (Z.lt_ge_cases (rhash x) ((q + 1) * block e1)).
      * left. apply Hcov; [done|lia].
      * right. apply Hcov'; [done|]. lia.
    + intros x [Hx|Hx]%elem_of_app; auto.
Qed.

Lemma pause_resume (d : dict K V) : in_s 16 (pauserehash d) -> dictResumeRehashing (dictPauseRehashing d) = d.
Proof.
  intros Hp. unfold dictResumeRehashing, dictPauseRehashing. destruct d as [h0 h1 i p]. cbn in *. f_equal.
  transitivity (swrap 16 p); [|by apply swrap_small; [lia|]].
  rewrite <- (swrap_mod 16 (swrap 16 (p + 1) - 1)), Zminus_mod, swrap_cong, <- Zminus_mod by lia.
  rewrite swrap_mod by lia. f_equal. lia.
Qed.

Lemma shaped_shaped_at h : shaped h -> exists e, shaped_at e h.
Proof. done. Qed.

(** A table the cursor can be on: everything in its block is emitted. *)
Lemma dictScan_step d v : wf d -> in_s 16 (pauserehash d) -> in_u 64 v -> dictSize d <> 0 ->
  exists v' l e t, dictScan d v = Some (d, v', l) /\ in_u 64 v'
    /\ shaped_at e (get_ht d t) /\ cursor_end v' = (rev v / block e + 1) * block e
    /\ (forall x, x ∈ entries d -> rev v <= rhash x < cursor_end v' -> x ∈ l)
    /\ (forall x, x ∈ l -> x ∈ entries d).
Proof.
  intros Hwf Hp Hv Hne. unfold dictScan. replace (dictSize d =? 0) with false by lia.
  assert (Hu : used (ht0 d) + used (ht1 d) <> 0) by (intros E; apply Hne; unfold dictSize; by rewrite E).
  pose proof (nonempty_shaped d Hwf Hu) as Hs0.
  destruct (ht_ok_shaped _ (wf_ht0 _ Hwf) Hs0) as [Hp0 _].
  change (dictIsRehashing (dictPauseRehashing d)) with (dictIsRehashing d).
  change (ht0 (dictPauseRehashing d)) with (ht0 d). change (ht1 (dictPauseRehashing d)) with (ht1 d).
  destruct (dictIsRehashing d) eqn:Hr; cbn [negb].
  - destruct (rehashing_ok d Hwf Hr) as (_ & Hs1 & _).
    destruct (ht_ok_shaped _ (wf_ht1 _ Hwf) Hs1) as [Hp1 _].
    set (ts := if size (ht0 d) >? size (ht1 d) then (ht1 d, ht0 d) else (ht0 d, ht1 d)).
    assert (Hts : exists t, ts.1 = get_ht d t /\ ts.2 = get_ht d (negb t) /\ size ts.1 <= size ts.2).
    { unfold ts. destruct (Z.gtb_spec (size (ht0 d)) (size (ht1 d))); [exists true|exists false]; cbn; auto with lia. }
    destruct Hts as (t & E0 & E1 & Hle). destruct ts as [t0 t1] eqn:Ets. cbn [fst snd] in E0, E1, Hle.
    assert (Hst0 : shaped t0 /\ placed t0) by (subst t0; by destruct t).
    assert (Hst1 : shaped t1 /\ placed t1) by (subst t1; by destruct t).
    destruct Hst0 as [[e0 H0] Hpl0], Hst1 as [[e1 H1] Hpl1].
    destruct (cursor_bucket t0 e0 v H0) as [b Hb]. rewrite Hb. cbn [mbind option_bind].
    pose proof H0 as (He0 & Hsz0 & Hm0 & _). pose proof H1 as (He1 & Hsz1 & _ & Hl1).
    assert (e0 <= e1) by (rewrite Hsz0, Hsz1 in Hle; apply (Z.pow_le_mono_r_iff 2); lia).
    destruct (expand_loop_spec t1 e0 e1 (length (table t1)) v) as (v' & l & E & Hv' & Hend & Hcov & Hl);
      [done|done|lia|done| |].
    { rewrite Hl1. pose proof (Z.pow_le_mono_r 2 (e1 - e0) e1). pose proof (Z.mod_pos_bound (rev v / block e1) (2 ^ (e1 - e0))). lia. }
    rewrite Hm0. rewrite E. cbn [mbind option_bind]. exists v', (b ++ l), e0, t.
    rewrite pause_resume by done. split; [done|]. split; [done|]. split; [by rewrite <- E0|]. split; [done|].
    assert (Hent : forall x, x ∈ entries d <-> x ∈ ht_entries t0 \/ x ∈ ht_entries t1).
    { intros x. unfold entries. rewrite elem_of_app, E0, E1. destruct t; cbn; tauto. }
    split.
    + intros x [Hx|Hx]%Hent Hrx; apply elem_of_app; [left|right; by apply Hcov].
      apply (block_bucket t0 e0 v b x); try done. by rewrite <- Hend.
    + intros x [Hx|Hx]%elem_of_app; apply Hent; [left|right; auto]. eapply bucket_entry; eauto.
  - destruct (not_rehashing d Hwf Hr) as [H1 _]. destruct Hs0 as [e H0].
    destruct (cursor_bucket (ht0 d) e v H0) as [b Hb]. rewrite Hb. cbn [mbind option_bind].
    pose proof H0 as (He & Hsz & Hm & _).
    destruct (cursor_end_incr v e Hv) as (Hv' & Hend & _); [lia|].
    eexists _, b, e, false. rewrite pause_resume by done. split; [done|]. rewrite Hm.
    split; [done|]. split; [done|]. split; [done|].
    assert (Hent : entries d = ht_entries (ht0 d)) by (unfold entries; by rewrite H1, reset_entries, app_nil_r).
    rewrite Hent, Hend. split.
    + intros x Hx Hrx. apply (block_bucket (ht0 d) e v b x); done.
    + intros x Hx. eapply bucket_entry; eauto.
Qed.

(** ** Whole scans *)

Definition scan_ok (d : dict K V) : Prop := wf d /\ in_s 16 (pauserehash d).

(** The calls of one scan: the i-th one finds the dictionary in the i-th state.
    [None] when the scan is not over after the last state. *)
Fixpoint scan_until (ds : list (dict K V)) (v : Z) : option (list entry) :=
  match ds with
  | [] => None
  | d :: ds =>
    '(_, v, l) ← dictScan d v;
    if v =? 0 then Some l else l' ← scan_until ds v; Some (l ++ l')
  end.

Lemma dictScan_total d v : scan_ok d -> in_u 64 v ->
  exists v' l, dictScan d v = Some (d, v', l) /\ in_u 64 v'
    /\ (forall x, x ∈ entries d -> rev v <= rhash x < cursor_end v' -> x ∈ l)
    /\ (forall x, x ∈ l -> x ∈ entries d).
Proof.
  intros [Hwf Hp] Hv. destruct (Z.eq_dec (dictSize d) 0) as [Hz|Hz].
  - exists 0, []. unfold dictScan. rewrite Hz. split; [done|]. split; [done|].
    split; [|intros x Hx; by apply elem_of_nil in Hx].
    intros x Hx _. exfalso. destruct (wf_used d Hwf) as (U0 & U1 & U). pose proof (wf_bound _ Hwf).
    unfold dictSize in Hz. rewrite uwrap_small in Hz by (unfold in_u; lia).
    destruct (entries d); [by apply elem_of_nil in Hx|]. cbn in U. lia.
  - destruct (dictScan_step d v Hwf Hp Hv Hz) as (v' & l & e & t & E & Hv' & _ & _ & H1 & H2). eauto 10.
Qed.

Lemma scan_until_covers ds k : forall v l, Forall scan_ok ds -> in_u 64 v ->
  (forall d, d ∈ ds -> k ∈ key <$> entries d) -> rev v <= rev (hashFunction k) ->
  scan_until ds v = Some l -> k ∈ key <$> l.
Proof.
  induction ds as [|d ds IH]; intros v l Hok Hv Hin Hle E; cbn [scan_until] in E; [done|].
  apply Forall_cons in Hok as [Hd Hok].
  destruct (dictScan_total d v Hd Hv) as (v' & l0 & Es & Hv' & Hcov & _). rewrite Es in E.
  cbn [mbind option_bind] in E.
  destruct (proj1 (list_elem_of_fmap _ _ _) (Hin d ltac:(by left))) as (x & -> & Hx).
  assert (Hr : in_u 64 (rhash x)) by (apply rev_range; apply hash_range).
  assert (Hnow : rhash x < cursor_end v' -> key x ∈ key <$> l0).
  { intros Hlt. apply list_elem_of_fmap. exists x. split; [done|]. apply Hcov; [done|]. unfold rhash in *. lia. }
  unfold cursor_end in Hnow. destruct (Z.eqb_spec v' 0).
  - injection E as <-. apply Hnow. unfold in_u in Hr. lia.
  - destruct (scan_until ds v') as [l'|] eqn:El; [|done]. cbn in E. injection E as <-.
    rewrite fmap_app, elem_of_app. destruct (Z.lt_ge_cases (rhash x) (rev v')); [auto|right].
    apply (IH v' l'); [done|done| |done|done]. intros d' Hd'. apply Hin. by right.
Qed.

Lemma scan_until_sound ds : forall v l x, Forall scan_ok ds -> in_u 64 v ->
  scan_until ds v = Some l -> x ∈ l -> exists d, d ∈ ds /\ x ∈ entries d.
Proof.
  induction ds as [|d ds IH]; intros v l x Hok Hv E Hx; cbn [scan_until] in E; [done|].
  apply Forall_cons in Hok as [Hd Hok].
  destruct (dictScan_total d v Hd Hv) as (v' & l0 & Es & Hv' & _ & Hs). rewrite Es in E.
  cbn [mbind option_bind] in E. destruct (v' =? 0).
  - injection E as <-. exists d. split; [by left|auto].
  - destruct (scan_until ds v') as [l'|] eqn:El; [|done]. cbn in E. injection E as <-.
    apply elem_of_app in Hx as [Hx|Hx]; [exists d; split; [by left|auto]|].
    destruct (IH v' l' x) as (d' & ? & ?); [done..|]. exists d'. split; [by right|done].
Qed.

(** C6: the guarantee of SCAN. Take any scan from cursor 0 until a call returns
    cursor 0, the dictionary being in an arbitrary well-formed state at each
    call (it may have grown, shrunk, or be in the middle of a rehash). Every
    key present at every call is returned by some call, and everything
    returned was an entry at the time of some call. *)
Theorem dictScan_complete (ds : list (dict K V)) (l : list entry) :
  Forall scan_ok ds -> scan_until ds 0 = Some l ->
  (forall k, (forall d, d ∈ ds -> k ∈ key <$> entries d) -> k ∈ key <$> l)
  /\ (forall x, x ∈ l -> exists d, d ∈ ds /\ x ∈ entries d).
Proof.
  intros Hok E. split.
  - intros k Hin. apply (scan_until_covers ds k 0 l); [done|by unfold in_u|done| |done].
    change (rev 0) with 0. pose proof (rev_range (hashFunction k)) as Hr.
    pose proof (hash_range k). unfold in_u in Hr. lia.
  - intros x Hx. by apply (scan_until_sound ds 0 l x).
Qed.

Definition size_at_most (E : Z) (d : dict K V) : Prop := size (ht0 d) <= 2 ^ E /\ size (ht1 d) <= 2 ^ E.

Lemma block_mult e E x : 0 <= e <= E -> E <= 64 -> exists q, x * block e = q * block E.
Proof.
  intros He HE. exists (x * 2 ^ (E - e)). rewrite <- Z.mul_assoc. f_equal. unfold block.
  rewrite <- Z.pow_add_r by lia. f_equal. lia.
Qed.

Lemma scan_until_ends E ds : forall v q, 2 <= E <= 60 ->
  Forall (fun d => scan_ok d /\ size_at_most E d) ds -> in_u 64 v -> rev v = q * block E ->
  2 ^ E - q <= Z.of_nat (length ds) -> is_Some (scan_until ds v).
Proof.
  induction ds as [|d ds IH]; intros v q HE Hok Hv Hq Hlen; pose proof (block_pos E ltac:(lia)) as HB;
    assert (Etop : 2 ^ 64 = 2 ^ E * block E) by (unfold block; rewrite <- Z.pow_add_r by lia; f_equal; lia);
    pose proof (rev_range v ltac:(apply Hv)) as Hr; unfold in_u in Hr.
  { cbn in Hlen. nia. }
  apply Forall_cons in Hok as [[[Hwf Hp] Hsz] Hok]. cbn [scan_until].
  destruct (Z.eq_dec (dictSize d) 0) as [Hz|Hz].
  { unfold dictScan. rewrite Hz. cbn. eauto. }
  destruct (dictScan_step d v Hwf Hp Hv Hz) as (v' & l & e & t & -> & Hv' & Hsh & Hend & _ & _).
  cbn [mbind option_bind]. destruct (Z.eqb_spec v' 0) as [|Hne]; [eauto|].
  unfold cursor_end in Hend. replace (v' =? 0) with false in Hend by lia.
  destruct Hsh as (He & Hs & _).
  assert (e <= E).
  { apply (Z.pow_le_mono_r_iff 2); [lia|lia|]. rewrite <- Hs. destruct Hsz, t; done. }
  pose proof (div_mod_block (rev v) (block e) (block_pos e ltac:(lia))) as Hlt.
  destruct (block_mult e E (rev v / block e + 1)) as [q' Eq']; [lia|lia|].
  destruct (IH v' q') as [l' ->]; [done|done|done|congruence| |cbn; eauto].
  assert (q < q') by (apply (Z.mul_lt_mono_pos_r (block E)); [done|]; rewrite <- Hq, <- Eq'; done).
  cbn [length] in Hlen. lia.
Qed.

(** C32: scans end. Whatever happens to the dictionary between the calls, as
    long as its tables never exceed 2^E buckets the scan returns to cursor 0
    within 2^E calls. *)
Theorem dictScan_terminates (E : Z) (ds : list (dict K V)) :
  2 <= E <= 60 -> Forall (fun d => scan_ok d /\ size_at_most E d) ds ->
  2 ^ E <= Z.of_nat (length ds) -> is_Some (scan_until ds 0).
Proof.
  intros HE Hok Hlen. apply (scan_until_ends E ds 0 0); [done|done|by unfold in_u|done|lia].
Qed.
End scan_spec.

(** ** Concrete scans: the sample dictionary of [DictMap] in the middle of its
    rehash, and after it. *)

Definition sample_done : dict key64 Z :=
  match dictRehash sample_dict 100 with Some (d, _) => d | None => sample_dict end.

Lemma sample_done_wf : wf sample_done.
Proof.
  unfold sample_done. destruct (dictRehash_ok sample_dict 100 sample_dict_wf) as (d & r & -> & [] & _). done.
Qed.

Lemma sample_scan_ok : Forall scan_ok [sample_dict; sample_done; sample_done; sample_done; sample_done; sample_done; sample_done].
Proof.
  repeat (apply Forall_cons_2; [split; [apply sample_dict_wf || apply sample_done_wf|vm_compute; split; congruence]|]).
  apply Forall_nil_2.
Qed.

Lemma dictScan_complete_witness : exists l,
  scan_until [sample_dict; sample_done; sample_done; sample_done; sample_done; sample_done; sample_done] 0 = Some l
  /\ k64 4 ∈ key <$> l.
Proof.
  eexists. split; [vm_compute; reflexivity|].
  refine (proj1 (dictScan_complete _ _ sample_scan_ok ltac:(vm_compute; reflexivity)) (k64 4) _).
  intros d Hd. repeat (apply elem_of_cons in Hd as [->|Hd]; [apply (bool_decide_unpack _); vm_compute; exact I|]).
  by apply elem_of_nil in Hd.
Defined.

Lemma dictScan_terminates_witness : is_Some (scan_until (replicate 4 sample_dict ++ replicate 4 sample_done) 0).
Proof.
  apply (dictScan_terminates 3); [lia| |vm_compute; congruence].
  cbn [replicate app].
  repeat (apply Forall_cons_2; [split; [split; [apply sample_dict_wf || apply sample_done_wf|]|]; vm_compute; split; congruence|]).
  apply Forall_nil_2.
Defined.
