(* ===== verification/DictIter.v ===== *)
(** Iterators and random selection over a dictionary: [dictGetIterator],
    [dictGetSafeIterator], [dictNext], [dictReleaseIterator],
    [dictFingerprint] and [dictGetRandomKey] of [dict.c]. *)
From stdpp Require Import gmap.
From S2P Require Import Prelude Dict DictMap DictScan.
Open Scope Z_scope.

Section iter.
Context {K V : Type} `{DT : DictType K} `{IV : Inhabited V}.

Abbreviation ht := (dictht K V) (only parsing).
Abbreviation entry := (dictEntry K V) (only parsing).

(** One round of the integer hash, on [long long]. *)
Definition fingerprint_round (hash x : Z) : Z :=
  let s := swrap 64 in
  let hash := s (hash + x) in
  let hash := s (Z.lnot hash + s (Z.shiftl hash 21)) in
  let hash := Z.lxor hash (Z.shiftr hash 24) in
  let hash := s (s (hash + s (Z.shiftl hash 3)) + s (Z.shiftl hash 8)) in
  let hash := Z.lxor hash (Z.shiftr hash 14) in
  let hash := s (s (hash + s (Z.shiftl hash 2)) + s (Z.shiftl hash 4)) in
  let hash := Z.lxor hash (Z.shiftr hash 28) in
  s (hash + s (Z.shiftl hash 31)).

(** [addr] gives the address of a table. *)
Definition dictFingerprint (addr : ht -> Z) (d : dict K V) : Z :=
  foldl fingerprint_round 0
    [addr (ht0 d); swrap 64 (size (ht0 d)); swrap 64 (used (ht0 d));
     addr (ht1 d); swrap 64 (size (ht1 d)); swrap 64 (used (ht1 d))].

(** [entry] and [nextEntry] are chains: the entry pointed to and those linked
    after it; NULL is the empty chain. *)
Record dictIterator := mkIter {
  it_table : bool;
  it_index : Z;
  it_safe : bool;
  it_entry : list entry;
  it_next : list entry;
  it_fingerprint : Z
}.

Definition dictGetIterator : dictIterator := mkIter false (-1) false [] [] 0.
Definition dictGetSafeIterator : dictIterator := mkIter false (-1) true [] [] 0.

(** [while (1)] of [dictNext]. *)
Fixpoint next_loop (fuel : nat) (addr : ht -> Z) (d : dict K V) (it : dictIterator)
  : option (dict K V * dictIterator * option entry) :=
  match fuel with
  | O => None
  | S fuel =>
    let return_or_loop d it e :=
      match e with
      | x :: next => Some (d, mkIter (it_table it) (it_index it) (it_safe it) e next (it_fingerprint it), Some x)
      | [] => next_loop fuel addr d (mkIter (it_table it) (it_index it) (it_safe it) [] (it_next it) (it_fingerprint it))
      end in
    match it_entry it with
    | [] =>
      let first := (it_index it =? -1) && negb (it_table it) in
      let '(d, fp) :=
        if first then
          if it_safe it then (dictPauseRehashing d, it_fingerprint it) else (d, dictFingerprint addr d)
        else (d, it_fingerprint it) in
      let i := it_index it + 1 in
      if i >=? size (get_ht d (it_table it)) then
        if dictIsRehashing d && negb (it_table it) then
          e ← bucket (get_ht d true) 0;
          return_or_loop d (mkIter true 0 (it_safe it) [] (it_next it) fp) e
        else Some (d, mkIter (it_table it) i (it_safe it) [] (it_next it) fp, None)
      else
        e ← bucket (get_ht d (it_table it)) i;
        return_or_loop d (mkIter (it_table it) i (it_safe it) [] (it_next it) fp) e
    | _ => return_or_loop d it (it_next it)
    end
  end.

(** Each round but the first advances over a bucket. *)
Definition dictNext (addr : ht -> Z) (d : dict K V) (it : dictIterator)
  : option (dict K V * dictIterator * option entry) :=
  next_loop (length (table (ht0 d)) + length (table (ht1 d)) + 3) addr d it.

(** [None] is the failed assertion. *)
Definition dictReleaseIterator (addr : ht -> Z) (d : dict K V) (it : dictIterator) : option (dict K V) :=
  if negb ((it_index it =? -1) && negb (it_table it)) then
    if it_safe it then Some (dictResumeRehashing d)
    else if it_fingerprint it =? dictFingerprint addr d then Some d else None
  else Some d.

(** [while ((de = dictNext(it)) != NULL) ...; dictReleaseIterator(it)]: the
    entries in order and the dictionary after it. *)
Fixpoint iterate (n : nat) (addr : ht -> Z) (d : dict K V) (it : dictIterator)
  : option (dict K V * list entry) :=
  match n with
  | O => None
  | S n =>
    '(d, it, e) ← dictNext addr d it;
    match e with
    | None => d ← dictReleaseIterator addr d it; Some (d, [])
    | Some x => '(d, l) ← iterate n addr d it; Some (d, x :: l)
    end
  end.

(** ** Random selection *)

(** [do ... while (he == NULL)]: [draws] are the values of [randomULong]; the
    first non-empty bucket. *)
Fixpoint draw_bucket (pick : Z -> option (list entry)) (draws : list Z) : option (list entry) :=
  match draws with
  | [] => None
  | r :: draws =>
    b ← pick r;
    match b with [] => draw_bucket pick draws | _ => Some b end
  end.

(** The bucket a draw selects. *)
Definition pick_bucket (d : dict K V) (r : Z) : option (list entry) :=
  if dictIsRehashing d then
    let h := uwrap 64 (rehashidx d + r mod uwrap 64 (dictSlots d - rehashidx d)) in
    if h >=? size (ht0 d) then bucket (ht1 d) (h - size (ht0 d)) else bucket (ht0 d) h
  else bucket (ht0 d) (Z.land r (sizemask (ht0 d))).

(** [r] is the value of [random()]. *)
Definition dictGetRandomKey (d : dict K V) (draws : list Z) (r : Z) : option (dict K V * option entry) :=
  if dictSize d =? 0 then Some (d, None)
  else
    d ← rehash_if_needed d;
    b ← draw_bucket (pick_bucket d) draws;
    let listlen := Z.of_nat (length b) in
    he ← b !! Z.to_nat (Z.rem r listlen);
    Some (d, Some he).
End iter.
Arguments dictIterator : clear implicits.

Section iter_spec.
Context {K V : Type} `{EK : EqDecision K, CK : !Countable K} `{DT : DictType K} `{IV : Inhabited V}.
Context `{!DictTypeOk K}.

Abbreviation ht := (dictht K V) (only parsing).
Abbreviation entry := (dictEntry K V) (only parsing).

(** The entries after bucket [i] of table [t]. *)
Definition after (d : dict K V) (t : bool) (i : Z) : list entry :=
  concat (drop (Z.to_nat (i + 1)) (table (get_ht d t)))
  ++ (if negb t && dictIsRehashing d then ht_entries (ht1 d) else []).

(** The buckets left to visit. *)
Definition buckets_left (d : dict K V) (t : bool) (i : Z) : Z :=
  Z.max 0 (Z.of_nat (length (table (get_ht d t))) - (i + 1))
  + (if negb t && dictIsRehashing d then Z.of_nat (length (table (ht1 d))) else 0).

(** The outcome of a call with [rem] left: the first one, or NULL. *)
Definition next_gives (d : dict K V) (safe : bool) (fp : Z) (rem : list entry)
  (res : option (dict K V * dictIterator K V * option entry)) : Prop :=
  match rem with
  | [] => exists it, res = Some (d, it, None)
          /\ it_safe it = safe /\ it_fingerprint it = fp /\ 0 <= it_index it
  | x :: rem => exists t i next, res = Some (d, mkIter t i safe (x :: next) next fp, Some x)
          /\ 0 <= i /\ next ++ after d t i = rem
  end.

Lemma ht_ok_size (h : ht) : ht_ok h -> size h = Z.of_nat (length (table h)).
Proof. intros [->|(Hs & _)]; [done|]. by apply shaped_size. Qed.

Lemma after_S d t i b : 0 <= i + 1 -> bucket (get_ht d t) (i + 1) = Some b -> after d t i = b ++ after d t (i + 1).
Proof.
  intros Hi [_ Hb]%bucket_lookup. unfold after. rewrite (drop_S _ _ _ Hb). cbn [concat].
  replace (Z.to_nat (i + 1 + 1)) with (S (Z.to_nat (i + 1))) by lia. by rewrite app_assoc.
Qed.

Lemma after_end d t i : Z.of_nat (length (table (get_ht d t))) <= i + 1 ->
  after d t i = if negb t && dictIsRehashing d then ht_entries (ht1 d) else [].
Proof. intros Hi. unfold after. rewrite drop_ge by lia. done. Qed.

(** The part of a round that moves to the next bucket. *)
Definition advance fuel addr (d : dict K V) safe fp t i nx : option (dict K V * dictIterator K V * option entry) :=
  let return_or_loop t i e :=
    match e with
    | x :: next => Some (d, mkIter t i safe e next fp, Some x)
    | [] => next_loop fuel addr d (mkIter t i safe [] nx fp)
    end in
  if i + 1 >=? size (get_ht d t) then
    if dictIsRehashing d && negb t then e ← bucket (get_ht d true) 0; return_or_loop true 0 e
    else Some (d, mkIter t (i + 1) safe [] nx fp, None)
  else e ← bucket (get_ht d t) (i + 1); return_or_loop t (i + 1) e.

Lemma advance_gives fuel addr d safe fp t i nx : wf d -> -1 <= i ->
  (forall t' i' nx', 0 <= i' -> buckets_left d t' i' < buckets_left d t i ->
     next_gives d safe fp (after d t' i') (next_loop fuel addr d (mkIter t' i' safe [] nx' fp))) ->
  next_gives d safe fp (after d t i) (advance fuel addr d safe fp t i nx).
Proof.
  intros Hwf Hi IH. unfold advance. rewrite (ht_ok_size (get_ht d t)) by (by apply get_ht_ok).
  assert (Hstep : forall t' i' b, 0 <= i' -> after d t i = b ++ after d t' i' ->
    buckets_left d t' i' < buckets_left d t i ->
    next_gives d safe fp (after d t i)
      match b with
      | x :: next => Some (d, mkIter t' i' safe b next fp, Some x)
      | [] => next_loop fuel addr d (mkIter t' i' safe [] nx fp)
      end).
  { intros t' i' b Hi' Ha Hb. destruct b as [|x b]; rewrite Ha; cbn [app next_gives].
    - apply IH; [lia|lia].
    - exists t', i', b. auto with lia. }
  destruct (_ >=? _) eqn:Hge.
  - destruct (dictIsRehashing d && negb t) eqn:Hr.
    + apply andb_true_iff in Hr as [Hr Ht']. destruct t; [done|].
      destruct (rehashing_ok d Hwf Hr) as (_ & Hs1 & _). destruct (shaped_size _ Hs1) as [Hl1 ?].
      destruct (bucket_exists (ht1 d) 0) as [b Hb]; [lia|]. cbn [get_ht]. rewrite Hb. cbn [mbind option_bind].
      apply Hstep; [lia| |].
      * rewrite after_end by lia. rewrite Hr. cbn [negb andb].
        transitivity (after d true (-1)); [unfold after; cbn; by rewrite app_nil_r|].
        exact (after_S d true (-1) b ltac:(lia) Hb).
      * unfold buckets_left. rewrite Hr. cbn [negb andb get_ht] in *. lia.
    + rewrite after_end, andb_comm, Hr by lia. cbn [next_gives]. eexists. split; [done|]. cbn. lia.
  - destruct (bucket_exists (get_ht d t) (i + 1)) as [b Hb]; [lia|]. rewrite Hb. cbn [mbind option_bind].
    apply Hstep; [lia|by apply after_S; [lia|]|]. unfold buckets_left. destruct (_ && _); lia.
Qed.

(** The rounds after the first one. *)
Lemma next_scan addr d safe fp fuel : forall t i nx, wf d ->
  0 <= i -> buckets_left d t i < Z.of_nat fuel ->
  next_gives d safe fp (after d t i) (next_loop fuel addr d (mkIter t i safe [] nx fp)).
Proof.
  induction fuel as [|fuel IH]; intros t i nx Hwf Hi Hf; [unfold buckets_left in Hf; destruct (_ && _); lia|].
  cbn [next_loop it_entry it_index it_table it_safe it_next it_fingerprint].
  replace ((i =? -1) && negb t) with false by lia.
  apply (advance_gives fuel addr d safe fp t i nx); [done|lia|]. intros. apply IH; [done|lia|lia].
Qed.

Lemma buckets_left_bound d t i : -1 <= i ->
  buckets_left d t i <= Z.of_nat (length (table (ht0 d)) + length (table (ht1 d))).
Proof. intros. unfold buckets_left. destruct t, (dictIsRehashing d); cbn [get_ht negb andb]; lia. Qed.

(** A call after an entry was returned. *)
Lemma next_after addr d safe fp t i x nx : wf d -> 0 <= i ->
  next_gives d safe fp (nx ++ after d t i) (dictNext addr d (mkIter t i safe (x :: nx) nx fp)).
Proof.
  intros Hwf Hi. unfold dictNext. pose proof (buckets_left_bound d t i).
  rewrite Nat.add_succ_r. cbn [next_loop it_entry it_index it_table it_safe it_next it_fingerprint].
  destruct nx as [|y nx].
  - cbn [app]. apply next_scan; [done|lia|lia].
  - cbn [app next_gives]. eauto 10.
Qed.

Lemma iterate_rest addr d safe fp n : forall t i x nx, wf d -> 0 <= i ->
  (safe = false -> fp = dictFingerprint addr d) ->
  Z.of_nat (length (nx ++ after d t i)) < Z.of_nat n ->
  iterate n addr d (mkIter t i safe (x :: nx) nx fp)
  = Some (if safe then dictResumeRehashing d else d, nx ++ after d t i).
Proof.
  induction n as [|n IH]; intros t i x nx Hwf Hi Hfp Hn; [lia|]. cbn [iterate].
  pose proof (next_after addr d safe fp t i x nx Hwf Hi) as Hg.
  destruct (nx ++ after d t i) as [|y rem] eqn:Er; cbn [next_gives] in Hg.
  - destruct Hg as (it & -> & Hs & Hf & Hidx). cbn [mbind option_bind]. unfold dictReleaseIterator.
    replace ((it_index it =? -1) && _) with false by lia. cbn [negb]. rewrite Hs, Hf.
    destruct safe; [done|]. by rewrite Hfp, Z.eqb_refl.
  - destruct Hg as (t' & i' & next & -> & Hi' & E). cbn [mbind option_bind].
    rewrite IH; [by rewrite E|done|done|done|]. rewrite E. cbn [length] in Hn. lia.
Qed.

(** The first call pauses the rehash, or takes the fingerprint. *)
Lemma next_first (addr : ht -> Z) (d : dict K V) (safe : bool) : wf d ->
  let d' := if safe then dictPauseRehashing d else d in
  let fp := if safe then 0 else dictFingerprint addr d in
  next_gives d' safe fp (after d' false (-1))
    (dictNext addr d (if safe then dictGetSafeIterator else dictGetIterator)).
Proof.
  intros Hwf d' fp. unfold dictNext. rewrite Nat.add_succ_r.
  assert (Hwf' : wf d') by (unfold d'; destruct safe; [destruct Hwf; split|]; done).
  assert (Hl : forall t i, -1 <= i -> buckets_left d' t i <= Z.of_nat (length (table (ht0 d)) + length (table (ht1 d)))).
  { intros t i Hi. pose proof (buckets_left_bound d' t i Hi). unfold d' in *. destruct safe; done. }
  set (fuel := (_ + 2)%nat).
  destruct safe; apply (advance_gives fuel addr d' _ fp false (-1) []); try done; try lia; intros t i nx Hi Hlt; apply next_scan; try done; pose proof (Hl t i); unfold fuel; lia.
Qed.

(** C35: an iteration that does not modify the dictionary returns every entry
    exactly once, also in the middle of a rehash, for safe and unsafe
    iterators; releasing the iterator then succeeds (the fingerprint matches)
    and leaves the dictionary as it was. *)
Theorem iterate_all (addr : ht -> Z) (d : dict K V) (safe : bool) (n : nat) :
  wf d -> in_s 16 (pauserehash d) -> (length (entries d) < n)%nat ->
  iterate n addr d (if safe then dictGetSafeIterator else dictGetIterator) = Some (d, entries d).
Proof.
  intros Hwf Hp Hn. destruct n as [|n]; [lia|]. cbn [iterate].
  pose proof (next_first addr d safe Hwf) as Hg. cbn zeta in Hg.
  set (d' := if safe then dictPauseRehashing d else d) in *.
  assert (Hwf' : wf d') by (unfold d'; destruct safe; [destruct Hwf; split|]; done).
  assert (Hd : (if safe then dictResumeRehashing d' else d') = d).
  { unfold d'. destruct safe; [by apply pause_resume|done]. }
  assert (Ha : after d' false (-1) = entries d).
  { transitivity (after d false (-1)); [unfold d'; by destruct safe|].
    unfold after, entries. cbn [negb andb get_ht]. destruct (dictIsRehashing d) eqn:Hr; [done|].
    destruct (not_rehashing d Hwf Hr) as [-> _]. done. }
  assert (Hf : safe = false -> (if safe then 0 else dictFingerprint addr d) = dictFingerprint addr d').
  { unfold d'. by destruct safe. }
  rewrite Ha in Hg. destruct (entries d) as [|x rem] eqn:Ee; cbn [next_gives] in Hg.
  - destruct Hg as (it & -> & Hs & Hfp & Hidx). cbn [mbind option_bind]. unfold dictReleaseIterator.
    replace ((it_index it =? -1) && _) with false by lia. cbn [negb]. rewrite Hs, Hfp.
    destruct safe; [by rewrite Hd|]. by rewrite Hf, Z.eqb_refl.
  - destruct Hg as (t & j & next & -> & Hj & E). cbn [mbind option_bind length] in *.
    rewrite iterate_rest; [by rewrite E, Hd|done|done|done|]. rewrite E. lia.
Qed.

(** ** Random selection *)

Lemma pick_bucket_total (d : dict K V) r : wf d -> used (ht0 d) + used (ht1 d) <> 0 -> 0 <= r ->
  exists b, pick_bucket d r = Some b /\ forall x, x ∈ b -> x ∈ entries d.
Proof.
  intros Hwf Hu Hr0. pose proof (nonempty_shaped d Hwf Hu) as Hs0. destruct (shaped_size _ Hs0) as [Hl0 Hz0].
  unfold pick_bucket, entries. destruct (dictIsRehashing d) eqn:Hr.
  - destruct (rehashing_ok d Hwf Hr) as (_ & Hs1 & Hri & _). destruct (shaped_size _ Hs1) as [Hl1 Hz1].
    unfold dictSlots. rewrite (uwrap_small 64 (size (ht0 d) + _)), (uwrap_small 64 (_ - _)) by (unfold in_u; lia).
    pose proof (Z.mod_pos_bound r (size (ht0 d) + size (ht1 d) - rehashidx d) ltac:(lia)).
    rewrite uwrap_small by (unfold in_u; lia).
    destruct (_ >=? _) eqn:Hge.
    + destruct (bucket_exists (ht1 d) (rehashidx d + r mod (size (ht0 d) + size (ht1 d) - rehashidx d) - size (ht0 d)))
        as [b Hb]; [lia|]. exists b. split; [done|]. intros x Hx. apply elem_of_app. right. by eapply bucket_entry.
    + destruct (bucket_exists (ht0 d) (rehashidx d + r mod (size (ht0 d) + size (ht1 d) - rehashidx d)))
        as [b Hb]; [lia|]. exists b. split; [done|]. intros x Hx. apply elem_of_app. left. by eapply bucket_entry.
  - destruct Hs0 as [e Hs0]. destruct (cursor_bucket (ht0 d) e r Hs0) as [b Hb].
    exists b. split; [done|]. intros x Hx. apply elem_of_app. left. by eapply bucket_entry.
Qed.

Lemma pick_bucket_reaches (d : dict K V) (x : entry) : wf d -> x ∈ entries d ->
  exists r b, 0 <= r /\ pick_bucket d r = Some b /\ x ∈ b.
Proof.
  intros Hwf Hx. unfold entries in Hx. unfold pick_bucket. destruct (dictIsRehashing d) eqn:Hr.
  - destruct (rehashing_ok d Hwf Hr) as (Hs0 & Hs1 & Hri & Hlow).
    destruct (shaped_size _ Hs0) as [Hl0 Hz0]. destruct (shaped_size _ Hs1) as [Hl1 Hz1].
    unfold dictSlots. rewrite (uwrap_small 64 (size (ht0 d) + _)), (uwrap_small 64 (_ - _)) by (unfold in_u; lia).
    apply elem_of_app in Hx as [(i & b & Hi & Hx)%lookup_concat|(i & b & Hi & Hx)%lookup_concat];
      pose proof (lookup_lt_Some _ _ _ Hi).
    + assert (rehashidx d <= Z.of_nat i).
      { destruct (Z.le_gt_cases (rehashidx d) (Z.of_nat i)); [done|]. apply Hlow in Hi; [|lia]. subst b.
        by apply elem_of_nil in Hx. }
      exists (Z.of_nat i - rehashidx d), b. rewrite Z.mod_small, uwrap_small by (unfold in_u; lia).
      replace (rehashidx d + (Z.of_nat i - rehashidx d)) with (Z.of_nat i) by lia.
      if_false. split; [lia|]. split; [|done]. apply bucket_lookup. rewrite Nat2Z.id. auto with lia.
    + exists (size (ht0 d) + Z.of_nat i - rehashidx d), b. rewrite Z.mod_small, uwrap_small by (unfold in_u; lia).
      replace (rehashidx d + (size (ht0 d) + Z.of_nat i - rehashidx d)) with (size (ht0 d) + Z.of_nat i) by lia.
      if_true. replace (size (ht0 d) + Z.of_nat i - size (ht0 d)) with (Z.of_nat i) by lia.
      split; [lia|]. split; [|done]. apply bucket_lookup. rewrite Nat2Z.id. auto with lia.
  - destruct (not_rehashing d Hwf Hr) as [H1 _]. rewrite H1, reset_entries, app_nil_r in Hx.
    destruct (wf_ht0 _ Hwf) as [E|(Hs & Hp & _)]; [rewrite E in Hx; by apply elem_of_nil in Hx|].
    destruct (entry_bucket _ _ Hs Hp Hx) as (b & Hb & Hxb).
    exists (hashFunction (key x)), b. split; [apply hash_range|]. done.
Qed.

Lemma draw_bucket_total (pick : Z -> option (list entry)) draws :
  Forall (fun r => is_Some (pick r)) draws ->
  (draw_bucket pick draws = None /\ Forall (fun r => pick r = Some []) draws)
  \/ exists r b, r ∈ draws /\ draw_bucket pick draws = Some b /\ pick r = Some b /\ b <> [].
Proof.
  induction 1 as [|r draws [b Hb] _ IH]; [by left; split|]. cbn [draw_bucket]. rewrite Hb. cbn [mbind option_bind].
  destruct b as [|x b].
  - destruct IH as [[E HF]|(r' & b' & ? & ? & ?)]; [left; split; [done|by constructor]|right].
    exists r', b'. split; [by right|done].
  - right. exists r, (x :: b). split; [by left|done].
Qed.

(** Random selection. On a non-empty well-formed dictionary, whatever the
    random numbers, [dictGetRandomKey] touches no memory outside the tables and
    ends with an entry as soon as a draw hits a non-empty bucket; what it
    returns is an entry; and every entry can be returned. *)
Theorem dictGetRandomKey_spec (d : dict K V) :
  wf d -> dictSize d <> 0 ->
  exists d', rehash_if_needed d = Some d' /\ same_entries d d'
    /\ (forall draws r, Forall (in_u 64) draws -> 0 <= r ->
          (dictGetRandomKey d draws r = None /\ Forall (fun z => pick_bucket d' z = Some []) draws)
          \/ exists x, dictGetRandomKey d draws r = Some (d', Some x) /\ x ∈ entries d)
    /\ (forall x, x ∈ entries d ->
          exists z r, 0 <= r /\ dictGetRandomKey d [z] r = Some (d', Some x)).
Proof.
  intros Hwf Hz. destruct (rehash_step_ok d Hwf) as (d' & E & Hs). exists d'. split; [done|]. split; [done|].
  pose proof Hs as [Hwf' HP _]. destruct (wf_used d Hwf) as (_ & _ & U). destruct (wf_used d' Hwf') as (_ & _ & U').
  rewrite HP in U'. assert (Hu : used (ht0 d') + used (ht1 d') <> 0).
  { intros E2. apply Hz. unfold dictSize. rewrite U, <- U', E2. done. }
  unfold dictGetRandomKey. replace (dictSize d =? 0) with false by lia. rewrite E. cbn [mbind option_bind]. split.
  - intros draws r Hd Hr.
    destruct (draw_bucket_total (pick_bucket d') draws) as [[-> HF]|(z & b & Hz' & -> & Hb & Hne)]; [|by left|right].
    { eapply Forall_impl; [exact Hd|]. intros z Hz'. destruct (pick_bucket_total d' z) as (b & Hb & _); [done|done|apply Hz'|eauto]. }
    cbn [mbind option_bind]. assert (0 < Z.of_nat (length b)) by (destruct b; [done|cbn; lia]).
    pose proof (Z.rem_bound_pos r (Z.of_nat (length b)) Hr ltac:(lia)).
    destruct (lookup_lt_is_Some_2 b (Z.to_nat (Z.rem r (Z.of_nat (length b))))) as [x Hx]; [lia|].
    rewrite Hx. cbn. exists x. split; [done|]. rewrite <- HP.
    rewrite Forall_forall in Hd. destruct (pick_bucket_total d' z) as (b' & Hb' & Hin); [done|done|by apply Hd|].
    rewrite Hb in Hb'. injection Hb' as <-. apply Hin. by eapply list_elem_of_lookup_2.
  - intros x Hx. rewrite <- HP in Hx. destruct (pick_bucket_reaches d' x Hwf' Hx) as (z & b & Hz0 & Hb & Hxb).
    apply list_elem_of_lookup in Hxb as [j Hj]. pose proof (lookup_lt_Some _ _ _ Hj).
    exists z, (Z.of_nat j). split; [lia|]. cbn [draw_bucket]. rewrite Hb. cbn [mbind option_bind].
    destruct b as [|y b]; [cbn in *; lia|]. cbn [mbind option_bind].
    rewrite Z.rem_small, Nat2Z.id, Hj by lia. done.
Qed.
End iter_spec.

Lemma iterate_all_witness :
  iterate 4 (fun h => size h) sample_dict dictGetSafeIterator = Some (sample_dict, entries sample_dict).
Proof.
  apply (iterate_all (fun h => size h) sample_dict true 4); [apply sample_dict_wf|vm_compute; split; congruence|vm_compute; lia].
Defined.

Lemma dictGetRandomKey_spec_witness :
  exists d', rehash_if_needed sample_dict = Some d' /\ same_entries sample_dict d'.
Proof.
  destruct (dictGetRandomKey_spec sample_dict) as (d' & E & Hs & _);
    [apply sample_dict_wf|vm_compute; congruence|]. exists d'. split; [exact E|exact Hs].
Defined.
