(* ===== verification/Listpack.v ===== *)
(** Listpacks: [listpack.c].

    A listpack is one block of memory: a 32-bit total size, a 16-bit element
    count, the entries, and the byte 0xFF. An entry is its content (an encoded
    integer, or a string with its length) followed by the length of the content
    written so that it can be read backwards. Pointers into the listpack are
    offsets, NULL is [None]; a failed assertion or an access outside the block
    is the outer [None]. *)
From S2P Require Import Prelude Endian Util.

(** ** Bytes *)

(** [c0 | c1<<8 | c2<<16 | ...] *)
Fixpoint or_bytes (sh : Z) (l : bytes) : Z :=
  match l with
  | [] => 0
  | c :: l => Z.lor (Z.shiftl c sh) (or_bytes (sh + 8) l)
  end.

(** [v & 0xff, (v>>8) & 0xff, ...] *)
Fixpoint split_bytes (n : nat) (v : Z) : bytes :=
  match n with
  | O => []
  | S n => Z.land v 255 :: split_bytes n (Z.shiftr v 8)
  end.

(** ** Constants *)

Definition LP_HDR_SIZE : Z := 6.
Definition LP_HDR_NUMELE_UNKNOWN : Z := 65535.
Definition LP_EOF : Z := 255.
Definition UINT32_MAX : Z := 4294967295.
Definition UINT64_MAX : Z := 18446744073709551615.

Definition LP_ENCODING_IS_7BIT_UINT (c : Z) : bool := Z.land c 0x80 =? 0.
Definition LP_ENCODING_IS_6BIT_STR (c : Z) : bool := Z.land c 0xC0 =? 0x80.
Definition LP_ENCODING_IS_13BIT_INT (c : Z) : bool := Z.land c 0xE0 =? 0xC0.
Definition LP_ENCODING_IS_12BIT_STR (c : Z) : bool := Z.land c 0xF0 =? 0xE0.
Definition LP_ENCODING_IS_16BIT_INT (c : Z) : bool := Z.land c 0xFF =? 0xF1.
Definition LP_ENCODING_IS_24BIT_INT (c : Z) : bool := Z.land c 0xFF =? 0xF2.
Definition LP_ENCODING_IS_32BIT_INT (c : Z) : bool := Z.land c 0xFF =? 0xF3.
Definition LP_ENCODING_IS_64BIT_INT (c : Z) : bool := Z.land c 0xFF =? 0xF4.
Definition LP_ENCODING_IS_32BIT_STR (c : Z) : bool := Z.land c 0xFF =? 0xF0.

Definition LP_ENCODING_12BIT_STR_LEN (c0 c1 : Z) : Z := Z.lor (Z.shiftl (Z.land c0 0xF) 8) c1.

Definition lpGetTotalBytes (lp : bytes) : option Z := s ← bslice lp 0 4; Some (or_bytes 0 s).
Definition lpGetNumElements (lp : bytes) : option Z := s ← bslice lp 4 2; Some (or_bytes 0 s).
Definition lpSetTotalBytes (lp : bytes) (v : Z) : option bytes := bwrite lp 0 (split_bytes 4 v).
Definition lpSetNumElements (lp : bytes) (v : Z) : option bytes := bwrite lp 4 (split_bytes 2 v).
Definition lpBytes (lp : bytes) : option Z := lpGetTotalBytes lp.

(** ** Integers in strings *)

(** The code of [string2ll], with an extra branch for a lone zero. *)
Definition lpStringToInt64_digits (s : bytes) (slen plen : Z) (negative : bool) : option (option Z) :=
  c ← s.[plen];
  if (schar c >=? 49) && (schar c <=? 57) then
    let v := schar c - 48 in
    let plen := plen + 1 in
    r ← string2ll_loop (S (Z.to_nat (slen - plen))) s slen plen v;
    match r with
    | None => Some None
    | Some (plen, v) =>
      if plen <? slen then Some None
      else if negative then
        if v >? uwrap 64 (- (LLONG_MIN + 1) + 1) then Some None
        else Some (Some (swrap 64 (uwrap 64 (- v))))
      else
        if v >? LLONG_MAX then Some None
        else Some (Some (swrap 64 v))
    end
  else if (schar c =? 48) && (slen =? 1) then Some (Some 0)
  else Some None.

Definition lpStringToInt64 (s : bytes) (slen : Z) : option (option Z) :=
  if slen =? 0 then Some None
  else
    c0 ← s.[0];
    if (slen =? 1) && (schar c0 =? 48) then Some (Some 0)
    else
      if schar c0 =? 45 then
        if slen =? 1 then Some None else lpStringToInt64_digits s slen 1 true
      else lpStringToInt64_digits s slen 0 false.

(** ** Encoding *)

Inductive lp_enctype := LP_ENCODING_INT (intenc : bytes) | LP_ENCODING_STRING.

(** The bytes stored in [intenc]; each is an [unsigned char]. *)
Definition lpEncodeInt (v : Z) : bytes :=
  uwrap 8 <$>
  if (v >=? 0) && (v <=? 127) then [v]
  else if (v >=? -4096) && (v <=? 4095) then
    let v := if v <? 0 then 2 ^ 13 + v else v in
    [Z.lor (Z.shiftr v 8) 0xC0; Z.land v 0xff]
  else if (v >=? -32768) && (v <=? 32767) then
    let v := if v <? 0 then 2 ^ 16 + v else v in
    [0xF1; Z.land v 0xff; Z.shiftr v 8]
  else if (v >=? -8388608) && (v <=? 8388607) then
    let v := if v <? 0 then 2 ^ 24 + v else v in
    [0xF2; Z.land v 0xff; Z.land (Z.shiftr v 8) 0xff; Z.shiftr v 16]
  else if (v >=? -2147483648) && (v <=? 2147483647) then
    let v := if v <? 0 then 2 ^ 32 + v else v in
    [0xF3; Z.land v 0xff; Z.land (Z.shiftr v 8) 0xff; Z.land (Z.shiftr v 16) 0xff; Z.shiftr v 24]
  else
    let uv := uwrap 64 v in
    [0xF4; Z.land uv 0xff; Z.land (Z.shiftr uv 8) 0xff; Z.land (Z.shiftr uv 16) 0xff;
     Z.land (Z.shiftr uv 24) 0xff; Z.land (Z.shiftr uv 32) 0xff; Z.land (Z.shiftr uv 40) 0xff;
     Z.land (Z.shiftr uv 48) 0xff; Z.shiftr uv 56].

(** Returns the type and [enclen]. *)
Definition lpEncodeGetType (ele : bytes) (size : Z) : option (lp_enctype * Z) :=
  r ← lpStringToInt64 ele size;
  match r with
  | Some v => let e := lpEncodeInt v in Some (LP_ENCODING_INT e, zlen e)
  | None =>
    Some (LP_ENCODING_STRING,
          if size <? 64 then 1 + size else if size <? 4096 then 2 + size else 5 + size)
  end.

(** The bytes written; the value returned is their number. *)
Definition lpEncodeBacklen (l : Z) : bytes :=
  uwrap 8 <$>
  if l <=? 127 then [l]
  else if l <? 16383 then [Z.shiftr l 7; Z.lor (Z.land l 127) 128]
  else if l <? 2097151 then
    [Z.shiftr l 14; Z.lor (Z.land (Z.shiftr l 7) 127) 128; Z.lor (Z.land l 127) 128]
  else if l <? 268435455 then
    [Z.shiftr l 21; Z.lor (Z.land (Z.shiftr l 14) 127) 128; Z.lor (Z.land (Z.shiftr l 7) 127) 128;
     Z.lor (Z.land l 127) 128]
  else
    [Z.shiftr l 28; Z.lor (Z.land (Z.shiftr l 21) 127) 128; Z.lor (Z.land (Z.shiftr l 14) 127) 128;
     Z.lor (Z.land (Z.shiftr l 7) 127) 128; Z.lor (Z.land l 127) 128].

(** [do ... while(1)]: at most five rounds. *)
Fixpoint backlen_loop (fuel : nat) (lp : bytes) (p val shift : Z) : option Z :=
  match fuel with
  | O => None
  | S fuel =>
    c ← lp.[p];
    let val := Z.lor val (uwrap 64 (Z.shiftl (Z.land c 127) shift)) in
    if Z.land c 128 =? 0 then Some val
    else
      let shift := shift + 7 in
      if shift >? 28 then Some UINT64_MAX
      else backlen_loop fuel lp (p - 1) val shift
  end.

Definition lpDecodeBacklen (lp : bytes) (p : Z) : option Z := backlen_loop 5 lp p 0 0.

(** The bytes written at [buf]. *)
Definition lpEncodeString (s : bytes) (len : Z) : bytes :=
  (uwrap 8 <$>
   if len <? 64 then [Z.lor len 0x80]
   else if len <? 4096 then [Z.lor (Z.shiftr len 8) 0xE0; Z.land len 0xff]
   else [0xF0; Z.land len 0xff; Z.land (Z.shiftr len 8) 0xff; Z.land (Z.shiftr len 16) 0xff;
         Z.land (Z.shiftr len 24) 0xff])
  ++ take (Z.to_nat len) s.

(** ** Sizes *)

Definition lpCurrentEncodedSizeUnsafe (lp : bytes) (p : Z) : option Z :=
  c ← lp.[p];
  if LP_ENCODING_IS_7BIT_UINT c then Some 1
  else if LP_ENCODING_IS_6BIT_STR c then Some (1 + Z.land c 0x3F)
  else if LP_ENCODING_IS_13BIT_INT c then Some 2
  else if LP_ENCODING_IS_16BIT_INT c then Some 3
  else if LP_ENCODING_IS_24BIT_INT c then Some 4
  else if LP_ENCODING_IS_32BIT_INT c then Some 5
  else if LP_ENCODING_IS_64BIT_INT c then Some 9
  else if LP_ENCODING_IS_12BIT_STR c then
    c1 ← lp.[p + 1]; Some (2 + LP_ENCODING_12BIT_STR_LEN c c1)
  else if LP_ENCODING_IS_32BIT_STR c then
    s ← bslice lp (p + 1) 4; Some (uwrap 32 (5 + or_bytes 0 s))
  else if c =? LP_EOF then Some 1
  else Some 0.

Definition lpCurrentEncodedSizeBytes (lp : bytes) (p : Z) : option Z :=
  c ← lp.[p];
  if LP_ENCODING_IS_7BIT_UINT c then Some 1
  else if LP_ENCODING_IS_6BIT_STR c then Some 1
  else if LP_ENCODING_IS_13BIT_INT c then Some 1
  else if LP_ENCODING_IS_16BIT_INT c then Some 1
  else if LP_ENCODING_IS_24BIT_INT c then Some 1
  else if LP_ENCODING_IS_32BIT_INT c then Some 1
  else if LP_ENCODING_IS_64BIT_INT c then Some 1
  else if LP_ENCODING_IS_12BIT_STR c then Some 2
  else if LP_ENCODING_IS_32BIT_STR c then Some 5
  else if c =? LP_EOF then Some 1
  else Some 0.

(** ** Navigation *)

Definition lpSkip (lp : bytes) (p : Z) : option Z :=
  entrylen ← lpCurrentEncodedSizeUnsafe lp p;
  Some (p + (entrylen + zlen (lpEncodeBacklen entrylen))).

Definition OUT_OF_RANGE (lpbytes p : Z) : bool := (p <? LP_HDR_SIZE) || (p >? lpbytes - 1).

(** [Some None] is the return value 0, [Some (Some pp)] is 1 with the advanced
    pointer. *)
Definition lpValidateNext (lp : bytes) (pp : option Z) (lpbytes : Z) : option (option (option Z)) :=
  match pp with
  | None => Some None
  | Some p =>
    if OUT_OF_RANGE lpbytes p then Some None
    else
      c ← lp.[p];
      if c =? LP_EOF then Some (Some None)
      else
        lenbytes ← lpCurrentEncodedSizeBytes lp p;
        if lenbytes =? 0 then Some None
        else if OUT_OF_RANGE lpbytes (p + lenbytes) then Some None
        else
          entrylen ← lpCurrentEncodedSizeUnsafe lp p;
          let encodedBacklen := zlen (lpEncodeBacklen entrylen) in
          let entrylen := entrylen + encodedBacklen in
          if OUT_OF_RANGE lpbytes (p + entrylen) then Some None
          else
            let p := p + entrylen in
            prevlen ← lpDecodeBacklen lp (p - 1);
            if negb (uwrap 64 (prevlen + encodedBacklen) =? entrylen) then Some None
            else Some (Some (Some p))
  end.

(** [None] is the failed assertion. *)
Definition lpAssertValidEntry (lp : bytes) (lpbytes p : Z) : option unit :=
  r ← lpValidateNext lp (Some p) lpbytes;
  match r with Some _ => Some tt | None => None end.

Definition lpNext (lp : bytes) (p : Z) : option (option Z) :=
  p ← lpSkip lp p;
  c ← lp.[p];
  if c =? LP_EOF then Some None
  else
    n ← lpBytes lp;
    _ ← lpAssertValidEntry lp n p;
    Some (Some p).

Definition lpPrev (lp : bytes) (p : Z) : option (option Z) :=
  if p =? LP_HDR_SIZE then Some None
  else
    let p := p - 1 in
    prevlen ← lpDecodeBacklen lp p;
    let prevlen := uwrap 64 (prevlen + zlen (lpEncodeBacklen prevlen)) in
    let p := p - uwrap 64 (prevlen - 1) in
    n ← lpBytes lp;
    _ ← lpAssertValidEntry lp n p;
    Some (Some p).

Definition lpFirst (lp : bytes) : option (option Z) :=
  let p := LP_HDR_SIZE in
  c ← lp.[p];
  if c =? LP_EOF then Some None
  else
    n ← lpBytes lp;
    _ ← lpAssertValidEntry lp n p;
    Some (Some p).

Definition lpLast (lp : bytes) : option (option Z) :=
  n ← lpGetTotalBytes lp; lpPrev lp (n - 1).

(** [while(p)]: an entry is at least two bytes, so the block size bounds the
    number of rounds. *)
Fixpoint lpLength_loop (fuel : nat) (lp : bytes) (p : option Z) (count : Z) : option Z :=
  match p with
  | None => Some count
  | Some p =>
    match fuel with
    | O => None
    | S fuel => p ← lpNext lp p; lpLength_loop fuel lp p (count + 1)
    end
  end.

(** Returns the count and the block, whose header may have been updated. *)
Definition lpLength (lp : bytes) : option (Z * bytes) :=
  numele ← lpGetNumElements lp;
  if negb (numele =? LP_HDR_NUMELE_UNKNOWN) then Some (numele, lp)
  else
    p ← lpFirst lp;
    count ← lpLength_loop (length lp) lp p 0;
    if count <? LP_HDR_NUMELE_UNKNOWN
    then lp ← lpSetNumElements lp count; Some (count, lp)
    else Some (count, lp).

(** [while (index > 0 && ele)]. *)
Fixpoint seek_forward (n : nat) (lp : bytes) (ele : option Z) : option (option Z) :=
  match n, ele with
  | S n, Some p => ele ← lpNext lp p; seek_forward n lp ele
  | _, _ => Some ele
  end.

(** [while (index < -1 && ele)]. *)
Fixpoint seek_backward (n : nat) (lp : bytes) (ele : option Z) : option (option Z) :=
  match n, ele with
  | S n, Some p => ele ← lpPrev lp p; seek_backward n lp ele
  | _, _ => Some ele
  end.

Definition seek_from (lp : bytes) (forward : bool) (index : Z) : option (option Z) :=
  if forward then ele ← lpFirst lp; seek_forward (Z.to_nat index) lp ele
  else ele ← lpLast lp; seek_backward (Z.to_nat (-1 - index)) lp ele.

Definition lpSeek (lp : bytes) (index : Z) : option (option Z) :=
  numele ← lpGetNumElements lp;
  if negb (numele =? LP_HDR_NUMELE_UNKNOWN) then
    let index := if index <? 0 then numele + index else index in
    if index <? 0 then Some None
    else if index >=? numele then Some None
    else if index >? numele / 2 then seek_from lp false (index - numele)
    else seek_from lp true index
  else seek_from lp (negb (index <? 0)) index.

(** ** Reading an element *)

(** An integer, or the position and the length of a string in the block. *)
Inductive lp_value := LpInt (v : Z) | LpStr (off count : Z).

(** The two's complement rule at the end of [lpGet]. *)
Definition lp_signed (uval negstart negmax : Z) : Z :=
  if uval >=? negstart then
    let uval := uwrap 64 (negmax - uval) in
    - swrap 64 uval - 1
  else swrap 64 uval.

(** [lpGet] with [intbuf == NULL]. *)
Definition lpGet (lp : bytes) (p : Z) : option lp_value :=
  c ← lp.[p];
  if LP_ENCODING_IS_7BIT_UINT c then Some (LpInt (lp_signed (Z.land c 0x7f) UINT64_MAX 0))
  else if LP_ENCODING_IS_6BIT_STR c then Some (LpStr (p + 1) (Z.land c 0x3F))
  else if LP_ENCODING_IS_13BIT_INT c then
    c1 ← lp.[p + 1];
    Some (LpInt (lp_signed (Z.lor (Z.shiftl (Z.land c 0x1f) 8) c1) (2 ^ 12) 8191))
  else if LP_ENCODING_IS_16BIT_INT c then
    s ← bslice lp (p + 1) 2; Some (LpInt (lp_signed (or_bytes 0 s) (2 ^ 15) 65535))
  else if LP_ENCODING_IS_24BIT_INT c then
    s ← bslice lp (p + 1) 3; Some (LpInt (lp_signed (or_bytes 0 s) (2 ^ 23) (Z.shiftr UINT32_MAX 8)))
  else if LP_ENCODING_IS_32BIT_INT c then
    s ← bslice lp (p + 1) 4; Some (LpInt (lp_signed (or_bytes 0 s) (2 ^ 31) UINT32_MAX))
  else if LP_ENCODING_IS_64BIT_INT c then
    s ← bslice lp (p + 1) 8; Some (LpInt (lp_signed (or_bytes 0 s) (2 ^ 63) UINT64_MAX))
  else if LP_ENCODING_IS_12BIT_STR c then
    c1 ← lp.[p + 1]; Some (LpStr (p + 2) (LP_ENCODING_12BIT_STR_LEN c c1))
  else if LP_ENCODING_IS_32BIT_STR c then
    s ← bslice lp (p + 1) 4; Some (LpStr (p + 5) (or_bytes 0 s))
  else Some (LpInt (lp_signed (12345678900000000 + c) UINT64_MAX 0)).

(** [snprintf(buf, size, "%lld", v)] with room enough. *)
Definition snprintf_lld (v : Z) : bytes :=
  let d := match digits10 (magnitude v) with Some d => Z.to_nat d | None => O end in canon d v.

(** [lpGet] with an [intbuf]: the element as a string. *)
Definition lpGetText (lp : bytes) (p : Z) : option bytes :=
  v ← lpGet lp p;
  match v with
  | LpInt v => Some (snprintf_lld v)
  | LpStr off count => bslice lp off count
  end.

(** ** Creation, insertion and deletion *)

Inductive lp_where := LP_BEFORE | LP_AFTER | LP_REPLACE.

Section alloc.
Context `{Alloc}.

Definition lpNew (capacity : Z) : option bytes :=
  let lp := zmalloc (if capacity >? LP_HDR_SIZE + 1 then capacity else LP_HDR_SIZE + 1) in
  lp ← lpSetTotalBytes lp (LP_HDR_SIZE + 1);
  lp ← lpSetNumElements lp 0;
  bset lp LP_HDR_SIZE LP_EOF.

(** [lp_malloc_size] is the size of the block. *)
Definition lpShrinkToFit (lp : bytes) : option bytes :=
  size ← lpGetTotalBytes lp;
  Some (if size <? zlen lp then zrealloc lp size else lp).

(** From the reallocations on: [new] is the encoded element and its backward
    length, [None] for a deletion. The result is the new block and [*newp]. *)
Definition lpInsert_store (lp : bytes) (new : option (bytes * bytes)) (poff : Z) (replace : bool)
  (replaced_len old_listpack_bytes new_listpack_bytes : Z) : option (bytes * option Z) :=
  let enclen := match new with Some (e, _) => zlen e | None => 0 end in
  let backlen_size := match new with Some (_, b) => zlen b | None => 0 end in
  let lp :=
    if (new_listpack_bytes >? old_listpack_bytes) && (new_listpack_bytes >? zlen lp)
    then zrealloc lp new_listpack_bytes else lp in
  let dst := poff in
  lp ←
    (if replace then
       let lendiff := (enclen + backlen_size) - replaced_len in
       bmove lp (dst + replaced_len + lendiff) (dst + replaced_len)
         (old_listpack_bytes - poff - replaced_len)
     else bmove lp (dst + enclen + backlen_size) dst (old_listpack_bytes - poff));
  let lp := if new_listpack_bytes <? old_listpack_bytes then zrealloc lp new_listpack_bytes else lp in
  newp ←
    match new with
    | Some _ => Some (Some dst)
    | None => c ← lp.[dst]; Some (if c =? LP_EOF then None else Some dst)
    end;
  lp ←
    match new with
    | Some (e, b) => lp ← bwrite lp dst e; bwrite lp (dst + enclen) b
    | None => Some lp
    end;
  lp ←
    match replace, new with
    | true, Some _ => Some lp
    | _, _ =>
      num_elements ← lpGetNumElements lp;
      if negb (num_elements =? LP_HDR_NUMELE_UNKNOWN)
      then lpSetNumElements lp (match new with Some _ => num_elements + 1 | None => num_elements - 1 end)
      else Some lp
    end;
  lp ← lpSetTotalBytes lp new_listpack_bytes;
  Some (lp, newp).

(** [ele] is [None] for NULL. [Some None] is the return value NULL. *)
Definition lpInsert (lp : bytes) (ele : option bytes) (p : Z) (where_ : lp_where)
  : option (option (bytes * option Z)) :=
  let where_ := match ele with None => LP_REPLACE | Some _ => where_ end in
  '(p, replace) ←
    match where_ with
    | LP_AFTER =>
      p ← lpSkip lp p;
      n ← lpGetTotalBytes lp;
      if (p >=? LP_HDR_SIZE) && (p <? n) then Some (p, false) else None
    | LP_BEFORE => Some (p, false)
    | LP_REPLACE => Some (p, true)
    end;
  '(new, enclen) ←
    match ele with
    | Some ele =>
      '(t, n) ← lpEncodeGetType ele (zlen ele);
      let e := match t with
               | LP_ENCODING_INT intenc => intenc
               | LP_ENCODING_STRING => lpEncodeString ele (zlen ele)
               end in
      Some (Some (e, lpEncodeBacklen n), n)
    | None => Some (None, 0)
    end;
  let backlen_size := match new with Some (_, b) => zlen b | None => 0 end in
  old_listpack_bytes ← lpGetTotalBytes lp;
  replaced_len ←
    (if (replace : bool) then
       r ← lpCurrentEncodedSizeUnsafe lp p;
       let r := uwrap 32 (r + zlen (lpEncodeBacklen r)) in
       if (p >=? LP_HDR_SIZE) && (p + r <? old_listpack_bytes) then Some r else None
     else Some 0);
  let new_listpack_bytes := uwrap 64 (old_listpack_bytes + enclen + backlen_size - replaced_len) in
  if new_listpack_bytes >? UINT32_MAX then Some None
  else
    r ← lpInsert_store lp new p replace replaced_len old_listpack_bytes new_listpack_bytes;
    Some (Some r).

Definition lpAppend (lp ele : bytes) : option (option (bytes * option Z)) :=
  n ← lpGetTotalBytes lp; lpInsert lp (Some ele) (n - 1) LP_BEFORE.

Definition lpDelete (lp : bytes) (p : Z) : option (option (bytes * option Z)) :=
  lpInsert lp None p LP_REPLACE.
End alloc.

(** ** Validation *)

Definition lpValidateFirst (lp : bytes) : option (option Z) :=
  c ← lp.[LP_HDR_SIZE]; Some (if c =? LP_EOF then None else Some LP_HDR_SIZE).

(** [while(p && p[0] != LP_EOF)]: the final pointer and the count. *)
Fixpoint validate_loop (fuel : nat) (lp : bytes) (p : option Z) (bytes count : Z)
  : option (option (option Z * Z)) :=
  match fuel with
  | O => None
  | S fuel =>
    match p with
    | None => Some (Some (None, count))
    | Some q =>
      c ← lp.[q];
      if c =? LP_EOF then Some (Some (p, count))
      else
        r ← lpValidateNext lp p bytes;
        match r with
        | None => Some None
        | Some p => validate_loop fuel lp p bytes (count + 1)
        end
    end
  end.

(** The block is [size] bytes. *)
Definition lpValidateIntegrity (lp : bytes) (size : Z) (deep : bool) : option bool :=
  if size <? LP_HDR_SIZE + 1 then Some false
  else
    bytes ← lpGetTotalBytes lp;
    if negb (bytes =? size) then Some false
    else
      c ← lp.[size - 1];
      if negb (c =? LP_EOF) then Some false
      else if negb deep then Some true
      else
        r ← validate_loop (S (length lp)) lp (Some LP_HDR_SIZE) bytes 0;
        match r with
        | None => Some false
        | Some (p, count) =>
          if negb (match p with Some p => p =? size - 1 | None => false end) then Some false
          else
            numele ← lpGetNumElements lp;
            Some (negb (negb (numele =? LP_HDR_NUMELE_UNKNOWN) && negb (numele =? count)))
        end.
