(* ===== verification/ListpackSpec.v ===== *)
(** Correctness of listpacks.

    [lp_rep cs lp] says that the block [lp] holds the entries with contents
    [cs]. Insertion, replacement and deletion act on [cs] as a list, the
    navigation functions move along it in both directions, an element read back
    is the string that was inserted, and the integrity check accepts only
    blocks that can be traversed. *)
From S2P Require Import Prelude Endian Util Listpack.

(** ** Bytes *)

Lemma bytes_forall (P : Z -> bool) :
  forallb P (Z.of_nat <$> seq 0 256) = true -> forall c, byte_ok c -> P c = true.
Proof.
  intros H c Hc. rewrite forallb_forall in H. apply H. apply list_elem_of_In, list_elem_of_fmap.
  exists (Z.to_nat c). unfold byte_ok in Hc. split; [lia|]. apply elem_of_seq. lia.
Qed.

(** Decides a statement about one byte by trying them all. *)
Ltac by_bytes c Hc :=
  match goal with |- ?a = ?b =>
    let P := constr:(fun c : Z => ltac:(let t := eval pattern c in (a = b) in
               match t with ?f _ => let g := eval cbv beta in (f c) in
                 match g with @eq bool ?x ?y => exact (Bool.eqb x y) | @eq Z ?x ?y => exact (x =? y) end end)) in
    let H := fresh in
    pose proof (bytes_forall P ltac:(vm_compute; reflexivity) c Hc) as H; cbv beta in H;
    first [apply Bool.eqb_prop in H; exact H | apply Z.eqb_eq in H; exact H]
  end.

Lemma is_7bit c : byte_ok c -> LP_ENCODING_IS_7BIT_UINT c = (c <? 128).
Proof. intros Hc. by_bytes c Hc. Qed.

Lemma is_6bit c : byte_ok c -> LP_ENCODING_IS_6BIT_STR c = (128 <=? c) && (c <? 192).
Proof. intros Hc. by_bytes c Hc. Qed.

Lemma is_13bit c : byte_ok c -> LP_ENCODING_IS_13BIT_INT c = (192 <=? c) && (c <? 224).
Proof. intros Hc. by_bytes c Hc. Qed.

Lemma is_12bit c : byte_ok c -> LP_ENCODING_IS_12BIT_STR c = (224 <=? c) && (c <? 240).
Proof. intros Hc. by_bytes c Hc. Qed.

Lemma is_32str c : byte_ok c -> LP_ENCODING_IS_32BIT_STR c = (c =? 240).
Proof. intros Hc. by_bytes c Hc. Qed.

Lemma is_16int c : byte_ok c -> LP_ENCODING_IS_16BIT_INT c = (c =? 241).
Proof. intros Hc. by_bytes c Hc. Qed.

Lemma is_24int c : byte_ok c -> LP_ENCODING_IS_24BIT_INT c = (c =? 242).
Proof. intros Hc. by_bytes c Hc. Qed.

Lemma is_32int c : byte_ok c -> LP_ENCODING_IS_32BIT_INT c = (c =? 243).
Proof. intros Hc. by_bytes c Hc. Qed.

Lemma is_64int c : byte_ok c -> LP_ENCODING_IS_64BIT_INT c = (c =? 244).
Proof. intros Hc. by_bytes c Hc. Qed.

Lemma land_disjoint x y k : 0 <= k -> 0 <= x < 2 ^ k -> (2 ^ k | y) -> Z.land x y = 0.
Proof.
  intros Hk Hx [q ->]. apply Z.bits_inj'. intros i Hi. rewrite Z.land_spec, Z.bits_0.
  destruct (Z.lt_ge_cases i k).
  - rewrite Z.mul_pow2_bits_low by lia. apply andb_false_r.
  - replace (Z.testbit x i) with false; [done|]. symmetry.
    rewrite <- (Z.mod_small x (2 ^ k)) by done. apply Z.mod_pow2_bits_high. lia.
Qed.

Lemma lor_add x y k : 0 <= k -> 0 <= x < 2 ^ k -> (2 ^ k | y) -> Z.lor x y = x + y.
Proof.
  intros Hk Hx Hy. pose proof (land_disjoint x y k Hk Hx Hy) as E.
  by rewrite <- Z.lxor_lor, <- Z.add_nocarry_lxor.
Qed.

Lemma land_255 v : Z.land v 255 = v mod 256.
Proof. change 255 with (Z.ones 8). by rewrite Z.land_ones by lia. Qed.

Lemma land_127 v : Z.land v 127 = v mod 128.
Proof. change 127 with (Z.ones 7). by rewrite Z.land_ones by lia. Qed.

Lemma split_bytes_le n : forall v, split_bytes n v = le_bytes n v.
Proof.
  induction n as [|n IH]; intros v; [done|]. cbn [split_bytes]. unfold le_bytes; fold le_bytes.
  rewrite land_255, IH, Z.shiftr_div_pow2 by lia. done.
Qed.

Lemma or_bytes_le l : Forall byte_ok l -> forall sh, 0 <= sh -> or_bytes sh l = le_val l * 2 ^ sh.
Proof.
  induction 1 as [|c l Hc Hl IH]; intros sh Hsh; [done|]. cbn [or_bytes]. unfold le_val; fold le_val.
  rewrite IH, Z.shiftl_mul_pow2 by lia. unfold byte_ok in Hc.
  replace (2 ^ (sh + 8)) with (256 * 2 ^ sh) by (rewrite Z.pow_add_r by lia; lia).
  rewrite (lor_add _ _ (sh + 8)); [lia|lia| |exists (le_val l); rewrite Z.pow_add_r by lia; lia].
  rewrite Z.pow_add_r by lia. pose proof (Z.pow_pos_nonneg 2 sh). nia.
Qed.

Lemma or_bytes_val l : Forall byte_ok l -> or_bytes 0 l = le_val l.
Proof. intros Hl. rewrite or_bytes_le by done. change (2 ^ 0) with 1. lia. Qed.

(** ** Reading inside a larger block *)

Lemma bget_shift (pre c post : bytes) i x : c.[i] = Some x -> (pre ++ c ++ post).[zlen pre + i] = Some x.
Proof.
  unfold bget. destruct (Z.leb_spec 0 i); [|done]. intros Hx. if_true.
  replace (Z.to_nat (zlen pre + i)) with (length pre + Z.to_nat i)%nat by lia.
  rewrite lookup_app_r by lia. replace (length pre + Z.to_nat i - length pre)%nat with (Z.to_nat i) by lia.
  by apply lookup_app_l_Some.
Qed.

Lemma bslice_shift (pre c post : bytes) i n x :
  bslice c i n = Some x -> bslice (pre ++ c ++ post) (zlen pre + i) n = Some x.
Proof.
  intros (a & b & -> & <- & <-)%bslice_Some. rewrite <- !app_assoc.
  rewrite (app_assoc pre a). apply bslice_app_at; [rewrite length_app; lia|done].
Qed.

Lemma bget_ok (b : bytes) i x : Forall byte_ok b -> b.[i] = Some x -> byte_ok x.
Proof.
  intros Hb. unfold bget. destruct (0 <=? i); [|done]. intros Hx.
  rewrite Forall_forall in Hb. apply Hb. by eapply list_elem_of_lookup_2.
Qed.

Lemma size_shift (pre c post : bytes) n : lpCurrentEncodedSizeUnsafe c 0 = Some n ->
  lpCurrentEncodedSizeUnsafe (pre ++ c ++ post) (zlen pre) = Some n.
Proof.
  unfold lpCurrentEncodedSizeUnsafe. change (0 + 1) with 1. destruct (c.[0]) as [x|] eqn:E; [|done]. cbn [mbind option_bind].
  apply (bget_shift pre c post) in E. rewrite Z.add_0_r in E. rewrite E. cbn [mbind option_bind].
  repeat (case_match; [done|]). destruct (LP_ENCODING_IS_12BIT_STR x).
  { destruct (c.[1]) as [y|] eqn:E1; [|done]. by rewrite (bget_shift pre c post _ _ E1). }
  destruct (LP_ENCODING_IS_32BIT_STR x); [|done].
  destruct (bslice c 1 4) as [y|] eqn:E1; [|done]. by rewrite (bslice_shift pre c post _ _ _ E1).
Qed.

Lemma sizebytes_shift (pre c post : bytes) n : lpCurrentEncodedSizeBytes c 0 = Some n ->
  lpCurrentEncodedSizeBytes (pre ++ c ++ post) (zlen pre) = Some n.
Proof.
  unfold lpCurrentEncodedSizeBytes. destruct (c.[0]) as [x|] eqn:E; [|done]. cbn [mbind option_bind].
  apply (bget_shift pre c post) in E. rewrite Z.add_0_r in E. rewrite E. done.
Qed.

(** The value read at a larger offset. *)
Definition shift_value (off : Z) (v : lp_value) : lp_value :=
  match v with LpInt v => LpInt v | LpStr o n => LpStr (off + o) n end.

Lemma get_shift (pre c post : bytes) v : lpGet c 0 = Some v ->
  lpGet (pre ++ c ++ post) (zlen pre) = Some (shift_value (zlen pre) v).
Proof.
  unfold lpGet. change (0 + 1) with 1. destruct (c.[0]) as [x|] eqn:E; [|done]. cbn [mbind option_bind].
  apply (bget_shift pre c post) in E. rewrite Z.add_0_r in E. rewrite E. cbn [mbind option_bind].
  repeat (case_match;
    [first [by intros [= <-]
           |destruct (c.[1]) as [y|] eqn:E1; [|done]; rewrite (bget_shift pre c post _ _ E1); by intros [= <-]
           |destruct (bslice c 1 _) as [y|] eqn:E1; [|done]; rewrite (bslice_shift pre c post _ _ _ E1); by intros [= <-]]|]).
  by intros [= <-].
Qed.

Lemma gettext_shift (pre c post : bytes) s : lpGetText c 0 = Some s ->
  lpGetText (pre ++ c ++ post) (zlen pre) = Some s.
Proof.
  unfold lpGetText. destruct (lpGet c 0) as [v|] eqn:E; [|done]. rewrite (get_shift _ _ _ _ E).
  destruct v as [v|o n]; cbn; [done|]. apply bslice_shift.
Qed.

(** ** The backward length *)

Lemma uwrap8 c : byte_ok c -> uwrap 8 c = c.
Proof. intros. by apply uwrap_small. Qed.

Lemma cont_byte x : uwrap 8 (Z.lor (Z.land x 127) 128) = 128 + x mod 128.
Proof.
  rewrite land_127. pose proof (Z.mod_pos_bound x 128 ltac:(lia)).
  rewrite (lor_add _ _ 7) by (try lia; by exists 1). rewrite uwrap8 by (unfold byte_ok; lia). lia.
Qed.

(** The encoded length in base 128, most significant digit first. *)
Definition backlen_bytes (l : Z) : bytes :=
  if l <=? 127 then [l]
  else if l <? 16383 then [l / 2 ^ 7; 128 + l mod 128]
  else if l <? 2097151 then [l / 2 ^ 14; 128 + l / 2 ^ 7 mod 128; 128 + l mod 128]
  else if l <? 268435455 then
    [l / 2 ^ 21; 128 + l / 2 ^ 14 mod 128; 128 + l / 2 ^ 7 mod 128; 128 + l mod 128]
  else [l / 2 ^ 28; 128 + l / 2 ^ 21 mod 128; 128 + l / 2 ^ 14 mod 128; 128 + l / 2 ^ 7 mod 128; 128 + l mod 128].

Lemma encode_backlen_bytes l : 0 <= l < 2 ^ 35 -> lpEncodeBacklen l = backlen_bytes l.
Proof.
  intros Hl. unfold lpEncodeBacklen, backlen_bytes. rewrite !Z.shiftr_div_pow2 by lia.
  repeat case_match; cbn [fmap list_fmap]; rewrite ?cont_byte; rewrite uwrap8; try done; unfold byte_ok; bool_hyps;
    first [lia | split; [apply Z.div_pos; lia|apply Z.div_lt_upper_bound; lia]].
Qed.

Lemma backlen_last fuel b p val sh c : b.[p] = Some c -> 0 <= c < 128 -> 0 <= sh <= 28 -> 0 <= val < 2 ^ sh ->
  backlen_loop (S fuel) b p val sh = Some (val + c * 2 ^ sh).
Proof.
  intros Hb Hc Hs Hv. cbn [backlen_loop]. rewrite Hb. cbn [mbind option_bind].
  replace (Z.land c 128 =? 0) with true.
  2: { symmetry. assert (byte_ok c) as Hk by (unfold byte_ok; lia).
       transitivity (c <? 128); [by_bytes c Hk|lia]. }
  rewrite land_127, Z.mod_small, Z.shiftl_mul_pow2 by lia.
  pose proof (Z.pow_le_mono_r 2 sh 28). rewrite uwrap_small by (unfold in_u; nia).
  rewrite (lor_add _ _ sh) by (try lia; by exists c). done.
Qed.

Lemma backlen_more fuel b p val sh x : b.[p] = Some (128 + x) -> 0 <= x < 128 -> 0 <= sh <= 21 -> 0 <= val < 2 ^ sh ->
  backlen_loop (S fuel) b p val sh = backlen_loop fuel b (p - 1) (val + x * 2 ^ sh) (sh + 7).
Proof.
  intros Hb Hx Hs Hv. cbn [backlen_loop]. rewrite Hb. cbn [mbind option_bind].
  replace (Z.land (128 + x) 128 =? 0) with false.
  2: { symmetry. assert (byte_ok (128 + x)) as Hk by (unfold byte_ok; lia).
       transitivity ((128 + x) <? 128); [|lia]. generalize dependent (128 + x). intros c _ Hk. by_bytes c Hk. }
  rewrite land_127. replace ((128 + x) mod 128) with x by (rewrite Z.add_comm, <- (Z.mul_1_l 128) at 1; rewrite Z.mod_add by lia; symmetry; apply Z.mod_small; lia).
  rewrite Z.shiftl_mul_pow2 by lia. pose proof (Z.pow_le_mono_r 2 sh 28).
  rewrite uwrap_small by (unfold in_u; nia). rewrite (lor_add _ _ sh) by (try lia; by exists x).
  replace (sh + 7 >? 28) with false by lia. done.
Qed.

(** The bytes at [p], [p-1], ... hold the digits of a base-128 number, least
    significant first, the last one unmarked. *)
Fixpoint backward_digits (b : bytes) (p : Z) (ds : list Z) (t : Z) : Prop :=
  match ds with
  | [] => b.[p] = Some t
  | d :: ds => b.[p] = Some (128 + d) /\ 0 <= d < 128 /\ backward_digits b (p - 1) ds t
  end.

Fixpoint base128 (ds : list Z) (t : Z) : Z :=
  match ds with [] => t | d :: ds => d + 128 * base128 ds t end.

Lemma backlen_digits b ds t : 0 <= t < 128 -> forall fuel p val sh,
  backward_digits b p ds t -> 0 <= sh -> sh + 7 * zlen ds <= 28 -> (length ds < fuel)%nat -> 0 <= val < 2 ^ sh ->
  backlen_loop fuel b p val sh = Some (val + base128 ds t * 2 ^ sh).
Proof.
  intros Ht. induction ds as [|d ds IH]; intros fuel p val sh Hd Hsh Hlen Hf Hv; destruct fuel as [|fuel]; cbn [length] in *; try lia.
  - cbn in Hd |- *. apply (backlen_last fuel b p val sh t); [done|done|lia|done].
  - destruct Hd as (Hb & Hd & Hr). rewrite (backlen_more fuel b p val sh d) by (done || lia).
    assert (E : 2 ^ (sh + 7) = 128 * 2 ^ sh) by (rewrite Z.pow_add_r by lia; lia).
    rewrite (IH fuel (p - 1)); [|done|lia|lia|lia|nia]. cbn [base128]. f_equal. rewrite E. lia.
Qed.

Lemma backward_digits_at (pre : bytes) t ds : Forall (fun d => 0 <= d < 128) ds -> forall post,
  backward_digits (pre ++ (t :: (Z.add 128 <$> reverse ds)) ++ post) (zlen pre + zlen ds) ds t.
Proof.
  induction 1 as [|d ds Hd _ IH]; intros post; cbn [backward_digits].
  - rewrite Z.add_0_r. by apply bget_app.
  - rewrite reverse_cons, fmap_app. cbn [fmap list_fmap]. split; [|split; [done|]].
    + rewrite app_comm_cons, <- app_assoc, app_assoc. cbn [app]. apply bget_app.
      rewrite length_app. cbn [length]. rewrite length_fmap, length_reverse. lia.
    + replace (zlen pre + zlen (d :: ds) - 1) with (zlen pre + zlen ds) by (cbn [length]; lia).
      rewrite app_comm_cons, <- (app_assoc _ _ post). apply IH.
Qed.

Lemma backlen_decode_digits (pre post : bytes) t ds n : 0 <= t < 128 -> Forall (fun d => 0 <= d < 128) ds ->
  (length ds <= 4)%nat -> n = base128 ds t ->
  lpDecodeBacklen (pre ++ (t :: (Z.add 128 <$> reverse ds)) ++ post)
    (zlen pre + zlen (t :: (Z.add 128 <$> reverse ds)) - 1) = Some n.
Proof.
  intros Ht Hds Hl ->. unfold lpDecodeBacklen. cbn [length]. rewrite length_fmap, length_reverse.
  replace (zlen pre + Z.of_nat (S (length ds)) - 1) with (zlen pre + zlen ds) by lia.
  rewrite (backlen_digits _ ds t); [f_equal; lia|done|by apply backward_digits_at|lia..].
Qed.

Lemma backlen_decode (pre post : bytes) l : 0 <= l < 2 ^ 35 ->
  lpDecodeBacklen (pre ++ lpEncodeBacklen l ++ post) (zlen pre + zlen (lpEncodeBacklen l) - 1) = Some l.
Proof.
  intros Hl. rewrite encode_backlen_bytes by done. unfold backlen_bytes.
  assert (Hm : forall x, 0 <= x mod 128 < 128) by (intros; apply Z.mod_pos_bound; lia).
  assert (Hd : forall k, 0 <= k -> l < 2 ^ (k + 7) -> 0 <= l / 2 ^ k < 128).
  { intros k Hk Hlt. rewrite Z.pow_add_r in Hlt by lia. split; [apply Z.div_pos; lia|apply Z.div_lt_upper_bound; lia]. }
  repeat case_match; bool_hyps;
    [apply (backlen_decode_digits pre post l [])
    |apply (backlen_decode_digits pre post (l / 2 ^ 7) [l mod 128])
    |apply (backlen_decode_digits pre post (l / 2 ^ 14) [l mod 128; l / 2 ^ 7 mod 128])
    |apply (backlen_decode_digits pre post (l / 2 ^ 21) [l mod 128; l / 2 ^ 7 mod 128; l / 2 ^ 14 mod 128])
    |apply (backlen_decode_digits pre post (l / 2 ^ 28) [l mod 128; l / 2 ^ 7 mod 128; l / 2 ^ 14 mod 128; l / 2 ^ 21 mod 128])];
    try (apply Hd; cbn; lia); try (repeat (constructor; [apply Hm|]); constructor); try (cbn; lia);
    cbn [base128]; Z.to_euclidean_division_equations; lia.
Qed.

(** ** The encoding byte, by ranges *)

Lemma class_ranges {A} (x : Z) (t7 t6 t13 t16 t24 t32 t64 s12 s32 other : A) : byte_ok x ->
  (if LP_ENCODING_IS_7BIT_UINT x then t7 else if LP_ENCODING_IS_6BIT_STR x then t6
   else if LP_ENCODING_IS_13BIT_INT x then t13 else if LP_ENCODING_IS_16BIT_INT x then t16
   else if LP_ENCODING_IS_24BIT_INT x then t24 else if LP_ENCODING_IS_32BIT_INT x then t32
   else if LP_ENCODING_IS_64BIT_INT x then t64 else if LP_ENCODING_IS_12BIT_STR x then s12
   else if LP_ENCODING_IS_32BIT_STR x then s32 else other)
  = (if x <? 128 then t7 else if x <? 192 then t6 else if x <? 224 then t13 else if x <? 240 then s12
     else if x =? 240 then s32 else if x =? 241 then t16 else if x =? 242 then t24
     else if x =? 243 then t32 else if x =? 244 then t64 else other).
Proof.
  intros Hb. rewrite is_7bit, is_6bit, is_13bit, is_12bit, is_32str, is_16int, is_24int, is_32int, is_64int by done.
  repeat (case_match; bool_hyps; try done; try lia).
Qed.

Lemma len6_range x : 128 <= x < 192 -> Z.land x 63 = x - 128.
Proof.
  intros Hx. change 63 with (Z.ones 6). rewrite Z.land_ones by lia. replace x with (x - 128 + 2 * 2 ^ 6) at 1 by lia.
  rewrite Z.mod_add by lia. apply Z.mod_small. lia.
Qed.

Lemma len12_range x y : 224 <= x < 240 -> byte_ok y -> LP_ENCODING_12BIT_STR_LEN x y = (x - 224) * 256 + y.
Proof.
  unfold byte_ok, LP_ENCODING_12BIT_STR_LEN. intros Hx Hy. change 15 with (Z.ones 4). rewrite Z.land_ones by lia.
  replace x with (x - 224 + 14 * 2 ^ 4) at 1 by lia. rewrite Z.mod_add, Z.mod_small by lia.
  rewrite Z.lor_comm, Z.shiftl_mul_pow2 by lia. rewrite (lor_add _ _ 8) by (try lia; by exists (x - 224)). lia.
Qed.

Lemma int13_range x y : 192 <= x < 224 -> byte_ok y -> Z.lor (Z.shiftl (Z.land x 31) 8) y = (x - 192) * 256 + y.
Proof.
  unfold byte_ok. intros Hx Hy. change 31 with (Z.ones 5). rewrite Z.land_ones by lia.
  replace x with (x - 192 + 6 * 2 ^ 5) at 1 by lia. rewrite Z.mod_add, Z.mod_small by lia.
  rewrite Z.lor_comm, Z.shiftl_mul_pow2 by lia. rewrite (lor_add _ _ 8) by (try lia; by exists (x - 192)). lia.
Qed.

Lemma size_ranges b p x : b.[p] = Some x -> byte_ok x ->
  lpCurrentEncodedSizeUnsafe b p
  = if x <? 128 then Some 1 else if x <? 192 then Some (1 + Z.land x 63) else if x <? 224 then Some 2
    else if x <? 240 then (c1 ← b.[p + 1]; Some (2 + LP_ENCODING_12BIT_STR_LEN x c1))
    else if x =? 240 then (s ← bslice b (p + 1) 4; Some (uwrap 32 (5 + or_bytes 0 s)))
    else if x =? 241 then Some 3 else if x =? 242 then Some 4 else if x =? 243 then Some 5
    else if x =? 244 then Some 9 else if x =? LP_EOF then Some 1 else Some 0.
Proof.
  intros E Hb. unfold lpCurrentEncodedSizeUnsafe. rewrite E. cbn [mbind option_bind]. apply class_ranges. done.
Qed.

Lemma get_ranges b p x : b.[p] = Some x -> byte_ok x ->
  lpGet b p
  = if x <? 128 then Some (LpInt (lp_signed (Z.land x 0x7f) UINT64_MAX 0))
    else if x <? 192 then Some (LpStr (p + 1) (Z.land x 63))
    else if x <? 224 then
      (c1 ← b.[p + 1]; Some (LpInt (lp_signed (Z.lor (Z.shiftl (Z.land x 0x1f) 8) c1) (2 ^ 12) 8191)))
    else if x <? 240 then (c1 ← b.[p + 1]; Some (LpStr (p + 2) (LP_ENCODING_12BIT_STR_LEN x c1)))
    else if x =? 240 then (s ← bslice b (p + 1) 4; Some (LpStr (p + 5) (or_bytes 0 s)))
    else if x =? 241 then (s ← bslice b (p + 1) 2; Some (LpInt (lp_signed (or_bytes 0 s) (2 ^ 15) 65535)))
    else if x =? 242 then (s ← bslice b (p + 1) 3; Some (LpInt (lp_signed (or_bytes 0 s) (2 ^ 23) (Z.shiftr UINT32_MAX 8))))
    else if x =? 243 then (s ← bslice b (p + 1) 4; Some (LpInt (lp_signed (or_bytes 0 s) (2 ^ 31) UINT32_MAX)))
    else if x =? 244 then (s ← bslice b (p + 1) 8; Some (LpInt (lp_signed (or_bytes 0 s) (2 ^ 63) UINT64_MAX)))
    else Some (LpInt (lp_signed (12345678900000000 + x) UINT64_MAX 0)).
Proof.
  intros E Hb. unfold lpGet. rewrite E. cbn [mbind option_bind]. apply class_ranges. done.
Qed.

(** ** Contents *)

(** [c] is the content of an entry: it starts with a valid encoding byte and
    its length is the one it encodes. *)
Record content_ok (c : bytes) : Prop := {
  co_bytes : Forall byte_ok c;
  co_size : lpCurrentEncodedSizeUnsafe c 0 = Some (zlen c);
  co_eof : c.[0] <> Some LP_EOF;
  co_pos : 0 < zlen c
}.

Lemma lp_signed_spec w v : 1 <= w <= 64 -> in_s w v -> lp_signed (v mod 2 ^ w) (2 ^ (w - 1)) (2 ^ w - 1) = v.
Proof.
  intros Hw Hv. unfold in_s in Hv. pose proof (pow2_split w ltac:(lia)).
  pose proof (Z.pow_le_mono_r 2 w 64). pose proof (Z.pow_le_mono_r 2 (w - 1) 63).
  unfold lp_signed. destruct (Z.lt_ge_cases v 0).
  - replace (v mod 2 ^ w) with (2 ^ w + v) by (rewrite <- (Z.mod_add v 1), Z.mod_small; lia).
    if_true. rewrite uwrap_small, swrap_small by (unfold in_u, in_s; lia). lia.
  - rewrite Z.mod_small by lia. if_false. by rewrite swrap_small by (unfold in_s; lia).
Qed.

(** The little-endian integer encodings: tag, width in bytes. *)
Definition int_content (tag : Z) (n : nat) (v : Z) : bytes := tag :: le_bytes n (v mod 2 ^ (8 * Z.of_nat n)).

Definition int_tag (tag : Z) (n : nat) : Prop :=
  (tag = 241 /\ n = 2%nat) \/ (tag = 242 /\ n = 3%nat) \/ (tag = 243 /\ n = 4%nat) \/ (tag = 244 /\ n = 8%nat).

Lemma signed_bias w v : 0 < 2 ^ w -> - 2 ^ w <= v < 2 ^ w -> (if v <? 0 then 2 ^ w + v else v) = v mod 2 ^ w.
Proof.
  intros Hp Hv. destruct (Z.ltb_spec v 0).
  - rewrite <- (Z.mod_add v 1), Z.mod_small by lia. lia.
  - by rewrite Z.mod_small by lia.
Qed.

Lemma le_bytes_seq n x : le_bytes n x = (fun i => x / 2 ^ (8 * Z.of_nat i) mod 256) <$> seq 0 n.
Proof.
  revert x. induction n as [|n IH]; intros x; [done|].
  unfold le_bytes; fold le_bytes. rewrite IH. cbn [seq fmap list_fmap]. f_equal.
  - change (2 ^ (8 * Z.of_nat 0)) with 1. by rewrite Z.div_1_r.
  - rewrite <- (fmap_S_seq 0 n), <- list_fmap_compose. apply list_fmap_ext. intros _ i _. cbn [compose].
    replace (8 * Z.of_nat (S i)) with (8 + 8 * Z.of_nat i) by lia.
    rewrite Z.pow_add_r, <- Z.div_div by lia. done.
Qed.

Lemma byte_mid x k : 0 <= k -> uwrap 8 (Z.land (Z.shiftr x k) 255) = x / 2 ^ k mod 256.
Proof. intros. rewrite land_255, Z.shiftr_div_pow2 by lia. unfold uwrap. by rewrite Z.mod_mod. Qed.

Lemma byte_low x : uwrap 8 (Z.land x 255) = x / 2 ^ 0 mod 256.
Proof. rewrite land_255, Z.div_1_r. unfold uwrap. by rewrite Z.mod_mod. Qed.

Lemma encode_int_cases v : in_s 64 v ->
  (0 <= v <= 127 /\ lpEncodeInt v = [v])
  \/ (in_s 13 v /\ lpEncodeInt v = [192 + v mod 2 ^ 13 / 256; v mod 2 ^ 13 mod 256])
  \/ exists tag n, int_tag tag n
       /\ in_s (8 * Z.of_nat n) v /\ lpEncodeInt v = int_content tag n v.
Proof.
  intros Hv. unfold lpEncodeInt, in_s in *.
  case_match eqn:E0; [left; bool_hyps; split; [lia|]; cbn; by rewrite uwrap8 by (unfold byte_ok; lia)|right].
  case_match eqn:E1; [left|right].
  - bool_hyps. split; [lia|]. rewrite (signed_bias 13) by lia. set (u := v mod 2 ^ 13).
    assert (Hu : 0 <= u < 2 ^ 13) by (apply Z.mod_pos_bound; lia). cbn [fmap list_fmap].
    rewrite byte_low, Z.div_1_r, Z.shiftr_div_pow2 by lia. change (2 ^ 8) with 256.
    rewrite (lor_add _ _ 6) by (try (by exists 3); Z.to_euclidean_division_equations; lia).
    rewrite uwrap8 by (unfold byte_ok; Z.to_euclidean_division_equations; lia).
    f_equal. lia.
  - case_match eqn:E2; [exists 241, 2%nat|case_match eqn:E3; [exists 242, 3%nat|case_match eqn:E4; [exists 243, 4%nat|exists 244, 8%nat]]];
      bool_hyps; (split; [unfold int_tag; lia|]); (split; [lia|]); unfold int_content; rewrite le_bytes_seq;
      [rewrite (signed_bias 16) by lia|rewrite (signed_bias 24) by lia|rewrite (signed_bias 32) by lia|change (uwrap 64 v) with (v mod 2 ^ 64)];
      cbn [fmap list_fmap seq]; rewrite ?byte_mid, ?byte_low by lia;
      rewrite ?Z.shiftr_div_pow2 by lia; done.
Qed.

Lemma bslice_tail c (l : bytes) n : n = zlen l -> bslice (c :: l) 1 n = Some l.
Proof.
  intros ->. pose proof (bslice_app_at [c] l [] 1 (zlen l)) as E. rewrite app_nil_r in E. by apply E.
Qed.

Lemma get_int_content tag n l : int_tag tag n ->
  lpGet (tag :: l) 0
  = (s ← bslice (tag :: l) 1 (Z.of_nat n);
     Some (LpInt (lp_signed (or_bytes 0 s) (2 ^ (8 * Z.of_nat n - 1)) (2 ^ (8 * Z.of_nat n) - 1)))).
Proof. intros [[-> ->]|[[-> ->]|[[-> ->]|[-> ->]]]]; reflexivity. Qed.

Lemma size_int_content tag n l : int_tag tag n -> lpCurrentEncodedSizeUnsafe (tag :: l) 0 = Some (1 + Z.of_nat n).
Proof. intros [[-> ->]|[[-> ->]|[[-> ->]|[-> ->]]]]; reflexivity. Qed.

Lemma int_content_ok tag n v : int_tag tag n -> in_s (8 * Z.of_nat n) v ->
  content_ok (int_content tag n v) /\ lpGet (int_content tag n v) 0 = Some (LpInt v).
Proof.
  intros Ht Hv. unfold int_content. set (u := v mod _).
  pose proof (le_bytes_ok n u) as Hok. pose proof (length_le_bytes n u) as Hlen.
  assert (Hr : 1 <= 8 * Z.of_nat n <= 64 /\ 241 <= tag <= 244) by (unfold int_tag in Ht; lia).
  split.
  - split; [constructor; [unfold byte_ok; lia|done]| | |cbn [length]; lia].
    + rewrite (size_int_content tag n) by done. cbn [length]. rewrite Hlen. f_equal. lia.
    + cbn. unfold LP_EOF. intros [= E]. lia.
  - rewrite (get_int_content tag n) by done. rewrite bslice_tail by lia. cbn [mbind option_bind].
    rewrite or_bytes_val, le_val_bytes by done. unfold u. rewrite Z.mod_mod by lia.
    by rewrite lp_signed_spec by (lia || done).
Qed.

Lemma int7_ok v : 0 <= v <= 127 -> content_ok [v] /\ lpGet [v] 0 = Some (LpInt v).
Proof.
  intros Hv. assert (Hb : byte_ok v) by (unfold byte_ok; lia). assert (E : [v].[0] = Some v) by done. split.
  - split; [by constructor| |rewrite E; unfold LP_EOF; intros [= ->]; lia|cbn; lia].
    rewrite (size_ranges _ 0 v) by done. by if_true.
  - rewrite (get_ranges _ 0 v) by done. if_true.
    do 2 f_equal. replace (Z.land v 0x7f) with (v mod 128) by (symmetry; apply land_127).
    rewrite Z.mod_small by lia. unfold lp_signed, UINT64_MAX. if_false.
    apply swrap_small; [lia|unfold in_s; lia].
Qed.

Lemma int13_ok v : in_s 13 v ->
  let c := [192 + v mod 2 ^ 13 / 256; v mod 2 ^ 13 mod 256] in content_ok c /\ lpGet c 0 = Some (LpInt v).
Proof.
  intros Hv c. pose proof (lp_signed_spec 13 v ltac:(lia) Hv) as Hs. set (u := v mod 2 ^ 13) in *.
  assert (Hu : 0 <= u < 2 ^ 13) by (apply Z.mod_pos_bound; lia).
  assert (Hx : 0 <= u / 256 < 32) by (split; [apply Z.div_pos; lia|apply Z.div_lt_upper_bound; lia]).
  assert (Hy : byte_ok (u mod 256)) by (apply Z.mod_pos_bound; lia).
  set (x := 192 + u / 256) in *. assert (Hb : byte_ok x) by (unfold byte_ok, x; lia).
  assert (Ec : c.[0] = Some x) by done. split.
  - split; [constructor; [done|by constructor]| |rewrite Ec; unfold LP_EOF; intros [= E]; lia|cbn; lia].
    rewrite (size_ranges _ 0 x) by done. if_false. if_false. by if_true.
  - rewrite (get_ranges _ 0 x) by done. if_false. if_false. if_true.
    change (c.[0 + 1]) with (Some (u mod 256)). cbn [mbind option_bind]. do 2 f_equal.
    transitivity (lp_signed u (2 ^ (13 - 1)) (2 ^ 13 - 1)); [|exact Hs].
    rewrite int13_range by (done || lia). pose proof (Z.div_mod u 256 ltac:(lia)).
    replace ((x - 192) * 256 + u mod 256) with u by lia. done.
Qed.

Lemma encode_int_ok v : in_s 64 v -> content_ok (lpEncodeInt v) /\ lpGet (lpEncodeInt v) 0 = Some (LpInt v).
Proof.
  intros Hv. destruct (encode_int_cases v Hv) as [[Hr ->]|[[Hr ->]|(tag & n & Ht & Hr & ->)]].
  - by apply int7_ok.
  - by apply int13_ok.
  - by apply int_content_ok.
Qed.

Lemma lpStringToInt64_string2ll s : lpStringToInt64 s (zlen s) = string2ll s (zlen s).
Proof.
  unfold lpStringToInt64, string2ll, lpStringToInt64_digits, string2ll_digits.
  destruct (zlen s =? 0); [done|]. destruct (s.[0]) as [c0|] eqn:E0; [|done]. cbn [mbind option_bind].
  destruct (zlen s =? 1) eqn:E1.
  - destruct (schar c0 =? 48) eqn:Ez; [done|]. cbn [andb]. destruct (schar c0 =? 45); [done|].
    cbn [mbind option_bind]. by destruct (_ && _).
  - cbn [andb]. destruct (schar c0 =? 45).
    + destruct (s.[1]) as [c|]; [|done]. cbn [mbind option_bind]. destruct (_ && _); [done|]. by rewrite andb_false_r.
    + cbn [mbind option_bind]. destruct (_ && _); [done|]. by rewrite andb_false_r.
Qed.

Lemma str6_ok s : Forall byte_ok s -> zlen s < 64 ->
  let c := (128 + zlen s) :: s in
  content_ok c /\ lpGetText c 0 = Some s.
Proof.
  intros Hs Hl c. set (x := 128 + zlen s) in *. assert (Hb : byte_ok x) by (unfold byte_ok, x; lia).
  assert (Ec : c.[0] = Some x) by done. pose proof (len6_range x ltac:(lia)) as El. split.
  - split; [by constructor| |rewrite Ec; unfold LP_EOF; intros [= E]; lia|cbn; lia].
    rewrite (size_ranges _ 0 x) by done. if_false. if_true. rewrite El. f_equal. unfold c. cbn [length]. lia.
  - unfold lpGetText. rewrite (get_ranges _ 0 x) by done. if_false. if_true. cbn [mbind option_bind].
    rewrite El. change (0 + 1) with 1. apply bslice_tail. lia.
Qed.

Lemma str12_ok s : Forall byte_ok s -> zlen s < 4096 ->
  let c := (224 + zlen s / 256) :: zlen s mod 256 :: s in
  content_ok c /\ lpGetText c 0 = Some s.
Proof.
  intros Hs Hl c. set (n := zlen s) in *.
  assert (Hx : 0 <= n / 256 < 16) by (split; [apply Z.div_pos; lia|apply Z.div_lt_upper_bound; lia]).
  assert (Hy : byte_ok (n mod 256)) by (apply Z.mod_pos_bound; lia).
  set (x := 224 + n / 256) in *. assert (Hb : byte_ok x) by (unfold byte_ok, x; lia).
  assert (Ec : c.[0] = Some x) by done. assert (Ec1 : c.[0 + 1] = Some (n mod 256)) by done.
  assert (El : LP_ENCODING_12BIT_STR_LEN x (n mod 256) = n).
  { rewrite len12_range by (done || lia). pose proof (Z.div_mod n 256 ltac:(lia)). lia. }
  split.
  - split; [constructor; [done|by constructor]| |rewrite Ec; unfold LP_EOF; intros [= E]; lia|cbn; lia].
    rewrite (size_ranges _ 0 x), Ec1 by done. do 3 if_false. if_true. cbn [mbind option_bind].
    rewrite El. f_equal. unfold c. cbn [length]. lia.
  - unfold lpGetText. rewrite (get_ranges _ 0 x), Ec1 by done. do 3 if_false. if_true. cbn [mbind option_bind].
    rewrite El. pose proof (bslice_app_at [x; n mod 256] s [] 2 n) as E. rewrite app_nil_r in E. by apply E.
Qed.

Lemma str32_ok s : Forall byte_ok s -> zlen s < 2 ^ 32 - 5 ->
  let c := 240 :: le_bytes 4 (zlen s) ++ s in
  content_ok c /\ lpGetText c 0 = Some s.
Proof.
  intros Hs Hl c. assert (Ec : c.[0] = Some 240) by done.
  assert (Esl : bslice c 1 4 = Some (le_bytes 4 (zlen s))).
  { apply (bslice_app_at [240] (le_bytes 4 (zlen s)) s); [done|]. by rewrite length_le_bytes. }
  assert (El : or_bytes 0 (le_bytes 4 (zlen s)) = zlen s).
  { rewrite or_bytes_val, le_val_bytes by apply le_bytes_ok. apply Z.mod_small. cbn. lia. }
  split.
  - split; [constructor; [done|apply Forall_app; split; [apply le_bytes_ok|done]]| |done|cbn; lia].
    unfold lpCurrentEncodedSizeUnsafe. rewrite Ec. cbn [mbind option_bind]. change (0 + 1) with 1. rewrite Esl.
    cbn -[or_bytes le_bytes uwrap length]. rewrite El, uwrap_small by (unfold in_u; lia). f_equal. unfold c. cbn [length].
    rewrite length_app, length_le_bytes. lia.
  - unfold lpGetText, lpGet. rewrite Ec. cbn [mbind option_bind]. change (0 + 1) with 1. rewrite Esl.
    cbn -[or_bytes le_bytes bslice]. rewrite El.
    pose proof (bslice_app_at (240 :: le_bytes 4 (zlen s)) s [] 5 (zlen s)) as E. rewrite app_nil_r in E. apply E; [|done].
    cbn [length]. by rewrite length_le_bytes.
Qed.

Lemma encode_string_ok s : Forall byte_ok s -> zlen s < 2 ^ 32 - 5 ->
  content_ok (lpEncodeString s (zlen s)) /\ lpGetText (lpEncodeString s (zlen s)) 0 = Some s
  /\ zlen (lpEncodeString s (zlen s)) = (if zlen s <? 64 then 1 + zlen s else if zlen s <? 4096 then 2 + zlen s else 5 + zlen s).
Proof.
  intros Hs Hl. unfold lpEncodeString. rewrite take_ge by lia.
  destruct (zlen s <? 64) eqn:E0; [|destruct (zlen s <? 4096) eqn:E1]; cbn [fmap list_fmap app].
  - rewrite Z.lor_comm. rewrite Z.lor_comm, (lor_add _ _ 7) by (try lia; by exists 1).
    rewrite uwrap8 by (unfold byte_ok; lia). rewrite (Z.add_comm (zlen s)).
    destruct (str6_ok s Hs ltac:(lia)). split; [done|]. split; [done|]. cbn [length]. lia.
  - rewrite byte_low, Z.div_1_r, Z.shiftr_div_pow2 by lia. change (2 ^ 8) with 256.
    assert (0 <= zlen s / 256 < 16) by (split; [apply Z.div_pos; lia|apply Z.div_lt_upper_bound; lia]).
    rewrite (lor_add _ _ 5) by (try lia; by exists 7). rewrite uwrap8 by (unfold byte_ok; lia).
    rewrite (Z.add_comm (zlen s / 256)).
    destruct (str12_ok s Hs ltac:(lia)). split; [done|]. split; [done|]. cbn [length]. lia.
  - rewrite !byte_mid, byte_low by lia.
    destruct (str32_ok s Hs ltac:(lia)) as [Hc Ht]. cbn zeta in Hc, Ht. rewrite le_bytes_seq in Hc, Ht.
    split; [exact Hc|]. split; [exact Ht|]. cbn [length]. lia.
Qed.

(** The content stored for an element. *)
Definition lp_content (ele : bytes) : bytes :=
  match lpStringToInt64 ele (zlen ele) with
  | Some (Some v) => lpEncodeInt v
  | _ => lpEncodeString ele (zlen ele)
  end.

Lemma snprintf_canonical s v : canonical s v -> snprintf_lld v = s.
Proof.
  intros (Hv & d & Hd & ->). unfold snprintf_lld. destruct (magnitude_spec v Hv) as [-> Hr].
  destruct (digits10_ndigits (Z.abs v)) as (d' & -> & Hd' & _); [lia|]. rewrite Nat2Z.id.
  by rewrite (ndigits_unique d' d (Z.abs v)).
Qed.

Lemma content_spec ele : Forall byte_ok ele ->
  exists t, lpEncodeGetType ele (zlen ele) = Some (t, zlen (lp_content ele))
    /\ lp_content ele = match t with LP_ENCODING_INT e => e | LP_ENCODING_STRING => lpEncodeString ele (zlen ele) end
    /\ (zlen (lp_content ele) < 2 ^ 32 ->
        content_ok (lp_content ele) /\ lpGetText (lp_content ele) 0 = Some ele).
Proof.
  intros Hok. unfold lpEncodeGetType, lp_content. rewrite lpStringToInt64_string2ll.
  destruct (string2ll_spec ele Hok) as (r & -> & Hr). cbn [mbind option_bind]. destruct r as [v|].
  - exists (LP_ENCODING_INT (lpEncodeInt v)). split; [done|]. split; [done|]. intros _.
    pose proof (proj1 (Hr v) eq_refl) as Hc. destruct (encode_int_ok v (proj1 Hc)) as [Hco Hg].
    split; [done|]. unfold lpGetText. rewrite Hg. cbn. by rewrite (snprintf_canonical ele v).
  - exists LP_ENCODING_STRING.
    assert (El : zlen (lpEncodeString ele (zlen ele))
                 = if zlen ele <? 64 then 1 + zlen ele else if zlen ele <? 4096 then 2 + zlen ele else 5 + zlen ele).
    { unfold lpEncodeString. rewrite take_ge, length_app, length_fmap by lia. repeat case_match; cbn [length]; lia. }
    split; [by rewrite El|]. split; [done|]. intros Hl. rewrite El in Hl.
    destruct (encode_string_ok ele Hok) as (? & ? & _); [repeat case_match; lia|done].
Qed.

(** ** Blocks *)

Definition lp_header (total num : Z) : bytes := le_bytes 4 total ++ le_bytes 2 num.
Definition lp_entry (c : bytes) : bytes := c ++ lpEncodeBacklen (zlen c).
Definition lp_body (cs : list bytes) : bytes := concat (lp_entry <$> cs).

(** The offset of the entry after those in [cs]. *)
Definition lp_off (cs : list bytes) : Z := LP_HDR_SIZE + zlen (lp_body cs).

(** The count in the header is the number of entries, or unknown. *)
Definition num_ok (num : Z) (cs : list bytes) : Prop :=
  num = LP_HDR_NUMELE_UNKNOWN \/ (num = zlen cs /\ num < LP_HDR_NUMELE_UNKNOWN).

Record lp_rep (cs : list bytes) (lp : bytes) : Prop := {
  lr_contents : Forall content_ok cs;
  lr_size : lp_off cs + 1 < 2 ^ 32;
  lr_block : exists num tail, num_ok num cs
             /\ lp = lp_header (lp_off cs + 1) num ++ lp_body cs ++ LP_EOF :: tail
}.

Lemma zlen_header total num : zlen (lp_header total num) = LP_HDR_SIZE.
Proof. unfold lp_header. by rewrite length_app, !length_le_bytes. Qed.

Lemma lp_body_app cs1 cs2 : lp_body (cs1 ++ cs2) = lp_body cs1 ++ lp_body cs2.
Proof. unfold lp_body. by rewrite fmap_app, concat_app. Qed.

Lemma lp_body_cons c cs : lp_body (c :: cs) = lp_entry c ++ lp_body cs.
Proof. done. Qed.

Lemma lp_off_app cs1 cs2 : lp_off (cs1 ++ cs2) = lp_off cs1 + zlen (lp_body cs2).
Proof. unfold lp_off. rewrite lp_body_app, length_app. lia. Qed.

Lemma total_header total num rest : in_u 32 total ->
  lpGetTotalBytes (lp_header total num ++ rest) = Some total.
Proof.
  intros Ht. unfold lpGetTotalBytes, lp_header. rewrite <- app_assoc.
  pose proof (bslice_app_at [] (le_bytes 4 total) (le_bytes 2 num ++ rest) 0 4) as E. cbn [app] in E.
  rewrite E by (done || by rewrite length_le_bytes). cbn [mbind option_bind].
  rewrite or_bytes_val, le_val_bytes by apply le_bytes_ok. f_equal. by apply Z.mod_small.
Qed.

Lemma num_header total num rest : in_u 16 num ->
  lpGetNumElements (lp_header total num ++ rest) = Some num.
Proof.
  intros Hn. unfold lpGetNumElements, lp_header. rewrite <- app_assoc.
  rewrite (bslice_app_at (le_bytes 4 total) (le_bytes 2 num)) by (by rewrite length_le_bytes). cbn [mbind option_bind].
  rewrite or_bytes_val, le_val_bytes by apply le_bytes_ok. f_equal. by apply Z.mod_small.
Qed.

Lemma set_total_header total num rest v :
  lpSetTotalBytes (lp_header total num ++ rest) v = Some (lp_header v num ++ rest).
Proof.
  unfold lpSetTotalBytes, lp_header. rewrite split_bytes_le, <- !app_assoc.
  apply (bwrite_app []); [done|]. by rewrite !length_le_bytes.
Qed.

Lemma set_num_header total num rest v :
  lpSetNumElements (lp_header total num ++ rest) v = Some (lp_header total v ++ rest).
Proof.
  unfold lpSetNumElements, lp_header. rewrite split_bytes_le, <- !app_assoc.
  apply bwrite_app; by rewrite !length_le_bytes.
Qed.

Lemma num_ok_range num cs : num_ok num cs -> in_u 16 num.
Proof. unfold num_ok, LP_HDR_NUMELE_UNKNOWN, in_u. lia. Qed.

(** ** Contents inside a block *)

Lemma sizebytes_ranges b p x : b.[p] = Some x -> byte_ok x ->
  lpCurrentEncodedSizeBytes b p
  = if x <? 224 then Some 1 else if x <? 240 then Some 2 else if x =? 240 then Some 5
    else if x <=? 244 then Some 1 else if x =? LP_EOF then Some 1 else Some 0.
Proof.
  intros E Hb. unfold lpCurrentEncodedSizeBytes. rewrite E. cbn [mbind option_bind]. rewrite class_ranges by done.
  repeat (case_match; bool_hyps; try done; try lia).
Qed.

Ltac content_done Hs := apply (inj Some) in Hs; split_and!; (done || lia).

(** What [content_ok] says of the first byte and the sizes. *)
Lemma content_facts c : content_ok c ->
  exists x k, c.[0] = Some x /\ byte_ok x /\ x <> LP_EOF /\ lpCurrentEncodedSizeBytes c 0 = Some k
    /\ 0 < k <= zlen c /\ zlen c < 2 ^ 32.
Proof.
  intros [Hb Hs He Hp]. destruct c as [|x c]; [cbn in Hp; lia|].
  assert (Ec : (x :: c).[0] = Some x) by done. apply Forall_cons in Hb as [Hx Hc].
  exists x. rewrite (sizebytes_ranges _ 0 x) by done.
  assert (Hxe : x <> LP_EOF) by (intros ->; by apply He).
  rewrite (size_ranges _ 0 x) in Hs by done. unfold LP_EOF in *.
  pose proof (len6_range x) as H6.
  destruct (x <? 128) eqn:?; [exists 1; if_true; content_done Hs|].
    destruct (x <? 192) eqn:?; [exists 1; if_true; rewrite H6 in Hs by lia; content_done Hs|].
  destruct (x <? 224) eqn:?; [exists 1; content_done Hs|].
  destruct (x <? 240) eqn:?.
  { exists 2. change (0 + 1) with 1 in Hs. destruct c as [|y c]; [done|]. change ((x :: y :: c).[1]) with (Some y) in Hs.
    cbn [mbind option_bind] in Hs. apply Forall_cons in Hc as [Hy _]. rewrite len12_range in Hs by (done || lia).
    unfold byte_ok in Hy. content_done Hs. }
  destruct (x =? 240) eqn:?.
  { exists 5. destruct (bslice (x :: c) (0 + 1) 4) as [s|] eqn:Es; [|done]. cbn [mbind option_bind] in Hs.
    apply bslice_Some in Es as (a & b & E & Ha & Hl). apply (inj Some) in Hs.
    pose proof (uwrap_range 32 (5 + or_bytes 0 s) ltac:(lia)) as Hu. rewrite Hs in Hu. unfold in_u in Hu.
    assert (5 <= zlen (x :: c)) by (rewrite E, !length_app; lia).
    split_and!; (done || lia). }
  destruct (x =? 241) eqn:?; [exists 1; if_true; content_done Hs|].
  destruct (x =? 242) eqn:?; [exists 1; if_true; content_done Hs|].
  destruct (x =? 243) eqn:?; [exists 1; if_true; content_done Hs|].
  destruct (x =? 244) eqn:?; [exists 1; if_true; content_done Hs|].
  replace (x =? 255) with false in Hs by lia. apply (inj Some) in Hs. cbn [length] in Hs. lia.
Qed.

(** ** Navigation *)

Lemma zlen_backlen l : 0 <= l < 2 ^ 35 -> 1 <= zlen (lpEncodeBacklen l) <= 5.
Proof. intros. rewrite encode_backlen_bytes by done. unfold backlen_bytes. repeat case_match; cbn; lia. Qed.

Lemma zlen_entry c : zlen (lp_entry c) = zlen c + zlen (lpEncodeBacklen (zlen c)).
Proof. unfold lp_entry. rewrite length_app. lia. Qed.

Lemma rep_total cs lp : lp_rep cs lp -> lpGetTotalBytes lp = Some (lp_off cs + 1).
Proof.
  intros [_ Hs (num & tail & _ & ->)]. apply total_header. unfold in_u, lp_off, LP_HDR_SIZE in *. lia.
Qed.

(** The block around the entry of [c]. *)
Lemma rep_split cs1 c cs2 lp : lp_rep (cs1 ++ c :: cs2) lp ->
  exists pre post, lp = pre ++ lp_entry c ++ post /\ zlen pre = lp_off cs1 /\ content_ok c
    /\ lp_off cs1 + zlen (lp_entry c) <= lp_off (cs1 ++ c :: cs2).
Proof.
  intros [Hc _ (num & tail & _ & ->)].
  exists (lp_header (lp_off (cs1 ++ c :: cs2) + 1) num ++ lp_body cs1), (lp_body cs2 ++ LP_EOF :: tail).
  rewrite lp_body_app, lp_body_cons, <- !app_assoc. split; [done|].
  split; [by rewrite length_app, Nat2Z.inj_add, zlen_header|].
  apply Forall_app in Hc as [_ Hc]. apply Forall_cons in Hc as [Hc _]. split; [done|].
  rewrite lp_off_app, lp_body_cons, length_app. lia.
Qed.

Lemma lp_off_snoc cs c : lp_off (cs ++ [c]) = lp_off cs + zlen (lp_entry c).
Proof. rewrite lp_off_app, lp_body_cons. unfold lp_body. cbn. by rewrite app_nil_r. Qed.

(** The byte at a boundary: the terminator exactly at the end. *)
Lemma rep_boundary cs1 cs2 lp : lp_rep (cs1 ++ cs2) lp ->
  exists x, lp.[lp_off cs1] = Some x /\ (x =? LP_EOF) = match cs2 with [] => true | _ => false end.
Proof.
  intros Hr. destruct cs2 as [|c cs2].
  - rewrite app_nil_r in Hr. destruct Hr as [_ _ (num & tail & _ & ->)]. exists LP_EOF. split; [|done].
    rewrite app_assoc. apply bget_app. by rewrite length_app, Nat2Z.inj_add, zlen_header.
  - destruct (rep_split _ _ _ _ Hr) as (pre & post & -> & Hp & Hc & _).
    destruct (content_facts c Hc) as (x & k & Hx & _ & Hne & _). exists x. split; [|lia].
    rewrite <- Hp. unfold lp_entry. rewrite <- app_assoc. pose proof (bget_shift pre c (lpEncodeBacklen (zlen c) ++ post) 0 x Hx) as E.
    by rewrite Z.add_0_r in E.
Qed.

(** What the code reads around the entry of [c]. *)
Lemma entry_reads cs1 c cs2 lp : lp_rep (cs1 ++ c :: cs2) lp ->
  let p := lp_off cs1 in
  let b := zlen (lpEncodeBacklen (zlen c)) in
  lpCurrentEncodedSizeUnsafe lp p = Some (zlen c)
  /\ (exists k, lpCurrentEncodedSizeBytes lp p = Some k /\ 0 < k <= zlen c)
  /\ lpDecodeBacklen lp (p + zlen c + b - 1) = Some (zlen c)
  /\ LP_HDR_SIZE <= p /\ 1 <= b <= 5 /\ 0 < zlen c < 2 ^ 32 /\ p + zlen c + b <= lp_off (cs1 ++ c :: cs2)
  /\ lp_off (cs1 ++ [c]) = p + zlen c + b.
Proof.
  intros Hr p b. destruct (rep_split _ _ _ _ Hr) as (pre & post & E & Hp & Hc & Hle).
  destruct (content_facts c Hc) as (_ & k & _ & _ & _ & Hk & Hkr & Hlen).
  pose proof (zlen_backlen (zlen c) ltac:(lia)) as Hb. pose proof (zlen_entry c) as He.
  assert (E' : lp = pre ++ c ++ lpEncodeBacklen (zlen c) ++ post) by (rewrite E; unfold lp_entry; by rewrite <- app_assoc).
  split_and!; try (unfold p, b, lp_off, LP_HDR_SIZE in *; lia).
  - rewrite E'. unfold p. rewrite <- Hp. apply size_shift, Hc.
  - exists k. split; [|done]. rewrite E'. unfold p. rewrite <- Hp. by apply sizebytes_shift.
  - rewrite E', app_assoc. replace (p + zlen c + b - 1) with (zlen (pre ++ c) + b - 1) by (rewrite length_app; unfold p; lia).
    apply backlen_decode. lia.
  - rewrite lp_off_snoc. unfold p, b. lia.
Qed.

Lemma skip_rep cs1 c cs2 lp : lp_rep (cs1 ++ c :: cs2) lp -> lpSkip lp (lp_off cs1) = Some (lp_off (cs1 ++ [c])).
Proof.
  intros Hr. destruct (entry_reads _ _ _ _ Hr) as (S1 & _ & _ & _ & _ & _ & _ & ->).
  unfold lpSkip. rewrite S1. cbn. f_equal. lia.
Qed.

Lemma validate_rep cs1 c cs2 lp : lp_rep (cs1 ++ c :: cs2) lp ->
  lpValidateNext lp (Some (lp_off cs1)) (lp_off (cs1 ++ c :: cs2) + 1) = Some (Some (Some (lp_off (cs1 ++ [c])))).
Proof.
  intros Hr. destruct (rep_boundary cs1 (c :: cs2) lp Hr) as (x & Hx & Hne).
  destruct (entry_reads _ _ _ _ Hr) as (S1 & (k & S2 & Hk) & S3 & Hp & Hb & Hlen & Hle & ->).
  unfold lpValidateNext, OUT_OF_RANGE. if_false. rewrite Hx. cbn [mbind option_bind]. rewrite Hne, S2.
  cbn [mbind option_bind]. if_false. if_false. rewrite S1. cbn [mbind option_bind]. if_false.
  replace (lp_off cs1 + (zlen c + zlen (lpEncodeBacklen (zlen c))) - 1)
    with (lp_off cs1 + zlen c + zlen (lpEncodeBacklen (zlen c)) - 1) by lia.
  rewrite S3. cbn [mbind option_bind]. rewrite uwrap_small, Z.eqb_refl by (unfold in_u; lia). cbn [negb].
  do 3 f_equal. lia.
Qed.

Lemma assert_rep cs1 c cs2 lp : lp_rep (cs1 ++ c :: cs2) lp ->
  lpAssertValidEntry lp (lp_off (cs1 ++ c :: cs2) + 1) (lp_off cs1) = Some tt.
Proof. intros Hr. unfold lpAssertValidEntry. by rewrite validate_rep. Qed.

(** A pointer to the first of [cs2], after [cs1]. *)
Definition lp_ptr (cs1 cs2 : list bytes) : option Z :=
  match cs2 with [] => None | _ => Some (lp_off cs1) end.

(** The common end of the navigation functions. *)
Lemma arrive_rep cs1 cs2 lp : lp_rep (cs1 ++ cs2) lp ->
  (c ← lp.[lp_off cs1];
   if c =? LP_EOF then Some None
   else n ← lpBytes lp; _ ← lpAssertValidEntry lp n (lp_off cs1); Some (Some (lp_off cs1)))
  = Some (lp_ptr cs1 cs2).
Proof.
  intros Hr. destruct (rep_boundary _ _ _ Hr) as (x & -> & Hx). cbn [mbind option_bind]. rewrite Hx.
  destruct cs2 as [|c cs2]; [done|]. unfold lpBytes. rewrite (rep_total _ _ Hr). cbn [mbind option_bind].
  by rewrite assert_rep.
Qed.

Lemma next_rep cs1 c cs2 lp : lp_rep (cs1 ++ c :: cs2) lp -> lpNext lp (lp_off cs1) = Some (lp_ptr (cs1 ++ [c]) cs2).
Proof.
  intros Hr. unfold lpNext. rewrite (skip_rep _ _ _ _ Hr). cbn [mbind option_bind].
  apply arrive_rep. by rewrite <- app_assoc.
Qed.

Lemma first_rep cs lp : lp_rep cs lp -> lpFirst lp = Some (lp_ptr [] cs).
Proof. intros Hr. apply (arrive_rep [] cs lp Hr). Qed.

Lemma prev_rep cs1 c cs2 lp : lp_rep (cs1 ++ c :: cs2) lp -> lpPrev lp (lp_off (cs1 ++ [c])) = Some (Some (lp_off cs1)).
Proof.
  intros Hr. unfold lpPrev, lpBytes. rewrite (rep_total _ _ Hr). pose proof (assert_rep _ _ _ _ Hr) as Ha.
  destruct (entry_reads _ _ _ _ Hr) as (_ & _ & S3 & Hp & Hb & Hlen & Hle & ->). if_false.
  rewrite S3. cbn [mbind option_bind].
  rewrite (uwrap_small 64 (zlen c + _)) by (unfold in_u; lia). rewrite uwrap_small by (unfold in_u; lia).
  replace (_ - 1 - _) with (lp_off cs1) by lia. by rewrite Ha.
Qed.

Lemma prev_rep_first lp : lpPrev lp (lp_off []) = Some None.
Proof. done. Qed.

Lemma last_rep cs lp : lp_rep cs lp ->
  lpLast lp = Some (match cs with [] => None | _ => Some (lp_off (take (length cs - 1) cs)) end).
Proof.
  intros Hr. unfold lpLast. rewrite (rep_total _ _ Hr). cbn [mbind option_bind].
  replace (lp_off cs + 1 - 1) with (lp_off cs) by lia.
  destruct (rev_case cs) as [->|(cs' & c & ->)]; [apply prev_rep_first|].
  rewrite (prev_rep cs' c [] lp) by done. rewrite length_app. cbn [length].
  replace (length cs' + 1 - 1)%nat with (length cs') by lia. rewrite take_app_length. by destruct cs'.
Qed.

(** The pointer to element [i] counting from the head, or from the tail when
    [i] is negative. *)
Definition elem_ptr (cs : list bytes) (i : Z) : option Z :=
  let j := if i <? 0 then zlen cs + i else i in
  if (0 <=? j) && (j <? zlen cs) then Some (lp_off (take (Z.to_nat j) cs)) else None.

Lemma elem_ptr_nat cs n : elem_ptr cs (Z.of_nat n) = lp_ptr (take n cs) (drop n cs).
Proof.
  unfold elem_ptr. replace (Z.of_nat n <? 0) with false by lia. rewrite Nat2Z.id.
  destruct (drop n cs) as [|c l] eqn:E; cbn [lp_ptr]; apply (f_equal length) in E; rewrite length_drop in E; cbn [length] in E.
  - if_false. done.
  - if_true. done.
Qed.

Lemma seek_forward_rep lp n : forall cs1 cs2, lp_rep (cs1 ++ cs2) lp ->
  seek_forward n lp (lp_ptr cs1 cs2) = Some (lp_ptr (cs1 ++ take n cs2) (drop n cs2)).
Proof.
  induction n as [|n IH]; intros cs1 cs2 Hr; cbn [seek_forward].
  { rewrite take_0, drop_0, app_nil_r. by destruct cs2. }
  destruct cs2 as [|c cs2]; cbn [lp_ptr take drop]; [done|].
  rewrite (next_rep _ _ _ _ Hr). cbn [mbind option_bind].
  rewrite IH by (by rewrite <- app_assoc). by rewrite <- app_assoc.
Qed.

Lemma seek_backward_rep lp cs n : forall m, lp_rep cs lp -> (m < length cs)%nat ->
  seek_backward n lp (Some (lp_off (take m cs)))
  = Some (if (n <=? m)%nat then Some (lp_off (take (m - n) cs)) else None).
Proof.
  induction n as [|n IH]; intros m Hr Hm; cbn [seek_backward].
  { by rewrite Nat.sub_0_r. }
  destruct m as [|m].
  { rewrite take_0, prev_rep_first. cbn. by destruct n. }
  destruct (lookup_lt_is_Some_2 cs m) as [c Hc]; [lia|].
  rewrite (take_S_r _ _ _ Hc), (prev_rep _ _ (drop (S m) cs)) by (by rewrite take_drop_middle).
  cbn [mbind option_bind]. rewrite IH by (done || lia). done.
Qed.

Lemma rep_num cs lp : lp_rep cs lp -> exists num, lpGetNumElements lp = Some num /\ num_ok num cs.
Proof.
  intros [_ _ (num & tail & Hn & ->)]. exists num. split; [|done]. apply num_header. by eapply num_ok_range.
Qed.

Lemma seek_from_forward cs lp i : lp_rep cs lp -> 0 <= i -> seek_from lp true i = Some (elem_ptr cs i).
Proof.
  intros Hr Hi. unfold seek_from. rewrite (first_rep _ _ Hr). cbn [mbind option_bind].
  rewrite (seek_forward_rep lp _ [] cs) by done. cbn [app].
  by rewrite <- elem_ptr_nat, Z2Nat.id by lia.
Qed.

Lemma seek_from_backward cs lp i : lp_rep cs lp -> i < 0 -> seek_from lp false i = Some (elem_ptr cs i).
Proof.
  intros Hr Hi. unfold seek_from. rewrite (last_rep _ _ Hr). cbn [mbind option_bind]. unfold elem_ptr. if_true.
  destruct cs as [|c cs']; [cbn [length]; if_false; by destruct (Z.to_nat _)|]. set (cs := c :: cs') in *.
  assert (Hl : (0 < length cs)%nat) by (cbn; lia). rewrite seek_backward_rep by (done || lia). f_equal.
  destruct (Nat.leb_spec (Z.to_nat (-1 - i)) (length cs - 1)).
  - if_true. do 3 f_equal. lia.
  - if_false. done.
Qed.

Lemma lpSeek_ok cs lp i : lp_rep cs lp -> lpSeek lp i = Some (elem_ptr cs i).
Proof.
  intros Hr. unfold lpSeek. destruct (rep_num _ _ Hr) as (num & -> & Hn). cbn [mbind option_bind].
  destruct (num =? LP_HDR_NUMELE_UNKNOWN) eqn:E; cbn [negb].
  - destruct (Z.ltb_spec i 0); cbn [negb]; [by apply seek_from_backward|by apply seek_from_forward].
  - assert (num = zlen cs) as -> by (unfold num_ok in Hn; lia).
    set (j := if i <? 0 then zlen cs + i else i).
    assert (Ej : elem_ptr cs i = if (0 <=? j) && (j <? zlen cs) then Some (lp_off (take (Z.to_nat j) cs)) else None) by done.
    destruct (j <? 0) eqn:E1; [rewrite Ej; by if_false|].
    destruct (j >=? zlen cs) eqn:E2; [rewrite Ej; by if_false|].
    assert (Hj : elem_ptr cs i = elem_ptr cs j) by (rewrite Ej; unfold elem_ptr; by rewrite E1).
    destruct (j >? zlen cs / 2) eqn:E3.
    + rewrite (seek_from_backward cs) by (done || lia). rewrite Hj. unfold elem_ptr. rewrite E1. if_true.
      replace (zlen cs + (j - zlen cs)) with j by lia. done.
    + rewrite Hj. apply seek_from_forward; [done|lia].
Qed.

Lemma zlen_body_ge cs : Forall content_ok cs -> 2 * zlen cs <= zlen (lp_body cs).
Proof.
  induction 1 as [|c cs Hc _ IH]; [done|]. rewrite lp_body_cons, length_app. cbn [length].
  destruct (content_facts c Hc) as (_ & _ & _ & _ & _ & _ & _ & Hl). pose proof (co_pos c Hc).
  pose proof (zlen_backlen (zlen c) ltac:(lia)). pose proof (zlen_entry c). lia.
Qed.

Lemma length_loop_rep lp : forall cs2 cs1 fuel count, lp_rep (cs1 ++ cs2) lp -> (length cs2 <= fuel)%nat ->
  lpLength_loop fuel lp (lp_ptr cs1 cs2) count = Some (count + zlen cs2).
Proof.
  induction cs2 as [|c cs2 IH]; intros cs1 fuel count Hr Hf.
  { destruct fuel; cbn; f_equal; lia. }
  destruct fuel as [|fuel]; [cbn in Hf; lia|]. cbn [lp_ptr lpLength_loop].
  rewrite (next_rep _ _ _ _ Hr). cbn [mbind option_bind].
  rewrite IH by (by rewrite <- app_assoc || (cbn in Hf; lia)). f_equal. cbn [length]. lia.
Qed.

Lemma lpLength_ok cs lp : lp_rep cs lp -> exists lp', lpLength lp = Some (zlen cs, lp') /\ lp_rep cs lp'.
Proof.
  intros Hr. unfold lpLength. destruct (rep_num _ _ Hr) as (num & -> & Hn). cbn [mbind option_bind].
  destruct (num =? LP_HDR_NUMELE_UNKNOWN) eqn:E; cbn [negb].
  2: { assert (num = zlen cs) as -> by (unfold num_ok in Hn; lia). eauto. }
  rewrite (first_rep _ _ Hr). cbn [mbind option_bind]. rewrite (length_loop_rep lp cs []); [|done|].
  - cbn [mbind option_bind]. rewrite Z.add_0_l. destruct (Z.ltb_spec (zlen cs) LP_HDR_NUMELE_UNKNOWN); [|eauto].
    destruct Hr as [Hc Hs (num' & tail & _ & ->)]. rewrite set_num_header. cbn [mbind option_bind].
    eexists. split; [done|]. split; [done|done|]. exists (zlen cs), tail. split; [by right|]. done.
  - destruct Hr as [Hc Hs (num' & tail & _ & ->)]. pose proof (zlen_body_ge cs Hc).
    rewrite !length_app. lia.
Qed.

(** ** Insertion and deletion *)

(** [memmove] of [R] from behind [mid] to [e] bytes behind [P]. *)
Lemma bmove_region (P mid R T : bytes) e : 0 <= e -> e + zlen R <= zlen mid + zlen R + zlen T ->
  exists gap T', zlen gap = e
    /\ bmove (P ++ mid ++ R ++ T) (zlen P + e) (zlen P + zlen mid) (zlen R) = Some (P ++ gap ++ R ++ T').
Proof.
  intros He Hfit. set (M := mid ++ R ++ T).
  assert (HM : zlen M = zlen mid + zlen R + zlen T) by (unfold M; rewrite !length_app; lia).
  exists (take (Z.to_nat e) M), (drop (Z.to_nat (e + zlen R)) M).
  split; [rewrite length_take; lia|]. unfold bmove.
  assert (Hs : bslice (P ++ M) (zlen P + zlen mid) (zlen R) = Some R).
  { unfold M. rewrite app_assoc. apply bslice_app_at; [rewrite length_app; lia|done]. }
  rewrite Hs. cbn [mbind option_bind]. unfold bwrite. rewrite length_app. if_true.
  replace (Z.to_nat (zlen P + e)) with (length P + Z.to_nat e)%nat by lia.
  replace (Z.to_nat (zlen P + e + zlen R)) with (length P + Z.to_nat (e + zlen R))%nat by lia.
  rewrite take_app_add, drop_app_add. by rewrite <- app_assoc.
Qed.

Section insert.
Context `{Alloc}.

Definition new_bytes (new : option (bytes * bytes)) : bytes :=
  match new with Some (e, b) => e ++ b | None => [] end.

Definition new_num (replace : bool) (new : option (bytes * bytes)) (num : Z) : Z :=
  match replace, new with
  | true, Some _ => num
  | _, _ => if num =? LP_HDR_NUMELE_UNKNOWN then num else match new with Some _ => num + 1 | None => num - 1 end
  end.

(** The room before the entry is stored. *)
Lemma make_room (P mid R T : bytes) e :
  let old := zlen P + zlen mid + zlen R in
  let new := zlen P + e + zlen R in
  0 <= e ->
  let lp0 := P ++ mid ++ R ++ T in
  let lp1 := if (new >? old) && (new >? zlen lp0) then zrealloc lp0 new else lp0 in
  exists gap T', zlen gap = e /\
    (lp2 ← bmove lp1 (zlen P + e) (zlen P + zlen mid) (zlen R);
     Some (if new <? old then zrealloc lp2 new else lp2)) = Some (P ++ gap ++ R ++ T').
Proof.
  intros old new He lp0 lp1.
  assert (H1 : exists T1, lp1 = P ++ mid ++ R ++ T1 /\ e <= zlen mid + zlen T1).
  { unfold lp1. assert (Hl : zlen lp0 = old + zlen T) by (unfold lp0, old; rewrite !length_app; lia).
    destruct ((new >? old) && (new >? zlen lp0)) eqn:E.
    - destruct (zrealloc_grow lp0 new) as (fresh & -> & Hf & _); [lia|]. exists (T ++ fresh).
      unfold lp0. rewrite <- !app_assoc. split; [done|]. rewrite length_app. unfold old, new in *. lia.
    - exists T. split; [done|]. unfold old, new in *. lia. }
  destruct H1 as (T1 & -> & Hfit).
  destruct (bmove_region P mid R T1 e He) as (gap & T2 & Hg & ->); [lia|]. cbn [mbind option_bind].
  exists gap. destruct (Z.ltb_spec new old); [exists []|exists T2; done]. split; [done|]. f_equal.
  rewrite app_nil_r, !app_assoc. apply zrealloc_shrink. rewrite !length_app. unfold new. lia.
Qed.

Lemma write_entry (P gap X : bytes) new off : off = zlen P -> zlen gap = zlen (new_bytes new) ->
  match new with
  | Some (e, b) => lp ← bwrite (P ++ gap ++ X) off e; bwrite lp (off + zlen e) b
  | None => Some (P ++ gap ++ X)
  end = Some (P ++ new_bytes new ++ X).
Proof.
  intros -> Hg. destruct new as [[e b]|]; cbn [new_bytes] in *.
  - rewrite length_app in Hg. destruct (split_at gap (length e)) as (g1 & g2 & -> & H1); [lia|].
    rewrite length_app in Hg. rewrite <- !app_assoc.
    rewrite (bwrite_app P g1 (g2 ++ X) e) by (done || lia). cbn [mbind option_bind].
    pose proof (bwrite_app (P ++ e) g2 X b (zlen P + zlen e)) as E2. rewrite <- !app_assoc in E2.
    apply E2; [rewrite length_app; lia|lia].
  - by destruct gap; [|cbn in Hg; lia].
Qed.

Lemma store_ok num B mid R T r0 new (replace : bool) :
  let old := LP_HDR_SIZE + zlen B + zlen mid + zlen R in
  let newb := LP_HDR_SIZE + zlen B + zlen (new_bytes new) + zlen R in
  in_u 16 num -> (replace = false -> mid = []) -> R.[0] = Some r0 ->
  exists T',
    lpInsert_store (lp_header old num ++ B ++ mid ++ R ++ T) new (LP_HDR_SIZE + zlen B) replace (zlen mid) old newb
    = Some (lp_header newb (new_num replace new num) ++ B ++ new_bytes new ++ R ++ T',
            match new with Some _ => Some (LP_HDR_SIZE + zlen B)
                      | None => if r0 =? LP_EOF then None else Some (LP_HDR_SIZE + zlen B) end).
Proof.
  intros old newb Hn Hmid Hr0. unfold lpInsert_store. set (P := lp_header old num ++ B).
  assert (HP : zlen P = LP_HDR_SIZE + zlen B) by (unfold P; by rewrite length_app, Nat2Z.inj_add, zlen_header).
  rewrite (app_assoc _ B). fold P. rewrite <- HP.
  set (enclen := match new with Some (e, _) => zlen e | None => 0 end).
  set (bsize := match new with Some (_, b) => zlen b | None => 0 end).
  assert (Hnb : zlen (new_bytes new) = enclen + bsize)
    by (unfold enclen, bsize; destruct new as [[e b]|]; cbn [new_bytes]; rewrite ?length_app; cbn; lia).
  destruct (make_room P mid R T (zlen (new_bytes new))) as (gap & T' & Hg & E); [lia|].
  replace (zlen P + zlen mid + zlen R) with old in E by (unfold old; lia).
  replace (zlen P + zlen (new_bytes new) + zlen R) with newb in E by (unfold newb; lia).
  set (lp1 := if (newb >? old) && (newb >? zlen (P ++ mid ++ R ++ T)) then _ else _) in *. cbn zeta.
  assert (Em : (if replace
     then bmove lp1 (zlen P + zlen mid + (enclen + bsize - zlen mid)) (zlen P + zlen mid) (old - zlen P - zlen mid)
     else bmove lp1 (zlen P + enclen + bsize) (zlen P) (old - zlen P))
    = bmove lp1 (zlen P + zlen (new_bytes new)) (zlen P + zlen mid) (zlen R)).
  { destruct replace.
    - f_equal; unfold old; lia.
    - rewrite (Hmid eq_refl). cbn [length]. f_equal; unfold old; rewrite ?(Hmid eq_refl); cbn [length]; lia. }
  rewrite Em. destruct (bmove lp1 _ _ _) as [lp2|]; [|done]. cbn [mbind option_bind] in E |- *.
  apply (inj Some) in E. rewrite E.
  assert (Hget : (P ++ gap ++ R ++ T').[zlen P] = match new with Some _ => (P ++ gap ++ R ++ T').[zlen P] | None => Some r0 end).
  { destruct new as [?|]; [done|]. destruct gap; [|cbn in Hg; lia]. cbn [app].
    pose proof (bget_shift P R T' 0 r0 Hr0) as E2. by rewrite Z.add_0_r in E2. }
  exists T'. pose proof (write_entry P gap (R ++ T') new (zlen P) eq_refl Hg) as Hw.
  assert (Hhdr : forall replace', (lp3 ← match replace', new with
      | true, Some _ => Some (P ++ new_bytes new ++ R ++ T')
      | _, _ =>
        num_elements ← lpGetNumElements (P ++ new_bytes new ++ R ++ T');
        if negb (num_elements =? LP_HDR_NUMELE_UNKNOWN)
        then lpSetNumElements (P ++ new_bytes new ++ R ++ T')
               (match new with Some _ => num_elements + 1 | None => num_elements - 1 end)
        else Some (P ++ new_bytes new ++ R ++ T')
      end; lpSetTotalBytes lp3 newb)
    = Some (lp_header newb (new_num replace' new num) ++ B ++ new_bytes new ++ R ++ T')).
  { intros replace'. unfold P, new_num. rewrite <- !(app_assoc _ B), num_header by done. cbn [mbind option_bind].
    destruct replace', new as [?|]; cbn [mbind option_bind]; try apply set_total_header;
      destruct (num =? LP_HDR_NUMELE_UNKNOWN); cbn [negb]; rewrite ?set_num_header; cbn [mbind option_bind];
      apply set_total_header. }
  specialize (Hhdr replace).
  destruct new as [[e b]|]; cbn [mbind option_bind] in Hw |- *.
  - change enclen with (zlen e). rewrite Hw. cbn [mbind option_bind]. rewrite HP.
    destruct replace; cbn [mbind option_bind] in Hhdr |- *.
    + by rewrite Hhdr.
    + destruct (lpGetNumElements _) as [ne|]; [|done]. cbn [mbind option_bind] in Hhdr |- *.
      destruct (negb _); [destruct (lpSetNumElements _ _); [|done]|]; cbn [mbind option_bind] in Hhdr |- *; by rewrite Hhdr.
  - rewrite Hget. cbn [mbind option_bind]. apply (inj Some) in Hw. rewrite Hw, HP.
    destruct replace; (destruct (lpGetNumElements _) as [ne|]; [|done]); cbn [mbind option_bind] in Hhdr |- *;
      (destruct (negb _); [destruct (lpSetNumElements _ _); [|done]|]); cbn [mbind option_bind] in Hhdr |- *; by rewrite Hhdr.
Qed.

(** [olds] (none, or the entry replaced) become [news]. *)
Lemma store_rep cs1 olds cs2 new (replace : bool) lp :
  lp_rep (cs1 ++ olds ++ cs2) lp ->
  length olds = (if replace then 1 else 0)%nat ->
  let news := match new with Some c => [c] | None => [] end in
  Forall content_ok news -> (replace = false -> new <> None) -> lp_off (cs1 ++ news ++ cs2) + 1 < 2 ^ 32 ->
  exists lp',
    lpInsert_store lp ((fun c => (c, lpEncodeBacklen (zlen c))) <$> new) (lp_off cs1) replace
      (zlen (lp_body olds)) (lp_off (cs1 ++ olds ++ cs2) + 1) (lp_off (cs1 ++ news ++ cs2) + 1)
    = Some (lp', match new with Some _ => Some (lp_off cs1) | None => lp_ptr cs1 cs2 end)
    /\ lp_rep (cs1 ++ news ++ cs2) lp'.
Proof.
  intros Hr Holds news Hnews Hnew Hsz.
  assert (Hr0 : exists r0, (lp_body cs2 ++ [LP_EOF]).[0] = Some r0 /\ (r0 =? LP_EOF) = match cs2 with [] => true | _ => false end).
  { destruct cs2 as [|c cs2]; [by exists LP_EOF|]. pose proof (lr_contents _ _ Hr) as Hc.
    rewrite !Forall_app, Forall_cons in Hc. destruct (content_facts c) as (x & _ & Hx & _ & Hne & _); [tauto|].
    exists x. split; [|lia]. rewrite lp_body_cons. unfold lp_entry. rewrite <- !app_assoc.
    apply (bget_shift [] c (lpEncodeBacklen (zlen c) ++ lp_body cs2 ++ [LP_EOF]) 0 x Hx). }
  destruct Hr0 as (r0 & Hr0 & Hre). destruct Hr as [Hc Hs (num & tail & Hn & Elp)].
  set (new' := (fun c => (c, lpEncodeBacklen (zlen c))) <$> new).
  assert (Hnb : new_bytes new' = lp_body news) by (unfold new', news; destruct new; [|done]; unfold lp_body; cbn; by rewrite app_nil_r).
  destruct (store_ok num (lp_body cs1) (lp_body olds) (lp_body cs2 ++ [LP_EOF]) tail r0 new' replace) as (T' & E);
    [by eapply num_ok_range|intros ->; by destruct olds|done|].
  assert (Hoff : forall l, LP_HDR_SIZE + zlen (lp_body cs1) + zlen (lp_body l) + zlen (lp_body cs2 ++ [LP_EOF])
                           = lp_off (cs1 ++ l ++ cs2) + 1).
  { intros l. unfold lp_off. rewrite !lp_body_app, !length_app. cbn [length]. lia. }
  rewrite Hnb, !Hoff in E. rewrite !lp_body_app, <- !app_assoc in Elp. rewrite <- !app_assoc in E. cbn [app] in E. rewrite <- Elp in E.
  change (LP_HDR_SIZE + zlen (lp_body cs1)) with (lp_off cs1) in E. rewrite Hre in E.
  eexists. split.
  { rewrite E. do 2 f_equal. unfold new', lp_ptr. by destruct new, cs2. }
  split.
  - rewrite !Forall_app in *. tauto.
  - done.
  - exists (new_num replace new' num), T'. split; [|by rewrite !lp_body_app, <- !app_assoc].
    unfold num_ok, new_num, LP_HDR_NUMELE_UNKNOWN in *. rewrite !length_app in *. unfold new', news.
    destruct replace, new as [c|]; cbn [fmap option_fmap option_map length] in *;
      try (exfalso; by apply Hnew); destruct (num =? 65535) eqn:En; lia.
Qed.

Lemma zlen_content ele : Forall byte_ok ele -> zlen ele < 2 ^ 32 -> 0 <= zlen (lp_content ele) < 2 ^ 33.
Proof.
  intros Hok Hl. unfold lp_content. rewrite lpStringToInt64_string2ll.
  destruct (string2ll_spec ele Hok) as (r & -> & Hr). destruct r as [v|].
  - pose proof (proj1 (Hr v) eq_refl) as Hc. destruct (encode_int_ok v (proj1 Hc)) as [Hco _].
    destruct (content_facts _ Hco) as (_ & _ & _ & _ & _ & _ & _ & ?). lia.
  - unfold lpEncodeString. rewrite take_ge, length_app, length_fmap by lia. repeat case_match; cbn [length]; lia.
Qed.

Lemma zlen_body_single c : zlen (lp_body [c]) = zlen c + zlen (lpEncodeBacklen (zlen c)).
Proof. rewrite lp_body_cons, length_app. unfold lp_body. cbn. rewrite <- zlen_entry. lia. Qed.

Lemma lp_off_mid cs1 l cs2 : lp_off (cs1 ++ l ++ cs2) = lp_off (cs1 ++ cs2) + zlen (lp_body l).
Proof. unfold lp_off. rewrite !lp_body_app, !length_app. lia. Qed.

(** The size the replaced entry takes, as the code computes and checks it. *)
Lemma replaced_rep cs1 olds cs2 (replace : bool) lp : lp_rep (cs1 ++ olds ++ cs2) lp ->
  length olds = (if replace then 1 else 0)%nat ->
  (if replace then
     r ← lpCurrentEncodedSizeUnsafe lp (lp_off cs1);
     if (lp_off cs1 >=? LP_HDR_SIZE)
        && (lp_off cs1 + uwrap 32 (r + zlen (lpEncodeBacklen r)) <? lp_off (cs1 ++ olds ++ cs2) + 1)
     then Some (uwrap 32 (r + zlen (lpEncodeBacklen r))) else None
   else Some 0) = Some (zlen (lp_body olds)).
Proof.
  intros Hr Hl. destruct replace; [|by destruct olds]. destruct olds as [|x [|]]; [done| |done].
  destruct (entry_reads cs1 x cs2 lp Hr) as (S1 & _ & _ & Hp & Hb & Hlen & Hle & _).
  cbn [app] in *. pose proof (lr_size _ _ Hr) as Hs. rewrite S1. cbn [mbind option_bind].
  rewrite zlen_body_single, uwrap_small by (unfold in_u, lp_off, LP_HDR_SIZE in *; lia). by if_true.
Qed.

Lemma insert_main cs1 olds cs2 ele (replace : bool) lp :
  Forall byte_ok ele -> zlen ele < 2 ^ 32 -> lp_rep (cs1 ++ olds ++ cs2) lp ->
  length olds = (if replace then 1 else 0)%nat ->
  let cs' := cs1 ++ [lp_content ele] ++ cs2 in
  let res := lpInsert lp (Some ele) (lp_off cs1) (if replace then LP_REPLACE else LP_BEFORE) in
  if lp_off cs' + 1 >? UINT32_MAX then res = Some None
  else exists lp', res = Some (Some (lp', Some (lp_off cs1))) /\ lp_rep cs' lp'.
Proof.
  intros Hok Hl Hr Hlen cs' res. unfold res, lpInsert.
  pose proof (zlen_content ele Hok Hl) as Hcl. pose proof (zlen_backlen (zlen (lp_content ele)) ltac:(lia)) as Hbl.
  destruct (content_spec ele Hok) as (t & Et & Ec & Hgood).
  replace (match (if replace then LP_REPLACE else LP_BEFORE) with
           | LP_AFTER => _ | LP_BEFORE => Some (lp_off cs1, false) | LP_REPLACE => Some (lp_off cs1, true) end)
    with (Some (lp_off cs1, replace)) by (by destruct replace).
  cbn [mbind option_bind]. rewrite Et. cbn [mbind option_bind]. rewrite <- Ec, (rep_total _ _ Hr). cbn [mbind option_bind].
  rewrite (replaced_rep _ _ _ _ _ Hr Hlen). cbn [mbind option_bind].
  pose proof (lr_size _ _ Hr). pose proof (lp_off_mid cs1 olds cs2). pose proof (lp_off_mid cs1 [lp_content ele] cs2) as Eo.
  rewrite zlen_body_single in Eo. fold cs' in Eo.
  assert (0 <= lp_off (cs1 ++ cs2)) by (unfold lp_off, LP_HDR_SIZE; lia).
  replace (lp_off (cs1 ++ olds ++ cs2) + 1 + zlen (lp_content ele) + zlen (lpEncodeBacklen (zlen (lp_content ele)))
           - zlen (lp_body olds)) with (lp_off cs' + 1) by lia.
  rewrite uwrap_small by (unfold in_u; lia).
  destruct (lp_off cs' + 1 >? UINT32_MAX) eqn:Eb; [done|]. unfold UINT32_MAX in Eb.
  destruct (store_rep cs1 olds cs2 (Some (lp_content ele)) replace lp) as (lp' & E & Hr'); try done; [|unfold cs' in *; lia|].
  { constructor; [|done]. apply Hgood. lia. }
  exists lp'. cbn [fmap option_fmap option_map] in E. fold cs' in E. rewrite E. done.
Qed.

Lemma insert_after lp ele cs1 x cs2 : lp_rep (cs1 ++ x :: cs2) lp ->
  lpInsert lp (Some ele) (lp_off cs1) LP_AFTER = lpInsert lp (Some ele) (lp_off (cs1 ++ [x])) LP_BEFORE.
Proof.
  intros Hr. unfold lpInsert. rewrite (skip_rep _ _ _ _ Hr). cbn [mbind option_bind].
  rewrite (rep_total _ _ Hr). cbn [mbind option_bind].
  destruct (entry_reads _ _ _ _ Hr) as (_ & _ & _ & Hp & Hb & Hlen & Hle & E). rewrite E. by if_true.
Qed.

Lemma delete_main cs1 x cs2 lp : lp_rep (cs1 ++ x :: cs2) lp ->
  exists lp', lpDelete lp (lp_off cs1) = Some (Some (lp', lp_ptr cs1 cs2)) /\ lp_rep (cs1 ++ cs2) lp'.
Proof.
  intros Hr. unfold lpDelete, lpInsert. cbn [mbind option_bind]. rewrite (rep_total _ _ Hr). cbn [mbind option_bind].
  pose proof (replaced_rep cs1 [x] cs2 true lp Hr eq_refl) as Er. cbn [app] in Er. rewrite Er. cbn [mbind option_bind].
  pose proof (lr_size _ _ Hr). pose proof (lp_off_mid cs1 [x] cs2) as Eo. cbn [app] in Eo.
  assert (0 <= lp_off (cs1 ++ cs2)) by (unfold lp_off, LP_HDR_SIZE; lia).
  replace (lp_off (cs1 ++ x :: cs2) + 1 + 0 + 0 - zlen (lp_body [x])) with (lp_off (cs1 ++ cs2) + 1) by lia.
  rewrite uwrap_small by (unfold in_u; lia). unfold UINT32_MAX. if_false.
  destruct (store_rep cs1 [x] cs2 None true lp) as (lp' & E & Hr'); try done; [cbn [app]; lia|].
  exists lp'. cbn [fmap option_fmap option_map app] in E |- *. rewrite E. done.
Qed.
End insert.

(** ** Validation of arbitrary bytes *)

Lemma bget_exists (b : bytes) i : 0 <= i < zlen b -> exists x, b.[i] = Some x.
Proof.
  intros Hi. unfold bget. if_true. apply lookup_lt_is_Some_2. lia.
Qed.

Lemma bslice_total (b : bytes) i n : 0 <= i -> 0 <= n -> i + n <= zlen b -> exists s, bslice b i n = Some s /\ zlen s = n.
Proof.
  intros. destruct (bslice_exists b i n) as (pre & s & post & -> & <- & <-); [lia..|].
  exists s. by rewrite bslice_app.
Qed.

(** Decoding backwards reads at most five bytes. *)
Lemma backlen_loop_total b fuel : forall p val sh, Z.of_nat fuel * 7 + sh = 35 -> 0 <= sh <= 28 ->
  Z.of_nat fuel - 1 <= p < zlen b -> exists v, backlen_loop fuel b p val sh = Some v.
Proof.
  induction fuel as [|fuel IH]; intros p val sh Hf Hs Hp; [lia|]. cbn [backlen_loop].
  destruct (bget_exists b p) as [c Hc]; [lia|]. rewrite Hc. cbn [mbind option_bind].
  destruct (Z.land c 128 =? 0); [eauto|]. destruct (sh + 7 >? 28) eqn:E; [eauto|]. apply IH; lia.
Qed.

Lemma backlen_loop_range b fuel : forall p val sh v, backlen_loop fuel b p val sh = Some v ->
  in_u 64 val -> in_u 64 v.
Proof.
  induction fuel as [|fuel IH]; intros p val sh v E Hv; cbn [backlen_loop] in E; [done|].
  destruct (b.[p]) as [c|]; [|done]. cbn [mbind option_bind] in E.
  assert (in_u 64 (Z.lor val (uwrap 64 (Z.shiftl (Z.land c 127) sh))))
    by (apply lor_range; [done|done|by apply uwrap_range]).
  destruct (Z.land c 128 =? 0); [by injection E as <-|].
  destruct (sh + 7 >? 28); [by injection E as <-|]. by eapply IH.
Qed.

(** Later digits do not touch the low bits. *)
Lemma backlen_loop_low b fuel : forall p val sh v, 0 <= sh -> backlen_loop fuel b p val sh = Some v ->
  v = UINT64_MAX \/ forall i, 0 <= i < sh -> Z.testbit v i = Z.testbit val i.
Proof.
  induction fuel as [|fuel IH]; intros p val sh v Hs E; cbn [backlen_loop] in E; [done|].
  destruct (b.[p]) as [c|]; [|done]. cbn [mbind option_bind] in E.
  assert (Hlow : forall i, 0 <= i < sh ->
            Z.testbit (Z.lor val (uwrap 64 (Z.shiftl (Z.land c 127) sh))) i = Z.testbit val i).
  { intros i Hi. rewrite Z.lor_spec. unfold uwrap.
    destruct (Z.lt_ge_cases i 64).
    - rewrite Z.mod_pow2_bits_low, Z.shiftl_spec_low, orb_false_r by lia. done.
    - rewrite Z.mod_pow2_bits_high, orb_false_r by lia. done. }
  destruct (Z.land c 128 =? 0); [injection E as <-; by right|].
  destruct (sh + 7 >? 28); [injection E as <-; by left|].
  apply IH in E as [->|E]; [by left| |lia]. right. intros i Hi. rewrite E by lia. by apply Hlow.
Qed.

Lemma decode_low b p c v : b.[p] = Some c -> lpDecodeBacklen b p = Some v -> v = UINT64_MAX \/ v mod 128 = c mod 128.
Proof.
  intros Hc. unfold lpDecodeBacklen. cbn [backlen_loop]. fold (backlen_loop 4). rewrite Hc. cbn [mbind option_bind].
  rewrite land_127, Z.shiftl_0_r, Z.lor_0_l. pose proof (Z.mod_pos_bound c 128 ltac:(lia)).
  rewrite uwrap_small by (unfold in_u; lia).
  destruct (Z.land c 128 =? 0); [intros [= <-]; right; by rewrite Z.mod_mod|]. cbn [Z.add Z.gtb Z.compare Pos.compare Pos.compare_cont].
  intros E. apply (backlen_loop_low b 4) in E as [->|E]; [by left| |lia]. right.
  rewrite <- (Z.mod_mod c 128) by lia. change 128 with (2 ^ 7). apply Z.bits_inj'. intros i Hi.
  destruct (Z.lt_ge_cases i 7); [|by rewrite !Z.mod_pow2_bits_high by lia].
  rewrite (Z.mod_pow2_bits_low v), (Z.mod_pow2_bits_low (c mod 2 ^ 7)) by lia. apply E. lia.
Qed.

(** A 32-bit length that wraps around cannot be followed by a matching backward
    length: the byte decoded first would have to be one of the 0xF0, 0xFC and
    0xFF bytes of the header itself. *)
Lemma wrapped_length_rejected lp p s len : lp.[p] = Some 240 -> bslice lp (p + 1) 4 = Some s -> Forall byte_ok s ->
  len = or_bytes 0 s -> 2 ^ 32 <= 5 + len ->
  let L := uwrap 32 (5 + len) in
  0 <= p -> lpDecodeBacklen lp (p + (L + zlen (lpEncodeBacklen L)) - 1) <> Some L.
Proof.
  intros Hx Hs Hok Elen Hbig L Hp Hd.
  pose proof (bslice_Some _ _ _ _ Hs) as (pre & post & Elp & Hpre & Hlen).
  rewrite or_bytes_val in Elen by done. pose proof (le_val_range s Hok) as Hr. rewrite Hlen in Hr.
  change (2 ^ (8 * 4)) with (2 ^ 32) in Hr.
  assert (EL : L = 5 + len - 2 ^ 32).
  { unfold L, uwrap. rewrite <- (Z.mod_add _ (-1)), Z.mod_small by lia. lia. }
  assert (Es : s = le_bytes 4 (2 ^ 32 - 5 + L)).
  { rewrite <- (le_bytes_val s Hok), <- Elen. replace (length s) with 4%nat by lia. f_equal. lia. }
  assert (Hq : exists c, lp.[p + L] = Some c /\ c mod 128 <> L).
  { assert (HL : L = 0 \/ L = 1 \/ L = 2 \/ L = 3 \/ L = 4) by lia.
    assert (Hg : forall k c, s.[k] = Some c -> lp.[p + 1 + k] = Some c).
    { intros k c Hk. rewrite Elp, <- Hpre. by apply bget_shift. }
    destruct HL as [E|[E|[E|[E|E]]]]; rewrite E in *; clear E; subst s.
    - exists 240. rewrite Z.add_0_r. done.
    - exists 0xFC. split; [rewrite <- (Z.add_0_r (p + 1)); apply (Hg 0); done|done].
    - exists 0xFF. split; [replace (p + 2) with (p + 1 + 1) by lia; apply (Hg 1); done|done].
    - exists 0xFF. split; [replace (p + 3) with (p + 1 + 2) by lia; apply (Hg 2); done|done].
    - exists 0xFF. split; [replace (p + 4) with (p + 1 + 3) by lia; apply (Hg 3); done|done]. }
  destruct Hq as (c & Hc & Hne).
  assert (Eb : zlen (lpEncodeBacklen L) = 1).
  { rewrite encode_backlen_bytes by lia. unfold backlen_bytes. by if_true. }
  rewrite Eb in Hd. replace (p + (L + 1) - 1) with (p + L) in Hd by lia.
  destruct (decode_low _ _ _ _ Hc Hd) as [E|E]; [unfold UINT64_MAX in E; lia|].
  rewrite Z.mod_small in E by lia. congruence.
Qed.

(** Once the length bytes are inside the block, the size can be read. *)
Lemma size_total lp p x k : Forall byte_ok lp -> lp.[p] = Some x -> lpCurrentEncodedSizeBytes lp p = Some k ->
  0 <= p -> p + k < zlen lp -> exists L, lpCurrentEncodedSizeUnsafe lp p = Some L /\ 0 <= L < 2 ^ 32.
Proof.
  intros Hok Hx Hk Hp Hfit. pose proof (bget_ok _ _ _ Hok Hx) as Hb.
  rewrite (sizebytes_ranges _ _ _ Hx Hb) in Hk. rewrite (size_ranges _ _ _ Hx Hb).
  pose proof (len6_range x) as H6. pose proof (len12_range x) as H12. unfold byte_ok in Hb.
  destruct (x <? 128) eqn:?; [eexists; split; [done|lia]|].
  destruct (x <? 192) eqn:?; [eexists; split; [done|]; rewrite H6 by lia; lia|].
  destruct (x <? 224) eqn:?; [eexists; split; [done|lia]|].
  destruct (x <? 240) eqn:?.
  { injection Hk as <-. destruct (bget_exists lp (p + 1)) as [y Hy]; [lia|]. rewrite Hy. eexists. split; [done|].
    pose proof (bget_ok _ _ _ Hok Hy) as Hyb. rewrite H12 by (done || lia). unfold byte_ok in Hyb. lia. }
  destruct (x =? 240) eqn:?.
  { injection Hk as <-. destruct (bslice_total lp (p + 1) 4) as (s & -> & _); [lia..|]. eexists. split; [done|].
    apply uwrap_range. lia. }
  clear Hk. repeat (case_match; [eexists; split; [done|lia]|]). eexists. split; [done|lia].
Qed.

(** The checks of [lpValidateNext], in order. *)
Lemma validate_next_cases lp p : Forall byte_ok lp ->
  lpValidateNext lp (Some p) (zlen lp) = Some None
  \/ (lp.[p] = Some LP_EOF /\ LP_HDR_SIZE <= p < zlen lp /\ lpValidateNext lp (Some p) (zlen lp) = Some (Some None))
  \/ exists x k L, lp.[p] = Some x /\ x <> LP_EOF /\ LP_HDR_SIZE <= p
      /\ lpCurrentEncodedSizeBytes lp p = Some k /\ k <> 0 /\ p + k < zlen lp
      /\ lpCurrentEncodedSizeUnsafe lp p = Some L /\ 0 <= L < 2 ^ 32
      /\ p + (L + zlen (lpEncodeBacklen L)) < zlen lp
      /\ lpDecodeBacklen lp (p + (L + zlen (lpEncodeBacklen L)) - 1) = Some L
      /\ lpValidateNext lp (Some p) (zlen lp) = Some (Some (Some (p + (L + zlen (lpEncodeBacklen L))))).
Proof.
  intros Hok. unfold lpValidateNext.
  assert (HO : forall q, OUT_OF_RANGE (zlen lp) q = false -> LP_HDR_SIZE <= q < zlen lp) by (unfold OUT_OF_RANGE; lia).
  destruct (OUT_OF_RANGE _ p) eqn:E0; [by left|]. apply HO in E0. unfold LP_HDR_SIZE in *.
  destruct (bget_exists lp p) as [x Hx]; [lia|]. rewrite Hx. cbn [mbind option_bind].
  destruct (Z.eqb_spec x LP_EOF) as [->|Hne]; [right; left; auto with lia|].
  destruct (lpCurrentEncodedSizeBytes lp p) as [k|] eqn:Hk.
  2: { exfalso. rewrite (sizebytes_ranges _ _ _ Hx (bget_ok _ _ _ Hok Hx)) in Hk. repeat case_match; done. }
  cbn [mbind option_bind]. destruct (Z.eqb_spec k 0); [by left|]. destruct (OUT_OF_RANGE _ (p + k)) eqn:E1; [by left|]. apply HO in E1.
  destruct (size_total lp p x k) as (L & HL & HLr); [done|done|done|lia|lia|]. rewrite HL. cbn [mbind option_bind].
  pose proof (zlen_backlen L ltac:(lia)) as Hbl.
  destruct (OUT_OF_RANGE _ (p + (L + _))) eqn:E2; [by left|]. apply HO in E2.
  destruct (backlen_loop_total lp 5 (p + (L + zlen (lpEncodeBacklen L)) - 1) 0 0) as [v Hv]; [lia..|].
  change (backlen_loop 5 lp ?q 0 0) with (lpDecodeBacklen lp q) in Hv. rewrite Hv. cbn [mbind option_bind].
  destruct (Z.eqb_spec (uwrap 64 (v + zlen (lpEncodeBacklen L))) (L + zlen (lpEncodeBacklen L))) as [Ev|]; cbn [negb]; [|by left].
  right. right. assert (v = L) as ->.
  { pose proof (backlen_loop_range lp 5 _ _ _ _ Hv ltac:(done)) as Hvr. unfold in_u, uwrap in *.
    destruct (Z.lt_ge_cases (v + zlen (lpEncodeBacklen L)) (2 ^ 64)); [rewrite Z.mod_small in Ev by lia; lia|].
    rewrite <- (Z.mod_add _ (-1)), Z.mod_small in Ev by lia. lia. }
  exists x, k, L. split_and!; (done || lia).
Qed.

(** An entry the validation accepts: both of its lengths can be read and agree,
    and its text lies inside the block. *)
Record good_entry (lp : bytes) (p q : Z) : Prop := {
  ge_valid : lpValidateNext lp (Some p) (zlen lp) = Some (Some (Some q));
  ge_skip : lpSkip lp p = Some q;
  ge_byte : exists x, lp.[p] = Some x /\ x <> LP_EOF;
  ge_back : LP_HDR_SIZE <= p /\ p < q < zlen lp
            /\ exists L, lpDecodeBacklen lp (q - 1) = Some L /\ 0 <= L < 2 ^ 32
                         /\ q = p + (L + zlen (lpEncodeBacklen L));
  ge_text : is_Some (lpGetText lp p)
}.

Lemma text_total lp p x k L : Forall byte_ok lp -> lp.[p] = Some x -> x <> LP_EOF -> 0 <= p ->
  lpCurrentEncodedSizeBytes lp p = Some k -> k <> 0 -> p + k < zlen lp ->
  lpCurrentEncodedSizeUnsafe lp p = Some L -> p + (L + zlen (lpEncodeBacklen L)) < zlen lp ->
  lpDecodeBacklen lp (p + (L + zlen (lpEncodeBacklen L)) - 1) = Some L ->
  is_Some (lpGetText lp p).
Proof.
  intros Hok Hx Hne Hp Hk Hk0 Hfit HL Hend Hd. pose proof (bget_ok _ _ _ Hok Hx) as Hb.
  rewrite (sizebytes_ranges _ _ _ Hx Hb) in Hk. rewrite (size_ranges _ _ _ Hx Hb) in HL.
  unfold lpGetText. rewrite (get_ranges _ _ _ Hx Hb). pose proof (len6_range x) as H6. pose proof (len12_range x) as H12.
  assert (Hint : forall n f, 0 <= n -> L = 1 + n -> is_Some (v ← (s ← bslice lp (p + 1) n; Some (LpInt (f s)));
    match v with LpInt v => Some (snprintf_lld v) | LpStr off count => bslice lp off count end)).
  { intros n f Hn ->. destruct (bslice_total lp (p + 1) n) as (s & -> & _); [lia..|]. cbn. eauto. }
  assert (Hstr : forall h n, 0 <= h -> 0 <= n -> L = h + n -> is_Some (bslice lp (p + h) n)).
  { intros h n Hh Hn ->. destruct (bslice_total lp (p + h) n) as (s & -> & _); [lia..|]. eauto. }
  unfold byte_ok, LP_EOF in *.
  destruct (x <? 128) eqn:?; [cbn; eauto|].
  destruct (x <? 192) eqn:?; [cbn [mbind option_bind]; apply Hstr; rewrite ?H6 in * by lia; apply (inj Some) in HL; lia|].
  destruct (x <? 224) eqn:?.
  { apply (inj Some) in HL. destruct (bget_exists lp (p + 1)) as [y ->]; [lia|]. cbn. eauto. }
  destruct (x <? 240) eqn:?.
  { destruct (lp.[p + 1]) as [y|] eqn:Hy; [|done]. cbn [mbind option_bind] in *. pose proof (bget_ok _ _ _ Hok Hy) as Hyb.
    rewrite H12 in * by (done || lia). unfold byte_ok in Hyb. apply (inj Some) in HL. apply Hstr; lia. }
  destruct (x =? 240) eqn:?.
  { assert (x = 240) as -> by lia. destruct (bslice lp (p + 1) 4) as [s|] eqn:Hs; [|done]. cbn [mbind option_bind] in *.
    pose proof (bslice_ok _ _ _ _ Hok Hs) as Hsok. apply (inj Some) in HL.
    assert (Hr : 0 <= or_bytes 0 s < 2 ^ 32).
    { rewrite or_bytes_val by done. pose proof (le_val_range s Hsok) as Hr.
      apply bslice_Some in Hs as (? & ? & _ & _ & Hl). rewrite Hl in Hr. done. }
    destruct (Z.lt_ge_cases (5 + or_bytes 0 s) (2 ^ 32)) as [|Hbig].
    - rewrite uwrap_small in HL by (unfold in_u; lia). apply Hstr; lia.
    - exfalso. rewrite <- HL in Hd. by apply (wrapped_length_rejected lp p s _ Hx Hs Hsok eq_refl Hbig Hp). }
  destruct (x =? 241) eqn:?; [apply Hint; injection HL; lia|].
  destruct (x =? 242) eqn:?; [apply Hint; injection HL; lia|].
  destruct (x =? 243) eqn:?; [apply Hint; injection HL; lia|].
  destruct (x =? 244) eqn:?; [apply Hint; injection HL; lia|].
  replace (x <=? 244) with false in Hk by lia. replace (x =? 255) with false in Hk by lia. injection Hk as <-. done.
Qed.

Lemma validate_good lp p : Forall byte_ok lp -> (exists x, lp.[p] = Some x /\ x <> LP_EOF) ->
  lpValidateNext lp (Some p) (zlen lp) = Some None
  \/ exists q, lpValidateNext lp (Some p) (zlen lp) = Some (Some (Some q)) /\ good_entry lp p q.
Proof.
  intros Hok (x0 & Hx0 & Hne0).
  destruct (validate_next_cases lp p Hok) as [E|[(E & _)|(x & k & L & Hx & Hne & Hp & Hk & Hk0 & Hfit & HL & HLr & Hend & Hd & E)]].
  - by left.
  - congruence.
  - right. eexists. split; [done|]. pose proof (zlen_backlen L ltac:(lia)). unfold LP_HDR_SIZE in *. split.
    + done.
    + unfold lpSkip. by rewrite HL.
    + eauto.
    + unfold LP_HDR_SIZE. split; [done|]. split; [lia|]. eauto.
    + apply (text_total lp p x k L); (done || lia).
Qed.

(** The entries from [p] to the terminator. *)
Inductive traversal (lp : bytes) : Z -> list Z -> Prop :=
  | trav_end p : lp.[p] = Some LP_EOF -> traversal lp p []
  | trav_step p q offs : good_entry lp p q -> traversal lp q offs -> traversal lp p (p :: offs).

Lemma lp_validate_loop_spec lp fuel : forall p count, Forall byte_ok lp -> 0 <= p < zlen lp ->
  zlen lp - p < Z.of_nat fuel ->
  exists r, validate_loop fuel lp (Some p) (zlen lp) count = Some r
    /\ (forall pf n, r = Some (pf, n) -> exists offs, traversal lp p offs).
Proof.
  induction fuel as [|fuel IH]; intros p count Hok Hp Hf; [lia|]. cbn [validate_loop].
  destruct (bget_exists lp p) as [x Hx]; [lia|]. rewrite Hx. cbn [mbind option_bind].
  destruct (Z.eqb_spec x LP_EOF) as [->|Hne]; [eexists; split; [done|]; intros; exists []; by constructor|].
  destruct (validate_good lp p Hok) as [->|(q & -> & Hg)]; [eauto|eexists; split; [done|]; by intros|].
  cbn [mbind option_bind]. pose proof (ge_back _ _ _ Hg) as (_ & Hq & _). destruct (IH q (count + 1)) as (r & E & Hr); [done|lia|lia|].
  exists r. split; [done|]. intros pf n ->. destruct (Hr pf n eq_refl) as [offs Ht].
  exists (p :: offs). by apply (trav_step lp p q offs).
Qed.

Section traverse.
Variable lp : bytes.
Hypothesis Htotal : lpBytes lp = Some (zlen lp).

Lemma assert_good p q : good_entry lp p q -> lpAssertValidEntry lp (zlen lp) p = Some tt.
Proof. intros Hg. unfold lpAssertValidEntry. by rewrite (ge_valid _ _ _ Hg). Qed.

Lemma arrive_traversal p offs : traversal lp p offs ->
  (c ← lp.[p];
   if c =? LP_EOF then Some None else n ← lpBytes lp; _ ← lpAssertValidEntry lp n p; Some (Some p))
  = Some (offs !! O).
Proof.
  intros [p' E|p' q offs' Hg Ht].
  - by rewrite E.
  - destruct (ge_byte _ _ _ Hg) as (x & -> & Hne). cbn [mbind option_bind].
    replace (x =? LP_EOF) with false by lia. rewrite Htotal. cbn [mbind option_bind].
    by rewrite (assert_good _ _ Hg).
Qed.

Lemma prev_good p q : good_entry lp p q -> lpPrev lp q = Some (Some p).
Proof.
  intros Hg. destruct (ge_back _ _ _ Hg) as (Hp & Hq & L & Hd & HL & Eq). pose proof (zlen_backlen L ltac:(lia)).
  unfold lpPrev. unfold LP_HDR_SIZE in *. if_false. rewrite Hd. cbn [mbind option_bind].
  rewrite (uwrap_small 64 (L + _)), uwrap_small by (unfold in_u; lia).
  replace (q - 1 - (L + zlen (lpEncodeBacklen L) - 1)) with p by lia.
  rewrite Htotal. cbn [mbind option_bind]. by rewrite (assert_good _ _ Hg).
Qed.

Lemma traversal_next p offs : traversal lp p offs -> forall i x, offs !! i = Some x ->
  lpNext lp x = Some (offs !! S i) /\ is_Some (lpGetText lp x).
Proof.
  induction 1 as [p E|p q offs Hg Ht IH]; intros i x Hi; [done|]. destruct i as [|i]; [|by apply IH].
  injection Hi as <-. split; [|apply Hg]. unfold lpNext. rewrite (ge_skip _ _ _ Hg). cbn [mbind option_bind].
  by apply arrive_traversal.
Qed.

Lemma traversal_prev p offs : traversal lp p offs -> forall i x, offs !! S i = Some x -> lpPrev lp x = Some (offs !! i).
Proof.
  induction 1 as [p E|p q offs Hg Ht IH]; intros i x Hi; [done|]. cbn in Hi. destruct i as [|i].
  - destruct Ht as [|q' r offs' Hg' _]; [done|]. cbn in Hi. injection Hi as <-. by apply prev_good.
  - by apply (IH i).
Qed.
End traverse.

Lemma validate_loop_rep lp : forall cs2 cs1 fuel count, lp_rep (cs1 ++ cs2) lp -> (length cs2 < fuel)%nat ->
  validate_loop fuel lp (Some (lp_off cs1)) (lp_off (cs1 ++ cs2) + 1) count
  = Some (Some (Some (lp_off (cs1 ++ cs2)), count + zlen cs2)).
Proof.
  induction cs2 as [|c cs2 IH]; intros cs1 fuel count Hr Hf; (destruct fuel as [|fuel]; [lia|]);
    cbn [validate_loop]; destruct (rep_boundary _ _ _ Hr) as (x & -> & Hx); cbn [mbind option_bind]; rewrite Hx.
  - rewrite app_nil_r. do 4 f_equal. cbn. lia.
  - rewrite (validate_rep _ _ _ _ Hr). cbn [mbind option_bind].
    specialize (IH (cs1 ++ [c]) fuel (count + 1)). rewrite <- app_assoc in IH. cbn [app] in IH.
    rewrite IH by (done || (cbn in Hf; lia)). do 3 f_equal. cbn [length]. lia.
Qed.

(** A well-formed listpack without slack is accepted. *)
Lemma validate_accepts cs lp : lp_rep cs lp -> zlen lp = lp_off cs + 1 ->
  lpValidateIntegrity lp (zlen lp) true = Some true.
Proof.
  intros Hr Hl. unfold lpValidateIntegrity. rewrite (rep_total _ _ Hr).
  pose proof (zlen_body_ge cs (lr_contents _ _ Hr)) as Hge. unfold lp_off, LP_HDR_SIZE in Hl.
  replace (zlen lp <? LP_HDR_SIZE + 1) with false by (unfold LP_HDR_SIZE; lia). cbn [mbind option_bind].
  replace (lp_off cs + 1 =? zlen lp) with true by (unfold lp_off, LP_HDR_SIZE; lia). cbn [negb].
  replace (zlen lp - 1) with (lp_off cs) by (unfold lp_off, LP_HDR_SIZE; lia).
  pose proof Hr as Hr'. rewrite <- (app_nil_r cs) in Hr'. destruct (rep_boundary cs [] lp Hr') as (x & -> & Hx).
  cbn [mbind option_bind]. rewrite Hx. cbn [negb]. change LP_HDR_SIZE with (lp_off []).
  pose proof (validate_loop_rep lp cs [] (S (length lp)) 0 Hr ltac:(lia)) as E. cbn [app] in E.
  rewrite E. cbn [mbind option_bind]. rewrite Z.eqb_refl. cbn [negb].
  destruct (rep_num _ _ Hr) as (num & -> & Hn). cbn [mbind option_bind]. f_equal.
  unfold num_ok, LP_HDR_NUMELE_UNKNOWN in *. lia.
Qed.

(** The check is total, and only accepts blocks with a traversal. *)
Lemma validate_traversal lp : Forall byte_ok lp ->
  exists b, lpValidateIntegrity lp (zlen lp) true = Some b
    /\ (b = true -> lpBytes lp = Some (zlen lp) /\ exists offs, traversal lp LP_HDR_SIZE offs).
Proof.
  intros Hok. unfold lpValidateIntegrity, lpBytes.
  destruct (zlen lp <? LP_HDR_SIZE + 1) eqn:E0; [by exists false|]. unfold LP_HDR_SIZE in *.
  destruct (lpGetTotalBytes lp) as [n|] eqn:En.
  2: { unfold lpGetTotalBytes in En. destruct (bslice_total lp 0 4) as (s & Es & _); [lia..|]. by rewrite Es in En. }
  cbn [mbind option_bind]. destruct (Z.eqb_spec n (zlen lp)) as [->|Hne]; cbn [negb]; [|by exists false].
  destruct (bget_exists lp (zlen lp - 1)) as [c Hc]; [lia|]. rewrite Hc. cbn [mbind option_bind].
  destruct (negb (c =? LP_EOF)); [by exists false|]. cbn [negb].
  destruct (lp_validate_loop_spec lp (S (length lp)) 6 0) as (r & Er & Htrav); [done|lia|lia|].
  rewrite Er. cbn [mbind option_bind]. destruct r as [[pf count]|]; [|by exists false].
  destruct (negb _); [by exists false|].
  destruct (lpGetNumElements lp) as [num|] eqn:Enum.
  2: { unfold lpGetNumElements in Enum. destruct (bslice_total lp 4 2) as (s & Es & _); [lia..|]. by rewrite Es in Enum. }
  cbn [mbind option_bind]. eexists. split; [done|]. intros _. split; [done|]. by apply (Htrav pf count).
Qed.

(** C24: integrity checking of untrusted bytes. The deep check never reads
    outside the block. If it accepts, the block can be traversed: from the first
    entry, [lpNext] visits a list of entries up to the end, [lpPrev] visits it
    backwards, no assertion fails, and the text of every entry is inside the
    block. It accepts every well-formed listpack. *)
Theorem lpValidateIntegrity_spec (lp : bytes) : Forall byte_ok lp ->
  exists b, lpValidateIntegrity lp (zlen lp) true = Some b
    /\ (b = true -> exists offs : list Z,
          lpFirst lp = Some (offs !! O)
          /\ (forall i x, offs !! i = Some x -> lpNext lp x = Some (offs !! S i) /\ is_Some (lpGetText lp x))
          /\ (forall i x, offs !! i = Some x -> lpPrev lp x = Some (match i with O => None | S j => offs !! j end)))
    /\ (forall cs, lp_rep cs lp -> zlen lp = lp_off cs + 1 -> b = true).
Proof.
  intros Hok. destruct (validate_traversal lp Hok) as (b & E & Ht). exists b. split; [done|]. split.
  - intros Hb. destruct (Ht Hb) as (Hn & offs & Hoffs). exists offs.
    split; [by apply (arrive_traversal lp Hn)|]. split; [by apply (traversal_next lp Hn LP_HDR_SIZE)|].
    intros [|i] x Hi; [|by apply (traversal_prev lp Hn LP_HDR_SIZE offs Hoffs)].
    inversion Hoffs; subst; [done|]. by injection Hi as <-.
  - intros cs Hr Hl. rewrite (validate_accepts cs lp Hr Hl) in E. congruence.
Qed.

Lemma rep_text cs1 c cs2 lp t : lp_rep (cs1 ++ c :: cs2) lp -> lpGetText c 0 = Some t -> lpGetText lp (lp_off cs1) = Some t.
Proof.
  intros Hr Ht. destruct (rep_split _ _ _ _ Hr) as (pre & post & -> & <- & _ & _).
  unfold lp_entry. rewrite <- app_assoc. by apply gettext_shift.
Qed.

(** The element stored can be read back. *)
Lemma content_text cs1 ele cs2 lp : Forall byte_ok ele -> lp_rep (cs1 ++ lp_content ele :: cs2) lp ->
  lpGetText lp (lp_off cs1) = Some ele.
Proof.
  intros Hok Hr. apply (rep_text _ _ _ _ _ Hr). destruct (content_spec ele Hok) as (t & _ & _ & Hg). apply Hg.
  pose proof (lr_contents _ _ Hr) as Hc. rewrite Forall_app, Forall_cons in Hc.
  destruct (content_facts (lp_content ele)) as (_ & _ & _ & _ & _ & _ & _ & Hl); [tauto|lia].
Qed.

Section claims.
Context `{Alloc}.

Lemma lpNew_rep capacity : 0 <= capacity -> exists lp, lpNew capacity = Some lp /\ lp_rep [] lp.
Proof.
  intros Hc. unfold lpNew. set (n := if capacity >? LP_HDR_SIZE + 1 then capacity else LP_HDR_SIZE + 1).
  assert (Hn : 7 <= n) by (unfold n, LP_HDR_SIZE; destruct (Z.gtb_spec capacity (6 + 1)); lia).
  pose proof (zlen_zrealloc [] n ltac:(lia)) as Hz. fold (zmalloc n) in Hz.
  destruct (bslice_exists (zmalloc n) 0 4) as (a0 & a & b0 & E0 & Ha0 & Ha); [lia..|].
  destruct a0; [|cbn in Ha0; lia]. cbn [app] in E0. rewrite E0 in Hz |- *.
  rewrite length_app in Hz. destruct (bslice_exists b0 0 2) as (b1 & b & d0 & -> & Hb1 & Hb); [lia..|].
  destruct b1; [|cbn in Hb1; lia]. cbn [app] in *. rewrite length_app in Hz.
  destruct d0 as [|d tail]; [cbn in Hz; lia|].
  unfold lpSetTotalBytes, lpSetNumElements. rewrite !split_bytes_le.
  pose proof (bwrite_app [] a (b ++ d :: tail) (le_bytes 4 (LP_HDR_SIZE + 1)) 0 eq_refl) as W1.
  cbn [app] in W1. rewrite W1 by (rewrite length_le_bytes; lia). cbn [mbind option_bind].
  rewrite (bwrite_app (le_bytes 4 _) b (d :: tail) (le_bytes 2 0) 4) by (rewrite ?length_le_bytes; lia). cbn [mbind option_bind].
  rewrite app_assoc. rewrite (bset_app _ d tail) by (by rewrite length_app, !length_le_bytes).
  eexists. split; [done|]. split; [constructor|done|]. exists 0, tail. split; [by right|]. done.
Qed.

(** C13: insertion. Inserting a string before, after or in place of an entry of a
    well-formed listpack fails (returns NULL) exactly when the result would
    exceed 2^32-1 bytes; otherwise the result is a well-formed listpack with
    the new entry at its place, the pointer returned points to it, and reading
    it gives the string back, whether it was stored as text or as an integer. *)
Theorem lpInsert_spec (lp ele x : bytes) (cs1 cs2 : list bytes) (w : lp_where) :
  Forall byte_ok ele -> zlen ele < 2 ^ 32 -> lp_rep (cs1 ++ x :: cs2) lp ->
  let c := lp_content ele in
  let pre := match w with LP_AFTER => cs1 ++ [x] | _ => cs1 end in
  let post := match w with LP_BEFORE => x :: cs2 | _ => cs2 end in
  let res := lpInsert lp (Some ele) (lp_off cs1) w in
  if lp_off (pre ++ c :: post) + 1 >? UINT32_MAX then res = Some None
  else exists lp' p, res = Some (Some (lp', Some p)) /\ lp_rep (pre ++ c :: post) lp'
         /\ p = lp_off pre /\ lpGetText lp' p = Some ele.
Proof.
  intros Hok Hl Hr c pre post res.
  assert (Hm : if lp_off (pre ++ c :: post) + 1 >? UINT32_MAX then res = Some None
               else exists lp', res = Some (Some (lp', Some (lp_off pre))) /\ lp_rep (pre ++ c :: post) lp').
  { unfold res. destruct w.
    - by apply (insert_main cs1 [] (x :: cs2) ele false lp).
    - rewrite (insert_after lp ele cs1 x cs2) by done.
      apply (insert_main (cs1 ++ [x]) [] cs2 ele false lp); [done|done|by rewrite <- app_assoc|done].
    - by apply (insert_main cs1 [x] cs2 ele true lp). }
  destruct (_ >? _); [done|]. destruct Hm as (lp' & E & Hr'). exists lp', (lp_off pre).
  split; [done|]. split; [done|]. split; [done|]. by apply (content_text pre ele post).
Qed.

(** Deletion. Deleting an entry succeeds, leaves a well-formed listpack of
    the other entries, and returns a pointer to the next entry, NULL after the
    last one. *)
Theorem lpDelete_spec (lp x : bytes) (cs1 cs2 : list bytes) :
  lp_rep (cs1 ++ x :: cs2) lp ->
  exists lp', lpDelete lp (lp_off cs1) = Some (Some (lp', lp_ptr cs1 cs2)) /\ lp_rep (cs1 ++ cs2) lp'.
Proof. apply delete_main. Qed.

(** Seeking. [lpSeek] returns the entry at a zero-based index, counted from
    the tail for a negative index, and NULL exactly when the index is out of
    range, from whichever end it walks; [lpLength] returns the number of
    entries also when the header does not know it. *)
Theorem lpSeek_spec (lp : bytes) (cs : list bytes) (i : Z) :
  lp_rep cs lp ->
  lpSeek lp i = Some (elem_ptr cs i)
  /\ exists lp', lpLength lp = Some (zlen cs, lp') /\ lp_rep cs lp'.
Proof. intros Hr. split; [by apply lpSeek_ok|by apply lpLength_ok]. Qed.
End claims.

(** ** Concrete listpacks *)

Definition ex_cs : list bytes :=
  [lp_content (of_string "hello"); lp_content (of_string "1024"); lp_content (of_string "-7")].
Definition ex_lp : bytes := lp_header (lp_off ex_cs + 1) 3 ++ lp_body ex_cs ++ [LP_EOF].

Lemma of_string_ok s : Forall byte_ok (of_string s).
Proof.
  induction s as [|c s IH]; cbn [of_string]; [constructor|]. constructor; [|done].
  unfold byte_ok. pose proof (Ascii.nat_ascii_bounded c). lia.
Qed.

Lemma ex_content_ok s : zlen (lp_content (of_string s)) < 2 ^ 32 -> content_ok (lp_content (of_string s)).
Proof. intros Hl. destruct (content_spec (of_string s) (of_string_ok s)) as (t & _ & _ & Hg). by apply Hg. Qed.

Lemma ex_lp_rep : lp_rep ex_cs ex_lp.
Proof.
  split.
  - unfold ex_cs. repeat (apply Forall_cons_2; [apply ex_content_ok; vm_compute; reflexivity|]). apply Forall_nil_2.
  - vm_compute. reflexivity.
  - exists 3, []. split; [by right|done].
Qed.

Lemma lpValidateIntegrity_spec_witness : exists b, lpValidateIntegrity ex_lp (zlen ex_lp) true = Some b /\ b = true.
Proof.
  destruct (lpValidateIntegrity_spec ex_lp) as (b & E & _ & H).
  - apply (Forall_impl (fun c => Is_true ((0 <=? c) && (c <? 256)))); [|unfold byte_ok; intros x Hx%Is_true_eq_true; lia].
    apply (bool_decide_unpack _). vm_compute. exact I.
  - exists b. split; [exact E|]. apply (H ex_cs ex_lp_rep). vm_compute. reflexivity.
Defined.

Lemma lpInsert_spec_witness :
  let _ := FillAlloc in
  exists lp' p, lpInsert ex_lp (Some (of_string "x")) (lp_off [lp_content (of_string "hello")]) LP_AFTER = Some (Some (lp', Some p))
    /\ lpGetText lp' p = Some (of_string "x").
Proof.
  intros HA.
  destruct (lpInsert_spec (H := HA) ex_lp (of_string "x") (lp_content (of_string "1024")) [lp_content (of_string "hello")]
              [lp_content (of_string "-7")] LP_AFTER (of_string_ok "x") ltac:(vm_compute; reflexivity) ex_lp_rep)
    as (lp' & p & E & _ & _ & Ht).
  exists lp', p. split; [exact E|exact Ht].
Defined.

Lemma lpDelete_spec_witness :
  let _ := FillAlloc in
  exists lp', lpDelete ex_lp (lp_off [lp_content (of_string "hello")])
    = Some (Some (lp', lp_ptr [lp_content (of_string "hello")] [lp_content (of_string "-7")])).
Proof.
  intros HA.
  destruct (lpDelete_spec (H := HA) ex_lp (lp_content (of_string "1024")) [lp_content (of_string "hello")]
              [lp_content (of_string "-7")] ex_lp_rep) as (lp' & E & _).
  exists lp'. exact E.
Defined.

Lemma lpSeek_spec_witness : lpSeek ex_lp (-1) = Some (Some (lp_off (take 2 ex_cs))).
Proof. exact (proj1 (lpSeek_spec ex_lp ex_cs (-1) ex_lp_rep)). Defined.
