(* ===== verification/Adlist.v ===== *)
(** Doubly linked lists: [adlist.c].

    The nodes live in a heap shared by all lists; a pointer is an address and
    NULL is [None]; reading or writing through a dangling pointer is [None].
    [lrep h l xs] says that the nodes of [l] in [h] are [xs] (addresses and
    values). The theorems relate each operation, with all its pointer updates,
    to the operation on [xs], and frame the nodes of other lists. *)
From stdpp Require Import gmap.
From S2P Require Import Prelude.
Open Scope Z_scope.

Abbreviation loc := Z (only parsing).

Record listNode (V : Type) := mkNode { prev : option loc; next : option loc; value : V }.
Arguments mkNode {V} _ _ _.
Arguments prev {V} _.
Arguments next {V} _.
Arguments value {V} _.

(** The header; [dup] and [match] are the methods, [free] tells whether the
    values are freed with the nodes. *)
Record list_ (V : Type) := mkList {
  head : option loc;
  tail : option loc;
  dup : option (V -> option V);
  free : bool;
  match_ : option (V -> V -> bool);
  len : Z
}.
Arguments mkList {V} _ _ _ _ _ _.
Arguments head {V} _.
Arguments tail {V} _.
Arguments dup {V} _.
Arguments free {V} _.
Arguments match_ {V} _.
Arguments len {V} _.

Inductive direction := AL_START_HEAD | AL_START_TAIL.

Record listIter := mkIter { iter_next : option loc; iter_direction : direction }.

Section adlist.
Context {V : Type} `{EqDecision V}.

Abbreviation heap := (gmap Z (listNode V)) (only parsing).

Definition set_ends (l : list_ V) (hd tl : option loc) (n : Z) : list_ V :=
  mkList hd tl (dup l) (free l) (match_ l) (uwrap 64 n).

(** [a->next = x], [a->prev = x]. *)
Definition set_next (h : heap) (a : loc) (x : option loc) : option heap :=
  n ← h !! a; Some (<[a := mkNode (prev n) x (value n)]> h).
Definition set_prev (h : heap) (a : loc) (x : option loc) : option heap :=
  n ← h !! a; Some (<[a := mkNode x (next n) (value n)]> h).

Definition listCreate : list_ V := mkList None None None false None 0.

(** The fresh node is at address [a]. *)
Definition listAddNodeHead (h : heap) (l : list_ V) (a : loc) (v : V) : option (heap * list_ V) :=
  if len l =? 0 then Some (<[a := mkNode None None v]> h, set_ends l (Some a) (Some a) (len l + 1))
  else
    hd ← head l;
    h ← set_prev (<[a := mkNode None (Some hd) v]> h) hd (Some a);
    Some (h, set_ends l (Some a) (tail l) (len l + 1)).

Definition listAddNodeTail (h : heap) (l : list_ V) (a : loc) (v : V) : option (heap * list_ V) :=
  if len l =? 0 then Some (<[a := mkNode None None v]> h, set_ends l (Some a) (Some a) (len l + 1))
  else
    tl ← tail l;
    h ← set_next (<[a := mkNode (Some tl) None v]> h) tl (Some a);
    Some (h, set_ends l (head l) (Some a) (len l + 1)).

Definition listInsertNode (h : heap) (l : list_ V) (old_node a : loc) (v : V) (after : bool)
  : option (heap * list_ V) :=
  o ← h !! old_node;
  let '(node, hd, tl) :=
    if after then
      (mkNode (Some old_node) (next o) v, head l, if decide (tail l = Some old_node) then Some a else tail l)
    else
      (mkNode (prev o) (Some old_node) v, (if decide (head l = Some old_node) then Some a else head l), tail l) in
  let h := <[a := node]> h in
  h ← match prev node with Some p => set_next h p (Some a) | None => Some h end;
  h ← match next node with Some n => set_prev h n (Some a) | None => Some h end;
  Some (h, set_ends l hd tl (len l + 1)).

(** Also returns the value when it is freed. *)
Definition listDelNode (h : heap) (l : list_ V) (node : loc) : option (heap * list_ V * option V) :=
  n ← h !! node;
  '(h, hd) ← match prev n with
             | Some p => h ← set_next h p (next n); Some (h, head l)
             | None => Some (h, next n)
             end;
  '(h, tl) ← match next n with
             | Some x => h ← set_prev h x (prev n); Some (h, tail l)
             | None => Some (h, prev n)
             end;
  Some (delete node h, set_ends l hd tl (len l - 1), if free l then Some (value n) else None).

(** [while(len--)]: the heap and the values freed. *)
Fixpoint empty_loop (n : nat) (fr : bool) (h : heap) (current : option loc) : option (heap * list V) :=
  match n with
  | O => Some (h, [])
  | S n =>
    a ← current;
    c ← h !! a;
    '(h, vs) ← empty_loop n fr (delete a h) (next c);
    Some (h, if fr then value c :: vs else vs)
  end.

Definition listEmpty (h : heap) (l : list_ V) : option (heap * list_ V * list V) :=
  '(h, vs) ← empty_loop (Z.to_nat (len l)) (free l) h (head l);
  Some (h, set_ends l None None 0, vs).

Definition listRelease (h : heap) (l : list_ V) : option (heap * list V) :=
  '(h, _, vs) ← listEmpty h l; Some (h, vs).

(** ** Iterators *)

Definition listGetIterator (l : list_ V) (d : direction) : listIter :=
  mkIter (match d with AL_START_HEAD => head l | AL_START_TAIL => tail l end) d.
Definition listRewind (l : list_ V) : listIter := mkIter (head l) AL_START_HEAD.
Definition listRewindTail (l : list_ V) : listIter := mkIter (tail l) AL_START_TAIL.

Definition listNext (h : heap) (it : listIter) : option (listIter * option loc) :=
  match iter_next it with
  | None => Some (it, None)
  | Some a =>
    c ← h !! a;
    Some (mkIter (match iter_direction it with AL_START_HEAD => next c | AL_START_TAIL => prev c end)
            (iter_direction it), Some a)
  end.

(** [while((node = listNext(&iter)) != NULL)] of [listSearchKey]. *)
Fixpoint search_loop (fuel : nat) (h : heap) (l : list_ V) (it : listIter) (k : V) : option (option loc) :=
  match fuel with
  | O => None
  | S fuel =>
    '(it, node) ← listNext h it;
    match node with
    | None => Some None
    | Some a =>
      c ← h !! a;
      if match match_ l with Some m => m (value c) k | None => bool_decide (k = value c) end
      then Some (Some a) else search_loop fuel h l it k
    end
  end.

Definition listSearchKey (h : heap) (l : list_ V) (k : V) : option (option loc) :=
  search_loop (S (Z.to_nat (len l))) h l (listRewind l) k.

(** [while(index-- && n) n = n->next] (or [prev]); negating [LONG_MIN]
    overflows. *)
Fixpoint index_loop (n : nat) (h : heap) (fwd : bool) (p : option loc) : option (option loc) :=
  match n, p with
  | S n, Some a => c ← h !! a; index_loop n h fwd (if fwd then next c else prev c)
  | _, _ => Some p
  end.

Definition listIndex (h : heap) (l : list_ V) (index : Z) : option (option loc) :=
  if index =? - 2 ^ 63 then None
  else if index <? 0 then index_loop (Z.to_nat (- index - 1)) h false (tail l)
  else index_loop (Z.to_nat index) h true (head l).

(** The loop of [listDup]; [fresh] gives the addresses of the new nodes. [Some
    None] is the return value NULL, after the copy has been released. *)
Fixpoint dup_loop (fuel : nat) (fresh : list loc) (h : heap) (it : listIter) (copy : list_ V)
  : option (heap * option (list_ V)) :=
  match fuel with
  | O => None
  | S fuel =>
    '(it, node) ← listNext h it;
    match node with
    | None => Some (h, Some copy)
    | Some a =>
      c ← h !! a;
      match (match dup copy with Some f => f (value c) | None => Some (value c) end) with
      | None => '(h, _) ← listRelease h copy; Some (h, None)
      | Some v =>
        match fresh with
        | [] => None
        | b :: fresh => '(h, copy) ← listAddNodeTail h copy b v; dup_loop fuel fresh h it copy
        end
      end
    end
  end.

Definition listDup (fresh : list loc) (h : heap) (orig : list_ V) : option (heap * option (list_ V)) :=
  let copy := mkList None None (dup orig) (free orig) (match_ orig) 0 in
  dup_loop (S (Z.to_nat (len orig))) fresh h (listRewind orig) copy.

(** ** Rotation and concatenation *)

Definition listRotateTailToHead (h : heap) (l : list_ V) : option (heap * list_ V) :=
  if len l <=? 1 then Some (h, l)
  else
    t ← tail l;
    n ← h !! t;
    t' ← prev n;
    h ← set_next h t' None;
    hd ← head l;
    h ← set_prev h hd (Some t);
    h ← set_prev h t None;
    h ← set_next h t (Some hd);
    Some (h, set_ends l (Some t) (Some t') (len l)).

Definition listRotateHeadToTail (h : heap) (l : list_ V) : option (heap * list_ V) :=
  if len l <=? 1 then Some (h, l)
  else
    hd ← head l;
    n ← h !! hd;
    hd' ← next n;
    h ← set_prev h hd' None;
    t ← tail l;
    h ← set_next h t (Some hd);
    h ← set_next h hd None;
    h ← set_prev h hd (Some t);
    Some (h, set_ends l (Some hd') (Some hd) (len l)).

(** Returns both headers. *)
Definition listJoin (h : heap) (l o : list_ V) : option (heap * list_ V * list_ V) :=
  if len o =? 0 then Some (h, l, o)
  else
    oh ← head o;
    h ← set_prev h oh (tail l);
    '(h, hd) ← match tail l with
               | Some t => h ← set_next h t (Some oh); Some (h, head l)
               | None => Some (h, Some oh)
               end;
    Some (h, set_ends l hd (tail o) (len l + len o), set_ends o None None 0).
End adlist.

(** * Representation *)

Section rep.
Context {V : Type} `{EqDecision V}.

Abbreviation heap := (gmap Z (listNode V)) (only parsing).
Abbreviation nodes := (list (Z * V)) (only parsing).

(** The first address of [xs], or [n]; the last one, or [p]. *)
Definition first (xs : nodes) (n : option loc) : option loc :=
  match xs with [] => n | (a, _) :: _ => Some a end.
Fixpoint lastp (p : option loc) (xs : nodes) : option loc :=
  match xs with [] => p | (a, _) :: xs => lastp (Some a) xs end.

(** [xs] are linked in [h], between [p] and [n]. *)
Fixpoint lseg (h : heap) (p : option loc) (xs : nodes) (n : option loc) : Prop :=
  match xs with
  | [] => True
  | (a, v) :: xs => h !! a = Some (mkNode p (first xs n) v) /\ lseg h (Some a) xs n
  end.

Record lrep (h : heap) (l : list_ V) (xs : nodes) : Prop := {
  lr_seg : lseg h None xs None;
  lr_head : head l = first xs None;
  lr_tail : tail l = lastp None xs;
  lr_len : len l = zlen xs;
  lr_nodup : NoDup xs.*1;
  lr_bound : zlen xs < 2 ^ 63
}.

(** The nodes outside [xs] are unchanged. *)
Definition frame (h h' : heap) (xs : nodes) : Prop := forall b, b ∉ xs.*1 -> h' !! b = h !! b.

Lemma lseg_ext h h' p xs n : (forall b, b ∈ xs.*1 -> h' !! b = h !! b) -> lseg h p xs n -> lseg h' p xs n.
Proof.
  revert p. induction xs as [|[a v] xs IH]; intros p Hf; [done|]. intros [Ha Hs]. cbn in Hf. split.
  - rewrite Hf; [done|left].
  - apply IH; [|done]. intros b Hb. apply Hf. by right.
Qed.

Lemma lseg_frame h h' p xs n ys : frame h h' ys -> (forall b, b ∈ xs.*1 -> b ∉ ys.*1) ->
  lseg h p xs n -> lseg h' p xs n.
Proof. intros Hf Hd. apply lseg_ext. intros b Hb. apply Hf. auto. Qed.

Lemma frame_refl h xs : frame h h xs.
Proof. done. Qed.

Lemma frame_trans h1 h2 h3 xs ys zs : frame h1 h2 xs -> frame h2 h3 ys ->
  (forall b, b ∈ xs.*1 \/ b ∈ ys.*1 -> b ∈ zs.*1) -> frame h1 h3 zs.
Proof. intros H1 H2 Hs b Hb. rewrite H2, H1; [done| |]; intros Hin; apply Hb, Hs; auto. Qed.

Lemma first_app xs ys n : first (xs ++ ys) n = first xs (first ys n).
Proof. by destruct xs as [|[? ?] ?]. Qed.

Lemma lastp_app p xs ys : lastp p (xs ++ ys) = lastp (lastp p xs) ys.
Proof. revert p. induction xs as [|[a v] xs IH]; intros p; cbn; auto. Qed.

Lemma lseg_app h p xs ys n : lseg h p (xs ++ ys) n <-> lseg h p xs (first ys n) /\ lseg h (lastp p xs) ys n.
Proof.
  revert p. induction xs as [|[a v] xs IH]; intros p; cbn [app lseg lastp]; [tauto|].
  rewrite IH, first_app. tauto.
Qed.

(** ** Changing the two ends of a segment *)

Lemma relink_first h p p' a v xs n : lseg h p ((a, v) :: xs) n -> a ∉ xs.*1 ->
  exists h', set_prev h a p' = Some h' /\ lseg h' p' ((a, v) :: xs) n /\ frame h h' [(a, v)].
Proof.
  intros [Ha Hs] Hni. unfold set_prev. rewrite Ha. cbn [mbind option_bind next value].
  eexists. split; [done|]. split.
  - split; [by rewrite lookup_insert_eq|]. eapply lseg_ext; [|exact Hs].
    intros b Hb. rewrite lookup_insert_ne; [done|]. intros ->. done.
  - intros b Hb. rewrite lookup_insert_ne; [done|]. intros ->. apply Hb. left.
Qed.

Lemma relink_last h p a v xs n n' : lseg h p (xs ++ [(a, v)]) n -> a ∉ xs.*1 ->
  exists h', set_next h a n' = Some h' /\ lseg h' p (xs ++ [(a, v)]) n' /\ frame h h' [(a, v)].
Proof.
  intros [Hs [Ha _]]%lseg_app Hni. unfold set_next. rewrite Ha. cbn [mbind option_bind prev value].
  assert (Hf : frame h (<[a := mkNode (lastp p xs) n' v]> h) [(a, v)]).
  { intros b Hb. rewrite lookup_insert_ne; [done|]. intros ->. apply Hb. left. }
  eexists. split; [done|]. split; [|done]. apply lseg_app. split.
  - eapply lseg_frame; [exact Hf| |exact Hs]. intros b Hb Hin. cbn in Hin.
    apply list_elem_of_singleton in Hin as ->. done.
  - cbn. by rewrite lookup_insert_eq.
Qed.

(** Writing outside a segment. *)
Lemma lseg_insert h p xs n a x : a ∉ xs.*1 -> lseg h p xs n -> lseg (<[a := x]> h) p xs n.
Proof.
  intros Ha. apply lseg_ext. intros b Hb. rewrite lookup_insert_ne; [done|]. by intros ->.
Qed.

Lemma lseg_delete h p xs n a : a ∉ xs.*1 -> lseg h p xs n -> lseg (delete a h) p xs n.
Proof.
  intros Ha. apply lseg_ext. intros b Hb. rewrite lookup_delete_ne; [done|]. by intros ->.
Qed.

Lemma rev_nodes (xs : nodes) : xs = [] \/ exists ys a v, xs = ys ++ [(a, v)].
Proof. destruct (rev_case xs) as [->|(ys & [a v] & ->)]; [by left|right; eauto]. Qed.

(** The optional write to the last node of a segment, and to the first one. *)
Lemma relink_last_opt h xs n n' : lseg h None xs n -> NoDup xs.*1 ->
  exists h', match lastp None xs with Some a => set_next h a n' | None => Some h end = Some h'
    /\ lseg h' None xs n' /\ frame h h' xs.
Proof.
  intros Hs Hnd. destruct (rev_nodes xs) as [->|(ys & a & v & ->)]; [by exists h|].
  rewrite lastp_app. cbn [lastp].
  rewrite fmap_app in Hnd. apply NoDup_app in Hnd as (_ & Hd & _).
  destruct (relink_last h None a v ys n n' Hs) as (h' & E & Hs' & Hf); [intros Hin; apply (Hd a Hin); left|].
  exists h'. split; [done|]. split; [done|]. intros b Hb. apply Hf. intros Hin. apply Hb.
  rewrite fmap_app. apply elem_of_app. by right.
Qed.

Lemma relink_first_opt h p p' xs : lseg h p xs None -> NoDup xs.*1 ->
  exists h', match first xs None with Some a => set_prev h a p' | None => Some h end = Some h'
    /\ lseg h' p' xs None /\ frame h h' xs.
Proof.
  intros Hs Hnd. destruct xs as [|[a v] xs]; [by exists h|]. cbn [first].
  cbn in Hnd. apply NoDup_cons in Hnd as [Hni _].
  destruct (relink_first h p p' a v xs None Hs Hni) as (h' & E & Hs' & Hf).
  exists h'. split; [done|]. split; [done|]. intros b Hb. apply Hf. intros Hin. apply Hb.
  cbn in *. apply list_elem_of_singleton in Hin as ->. left.
Qed.

(** ** Linking and unlinking a node *)

Lemma nodup_app_keys (xs ys : nodes) : NoDup (xs ++ ys).*1 ->
  NoDup xs.*1 /\ NoDup ys.*1 /\ (forall b, b ∈ xs.*1 -> b ∉ ys.*1).
Proof. rewrite fmap_app. intros (? & Hd & ?)%NoDup_app. auto. Qed.

Lemma link_between h xs ys a v : lseg h None (xs ++ ys) None -> NoDup (xs ++ ys).*1 -> a ∉ (xs ++ ys).*1 ->
  exists h2 h3,
    match lastp None xs with
    | Some p => set_next (<[a := mkNode (lastp None xs) (first ys None) v]> h) p (Some a)
    | None => Some (<[a := mkNode (lastp None xs) (first ys None) v]> h)
    end = Some h2
    /\ match first ys None with Some n => set_prev h2 n (Some a) | None => Some h2 end = Some h3
    /\ lseg h3 None (xs ++ (a, v) :: ys) None /\ frame h h3 (xs ++ (a, v) :: ys).
Proof.
  intros [Hx Hy]%lseg_app Hnd Ha. destruct (nodup_app_keys _ _ Hnd) as (Nx & Ny & Hd).
  rewrite fmap_app, not_elem_of_app in Ha. destruct Ha as [Hax Hay].
  set (h1 := <[a := _]> h).
  destruct (relink_last_opt h1 xs (first ys None) (Some a)) as (h2 & E2 & Hx2 & F2); [by apply lseg_insert|done|].
  assert (Hy2 : lseg h2 (lastp None xs) ys None).
  { eapply lseg_frame; [exact F2|intros b Hb Hin; by apply (Hd b)|]. by apply lseg_insert. }
  assert (Ha2 : h2 !! a = Some (mkNode (lastp None xs) (first ys None) v)).
  { rewrite F2 by done. apply lookup_insert_eq. }
  destruct (relink_first_opt h2 (lastp None xs) (Some a) ys Hy2 Ny) as (h3 & E3 & Hy3 & F3).
  exists h2, h3. split; [done|]. split; [done|]. split.
  - apply lseg_app. split.
    + eapply lseg_frame; [exact F3|exact Hd|]. done.
    + split; [rewrite F3 by done; exact Ha2|done].
  - intros b Hb. rewrite fmap_app, fmap_cons, not_elem_of_app, not_elem_of_cons in Hb. cbn in Hb. destruct Hb as (Hbx & Hba & Hby).
    rewrite F3, F2 by done. unfold h1. by rewrite lookup_insert_ne by done.
Qed.

Lemma unlink_between h xs ys a v : lseg h None (xs ++ (a, v) :: ys) None -> NoDup (xs ++ (a, v) :: ys).*1 ->
  exists h1 h2,
    match lastp None xs with Some p => set_next h p (first ys None) | None => Some h end = Some h1
    /\ match first ys None with Some n => set_prev h1 n (lastp None xs) | None => Some h1 end = Some h2
    /\ lseg (delete a h2) None (xs ++ ys) None /\ NoDup (xs ++ ys).*1
    /\ frame h (delete a h2) (xs ++ (a, v) :: ys).
Proof.
  intros [Hx [Ha Hy]]%lseg_app Hnd. destruct (nodup_app_keys _ _ Hnd) as (Nx & Ny & Hd).
  cbn in Ny. apply NoDup_cons in Ny as [Hay Ny].
  assert (Hax : a ∉ xs.*1) by (intros Hin; apply (Hd a Hin); cbn; left).
  assert (Hdy : forall b, b ∈ xs.*1 -> b ∉ ys.*1) by (intros b Hb Hin; apply (Hd b Hb); cbn; by right).
  destruct (relink_last_opt h xs (Some a) (first ys None) Hx Nx) as (h1 & E1 & Hx1 & F1).
  assert (Hy1 : lseg h1 (Some a) ys None).
  { eapply lseg_frame; [exact F1|intros b Hb Hin; by apply (Hdy b)|done]. }
  destruct (relink_first_opt h1 (Some a) (lastp None xs) ys Hy1 Ny) as (h2 & E2 & Hy2 & F2).
  exists h1, h2. split; [done|]. split; [done|]. split; [|split].
  - apply lseg_delete; [rewrite fmap_app, not_elem_of_app; done|]. apply lseg_app. split; [|done].
    eapply lseg_frame; [exact F2|exact Hdy|done].
  - rewrite fmap_app. apply NoDup_app. auto.
  - intros b Hb. rewrite fmap_app, fmap_cons, not_elem_of_app, not_elem_of_cons in Hb. cbn in Hb. destruct Hb as (Hbx & Hba & Hby).
    rewrite lookup_delete_ne by done. by rewrite F2, F1 by done.
Qed.

(** ** The operations *)

Lemma frame_lookup h h' xs b n : frame h h' xs -> b ∉ xs.*1 -> h !! b = n -> h' !! b = n.
Proof. intros Hf Hb <-. by apply Hf. Qed.

Lemma lrep_intro h l hd tl n xs : lseg h None xs None -> NoDup xs.*1 -> zlen xs < 2 ^ 63 -> n = zlen xs ->
  hd = first xs None -> tl = lastp None xs -> lrep h (set_ends l hd tl n) xs.
Proof.
  intros Hs Hnd HB -> -> ->. split; [done..| |done|done]. cbn. apply uwrap_small. unfold in_u. lia.
Qed.

Lemma nodup_insert (xs ys : nodes) a v : NoDup (xs ++ ys).*1 -> a ∉ (xs ++ ys).*1 -> NoDup (xs ++ (a, v) :: ys).*1.
Proof.
  intros Hnd Ha. rewrite !fmap_app, fmap_cons in *. rewrite not_elem_of_app in Ha.
  rewrite <- Permutation_middle. apply NoDup_cons. rewrite not_elem_of_app. done.
Qed.

Lemma zero_len h l xs : lrep h l xs -> (len l =? 0) = match xs with [] => true | _ => false end.
Proof. intros Hr. rewrite (lr_len _ _ _ Hr). destruct xs; cbn [length]; [done|lia]. Qed.

Lemma addNodeHead_ok h l xs a v : lrep h l xs -> a ∉ xs.*1 -> zlen xs + 1 < 2 ^ 63 ->
  exists h' l', listAddNodeHead h l a v = Some (h', l') /\ lrep h' l' ((a, v) :: xs) /\ frame h h' ((a, v) :: xs).
Proof.
  intros Hr Ha HB. unfold listAddNodeHead. rewrite (zero_len _ _ _ Hr).
  destruct (link_between h [] xs a v (lr_seg _ _ _ Hr) (lr_nodup _ _ _ Hr) Ha) as (h2 & h3 & E2 & E3 & Hs & Hf).
  cbn [lastp app] in E2, E3, Hs, Hf. injection E2 as <-.
  pose proof (nodup_insert [] xs a v (lr_nodup _ _ _ Hr) Ha) as Hnd. pose proof (lr_len _ _ _ Hr) as Hlen.
  destruct xs as [|[b w] xs]; cbn [first] in E3.
  - injection E3 as <-. eexists _, _. split; [done|]. split; [|done]. apply lrep_intro; try done. cbn in *; lia.
  - rewrite (lr_head _ _ _ Hr). cbn [first mbind option_bind]. cbn [first] in *. rewrite E3. cbn [mbind option_bind].
    eexists _, _. split; [done|]. split; [|done]. rewrite (lr_tail _ _ _ Hr). apply lrep_intro; try done; cbn [length] in *; lia.
Qed.

Lemma addNodeTail_ok h l xs a v : lrep h l xs -> a ∉ xs.*1 -> zlen xs + 1 < 2 ^ 63 ->
  exists h' l', listAddNodeTail h l a v = Some (h', l') /\ lrep h' l' (xs ++ [(a, v)]) /\ frame h h' (xs ++ [(a, v)])
    /\ dup l' = dup l /\ free l' = free l /\ match_ l' = match_ l.
Proof.
  intros Hr Ha HB. unfold listAddNodeTail. rewrite (zero_len _ _ _ Hr).
  destruct (link_between h xs [] a v) as (h2 & h3 & E2 & E3 & Hs & Hf);
    [rewrite app_nil_r; apply Hr|rewrite app_nil_r; apply Hr|by rewrite app_nil_r|].
  cbn [first] in E2, E3. injection E3 as <-.
  pose proof (nodup_insert xs [] a v) as Hnd. rewrite app_nil_r in Hnd. specialize (Hnd (lr_nodup _ _ _ Hr) Ha).
  pose proof (lr_len _ _ _ Hr) as Hlen.
  destruct (rev_nodes xs) as [->|(ys & b & w & ->)].
  - cbn [lastp] in E2. injection E2 as <-. eexists _, _. split; [done|]. split; [|done]. apply lrep_intro; try done. cbn in *; lia.
  - rewrite lastp_app in E2. cbn [lastp] in E2. destruct (ys ++ [(b, w)]) eqn:Ey; [by destruct ys|]. rewrite <- Ey in *.
    rewrite (lr_tail _ _ _ Hr), lastp_app. cbn [lastp mbind option_bind]. rewrite E2. cbn [mbind option_bind].
    eexists _, _. split; [done|]. split; [|done]. rewrite (lr_head _ _ _ Hr).
    apply lrep_intro; try done; rewrite ?length_app, ?first_app, ?lastp_app in *; cbn [length first lastp] in *; try lia; done.
Qed.

Lemma insertNode_ok h l xs ys o w a v (after : bool) : lrep h l (xs ++ (o, w) :: ys) -> a ∉ (xs ++ (o, w) :: ys).*1 ->
  zlen (xs ++ (o, w) :: ys) + 1 < 2 ^ 63 ->
  let zs : nodes := if after then xs ++ (o, w) :: (a, v) :: ys else xs ++ (a, v) :: (o, w) :: ys in
  exists h' l', listInsertNode h l o a v after = Some (h', l') /\ lrep h' l' zs /\ frame h h' zs.
Proof.
  intros Hr Ha HB zs. pose proof (lr_seg _ _ _ Hr) as Hs. pose proof (lr_nodup _ _ _ Hr) as Hnd.
  pose proof (lr_len _ _ _ Hr) as Hlen. unfold listInsertNode.
  assert (Eo : h !! o = Some (mkNode (lastp None xs) (first ys None) w)) by (apply lseg_app in Hs as [_ [Ho _]]; exact Ho).
  rewrite Eo. cbn [mbind option_bind prev next]. rewrite (lr_head _ _ _ Hr), (lr_tail _ _ _ Hr), first_app, lastp_app.
  cbn [first lastp]. subst zs. destruct after; cbn [prev next].
  - destruct (link_between h (xs ++ [(o, w)]) ys a v) as (h2 & h3 & E2 & E3 & Hs' & Hf); rewrite <- ?app_assoc; try done.
    rewrite lastp_app in E2. cbn [lastp] in E2. rewrite E2. cbn [mbind option_bind]. rewrite E3. cbn [mbind option_bind].
    rewrite <- app_assoc in Hs', Hf. eexists _, _. split; [done|]. split; [|done].
    pose proof (nodup_insert (xs ++ [(o, w)]) ys a v) as Hn. rewrite <- !app_assoc in Hn. specialize (Hn Hnd Ha).
    apply lrep_intro; try done; rewrite ?length_app, ?first_app, ?lastp_app in *; cbn [length first lastp] in *; try lia; [done|].
    destruct (rev_nodes ys) as [->|(ys' & b & x & ->)]; cbn [lastp]; [by rewrite decide_True|].
    rewrite !lastp_app. cbn [lastp]. rewrite decide_False; [done|]. intros [= ->].
    destruct (nodup_app_keys _ _ Hnd) as (_ & Hn2 & _). cbn in Hn2. apply NoDup_cons in Hn2 as [Hn2 _].
    apply Hn2. rewrite fmap_app. apply elem_of_app. right. left.
  - destruct (link_between h xs ((o, w) :: ys) a v) as (h2 & h3 & E2 & E3 & Hs' & Hf); try done.
    cbn [first] in E2, E3. rewrite E2. cbn [mbind option_bind]. rewrite E3. cbn [mbind option_bind].
    eexists _, _. split; [done|]. split; [|done].
    pose proof (nodup_insert xs ((o, w) :: ys) a v Hnd Ha) as Hn.
    apply lrep_intro; try done; rewrite ?length_app, ?first_app, ?lastp_app in *; cbn [length first lastp] in *; try lia; [|done].
    destruct xs as [|[b x] xs]; cbn [first]; [by rewrite decide_True|].
    rewrite decide_False; [done|]. intros [= ->].
    destruct (nodup_app_keys _ _ Hnd) as (_ & _ & Hd). apply (Hd o); cbn; left.
Qed.

Lemma delNode_ok h l xs ys o w : lrep h l (xs ++ (o, w) :: ys) ->
  exists h' l', listDelNode h l o = Some (h', l', if free l then Some w else None)
    /\ lrep h' l' (xs ++ ys) /\ frame h h' (xs ++ (o, w) :: ys) /\ h' !! o = None.
Proof.
  intros Hr. pose proof (lr_seg _ _ _ Hr) as Hs. pose proof (lr_nodup _ _ _ Hr) as Hnd.
  pose proof (lr_len _ _ _ Hr) as Hlen. pose proof (lr_bound _ _ _ Hr) as HB. unfold listDelNode.
  assert (Eo : h !! o = Some (mkNode (lastp None xs) (first ys None) w)) by (apply lseg_app in Hs as [_ [Ho _]]; exact Ho).
  rewrite Eo. cbn [mbind option_bind prev next value].
  destruct (unlink_between h xs ys o w Hs Hnd) as (h1 & h2 & E1 & E2 & Hs' & Hn & Hf).
  exists (delete o h2), (set_ends l (first (xs ++ ys) None) (lastp None (xs ++ ys)) (len l - 1)).
  split; [|split; [|split; [done|apply lookup_delete_eq]]].
  - rewrite (lr_head _ _ _ Hr), (lr_tail _ _ _ Hr), !first_app, !lastp_app. cbn [first lastp].
    assert (E1' : match lastp None xs with
      | Some p => h0 ← set_next h p (first ys None); Some (h0, first xs (Some o))
      | None => Some (h, first ys None) end = Some (h1, first xs (first ys None))).
    { destruct (rev_nodes xs) as [->|(ys' & b & x & ->)]; [by injection E1 as <-|].
      rewrite lastp_app in *. cbn [lastp] in *. rewrite E1. cbn [mbind option_bind]. rewrite !first_app. by destruct ys' as [|[? ?] ?]. }
    rewrite E1'. cbn [mbind option_bind].
    destruct ys as [|[b x] ys]; cbn [first lastp] in *; [by injection E2 as <-|].
    rewrite E2. done.
  - apply lrep_intro; try done; rewrite !length_app in *; cbn [length] in *; lia.
Qed.

Lemma rotateTailToHead_ok h l xs o w : lrep h l (xs ++ [(o, w)]) ->
  exists h' l', listRotateTailToHead h l = Some (h', l') /\ lrep h' l' ((o, w) :: xs) /\ frame h h' ((o, w) :: xs).
Proof.
  intros Hr. pose proof (lr_nodup _ _ _ Hr) as Hnd. pose proof (lr_len _ _ _ Hr) as Hlen.
  pose proof (lr_bound _ _ _ Hr) as HB. unfold listRotateTailToHead. rewrite Hlen, length_app. cbn [length].
  destruct xs as [|[a v] xs']; [exists h, l; by split_and!|]. set (xs := (a, v) :: xs') in *.
  replace (_ <=? 1) with false by (subst xs; cbn [length]; lia).
  rewrite (lr_tail _ _ _ Hr), (lr_head _ _ _ Hr), lastp_app. cbn [first app lastp xs mbind option_bind]. fold xs.
  destruct (proj1 (lseg_app _ _ _ _ _) (lr_seg _ _ _ Hr)) as [Hx [Ho _]]. cbn [first] in Hx, Ho. rewrite Ho. cbn [mbind option_bind prev].
  destruct (nodup_app_keys _ _ Hnd) as (Nx & _ & Hd).
  assert (Hni : o ∉ xs.*1) by (intros Hin; apply (Hd o Hin); cbn; left).
  destruct (relink_last_opt h xs (Some o) None Hx Nx) as (h1 & E1 & Hx1 & F1).
  destruct (relink_first_opt h1 None (Some o) xs Hx1 Nx) as (h2 & E2 & Hx2 & F2). cbn [first xs] in E2.
  destruct (lastp None xs) as [t'|] eqn:Et; [|by destruct (rev_nodes xs) as [?|(? & ? & ? & Ex)]; [|rewrite Ex, lastp_app in Et]].
  cbn [mbind option_bind]. rewrite E1. cbn [mbind option_bind]. rewrite E2. cbn [mbind option_bind].
  unfold set_prev, set_next. rewrite (F2 o Hni), (F1 o Hni), Ho. cbn [mbind option_bind next value prev].
  rewrite lookup_insert_eq. cbn [mbind option_bind next value prev]. rewrite insert_insert_eq.
  eexists _, _. split; [done|]. split.
  - apply lrep_intro; [| |subst xs; rewrite ?length_app in *; cbn [length] in *; lia..|done|].
    + split; [by rewrite lookup_insert_eq|]. by apply lseg_insert.
    + cbn. by apply NoDup_cons.
    + rewrite <- Et. subst xs. done.
  - intros b Hb. cbn in Hb. apply not_elem_of_cons in Hb as [Hbo Hb]. rewrite lookup_insert_ne by done.
    by rewrite F2, F1 by exact Hb.
Qed.

Lemma rotateHeadToTail_ok h l xs o w : lrep h l ((o, w) :: xs) ->
  exists h' l', listRotateHeadToTail h l = Some (h', l') /\ lrep h' l' (xs ++ [(o, w)]) /\ frame h h' (xs ++ [(o, w)]).
Proof.
  intros Hr. pose proof (lr_nodup _ _ _ Hr) as Hnd. pose proof (lr_len _ _ _ Hr) as Hlen.
  pose proof (lr_bound _ _ _ Hr) as HB. unfold listRotateHeadToTail. rewrite Hlen. cbn [length].
  destruct xs as [|[a v] xs']; [exists h, l; by split_and!|]. set (xs := (a, v) :: xs') in *.
  replace (_ <=? 1) with false by (subst xs; cbn [length]; lia).
  rewrite (lr_tail _ _ _ Hr), (lr_head _ _ _ Hr). cbn [first app lastp mbind option_bind].
  destruct (lr_seg _ _ _ Hr) as [Ho Hx]. rewrite Ho. cbn [mbind option_bind next first xs]. fold xs.
  cbn in Hnd. apply NoDup_cons in Hnd as [Hni Nx].
  destruct (relink_first_opt h (Some o) None xs Hx Nx) as (h1 & E1 & Hx1 & F1). cbn [first xs] in E1.
  destruct (relink_last_opt h1 xs None (Some o) Hx1 Nx) as (h2 & E2 & Hx2 & F2).
  rewrite E1. cbn [mbind option_bind].
  assert (El : lastp (Some o) xs = lastp None xs) by done. rewrite El.
  destruct (lastp None xs) as [t'|] eqn:Et; [|by destruct (rev_nodes xs) as [?|(? & ? & ? & Ex)]; [|rewrite Ex, lastp_app in Et]].
  cbn [mbind option_bind]. rewrite E2. cbn [mbind option_bind].
  unfold set_prev, set_next. rewrite (F2 o Hni), (F1 o Hni), Ho. cbn [mbind option_bind next value prev].
  rewrite lookup_insert_eq. cbn [mbind option_bind next value prev]. rewrite insert_insert_eq.
  eexists _, _. split; [done|]. split.
  - apply lrep_intro; [| |subst xs; rewrite ?length_app in *; cbn [length] in *; lia..|done|by rewrite lastp_app].
    + apply lseg_app. split; [by apply lseg_insert|]. cbn [lseg first]. rewrite Et. by rewrite lookup_insert_eq.
    + rewrite fmap_app. apply NoDup_app. split; [done|]. split; [|apply NoDup_singleton].
      intros b Hb Hin. cbn in Hin. apply list_elem_of_singleton in Hin as ->. done.
  - intros b Hb. rewrite fmap_app, not_elem_of_app in Hb. destruct Hb as [Hb Hbo]. cbn in Hbo. apply not_elem_of_cons in Hbo as [Hbo _].
    rewrite lookup_insert_ne by done. by rewrite F2, F1 by exact Hb.
Qed.

(** ** Access by index *)

(** The position an index denotes in a list of length [n]: negative ones count
    from the end. *)
Definition resolve (i : Z) (n : nat) : option nat :=
  if i <? 0 then if - i <=? Z.of_nat n then Some (Z.to_nat (Z.of_nat n + i)) else None
  else if i <? Z.of_nat n then Some (Z.to_nat i) else None.

Lemma index_forward h p xs n : lseg h p xs None -> index_loop n h true (first xs None) = Some (fst <$> xs !! n).
Proof.
  revert p n. induction xs as [|[a v] xs IH]; intros p n Hs; [by destruct n|].
  destruct n as [|n]; [done|]. destruct Hs as [Ha Hs]. cbn [index_loop first]. rewrite Ha. cbn [mbind option_bind next].
  by rewrite (IH _ n Hs).
Qed.

Lemma index_backward h xs k n : lseg h None xs k -> index_loop n h false (lastp None xs) = Some (fst <$> reverse xs !! n).
Proof.
  revert k n. induction xs as [|[a v] xs IH] using rev_ind; intros k n Hs; [by destruct n|].
  apply lseg_app in Hs as [Hs [Ha _]]. rewrite lastp_app, reverse_app. cbn [lastp reverse rev_append app].
  destruct n as [|n]; [done|]. cbn [index_loop]. rewrite Ha. cbn [mbind option_bind prev].
  by rewrite (IH _ n Hs).
Qed.

Lemma listIndex_ok h l xs i : lrep h l xs -> - 2 ^ 63 < i ->
  listIndex h l i = Some (n ← resolve i (length xs); fst <$> xs !! n).
Proof.
  intros Hr Hi. unfold listIndex, resolve. rewrite (lr_head _ _ _ Hr), (lr_tail _ _ _ Hr).
  replace (i =? _) with false by lia. destruct (Z.ltb_spec i 0).
  - rewrite (index_backward h xs None _ (lr_seg _ _ _ Hr)). f_equal.
    destruct (Z.leb_spec (- i) (zlen xs)); cbn [mbind option_bind].
    + rewrite reverse_lookup by lia. do 3 f_equal. lia.
    + by rewrite lookup_ge_None_2 by (rewrite length_reverse; lia).
  - rewrite (index_forward h None xs _ (lr_seg _ _ _ Hr)). f_equal.
    destruct (Z.ltb_spec i (zlen xs)); cbn [mbind option_bind]; [done|].
    by rewrite lookup_ge_None_2 by lia.
Qed.

Lemma resolve_lt i n k : resolve i n = Some k -> (k < n)%nat.
Proof. unfold resolve. repeat case_match; intros [= <-]; lia. Qed.

Lemma lseg_lookup h p xs n a : lseg h p xs n -> a ∈ xs.*1 -> is_Some (h !! a).
Proof.
  revert p. induction xs as [|[b v] xs IH]; intros p Hs Hin; cbn in Hin; [by apply not_elem_of_nil in Hin|].
  destruct Hs as [Hb Hs]. apply elem_of_cons in Hin as [->|Hin]; [rewrite Hb; eauto|eauto].
Qed.

Lemma lrep_fresh h l xs a : lrep h l xs -> h !! a = None -> a ∉ xs.*1.
Proof. intros Hr Ha Hin. destruct (lseg_lookup _ _ _ _ _ (lr_seg _ _ _ Hr) Hin) as [? E]. congruence. Qed.

Lemma nodes_at (xs : nodes) n : (n < length xs)%nat ->
  exists ys a v zs, xs = ys ++ (a, v) :: zs /\ length ys = n /\ xs !! n = Some (a, v).
Proof.
  intros Hn. destruct (lookup_lt_is_Some_2 xs n Hn) as [[a v] E].
  exists (take n xs), a, v, (drop (S n) xs). rewrite take_drop_middle by done. rewrite length_take. split_and!; [done|lia|done].
Qed.

(** ** Searching and emptying *)

Lemma search_loop_ok h l p xs k fuel : lseg h p xs None -> (length xs < fuel)%nat ->
  search_loop fuel h l (mkIter (first xs None) AL_START_HEAD) k =
    Some (fst <$> List.find (fun x => match match_ l with Some m => m x.2 k | None => bool_decide (k = x.2) end) xs).
Proof.
  revert p xs. induction fuel as [|fuel IH]; intros p xs Hs Hf; [lia|].
  destruct xs as [|[a v] xs]; [done|]. destruct Hs as [Ha Hs]. cbn [search_loop first listNext iter_next iter_direction].
  unfold listNext. cbn [iter_next iter_direction]. rewrite Ha. cbn [mbind option_bind next]. rewrite Ha. cbn [mbind option_bind value List.find snd].
  destruct (match match_ l with Some m => m v k | None => bool_decide (k = v) end); [done|].
  cbn [length] in Hf. rewrite (IH (Some a) xs Hs) by lia. done.
Qed.

Lemma empty_loop_ok h p xs fr : lseg h p xs None -> NoDup xs.*1 ->
  exists h', empty_loop (length xs) fr h (first xs None) = Some (h', if fr then xs.*2 else [])
    /\ (forall b, h' !! b = if decide (b ∈ xs.*1) then None else h !! b).
Proof.
  revert h p. induction xs as [|[a v] xs IH]; intros h p Hs Hnd.
  - exists h. cbn. split; [by destruct fr|]. intros b. by rewrite decide_False by apply not_elem_of_nil.
  - destruct Hs as [Ha Hs]. cbn in Hnd. apply NoDup_cons in Hnd as [Hni Hnd]. cbn [empty_loop first length mbind option_bind].
    rewrite Ha. cbn [mbind option_bind next]. destruct (IH (delete a h) (Some a)) as (h' & E & Hh'); [by apply lseg_delete|done|].
    cbn [first] in *. rewrite E. cbn [mbind option_bind value]. exists h'. split; [by destruct fr|].
    intros b. rewrite Hh'. cbn [fmap list_fmap fst]. destruct (decide (b = a)) as [->|Hne].
    + rewrite decide_False by done. rewrite decide_True by left. apply lookup_delete_eq.
    + rewrite lookup_delete_ne by done. destruct (decide (b ∈ xs.*1)) as [Hb|Hb].
      * by rewrite decide_True by (right; done).
      * rewrite decide_False; [done|]. rewrite elem_of_cons. by intros [?|?].
Qed.

Lemma listEmpty_ok h l xs : lrep h l xs ->
  exists h' l', listEmpty h l = Some (h', l', if free l then xs.*2 else []) /\ lrep h' l' []
    /\ (forall b, h' !! b = if decide (b ∈ xs.*1) then None else h !! b).
Proof.
  intros Hr. unfold listEmpty. rewrite (lr_len _ _ _ Hr), Nat2Z.id, (lr_head _ _ _ Hr).
  destruct (empty_loop_ok h None xs (free l) (lr_seg _ _ _ Hr) (lr_nodup _ _ _ Hr)) as (h' & E & Hh').
  rewrite E. cbn [mbind option_bind]. eexists _, _. split; [done|]. split; [|done].
  apply lrep_intro; try done. apply NoDup_nil_2.
Qed.

(** ** One operation *)

(** The operations, with nodes given by index ([listIndex]). *)
Inductive list_op :=
  | AddHead (v : V) | AddTail (v : V) | InsertAt (i : Z) (v : V) (after : bool) | DelAt (i : Z)
  | RotateTailToHead | RotateHeadToTail | Empty.

Definition run_op (h : heap) (l : list_ V) (op : list_op) (a : loc) : option (heap * list_ V) :=
  match op with
  | AddHead v => listAddNodeHead h l a v
  | AddTail v => listAddNodeTail h l a v
  | InsertAt i v after =>
    p ← listIndex h l i;
    match p with Some o => listInsertNode h l o a v after | None => Some (h, l) end
  | DelAt i =>
    p ← listIndex h l i;
    match p with Some o => '(h, l, _) ← listDelNode h l o; Some (h, l) | None => Some (h, l) end
  | RotateTailToHead => listRotateTailToHead h l
  | RotateHeadToTail => listRotateHeadToTail h l
  | Empty => '(h, l, _) ← listEmpty h l; Some (h, l)
  end.

(** The same on sequences. *)
Definition seq_op (xs : list V) (op : list_op) : list V :=
  match op with
  | AddHead v => v :: xs
  | AddTail v => xs ++ [v]
  | InsertAt i v after =>
    match resolve i (length xs) with
    | Some n => let n := if after then S n else n in take n xs ++ v :: drop n xs
    | None => xs
    end
  | DelAt i => match resolve i (length xs) with Some n => take n xs ++ drop (S n) xs | None => xs end
  | RotateTailToHead => match reverse xs with [] => [] | v :: r => v :: reverse r end
  | RotateHeadToTail => match xs with [] => [] | v :: r => r ++ [v] end
  | Empty => []
  end.

Definition op_index (op : list_op) : Z := match op with InsertAt i _ _ | DelAt i => i | _ => 0 end.

Lemma insertAt_ok h l xs i v (after : bool) a : lrep h l xs -> a ∉ xs.*1 -> zlen xs + 1 < 2 ^ 63 -> - 2 ^ 63 < i ->
  exists h' l' xs', run_op h l (InsertAt i v after) a = Some (h', l') /\ lrep h' l' xs'
    /\ xs'.*2 = seq_op xs.*2 (InsertAt i v after) /\ (forall b, b ∉ xs.*1 -> b <> a -> h' !! b = h !! b).
Proof.
  intros Hr Ha HB Hi. cbn [run_op seq_op]. rewrite (listIndex_ok _ _ _ _ Hr Hi), length_fmap. cbn [mbind option_bind].
  destruct (resolve i (length xs)) as [n|] eqn:En; cbn [mbind option_bind]; [|by exists h, l, xs].
  apply resolve_lt in En. destruct (nodes_at xs n En) as (ys & o & w & zs & -> & Hlen & El).
  rewrite El. cbn [fmap option_fmap option_map fst].
  destruct (insertNode_ok h l ys zs o w a v after Hr Ha HB) as (h' & l' & E & Hr' & Hf).
  eexists _, _, _. split; [exact E|]. split; [exact Hr'|]. subst n. rewrite <- (length_fmap snd) in *. split.
  - rewrite fmap_app, fmap_cons. destruct after; cbn [snd]; rewrite fmap_app, !fmap_cons; cbn [snd].
    + replace (ys.*2 ++ w :: zs.*2) with ((ys.*2 ++ [w]) ++ zs.*2) by (by rewrite <- (assoc app)).
      rewrite take_app_length', drop_app_length' by (rewrite length_app; cbn; lia). by rewrite <- (assoc app).
    + by rewrite take_app_length, drop_app_length.
  - intros b Hb Hba. apply Hf. rewrite fmap_app, fmap_cons, not_elem_of_app, not_elem_of_cons in Hb. cbn in Hb.
    destruct after; rewrite fmap_app, !fmap_cons, not_elem_of_app, !not_elem_of_cons; cbn; tauto.
Qed.

Lemma delAt_ok h l xs i a : lrep h l xs -> - 2 ^ 63 < i ->
  exists h' l' xs', run_op h l (DelAt i) a = Some (h', l') /\ lrep h' l' xs'
    /\ xs'.*2 = seq_op xs.*2 (DelAt i) /\ (forall b, b ∉ xs.*1 -> b <> a -> h' !! b = h !! b).
Proof.
  intros Hr Hi. cbn [run_op seq_op]. rewrite (listIndex_ok _ _ _ _ Hr Hi), length_fmap. cbn [mbind option_bind].
  destruct (resolve i (length xs)) as [n|] eqn:En; cbn [mbind option_bind]; [|by exists h, l, xs].
  apply resolve_lt in En. destruct (nodes_at xs n En) as (ys & o & w & zs & -> & Hlen & El).
  rewrite El. cbn [fmap option_fmap option_map fst].
  destruct (delNode_ok h l ys zs o w Hr) as (h' & l' & E & Hr' & Hf & _). rewrite E. cbn [mbind option_bind].
  eexists _, _, _. split; [done|]. split; [exact Hr'|]. subst n. rewrite <- (length_fmap snd). split.
  - rewrite !fmap_app, fmap_cons. cbn [snd]. rewrite take_app_length.
    replace (ys.*2 ++ w :: zs.*2) with ((ys.*2 ++ [w]) ++ zs.*2) by (by rewrite <- (assoc app)).
    by rewrite drop_app_length' by (rewrite length_app; cbn; lia).
  - intros b Hb _. by apply Hf.
Qed.

(** C23: on a well-formed list, with a fresh address for the node to allocate,
    each operation of the module (pushing at either end, inserting before or
    after the node at an index, deleting the node at an index, rotating either
    way, emptying) follows only valid pointers, leaves a well-formed list (links
    in both directions, ends and length agree) whose values are those the
    operation gives on sequences, and changes no node outside the list. *)
Theorem list_op_refines h l xs op a : lrep h l xs -> h !! a = None -> zlen xs + 1 < 2 ^ 63 -> - 2 ^ 63 < op_index op ->
  exists h' l' xs', run_op h l op a = Some (h', l') /\ lrep h' l' xs' /\ xs'.*2 = seq_op xs.*2 op
    /\ (forall b, b ∉ xs.*1 -> b <> a -> h' !! b = h !! b).
Proof.
  intros Hr Ha%(lrep_fresh _ _ _ _ Hr) HB Hi. destruct op as [v|v|i v after|i| | |]; cbn [op_index] in Hi.
  - destruct (addNodeHead_ok h l xs a v Hr Ha HB) as (h' & l' & E & Hr' & Hf). eexists _, _, _. split_and!; [done..|].
    intros b Hb Hba. apply Hf. cbn. by apply not_elem_of_cons.
  - destruct (addNodeTail_ok h l xs a v Hr Ha HB) as (h' & l' & E & Hr' & Hf & _). eexists _, _, _. split_and!; [done|done|by rewrite fmap_app|].
    intros b Hb Hba. apply Hf. rewrite fmap_app, not_elem_of_app. split; [done|]. by intros ?%list_elem_of_singleton.
  - by apply insertAt_ok.
  - by apply delAt_ok.
  - destruct (rev_nodes xs) as [->|(ys & o & w & ->)]; cbn [run_op seq_op].
    + exists h, l, []. unfold listRotateTailToHead. by rewrite (lr_len _ _ _ Hr).
    + destruct (rotateTailToHead_ok h l ys o w Hr) as (h' & l' & E & Hr' & Hf). eexists _, _, _. split_and!; [done|done| |].
      * rewrite fmap_app, reverse_app. change (reverse ([(o, w)].*2)) with [w]. cbn [app]. by rewrite reverse_involutive.
      * intros b Hb _. apply Hf. rewrite fmap_app, not_elem_of_app in Hb. cbn in *. rewrite not_elem_of_cons in *. tauto.
  - destruct xs as [|[o w] xs]; cbn [run_op seq_op].
    + exists h, l, []. unfold listRotateHeadToTail. by rewrite (lr_len _ _ _ Hr).
    + destruct (rotateHeadToTail_ok h l xs o w Hr) as (h' & l' & E & Hr' & Hf). eexists _, _, _. split_and!; [done|done|by rewrite fmap_app|].
      intros b Hb _. apply Hf. rewrite fmap_app, not_elem_of_app. cbn in *. rewrite not_elem_of_cons in *. split_and!; [tauto..|apply not_elem_of_nil].
  - destruct (listEmpty_ok h l xs Hr) as (h' & l' & E & Hr' & Hf). cbn [run_op]. rewrite E. cbn [mbind option_bind].
    eexists _, _, _. split_and!; [done|done|done|]. intros b Hb _. rewrite Hf. by rewrite decide_False.
Qed.

(** ** Iteration *)

(** The documented use of an iterator: [while((node = listNext(iter)) != NULL)],
    where the node just returned is deleted when [P] holds of its value. Returns
    the values visited. *)
Fixpoint visit (fuel : nat) (P : V -> bool) (h : heap) (l : list_ V) (it : listIter) : option (heap * list_ V * list V) :=
  match fuel with
  | O => None
  | S fuel =>
    '(it, node) ← listNext h it;
    match node with
    | None => Some (h, l, [])
    | Some a =>
      c ← h !! a;
      '(h, l) ← (if P (value c) then '(h, l, _) ← listDelNode h l a; Some (h, l) else Some (h, l));
      '(h, l, vs) ← visit fuel P h l it;
      Some (h, l, value c :: vs)
    end
  end.

Definition keep (P : V -> bool) (xs : nodes) : nodes := List.filter (fun x => negb (P x.2)) xs.

Lemma visit_forward fuel P h l ks ts : lrep h l (ks ++ ts) -> (length ts < fuel)%nat ->
  exists h' l', visit fuel P h l (mkIter (first ts None) AL_START_HEAD) = Some (h', l', ts.*2)
    /\ lrep h' l' (ks ++ keep P ts).
Proof.
  revert h l ks ts. induction fuel as [|fuel IH]; intros h l ks ts Hr Hf; [lia|].
  destruct ts as [|[a v] ts]; [by exists h, l|].
  assert (Ha : h !! a = Some (mkNode (lastp None ks) (first ts None) v)).
  { pose proof (lr_seg _ _ _ Hr) as Hs. apply lseg_app in Hs as [_ [Ha _]]. exact Ha. }
  cbn [visit first]. unfold listNext. cbn [iter_next iter_direction]. rewrite Ha. cbn [mbind option_bind next].
  rewrite Ha. cbn [mbind option_bind value keep List.filter snd]. cbn [length] in Hf. destruct (P v) eqn:EP.
  - destruct (delNode_ok h l ks ts a v Hr) as (h1 & l1 & E & Hr1 & _). rewrite E. cbn [mbind option_bind negb].
    destruct (IH h1 l1 ks ts Hr1) as (h' & l' & E' & Hr'); [lia|]. rewrite E'. eauto.
  - cbn [mbind option_bind negb]. rewrite cons_middle, (assoc app) in Hr.
    destruct (IH h l _ ts Hr) as (h' & l' & E' & Hr'); [lia|]. rewrite E'. exists h', l'. split; [done|].
    by rewrite <- (assoc app) in Hr'.
Qed.

Lemma visit_backward fuel P h l ts ks : lrep h l (ts ++ ks) -> (length ts < fuel)%nat ->
  exists h' l', visit fuel P h l (mkIter (lastp None ts) AL_START_TAIL) = Some (h', l', reverse ts.*2)
    /\ lrep h' l' (keep P ts ++ ks).
Proof.
  revert h l ks ts. induction fuel as [|fuel IH]; intros h l ks ts Hr Hf; [lia|].
  destruct (rev_nodes ts) as [->|(ys & a & v & ->)]; [by exists h, l|].
  rewrite <- (assoc app) in Hr. cbn [app] in Hr. rewrite length_app in Hf. cbn [length] in Hf.
  assert (Ha : h !! a = Some (mkNode (lastp None ys) (first ks None) v)).
  { pose proof (lr_seg _ _ _ Hr) as Hs. apply lseg_app in Hs as [_ [Ha _]]. exact Ha. }
  rewrite lastp_app. cbn [visit lastp]. unfold listNext. cbn [iter_next iter_direction]. rewrite Ha. cbn [mbind option_bind prev].
  rewrite Ha. unfold keep. rewrite fmap_app, reverse_app, List.filter_app. fold (keep P ys).
  change (reverse ([(a, v)].*2)) with [v]. cbn [mbind option_bind value List.filter snd app]. destruct (P v) eqn:EP.
  - destruct (delNode_ok h l ys ks a v Hr) as (h1 & l1 & E & Hr1 & _). rewrite E. cbn [mbind option_bind negb].
    destruct (IH h1 l1 ks ys Hr1) as (h' & l' & E' & Hr'); [lia|]. rewrite E'. rewrite app_nil_r. eauto.
  - cbn [mbind option_bind negb]. destruct (IH h l ((a, v) :: ks) ys Hr) as (h' & l' & E' & Hr'); [lia|].
    rewrite E'. exists h', l'. split; [done|]. by rewrite <- (assoc app).
Qed.

(** Iterating from either end, while deleting any of the nodes the iterator
    has just returned, follows only valid pointers, visits every value once in
    order, ends, and leaves the list of the nodes that were kept. *)
Theorem iterate_delete h l xs P d : lrep h l xs ->
  exists h' l', visit (S (length xs)) P h l (listGetIterator l d)
      = Some (h', l', match d with AL_START_HEAD => xs.*2 | AL_START_TAIL => reverse xs.*2 end)
    /\ lrep h' l' (keep P xs).
Proof.
  intros Hr. unfold listGetIterator. destruct d.
  - rewrite (lr_head _ _ _ Hr). apply (visit_forward _ P h l [] xs); [done|lia].
  - rewrite (lr_tail _ _ _ Hr).
    destruct (visit_backward (S (length xs)) P h l xs []) as (h' & l' & E & Hr'); [by rewrite app_nil_r|lia|].
    rewrite app_nil_r in Hr'. eauto.
Qed.

(** ** Copying *)

Definition dup_value (l : list_ V) (v : V) : option V := match dup l with Some f => f v | None => Some v end.

Lemma dup_loop_ok fuel h0 p ts : forall fr h c cs, lseg h0 p ts None -> lrep h c cs -> frame h0 h cs ->
  (forall b, b ∈ cs.*1 \/ b ∈ fr -> h0 !! b = None) -> NoDup fr -> (forall b, b ∈ fr -> b ∉ cs.*1) ->
  length fr = length ts -> (length ts < fuel)%nat -> zlen cs + zlen ts < 2 ^ 63 ->
  match mapM (dup_value c) ts.*2 with
  | Some ws => exists h' c', dup_loop fuel fr h (mkIter (first ts None) AL_START_HEAD) c = Some (h', Some c')
      /\ lrep h' c' (cs ++ zip fr ws) /\ frame h0 h' (cs ++ zip fr ws)
      /\ dup c' = dup c /\ free c' = free c /\ match_ c' = match_ c
  | None => dup_loop fuel fr h (mkIter (first ts None) AL_START_HEAD) c = Some (h0, None)
  end.
Proof.
  revert p ts. induction fuel as [|fuel IH]; intros p ts fr h c cs Hs Hr Hf Hn Hnd Hd Hl Hfu HB; [lia|].
  destruct ts as [|[a v] ts]; destruct fr as [|b fr]; try done.
  - cbn. exists h, c. by rewrite app_nil_r.
  - destruct Hs as [Ha Hs]. cbn [length] in *.
    assert (Hha : h !! a = h0 !! a). { apply Hf. intros Hin. rewrite Hn in Ha; [done|by left]. }
    cbn [dup_loop first]. unfold listNext. cbn [iter_next iter_direction]. rewrite Hha, Ha. cbn [mbind option_bind next].
    rewrite Hha, Ha. cbn [mbind option_bind value fmap list_fmap snd mapM]. fold (dup_value c v).
    destruct (dup_value c v) as [w|]; cbn [mbind option_bind].
    + apply NoDup_cons in Hnd as [Hbn Hnd].
      destruct (addNodeTail_ok h c cs b w Hr) as (h1 & c1 & E & Hr1 & Hf1 & Ed & Efr & Em); [apply Hd; left|lia|].
      rewrite E. cbn [mbind option_bind]. assert (Edv : dup_value c1 = dup_value c) by (unfold dup_value; by rewrite Ed).
      specialize (IH (Some a) ts fr h1 c1 (cs ++ [(b, w)]) Hs Hr1).
      rewrite Edv, Ed, Efr, Em in IH. lapply IH; clear IH; [intros IH|].
      2: { eapply frame_trans; [exact Hf|exact Hf1|]. intros x [Hx|Hx]; [rewrite fmap_app; apply elem_of_app; by left|done]. }
      lapply IH; clear IH; [intros IH|].
      2: { intros x [Hx|Hx]; [|apply Hn; right; by right]. rewrite fmap_app in Hx.
           apply elem_of_app in Hx as [Hx|Hx%list_elem_of_singleton]; apply Hn; [by left|right; subst; left]. }
      specialize (IH Hnd). lapply IH; clear IH; [intros IH|].
      2: { intros x Hx. rewrite fmap_app, not_elem_of_app. split; [apply Hd; by right|]. by intros ->%list_elem_of_singleton. }
      specialize (IH ltac:(lia) ltac:(lia) ltac:(rewrite length_app; cbn; lia)).
      destruct (mapM (dup_value c) (snd <$> ts)) as [ws|]; [|done].
      destruct IH as (h' & c' & E' & Hr' & Hf' & Rest). rewrite <- (assoc app) in Hr', Hf'. by exists h', c'.
    + destruct (listEmpty_ok h c cs Hr) as (h' & l' & E & _ & Hh'). unfold listRelease. rewrite E. cbn [mbind option_bind].
      do 2 f_equal. apply map_eq. intros x. rewrite Hh'. destruct (decide (x ∈ cs.*1)); [symmetry; apply Hn; by left|by apply Hf].
Qed.

(** [listDup] returns a disjoint list of the copied values with the same
    methods and leaves the original unchanged; when the [dup] method fails on a
    value, it returns NULL and the heap is exactly the one before the call. *)
Theorem listDup_spec h l xs fr : lrep h l xs -> length fr = length xs -> NoDup fr -> (forall b, b ∈ fr -> h !! b = None) ->
  match mapM (dup_value l) xs.*2 with
  | Some ws => exists h' c, listDup fr h l = Some (h', Some c) /\ lrep h' c (zip fr ws) /\ lrep h' l xs
      /\ dup c = dup l /\ free c = free l /\ match_ c = match_ l
  | None => listDup fr h l = Some (h, None)
  end.
Proof.
  intros Hr Hl Hnd Hn. unfold listDup, listRewind. rewrite (lr_len _ _ _ Hr), Nat2Z.id, (lr_head _ _ _ Hr).
  set (c0 := mkList None None _ _ _ 0).
  assert (Hc : lrep h c0 []) by (split; try done; apply NoDup_nil_2).
  pose proof (dup_loop_ok (S (length xs)) h None xs fr h c0 [] (lr_seg _ _ _ Hr) Hc) as Hd.
  pose proof (lr_bound _ _ _ Hr) as HB.
  specialize (Hd (frame_refl _ _)). lapply Hd; clear Hd; [intros Hd|].
  2: { intros b [Hb|Hb]; [by apply not_elem_of_nil in Hb|auto]. }
  specialize (Hd Hnd (fun b _ => not_elem_of_nil b) Hl ltac:(lia) ltac:(cbn; lia)).
  change (dup_value c0) with (dup_value l) in Hd. destruct (mapM (dup_value l) xs.*2) as [ws|]; [|done].
  destruct Hd as (h' & c & E & Hc' & Hf & Ed & Efr & Em). cbn [app] in Hc', Hf. exists h', c. split_and!; try done.
  destruct Hr as [Hs E1 E2 E3 Hx HB']. split; try done. eapply lseg_frame; [exact Hf| |exact Hs].
  intros b Hb Hin. destruct (lseg_lookup _ _ _ _ _ Hs Hb) as [n En]. rewrite Hn in En; [done|].
  apply list_elem_of_fmap in Hin as ([b' w] & -> & Hin). cbn. by apply elem_of_zip_l in Hin.
Qed.

(** ** Concatenation *)

(** [listJoin] moves the nodes of the second list to the end of the first
    one, whichever of them is empty, and leaves the second one empty. *)
Theorem listJoin_spec h l o xs ys : lrep h l xs -> lrep h o ys -> (forall b, b ∈ xs.*1 -> b ∉ ys.*1) ->
  zlen xs + zlen ys < 2 ^ 63 ->
  exists h' l' o', listJoin h l o = Some (h', l', o') /\ lrep h' l' (xs ++ ys) /\ lrep h' o' [] /\ frame h h' (xs ++ ys).
Proof.
  intros Hl Ho Hd HB. unfold listJoin. rewrite (zero_len _ _ _ Ho).
  destruct ys as [|[b w] ys']; [exists h, l, o; by rewrite app_nil_r|]. set (ys := (b, w) :: ys') in *.
  rewrite (lr_head _ _ _ Ho), (lr_tail _ _ _ Ho), (lr_tail _ _ _ Hl), (lr_head _ _ _ Hl), (lr_len _ _ _ Hl), (lr_len _ _ _ Ho).
  destruct (relink_first_opt h None (lastp None xs) ys (lr_seg _ _ _ Ho) (lr_nodup _ _ _ Ho)) as (h1 & E1 & Hy1 & F1).
  assert (Hx1 : lseg h1 None xs None) by (eapply lseg_frame; [exact F1|exact Hd|apply Hl]).
  destruct (relink_last_opt h1 xs None (first ys None) Hx1 (lr_nodup _ _ _ Hl)) as (h2 & E2 & Hx2 & F2).
  cbn [first ys mbind option_bind] in *. rewrite E1. cbn [mbind option_bind].
  exists h2, (set_ends l (first (xs ++ ys) None) (lastp None (xs ++ ys)) (zlen xs + zlen ys)), (set_ends o None None 0).
  assert (Hz : lseg h2 None (xs ++ ys) None).
  { apply lseg_app. split; [done|]. eapply lseg_frame; [exact F2| |exact Hy1]. intros x Hx Hin. by apply (Hd x). }
  split; [|split; [|split]].
  - rewrite first_app, lastp_app. destruct (rev_nodes xs) as [->|(zs & a & v & ->)]; [by injection E2 as <-|].
    rewrite !lastp_app in *. cbn [lastp] in *. rewrite E2. cbn [mbind option_bind]. rewrite !first_app. by destruct zs as [|[? ?] ?].
  - apply lrep_intro; rewrite ?length_app; try done; try lia. rewrite fmap_app. apply NoDup_app. split_and!; [apply Hl|done|apply Ho].
  - apply lrep_intro; try done. apply NoDup_nil_2.
  - eapply frame_trans; [exact F1|exact F2|]. intros x. rewrite fmap_app, elem_of_app. tauto.
Qed.

(** The first node whose value matches. *)
Theorem listSearchKey_spec h l xs k : lrep h l xs ->
  listSearchKey h l k =
    Some (fst <$> List.find (fun x => match match_ l with Some m => m x.2 k | None => bool_decide (k = x.2) end) xs).
Proof.
  intros Hr. unfold listSearchKey, listRewind. rewrite (lr_head _ _ _ Hr).
  apply (search_loop_ok h l None); [apply Hr|]. rewrite (lr_len _ _ _ Hr). lia.
Qed.
End rep.

(** * Instances *)

Definition sample_heap : gmap Z (listNode Z) :=
  <[10 := mkNode None (Some 20) 1]> (<[20 := mkNode (Some 10) (Some 30) 2]> (<[30 := mkNode (Some 20) None 3]>
  (<[40 := mkNode None None 4]> ∅))).
Definition sample_list : list_ Z := mkList (Some 10) (Some 30) None false None 3.
Definition sample_other : list_ Z := mkList (Some 40) (Some 40) None false None 1.

Ltac lrep_compute :=
  split; [repeat split|reflexivity..|vm_compute; repeat (apply NoDup_cons_2; [by rewrite ?elem_of_cons, elem_of_nil; lia|]);
    apply NoDup_nil_2|reflexivity].

Lemma sample_list_rep : lrep sample_heap sample_list [(10, 1); (20, 2); (30, 3)].
Proof. lrep_compute. Qed.
Lemma sample_other_rep : lrep sample_heap sample_other [(40, 4)].
Proof. lrep_compute. Qed.

Lemma list_op_refines_witness : exists h' l' xs',
  run_op sample_heap sample_list (InsertAt (-1) 7 true) 50 = Some (h', l') /\ lrep h' l' xs' /\ xs'.*2 = [1; 2; 3; 7].
Proof.
  destruct (list_op_refines _ _ _ (InsertAt (-1) 7 true) 50 sample_list_rep) as (h' & l' & xs' & E & Hr & Ex & _);
    [reflexivity|reflexivity|reflexivity|]. exists h', l', xs'. split_and!; [exact E|exact Hr|exact Ex].
Defined.

Lemma iterate_delete_witness : exists h' l',
  visit 4 (fun v => v =? 2) sample_heap sample_list (listGetIterator sample_list AL_START_TAIL) = Some (h', l', [3; 2; 1])
  /\ lrep h' l' [(10, 1); (30, 3)].
Proof. exact (iterate_delete _ _ _ (fun v => v =? 2) AL_START_TAIL sample_list_rep). Defined.

Lemma listDup_spec_witness : exists h' c,
  listDup [50; 60; 70] sample_heap sample_list = Some (h', Some c) /\ lrep h' c [(50, 1); (60, 2); (70, 3)].
Proof.
  destruct (listDup_spec _ _ _ [50; 60; 70] sample_list_rep) as (h' & c & E & Hr & _); [reflexivity| | |].
  - apply (bool_decide_unpack _). vm_compute. exact I.
  - intros b Hb. repeat (apply elem_of_cons in Hb as [->|Hb]; [reflexivity|]). by apply not_elem_of_nil in Hb.
  - exists h', c. split; [exact E|exact Hr].
Defined.

Lemma listJoin_spec_witness : exists h' l' o',
  listJoin sample_heap sample_list sample_other = Some (h', l', o') /\ lrep h' l' [(10, 1); (20, 2); (30, 3); (40, 4)].
Proof.
  destruct (listJoin_spec _ _ _ _ _ sample_list_rep sample_other_rep) as (h' & l' & o' & E & Hr & _); [|reflexivity|].
  - intros b Hb. repeat (apply elem_of_cons in Hb as [->|Hb]; [apply (bool_decide_unpack _); vm_compute; exact I|]). by apply not_elem_of_nil in Hb.
  - exists h', l', o'. split; [exact E|exact Hr].
Defined.
