(* ===== verification/Sds.v ===== *)
(** Dynamic strings: [sds.c] and [sds.h].

    An sds is a pointer into its allocation: the bytes of the block and the
    offset of the string in it, the header (five layouts) being the bytes
    before. All header fields are read and written in the block, in host order.
    A failed assertion or an access outside the block is [None]. The target is
    64-bit ([LONG_MAX == LLONG_MAX]). A source operand of [len] bytes is the
    list of these bytes; a NUL-terminated one is the bytes before the NUL. *)
From S2P Require Import Prelude Endian Util.

Record sds := mkSds { sblk : bytes; soff : Z }.

(** [s_malloc_usable] and [s_realloc_usable]: the allocator gives at least the
    bytes asked for and reports the size of the block. *)
Class SdsAlloc := {
  sds_alloc :: Alloc;
  usable_size : Z -> Z;
  usable_ge : forall n, n <= usable_size n;
  usable_max : forall n, n <= 2 ^ 63 -> usable_size n < 2 ^ 64
}.

Definition SDS_MAX_PREALLOC : Z := 1024 * 1024.
Definition SDS_TYPE_5 : Z := 0.
Definition SDS_TYPE_8 : Z := 1.
Definition SDS_TYPE_16 : Z := 2.
Definition SDS_TYPE_32 : Z := 3.
Definition SDS_TYPE_64 : Z := 4.
Definition SDS_TYPE_MASK : Z := 7.
Definition SDS_TYPE_BITS : Z := 3.

Definition SDS_TYPE_5_LEN (f : Z) : Z := Z.shiftr f SDS_TYPE_BITS.

(** [sizeof(struct sdshdrT)], packed, for fields of [n] bytes. *)
Definition sizeof_sdshdr (n : nat) : Z := 2 * Z.of_nat n + 1.

(** The switch on the type of a string: the case of type 5, the case of the
    other types for the size of their fields, and the default. *)
Definition switch_type {A} (ty : Z) (case5 : A) (caseT : nat -> A) (default : A) : A :=
  if ty =? SDS_TYPE_5 then case5
  else if ty =? SDS_TYPE_8 then caseT 1%nat
  else if ty =? SDS_TYPE_16 then caseT 2%nat
  else if ty =? SDS_TYPE_32 then caseT 4%nat
  else if ty =? SDS_TYPE_64 then caseT 8%nat
  else default.

(** [s[i]], [s[i] = c] and [memcpy(s+i, src, |src|)]. *)
Definition sget (s : sds) (i : Z) : option Z := (sblk s).[soff s + i].
Definition swrite (s : sds) (i : Z) (src : bytes) : option sds :=
  b ← bwrite (sblk s) (soff s + i) src; Some (mkSds b (soff s)).
Definition sput (s : sds) (i c : Z) : option sds := swrite s i [c].

Section sds.
Context `{Host, SdsAlloc}.

(** [SDS_HDR(T,s)->len], [->alloc], and their assignments. *)
Definition hdr_len (n : nat) (s : sds) : option Z := load n (sblk s) (soff s - sizeof_sdshdr n).
Definition hdr_alloc (n : nat) (s : sds) : option Z := load n (sblk s) (soff s - sizeof_sdshdr n + Z.of_nat n).
Definition set_hdr_len (n : nat) (s : sds) (v : Z) : option sds :=
  b ← store n (sblk s) (soff s - sizeof_sdshdr n) v; Some (mkSds b (soff s)).
Definition set_hdr_alloc (n : nat) (s : sds) (v : Z) : option sds :=
  b ← store n (sblk s) (soff s - sizeof_sdshdr n + Z.of_nat n) v; Some (mkSds b (soff s)).

Definition sdslen (s : sds) : option Z :=
  flags ← sget s (-1);
  switch_type (Z.land flags SDS_TYPE_MASK)
    (Some (SDS_TYPE_5_LEN flags))
    (fun n => hdr_len n s)
    (Some 0).

(** [alloc - len] is computed in [int] for the small types and then converted
    to [size_t]. *)
Definition sdsavail (s : sds) : option Z :=
  flags ← sget s (-1);
  switch_type (Z.land flags SDS_TYPE_MASK)
    (Some 0)
    (fun n => a ← hdr_alloc n s; l ← hdr_len n s;
       Some (if (n =? 4)%nat then uwrap 32 (a - l) else uwrap 64 (a - l)))
    (Some 0).

Definition sdssetlen (s : sds) (newlen : Z) : option sds :=
  flags ← sget s (-1);
  switch_type (Z.land flags SDS_TYPE_MASK)
    (sput s (-1) (uwrap 8 (Z.lor SDS_TYPE_5 (Z.shiftl newlen SDS_TYPE_BITS))))
    (fun n => set_hdr_len n s newlen)
    (Some s).

Definition sdsinclen (s : sds) (inc : Z) : option sds :=
  flags ← sget s (-1);
  switch_type (Z.land flags SDS_TYPE_MASK)
    (let newlen := uwrap 8 (SDS_TYPE_5_LEN flags + inc) in
     sput s (-1) (uwrap 8 (Z.lor SDS_TYPE_5 (Z.shiftl newlen SDS_TYPE_BITS))))
    (fun n => l ← hdr_len n s; set_hdr_len n s (l + inc))
    (Some s).

Definition sdsalloc (s : sds) : option Z :=
  flags ← sget s (-1);
  switch_type (Z.land flags SDS_TYPE_MASK)
    (Some (SDS_TYPE_5_LEN flags))
    (fun n => hdr_alloc n s)
    (Some 0).

Definition sdssetalloc (s : sds) (newlen : Z) : option sds :=
  flags ← sget s (-1);
  switch_type (Z.land flags SDS_TYPE_MASK)
    (Some s)
    (fun n => set_hdr_alloc n s newlen)
    (Some s).

Definition sdsHdrSize (type : Z) : Z :=
  switch_type (Z.land type SDS_TYPE_MASK) 1 sizeof_sdshdr 0.

Definition sdsReqType (string_size : Z) : Z :=
  if string_size <? Z.shiftl 1 5 then SDS_TYPE_5
  else if string_size <? Z.shiftl 1 8 then SDS_TYPE_8
  else if string_size <? Z.shiftl 1 16 then SDS_TYPE_16
  else if string_size <? Z.shiftl 1 32 then SDS_TYPE_32
  else SDS_TYPE_64.

Definition sdsTypeMaxSize (type : Z) : Z :=
  if type =? SDS_TYPE_5 then Z.shiftl 1 5 - 1
  else if type =? SDS_TYPE_8 then Z.shiftl 1 8 - 1
  else if type =? SDS_TYPE_16 then Z.shiftl 1 16 - 1
  else if type =? SDS_TYPE_32 then Z.shiftl 1 32 - 1
  else uwrap 64 (-1).

(** The [init] argument: a pointer to the bytes, NULL, or [SDS_NOINIT]. *)
Inductive init_arg := Init (b : bytes) | InitNull | SDS_NOINIT.

Definition _sdsnewlen (init : init_arg) (initlen : Z) : option sds :=
  let type := sdsReqType initlen in
  let type := if (type =? SDS_TYPE_5) && (initlen =? 0) then SDS_TYPE_8 else type in
  let hdrlen := sdsHdrSize type in
  if negb (uwrap 64 (initlen + hdrlen + 1) >? initlen) then None
  else
    let usable := usable_size (hdrlen + initlen + 1) in
    let sh := zmalloc usable in
    sh ← match init with
         | InitNull => bwrite sh 0 (replicate (Z.to_nat (hdrlen + initlen + 1)) 0)
         | _ => Some sh
         end;
    let s := mkSds sh hdrlen in
    let usable := usable - hdrlen - 1 in
    let usable := if usable >? sdsTypeMaxSize type then sdsTypeMaxSize type else usable in
    s ← switch_type type
          (sput s (-1) (uwrap 8 (Z.lor type (Z.shiftl initlen SDS_TYPE_BITS))))
          (fun n => s ← set_hdr_len n s initlen; s ← set_hdr_alloc n s usable; sput s (-1) type)
          (Some s);
    s ← match init with
        | Init b => if negb (initlen =? 0) then t ← bslice b 0 initlen; swrite s 0 t else Some s
        | _ => Some s
        end;
    sput s initlen 0.

Definition sdsnewlen (init : init_arg) (initlen : Z) : option sds := _sdsnewlen init initlen.
Definition sdsempty : option sds := sdsnewlen (Init []) 0.
(** [NULL], or the bytes before the NUL. *)
Definition sdsnew (init : option bytes) : option sds :=
  match init with None => sdsnewlen InitNull 0 | Some t => sdsnewlen (Init t) (zlen t) end.

(** The bytes at the pointer [s]. *)
Definition sbuf (s : sds) : bytes := drop (Z.to_nat (soff s)) (sblk s).

Definition sdsdup (s : sds) : option sds := l ← sdslen s; sdsnewlen (Init (sbuf s)) l.

(** [strlen]. *)
Fixpoint strlen (b : bytes) : option Z :=
  match b with
  | [] => None
  | c :: b => if c =? 0 then Some 0 else n ← strlen b; Some (n + 1)
  end.

Definition sdsupdatelen (s : sds) : option sds := reallen ← strlen (sbuf s); sdssetlen s reallen.
Definition sdsclear (s : sds) : option sds := s ← sdssetlen s 0; sput s 0 0.

Definition sdsMakeRoomFor (s : sds) (addlen : Z) : option sds :=
  avail ← sdsavail s;
  flags ← sget s (-1);
  let oldtype := Z.land flags SDS_TYPE_MASK in
  if avail >=? addlen then Some s
  else
    len ← sdslen s;
    let reqlen := uwrap 64 (len + addlen) in
    let newlen := reqlen in
    if negb (newlen >? len) then None
    else
      let newlen := if newlen <? SDS_MAX_PREALLOC then uwrap 64 (newlen * 2) else uwrap 64 (newlen + SDS_MAX_PREALLOC) in
      let type := sdsReqType newlen in
      let type := if type =? SDS_TYPE_5 then SDS_TYPE_8 else type in
      let hdrlen := sdsHdrSize type in
      if negb (uwrap 64 (hdrlen + newlen + 1) >? reqlen) then None
      else
        let usable := usable_size (uwrap 64 (hdrlen + newlen + 1)) in
        s ← (if oldtype =? type then Some (mkSds (zrealloc (sblk s) usable) hdrlen)
             else
               src ← bslice (sblk s) (soff s) (len + 1);
               newsh ← bwrite (zmalloc usable) hdrlen src;
               s ← sput (mkSds newsh hdrlen) (-1) type;
               sdssetlen s len);
        let usable := usable - hdrlen - 1 in
        let usable := if usable >? sdsTypeMaxSize type then sdsTypeMaxSize type else usable in
        sdssetalloc s usable.

Definition sdsRemoveFreeSpace (s : sds) : option sds :=
  flags ← sget s (-1);
  let oldtype := Z.land flags SDS_TYPE_MASK in
  let oldhdrlen := sdsHdrSize oldtype in
  len ← sdslen s;
  avail ← sdsavail s;
  if avail =? 0 then Some s
  else
    let type := sdsReqType len in
    let hdrlen := sdsHdrSize type in
    s ← (if (oldtype =? type) || (type >? SDS_TYPE_8) then Some (mkSds (zrealloc (sblk s) (oldhdrlen + len + 1)) oldhdrlen)
         else
           src ← bslice (sblk s) (soff s) (len + 1);
           newsh ← bwrite (zmalloc (hdrlen + len + 1)) hdrlen src;
           s ← sput (mkSds newsh hdrlen) (-1) type;
           sdssetlen s len);
    sdssetalloc s len.

Definition sdsAllocSize (s : sds) : option Z :=
  alloc ← sdsalloc s; flags ← sget s (-1); Some (sdsHdrSize flags + alloc + 1).
(** The offset of the allocation, 0 for a valid string. *)
Definition sdsAllocPtr (s : sds) : option Z := flags ← sget s (-1); Some (soff s - sdsHdrSize flags).
(** [sdsfree]: whether the pointer given to [free] is the one allocated. *)
Definition sdsfree (s : sds) : option unit :=
  flags ← sget s (-1); if soff s - sdsHdrSize flags =? 0 then Some tt else None.

(** The assertion of [sdsIncrLen] for fields of [n] bytes, with the conversions
    of its operands. *)
Definition incr_ok (n : nat) (alloc len incr : Z) : bool :=
  match n with
  | 4%nat => (incr >=? 0) && (uwrap 32 (alloc - len) >=? uwrap 32 incr) || (incr <? 0) && (len >=? uwrap 32 (- incr))
  | 8%nat => (incr >=? 0) && (uwrap 64 (alloc - len) >=? uwrap 64 incr) || (incr <? 0) && (len >=? uwrap 64 (- incr))
  | _ => (incr >=? 0) && (alloc - len >=? incr) || (incr <? 0) && (len >=? uwrap 32 (- incr))
  end.

Definition sdsIncrLen (s : sds) (incr : Z) : option sds :=
  flags ← sget s (-1);
  '(s, len) ← switch_type (Z.land flags SDS_TYPE_MASK)
    (let oldlen := SDS_TYPE_5_LEN flags in
     if (incr >? 0) && (oldlen + incr <? 32) || (incr <? 0) && (oldlen >=? uwrap 32 (- incr)) then
       s ← sput s (-1) (uwrap 8 (Z.lor SDS_TYPE_5 (Z.shiftl (oldlen + incr) SDS_TYPE_BITS)));
       Some (s, uwrap 64 (oldlen + incr))
     else None)
    (fun n =>
       alloc ← hdr_alloc n s; len ← hdr_len n s;
       if incr_ok n alloc len incr then
         let len := uwrap (8 * Z.of_nat n) (len + incr) in
         s ← set_hdr_len n s len; Some (s, len)
       else None)
    (Some (s, 0));
  sput s len 0.

Definition sdsgrowzero (s : sds) (len : Z) : option sds :=
  curlen ← sdslen s;
  if len <=? curlen then Some s
  else
    s ← sdsMakeRoomFor s (len - curlen);
    s ← swrite s curlen (replicate (Z.to_nat (len - curlen + 1)) 0);
    sdssetlen s len.

Definition sdscatlen (s : sds) (t : bytes) : option sds :=
  let len := zlen t in
  curlen ← sdslen s;
  s ← sdsMakeRoomFor s len;
  s ← swrite s curlen t;
  s ← sdssetlen s (curlen + len);
  sput s (curlen + len) 0.
Definition sdscat (s : sds) (t : bytes) : option sds := sdscatlen s t.
Definition sdscatsds (s t : sds) : option sds := l ← sdslen t; b ← bslice (sbuf t) 0 l; sdscatlen s b.

Definition sdscpylen (s : sds) (t : bytes) : option sds :=
  let len := zlen t in
  alloc ← sdsalloc s;
  s ← (if alloc <? len then l ← sdslen s; sdsMakeRoomFor s (uwrap 64 (len - l)) else Some s);
  s ← swrite s 0 t;
  s ← sput s len 0;
  sdssetlen s len.
Definition sdscpy (s : sds) (t : bytes) : option sds := sdscpylen s t.

(** ** Numbers *)

Definition SDS_LLSTR_SIZE : Z := 21.

(** [do { *p++ = '0'+(v%10); v /= 10; } while(v)] *)
Fixpoint digit_loop (fuel : nat) (b : bytes) (p v : Z) : option (bytes * Z) :=
  match fuel with
  | O => None
  | S fuel =>
    b ← bset b p (48 + v mod 10);
    if v / 10 =? 0 then Some (b, p + 1) else digit_loop fuel b (p + 1) (v / 10)
  end.

(** [while(s < p)]: reverse the bytes between the two pointers. *)
Fixpoint reverse_loop (fuel : nat) (b : bytes) (s p : Z) : option bytes :=
  if s <? p then
    match fuel with
    | O => None
    | S fuel => b ← swap_bytes b s p; reverse_loop fuel b (s + 1) (p - 1)
    end
  else Some b.

(** [-value] overflows for the least value. *)
Definition sdsll2str (b : bytes) (value : Z) : option (Z * bytes) :=
  v ← (if value <? 0 then if value =? LLONG_MIN then None else Some (- value) else Some value);
  '(b, p) ← digit_loop (length b) b 0 v;
  '(b, p) ← (if value <? 0 then b ← bset b p 45; Some (b, p + 1) else Some (b, p));
  b ← bset b p 0;
  b ← reverse_loop (length b) b 0 (p - 1);
  Some (p, b).

Definition sdsull2str (b : bytes) (v : Z) : option (Z * bytes) :=
  '(b, p) ← digit_loop (length b) b 0 v;
  b ← bset b p 0;
  b ← reverse_loop (length b) b 0 (p - 1);
  Some (p, b).

Definition sdsfromlonglong (value : Z) : option sds :=
  '(len, buf) ← sdsll2str (zmalloc SDS_LLSTR_SIZE) value;
  sdsnewlen (Init buf) len.

(** ** Formatted output *)

(** [vsnprintf(buf, buflen, ...)] where the whole output is [out]: the bytes it
    stores and the length of the output, negative when it does not fit an
    [int]. *)
Definition vsnprintf (buflen : Z) (out : bytes) : bytes * Z :=
  (take (Z.to_nat (buflen - 1)) out, if zlen out <=? INT32_MAX then zlen out else -1).

(** [Some None] is the result NULL. *)
Fixpoint vprintf_loop (fuel : nat) (buflen : Z) (out : bytes) : option (option bytes) :=
  match fuel with
  | O => None
  | S fuel =>
    let '(buf, bufstrlen) := vsnprintf buflen out in
    if bufstrlen <? 0 then Some None
    else if bufstrlen >=? buflen then vprintf_loop fuel (bufstrlen + 1) out
    else t ← bslice (buf ++ [0]) 0 bufstrlen; Some (Some t)
  end.

Definition sdscatvprintf (s : sds) (fmt out : bytes) : option (option sds) :=
  let buflen := uwrap 64 (zlen fmt * 2) in
  let buflen := if buflen >? 1024 then buflen else 1024 in
  t ← vprintf_loop 2 buflen out;
  match t with None => Some None | Some t => s ← sdscatlen s t; Some (Some s) end.
Definition sdscatprintf (s : sds) (fmt out : bytes) : option (option sds) := sdscatvprintf s fmt out.

(** The variable arguments of [sdscatfmt]. *)
Inductive fmt_arg := ArgStr (t : bytes) | ArgSds (t : sds) | ArgNum (v : Z) | ArgUnum (v : Z).

(** Append at [i], the position of the next byte: [memcpy(s+i,...)] with the
    space made as the code does. *)
Definition fmt_append (s : sds) (i : Z) (t : bytes) : option (sds * Z) :=
  avail ← sdsavail s;
  s ← (if avail <? zlen t then sdsMakeRoomFor s (zlen t) else Some s);
  s ← swrite s i t;
  s ← sdsinclen s (zlen t);
  Some (s, i + zlen t).

Definition fmt_char (s : sds) (i c : Z) : option (sds * Z) :=
  s ← sput s i c; s ← sdsinclen s 1; Some (s, i + 1).

(** The inner switch, on the character after [%]: the string, the position and
    the arguments left. *)
Definition fmt_spec (s : sds) (i next : Z) (ap : list fmt_arg) : option (sds * Z * list fmt_arg) :=
  if (next =? 115) || (next =? 83) then
    match ap with
    | ArgStr t :: ap => if next =? 115 then '(s, i) ← fmt_append s i t; Some (s, i, ap) else None
    | ArgSds t :: ap =>
      if next =? 83 then l ← sdslen t; b ← bslice (sbuf t) 0 l; '(s, i) ← fmt_append s i b; Some (s, i, ap) else None
    | _ => None
    end
  else if (next =? 105) || (next =? 73) then
    match ap with
    | ArgNum num :: ap =>
      '(l, buf) ← sdsll2str (zmalloc SDS_LLSTR_SIZE) num;
      t ← bslice buf 0 l; '(s, i) ← fmt_append s i t; Some (s, i, ap)
    | _ => None
    end
  else if (next =? 117) || (next =? 85) then
    match ap with
    | ArgUnum unum :: ap =>
      '(l, buf) ← sdsull2str (zmalloc SDS_LLSTR_SIZE) unum;
      t ← bslice buf 0 l; '(s, i) ← fmt_append s i t; Some (s, i, ap)
    | _ => None
    end
  else '(s, i) ← fmt_char s i next; Some (s, i, ap).

(** [while ( *f )]; [f] is the bytes at the pointer, with the final NUL. *)
Fixpoint fmt_loop (fuel : nat) (s : sds) (f : bytes) (i : Z) (ap : list fmt_arg) : option (sds * Z) :=
  match fuel, f with
  | S fuel, c :: f =>
    if c =? 0 then Some (s, i)
    else
      avail ← sdsavail s;
      s ← (if avail =? 0 then sdsMakeRoomFor s 1 else Some s);
      if c =? 37 then
        match f with
        | next :: f => '(s, i, ap) ← fmt_spec s i next ap; fmt_loop fuel s f i ap
        | [] => None
        end
      else '(s, i) ← fmt_char s i c; fmt_loop fuel s f i ap
  | _, _ => None
  end.

Definition sdscatfmt (s : sds) (fmt : bytes) (ap : list fmt_arg) : option sds :=
  initlen ← sdslen s;
  s ← sdsMakeRoomFor s (uwrap 64 (zlen fmt * 2));
  '(s, i) ← fmt_loop (S (length fmt)) s (fmt ++ [0]) initlen ap;
  sput s i 0.

(** ** In-place operations *)

(** [strchr(cset, c)] is not NULL: the terminating NUL is part of the string. *)
Definition strchr_in (cset : bytes) (c : Z) : bool := mem_char c cset || (c =? 0).

(** [while(sp <= end && strchr(cset, *sp)) sp++] *)
Fixpoint trim_left (fuel : nat) (s : sds) (cset : bytes) (sp e : Z) : option Z :=
  if sp <=? e then
    match fuel with
    | O => None
    | S fuel => c ← sget s sp; if strchr_in cset c then trim_left fuel s cset (sp + 1) e else Some sp
    end
  else Some sp.

(** [while(ep > sp && strchr(cset, *ep)) ep--] *)
Fixpoint trim_right (fuel : nat) (s : sds) (cset : bytes) (sp ep : Z) : option Z :=
  if ep >? sp then
    match fuel with
    | O => None
    | S fuel => c ← sget s ep; if strchr_in cset c then trim_right fuel s cset sp (ep - 1) else Some ep
    end
  else Some ep.

(** [memmove(s + dst, s + src, n)]. *)
Definition smove (s : sds) (dst src n : Z) : option sds :=
  b ← bmove (sblk s) (soff s + dst) (soff s + src) n; Some (mkSds b (soff s)).

Definition sdstrim (s : sds) (cset : bytes) : option sds :=
  l ← sdslen s;
  sp ← trim_left (Z.to_nat l) s cset 0 (l - 1);
  ep ← trim_right (Z.to_nat l) s cset sp (l - 1);
  let len := if sp >? ep then 0 else ep - sp + 1 in
  s ← (if negb (sp =? 0) then smove s 0 sp len else Some s);
  s ← sput s len 0;
  sdssetlen s len.

Definition sdssubstr (s : sds) (start len : Z) : option sds :=
  oldlen ← sdslen s;
  let '(start, len) := if start >=? oldlen then (0, 0) else (start, len) in
  let len := if len >? oldlen - start then oldlen - start else len in
  s ← (if negb (len =? 0) then smove s 0 start len else Some s);
  s ← sput s len 0;
  sdssetlen s len.

(** A signed 64-bit result, or the undefined behaviour of an overflow. *)
Definition signed64 (v : Z) : option Z := if (- 2 ^ 63 <=? v) && (v <? 2 ^ 63) then Some v else None.

(** [start] and [end_] are of type [ssize_t]; [len + start] is computed in
    [size_t]. *)
Definition sdsrange (s : sds) (start end_ : Z) : option sds :=
  len ← sdslen s;
  if len =? 0 then Some s
  else
    let start := if start <? 0 then swrap 64 (len + start) else start in
    let end_ := if end_ <? 0 then swrap 64 (len + end_) else end_ in
    newlen ← (if start >? end_ then Some 0 else d ← signed64 (end_ - start); signed64 (d + 1));
    sdssubstr s (uwrap 64 start) newlen.

Definition toupper (c : Z) : Z := if (97 <=? c) && (c <=? 122) then c - 32 else c.

(** [for (j = 0; j < len; j++) s[j] = f(s[j])] *)
Fixpoint map_loop (n : nat) (f : Z -> Z) (s : sds) (j : Z) : option sds :=
  match n with
  | O => Some s
  | S n => c ← sget s j; s ← sput s j (f c); map_loop n f s (j + 1)
  end.

Definition sdstolower (s : sds) : option sds := len ← sdslen s; map_loop (Z.to_nat len) tolower s 0.
Definition sdstoupper (s : sds) : option sds := len ← sdslen s; map_loop (Z.to_nat len) toupper s 0.
Definition sdsmapchars (s : sds) (from to : bytes) : option sds :=
  l ← sdslen s; map_loop (Z.to_nat l) (fun c => map_char c from to) s 0.

(** ** Comparison *)

(** [memcmp] on regions of the same length: the difference of the first bytes
    that differ. *)
Fixpoint memcmp (a b : bytes) : Z :=
  match a, b with
  | x :: a, y :: b => if x =? y then memcmp a b else x - y
  | _, _ => 0
  end.

(** [sdscmp] on the contents of the strings. *)
Definition cmp_contents (a b : bytes) : Z :=
  let l1 := zlen a in
  let l2 := zlen b in
  let minlen := Z.to_nat (if l1 <? l2 then l1 else l2) in
  let cmp := memcmp (take minlen a) (take minlen b) in
  if cmp =? 0 then if l1 >? l2 then 1 else if l1 <? l2 then -1 else 0 else cmp.

Definition sdscmp (s1 s2 : sds) : option Z :=
  l1 ← sdslen s1; l2 ← sdslen s2;
  a ← bslice (sbuf s1) 0 l1; b ← bslice (sbuf s2) 0 l2;
  Some (cmp_contents a b).

(** ** Splitting and joining *)

(** Room for the next token and the final one: [slots] is an [int]. *)
Definition more_slots (slots elements : Z) : option Z :=
  if slots <? elements + 2 then if slots * 2 <=? INT32_MAX then Some (slots * 2) else None else Some slots.

(** The loop of [sdssplitlen]: the tokens, and the start of the last one. *)
Fixpoint splitlen_loop (fuel : nat) (s : bytes) (len : Z) (sep : bytes) (slots elements start j : Z) : option (list sds * Z) :=
  if j <? len - (zlen sep - 1) then
    match fuel with
    | O => None
    | S fuel =>
      slots ← more_slots slots elements;
      here ← bslice s j (zlen sep);
      if bool_decide (here = sep) then
        t ← bslice s start (j - start);
        tok ← sdsnewlen (Init t) (j - start);
        '(toks, last) ← splitlen_loop fuel s len sep slots (elements + 1) (j + zlen sep) (j + zlen sep);
        Some (tok :: toks, last)
      else splitlen_loop fuel s len sep slots elements start (j + 1)
    end
  else Some ([], start).

(** [Some None] is the result NULL. *)
Definition sdssplitlen (s : bytes) (len : Z) (sep : bytes) : option (option (list sds)) :=
  if (zlen sep <? 1) || (len <? 0) then Some None
  else if len =? 0 then Some (Some [])
  else
    '(toks, start) ← splitlen_loop (Z.to_nat len) s len sep 5 0 0 0;
    t ← bslice s start (len - start);
    tok ← sdsnewlen (Init t) (len - start);
    Some (Some (toks ++ [tok])).

(** Frees the tokens from the last to the first. *)
Definition sdsfreesplitres (tokens : list sds) : option unit :=
  foldr (fun t r => _ ← r; sdsfree t) (Some tt) tokens.

Fixpoint joinsds_loop (join : sds) (argv : list sds) (sep : bytes) : option sds :=
  match argv with
  | [] => Some join
  | t :: argv =>
    join ← sdscatsds join t;
    join ← match argv with [] => Some join | _ => sdscatlen join sep end;
    joinsds_loop join argv sep
  end.
Definition sdsjoinsds (argv : list sds) (sep : bytes) : option sds := join ← sdsempty; joinsds_loop join argv sep.

Fixpoint join_loop (join : sds) (argv : list bytes) (sep : bytes) : option sds :=
  match argv with
  | [] => Some join
  | t :: argv =>
    join ← sdscat join t;
    join ← match argv with [] => Some join | _ => sdscat join sep end;
    join_loop join argv sep
  end.
Definition sdsjoin (argv : list bytes) (sep : bytes) : option sds := join ← sdsempty; join_loop join argv sep.

(** ** Quoting *)

(** The C locale. *)
Definition isprint (c : Z) : bool := (32 <=? c) && (c <=? 126).
Definition isspace (c : Z) : bool := (c =? 32) || (9 <=? c) && (c <=? 13).

(** [%02x] of a byte. *)
Definition hexdigit (d : Z) : Z := if d <? 10 then 48 + d else 87 + d.
Definition hex02 (c : Z) : bytes := [hexdigit (c / 16); hexdigit (c mod 16)].

(** A result that is not NULL. *)
Definition nonnull {A} (r : option (option A)) : option A := x ← r; x.

(** One character of the representation. *)
Definition repr_char (s : sds) (c : Z) : option sds :=
  if (c =? 92) || (c =? 34) then nonnull (sdscatprintf s (of_string "\%c") [92; c])
  else if c =? 10 then sdscatlen s (of_string "\n")
  else if c =? 13 then sdscatlen s (of_string "\r")
  else if c =? 9 then sdscatlen s (of_string "\t")
  else if c =? 7 then sdscatlen s (of_string "\a")
  else if c =? 8 then sdscatlen s (of_string "\b")
  else if isprint c then nonnull (sdscatprintf s (of_string "%c") [c])
  else nonnull (sdscatprintf s (of_string "\x%02x") ([92; 120] ++ hex02 c)).

Fixpoint repr_loop (s : sds) (p : bytes) : option sds :=
  match p with
  | [] => Some s
  | c :: p => s ← repr_char s c; repr_loop s p
  end.

Definition sdscatrepr (s : sds) (p : bytes) : option sds :=
  s ← sdscatlen s [34];
  s ← repr_loop s p;
  sdscatlen s [34].

Definition is_hex_digit (c : Z) : bool :=
  (c >=? 48) && (c <=? 57) || (c >=? 97) && (c <=? 102) || (c >=? 65) && (c <=? 70).

Definition hex_digit_to_int (c : Z) : Z :=
  if (48 <=? c) && (c <=? 57) then c - 48
  else if (c =? 97) || (c =? 65) then 10
  else if (c =? 98) || (c =? 66) then 11
  else if (c =? 99) || (c =? 67) then 12
  else if (c =? 100) || (c =? 68) then 13
  else if (c =? 101) || (c =? 69) then 14
  else if (c =? 102) || (c =? 70) then 15
  else 0.

(** [inq], [insq], or neither. *)
Inductive quote := Unquoted | Inq | Insq.

(** [*p == '\\' && *(p+1) == 'x' && is_hex_digit( *(p+2)) && is_hex_digit( *(p+3))],
    reading a byte only when the tests before it hold. A pointer is the bytes
    from it to the end of the object. *)
Definition hex_escape (p : bytes) : option (option Z) :=
  c0 ← p !! 0%nat;
  if negb (c0 =? 92) then Some None
  else
    c1 ← p !! 1%nat;
    if negb (c1 =? 120) then Some None
    else
      c2 ← p !! 2%nat;
      if negb (is_hex_digit c2) then Some None
      else
        c3 ← p !! 3%nat;
        if negb (is_hex_digit c3) then Some None
        else Some (Some (uwrap 8 (hex_digit_to_int c2 * 16 + hex_digit_to_int c3))).

Definition unescape (c : Z) : Z :=
  if c =? 110 then 10 else if c =? 114 then 13 else if c =? 116 then 9
  else if c =? 98 then 8 else if c =? 97 then 7 else c.

(** What one iteration of [while(!done)] does before [if ( *p) p++]: [goto err],
    [done = 1], or go on with a mode, the pointer and the token. *)
Inductive token_step := TErr | TDone (p : bytes) (cur : sds) | TGo (q : quote) (p : bytes) (cur : sds).

(** The closing quote must be followed by a space or the end. *)
Definition close_quote (p : bytes) (cur : sds) : option token_step :=
  c ← p !! 1%nat; Some (if (c =? 0) || isspace c then TDone p cur else TErr).

Definition token_iter (q : quote) (p : bytes) (cur : sds) : option token_step :=
  c ← p !! 0%nat;
  match q with
  | Inq =>
    h ← hex_escape p;
    match h with
    | Some byte => cur ← sdscatlen cur [byte]; Some (TGo Inq (drop 3 p) cur)
    | None =>
      c1 ← (if c =? 92 then p !! 1%nat else Some 0);
      if (c =? 92) && negb (c1 =? 0) then cur ← sdscatlen cur [unescape c1]; Some (TGo Inq (drop 1 p) cur)
      else if c =? 34 then close_quote p cur
      else if c =? 0 then Some TErr
      else cur ← sdscatlen cur [c]; Some (TGo Inq p cur)
    end
  | Insq =>
    c1 ← (if c =? 92 then p !! 1%nat else Some 0);
    if (c =? 92) && (c1 =? 39) then cur ← sdscatlen cur [39]; Some (TGo Insq (drop 1 p) cur)
    else if c =? 39 then close_quote p cur
    else if c =? 0 then Some TErr
    else cur ← sdscatlen cur [c]; Some (TGo Insq p cur)
  | Unquoted =>
    if (c =? 32) || (c =? 10) || (c =? 13) || (c =? 9) || (c =? 0) then Some (TDone p cur)
    else if c =? 34 then Some (TGo Inq p cur)
    else if c =? 39 then Some (TGo Insq p cur)
    else cur ← sdscatlen cur [c]; Some (TGo Unquoted p cur)
  end.

(** [if ( *p) p++] *)
Definition advance (p : bytes) : option bytes := c ← p !! 0%nat; Some (if c =? 0 then p else drop 1 p).

(** [while(!done)]: the pointer after the token and the token, or the token to
    be released on [goto err]. *)
Fixpoint token_loop (fuel : nat) (q : quote) (p : bytes) (cur : sds) : option (sum sds (bytes * sds)) :=
  match fuel with
  | O => None
  | S fuel =>
    st ← token_iter q p cur;
    match st with
    | TErr => Some (inl cur)
    | TDone p cur => p ← advance p; Some (inr (p, cur))
    | TGo q p cur => p ← advance p; token_loop fuel q p cur
    end
  end.

(** [while( *p && isspace( *p)) p++] *)
Fixpoint skip_blanks (p : bytes) : option bytes :=
  match p with
  | [] => None
  | c :: p' => if negb (c =? 0) && isspace c then skip_blanks p' else Some p
  end.

(** [while(1)]; [*argc], an [int], is the number of tokens, and nothing is defined
    when it overflows. [Some None] is the result NULL, after the tokens are freed. *)
Fixpoint splitargs_loop (fuel : nat) (p : bytes) (vector : list sds) : option (option (list sds)) :=
  match fuel with
  | O => None
  | S fuel =>
    p ← skip_blanks p;
    c ← p !! 0%nat;
    if negb (c =? 0) then
      current ← sdsempty;
      r ← token_loop (S (length p)) Unquoted p current;
      match r with
      | inr (p, current) => if zlen vector <? INT32_MAX then splitargs_loop fuel p (vector ++ [current]) else None
      | inl current => _ ← sdsfreesplitres vector; _ ← sdsfree current; Some None
      end
    else Some (Some vector)
  end.

(** [line] is the bytes before the NUL. *)
Definition sdssplitargs (line : bytes) : option (option (list sds)) :=
  splitargs_loop (S (length line)) (line ++ [0]) [].

(** ** Templates *)

(** The offset of [c] before the NUL. *)
Fixpoint strchr (p : bytes) (c : Z) : option (option Z) :=
  match p with
  | [] => None
  | x :: p => if x =? c then Some (Some 0) else if x =? 0 then Some None
              else r ← strchr p c; Some (option_map (Z.add 1) r)
  end.

(** [sdscat(res, p)] for a pointer [p] to a NUL-terminated string. *)
Definition cat_cstr (res : sds) (p : bytes) : option sds := n ← strlen p; t ← bslice p 0 n; sdscat res t.

Fixpoint template_loop (fuel : nat) (cb_func : sds -> option sds) (res : sds) (p : bytes) : option (option sds) :=
  match fuel with
  | O => None
  | S fuel =>
    c ← p !! 0%nat;
    if c =? 0 then Some (Some res)
    else
      sv ← strchr p 123;
      match sv with
      | None => res ← cat_cstr res p; Some (Some res)
      | Some n =>
        res ← (if n >? 0 then t ← bslice p 0 n; sdscatlen res t else Some res);
        let sv := drop (Z.to_nat (n + 1)) p in
        c ← sv !! 0%nat;
        if c =? 0 then _ ← sdsfree res; Some None
        else if c =? 123 then res ← sdscat res [123]; template_loop fuel cb_func res (drop 1 sv)
        else
          ev ← strchr sv 125;
          match ev with
          | None => _ ← sdsfree res; Some None
          | Some k =>
            t ← bslice sv 0 k;
            varname ← sdsnewlen (Init t) k;
            match cb_func varname with
            | None => _ ← sdsfree varname; _ ← sdsfree res; Some None
            | Some value =>
              _ ← sdsfree varname;
              res ← cat_cstr res (sbuf value);
              _ ← sdsfree value;
              template_loop fuel cb_func res (drop (Z.to_nat (k + 1)) sv)
            end
          end
      end
  end.

Definition sdstemplate (template : bytes) (cb_func : sds -> option sds) : option (option sds) :=
  res ← sdsempty;
  template_loop (S (length template)) cb_func res (template ++ [0]).
End sds.
