(* ===== verification/SdsSpec.v ===== *)
(** Correctness of the sds strings of [Sds.v].

    [raw s t len A body] says that the block of [s] is a header of type [t] with
    the given fields, then [body]; [sds_rep s c] that [s] is a valid string of
    contents [c]. The file proves what each header operation does on [raw], that
    growing a string keeps its contents, and what creation and append do; the
    other operations are in [SdsOps.v]. *)
From S2P Require Import Prelude Endian Util Sds.

(** The five types. *)
Ltac types t := assert (t = 0 \/ t = 1 \/ t = 2 \/ t = 3 \/ t = 4) as [-> | [-> | [-> | [-> | ->]]]] by lia.

Section spec.
Context `{HH : Host, AA : SdsAlloc}.

(** ** Header layout *)

(** The size of the header fields of a type. *)
Definition fw (t : Z) : nat := switch_type t 0%nat (fun n => n) 0%nat.

Definition header (t len A : Z) : bytes :=
  if t =? 0 then [len * 8] else host_bytes (fw t) len ++ host_bytes (fw t) A ++ [t].

(** The layout only: nothing relates the fields to each other. *)
Record hdr (s : sds) (t len A : Z) (body : bytes) : Prop := {
  h_type : 0 <= t <= 4;
  h_off : soff s = sdsHdrSize t;
  h_blk : sblk s = header t len A ++ body;
  h_len : 0 <= len <= sdsTypeMaxSize t;
  h_A : 0 <= A <= sdsTypeMaxSize t;
  h_body : Forall byte_ok body
}.

(** A string with room for [A] bytes ([A] is not stored for type 5). *)
Record raw (s : sds) (t len A : Z) (body : bytes) : Prop := {
  r_hdr : hdr s t len A body;
  r_len : len <= A;
  r_room : A + 1 <= zlen body
}.

Definition sds_rep (s : sds) (c : bytes) : Prop := exists t A rest, raw s t (zlen c) A (c ++ 0 :: rest).

Lemma switch_fw {A} t (a : A) f d : 0 <= t <= 4 -> switch_type t a f d = if t =? 0 then a else f (fw t).
Proof. intros Ht. types t; done. Qed.

Lemma hdrsize_fw t : 0 <= t <= 4 -> sdsHdrSize t = if t =? 0 then 1 else sizeof_sdshdr (fw t).
Proof. intros Ht. types t; done. Qed.

Lemma typemax_fw t : 0 <= t <= 4 -> sdsTypeMaxSize t + 1 = if t =? 0 then 32 else 2 ^ (8 * Z.of_nat (fw t)).
Proof. intros Ht. types t; done. Qed.

Lemma fw_pos t : 0 <= t <= 4 -> t <> 0 -> (1 <= fw t)%nat.
Proof. intros Ht Hn. types t; cbn; lia. Qed.

Lemma fw_le t : 0 <= t <= 4 -> (fw t <= 8)%nat.
Proof. intros Ht. types t; cbn; lia. Qed.

Lemma length_header t len A : 0 <= t <= 4 -> zlen (header t len A) = sdsHdrSize t.
Proof.
  intros Ht. rewrite hdrsize_fw by done. unfold header, sizeof_sdshdr. destruct (Z.eqb_spec t 0); [done|].
  rewrite !length_app, !length_host_bytes. cbn [length]. lia.
Qed.

Lemma host_bytes_val bs : Forall byte_ok bs -> host_bytes (length bs) (host_val bs) = bs.
Proof.
  intros Hb. unfold host_bytes, host_val, be_bytes, be_val. destruct big_endian; [|by apply le_bytes_val].
  rewrite <- (length_reverse bs), le_bytes_val by (by apply Forall_reverse). apply reverse_involutive.
Qed.

Lemma host_val_range bs : Forall byte_ok bs -> 0 <= host_val bs < 2 ^ (8 * zlen bs).
Proof.
  intros Hb. unfold host_val, be_val. destruct big_endian; [|by apply le_val_range].
  rewrite <- (length_reverse bs). apply le_val_range. by apply Forall_reverse.
Qed.

(** ** Accesses, on a block of three fields *)

Lemma fields_len n lb ab f body : length lb = n ->
  hdr_len n (mkSds (lb ++ ab ++ f :: body) (sizeof_sdshdr n)) = Some (host_val lb).
Proof.
  intros Hl. unfold hdr_len, load. cbn [sblk soff]. rewrite Z.sub_diag.
  by rewrite bslice_head by lia.
Qed.

Lemma fields_alloc n lb ab f body : length lb = n -> length ab = n ->
  hdr_alloc n (mkSds (lb ++ ab ++ f :: body) (sizeof_sdshdr n)) = Some (host_val ab).
Proof.
  intros Hl Ha. unfold hdr_alloc, load. cbn [sblk soff]. rewrite Z.sub_diag.
  by rewrite (bslice_app_at lb ab) by (cbn; lia).
Qed.

Lemma fields_set_len n lb ab f body v : length lb = n ->
  set_hdr_len n (mkSds (lb ++ ab ++ f :: body) (sizeof_sdshdr n)) v
    = Some (mkSds (host_bytes n v ++ ab ++ f :: body) (sizeof_sdshdr n)).
Proof.
  intros Hl. unfold set_hdr_len, store. cbn [sblk soff]. rewrite Z.sub_diag.
  by rewrite bwrite_head by (by rewrite length_host_bytes).
Qed.

Lemma fields_set_alloc n lb ab f body v : length lb = n -> length ab = n ->
  set_hdr_alloc n (mkSds (lb ++ ab ++ f :: body) (sizeof_sdshdr n)) v
    = Some (mkSds (lb ++ host_bytes n v ++ f :: body) (sizeof_sdshdr n)).
Proof.
  intros Hl Ha. unfold set_hdr_alloc, store. cbn [sblk soff]. rewrite Z.sub_diag.
  rewrite (bwrite_app lb ab) by (rewrite ?length_host_bytes; cbn; lia). done.
Qed.

Lemma fields_set_flag (h : bytes) f body v off : off = zlen h + 1 ->
  sput (mkSds (h ++ f :: body) off) (-1) v = Some (mkSds (h ++ v :: body) off).
Proof.
  intros ->. unfold sput, swrite. cbn [sblk soff].
  by rewrite (bwrite_app h [f] body [v]) by (cbn; lia).
Qed.

Lemma hdr_split s t len A body : hdr s t len A body -> t <> 0 ->
  s = mkSds (host_bytes (fw t) len ++ host_bytes (fw t) A ++ t :: body) (sizeof_sdshdr (fw t)).
Proof.
  intros [Ht Ho Hb _ _ _] Hn. destruct s as [b o]. cbn in *. subst. rewrite hdrsize_fw by done.
  unfold header. destruct (Z.eqb_spec t 0); [done|]. by rewrite <- !app_assoc.
Qed.

Lemma hdr_split5 s len A body : hdr s 0 len A body -> s = mkSds (len * 8 :: body) 1.
Proof. intros [Ht Ho Hb _ _ _]. destruct s as [b o]. cbn in *. by subst. Qed.

Lemma host_val_small n v : 0 <= v < 2 ^ (8 * Z.of_nat n) -> host_val (host_bytes n v) = v.
Proof. intros Hv. rewrite host_val_bytes. by apply Z.mod_small. Qed.

(** The flags byte. *)
Lemma hdr_flags s t len A body : hdr s t len A body ->
  exists fl, sget s (-1) = Some fl /\ Z.land fl SDS_TYPE_MASK = t /\ (t = 0 -> SDS_TYPE_5_LEN fl = len).
Proof.
  intros Hh. pose proof (h_type _ _ _ _ _ Hh) as Ht. destruct (Z.eq_dec t 0) as [->|Hn].
  - rewrite (hdr_split5 _ _ _ _ Hh). exists (len * 8). split; [done|]. unfold SDS_TYPE_MASK, SDS_TYPE_5_LEN, SDS_TYPE_BITS.
    change 7 with (Z.ones 3). rewrite Z.land_ones, Z.shiftr_div_pow2 by lia.
    change (2 ^ 3) with 8. split; [by apply Z.mod_mul|intros _; by apply Z.div_mul].
  - rewrite (hdr_split _ _ _ _ _ Hh Hn). exists t. split; [|split; [by types t|done]].
    unfold sget. cbn [sblk soff]. rewrite app_assoc. apply bget_app. rewrite length_app, !length_host_bytes.
    unfold sizeof_sdshdr. lia.
Qed.

Lemma hdr_sdslen s t len A body : hdr s t len A body -> sdslen s = Some len.
Proof.
  intros Hh. pose proof (h_type _ _ _ _ _ Hh) as Ht. pose proof (typemax_fw t Ht) as Hm. pose proof (h_len _ _ _ _ _ Hh) as Hl.
  unfold sdslen. destruct (hdr_flags _ _ _ _ _ Hh) as (fl & E & El & E5). rewrite E. cbn [mbind option_bind]. rewrite El, switch_fw by done.
  destruct (Z.eqb_spec t 0) as [->|Hn]; [by rewrite E5|].
  rewrite (hdr_split _ _ _ _ _ Hh Hn), fields_len by apply length_host_bytes. by rewrite host_val_small by lia.
Qed.

Lemma hdr_alloc_field s t len A body : hdr s t len A body -> t <> 0 -> hdr_alloc (fw t) s = Some A.
Proof.
  intros Hh Hn. pose proof (h_type _ _ _ _ _ Hh) as Ht. pose proof (typemax_fw t Ht) as Hm. pose proof (h_A _ _ _ _ _ Hh) as Hl.
  rewrite (hdr_split _ _ _ _ _ Hh Hn), fields_alloc by apply length_host_bytes. destruct (Z.eqb_spec t 0); [done|].
  by rewrite host_val_small by lia.
Qed.

Lemma hdr_len_field s t len A body : hdr s t len A body -> t <> 0 -> hdr_len (fw t) s = Some len.
Proof.
  intros Hh Hn. pose proof (h_type _ _ _ _ _ Hh) as Ht. pose proof (typemax_fw t Ht) as Hm. pose proof (h_len _ _ _ _ _ Hh) as Hl.
  rewrite (hdr_split _ _ _ _ _ Hh Hn), fields_len by apply length_host_bytes. destruct (Z.eqb_spec t 0); [done|].
  by rewrite host_val_small by lia.
Qed.

Lemma raw_avail s t len A body : raw s t len A body -> sdsavail s = Some (if t =? 0 then 0 else A - len).
Proof.
  intros [Hh Hl Hr]. pose proof (h_type _ _ _ _ _ Hh) as Ht. pose proof (typemax_fw t Ht) as Hm.
  destruct (h_len _ _ _ _ _ Hh) as [Hlen _]. pose proof (h_A _ _ _ _ _ Hh) as HA.
  unfold sdsavail. destruct (hdr_flags _ _ _ _ _ Hh) as (fl & E & El & _). rewrite E. cbn [mbind option_bind].
  rewrite El, switch_fw by done. destruct (Z.eqb_spec t 0) as [->|Hn]; [done|].
  rewrite (hdr_alloc_field _ _ _ _ _ Hh Hn), (hdr_len_field _ _ _ _ _ Hh Hn). cbn [mbind option_bind]. f_equal.
  assert (HA' : A < 2 ^ (8 * Z.of_nat (fw t))) by lia. clear Hh Hm HA.
  destruct (Nat.eqb_spec (fw t) 4) as [E4|_]; apply uwrap_small; unfold in_u; [rewrite E4 in HA'; lia|].
  pose proof (Z.pow_le_mono_r 2 (8 * Z.of_nat (fw t)) 64 ltac:(lia) ltac:(pose proof (fw_le t Ht); lia)). lia.
Qed.

Lemma raw_alloc s t len A body : raw s t len A body -> sdsalloc s = Some (if t =? 0 then len else A).
Proof.
  intros [Hh Hl Hr]. pose proof (h_type _ _ _ _ _ Hh) as Ht.
  unfold sdsalloc. destruct (hdr_flags _ _ _ _ _ Hh) as (fl & E & El & E5). rewrite E. cbn [mbind option_bind].
  rewrite El, switch_fw by done. destruct (Z.eqb_spec t 0) as [->|Hn]; [by rewrite E5|].
  by rewrite (hdr_alloc_field _ _ _ _ _ Hh Hn).
Qed.

(** ** Assignments *)

Lemma flag5 n : 0 <= n <= 31 -> uwrap 8 (Z.lor SDS_TYPE_5 (Z.shiftl n SDS_TYPE_BITS)) = n * 8.
Proof.
  intros Hn. unfold SDS_TYPE_5, SDS_TYPE_BITS. rewrite Z.lor_0_l, Z.shiftl_mul_pow2 by lia.
  apply uwrap_small. unfold in_u. lia.
Qed.

Lemma hdr_intro t len A body n : 1 <= t <= 4 -> n = fw t -> 0 <= len <= sdsTypeMaxSize t -> 0 <= A <= sdsTypeMaxSize t ->
  Forall byte_ok body -> hdr (mkSds (host_bytes n len ++ host_bytes n A ++ t :: body) (sizeof_sdshdr n)) t len A body.
Proof.
  intros Ht -> Hl HA Hb. split; cbn [sblk soff]; try done; try lia.
  - rewrite hdrsize_fw by lia. by destruct (Z.eqb_spec t 0); [lia|].
  - unfold header. destruct (Z.eqb_spec t 0); [lia|]. by rewrite <- !app_assoc.
Qed.

Lemma hdr_intro5 len A body : 0 <= len <= 31 -> 0 <= A <= 31 -> Forall byte_ok body -> hdr (mkSds (len * 8 :: body) 1) 0 len A body.
Proof. intros. by split. Qed.

Lemma hdr_setlen s t len A body n : hdr s t len A body -> 0 <= n <= sdsTypeMaxSize t ->
  exists s', sdssetlen s n = Some s' /\ hdr s' t n A body.
Proof.
  intros Hh Hn. pose proof (h_type _ _ _ _ _ Hh) as Ht. pose proof (h_A _ _ _ _ _ Hh) as HA. pose proof (h_body _ _ _ _ _ Hh) as Hb.
  unfold sdssetlen. destruct (hdr_flags _ _ _ _ _ Hh) as (fl & E & El & _). rewrite E. cbn [mbind option_bind].
  rewrite El, switch_fw by done. destruct (Z.eqb_spec t 0) as [->|Ht0].
  - rewrite (hdr_split5 _ _ _ _ Hh). change (sdsTypeMaxSize 0) with 31 in *. rewrite flag5 by done.
    exists (mkSds (n * 8 :: body) 1). split; [by apply (fields_set_flag [])|]. by apply hdr_intro5.
  - rewrite (hdr_split _ _ _ _ _ Hh Ht0), fields_set_len by apply length_host_bytes.
    eexists. split; [done|]. apply hdr_intro; try done. lia.
Qed.

Lemma hdr_setalloc s t len A body n : hdr s t len A body -> 0 <= n <= sdsTypeMaxSize t ->
  exists s', sdssetalloc s n = Some s' /\ hdr s' t len (if t =? 0 then A else n) body.
Proof.
  intros Hh Hn. pose proof (h_type _ _ _ _ _ Hh) as Ht. pose proof (h_len _ _ _ _ _ Hh) as HA. pose proof (h_body _ _ _ _ _ Hh) as Hb.
  unfold sdssetalloc. destruct (hdr_flags _ _ _ _ _ Hh) as (fl & E & El & _). rewrite E. cbn [mbind option_bind].
  rewrite El, switch_fw by done. destruct (Z.eqb_spec t 0) as [->|Ht0]; [by exists s|].
  rewrite (hdr_split _ _ _ _ _ Hh Ht0), fields_set_alloc by apply length_host_bytes.
  eexists. split; [done|]. apply hdr_intro; try done. lia.
Qed.

(** Writing the type in a block whose header is not initialised. *)
Lemma hdr_format t (h body : bytes) : 0 <= t <= 4 -> zlen h = sdsHdrSize t -> Forall byte_ok h -> Forall byte_ok body ->
  exists s l A, sput (mkSds (h ++ body) (sdsHdrSize t)) (-1) t = Some s /\ hdr s t l A body.
Proof.
  intros Ht Hl Hh Hb. rewrite hdrsize_fw in * by lia. destruct (Z.eqb_spec t 0) as [->|Ht0].
  { destruct h as [|f [|]]; cbn [length] in Hl; try lia. eexists _, 0, 0. split; [by apply (fields_set_flag [])|].
    apply (hdr_intro5 0 0 body); [lia..|done]. }
  unfold sizeof_sdshdr in Hl.
  destruct (split_at h (fw t)) as (lb & h' & -> & Hlb); [lia|]. rewrite length_app in Hl.
  destruct (split_at h' (fw t)) as (ab & fb & -> & Hab); [lia|]. rewrite length_app in Hl.
  destruct fb as [|f [|]]; cbn [length] in Hl; try lia.
  apply Forall_app in Hh as [Blb Hh]. apply Forall_app in Hh as [Bab Bf].
  rewrite <- !app_assoc. cbn [app]. rewrite app_assoc.
  rewrite fields_set_flag by (rewrite length_app; unfold sizeof_sdshdr; lia). rewrite <- app_assoc.
  rewrite <- (host_bytes_val lb Blb), <- (host_bytes_val ab Bab), Hlb, Hab.
  pose proof (typemax_fw t ltac:(lia)) as Hm. destruct (Z.eqb_spec t 0); [done|].
  pose proof (host_val_range lb Blb). pose proof (host_val_range ab Bab). rewrite Hlb, Hab in *.
  eexists _, _, _. split; [done|]. apply hdr_intro; try done; lia.
Qed.

Lemma raw_setlen s t len A body n : raw s t len A body -> 0 <= n <= A ->
  exists s', sdssetlen s n = Some s' /\ raw s' t n A body.
Proof.
  intros [Hh Hl Hr] Hn. pose proof (h_A _ _ _ _ _ Hh).
  destruct (hdr_setlen _ _ _ _ _ n Hh) as (s' & E & Hh'); [lia|]. exists s'. split; [done|]. split; [done|lia..].
Qed.

(** ** The bytes of the string *)

Lemma hdr_buf s t len A body : hdr s t len A body -> sbuf s = body.
Proof.
  intros [Ht Ho Hb _ _ _]. unfold sbuf. rewrite Hb, Ho. pose proof (length_header t len A Ht).
  apply drop_app_length'. lia.
Qed.

Lemma bget_app_r (pre b : bytes) off i : off = zlen pre -> 0 <= i -> (pre ++ b).[off + i] = b.[i].
Proof.
  intros -> Hi. unfold bget. rewrite !(proj2 (Z.leb_le _ _)) by lia.
  rewrite lookup_app_r by lia. f_equal. lia.
Qed.

Lemma bslice_app_r (pre b : bytes) off i n : off = zlen pre -> 0 <= i -> bslice (pre ++ b) (off + i) n = bslice b i n.
Proof.
  intros -> Hi. unfold bslice. rewrite length_app.
  replace (_ && _ && _) with ((0 <=? i) && (0 <=? n) && (i + n <=? zlen b)) by lia.
  destruct (_ && _ && _); [|done]. do 2 f_equal. rewrite drop_app_ge by lia. f_equal. lia.
Qed.

Lemma bwrite_app_r (pre b : bytes) off i src : off = zlen pre -> 0 <= i ->
  bwrite (pre ++ b) (off + i) src = (b' ← bwrite b i src; Some (pre ++ b')).
Proof.
  intros -> Hi. unfold bwrite. rewrite length_app.
  replace (_ && _) with ((0 <=? i) && (i + zlen src <=? zlen b)) by lia.
  destruct (_ && _); [|done]. cbn [mbind option_bind]. f_equal.
  rewrite take_app_ge, drop_app_ge by lia. rewrite <- app_assoc.
  replace (Z.to_nat (zlen pre + i) - length pre)%nat with (Z.to_nat i) by lia.
  by replace (Z.to_nat (zlen pre + i + zlen src) - length pre)%nat with (Z.to_nat (i + zlen src)) by lia.
Qed.

Lemma hdr_get s t len A body i : hdr s t len A body -> 0 <= i -> sget s i = body.[i].
Proof.
  intros [Ht Ho Hb _ _ _] Hi. unfold sget. rewrite Hb, Ho. apply bget_app_r; [by rewrite length_header by done|done].
Qed.

Lemma hdr_write s t len A body i src body' : hdr s t len A body -> 0 <= i -> Forall byte_ok src ->
  bwrite body i src = Some body' -> exists s', swrite s i src = Some s' /\ hdr s' t len A body'.
Proof.
  intros [Ht Ho Hb Hl HA Hbo] Hi Hs E. unfold swrite. rewrite Hb, Ho, (bwrite_app_r _ _ _ _ _ (eq_sym (length_header t len A Ht)) Hi), E.
  cbn [mbind option_bind]. eexists. split; [done|]. split; cbn [sblk soff]; try done. exact (bwrite_ok _ _ _ _ Hbo Hs E).
Qed.

Lemma raw_write s t len A body i src body' : raw s t len A body -> 0 <= i -> Forall byte_ok src ->
  bwrite body i src = Some body' -> exists s', swrite s i src = Some s' /\ raw s' t len A body'.
Proof.
  intros [Hh Hl Hr] Hi Hs E. destruct (hdr_write _ _ _ _ _ _ _ _ Hh Hi Hs E) as (s' & Es & Hh').
  exists s'. split; [done|]. split; [done..|]. by rewrite (zlen_bwrite _ _ _ _ E).
Qed.

Lemma raw_put s t len A pre x post i c : raw s t len A (pre ++ x :: post) -> i = zlen pre -> byte_ok c ->
  exists s', sput s i c = Some s' /\ raw s' t len A (pre ++ c :: post).
Proof.
  intros Hr -> Hc. apply (raw_write _ _ _ _ _ _ [c] (pre ++ c :: post) Hr); [lia|by constructor; [|constructor]|].
  by apply (bwrite_app pre [x] post [c]).
Qed.

(** ** Allocation *)

Lemma reqtype_ok n : 0 <= n < 2 ^ 64 -> 0 <= sdsReqType n <= 4 /\ n <= sdsTypeMaxSize (sdsReqType n).
Proof.
  intros Hn. unfold sdsReqType, SDS_TYPE_5, SDS_TYPE_8, SDS_TYPE_16, SDS_TYPE_32, SDS_TYPE_64.
  change (Z.shiftl 1 5) with 32. change (Z.shiftl 1 8) with 256. change (Z.shiftl 1 16) with 65536. change (Z.shiftl 1 32) with 4294967296.
  destruct (Z.ltb_spec n 32); [|destruct (Z.ltb_spec n 256); [|destruct (Z.ltb_spec n 65536); [|destruct (Z.ltb_spec n 4294967296)]]];
    (split; [lia|]).
  - change (sdsTypeMaxSize 0) with 31. lia.
  - change (sdsTypeMaxSize 1) with 255. lia.
  - change (sdsTypeMaxSize 2) with 65535. lia.
  - change (sdsTypeMaxSize 3) with 4294967295. lia.
  - change (sdsTypeMaxSize 4) with (2 ^ 64 - 1). lia.
Qed.

Lemma hdrsize_range t : 0 <= t <= 4 -> 1 <= sdsHdrSize t <= 17.
Proof. intros Ht. types t; split; vm_compute; discriminate. Qed.

Lemma zmalloc_length n : 0 <= n -> zlen (zmalloc n) = n.
Proof. apply zlen_zrealloc. Qed.

Lemma zmalloc_bytes n : Forall byte_ok (zmalloc n).
Proof. apply zrealloc_ok. constructor. Qed.

(** Initialising the header of a fresh block. *)
Lemma new_header t (h body : bytes) n A : 0 <= t <= 4 -> zlen h = sdsHdrSize t -> Forall byte_ok body ->
  0 <= n <= sdsTypeMaxSize t -> n <= A <= sdsTypeMaxSize t ->
  exists s, switch_type t
      (sput (mkSds (h ++ body) (sdsHdrSize t)) (-1) (uwrap 8 (Z.lor t (Z.shiftl n SDS_TYPE_BITS))))
      (fun k => s ← set_hdr_len k (mkSds (h ++ body) (sdsHdrSize t)) n; s ← set_hdr_alloc k s A; sput s (-1) t)
      (Some (mkSds (h ++ body) (sdsHdrSize t))) = Some s
    /\ hdr s t n A body.
Proof.
  intros Ht Hl Hb Hn HA. rewrite switch_fw by done. rewrite hdrsize_fw in * by done. destruct (Z.eqb_spec t 0) as [->|Ht0].
  - destruct h as [|f [|]]; cbn [length] in Hl; try lia. change (sdsTypeMaxSize 0) with 31 in *.
    change (Z.lor 0 _) with (Z.lor SDS_TYPE_5 (Z.shiftl n SDS_TYPE_BITS)). rewrite (flag5 n) by done. exists (mkSds (n * 8 :: body) 1). split; [by apply (fields_set_flag [])|]. apply hdr_intro5; lia || done.
  - unfold sizeof_sdshdr in Hl.
    destruct (split_at h (fw t)) as (lb & h' & -> & Hlb); [lia|]. rewrite length_app in Hl.
    destruct (split_at h' (fw t)) as (ab & fb & -> & Hab); [lia|]. rewrite length_app in Hl.
    destruct fb as [|f [|]]; cbn [length] in Hl; try lia.
    rewrite <- !app_assoc. cbn [app]. rewrite fields_set_len by done. cbn [mbind option_bind].
    rewrite fields_set_alloc by (rewrite ?length_host_bytes; done). cbn [mbind option_bind]. rewrite app_assoc.
    rewrite fields_set_flag by (rewrite length_app, !length_host_bytes; unfold sizeof_sdshdr; lia). rewrite <- app_assoc.
    eexists. split; [done|]. apply hdr_intro; lia || done.
Qed.

(** The capacity recorded in the header. *)
Lemma usable_cap t n : 0 <= t <= 4 -> 0 <= n <= sdsTypeMaxSize t ->
  let u := usable_size (sdsHdrSize t + n + 1) in
  let A := if u - sdsHdrSize t - 1 >? sdsTypeMaxSize t then sdsTypeMaxSize t else u - sdsHdrSize t - 1 in
  n <= A <= sdsTypeMaxSize t /\ A + 1 + sdsHdrSize t <= u.
Proof.
  intros Ht Hn u A. pose proof (usable_ge (sdsHdrSize t + n + 1)) as Hu. fold u in Hu.
  subst A. destruct (Z.gtb_spec (u - sdsHdrSize t - 1) (sdsTypeMaxSize t)); lia.
Qed.

(** What the new string holds. *)
Definition init_contents (init : init_arg) (n : Z) (c : bytes) : Prop :=
  match init with
  | Init b => c = take (Z.to_nat n) b
  | InitNull => c = replicate (Z.to_nat n) 0
  | SDS_NOINIT => zlen c = n
  end.

(** Whether [init] has [n] bytes. *)
Definition init_ok (init : init_arg) (n : Z) : Prop :=
  match init with Init b => n <= zlen b /\ Forall byte_ok b | _ => True end.

Lemma fresh_block t n (init : init_arg) : 0 <= t <= 4 -> 0 <= n ->
  exists h body, match init with
    | InitNull => bwrite (zmalloc (usable_size (sdsHdrSize t + n + 1))) 0 (replicate (Z.to_nat (sdsHdrSize t + n + 1)) 0)
    | _ => Some (zmalloc (usable_size (sdsHdrSize t + n + 1)))
    end = Some (h ++ body)
    /\ zlen h = sdsHdrSize t /\ zlen h + zlen body = usable_size (sdsHdrSize t + n + 1) /\ Forall byte_ok body
    /\ (init = InitNull -> take (Z.to_nat n) body = replicate (Z.to_nat n) 0).
Proof.
  intros Ht Hn. pose proof (hdrsize_range t Ht) as Hh. set (k := sdsHdrSize t + n + 1). set (u := usable_size k).
  assert (Hu : k <= u) by apply usable_ge.
  assert (Hz : zlen (zmalloc u) = u) by (apply zmalloc_length; lia).
  assert (Hgen : forall b, zlen b = u -> Forall byte_ok b -> exists h body, Some b = Some (h ++ body)
     /\ zlen h = sdsHdrSize t /\ zlen h + zlen body = u /\ Forall byte_ok body /\ h = take (Z.to_nat (sdsHdrSize t)) b /\ body = drop (Z.to_nat (sdsHdrSize t)) b).
  { intros b Hb Bb. exists (take (Z.to_nat (sdsHdrSize t)) b), (drop (Z.to_nat (sdsHdrSize t)) b).
    rewrite take_drop, length_take, length_drop. split_and!; try done; try lia. by apply Forall_drop. }
  destruct init.
  1,3: destruct (Hgen (zmalloc u) Hz (zmalloc_bytes u)) as (h & body & E & ? & ? & ? & _); exists h, body; done.
  destruct (split_at (zmalloc u) (Z.to_nat k)) as (b1 & b2 & Eb & Hb1); [lia|]. rewrite Eb.
  rewrite bwrite_head by (by rewrite length_replicate).
  pose proof (zmalloc_bytes u) as Bu. rewrite Eb in Bu, Hz. apply Forall_app in Bu as [_ B2].
  destruct (Hgen (replicate (Z.to_nat k) 0 ++ b2)) as (h & body & E & ? & ? & ? & _ & Ebody).
  { rewrite length_app in *. rewrite length_replicate. lia. }
  { apply Forall_app. split; [|done]. apply Forall_replicate. unfold byte_ok. lia. }
  exists h, body. split_and!; try done. intros _. rewrite Ebody.
  rewrite drop_app_le by (rewrite length_replicate; lia). rewrite drop_replicate.
  rewrite take_app_le by (rewrite length_replicate; lia). rewrite take_replicate. f_equal. lia.
Qed.

Lemma split_body (body : bytes) n : 0 <= n < zlen body -> exists c x rest, body = c ++ x :: rest /\ zlen c = n.
Proof.
  intros Hn. destruct (lookup_lt_is_Some_2 body (Z.to_nat n)) as [x Hx]; [lia|].
  exists (take (Z.to_nat n) body), x, (drop (S (Z.to_nat n)) body).
  rewrite take_drop_middle by done. rewrite length_take. split; [done|lia].
Qed.

(** Storing the NUL ends the construction of a string. *)
Lemma raw_terminate s t n A c x rest : raw s t n A (c ++ x :: rest) -> n = zlen c ->
  exists s', sput s n 0 = Some s' /\ sds_rep s' c.
Proof.
  intros Hr ->. destruct (raw_put s t (zlen c) A c x rest (zlen c) 0 Hr eq_refl) as (s' & E & Hr'); [unfold byte_ok; lia|].
  exists s'. split; [done|]. by exists t, A, rest.
Qed.

Lemma sdsnewlen_ok init n : 0 <= n < 2 ^ 62 -> init_ok init n ->
  exists s c, sdsnewlen init n = Some s /\ sds_rep s c /\ init_contents init n c /\ zlen c = n.
Proof.
  intros Hn Hi. unfold sdsnewlen, _sdsnewlen. destruct (reqtype_ok n ltac:(lia)) as [Ht Hm].
  set (t := if (sdsReqType n =? SDS_TYPE_5) && (n =? 0) then SDS_TYPE_8 else sdsReqType n).
  assert (Ht' : 0 <= t <= 4 /\ 0 <= n <= sdsTypeMaxSize t).
  { unfold t. destruct (_ && _) eqn:E; [|lia]. unfold SDS_TYPE_8. change (sdsTypeMaxSize 1) with 255. lia. }
  clearbody t. clear Ht Hm. destruct Ht' as [Ht Hm]. pose proof (hdrsize_range t Ht) as Hh.
  rewrite uwrap_small by (unfold in_u; lia). replace (negb _) with false by lia.
  destruct (fresh_block t n init Ht ltac:(lia)) as (h & body & -> & Hl & Hu & Bb & Hnull). cbn [mbind option_bind].
  destruct (usable_cap t n Ht Hm) as [HA Hroom]. set (A := if _ >? _ then _ else _) in *.
  destruct (new_header t h body n A Ht Hl Bb Hm HA) as (s1 & -> & Hh1). cbn [mbind option_bind].
  assert (Hr1 : raw s1 t n A body) by (split; [done|lia..]). clear Hh1.
  destruct (split_body body n) as (c0 & x & rest & -> & Hc0); [lia|].
  destruct init as [b| |]; cbn [init_ok init_contents] in *.
  - destruct Hi as [Hb Bi]. destruct (Z.eqb_spec n 0) as [->|Hn0]; cbn [negb mbind option_bind].
    + destruct c0; [|cbn in Hc0; lia]. destruct (raw_terminate _ _ _ _ [] x rest Hr1 eq_refl) as (s' & E & Hs').
      exists s', []. done.
    + destruct (split_at b (Z.to_nat n)) as (b1 & b2 & -> & Hb1); [lia|]. rewrite take_app_length' by lia.
      rewrite bslice_head by lia. cbn [mbind option_bind]. apply Forall_app in Bi as [Bi _].
      destruct (raw_write _ _ _ _ _ 0 b1 (b1 ++ x :: rest) Hr1) as (s2 & -> & Hr2); [lia|done|apply bwrite_head; lia|].
      cbn [mbind option_bind]. destruct (raw_terminate _ _ _ _ b1 x rest Hr2) as (s' & E & Hs'); [lia|].
      exists s', b1. split_and!; try done. lia.
  - cbn [mbind option_bind]. destruct (raw_terminate _ _ _ _ c0 x rest Hr1) as (s' & E & Hs'); [lia|].
    exists s', c0. specialize (Hnull eq_refl). rewrite take_app_length' in Hnull by lia. split_and!; done.
  - cbn [mbind option_bind]. destruct (raw_terminate _ _ _ _ c0 x rest Hr1) as (s' & E & Hs'); [lia|].
    exists s', c0. done.
Qed.

(** ** Making room *)

Lemma zrealloc_prefix (h b : bytes) n : zlen h <= n ->
  exists b', zrealloc (h ++ b) n = h ++ b' /\ zlen b' = n - zlen h
    /\ (forall k, (k <= length b)%nat -> zlen h + Z.of_nat k <= n -> take k b' = take k b)
    /\ (Forall byte_ok b -> Forall byte_ok b').
Proof.
  intros Hn. unfold zrealloc. rewrite take_app_ge by lia. rewrite <- app_assoc. eexists. split; [done|].
  rewrite length_app, length_take, length_fmap, length_seq, length_app. split; [lia|]. split.
  - intros k Hk Hk'. rewrite take_app_le by (rewrite length_take; lia). rewrite take_take. f_equal. lia.
  - intros Hb. apply Forall_app. split; [by apply Forall_take|]. apply Forall_fmap, Forall_true. intros. apply junk_ok.
Qed.

(** Moving the string and its NUL to a fresh block of another type. *)
Lemma move_block s t len A body t' u : hdr s t len A body -> 0 <= t' <= 4 -> len <= sdsTypeMaxSize t' ->
  len + 1 <= zlen body -> sdsHdrSize t' + len + 1 <= u ->
  exists s' A' body',
    (src ← bslice (sblk s) (soff s) (len + 1); newsh ← bwrite (zmalloc u) (sdsHdrSize t') src;
     s1 ← sput (mkSds newsh (sdsHdrSize t')) (-1) t'; sdssetlen s1 len) = Some s'
    /\ hdr s' t' len A' body' /\ zlen body' = u - sdsHdrSize t'
    /\ take (Z.to_nat (len + 1)) body' = take (Z.to_nat (len + 1)) body.
Proof.
  intros Hh Ht' Hm Hl Hu. pose proof (h_type _ _ _ _ _ Hh) as Ht. pose proof (h_len _ _ _ _ _ Hh) as Hlen.
  pose proof (h_body _ _ _ _ _ Hh) as Bb. pose proof (hdrsize_range t' ltac:(lia)) as Hs'.
  destruct (split_at body (Z.to_nat (len + 1))) as (b1 & b2 & -> & Hb1); [lia|]. apply Forall_app in Bb as [Bb1 Bb2].
  rewrite (h_blk _ _ _ _ _ Hh), (h_off _ _ _ _ _ Hh), bslice_app_at by (rewrite ?length_header by done; lia). cbn [mbind option_bind].
  pose proof (zmalloc_length u ltac:(lia)) as Hz. pose proof (zmalloc_bytes u) as Bz.
  destruct (split_at (zmalloc u) (Z.to_nat (sdsHdrSize t'))) as (h & r & Er & Hlh); [lia|]. rewrite Er in *.
  rewrite length_app in Hz. destruct (split_at r (Z.to_nat (len + 1))) as (r1 & r2 & -> & Hr1); [lia|].
  rewrite bwrite_app by lia. cbn [mbind option_bind]. rewrite length_app in Hz.
  apply Forall_app in Bz as [Bh Br]. apply Forall_app in Br as [_ Br2].
  destruct (hdr_format t' h (b1 ++ r2) Ht') as (s1 & l1 & A1 & -> & Hh1); [lia|done|by apply Forall_app|]. cbn [mbind option_bind].
  destruct (hdr_setlen _ _ _ _ _ len Hh1) as (s2 & -> & Hh2); [lia|]. exists s2, A1, (b1 ++ r2).
  rewrite length_app. split_and!; [done|done|lia|]. by rewrite !take_app_length' by lia.
Qed.

(** The type and the size [sdsMakeRoomFor] asks for. *)
Lemma grow_ok len add : 0 <= len -> 0 < add -> len + add < 2 ^ 62 ->
  let newlen := if len + add <? SDS_MAX_PREALLOC then uwrap 64 ((len + add) * 2) else uwrap 64 (len + add + SDS_MAX_PREALLOC) in
  let t := if sdsReqType newlen =? SDS_TYPE_5 then SDS_TYPE_8 else sdsReqType newlen in
  len + add <= newlen < 2 ^ 63 /\ 1 <= t <= 4 /\ newlen <= sdsTypeMaxSize t.
Proof.
  intros Hl Ha HB newlen t. assert (Hn : len + add <= newlen < 2 ^ 63).
  { unfold newlen, SDS_MAX_PREALLOC. destruct (Z.ltb_spec (len + add) (1024 * 1024)); rewrite uwrap_small by (unfold in_u; lia); lia. }
  destruct (reqtype_ok newlen ltac:(lia)) as [Ht Hm]. split; [done|]. unfold t.
  destruct (Z.eqb_spec (sdsReqType newlen) SDS_TYPE_5) as [E|E]; [|unfold SDS_TYPE_5 in E; lia].
  rewrite E in Hm. unfold SDS_TYPE_8. change (sdsTypeMaxSize SDS_TYPE_5) with 31 in Hm. change (sdsTypeMaxSize 1) with 255. lia.
Qed.

Lemma makeroom_ok s t len A body add : raw s t len A body -> 0 <= add -> len + add < 2 ^ 62 ->
  exists s' t' A' body', sdsMakeRoomFor s add = Some s' /\ raw s' t' len A' body' /\ len + add <= A'
    /\ take (Z.to_nat (len + 1)) body' = take (Z.to_nat (len + 1)) body /\ (add = 0 \/ t' <> 0).
Proof.
  intros Hr Ha HB. pose proof (r_hdr _ _ _ _ _ Hr) as Hh. pose proof (h_type _ _ _ _ _ Hh) as Ht.
  pose proof (h_len _ _ _ _ _ Hh) as Hlen. pose proof (r_len _ _ _ _ _ Hr) as HlA. pose proof (r_room _ _ _ _ _ Hr) as Hroom.
  unfold sdsMakeRoomFor. rewrite (raw_avail _ _ _ _ _ Hr). cbn [mbind option_bind].
  destruct (hdr_flags _ _ _ _ _ Hh) as (fl & -> & El & _). cbn [mbind option_bind]. rewrite El.
  destruct (Z.geb_spec (if t =? 0 then 0 else A - len) add) as [Hav|Hav].
  { exists s, t, A, body. destruct (Z.eqb_spec t 0); split_and!; try done; lia. }
  assert (Ha0 : 0 < add) by (destruct (Z.eqb_spec t 0); lia).
  rewrite (hdr_sdslen _ _ _ _ _ Hh). cbn [mbind option_bind]. rewrite (uwrap_small 64 (len + add)) by (unfold in_u; lia).
  replace (negb (_ >? len)) with false by lia.
  destruct (grow_ok len add) as (Hn & Ht' & Hm); [lia..|].
  set (newlen := if len + add <? _ then _ else _) in *. set (t' := if _ =? SDS_TYPE_5 then _ else _) in *. clearbody newlen t'.
  pose proof (hdrsize_range t' ltac:(lia)) as Hhs. rewrite uwrap_small by (unfold in_u; lia).
  replace (negb _) with false by lia.
  destruct (usable_cap t' newlen ltac:(lia) ltac:(lia)) as [HA Hu]. set (u := usable_size _) in *. set (A' := if _ >? sdsTypeMaxSize t' then _ else _) in *.
  assert (Hs1 : exists s1 A1 body', (if t =? t' then Some (mkSds (zrealloc (sblk s) u) (sdsHdrSize t'))
     else src ← bslice (sblk s) (soff s) (len + 1); newsh ← bwrite (zmalloc u) (sdsHdrSize t') src;
          s1 ← sput (mkSds newsh (sdsHdrSize t')) (-1) t'; sdssetlen s1 len) = Some s1
     /\ hdr s1 t' len A1 body' /\ zlen body' = u - sdsHdrSize t'
     /\ take (Z.to_nat (len + 1)) body' = take (Z.to_nat (len + 1)) body).
  { destruct (Z.eqb_spec t t') as [<-|Hne]; [|by eapply move_block; [exact Hh|lia..]].
    pose proof (length_header t len A Ht) as Hlh.
    destruct (zrealloc_prefix (header t len A) body u) as (b' & E & Hb' & Htk & Hbo); [lia|].
    rewrite (h_blk _ _ _ _ _ Hh), E. eexists _, A, b'. split; [done|]. split.
    - destruct Hh. split; try done. by apply Hbo.
    - split; [lia|]. apply Htk; lia. }
  destruct Hs1 as (s1 & A1 & body' & -> & Hh1 & Hb' & Htk). cbn [mbind option_bind].
  destruct (hdr_setalloc _ _ _ _ _ A' Hh1) as (s2 & -> & Hh2); [lia|].
  replace (t' =? 0) with false in Hh2 by lia. exists s2, t', A', body'. split; [done|].
  split; [split; [done|lia..]|]. split_and!; [lia|done|right; lia].
Qed.

(** The bytes before the free space are kept. *)
Lemma keep_prefix (c rest body' : bytes) x n : n = zlen c -> take (Z.to_nat (n + 1)) body' = take (Z.to_nat (n + 1)) (c ++ x :: rest) ->
  exists rest', body' = c ++ x :: rest'.
Proof.
  intros -> E. exists (drop (Z.to_nat (zlen c + 1)) body'). rewrite <- (take_drop (Z.to_nat (zlen c + 1)) body') at 1. rewrite E.
  replace (c ++ x :: rest) with ((c ++ [x]) ++ rest) by (by rewrite <- app_assoc).
  rewrite take_app_length' by (rewrite length_app; cbn; lia). by rewrite <- app_assoc.
Qed.

Lemma rep_makeroom s c add : sds_rep s c -> 0 <= add -> zlen c + add < 2 ^ 62 ->
  exists s' t A rest, sdsMakeRoomFor s add = Some s' /\ raw s' t (zlen c) A (c ++ 0 :: rest) /\ zlen c + add <= A
    /\ (add = 0 \/ t <> 0).
Proof.
  intros (t & A & rest & Hr) Ha HB. destruct (makeroom_ok _ _ _ _ _ add Hr Ha HB) as (s' & t' & A' & body' & E & Hr' & HA' & Htk & Ht').
  apply keep_prefix in Htk as [rest' ->]; [|done]. by exists s', t', A', rest'.
Qed.

Lemma rep_len s c : sds_rep s c -> sdslen s = Some (zlen c).
Proof. intros (t & A & rest & Hr). by eapply hdr_sdslen, r_hdr. Qed.

Lemma rep_bytes s c : sds_rep s c -> Forall byte_ok c.
Proof. intros (t & A & rest & Hr). pose proof (h_body _ _ _ _ _ (r_hdr _ _ _ _ _ Hr)) as Hb. by apply Forall_app in Hb as [? _]. Qed.

Lemma rep_buf s c : sds_rep s c -> exists rest, sbuf s = c ++ 0 :: rest.
Proof. intros (t & A & rest & Hr). exists rest. by eapply hdr_buf, r_hdr. Qed.

Lemma rep_slice s c : sds_rep s c -> bslice (sbuf s) 0 (zlen c) = Some c.
Proof. intros (rest & ->)%rep_buf. by apply bslice_head. Qed.

(** Replacing a part of the body that starts inside it. *)
Lemma body_write (c t : bytes) (x : Z) rest : zlen t <= zlen rest ->
  exists y rest', bwrite (c ++ x :: rest) (zlen c) t = Some (c ++ t ++ y :: rest').
Proof.
  intros Ht. destruct (split_at (x :: rest) (length t)) as (r1 & r2 & E & Hl); [cbn [length]; lia|]. rewrite E.
  rewrite bwrite_app by lia. destruct r2 as [|y r2]; [|eauto].
  exfalso. apply (f_equal length) in E. rewrite length_app in E. cbn [length] in E. lia.
Qed.

Lemma sdscatlen_ok s c t : sds_rep s c -> Forall byte_ok t -> zlen c + zlen t < 2 ^ 62 ->
  exists s', sdscatlen s t = Some s' /\ sds_rep s' (c ++ t).
Proof.
  intros Hs Bt HB. unfold sdscatlen. rewrite (rep_len _ _ Hs). cbn [mbind option_bind].
  destruct (rep_makeroom s c (zlen t) Hs ltac:(lia) HB) as (s1 & ty & A & rest & -> & Hr & HA & _). cbn [mbind option_bind].
  pose proof (r_room _ _ _ _ _ Hr) as Hroom. rewrite length_app in Hroom. cbn [length] in Hroom.
  destruct (body_write c t 0 rest) as (y & rest' & Ew); [lia|].
  destruct (raw_write _ _ _ _ _ (zlen c) _ _ Hr ltac:(lia) Bt Ew) as (s2 & -> & Hr2). cbn [mbind option_bind].
  destruct (raw_setlen _ _ _ _ _ (zlen c + zlen t) Hr2) as (s3 & -> & Hr3); [lia|]. cbn [mbind option_bind].
  rewrite app_assoc in Hr3. apply (raw_terminate _ _ _ _ _ _ _ Hr3). rewrite length_app. lia.
Qed.
End spec.
