(* ===== verification/SdsOps.v ===== *)
(** The public operations of the sds strings: what each does on the contents.

    Each operation keeps the string valid ([sds_rep]); comparison is the lexicographic order of the
    contents; the number conversions give the canonical decimal numeral. *)
From S2P Require Import Prelude Endian Util Sds SdsSpec.

Section ops.
Context `{HH : Host, AA : SdsAlloc}.

(** ** Assigning the whole contents *)

Lemma byte0 : byte_ok 0.
Proof. unfold byte_ok. lia. Qed.

Lemma raw_shorten s t len A c x rest n : raw s t len A (c ++ x :: rest) -> n = zlen c -> n <= A ->
  exists s' s'', sput s n 0 = Some s' /\ sdssetlen s' n = Some s'' /\ sds_rep s'' c.
Proof.
  intros Hr -> Hn. destruct (raw_put _ _ _ _ c x rest (zlen c) 0 Hr eq_refl byte0) as (s1 & E1 & Hr1).
  destruct (raw_setlen _ _ _ _ _ (zlen c) Hr1) as (s2 & E2 & Hr2); [lia|]. exists s1, s2. split; [done|]. split; [done|].
  by exists t, A, rest.
Qed.

Lemma sdscpylen_ok s c t : sds_rep s c -> Forall byte_ok t -> zlen c + zlen t < 2 ^ 62 ->
  exists s', sdscpylen s t = Some s' /\ sds_rep s' t.
Proof.
  intros Hs Bt HB. destruct (Hs) as (ty & A & rest & Hr). unfold sdscpylen. rewrite (raw_alloc _ _ _ _ _ Hr). cbn [mbind option_bind].
  pose proof (r_len _ _ _ _ _ Hr) as HlA.
  assert (Hroom : exists s1 ty1 A1 rest1, (if (if ty =? 0 then zlen c else A) <? zlen t
      then l ← sdslen s; sdsMakeRoomFor s (uwrap 64 (zlen t - l)) else Some s) = Some s1
      /\ raw s1 ty1 (zlen c) A1 (c ++ 0 :: rest1) /\ zlen t <= A1).
  { destruct (Z.ltb_spec (if ty =? 0 then zlen c else A) (zlen t)) as [Hlt|Hge].
    - rewrite (rep_len _ _ Hs). cbn [mbind option_bind]. assert (Hct : zlen c < zlen t) by (destruct (ty =? 0); lia).
      rewrite uwrap_small by (unfold in_u; lia).
      destruct (rep_makeroom s c (zlen t - zlen c) Hs) as (s1 & t1 & A1 & r1 & E & Hr1 & HA1 & _); [lia..|].
      exists s1, t1, A1, r1. split_and!; [done|done|lia].
    - exists s, ty, A, rest. split_and!; [done|done|]. destruct (ty =? 0); lia. }
  destruct Hroom as (s1 & ty1 & A1 & rest1 & -> & Hr1 & HA1). cbn [mbind option_bind].
  pose proof (r_room _ _ _ _ _ Hr1) as Hroom. destruct (split_body (c ++ 0 :: rest1) (zlen t)) as (b1 & x & b2 & E & Hb1); [lia|].
  rewrite E in Hr1. destruct (raw_write _ _ _ _ _ 0 t (t ++ x :: b2) Hr1) as (s2 & -> & Hr2); [lia|done|apply bwrite_head; lia|].
  cbn [mbind option_bind]. destruct (raw_shorten _ _ _ _ t x b2 (zlen t) Hr2 eq_refl HA1) as (s3 & s4 & -> & E4 & Hs4).
  cbn [mbind option_bind]. eauto.
Qed.

Lemma sdsclear_ok s c : sds_rep s c -> exists s', sdsclear s = Some s' /\ sds_rep s' [].
Proof.
  intros (t & A & rest & Hr). unfold sdsclear. pose proof (r_len _ _ _ _ _ Hr).
  destruct (raw_setlen _ _ _ _ _ 0 Hr) as (s1 & -> & Hr1); [lia|]. cbn [mbind option_bind].
  destruct c as [|x c]; apply (raw_terminate s1 t 0 A [] _ _ Hr1 eq_refl).
Qed.

Lemma strlen_app (c : bytes) rest : 0 ∉ c -> strlen (c ++ 0 :: rest) = Some (zlen c).
Proof.
  induction c as [|x c IH]; intros Hn; [done|]. apply not_elem_of_cons in Hn as [Hx Hn].
  cbn [app strlen]. replace (x =? 0) with false by lia. rewrite IH by done. cbn [mbind option_bind length]. f_equal. lia.
Qed.

(** The contents before the first NUL. *)
Definition cstr (c : bytes) : bytes := take (Z.to_nat (default 0 (strlen (c ++ [0])))) c.

Lemma cstr_split (c : bytes) : exists x rest, c ++ [0] = cstr c ++ x :: rest /\ x = 0 /\ 0 ∉ cstr c.
Proof.
  assert (H : exists c1 rest, c ++ [0] = c1 ++ 0 :: rest /\ 0 ∉ c1).
  { induction c as [|y c (c1 & rest & E & Hn)]; [exists [], []; split; [done|apply not_elem_of_nil]|].
    destruct (Z.eq_dec y 0) as [->|Hy]; [exists [], (c ++ [0]); split; [done|apply not_elem_of_nil]|].
    exists (y :: c1), rest. cbn. rewrite E. split; [done|]. apply not_elem_of_cons. done. }
  destruct H as (c1 & rest & E & Hn). exists 0, rest. unfold cstr. rewrite E, strlen_app by done. change (default 0 (Some (zlen c1))) with (zlen c1).
  assert (Hl : (length c1 <= length c)%nat).
  { apply (f_equal length) in E. rewrite !length_app in E. cbn in E. lia. }
  assert (Ec : take (Z.to_nat (zlen c1)) c = c1).
  { rewrite <- (take_app_le c [0]) by lia. rewrite E. apply take_app_length'. lia. }
  rewrite Ec. done.
Qed.

Lemma sdsupdatelen_ok s c : sds_rep s c -> exists s', sdsupdatelen s = Some s' /\ sds_rep s' (cstr c).
Proof.
  intros (t & A & rest & Hr). unfold sdsupdatelen. rewrite (hdr_buf _ _ _ _ _ (r_hdr _ _ _ _ _ Hr)).
  destruct (cstr_split c) as (x & r & E & -> & Hn). pose proof (r_len _ _ _ _ _ Hr) as HlA.
  assert (Eb : c ++ 0 :: rest = cstr c ++ 0 :: (r ++ rest)).
  { rewrite (app_assoc c [0] rest : c ++ 0 :: rest = (c ++ [0]) ++ rest), E. by rewrite <- app_assoc. }
  rewrite Eb in Hr |- *. rewrite strlen_app by done. cbn [mbind option_bind].
  assert (zlen (cstr c) <= zlen c) by (unfold cstr; rewrite length_take; lia).
  destruct (raw_setlen _ _ _ _ _ (zlen (cstr c)) Hr) as (s' & E' & Hr'); [lia|]. exists s'. split; [done|]. by exists t, A, (r ++ rest).
Qed.

Lemma sdsgrowzero_ok s c n : sds_rep s c -> 0 <= n -> zlen c + n < 2 ^ 62 ->
  exists s', sdsgrowzero s n = Some s' /\ sds_rep s' (c ++ replicate (Z.to_nat (n - zlen c)) 0).
Proof.
  intros Hs Hn HB. unfold sdsgrowzero. rewrite (rep_len _ _ Hs). cbn [mbind option_bind].
  destruct (Z.leb_spec n (zlen c)) as [Hle|Hgt].
  { exists s. replace (Z.to_nat (n - zlen c)) with O by lia. cbn. by rewrite app_nil_r. }
  destruct (rep_makeroom s c (n - zlen c) Hs) as (s1 & t & A & rest & -> & Hr & HA & _); [lia..|]. cbn [mbind option_bind].
  pose proof (r_room _ _ _ _ _ Hr) as Hroom. rewrite length_app in Hroom. cbn [length] in Hroom.
  destruct (split_at (0 :: rest) (Z.to_nat (n - zlen c + 1))) as (r1 & r2 & E & Hl); [cbn [length]; lia|].
  rewrite E in Hr. destruct (raw_write _ _ _ _ _ (zlen c) (replicate (Z.to_nat (n - zlen c + 1)) 0) (c ++ replicate (Z.to_nat (n - zlen c + 1)) 0 ++ r2) Hr) as (s2 & -> & Hr2);
    [lia|by apply Forall_replicate, byte0|apply bwrite_app; [done|by rewrite length_replicate]|]. cbn [mbind option_bind].
  destruct (raw_setlen _ _ _ _ _ n Hr2) as (s3 & -> & Hr3); [lia|]. exists s3. split; [done|]. exists t, A, r2.
  rewrite length_app, length_replicate. replace (Z.of_nat _) with n by lia.
  replace (Z.to_nat (n - zlen c + 1)) with (Z.to_nat (n - zlen c) + 1)%nat in Hr3 by lia.
  rewrite replicate_add in Hr3. by rewrite <- !app_assoc in Hr3 |- *.
Qed.

(** ** Releasing the free space *)

Lemma hdr_ghost s len A A' body : hdr s 0 len A body -> 0 <= A' <= 31 -> hdr s 0 len A' body.
Proof. intros [? ? ? ? ? ?] ?. by split. Qed.

Lemma sdsRemoveFreeSpace_ok s c : sds_rep s c ->
  exists s', sdsRemoveFreeSpace s = Some s' /\ sds_rep s' c /\ sdsavail s' = Some 0.
Proof.
  intros Hs. destruct (Hs) as (t & A & rest & Hr). pose proof (r_hdr _ _ _ _ _ Hr) as Hh. pose proof (h_type _ _ _ _ _ Hh) as Ht.
  pose proof (h_len _ _ _ _ _ Hh) as Hlen. pose proof (r_len _ _ _ _ _ Hr) as HlA. pose proof (r_room _ _ _ _ _ Hr) as Hroom.
  pose proof (h_A _ _ _ _ _ Hh) as HA.
  unfold sdsRemoveFreeSpace. destruct (hdr_flags _ _ _ _ _ Hh) as (fl & -> & El & _). cbn [mbind option_bind]. rewrite El.
  rewrite (hdr_sdslen _ _ _ _ _ Hh), (raw_avail _ _ _ _ _ Hr). cbn [mbind option_bind].
  destruct (Z.eqb_spec (if t =? 0 then 0 else A - zlen c) 0) as [E0|E0].
  { exists s. split; [done|]. split; [done|]. rewrite (raw_avail _ _ _ _ _ Hr). by rewrite E0. }
  assert (Ht0 : t <> 0) by (intros ->; done).
  assert (HB : zlen c < 2 ^ 64).
  { pose proof (typemax_fw t Ht) as Hm. destruct (Z.eqb_spec t 0); [done|].
    pose proof (Z.pow_le_mono_r 2 (8 * Z.of_nat (fw t)) 64 ltac:(lia) ltac:(pose proof (fw_le t Ht); lia)). lia. }
  destruct (reqtype_ok (zlen c) ltac:(lia)) as [Hq Hm]. set (t' := sdsReqType (zlen c)) in *. clearbody t'.
  rewrite length_app in Hroom. cbn [length] in Hroom.
  assert (Hs1 : exists s1 t1 A1 rest1, (if (t =? t') || (t' >? SDS_TYPE_8) then Some (mkSds (zrealloc (sblk s) (sdsHdrSize t + zlen c + 1)) (sdsHdrSize t))
     else src ← bslice (sblk s) (soff s) (zlen c + 1); newsh ← bwrite (zmalloc (sdsHdrSize t' + zlen c + 1)) (sdsHdrSize t') src;
          s1 ← sput (mkSds newsh (sdsHdrSize t')) (-1) t'; sdssetlen s1 (zlen c)) = Some s1
     /\ hdr s1 t1 (zlen c) A1 (c ++ 0 :: rest1)).
  { destruct ((t =? t') || (t' >? SDS_TYPE_8)).
    - pose proof (length_header t (zlen c) A Ht) as Hlh.
      destruct (zrealloc_prefix (header t (zlen c) A) (c ++ 0 :: rest) (sdsHdrSize t + zlen c + 1)) as (b' & E & Hb' & Htk & Hbo); [lia|].
      specialize (Htk (Z.to_nat (zlen c + 1))). rewrite length_app in Htk. cbn [length] in Htk. specialize (Htk ltac:(lia) ltac:(lia)).
      apply keep_prefix in Htk as [rest1 ->]; [|done].
      rewrite (h_blk _ _ _ _ _ Hh), E. eexists _, t, A, rest1. split; [done|]. destruct Hh. split; try done. by apply Hbo.
    - destruct (move_block s t (zlen c) A (c ++ 0 :: rest) t' (sdsHdrSize t' + zlen c + 1) Hh) as (s1 & A1 & b' & E & Hh1 & _ & Htk);
        [lia|lia|rewrite length_app; cbn; lia|lia|].
      apply keep_prefix in Htk as [rest1 ->]; [|done]. by exists s1, t', A1, rest1. }
  destruct Hs1 as (s1 & t1 & A1 & rest1 & -> & Hh1). cbn [mbind option_bind]. pose proof (h_len _ _ _ _ _ Hh1) as Hlen1.
  destruct (hdr_setalloc _ _ _ _ _ (zlen c) Hh1) as (s2 & -> & Hh2); [lia|].
  assert (Hr2 : raw s2 t1 (zlen c) (zlen c) (c ++ 0 :: rest1)).
  { split; [|lia|rewrite length_app; cbn; lia]. destruct (Z.eqb_spec t1 0) as [->|]; [|done]. eapply hdr_ghost; [done|].
    change (sdsTypeMaxSize 0) with 31 in *. lia. }
  exists s2. split; [done|]. split; [by exists t1, (zlen c), rest1|]. rewrite (raw_avail _ _ _ _ _ Hr2). destruct (t1 =? 0); f_equal; lia.
Qed.

Lemma length_zero_iff_nil_z (c : bytes) : zlen c = 0 -> c = [].
Proof. intros. apply length_zero_iff_nil. lia. Qed.

(** ** Setting the length after writing past the end *)

Lemma incr_ok_spec t A len d : 1 <= t <= 4 -> 0 <= len <= A -> A <= sdsTypeMaxSize t ->
  0 <= d <= A - len \/ d < 0 /\ - d <= len -> incr_ok (fw t) A len d = true.
Proof.
  intros Ht Hl HA Hd. pose proof (typemax_fw t ltac:(lia)) as Hm. destruct (Z.eqb_spec t 0); [lia|].
  assert (HA' : A < 2 ^ (8 * Z.of_nat (fw t))) by lia. clear Hm HA.
  assert (t = 1 \/ t = 2 \/ t = 3 \/ t = 4) as [-> | [-> | [-> | ->]]] by lia;
    change (fw 1) with 1%nat in *; change (fw 2) with 2%nat in *; change (fw 3) with 4%nat in *; change (fw 4) with 8%nat in *;
    cbn [incr_ok]; (destruct Hd as [Hd|Hd];
      [replace (d >=? 0) with true by lia; replace (d <? 0) with false by lia
      |replace (d >=? 0) with false by lia; replace (d <? 0) with true by lia]);
    cbn [andb orb]; rewrite ?uwrap_small by (unfold in_u; lia); lia.
Qed.

Lemma raw_incrlen s t len A body d : raw s t len A body -> 0 <= len + d <= A -> (t = 0 -> d <> 0) -> - 2 ^ 63 < d < 2 ^ 63 ->
  exists s1, sdsIncrLen s d = sput s1 (len + d) 0 /\ raw s1 t (len + d) A body.
Proof.
  intros Hr Hd H0 Hb. pose proof (r_hdr _ _ _ _ _ Hr) as Hh. pose proof (h_type _ _ _ _ _ Hh) as Ht.
  pose proof (h_len _ _ _ _ _ Hh) as Hlen. pose proof (h_A _ _ _ _ _ Hh) as HA. pose proof (r_len _ _ _ _ _ Hr) as HlA.
  unfold sdsIncrLen. destruct (hdr_flags _ _ _ _ _ Hh) as (fl & -> & El & E5). cbn [mbind option_bind].
  rewrite El, switch_fw by done. pose proof (typemax_fw t Ht) as Hm. destruct (Z.eqb_spec t 0) as [->|Ht0].
  - rewrite E5 by done. specialize (H0 eq_refl). replace (_ || _) with true.
    2: { destruct (Z.gtb_spec d 0); [cbn [andb]; replace (len + d <? 32) with true by lia; done|]. cbn [andb orb].
         rewrite uwrap_small by (unfold in_u; lia). lia. }
    rewrite flag5 by lia. rewrite (hdr_split5 _ _ _ _ Hh). rewrite (fields_set_flag [] (len * 8) body ((len + d) * 8) 1 eq_refl : sput (mkSds (len * 8 :: body) 1) (-1) _ = _).
    cbn [mbind option_bind]. rewrite uwrap_small by (unfold in_u; lia).
    exists (mkSds ((len + d) * 8 :: body) 1). split; [done|]. destruct Hr as [Hhd Hlr Hrr]. split; [|lia..].
    apply hdr_intro5; try lia. by destruct Hhd.
  - rewrite (hdr_alloc_field _ _ _ _ _ Hh Ht0), (hdr_len_field _ _ _ _ _ Hh Ht0). cbn [mbind option_bind].
    rewrite incr_ok_spec by lia. rewrite uwrap_small by (unfold in_u; lia).
    rewrite (hdr_split _ _ _ _ _ Hh Ht0), fields_set_len by apply length_host_bytes. cbn [mbind option_bind].
    eexists. split; [done|]. destruct Hr as [Hhd Hlr Hrr]. split; [|lia..]. apply hdr_intro; try lia; try done. by destruct Hhd.
Qed.

(** ** Shortening in place *)

Lemma bmove_app_r (pre b : bytes) off i j n : off = zlen pre -> 0 <= i -> 0 <= j ->
  bmove (pre ++ b) (off + i) (off + j) n = (b' ← bmove b i j n; Some (pre ++ b')).
Proof.
  intros Ho Hi Hj. unfold bmove. rewrite (bslice_app_r _ _ _ _ _ Ho Hj). destruct (bslice b j n); [|done].
  cbn [mbind option_bind]. by apply bwrite_app_r.
Qed.

Lemma raw_move_front s t len A u m v : raw s t len A (u ++ m ++ v) -> v <> [] ->
  exists s' x rest, smove s 0 (zlen u) (zlen m) = Some s' /\ raw s' t len A (m ++ x :: rest).
Proof.
  intros [[Ht Ho Hb Hl HA Bb] HlA Hroom] Hv. unfold smove. rewrite Hb, Ho.
  rewrite (bmove_app_r _ _ _ _ _ _ (eq_sym (length_header t len A Ht))) by lia. unfold bmove. rewrite bslice_app. cbn [mbind option_bind].
  destruct (split_at (u ++ m ++ v) (length m)) as (b1 & b2 & E & Hb1); [rewrite !length_app; lia|].
  destruct b2 as [|x b2].
  { exfalso. apply (f_equal length) in E. rewrite !length_app in E. cbn in E. destruct v; [done|cbn in E; lia]. }
  rewrite E in *. rewrite bwrite_head by lia. cbn [mbind option_bind]. eexists _, x, b2. split; [done|].
  assert (Bm : Forall byte_ok m).
  { rewrite <- E in Bb. apply Forall_app in Bb as [_ Bb]. by apply Forall_app in Bb as [? _]. }
  apply Forall_app in Bb as [_ Bb2]. rewrite length_app in Hroom. split; [|done|rewrite length_app; lia].
  split; try done. cbn. by apply Forall_app.
Qed.

(** Keeping the bytes [m] of a string: the end of [sdstrim] and [sdssubstr]. *)
Lemma keep_middle s c u m v (b : bool) : sds_rep s c -> c = u ++ m ++ v -> (b = false -> u = [] \/ m = []) ->
  exists s1 s2 s3, (if b then smove s 0 (zlen u) (zlen m) else Some s) = Some s1
    /\ sput s1 (zlen m) 0 = Some s2 /\ sdssetlen s2 (zlen m) = Some s3 /\ sds_rep s3 m.
Proof.
  intros (t & A & rest & Hr) -> Hb. pose proof (r_len _ _ _ _ _ Hr) as HlA. rewrite !length_app in HlA.
  assert (H1 : exists s1 x r1, (if b then smove s 0 (zlen u) (zlen m) else Some s) = Some s1
     /\ raw s1 t (zlen (u ++ m ++ v)) A (m ++ x :: r1)).
  { rewrite <- !app_assoc in Hr. destruct b.
    - apply (raw_move_front s t _ A u m (v ++ 0 :: rest) Hr). by destruct v.
    - destruct (Hb eq_refl) as [-> | ->].
      + cbn [app] in *. destruct (v ++ 0 :: rest) as [|x r1] eqn:E; [by destruct v|]. by exists s, x, r1.
      + cbn [app] in *. destruct (u ++ v ++ 0 :: rest) as [|x r1] eqn:E; [by destruct u; [destruct v|]|]. by exists s, x, r1. }
  destruct H1 as (s1 & x & r1 & E1 & Hr1).
  destruct (raw_shorten _ _ _ _ m x r1 (zlen m) Hr1 eq_refl) as (s2 & s3 & E2 & E3 & Hs3); [lia|]. by exists s1, s2, s3.
Qed.

Definition substr (start len : Z) (c : bytes) : bytes :=
  if start >=? zlen c then [] else take (Z.to_nat len) (drop (Z.to_nat start) c).

Lemma sdssubstr_ok s c start len : sds_rep s c -> 0 <= start -> 0 <= len ->
  exists s', sdssubstr s start len = Some s' /\ sds_rep s' (substr start len c).
Proof.
  intros Hs Hst Hl. unfold sdssubstr, substr. rewrite (rep_len _ _ Hs). cbn [mbind option_bind].
  destruct (Z.geb_spec start (zlen c)) as [Hge|Hlt].
  - replace (0 >? zlen c - 0) with false by lia. cbn [Z.eqb negb mbind option_bind].
    destruct (keep_middle s c [] [] c false Hs) as (s1 & s2 & s3 & [= <-] & E2 & E3 & Hs3); [done|by left|].
    change (sput s 0 0 = Some s2) in E2. change (sdssetlen s2 0 = Some s3) in E3. rewrite E2. cbn [mbind option_bind]. eauto.
  - set (n := if len >? zlen c - start then zlen c - start else len).
    assert (En : take (Z.to_nat len) (drop (Z.to_nat start) c) = take (Z.to_nat n) (drop (Z.to_nat start) c)).
    { unfold n. destruct (Z.gtb_spec len (zlen c - start)); [|done]. rewrite !take_ge; [done| |]; rewrite length_drop; lia. }
    rewrite En. set (u := take (Z.to_nat start) c). set (m := take (Z.to_nat n) (drop (Z.to_nat start) c)).
    set (v := drop (Z.to_nat n) (drop (Z.to_nat start) c)).
    assert (Hn : 0 <= n <= zlen c - start) by (unfold n; destruct (Z.gtb_spec len (zlen c - start)); lia). clearbody n.
    assert (Hm : n = zlen m) by (unfold m; rewrite length_take, length_drop; lia).
    assert (Hu : start = zlen u) by (unfold u; rewrite length_take; lia).
    destruct (keep_middle s c u m v (negb (n =? 0)) Hs) as (s1 & s2 & s3 & E1 & E2 & E3 & Hs3).
    { unfold u, m, v. by rewrite !take_drop. }
    { intros Hz. right. apply length_zero_iff_nil. lia. }
    rewrite <- Hm, <- Hu in *. rewrite E1. cbn [mbind option_bind]. rewrite E2. cbn [mbind option_bind]. eauto.
Qed.

(** The documented meaning of the indexes, negative ones counting from the end;
    a range that starts before the string is empty. *)
Definition range (start end_ : Z) (c : bytes) : bytes :=
  let start := if start <? 0 then zlen c + start else start in
  let end_ := if end_ <? 0 then zlen c + end_ else end_ in
  if (start <? 0) || (start >? end_) then [] else substr start (end_ - start + 1) c.

Lemma sdsrange_ok s c start end_ : sds_rep s c -> zlen c < 2 ^ 62 -> - 2 ^ 61 <= start < 2 ^ 61 -> - 2 ^ 61 <= end_ < 2 ^ 61 ->
  exists s', sdsrange s start end_ = Some s' /\ sds_rep s' (range start end_ c).
Proof.
  intros Hs HB Hst He. unfold sdsrange, range. rewrite (rep_len _ _ Hs). cbn [mbind option_bind].
  destruct (Z.eqb_spec (zlen c) 0) as [E0|E0].
  { exists s. split; [done|]. apply length_zero_iff_nil_z in E0 as ->. cbn [length].
    destruct (_ || _); [done|]. unfold substr. cbn [length]. rewrite drop_nil, take_nil. by destruct (_ >=? _). }
  set (st := if start <? 0 then zlen c + start else start). set (en := if end_ <? 0 then zlen c + end_ else end_).
  replace (if start <? 0 then swrap 64 (zlen c + start) else start) with st.
  2: { unfold st. destruct (Z.ltb_spec start 0); [|done]. rewrite swrap_small; unfold in_s; lia. }
  replace (if end_ <? 0 then swrap 64 (zlen c + end_) else end_) with en.
  2: { unfold en. destruct (Z.ltb_spec end_ 0); [|done]. rewrite swrap_small; unfold in_s; lia. }
  assert (Hst' : - 2 ^ 61 <= st < 2 ^ 62) by (unfold st; destruct (Z.ltb_spec start 0); lia).
  assert (Hen' : - 2 ^ 61 <= en < 2 ^ 62) by (unfold en; destruct (Z.ltb_spec end_ 0); lia). clearbody st en.
  replace (if st >? en then Some 0 else _) with (Some (if st >? en then 0 else en - st + 1)).
  2: { destruct (Z.gtb_spec st en); [done|]. unfold signed64. replace (_ && _) with true by lia. cbn [mbind option_bind].
       by replace (_ && _) with true by lia. }
  cbn [mbind option_bind]. destruct (Z.ltb_spec st 0) as [Hneg|Hpos]; cbn [orb].
  - assert (Ew : uwrap 64 st = st + 2 ^ 64).
    { unfold uwrap. rewrite <- (Z.mod_add st 1 (2 ^ 64)) by lia. rewrite Z.mod_small; lia. }
    rewrite Ew. destruct (sdssubstr_ok s c (st + 2 ^ 64) (if st >? en then 0 else en - st + 1) Hs) as (s' & E & Hs'); [lia|destruct (Z.gtb_spec st en); lia|].
    exists s'. split; [done|]. unfold substr in Hs'. by replace (_ >=? _) with true in Hs' by lia.
  - rewrite uwrap_small by (unfold in_u; lia). destruct (Z.gtb_spec st en).
    + destruct (sdssubstr_ok s c st 0 Hs) as (s' & E & Hs'); [lia..|]. exists s'. split; [done|].
      unfold substr in Hs'. rewrite take_0 in Hs'. by destruct (st >=? zlen c).
    + apply sdssubstr_ok; [done|lia..].
Qed.

(** ** Trimming *)

Fixpoint ltrim (P : Z -> bool) (c : bytes) : bytes :=
  match c with x :: c' => if P x then ltrim P c' else c | [] => [] end.
Definition trim (P : Z -> bool) (c : bytes) : bytes := reverse (ltrim P (reverse (ltrim P c))).

Lemma ltrim_split P c : exists u, c = u ++ ltrim P c /\ Forall (fun x => P x = true) u
  /\ match ltrim P c with x :: _ => P x = false | [] => True end.
Proof.
  induction c as [|x c (u & E & Hu & Hh)]; [by exists []|]. cbn [ltrim]. destruct (P x) eqn:EP.
  - exists (x :: u). split; [cbn; by rewrite <- E|]. split; [by constructor|done].
  - exists []. split; [done|]. split; [constructor|done].
Qed.

Lemma trim_left_ok s (cset : bytes) : forall (u pre m : bytes) fuel e, sds_rep s (pre ++ u ++ m) ->
  Forall (fun x => strchr_in cset x = true) u -> match m with x :: _ => strchr_in cset x = false | [] => True end ->
  e = zlen pre + zlen u + zlen m - 1 -> zlen u + zlen m <= Z.of_nat fuel ->
  trim_left fuel s cset (zlen pre) e = Some (zlen pre + zlen u).
Proof.
  induction u as [|x u IH]; intros pre m fuel e Hs Hu Hm -> Hf.
  - cbn [app length] in *. destruct (Hs) as (t & A & rest & Hr). destruct m as [|y m].
    + cbn [length]. destruct fuel; cbn [trim_left]; replace (_ <=? _) with false by (cbn; lia); f_equal; cbn; lia.
    + destruct fuel; [cbn [length] in Hf; lia|]. cbn [trim_left length]. replace (_ <=? _) with true by lia.
      rewrite (hdr_get _ _ _ _ _ _ (r_hdr _ _ _ _ _ Hr)) by lia. rewrite <- app_assoc. cbn [app]. rewrite bget_app by done.
      cbn [mbind option_bind]. rewrite Hm. f_equal. lia.
  - destruct fuel; [cbn [length] in Hf; lia|]. cbn [trim_left]. replace (_ <=? _) with true by (cbn [length]; lia).
    destruct (Hs) as (t & A & rest & Hr). apply Forall_cons in Hu as [Hx Hu].
    rewrite (hdr_get _ _ _ _ _ _ (r_hdr _ _ _ _ _ Hr)) by lia. rewrite <- app_assoc. cbn [app]. rewrite bget_app by done.
    cbn [mbind option_bind]. rewrite Hx. specialize (IH (pre ++ [x]) m fuel (zlen pre + zlen (x :: u) + zlen m - 1)).
    rewrite <- app_assoc, length_app in IH. cbn [app length] in IH |- *.
    replace (zlen pre + 1) with (Z.of_nat (length pre + 1)) by lia. rewrite IH; try done; try (cbn [length] in Hf; lia). f_equal. lia.
Qed.

Lemma trim_right_ok s (cset : bytes) : forall (r pre k : bytes) y v fuel, sds_rep s (pre ++ (k ++ [y]) ++ r ++ v) ->
  Forall (fun x => strchr_in cset x = true) r -> (k <> [] -> strchr_in cset y = false) ->
  zlen k + zlen r + 1 <= Z.of_nat fuel ->
  trim_right fuel s cset (zlen pre) (zlen pre + zlen k + zlen r) = Some (zlen pre + zlen k).
Proof.
  induction r as [|x r IH] using rev_ind; intros pre k y v fuel Hs Hr Hy Hf; (destruct fuel; [cbn [length] in Hf; lia|]); cbn [trim_right].
  - cbn [length] in *. replace (zlen pre + zlen k + Z.of_nat 0) with (zlen pre + zlen k) by lia.
    destruct (Z.gtb_spec (zlen pre + zlen k) (zlen pre)) as [Hgt|]; [|done].
    destruct (Hs) as (t & A & rest & Hrr). rewrite (hdr_get _ _ _ _ _ _ (r_hdr _ _ _ _ _ Hrr)) by lia.
    rewrite <- !app_assoc. cbn [app]. rewrite (app_assoc pre k). rewrite bget_app by (rewrite length_app; lia).
    cbn [mbind option_bind]. rewrite Hy; [done|]. intros ->. cbn in Hgt. lia.
  - rewrite length_app in *. cbn [length] in *. replace (_ >? _) with true by lia. apply Forall_app in Hr as [Hr Hx].
    apply Forall_cons in Hx as [Hx _].
    destruct (Hs) as (t & A & rest & Hrr). rewrite (hdr_get _ _ _ _ _ _ (r_hdr _ _ _ _ _ Hrr)) by lia.
    replace ((pre ++ (k ++ [y]) ++ (r ++ [x]) ++ v) ++ 0 :: rest) with ((pre ++ k ++ [y] ++ r) ++ x :: (v ++ 0 :: rest)) by (by rewrite <- !app_assoc).
    rewrite bget_app by (rewrite !length_app; cbn [length]; lia). cbn [mbind option_bind]. rewrite Hx.
    replace (zlen pre + zlen k + Z.of_nat (length r + 1) - 1) with (zlen pre + zlen k + zlen r) by lia.
    apply (IH pre k y ([x] ++ v) fuel); [|done|done|lia].
    by replace (r ++ [x] ++ v) with ((r ++ [x]) ++ v) by (by rewrite <- app_assoc).
Qed.

(** The end of [sdstrim], from the two positions found. *)
Lemma sdstrim_ok s c (cset : bytes) : sds_rep s c ->
  exists s', sdstrim s cset = Some s' /\ sds_rep s' (trim (strchr_in cset) c).
Proof.
  intros Hs. unfold sdstrim. rewrite (rep_len _ _ Hs). cbn [mbind option_bind]. set (P := strchr_in cset).
  destruct (ltrim_split P c) as (u & Ec & Hu & Hhd). unfold trim. set (m := ltrim P c) in *. clearbody m. subst c.
  rewrite (trim_left_ok s cset u [] m (Z.to_nat (zlen (u ++ m)))); [|exact Hs|done|exact Hhd|rewrite length_app; cbn; lia|rewrite length_app; lia].
  cbn [mbind option_bind length]. replace (Z.of_nat 0 + zlen u) with (zlen u) by lia.
  destruct m as [|y m].
  { rewrite app_nil_r in *. change (reverse (ltrim P (reverse []))) with ([] : bytes).
    assert (Er : trim_right (Z.to_nat (zlen u)) s cset (zlen u) (zlen u - 1) = Some (zlen u - 1)).
    { destruct (Z.to_nat (zlen u)); cbn [trim_right]; by replace (_ >? _) with false by lia. }
    rewrite Er. cbn [mbind option_bind]. replace (zlen u >? zlen u - 1) with true by lia.
    destruct (keep_middle s u u [] [] (negb (zlen u =? 0)) Hs) as (s1 & s2 & s3 & E1 & E2 & E3 & Hs3); [by rewrite app_nil_r|by right|].
    change (zlen []) with 0 in *. rewrite E1. cbn [mbind option_bind]. rewrite E2. cbn [mbind option_bind]. eauto. }
  destruct (ltrim_split P (reverse (y :: m))) as (r' & Er & Hr' & Hl). set (k' := ltrim P (reverse (y :: m))) in *. clearbody k'.
  assert (Em : y :: m = reverse k' ++ reverse r') by (rewrite <- reverse_app, <- Er; by rewrite reverse_involutive).
  destruct k' as [|z k'].
  { exfalso. rewrite app_nil_r in Er. subst r'. apply Forall_reverse in Hr'. rewrite reverse_involutive in Hr'.
    apply Forall_cons in Hr' as [Hy _]. congruence. }
  rewrite reverse_cons in Em |- *. rewrite Em in Hs |- *. set (k := reverse k') in *. set (r := reverse r') in *.
  assert (Hrk : trim_right (Z.to_nat (zlen (u ++ (k ++ [z]) ++ r))) s cset (zlen u) (zlen (u ++ (k ++ [z]) ++ r) - 1) = Some (zlen u + zlen k)).
  { replace (zlen (u ++ (k ++ [z]) ++ r) - 1) with (zlen u + zlen k + zlen r) by (rewrite !length_app; cbn; lia).
    apply (trim_right_ok s cset r u k z []); [by rewrite app_nil_r|by apply Forall_reverse|done|rewrite !length_app; cbn; lia]. }
  rewrite Hrk. cbn [mbind option_bind]. replace (zlen u >? zlen u + zlen k) with false by lia.
  replace (zlen u + zlen k - zlen u + 1) with (zlen (k ++ [z])) by (rewrite length_app; cbn; lia).
  destruct (keep_middle s _ u (k ++ [z]) r (negb (zlen u =? 0)) Hs eq_refl) as (s1 & s2 & s3 & E1 & E2 & E3 & Hs3).
  { intros Hz. left. apply length_zero_iff_nil_z. lia. }
  rewrite E1. cbn [mbind option_bind]. rewrite E2. cbn [mbind option_bind]. eauto.
Qed.

(** ** Mapping in place *)

Lemma map_loop_ok (f : Z -> Z) (Hf : forall x, byte_ok x -> byte_ok (f x)) : forall (c pre post : bytes) s t len A,
  raw s t len A (pre ++ c ++ post) ->
  exists s', map_loop (length c) f s (zlen pre) = Some s' /\ raw s' t len A (pre ++ (f <$> c) ++ post).
Proof.
  induction c as [|x c IH]; intros pre post s t len A Hr; [by exists s|]. cbn [map_loop length].
  assert (Bx : byte_ok x).
  { pose proof (h_body _ _ _ _ _ (r_hdr _ _ _ _ _ Hr)) as Hb. apply Forall_app in Hb as [_ Hb]. by apply Forall_cons in Hb as [? _]. }
  rewrite (hdr_get _ _ _ _ _ _ (r_hdr _ _ _ _ _ Hr)) by lia. cbn [app]. rewrite bget_app by done. cbn [mbind option_bind].
  destruct (raw_put _ _ _ _ pre x (c ++ post) (zlen pre) (f x) Hr eq_refl (Hf x Bx)) as (s1 & -> & Hr1). cbn [mbind option_bind].
  destruct (IH (pre ++ [f x]) post s1 t len A) as (s' & E & Hr'); [by rewrite <- app_assoc|].
  rewrite length_app in E. cbn [length] in E. replace (zlen pre + 1) with (Z.of_nat (length pre + 1)) by lia. exists s'. split; [done|].
  by rewrite <- app_assoc in Hr'.
Qed.

Lemma map_ok (f : Z -> Z) s c : (forall x, byte_ok x -> byte_ok (f x)) -> sds_rep s c ->
  exists s', map_loop (Z.to_nat (zlen c)) f s 0 = Some s' /\ sds_rep s' (f <$> c).
Proof.
  intros Hf (t & A & rest & Hr). rewrite Nat2Z.id. destruct (map_loop_ok f Hf c [] (0 :: rest) s t _ A Hr) as (s' & E & Hr').
  exists s'. split; [done|]. exists t, A, rest. by rewrite length_fmap.
Qed.

(** ** Copying and releasing *)

Lemma rep_free s c : sds_rep s c -> sdsfree s = Some tt.
Proof.
  intros (t & A & rest & Hr). pose proof (r_hdr _ _ _ _ _ Hr) as Hh. pose proof (h_type _ _ _ _ _ Hh) as Ht.
  unfold sdsfree. destruct (hdr_flags _ _ _ _ _ Hh) as (fl & -> & El & _). cbn [mbind option_bind].
  assert (Es : sdsHdrSize fl = sdsHdrSize t).
  { unfold sdsHdrSize. rewrite El. by types t. }
  rewrite Es, (h_off _ _ _ _ _ Hh), Z.sub_diag. done.
Qed.

Lemma sdsdup_ok s c : sds_rep s c -> zlen c < 2 ^ 62 -> exists s', sdsdup s = Some s' /\ sds_rep s' c.
Proof.
  intros Hs HB. unfold sdsdup. rewrite (rep_len _ _ Hs). cbn [mbind option_bind]. destruct (Hs) as (t & A & rest & Hr).
  pose proof (r_hdr _ _ _ _ _ Hr) as Hh. rewrite (hdr_buf _ _ _ _ _ Hh).
  destruct (sdsnewlen_ok (Init (c ++ 0 :: rest)) (zlen c)) as (s' & c' & E & Hs' & Hc & _); [lia| |].
  - split; [rewrite length_app; lia|by destruct Hh].
  - cbn [init_contents] in Hc. rewrite take_app_length' in Hc by lia. subst c'. eauto.
Qed.

Lemma sdsempty_ok : exists s, sdsempty = Some s /\ sds_rep s [].
Proof.
  destruct (sdsnewlen_ok (Init []) 0) as (s & c & E & Hs & Hc & _); [lia|by split; [|constructor]|].
  cbn in Hc. subst c. eauto.
Qed.

Lemma newlen_bytes t : Forall byte_ok t -> zlen t < 2 ^ 62 -> exists s, sdsnewlen (Init t) (zlen t) = Some s /\ sds_rep s t.
Proof.
  intros Ht HB. destruct (sdsnewlen_ok (Init t) (zlen t)) as (s & c & E & Hs & Hc & _); [lia|by split|].
  cbn [init_contents] in Hc. rewrite take_ge in Hc by lia. subst c. eauto.
Qed.

Lemma catsds_ok s c t d : sds_rep s c -> sds_rep t d -> zlen c + zlen d < 2 ^ 62 ->
  exists s', sdscatsds s t = Some s' /\ sds_rep s' (c ++ d).
Proof.
  intros Hs Ht HB. unfold sdscatsds. rewrite (rep_len _ _ Ht). cbn [mbind option_bind]. rewrite (rep_slice _ _ Ht). cbn [mbind option_bind].
  apply sdscatlen_ok; [done|by eapply rep_bytes|done].
Qed.

(** ** Comparison *)

(** The lexicographic order. *)
Fixpoint lex (a b : bytes) : comparison :=
  match a, b with
  | [], [] => Eq
  | [], _ => Lt
  | _, [] => Gt
  | x :: a, y :: b => match x ?= y with Eq => lex a b | r => r end
  end.

Definition sign (z : Z) : comparison := z ?= 0.

Lemma cmp_cons x a y b : cmp_contents (x :: a) (y :: b) = if x =? y then cmp_contents a b else x - y.
Proof.
  unfold cmp_contents. cbn [length].
  replace (Z.to_nat (if _ <? _ then _ else _)) with (S (Z.to_nat (if zlen a <? zlen b then zlen a else zlen b)))
    by (destruct (Z.ltb_spec (zlen a) (zlen b)), (Z.ltb_spec (Z.of_nat (S (length a))) (Z.of_nat (S (length b)))); lia).
  cbn [take memcmp]. destruct (Z.eqb_spec x y).
  - destruct (_ =? 0); [|done]. replace (Z.of_nat (S (length a)) >? _) with (zlen a >? zlen b) by lia.
    by replace (Z.of_nat (S (length a)) <? _) with (zlen a <? zlen b) by lia.
  - by replace (x - y =? 0) with false by lia.
Qed.

Lemma cmp_lex a b : sign (cmp_contents a b) = lex a b.
Proof.
  revert b. induction a as [|x a IH]; intros [|y b]; try done. rewrite cmp_cons. cbn [lex]. unfold sign in *.
  destruct (Z.eqb_spec x y) as [->|Hne]; [by rewrite Z.compare_refl, IH|].
  destruct (Z.compare_spec x y); [done| |]; [rewrite (proj2 (Z.compare_lt_iff _ _)) by lia|rewrite (proj2 (Z.compare_gt_iff _ _)) by lia]; done.
Qed.

Lemma lex_eq a b : lex a b = Eq <-> a = b.
Proof.
  revert b. induction a as [|x a IH]; intros [|y b]; try done. cbn [lex]. destruct (Z.compare_spec x y) as [->|Hl|Hl].
  - rewrite IH. split; [by intros ->|by intros [=]].
  - split; [done|]. intros [= -> _]. lia.
  - split; [done|]. intros [= -> _]. lia.
Qed.

Lemma lex_antisym a b : lex b a = CompOpp (lex a b).
Proof.
  revert b. induction a as [|x a IH]; intros [|y b]; try done. cbn [lex]. rewrite (Z.compare_antisym x y).
  destruct (x ?= y); cbn; [apply IH|done|done].
Qed.

Lemma lex_trans a b c : lex a b = Lt -> lex b c = Lt -> lex a c = Lt.
Proof.
  revert b c. induction a as [|x a IH]; intros [|y b] [|z c]; try done. cbn [lex].
  destruct (Z.compare_spec x y) as [->|Hxy|Hxy]; [|intros _|done].
  - destruct (y ?= z); [apply IH|done|done].
  - destruct (Z.compare_spec y z) as [->|Hyz|Hyz]; [|intros _|done]; intros;
      by rewrite (proj2 (Z.compare_lt_iff _ _)) by lia.
Qed.

(** [sdscmp] compares the contents in lexicographic order, a proper prefix
    being smaller, whatever the header types. *)
Theorem sdscmp_spec s1 s2 a b : sds_rep s1 a -> sds_rep s2 b -> exists r, sdscmp s1 s2 = Some r /\ sign r = lex a b.
Proof.
  intros H1 H2. unfold sdscmp. rewrite (rep_len _ _ H1), (rep_len _ _ H2). cbn [mbind option_bind].
  rewrite (rep_slice _ _ H1). cbn [mbind option_bind]. rewrite (rep_slice _ _ H2). cbn [mbind option_bind].
  eexists. split; [done|]. apply cmp_lex.
Qed.
End ops.

(** * Instances *)

(** An allocator that rounds sizes up to a multiple of 8. *)
Program Definition RoundAlloc : SdsAlloc := {| sds_alloc := FillAlloc; usable_size := fun n => (n + 7) / 8 * 8 |}.
Next Obligation. intros n. cbn. pose proof (Z.div_mod (n + 7) 8 ltac:(lia)). pose proof (Z.mod_pos_bound (n + 7) 8 ltac:(lia)). lia. Qed.
Next Obligation. intros n Hn. cbn. pose proof (Z.div_mod (n + 7) 8 ltac:(lia)). pose proof (Z.mod_pos_bound (n + 7) 8 ltac:(lia)). lia. Qed.

#[local] Existing Instance LittleHost.
#[local] Existing Instance RoundAlloc.

(** A type 8 string with two free bytes, and a type 5 string. *)
Definition sample_sds : sds := mkSds [3; 5; 1; 97; 98; 99; 0; 170; 170] 3.
Definition sample_sds5 : sds := mkSds [16; 97; 98; 0] 1.

Ltac bytes_compute := repeat (apply Forall_cons; split; [unfold byte_ok; lia|]); apply Forall_nil_2.

Lemma sample_sds_rep : sds_rep sample_sds [97; 98; 99].
Proof.
  exists 1, 5, [170; 170]. split; [split|cbn; lia|cbn; lia]; try reflexivity; try lia; try (split; vm_compute; discriminate).
  cbn [app]. bytes_compute.
Qed.

Lemma sample_sds5_rep : sds_rep sample_sds5 [97; 98].
Proof.
  exists 0, 2, []. split; [split|cbn; lia|cbn; lia]; try reflexivity; try lia; try (split; vm_compute; discriminate).
  cbn [app]. bytes_compute.
Qed.

Lemma sdscmp_spec_witness : exists r, sdscmp sample_sds sample_sds5 = Some r /\ sign r = Gt.
Proof. exact (sdscmp_spec _ _ _ _ sample_sds_rep sample_sds5_rep). Defined.
