(* ===== verification/SdsText.v ===== *)
(** Text built from sds strings: numbers, formats, quoting, splitting.

    The decimal conversions give canonical numerals; [sdscatfmt] appends the
    expansion of its format; [sdssplitargs] reads back what [sdscatrepr] writes;
    [sdssplitlen] and [sdsjoinsds] are inverse. Every operation that changes a
    string keeps it valid and changes its contents as [op_contents] says. *)
From S2P Require Import Prelude Endian Util Sds SdsSpec SdsOps.

(** ** Decimal numbers *)

Lemma digit_loop_ok : forall d v fuel (pre gap post : bytes), ndigits d v -> length gap = d -> (d <= fuel)%nat ->
  digit_loop fuel (pre ++ gap ++ post) (zlen pre) v = Some (pre ++ reverse (dec d v) ++ post, zlen pre + Z.of_nat d).
Proof.
  induction d as [|d IH]; intros v fuel pre gap post Hd Hg Hf; [by destruct Hd as [? [?|[? ?]]]; lia|].
  destruct gap as [|g gap]; [done|]. destruct fuel as [|fuel]; [lia|]. cbn [digit_loop app].
  rewrite bset_app by done. cbn [mbind option_bind]. destruct Hd as [Hr Hd]. cbn [length] in Hg. injection Hg as Hg.
  destruct d as [|d].
  - assert (v < 10) by (cbn in Hr; lia). rewrite (Z.div_small v 10) by lia. cbn [Z.eqb].
    destruct gap; [|done]. cbn [dec app]. done.
  - assert (H10 : 10 <= v).
    { destruct Hd as [?|[_ Hd]]; [lia|]. replace (Z.of_nat (S (S d)) - 1) with (Z.of_nat (S d)) in Hd by lia. rewrite pow10_S in Hd.
      pose proof (Z.pow_pos_nonneg 10 (Z.of_nat d) ltac:(lia) ltac:(lia)). lia. }
    assert (1 <= v / 10) by (apply Z.div_le_lower_bound; lia). replace (v / 10 =? 0) with false by lia.
    assert (Hd' : ndigits (S d) (v / 10)).
    { rewrite pow10_S in Hr. split; [split; [lia|apply Z.div_lt_upper_bound; lia]|]. destruct d; [by left|right]. split; [lia|].
      destruct Hd as [?|[_ Hd]]; [lia|]. apply Z.div_le_lower_bound; [lia|].
      replace (Z.of_nat (S (S (S d))) - 1) with (Z.of_nat (S (S d))) in Hd by lia. rewrite pow10_S in Hd.
      replace (Z.of_nat (S (S d)) - 1) with (Z.of_nat (S d)) by lia. lia. }
    specialize (IH (v / 10) fuel (pre ++ [48 + v mod 10]) gap post Hd' Hg ltac:(lia)).
    rewrite length_app in IH. cbn [length] in IH. rewrite <- !app_assoc in IH. cbn [app] in IH.
    replace (Z.of_nat (length pre + 1)) with (zlen pre + 1) in IH by lia. rewrite IH.
    change (dec (S (S d)) v) with (dec (S d) (v / 10) ++ [48 + v mod 10]). rewrite reverse_app.
    change (reverse [48 + v mod 10]) with [48 + v mod 10]. cbn [app]. do 2 f_equal. lia.
Qed.

Lemma reverse_loop_ok : forall n (m pre post : bytes) fuel, (length m <= n)%nat -> (length m <= fuel)%nat ->
  reverse_loop fuel (pre ++ m ++ post) (zlen pre) (zlen pre + zlen m - 1) = Some (pre ++ reverse m ++ post).
Proof.
  induction n as [|n IH]; intros m pre post fuel Hn Hf.
  { destruct m; [|cbn in Hn; lia]. destruct fuel; cbn [reverse_loop length]; by replace (_ <? _) with false by lia. }
  destruct m as [|x m]; [destruct fuel; cbn [reverse_loop length]; by replace (_ <? _) with false by lia|].
  destruct (rev_case m) as [->|(m' & y & ->)].
  { destruct fuel; cbn [reverse_loop length]; by replace (_ <? _) with false by lia. }
  cbn [length] in *. rewrite length_app in *. cbn [length] in *. destruct fuel as [|fuel]; [lia|]. cbn [reverse_loop].
  replace (_ <? _) with true by lia. cbn [app]. rewrite <- app_assoc. cbn [app].
  rewrite swap_bytes_app by lia. cbn [mbind option_bind].
  specialize (IH m' (pre ++ [y]) (x :: post) fuel ltac:(lia) ltac:(lia)). rewrite length_app in IH. cbn [length] in IH.
  rewrite <- app_assoc in IH. cbn [app] in IH.
  replace (zlen pre + 1) with (Z.of_nat (length pre + 1)) by lia.
  replace (zlen pre + Z.of_nat (S (length m' + 1)) - 1 - 1) with (Z.of_nat (length pre + 1) + zlen m' - 1) by lia.
  rewrite IH. rewrite <- app_assoc. cbn [app]. rewrite reverse_cons, reverse_app. change (reverse [y]) with [y].
  by rewrite <- !app_assoc.
Qed.

(** The bytes a conversion leaves in its buffer: [n], a NUL, and what was
    there. *)
Lemma finish_digits (m : bytes) (b0 : Z) rest n : n = zlen m ->
  (b ← bset (m ++ b0 :: rest) n 0; b ← reverse_loop (length b) b 0 (n - 1); Some (n, b))
    = Some (zlen m, reverse m ++ 0 :: rest).
Proof.
  intros ->. rewrite bset_app by done. cbn [mbind option_bind].
  pose proof (reverse_loop_ok (length m) m [] (0 :: rest) (length (m ++ 0 :: rest))) as E. cbn [length app] in E.
  replace (Z.of_nat 0 + zlen m - 1) with (zlen m - 1) in E by lia. change (Z.of_nat 0) with 0 in E.
  rewrite E by (rewrite ?length_app; lia). done.
Qed.

Lemma split_buf (b : bytes) (d : nat) : (d < length b)%nat -> exists gap x rest, b = gap ++ x :: rest /\ length gap = d.
Proof.
  intros Hd. destruct (split_body b (Z.of_nat d)) as (gap & x & rest & -> & Hl); [lia|]. exists gap, x, rest. split; [done|lia].
Qed.

Lemma sdsull2str_ok (b : bytes) v d : 0 <= v < 2 ^ 64 -> ndigits d v -> (d < length b)%nat ->
  exists rest, sdsull2str b v = Some (Z.of_nat d, dec d v ++ 0 :: rest).
Proof.
  intros Hv Hd Hb. destruct (split_buf b d Hb) as (gap & x & rest & -> & Hg). unfold sdsull2str.
  pose proof (digit_loop_ok d v (length (gap ++ x :: rest)) [] gap (x :: rest) Hd Hg ltac:(lia)) as E.
  cbn [app length] in E. change (Z.of_nat 0) with 0 in E. rewrite E. cbn [mbind option_bind].
  rewrite finish_digits by (rewrite length_reverse, length_dec; lia). rewrite length_reverse, length_dec, reverse_involutive. eauto.
Qed.

Lemma ndigits19 d v : ndigits d v -> v <= 2 ^ 63 -> (d <= 19)%nat.
Proof. intros Hd Hv. apply (ndigits_le d v); [done|cbn; lia|lia]. Qed.

Lemma sdsll2str_ok (b : bytes) v : in_s 64 v -> v <> LLONG_MIN -> 21 <= zlen b ->
  exists n rest, sdsll2str b v = Some (zlen n, n ++ 0 :: rest) /\ canonical n v.
Proof.
  intros Hv Hm Hb. unfold LLONG_MIN in *. assert (Ha : 0 <= Z.abs v < 2 ^ 64) by (unfold in_s in Hv; lia).
  destruct (digits10_ndigits (Z.abs v) Ha) as (d & _ & Hd & _). pose proof (ndigits19 d _ Hd ltac:(unfold in_s in Hv; lia)) as H19.
  unfold sdsll2str, LLONG_MIN.
  replace (if v <? 0 then _ else Some v) with (Some (Z.abs v)).
  2: { destruct (Z.ltb_spec v 0); [|f_equal; lia]. destruct (Z.eqb_spec v (-9223372036854775808)); [done|f_equal; lia]. }
  cbn [mbind option_bind]. destruct (split_buf b d) as (gap & x & rest & -> & Hg); [lia|].
  pose proof (digit_loop_ok d (Z.abs v) (length (gap ++ x :: rest)) [] gap (x :: rest) Hd Hg) as E.
  rewrite length_app in E. cbn [app length] in E. change (Z.of_nat 0) with 0 in E. rewrite length_app. cbn [length]. rewrite E by lia. cbn [mbind option_bind].
  assert (Hl : zlen (reverse (dec d (Z.abs v))) = Z.of_nat d) by (by rewrite length_reverse, length_dec).
  destruct (Z.ltb_spec v 0) as [Hneg|Hpos].
  - replace (0 + Z.of_nat d) with (zlen (reverse (dec d (Z.abs v)))) by lia. rewrite bset_app by done. cbn [mbind option_bind].
    destruct rest as [|y rest]; [rewrite length_app in Hb; cbn [length] in Hb; lia|].
    rewrite (app_assoc _ [45] (y :: rest) : _ ++ 45 :: y :: rest = _).
    rewrite finish_digits by (rewrite length_app; cbn [length]; lia). rewrite reverse_app, reverse_involutive. change (reverse [45]) with [45].
    exists ([45] ++ dec d (Z.abs v)), rest. split; [|split; [done|]].
    + rewrite !length_app, length_reverse. cbn [length]. do 2 f_equal. lia.
    + exists d. split; [done|]. unfold canon. replace (v <? 0) with true by lia. replace (Z.abs v) with (- v) by lia. done.
  - cbn [mbind option_bind]. rewrite finish_digits by lia. rewrite reverse_involutive, length_reverse.
    exists (dec d (Z.abs v)), rest. split; [done|]. split; [done|]. exists d. split; [done|]. unfold canon.
    replace (v <? 0) with false by lia. by replace (Z.abs v) with v by lia.
Qed.

(** ** Formats *)

Section text.
Context `{HH : Host, AA : SdsAlloc}.

(** A string under construction: [c], then a byte that need not be NUL. *)
Definition building (s : sds) (c : bytes) (A : Z) : Prop := exists t x rest, raw s t (zlen c) A (c ++ x :: rest) /\ t <> 0.

Lemma raw_inclen s t len A body d : raw s t len A body -> t <> 0 -> 0 <= d -> len + d <= A ->
  exists s', sdsinclen s d = Some s' /\ raw s' t (len + d) A body.
Proof.
  intros Hr Ht0 Hd HA. pose proof (r_hdr _ _ _ _ _ Hr) as Hh. pose proof (h_type _ _ _ _ _ Hh) as Ht.
  pose proof (h_A _ _ _ _ _ Hh) as HAm. pose proof (h_len _ _ _ _ _ Hh) as Hl.
  unfold sdsinclen. destruct (hdr_flags _ _ _ _ _ Hh) as (fl & -> & El & _). cbn [mbind option_bind].
  rewrite El, switch_fw by done. destruct (Z.eqb_spec t 0); [done|].
  rewrite (hdr_len_field _ _ _ _ _ Hh Ht0). cbn [mbind option_bind].
  rewrite (hdr_split _ _ _ _ _ Hh Ht0), fields_set_len by apply length_host_bytes.
  eexists. split; [done|]. destruct Hr as [Hhd Hlr Hrr]. split; [|lia..]. apply hdr_intro; try lia; try done. by destruct Hhd.
Qed.

Lemma building_avail s c A : building s c A -> sdsavail s = Some (A - zlen c) /\ zlen c <= A.
Proof.
  intros (t & x & rest & Hr & Ht). rewrite (raw_avail _ _ _ _ _ Hr). pose proof (r_len _ _ _ _ _ Hr). by destruct (Z.eqb_spec t 0).
Qed.

Lemma building_room s c A add : building s c A -> 0 < add -> zlen c + add < 2 ^ 62 ->
  exists s' A', sdsMakeRoomFor s add = Some s' /\ building s' c A' /\ zlen c + add <= A'.
Proof.
  intros (t & x & rest & Hr & Ht) Ha HB. destruct (makeroom_ok _ _ _ _ _ add Hr ltac:(lia) HB) as (s' & t' & A' & body' & E & Hr' & HA' & Htk & Ht').
  apply keep_prefix in Htk as [rest' ->]; [|done]. exists s', A'. split; [done|]. split; [|done]. exists t', x, rest'. split; [done|]. destruct Ht'; [lia|done].
Qed.

Lemma building_write s c A u : building s c A -> Forall byte_ok u -> zlen c + zlen u <= A ->
  exists s1 s2, swrite s (zlen c) u = Some s1 /\ sdsinclen s1 (zlen u) = Some s2 /\ building s2 (c ++ u) A.
Proof.
  intros (t & x & rest & Hr & Ht) Bu HA. pose proof (r_room _ _ _ _ _ Hr) as Hroom. rewrite length_app in Hroom. cbn [length] in Hroom.
  destruct (body_write c u x rest) as (y & rest' & Ew); [lia|].
  destruct (raw_write _ _ _ _ _ (zlen c) _ _ Hr ltac:(lia) Bu Ew) as (s1 & E1 & Hr1).
  destruct (raw_inclen _ _ _ _ _ (zlen u) Hr1 Ht) as (s2 & E2 & Hr2); [lia..|]. exists s1, s2. split; [done|]. split; [done|].
  exists t, y, rest'. rewrite <- app_assoc, length_app, Nat2Z.inj_add. done.
Qed.

Lemma fmt_append_ok s c A u : building s c A -> Forall byte_ok u -> zlen c + zlen u < 2 ^ 62 ->
  exists s' A', fmt_append s (zlen c) u = Some (s', zlen (c ++ u)) /\ building s' (c ++ u) A'.
Proof.
  intros Hb Bu HB. destruct (building_avail _ _ _ Hb) as [Ea HA]. unfold fmt_append. rewrite Ea. cbn [mbind option_bind].
  assert (H1 : exists s1 A1, (if A - zlen c <? zlen u then sdsMakeRoomFor s (zlen u) else Some s) = Some s1
    /\ building s1 c A1 /\ zlen c + zlen u <= A1).
  { destruct (Z.ltb_spec (A - zlen c) (zlen u)); [by apply building_room with (A := A); [|lia|]|]. exists s, A. split_and!; [done|done|lia]. }
  destruct H1 as (s1 & A1 & -> & Hb1 & HA1). cbn [mbind option_bind].
  destruct (building_write _ _ _ u Hb1 Bu HA1) as (s2 & s3 & -> & E3 & Hb3). cbn [mbind option_bind]. rewrite E3. cbn [mbind option_bind].
  exists s3, A1. split; [|done]. rewrite length_app, Nat2Z.inj_add. done.
Qed.

Lemma fmt_char_ok s c A x : building s c A -> byte_ok x -> zlen c + 1 <= A ->
  exists s', fmt_char s (zlen c) x = Some (s', zlen (c ++ [x])) /\ building s' (c ++ [x]) A.
Proof.
  intros Hb Bx HA. unfold fmt_char, sput. destruct (building_write _ _ _ [x] Hb) as (s1 & s2 & -> & E2 & Hb2); [by constructor|cbn; lia|].
  cbn [mbind option_bind length] in *. change (Z.of_nat 1) with 1 in E2. rewrite E2. cbn [mbind option_bind].
  exists s2. split; [|done]. rewrite length_app, Nat2Z.inj_add. done.
Qed.

(** The arguments as values, and the text a specifier stands for. *)
Inductive farg := AStr (t : bytes) | ASds (t : bytes) | ANum (v : Z) | AUnum (v : Z).

Inductive arg_rep : fmt_arg -> farg -> Prop :=
  | arg_str t : Forall byte_ok t -> arg_rep (ArgStr t) (AStr t)
  | arg_sds s t : sds_rep s t -> arg_rep (ArgSds s) (ASds t)
  | arg_num v : in_s 64 v -> v <> LLONG_MIN -> arg_rep (ArgNum v) (ANum v)
  | arg_unum v : in_u 64 v -> arg_rep (ArgUnum v) (AUnum v).

Definition numeral (v : Z) : bytes := canon (Z.to_nat (default 0 (digits10 (Z.abs v)))) v.

Definition spec_text (next : Z) (ap : list farg) : option (bytes * list farg) :=
  if next =? 115 then match ap with AStr t :: ap => Some (t, ap) | _ => None end
  else if next =? 83 then match ap with ASds t :: ap => Some (t, ap) | _ => None end
  else if (next =? 105) || (next =? 73) then match ap with ANum v :: ap => Some (numeral v, ap) | _ => None end
  else if (next =? 117) || (next =? 85) then match ap with AUnum v :: ap => Some (numeral v, ap) | _ => None end
  else Some ([next], ap).

(** The expansion of a format; none for a format that ends in [%] or does not
    match its arguments. *)
Fixpoint fmt_text (f : bytes) (ap : list farg) : option bytes :=
  match f with
  | [] => Some []
  | c :: f =>
    if c =? 37 then
      match f with
      | [] => None
      | next :: f => match spec_text next ap with Some (t, ap) => r ← fmt_text f ap; Some (t ++ r) | None => None end
      end
    else r ← fmt_text f ap; Some (c :: r)
  end.

Lemma numeral_digits d v : 0 <= Z.abs v < 2 ^ 64 -> ndigits d (Z.abs v) -> numeral v = canon d v.
Proof.
  intros Hv Hd. unfold numeral. destruct (digits10_ndigits (Z.abs v) Hv) as (d' & -> & Hd' & _).
  change (default 0 (Some (Z.of_nat d'))) with (Z.of_nat d'). by rewrite Nat2Z.id, (ndigits_unique _ _ _ Hd' Hd).
Qed.

Lemma canon_bytes d v : Forall byte_ok (canon d v).
Proof.
  assert (Hd : forall w, Forall byte_ok (dec d w)).
  { intros w. eapply Forall_impl; [apply dec_isdig|]. unfold isdig, byte_ok. lia. }
  unfold canon. destruct (v <? 0); [|done]. constructor; [unfold byte_ok; lia|done].
Qed.

Lemma llstr_num v : in_s 64 v -> v <> LLONG_MIN ->
  exists rest, sdsll2str (zmalloc SDS_LLSTR_SIZE) v = Some (zlen (numeral v), numeral v ++ 0 :: rest).
Proof.
  intros Hv Hm. destruct (sdsll2str_ok (zmalloc SDS_LLSTR_SIZE) v Hv Hm) as (n & rest & E & _ & d & Hd & ->).
  { rewrite zmalloc_length; unfold SDS_LLSTR_SIZE; lia. }
  rewrite (numeral_digits d v); [eauto|unfold in_s in Hv; lia|done].
Qed.

Lemma llstr_unum v : in_u 64 v ->
  exists rest, sdsull2str (zmalloc SDS_LLSTR_SIZE) v = Some (zlen (numeral v), numeral v ++ 0 :: rest).
Proof.
  intros Hv. unfold in_u in Hv. destruct (digits10_ndigits v Hv) as (d & _ & Hd & Hd20).
  destruct (sdsull2str_ok (zmalloc SDS_LLSTR_SIZE) v d Hv Hd) as (rest & E).
  { pose proof (zmalloc_length SDS_LLSTR_SIZE ltac:(unfold SDS_LLSTR_SIZE; lia)). unfold SDS_LLSTR_SIZE in *. lia. }
  exists rest. rewrite E. rewrite (numeral_digits d v) by (replace (Z.abs v) with v by lia; done). unfold canon.
  replace (v <? 0) with false by lia. by rewrite length_dec.
Qed.

Lemma fmt_spec_ok s c A next ap aps t aps' : building s c A -> zlen c + 1 <= A -> byte_ok next ->
  Forall2 arg_rep ap aps -> spec_text next aps = Some (t, aps') -> zlen c + zlen t < 2 ^ 62 ->
  exists s' A' ap', fmt_spec s (zlen c) next ap = Some (s', zlen (c ++ t), ap') /\ building s' (c ++ t) A' /\ Forall2 arg_rep ap' aps'.
Proof.
  intros Hb HA Bn Hap Et HB. unfold spec_text in Et. unfold fmt_spec.
  destruct (Z.eqb_spec next 115) as [->|H1].
  { destruct Hap as [|a fa ap aps Ha Hap]; [done|]. destruct fa; try done. injection Et as -> ->. inversion Ha; subst. cbn [orb Z.eqb].
    destruct (fmt_append_ok s c A t Hb) as (s' & A' & E & Hb'); [done|lia|]. cbn [Z.eqb Pos.eqb]. rewrite E. cbn [mbind option_bind]. by exists s', A', ap. }
  destruct (Z.eqb_spec next 83) as [->|H2].
  { destruct Hap as [|a fa ap aps Ha Hap]; [done|]. destruct fa; try done. injection Et as -> ->. inversion Ha as [|sa ta Hs| |]; subst.
    cbn [orb Z.eqb Pos.eqb]. rewrite (rep_len _ _ Hs). cbn [mbind option_bind]. rewrite (rep_slice _ _ Hs). cbn [mbind option_bind].
    destruct (fmt_append_ok s c A t Hb) as (s' & A' & E & Hb'); [by eapply rep_bytes|lia|]. rewrite E. cbn [mbind option_bind]. by exists s', A', ap. }
  cbn [orb]. destruct ((next =? 105) || (next =? 73)).
  { destruct Hap as [|a fa ap aps Ha Hap]; [done|]. destruct fa as [| |v|]; try done. injection Et as <- <-. inversion Ha; subst.
    destruct (llstr_num v) as (rest & ->); [done..|]. cbn [mbind option_bind]. rewrite bslice_head by done. cbn [mbind option_bind].
    destruct (fmt_append_ok s c A (numeral v) Hb) as (s' & A' & E & Hb'); [apply canon_bytes|lia|]. rewrite E. cbn [mbind option_bind]. by exists s', A', ap. }
  destruct ((next =? 117) || (next =? 85)).
  { destruct Hap as [|a fa ap aps Ha Hap]; [done|]. destruct fa as [| | |v]; try done. injection Et as <- <-. inversion Ha; subst.
    destruct (llstr_unum v) as (rest & ->); [done..|]. cbn [mbind option_bind]. rewrite bslice_head by done. cbn [mbind option_bind].
    destruct (fmt_append_ok s c A (numeral v) Hb) as (s' & A' & E & Hb'); [apply canon_bytes|lia|]. rewrite E. cbn [mbind option_bind]. by exists s', A', ap. }
  injection Et as <- <-. destruct (fmt_char_ok s c A next Hb Bn HA) as (s' & E & Hb'). rewrite E. cbn [mbind option_bind]. by exists s', A, ap.
Qed.

Lemma fmt_loop_ok : forall fuel f s c A ap aps text, building s c A -> Forall byte_ok f -> 0 ∉ f -> Forall2 arg_rep ap aps ->
  fmt_text f aps = Some text -> zlen c + zlen text + 1 < 2 ^ 62 -> (length f < fuel)%nat ->
  exists s' A', fmt_loop fuel s (f ++ [0]) (zlen c) ap = Some (s', zlen (c ++ text)) /\ building s' (c ++ text) A'.
Proof.
  induction fuel as [|fuel IH]; intros f s c A ap aps text Hb Bf Hn Hap Et HB Hf; [lia|].
  destruct f as [|x f]; cbn [app fmt_loop fmt_text] in *.
  { injection Et as <-. cbn [Z.eqb]. rewrite app_nil_r. by exists s, A. }
  apply not_elem_of_cons in Hn as [Hx Hn]. apply Forall_cons in Bf as [Bx Bf]. replace (x =? 0) with false by lia.
  destruct (building_avail _ _ _ Hb) as [Ea HA]. rewrite Ea. cbn [mbind option_bind].
  assert (H1 : exists s1 A1, (if A - zlen c =? 0 then sdsMakeRoomFor s 1 else Some s) = Some s1 /\ building s1 c A1 /\ zlen c + 1 <= A1).
  { destruct (Z.eqb_spec (A - zlen c) 0); [by apply building_room with (A := A); [|lia|lia]|]. exists s, A. split_and!; [done|done|lia]. }
  destruct H1 as (s1 & A1 & -> & Hb1 & HA1). cbn [mbind option_bind].
  destruct (Z.eqb_spec x 37) as [->|H37].
  - destruct f as [|next f]; [done|]. cbn [app]. apply not_elem_of_cons in Hn as [_ Hn]. apply Forall_cons in Bf as [Bn Bf].
    destruct (spec_text next aps) as [[t aps']|] eqn:Es; [|done]. destruct (fmt_text f aps') as [r|] eqn:Er; [|done]. cbn [mbind option_bind] in Et.
    injection Et as <-. rewrite length_app in HB.
    destruct (fmt_spec_ok s1 c A1 next ap aps t aps' Hb1 HA1 Bn Hap Es) as (s2 & A2 & ap2 & -> & Hb2 & Hap2); [lia|]. cbn [mbind option_bind].
    destruct (IH f s2 (c ++ t) A2 ap2 aps' r Hb2 Bf Hn Hap2 Er) as (s' & A' & E & Hb'); [rewrite length_app; lia|cbn [length] in Hf; lia|].
    rewrite <- app_assoc in E, Hb'. by exists s', A'.
  - destruct (fmt_text f aps) as [r|] eqn:Er; [|done]. cbn [mbind option_bind] in Et. injection Et as <-. cbn [length] in HB, Hf.
    destruct (fmt_char_ok s1 c A1 x Hb1 Bx HA1) as (s2 & -> & Hb2). cbn [mbind option_bind].
    destruct (IH f s2 (c ++ [x]) A1 ap aps r Hb2 Bf Hn Hap Er) as (s' & A' & E & Hb'); [rewrite length_app; cbn [length]; lia|lia|].
    rewrite <- app_assoc in E, Hb'. by exists s', A'.
Qed.

(** [sdscatfmt] appends to any valid string the expansion of the format:
    strings, sds strings and the canonical decimal numerals of 64-bit integers
    in place of the specifiers, growing the string as it goes and never writing
    outside the allocation, for every well-formed format with arguments of the
    right types. *)
Theorem sdscatfmt_spec s c fmt ap aps text : sds_rep s c -> Forall byte_ok fmt -> 0 ∉ fmt -> Forall2 arg_rep ap aps ->
  fmt_text fmt aps = Some text -> zlen c + 2 * zlen fmt + zlen text < 2 ^ 61 ->
  exists s', sdscatfmt s fmt ap = Some s' /\ sds_rep s' (c ++ text).
Proof.
  intros Hs Bf Hn Hap Et HB. unfold sdscatfmt. rewrite (rep_len _ _ Hs). cbn [mbind option_bind]. rewrite uwrap_small by (unfold in_u; lia).
  destruct (rep_makeroom s c (zlen fmt * 2) Hs) as (s1 & t & A & rest & -> & Hr & HA & Ht); [lia..|]. cbn [mbind option_bind].
  destruct fmt as [|x f].
  { injection Et as <-. cbn [length app fmt_loop Z.eqb mbind option_bind]. rewrite app_nil_r. by apply (raw_terminate _ _ _ _ _ _ _ Hr). }
  destruct Ht as [Ht|Ht]; [cbn [length] in Ht; lia|].
  destruct (fmt_loop_ok (S (length (x :: f))) (x :: f) s1 c A ap aps text) as (s2 & A2 & -> & (t2 & y & r2 & Hr2 & _)); try done; [by exists t, 0, rest|lia|lia|].
  cbn [mbind option_bind]. by apply (raw_terminate _ _ _ _ _ _ _ Hr2).
Qed.

(** ** Quoting *)

Lemma sdscatprintf_ok s c fmt out : sds_rep s c -> Forall byte_ok out -> zlen out <= INT32_MAX -> zlen fmt < 2 ^ 62 ->
  zlen c + zlen out < 2 ^ 62 -> exists s', sdscatprintf s fmt out = Some (Some s') /\ sds_rep s' (c ++ out).
Proof.
  intros Hs Bo HI Hf HB. unfold sdscatprintf, sdscatvprintf. rewrite uwrap_small by (unfold in_u; lia).
  set (buflen := if _ >? 1024 then _ else 1024). assert (Hbl : 1024 <= buflen) by (unfold buflen; destruct (Z.gtb_spec (zlen fmt * 2) 1024); lia).
  assert (E : vprintf_loop 2 buflen out = Some (Some out)).
  { cbn [vprintf_loop vsnprintf]. replace (_ <=? INT32_MAX) with true by lia. replace (_ <? 0) with false by lia.
    destruct (Z.lt_ge_cases (zlen out) buflen).
    { replace (_ >=? buflen) with false by lia. rewrite take_ge by lia. by rewrite bslice_head by done. }
    replace (_ >=? buflen) with true by lia. replace (_ >=? _) with false by lia.
    rewrite take_ge by lia. by rewrite bslice_head by done. }
  rewrite E. cbn [mbind option_bind]. destruct (sdscatlen_ok s c out Hs Bo HB) as (s' & -> & Hs'). eauto.
Qed.

(** The representation of one byte, and of a string. *)
Definition repr1 (c : Z) : bytes :=
  if (c =? 92) || (c =? 34) then [92; c]
  else if c =? 10 then [92; 110]
  else if c =? 13 then [92; 114]
  else if c =? 9 then [92; 116]
  else if c =? 7 then [92; 97]
  else if c =? 8 then [92; 98]
  else if isprint c then [c]
  else 92 :: 120 :: hex02 c.

Definition repr_body (p : bytes) : bytes := concat (repr1 <$> p).
Definition repr_text (p : bytes) : bytes := 34 :: repr_body p ++ [34].

(** A property of the sixteen hexadecimal digits, by enumeration. *)
Lemma hex_digits (P : Z -> bool) : forallb P [0;1;2;3;4;5;6;7;8;9;10;11;12;13;14;15] = true -> forall d, 0 <= d < 16 -> P d = true.
Proof.
  intros H d Hd. rewrite forallb_forall in H. apply H. cbn. lia.
Qed.

Lemma hexdigit_ok d : 0 <= d < 16 ->
  is_hex_digit (hexdigit d) = true /\ hex_digit_to_int (hexdigit d) = d /\ 48 <= hexdigit d <= 102.
Proof.
  intros Hd.
  pose proof (hex_digits (fun d => is_hex_digit (hexdigit d) && (hex_digit_to_int (hexdigit d) =? d) && (48 <=? hexdigit d) && (hexdigit d <=? 102)) eq_refl d Hd) as E.
  cbn beta in E. bool_hyps. split; [done|lia].
Qed.

Lemma hex_range c : byte_ok c -> 0 <= c / 16 < 16 /\ 0 <= c mod 16 < 16.
Proof. unfold byte_ok. intros. split; [split; [apply Z.div_pos; lia|apply Z.div_lt_upper_bound; lia]|apply Z.mod_pos_bound; lia]. Qed.

Lemma repr1_ok c : byte_ok c -> Forall byte_ok (repr1 c) /\ (length (repr1 c) <= 4)%nat.
Proof.
  intros Hc. unfold byte_ok in Hc. assert (B : forall x, 0 <= x < 256 -> byte_ok x) by done.
  unfold repr1. repeat match goal with |- context [if ?b then _ else _] => destruct b eqn:?E end;
    (split; [|cbn; lia]); repeat (apply Forall_cons; split; [apply B; lia|]); try apply Forall_nil_2.
  destruct (hex_range c Hc) as [H1 H2]. destruct (hexdigit_ok _ H1) as (_ & _ & ?), (hexdigit_ok _ H2) as (_ & _ & ?).
  unfold hex02. repeat (apply Forall_cons; split; [apply B; lia|]). apply Forall_nil_2.
Qed.

Lemma repr_char_ok s c x : sds_rep s c -> byte_ok x -> zlen c + 4 < 2 ^ 62 ->
  exists s', repr_char s x = Some s' /\ sds_rep s' (c ++ repr1 x).
Proof.
  intros Hs Bx HB. destruct (repr1_ok x Bx) as [Br Hl]. unfold repr_char, repr1 in *.
  assert (Hp : forall fmt out, Forall byte_ok out -> (length out <= 4)%nat -> zlen fmt < 2 ^ 62 ->
    exists s', nonnull (sdscatprintf s fmt out) = Some s' /\ sds_rep s' (c ++ out)).
  { intros fmt out Bo Ho Hf. destruct (sdscatprintf_ok s c fmt out) as (s' & -> & Hs'); [done|done|unfold INT32_MAX; lia|done|lia|]. by exists s'. }
  repeat match goal with |- context [if ?b then _ else _] => destruct b end;
    first [apply Hp; [done|done|cbn; lia]|apply sdscatlen_ok; [done|done|lia]].
Qed.

Lemma length_repr_body p : Forall byte_ok p -> zlen (repr_body p) <= 4 * zlen p.
Proof.
  induction 1 as [|x p Bx Hp IH]; [done|]. unfold repr_body in *. rewrite fmap_cons. cbn [concat length]. rewrite length_app.
  destruct (repr1_ok x Bx) as [_ ?]. lia.
Qed.

Lemma repr_loop_ok p : forall s c, sds_rep s c -> Forall byte_ok p -> zlen c + 4 * zlen p + 1 < 2 ^ 62 ->
  exists s', repr_loop s p = Some s' /\ sds_rep s' (c ++ repr_body p).
Proof.
  induction p as [|x p IH]; intros s c Hs Bp HB; [exists s; by rewrite app_nil_r|]. apply Forall_cons in Bp as [Bx Bp]. cbn [length] in HB.
  cbn [repr_loop]. destruct (repr_char_ok s c x Hs Bx) as (s1 & -> & Hs1); [lia|]. cbn [mbind option_bind].
  destruct (repr1_ok x Bx) as [_ Hl]. destruct (IH s1 (c ++ repr1 x) Hs1 Bp) as (s' & E & Hs'); [rewrite length_app; lia|].
  exists s'. split; [done|]. unfold repr_body in *. rewrite fmap_cons. cbn [concat]. by rewrite app_assoc.
Qed.

Lemma sdscatrepr_ok s c p : sds_rep s c -> Forall byte_ok p -> zlen c + 4 * zlen p + 3 < 2 ^ 62 ->
  exists s', sdscatrepr s p = Some s' /\ sds_rep s' (c ++ repr_text p).
Proof.
  intros Hs Bp HB. assert (B34 : Forall byte_ok [34]) by (constructor; [unfold byte_ok; lia|constructor]).
  unfold sdscatrepr. destruct (sdscatlen_ok s c [34] Hs B34) as (s1 & -> & Hs1); [cbn; lia|]. cbn [mbind option_bind].
  destruct (repr_loop_ok p s1 (c ++ [34]) Hs1 Bp) as (s2 & -> & Hs2); [rewrite length_app; cbn [length]; lia|]. cbn [mbind option_bind].
  pose proof (length_repr_body p Bp).
  destruct (sdscatlen_ok s2 _ [34] Hs2 B34) as (s3 & -> & Hs3); [rewrite !length_app; cbn [length]; lia|].
  exists s3. split; [done|]. unfold repr_text. by rewrite <- !app_assoc in Hs3.
Qed.

(** One byte of a quoted string is read back. *)
Lemma token_byte cur c x tail : sds_rep cur c -> byte_ok x -> zlen c + 1 < 2 ^ 62 ->
  exists p' cur', token_iter Inq (repr1 x ++ tail) cur = Some (TGo Inq p' cur') /\ advance p' = Some tail /\ sds_rep cur' (c ++ [x]).
Proof.
  intros Hs Bx HB. destruct (sdscatlen_ok cur c [x] Hs) as (cur' & Ec & Hs'); [by constructor|done|].
  unfold byte_ok in Bx. unfold repr1.
  destruct ((x =? 92) || (x =? 34)) eqn:E1.
  { exists (x :: tail), cur'. split; [|split; [|done]].
    - unfold token_iter, hex_escape. cbn [app lookup list_lookup mbind option_bind Z.eqb Pos.eqb negb drop].
      replace (x =? 120) with false by lia. cbn [negb mbind option_bind andb]. replace (x =? 0) with false by lia. cbn [negb andb].
      replace (unescape x) with x by (unfold unescape; repeat case_if_lia; done). by rewrite Ec.
    - unfold advance. cbn. by replace (x =? 0) with false by lia. }
  assert (Hesc : forall k, k <> 120 -> k <> 0 -> unescape k = x ->
     exists p' cur', token_iter Inq ([92; k] ++ tail) cur = Some (TGo Inq p' cur') /\ advance p' = Some tail /\ sds_rep cur' (c ++ [x])).
  { intros k Hk Hk0 Hu. exists (k :: tail), cur'. split; [|split; [|done]].
    - unfold token_iter, hex_escape. cbn [app lookup list_lookup mbind option_bind Z.eqb Pos.eqb negb drop].
      replace (k =? 120) with false by lia. cbn [negb mbind option_bind andb]. replace (k =? 0) with false by lia. cbn [negb andb].
      rewrite Hu. by rewrite Ec.
    - unfold advance. cbn. by replace (k =? 0) with false by lia. }
  destruct (Z.eqb_spec x 10) as [->|N10]; [by apply (Hesc 110)|].
  destruct (Z.eqb_spec x 13) as [->|N13]; [by apply (Hesc 114)|].
  destruct (Z.eqb_spec x 9) as [->|N9]; [by apply (Hesc 116)|].
  destruct (Z.eqb_spec x 7) as [->|N7]; [by apply (Hesc 97)|].
  destruct (Z.eqb_spec x 8) as [->|N8]; [by apply (Hesc 98)|].
  destruct (isprint x) eqn:Ep; unfold isprint in Ep.
  - exists (x :: tail), cur'. split; [|split; [|done]].
    + unfold token_iter, hex_escape. cbn [app lookup list_lookup mbind option_bind].
      replace (x =? 92) with false by lia. cbn [negb mbind option_bind andb].
      replace (x =? 34) with false by lia. replace (x =? 0) with false by lia. by rewrite Ec.
    + unfold advance. cbn. by replace (x =? 0) with false by lia.
  - destruct (hex_range x Bx) as [H1 H2]. destruct (hexdigit_ok _ H1) as (X1 & V1 & R1), (hexdigit_ok _ H2) as (X2 & V2 & R2).
    exists (hexdigit (x mod 16) :: tail), cur'. split; [|split; [|done]].
    + unfold token_iter, hex_escape, hex02. cbn [app lookup list_lookup mbind option_bind Z.eqb Pos.eqb negb drop].
      rewrite X1, X2. cbn [negb mbind option_bind]. rewrite V1, V2.
      replace (x / 16 * 16 + x mod 16) with x by (pose proof (Z.div_mod x 16 ltac:(lia)); lia).
      rewrite uwrap_small by (unfold in_u; lia). by rewrite Ec.
    + unfold advance. cbn [lookup list_lookup mbind option_bind drop]. by replace (_ =? 0) with false by lia.
Qed.

Lemma repr1_nonempty x : (1 <= length (repr1 x))%nat.
Proof. unfold repr1. repeat match goal with |- context [if ?b then _ else _] => destruct b end; cbn; lia. Qed.

(** What may follow a closing quote. *)
Definition ends_token (q : bytes) : Prop := match q with y :: _ => y = 0 \/ isspace y = true | [] => False end.

Lemma token_quoted p : forall fuel cur c q, sds_rep cur c -> Forall byte_ok p -> zlen c + zlen p + 1 < 2 ^ 62 -> ends_token q ->
  (length (repr_body p) < fuel)%nat ->
  exists cur', token_loop fuel Inq (repr_body p ++ 34 :: q) cur = Some (inr (q, cur')) /\ sds_rep cur' (c ++ p).
Proof.
  induction p as [|x p IH]; intros fuel cur c q Hs Bp HB Hq Hf; (destruct fuel as [|fuel]; [lia|]).
  - destruct q as [|y q]; [done|]. exists cur. rewrite app_nil_r. split; [|done]. cbn in Hq. cbn [token_loop].
    unfold token_iter, hex_escape, repr_body, close_quote. cbn [fmap list_fmap concat app lookup list_lookup mbind option_bind Z.eqb Pos.eqb negb andb].
    replace ((y =? 0) || isspace y) with true by (destruct Hq as [->| ->]; [done|by rewrite orb_true_r]). done.
  - apply Forall_cons in Bp as [Bx Bp]. unfold repr_body in *. rewrite fmap_cons in *. cbn [concat] in *. rewrite <- app_assoc. rewrite length_app in Hf.
    cbn [length] in HB. pose proof (repr1_nonempty x).
    destruct (token_byte cur c x (concat (repr1 <$> p) ++ 34 :: q) Hs Bx) as (p' & cur1 & E & Ea & Hs1); [lia|].
    cbn [token_loop]. rewrite E. cbn [mbind option_bind]. rewrite Ea. cbn [mbind option_bind].
    destruct (IH fuel cur1 (c ++ [x]) q Hs1 Bp) as (cur' & E' & Hs'); [rewrite length_app; cbn [length]; lia|done|lia|].
    exists cur'. split; [done|]. by rewrite <- app_assoc in Hs'.
Qed.

(** A quoted string, from its first quote. *)
Lemma token_text p cur q : sds_rep cur [] -> Forall byte_ok p -> zlen p + 1 < 2 ^ 62 -> ends_token q ->
  exists cur', token_loop (S (length (repr_text p ++ q))) Unquoted (repr_text p ++ q) cur = Some (inr (q, cur')) /\ sds_rep cur' p.
Proof.
  intros Hs Bp HB Hq. unfold repr_text. cbn [app]. rewrite <- app_assoc. cbn [app].
  destruct (token_quoted p (length (34 :: repr_body p ++ 34 :: q)) cur [] q Hs Bp) as (cur' & E & Hs'); [cbn; lia|done|cbn [length]; rewrite length_app; lia|].
  exists cur'. split; [|done]. exact E.
Qed.

(** Quoted strings separated by spaces. *)
Fixpoint args_line (ps : list bytes) : bytes :=
  match ps with
  | [] => []
  | [p] => repr_text p
  | p :: ps => repr_text p ++ 32 :: args_line ps
  end.

Lemma skip_blanks_text p q : skip_blanks (repr_text p ++ q) = Some (repr_text p ++ q).
Proof. done. Qed.

Lemma skip_blanks_line ps : skip_blanks (args_line ps ++ [0]) = Some (args_line ps ++ [0]).
Proof. by destruct ps as [|p [|? ?]]. Qed.

Lemma splitargs_loop_ok ps : forall fuel P vector, skip_blanks P = Some (args_line ps ++ [0]) -> Forall (Forall byte_ok) ps ->
  Forall (fun p => zlen p + 1 < 2 ^ 62) ps -> (length ps < fuel)%nat -> zlen vector + zlen ps <= INT32_MAX ->
  exists toks, splitargs_loop fuel P vector = Some (Some (vector ++ toks)) /\ Forall2 sds_rep toks ps.
Proof.
  induction ps as [|p ps IH]; intros fuel P vector HP Bps Hps Hf HI; (destruct fuel as [|fuel]; [cbn in Hf; lia|]);
    cbn [splitargs_loop]; rewrite HP; cbn [mbind option_bind].
  - exists []. cbn. by rewrite app_nil_r.
  - apply Forall_cons in Bps as [Bp Bps]. apply Forall_cons in Hps as [Hp Hps]. cbn [length] in Hf.
    set (q := match ps with [] => [0] | _ => 32 :: args_line ps ++ [0] end).
    assert (El : args_line (p :: ps) ++ [0] = repr_text p ++ q).
    { unfold q. cbn [args_line]. destruct ps; [done|]. by rewrite <- app_assoc. }
    assert (Hq : ends_token q) by (unfold q; destruct ps; cbn; auto).
    assert (Hskip : skip_blanks q = Some (args_line ps ++ [0])) by (unfold q; destruct ps as [|p' ps']; [done|]; exact (skip_blanks_line (p' :: ps'))).
    rewrite El. replace ((repr_text p ++ q) !! 0%nat) with (Some 34) by done. cbn [mbind option_bind Z.eqb negb].
    destruct sdsempty_ok as (cur & -> & Hcur). cbn [mbind option_bind].
    destruct (token_text p cur q Hcur Bp Hp Hq) as (cur' & -> & Hs'). cbn [mbind option_bind]. cbn [length] in HI.
    rewrite (proj2 (Z.ltb_lt _ _)) by lia.
    destruct (IH fuel q (vector ++ [cur']) Hskip Bps Hps) as (toks & E & Ht); [lia|rewrite length_app; cbn [length]; lia|]. exists (cur' :: toks).
    rewrite E. rewrite <- app_assoc. split; [done|]. by constructor.
Qed.

Lemma args_line_length ps : (length ps <= length (args_line ps))%nat.
Proof.
  induction ps as [|p ps IH]; [done|]. cbn [args_line]. destruct ps; [cbn; lia|]. rewrite length_app. cbn [length] in *. lia.
Qed.

(** A command line built with [sdscatrepr], as the replication and the logging
    code do. *)
Fixpoint quote_args (s : sds) (ps : list bytes) : option sds :=
  match ps with
  | [] => Some s
  | [p] => sdscatrepr s p
  | p :: ps => s ← sdscatrepr s p; s ← sdscatlen s [32]; quote_args s ps
  end.

Definition total (ps : list bytes) : Z := foldr (fun p n => 4 * zlen p + 4 + n) 0 ps.

Lemma total_nonneg ps : 0 <= total ps.
Proof. induction ps as [|p ps IH]; [done|]. cbn [total foldr]. fold (total ps). lia. Qed.

Lemma quote_args_ok ps : forall s c, sds_rep s c -> Forall (Forall byte_ok) ps -> zlen c + total ps < 2 ^ 62 ->
  exists s', quote_args s ps = Some s' /\ sds_rep s' (c ++ args_line ps).
Proof.
  induction ps as [|p ps IH]; intros s c Hs Bps HB; [exists s; by rewrite app_nil_r|].
  apply Forall_cons in Bps as [Bp Bps]. cbn [total foldr] in HB. fold (total ps) in HB. pose proof (total_nonneg ps).
  destruct (sdscatrepr_ok s c p Hs Bp) as (s1 & E1 & Hs1); [lia|]. cbn [quote_args args_line].
  destruct ps as [|p' ps']; [eauto|]. rewrite E1. cbn [mbind option_bind]. pose proof (length_repr_body p Bp) as Hl.
  assert (Hl1 : zlen (c ++ repr_text p) <= zlen c + 4 * zlen p + 2) by (unfold repr_text; rewrite length_app; cbn [length]; rewrite length_app; cbn [length]; lia).
  destruct (sdscatlen_ok s1 _ [32] Hs1) as (s2 & -> & Hs2); [constructor; [unfold byte_ok; lia|constructor]|cbn [length]; lia|].
  cbn [mbind option_bind]. destruct (IH s2 _ Hs2 Bps) as (s' & E' & Hs'); [rewrite length_app; cbn [length]; lia|].
  exists s'. split; [done|]. by rewrite <- !app_assoc in Hs'.
Qed.

(** C36: [sdssplitargs] reads back what [sdscatrepr] writes: a line of arbitrary
    binary strings, each quoted by [sdscatrepr] and separated by spaces, splits
    into exactly these strings; their number is an [int]. *)
Theorem splitargs_inverts_catrepr ps : Forall (Forall byte_ok) ps -> total ps < 2 ^ 62 -> zlen ps <= INT32_MAX ->
  exists s line toks, (s ← sdsempty; quote_args s ps) = Some s /\ sds_rep s line
    /\ sdssplitargs line = Some (Some toks) /\ Forall2 sds_rep toks ps.
Proof.
  intros Bps HB HI. destruct sdsempty_ok as (s0 & -> & Hs0). cbn [mbind option_bind].
  destruct (quote_args_ok ps s0 [] Hs0 Bps) as (s & E & Hs); [cbn; lia|].
  destruct (splitargs_loop_ok ps (S (length (args_line ps))) (args_line ps ++ [0]) []) as (toks & E' & Ht).
  - apply skip_blanks_line.
  - done.
  - clear -HB. induction ps as [|p ps IH]; [constructor|]. cbn [total foldr] in HB. fold (total ps) in HB. pose proof (total_nonneg ps).
    constructor; [lia|apply IH; lia].
  - pose proof (args_line_length ps). lia.
  - done.
  - exists s, (args_line ps), toks. done.
Qed.

(** ** Splitting and joining *)

Fixpoint join_bytes (sep : bytes) (ts : list bytes) : bytes :=
  match ts with [] => [] | [t] => t | t :: ts => t ++ sep ++ join_bytes sep ts end.

Lemma join_cons sep t t' ts : join_bytes sep (t :: t' :: ts) = t ++ sep ++ join_bytes sep (t' :: ts).
Proof. done. Qed.

Lemma join_last sep ts lst : exists pre, join_bytes sep (ts ++ [lst]) = pre ++ lst.
Proof.
  induction ts as [|t ts [pre IH]]; [by exists []|]. exists (t ++ sep ++ pre). cbn [app].
  destruct (ts ++ [lst]) as [|t' ts'] eqn:E; [by destruct ts|]. by rewrite join_cons, IH, <- !app_assoc.
Qed.

(** [t] does not contain [sep]. *)
Definition free_of (sep t : bytes) : Prop := forall u v, t <> u ++ sep ++ v.

(** No occurrence of [sep] in [cur ++ rest] starts in [cur]. *)
Definition scanned (sep cur rest : bytes) : Prop := forall u v, cur ++ rest = u ++ sep ++ v -> (length cur <= length u)%nat.

Lemma scanned_free sep cur rest : scanned sep cur rest -> (1 <= length sep)%nat -> free_of sep cur.
Proof.
  intros Hs Hsep u v ->. specialize (Hs u (v ++ rest)). rewrite <- !app_assoc in Hs. specialize (Hs eq_refl). rewrite !length_app in Hs. lia.
Qed.

Lemma scanned_step sep cur x rest : scanned sep cur (x :: rest) -> take (length sep) (x :: rest) <> sep -> scanned sep (cur ++ [x]) rest.
Proof.
  intros Hs Hne u v E. rewrite <- app_assoc in E. cbn [app] in E. specialize (Hs u v E). rewrite length_app. cbn [length].
  destruct (decide (length u = length cur)) as [Hl|]; [|lia]. exfalso. apply app_inj_1 in E as [-> E]; [|done].
  apply Hne. rewrite E. apply take_app_length.
Qed.

Lemma more_slots_ok slots elements : 0 <= elements < 2 ^ 29 -> slots <= Z.max 5 (2 * (elements + 1)) ->
  exists slots', more_slots slots elements = Some slots' /\ slots' <= Z.max 5 (2 * (elements + 1)).
Proof.
  intros He Hs. unfold more_slots, INT32_MAX. destruct (Z.ltb_spec slots (elements + 2)); [|eauto].
  rewrite (proj2 (Z.leb_le _ _)) by lia. eexists. split; [done|lia].
Qed.

Lemma splitlen_loop_ok (sep : bytes) (Hsep : (1 <= length sep)%nat) : forall fuel pre cur rest slots elements,
  (length rest <= fuel)%nat -> scanned sep cur rest -> Forall byte_ok (pre ++ cur ++ rest) -> zlen (pre ++ cur ++ rest) < 2 ^ 29 ->
  0 <= elements <= zlen pre -> slots <= Z.max 5 (2 * (elements + 1)) ->
  exists toks ts lst,
    splitlen_loop fuel (pre ++ cur ++ rest) (zlen (pre ++ cur ++ rest)) sep slots elements (zlen pre) (zlen pre + zlen cur)
      = Some (toks, zlen (pre ++ cur ++ rest) - zlen lst)
    /\ Forall2 sds_rep toks ts /\ cur ++ rest = join_bytes sep (ts ++ [lst]) /\ Forall (free_of sep) (ts ++ [lst]).
Proof.
  induction fuel as [|fuel IH]; intros pre cur rest slots elements Hf Hsc Bs HB He Hsl.
  all: assert (Hend : zlen rest < zlen sep -> exists toks ts lst,
      Some ([] : list sds, zlen pre) = Some (toks, zlen (pre ++ cur ++ rest) - zlen lst)
      /\ Forall2 sds_rep toks ts /\ cur ++ rest = join_bytes sep (ts ++ [lst]) /\ Forall (free_of sep) (ts ++ [lst])) by
    (intros Hlt; exists [], [], (cur ++ rest); split; [do 2 f_equal; rewrite !length_app; lia|]; split; [constructor|]; split; [done|];
     constructor; [|constructor]; intros u v E; pose proof (Hsc u v E) as Hl; apply (f_equal length) in E; rewrite !length_app in E; lia).
  - cbn [splitlen_loop]. replace (_ <? _) with false by (rewrite !length_app; lia). apply Hend. lia.
  - cbn [splitlen_loop]. destruct (Z.ltb_spec (zlen pre + zlen cur) (zlen (pre ++ cur ++ rest) - (zlen sep - 1))) as [Hj|Hj];
      [|apply Hend; rewrite !length_app in Hj; lia].
    destruct (more_slots_ok slots elements) as (slots' & -> & Hsl'); [rewrite !length_app in HB; lia|done|]. cbn [mbind option_bind].
    assert (Hge : (length sep <= length rest)%nat) by (rewrite !length_app in Hj; lia).
    destruct (split_at rest (length sep) Hge) as (here & rest' & Er & Hh).
    assert (Eh : bslice (pre ++ cur ++ rest) (zlen pre + zlen cur) (zlen sep) = Some here).
    { rewrite Er, (app_assoc pre). apply bslice_app_at; rewrite ?length_app; lia. }
    rewrite Eh. cbn [mbind option_bind]. destruct (bool_decide_reflect (here = sep)) as [->|Hne].
    + rewrite bslice_app_at by lia. cbn [mbind option_bind]. replace (zlen pre + zlen cur - zlen pre) with (zlen cur) by lia.
      assert (Bc : Forall byte_ok cur) by (apply Forall_app in Bs as [_ Bs]; by apply Forall_app in Bs as [? _]).
      destruct (newlen_bytes cur Bc) as (tok & -> & Htok); [rewrite !length_app in HB; lia|]. cbn [mbind option_bind].
      assert (Eq : pre ++ cur ++ rest = (pre ++ cur ++ sep) ++ [] ++ rest') by (rewrite Er, <- !app_assoc; done).
      rewrite Eq in Bs, HB |- *.
      destruct (IH (pre ++ cur ++ sep) [] rest' slots' (elements + 1)) as (toks & ts & lst & E & Ht & Ej & Hfree);
        [rewrite Er, length_app in Hf; lia|intros u v _; cbn; lia|done|done|rewrite !length_app; lia|lia|].
      replace (zlen pre + zlen cur + zlen sep) with (zlen (pre ++ cur ++ sep)) by (rewrite !length_app; lia).
      cbn [length] in E. replace (zlen (pre ++ cur ++ sep) + Z.of_nat 0) with (zlen (pre ++ cur ++ sep)) in E by lia. rewrite E. cbn [mbind option_bind].
      exists (tok :: toks), (cur :: ts), lst. split; [done|]. split; [by constructor|]. split.
      * rewrite Er. cbn [app] in Ej. rewrite Ej. cbn [app join_bytes]. by destruct ts.
      * constructor; [by eapply scanned_free|done].
    + destruct rest as [|x rest]; [cbn in Hge; lia|].
      assert (Eq : pre ++ cur ++ x :: rest = pre ++ (cur ++ [x]) ++ rest) by (by rewrite <- !app_assoc). rewrite Eq in Bs, HB |- *.
      destruct (IH pre (cur ++ [x]) rest slots' elements) as (toks & ts & lst & E & Ht & Ej & Hfree); [cbn in Hf; lia| |done|done|done|done|].
      { apply scanned_step; [done|]. rewrite Er. by rewrite take_app_length'. }
      exists toks, ts, lst. split; [|split; [done|split; [by rewrite <- Ej, <- app_assoc|done]]].
      rewrite <- E. f_equal. rewrite length_app. cbn [length]. lia.
Qed.

Lemma joinsds_loop_ok (sep : bytes) (Bsep : Forall byte_ok sep) toks ts : Forall2 sds_rep toks ts -> forall s c, sds_rep s c ->
  zlen c + zlen (join_bytes sep ts) < 2 ^ 62 -> exists s', joinsds_loop s toks sep = Some s' /\ sds_rep s' (c ++ join_bytes sep ts).
Proof.
  induction 1 as [|tok t toks ts Htok Hts IH]; intros s c Hs HB; [exists s; by rewrite app_nil_r|].
  cbn [joinsds_loop]. assert (Ht : zlen t <= zlen (join_bytes sep (t :: ts))) by (cbn [join_bytes]; destruct ts; rewrite ?length_app; lia).
  destruct (catsds_ok s c tok t Hs Htok) as (s1 & -> & Hs1); [lia|]. cbn [mbind option_bind].
  destruct Hts as [|tok' t' toks ts Htok' Hts]; [cbn; eauto|].
  rewrite join_cons in HB |- *. rewrite !length_app in HB.
  destruct (sdscatlen_ok s1 _ sep Hs1 Bsep) as (s2 & -> & Hs2); [rewrite length_app; lia|]. cbn [mbind option_bind].
  destruct (IH s2 _ Hs2) as (s' & E & Hs'); [rewrite !length_app; lia|]. exists s'. split; [done|]. by rewrite <- !app_assoc in Hs'.
Qed.

Lemma freesplitres_ok toks ts : Forall2 sds_rep toks ts -> sdsfreesplitres toks = Some tt.
Proof.
  induction 1 as [|tok t toks ts Htok Hts IH]; [done|]. unfold sdsfreesplitres in *. cbn [foldr]. rewrite IH. cbn [mbind option_bind].
  by eapply rep_free.
Qed.

(** [sdssplitlen] splits any non-empty string of less than 2^29 bytes into tokens that do not
    contain the separator, and [sdsjoinsds] of the tokens with the separator is
    the string; the tokens can be released. *)
Theorem splitlen_inverts_joinsds (s sep : bytes) : Forall byte_ok s -> Forall byte_ok sep -> s <> [] -> sep <> [] -> zlen s < 2 ^ 29 ->
  exists toks ts j, sdssplitlen s (zlen s) sep = Some (Some toks) /\ Forall2 sds_rep toks ts /\ Forall (free_of sep) ts
    /\ sdsjoinsds toks sep = Some j /\ sds_rep j s /\ sdsfreesplitres toks = Some tt.
Proof.
  intros Bs Bsep Hs Hsep HB. assert (Hl : (1 <= length sep)%nat) by (destruct sep; [done|cbn; lia]).
  assert (Hls : zlen s <> 0) by (intros ?%length_zero_iff_nil_z; done). unfold sdssplitlen.
  replace (_ || _) with false by lia. replace (_ =? 0) with false by lia. rewrite Nat2Z.id.
  destruct (splitlen_loop_ok sep Hl (length s) [] [] s 5 0) as (toks & ts & lst & E & Ht & Ej & Hfree); [lia|intros u v _; cbn; lia|done|done|cbn; lia|lia|].
  cbn [app length] in E, Ej. change (Z.of_nat 0 + Z.of_nat 0) with 0 in E. change (Z.of_nat 0) with 0 in E. rewrite E. cbn [mbind option_bind].
  assert (Es : exists pre, s = pre ++ lst ++ []).
  { destruct (join_last sep ts lst) as [pre E']. exists pre. by rewrite app_nil_r, Ej. }
  destruct Es as [pre Es]. replace (zlen s - (zlen s - zlen lst)) with (zlen lst) by lia.
  assert (Hlen : zlen s = zlen pre + zlen lst) by (rewrite Es, !length_app; cbn; lia).
  assert (Ebs : bslice s (zlen s - zlen lst) (zlen lst) = Some lst) by (rewrite Es; apply bslice_app_at; rewrite ?length_app; cbn; lia).
  rewrite Ebs. cbn [mbind option_bind].
  assert (Bl : Forall byte_ok lst) by (rewrite Es in Bs; apply Forall_app in Bs as [_ Bs]; by apply Forall_app in Bs as [? _]).
  destruct (newlen_bytes lst Bl) as (tok & -> & Htok); [lia|]. cbn [mbind option_bind].
  assert (Ht' : Forall2 sds_rep (toks ++ [tok]) (ts ++ [lst])) by (apply Forall2_app; [done|by constructor]).
  destruct sdsempty_ok as (s0 & E0 & Hs0).
  destruct (joinsds_loop_ok sep Bsep _ _ Ht' s0 [] Hs0) as (j & Ejn & Hj); [cbn [length]; rewrite <- Ej; lia|].
  exists (toks ++ [tok]), (ts ++ [lst]), j. split; [done|]. split; [done|]. split; [done|]. split; [unfold sdsjoinsds; by rewrite E0|].
  split; [by rewrite Ej|]. by eapply freesplitres_ok.
Qed.

(** [sdsll2str] writes the canonical decimal numeral of a [long long] (the
    one [string2ll] accepts) and its NUL in a buffer of [SDS_LLSTR_SIZE] bytes,
    for every value but the least one, whose negation overflows. *)
Theorem sdsll2str_spec (b : bytes) v : in_s 64 v -> zlen b = SDS_LLSTR_SIZE ->
  (v = LLONG_MIN /\ sdsll2str b v = None)
  \/ exists n rest, sdsll2str b v = Some (zlen n, n ++ 0 :: rest) /\ canonical n v.
Proof.
  intros Hv Hb. destruct (Z.eq_dec v LLONG_MIN) as [->|Hm]; [by left|right].
  apply sdsll2str_ok; [done|done|]. unfold SDS_LLSTR_SIZE in Hb. lia.
Qed.
(** ** Any operation *)

(** [OpRead] is the documented use of [sdsIncrLen]: make room, write after the
    end, set the length. [OpTrimRight n] is [sdsIncrLen(s,-n)]. [OpCatPrintf]
    has what [vsnprintf] prints, [OpCatFmt] the expansion of its format. *)
Inductive sds_op :=
  | OpCat (t : bytes) | OpCpy (t : bytes) | OpGrowZero (n : Z) | OpClear | OpUpdateLen | OpRemoveFreeSpace
  | OpRead (t : bytes) | OpTrimRight (n : Z) | OpSubstr (start n : Z) | OpRange (start end_ : Z) | OpTrim (cset : bytes)
  | OpToLower | OpToUpper | OpMapChars (from to : bytes)
  | OpCatFmt (fmt : bytes) (ap : list fmt_arg) (text : bytes) | OpCatPrintf (fmt out : bytes) | OpCatRepr (p : bytes).

Definition run_sds (s : sds) (op : sds_op) : option sds :=
  match op with
  | OpCat t => sdscatlen s t
  | OpCpy t => sdscpylen s t
  | OpGrowZero n => sdsgrowzero s n
  | OpClear => sdsclear s
  | OpUpdateLen => sdsupdatelen s
  | OpRemoveFreeSpace => sdsRemoveFreeSpace s
  | OpRead t => oldlen ← sdslen s; s ← sdsMakeRoomFor s (zlen t); s ← swrite s oldlen t; sdsIncrLen s (zlen t)
  | OpTrimRight n => sdsIncrLen s (- n)
  | OpSubstr start n => sdssubstr s start n
  | OpRange start end_ => sdsrange s start end_
  | OpTrim cset => sdstrim s cset
  | OpToLower => sdstolower s
  | OpToUpper => sdstoupper s
  | OpMapChars from to => sdsmapchars s from to
  | OpCatFmt fmt ap _ => sdscatfmt s fmt ap
  | OpCatPrintf fmt out => nonnull (sdscatprintf s fmt out)
  | OpCatRepr p => sdscatrepr s p
  end.

Definition op_contents (c : bytes) (op : sds_op) : bytes :=
  match op with
  | OpCat t | OpRead t => c ++ t
  | OpCpy t => t
  | OpGrowZero n => c ++ replicate (Z.to_nat (n - zlen c)) 0
  | OpClear => []
  | OpUpdateLen => cstr c
  | OpRemoveFreeSpace => c
  | OpTrimRight n => take (Z.to_nat (zlen c - n)) c
  | OpSubstr start n => substr start n c
  | OpRange start end_ => range start end_ c
  | OpTrim cset => trim (fun x => bool_decide (x ∈ cset)) c
  | OpToLower => tolower <$> c
  | OpToUpper => toupper <$> c
  | OpMapChars from to => (fun x => map_char x from to) <$> c
  | OpCatFmt _ _ text => c ++ text
  | OpCatPrintf _ out => c ++ out
  | OpCatRepr p => c ++ repr_text p
  end.

(** The arguments the operation accepts. [sdstrim] also removes NUL bytes, which
    are not in its set ([sdstrim_removes_nul]). *)
Definition op_ok (c : bytes) (op : sds_op) : Prop :=
  match op with
  | OpCat t | OpCpy t => Forall byte_ok t /\ zlen c + zlen t < 2 ^ 62
  | OpRead t => Forall byte_ok t /\ zlen c + zlen t < 2 ^ 62 /\ t <> []
  | OpGrowZero n => 0 <= n /\ zlen c + n < 2 ^ 62
  | OpTrimRight n => 0 < n <= zlen c /\ n < 2 ^ 62
  | OpSubstr start n => 0 <= start /\ 0 <= n
  | OpRange start end_ => zlen c < 2 ^ 62 /\ - 2 ^ 61 <= start < 2 ^ 61 /\ - 2 ^ 61 <= end_ < 2 ^ 61
  | OpMapChars from to => Forall byte_ok to
  | OpTrim _ => 0 ∉ c
  | OpCatFmt fmt ap text => Forall byte_ok fmt /\ (0 ∉ fmt) /\ zlen c + 2 * zlen fmt + zlen text < 2 ^ 61 /\
      exists aps, Forall2 arg_rep ap aps /\ fmt_text fmt aps = Some text
  | OpCatPrintf fmt out => Forall byte_ok out /\ zlen out <= INT32_MAX /\ zlen fmt < 2 ^ 62 /\ zlen c + zlen out < 2 ^ 62
  | OpCatRepr p => Forall byte_ok p /\ zlen c + 4 * zlen p + 3 < 2 ^ 62
  | _ => True
  end.

Lemma read_ok s c t : sds_rep s c -> Forall byte_ok t -> zlen c + zlen t < 2 ^ 62 -> t <> [] ->
  exists s', run_sds s (OpRead t) = Some s' /\ sds_rep s' (c ++ t).
Proof.
  intros Hs Bt HB Hne. cbn [run_sds]. rewrite (rep_len _ _ Hs). cbn [mbind option_bind].
  destruct (rep_makeroom s c (zlen t) Hs ltac:(lia) HB) as (s1 & ty & A & rest & -> & Hr & HA & Hty). cbn [mbind option_bind].
  pose proof (r_room _ _ _ _ _ Hr) as Hroom. rewrite length_app in Hroom. cbn [length] in Hroom.
  destruct (body_write c t 0 rest) as (y & rest' & Ew); [lia|].
  destruct (raw_write _ _ _ _ _ (zlen c) _ _ Hr ltac:(lia) Bt Ew) as (s2 & -> & Hr2). cbn [mbind option_bind].
  assert (Hd : zlen t <> 0) by (intros ?%length_zero_iff_nil_z; done).
  destruct (raw_incrlen _ _ _ _ _ (zlen t) Hr2) as (s3 & -> & Hr3); [lia|by intros _|lia|].
  rewrite app_assoc in Hr3. apply (raw_terminate _ _ _ _ _ _ _ Hr3). rewrite length_app. lia.
Qed.

Lemma trimright_ok s c n : sds_rep s c -> 0 < n <= zlen c -> n < 2 ^ 62 ->
  exists s', run_sds s (OpTrimRight n) = Some s' /\ sds_rep s' (take (Z.to_nat (zlen c - n)) c).
Proof.
  intros (t & A & rest & Hr) Hn HB. cbn [run_sds]. pose proof (r_len _ _ _ _ _ Hr) as HlA.
  destruct (raw_incrlen _ _ _ _ _ (- n) Hr) as (s1 & -> & Hr1); [lia|lia|lia|].
  destruct (split_body c (zlen c - n)) as (c1 & x & c2 & E & Hc1); [lia|].
  rewrite E in Hr1 |- *. rewrite take_app_length' by (rewrite <- E; lia). rewrite <- E in Hr1 at 1. rewrite <- app_assoc in Hr1.
  rewrite <- E. apply (raw_terminate _ _ _ _ c1 x _ Hr1). lia.
Qed.

Lemma map_char_bytes from to x : Forall byte_ok to -> byte_ok x -> byte_ok (map_char x from to).
Proof.
  revert to. induction from as [|f from IH]; intros [|y to] Hto Hx; try done. cbn [map_char].
  apply Forall_cons in Hto as [Hy Hto]. destruct (x =? f); [done|auto].
Qed.

Lemma ltrim_ext (P Q : Z -> bool) c : (forall x, x ∈ c -> P x = Q x) -> ltrim P c = ltrim Q c.
Proof.
  induction c as [|x c IH]; intros H; [done|]. cbn [ltrim]. rewrite (H x) by left. destruct (Q x); [|done]. apply IH. intros y Hy. apply H. by right.
Qed.
Lemma ltrim_in P c x : x ∈ ltrim P c -> x ∈ c.
Proof. destruct (ltrim_split P c) as (u & E & _). rewrite E at 2. intros ?. apply elem_of_app. by right. Qed.
Lemma trim_ext (P Q : Z -> bool) c : (forall x, x ∈ c -> P x = Q x) -> trim P c = trim Q c.
Proof.
  intros H. unfold trim. rewrite (ltrim_ext P Q c H). f_equal. apply ltrim_ext. intros x Hx%elem_of_reverse%ltrim_in. by apply H.
Qed.

Lemma bool_decide_mem_char x cset : mem_char x cset = bool_decide (x ∈ cset).
Proof.
  unfold mem_char. induction cset as [|y l IH]; [done|]. cbn [existsb]. rewrite IH. destruct (Z.eqb_spec x y) as [->|Hn].
  - symmetry. apply bool_decide_true. left.
  - apply bool_decide_ext. rewrite elem_of_cons. naive_solver.
Qed.

Lemma trim_ok s c cset : sds_rep s c -> 0 ∉ c -> exists s', sdstrim s cset = Some s' /\ sds_rep s' (trim (fun x => bool_decide (x ∈ cset)) c).
Proof.
  intros Hs H0. destruct (sdstrim_ok s c cset Hs) as (s' & E & Hs'). exists s'. split; [done|].
  rewrite (trim_ext _ (strchr_in cset)); [done|]. intros x Hx. unfold strchr_in.
  rewrite (proj2 (Z.eqb_neq x 0)) by (intros ->; done). rewrite orb_false_r. symmetry. apply bool_decide_mem_char.
Qed.

(** [strchr] finds the NUL that ends the set: whatever the set is, [sdstrim]
    removes the NUL bytes at both ends of the string. *)
Theorem sdstrim_removes_nul s cset n m c x y : sds_rep s (replicate n 0 ++ (x :: c ++ [y]) ++ replicate m 0) ->
  strchr_in cset x = false -> strchr_in cset y = false -> exists s', sdstrim s cset = Some s' /\ sds_rep s' (x :: c ++ [y]).
Proof.
  intros Hs Hx Hy. destruct (sdstrim_ok s _ cset Hs) as (s' & E & Hs'). exists s'. split; [done|].
  assert (Hz : forall k l, ltrim (strchr_in cset) (replicate k 0 ++ l) = ltrim (strchr_in cset) l).
  { intros k l. induction k as [|k IH]; [done|]. cbn [replicate app ltrim]. unfold strchr_in at 1. by rewrite orb_true_r. }
  revert Hs'. unfold trim. rewrite Hz. cbn [app ltrim]. rewrite Hx.
  replace (reverse (x :: (c ++ [y]) ++ replicate m 0)) with (replicate m 0 ++ y :: reverse c ++ [x]).
  - rewrite Hz. cbn [ltrim]. rewrite Hy. by rewrite reverse_cons, reverse_app, reverse_involutive.
  - rewrite reverse_cons, reverse_app, reverse_replicate, reverse_app. cbn. by rewrite <- app_assoc.
Qed.

End text.

(** * Instances *)

#[local] Existing Instance LittleHost.
#[local] Existing Instance RoundAlloc.


Lemma sdscatfmt_spec_witness : exists s',
  sdscatfmt sample_sds5 (of_string "%i-%s%%%U") [ArgNum (-120); ArgStr [33]; ArgUnum 7] = Some s'
  /\ sds_rep s' ([97; 98] ++ of_string "-120-!%7").
Proof.
  apply (sdscatfmt_spec sample_sds5 [97; 98] _ _ [ANum (-120); AStr [33]; AUnum 7]); [apply sample_sds5_rep| | | |reflexivity|reflexivity].
  - vm_compute of_string. bytes_compute.
  - apply (bool_decide_unpack _). vm_compute. exact I.
  - constructor; [constructor; [unfold in_s; lia|discriminate]|]. constructor; [constructor; bytes_compute|].
    constructor; [constructor; unfold in_u; lia|constructor].
Defined.

Lemma splitargs_inverts_catrepr_witness : exists s line toks,
  (s ← sdsempty; quote_args s [[0; 200; 34]; [92; 120; 52; 49]]) = Some s /\ sds_rep s line
  /\ sdssplitargs line = Some (Some toks) /\ Forall2 sds_rep toks [[0; 200; 34]; [92; 120; 52; 49]].
Proof.
  apply (splitargs_inverts_catrepr [[0; 200; 34]; [92; 120; 52; 49]]); [|reflexivity|discriminate].
  constructor; [bytes_compute|]. constructor; [bytes_compute|constructor].
Defined.

Lemma splitlen_inverts_joinsds_witness : exists toks ts j,
  sdssplitlen (of_string "foo_-_bar_-_") 12 (of_string "_-_") = Some (Some toks) /\ Forall2 sds_rep toks ts
  /\ Forall (free_of (of_string "_-_")) ts /\ sdsjoinsds toks (of_string "_-_") = Some j
  /\ sds_rep j (of_string "foo_-_bar_-_") /\ sdsfreesplitres toks = Some tt.
Proof.
  apply (splitlen_inverts_joinsds (of_string "foo_-_bar_-_") (of_string "_-_")); try discriminate; try reflexivity;
    vm_compute of_string; bytes_compute.
Defined.

Lemma sdsll2str_spec_witness : (-45 = LLONG_MIN /\ sdsll2str (replicate 21 1) (-45) = None)
  \/ exists n rest, sdsll2str (replicate 21 1) (-45) = Some (zlen n, n ++ 0 :: rest) /\ canonical n (-45).
Proof. apply (sdsll2str_spec (replicate 21 1) (-45)); [unfold in_s; lia|reflexivity]. Defined.
