(* ===== verification/SdsArgs.v ===== *)
(** [sdssplitargs] on arbitrary lines: it returns for every NUL-terminated
    string, without reading past its end. *)
From S2P Require Import Prelude Endian Util Sds SdsSpec SdsOps SdsText.
Section total.
Context `{HH : Host} `{HA : SdsAlloc}.

(** ** Lines that are not well formed *)

Definition cstring (u : bytes) : Prop := Forall byte_ok u /\ 0 ∉ u.

Lemma cstring_app u v : cstring (u ++ v) <-> cstring u /\ cstring v.
Proof. unfold cstring. rewrite Forall_app, not_elem_of_app. tauto. Qed.

Lemma cstring_cons x u : cstring (x :: u) <-> (byte_ok x /\ x <> 0) /\ cstring u.
Proof. unfold cstring. rewrite Forall_cons, not_elem_of_cons. intuition. Qed.

Lemma advance_cons x v : x <> 0 -> advance (x :: v) = Some v.
Proof. intros Hx. unfold advance. cbn. by replace (x =? 0) with false by lia. Qed.

(** The pointer after an escape sequence is still in the string. *)
Lemma hex_escape_total u : cstring u -> exists h, hex_escape (u ++ [0]) = Some h /\
  match h with None => True | Some b => byte_ok b /\ exists x1 x2 x3 x4 v, u = x1 :: x2 :: x3 :: x4 :: v end.
Proof.
  intros Hu. unfold hex_escape. destruct u as [|x1 u]; [by exists None|]. cbn [app lookup list_lookup mbind option_bind].
  destruct (x1 =? 92); cbn [negb]; [|by exists None]. destruct u as [|x2 u]; [by exists None|]. cbn [app lookup list_lookup mbind option_bind].
  destruct (x2 =? 120); cbn [negb]; [|by exists None]. destruct u as [|x3 u]; [by exists None|]. cbn [app lookup list_lookup mbind option_bind].
  destruct (is_hex_digit x3); cbn [negb]; [|by exists None]. destruct u as [|x4 u]; [by exists None|]. cbn [app lookup list_lookup mbind option_bind].
  destruct (is_hex_digit x4); cbn [negb]; [|by exists None]. eexists. split; [done|]. split; [|naive_solver].
  unfold uwrap, byte_ok. pose proof (Z.mod_pos_bound (hex_digit_to_int x3 * 16 + hex_digit_to_int x4) (2 ^ 8)). lia.
Qed.

Definition iter_ok (u : bytes) (cur : sds) (c : bytes) (st : token_step) : Prop :=
  match st with
  | TErr => True
  | TDone p cur' => p = u ++ [0] /\ cur' = cur
  | TGo _ p cur' => exists k x v c', u = k ++ x :: v /\ p = x :: v ++ [0] /\ sds_rep cur' c' /\ zlen c' <= zlen c + 1
  end.

Lemma go_ok u cur c q k x v b : u = k ++ x :: v -> sds_rep cur c -> byte_ok b -> zlen c + 1 < 2 ^ 62 ->
  exists st, (cur ← sdscatlen cur [b]; Some (TGo q (x :: v ++ [0]) cur)) = Some st /\ iter_ok u cur c st.
Proof.
  intros Hu Hs Hb HB. destruct (sdscatlen_ok cur c [b] Hs) as (cur' & -> & Hs'); [by constructor|done|].
  eexists. split; [done|]. exists k, x, v, (c ++ [b]). repeat split; try done. rewrite length_app. cbn. lia.
Qed.

Lemma close_ok u cur c : u <> [] -> exists st, close_quote (u ++ [0]) cur = Some st /\ iter_ok u cur c st.
Proof.
  intros Hu. unfold close_quote. destruct u as [|x u]; [done|]. destruct u as [|y u]; cbn [app lookup list_lookup mbind option_bind].
  - by eexists.
  - destruct (_ || _); by eexists.
Qed.

Lemma unescape_byte x : byte_ok x -> byte_ok (unescape x).
Proof. unfold unescape, byte_ok. intros Hx. repeat case_if_lia; lia. Qed.

(** An iteration never faults, and goes on only with a pointer to a character
    of the string. *)
Lemma token_iter_total q u cur c : cstring u -> sds_rep cur c -> zlen c + 1 < 2 ^ 62 ->
  exists st, token_iter q (u ++ [0]) cur = Some st /\ iter_ok u cur c st.
Proof.
  intros Hu Hs HB. unfold token_iter. destruct u as [|x u].
  { destruct q; cbn [app lookup list_lookup mbind option_bind hex_escape Z.eqb negb andb orb]; by eexists. }
  pose proof (proj1 (cstring_cons _ _) Hu) as [[Bx Nx] Hu'].
  assert (Hgo : forall q' b, byte_ok b -> exists st, (cur ← sdscatlen cur [b]; Some (TGo q' ((x :: u) ++ [0]) cur)) = Some st /\ iter_ok (x :: u) cur c st).
  { intros q' b Hb. by apply (go_ok (x :: u) cur c q' [] x u b). }
  assert (Hgo1 : forall q' b y v, u = y :: v -> byte_ok b -> exists st, (cur ← sdscatlen cur [b]; Some (TGo q' (drop 1 ((x :: u) ++ [0])) cur)) = Some st /\ iter_ok (x :: u) cur c st).
  { intros q' b y v -> Hb. by apply (go_ok (x :: y :: v) cur c q' [x] y v b). }
  assert (Hmode : forall q', exists st, Some (TGo q' ((x :: u) ++ [0]) cur) = Some st /\ iter_ok (x :: u) cur c st).
  { intros q'. eexists. split; [done|]. exists [], x, u, c. repeat split; try done. lia. }
  replace (((x :: u) ++ [0]) !! 0%nat) with (Some x) by done. cbn [mbind option_bind].
  assert (E1 : exists c1, (if x =? 92 then ((x :: u) ++ [0]) !! 1%nat else Some 0) = Some c1 /\ (c1 <> 0 -> exists v, u = c1 :: v /\ byte_ok c1)).
  { destruct (x =? 92); [|by exists 0]. destruct u as [|y v]; [by exists 0|]. exists y. split; [done|]. intros _. exists v. split; [done|]. by apply cstring_cons in Hu' as [[? ?] ?]. }
  destruct E1 as (c1 & E1 & Hc1). destruct q.
  - destruct (_ || _); [by eexists|]. destruct (x =? 34); [apply Hmode|]. destruct (x =? 39); [apply Hmode|]. by apply Hgo.
  - destruct (hex_escape_total (x :: u) Hu) as ([b|] & -> & Hh); cbn [mbind option_bind].
    + destruct Hh as (Hb & x1 & x2 & x3 & x4 & v & Ev). rewrite Ev. by apply (go_ok (x1 :: x2 :: x3 :: x4 :: v) cur c Inq [x1; x2; x3] x4 v b).
    + rewrite E1. cbn [mbind option_bind]. destruct ((x =? 92) && negb (c1 =? 0)) eqn:E2.
      * destruct Hc1 as (v & -> & Bc); [lia|]. apply (Hgo1 _ _ c1 v); [done|]. by apply unescape_byte.
      * destruct (x =? 34); [by apply close_ok|]. destruct (x =? 0); [by eexists|]. by apply Hgo.
  - rewrite E1. cbn [mbind option_bind]. destruct ((x =? 92) && (c1 =? 39)) eqn:E2.
    + destruct Hc1 as (v & -> & Bc); [lia|]. by apply (Hgo1 _ _ c1 v).
    + destruct (x =? 39); [by apply close_ok|]. destruct (x =? 0); [by eexists|]. by apply Hgo.
Qed.

Lemma token_loop_total : forall fuel q u cur c, cstring u -> sds_rep cur c -> zlen c + zlen u + 1 < 2 ^ 62 -> (length u < fuel)%nat ->
  exists r, token_loop fuel q (u ++ [0]) cur = Some r /\
  match r with
  | inl cur' => exists c', sds_rep cur' c'
  | inr (p, cur') => exists u' c', p = u' ++ [0] /\ sds_rep cur' c' /\ u' `suffix_of` u /\ (u <> [] -> (length u' < length u)%nat)
  end.
Proof.
  induction fuel as [|fuel IH]; intros q u cur c Hu Hs HB Hf; [lia|]. cbn [token_loop].
  destruct (token_iter_total q u cur c Hu Hs ltac:(lia)) as (st & -> & Hst). cbn [mbind option_bind]. destruct st as [|p cur'|q' p cur'].
  - eexists. split; [done|]. by exists c.
  - destruct Hst as [-> ->]. destruct u as [|x u].
    + exists (inr ([0], cur)). split; [done|]. exists [], c. split; [done|]. split; [done|]. by split.
    + apply cstring_cons in Hu as [[Bx Nx] Hu']. rewrite <- app_comm_cons, advance_cons by done. eexists. split; [done|]. exists u, c.
      split; [done|]. split; [done|]. split; [by exists [x]|cbn; lia].
  - destruct Hst as (k & x & v & c' & -> & -> & Hs' & Hl). apply cstring_app in Hu as [Hk Hu]. apply cstring_cons in Hu as [[Bx Nx] Hv].
    rewrite advance_cons by done. cbn [mbind option_bind]. rewrite length_app in *. cbn [length] in *.
    destruct (IH q' v cur' c' Hv Hs' ltac:(lia) ltac:(lia)) as (r & -> & Hr). eexists. split; [done|]. destruct r as [|[p cur2]]; [done|].
    destruct Hr as (u' & c2 & -> & Hc2 & Hsuf & Hlt). exists u', c2. repeat split; try done.
    + destruct Hsuf as [z ->]. exists (k ++ x :: z). by rewrite <- app_assoc.
    + intros _. destruct Hsuf as [z ->]. rewrite length_app. lia.
Qed.

Lemma skip_blanks_total u : exists u', skip_blanks (u ++ [0]) = Some (u' ++ [0]) /\ u' `suffix_of` u.
Proof.
  induction u as [|x u (u' & E & Hs)]; [by exists []|]. cbn [app skip_blanks]. destruct (_ && _).
  - exists u'. split; [done|]. destruct Hs as [z ->]. by exists (x :: z).
  - by exists (x :: u).
Qed.

Lemma splitargs_loop_total : forall fuel u vector cs, cstring u -> Forall2 sds_rep vector cs -> zlen u + 1 < 2 ^ 62 -> (length u < fuel)%nat ->
  or_fault (INT32_MAX < zlen vector + zlen u) (splitargs_loop fuel (u ++ [0]) vector)
    (fun r => match r with None => True | Some toks => exists cs', Forall2 sds_rep toks cs' end).
Proof.
  induction fuel as [|fuel IH]; intros u vector cs Hu Hv HB Hf; [lia|]. cbn [splitargs_loop].
  destruct (skip_blanks_total u) as (u1 & -> & [z ->]). cbn [mbind option_bind]. apply cstring_app in Hu as [_ Hu].
  rewrite length_app in HB, Hf |- *. destruct u1 as [|x u1]; [apply or_fault_some; eauto|]. pose proof (proj1 (cstring_cons _ _) Hu) as [[_ Nx] _].
  replace (((x :: u1) ++ [0]) !! 0%nat) with (Some x) by done. cbn [mbind option_bind]. replace (x =? 0) with false by lia. cbn [negb]. destruct sdsempty_ok as (cur & -> & Hcur). cbn [mbind option_bind].
  destruct (token_loop_total (S (length ((x :: u1) ++ [0]))) Unquoted (x :: u1) cur [] Hu Hcur) as (r & E & Hr); [cbn [length] in *; lia|rewrite length_app; lia|].
  rewrite E. cbn [mbind option_bind]. destruct r as [cur'|[p cur']].
  - destruct Hr as (c' & Hc'). rewrite (freesplitres_ok _ _ Hv). cbn [mbind option_bind]. rewrite (rep_free _ _ Hc'). by apply or_fault_some.
  - destruct Hr as (u' & c' & -> & Hc' & [y Ey] & Hlt). specialize (Hlt ltac:(done)). cbn [length] in *.
    destruct (Z.ltb_spec (zlen vector) INT32_MAX) as [Hi|Hi]; [|right; split; [done|lia]].
    eapply or_fault_weaken; [apply (IH u' (vector ++ [cur']) (cs ++ [c'])); [|by apply Forall2_app; [|constructor]|lia|lia]|rewrite length_app; cbn [length]; lia].
    rewrite Ey in Hu. by apply cstring_app in Hu as [_ ?].
Qed.

(** On any line without NUL [sdssplitargs] returns NULL or well-formed tokens,
    unless the line is so long that an [int] cannot count them. *)
Lemma sdssplitargs_total line : cstring line -> zlen line + 1 < 2 ^ 62 ->
  or_fault (INT32_MAX < zlen line) (sdssplitargs line) (fun r => match r with None => True | Some toks => exists cs, Forall2 sds_rep toks cs end).
Proof. intros Hl HB. apply (splitargs_loop_total _ line [] []); [done|constructor|done|lia]. Qed.
End total.
