(* ===== verification/Zskiplist.v ===== *)
(** The skiplist of sorted sets: [t_zset.c], lines 62 to 700.

    The nodes live in a heap: the fixed fields of a node, and the cells of its
    [level] array, each cell at the address of its node and its index, so that
    an access past the array is [None]. A [double] is an IEEE 754 number
    ([spec_float]); an element is the contents of its sds. A failed assertion
    is [None]. *)
From Stdlib Require Import SpecFloat.
From stdpp Require Import gmap.
From S2P Require Import Prelude Sds.
Open Scope Z_scope.

Abbreviation loc := Z (only parsing).
Abbreviation double := spec_float (only parsing).

Definition ZSKIPLIST_MAXLEVEL : nat := 32.

Record zskiplistLevel := mkLevel { forward : option loc; span : Z }.

(** [nlevels] is the number of cells allocated with the node. *)
Record zskiplistNode := mkZNode { ele : option bytes; score : double; backward : option loc; nlevels : nat }.

Record zheap := mkZHeap { znodes : gmap Z zskiplistNode; zlevels : gmap (Z * nat) zskiplistLevel }.

Record zskiplist := mkZsl { header : loc; tail : option loc; length_ : Z; level : nat }.

Definition get_node (h : zheap) (a : loc) : option zskiplistNode := znodes h !! a.
Definition get_level (h : zheap) (a : loc) (i : nat) : option zskiplistLevel := zlevels h !! (a, i).
Definition set_level (h : zheap) (a : loc) (i : nat) (l : zskiplistLevel) : option zheap :=
  _ ← get_level h a i; Some (mkZHeap (znodes h) (<[(a, i) := l]> (zlevels h))).
Definition set_backward (h : zheap) (a : loc) (b : option loc) : option zheap :=
  n ← get_node h a; Some (mkZHeap (<[a := mkZNode (ele n) (score n) b (nlevels n)]> (znodes h)) (zlevels h)).
Definition set_score (h : zheap) (a : loc) (s : double) : option zheap :=
  n ← get_node h a; Some (mkZHeap (<[a := mkZNode (ele n) s (backward n) (nlevels n)]> (znodes h)) (zlevels h)).

Definition isnan (s : double) : bool := match s with S754_nan => true | _ => false end.

(** [for (i = i0; i < i0 + n; i++)]. *)
Fixpoint for_range (n i : nat) (step : nat -> zheap -> option zheap) (h : zheap) : option zheap :=
  match n with
  | O => Some h
  | S n => h ← step i h; for_range n (S i) step h
  end.

Section zsl.
(** The contents of fresh cells. *)
Context (fresh_level : nat -> zskiplistLevel).

(** ** Creation *)

(** The node is allocated at [a]; its cells and its [backward] pointer are not
    initialised. *)
Fixpoint alloc_levels (n : nat) (c : gmap (Z * nat) zskiplistLevel) (a : loc) : gmap (Z * nat) zskiplistLevel :=
  match n with O => c | S i => <[(a, i) := fresh_level i]> (alloc_levels i c a) end.

Definition zslCreateNode (h : zheap) (a : loc) (lvl : nat) (sc : double) (e : option bytes) (junk : option loc) : zheap :=
  mkZHeap (<[a := mkZNode e sc junk lvl]> (znodes h)) (alloc_levels lvl (zlevels h) a).

(** [for (j = 0; j < ZSKIPLIST_MAXLEVEL; j++)] of [zslCreate]. *)
Definition init_levels (h : zheap) (a : loc) : option zheap :=
  for_range ZSKIPLIST_MAXLEVEL 0 (fun j h => set_level h a j (mkLevel None 0)) h.

Definition zslCreate (h : zheap) (a : loc) (junk : option loc) : option (zheap * zskiplist) :=
  let h := zslCreateNode h a ZSKIPLIST_MAXLEVEL (S754_zero false) None junk in
  h ← init_levels h a;
  h ← set_backward h a None;
  Some (h, mkZsl a None 0 1).

Fixpoint free_levels (n : nat) (c : gmap (Z * nat) zskiplistLevel) (a : loc) : gmap (Z * nat) zskiplistLevel :=
  match n with O => c | S i => delete (a, i) (free_levels i c a) end.

Definition zslFreeNode (h : zheap) (a : loc) : option zheap :=
  n ← get_node h a; Some (mkZHeap (delete a (znodes h)) (free_levels (nlevels n) (zlevels h) a)).

(** [while(node)] of [zslFree]. *)
Fixpoint free_loop (fuel : nat) (h : zheap) (node : option loc) : option zheap :=
  match fuel, node with
  | _, None => Some h
  | O, Some _ => None
  | S fuel, Some a => l ← get_level h a 0; h ← zslFreeNode h a; free_loop fuel h (forward l)
  end.

Definition zslFree (h : zheap) (z : zskiplist) : option zheap :=
  l ← get_level h (header z) 0;
  h ← zslFreeNode h (header z);
  free_loop (Z.to_nat (length_ z)) h (forward l).

(** [while ((random()&0xFFFF) < (ZSKIPLIST_P * 0xFFFF))], where [rs] are the
    next values of [random()]: a value is below [0.25 * 65535] when it is at
    most 16383. *)
Fixpoint random_loop (rs : list Z) (lvl : nat) : option (nat * list Z) :=
  match rs with
  | [] => None
  | r :: rs => if Z.land r 65535 <=? 16383 then random_loop rs (lvl + 1) else Some (lvl, rs)
  end.

Definition zslRandomLevel (rs : list Z) : option (nat * list Z) :=
  '(lvl, rs) ← random_loop rs 1;
  Some (if (lvl <? ZSKIPLIST_MAXLEVEL)%nat then lvl else ZSKIPLIST_MAXLEVEL, rs).

(** ** Searching *)

(** [while (x->level[i].forward && cond) { r += x->level[i].span; x = x->level[i].forward; }]:
    [cond] is given [r], the span and the forward node; [r] has [w] bits. *)
Fixpoint walk (fuel : nat) (h : zheap) (w : Z) (i : nat) (cond : Z -> Z -> zskiplistNode -> option bool) (x : loc) (r : Z)
  : option (loc * Z) :=
  match fuel with
  | O => None
  | S fuel =>
    l ← get_level h x i;
    match forward l with
    | None => Some (x, r)
    | Some f =>
      n ← get_node h f;
      c ← cond r (span l) n;
      if c : bool then walk fuel h w i cond f (uwrap w (r + span l)) else Some (x, r)
    end
  end.

(** [for (i = zsl->level-1; i >= 0; i--)]: the nodes and ranks reached at each
    level, that is [update] and [rank]. *)
Fixpoint descend (n : nat) (fuel : nat) (h : zheap) (w : Z) (cond : Z -> Z -> zskiplistNode -> option bool) (x : loc) (r : Z)
  : option (list (loc * Z)) :=
  match n with
  | O => Some []
  | S i =>
    '(x, r) ← walk fuel h w i cond x r;
    rest ← descend i fuel h w cond x r;
    Some (rest ++ [(x, r)])
  end.

(** Enough for any list: a walk visits each node once. *)
Definition zsl_fuel (z : zskiplist) : nat := S (Z.to_nat (length_ z)).

(** [forward->score < score || (forward->score == score && sdscmp(forward->ele,ele) < 0)] *)
Definition before (sc : double) (e : bytes) (r s : Z) (n : zskiplistNode) : option bool :=
  ne ← ele n;
  Some (SFltb (score n) sc || SFeqb (score n) sc && (cmp_contents ne e <? 0)).

(** [... <= 0] *)
Definition before_eq (sc : double) (e : bytes) (r s : Z) (n : zskiplistNode) : option bool :=
  ne ← ele n;
  Some (SFltb (score n) sc || SFeqb (score n) sc && (cmp_contents ne e <=? 0)).

(** ** Insertion *)

(** [for (i = zsl->level; i < level; i++)]: the span of the header at a new
    level. *)
Definition grow_step (hd : loc) (len : Z) (i : nat) (h : zheap) : option zheap :=
  l ← get_level h hd i; set_level h hd i (mkLevel (forward l) len).

(** [for (i = 0; i < level; i++)]: link the node at one of its levels. *)
Definition link_step (x : loc) (rank0 : Z) (update : list (loc * Z)) (i : nat) (h : zheap) : option zheap :=
  '(u, rank) ← update !! i;
  l ← get_level h u i;
  h ← set_level h x i (mkLevel (forward l) (uwrap 64 (span l - uwrap 32 (rank0 - rank))));
  set_level h u i (mkLevel (Some x) (uwrap 32 (uwrap 32 (rank0 - rank) + 1))).

(** [for (i = level; i < zsl->level; i++) update[i]->level[i].span++] *)
Definition span_step (update : list (loc * Z)) (i : nat) (h : zheap) : option zheap :=
  '(u, _) ← update !! i;
  l ← get_level h u i;
  set_level h u i (mkLevel (forward l) (uwrap 64 (span l + 1))).

(** [a] is the address of the new node, [rs] the random numbers; returns the
    numbers left. *)
Definition zslInsert (h : zheap) (z : zskiplist) (rs : list Z) (a : loc) (junk : option loc) (sc : double) (e : bytes)
  : option (zheap * zskiplist * list Z) :=
  if isnan sc then None
  else
    update ← descend (level z) (zsl_fuel z) h 32 (before sc e) (header z) 0;
    '(lvl, rs) ← zslRandomLevel rs;
    '(h, update, zlevel) ←
      (if (level z <? lvl)%nat then
         h ← for_range (lvl - level z) (level z) (grow_step (header z) (length_ z)) h;
         Some (h, update ++ replicate (lvl - level z) (header z, 0), lvl)
       else Some (h, update, level z));
    let h := zslCreateNode h a lvl sc (Some e) junk in
    '(u0, rank0) ← update !! 0%nat;
    h ← for_range lvl 0 (link_step a rank0 update) h;
    h ← for_range (zlevel - lvl) lvl (span_step update) h;
    h ← set_backward h a (if decide (u0 = header z) then None else Some u0);
    l0 ← get_level h a 0;
    '(h, tl) ← match forward l0 with
               | Some f => h ← set_backward h f (Some a); Some (h, tail z)
               | None => Some (h, Some a)
               end;
    Some (h, mkZsl (header z) tl (uwrap 64 (length_ z + 1)) zlevel, rs).

(** ** Deletion *)

(** One level of the first loop of [zslDeleteNode]. *)
Definition unlink_step (x : loc) (update : list (loc * Z)) (i : nat) (h : zheap) : option zheap :=
  '(u, _) ← update !! i;
  l ← get_level h u i;
  if decide (forward l = Some x) then
    lx ← get_level h x i;
    set_level h u i (mkLevel (forward lx) (uwrap 64 (span l + uwrap 64 (span lx - 1))))
  else set_level h u i (mkLevel (forward l) (uwrap 64 (span l - 1))).

(** [while(zsl->level > 1 && zsl->header->level[zsl->level-1].forward == NULL) zsl->level--] *)
Fixpoint shrink_loop (lvl : nat) (h : zheap) (hd : loc) : option nat :=
  match lvl with
  | S (S i as lvl') =>
    l ← get_level h hd lvl';
    match forward l with None => shrink_loop lvl' h hd | Some _ => Some lvl end
  | _ => Some lvl
  end.

Definition zslDeleteNode (h : zheap) (z : zskiplist) (x : loc) (update : list (loc * Z)) : option (zheap * zskiplist) :=
  h ← for_range (level z) 0 (unlink_step x update) h;
  l0 ← get_level h x 0;
  n ← get_node h x;
  '(h, tl) ← match forward l0 with
             | Some f => h ← set_backward h f (backward n); Some (h, tail z)
             | None => Some (h, backward n)
             end;
  lvl ← shrink_loop (level z) h (header z);
  Some (h, mkZsl (header z) tl (uwrap 64 (length_ z - 1)) lvl).

(** [x = update[0]->level[0].forward]. *)
Definition next_of (h : zheap) (update : list (loc * Z)) : option (option loc) :=
  '(u, _) ← update !! 0%nat; l ← get_level h u 0; Some (forward l).

(** [free_node] is [node == NULL]; returns whether the element was found, and
    its node. *)
Definition zslDelete (h : zheap) (z : zskiplist) (sc : double) (e : bytes) (free_node : bool)
  : option (zheap * zskiplist * option loc) :=
  update ← descend (level z) (zsl_fuel z) h 64 (before sc e) (header z) 0;
  x ← next_of h update;
  match x with
  | None => Some (h, z, None)
  | Some x =>
    n ← get_node h x;
    ne ← ele n;
    if SFeqb sc (score n) && (cmp_contents ne e =? 0) then
      '(h, z) ← zslDeleteNode h z x update;
      h ← (if free_node then zslFreeNode h x else Some h);
      Some (h, z, Some x)
    else Some (h, z, None)
  end.

(** The condition under which the node can stay in place:
    [(x->backward == NULL || x->backward->score < newscore) &&
     (x->level[0].forward == NULL || x->level[0].forward->score > newscore)]. *)
Definition stays (h : zheap) (x : loc) (newscore : double) : option bool :=
  n ← get_node h x;
  b1 ← match backward n with None => Some true | Some b => nb ← get_node h b; Some (SFltb (score nb) newscore) end;
  if b1 : bool then
    l ← get_level h x 0;
    match forward l with None => Some true | Some f => nf ← get_node h f; Some (SFltb newscore (score nf)) end
  else Some false.

(** Returns the node that holds the element. *)
Definition zslUpdateScore (h : zheap) (z : zskiplist) (rs : list Z) (a : loc) (junk : option loc) (curscore : double) (e : bytes) (newscore : double)
  : option (zheap * zskiplist * list Z * loc) :=
  update ← descend (level z) (zsl_fuel z) h 64 (before curscore e) (header z) 0;
  xo ← next_of h update;
  x ← xo;
  n ← get_node h x;
  ne ← ele n;
  if negb (SFeqb curscore (score n) && (cmp_contents ne e =? 0)) then None
  else
    st ← stays h x newscore;
    if st : bool then h ← set_score h x newscore; Some (h, z, rs, x)
    else
      '(h, z) ← zslDeleteNode h z x update;
      '(h, z, rs) ← zslInsert h z rs a junk newscore ne;
      h ← zslFreeNode h x;
      Some (h, z, rs, a).

(** ** Ranges by score *)

Record zrangespec := mkRange { rmin : double; rmax : double; minex : bool; maxex : bool }.

Definition zslValueGteMin (value : double) (spec : zrangespec) : bool :=
  if minex spec then SFltb (rmin spec) value else SFleb (rmin spec) value.
Definition zslValueLteMax (value : double) (spec : zrangespec) : bool :=
  if maxex spec then SFltb value (rmax spec) else SFleb value (rmax spec).

(** The tests shared by [zslIsInRange] and [zslIsInLexRange], for predicates
    [gte] and [lte] on nodes: the last node is not below the range, the first
    one is not above. *)
Definition is_in (h : zheap) (z : zskiplist) (gte lte : zskiplistNode -> option bool) : option bool :=
  match tail z with
  | None => Some false
  | Some x =>
    n ← get_node h x;
    b ← gte n;
    if negb b then Some false
    else
      l ← get_level h (header z) 0;
      match forward l with
      | None => Some false
      | Some x => n ← get_node h x; lte n
      end
  end.

(** The bodies of [zslFirstInRange] and [zslLastInRange], and of their
    lexicographic versions, after the test that the range is not empty. *)
Definition first_in (h : zheap) (z : zskiplist) (gte lte : zskiplistNode -> option bool) : option (option loc) :=
  update ← descend (level z) (zsl_fuel z) h 64 (fun _ _ n => b ← gte n; Some (negb b)) (header z) 0;
  xo ← next_of h update;
  x ← xo;
  n ← get_node h x;
  b ← lte n;
  Some (if negb b then None else Some x).

Definition last_in (h : zheap) (z : zskiplist) (gte lte : zskiplistNode -> option bool) : option (option loc) :=
  update ← descend (level z) (zsl_fuel z) h 64 (fun _ _ n => lte n) (header z) 0;
  '(x, _) ← update !! 0%nat;
  n ← get_node h x;
  b ← gte n;
  Some (if negb b then None else Some x).

Definition score_gte (range : zrangespec) (n : zskiplistNode) : option bool := Some (zslValueGteMin (score n) range).
Definition score_lte (range : zrangespec) (n : zskiplistNode) : option bool := Some (zslValueLteMax (score n) range).

Definition zslIsInRange (h : zheap) (z : zskiplist) (range : zrangespec) : option bool :=
  if SFltb (rmax range) (rmin range) || SFeqb (rmin range) (rmax range) && (minex range || maxex range) then Some false
  else is_in h z (score_gte range) (score_lte range).

Definition zslFirstInRange (h : zheap) (z : zskiplist) (range : zrangespec) : option (option loc) :=
  b ← zslIsInRange h z range;
  if negb b then Some None else first_in h z (score_gte range) (score_lte range).

Definition zslLastInRange (h : zheap) (z : zskiplist) (range : zrangespec) : option (option loc) :=
  b ← zslIsInRange h z range;
  if negb b then Some None else last_in h z (score_gte range) (score_lte range).

(** ** Lexicographic ranges *)

(** [shared.minstring], [shared.maxstring], or a string. *)
Inductive lexbound := MinString | MaxString | LexStr (b : bytes).

Definition sdscmplex (a b : lexbound) : Z :=
  match a, b with
  | MinString, MinString | MaxString, MaxString => 0
  | MinString, _ | _, MaxString => -1
  | MaxString, _ | _, MinString => 1
  | LexStr a, LexStr b => cmp_contents a b
  end.

Record zlexrangespec := mkLexRange { lmin : lexbound; lmax : lexbound; lminex : bool; lmaxex : bool }.

(** The bound and whether it is exclusive; [None] is [C_ERR]. *)
Definition zslParseLexRangeItem (item : bytes) : option (lexbound * bool) :=
  match item with
  | 43 :: rest => match rest with [] | 0 :: _ => Some (MaxString, true) | _ => None end
  | 45 :: rest => match rest with [] | 0 :: _ => Some (MinString, true) | _ => None end
  | 40 :: rest => Some (LexStr rest, true)
  | 91 :: rest => Some (LexStr rest, false)
  | _ => None
  end.

(** The arguments are not integer encoded ([Some]), or are ([None]). *)
Definition zslParseLexRange (min max : option bytes) : option zlexrangespec :=
  match min, max with
  | Some min, Some max =>
    '(lo, loex) ← zslParseLexRangeItem min;
    '(hi, hiex) ← zslParseLexRangeItem max;
    Some (mkLexRange lo hi loex hiex)
  | _, _ => None
  end.

Definition zslLexValueGteMin (value : bytes) (spec : zlexrangespec) : bool :=
  if lminex spec then sdscmplex (LexStr value) (lmin spec) >? 0 else sdscmplex (LexStr value) (lmin spec) >=? 0.
Definition zslLexValueLteMax (value : bytes) (spec : zlexrangespec) : bool :=
  if lmaxex spec then sdscmplex (LexStr value) (lmax spec) <? 0 else sdscmplex (LexStr value) (lmax spec) <=? 0.

Definition lex_gte (range : zlexrangespec) (n : zskiplistNode) : option bool := e ← ele n; Some (zslLexValueGteMin e range).
Definition lex_lte (range : zlexrangespec) (n : zskiplistNode) : option bool := e ← ele n; Some (zslLexValueLteMax e range).

Definition zslIsInLexRange (h : zheap) (z : zskiplist) (range : zlexrangespec) : option bool :=
  let cmp := sdscmplex (lmin range) (lmax range) in
  if (cmp >? 0) || (cmp =? 0) && (lminex range || lmaxex range) then Some false
  else is_in h z (lex_gte range) (lex_lte range).

Definition zslFirstInLexRange (h : zheap) (z : zskiplist) (range : zlexrangespec) : option (option loc) :=
  b ← zslIsInLexRange h z range;
  if negb b then Some None else first_in h z (lex_gte range) (lex_lte range).

Definition zslLastInLexRange (h : zheap) (z : zskiplist) (range : zlexrangespec) : option (option loc) :=
  b ← zslIsInLexRange h z range;
  if negb b then Some None else last_in h z (lex_gte range) (lex_lte range).

(** ** Ranks *)

(** The levels of [zslGetRank], from [n-1] down. *)
Fixpoint rank_loop (n : nat) (fuel : nat) (h : zheap) (sc : double) (e : bytes) (x : loc) (rank : Z) : option Z :=
  match n with
  | O => Some 0
  | S i =>
    '(x, rank) ← walk fuel h 64 i (before_eq sc e) x rank;
    nd ← get_node h x;
    if match ele nd with Some xe => cmp_contents xe e =? 0 | None => false end then Some rank
    else rank_loop i fuel h sc e x rank
  end.

Definition zslGetRank (h : zheap) (z : zskiplist) (sc : double) (e : bytes) : option Z :=
  rank_loop (level z) (zsl_fuel z) h sc e (header z) 0.

(** [(traversed + x->level[i].span) <= rank], and [< start]. *)
Definition upto (rank : Z) (r s : Z) (n : zskiplistNode) : option bool := Some (uwrap 64 (r + s) <=? rank).
Definition below (start : Z) (r s : Z) (n : zskiplistNode) : option bool := Some (uwrap 64 (r + s) <? start).

Fixpoint byrank_loop (n : nat) (fuel : nat) (h : zheap) (rank : Z) (x : loc) (traversed : Z) : option (option loc) :=
  match n with
  | O => Some None
  | S i =>
    '(x, traversed) ← walk fuel h 64 i (upto rank) x traversed;
    if traversed =? rank then Some (Some x) else byrank_loop i fuel h rank x traversed
  end.

Definition zslGetElementByRank (h : zheap) (z : zskiplist) (rank : Z) : option (option loc) :=
  byrank_loop (level z) (zsl_fuel z) h rank (header z) 0.

(** ** Deletion of ranges *)

(** What the sorted set asks of its dictionary. *)
Class ElemDict (D : Type) := { ed_delete : D -> bytes -> option D }.

Section ranges.
Context {D : Type} `{ED : ElemDict D}.

(** [while (x && cond(x))]: delete the node, its entry in the dictionary, and
    free it; returns the number of nodes removed. [cond] is given the number
    already removed. *)
Fixpoint delete_loop (fuel : nat) (h : zheap) (z : zskiplist) (d : D) (update : list (loc * Z)) (x : option loc)
  (cond : Z -> zskiplistNode -> option bool) (removed : Z) : option (zheap * zskiplist * D * Z) :=
  match fuel, x with
  | _, None => Some (h, z, d, removed)
  | O, Some _ => None
  | S fuel, Some x =>
    n ← get_node h x;
    c ← cond removed n;
    if c : bool then
      l ← get_level h x 0;
      '(h, z) ← zslDeleteNode h z x update;
      e ← ele n;
      d ← ed_delete d e;
      h ← zslFreeNode h x;
      delete_loop fuel h z d update (forward l) cond (uwrap 64 (removed + 1))
    else Some (h, z, d, removed)
  end.

Definition delete_range (h : zheap) (z : zskiplist) (d : D) (seek : Z -> Z -> zskiplistNode -> option bool)
  (cond : Z -> Z -> zskiplistNode -> option bool) : option (zheap * zskiplist * D * Z) :=
  update ← descend (level z) (zsl_fuel z) h 64 seek (header z) 0;
  '(_, traversed) ← update !! 0%nat;
  x ← next_of h update;
  delete_loop (zsl_fuel z) h z d update x (cond traversed) 0.

Definition zslDeleteRangeByScore (h : zheap) (z : zskiplist) (range : zrangespec) (d : D) : option (zheap * zskiplist * D * Z) :=
  delete_range h z d (fun _ _ n => b ← score_gte range n; Some (negb b)) (fun _ _ n => score_lte range n).

Definition zslDeleteRangeByLex (h : zheap) (z : zskiplist) (range : zlexrangespec) (d : D) : option (zheap * zskiplist * D * Z) :=
  delete_range h z d (fun _ _ n => b ← lex_gte range n; Some (negb b)) (fun _ _ n => lex_lte range n).

(** [start] and [end_] are 1-based; [traversed] is one more after each
    removal. *)
Definition zslDeleteRangeByRank (h : zheap) (z : zskiplist) (start end_ : Z) (d : D) : option (zheap * zskiplist * D * Z) :=
  delete_range h z d (below start) (fun traversed removed _ => Some (uwrap 64 (traversed + 1 + removed) <=? end_)).
End ranges.
End zsl.
