(* ===== verification/ZskiplistSpec.v ===== *)
(** Correctness of the skiplist of [Zskiplist.v].

    [zrep h z hd els] says that the skiplist [z] in the heap [h] holds the nodes
    [els], in strict order of score and element: at each level the forward
    pointer and the span of a node are the next node of that height and its
    distance. The theorems relate each operation to the sorted list. *)
From Stdlib Require Import SpecFloat Sorted.
From stdpp Require Import gmap.
From S2P Require Import Prelude Sds SdsSpec SdsOps Zskiplist.
Open Scope Z_scope.

(** * The order of the nodes *)

(** A score as a sequence of integers whose lexicographic order is the order of
    the scores: the sign class, the exponent and the mantissa. *)
Definition fkey (f : spec_float) : bytes :=
  match f with
  | S754_zero _ => [0; 0; 0]
  | S754_infinity s => [if s then -2 else 2; 0; 0]
  | S754_nan => [3; 0; 0]
  | S754_finite s m e => if s then [-1; - e; - Zpos m] else [1; e; Zpos m]
  end.

Lemma length_fkey f : length (fkey f) = 3%nat.
Proof. by destruct f as [| | |[] ? ?]. Qed.

Lemma compare_opp a b : (- a ?= - b) = CompOpp (a ?= b).
Proof. rewrite Z.compare_opp, Z.compare_antisym. done. Qed.

Lemma SFcompare_lex a b : isnan a = false -> isnan b = false -> SFcompare a b = Some (lex (fkey a) (fkey b)).
Proof.
  destruct a as [sa|[]| |[] ma ea], b as [sb|[]| |[] mb eb]; try done; intros _ _; cbn [SFcompare fkey lex];
    change (-1 ?= -1) with Eq; change (1 ?= 1) with Eq; cbn iota.
  - rewrite compare_opp. destruct (ea ?= eb); cbn [CompOpp]; try done.
    change (Z.neg ma) with (- Zpos ma). change (Z.neg mb) with (- Zpos mb). rewrite compare_opp. cbn [Z.compare].
    change (PosDef.Pos.compare_cont Eq ma mb) with (Pos.compare ma mb). by destruct (Pos.compare ma mb).
  - destruct (ea ?= eb); try done. cbn [Z.compare].
    change (PosDef.Pos.compare_cont Eq ma mb) with (Pos.compare ma mb). by destruct (Pos.compare ma mb).
Qed.

Lemma SFltb_lex a b : isnan a = false -> isnan b = false -> SFltb a b = bool_decide (lex (fkey a) (fkey b) = Lt).
Proof. intros Ha Hb. unfold SFltb. rewrite SFcompare_lex by done. by destruct (lex _ _). Qed.

Lemma SFleb_lex a b : isnan a = false -> isnan b = false -> SFleb a b = negb (bool_decide (lex (fkey a) (fkey b) = Gt)).
Proof. intros Ha Hb. unfold SFleb. rewrite SFcompare_lex by done. by destruct (lex _ _). Qed.

Lemma SFeqb_lex a b : isnan a = false -> isnan b = false -> SFeqb a b = bool_decide (fkey a = fkey b).
Proof.
  intros Ha Hb. unfold SFeqb. rewrite SFcompare_lex by done. destruct (lex (fkey a) (fkey b)) eqn:E.
  - apply lex_eq in E. by rewrite bool_decide_true.
  - rewrite bool_decide_false; [done|]. intros Ek. rewrite (proj2 (lex_eq _ _) Ek) in E. done.
  - rewrite bool_decide_false; [done|]. intros Ek. rewrite (proj2 (lex_eq _ _) Ek) in E. done.
Qed.

Lemma lex_app (p q a b : bytes) : length p = length q -> lex (p ++ a) (q ++ b) = match lex p q with Eq => lex a b | c => c end.
Proof.
  revert q. induction p as [|x p IH]; intros [|y q] Hl; try done. cbn [app lex]. destruct (x ?= y); [|done|done].
  apply IH. cbn in Hl. lia.
Qed.

(** The key of a node: its score, then its element. *)
Definition zkey (sc : spec_float) (e : bytes) : bytes := fkey sc ++ e.

Lemma zkey_lex s1 e1 s2 e2 : lex (zkey s1 e1) (zkey s2 e2) = match lex (fkey s1) (fkey s2) with Eq => lex e1 e2 | c => c end.
Proof. apply lex_app. by rewrite !length_fkey. Qed.

Lemma sign_lt z : (z <? 0) = bool_decide (sign z = Lt).
Proof. unfold sign. destruct (Z.compare_spec z 0); destruct (Z.ltb_spec z 0); done || lia. Qed.
Lemma sign_eq z : (z =? 0) = bool_decide (sign z = Eq).
Proof. unfold sign. destruct (Z.compare_spec z 0); destruct (Z.eqb_spec z 0); done || lia. Qed.
Lemma sign_le z : (z <=? 0) = negb (bool_decide (sign z = Gt)).
Proof. unfold sign. destruct (Z.compare_spec z 0); destruct (Z.leb_spec z 0); done || lia. Qed.

Lemma before_lex sc e r s (n : zskiplistNode) ne : ele n = Some ne -> isnan sc = false -> isnan (score n) = false ->
  before sc e r s n = Some (bool_decide (lex (zkey (score n) ne) (zkey sc e) = Lt)).
Proof.
  intros En Hs Hn. unfold before. rewrite En. cbn [mbind option_bind]. f_equal.
  rewrite SFltb_lex, SFeqb_lex, sign_lt, cmp_lex, zkey_lex by done.
  destruct (lex (fkey (score n)) (fkey sc)) eqn:E; cbn [orb].
  - apply lex_eq in E. by rewrite (bool_decide_true (fkey (score n) = fkey sc)) by done.
  - done.
  - rewrite (bool_decide_false (fkey (score n) = fkey sc)); [done|].
    intros Ek. rewrite (proj2 (lex_eq _ _) Ek) in E. done.
Qed.

Lemma before_eq_lex sc e r s (n : zskiplistNode) ne : ele n = Some ne -> isnan sc = false -> isnan (score n) = false ->
  before_eq sc e r s n = Some (negb (bool_decide (lex (zkey (score n) ne) (zkey sc e) = Gt))).
Proof.
  intros En Hs Hn. unfold before_eq. rewrite En. cbn [mbind option_bind]. f_equal.
  rewrite SFltb_lex, SFeqb_lex, sign_le, cmp_lex, zkey_lex by done.
  destruct (lex (fkey (score n)) (fkey sc)) eqn:E; cbn [orb].
  - apply lex_eq in E. by rewrite (bool_decide_true (fkey (score n) = fkey sc)) by done.
  - done.
  - rewrite (bool_decide_false (fkey (score n) = fkey sc)); [done|].
    intros Ek. rewrite (proj2 (lex_eq _ _) Ek) in E. done.
Qed.

(** * Representation *)

(** A node as the specification sees it: its address, its contents (no element
    for the header) and its height. *)
Record snode := mkS { s_addr : Z; s_score : spec_float; s_ele : option bytes; s_ht : nat }.

Definition skey (n : snode) : bytes := zkey (s_score n) (default [] (s_ele n)).
Definition slt (a b : snode) : Prop := lex (skey a) (skey b) = Lt.

(** The cell of level [i] of a node followed by [l]: the first node of [l] that
    is higher than [i] and its distance, or the distance to the end. *)
Fixpoint nxt (i : nat) (l : list snode) : zskiplistLevel :=
  match l with
  | [] => mkLevel None 0
  | n :: l => if (i <? s_ht n)%nat then mkLevel (Some (s_addr n)) 1 else mkLevel (forward (nxt i l)) (span (nxt i l) + 1)
  end.

(** The backward pointer of a node preceded by [u], the header first. *)
Definition backp (u : list snode) : option Z := s_addr <$> last (drop 1 u).

Definition low (i : nat) (l : list snode) : Prop := Forall (fun n => (s_ht n <= i)%nat) l.

Definition node_ok (n : snode) : Prop := (1 <= s_ht n <= 32)%nat /\ is_Some (s_ele n) /\ isnan (s_score n) = false.

Definition node_at (u : list snode) (n : snode) : zskiplistNode := mkZNode (s_ele n) (s_score n) (backp u) (s_ht n).

Record zrep (h : zheap) (z : zskiplist) (hd : snode) (els : list snode) : Prop := {
  zr_header : header z = s_addr hd;
  zr_hd : s_ht hd = ZSKIPLIST_MAXLEVEL /\ s_ele hd = None;
  zr_nodes : forall u n w, hd :: els = u ++ n :: w -> znodes h !! s_addr n = Some (node_at u n);
  zr_cells : forall u n w i, hd :: els = u ++ n :: w -> (i < s_ht n)%nat -> (i < level z)%nat ->
    zlevels h !! (s_addr n, i) = Some (nxt i w);
  zr_top : forall i, (level z <= i < ZSKIPLIST_MAXLEVEL)%nat -> exists sp, zlevels h !! (s_addr hd, i) = Some (mkLevel None sp);
  zr_tail : tail z = backp (hd :: els);
  zr_len : length_ z = zlen els;
  zr_bound : zlen els < 2 ^ 32 - 1;
  zr_level : (1 <= level z <= ZSKIPLIST_MAXLEVEL)%nat;
  zr_low : low (level z) els;
  zr_high : level z = 1%nat \/ Exists (fun n => s_ht n = level z) els;
  zr_ok : Forall node_ok els;
  zr_nodup : NoDup (s_addr <$> (hd :: els));
  zr_sorted : StronglySorted slt els
}.

(** ** The next node of a level *)

Lemma nxt_low i v l : low i v -> nxt i (v ++ l) = mkLevel (forward (nxt i l)) (span (nxt i l) + zlen v).
Proof.
  induction 1 as [|n v Hn Hv IH]; cbn [app nxt length].
  - destruct (nxt i l) as [f s]. cbn. f_equal. lia.
  - replace (i <? s_ht n)%nat with false by lia. rewrite IH. cbn [forward span]. f_equal. lia.
Qed.

Lemma nxt_found i v n l : low i v -> (i < s_ht n)%nat -> nxt i (v ++ n :: l) = mkLevel (Some (s_addr n)) (zlen v + 1).
Proof.
  intros Hv Hn. rewrite nxt_low by done. cbn [nxt]. replace (i <? s_ht n)%nat with true by lia. cbn [forward span]. f_equal. lia.
Qed.

Lemma low_or_found i v : low i v \/ exists v1 n v2, v = v1 ++ n :: v2 /\ low i v1 /\ (i < s_ht n)%nat.
Proof.
  induction v as [|n v [IH|(v1 & m & v2 & -> & H1 & H2)]]; [left; constructor| |].
  - destruct (decide (i < s_ht n)%nat); [right; exists [], n, v; split_and!; [done|constructor|done]|left; constructor; [lia|done]].
  - destruct (decide (i < s_ht n)%nat); [right; exists [], n, (v1 ++ m :: v2); split_and!; [done|constructor|done]|].
    right. exists (n :: v1), m, v2. split_and!; [done|constructor; [lia|done]|done].
Qed.

Lemma nxt_span i l : 0 <= span (nxt i l) <= zlen l.
Proof.
  induction l as [|n l IH]; [cbn; lia|]. cbn [nxt length]. destruct (i <? s_ht n)%nat; cbn [span]; lia.
Qed.

Lemma nxt_None i l : low i l -> forward (nxt i l) = None.
Proof. intros Hl. rewrite <- (app_nil_r l), nxt_low by done. done. Qed.

(** ** Walking and descending

    [els = l1 ++ l2], and the condition of the loops holds exactly of the nodes
    of [l1]. *)
Definition splits (els l1 l2 : list snode) (cond : Z -> Z -> zskiplistNode -> option bool) : Prop :=
  els = l1 ++ l2 /\
  forall u n w r s nd, els = u ++ n :: w -> 0 <= r -> 0 <= s -> r + s = zlen u + 1 -> ele nd = s_ele n -> score nd = s_score n ->
    cond r s nd = Some (bool_decide (length u < length l1)%nat).

(** The last node of [hd :: l1] that is higher than [i], and its position. *)
Definition pred (hd : snode) (l1 : list snode) (i : nat) (p : Z * Z) : Prop :=
  exists u y v, hd :: l1 = u ++ y :: v /\ (i < s_ht y)%nat /\ low i v /\ p = (s_addr y, zlen u).

Section search.
Context (h : zheap) (z : zskiplist) (hd : snode) (els l1 l2 : list snode) (w : Z) (cond : Z -> Z -> zskiplistNode -> option bool).
Context (Hrep : zrep h z hd els) (Hsplit : splits els l1 l2 cond) (Hw : 32 <= w).

Lemma walk_ok i (Hi : (i < level z)%nat) : forall fuel u x v, hd :: l1 = u ++ x :: v -> (i < s_ht x)%nat -> (length v < fuel)%nat ->
  exists p, walk fuel h w i cond (s_addr x) (zlen u) = Some p /\ pred hd l1 i p.
Proof.
  destruct Hsplit as [Els Hc]. induction fuel as [|fuel IH]; intros u x v E Hx Hf; [lia|]. cbn [walk].
  assert (Ecell : hd :: els = u ++ x :: (v ++ l2)) by (rewrite Els, app_comm_cons, E, <- app_assoc; done).
  unfold get_level. rewrite (zr_cells _ _ _ _ Hrep _ _ _ _ Ecell Hx Hi). cbn [mbind option_bind].
  assert (Hu : zlen u + zlen v = zlen l1) by (apply (f_equal length) in E; rewrite length_app in E; cbn [length] in E; lia).
  pose proof (zr_bound _ _ _ _ Hrep) as HB. rewrite Els, length_app in HB.
  destruct (low_or_found i v) as [Hlow|(v1 & m & v2 & -> & Hv1 & Hm)].
  - assert (Hp : pred hd l1 i (s_addr x, zlen u)) by (by exists u, x, v).
    rewrite nxt_low by done. cbn [forward span]. destruct (low_or_found i l2) as [Hl2|(k1 & m & k2 & Ek & Hk1 & Hm)].
    + rewrite nxt_None by done. eauto.
    + rewrite Ek, nxt_found by done. cbn [forward span].
      assert (Em : hd :: els = (hd :: l1 ++ k1) ++ m :: k2) by (rewrite Els, Ek; cbn; by rewrite <- app_assoc).
      unfold get_node. rewrite (zr_nodes _ _ _ _ Hrep _ _ _ Em). cbn [mbind option_bind].
      rewrite (Hc (l1 ++ k1) m k2); [|rewrite Els, Ek, <- app_assoc; done|lia|lia|rewrite length_app; lia|done|done].
      cbn [mbind option_bind]. rewrite bool_decide_false by (rewrite length_app; lia). eauto.
  - rewrite <- app_assoc. cbn [app]. rewrite nxt_found by done. cbn [forward span].
    assert (Em : hd :: els = (u ++ x :: v1) ++ m :: (v2 ++ l2)) by (rewrite Ecell, <- !app_assoc; cbn [app]; rewrite <- ?app_assoc; done).
    unfold get_node. rewrite (zr_nodes _ _ _ _ Hrep _ _ _ Em). cbn [mbind option_bind].
    destruct u as [|x0 u]; [|injection E as <- E].
    + injection E as <- E. rewrite (Hc v1 m (v2 ++ l2)); [|rewrite Els, E, <- app_assoc; done|cbn; lia|lia|cbn; lia|done|done].
      cbn [mbind option_bind]. rewrite bool_decide_true by (rewrite E, length_app; cbn; lia).
      rewrite uwrap_small by (unfold in_u; pose proof (Z.pow_le_mono_r 2 32 w ltac:(lia) Hw); rewrite length_app in Hu; cbn [length] in *; lia).
      replace (Z.of_nat (length []) + (zlen v1 + 1)) with (zlen (hd :: v1)) by (cbn [length]; lia).
      apply (IH (hd :: v1) m v2); [by rewrite E|done|rewrite length_app in Hf; cbn in Hf; lia].
    + rewrite (Hc (u ++ x :: v1) m (v2 ++ l2)); [|rewrite Els, E, <- !app_assoc; cbn [app]; rewrite <- ?app_assoc; done|cbn [length]; lia|lia|rewrite length_app; cbn [length]; lia|done|done].
      cbn [mbind option_bind]. rewrite bool_decide_true by (rewrite E, !length_app; cbn [length]; rewrite length_app; cbn [length]; lia).
      rewrite uwrap_small by (unfold in_u; pose proof (Z.pow_le_mono_r 2 32 w ltac:(lia) Hw); rewrite length_app in Hu; cbn [length] in *; lia).
      replace (zlen (hd :: u) + (zlen v1 + 1)) with (zlen (hd :: u ++ x :: v1)) by (cbn [length]; rewrite length_app; cbn [length]; lia).
      apply (IH (hd :: u ++ x :: v1) m v2); [rewrite E; cbn; by rewrite <- app_assoc|done|rewrite length_app in Hf; cbn in Hf; lia].
Qed.

(** The arrays filled by the descent. *)
Definition preds (n : nat) (update : list (Z * Z)) : Prop :=
  forall i, (i < n)%nat -> exists p, update !! i = Some p /\ pred hd l1 i p.

Lemma descend_ok n : forall u x v, hd :: l1 = u ++ x :: v -> (n <= s_ht x)%nat -> (n <= level z)%nat ->
  exists update, descend n (zsl_fuel z) h w cond (s_addr x) (zlen u) = Some update /\ length update = n /\ preds n update.
Proof.
  induction n as [|n IH]; intros u x v E Hx Hn; cbn [descend]; [exists []; split; [done|]; split; [done|]; intros i Hi; lia|].
  destruct (walk_ok n ltac:(lia) (zsl_fuel z) u x v E ltac:(lia)) as (p & -> & Hp).
  { unfold zsl_fuel. rewrite (zr_len _ _ _ _ Hrep). destruct Hsplit as [-> _]. apply (f_equal length) in E.
    rewrite length_app in *. cbn [length] in E. lia. }
  cbn [mbind option_bind]. destruct (Hp) as (u' & y & v' & E' & Hy & Hv' & ->).
  destruct (IH u' y v' E' ltac:(lia) ltac:(lia)) as (rest & -> & Hl & Hr). cbn [mbind option_bind].
  eexists. split; [done|]. split; [rewrite length_app; cbn; lia|]. intros i Hi.
  destruct (decide (i = n)) as [->|Hne].
  - exists (s_addr y, zlen u'). split; [by rewrite list_lookup_middle|done].
  - destruct (Hr i ltac:(lia)) as (q & Eq & Hq). exists q. split; [|done]. rewrite lookup_app_l by lia. done.
Qed.

Lemma descend_header : exists update, descend (level z) (zsl_fuel z) h w cond (header z) 0 = Some update
  /\ length update = level z /\ preds (level z) update.
Proof.
  rewrite (zr_header _ _ _ _ Hrep). apply (descend_ok (level z) [] hd l1); [done| |done].
  destruct (zr_hd _ _ _ _ Hrep) as [-> _]. apply (zr_level _ _ _ _ Hrep).
Qed.
End search.

(** * Loops over levels *)

Lemma set_level_ok h a i l c : zlevels h !! (a, i) = Some c ->
  set_level h a i l = Some (mkZHeap (znodes h) (<[(a, i) := l]> (zlevels h))).
Proof. intros E. unfold set_level, get_level. by rewrite E. Qed.

(** When the step at [j] writes only cells of index [j], which become [f j],
    the loop does it for each index of its range. *)
Lemma for_range_ok (step : nat -> zheap -> option zheap) (f : nat -> Z -> option zskiplistLevel) : forall n i h0,
  (forall j h, (i <= j < i + n)%nat -> (forall b, zlevels h !! (b, j) = zlevels h0 !! (b, j)) ->
     exists h', step j h = Some h' /\ znodes h' = znodes h
       /\ (forall b k, k <> j -> zlevels h' !! (b, k) = zlevels h !! (b, k)) /\ (forall b, zlevels h' !! (b, j) = f j b)) ->
  exists h', for_range n i step h0 = Some h' /\ znodes h' = znodes h0
    /\ forall b j, zlevels h' !! (b, j) = if (i <=? j)%nat && (j <? i + n)%nat then f j b else zlevels h0 !! (b, j).
Proof.
  induction n as [|n IH]; intros i h0 Hstep; cbn [for_range].
  - exists h0. split; [done|]. split; [done|]. intros b j. by replace (_ && _) with false by lia.
  - destruct (Hstep i h0) as (h1 & -> & Hn1 & Ho1 & Hf1); [lia|done|]. cbn [mbind option_bind].
    destruct (IH (S i) h1) as (h' & -> & Hn' & Hc').
    { intros j h Hj Hc. apply Hstep; [lia|]. intros b. rewrite Hc. apply Ho1. lia. }
    exists h'. split; [done|]. split; [congruence|]. intros b j. rewrite Hc'.
    destruct (decide (j = i)) as [->|Hne].
    + replace ((S i <=? i)%nat && _) with false by lia. replace (_ && _) with true by lia. apply Hf1.
    + replace ((S i <=? j)%nat && (j <? S i + n)%nat) with ((i <=? j)%nat && (j <? i + S n)%nat) by lia.
      destruct (_ && _); [done|]. by apply Ho1.
Qed.

Lemma alloc_levels_lookup fresh n c a b j :
  alloc_levels fresh n c a !! (b, j) = if bool_decide (b = a) && (j <? n)%nat then Some (fresh j) else c !! (b, j).
Proof.
  induction n as [|n IH]; cbn [alloc_levels]; [by replace (j <? 0)%nat with false by lia; rewrite andb_false_r|].
  destruct (decide ((b, j) = (a, n))) as [[= -> ->]|Hne].
  - rewrite lookup_insert_eq, bool_decide_true by done. by replace (n <? S n)%nat with true by lia.
  - rewrite lookup_insert_ne by done. rewrite IH. destruct (bool_decide_reflect (b = a)) as [->|]; [|done]. cbn [andb].
    assert (j <> n) by congruence. by replace (j <? S n)%nat with (j <? n)%nat by lia.
Qed.

Lemma free_levels_lookup n c a b j :
  free_levels n c a !! (b, j) = if bool_decide (b = a) && (j <? n)%nat then None else c !! (b, j).
Proof.
  induction n as [|n IH]; cbn [free_levels]; [by replace (j <? 0)%nat with false by lia; rewrite andb_false_r|].
  destruct (decide ((b, j) = (a, n))) as [[= -> ->]|Hne].
  - rewrite lookup_delete_eq, bool_decide_true by done. by replace (n <? S n)%nat with true by lia.
  - rewrite lookup_delete_ne by done. rewrite IH. destruct (bool_decide_reflect (b = a)) as [->|]; [|done]. cbn [andb].
    assert (j <> n) by congruence. by replace (j <? S n)%nat with (j <? n)%nat by lia.
Qed.

(** * Positions *)

Lemma nodup_split (L u w u' w' : list snode) n n' : NoDup (s_addr <$> L) -> L = u ++ n :: w -> L = u' ++ n' :: w' ->
  s_addr n = s_addr n' -> u = u' /\ n = n' /\ w = w'.
Proof.
  intros Hnd E E' Ha.
  assert (H1 : L !! length u = Some n) by (rewrite E; by apply list_lookup_middle).
  assert (H2 : L !! length u' = Some n') by (rewrite E'; by apply list_lookup_middle).
  assert (Hl : length u = length u').
  { apply (NoDup_lookup (s_addr <$> L) _ _ (s_addr n)); [done| |]; rewrite list_lookup_fmap; [by rewrite H1|by rewrite H2, Ha]. }
  rewrite E in E'. apply app_inj_1 in E' as [-> [= -> ->]]; done.
Qed.

Lemma app_cons_cases (l1 l2 u w : list snode) x n : l1 ++ x :: l2 = u ++ n :: w ->
  (exists w1, l1 = u ++ n :: w1 /\ w = w1 ++ x :: l2) \/ (u = l1 /\ n = x /\ w = l2) \/ (exists u1, u = l1 ++ x :: u1 /\ l2 = u1 ++ n :: w).
Proof.
  revert u. induction l1 as [|y l1 IH]; intros [|z u] E; cbn in E.
  - injection E as -> ->. right. by left.
  - injection E as <- ->. right. right. by exists u.
  - injection E as <- <-. left. by exists l1.
  - injection E as <- E. destruct (IH u E) as [(w1 & -> & ->)|[(-> & -> & ->)|(u1 & -> & ->)]].
    + left. by exists w1.
    + right. by left.
    + right. right. by exists u1.
Qed.

(** Splits of a list without [x], from splits of one with [x], and back. *)
Lemma app_cases (l1 l2 u w : list snode) n : l1 ++ l2 = u ++ n :: w ->
  (exists w1, l1 = u ++ n :: w1 /\ w = w1 ++ l2) \/ (exists u1, u = l1 ++ u1 /\ l2 = u1 ++ n :: w).
Proof.
  revert u. induction l1 as [|y l1 IH]; intros u E; cbn in E; [right; by exists u|].
  destruct u as [|z u]; injection E as <- E; [left; exists l1; by rewrite E|].
  destruct (IH u E) as [(w1 & -> & ->)|(u1 & -> & ->)]; [left; by exists w1|right; by exists u1].
Qed.

Lemma backp_snoc u n : u <> [] -> backp (u ++ [n]) = Some (s_addr n).
Proof. intros Hu. destruct u as [|x u]; [done|]. unfold backp. change (drop 1 ((x :: u) ++ [n])) with (u ++ [n]). by rewrite last_snoc. Qed.

Lemma backp_app u n w : u <> [] -> backp (u ++ n :: w) = backp (n :: n :: w).
Proof.
  intros Hu. destruct u as [|x u]; [done|]. unfold backp.
  change (drop 1 ((x :: u) ++ n :: w)) with (u ++ n :: w). by rewrite last_app_cons.
Qed.

(** The cells of the levels below [zl]. *)
Definition cells_ok (h : zheap) (ns : list snode) (zl : nat) : Prop :=
  forall u n w i, ns = u ++ n :: w -> (i < s_ht n)%nat -> (i < zl)%nat -> zlevels h !! (s_addr n, i) = Some (nxt i w).

Lemma pred_cell h hd l1 l2 zl i a r : cells_ok h (hd :: l1 ++ l2) zl -> (i < zl)%nat -> pred hd l1 i (a, r) ->
  exists v, low i v /\ zlevels h !! (a, i) = Some (mkLevel (forward (nxt i l2)) (span (nxt i l2) + zlen v)) /\ r + zlen v = zlen l1.
Proof.
  intros Hc Hi (u & y & v & E & Hy & Hv & [= -> ->]). exists v. split; [done|]. split.
  - rewrite (Hc u y (v ++ l2) i); [by rewrite nxt_low|rewrite app_comm_cons, E, <- app_assoc; done|done|done].
  - apply (f_equal length) in E. rewrite length_app in E. cbn [length] in E. lia.
Qed.

(** The predecessor at level 0 is the last node before the position. *)
Lemma pred0 hd l1 p : Forall node_ok l1 -> pred hd l1 0 p ->
  p = (default (s_addr hd) (backp (hd :: l1)), zlen l1).
Proof.
  intros Hok (u & y & v & E & Hy & Hv & ->). destruct v as [|n v].
  - destruct u as [|x u]; injection E as <- ->; [done|]. rewrite app_comm_cons, backp_snoc by done. cbn. f_equal. rewrite length_app. cbn. lia.
  - exfalso. apply Forall_cons in Hv as [Hn _]. destruct u as [|x u]; injection E as <- ->.
    + apply Forall_cons in Hok as [[? _] _]. lia.
    + apply Forall_app in Hok as [_ Hok]. apply Forall_cons in Hok as [_ Hok]. apply Forall_cons in Hok as [[? _] _]. lia.
Qed.

Lemma two_splits (L u w u' w' : list snode) n n' : L = u ++ n :: w -> L = u' ++ n' :: w' ->
  (u = u' /\ n = n' /\ w = w') \/ n' ∈ w \/ n ∈ w'.
Proof.
  intros E E'. rewrite E in E'. apply app_cons_cases in E' as [(w1 & -> & ->)|[(-> & -> & ->)|(u1 & -> & ->)]].
  - right. right. apply elem_of_app. right. left.
  - by left.
  - right. left. apply elem_of_app. right. left.
Qed.

Lemma addr_in (L u w : list snode) n : L = u ++ n :: w -> s_addr n ∈ s_addr <$> L.
Proof. intros ->. apply list_elem_of_fmap. exists n. split; [done|]. apply elem_of_app. right. left. Qed.

Lemma addr_ne (L u w : list snode) n m : NoDup (s_addr <$> L) -> L = u ++ n :: w -> m ∈ w -> s_addr m <> s_addr n.
Proof.
  intros Hnd -> Hm E. rewrite fmap_app, fmap_cons in Hnd. apply NoDup_app in Hnd as (_ & _ & Hnd). apply NoDup_cons in Hnd as [Hnd _].
  apply Hnd. rewrite <- E. apply list_elem_of_fmap. eauto.
Qed.

Lemma not_low i (w : list snode) y : y ∈ w -> (i < s_ht y)%nat -> ~ low i w.
Proof. intros Hy Hi Hl. unfold low in Hl. rewrite Forall_forall in Hl. specialize (Hl y Hy). cbn in Hl. lia. Qed.

(** Inserting or removing a node after a higher one does not change a cell. *)
Lemma nxt_shadow i (w l l' : list snode) : ~ low i w -> nxt i (w ++ l) = nxt i (w ++ l').
Proof.
  intros Hw. destruct (low_or_found i w) as [?|(v1 & m & v2 & -> & Hv1 & Hm)]; [done|].
  rewrite <- !app_assoc. cbn [app]. by rewrite !nxt_found.
Qed.

(** ** Raising the level of the list *)

Lemma grow_levels h z hd els l1 l2 lvl update : zrep h z hd els -> els = l1 ++ l2 -> length update = level z ->
  preds hd l1 (level z) update -> (lvl <= ZSKIPLIST_MAXLEVEL)%nat ->
  exists h1 update1,
    (if (level z <? lvl)%nat then
       h ← for_range (lvl - level z) (level z) (grow_step (header z) (length_ z)) h;
       Some (h, update ++ replicate (lvl - level z) (header z, 0), lvl)
     else Some (h, update, level z)) = Some (h1, update1, Nat.max (level z) lvl)
    /\ znodes h1 = znodes h /\ cells_ok h1 (hd :: els) (Nat.max (level z) lvl) /\ preds hd l1 (Nat.max (level z) lvl) update1
    /\ (forall i, (Nat.max (level z) lvl <= i < ZSKIPLIST_MAXLEVEL)%nat -> exists sp, zlevels h1 !! (s_addr hd, i) = Some (mkLevel None sp))
    /\ (forall b i, b <> s_addr hd -> zlevels h1 !! (b, i) = zlevels h !! (b, i)).
Proof.
  intros Hr Els Hul Hu Hlvl. destruct (Nat.ltb_spec (level z) lvl) as [Hlt|Hge].
  2: { replace (Nat.max (level z) lvl) with (level z) by lia. exists h, update. split; [done|]. split; [done|].
       split; [intros u n w i; apply (zr_cells _ _ _ _ Hr)|]. split; [done|]. split; [apply (zr_top _ _ _ _ Hr)|done]. }
  replace (Nat.max (level z) lvl) with lvl by lia. destruct (zr_hd _ _ _ _ Hr) as [Hht _].
  set (f := fun (j : nat) (b : Z) => if decide (b = s_addr hd) then Some (mkLevel None (zlen els)) else zlevels h !! (b, j)).
  destruct (for_range_ok (grow_step (header z) (length_ z)) f (lvl - level z) (level z) h) as (h1 & E & Hn & Hc).
  { intros j h' Hj Hsame. destruct (zr_top _ _ _ _ Hr j ltac:(lia)) as [sp Esp].
    assert (E' : zlevels h' !! (s_addr hd, j) = Some (mkLevel None sp)) by (rewrite Hsame; done).
    unfold grow_step, get_level. rewrite (zr_header _ _ _ _ Hr), E'. cbn [mbind option_bind forward].
    rewrite (set_level_ok _ _ _ _ _ E'). eexists. split; [done|]. cbn [znodes zlevels]. split; [done|]. split.
    - intros b k Hk. by rewrite lookup_insert_ne by congruence.
    - intros b. unfold f. destruct (decide (b = s_addr hd)) as [->|Hne].
      + rewrite lookup_insert_eq. by rewrite (zr_len _ _ _ _ Hr).
      + rewrite lookup_insert_ne by congruence. apply Hsame. }
  rewrite E. cbn [mbind option_bind]. exists h1, (update ++ replicate (lvl - level z) (header z, 0)). split; [done|]. split; [done|].
  split_and!.
  - intros u n w i En Hi Hil. rewrite Hc. destruct (decide (i < level z)%nat) as [Hl|Hl].
    + replace (_ && _) with false by lia. by apply (zr_cells _ _ _ _ Hr u).
    + replace (_ && _) with true by lia. unfold f. destruct u as [|x u]; injection En as <- En.
      * rewrite decide_True by done. f_equal. rewrite <- En. pose proof (zr_low _ _ _ _ Hr) as Hlow.
        rewrite <- (app_nil_r els), nxt_low by (eapply Forall_impl; [exact Hlow|cbn; lia]). by rewrite app_nil_r.
      * exfalso. pose proof (zr_low _ _ _ _ Hr) as Hlow. rewrite En in Hlow. apply Forall_app in Hlow as [_ Hlow].
        apply Forall_cons in Hlow as [Hlow _]. lia.
  - intros i Hi. destruct (decide (i < level z)%nat) as [Hl|Hl].
    + destruct (Hu i Hl) as (p & Ep & Hp). exists p. split; [|done]. rewrite lookup_app_l by lia. done.
    + exists (header z, 0). split; [rewrite lookup_app_r by lia; apply lookup_replicate_2; lia|].
      exists [], hd, l1. split; [done|]. split; [rewrite Hht; lia|]. split; [|by rewrite (zr_header _ _ _ _ Hr)].
      pose proof (zr_low _ _ _ _ Hr) as Hlow. rewrite Els in Hlow. apply Forall_app in Hlow as [Hlow _].
      eapply Forall_impl; [exact Hlow|cbn; lia].
  - intros i Hi. rewrite Hc. replace (_ && _) with false by lia. apply (zr_top _ _ _ _ Hr). lia.
  - intros b i Hb. rewrite Hc. unfold f. by destruct (_ && _); [rewrite decide_False|].
Qed.

(** ** Linking a node *)

Section link.
Context (h1 : zheap) (hd : snode) (l1 l2 : list snode) (zl : nat) (update : list (Z * Z)) (x : snode).
Context (Hcells : cells_ok h1 (hd :: l1 ++ l2) zl) (Hpreds : preds hd l1 zl update).
Context (Hnd : NoDup (s_addr <$> hd :: l1 ++ x :: l2)) (HB : zlen l1 + zlen l2 < 2 ^ 32 - 1).

(** The node and the distance of [update[j]]. *)
Definition upd_addr (j : nat) : Z := (default (0, 0) (update !! j)).1.
Definition upd_dist (j : nat) : Z := zlen l1 - (default (0, 0) (update !! j)).2.

Lemma upd_facts j : (j < zl)%nat -> exists u y v, hd :: l1 = u ++ y :: v /\ (j < s_ht y)%nat /\ low j v
  /\ update !! j = Some (s_addr y, zlen u) /\ upd_addr j = s_addr y /\ upd_dist j = zlen v
  /\ zlevels h1 !! (s_addr y, j) = Some (mkLevel (forward (nxt j l2)) (span (nxt j l2) + zlen v)).
Proof.
  intros Hj. destruct (Hpreds j Hj) as (p & Ep & u & y & v & E & Hy & Hv & ->).
  exists u, y, v. unfold upd_addr, upd_dist. rewrite Ep. cbn. split_and!; try done.
  - apply (f_equal length) in E. rewrite length_app in E. cbn [length] in E. lia.
  - rewrite (Hcells u y (v ++ l2) j); [by rewrite nxt_low|rewrite app_comm_cons, E, <- app_assoc; done|done|done].
Qed.

Lemma old_in_new (n : snode) : n ∈ hd :: l1 \/ n ∈ l2 -> s_addr n <> s_addr x.
Proof.
  intros Hn E. rewrite (app_comm_cons l1 (x :: l2) hd), (fmap_app _ (hd :: l1)) in Hnd. apply NoDup_app in Hnd as (_ & Hd & Hnd).
  destruct Hn as [Hn|Hn].
  - apply (Hd (s_addr n)); [apply list_elem_of_fmap; eauto|]. rewrite E. left.
  - apply NoDup_cons in Hnd as [Hx _]. apply Hx. rewrite <- E. apply list_elem_of_fmap. eauto.
Qed.

Lemma link_loop_ok lvl : (lvl <= zl)%nat -> (forall j, (j < lvl)%nat -> exists c, zlevels h1 !! (s_addr x, j) = Some c) ->
  exists h2, for_range lvl 0 (link_step (s_addr x) (zlen l1) update) h1 = Some h2 /\ znodes h2 = znodes h1
    /\ forall b j, zlevels h2 !! (b, j) =
         if (j <? lvl)%nat then
           if decide (b = upd_addr j) then Some (mkLevel (Some (s_addr x)) (upd_dist j + 1))
           else if decide (b = s_addr x) then Some (nxt j l2) else zlevels h1 !! (b, j)
         else zlevels h1 !! (b, j).
Proof.
  intros Hl Hx.
  destruct (for_range_ok (link_step (s_addr x) (zlen l1) update)
    (fun j b => if decide (b = upd_addr j) then Some (mkLevel (Some (s_addr x)) (upd_dist j + 1))
                else if decide (b = s_addr x) then Some (nxt j l2) else zlevels h1 !! (b, j)) lvl 0 h1) as (h2 & E & Hn & Hc).
  - intros j h Hj Hsame. destruct (upd_facts j ltac:(lia)) as (u & y & v & Es & Hy & Hv & Eu & Ea & Ed & Ec).
    destruct (Hx j ltac:(lia)) as [c Ex]. unfold link_step, get_level. rewrite Eu. cbn [mbind option_bind].
    rewrite Hsame, Ec. cbn [mbind option_bind forward span].
    assert (Hlen : zlen u + zlen v = zlen l1) by (apply (f_equal length) in Es; rewrite length_app in Es; cbn [length] in Es; lia).
    pose proof (nxt_span j l2) as Hsp.
    rewrite (uwrap_small 32 (zlen l1 - zlen u)) by (unfold in_u; lia). rewrite (uwrap_small 32 (zlen l1 - zlen u + 1)) by (unfold in_u; lia).
    rewrite uwrap_small by (unfold in_u; lia).
    assert (Hyx : s_addr y <> s_addr x) by (apply old_in_new; left; rewrite Es; apply elem_of_app; right; left).
    rewrite (set_level_ok h _ _ _ c) by (by rewrite Hsame). cbn [mbind option_bind].
    rewrite (set_level_ok _ _ _ _ (mkLevel (forward (nxt j l2)) (span (nxt j l2) + zlen v)))
      by (cbn [zlevels]; rewrite lookup_insert_ne by congruence; by rewrite Hsame).
    eexists. split; [done|]. cbn [znodes zlevels]. split; [done|]. split.
    + intros b k Hk. by rewrite !lookup_insert_ne by congruence.
    + intros b. rewrite Ea, Ed. destruct (decide (b = s_addr y)) as [->|Hne].
      * rewrite lookup_insert_eq. do 2 f_equal. lia.
      * rewrite lookup_insert_ne by congruence. destruct (decide (b = s_addr x)) as [->|Hbx].
        -- rewrite lookup_insert_eq. f_equal. destruct (nxt j l2) as [fw0 sp0]. cbn [forward span]. f_equal. lia.
        -- rewrite lookup_insert_ne by congruence. apply Hsame.
  - exists h2. split; [done|]. split; [done|]. intros b j. rewrite Hc. by replace ((0 <=? j)%nat && (j <? 0 + lvl)%nat) with (j <? lvl)%nat by lia.
Qed.

Lemma span_loop_ok lvl h2 : (lvl <= zl)%nat -> (forall b j, (lvl <= j)%nat -> zlevels h2 !! (b, j) = zlevels h1 !! (b, j)) ->
  exists h3, for_range (zl - lvl) lvl (span_step update) h2 = Some h3 /\ znodes h3 = znodes h2
    /\ forall b j, zlevels h3 !! (b, j) =
         if (lvl <=? j)%nat && (j <? zl)%nat then
           if decide (b = upd_addr j) then Some (mkLevel (forward (nxt j l2)) (span (nxt j l2) + upd_dist j + 1)) else zlevels h1 !! (b, j)
         else zlevels h2 !! (b, j).
Proof.
  intros Hl H2.
  destruct (for_range_ok (span_step update)
    (fun j b => if decide (b = upd_addr j) then Some (mkLevel (forward (nxt j l2)) (span (nxt j l2) + upd_dist j + 1)) else zlevels h1 !! (b, j))
    (zl - lvl) lvl h2) as (h3 & E & Hn & Hc).
  - intros j h Hj Hsame. destruct (upd_facts j ltac:(lia)) as (u & y & v & Es & Hy & Hv & Eu & Ea & Ed & Ec).
    unfold span_step, get_level. rewrite Eu. cbn [mbind option_bind].
    assert (Ec' : zlevels h !! (s_addr y, j) = Some (mkLevel (forward (nxt j l2)) (span (nxt j l2) + zlen v))) by (rewrite Hsame, H2 by lia; done).
    rewrite Ec'. cbn [mbind option_bind forward span]. rewrite (set_level_ok _ _ _ _ _ Ec').
    assert (Hlen : zlen u + zlen v = zlen l1) by (apply (f_equal length) in Es; rewrite length_app in Es; cbn [length] in Es; lia).
    pose proof (nxt_span j l2) as Hsp. rewrite uwrap_small by (unfold in_u; lia).
    eexists. split; [done|]. cbn [znodes zlevels]. split; [done|]. split.
    + intros b k Hk. by rewrite lookup_insert_ne by congruence.
    + intros b. rewrite Ea, Ed. destruct (decide (b = s_addr y)) as [->|Hne]; [by rewrite lookup_insert_eq|].
      rewrite lookup_insert_ne by congruence. rewrite Hsame. apply H2. lia.
  - exists h3. split; [done|]. split; [done|]. intros b j. rewrite Hc. by replace (lvl + (zl - lvl))%nat with zl by lia.
Qed.

Lemma linked_cells h3 : (s_ht x <= zl)%nat ->
  (forall b j, (j < zl)%nat -> zlevels h3 !! (b, j) =
     if decide (b = upd_addr j) then
       Some (if (j <? s_ht x)%nat then mkLevel (Some (s_addr x)) (upd_dist j + 1)
             else mkLevel (forward (nxt j l2)) (span (nxt j l2) + upd_dist j + 1))
     else if (j <? s_ht x)%nat && bool_decide (b = s_addr x) then Some (nxt j l2) else zlevels h1 !! (b, j)) ->
  cells_ok h3 (hd :: l1 ++ x :: l2) zl.
Proof.
  intros Hx Hc u n w i E Hi Hil. rewrite Hc by done. destruct (upd_facts i Hil) as (u' & y & v & Es & Hy & Hv & _ & -> & -> & _).
  rewrite app_comm_cons in E.
  assert (HL : forall m, m ∈ hd :: l1 -> m ∈ hd :: l1 \/ m ∈ l2) by auto.
  assert (Hold : hd :: l1 ++ l2 = (hd :: l1) ++ l2) by done.
  assert (Hyin : y ∈ hd :: l1) by (rewrite Es; apply elem_of_app; right; left).
  apply app_cons_cases in E as [(w1 & E & ->)|[(-> & -> & ->)|(u1 & -> & E)]].
  - destruct (two_splits _ _ _ _ _ _ _ E Es) as [(-> & -> & ->)|[Hyw|Hnv]].
    + rewrite decide_True by done. f_equal. destruct (Nat.ltb_spec i (s_ht x)).
      * rewrite nxt_found by done. f_equal.
      * rewrite nxt_low by done. cbn [nxt]. replace (i <? s_ht x)%nat with false by lia. cbn [forward span]. f_equal. lia.
    + assert (Hne : s_addr n <> s_addr y).
      { apply not_eq_sym. apply (addr_ne (hd :: l1) u w1); [|done|done].
        rewrite (app_comm_cons l1 (x :: l2) hd), (fmap_app _ (hd :: l1)) in Hnd. by apply NoDup_app in Hnd as [? _]. }
      rewrite decide_False by done. rewrite bool_decide_false, andb_false_r by (apply old_in_new; left; rewrite E; apply elem_of_app; right; left).
      rewrite (Hcells u n (w1 ++ l2) i); [|by rewrite Hold, E, <- app_assoc|done|done]. f_equal. apply nxt_shadow. by eapply not_low.
    + exfalso. by apply (not_low i v n).
  - rewrite decide_False by (apply not_eq_sym, old_in_new; auto). rewrite bool_decide_true, andb_true_r by done. by replace (i <? s_ht x)%nat with true by lia.
  - assert (Hn2 : n ∈ l2) by (rewrite E; apply elem_of_app; right; left).
    rewrite bool_decide_false, andb_false_r by (apply old_in_new; by right). rewrite decide_False.
    + apply (Hcells (hd :: l1 ++ u1) n w i); [by rewrite E; cbn; rewrite <- app_assoc|done|done].
    + intros Ea. rewrite (app_comm_cons l1 (x :: l2) hd), (fmap_app _ (hd :: l1)) in Hnd. apply NoDup_app in Hnd as (_ & Hd & _).
      apply (Hd (s_addr y)); [apply list_elem_of_fmap; eauto|]. right. rewrite <- Ea. apply list_elem_of_fmap. eauto.
Qed.
End link.

(** * Insertion *)

Lemma random_level_range rs lvl rs' : zslRandomLevel rs = Some (lvl, rs') -> (1 <= lvl <= ZSKIPLIST_MAXLEVEL)%nat.
Proof.
  unfold zslRandomLevel. assert (H : forall rs k n r, random_loop rs k = Some (n, r) -> (k <= n)%nat).
  { clear. induction rs as [|r0 rs IH]; intros k n r E; [done|]. cbn [random_loop] in E. destruct (_ <=? _); [apply IH in E; lia|].
    injection E as <- _. lia. }
  destruct (random_loop rs 1) as [[n r]|] eqn:E; [|done]. apply H in E. cbn [mbind option_bind]. intros [= <- _].
  destruct (Nat.ltb_spec n ZSKIPLIST_MAXLEVEL); [lia|]. unfold ZSKIPLIST_MAXLEVEL. lia.
Qed.

(** A condition on score and element that holds of [l1] and fails on [l2]. *)
Lemma splits_intro els l1 l2 cond (P : spec_float -> bytes -> bool) : els = l1 ++ l2 -> Forall node_ok els ->
  Forall (fun n => P (s_score n) (default [] (s_ele n)) = true) l1 -> Forall (fun n => P (s_score n) (default [] (s_ele n)) = false) l2 ->
  (forall r s nd ne, ele nd = Some ne -> isnan (score nd) = false -> cond r s nd = Some (P (score nd) ne)) ->
  splits els l1 l2 cond.
Proof.
  intros Els Hok H1 H2 Hc. split; [done|]. intros u n w r s nd En _ _ _ He Hs.
  assert (Hn : node_ok n) by (rewrite En in Hok; apply Forall_app in Hok as [_ Hok]; by apply Forall_cons in Hok as [? _]).
  destruct Hn as (_ & [ne Ene] & Hnan). rewrite (Hc r s nd ne) by congruence. f_equal. rewrite Hs.
  rewrite Els in En. apply app_cases in En as [(w1 & -> & _)|(u1 & -> & ->)].
  - apply Forall_app in H1 as [_ H1]. apply Forall_cons in H1 as [H1 _]. rewrite Ene in H1. cbn in H1. rewrite H1.
    rewrite bool_decide_true by (rewrite length_app; cbn; lia). done.
  - apply Forall_app in H2 as [_ H2]. apply Forall_cons in H2 as [H2 _]. rewrite Ene in H2. cbn in H2. rewrite H2.
    rewrite bool_decide_false by (rewrite length_app; lia). done.
Qed.

Lemma lex_gt_lt a b : lex a b = Gt <-> lex b a = Lt.
Proof. rewrite (lex_antisym a b). destruct (lex a b); done. Qed.

(** Where the key [sc], [e] goes. *)
Lemma splits_before els l1 l2 sc e : els = l1 ++ l2 -> Forall node_ok els -> isnan sc = false ->
  Forall (fun n => lex (skey n) (zkey sc e) = Lt) l1 -> Forall (fun n => lex (skey n) (zkey sc e) <> Lt) l2 ->
  splits els l1 l2 (before sc e).
Proof.
  intros Els Hok Hsc H1 H2. apply (splits_intro _ _ _ _ (fun s ne => bool_decide (lex (zkey s ne) (zkey sc e) = Lt))); [done|done| | |].
  - eapply Forall_impl; [exact H1|]. intros n Hn. cbn. by apply bool_decide_true.
  - eapply Forall_impl; [exact H2|]. intros n Hn. cbn. by apply bool_decide_false.
  - intros r s nd ne He Hn. by apply before_lex.
Qed.

Lemma set_backward_ok h a b n : znodes h !! a = Some n ->
  set_backward h a b = Some (mkZHeap (<[a := mkZNode (ele n) (score n) b (nlevels n)]> (znodes h)) (zlevels h)).
Proof. intros E. unfold set_backward, get_node. by rewrite E. Qed.

(** The two assignments of [backward], and the tail. *)
Lemma fix_backward h z a f l1 l2 hd x : znodes h !! a = Some (mkZNode (s_ele x) (s_score x) f (s_ht x)) -> s_addr x = a ->
  NoDup (s_addr <$> hd :: l1 ++ x :: l2) -> header z = s_addr hd -> tail z = backp (hd :: l1 ++ l2) -> Forall node_ok l2 ->
  (forall u n w, hd :: l1 ++ l2 = u ++ n :: w -> znodes h !! s_addr n = Some (node_at u n)) ->
  zlevels h !! (a, 0%nat) = Some (nxt 0 l2) ->
  exists h' tl, (h ← set_backward h a (if decide (default (s_addr hd) (backp (hd :: l1)) = header z) then None else Some (default (s_addr hd) (backp (hd :: l1))));
    l0 ← get_level h a 0;
    match forward l0 with
    | Some f => h ← set_backward h f (Some a); Some (h, tail z)
    | None => Some (h, Some a)
    end) = Some (h', tl)
  /\ zlevels h' = zlevels h /\ tl = backp (hd :: l1 ++ x :: l2)
  /\ (forall u n w, hd :: l1 ++ x :: l2 = u ++ n :: w -> znodes h' !! s_addr n = Some (node_at u n))
  /\ (forall b, b ∉ s_addr <$> hd :: l1 ++ x :: l2 -> znodes h' !! b = znodes h !! b).
Proof.
  intros Ea <- Hnd Eh Et Hok2 Hold Ec. rewrite (set_backward_ok _ _ _ _ Ea). cbn [mbind option_bind ele score nlevels].
  unfold get_level. cbn [zlevels]. rewrite Ec. cbn [mbind option_bind].
  assert (Eb : (if decide (default (s_addr hd) (backp (hd :: l1)) = header z) then None else Some (default (s_addr hd) (backp (hd :: l1)))) = backp (hd :: l1)).
  { rewrite Eh. destruct (rev_case l1) as [->|(l1' & y & ->)]; [by cbn; rewrite decide_True|].
    rewrite app_comm_cons, backp_snoc by done. cbn [default]. rewrite decide_False; [done|]. cbn.
    apply (addr_ne (hd :: (l1' ++ [y]) ++ x :: l2) [] _ hd y Hnd eq_refl). apply elem_of_app. left. apply elem_of_app. right. left. }
  rewrite Eb. set (nx := mkZNode (s_ele x) (s_score x) (backp (hd :: l1)) (s_ht x)).
  assert (Hx : forall u n w, hd :: l1 ++ l2 = u ++ n :: w -> s_addr n <> s_addr x).
  { intros u n w En. apply (old_in_new hd l1 l2 x Hnd). rewrite app_comm_cons in En.
    apply app_cases in En as [(w1 & -> & _)|(u1 & _ & ->)]; [left|right]; apply elem_of_app; right; left. }
  destruct l2 as [|y l2].
  - cbn [nxt forward]. eexists _, _. split; [done|]. cbn [zlevels znodes]. split; [done|]. split; [by rewrite app_comm_cons, backp_snoc|]. split.
    + intros u n w En. rewrite app_comm_cons in En. apply app_cons_cases in En as [(w1 & E & ->)|[(-> & -> & ->)|(u1 & _ & E)]]; [| |by destruct u1].
      * assert (En : hd :: l1 ++ [] = u ++ n :: w1) by (rewrite app_nil_r; done).
        rewrite lookup_insert_ne by (apply not_eq_sym; by apply (Hx _ _ _ En)). by apply (Hold _ _ _ En).
      * by rewrite lookup_insert_eq.
    + intros b Hb. rewrite lookup_insert_ne; [done|]. intros <-. apply Hb. by apply (addr_in _ (hd :: l1) []).
  - apply Forall_cons in Hok2 as [[Hy _] _]. cbn [nxt]. replace (0 <? s_ht y)%nat with true by lia. cbn [forward].
    assert (Ey : hd :: l1 ++ y :: l2 = (hd :: l1) ++ y :: l2) by done.
    pose proof (Hx _ _ _ Ey) as Hyx.
    rewrite (set_backward_ok _ _ _ (node_at (hd :: l1) y)) by (cbn [znodes]; rewrite lookup_insert_ne by congruence; apply (Hold _ _ _ Ey)).
    cbn [mbind option_bind node_at ele score nlevels].
    eexists _, _. split; [done|]. cbn [zlevels znodes]. split; [done|]. split.
    { rewrite Et, !app_comm_cons. rewrite (backp_app (hd :: l1) y l2) by done.
      replace ((hd :: l1) ++ x :: y :: l2) with ((hd :: l1 ++ [x]) ++ y :: l2) by (cbn; by rewrite <- app_assoc). by rewrite backp_app. }
    split.
    + intros u n w En. rewrite app_comm_cons in En. apply app_cons_cases in En as [(w1 & E & ->)|[(-> & -> & ->)|(u1 & -> & E)]].
      * assert (En : hd :: l1 ++ y :: l2 = u ++ n :: (w1 ++ y :: l2)) by (rewrite app_comm_cons, E, <- app_assoc; done).
        assert (Hny : s_addr n <> s_addr y).
        { apply not_eq_sym, (addr_ne (hd :: l1 ++ x :: y :: l2) u (w1 ++ x :: y :: l2)); [done|by rewrite app_comm_cons, E, <- app_assoc|].
          apply elem_of_app. right. right. left. }
        rewrite lookup_insert_ne by congruence. rewrite lookup_insert_ne by (apply not_eq_sym; by apply (Hx _ _ _ En)). by apply (Hold _ _ _ En).
      * rewrite lookup_insert_ne by congruence. by rewrite lookup_insert_eq.
      * destruct u1 as [|y' u1]; injection E as <- E.
        -- rewrite lookup_insert_eq. unfold node_at. by rewrite backp_snoc.
        -- assert (En : hd :: l1 ++ y :: l2 = (hd :: l1 ++ y :: u1) ++ n :: w) by (rewrite E; cbn; by rewrite <- app_assoc).
           assert (Hny : s_addr n <> s_addr y).
           { apply (addr_ne (hd :: l1 ++ y :: l2) (hd :: l1) l2); [|done|rewrite E; apply elem_of_app; right; left].
             rewrite app_comm_cons, fmap_app in Hnd |- *. rewrite fmap_cons in Hnd. apply NoDup_app in Hnd as (H1 & H2 & H3).
             apply NoDup_cons in H3 as [_ H3]. apply NoDup_app. split; [done|]. split; [|done]. intros k Hk Hk2. apply (H2 k Hk). by right. }
           rewrite lookup_insert_ne by congruence. rewrite lookup_insert_ne by (apply not_eq_sym; by apply (Hx _ _ _ En)).
           rewrite (Hold _ _ _ En). f_equal. unfold node_at. f_equal. change (hd :: l1 ++ y :: u1) with ((hd :: l1) ++ y :: u1).
           rewrite backp_app by done. replace ((hd :: l1) ++ x :: y :: u1) with ((hd :: l1 ++ [x]) ++ y :: u1) by (cbn; by rewrite <- app_assoc).
           by rewrite backp_app.
    + intros b Hb. rewrite !lookup_insert_ne; [done| |]; intros <-; apply Hb.
      * by apply (addr_in _ (hd :: l1) (y :: l2)).
      * apply (addr_in _ (hd :: l1 ++ [x]) l2). cbn. by rewrite <- app_assoc.
Qed.

Lemma ss_insert (l1 l2 : list snode) x : StronglySorted slt (l1 ++ l2) -> Forall (fun n => slt n x) l1 -> Forall (slt x) l2 ->
  StronglySorted slt (l1 ++ x :: l2).
Proof.
  induction l1 as [|y l1 IH]; cbn [app]; intros Hs H1 H2; [by constructor|].
  apply StronglySorted_inv in Hs as [Hs Hy]. apply Forall_cons in H1 as [Hyx H1]. constructor; [by apply IH|].
  apply Forall_app in Hy as [Hy1 Hy2]. apply Forall_app. split; [done|]. by constructor.
Qed.

Lemma ss_remove (l1 l2 : list snode) x : StronglySorted slt (l1 ++ x :: l2) ->
  StronglySorted slt (l1 ++ l2) /\ Forall (fun n => slt n x) l1 /\ Forall (slt x) l2.
Proof.
  induction l1 as [|y l1 IH]; cbn [app]; intros Hs; apply StronglySorted_inv in Hs as [Hs Hy].
  - split_and!; [done|constructor|done].
  - apply Forall_app in Hy as [Hy1 Hy]. apply Forall_cons in Hy as [Hyx Hy2]. destruct (IH Hs) as (H1 & H2 & H3). split_and!.
    + constructor; [done|]. by apply Forall_app.
    + by constructor.
    + done.
Qed.

Lemma slt_trans a b c : slt a b -> slt b c -> slt a c.
Proof. apply lex_trans. Qed.

Lemma nodup_fresh h z hd els x : zrep h z hd els -> znodes h !! s_addr x = None -> s_addr x ∉ s_addr <$> hd :: els.
Proof.
  intros Hr Hx Hin. apply list_elem_of_fmap in Hin as (n & E & Hn). apply list_elem_of_split in Hn as (u & w & En).
  rewrite E, (zr_nodes _ _ _ _ Hr _ _ _ En) in Hx. done.
Qed.

Lemma nodup_mid hd (l1 l2 : list snode) x : NoDup (s_addr <$> hd :: l1 ++ l2) -> s_addr x ∉ s_addr <$> hd :: l1 ++ l2 ->
  NoDup (s_addr <$> hd :: l1 ++ x :: l2).
Proof.
  rewrite !app_comm_cons, !(fmap_app _ (hd :: l1)). intros Hnd Hx. rewrite (fmap_cons s_addr x l2), <- Permutation_middle.
  by apply NoDup_cons.
Qed.

(** The nodes of other lists are unchanged. *)
Definition zframe (h h' : zheap) (ns : list snode) : Prop :=
  forall b, b ∉ s_addr <$> ns -> znodes h' !! b = znodes h !! b /\ forall i, zlevels h' !! (b, i) = zlevels h !! (b, i).

Section insert.
Context (fresh : nat -> zskiplistLevel).

Lemma zslInsert_ok h z rs a junk sc e hd l1 l2 lvl rs' : zrep h z hd (l1 ++ l2) -> isnan sc = false ->
  zslRandomLevel rs = Some (lvl, rs') -> znodes h !! a = None -> zlen (l1 ++ l2) + 1 < 2 ^ 32 - 1 ->
  Forall (fun n => slt n (mkS a sc (Some e) lvl)) l1 -> Forall (slt (mkS a sc (Some e) lvl)) l2 ->
  exists h' z', zslInsert fresh h z rs a junk sc e = Some (h', z', rs')
    /\ zrep h' z' hd (l1 ++ mkS a sc (Some e) lvl :: l2) /\ zframe h h' (hd :: l1 ++ mkS a sc (Some e) lvl :: l2).
Proof.
  intros Hr Hsc Hrl Ha HB H1 H2. set (x := mkS a sc (Some e) lvl) in *. pose proof (random_level_range _ _ _ Hrl) as Hlvl.
  pose proof (zr_ok _ _ _ _ Hr) as Hok. pose proof (nodup_fresh h z hd (l1 ++ l2) x Hr Ha) as Hax.
  pose proof (nodup_mid hd l1 l2 x (zr_nodup _ _ _ _ Hr) Hax) as Hnd.
  unfold zslInsert. rewrite Hsc.
  destruct (descend_header h z hd (l1 ++ l2) l1 l2 32 (before sc e) Hr) as (update & -> & Hul & Hp); [|lia|].
  { apply splits_before; [done|done|done|done|]. eapply Forall_impl; [exact H2|]. intros n Hn. unfold slt in Hn.
    apply lex_gt_lt in Hn. unfold skey at 2 in Hn. cbn in Hn. rewrite Hn. done. }
  cbn [mbind option_bind]. rewrite Hrl. cbn [mbind option_bind].
  destruct (grow_levels h z hd (l1 ++ l2) l1 l2 lvl update Hr eq_refl Hul Hp) as (h1 & upd1 & -> & Hn1 & Hc1 & Hp1 & Ht1 & Ho1); [lia|].
  cbn [mbind option_bind]. set (zl := Nat.max (level z) lvl) in *.
  set (hc := zslCreateNode fresh h1 a lvl sc (Some e) junk).
  assert (Hcc : cells_ok hc (hd :: l1 ++ l2) zl).
  { intros u n w i En Hi Hil. unfold hc, zslCreateNode. cbn [zlevels]. rewrite alloc_levels_lookup.
    rewrite bool_decide_false; [by apply (Hc1 u)|]. intros Ea. apply Hax. change (s_addr x) with a. rewrite <- Ea. by apply (addr_in _ u w). }
  assert (E0 : upd1 !! 0%nat = Some (default (s_addr hd) (backp (hd :: l1)), zlen l1)).
  { destruct (Hp1 0%nat ltac:(lia)) as (p & -> & Hp0). f_equal. apply pred0; [|done].
    by apply Forall_app in Hok as [? _]. }
  rewrite E0. cbn [mbind option_bind]. rewrite length_app in HB.
  destruct (link_loop_ok hc hd l1 l2 zl upd1 x Hcc Hp1 Hnd ltac:(lia) lvl ltac:(lia)) as (h2 & E2 & Hn2 & Hc2).
  { intros j Hj. exists (fresh j). unfold hc, zslCreateNode. cbn [zlevels]. rewrite alloc_levels_lookup.
    rewrite bool_decide_true by done. by replace (j <? lvl)%nat with true by lia. }
  change (s_addr x) with a in E2, Hc2. rewrite E2. cbn [mbind option_bind].
  destruct (span_loop_ok hc hd l1 l2 zl upd1 Hcc Hp1 ltac:(lia) lvl h2 ltac:(lia)) as (h3 & E3 & Hn3 & Hc3).
  { intros b j Hj. rewrite Hc2. by replace (j <? lvl)%nat with false by lia. }
  rewrite E3. cbn [mbind option_bind].
  assert (Hcells3 : cells_ok h3 (hd :: l1 ++ x :: l2) zl).
  { apply (linked_cells hc hd l1 l2 zl upd1 x Hcc Hp1 Hnd); [cbn; lia|]. cbn [s_ht s_addr x].
    intros b j Hj. rewrite Hc3, Hc2. destruct (Nat.ltb_spec j lvl) as [Hjl|Hjl].
    - replace (_ && _) with false by lia. cbn [andb]. destruct (decide (b = _)); [done|]. cbn [andb].
      destruct (decide (b = a)) as [->|]; [by rewrite bool_decide_true|by rewrite bool_decide_false].
    - replace (_ && _) with true by lia. done. }
  assert (Hold3 : forall u n w, hd :: l1 ++ l2 = u ++ n :: w -> znodes h3 !! s_addr n = Some (node_at u n)).
  { intros u n w En. rewrite Hn3, Hn2. unfold hc, zslCreateNode. cbn [znodes]. rewrite lookup_insert_ne, Hn1; [by apply (zr_nodes _ _ _ _ Hr u n w)|].
    intros Ea. apply Hax. change (s_addr x) with a. rewrite Ea. by apply (addr_in _ u w). }
  destruct (fix_backward h3 z a junk l1 l2 hd x) as (h' & tl & Ef & El & Etl & Hn' & Hfr).
  { rewrite Hn3, Hn2. unfold hc, zslCreateNode. cbn [znodes]. by rewrite lookup_insert_eq. }
  { done. } { done. } { apply Hr. } { apply Hr. } { by apply Forall_app in Hok as [_ ?]. } { done. }
  { apply (Hcells3 (hd :: l1) x l2 0%nat eq_refl); cbn; lia. }
  apply bind_Some in Ef as (h4 & E4 & Ef). rewrite E4. cbn [mbind option_bind]. apply bind_Some in Ef as (l0 & El0 & Ef).
  rewrite El0. cbn [mbind option_bind]. rewrite Ef. cbn [mbind option_bind].
  eexists _, _. split; [done|]. split.
  - split; cbn [header tail length_ level].
    + apply Hr.
    + apply Hr.
    + exact Hn'.
    + intros u n w i. rewrite El. apply Hcells3.
    + intros i Hi. rewrite El, Hc3. replace (_ && _) with false by lia. rewrite Hc2. replace (i <? lvl)%nat with false by lia.
      unfold hc, zslCreateNode. cbn [zlevels]. rewrite alloc_levels_lookup. replace (i <? lvl)%nat with false by lia. rewrite andb_false_r.
      apply Ht1. lia.
    + done.
    + rewrite (zr_len _ _ _ _ Hr). rewrite uwrap_small by (unfold in_u; rewrite length_app; lia). rewrite !length_app. cbn [length]. lia.
    + rewrite length_app. cbn [length]. lia.
    + pose proof (zr_level _ _ _ _ Hr). lia.
    + pose proof (zr_low _ _ _ _ Hr) as Hlow. apply Forall_app in Hlow as [Hl1 Hl2]. apply Forall_app. split; [|constructor; [cbn; lia|]];
        (eapply Forall_impl; [eassumption|cbn; lia]).
    + destruct (decide (level z < lvl)%nat) as [Hl|Hl].
      * right. apply Exists_app. right. left. cbn. lia.
      * replace zl with (level z) by lia. destruct (zr_high _ _ _ _ Hr) as [?|Hex]; [by left|right].
        apply Exists_app in Hex as [?|?]; apply Exists_app; [by left|right; by right].
    + apply Forall_app in Hok as [Hk1 Hk2]. apply Forall_app. split; [done|]. constructor; [|done]. split; [cbn; unfold ZSKIPLIST_MAXLEVEL in Hlvl; lia|]. split; [by eexists|done].
    + done.
    + apply ss_insert; [apply Hr|done|done].
  - intros b Hb. split.
    + rewrite Hfr by done. rewrite Hn3, Hn2. unfold hc, zslCreateNode. cbn [znodes]. rewrite lookup_insert_ne; [by rewrite Hn1|].
      intros <-. apply Hb. by apply (addr_in _ (hd :: l1) l2 x).
    + intros i. rewrite El.
      assert (Hba : b <> a) by (intros ->; apply Hb; by apply (addr_in _ (hd :: l1) l2 x)).
      assert (Hbh : b <> s_addr hd) by (intros ->; apply Hb; left).
      assert (Hbu : forall j, (j < zl)%nat -> b <> upd_addr upd1 j).
      { intros j Hj. destruct (upd_facts hc hd l1 l2 zl upd1 Hcc Hp1 j Hj) as (u & y & v & Es & _ & _ & _ & -> & _). intros ->. apply Hb.
        rewrite app_comm_cons, Es. apply (addr_in _ u (v ++ x :: l2)). by rewrite <- app_assoc. }
      assert (Hbc : zlevels hc !! (b, i) = zlevels h !! (b, i)).
      { unfold hc, zslCreateNode. cbn [zlevels]. rewrite alloc_levels_lookup, bool_decide_false by done. by apply Ho1. }
      rewrite Hc3, Hc2. destruct ((lvl <=? i)%nat && (i <? zl)%nat) eqn:E1; [by rewrite decide_False by (apply Hbu; lia)|].
      destruct (Nat.ltb_spec i lvl); [|done]. rewrite decide_False by (apply Hbu; lia). by rewrite decide_False by done.
Qed.
End insert.
