(* ===== verification/ZskiplistOps.v ===== *)
(** The operations of the skiplist: deletion, score updates, ranges and ranks,
    on top of the representation of [ZskiplistSpec.v]. *)
From Stdlib Require Import SpecFloat Sorted.
From stdpp Require Import gmap.
From S2P Require Import Prelude Sds SdsSpec SdsOps Zskiplist ZskiplistSpec.
Open Scope Z_scope.

(** * Deletion of a node *)

Lemma nxt_forward_in i l a : forward (nxt i l) = Some a -> a ∈ s_addr <$> l.
Proof.
  induction l as [|n l IH]; [done|]. cbn [nxt]. destruct (i <? s_ht n)%nat; cbn [forward].
  - intros [= <-]. left.
  - intros E. right. auto.
Qed.

Lemma nxt_forward_None i l : forward (nxt i l) = None <-> low i l.
Proof.
  split; [|apply nxt_None]. induction l as [|n l IH]; [intros _; by constructor|]. cbn [nxt]. destruct (Nat.ltb_spec i (s_ht n)); cbn [forward]; [done|].
  intros E. constructor; [lia|]. by apply IH.
Qed.

Section delete.
Context (h : zheap) (z : zskiplist) (hd x : snode) (l1 l2 : list snode) (update : list (Z * Z)).
Context (Hr : zrep h z hd (l1 ++ x :: l2)) (Hp : preds hd l1 (level z) update).

Lemma del_facts j : (j < level z)%nat -> exists u y v, hd :: l1 = u ++ y :: v /\ (j < s_ht y)%nat /\ low j v
  /\ update !! j = Some (s_addr y, zlen u) /\ zlen u + zlen v = zlen l1
  /\ zlevels h !! (s_addr y, j) = Some (nxt j (v ++ x :: l2)).
Proof.
  intros Hj. destruct (Hp j Hj) as (p & Ep & u & y & v & E & Hy & Hv & ->). exists u, y, v. split_and!; try done.
  - apply (f_equal length) in E. rewrite length_app in E. cbn [length] in E. lia.
  - apply (zr_cells _ _ _ _ Hr u y); [rewrite app_comm_cons, E, <- app_assoc; done|done|done].
Qed.

Lemma x_not_old (n : snode) : n ∈ hd :: l1 \/ n ∈ l2 -> s_addr n <> s_addr x.
Proof. apply (old_in_new hd l1 l2 x (zr_nodup _ _ _ _ Hr)). Qed.

Lemma unlink_loop_ok : exists h2, for_range (level z) 0 (unlink_step (s_addr x) update) h = Some h2 /\ znodes h2 = znodes h
  /\ cells_ok h2 (hd :: l1 ++ l2) (level z)
  /\ (forall b j, b ∉ s_addr <$> hd :: l1 -> zlevels h2 !! (b, j) = zlevels h !! (b, j))
  /\ (forall j, (level z <= j)%nat -> zlevels h2 !! (s_addr hd, j) = zlevels h !! (s_addr hd, j)).
Proof.
  pose proof (zr_bound _ _ _ _ Hr) as HB. rewrite length_app in HB. cbn [length] in HB.
  set (f := fun (j : nat) (b : Z) => if decide (b = upd_addr update j) then Some (mkLevel (forward (nxt j l2)) (span (nxt j l2) + upd_dist l1 update j))
                                     else zlevels h !! (b, j)).
  destruct (for_range_ok (unlink_step (s_addr x) update) f (level z) 0 h) as (h2 & E & Hn & Hc).
  { intros j h' Hj Hsame. destruct (del_facts j ltac:(lia)) as (u & y & v & Es & Hy & Hv & Eu & Hlen & Ec).
    unfold unlink_step, get_level. rewrite Eu. cbn [mbind option_bind].
    assert (Ec' : zlevels h' !! (s_addr y, j) = Some (nxt j (v ++ x :: l2))) by (by rewrite Hsame).
    rewrite Ec'. cbn [mbind option_bind]. pose proof (nxt_span j l2) as Hsp.
    assert (Hnew : exists h3, (if decide (forward (nxt j (v ++ x :: l2)) = Some (s_addr x)) then
        lx ← zlevels h' !! (s_addr x, j); set_level h' (s_addr y) j (mkLevel (forward lx) (uwrap 64 (span (nxt j (v ++ x :: l2)) + uwrap 64 (span lx - 1))))
      else set_level h' (s_addr y) j (mkLevel (forward (nxt j (v ++ x :: l2))) (uwrap 64 (span (nxt j (v ++ x :: l2)) - 1)))) = Some h3
      /\ h3 = mkZHeap (znodes h') (<[(s_addr y, j) := mkLevel (forward (nxt j l2)) (span (nxt j l2) + zlen v)]> (zlevels h'))).
    { eexists. split; [|done]. destruct (decide (j < s_ht x)%nat) as [Hjx|Hjx].
      - rewrite nxt_found by done. cbn [forward span]. rewrite decide_True by done.
        rewrite Hsame, (zr_cells _ _ _ _ Hr (hd :: l1) x l2 j eq_refl) by lia. cbn [mbind option_bind].
        rewrite (set_level_ok _ _ _ _ _ Ec'). do 4 f_equal.
        unfold uwrap. rewrite Zplus_mod_idemp_r. rewrite Z.mod_small; lia.
      - rewrite nxt_low by done. cbn [nxt]. replace (j <? s_ht x)%nat with false by lia. cbn [forward span]. rewrite decide_False.
        + rewrite (set_level_ok _ _ _ _ _ Ec'). do 4 f_equal. rewrite uwrap_small by (unfold in_u; lia). lia.
        + intros Ef. apply nxt_forward_in in Ef. apply list_elem_of_fmap in Ef as (m & Em & Hm). by apply (x_not_old m); [right|]. }
    destruct Hnew as (h3 & Eh3 & E3). exists h3. split; [exact Eh3|]. subst h3. cbn [znodes zlevels]. split; [done|]. split.
    - intros b k Hk. by rewrite lookup_insert_ne by congruence.
    - intros b. unfold f, upd_addr, upd_dist. rewrite Eu. cbn. destruct (decide (b = s_addr y)) as [->|Hne].
      + rewrite lookup_insert_eq. do 2 f_equal. lia.
      + rewrite lookup_insert_ne by congruence. apply Hsame. }
  exists h2. split; [done|]. split; [done|].
  assert (Hua : forall j, (j < level z)%nat -> upd_addr update j ∈ s_addr <$> hd :: l1).
  { intros j Hj. destruct (del_facts j Hj) as (u & y & v & Es & _ & _ & Eu & _). unfold upd_addr. rewrite Eu, Es. by apply (addr_in _ u v). }
  split_and!.
  - intros u n w i En Hi Hil. rewrite Hc. replace (_ && _) with true by lia. unfold f.
    destruct (del_facts i Hil) as (u' & y & v & Es & Hy & Hv & Eu & Hlen & _). unfold upd_addr, upd_dist. rewrite Eu.
    change (default (0, 0) (Some (s_addr y, zlen u'))) with (s_addr y, zlen u'). cbn [fst snd].
    pose proof (zr_nodup _ _ _ _ Hr) as Hnd. rewrite (app_comm_cons l1 (x :: l2) hd), (fmap_app _ (hd :: l1)) in Hnd. apply NoDup_app in Hnd as (Hnd1 & Hnd2 & _).
    rewrite app_comm_cons in En. apply app_cases in En as [(w1 & E1 & ->)|(u1 & -> & E2)].
    + destruct (two_splits _ _ _ _ _ _ _ E1 Es) as [(-> & -> & ->)|[Hyw|Hnv]].
      * rewrite decide_True by done. rewrite nxt_low by done. do 2 f_equal. lia.
      * rewrite decide_False by (apply not_eq_sym; by apply (addr_ne (hd :: l1) u w1)).
        rewrite (zr_cells _ _ _ _ Hr u n (w1 ++ x :: l2) i); [|rewrite app_comm_cons, E1, <- app_assoc; done|done|done].
        f_equal. apply nxt_shadow. by eapply not_low.
      * exfalso. by apply (not_low i v n).
    + rewrite decide_False.
      * apply (zr_cells _ _ _ _ Hr (hd :: l1 ++ x :: u1) n w i); [rewrite E2; cbn; by rewrite <- app_assoc|done|done].
      * intros Ea. apply (Hnd2 (s_addr y)); [rewrite Es; by apply (addr_in _ u' v)|]. right. rewrite <- Ea, E2. by apply (addr_in _ u1 w).
  - intros b j Hb. rewrite Hc. destruct (_ && _) eqn:E1; [|done]. unfold f. rewrite decide_False; [done|]. intros ->. apply Hb, Hua. lia.
  - intros j Hj. rewrite Hc. by replace (_ && _) with false by lia.
Qed.

(** The level left once the highest nodes are gone. *)
Lemma shrink_ok h2 els lvl : cells_ok h2 (hd :: els) lvl -> (1 <= lvl <= ZSKIPLIST_MAXLEVEL)%nat -> s_ht hd = ZSKIPLIST_MAXLEVEL -> low lvl els ->
  exists lvl', shrink_loop lvl h2 (s_addr hd) = Some lvl' /\ (1 <= lvl' <= lvl)%nat /\ low lvl' els
    /\ (lvl' = 1%nat \/ Exists (fun n => s_ht n = lvl') els).
Proof.
  intros Hc Hl Hht. induction lvl as [|lvl IH]; intros Hlow; [lia|]. destruct lvl as [|lvl].
  - exists 1%nat. split; [done|]. split; [lia|]. auto.
  - cbn [shrink_loop]. unfold get_level. rewrite (Hc [] hd els (S lvl) eq_refl) by lia. cbn [mbind option_bind].
    destruct (forward (nxt (S lvl) els)) as [a|] eqn:Ef.
    + exists (S (S lvl)). split; [done|]. split; [lia|]. split; [done|]. right.
      destruct (low_or_found (S lvl) els) as [Hlw|(v1 & n & v2 & -> & _ & Hn)]; [by rewrite nxt_None in Ef|].
      apply Exists_app. right. left. apply Forall_app in Hlow as [_ Hlow]. apply Forall_cons in Hlow as [Hlow _]. lia.
    + apply nxt_forward_None in Ef. destruct IH as (lvl' & E & Hl' & Hlow' & Hex); [|lia|done|].
      * intros u n w i En Hi Hil. apply (Hc u n w i En Hi). lia.
      * exists lvl'. split; [exact E|]. split; [lia|]. done.
Qed.

Lemma zslDeleteNode_ok : exists h' z', zslDeleteNode h z (s_addr x) update = Some (h', z') /\ zrep h' z' hd (l1 ++ l2)
  /\ zframe h h' (hd :: l1 ++ l2) /\ (level z' <= level z)%nat.
Proof.
  unfold zslDeleteNode. destruct unlink_loop_ok as (h2 & -> & Hn2 & Hc2 & Ho2 & Ht2). cbn [mbind option_bind].
  pose proof (zr_nodup _ _ _ _ Hr) as Hnd. pose proof (zr_ok _ _ _ _ Hr) as Hok. pose proof (zr_bound _ _ _ _ Hr) as HB.
  pose proof (zr_level _ _ _ _ Hr) as Hlv. pose proof (zr_low _ _ _ _ Hr) as Hlow. destruct (zr_hd _ _ _ _ Hr) as [Hht Hhe].
  apply Forall_app in Hok as [Hok1 Hok2]. apply Forall_cons in Hok2 as [Hokx Hok2].
  assert (Hx1 : s_addr x ∉ s_addr <$> hd :: l1).
  { intros Hin. apply list_elem_of_fmap in Hin as (m & Em & Hm). apply (x_not_old m); [by left|done]. }
  assert (Hnd' : NoDup (s_addr <$> hd :: l1 ++ l2)).
  { rewrite (app_comm_cons l1 (x :: l2) hd), (fmap_app _ (hd :: l1)) in Hnd. apply NoDup_app in Hnd as (N1 & N2 & N3). apply NoDup_cons in N3 as [_ N3].
    rewrite (app_comm_cons l1 l2 hd), (fmap_app _ (hd :: l1)). apply NoDup_app. split; [done|]. split; [|done]. intros k Hk Hk2. apply (N2 k Hk). by right. }
  unfold get_level. rewrite Ho2 by done. rewrite (zr_cells _ _ _ _ Hr (hd :: l1) x l2 0%nat eq_refl) by (destruct Hokx as [? _]; lia).
  cbn [mbind option_bind]. unfold get_node. rewrite Hn2, (zr_nodes _ _ _ _ Hr (hd :: l1) x l2 eq_refl). cbn [mbind option_bind node_at backward].
  assert (Hb : exists h3 tl, match forward (nxt 0 l2) with
      | Some f => h ← set_backward h2 f (backp (hd :: l1)); Some (h, tail z)
      | None => Some (h2, backp (hd :: l1)) end = Some (h3, tl)
    /\ zlevels h3 = zlevels h2 /\ tl = backp (hd :: l1 ++ l2)
    /\ (forall u n w, hd :: l1 ++ l2 = u ++ n :: w -> znodes h3 !! s_addr n = Some (node_at u n))
    /\ (forall b, b ∉ s_addr <$> hd :: l1 ++ l2 -> znodes h3 !! b = znodes h !! b)).
  { assert (Hold1 : forall u n w1, hd :: l1 = u ++ n :: w1 -> znodes h2 !! s_addr n = Some (node_at u n)).
    { intros u n w1 E. rewrite Hn2. apply (zr_nodes _ _ _ _ Hr u n (w1 ++ x :: l2)). by rewrite app_comm_cons, E, <- app_assoc. }
    assert (Hold2 : forall u1 n w, l2 = u1 ++ n :: w -> znodes h2 !! s_addr n = Some (node_at (hd :: l1 ++ x :: u1) n)).
    { intros u1 n w E. rewrite Hn2. apply (zr_nodes _ _ _ _ Hr _ n w). rewrite E. cbn. by rewrite <- app_assoc. }
    destruct l2 as [|y l2'].
    - cbn [nxt forward]. exists h2, (backp (hd :: l1)). rewrite app_nil_r. split_and!; try done.
      intros b Hb. by rewrite Hn2.
    - apply Forall_cons in Hok2 as [[Hy _] _]. cbn [nxt]. replace (0 <? s_ht y)%nat with true by lia. cbn [forward].
      rewrite (set_backward_ok _ _ _ _ (Hold2 [] y l2' eq_refl)). cbn [mbind option_bind node_at ele score nlevels].
      eexists _, _. split; [done|]. cbn [zlevels znodes]. split; [done|]. split.
      { rewrite (zr_tail _ _ _ _ Hr). rewrite !app_comm_cons. rewrite (backp_app (hd :: l1) y l2') by done.
        replace ((hd :: l1) ++ x :: y :: l2') with ((hd :: l1 ++ [x]) ++ y :: l2') by (cbn; by rewrite <- app_assoc). by rewrite backp_app. }
      split.
      + intros u n w En. rewrite app_comm_cons in En. destruct (app_cases _ _ _ _ _ En) as [(w1 & E1 & ->)|(u1 & -> & E2)].
        * rewrite lookup_insert_ne; [by apply (Hold1 u n w1)|]. apply (addr_ne (hd :: l1 ++ y :: l2') u (w1 ++ y :: l2')); [done|done|].
          apply elem_of_app. right. left.
        * destruct u1 as [|y' u1]; injection E2 as <- E2.
          -- rewrite lookup_insert_eq. unfold node_at. by rewrite app_nil_r.
          -- rewrite lookup_insert_ne; [|apply not_eq_sym; apply (addr_ne (hd :: l1 ++ y :: l2') (hd :: l1) l2'); [done|done|rewrite E2; apply elem_of_app; right; left]].
             rewrite (Hold2 (y :: u1) n w) by (by rewrite E2). f_equal. unfold node_at. f_equal.
             replace (hd :: l1 ++ x :: y :: u1) with ((hd :: l1 ++ [x]) ++ y :: u1) by (cbn; by rewrite <- app_assoc). by rewrite !backp_app.
      + intros b Hb. rewrite lookup_insert_ne; [by rewrite Hn2|]. intros <-. apply Hb. by apply (addr_in _ (hd :: l1) l2'). }
  destruct Hb as (h3 & tl & -> & El & Etl & Hn3 & Hfr). cbn [mbind option_bind]. rewrite (zr_header _ _ _ _ Hr).
  assert (Hc3 : cells_ok h3 (hd :: l1 ++ l2) (level z)) by (intros u n w i; rewrite El; apply Hc2).
  assert (Hlow' : low (level z) (l1 ++ l2)).
  { apply Forall_app in Hlow as [? Hl]. apply Forall_cons in Hl as [_ ?]. by apply Forall_app. }
  destruct (shrink_ok h3 (l1 ++ l2) (level z) Hc3 Hlv Hht Hlow') as (lvl & -> & Hlvl & Hlowl & Hex). cbn [mbind option_bind].
  eexists _, _. split; [done|]. split; [|split; [|cbn; lia]].
  - split; cbn [header tail length_ level]; try done.
    + intros u n w i En Hi Hil. apply (Hc3 u n w i En Hi). lia.
    + intros i Hi. destruct (decide (i < level z)%nat) as [Hl|Hl].
      * rewrite (Hc3 [] hd (l1 ++ l2) i eq_refl) by lia. exists (span (nxt i (l1 ++ l2))). f_equal.
        destruct (nxt i (l1 ++ l2)) as [f s] eqn:E. cbn. f_equal. change f with (forward (mkLevel f s)). rewrite <- E.
        apply nxt_None. eapply Forall_impl; [exact Hlowl|cbn; lia].
      * rewrite El, Ht2 by lia. apply (zr_top _ _ _ _ Hr). lia.
    + rewrite (zr_len _ _ _ _ Hr). rewrite !length_app in *. cbn [length] in *. rewrite uwrap_small by (unfold in_u; lia). lia.
    + rewrite !length_app in *. cbn [length] in *. lia.
    + lia.
    + by apply Forall_app.
    + apply (ss_remove _ _ _ (zr_sorted _ _ _ _ Hr)).
  - intros b Hb. split; [by apply Hfr|]. intros i. rewrite El. apply Ho2. intros Hin. apply Hb. rewrite app_comm_cons, fmap_app. apply elem_of_app. by left.
Qed.
End delete.

(** * Finding a position *)

Lemma ss_partition (P : snode -> bool) els : StronglySorted slt els ->
  (forall a b, a ∈ els -> b ∈ els -> slt a b -> P b = true -> P a = true) ->
  exists l1 l2, els = l1 ++ l2 /\ Forall (fun n => P n = true) l1 /\ Forall (fun n => P n = false) l2.
Proof.
  intros Hs HP. induction Hs as [|n els Hs IH Hn]; [by exists [], []|]. destruct (P n) eqn:EP.
  - destruct IH as (l1 & l2 & -> & H1 & H2); [intros a b Ha Hb; apply HP; by right|]. exists (n :: l1), l2. split; [done|]. split; [by constructor|done].
  - exists [], (n :: els). split; [done|]. split; [constructor|]. constructor; [done|]. apply Forall_forall. intros m Hm.
    rewrite Forall_forall in Hn. destruct (P m) eqn:Em; [|done]. rewrite (HP n m) in EP; [done|by left|by right|by apply Hn|done].
Qed.

(** The nodes below a key, and the others. *)
Lemma key_partition els k : StronglySorted slt els ->
  exists l1 l2, els = l1 ++ l2 /\ Forall (fun n => lex (skey n) k = Lt) l1 /\ Forall (fun n => lex (skey n) k <> Lt) l2.
Proof.
  intros Hs. destruct (ss_partition (fun n => bool_decide (lex (skey n) k = Lt)) els Hs) as (l1 & l2 & E & H1 & H2).
  - intros a b _ _ Hab Hb. apply bool_decide_eq_true in Hb. apply bool_decide_eq_true. by eapply lex_trans.
  - exists l1, l2. split; [done|]. split.
    + eapply Forall_impl; [exact H1|]. intros n Hn. by apply bool_decide_eq_true in Hn.
    + eapply Forall_impl; [exact H2|]. intros n Hn. by apply bool_decide_eq_false in Hn.
Qed.

Lemma nxt0 l : Forall node_ok l -> forward (nxt 0 l) = s_addr <$> head l.
Proof. intros Hl. destruct Hl as [|n l [Hn _] _]; [done|]. cbn [nxt]. by replace (0 <? s_ht n)%nat with true by lia. Qed.

Section find.
Context (h : zheap) (z : zskiplist) (hd : snode) (l1 l2 : list snode) (update : list (Z * Z)).
Context (Hr : zrep h z hd (l1 ++ l2)) (Hp : preds hd l1 (level z) update).

Lemma update0 : update !! 0%nat = Some (default (s_addr hd) (backp (hd :: l1)), zlen l1).
Proof.
  destruct (Hp 0%nat) as (p & -> & Hp0); [pose proof (zr_level _ _ _ _ Hr); lia|]. f_equal. apply pred0; [|done].
  pose proof (zr_ok _ _ _ _ Hr) as Hok. by apply Forall_app in Hok as [? _].
Qed.

Lemma next_of_ok : next_of h update = Some (s_addr <$> head l2).
Proof.
  unfold next_of. pose proof (zr_level _ _ _ _ Hr) as Hl. destruct (Hp 0%nat) as ([a r] & -> & Hp0); [lia|]. cbn [mbind option_bind].
  assert (Hc : cells_ok h (hd :: l1 ++ l2) (level z)) by (intros u n w i; apply (zr_cells _ _ _ _ Hr)).
  destruct (pred_cell h hd l1 l2 (level z) 0 a r Hc ltac:(lia) Hp0) as (v & _ & E & _). unfold get_level. rewrite E. cbn [mbind option_bind forward].
  f_equal. apply nxt0. pose proof (zr_ok _ _ _ _ Hr) as Hok. by apply Forall_app in Hok as [_ ?].
Qed.
End find.

Lemma zrep_same h h' z hd els : zrep h z hd els ->
  (forall b, b ∈ s_addr <$> hd :: els -> znodes h' !! b = znodes h !! b /\ forall i, zlevels h' !! (b, i) = zlevels h !! (b, i)) -> zrep h' z hd els.
Proof.
  intros Hr Hs. split; try apply Hr.
  - intros u n w E. rewrite (proj1 (Hs (s_addr n) (addr_in _ u w n E))). by apply (zr_nodes _ _ _ _ Hr u n w).
  - intros u n w i E Hi Hl. rewrite (proj2 (Hs (s_addr n) (addr_in _ u w n E))). by apply (zr_cells _ _ _ _ Hr u n w i).
  - intros i Hi. rewrite (proj2 (Hs (s_addr hd) ltac:(left))). by apply (zr_top _ _ _ _ Hr).
Qed.

Lemma zslFreeNode_ok h z hd els a n : zrep h z hd els -> a ∉ s_addr <$> hd :: els -> znodes h !! a = Some n ->
  exists h', zslFreeNode h a = Some h' /\ zrep h' z hd els /\ znodes h' !! a = None /\
    forall b, b <> a -> znodes h' !! b = znodes h !! b /\ forall i, zlevels h' !! (b, i) = zlevels h !! (b, i).
Proof.
  intros Hr Ha E. unfold zslFreeNode, get_node. rewrite E. cbn [mbind option_bind]. eexists. split; [done|].
  assert (Hb : forall b, b <> a -> delete a (znodes h) !! b = znodes h !! b
    /\ forall i, free_levels (nlevels n) (zlevels h) a !! (b, i) = zlevels h !! (b, i)).
  { intros b Hne. split; [by apply lookup_delete_ne|]. intros i. by rewrite free_levels_lookup, bool_decide_false. }
  split; [|split; [apply lookup_delete_eq|exact Hb]]. apply (zrep_same h); [done|]. intros b Hin. apply Hb. intros ->. done.
Qed.

(** * Insertion and deletion by key *)

Lemma skey_inj n sc e ne : s_ele n = Some ne -> skey n = zkey sc e <-> fkey (s_score n) = fkey sc /\ ne = e.
Proof.
  intros En. unfold skey, zkey. rewrite En. cbn. split; [|by intros [-> ->]]. intros E. by apply app_inj_1 in E; [|by rewrite !length_fkey].
Qed.

(** The test for the node found. *)
Lemma found_test sc e (n : snode) ne : s_ele n = Some ne -> isnan sc = false -> isnan (s_score n) = false ->
  SFeqb sc (s_score n) && (cmp_contents ne e =? 0) = bool_decide (skey n = zkey sc e).
Proof.
  intros En Hs Hn. rewrite SFeqb_lex, sign_eq, cmp_lex by done. rewrite <- bool_decide_and. apply bool_decide_ext.
  rewrite (skey_inj n sc e ne En), lex_eq. split; intros [? ?]; split; congruence.
Qed.

Lemma lex_refl a : lex a a = Eq.
Proof. by apply lex_eq. Qed.

Section ops.
Context (fresh : nat -> zskiplistLevel).

(** Insertion of a key that is not in the list. *)
Lemma zslInsert_part h z rs a junk sc e hd els lvl rs' : zrep h z hd els -> isnan sc = false ->
  zslRandomLevel rs = Some (lvl, rs') -> znodes h !! a = None -> zlen els + 1 < 2 ^ 32 - 1 ->
  Forall (fun n => skey n <> zkey sc e) els ->
  exists h' z' l1 l2, zslInsert fresh h z rs a junk sc e = Some (h', z', rs') /\ els = l1 ++ l2
    /\ zrep h' z' hd (l1 ++ mkS a sc (Some e) lvl :: l2) /\ zframe h h' (hd :: l1 ++ mkS a sc (Some e) lvl :: l2).
Proof.
  intros Hr Hsc Hrl Ha HB Hne. destruct (key_partition els (zkey sc e) (zr_sorted _ _ _ _ Hr)) as (l1 & l2 & -> & H1 & H2).
  destruct (zslInsert_ok fresh h z rs a junk sc e hd l1 l2 lvl rs' Hr Hsc Hrl Ha HB) as (h' & z' & E & Hr' & Hf).
  - exact H1.
  - apply Forall_app in Hne as [_ Hne]. apply Forall_forall. intros n Hn. rewrite Forall_forall in Hne, H2.
    unfold slt. change (skey (mkS a sc (Some e) lvl)) with (zkey sc e). apply lex_gt_lt.
    specialize (H2 n Hn). specialize (Hne n Hn). cbn in H2, Hne. destruct (lex (skey n) (zkey sc e)) eqn:E; [|done|done].
    by apply lex_eq in E.
  - exists h', z', l1, l2. done.
Qed.

(** C21: zslInsert on a skiplist that does not hold the pair (score, element)
    never faults: it returns a skiplist with the same nodes, and one more
    node with the given score and element, of the height drawn by
    zslRandomLevel, at its place in the order. All forward pointers, spans,
    backward pointers, the tail, the length and the level are those of the new
    list, and no node outside the list is written. *)
Theorem zslInsert_spec h z rs a junk sc e hd els lvl rs' : zrep h z hd els -> isnan sc = false ->
  zslRandomLevel rs = Some (lvl, rs') -> znodes h !! a = None -> zlen els + 1 < 2 ^ 32 - 1 ->
  Forall (fun n => skey n <> zkey sc e) els ->
  exists h' z' l1 l2, zslInsert fresh h z rs a junk sc e = Some (h', z', rs') /\ els = l1 ++ l2
    /\ zrep h' z' hd (l1 ++ mkS a sc (Some e) lvl :: l2) /\ zframe h h' (hd :: l1 ++ mkS a sc (Some e) lvl :: l2).
Proof. apply zslInsert_part. Qed.

(** Descending to a key. *)
Lemma descend_key h z hd els sc e w : zrep h z hd els -> isnan sc = false -> 32 <= w ->
  exists l1 l2 update, els = l1 ++ l2 /\ Forall (fun n => lex (skey n) (zkey sc e) = Lt) l1
    /\ Forall (fun n => lex (skey n) (zkey sc e) <> Lt) l2
    /\ descend (level z) (zsl_fuel z) h w (before sc e) (header z) 0 = Some update /\ preds hd l1 (level z) update.
Proof.
  intros Hr Hsc Hw. destruct (key_partition els (zkey sc e) (zr_sorted _ _ _ _ Hr)) as (l1 & l2 & -> & H1 & H2).
  destruct (descend_header h z hd (l1 ++ l2) l1 l2 w (before sc e) Hr) as (update & E & _ & Hp); [|done|].
  - apply splits_before; try done. apply Hr.
  - exists l1, l2, update. done.
Qed.

(** A key that is at the head of the second part, or nowhere. *)
Lemma key_at_head els l1 l2 k : els = l1 ++ l2 -> StronglySorted slt els -> Forall (fun n => lex (skey n) k = Lt) l1 ->
  Forall (fun n => lex (skey n) k <> Lt) l2 ->
  match l2 with
  | x :: _ => skey x = k \/ Forall (fun n => skey n <> k) els
  | [] => Forall (fun n => skey n <> k) els
  end.
Proof.
  intros -> Hs H1 H2.
  assert (Hlt : Forall (fun n => skey n <> k) l1).
  { eapply Forall_impl; [exact H1|]. intros n Hn E. cbn in Hn. by rewrite E, lex_refl in Hn. }
  destruct l2 as [|x l2]; [by rewrite app_nil_r|]. destruct (decide (skey x = k)) as [|Hx]; [by left|right].
  apply Forall_app. split; [done|]. constructor; [done|]. apply ss_remove in Hs as (_ & _ & Hx2). apply Forall_cons in H2 as [Hxk _].
  eapply Forall_impl; [exact Hx2|]. intros n Hn E. cbn in Hn. unfold slt in Hn. rewrite E in Hn. done.
Qed.

(** Deletion by key. *)
Lemma zslDelete_part h z sc e (free_node : bool) hd els : zrep h z hd els -> isnan sc = false ->
  (exists l1 x l2 h' z', els = l1 ++ x :: l2 /\ skey x = zkey sc e
     /\ zslDelete h z sc e free_node = Some (h', z', Some (s_addr x)) /\ zrep h' z' hd (l1 ++ l2)
     /\ (free_node = true -> znodes h' !! s_addr x = None))
  \/ (Forall (fun n => skey n <> zkey sc e) els /\ zslDelete h z sc e free_node = Some (h, z, None)).
Proof.
  intros Hr Hsc. unfold zslDelete. destruct (descend_key h z hd els sc e 64 Hr Hsc ltac:(lia)) as (l1 & l2 & update & -> & H1 & H2 & -> & Hp).
  cbn [mbind option_bind]. rewrite (next_of_ok h z hd l1 l2 update Hr Hp). cbn [mbind option_bind].
  pose proof (key_at_head _ _ _ _ eq_refl (zr_sorted _ _ _ _ Hr) H1 H2) as Hk. destruct l2 as [|x l2]; [right; done|]. cbn [head fmap option_fmap option_map].
  unfold get_node. rewrite (zr_nodes _ _ _ _ Hr (hd :: l1) x l2 eq_refl). cbn [mbind option_bind node_at ele score].
  pose proof (zr_ok _ _ _ _ Hr) as Hok. apply Forall_app in Hok as [_ Hok]. apply Forall_cons in Hok as [(_ & [xe Exe] & Hxn) _].
  rewrite Exe. cbn [mbind option_bind]. rewrite (found_test sc e x xe Exe Hsc Hxn).
  destruct (bool_decide_reflect (skey x = zkey sc e)) as [Ek|Hne]; [left|right; by destruct Hk].
  destruct (zslDeleteNode_ok h z hd x l1 l2 update Hr Hp) as (h1 & z1 & -> & Hr1 & Hf1 & _). cbn [mbind option_bind].
  assert (Hx : s_addr x ∉ s_addr <$> hd :: l1 ++ l2).
  { intros Hin. apply list_elem_of_fmap in Hin as (m & Em & Hm). rewrite app_comm_cons in Hm. apply elem_of_app in Hm.
    by apply (x_not_old h z hd x l1 l2 Hr m). }
  destruct (Hf1 _ Hx) as [Hxnode _]. rewrite (zr_nodes _ _ _ _ Hr (hd :: l1) x l2 eq_refl) in Hxnode.
  destruct free_node.
  - destruct (zslFreeNode_ok h1 z1 hd (l1 ++ l2) (s_addr x) _ Hr1 Hx Hxnode) as (h2 & -> & Hr2 & Hn2 & _). cbn [mbind option_bind].
    exists l1, x, l2, h2, z1. done.
  - exists l1, x, l2, h1, z1. done.
Qed.

(** ZslDelete finds the node with the given score and element and unlinks
    it from every level, keeping all spans, pointers, the tail, the length and
    the level of the remaining list exact, and frees it when no output
    parameter is given; when no node has that score and element nothing
    changes and 0 is returned. *)
Theorem zslDelete_spec h z sc e (free_node : bool) hd els : zrep h z hd els -> isnan sc = false ->
  (exists l1 x l2 h' z', els = l1 ++ x :: l2 /\ skey x = zkey sc e
     /\ zslDelete h z sc e free_node = Some (h', z', Some (s_addr x)) /\ zrep h' z' hd (l1 ++ l2)
     /\ (free_node = true -> znodes h' !! s_addr x = None))
  \/ (Forall (fun n => skey n <> zkey sc e) els /\ zslDelete h z sc e free_node = Some (h, z, None)).
Proof. apply zslDelete_part. Qed.

(** ** Updating a score *)

(** [nxt] and [backp] do not depend on the scores. *)
Lemma nxt_swap i (v l : list snode) x x' : s_addr x' = s_addr x -> s_ht x' = s_ht x -> nxt i (v ++ x' :: l) = nxt i (v ++ x :: l).
Proof. intros Ea Eh. induction v as [|n v IH]; cbn [app nxt]; [by rewrite Ea, Eh|]. by rewrite IH. Qed.

Lemma backp_swap (u w : list snode) x x' : s_addr x' = s_addr x -> backp (u ++ x' :: w) = backp (u ++ x :: w).
Proof.
  intros Ea. unfold backp. destruct u as [|y u]; [done|]. change (s_addr <$> last (u ++ x' :: w) = s_addr <$> last (u ++ x :: w)).
  rewrite <- !fmap_last, !fmap_app, !fmap_cons. by rewrite Ea.
Qed.

Lemma zrep_rescore h z hd l1 x x' l2 : zrep h z hd (l1 ++ x :: l2) -> s_addr x' = s_addr x -> s_ht x' = s_ht x -> node_ok x' ->
  Forall (fun n => slt n x') l1 -> Forall (slt x') l2 ->
  zrep (mkZHeap (<[s_addr x := node_at (hd :: l1) x']> (znodes h)) (zlevels h)) z hd (l1 ++ x' :: l2).
Proof.
  intros Hr Ea Eh Hx' H1 H2. pose proof (zr_nodup _ _ _ _ Hr) as Hnd.
  assert (Hold : forall n, n ∈ hd :: l1 \/ n ∈ l2 -> s_addr x <> s_addr n) by (intros n Hn; apply not_eq_sym; by apply (x_not_old h z hd x l1 l2 Hr)).
  pose proof (zr_ok _ _ _ _ Hr) as Hok. pose proof (zr_low _ _ _ _ Hr) as Hlow.
  split; cbn [znodes zlevels]; try apply Hr.
  - intros u n w E. rewrite app_comm_cons in E. apply app_cons_cases in E as [(w1 & E & ->)|[(-> & -> & ->)|(u1 & -> & E)]].
    + rewrite lookup_insert_ne by (apply Hold; left; rewrite E; apply elem_of_app; right; left).
      apply (zr_nodes _ _ _ _ Hr u n (w1 ++ x :: l2)). by rewrite app_comm_cons, E, <- app_assoc.
    + by rewrite Ea, lookup_insert_eq.
    + rewrite lookup_insert_ne by (apply Hold; right; rewrite E; apply elem_of_app; right; left).
      rewrite (zr_nodes _ _ _ _ Hr ((hd :: l1) ++ x :: u1) n w); [|rewrite E; cbn; by rewrite <- app_assoc].
      unfold node_at. by rewrite (backp_swap (hd :: l1) u1 x x').
  - intros u n w i E Hi Hl. rewrite app_comm_cons in E. apply app_cons_cases in E as [(w1 & E & ->)|[(-> & -> & ->)|(u1 & -> & E)]].
    + rewrite (nxt_swap _ _ _ x) by done. apply (zr_cells _ _ _ _ Hr u n); [by rewrite app_comm_cons, E, <- app_assoc|done|done].
    + rewrite Ea. apply (zr_cells _ _ _ _ Hr (hd :: l1) x); [done|lia|done].
    + apply (zr_cells _ _ _ _ Hr ((hd :: l1) ++ x :: u1) n); [rewrite E; cbn; by rewrite <- app_assoc|done|done].
  - rewrite (zr_tail _ _ _ _ Hr). symmetry. by apply (backp_swap (hd :: l1)).
  - rewrite (zr_len _ _ _ _ Hr), !length_app. done.
  - pose proof (zr_bound _ _ _ _ Hr) as HB. rewrite length_app in *. done.
  - apply Forall_app in Hlow as [? Hlow]. apply Forall_cons in Hlow as [? ?]. apply Forall_app. split; [done|]. constructor; [lia|done].
  - destruct (zr_high _ _ _ _ Hr) as [?|Hex]; [by left|right]. apply Exists_app in Hex as [?|Hex]; apply Exists_app; [by left|right].
    apply Exists_cons in Hex as [?|?]; apply Exists_cons; [left; lia|by right].
  - apply Forall_app in Hok as [? Hok]. apply Forall_cons in Hok as [? ?]. apply Forall_app. split; [done|]. by constructor.
  - rewrite !fmap_cons, !fmap_app, !fmap_cons in *. by rewrite Ea.
  - apply ss_insert; [|done|done]. by apply (ss_remove l1 l2 x), Hr.
Qed.

(** The node can stay: the neighbours are strictly on each side. *)
Lemma stays_ok h z hd l1 x l2 ns : zrep h z hd (l1 ++ x :: l2) -> isnan ns = false ->
  exists b, stays h (s_addr x) ns = Some b /\
    (b = true -> forall x', s_score x' = ns -> Forall (fun n => slt n x') l1 /\ Forall (slt x') l2).
Proof.
  intros Hr Hns. unfold stays, get_node, get_level. rewrite (zr_nodes _ _ _ _ Hr (hd :: l1) x l2 eq_refl). cbn [mbind option_bind node_at backward].
  pose proof (zr_ok _ _ _ _ Hr) as Hok. apply Forall_app in Hok as [Hok1 Hok2]. apply Forall_cons in Hok2 as [Hokx Hok2].
  pose proof (zr_level _ _ _ _ Hr) as Hlv. destruct (ss_remove _ _ _ (zr_sorted _ _ _ _ Hr)) as (Hss & _ & _).
  assert (Hlt : forall a b, lex (fkey (s_score a)) (fkey (s_score b)) = Lt -> slt a b) by (intros a b E; unfold slt, skey; by rewrite zkey_lex, E).
  assert (H1 : exists b, match backp (hd :: l1) with None => Some true | Some a => nb ← znodes h !! a; Some (SFltb (score nb) ns) end = Some b
    /\ (b = true -> forall x', s_score x' = ns -> Forall (fun n => slt n x') l1)).
  { destruct (rev_case l1) as [->|(l1' & y & ->)]; [exists true; split; [done|]; intros _ x' _; constructor|].
    rewrite app_comm_cons, backp_snoc by done.
    rewrite (zr_nodes _ _ _ _ Hr (hd :: l1') y (x :: l2)) by (cbn; by rewrite <- app_assoc). cbn [mbind option_bind node_at score].
    apply Forall_app in Hok1 as [_ Hy]. apply Forall_cons in Hy as [(_ & _ & Hy) _]. rewrite SFltb_lex by done. eexists. split; [done|].
    intros Eb x' Ex. apply bool_decide_eq_true in Eb. rewrite <- Ex in Eb. apply Hlt in Eb. apply Forall_app. split; [|by constructor].
    rewrite <- app_assoc in Hss. apply ss_remove in Hss as (_ & Hss & _). eapply Forall_impl; [exact Hss|]. intros n Hn. exact (slt_trans _ _ _ Hn Eb). }
  destruct H1 as (b1 & -> & H1). cbn [mbind option_bind]. destruct b1; [|by exists false].
  rewrite (zr_cells _ _ _ _ Hr (hd :: l1) x l2 0%nat eq_refl) by (destruct Hokx; lia). cbn [mbind option_bind].
  destruct l2 as [|y l2]; [exists true; split; [done|]; intros _ x' Ex; split; [by apply H1|constructor]|].
  apply Forall_cons in Hok2 as [(Hyh & _ & Hy) _]. cbn [nxt]. replace (0 <? s_ht y)%nat with true by lia. cbn [forward].
  rewrite (zr_nodes _ _ _ _ Hr (hd :: l1 ++ [x]) y l2) by (cbn; by rewrite <- app_assoc). cbn [mbind option_bind node_at score].
  rewrite SFltb_lex by done. eexists. split; [done|]. intros Eb x' Ex. split; [by apply H1|]. apply bool_decide_eq_true in Eb. rewrite <- Ex in Eb.
  apply Hlt in Eb. apply ss_remove in Hss as (_ & _ & Hss). constructor; [done|]. eapply Forall_impl; [exact Hss|]. intros n Hn. exact (slt_trans _ _ _ Eb Hn).
Qed.

(** [zslUpdateScore] on a skiplist that holds the element with the current
    score (and no other node with that element) returns a skiplist with the
    other nodes as they were and the element with its new score at its place
    in the order, whether the node stays in place (its neighbours allow it) or
    is removed and inserted again at the fresh address; in the second case the
    old node is freed. *)
Lemma zslUpdateScore_spec h z rs a junk cur e ns hd l1 x l2 lvl rs' : zrep h z hd (l1 ++ x :: l2) ->
  s_ele x = Some e -> isnan cur = false -> fkey (s_score x) = fkey cur -> isnan ns = false ->
  Forall (fun n => s_ele n <> Some e) (l1 ++ l2) -> zslRandomLevel rs = Some (lvl, rs') -> znodes h !! a = None ->
  exists h' z' rs1 b l1' l2' x', zslUpdateScore fresh h z rs a junk cur e ns = Some (h', z', rs1, b)
    /\ l1 ++ l2 = l1' ++ l2' /\ zrep h' z' hd (l1' ++ x' :: l2') /\ s_score x' = ns /\ s_ele x' = Some e /\ s_addr x' = b
    /\ (b = s_addr x /\ rs1 = rs \/ b = a /\ rs1 = rs' /\ znodes h' !! s_addr x = None).
Proof.
  intros Hr Ex Hcur Ek Hns Hne Hrl Ha. unfold zslUpdateScore.
  assert (Hxk : skey x = zkey cur e) by (unfold skey, zkey; by rewrite Ex, Ek).
  destruct (ss_remove _ _ _ (zr_sorted _ _ _ _ Hr)) as (_ & Hx1 & Hx2). pose proof (zr_ok _ _ _ _ Hr) as Hok.
  destruct (descend_header h z hd (l1 ++ x :: l2) l1 (x :: l2) 64 (before cur e) Hr) as (update & -> & _ & Hp); [|lia|].
  { apply splits_before; [done|done|done| |].
    - eapply Forall_impl; [exact Hx1|]. intros n Hn. cbn. by rewrite <- Hxk.
    - rewrite <- Hxk. constructor; [by rewrite lex_refl|]. eapply Forall_impl; [exact Hx2|]. intros n Hn. cbn. by rewrite (lex_antisym (skey x)), Hn. }
  cbn [mbind option_bind]. rewrite (next_of_ok h z hd l1 (x :: l2) update Hr Hp). cbn [mbind option_bind head fmap option_fmap option_map].
  unfold get_node. rewrite (zr_nodes _ _ _ _ Hr (hd :: l1) x l2 eq_refl). cbn [mbind option_bind node_at ele score]. rewrite Ex. cbn [mbind option_bind].
  apply Forall_app in Hok as [Hok1 Hok2]. apply Forall_cons in Hok2 as [Hokx Hok2].
  rewrite (found_test cur e x e Ex Hcur) by apply Hokx. rewrite bool_decide_true by done. cbn [negb].
  destruct (stays_ok h z hd l1 x l2 ns Hr Hns) as (st & -> & Hst). cbn [mbind option_bind]. destruct st.
  - unfold set_score, get_node. rewrite (zr_nodes _ _ _ _ Hr (hd :: l1) x l2 eq_refl). cbn [mbind option_bind].
    destruct (Hst eq_refl (mkS (s_addr x) ns (Some e) (s_ht x)) eq_refl) as [S1 S2]. eexists _, z, rs, (s_addr x), l1, l2, (mkS (s_addr x) ns (Some e) (s_ht x)).
    cbn [node_at ele backward nlevels]. rewrite Ex. split; [done|]. split; [done|]. split; [|split_and!; [done..|by left]].
    apply (zrep_rescore h z hd l1 x (mkS (s_addr x) ns (Some e) (s_ht x)) l2); try done. destruct Hokx as (? & _ & _). split_and!; [cbn; lia|cbn; lia|done|done].
  - destruct (zslDeleteNode_ok h z hd x l1 l2 update Hr Hp) as (h1 & z1 & -> & Hr1 & Hf1 & _). cbn [mbind option_bind].
    assert (Hxn : s_addr x ∉ s_addr <$> hd :: l1 ++ l2).
    { intros Hin. apply list_elem_of_fmap in Hin as (m & Em & Hm). rewrite app_comm_cons in Hm. apply elem_of_app in Hm. by apply (x_not_old h z hd x l1 l2 Hr m). }
    pose proof (zr_nodes _ _ _ _ Hr (hd :: l1) x l2 eq_refl) as Hxnode.
    assert (Ha1 : znodes h1 !! a = None).
    { destruct (Hf1 a) as [-> _]; [|done]. intros Hin. assert (Hin' : a ∈ s_addr <$> hd :: l1 ++ x :: l2).
      { rewrite app_comm_cons, fmap_app in *. apply elem_of_app in Hin as [?|?]; apply elem_of_app; [by left|right; by right]. }
      revert Hin'. by apply (nodup_fresh h z hd _ (mkS a ns None 0) Hr). }
    pose proof (zr_bound _ _ _ _ Hr) as HB. rewrite length_app in HB. cbn [length] in HB.
    destruct (zslInsert_part h1 z1 rs a junk ns e hd (l1 ++ l2) lvl rs' Hr1 Hns Hrl Ha1) as (h2 & z2 & k1 & k2 & -> & Ek12 & Hr2 & Hf2).
    + rewrite length_app. lia.
    + pose proof (zr_ok _ _ _ _ Hr1) as Hok. apply Forall_forall. intros n Hn. rewrite Forall_forall in Hne, Hok. destruct (Hok n Hn) as (_ & [ne En] & _).
      intros Hk. apply (skey_inj n ns e ne En) in Hk as [_ ->]. by apply (Hne n Hn).
    + cbn [mbind option_bind]. set (x' := mkS a ns (Some e) lvl) in *.
      assert (Hxa : s_addr x <> a) by (intros E; rewrite E in Hxnode; congruence).
      assert (Hx2' : s_addr x ∉ s_addr <$> hd :: k1 ++ x' :: k2).
      { intros Hin. apply Hxn. rewrite Ek12. rewrite app_comm_cons, fmap_app in Hin |- *. apply elem_of_app in Hin as [?|Hin]; apply elem_of_app; [by left|right].
        apply list_elem_of_fmap in Hin as (m & Em & Hm). apply elem_of_cons in Hm as [->|Hm]; [by destruct Hxa|]. rewrite Em. by apply list_elem_of_fmap_2. }
      destruct (zslFreeNode_ok h2 z2 hd (k1 ++ x' :: k2) (s_addr x) (node_at (hd :: l1) x) Hr2 Hx2') as (h3 & -> & Hr3 & Hn3 & _).
      { rewrite (proj1 (Hf2 _ Hx2')), (proj1 (Hf1 _ Hxn)). done. }
      cbn [mbind option_bind]. exists h3, z2, rs', a, k1, k2, x'. split_and!; try done. right. done.
Qed.
End ops.

(** * Creation *)

Lemma zslCreate_ok fresh h a junk : exists h', zslCreate fresh h a junk = Some (h', mkZsl a None 0 1)
  /\ zrep h' (mkZsl a None 0 1) (mkS a (S754_zero false) None ZSKIPLIST_MAXLEVEL) []
  /\ zframe h h' [mkS a (S754_zero false) None ZSKIPLIST_MAXLEVEL].
Proof.
  unfold zslCreate, init_levels. set (hc := zslCreateNode fresh h a ZSKIPLIST_MAXLEVEL (S754_zero false) None junk).
  set (f := fun (j : nat) (b : Z) => if decide (b = a) then Some (mkLevel None 0) else zlevels hc !! (b, j)).
  destruct (for_range_ok (fun j h => set_level h a j (mkLevel None 0)) f ZSKIPLIST_MAXLEVEL 0 hc) as (h1 & -> & Hn1 & Hc1).
  { intros j h0 Hj Hs. assert (Ec : zlevels h0 !! (a, j) = Some (fresh j)).
    { rewrite Hs. unfold hc, zslCreateNode. cbn [zlevels]. rewrite alloc_levels_lookup, bool_decide_true by done. cbn [andb].
      replace (j <? ZSKIPLIST_MAXLEVEL)%nat with true by lia. done. }
    rewrite (set_level_ok _ _ _ _ _ Ec). eexists. split; [done|]. cbn [znodes zlevels]. split; [done|]. split.
    - intros b k Hk. apply lookup_insert_ne. congruence.
    - intros b. unfold f. destruct (decide (b = a)) as [->|Hb]; [by rewrite lookup_insert_eq|]. rewrite lookup_insert_ne by congruence. apply Hs. }
  cbn [mbind option_bind]. assert (En : znodes h1 !! a = Some (mkZNode None (S754_zero false) junk ZSKIPLIST_MAXLEVEL)).
  { rewrite Hn1. unfold hc, zslCreateNode. cbn [znodes]. apply lookup_insert_eq. }
  rewrite (set_backward_ok _ _ _ _ En). cbn [mbind option_bind ele score nlevels]. eexists. split; [done|].
  assert (Hcell : forall i, (i < ZSKIPLIST_MAXLEVEL)%nat -> zlevels h1 !! (a, i) = Some (mkLevel None 0)).
  { intros i Hi. rewrite Hc1. replace (_ && _) with true by lia. unfold f. by rewrite decide_True. }
  split.
  - split; cbn [header tail length_ level s_addr s_ht s_ele znodes zlevels length]; try done.
    + intros u n w E. destruct u as [|? [|]]; [|done|done]. injection E as <- <-. apply lookup_insert_eq.
    + intros u n w i E Hi _. destruct u as [|? [|]]; [|done|done]. injection E as <- <-. cbn [nxt s_addr s_ht] in *. by apply Hcell.
    + intros i [_ Hi]. exists 0. by apply Hcell.
    + split; [lia|]. unfold ZSKIPLIST_MAXLEVEL. lia.
    + constructor.
    + by left.
    + apply NoDup_singleton.
    + constructor.
  - intros b Hb. cbn in Hb. assert (b <> a) by (intros ->; apply Hb; left). cbn [znodes zlevels]. split.
    + rewrite lookup_insert_ne by done. rewrite Hn1. unfold hc, zslCreateNode. cbn [znodes]. by rewrite lookup_insert_ne.
    + intros i. rewrite Hc1. assert (Eh : zlevels hc !! (b, i) = zlevels h !! (b, i)).
      { unfold hc, zslCreateNode. cbn [zlevels]. by rewrite alloc_levels_lookup, bool_decide_false. }
      destruct (_ && _); [|done]. unfold f. by rewrite decide_False.
Qed.

(** * Release *)

Lemma free_loop_ok l : forall h fuel, (forall u n w, l = u ++ n :: w -> (exists nd, znodes h !! s_addr n = Some nd) /\ zlevels h !! (s_addr n, 0%nat) = Some (nxt 0 w)) ->
  Forall node_ok l -> NoDup (s_addr <$> l) -> (length l <= fuel)%nat ->
  exists h', free_loop fuel h (s_addr <$> head l) = Some h' /\ forall b, znodes h' !! b = if decide (b ∈ s_addr <$> l) then None else znodes h !! b.
Proof.
  induction l as [|n l IH]; intros h fuel Hl Hok Hnd Hf.
  - exists h. split; [by destruct fuel|]. intros b. by rewrite decide_False by apply not_elem_of_nil.
  - destruct fuel as [|fuel]; [cbn in Hf; lia|]. destruct (Hl [] n l eq_refl) as [[nd End] Ec]. apply Forall_cons in Hok as [_ Hok].
    cbn [head fmap option_fmap option_map free_loop]. unfold get_level. rewrite Ec. cbn [mbind option_bind]. unfold zslFreeNode, get_node. rewrite End.
    cbn [mbind option_bind]. rewrite (nxt0 l Hok). rewrite fmap_cons in Hnd. apply NoDup_cons in Hnd as [Hn Hnd].
    destruct (IH (mkZHeap (delete (s_addr n) (znodes h)) (free_levels (nlevels nd) (zlevels h) (s_addr n))) fuel) as (h' & -> & Hb); [|done|done|cbn in Hf; lia|].
    + intros u m w E. assert (Hne : s_addr m <> s_addr n) by (intros Em; apply Hn; rewrite <- Em; by apply (addr_in _ u w)).
      destruct (Hl (n :: u) m w ltac:(by rewrite E)) as [[nd' End'] Ec']. cbn [znodes zlevels]. rewrite lookup_delete_ne by done.
      rewrite free_levels_lookup, bool_decide_false by done. split; [by eexists|done].
    + exists h'. split; [done|]. intros b. rewrite Hb, fmap_cons. cbn [znodes]. destruct (decide (b ∈ s_addr <$> l)) as [Hin|Hin].
      * rewrite decide_True by (by right). done.
      * destruct (decide (b = s_addr n)) as [->|Hne].
        -- rewrite lookup_delete_eq, decide_True by left. done.
        -- rewrite lookup_delete_ne, decide_False by (done || (intros [?|?]%elem_of_cons; done)). done.
Qed.

(** [zslFree] frees the header and every node, each once, and nothing else. *)
Lemma zslFree_ok h z hd els : zrep h z hd els ->
  exists h', zslFree h z = Some h' /\ forall b, znodes h' !! b = if decide (b ∈ s_addr <$> hd :: els) then None else znodes h !! b.
Proof.
  intros Hr. pose proof (zr_level _ _ _ _ Hr) as Hlv. destruct (zr_hd _ _ _ _ Hr) as [Hht _]. pose proof (zr_ok _ _ _ _ Hr) as Hok.
  pose proof (zr_nodup _ _ _ _ Hr) as Hnd. rewrite fmap_cons in Hnd. apply NoDup_cons in Hnd as [Hn Hnd].
  unfold zslFree. rewrite (zr_header _ _ _ _ Hr). unfold get_level. rewrite (zr_cells _ _ _ _ Hr [] hd els 0%nat eq_refl) by (unfold ZSKIPLIST_MAXLEVEL in *; lia).
  cbn [mbind option_bind]. unfold zslFreeNode, get_node. rewrite (zr_nodes _ _ _ _ Hr [] hd els eq_refl). cbn [mbind option_bind]. rewrite (nxt0 els Hok).
  edestruct (free_loop_ok els) as (h' & -> & Hb); [|done|done|rewrite (zr_len _ _ _ _ Hr); lia|].
  - intros u m w E. assert (Hne : s_addr m <> s_addr hd) by (intros Em; apply Hn; rewrite <- Em; by apply (addr_in _ u w)).
    cbn [znodes zlevels]. rewrite lookup_delete_ne by done. rewrite free_levels_lookup, bool_decide_false by done.
    assert (E' : hd :: els = (hd :: u) ++ m :: w) by (by rewrite E). split; [eexists; apply (zr_nodes _ _ _ _ Hr _ _ _ E')|].
    apply (zr_cells _ _ _ _ Hr _ _ _ _ E'); [|lia]. rewrite E in Hok. apply Forall_app in Hok as [_ Hok]. apply Forall_cons in Hok as [[? _] _]. lia.
  - exists h'. split; [done|]. intros b. rewrite Hb, fmap_cons. cbn [znodes]. destruct (decide (b ∈ s_addr <$> els)) as [Hin|Hin].
    + rewrite decide_True by (by right). done.
    + destruct (decide (b = s_addr hd)) as [->|Hne].
      * rewrite lookup_delete_eq, decide_True by left. done.
      * rewrite lookup_delete_ne, decide_False by (done || (intros [?|?]%elem_of_cons; done)). done.
Qed.

(** * A sample list

    ("a", 1.0), ("b", 2.0), ("c", 2.0), of heights 1, 2 and 1. *)
Definition one : spec_float := S754_finite false 4503599627370496 (-52).
Definition two : spec_float := S754_finite false 4503599627370496 (-51).
Definition three : spec_float := S754_finite false 6755399441055744 (-51).
Definition junk_level (i : nat) : zskiplistLevel := mkLevel (Some 999) 77.

Definition sample_hd : snode := mkS 10 (S754_zero false) None ZSKIPLIST_MAXLEVEL.
Definition node_a : snode := mkS 11 one (Some [97]) 1.
Definition node_b : snode := mkS 12 two (Some [98]) 2.
Definition node_c : snode := mkS 13 two (Some [99]) 1.

Ltac not_listed :=
  cbn; let Hin := fresh in intros Hin; repeat (apply elem_of_cons in Hin as [Hin|Hin]; [congruence|]); by apply not_elem_of_nil in Hin.

Lemma sample_zrep : exists h z, zrep h z sample_hd [node_a; node_b; node_c] /\ forall a, a <> 10 -> a <> 11 -> a <> 12 -> a <> 13 -> znodes h !! a = None.
Proof.
  destruct (zslCreate_ok junk_level (mkZHeap ∅ ∅) 10 None) as (h0 & _ & R0 & F0).
  assert (N0 : forall a, a <> 10 -> znodes h0 !! a = None).
  { intros a Ha. rewrite (proj1 (F0 a ltac:(not_listed))). apply lookup_empty. }
  destruct (zslInsert_ok junk_level h0 _ [5; 65535] 12 None two [98] sample_hd [] [] 2 [] R0) as (h1 & z1 & _ & R1 & F1);
    [done|done|by apply N0|cbn; lia|constructor|constructor|].
  assert (N1 : forall a, a <> 10 -> a <> 12 -> znodes h1 !! a = None) by (intros a H1 H2; rewrite (proj1 (F1 a ltac:(not_listed))); by apply N0).
  destruct (zslInsert_ok junk_level h1 z1 [65535] 11 None one [97] sample_hd [] [node_b] 1 [] R1) as (h2 & z2 & _ & R2 & F2);
    [done|done|by apply N1|cbn; lia|constructor|by repeat constructor|].
  assert (N2 : forall a, a <> 10 -> a <> 11 -> a <> 12 -> znodes h2 !! a = None) by (intros a H1 H2 H3; rewrite (proj1 (F2 a ltac:(not_listed))); by apply N1).
  destruct (zslInsert_ok junk_level h2 z2 [65535] 13 None two [99] sample_hd [node_a; node_b] [] 1 [] R2) as (h3 & z3 & _ & R3 & F3);
    [done|done|by apply N2|cbn; lia|by repeat constructor|constructor|].
  exists h3, z3. split; [exact R3|]. intros a H1 H2 H3 H4. rewrite (proj1 (F3 a ltac:(not_listed))). by apply N2.
Qed.

Lemma zslInsert_spec_witness : exists h z h' z' l1 l2, zslInsert junk_level h z [7; 7; 65535] 20 None three [97; 97] = Some (h', z', [])
  /\ [node_a; node_b; node_c] = l1 ++ l2 /\ zrep h' z' sample_hd (l1 ++ mkS 20 three (Some [97; 97]) 3 :: l2).
Proof.
  destruct sample_zrep as (h & z & R & N).
  destruct (zslInsert_spec junk_level h z [7; 7; 65535] 20 None three [97; 97] sample_hd [node_a; node_b; node_c] 3 []) as (h' & z' & l1 & l2 & E & El & R' & _);
    [exact R|done|done|by apply N|cbn; lia|by repeat constructor|]. exists h, z, h', z', l1, l2. done.
Defined.

Lemma zslDelete_spec_witness : exists h z h' z', zslDelete h z two [98] true = Some (h', z', Some 12) /\ zrep h' z' sample_hd [node_a; node_c].
Proof.
  destruct sample_zrep as (h & z & R & N).
  destruct (zslDelete_spec h z two [98] true sample_hd [node_a; node_b; node_c] R eq_refl) as [(l1 & x & l2 & h' & z' & El & Ek & E & R' & _)|[F _]].
  - exists h, z, h', z'. destruct l1 as [|? [|? [|? [|? ?]]]]; cbn in El; injection El as; subst; try done.
  - exfalso. rewrite Forall_forall in F. apply (F node_b); [right; left|done].
Defined.
