(* ===== verification/ZskiplistRange.v ===== *)
(** Ranges and ranks of the skiplist: the first and last nodes of a range, the
    rank of an element and the element of a rank, and the deletion of ranges
    together with the entries of a dictionary of the elements. *)
From Stdlib Require Import SpecFloat Sorted.
From stdpp Require Import gmap.
From S2P Require Import Prelude Dict DictMap Sds SdsSpec SdsOps Zskiplist ZskiplistSpec ZskiplistOps.
Open Scope Z_scope.

(** * Ranges of keys

    A range has two bounds, each inclusive or exclusive. *)
Definition key_gte (mn : bytes) (ex : bool) (v : bytes) : bool :=
  if ex then bool_decide (lex mn v = Lt) else negb (bool_decide (lex mn v = Gt)).
Definition key_lte (mx : bytes) (ex : bool) (v : bytes) : bool :=
  if ex then bool_decide (lex v mx = Lt) else negb (bool_decide (lex v mx = Gt)).

Lemma lex_le_trans a b c : lex a b <> Gt -> lex b c <> Gt -> lex a c <> Gt.
Proof.
  intros Hab Hbc. destruct (lex a b) eqn:E1; [apply lex_eq in E1 as ->; done| |done].
  destruct (lex b c) eqn:E2; [apply lex_eq in E2 as ->; congruence|by rewrite (lex_trans a b c)|done].
Qed.
Lemma lex_lt_le a b c : lex a b = Lt -> lex b c <> Gt -> lex a c = Lt.
Proof. intros Hab Hbc. destruct (lex b c) eqn:E2; [by apply lex_eq in E2 as <-|by apply (lex_trans a b c)|done]. Qed.
Lemma lex_le_lt a b c : lex a b <> Gt -> lex b c = Lt -> lex a c = Lt.
Proof. intros Hab Hbc. destruct (lex a b) eqn:E1; [by apply lex_eq in E1 as ->|by apply (lex_trans a b c)|done]. Qed.

Lemma key_gte_spec mn ex v : key_gte mn ex v = true <-> if ex then lex mn v = Lt else lex mn v <> Gt.
Proof. unfold key_gte. destruct ex; [apply bool_decide_eq_true|]. by rewrite negb_true_iff, bool_decide_eq_false. Qed.
Lemma key_lte_spec mx ex v : key_lte mx ex v = true <-> if ex then lex v mx = Lt else lex v mx <> Gt.
Proof. unfold key_lte. destruct ex; [apply bool_decide_eq_true|]. by rewrite negb_true_iff, bool_decide_eq_false. Qed.

Lemma key_gte_mono mn ex a b : lex a b <> Gt -> key_gte mn ex a = true -> key_gte mn ex b = true.
Proof. rewrite !key_gte_spec. destruct ex; intros Hab Ha; [by eapply lex_lt_le|by eapply lex_le_trans]. Qed.
Lemma key_lte_mono mx ex a b : lex a b <> Gt -> key_lte mx ex b = true -> key_lte mx ex a = true.
Proof. rewrite !key_lte_spec. destruct ex; intros Hab Ha; [by eapply lex_le_lt|by eapply lex_le_trans]. Qed.

(** The test that a range is empty whatever the keys. *)
Lemma key_range_empty mn mx mnx mxx v : lex mn mx = Gt \/ mn = mx /\ (mnx || mxx = true) ->
  key_gte mn mnx v = true -> key_lte mx mxx v = true -> False.
Proof.
  rewrite key_gte_spec, key_lte_spec. intros H Hg Hl. assert (Hle : lex mn mx <> Gt).
  { apply (lex_le_trans _ v); [destruct mnx; congruence|destruct mxx; congruence]. }
  destruct H as [H|[-> H]]; [done|].
  destruct mnx; [|destruct mxx; [|done]].
  - assert (lex mx mx = Lt) as E by (apply (lex_lt_le _ v); [done|destruct mxx; congruence]). by rewrite lex_refl in E.
  - assert (lex mx mx = Lt) as E by (by apply (lex_le_lt _ v)). by rewrite lex_refl in E.
Qed.

(** * The first and the last node of a range

    [vk] is what the range is about: the score or the element of a node. *)
Definition in_keys (vk : spec_float -> bytes -> bytes) (mn mx : bytes) (mnx mxx : bool) (n : snode) : bool :=
  let v := vk (s_score n) (default [] (s_ele n)) in key_gte mn mnx v && key_lte mx mxx v.

Section range.
Context (h : zheap) (z : zskiplist) (hd : snode) (els : list snode) (Hr : zrep h z hd els).
Context (vk : spec_float -> bytes -> bytes) (mn mx : bytes) (mnx mxx : bool).
Context (gte lte : zskiplistNode -> option bool).
Let nk (n : snode) : bytes := vk (s_score n) (default [] (s_ele n)).
Context (Hmono : forall a b, a ∈ els -> b ∈ els -> slt a b -> lex (vk (s_score a) (default [] (s_ele a))) (vk (s_score b) (default [] (s_ele b))) <> Gt).
Context (Hgte : forall nd ne, ele nd = Some ne -> isnan (score nd) = false -> gte nd = Some (key_gte mn mnx (vk (score nd) ne))).
Context (Hlte : forall nd ne, ele nd = Some ne -> isnan (score nd) = false -> lte nd = Some (key_lte mx mxx (vk (score nd) ne))).

Let inr (n : snode) : bool := in_keys vk mn mx mnx mxx n.

Lemma gte_node u n w : hd :: els = u ++ n :: w -> u <> [] -> gte (node_at u n) = Some (key_gte mn mnx (nk n)).
Proof.
  intros E Hu. destruct u as [|x u]; [done|]. injection E as -> E. pose proof (zr_ok _ _ _ _ Hr) as Hok. rewrite E in Hok. apply Forall_app in Hok as [_ Hok].
  apply Forall_cons in Hok as [(_ & [ne En] & Hn) _]. unfold nk. rewrite En. by apply Hgte.
Qed.
Lemma lte_node u n w : hd :: els = u ++ n :: w -> u <> [] -> lte (node_at u n) = Some (key_lte mx mxx (nk n)).
Proof.
  intros E Hu. destruct u as [|x u]; [done|]. injection E as -> E. pose proof (zr_ok _ _ _ _ Hr) as Hok. rewrite E in Hok. apply Forall_app in Hok as [_ Hok].
  apply Forall_cons in Hok as [(_ & [ne En] & Hn) _]. unfold nk. rewrite En. by apply Hlte.
Qed.

(** The nodes below the range, and the others. *)
Lemma gte_partition : exists l1 l2, els = l1 ++ l2 /\ Forall (fun n => key_gte mn mnx (nk n) = false) l1 /\ Forall (fun n => key_gte mn mnx (nk n) = true) l2.
Proof.
  destruct (ss_partition (fun n => negb (key_gte mn mnx (nk n))) els (zr_sorted _ _ _ _ Hr)) as (l1 & l2 & E & H1 & H2).
  - intros a b Ha Hb Hab. rewrite !negb_true_iff, <- !not_true_iff_false. intros Hn Hg. apply Hn. by apply (key_gte_mono _ _ (nk a)); [apply Hmono|].
  - exists l1, l2. split; [done|]. split; (eapply Forall_impl; [eassumption|]); intros n Hn; cbn in Hn; by destruct (key_gte mn mnx (nk n)).
Qed.

(** The nodes not above the range, and the others. *)
Lemma lte_partition : exists l1 l2, els = l1 ++ l2 /\ Forall (fun n => key_lte mx mxx (nk n) = true) l1 /\ Forall (fun n => key_lte mx mxx (nk n) = false) l2.
Proof.
  destruct (ss_partition (fun n => key_lte mx mxx (nk n)) els (zr_sorted _ _ _ _ Hr)) as (l1 & l2 & E & H1 & H2); [|by exists l1, l2].
  intros a b Ha Hb Hab Hl. by apply (key_lte_mono _ _ _ (nk b)); [apply Hmono|].
Qed.

Lemma seek_gte l1 l2 : els = l1 ++ l2 -> Forall (fun n => key_gte mn mnx (nk n) = false) l1 -> Forall (fun n => key_gte mn mnx (nk n) = true) l2 ->
  splits els l1 l2 (fun _ _ n => b ← gte n; Some (negb b)).
Proof.
  intros E H1 H2. apply (splits_intro _ _ _ _ (fun s e => negb (key_gte mn mnx (vk s e)))); [done|apply Hr| | |].
  - eapply Forall_impl; [exact H1|]. intros n Hn. cbn in *. unfold nk in Hn. by rewrite Hn.
  - eapply Forall_impl; [exact H2|]. intros n Hn. cbn in *. unfold nk in Hn. by rewrite Hn.
  - intros _ _ nd ne En Hn. by rewrite (Hgte nd ne).
Qed.

Lemma seek_lte l1 l2 : els = l1 ++ l2 -> Forall (fun n => key_lte mx mxx (nk n) = true) l1 -> Forall (fun n => key_lte mx mxx (nk n) = false) l2 ->
  splits els l1 l2 (fun _ _ n => lte n).
Proof.
  intros E H1 H2. apply (splits_intro _ _ _ _ (fun s e => key_lte mx mxx (vk s e))); [done|apply Hr|done|done|].
  intros _ _ nd ne En Hn. by apply Hlte.
Qed.

Lemma inr_true n : inr n = true <-> key_gte mn mnx (nk n) = true /\ key_lte mx mxx (nk n) = true.
Proof. apply andb_true_iff. Qed.

(** The filter of the nodes in the range is empty when it fails everywhere. *)
Lemma no_inr l : Forall (fun n => inr n = false) l -> filter (fun n => inr n = true) l = [].
Proof. induction 1 as [|n l Hn _ IH]; [done|]. by rewrite filter_cons_False by congruence. Qed.

Lemma is_in_ok : exists b, is_in h z gte lte = Some b /\ (b = false -> filter (fun n => inr n = true) els = [])
  /\ (b = true -> (exists l y, els = l ++ [y] /\ key_gte mn mnx (nk y) = true) /\ (exists y l, els = y :: l /\ key_lte mx mxx (nk y) = true)).
Proof.
  unfold is_in. rewrite (zr_tail _ _ _ _ Hr). destruct (rev_case els) as [E|(l & y & E)].
  { exists false. rewrite E. done. }
  assert (Ey : hd :: els = (hd :: l) ++ y :: []) by (by rewrite E). rewrite Ey, backp_snoc by done.
  unfold get_node. rewrite (zr_nodes _ _ _ _ Hr _ _ _ Ey). cbn [mbind option_bind]. rewrite (gte_node _ _ _ Ey) by done. cbn [mbind option_bind].
  destruct (key_gte mn mnx (nk y)) eqn:Eg; cbn [negb].
  - unfold get_level. rewrite (zr_header _ _ _ _ Hr). destruct (zr_hd _ _ _ _ Hr) as [Hht _]. pose proof (zr_level _ _ _ _ Hr).
    rewrite (zr_cells _ _ _ _ Hr [] hd els 0%nat eq_refl) by (rewrite ?Hht; unfold ZSKIPLIST_MAXLEVEL; lia). cbn [mbind option_bind].
    rewrite (nxt0 els (zr_ok _ _ _ _ Hr)).
    assert (E0 : exists y0 els', els = y0 :: els') by (destruct els as [|y0 els']; [by destruct l|eauto]). destruct E0 as (y0 & els' & E0).
    assert (Ey0 : hd :: els = [hd] ++ y0 :: els') by (by rewrite E0). rewrite E0. cbn [head fmap option_fmap option_map].
    rewrite (zr_nodes _ _ _ _ Hr _ _ _ Ey0). cbn [mbind option_bind]. rewrite (lte_node _ _ _ Ey0) by done.
    eexists. split; [done|]. split; [|intros El; split; rewrite <- E0; eauto].
    intros El. apply no_inr. apply Forall_forall. intros n Hn. destruct (inr n) eqn:En; [|done]. apply inr_true in En as [_ En].
    apply elem_of_cons in Hn as [->|Hn]; [congruence|]. rewrite (key_lte_mono _ _ (nk y0) (nk n)) in El; [done| |done].
    apply Hmono; [rewrite E0; by left|rewrite E0; by right|]. pose proof (zr_sorted _ _ _ _ Hr) as Hs. rewrite E0 in Hs.
    apply StronglySorted_inv in Hs as [_ Hs]. rewrite Forall_forall in Hs. by apply Hs.
  - exists false. split; [done|]. split; [|done]. intros _. apply no_inr. apply Forall_forall. intros n Hn. destruct (inr n) eqn:En; [|done].
    apply inr_true in En as [En _]. pose proof (zr_sorted _ _ _ _ Hr) as Hs. rewrite E in Hn. apply elem_of_app in Hn as [Hn|Hn].
    + rewrite (key_gte_mono _ _ (nk n) (nk y)) in Eg; [done| |done]. apply Hmono; [rewrite E; apply elem_of_app; by left|rewrite E; apply elem_of_app; right; left|].
      rewrite E in Hs. apply ss_remove in Hs as (_ & Hs & _). rewrite Forall_forall in Hs. by apply Hs.
    + apply elem_of_cons in Hn as [->|Hn]; [congruence|by apply not_elem_of_nil in Hn].
Qed.

Lemma head_all_false (l : list snode) : Forall (fun n => key_lte mx mxx (nk n) = false) l -> filter (fun n => inr n = true) l = [].
Proof.
  intros Hl. apply no_inr. eapply Forall_impl; [exact Hl|]. intros n Hn. cbn in Hn. unfold inr, in_keys. unfold nk in Hn. by rewrite Hn, andb_false_r.
Qed.

Lemma below_all_false (l : list snode) : Forall (fun n => key_gte mn mnx (nk n) = false) l -> filter (fun n => inr n = true) l = [].
Proof.
  intros Hl. apply no_inr. eapply Forall_impl; [exact Hl|]. intros n Hn. cbn in Hn. unfold inr, in_keys. unfold nk in Hn. by rewrite Hn.
Qed.

(** Nodes in order, the first of which is above the range. *)
Lemma above_all u x l2 : els = u ++ x :: l2 -> key_lte mx mxx (nk x) = false -> Forall (fun n => key_lte mx mxx (nk n) = false) (x :: l2).
Proof.
  intros E Hx. constructor; [done|]. apply Forall_forall. intros n Hn. destruct (key_lte mx mxx (nk n)) eqn:En; [|done].
  rewrite (key_lte_mono _ _ (nk x) (nk n)) in Hx; [done| |done]. apply Hmono; [rewrite E; apply elem_of_app; right; left|rewrite E; apply elem_of_app; right; by right|].
  pose proof (zr_sorted _ _ _ _ Hr) as Hs. rewrite E in Hs. apply ss_remove in Hs as (_ & _ & Hs). rewrite Forall_forall in Hs. by apply Hs.
Qed.

Lemma below_all l1 x w : els = l1 ++ x :: w -> key_gte mn mnx (nk x) = false -> Forall (fun n => key_gte mn mnx (nk n) = false) (l1 ++ [x]).
Proof.
  intros E Hx. apply Forall_app. split; [|by constructor]. apply Forall_forall. intros n Hn. destruct (key_gte mn mnx (nk n)) eqn:En; [|done].
  rewrite (key_gte_mono _ _ (nk n) (nk x)) in Hx; [done| |done]. apply Hmono; [rewrite E; apply elem_of_app; by left|rewrite E; apply elem_of_app; right; left|].
  pose proof (zr_sorted _ _ _ _ Hr) as Hs. rewrite E in Hs. apply ss_remove in Hs as (_ & Hs & _). rewrite Forall_forall in Hs. by apply Hs.
Qed.

Lemma first_in_ok l y : els = l ++ [y] -> key_gte mn mnx (nk y) = true ->
  first_in h z gte lte = Some (s_addr <$> head (filter (fun n => inr n = true) els)).
Proof.
  intros Ey Hy. unfold first_in. destruct gte_partition as (l1 & l2 & E & H1 & H2). pose proof Hr as Hr'. rewrite E in Hr'.
  destruct (descend_header h z hd els l1 l2 64 _ Hr (seek_gte l1 l2 E H1 H2)) as (update & -> & _ & Hp); [lia|]. cbn [mbind option_bind].
  rewrite (next_of_ok h z hd l1 l2 update Hr' Hp). cbn [mbind option_bind].
  rewrite E, filter_app, (below_all_false l1 H1). cbn [app]. destruct l2 as [|x l2].
  { exfalso. rewrite app_nil_r in E. rewrite Ey in E. rewrite <- E in H1. apply Forall_app in H1 as [_ H1]. apply Forall_cons in H1 as [H1 _]. congruence. }
  cbn [head fmap option_fmap option_map mbind option_bind]. assert (Ex : hd :: els = (hd :: l1) ++ x :: l2) by (by rewrite E).
  unfold get_node. rewrite (zr_nodes _ _ _ _ Hr _ _ _ Ex). cbn [mbind option_bind]. rewrite (lte_node _ _ _ Ex) by done. cbn [mbind option_bind].
  apply Forall_cons in H2 as [Hgx _]. destruct (key_lte mx mxx (nk x)) eqn:El; cbn [negb].
  - by rewrite filter_cons_True by (by apply inr_true).
  - by rewrite head_all_false by (by apply (above_all l1)).
Qed.

Lemma last_in_ok y0 l : els = y0 :: l -> key_lte mx mxx (nk y0) = true ->
  last_in h z gte lte = Some (s_addr <$> last (filter (fun n => inr n = true) els)).
Proof.
  intros Ey Hy. unfold last_in. destruct lte_partition as (l1 & l2 & E & H1 & H2). pose proof Hr as Hr'. rewrite E in Hr'.
  destruct (descend_header h z hd els l1 l2 64 _ Hr (seek_lte l1 l2 E H1 H2)) as (update & -> & _ & Hp); [lia|]. cbn [mbind option_bind].
  rewrite (update0 h z hd l1 l2 update Hr' Hp). cbn [mbind option_bind].
  rewrite E, filter_app, (head_all_false l2 H2), app_nil_r. destruct (rev_case l1) as [->|(l1' & x & ->)].
  { exfalso. cbn in E. rewrite Ey in E. rewrite <- E in H2. apply Forall_cons in H2 as [H2 _]. congruence. }
  rewrite app_comm_cons, backp_snoc by done. change (default (s_addr hd) (Some (s_addr x))) with (s_addr x).
  assert (Ex : hd :: els = (hd :: l1') ++ x :: l2) by (rewrite E; cbn; by rewrite <- app_assoc).
  unfold get_node. rewrite (zr_nodes _ _ _ _ Hr _ _ _ Ex). cbn [mbind option_bind]. rewrite (gte_node _ _ _ Ex) by done. cbn [mbind option_bind].
  apply Forall_app in H1 as [_ Hlx]. apply Forall_cons in Hlx as [Hlx _]. destruct (key_gte mn mnx (nk x)) eqn:El; cbn [negb].
  - rewrite filter_app, filter_cons_True by (by apply inr_true). by rewrite filter_nil, last_snoc.
  - by rewrite (below_all_false (l1' ++ [x])) by (apply (below_all l1' x l2); [by rewrite E, <- app_assoc|done]).
Qed.

(** Both, with the test that comes first. *)
Lemma range_ends (empty : bool) : (empty = true -> lex mn mx = Gt \/ mn = mx /\ (mnx || mxx = true)) ->
  (b ← (if empty then Some false else is_in h z gte lte); if negb b then Some None else first_in h z gte lte)
    = Some (s_addr <$> head (filter (fun n => inr n = true) els))
  /\ (b ← (if empty then Some false else is_in h z gte lte); if negb b then Some None else last_in h z gte lte)
    = Some (s_addr <$> last (filter (fun n => inr n = true) els)).
Proof.
  intros He. destruct empty.
  - cbn [mbind option_bind negb]. rewrite (no_inr els); [done|]. apply Forall_forall. intros n _. destruct (inr n) eqn:En; [|done].
    apply inr_true in En as [Hg Hl]. destruct (key_range_empty mn mx mnx mxx (nk n) (He eq_refl) Hg Hl).
  - destruct is_in_ok as (b & -> & Hf & Ht). cbn [mbind option_bind]. destruct b; cbn [negb]; [|by rewrite Hf].
    destruct (Ht eq_refl) as ((l & y & E & Hg) & (y0 & l' & E' & Hl)). split; [by apply (first_in_ok l y)|by apply (last_in_ok y0 l')].
Qed.
End range.

Lemma filter_ext_in (P Q : snode -> bool) l : Forall (fun n => P n = Q n) l -> filter (fun n => P n = true) l = filter (fun n => Q n = true) l.
Proof.
  induction 1 as [|n l Hn _ IH]; [done|]. destruct (Q n) eqn:E.
  - rewrite !filter_cons_True by congruence. by rewrite IH.
  - rewrite !filter_cons_False by congruence. done.
Qed.

(** ** By score *)

Definition in_score (range : zrangespec) (n : snode) : bool := zslValueGteMin (s_score n) range && zslValueLteMax (s_score n) range.

Section score_range.
Context (range : zrangespec) (Hmin : isnan (rmin range) = false) (Hmax : isnan (rmax range) = false).

Lemma value_gte s : isnan s = false -> zslValueGteMin s range = key_gte (fkey (rmin range)) (minex range) (fkey s).
Proof. intros Hs. unfold zslValueGteMin, key_gte. by rewrite SFltb_lex, SFleb_lex. Qed.
Lemma value_lte s : isnan s = false -> zslValueLteMax s range = key_lte (fkey (rmax range)) (maxex range) (fkey s).
Proof. intros Hs. unfold zslValueLteMax, key_lte. by rewrite SFltb_lex, SFleb_lex. Qed.

Lemma score_gte_key nd ne : ele nd = Some ne -> isnan (score nd) = false ->
  score_gte range nd = Some (key_gte (fkey (rmin range)) (minex range) (fkey (score nd))).
Proof. intros _ Hn. unfold score_gte. by rewrite value_gte. Qed.
Lemma score_lte_key nd ne : ele nd = Some ne -> isnan (score nd) = false ->
  score_lte range nd = Some (key_lte (fkey (rmax range)) (maxex range) (fkey (score nd))).
Proof. intros _ Hn. unfold score_lte. by rewrite value_lte. Qed.

Lemma score_mono a b : slt a b -> lex (fkey (s_score a)) (fkey (s_score b)) <> Gt.
Proof. unfold slt, skey. rewrite zkey_lex. by destruct (lex (fkey _) (fkey _)). Qed.

Lemma in_score_keys n : node_ok n ->
  in_score range n = in_keys (fun s _ => fkey s) (fkey (rmin range)) (fkey (rmax range)) (minex range) (maxex range) n.
Proof. intros (_ & _ & Hn). unfold in_score, in_keys. by rewrite value_gte, value_lte. Qed.

Lemma score_filter els : Forall node_ok els -> filter (fun n => in_score range n = true) els
  = filter (fun n => in_keys (fun s _ => fkey s) (fkey (rmin range)) (fkey (rmax range)) (minex range) (maxex range) n = true) els.
Proof. intros Hok. apply filter_ext_in. eapply Forall_impl; [exact Hok|]. intros n Hn. by apply in_score_keys. Qed.

Lemma score_empty : SFltb (rmax range) (rmin range) || SFeqb (rmin range) (rmax range) && (minex range || maxex range) = true ->
  lex (fkey (rmin range)) (fkey (rmax range)) = Gt \/ fkey (rmin range) = fkey (rmax range) /\ (minex range || maxex range = true).
Proof.
  rewrite SFltb_lex, SFeqb_lex by done. intros He. apply orb_true_iff in He as [He|He].
  - apply bool_decide_eq_true in He. left. by apply lex_gt_lt.
  - apply andb_true_iff in He as [He Hx]. apply bool_decide_eq_true in He. by right.
Qed.
End score_range.

(** ** By element *)

Definition in_lex (range : zlexrangespec) (n : snode) : bool :=
  zslLexValueGteMin (default [] (s_ele n)) range && zslLexValueLteMax (default [] (s_ele n)) range.

(** The bounds in the order of [sdscmplex]. *)
Definition lkey (b : lexbound) : bytes := match b with MinString => [0] | LexStr s => 1 :: s | MaxString => [2] end.

Lemma sdscmplex_key a b : sign (sdscmplex a b) = lex (lkey a) (lkey b).
Proof. destruct a as [| |a], b as [| |b]; try done. cbn [sdscmplex lkey lex]. rewrite Z.compare_refl. apply cmp_lex. Qed.

Section lex_range.
Context (range : zlexrangespec).

Lemma sign_gt0 x : (x >? 0) = bool_decide (sign x = Gt).
Proof. unfold sign. rewrite Z.gtb_ltb. destruct (Z.compare_spec x 0); destruct (Z.ltb_spec 0 x); done || lia. Qed.
Lemma sign_ge0 x : (x >=? 0) = negb (bool_decide (sign x = Lt)).
Proof. unfold sign. rewrite Z.geb_leb. destruct (Z.compare_spec x 0); destruct (Z.leb_spec 0 x); done || lia. Qed.

Lemma lex_value_gte e : zslLexValueGteMin e range = key_gte (lkey (lmin range)) (lminex range) (lkey (LexStr e)).
Proof.
  unfold zslLexValueGteMin, key_gte. rewrite sign_gt0, sign_ge0, sdscmplex_key. destruct (lminex range).
  - apply bool_decide_ext. apply lex_gt_lt.
  - f_equal. apply bool_decide_ext. rewrite lex_gt_lt. done.
Qed.
Lemma lex_value_lte e : zslLexValueLteMax e range = key_lte (lkey (lmax range)) (lmaxex range) (lkey (LexStr e)).
Proof. unfold zslLexValueLteMax, key_lte. by rewrite sign_lt, sign_le, sdscmplex_key. Qed.

Lemma lex_gte_key nd ne : ele nd = Some ne -> isnan (score nd) = false ->
  lex_gte range nd = Some (key_gte (lkey (lmin range)) (lminex range) (lkey (LexStr ne))).
Proof. intros En _. unfold lex_gte. rewrite En. cbn [mbind option_bind]. by rewrite lex_value_gte. Qed.
Lemma lex_lte_key nd ne : ele nd = Some ne -> isnan (score nd) = false ->
  lex_lte range nd = Some (key_lte (lkey (lmax range)) (lmaxex range) (lkey (LexStr ne))).
Proof. intros En _. unfold lex_lte. rewrite En. cbn [mbind option_bind]. by rewrite lex_value_lte. Qed.

(** Lexicographic ranges are about lists whose nodes have one score. *)
Definition one_score (els : list snode) : Prop := forall a b, a ∈ els -> b ∈ els -> fkey (s_score a) = fkey (s_score b).

Lemma lex_mono els a b : one_score els -> a ∈ els -> b ∈ els -> slt a b ->
  lex (lkey (LexStr (default [] (s_ele a)))) (lkey (LexStr (default [] (s_ele b)))) <> Gt.
Proof.
  intros Ho Ha Hb. unfold slt, skey. rewrite zkey_lex, (Ho a b Ha Hb), lex_refl. cbn [lkey lex]. rewrite Z.compare_refl. by intros ->.
Qed.

Lemma in_lex_keys n : in_lex range n = in_keys (fun _ e => lkey (LexStr e)) (lkey (lmin range)) (lkey (lmax range)) (lminex range) (lmaxex range) n.
Proof. unfold in_lex, in_keys. by rewrite lex_value_gte, lex_value_lte. Qed.

Lemma lex_filter (els : list snode) : filter (fun n => in_lex range n = true) els
  = filter (fun n => in_keys (fun _ e => lkey (LexStr e)) (lkey (lmin range)) (lkey (lmax range)) (lminex range) (lmaxex range) n = true) els.
Proof. apply filter_ext_in, Forall_forall. intros n _. apply in_lex_keys. Qed.

Lemma lex_empty : (sdscmplex (lmin range) (lmax range) >? 0) || (sdscmplex (lmin range) (lmax range) =? 0) && (lminex range || lmaxex range) = true ->
  lex (lkey (lmin range)) (lkey (lmax range)) = Gt \/ lkey (lmin range) = lkey (lmax range) /\ (lminex range || lmaxex range = true).
Proof.
  rewrite sign_gt0, sign_eq, sdscmplex_key. intros He. apply orb_true_iff in He as [He|He].
  - apply bool_decide_eq_true in He. by left.
  - apply andb_true_iff in He as [He Hx]. apply bool_decide_eq_true, lex_eq in He. by right.
Qed.
End lex_range.

(** ZslFirstInRange and zslLastInRange never fault and return the first and
    the last node whose score is in the range, or NULL when no score is,
    including empty lists and inverted or empty ranges, with inclusive or
    exclusive bounds. *)
Theorem zsl_range_ends h z hd els range : zrep h z hd els -> isnan (rmin range) = false -> isnan (rmax range) = false ->
  zslFirstInRange h z range = Some (s_addr <$> head (filter (fun n => in_score range n = true) els))
  /\ zslLastInRange h z range = Some (s_addr <$> last (filter (fun n => in_score range n = true) els)).
Proof.
  intros Hr Hmin Hmax. rewrite (score_filter range Hmin Hmax) by apply Hr. unfold zslFirstInRange, zslLastInRange, zslIsInRange.
  apply (range_ends h z hd els Hr); [|by eapply score_gte_key|by eapply score_lte_key|by apply score_empty].
  intros a b _ _. apply score_mono.
Qed.

(** On a skiplist whose nodes all have one score, zslFirstInLexRange and
    zslLastInLexRange return the first and the last node whose element is in
    the lexicographic range, or NULL; the bounds may be - and +. *)
Theorem zsl_lex_range_ends h z hd els range : zrep h z hd els -> one_score els ->
  zslFirstInLexRange h z range = Some (s_addr <$> head (filter (fun n => in_lex range n = true) els))
  /\ zslLastInLexRange h z range = Some (s_addr <$> last (filter (fun n => in_lex range n = true) els)).
Proof.
  intros Hr Ho. rewrite lex_filter. unfold zslFirstInLexRange, zslLastInLexRange, zslIsInLexRange.
  apply (range_ends h z hd els Hr); [|apply lex_gte_key|apply lex_lte_key|apply lex_empty].
  intros a b Ha Hb. by apply (lex_mono els).
Qed.

(** * Ranks *)

Lemma pred_last (hd y : snode) (l1 u v : list snode) : hd :: l1 = u ++ y :: v -> zlen u = zlen l1 -> v = [].
Proof. intros E Hl. apply (f_equal length) in E. rewrite length_app in E. cbn [length] in E. destruct v; [done|cbn [length] in E; lia]. Qed.

Section byrank.
Context (h : zheap) (z : zskiplist) (hd : snode) (els l1 l2 : list snode) (rank : Z).
Context (Hr : zrep h z hd els) (Hs : splits els l1 l2 (upto rank)) (Hrank : 1 <= rank) (Hle : zlen l1 <= rank).

Lemma byrank_loop_ok n : forall u x v, hd :: l1 = u ++ x :: v -> (S n <= s_ht x)%nat -> (S n <= level z)%nat ->
  byrank_loop (S n) (zsl_fuel z) h rank (s_addr x) (zlen u)
    = Some (if zlen l1 =? rank then Some (default (s_addr hd) (backp (hd :: l1))) else None).
Proof.
  assert (Els : els = l1 ++ l2) by apply Hs.
  assert (Hok1 : Forall node_ok l1) by (pose proof (zr_ok _ _ _ _ Hr) as Hok; rewrite Els in Hok; by apply Forall_app in Hok as [? _]).
  induction n as [|n IH]; intros u x v E Hx Hn; cbn [byrank_loop];
    (edestruct (walk_ok h z hd els l1 l2 64 (upto rank) Hr Hs ltac:(lia)) as (p & -> & Hp);
      [|exact E| | |cbn [mbind option_bind]]; [lia|lia| |]);
    try (unfold zsl_fuel; rewrite (zr_len _ _ _ _ Hr), Els, length_app; apply (f_equal length) in E; rewrite length_app in E; cbn [length] in E; lia).
  - pose proof (pred0 hd l1 p Hok1 Hp) as ->. destruct (zlen l1 =? rank); done.
  - destruct Hp as (u' & y & v' & E' & Hy & Hv & ->). destruct (Z.eqb_spec (zlen u') rank) as [Hu|Hu].
    + assert (Hl : zlen u' = zlen l1) by (apply (f_equal length) in E'; rewrite length_app in E'; cbn [length] in E'; lia).
      rewrite (pred_last _ _ _ _ _ E' Hl) in E'. rewrite <- Hl, Hu, Z.eqb_refl, E'. rewrite backp_snoc; [done|]. intros ->. cbn in Hu. lia.
    + apply (IH u' y v' E'); lia.
Qed.
End byrank.

(** ZslGetElementByRank returns the node at a 1-based rank, and NULL past
    the end: following the spans gives the position in the list. *)
Theorem zslGetElementByRank_spec h z hd els rank : zrep h z hd els -> 1 <= rank < 2 ^ 64 ->
  zslGetElementByRank h z rank = Some (s_addr <$> els !! Z.to_nat (rank - 1)).
Proof.
  intros Hr Hrank. pose proof (zr_bound _ _ _ _ Hr) as HB. unfold zslGetElementByRank. set (k := Z.to_nat rank).
  assert (Hs : splits els (take k els) (drop k els) (upto rank)).
  { split; [by rewrite take_drop|]. intros u n w r s nd En Hr0 Hs0 Hrs _ _. unfold upto. f_equal. rewrite length_take.
    assert (length els = length u + S (length w))%nat by (rewrite En, length_app; cbn; lia).
    rewrite uwrap_small by (unfold in_u; lia). rewrite Hrs. destruct (Z.leb_spec (zlen u + 1) rank).
    - symmetry. apply bool_decide_true. lia.
    - symmetry. apply bool_decide_false. lia. }
  pose proof (zr_level _ _ _ _ Hr) as Hlv. destruct (zr_hd _ _ _ _ Hr) as [Hht _]. destruct (level z) as [|n] eqn:El; [lia|].
  rewrite (zr_header _ _ _ _ Hr). pose proof (length_take els k) as Hlt.
  etransitivity; [apply (byrank_loop_ok h z hd els (take k els) (drop k els) rank Hr Hs ltac:(lia) ltac:(lia) n [] hd (take k els) eq_refl ltac:(lia) ltac:(lia))|].
  rewrite Hlt. f_equal. destruct (Z.eqb_spec (Z.of_nat (k `min` length els)) rank) as [Hm|Hm].
  - destruct (lookup_lt_is_Some_2 els (k - 1)%nat ltac:(lia)) as [y Ey]. replace (Z.to_nat (rank - 1)) with (k - 1)%nat by lia. rewrite Ey.
    replace k with (S (k - 1)) at 1 by lia. rewrite (take_S_r _ _ _ Ey), app_comm_cons, backp_snoc by done. done.
  - rewrite lookup_ge_None_2 by lia. done.
Qed.

Section rank.
Context (h : zheap) (z : zskiplist) (hd : snode) (els l1 l2 : list snode) (sc : spec_float) (e : bytes) (R : Z).
Context (Hr : zrep h z hd els) (Hs : splits els l1 l2 (before_eq sc e)).
Context (HR : forall u y v, hd :: l1 = u ++ y :: v -> s_ele y = Some e -> zlen u = R).
Context (Hlast : R = 0 \/ exists l y, l1 = l ++ [y] /\ s_ele y = Some e).

Lemma rank_test y : (match s_ele y with Some xe => cmp_contents xe e =? 0 | None => false end) = bool_decide (s_ele y = Some e).
Proof.
  destruct (s_ele y) as [xe|]; [|done]. rewrite sign_eq, cmp_lex. apply bool_decide_ext. rewrite lex_eq. split; [by intros ->|by intros [=]].
Qed.

Lemma rank_loop_ok n : forall u x v, hd :: l1 = u ++ x :: v -> (S n <= s_ht x)%nat -> (S n <= level z)%nat ->
  rank_loop (S n) (zsl_fuel z) h sc e (s_addr x) (zlen u) = Some R.
Proof.
  assert (Els : els = l1 ++ l2) by apply Hs.
  assert (Hok1 : Forall node_ok l1) by (pose proof (zr_ok _ _ _ _ Hr) as Hok; rewrite Els in Hok; by apply Forall_app in Hok as [? _]).
  induction n as [|n IH]; intros u x v E Hx Hn;
    change (rank_loop (S ?k) ?f h sc e ?a ?r) with ('(x, rank) ← walk f h 64 k (before_eq sc e) a r; nd ← get_node h x;
      if match ele nd with Some xe => cmp_contents xe e =? 0 | None => false end then Some rank else rank_loop k f h sc e x rank);
    (edestruct (walk_ok h z hd els l1 l2 64 (before_eq sc e) Hr Hs ltac:(lia)) as (p & -> & u' & y & v' & E' & Hy & Hv & ->);
      [|exact E| | |cbn [mbind option_bind]]; [lia|lia| |]);
    try (unfold zsl_fuel; rewrite (zr_len _ _ _ _ Hr), Els, length_app; apply (f_equal length) in E; rewrite length_app in E; cbn [length] in E; lia);
    unfold get_node; rewrite (zr_nodes _ _ _ _ Hr u' y (v' ++ l2)) by (rewrite Els, app_comm_cons, E', <- app_assoc; done);
    cbn [mbind option_bind node_at ele]; rewrite rank_test; destruct (bool_decide_reflect (s_ele y = Some e)) as [Ey|Ey];
    [by rewrite (HR u' y v')| |by rewrite (HR u' y v')|by apply (IH u' y v'); [|lia|lia]].
  cbn [rank_loop]. destruct Hlast as [->|(l & y' & El & Ey')]; [done|]. exfalso. apply Ey.
  destruct v' as [|y1 v']. { rewrite El, app_comm_cons in E'. apply app_inj_2 in E' as [_ [= <-]]; done. }
  exfalso. apply Forall_cons in Hv as [Hv _]. destruct u' as [|? u']; injection E' as -> E'; rewrite E' in Hok1.
  - apply Forall_cons in Hok1 as [[? _] _]. lia.
  - apply Forall_app in Hok1 as [_ Hok1]. apply Forall_cons in Hok1 as [_ Hok1]. apply Forall_cons in Hok1 as [[? _] _]. lia.
Qed.
End rank.

Lemma splits_before_eq els l1 l2 sc e : els = l1 ++ l2 -> Forall node_ok els -> isnan sc = false ->
  Forall (fun n => lex (skey n) (zkey sc e) <> Gt) l1 -> Forall (fun n => lex (skey n) (zkey sc e) = Gt) l2 ->
  splits els l1 l2 (before_eq sc e).
Proof.
  intros Els Hok Hsc H1 H2. apply (splits_intro _ _ _ _ (fun s ne => negb (bool_decide (lex (zkey s ne) (zkey sc e) = Gt)))); [done|done| | |].
  - eapply Forall_impl; [exact H1|]. intros n Hn. cbn. by rewrite bool_decide_false.
  - eapply Forall_impl; [exact H2|]. intros n Hn. cbn. by rewrite bool_decide_true.
  - intros r s nd ne He Hn. by apply before_eq_lex.
Qed.

Lemma getrank_ok h z hd els l1 l2 sc e R : zrep h z hd els -> splits els l1 l2 (before_eq sc e) ->
  (forall u y v, hd :: l1 = u ++ y :: v -> s_ele y = Some e -> zlen u = R) ->
  (R = 0 \/ exists l y, l1 = l ++ [y] /\ s_ele y = Some e) -> zslGetRank h z sc e = Some R.
Proof.
  intros Hr Hs HR Hl. unfold zslGetRank. pose proof (zr_level _ _ _ _ Hr) as Hlv. destruct (zr_hd _ _ _ _ Hr) as [Hht _].
  destruct (level z) as [|n] eqn:El; [lia|]. rewrite (zr_header _ _ _ _ Hr).
  apply (rank_loop_ok h z hd els l1 l2 sc e R Hr Hs HR Hl n [] hd l1 eq_refl); lia.
Qed.

(** On a skiplist whose elements are distinct, [zslGetRank] gives the 1-based
    position of an element when it is called with its score, and 0 when the
    element is not in the list. *)
Lemma zslGetRank_spec h z hd els sc e : zrep h z hd els -> isnan sc = false -> NoDup (s_ele <$> els) ->
  (forall l y w, els = l ++ y :: w -> skey y = zkey sc e -> s_ele y = Some e -> zslGetRank h z sc e = Some (zlen l + 1))
  /\ (Forall (fun n => s_ele n <> Some e) els -> zslGetRank h z sc e = Some 0).
Proof.
  intros Hr Hsc Hnd. pose proof (zr_ok _ _ _ _ Hr) as Hok. destruct (zr_hd _ _ _ _ Hr) as [_ Hhe]. split.
  - intros l y w E Hk Ey. pose proof (zr_sorted _ _ _ _ Hr) as Hso. rewrite E in Hso. apply ss_remove in Hso as (_ & Hl & Hw).
    apply (getrank_ok h z hd els (l ++ [y]) w); [done| | |right; by exists l, y].
    + apply splits_before_eq; [by rewrite E, <- app_assoc|done|done| |].
      * rewrite <- Hk. apply Forall_app. split; [|constructor; [by rewrite lex_refl|constructor]]. eapply Forall_impl; [exact Hl|].
        intros n Hn. unfold slt in Hn. by rewrite Hn.
      * rewrite <- Hk. eapply Forall_impl; [exact Hw|]. intros n Hn. by apply lex_gt_lt.
    + intros u y' v Eu Ey'. destruct u as [|hd' u]; injection Eu as <- Eu; [by rewrite Hhe in Ey'|].
      assert (length u = length l) as Hlen.
      { apply (NoDup_lookup (s_ele <$> els) _ _ (Some e)); [done| |]; rewrite list_lookup_fmap, E.
        - replace (l ++ y :: w) with (u ++ y' :: (v ++ w)); [by rewrite list_lookup_middle, <- Ey'|].
          replace (l ++ y :: w) with ((l ++ [y]) ++ w) by (by rewrite <- app_assoc). by rewrite Eu, <- app_assoc.
        - by rewrite list_lookup_middle, <- Ey. }
      cbn [length]. lia.
  - intros Hne. destruct (ss_partition (fun n => negb (bool_decide (lex (skey n) (zkey sc e) = Gt))) els (zr_sorted _ _ _ _ Hr)) as (l1 & l2 & E & H1 & H2).
    + intros a b _ _ Hab. rewrite !negb_true_iff, !bool_decide_eq_false. intros Hb. apply (lex_le_trans _ (skey b)); [|done]. unfold slt in Hab. by rewrite Hab.
    + apply (getrank_ok h z hd els l1 l2); [done| | |by left].
      * apply splits_before_eq; [done|done|done| |]; (eapply Forall_impl; [eassumption|]); intros n Hn; cbn in Hn.
        -- by apply negb_true_iff, bool_decide_eq_false in Hn.
        -- by apply negb_false_iff, bool_decide_eq_true in Hn.
      * intros u y v Eu Ey. destruct u as [|hd' u]; injection Eu as <- Eu; [done|]. rewrite Forall_forall in Hne. destruct (Hne y); [|done].
        rewrite E, Eu. apply elem_of_app. left. apply elem_of_app. right. left.
Qed.

(** * Deletion of ranges *)

(** What the skiplist asks of the dictionary: deleting an element removes it
    from the set of keys. *)
Class ElemDictOk (D : Type) `{ED : ElemDict D} := {
  ed_rep : D -> gset bytes -> Prop;
  ed_delete_ok : forall d s e, ed_rep d s -> exists d', ed_delete d e = Some d' /\ ed_rep d' (s ∖ {[e]})
}.

Definition elements_of (l : list snode) : gset bytes := list_to_set (omap s_ele l).

Section delete_range.
Context {D : Type} `{EDO : ElemDictOk D}.
Context (hd : snode) (l1 l2 : list snode) (update : list (Z * Z)) (cond : Z -> zskiplistNode -> option bool).

Lemma delete_loop_ok m : forall fuel h z d s k, zrep h z hd (l1 ++ m ++ l2) -> preds hd l1 (level z) update -> ed_rep d s ->
  (length m < fuel)%nat -> 0 <= k -> k + zlen m < 2 ^ 32 ->
  (forall u n w nd, m = u ++ n :: w -> ele nd = s_ele n -> score nd = s_score n -> cond (k + zlen u) nd = Some true) ->
  (forall n w nd, l2 = n :: w -> ele nd = s_ele n -> score nd = s_score n -> cond (k + zlen m) nd = Some false) ->
  exists h' z' d', delete_loop fuel h z d update (s_addr <$> head (m ++ l2)) cond k = Some (h', z', d', k + zlen m)
    /\ zrep h' z' hd (l1 ++ l2) /\ ed_rep d' (s ∖ elements_of m)
    /\ (forall b, b ∉ s_addr <$> hd :: l1 ++ m ++ l2 -> znodes h' !! b = znodes h !! b)
    /\ Forall (fun n => znodes h' !! s_addr n = None) m.
Proof.
  induction m as [|x m IH]; intros fuel h z d s k Hr Hp Hd Hf Hk HB Hm Hl2.
  - exists h, z, d. cbn [app] in *. split; [|split; [done|split; [|split; [done|constructor]]]].
    + destruct fuel as [|fuel]; [cbn in Hf; lia|]. destruct l2 as [|y l2']; cbn [delete_loop head fmap option_fmap option_map].
      * by replace (k + zlen []) with k by (cbn; lia).
      * unfold get_node. rewrite (zr_nodes _ _ _ _ Hr (hd :: l1) y l2' eq_refl). cbn [mbind option_bind].
        pose proof (Hl2 y l2' (node_at (hd :: l1) y) eq_refl eq_refl eq_refl) as Ec. rewrite Z.add_0_r in Ec. rewrite Ec. cbn [mbind option_bind].
        by replace (k + zlen []) with k by (cbn; lia).
    + unfold elements_of. cbn. by rewrite difference_empty_L.
  - destruct fuel as [|fuel]; [lia|]. change ((x :: m) ++ l2) with (x :: m ++ l2) in *. cbn [delete_loop head fmap option_fmap option_map].
    pose proof (zr_nodes _ _ _ _ Hr (hd :: l1) x (m ++ l2) eq_refl) as Hxn. change (get_node h (s_addr x)) with (znodes h !! s_addr x). rewrite Hxn. cbn [mbind option_bind].
    pose proof (Hm [] x m (node_at (hd :: l1) x) eq_refl eq_refl eq_refl) as Ec. rewrite Z.add_0_r in Ec. rewrite Ec. cbn [mbind option_bind].
    pose proof (zr_ok _ _ _ _ Hr) as Hok. apply Forall_app in Hok as [_ Hok]. apply Forall_cons in Hok as [(Hht & [xe Exe] & _) Hok].
    unfold get_level. rewrite (zr_cells _ _ _ _ Hr (hd :: l1) x (m ++ l2) 0%nat eq_refl) by (pose proof (zr_level _ _ _ _ Hr); lia).
    cbn [mbind option_bind]. rewrite (nxt0 _ Hok).
    destruct (zslDeleteNode_ok h z hd x l1 (m ++ l2) update Hr Hp) as (h1 & z1 & -> & Hr1 & Hf1 & Hlv1). cbn [mbind option_bind node_at ele].
    rewrite Exe. cbn [mbind option_bind]. destruct (ed_delete_ok d s xe Hd) as (d1 & -> & Hd1). cbn [mbind option_bind].
    assert (Hx : s_addr x ∉ s_addr <$> hd :: l1 ++ m ++ l2).
    { intros Hin. apply list_elem_of_fmap in Hin as (n & En & Hn). rewrite app_comm_cons in Hn. apply elem_of_app in Hn. by apply (x_not_old h z hd x l1 (m ++ l2) Hr n). }
    destruct (zslFreeNode_ok h1 z1 hd (l1 ++ m ++ l2) (s_addr x) (node_at (hd :: l1) x) Hr1 Hx) as (h2 & -> & Hr2 & Hn2 & Hfr2).
    { by rewrite (proj1 (Hf1 _ Hx)). }
    cbn [mbind option_bind length] in *. rewrite (uwrap_small 64) by (unfold in_u; lia).
    destruct (IH fuel h2 z1 d1 (s ∖ {[xe]}) (k + 1)) as (h' & z' & d' & -> & Hr' & Hd' & Hfr & Hgone); [done| |done|lia|lia|lia| | |].
    { intros i Hi. apply Hp. lia. }
    { intros u n w nd E. replace (k + 1 + zlen u) with (k + zlen (x :: u)) by (cbn [length]; lia). apply (Hm (x :: u) n w). by rewrite E. }
    { intros n w nd E. replace (k + 1 + zlen m) with (k + Z.of_nat (S (length m))) by lia. by apply (Hl2 n w). }
    exists h', z', d'. split; [do 2 f_equal; lia|]. split; [done|]. split; [|split].
    + replace (s ∖ elements_of (x :: m)) with (s ∖ {[xe]} ∖ elements_of m); [done|]. unfold elements_of. cbn [omap list_omap]. rewrite Exe. cbn [list_to_set]. by rewrite difference_difference_l_L.
    + intros b Hb. assert (Hb' : b ∉ s_addr <$> hd :: l1 ++ m ++ l2).
      { intros Hin. apply Hb. rewrite app_comm_cons, fmap_app in Hin |- *. apply elem_of_app in Hin as [?|?]; apply elem_of_app; [by left|right; by right]. }
      rewrite (Hfr b Hb'). assert (b <> s_addr x) as Hbx by (intros ->; apply Hb; apply (addr_in _ (hd :: l1) (m ++ l2)); done).
      by rewrite (proj1 (Hfr2 b Hbx)), (proj1 (Hf1 b Hb')).
    + constructor; [|done]. by rewrite (Hfr _ Hx).
Qed.
End delete_range.

(** What the deletion of the nodes [gone] of a list leaves. *)
Definition range_deleted {D} `{ElemDictOk D} (h' : zheap) (z' : zskiplist) (d' : D) (hd : snode) (kept gone : list snode) (s : gset bytes) : Prop :=
  zrep h' z' hd kept /\ ed_rep d' (s ∖ elements_of gone) /\ Forall (fun n => znodes h' !! s_addr n = None) gone.

Section delete_ranges.
Context {D : Type} `{EDO : ElemDictOk D}.

Lemma delete_range_ok h z hd l1 m l2 (d : D) s seek cond : zrep h z hd (l1 ++ m ++ l2) -> splits (l1 ++ m ++ l2) l1 (m ++ l2) seek -> ed_rep d s ->
  (forall u n w nd, m = u ++ n :: w -> ele nd = s_ele n -> score nd = s_score n -> cond (zlen l1) (zlen u) nd = Some true) ->
  (forall n w nd, l2 = n :: w -> ele nd = s_ele n -> score nd = s_score n -> cond (zlen l1) (zlen m) nd = Some false) ->
  exists h' z' d', delete_range h z d seek cond = Some (h', z', d', zlen m) /\ range_deleted h' z' d' hd (l1 ++ l2) m s.
Proof.
  intros Hr Hs Hd Hm Hl2. unfold delete_range. destruct (descend_header h z hd _ l1 (m ++ l2) 64 seek Hr Hs) as (update & -> & _ & Hp); [lia|].
  cbn [mbind option_bind]. rewrite (update0 h z hd l1 (m ++ l2) update Hr Hp), (next_of_ok h z hd l1 (m ++ l2) update Hr Hp). cbn [mbind option_bind].
  pose proof (zr_bound _ _ _ _ Hr) as HB. rewrite !length_app in HB.
  destruct (delete_loop_ok hd l1 l2 update (cond (zlen l1)) m (zsl_fuel z) h z d s 0 Hr Hp Hd) as (h' & z' & d' & -> & Hr' & Hd' & _ & Hg).
  - unfold zsl_fuel. rewrite (zr_len _ _ _ _ Hr), !length_app. lia.
  - lia.
  - lia.
  - intros u n w nd E. rewrite Z.add_0_l. by apply Hm with w.
  - intros n w nd E. rewrite Z.add_0_l. by apply Hl2 with w.
  - exists h', z', d'. rewrite Z.add_0_l. done.
Qed.

Lemma ss_app_r (l1 l2 : list snode) : StronglySorted slt (l1 ++ l2) -> StronglySorted slt l2.
Proof. induction l1 as [|x l1 IH]; [done|]. intros Hs. apply IH. by apply StronglySorted_inv in Hs as [? _]. Qed.

Lemma filter_all (P : snode -> bool) (b : bool) l : Forall (fun n => P n = b) l -> filter (fun n => P n = b) l = l.
Proof. induction 1 as [|n l Hn _ IH]; [done|]. by rewrite filter_cons_True, IH. Qed.
Lemma filter_none (P : snode -> bool) (b : bool) l : Forall (fun n => P n = negb b) l -> filter (fun n => P n = b) l = [].
Proof. induction 1 as [|n l Hn _ IH]; [done|]. rewrite filter_cons_False; [done|]. rewrite Hn. by destruct b. Qed.

Section by_key.
Context (h : zheap) (z : zskiplist) (hd : snode) (els : list snode) (Hr : zrep h z hd els) (d : D) (s : gset bytes) (Hd : ed_rep d s).
Context (vk : spec_float -> bytes -> bytes) (mn mx : bytes) (mnx mxx : bool).
Context (gte lte : zskiplistNode -> option bool).
Context (Hmono : forall a b, a ∈ els -> b ∈ els -> slt a b -> lex (vk (s_score a) (default [] (s_ele a))) (vk (s_score b) (default [] (s_ele b))) <> Gt).
Context (Hgte : forall nd ne, ele nd = Some ne -> isnan (score nd) = false -> gte nd = Some (key_gte mn mnx (vk (score nd) ne))).
Context (Hlte : forall nd ne, ele nd = Some ne -> isnan (score nd) = false -> lte nd = Some (key_lte mx mxx (vk (score nd) ne))).
Let inr (n : snode) : bool := in_keys vk mn mx mnx mxx n.

Lemma delete_keys_ok : exists h' z' d',
  delete_range h z d (fun _ _ n => b ← gte n; Some (negb b)) (fun _ _ n => lte n) = Some (h', z', d', zlen (filter (fun n => inr n = true) els))
  /\ range_deleted h' z' d' hd (filter (fun n => inr n = false) els) (filter (fun n => inr n = true) els) s.
Proof.
  destruct (gte_partition h z hd els Hr vk mn mnx Hmono) as (l1 & l' & E & H1 & H2).
  pose proof (zr_sorted _ _ _ _ Hr) as Hso. pose proof (zr_ok _ _ _ _ Hr) as Hok.
  destruct (ss_partition (fun n => key_lte mx mxx (vk (s_score n) (default [] (s_ele n)))) l') as (m & l2 & E' & H3 & H4).
  { rewrite E in Hso. by apply ss_app_r in Hso. }
  { intros a b Ha Hb Hab Hl. eapply key_lte_mono; [|exact Hl]. apply Hmono; [..|done]; rewrite E; apply elem_of_app; by right. }
  rewrite E' in H2. apply Forall_app in H2 as [H2 H2'].
  assert (I1 : Forall (fun n => inr n = false) l1).
  { eapply Forall_impl; [exact H1|]. intros n Hn. cbn in Hn. unfold inr, in_keys. by rewrite Hn. }
  assert (I2 : Forall (fun n => inr n = true) m).
  { rewrite Forall_forall in H2, H3 |- *. intros n Hn. apply andb_true_iff. split; [by apply H2|by apply H3]. }
  assert (I3 : Forall (fun n => inr n = false) l2).
  { eapply Forall_impl; [exact H4|]. intros n Hn. cbn in Hn. unfold inr, in_keys. by rewrite Hn, andb_false_r. }
  assert (Eg : filter (fun n => inr n = true) els = m).
  { rewrite E, E', !filter_app, (filter_none inr true l1), (filter_all inr true m), (filter_none inr true l2) by done. by rewrite app_nil_r. }
  assert (Ek : filter (fun n => inr n = false) els = l1 ++ l2).
  { rewrite E, E', !filter_app, (filter_all inr false l1), (filter_none inr false m), (filter_all inr false l2) by done. done. }
  assert (Hnode : forall n nd, n ∈ els -> ele nd = s_ele n -> score nd = s_score n -> lte nd = Some (key_lte mx mxx (vk (s_score n) (default [] (s_ele n))))).
  { intros n nd Hn En Es. rewrite Forall_forall in Hok. destruct (Hok n Hn) as (_ & [ne Ene] & Hnn). rewrite Ene in En |- *. rewrite <- Es. apply Hlte; [done|congruence]. }
  rewrite Eg, Ek. apply delete_range_ok; [by rewrite <- E', <- E| |done| |].
  - rewrite <- E', <- E. apply (seek_gte h z hd els Hr vk mn mnx gte Hgte); [done|done|]. rewrite E'. by apply Forall_app.
  - intros u n w nd Em En Es. rewrite (Hnode n nd); [|rewrite E, E', Em; apply elem_of_app; right; apply elem_of_app; left; apply elem_of_app; right; left|done|done].
    f_equal. rewrite Em in H3. apply Forall_app in H3 as [_ H3]. by apply Forall_cons in H3 as [H3 _].
  - intros n w nd El En Es. rewrite (Hnode n nd); [|rewrite E, E', El; apply elem_of_app; right; apply elem_of_app; right; left|done|done].
    f_equal. rewrite El in H4. by apply Forall_cons in H4 as [H4 _].
Qed.
End by_key.

Lemma filter_ext_false (P Q : snode -> bool) l : Forall (fun n => P n = Q n) l -> filter (fun n => P n = false) l = filter (fun n => Q n = false) l.
Proof.
  induction 1 as [|n l Hn _ IH]; [done|]. destruct (Q n) eqn:E.
  - rewrite !filter_cons_False by congruence. done.
  - rewrite !filter_cons_True by congruence. by rewrite IH.
Qed.

(** ZslDeleteRangeByScore and, on a list with one score, zslDeleteRangeByLex
    remove exactly the nodes in the range: the count returned is their number,
    the skiplist left holds the other nodes in order, the removed nodes are
    freed and their elements are deleted from the dictionary. *)
Theorem zslDeleteRange_spec h z hd els (d : D) s : zrep h z hd els -> ed_rep d s ->
  (forall range, isnan (rmin range) = false -> isnan (rmax range) = false -> exists h' z' d',
     zslDeleteRangeByScore h z range d = Some (h', z', d', zlen (filter (fun n => in_score range n = true) els))
     /\ range_deleted h' z' d' hd (filter (fun n => in_score range n = false) els) (filter (fun n => in_score range n = true) els) s)
  /\ (forall range, one_score els -> exists h' z' d',
     zslDeleteRangeByLex h z range d = Some (h', z', d', zlen (filter (fun n => in_lex range n = true) els))
     /\ range_deleted h' z' d' hd (filter (fun n => in_lex range n = false) els) (filter (fun n => in_lex range n = true) els) s).
Proof.
  intros Hr Hd. split.
  - intros range Hmin Hmax. rewrite (score_filter range Hmin Hmax) by apply Hr.
    rewrite (filter_ext_false (in_score range) (in_keys (fun s _ => fkey s) (fkey (rmin range)) (fkey (rmax range)) (minex range) (maxex range)) els).
    + apply (delete_keys_ok h z hd els Hr d s Hd); [|by eapply score_gte_key|by eapply score_lte_key]. intros a b _ _. apply score_mono.
    + eapply Forall_impl; [exact (zr_ok _ _ _ _ Hr)|]. intros n Hn. by apply in_score_keys.
  - intros range Ho. rewrite lex_filter.
    rewrite (filter_ext_false (in_lex range) (in_keys (fun _ e => lkey (LexStr e)) (lkey (lmin range)) (lkey (lmax range)) (lminex range) (lmaxex range)) els).
    + apply (delete_keys_ok h z hd els Hr d s Hd); [|apply lex_gte_key|apply lex_lte_key]. intros a b Ha Hb. by apply (lex_mono els).
    + apply Forall_forall. intros n _. apply in_lex_keys.
Qed.

(** ZslDeleteRangeByRank removes exactly the nodes whose 1-based rank is
    between start and end, both included (none when end is before start or
    start is past the end), frees them, deletes their elements from the
    dictionary, and returns their number. *)
Theorem zslDeleteRangeByRank_spec h z hd els (d : D) s start end_ : zrep h z hd els -> ed_rep d s ->
  1 <= start < 2 ^ 32 -> 0 <= end_ < 2 ^ 32 ->
  let a := Z.to_nat (start - 1) in let n := Z.to_nat (end_ - (start - 1)) in
  exists h' z' d', zslDeleteRangeByRank h z start end_ d = Some (h', z', d', zlen (take n (drop a els)))
    /\ range_deleted h' z' d' hd (take a els ++ drop n (drop a els)) (take n (drop a els)) s.
Proof.
  intros Hr Hd Hst Hen a n. pose proof (zr_bound _ _ _ _ Hr) as HB.
  assert (E : els = take a els ++ take n (drop a els) ++ drop n (drop a els)) by (by rewrite !take_drop).
  unfold zslDeleteRangeByRank. pose proof (length_take els a) as Ha. pose proof (length_take (drop a els) n) as Hn. rewrite length_drop in Hn.
  apply delete_range_ok; [by rewrite <- E| |done| |].
  - rewrite <- E. split; [by rewrite !take_drop|]. intros u y w r sp nd En Hr0 Hs0 Hrs _ _. unfold below. f_equal. rewrite Ha.
    assert (length els = length u + S (length w))%nat by (rewrite En, length_app; cbn; lia).
    rewrite uwrap_small by (unfold in_u; lia). rewrite Hrs. destruct (Z.ltb_spec (zlen u + 1) start).
    + symmetry. apply bool_decide_true. lia.
    + symmetry. apply bool_decide_false. lia.
  - intros u y w nd Em _ _. f_equal. apply (f_equal length) in Em. rewrite length_app in Em. cbn [length] in Em.
    rewrite uwrap_small by (unfold in_u; lia). lia.
  - intros y w nd El _ _. f_equal. apply (f_equal length) in El. rewrite !length_drop in El. cbn [length] in El.
    rewrite uwrap_small by (unfold in_u; lia). lia.
Qed.
End delete_ranges.

(** ** The hash table of [dict.c] is such a dictionary *)

Section dict_elems.
Context {V : Type} `{Inhabited V} `{DTO : DictTypeOk bytes}.

#[export] Instance dict_elems : ElemDict (dict bytes V) := {| ed_delete d e := '(d, _) ← dictDelete d e; Some d |}.

#[export, refine] Instance dict_elems_ok : ElemDictOk (dict bytes V) := {| ed_rep d s := wf d /\ dom (dict_map d) = s |}.
Proof.
  intros d s e [Hwf <-]. cbn [ed_delete dict_elems]. destruct (dictGenericDelete_ok d e Hwf) as (d' & he & E & Hwf' & _ & _ & Hm).
  unfold dictDelete. rewrite E. cbn [mbind option_bind]. exists d'. split; [done|]. split; [done|]. rewrite Hm. apply dom_delete_L.
Defined.
End dict_elems.

(** * Examples *)

Definition sample_bytes_type : DictType bytes := {| hashFunction k := uwrap 64 (zlen k); keyCompare a b := bool_decide (a = b); expandAllowed _ _ _ := true |}.
#[local] Existing Instance sample_bytes_type.
#[local] Instance sample_bytes_type_ok : DictTypeOk bytes.
Proof. split; [intros k; cbn; apply uwrap_range; lia|intros a b; cbn; apply bool_decide_eq_true]. Qed.

Lemma sample_one_score : one_score [node_b; node_c].
Proof. intros a b Ha Hb. rewrite !elem_of_cons in Ha, Hb. destruct Ha as [->|[->|Ha]], Hb as [->|[->|Hb]]; try done; by apply not_elem_of_nil in Ha || by apply not_elem_of_nil in Hb. Qed.

Lemma zsl_range_ends_witness : exists h z, zslFirstInRange h z (mkRange one two true false) = Some (Some 12)
  /\ zslLastInRange h z (mkRange one two true false) = Some (Some 13).
Proof.
  destruct sample_zrep as (h & z & R & _). exists h, z.
  exact (zsl_range_ends h z sample_hd [node_a; node_b; node_c] (mkRange one two true false) R eq_refl eq_refl).
Defined.

Lemma sample_bc : exists h z, zrep h z sample_hd [node_b; node_c].
Proof.
  destruct sample_zrep as (h & z & R & _).
  destruct (descend_header h z sample_hd [node_a; node_b; node_c] [] [node_a; node_b; node_c] 64 (before one [97]) R) as (up & _ & _ & Hp); [|lia|].
  - apply splits_before; [done|apply R|done|constructor|]. repeat constructor; discriminate.
  - destruct (zslDeleteNode_ok h z sample_hd node_a [] [node_b; node_c] up R Hp) as (h' & z' & _ & R' & _). exists h', z'. exact R'.
Qed.

Lemma zsl_lex_range_ends_witness : exists h z, zslFirstInLexRange h z (mkLexRange (LexStr [98]) MaxString true true) = Some (Some 13)
  /\ zslLastInLexRange h z (mkLexRange (LexStr [98]) MaxString true true) = Some (Some 13).
Proof.
  destruct sample_bc as (h & z & R). exists h, z.
  exact (zsl_lex_range_ends h z sample_hd [node_b; node_c] (mkLexRange (LexStr [98]) MaxString true true) R sample_one_score).
Defined.

Lemma zslGetElementByRank_spec_witness : exists h z, zslGetElementByRank h z 2 = Some (Some 12).
Proof. destruct sample_zrep as (h & z & R & _). exists h, z. apply (zslGetElementByRank_spec h z sample_hd [node_a; node_b; node_c] 2 R). lia. Defined.

Lemma sample_ed_rep : ed_rep (dictCreate : dict bytes Z) ∅.
Proof. split; [apply wf_create|vm_compute; reflexivity]. Qed.

Lemma zslDeleteRange_spec_witness : exists h z h' z' d', zslDeleteRangeByScore h z (mkRange two two false false) (dictCreate : dict bytes Z) = Some (h', z', d', 2)
  /\ zrep h' z' sample_hd [node_a].
Proof.
  destruct sample_zrep as (h & z & R & _). exists h, z.
  destruct (proj1 (zslDeleteRange_spec (D := dict bytes Z) h z sample_hd [node_a; node_b; node_c] dictCreate ∅ R sample_ed_rep) (mkRange two two false false) eq_refl eq_refl)
    as (h' & z' & d' & E & R' & _). exists h', z', d'. split; [exact E|exact R'].
Defined.

Lemma zslDeleteRangeByRank_spec_witness : exists h z h' z' d', zslDeleteRangeByRank h z 2 2 (dictCreate : dict bytes Z) = Some (h', z', d', 1)
  /\ zrep h' z' sample_hd [node_a; node_c].
Proof.
  destruct sample_zrep as (h & z & R & _). exists h, z.
  destruct (zslDeleteRangeByRank_spec (D := dict bytes Z) h z sample_hd [node_a; node_b; node_c] dictCreate ∅ 2 2 R sample_ed_rep ltac:(lia) ltac:(lia))
    as (h' & z' & d' & E & R' & _). exists h', z', d'. split; [exact E|exact R'].
Defined.
