(* ===== verification/Zset.v ===== *)
(** Sorted sets encoded as a skiplist and a dictionary: the middle of
    [t_zset.c].

    A sorted set is a dictionary from elements to scores and a skiplist of the
    same elements. A value of the dictionary is a pointer to the [score] field
    of a node, here the address of the node: the score is shared. *)
From Stdlib Require Import SpecFloat Sorted.
From stdpp Require Import gmap.
From S2P Require Import Prelude Dict DictMap Sds SdsSpec SdsOps Zskiplist ZskiplistSpec ZskiplistOps ZskiplistRange.
Open Scope Z_scope.

Definition ZADD_IN_INCR : Z := 1.
Definition ZADD_IN_NX : Z := 2.
Definition ZADD_IN_XX : Z := 4.
Definition ZADD_IN_GT : Z := 8.
Definition ZADD_IN_LT : Z := 16.
Definition ZADD_OUT_NOP : Z := 1.
Definition ZADD_OUT_NAN : Z := 2.
Definition ZADD_OUT_ADDED : Z := 4.
Definition ZADD_OUT_UPDATED : Z := 8.
Definition HASHTABLE_MIN_FILL : Z := 10.

(** Addition of doubles. *)
Definition dadd (a b : spec_float) : spec_float := SFadd 53 1024 a b.

Record zset := mkZset { zdict : dict bytes Z; zsl : zskiplist }.

(** The value returned by [zsetAdd], [*out_flags], and [*newscore] when it is
    written. *)
Record zadd_answer := mkAns { ret : Z; out_flags : Z; newscore : option spec_float }.

Definition flag (flags bit : Z) : bool := negb (Z.land flags bit =? 0).

Section zset.
Context `{DT : DictType bytes} (fresh : nat -> zskiplistLevel) (can_resize : bool).

Definition htNeedsResize (d : dict bytes Z) : bool :=
  (dictSlots d >? DICT_HT_INITIAL_SIZE) && (dictSize d * 100 / dictSlots d <? HASHTABLE_MIN_FILL).

(** [createZsetObject], the header of the skiplist at [a]. *)
Definition createZset (h : zheap) (a : Z) (junk : option Z) : option (zheap * zset) :=
  '(h, z) ← zslCreate fresh h a junk; Some (h, mkZset dictCreate z).

Definition zsetLength (zs : zset) : Z := length_ (zsl zs).

(** The lookup may move entries of the dictionary. *)
Definition zsetScore (h : zheap) (zs : zset) (member : bytes) : option (zset * option spec_float) :=
  '(d, de) ← dictFind (zdict zs) member;
  match de with
  | None => Some (mkZset d (zsl zs), None)
  | Some de => n ← get_node h (val de); Some (mkZset d (zsl zs), Some (score n))
  end.

(** [a] is the address of the node that may be allocated, [rs] the random
    numbers. *)
Definition zsetAdd (h : zheap) (zs : zset) (rs : list Z) (a : Z) (junk : option Z) (sc : spec_float) (e : bytes) (in_flags : Z)
  : option (zheap * zset * list Z * zadd_answer) :=
  let incr := flag in_flags ZADD_IN_INCR in
  let nx := flag in_flags ZADD_IN_NX in
  let xx := flag in_flags ZADD_IN_XX in
  let gt := flag in_flags ZADD_IN_GT in
  let lt := flag in_flags ZADD_IN_LT in
  if isnan sc then Some (h, zs, rs, mkAns 0 ZADD_OUT_NAN None)
  else
    '(d, de) ← dictFindRef (zdict zs) e;
    let zs := mkZset d (zsl zs) in
    match de with
    | Some de =>
      if nx then Some (h, zs, rs, mkAns 1 ZADD_OUT_NOP None)
      else
        ent ← deref d de;
        n ← get_node h (val ent);
        let curscore := score n in
        let sc := if incr then dadd sc curscore else sc in
        if incr && isnan sc then Some (h, zs, rs, mkAns 0 ZADD_OUT_NAN None)
        else if lt && SFleb curscore sc || gt && SFleb sc curscore then Some (h, zs, rs, mkAns 1 ZADD_OUT_NOP None)
        else if negb (SFeqb sc curscore) then
          '(h, z, rs, znode) ← zslUpdateScore fresh h (zsl zs) rs a junk curscore e sc;
          d ← dictSetVal d de znode;
          Some (h, mkZset d z, rs, mkAns 1 ZADD_OUT_UPDATED (Some sc))
        else Some (h, zs, rs, mkAns 1 0 (Some sc))
    | None =>
      if negb xx then
        '(h, z, rs) ← zslInsert fresh h (zsl zs) rs a junk sc e;
        '(d, rc) ← dictAdd can_resize d e a;
        if rc =? DICT_OK then Some (h, mkZset d z, rs, mkAns 1 ZADD_OUT_ADDED (Some sc)) else None
      else Some (h, zs, rs, mkAns 1 ZADD_OUT_NOP None)
    end.

Definition zsetRemoveFromSkiplist (h : zheap) (zs : zset) (e : bytes) : option (zheap * zset * bool) :=
  '(d, de) ← dictUnlink (zdict zs) e;
  match de with
  | None => Some (h, mkZset d (zsl zs), false)
  | Some de =>
    n ← get_node h (val de);
    '(h, z, found) ← zslDelete h (zsl zs) (score n) e true;
    match found with Some _ => Some (h, mkZset d z, true) | None => None end
  end.

Definition zsetDel (h : zheap) (zs : zset) (e : bytes) : option (zheap * zset * bool) :=
  '(h, zs, deleted) ← zsetRemoveFromSkiplist h zs e;
  if (deleted : bool) then
    if htNeedsResize (zdict zs) then
      '(d, _) ← dictResize can_resize (zdict zs); Some (h, mkZset d (zsl zs), true)
    else Some (h, zs, true)
  else Some (h, zs, false).

(** The result is a [long]; -1 for an absent element. *)
Definition zsetRank (h : zheap) (zs : zset) (e : bytes) (reverse : bool) : option (zset * Z) :=
  let llen := zsetLength zs in
  '(d, de) ← dictFind (zdict zs) e;
  let zs := mkZset d (zsl zs) in
  match de with
  | None => Some (zs, -1)
  | Some de =>
    n ← get_node h (val de);
    rank ← zslGetRank h (zsl zs) (score n) e;
    if rank =? 0 then None
    else Some (zs, swrap 64 (if reverse then uwrap 64 (llen - rank) else uwrap 64 (rank - 1)))
  end.
End zset.

(** * What a sorted set is: a map from elements to scores *)

Section maps.
Context {A : Type}.

Definition ele_of (n : snode) : bytes := default [] (s_ele n).
Definition lmap (f : snode -> A) (els : list snode) : gmap bytes A := list_to_map ((fun n => (ele_of n, f n)) <$> els).

Definition distinct (els : list snode) : Prop := NoDup (ele_of <$> els).

Lemma keys_lmap (f : snode -> A) els : ((fun n => (ele_of n, f n)) <$> els).*1 = ele_of <$> els.
Proof. rewrite <- list_fmap_compose. done. Qed.

Lemma lmap_perm f els els' : distinct els -> els ≡ₚ els' -> lmap f els = lmap f els'.
Proof. intros Hd HP. apply list_to_map_proper; [by rewrite keys_lmap|]. by rewrite HP. Qed.

Lemma lmap_cons f n els : lmap f (n :: els) = <[ele_of n := f n]> (lmap f els).
Proof. done. Qed.

Lemma lmap_elem f n els : distinct els -> n ∈ els -> lmap f els !! ele_of n = Some (f n).
Proof.
  intros Hd Hn. apply elem_of_list_to_map_1; [by rewrite keys_lmap|]. apply list_elem_of_fmap. eauto.
Qed.

Lemma lmap_Some f els e v : lmap f els !! e = Some v -> exists n, n ∈ els /\ ele_of n = e /\ f n = v.
Proof. intros Hl. apply elem_of_list_to_map_2, list_elem_of_fmap in Hl as (n & [= -> ->] & Hn). eauto. Qed.

Lemma lmap_None f els e : lmap f els !! e = None <-> e ∉ ele_of <$> els.
Proof. unfold lmap. rewrite <- not_elem_of_list_to_map, keys_lmap. done. Qed.

Lemma lmap_mid f l1 x l2 : distinct (l1 ++ x :: l2) -> lmap f (l1 ++ x :: l2) = <[ele_of x := f x]> (lmap f (l1 ++ l2)).
Proof. intros Hd. rewrite (lmap_perm f _ (x :: l1 ++ l2) Hd); [done|]. by rewrite Permutation_middle. Qed.

Lemma distinct_mid l1 x l2 : distinct (l1 ++ x :: l2) <-> (ele_of x ∉ ele_of <$> l1 ++ l2) /\ distinct (l1 ++ l2).
Proof. unfold distinct. rewrite <- NoDup_cons, <- fmap_cons. by rewrite (Permutation_middle l1 l2 x). Qed.

Lemma lmap_remove f l1 x l2 : distinct (l1 ++ x :: l2) -> lmap f (l1 ++ l2) = delete (ele_of x) (lmap f (l1 ++ x :: l2)).
Proof.
  intros Hd. rewrite lmap_mid by done. apply distinct_mid in Hd as [Hx _]. rewrite delete_insert_eq. symmetry. apply delete_id. by apply lmap_None.
Qed.
End maps.

Record zset_rep `{DT : DictType bytes} (h : zheap) (zs : zset) (hd : snode) (els : list snode) (m : gmap bytes spec_float) : Prop := {
  zs_list : zrep h (zsl zs) hd els;
  zs_dict : wf (zdict zs);
  zs_distinct : distinct els;
  zs_addr : dict_map (zdict zs) = lmap s_addr els;
  zs_map : m = lmap s_score els
}.

(** [ZADD] on a map. *)
Definition zadd (m : gmap bytes spec_float) (sc : spec_float) (e : bytes) (in_flags : Z) : gmap bytes spec_float * zadd_answer :=
  if isnan sc then (m, mkAns 0 ZADD_OUT_NAN None)
  else match m !! e with
  | Some cur =>
    let sc := if flag in_flags ZADD_IN_INCR then dadd sc cur else sc in
    if flag in_flags ZADD_IN_NX then (m, mkAns 1 ZADD_OUT_NOP None)
    else if isnan sc then (m, mkAns 0 ZADD_OUT_NAN None)
    else if flag in_flags ZADD_IN_LT && SFleb cur sc || flag in_flags ZADD_IN_GT && SFleb sc cur then (m, mkAns 1 ZADD_OUT_NOP None)
    else if SFeqb sc cur then (m, mkAns 1 0 (Some sc))
    else (<[e := sc]> m, mkAns 1 ZADD_OUT_UPDATED (Some sc))
  | None =>
    if flag in_flags ZADD_IN_XX then (m, mkAns 1 ZADD_OUT_NOP None)
    else (<[e := sc]> m, mkAns 1 ZADD_OUT_ADDED (Some sc))
  end.

Section proofs.
Context `{DTO : DictTypeOk bytes} (fresh : nat -> zskiplistLevel) (can_resize : bool).

Lemma ele_of_ok n e : node_ok n -> ele_of n = e <-> s_ele n = Some e.
Proof. intros (_ & [x Ex] & _). unfold ele_of. rewrite Ex. cbn. split; [by intros ->|by intros [= ->]]. Qed.

Lemma rep_ok h zs hd els m n : zset_rep h zs hd els m -> n ∈ els -> node_ok n.
Proof. intros Hr Hn. pose proof (zr_ok _ _ _ _ (zs_list _ _ _ _ _ Hr)) as Hok. rewrite Forall_forall in Hok. by apply Hok. Qed.

Lemma set_dict_rep h zs hd els m d : zset_rep h zs hd els m -> same_entries (zdict zs) d -> zset_rep h (mkZset d (zsl zs)) hd els m.
Proof.
  intros Hr Hs. destruct Hr as [HL HD Hd Ha Hm]. split; try done; cbn [zdict].
  - apply Hs.
  - by rewrite (same_entries_map _ _ HD Hs).
Qed.

(** What the map knows of an element. *)
Lemma rep_lookup h zs hd els m e : zset_rep h zs hd els m ->
  match m !! e with
  | Some sc => exists l1 x l2, els = l1 ++ x :: l2 /\ s_ele x = Some e /\ s_score x = sc /\ dict_map (zdict zs) !! e = Some (s_addr x)
  | None => (e ∉ ele_of <$> els) /\ dict_map (zdict zs) !! e = None
  end.
Proof.
  intros Hr. rewrite (zs_map _ _ _ _ _ Hr), (zs_addr _ _ _ _ _ Hr). destruct (lmap s_score els !! e) as [sc|] eqn:E.
  - apply lmap_Some in E as (x & Hx & Ee & Es). pose proof (lmap_elem s_addr x els (zs_distinct _ _ _ _ _ Hr) Hx) as Ea. rewrite Ee in Ea.
    apply (ele_of_ok x e (rep_ok _ _ _ _ _ _ Hr Hx)) in Ee. apply list_elem_of_split in Hx as (l1 & l2 & ->). exists l1, x, l2. done.
  - apply lmap_None in E. split; [done|]. by apply lmap_None.
Qed.

Lemma swap_maps l1 l2 l1' l2' x x' : distinct (l1 ++ x :: l2) -> l1 ++ l2 = l1' ++ l2' -> ele_of x' = ele_of x ->
  distinct (l1' ++ x' :: l2') /\ forall A (f : snode -> A), lmap f (l1' ++ x' :: l2') = <[ele_of x := f x']> (lmap f (l1 ++ x :: l2)).
Proof.
  intros Hd E Ex. assert (Hd' : distinct (l1' ++ x' :: l2')) by (apply distinct_mid; rewrite Ex, <- E; by apply distinct_mid).
  split; [done|]. intros A f. rewrite !lmap_mid by done. by rewrite insert_insert_eq, Ex, E.
Qed.

Lemma entries_bound h zs hd els m : zset_rep h zs hd els m -> zlen (entries (zdict zs)) = zlen els.
Proof.
  intros Hr. rewrite <- (dict_map_size _ (zs_dict _ _ _ _ _ Hr)), (zs_addr _ _ _ _ _ Hr). f_equal.
  unfold lmap. rewrite map_size_list_to_map; [by rewrite length_fmap|]. rewrite keys_lmap. apply (zs_distinct _ _ _ _ _ Hr).
Qed.

(** C12: zsetAdd on a sorted set (skiplist and dictionary) never faults and does
    what ZADD does on a map from elements to scores, on every branch: NaN
    arguments, NX, XX, GT, LT, increments that give NaN, equal scores, updates
    and insertions; the flags, the returned value and the new score are those
    of the map. Afterwards the dictionary and the skiplist hold the same
    elements, every value of the dictionary points to the node of its element,
    and the list is in order. *)
Theorem zsetAdd_spec h zs rs a junk sc e in_flags hd els m lvl rs' : zset_rep h zs hd els m ->
  zslRandomLevel rs = Some (lvl, rs') -> znodes h !! a = None -> zlen els + 1 < 2 ^ 32 - 1 ->
  exists h' zs' rs1 els', zsetAdd fresh can_resize h zs rs a junk sc e in_flags = Some (h', zs', rs1, (zadd m sc e in_flags).2)
    /\ zset_rep h' zs' hd els' (zadd m sc e in_flags).1.
Proof.
  intros Hr Hrl Ha HB. unfold zsetAdd, zadd. destruct (isnan sc) eqn:Hnan; [by exists h, zs, rs, els|].
  destruct (dictFindRef_ok (zdict zs) e (zs_dict _ _ _ _ _ Hr)) as (d & r & -> & Hs & Href). cbn [mbind option_bind].
  pose proof (set_dict_rep _ _ _ _ _ _ Hr Hs) as Hr1. pose proof (rep_lookup _ _ _ _ _ e Hr) as Hl. destruct (m !! e) as [cur|] eqn:Em.
  - destruct Hl as (l1 & x & l2 & -> & Ex & <- & Ed). rewrite Ed in Href. destruct Href as (ref & b & -> & Hv).
    destruct (flag in_flags ZADD_IN_NX); [by exists h, (mkZset d (zsl zs)), rs, (l1 ++ x :: l2)|].
    pose proof Hv as [Hb He]. unfold deref. rewrite Hb. cbn [mbind option_bind]. rewrite He. cbn [mbind option_bind val].
    pose proof (zs_list _ _ _ _ _ Hr1) as HL. cbn [zsl] in *.
    unfold get_node. rewrite (zr_nodes _ _ _ _ HL (hd :: l1) x l2 eq_refl). cbn [mbind option_bind node_at score].
    set (ns := if flag in_flags ZADD_IN_INCR then dadd sc (s_score x) else sc).
    replace (flag in_flags ZADD_IN_INCR && isnan ns) with (isnan ns) by (unfold ns; destruct (flag _ _); [done|by rewrite Hnan]).
    destruct (isnan ns) eqn:Hns; [by exists h, (mkZset d (zsl zs)), rs, (l1 ++ x :: l2)|].
    destruct (_ || _); [by exists h, (mkZset d (zsl zs)), rs, (l1 ++ x :: l2)|].
    destruct (SFeqb ns (s_score x)); cbn [negb]; [by exists h, (mkZset d (zsl zs)), rs, (l1 ++ x :: l2)|].
    assert (Hxok : node_ok x) by (apply (rep_ok _ _ _ _ _ _ Hr); apply elem_of_app; right; left).
    pose proof (zs_distinct _ _ _ _ _ Hr) as Hdist.
    destruct (zslUpdateScore_spec fresh h (zsl zs) rs a junk (s_score x) e ns hd l1 x l2 lvl rs') as (h' & z' & rs1 & a' & k1 & k2 & x' & -> & Ek & HL' & Es & Ee & <- & _);
      [done|done|apply Hxok|done|done| |done|done|].
    { apply Forall_forall. intros n Hn E. apply distinct_mid in Hdist as [Hd _]. apply Hd. apply list_elem_of_fmap. exists n. split; [|done].
      unfold ele_of. by rewrite E, Ex. }
    cbn [mbind option_bind]. destruct (dictSetVal_ok d ref b _ (s_addr x') (se_wf _ _ Hs) Hv) as (d' & -> & Hwf' & _ & Hm'). cbn [mbind option_bind].
    destruct (swap_maps l1 l2 k1 k2 x x' Hdist Ek) as [Hd' Hlm]; [unfold ele_of; by rewrite Ee, Ex|].
    assert (Hex : ele_of x = e) by (unfold ele_of; by rewrite Ex).
    exists h', (mkZset d' z'), rs1, (k1 ++ x' :: k2). split; [done|]. split; cbn [zsl zdict fst]; try done.
    + rewrite Hm', Hlm, Hex. cbn [key]. by rewrite <- (zs_addr _ _ _ _ _ Hr1).
    + by rewrite Hlm, Hex, Es, (zs_map _ _ _ _ _ Hr).
  - destruct Hl as [Hne Ed]. rewrite Ed in Href. rewrite Href. destruct (flag in_flags ZADD_IN_XX); cbn [negb]; [by exists h, (mkZset d (zsl zs)), rs, els|]. cbn [zsl].
    destruct (zslInsert_part fresh h (zsl zs) rs a junk sc e hd els lvl rs') as (h' & z' & l1 & l2 & -> & -> & HL' & _); [apply Hr|done|done|done|done| |].
    { apply Forall_forall. intros n Hn Hk. destruct (rep_ok _ _ _ _ _ _ Hr Hn) as (_ & [ne En] & _). pose proof (proj1 (skey_inj n sc e ne En) Hk) as [_ He]. rewrite He in En.
      apply Hne. apply list_elem_of_fmap. exists n. split; [|done]. unfold ele_of. by rewrite En. }
    cbn [mbind option_bind]. pose proof (entries_bound _ _ _ _ _ Hr1) as Hlen. cbn [zdict] in Hlen.
    destruct (dictAdd_ok can_resize d e a (se_wf _ _ Hs)) as (d' & Hwf' & _ & Hadd); [rewrite Hlen; lia|].
    rewrite (same_entries_map _ _ (zs_dict _ _ _ _ _ Hr) Hs), Ed in Hadd. destruct Hadd as [-> Hm']. cbn [mbind option_bind].
    change (DICT_OK =? DICT_OK) with true. cbn iota. set (x := mkS a sc (Some e) lvl) in *.
    assert (Hd : distinct (l1 ++ x :: l2)) by (apply distinct_mid; split; [done|apply (zs_distinct _ _ _ _ _ Hr)]).
    exists h', (mkZset d' z'), rs', (l1 ++ x :: l2). split; [done|]. split; cbn [zsl zdict fst]; try done.
    + rewrite Hm', (zs_addr _ _ _ _ _ Hr). by rewrite lmap_mid.
    + by rewrite lmap_mid, (zs_map _ _ _ _ _ Hr).
Qed.

(** [zsetScore] returns the score of an element, or reports that it is
    absent; only the dictionary may be rehashed. *)
Lemma zsetScore_spec h zs hd els m e : zset_rep h zs hd els m ->
  exists zs', zsetScore h zs e = Some (zs', m !! e) /\ zset_rep h zs' hd els m.
Proof.
  intros Hr. unfold zsetScore. destruct (dictFind_ok (zdict zs) e (zs_dict _ _ _ _ _ Hr)) as (d & he & -> & Hs & Hhe). cbn [mbind option_bind].
  pose proof (set_dict_rep _ _ _ _ _ _ Hr Hs) as Hr1. pose proof (rep_lookup _ _ _ _ _ e Hr) as Hl. destruct (m !! e) as [sc|].
  - destruct Hl as (l1 & x & l2 & -> & Ex & <- & Ed). rewrite Ed in Hhe. destruct he as [[k v]|]; [|done]. injection Hhe as -> ->. cbn [val].
    unfold get_node. rewrite (zr_nodes _ _ _ _ (zs_list _ _ _ _ _ Hr) (hd :: l1) x l2 eq_refl). eexists. split; [done|done].
  - destruct Hl as [_ Ed]. rewrite Ed in Hhe. destruct he; [done|]. eexists. split; [done|done].
Qed.

(** C27: zsetDel removes an element from the dictionary and from the skiplist,
    frees its node, and possibly shrinks the dictionary; it returns whether
    the element was there. The assertion that the skiplist has the element
    found in the dictionary never fails. *)
Theorem zsetDel_spec h zs hd els m e : zset_rep h zs hd els m ->
  exists h' zs' els', zsetDel can_resize h zs e = Some (h', zs', bool_decide (is_Some (m !! e))) /\ zset_rep h' zs' hd els' (delete e m).
Proof.
  intros Hr. unfold zsetDel, zsetRemoveFromSkiplist, dictUnlink.
  destruct (dictGenericDelete_ok (zdict zs) e (zs_dict _ _ _ _ _ Hr)) as (d & he & -> & Hwf & _ & Hhe & Hm). cbn [mbind option_bind].
  pose proof (rep_lookup _ _ _ _ _ e Hr) as Hl. destruct (m !! e) as [sc|] eqn:Em.
  - destruct Hl as (l1 & x & l2 & -> & Ex & <- & Ed). rewrite Ed in Hhe. destruct he as [[k v]|]; [|done]. injection Hhe as -> ->. cbn [val].
    pose proof (zs_list _ _ _ _ _ Hr) as HL. assert (Hxok : node_ok x) by (apply (rep_ok _ _ _ _ _ _ Hr); apply elem_of_app; right; left).
    assert (Hex : ele_of x = e) by (unfold ele_of; by rewrite Ex). pose proof (zs_distinct _ _ _ _ _ Hr) as Hd.
    unfold get_node. rewrite (zr_nodes _ _ _ _ HL (hd :: l1) x l2 eq_refl). cbn [mbind option_bind node_at score].
    assert (Hk : skey x = zkey (s_score x) e) by (unfold skey; by rewrite Ex).
    destruct (zslDelete_part h (zsl zs) (s_score x) e true hd _ HL) as [(k1 & y & k2 & h' & z' & El & Ey & -> & HL' & _)|[Hne _]]; [apply Hxok| |].
    2:{ exfalso. rewrite Forall_forall in Hne. by apply (Hne x); [apply elem_of_app; right; left|]. }
    cbn [mbind option_bind]. assert (Hyok : node_ok y) by (apply (rep_ok _ _ _ _ _ _ Hr); rewrite El; apply elem_of_app; right; left).
    assert (Hey : ele_of y = e).
    { destruct Hyok as (_ & [ye Ey'] & _). destruct (proj1 (skey_inj y _ _ ye Ey') Ey) as [_ ->]. unfold ele_of. by rewrite Ey'. }
    assert (Hr1 : zset_rep h' (mkZset d z') hd (k1 ++ k2) (delete e m)).
    { rewrite El in Hd. split; cbn [zsl zdict]; try done.
      - by apply distinct_mid in Hd as [_ Hd].
      - rewrite Hm, (zs_addr _ _ _ _ _ Hr), El, <- Hey. by rewrite (lmap_remove s_addr k1 y k2).
      - rewrite (zs_map _ _ _ _ _ Hr), El, <- Hey. by rewrite (lmap_remove s_score k1 y k2). }
    rewrite bool_decide_true by eauto. cbn [zdict zsl]. destruct (htNeedsResize d).
    + destruct (dictResize_ok can_resize d Hwf) as (d2 & rc & -> & Hs2). cbn [mbind option_bind]. exists h', (mkZset d2 z'), (k1 ++ k2).
      split; [done|]. by apply (set_dict_rep _ (mkZset d z')).
    + exists h', (mkZset d z'), (k1 ++ k2). done.
  - destruct Hl as [Hne Ed]. rewrite Ed in Hhe. destruct he; [done|]. cbn [mbind option_bind]. rewrite bool_decide_false by (by intros [? ?]).
    exists h, (mkZset d (zsl zs)), els. split; [done|]. destruct Hr as [HL HD Hd Ha Hmm]. split; cbn [zsl zdict]; try done.
    + by rewrite Hm, delete_id.
    + by rewrite delete_id.
Qed.

(** The number of elements of a map before and after one of them. *)
Definition count_by (m : gmap bytes spec_float) (sc : spec_float) (e : bytes) (c : comparison) : Z :=
  Z.of_nat (base.size (filter (fun p => lex (zkey p.2 p.1) (zkey sc e) = c) m)).

Lemma count_list els sc e c : distinct els ->
  count_by (lmap s_score els) sc e c = zlen (filter (fun n => lex (skey n) (zkey sc e) = c) els).
Proof.
  intros Hd. unfold count_by. f_equal. rewrite map_filter_alt, map_size_list_to_map.
  - unfold lmap. rewrite map_to_list_to_map by (rewrite keys_lmap; done). clear Hd. induction els as [|n els IH]; [done|]. rewrite fmap_cons.
    destruct (decide (lex (skey n) (zkey sc e) = c)) as [Hc|Hc].
    + rewrite !filter_cons_True by done. cbn [length]. by rewrite IH.
    + rewrite !filter_cons_False by done. done.
  - eapply NoDup_fmap_fst; [|apply NoDup_filter, NoDup_map_to_list].
    intros k v1 v2 H1 H2. apply list_elem_of_filter in H1 as [_ H1], H2 as [_ H2]. apply elem_of_map_to_list in H1, H2. congruence.
Qed.

(** ZsetRank gives the number of elements of the sorted set that come
    before an element in the order of scores and elements, or after it when
    the rank is counted from the other end, and -1 for an absent element; the
    assertion that an element of the dictionary has a rank never fails. *)
Theorem zsetRank_spec h zs hd els m e (reverse : bool) : zset_rep h zs hd els m ->
  exists zs', zsetRank h zs e reverse = Some (zs', match m !! e with Some sc => count_by m sc e (if reverse then Gt else Lt) | None => -1 end)
    /\ zset_rep h zs' hd els m.
Proof.
  intros Hr. unfold zsetRank. destruct (dictFind_ok (zdict zs) e (zs_dict _ _ _ _ _ Hr)) as (d & he & -> & Hs & Hhe). cbn [mbind option_bind].
  pose proof (set_dict_rep _ _ _ _ _ _ Hr Hs) as Hr1. pose proof (rep_lookup _ _ _ _ _ e Hr) as Hl. destruct (m !! e) as [sc|].
  - destruct Hl as (l1 & x & l2 & -> & Ex & <- & Ed). rewrite Ed in Hhe. destruct he as [[k v]|]; [|done]. injection Hhe as -> ->. cbn [val zsl].
    pose proof (zs_list _ _ _ _ _ Hr) as HL. assert (Hxok : node_ok x) by (apply (rep_ok _ _ _ _ _ _ Hr); apply elem_of_app; right; left).
    unfold get_node. rewrite (zr_nodes _ _ _ _ HL (hd :: l1) x l2 eq_refl). cbn [mbind option_bind node_at score].
    assert (Hk : skey x = zkey (s_score x) e) by (unfold skey; by rewrite Ex).
    pose proof (zs_distinct _ _ _ _ _ Hr) as Hd.
    assert (Hnd : NoDup (s_ele <$> l1 ++ x :: l2)).
    { apply (NoDup_fmap_1 (default [])). rewrite <- list_fmap_compose. exact Hd. }
    rewrite (proj1 (zslGetRank_spec h (zsl zs) hd _ (s_score x) e HL (proj2 (proj2 Hxok)) Hnd) l1 x l2 eq_refl Hk Ex). cbn [mbind option_bind].
    pose proof (zr_bound _ _ _ _ HL) as HB. rewrite length_app in HB. cbn [length] in HB.
    replace (zlen l1 + 1 =? 0) with false by lia. eexists. split; [|exact Hr1]. do 2 f_equal.
    unfold zsetLength. rewrite (zr_len _ _ _ _ HL), (zs_map _ _ _ _ _ Hr), (count_list _ _ _ _ Hd).
    destruct (ss_remove _ _ _ (zr_sorted _ _ _ _ HL)) as (_ & H1 & H2). rewrite <- Hk, filter_app.
    assert (F : forall c l, Forall (fun n => lex (skey n) (skey x) = c) l -> filter (fun n => lex (skey n) (skey x) = c) l = l).
    { intros c l Hf. induction Hf as [|n l Hn _ IH]; [done|]. by rewrite filter_cons_True, IH. }
    assert (N : forall c c' l, c <> c' -> Forall (fun n => lex (skey n) (skey x) = c) l -> filter (fun n => lex (skey n) (skey x) = c') l = []).
    { intros c c' l Hc Hf. induction Hf as [|n l Hn _ IH]; [done|]. rewrite filter_cons_False by congruence. done. }
    assert (H2' : Forall (fun n => lex (skey n) (skey x) = Gt) l2) by (eapply Forall_impl; [exact H2|]; intros n Hn; by apply lex_gt_lt).
    destruct reverse; rewrite filter_cons_False by (by rewrite lex_refl).
    + rewrite (N Lt Gt l1), (F Gt l2) by done. cbn [app]. rewrite length_app. cbn [length]. rewrite uwrap_small by (unfold in_u; lia).
      rewrite swrap_small by (unfold in_s; lia). lia.
    + rewrite (F Lt l1), (N Gt Lt l2) by done. rewrite app_nil_r. rewrite uwrap_small by (unfold in_u; lia).
      rewrite swrap_small by (unfold in_s; lia). lia.
  - destruct Hl as [_ Ed]. rewrite Ed in Hhe. destruct he; [done|]. eexists. split; [done|done].
Qed.

Lemma createZset_ok h a junk : exists h' zs, createZset fresh h a junk = Some (h', zs)
  /\ zset_rep h' zs (mkS a (S754_zero false) None ZSKIPLIST_MAXLEVEL) [] ∅.
Proof.
  unfold createZset. destruct (zslCreate_ok fresh h a junk) as (h' & -> & HL & _). cbn [mbind option_bind]. eexists _, _. split; [done|].
  split; cbn [zsl zdict]; [done|apply wf_create|apply NoDup_nil_2|done|done].
Qed.
End proofs.

(** * Examples *)

#[local] Existing Instance sample_bytes_type.
#[local] Existing Instance sample_bytes_type_ok.

Lemma sample_zset : exists h zs, zset_rep h zs sample_hd [node_a; node_b; node_c] (lmap s_score [node_a; node_b; node_c]) /\ znodes h !! 20 = None.
Proof.
  destruct sample_zrep as (h & z & R & N).
  destruct (dictAdd_ok true (dictCreate : dict bytes Z) [99] 13 wf_create ltac:(cbn; lia)) as (d1 & W1 & _ & [_ M1]).
  destruct (dictAdd_ok true d1 [98] 12 W1) as (d2 & W2 & _ & A2).
  { rewrite <- dict_map_size, M1 by done. vm_compute. reflexivity. }
  rewrite M1 in A2. destruct A2 as [_ M2].
  destruct (dictAdd_ok true d2 [97] 11 W2) as (d3 & W3 & _ & A3).
  { rewrite <- dict_map_size, M2 by done. vm_compute. reflexivity. }
  rewrite M2 in A3. destruct A3 as [_ M3].
  exists h, (mkZset d3 z). split; [|by apply N]. split; cbn [zsl zdict]; [done|done| |by rewrite M3|done]. by apply (bool_decide_unpack _).
Qed.

(** Incrementing "b" by 1.0 moves it after "c". *)
Lemma zsetAdd_spec_witness : exists h zs h' zs' rs els', zsetAdd junk_level true h zs [65535] 20 None one [98] ZADD_IN_INCR
    = Some (h', zs', rs, mkAns 1 ZADD_OUT_UPDATED (Some three)) /\ zset_rep h' zs' sample_hd els' (<[[98] := three]> (lmap s_score [node_a; node_b; node_c])).
Proof.
  destruct sample_zset as (h & zs & R & N).
  destruct (zsetAdd_spec junk_level true h zs [65535] 20 None one [98] ZADD_IN_INCR _ _ _ 1 [] R eq_refl N ltac:(cbn; lia)) as (h' & zs' & rs & els' & E & R').
  exists h, zs, h', zs', rs, els'. split; [exact E|exact R'].
Defined.

Lemma zsetDel_spec_witness : exists h zs h' zs' els', zsetDel true h zs [98] = Some (h', zs', true)
  /\ zset_rep h' zs' sample_hd els' (delete [98] (lmap s_score [node_a; node_b; node_c])).
Proof.
  destruct sample_zset as (h & zs & R & _). destruct (zsetDel_spec true h zs _ _ _ [98] R) as (h' & zs' & els' & E & R').
  exists h, zs, h', zs', els'. split; [exact E|exact R'].
Defined.

Lemma zsetRank_spec_witness : exists h zs zs', zsetRank h zs [98] true = Some (zs', 1).
Proof.
  destruct sample_zset as (h & zs & R & _). destruct (zsetRank_spec h zs _ _ _ [98] true R) as (zs' & E & _). exists h, zs, zs'.
  rewrite E. vm_compute. reflexivity.
Defined.
