(* ===== verification/Wire.v ===== *)
(** The wire format: commands written for the append only file ([aof.c]), the
    replication backlog and the replicas ([replication.c], [networking.c]).

    A command is [*<argc>\r\n] and, for each argument, [$<len>\r\n<bytes>\r\n].
    The code writes it in several ways; [encode] is the one format they share. *)
From S2P Require Import Prelude Util.
Open Scope Z_scope.

Definition OBJ_SHARED_BULKHDR_LEN : Z := 32.
Definition LONG_STR_SIZE : Z := 21.
Definition CRLF : bytes := [13; 10].

(** A string object: an sds, or an integer ([OBJ_ENCODING_INT]). *)
Inductive robj := StrObj (s : bytes) | IntObj (v : Z).

Section wire.
Context `{Alloc}.

(** [buf[0] = c; len = ll2string(buf+1,sizeof(buf)-1,v); buf[len+1] = '\r';
    buf[len+2] = '\n'], in an array of [n] bytes: the array and [len]. *)
Definition header_buf (n c v : Z) : option (bytes * Z) :=
  buf ← bset (zmalloc n) 0 c;
  '(len, rest) ← ll2string (drop 1 buf) (n - 1) v;
  buf ← bset (take 1 buf ++ rest) (len + 1) 13;
  buf ← bset buf (len + 2) 10;
  Some (buf, len).

(** The string of an integer object, in a buffer of [n] bytes. *)
Definition int_text (n v : Z) : option bytes :=
  '(len, buf) ← ll2string (zmalloc n) n v; bslice buf 0 len.

Definition stringObjectLen (o : robj) : option Z :=
  match o with StrObj s => Some (zlen s) | IntObj v => sdigits10 v end.

(** [strlen(buf)] is where ll2string put the terminator. *)
Definition getDecodedObject (o : robj) : option bytes :=
  match o with StrObj s => Some s | IntObj v => int_text 32 v end.

(** [addReply] of a string object: the bytes added to the reply. *)
Definition addReply (o : robj) : option bytes :=
  match o with StrObj s => Some s | IntObj v => int_text 32 v end.

(** [%d]. *)
Definition decimal (v : Z) : bytes :=
  match ll2string (replicate 21 0) 21 v with Some (n, b) => take (Z.to_nat n) b | None => [] end.

(** [shared.mbulkhdr[j]] and the like. *)
Definition shared_hdr (c j : Z) : bytes := c :: decimal j ++ CRLF.

(** The bytes added to the reply. *)
Definition addReplyLongLongWithPrefix (ll prefix : Z) : option bytes :=
  let opt_hdr := (ll <? OBJ_SHARED_BULKHDR_LEN) && (ll >=? 0) in
  let hdr_len := if ll <? 10 then 4 else 5 in
  if ((prefix =? 42) || (prefix =? 36) || (prefix =? 37) || (prefix =? 126)) && opt_hdr then bslice (shared_hdr prefix ll) 0 hdr_len
  else '(buf, len) ← header_buf 128 prefix ll; bslice buf 0 (len + 3).

Definition addReplyArrayLen (length : Z) : option bytes :=
  if length >=? 0 then addReplyLongLongWithPrefix length 42 else None.

Definition addReplyBulk (o : robj) : option bytes :=
  len ← stringObjectLen o;
  h ← addReplyLongLongWithPrefix len 36;
  s ← addReply o;
  Some (h ++ s ++ CRLF).

(** [for (j = 0; j < argc; j++)] of [catAppendOnlyGenericCommand]. *)
Fixpoint cat_args (dst : bytes) (argv : list robj) : option bytes :=
  match argv with
  | [] => Some dst
  | o :: argv =>
    s ← getDecodedObject o;
    '(buf, len) ← header_buf 32 36 (zlen s);
    h ← bslice buf 0 (len + 3);
    cat_args (((dst ++ h) ++ s) ++ CRLF) argv
  end.

Definition catAppendOnlyGenericCommand (dst : bytes) (argv : list robj) : option bytes :=
  '(buf, len) ← header_buf 32 42 (zlen argv);
  h ← bslice buf 0 (len + 3);
  cat_args (dst ++ h) argv.
End wire.

(** * The format *)

Definition text (o : robj) : bytes := match o with StrObj s => s | IntObj v => decimal v end.

Definition bulk (s : bytes) : bytes := 36 :: decimal (zlen s) ++ CRLF ++ s ++ CRLF.
Definition encode (argv : list bytes) : bytes := 42 :: decimal (zlen argv) ++ CRLF ++ concat (bulk <$> argv).

Definition obj_ok (o : robj) : Prop := match o with StrObj s => in_s 64 (zlen s) | IntObj v => in_s 64 v end.

Lemma canon_length d v : ndigits d (Z.abs v) -> in_s 64 v -> 1 <= zlen (canon d v) <= 20.
Proof.
  intros Hd Hv. pose proof (ndigits_pos _ _ Hd). assert (d <= 19)%nat.
  { apply (ndigits_le d (Z.abs v)); [done| |lia]. unfold in_s in Hv. cbn in *. lia. }
  unfold canon. destruct (v <? 0); cbn [length]; rewrite length_dec; lia.
Qed.

Lemma decimal_canon v : in_s 64 v -> exists d, ndigits d (Z.abs v) /\ decimal v = canon d v.
Proof.
  intros Hv. destruct (ll2string_spec (replicate 21 0) v Hv) as (d & Hd & E). exists d. split; [done|].
  unfold decimal. change 21 with (zlen (replicate 21 0)) at 1. rewrite E. pose proof (canon_length d v Hd Hv) as Hl.
  rewrite length_replicate. replace (zlen (canon d v) >=? Z.of_nat 21) with false by lia. by rewrite Nat2Z.id, take_app_length.
Qed.

(** [ll2string] into any buffer that is large enough. *)
Lemma ll2string_decimal dst v : in_s 64 v -> 21 <= zlen dst ->
  exists post, ll2string dst (zlen dst) v = Some (zlen (decimal v), decimal v ++ 0 :: post) /\ zlen dst = zlen (decimal v) + 1 + zlen post.
Proof.
  intros Hv Hl. destruct (ll2string_spec dst v Hv) as (d & Hd & ->). destruct (decimal_canon v Hv) as (d' & Hd' & ->).
  rewrite (ndigits_unique _ _ _ Hd' Hd). pose proof (canon_length d v Hd Hv) as Hc.
  replace (zlen (canon d v) >=? zlen dst) with false by lia. eexists. split; [done|]. rewrite length_drop. lia.
Qed.

Lemma decimal_length v : in_s 64 v -> 1 <= zlen (decimal v) <= 20.
Proof. intros Hv. destruct (decimal_canon v Hv) as (d & Hd & ->). by apply canon_length. Qed.

Section encode.
Context `{Alloc}.

Lemma header_ok n c v : 24 <= n -> in_s 64 v ->
  exists post, header_buf n c v = Some ((c :: decimal v ++ CRLF) ++ post, zlen (decimal v)).
Proof.
  intros Hn Hv. unfold header_buf. destruct (zrealloc_grow [] n) as (f & Ef & Hf & _); [cbn; lia|]. unfold zmalloc. rewrite Ef. cbn [app].
  cbn [length] in Hf. destruct f as [|x f]; [cbn in Hf; lia|]. cbn [length] in Hf. replace (bset (x :: f) 0 c) with (Some (c :: f)) by (symmetry; by apply (bset_app [] x f 0 c)). cbn [mbind option_bind].
  change (drop 1 (c :: f)) with f. change (take 1 (c :: f)) with [c]. replace (n - 1) with (zlen f) by lia.
  destruct (ll2string_decimal f v Hv) as (post & -> & Hl); [lia|]. cbn [mbind option_bind].
  pose proof (decimal_length v Hv) as Hd. destruct post as [|y post]; [cbn in Hl; lia|].
  replace ([c] ++ decimal v ++ 0 :: y :: post) with ((c :: decimal v) ++ 0 :: y :: post) by done.
  rewrite bset_app by (cbn [length]; lia). cbn [mbind option_bind].
  replace ((c :: decimal v) ++ 13 :: y :: post) with ((c :: decimal v ++ [13]) ++ y :: post) by (cbn; by rewrite <- app_assoc).
  rewrite bset_app by (cbn [length]; rewrite length_app; cbn; lia). cbn [mbind option_bind]. exists post. do 2 f_equal. cbn. by rewrite <- !app_assoc.
Qed.

Lemma header_bytes n c v : 24 <= n -> in_s 64 v ->
  ('(buf, len) ← header_buf n c v; bslice buf 0 (len + 3)) = Some (c :: decimal v ++ CRLF).
Proof.
  intros Hn Hv. destruct (header_ok n c v Hn Hv) as (post & ->). cbn [mbind option_bind]. apply bslice_head. cbn [length]. rewrite length_app. cbn. lia.
Qed.

Lemma int_text_ok n v : 21 <= n -> in_s 64 v -> int_text n v = Some (decimal v).
Proof.
  intros Hn Hv. unfold int_text. assert (E : zlen (zmalloc n) = n) by (apply zlen_zrealloc; lia).
  rewrite <- E at 2. destruct (ll2string_decimal (zmalloc n) v Hv) as (post & -> & _); [lia|]. cbn [mbind option_bind]. by apply bslice_head.
Qed.

Lemma text_ok o : obj_ok o -> getDecodedObject o = Some (text o) /\ addReply o = Some (text o) /\ stringObjectLen o = Some (zlen (text o)) /\ in_s 64 (zlen (text o)).
Proof.
  destruct o as [s|v]; cbn [obj_ok text getDecodedObject addReply stringObjectLen]; intros Ho; [done|].
  rewrite !int_text_ok by (done || lia). split; [done|]. split; [done|]. destruct (decimal_canon v Ho) as (d & Hd & ->).
  split; [by apply sdigits10_canon|]. pose proof (canon_length d v Hd Ho). unfold in_s. lia.
Qed.

Lemma prefix_ok ll c : in_s 64 ll -> addReplyLongLongWithPrefix ll c = Some (c :: decimal ll ++ CRLF).
Proof.
  intros Hll. unfold addReplyLongLongWithPrefix. destruct (_ && _) eqn:E; [|by apply header_bytes].
  unfold shared_hdr, OBJ_SHARED_BULKHDR_LEN in *. apply andb_true_iff in E as [_ E].
  rewrite <- (app_nil_r (c :: decimal ll ++ CRLF)) at 1. apply bslice_head. cbn [length]. rewrite length_app. cbn [length].
  destruct (decimal_canon ll Hll) as (d & Hd & ->). unfold canon. replace (ll <? 0) with false by lia. rewrite length_dec.
  destruct Hd as [[_ Hd1] Hd2]. rewrite Z.abs_eq in * by lia. destruct (Z.ltb_spec ll 10).
  - destruct Hd2 as [->|[Hd2 Hlo]]; [done|]. assert (10 ^ 1 <= 10 ^ (Z.of_nat d - 1)) by (apply Z.pow_le_mono_r; lia). lia.
  - destruct Hd2 as [->|[Hd2 Hlo]]; [cbn in Hd1; lia|]. destruct (Nat.eq_dec d 2%nat) as [->|]; [done|].
    assert (10 ^ 2 <= 10 ^ (Z.of_nat d - 1)) by (apply Z.pow_le_mono_r; lia). lia.
Qed.

Lemma addReplyBulk_ok o : obj_ok o -> addReplyBulk o = Some (bulk (text o)).
Proof.
  intros Ho. destruct (text_ok o Ho) as (_ & Ea & El & Hl). unfold addReplyBulk. rewrite El. cbn [mbind option_bind]. rewrite prefix_ok by done.
  cbn [mbind option_bind]. rewrite Ea. cbn [mbind option_bind]. unfold bulk. f_equal. cbn. by rewrite <- !app_assoc.
Qed.

Lemma cat_args_ok argv : forall dst, Forall obj_ok argv -> cat_args dst argv = Some (dst ++ concat (bulk <$> (text <$> argv))).
Proof.
  induction argv as [|o argv IH]; intros dst Ho; cbn [cat_args fmap list_fmap concat]; [by rewrite app_nil_r|].
  apply Forall_cons in Ho as [Ho Hos]. destruct (text_ok o Ho) as (-> & _ & _ & Hl). cbn [mbind option_bind].
  destruct (header_ok 32 36 (zlen (text o)) ltac:(lia) Hl) as (post & ->). cbn [mbind option_bind].
  rewrite bslice_head by (cbn [length]; rewrite length_app; cbn; lia). cbn [mbind option_bind]. rewrite IH by done. f_equal. unfold bulk.
  rewrite <- !app_assoc. cbn [app]. by rewrite <- !app_assoc.
Qed.

Lemma catAppendOnly_ok dst argv : Forall obj_ok argv -> in_s 64 (zlen argv) ->
  catAppendOnlyGenericCommand dst argv = Some (dst ++ encode (text <$> argv)).
Proof.
  intros Ho Hl. unfold catAppendOnlyGenericCommand. destruct (header_ok 32 42 (zlen argv) ltac:(lia) Hl) as (post & ->). cbn [mbind option_bind].
  rewrite bslice_head by (cbn [length]; rewrite length_app; cbn; lia). cbn [mbind option_bind]. rewrite cat_args_ok by done. f_equal.
  unfold encode. rewrite length_fmap, <- app_assoc. cbn [app]. by rewrite <- app_assoc.
Qed.
End encode.
