(* ===== verification/Lzf.v ===== *)
(** The LZF compressor and decompressor: [lzf_c.c], [lzf_d.c], with the settings
    of [lzfP.h] ([VERY_FAST], hash slots that hold offsets, input checks).

    Pointers into the input and the output are offsets; an access outside the
    buffer is [None]. The hash table of the compressor is not initialised
    ([INIT_HTAB] is 0), so its contents are an argument. *)
From S2P Require Import Prelude.
Open Scope Z_scope.

Definition HLOG : Z := 16.
Definition HSIZE : Z := Z.shiftl 1 HLOG.
Definition MAX_LIT : Z := Z.shiftl 1 5.
Definition MAX_OFF : Z := Z.shiftl 1 13.
Definition MAX_REF : Z := Z.shiftl 1 8 + Z.shiftl 1 3.

(** ** Compression *)

(** [htab], the slots of 32 bits. *)
Definition LZF_STATE : Type := Z -> Z.
Definition set_slot (htab : LZF_STATE) (i v : Z) : LZF_STATE := fun k => if k =? i then v else htab k.

Definition FRST (p : bytes) (i : Z) : option Z := a ← p.[i]; b ← p.[i + 1]; Some (Z.lor (Z.shiftl a 8) b).
Definition NEXT (v : Z) (p : bytes) (i : Z) : option Z := c ← p.[i + 2]; Some (Z.lor (uwrap 32 (Z.shiftl v 8)) c).
Definition IDX (h : Z) : Z := Z.land (uwrap 32 (Z.shiftr h (3 * 8 - HLOG) - uwrap 32 (h * 5))) (HSIZE - 1).

(** The guard of a back reference: [off = ip - ref - 1 < MAX_OFF], [ref] after
    the first byte, and three equal bytes. *)
Definition match_found (inp : bytes) (ip ref : Z) : option bool :=
  if negb (uwrap 64 (ip - ref - 1) <? MAX_OFF) then Some false
  else if negb (ref >? 0) then Some false
  else
    r2 ← inp.[ref + 2]; i2 ← inp.[ip + 2];
    if negb (r2 =? i2) then Some false
    else
      r0 ← inp.[ref]; r1 ← inp.[ref + 1]; i0 ← inp.[ip]; i1 ← inp.[ip + 1];
      Some (Z.lor (Z.shiftl r1 8) r0 =? Z.lor (Z.shiftl i1 8) i0).

(** [len++; if (ref [len] != ip [len]) break;], [n] times; whether it broke. *)
Fixpoint unrolled (n : nat) (inp : bytes) (ip ref len : Z) : option (Z * bool) :=
  match n with
  | O => Some (len, false)
  | S n =>
    let len := len + 1 in
    r ← inp.[ref + len]; i ← inp.[ip + len];
    if negb (r =? i) then Some (len, true) else unrolled n inp ip ref len
  end.

(** [do len++; while (len < maxlen && ref[len] == ip[len]);] *)
Fixpoint match_more (fuel : nat) (inp : bytes) (ip ref maxlen len : Z) : option Z :=
  match fuel with
  | O => None
  | S fuel =>
    let len := len + 1 in
    if len <? maxlen then
      r ← inp.[ref + len]; i ← inp.[ip + len];
      if r =? i then match_more fuel inp ip ref maxlen len else Some len
    else Some len
  end.

Definition match_len (inp : bytes) (ip ref maxlen : Z) : option Z :=
  '(len, broke) ← (if maxlen >? 16 then unrolled 16 inp ip ref 2 else Some (2, false));
  if broke : bool then Some len else match_more (Z.to_nat MAX_REF) inp ip ref maxlen len.

(** The variables of the loop. *)
Record lzf := { ip : Z; op : Z; lit : Z; hval : Z; htab : LZF_STATE; out : bytes }.

(** [op [- lit - 1] = lit - 1;] *)
Definition stop_run (s : lzf) : option lzf :=
  o ← bset (out s) (op s - lit s - 1) (uwrap 8 (lit s - 1));
  Some {| ip := ip s; op := op s; lit := lit s; hval := hval s; htab := htab s; out := o |}.

(** [lit = 0; op++;] *)
Definition start_run (s : lzf) : lzf :=
  {| ip := ip s; op := op s + 1; lit := 0; hval := hval s; htab := htab s; out := out s |}.

(** [op -= !lit;] *)
Definition undo_run (s : lzf) : lzf :=
  {| ip := ip s; op := op s - (if lit s =? 0 then 1 else 0); lit := lit s; hval := hval s; htab := htab s; out := out s |}.

(** [*op++ = v;] *)
Definition emit (v : Z) (s : lzf) : option lzf :=
  o ← bset (out s) (op s) (uwrap 8 v);
  Some {| ip := ip s; op := op s + 1; lit := lit s; hval := hval s; htab := htab s; out := o |}.

(** [lit++; *op++ = *ip++;] and the end of a full run. *)
Definition literal (inp : bytes) (s : lzf) : option lzf :=
  v ← inp.[ip s];
  s ← emit v s;
  let s := {| ip := ip s + 1; op := op s; lit := lit s + 1; hval := hval s; htab := htab s; out := out s |} in
  if lit s =? MAX_LIT then s ← stop_run s; Some (start_run s) else Some s.

(** [hval = NEXT (hval, ip); htab[IDX (hval)] = ip; ip++;] *)
Definition rehash_byte (inp : bytes) (s : lzf) : option lzf :=
  hval ← NEXT (hval s) inp (ip s);
  Some {| ip := ip s + 1; op := op s; lit := lit s; hval := hval;
          htab := set_slot (htab s) (IDX hval) (uwrap 32 (ip s)); out := out s |}.

Definition set_ip (i : Z) (s : lzf) : lzf :=
  {| ip := i; op := op s; lit := lit s; hval := hval s; htab := htab s; out := out s |}.
Definition set_hval (h : Z) (s : lzf) : lzf :=
  {| ip := ip s; op := op s; lit := lit s; hval := h; htab := htab s; out := out s |}.

(** What a turn of the loop does: [return 0], [break], or go on. *)
Inductive turn := Return0 | Break (s : lzf) | Continue (s : lzf).

(** The branch of a match at [ref]. *)
Definition back_reference (inp : bytes) (in_len out_len ref : Z) (s : lzf) : option turn :=
  let off := uwrap 64 (ip s - ref - 1) in
  let maxlen := uwrap 32 (in_len - ip s - 2) in
  let maxlen := if maxlen >? MAX_REF then MAX_REF else maxlen in
  if (op s + 3 + 1 >=? out_len) && (op s - (if lit s =? 0 then 1 else 0) + 3 + 1 >=? out_len) then Some Return0
  else
    s ← stop_run s;
    let s := undo_run s in
    len ← match_len inp (ip s) ref maxlen;
    let len := len - 2 in
    s ← (if len <? 7 then emit (Z.shiftr off 8 + Z.shiftl len 5) s
         else s ← emit (Z.shiftr off 8 + Z.shiftl 7 5) s; emit (len - 7) s);
    s ← emit off s;
    let s := start_run s in
    let s := set_ip (ip s + 1 + (len + 1)) s in
    if ip s >=? in_len - 2 then Some (Break s)
    else
      let s := set_ip (ip s - 1 - 1) s in
      h ← FRST inp (ip s);
      s ← rehash_byte inp (set_hval h s);
      s ← rehash_byte inp s;
      Some (Continue s).

(** One turn of [while (ip < in_end - 2)]. *)
Definition compress_turn (inp : bytes) (in_len out_len : Z) (s : lzf) : option turn :=
  hval ← NEXT (hval s) inp (ip s);
  let ref := htab s (IDX hval) in
  let s := {| ip := ip s; op := op s; lit := lit s; hval := hval;
              htab := set_slot (htab s) (IDX hval) (uwrap 32 (ip s)); out := out s |} in
  found ← match_found inp (ip s) ref;
  if found : bool then back_reference inp in_len out_len ref s
  else if op s >=? out_len then Some Return0
  else s ← literal inp s; Some (Continue s).

Fixpoint compress_loop (fuel : nat) (inp : bytes) (in_len out_len : Z) (s : lzf) : option turn :=
  if ip s <? in_len - 2 then
    match fuel with
    | O => None
    | S fuel =>
      t ← compress_turn inp in_len out_len s;
      match t with
      | Continue s => compress_loop fuel inp in_len out_len s
      | _ => Some t
      end
    end
  else Some (Break s).

(** [while (ip < in_end)], after the main loop. *)
Fixpoint last_literals (fuel : nat) (inp : bytes) (in_len : Z) (s : lzf) : option lzf :=
  if ip s <? in_len then
    match fuel with
    | O => None
    | S fuel => s ← literal inp s; last_literals fuel inp in_len s
    end
  else Some s.

(** The returned value and the output buffer. *)
Definition lzf_compress (htab0 : LZF_STATE) (in_data : bytes) (in_len : Z) (out_data : bytes) (out_len : Z)
    : option (Z * option bytes) :=
  if (in_len =? 0) || (out_len =? 0) then Some (0, None)
  else
    h ← FRST in_data 0;
    t ← compress_loop (Z.to_nat in_len) in_data in_len out_len
          {| ip := 0; op := 1; lit := 0; hval := h; htab := htab0; out := out_data |};
    match t with
    | Break s =>
      if op s + 3 >? out_len then Some (0, None)
      else
        s ← last_literals (Z.to_nat in_len) in_data in_len s;
        s ← stop_run s;
        let s := undo_run s in
        Some (op s, Some (out s))
    | _ => Some (0, None)
    end.

(** ** Decompression *)

Inductive lzf_errno := E2BIG | EINVAL.

(** [return 0] with an [errno], or the number of bytes written and the output. *)
Inductive lzf_result := LzfFail (e : lzf_errno) | LzfDone (n : Z) (o : bytes).

(** [*op++ = *ip++;], [n] times. *)
Fixpoint copy_literal (n : nat) (inp : bytes) (ip : Z) (out : bytes) (op : Z) : option bytes :=
  match n with
  | O => Some out
  | S n => v ← inp.[ip]; out ← bset out op v; copy_literal n inp (ip + 1) out (op + 1)
  end.

(** [*op++ = *ref++;], [n] times. *)
Fixpoint copy_ref (n : nat) (out : bytes) (ref op : Z) : option bytes :=
  match n with
  | O => Some out
  | S n => v ← out.[ref]; out ← bset out op v; copy_ref n out (ref + 1) (op + 1)
  end.

(** The [switch (len)]: the cases 0 to 9 fall through to copy [len + 2] bytes. *)
Definition copy_back (out : bytes) (ref op len : Z) : option bytes :=
  if len <=? 9 then copy_ref (Z.to_nat (len + 2)) out ref op
  else
    let len := len + 2 in
    if op >=? ref + len then s ← bslice out ref len; bwrite out op s
    else copy_ref (Z.to_nat len) out ref op.

Fixpoint decompress_loop (fuel : nat) (inp : bytes) (in_len out_len ip op : Z) (out : bytes) : option lzf_result :=
  if ip <? in_len then
    match fuel with
    | O => None
    | S fuel =>
      ctrl ← inp.[ip];
      let ip := ip + 1 in
      if ctrl <? Z.shiftl 1 5 then
        let ctrl := ctrl + 1 in
        if op + ctrl >? out_len then Some (LzfFail E2BIG)
        else if ip + ctrl >? in_len then Some (LzfFail EINVAL)
        else
          out ← copy_literal (Z.to_nat ctrl) inp ip out op;
          decompress_loop fuel inp in_len out_len (ip + ctrl) (op + ctrl) out
      else
        let len := Z.shiftr ctrl 5 in
        let ref := op - Z.shiftl (Z.land ctrl 0x1f) 8 - 1 in
        if ip >=? in_len then Some (LzfFail EINVAL)
        else
          '(len, ip) ← (if len =? 7 then x ← inp.[ip]; Some (len + x, ip + 1) else Some (len, ip));
          if (Z.shiftr ctrl 5 =? 7) && (ip >=? in_len) then Some (LzfFail EINVAL)
          else
            x ← inp.[ip];
            let ref := ref - x in
            let ip := ip + 1 in
            if op + len + 2 >? out_len then Some (LzfFail E2BIG)
            else if ref <? 0 then Some (LzfFail EINVAL)
            else
              out ← copy_back out ref op len;
              decompress_loop fuel inp in_len out_len ip (op + len + 2) out
    end
  else Some (LzfDone op out).

Definition lzf_decompress (in_data : bytes) (in_len : Z) (out_data : bytes) (out_len : Z) : option lzf_result :=
  decompress_loop (Z.to_nat in_len) in_data in_len out_len 0 0 out_data.
