(* ===== verification/LzfSpec.v ===== *)
(** Correctness of LZF: what the compressor writes is a code of its input, which
    the decompressor expands back; both stay within their buffers, whatever the
    compressor finds in its uninitialised hash table and whatever bytes the
    decompressor is given. *)
From S2P Require Import Prelude Lzf.
Open Scope Z_scope.

(** ** The format *)

(** [q] follows [p], each byte of it equal to the one [off + 1] before. *)
Definition copies (off : Z) (p q : bytes) : Prop :=
  forall k, zlen p <= k < zlen (p ++ q) -> (p ++ q).[k] = (p ++ q).[k - off - 1].

Definition ref_code (off len : Z) : bytes :=
  if len <? 7 then [off / 256 + len * 32; off mod 256] else [off / 256 + 224; len - 7; off mod 256].

(** [c] is a code of [p]. *)
Inductive codes : bytes -> bytes -> Prop :=
| codes_nil : codes [] []
| codes_lit c p l : codes c p -> 1 <= zlen l <= 32 -> codes (c ++ (zlen l - 1) :: l) (p ++ l)
| codes_ref c p q off :
    codes c p -> 3 <= zlen q <= 264 -> 0 <= off < 8192 -> off < zlen p -> copies off p q ->
    codes (c ++ ref_code off (zlen q - 2)) (p ++ q).

(** ** Buffers *)

Lemma bget_lt b i : 0 <= i < zlen b -> exists x, b.[i] = Some x.
Proof.
  intros Hi. unfold bget. replace (0 <=? i) with true by (symmetry; apply Z.leb_le; lia).
  apply lookup_lt_is_Some. lia.
Qed.

Lemma bget_bounds b i x : b.[i] = Some x -> 0 <= i < zlen b.
Proof.
  unfold bget. destruct (Z.leb_spec 0 i); [|done]. intros ?%lookup_lt_Some. lia.
Qed.

Lemma bget_left a b i : i < zlen a -> (a ++ b).[i] = a.[i].
Proof. intros Hi. unfold bget. destruct (Z.leb_spec 0 i); [|done]. apply lookup_app_l. lia. Qed.

Lemma bget_right a b i : 0 <= i -> (a ++ b).[zlen a + i] = b.[i].
Proof.
  intros Hi. unfold bget. destruct (Z.leb_spec 0 i), (Z.leb_spec 0 (zlen a + i)); try lia.
  rewrite lookup_app_r by lia. f_equal. lia.
Qed.

Lemma bytes_eq (a b : bytes) : zlen a = zlen b -> (forall i, 0 <= i < zlen a -> a.[i] = b.[i]) -> a = b.
Proof.
  intros Hl He. apply list_eq_same_length with (length b); [done|lia|].
  intros i x y Hi Hx Hy. specialize (He (Z.of_nat i)). unfold bget in He.
  replace (0 <=? Z.of_nat i) with true in He by (symmetry; apply Z.leb_le; lia).
  rewrite !Nat2Z.id in He. rewrite Hx, Hy in He. assert (Some x = Some y) by (apply He; lia). congruence.
Qed.

Lemma bslice_defined (b : bytes) off n : 0 <= off -> 0 <= n -> off + n <= zlen b -> exists s, bslice b off n = Some s.
Proof. intros. unfold bslice. if_true. by eexists. Qed.

Lemma bget_slice b off n s i : bslice b off n = Some s -> 0 <= i < n -> s.[i] = b.[off + i].
Proof.
  intros (pre & post & -> & <- & <-)%bslice_Some Hi. by rewrite bget_right, bget_left by lia.
Qed.

Lemma split_snoc {A} (x : A) c t : c ++ x :: t = (c ++ [x]) ++ t.
Proof. by rewrite <- app_assoc. Qed.

(** ** Copying in the decompressor *)

Lemma copy_literal_spec inp1 l inp2 out1 old out2 ip op :
  ip = zlen inp1 -> op = zlen out1 -> length old = length l ->
  copy_literal (length l) (inp1 ++ l ++ inp2) ip (out1 ++ old ++ out2) op = Some (out1 ++ l ++ out2).
Proof.
  revert inp1 old out1 ip op. induction l as [|x l IH]; intros inp1 [|y old] out1 ip op Hip Hop Hl; try discriminate; [done|].
  cbn [length copy_literal app]. rewrite bget_app by done. cbn [mbind option_bind].
  rewrite bset_app by done. cbn [mbind option_bind].
  change (inp1 ++ x :: l ++ inp2) with (inp1 ++ [x] ++ l ++ inp2).
  change (out1 ++ x :: old ++ out2) with (out1 ++ [x] ++ old ++ out2).
  change (out1 ++ x :: l ++ out2) with (out1 ++ [x] ++ l ++ out2). rewrite !(app_assoc _ [x]).
  apply IH; [rewrite length_app; cbn; lia..|]. by injection Hl.
Qed.

Lemma copy_ref_spec off p q old rest op ref :
  op = zlen p -> ref = op - off - 1 -> 0 <= off < zlen p -> length old = length q -> copies off p q ->
  copy_ref (length q) (p ++ old ++ rest) ref op = Some (p ++ q ++ rest).
Proof.
  revert p old op ref. induction q as [|x q IH]; intros p [|y old] op ref Hop Href Hoff Hl Hc; try discriminate; [done|].
  cbn [length copy_ref app].
  assert (E : p.[ref] = Some x).
  { rewrite <- (bget_left p (x :: q)) by lia. rewrite Href, <- Hc by (rewrite length_app; cbn; lia).
    by apply bget_app. }
  rewrite bget_left, E by lia. cbn [mbind option_bind]. rewrite bset_app by done. cbn [mbind option_bind].
  change (p ++ x :: old ++ rest) with (p ++ [x] ++ old ++ rest).
  change (p ++ x :: q ++ rest) with (p ++ [x] ++ q ++ rest). rewrite !(app_assoc _ [x]).
  apply IH; [rewrite ?length_app; cbn; lia..|by injection Hl|].
  intros k Hk. rewrite <- app_assoc. apply Hc. rewrite <- app_assoc, !length_app in *. cbn in *. lia.
Qed.

Lemma copy_back_spec off p q old rest op ref :
  op = zlen p -> ref = op - off - 1 -> 0 <= off < zlen p -> length old = length q -> copies off p q -> 2 <= zlen q ->
  copy_back (p ++ old ++ rest) ref op (zlen q - 2) = Some (p ++ q ++ rest).
Proof.
  intros Hop Href Hoff Hl Hc Hq. unfold copy_back. replace (zlen q - 2 + 2) with (zlen q) by lia. rewrite Nat2Z.id.
  destruct (Z.leb_spec (zlen q - 2) 9); [by apply copy_ref_spec with off|].
  rewrite Z.geb_leb. destruct (Z.leb_spec (ref + zlen q) op); [|by apply copy_ref_spec with off].
  destruct (bslice_defined (p ++ old ++ rest) ref (zlen q)) as [s Hs]; [rewrite ?length_app; lia..|].
  rewrite Hs. cbn [mbind option_bind]. replace s with q.
  { by apply bwrite_app. }
  assert (Hls : zlen s = zlen q) by by apply bslice_Some in Hs as (? & ? & ? & ? & ?).
  apply bytes_eq; [done|]. intros i Hi. rewrite (bget_slice _ _ _ _ _ Hs), bget_left by lia.
  rewrite <- (bget_right p q), Hc by (rewrite ?length_app; lia). rewrite bget_left by lia. f_equal. lia.
Qed.

(** ** Decompressing a code *)

Lemma shiftl1_5 : Z.shiftl 1 5 = 32. Proof. reflexivity. Qed.

Lemma decompress_lit fuel c l rest in_len out_len p old w :
  1 <= zlen l <= 32 -> length old = length l -> zlen c + 1 + zlen l <= in_len -> zlen p + zlen l <= out_len ->
  decompress_loop (S fuel) (c ++ (zlen l - 1) :: l ++ rest) in_len out_len (zlen c) (zlen p) (p ++ old ++ w)
  = decompress_loop fuel (c ++ (zlen l - 1) :: l ++ rest) in_len out_len
      (zlen (c ++ (zlen l - 1) :: l)) (zlen (p ++ l)) (p ++ l ++ w).
Proof.
  intros Hl Hold Hin Hout. cbn [decompress_loop]. if_true. rewrite (bget_app c _ _ (zlen c) eq_refl). cbn [mbind option_bind].
  rewrite shiftl1_5. if_true. replace (zlen l - 1 + 1) with (zlen l) by lia. rewrite !Z.gtb_ltb. if_false. if_false.
  rewrite Nat2Z.id. change (c ++ (zlen l - 1) :: l ++ rest) with (c ++ [zlen l - 1] ++ l ++ rest).
  rewrite (app_assoc c [_]). 
  rewrite (copy_literal_spec (c ++ [zlen l - 1]) l rest p old w); [|rewrite ?length_app; cbn [length]; lia..].
  cbn [mbind option_bind]. rewrite <- app_assoc. f_equal; rewrite !length_app; cbn [length]; lia.
Qed.

Lemma shiftr_32 a b : 0 <= a < 32 -> 0 <= b < 8 -> Z.shiftr (a + b * 32) 5 = b /\ Z.land (a + b * 32) 0x1f = a.
Proof.
  intros Ha Hb. rewrite Z.shiftr_div_pow2 by lia. change 0x1f with (Z.ones 5). rewrite Z.land_ones by lia.
  Z.to_euclidean_division_equations; lia.
Qed.

Lemma decompress_ref fuel c q rest in_len out_len p old w off :
  3 <= zlen q <= 264 -> 0 <= off < 8192 -> off < zlen p -> copies off p q -> length old = length q ->
  zlen (c ++ ref_code off (zlen q - 2)) <= in_len -> zlen p + zlen q <= out_len ->
  let inp := c ++ ref_code off (zlen q - 2) ++ rest in
  decompress_loop (S fuel) inp in_len out_len (zlen c) (zlen p) (p ++ old ++ w)
  = decompress_loop fuel inp in_len out_len (zlen (c ++ ref_code off (zlen q - 2))) (zlen (p ++ q)) (p ++ q ++ w).
Proof.
  intros Hq Hoff Hp Hc Hold Hin Hout inp. subst inp.
  assert (Ho : 0 <= off / 256 < 32) by (Z.to_euclidean_division_equations; lia).
  assert (Hcopy : forall ref, ref = zlen p - off - 1 ->
    copy_back (p ++ old ++ w) ref (zlen p) (zlen q - 2) = Some (p ++ q ++ w)).
  { intros. apply copy_back_spec with off; (done || lia). }
  assert (Href : zlen p - Z.shiftl (off / 256) 8 - 1 - off mod 256 = zlen p - off - 1).
  { rewrite Z.shiftl_mul_pow2 by lia. Z.to_euclidean_division_equations; lia. }
  rewrite length_app in Hin. cbn [decompress_loop]. unfold ref_code in *.
  destruct (Z.ltb_spec (zlen q - 2) 7); cbn [length app] in *; if_true; rewrite (bget_app c _ _ (zlen c) eq_refl);
    cbn [mbind option_bind]; rewrite shiftl1_5; if_false.
  - destruct (shiftr_32 (off / 256) (zlen q - 2)) as [-> ->]; [lia..|]. rewrite Z.geb_leb. if_false.
    replace (zlen q - 2 =? 7) with false by (symmetry; apply Z.eqb_neq; lia). cbn [mbind option_bind andb].
    rewrite split_snoc, (bget_app _ _ _ (zlen c + 1)) by (rewrite length_app; cbn; lia). cbn [mbind option_bind].
    rewrite Z.gtb_ltb. if_false. rewrite Href. if_false. rewrite Hcopy by lia.
    cbn [mbind option_bind]. f_equal; rewrite !length_app; cbn [length]; lia.
  - change 224 with (7 * 32). destruct (shiftr_32 (off / 256) 7) as [-> ->]; [lia..|]. rewrite Z.geb_leb. if_false.
    rewrite Z.eqb_refl. rewrite split_snoc, (bget_app _ _ _ (zlen c + 1)) by (rewrite length_app; cbn; lia). cbn [mbind option_bind andb].
    rewrite Z.geb_leb. if_false. rewrite split_snoc, (bget_app _ _ _ (zlen c + 1 + 1)) by (rewrite !length_app; cbn; lia). cbn [mbind option_bind].
    replace (7 + (zlen q - 2 - 7)) with (zlen q - 2) by lia.
    rewrite Z.gtb_ltb. if_false. rewrite Href. if_false. rewrite Hcopy by lia.
    cbn [mbind option_bind]. f_equal; rewrite !length_app; cbn [length]; lia.
Qed.

Lemma decompress_codes c p : codes c p ->
  exists n, (n <= length c)%nat /\ forall rest in_len out_len old w fuel,
    length old = length p -> zlen c <= in_len -> zlen p <= out_len ->
    decompress_loop (n + fuel) (c ++ rest) in_len out_len 0 0 (old ++ w)
    = decompress_loop fuel (c ++ rest) in_len out_len (zlen c) (zlen p) (p ++ w).
Proof.
  induction 1 as [|c p l Hc (n & Hn & IH) Hl|c p q off Hc (n & Hn & IH) Hq Hoff Hp Hcp].
  - exists 0%nat. split; [done|]. intros rest in_len out_len [|? ?] w fuel Hold _ _; done.
  - exists (n + 1)%nat. split; [rewrite length_app; cbn; lia|]. intros rest in_len out_len old w fuel Hold Hin Hout.
    rewrite !length_app in *. cbn [length] in *. destruct (split_at old (length p)) as (o1 & o2 & -> & Ho1); [lia|].
    rewrite length_app in Hold. rewrite <- !app_assoc. cbn [app]. replace (n + 1 + fuel)%nat with (n + S fuel)%nat by lia.
    rewrite IH by lia. rewrite decompress_lit by lia. by rewrite !length_app.
  - exists (n + 1)%nat.
    assert (1 <= length (ref_code off (zlen q - 2)))%nat by (unfold ref_code; destruct (_ <? _); cbn; lia).
    split; [rewrite length_app; lia|]. intros rest in_len out_len old w fuel Hold Hin Hout.
    rewrite length_app in Hold, Hin, Hout. destruct (split_at old (length p)) as (o1 & o2 & -> & Ho1); [lia|].
    rewrite length_app in Hold. rewrite <- !app_assoc. replace (n + 1 + fuel)%nat with (n + S fuel)%nat by lia.
    rewrite IH by lia. rewrite decompress_ref with (off := off) by (rewrite ?length_app; done || lia). done.
Qed.

Lemma decompress_done c p : codes c p -> forall rest dst, zlen p <= zlen dst ->
  exists w, lzf_decompress (c ++ rest) (zlen c) dst (zlen dst) = Some (LzfDone (zlen p) (p ++ w)) /\
    zlen (p ++ w) = zlen dst.
Proof.
  intros Hc rest dst Hd. destruct (decompress_codes c p Hc) as (n & Hn & E).
  destruct (split_at dst (length p)) as (old & w & -> & Hold); [lia|]. exists w.
  unfold lzf_decompress. rewrite Nat2Z.id. replace (length c) with (n + (length c - n))%nat at 1 by lia.
  rewrite E by (rewrite ?length_app; lia). split; [|rewrite !length_app; lia].
  destruct (length c - n)%nat; cbn [decompress_loop]; by rewrite Z.ltb_irrefl.
Qed.

(** ** Decompressing any bytes *)

Lemma bset_total b i c : 0 <= i < zlen b -> exists b', bset b i c = Some b' /\ zlen b' = zlen b.
Proof.
  intros Hi. unfold bset, bwrite. cbn [length]. if_true. eexists. split; [done|].
  rewrite !length_app, length_take, length_drop. cbn [length]. lia.
Qed.

Lemma copy_literal_total n inp ip out op :
  0 <= ip -> 0 <= op -> ip + Z.of_nat n <= zlen inp -> op + Z.of_nat n <= zlen out ->
  exists out', copy_literal n inp ip out op = Some out' /\ zlen out' = zlen out.
Proof.
  revert ip out op. induction n as [|n IH]; intros ip out op Hi Ho Hin Hout; [by exists out|]. cbn [copy_literal].
  destruct (bget_lt inp ip) as [v ->]; [lia|]. cbn [mbind option_bind].
  destruct (bset_total out op v) as (o & -> & E); [lia|]. cbn [mbind option_bind]. rewrite <- E. apply IH; lia.
Qed.

Lemma copy_ref_total n out ref op :
  0 <= ref < op -> op + Z.of_nat n <= zlen out ->
  exists out', copy_ref n out ref op = Some out' /\ zlen out' = zlen out.
Proof.
  revert out ref op. induction n as [|n IH]; intros out ref op Hr Hout; [by exists out|]. cbn [copy_ref].
  destruct (bget_lt out ref) as [v ->]; [lia|]. cbn [mbind option_bind].
  destruct (bset_total out op v) as (o & -> & E); [lia|]. cbn [mbind option_bind]. rewrite <- E. apply IH; lia.
Qed.

Lemma copy_back_total out ref op len :
  0 <= ref < op -> 0 <= len -> op + len + 2 <= zlen out ->
  exists out', copy_back out ref op len = Some out' /\ zlen out' = zlen out.
Proof.
  intros Hr Hl Hout. unfold copy_back. destruct (len <=? 9); [apply copy_ref_total; lia|].
  destruct (op >=? _); [|apply copy_ref_total; lia].
  destruct (bslice_defined out ref (len + 2)) as [s Hs]; [lia..|]. rewrite Hs. cbn [mbind option_bind].
  apply bslice_Some in Hs as (? & ? & _ & _ & Hs). unfold bwrite. if_true. eexists. split; [done|].
  rewrite !length_app, length_take, length_drop. lia.
Qed.

(** The result: at most as many bytes as the output holds. *)
Definition result_ok (out_len olen : Z) (r : lzf_result) : Prop :=
  match r with LzfDone n o => 0 <= n <= out_len /\ zlen o = olen | LzfFail _ => True end.

Lemma decompress_loop_safe fuel inp in_len out_len ip op out :
  Forall byte_ok inp -> in_len <= zlen inp -> 0 <= ip -> in_len - ip <= Z.of_nat fuel -> 0 <= op <= out_len -> out_len <= zlen out ->
  exists r, decompress_loop fuel inp in_len out_len ip op out = Some r /\ result_ok out_len (zlen out) r.
Proof.
  intros Hb Hlen. revert ip op out. induction fuel as [|fuel IH]; intros ip op out Hip Hf Hop Hol; cbn [decompress_loop].
  { if_false. by eexists. }
  destruct (Z.ltb_spec ip in_len); [|by eexists].
  destruct (bget_lt inp ip) as [ctrl E]; [lia|]. rewrite E. cbn [mbind option_bind]. rewrite shiftl1_5.
  assert (B : forall i x, inp.[i] = Some x -> byte_ok x).
  { intros i x Hx. unfold bget in Hx. destruct (0 <=? i); [|done]. by eapply Forall_lookup_1. }
  assert (Hctrl := B _ _ E). unfold byte_ok in Hctrl.
  destruct (Z.ltb_spec ctrl 32).
  - rewrite Z.gtb_ltb. destruct (Z.ltb_spec out_len (op + (ctrl + 1))); [by eexists|].
    rewrite Z.gtb_ltb. destruct (Z.ltb_spec in_len (ip + 1 + (ctrl + 1))); [by eexists|].
    destruct (copy_literal_total (Z.to_nat (ctrl + 1)) inp (ip + 1) out op) as (o & -> & El); [lia..|].
    cbn [mbind option_bind]. rewrite <- El. apply IH; lia.
  - rewrite Z.geb_leb. destruct (Z.leb_spec in_len (ip + 1)); [by eexists|].
    set (len0 := Z.shiftr ctrl 5). assert (Hl0 : 0 <= len0) by (apply Z.shiftr_nonneg; lia).
    assert (X : exists len ip', (if len0 =? 7 then x ← inp.[ip + 1]; Some (len0 + x, ip + 1 + 1) else Some (len0, ip + 1))
                = Some (len, ip') /\ 0 <= len /\ ip + 1 <= ip' /\ ((len0 =? 7) = false -> ip' < in_len)).
    { destruct (len0 =? 7); [|exists len0, (ip + 1); split_and!; done || lia].
      destruct (bget_lt inp (ip + 1)) as [x Ex]; [lia|]. rewrite Ex. pose proof (B _ _ Ex) as Hx. unfold byte_ok in Hx.
      eexists _, _. split; [done|]. split_and!; [lia..|done]. }
    destruct X as (len & ip' & -> & Hlen' & Hip' & Hlt). cbn [mbind option_bind]. rewrite Z.geb_leb.
    destruct ((len0 =? 7) && (in_len <=? ip')) eqn:Eb; [by eexists|].
    assert (ip' < in_len).
    { destruct (len0 =? 7); [|by apply Hlt]. cbn [andb] in Eb. lia. }
    destruct (bget_lt inp ip') as [x Ex]; [lia|]. rewrite Ex. cbn [mbind option_bind].
    pose proof (B _ _ Ex) as Hx. unfold byte_ok in Hx. rewrite Z.gtb_ltb.
    destruct (Z.ltb_spec out_len (op + len + 2)); [by eexists|].
    set (ref := op - _ - 1 - x). destruct (Z.ltb_spec ref 0); [by eexists|].
    assert (0 <= Z.shiftl (Z.land ctrl 31) 8) by (apply Z.shiftl_nonneg, Z.land_nonneg; lia).
    destruct (copy_back_total out ref op len) as (o & -> & El); [lia..|].
    cbn [mbind option_bind]. rewrite <- El. apply IH; lia.
Qed.

(** C25: [lzf_decompress] never reads or writes outside its buffers, whatever
    bytes it is given: it returns an error, or the number of bytes it wrote. *)
Theorem lzf_decompress_safe inp out in_len out_len :
  Forall byte_ok inp -> in_len <= zlen inp -> 0 <= out_len <= zlen out ->
  exists r, lzf_decompress inp in_len out out_len = Some r /\ result_ok out_len (zlen out) r.
Proof. intros Hb Hin Hout. apply decompress_loop_safe; (done || lia). Qed.

(** A reference before the start of the output, and one into it. *)
Lemma lzf_decompress_safe_witness :
  lzf_decompress [0; 97; 32; 1] 4 [0; 0; 0; 0] 4 = Some (LzfFail EINVAL) /\
  exists r, lzf_decompress [0; 97; 32; 0] 4 [0; 0; 0; 0] 4 = Some r /\ result_ok 4 4 r.
Proof.
  split; [vm_compute; reflexivity|].
  apply (lzf_decompress_safe [0; 97; 32; 0] [0; 0; 0; 0] 4 4); [|cbn; lia..]. repeat constructor; vm_compute; discriminate.
Defined.

(** ** Matching in the compressor *)

Definition same (inp : bytes) (ref ip n : Z) : Prop := forall j, 0 <= j < n -> inp.[ref + j] = inp.[ip + j].

Lemma same_more inp ref ip n x : same inp ref ip n -> inp.[ref + n] = Some x -> inp.[ip + n] = Some x ->
  same inp ref ip (n + 1).
Proof. intros Hs Hr Hi j Hj. destruct (decide (j = n)) as [->|]; [congruence|]. apply Hs. lia. Qed.

Lemma bget_byte inp i x : Forall byte_ok inp -> inp.[i] = Some x -> byte_ok x.
Proof. intros Hb Hx. unfold bget in Hx. destruct (0 <=? i); [|done]. by eapply Forall_lookup_1. Qed.

Lemma lor_bytes a b : byte_ok a -> byte_ok b -> Z.lor (Z.shiftl b 8) a = b * 256 + a.
Proof.
  unfold byte_ok. intros Ha Hb. rewrite Z.lor_comm, Z.add_comm. rewrite <- Z.shiftl_mul_pow2 with (n := 8) by lia.
  rewrite <- Z.lxor_lor, <- Z.add_nocarry_lxor; [done|..]; apply Z.bits_inj'; intros i Hi; rewrite Z.land_spec, Z.bits_0;
  (destruct (Z.lt_ge_cases i 8); [rewrite (Z.shiftl_spec_low b) by lia; apply andb_false_r|
    rewrite (in_u_high 8 a) by (done || lia); done]).
Qed.

Lemma match_found_spec inp ip ref :
  Forall byte_ok inp -> 0 <= ip < 2 ^ 32 -> ip + 2 < zlen inp -> in_u 32 ref ->
  exists b, match_found inp ip ref = Some b /\
    (b = true -> 0 < ref < ip /\ ip - ref - 1 < 8192 /\ same inp ref ip 3).
Proof.
  intros Hb Hip Hlen Href. unfold match_found, in_u in *. change MAX_OFF with 8192.
  destruct (Z.ltb_spec (uwrap 64 (ip - ref - 1)) 8192) as [Hoff|]; cbn [negb]; [|by exists false].
  assert (ref < ip /\ ip - ref - 1 < 8192).
  { unfold uwrap in Hoff. destruct (Z.lt_ge_cases ref ip).
    - rewrite Z.mod_small in Hoff by lia. lia.
    - rewrite <- (Z.mod_add _ 1), Z.mod_small in Hoff by lia. lia. }
  rewrite Z.gtb_ltb. destruct (Z.ltb_spec 0 ref); cbn [negb]; [|by exists false].
  destruct (bget_lt inp (ref + 2)) as [r2 E2]; [lia|]. destruct (bget_lt inp (ip + 2)) as [i2 F2]; [lia|].
  rewrite E2, F2. cbn [mbind option_bind]. destruct (Z.eqb_spec r2 i2) as [->|]; cbn [negb]; [|by exists false].
  destruct (bget_lt inp ref) as [r0 E0]; [lia|]. destruct (bget_lt inp ip) as [i0 F0]; [lia|].
  destruct (bget_lt inp (ref + 1)) as [r1 E1]; [lia|]. destruct (bget_lt inp (ip + 1)) as [i1 F1]; [lia|].
  rewrite E0, E1, F0, F1. cbn [mbind option_bind]. eexists. split; [done|]. intros Heq%Z.eqb_eq.
  pose proof (bget_byte _ _ _ Hb E0). pose proof (bget_byte _ _ _ Hb E1).
  pose proof (bget_byte _ _ _ Hb F0). pose proof (bget_byte _ _ _ Hb F1).
  rewrite !lor_bytes in Heq by done. unfold byte_ok in *. assert (r0 = i0) as -> by lia. assert (r1 = i1) as -> by lia.
  split_and!; [lia..|]. apply (same_more _ _ _ 2 i2); [|done..]. apply (same_more _ _ _ 1 i1); [|done..].
  intros j Hj. replace j with 0 by lia. by rewrite !Z.add_0_r, E0, F0.
Qed.

Lemma unrolled_spec n inp ip ref len :
  0 < ref < ip -> 0 <= len -> ip + len + Z.of_nat n < zlen inp -> same inp ref ip (len + 1) ->
  exists len' b, unrolled n inp ip ref len = Some (len', b) /\ len <= len' <= len + Z.of_nat n /\
    if b : bool then len < len' /\ same inp ref ip len' else len' = len + Z.of_nat n /\ same inp ref ip (len' + 1).
Proof.
  intros Hr. revert len. induction n as [|n IH]; intros len Hl Hlen Hs; cbn [unrolled].
  { exists len, false. rewrite Z.add_0_r. split_and!; (done || lia). }
  destruct (bget_lt inp (ref + (len + 1))) as [r E]; [lia|]. destruct (bget_lt inp (ip + (len + 1))) as [i F]; [lia|].
  rewrite E, F. cbn [mbind option_bind]. destruct (Z.eqb_spec r i) as [->|]; cbn [negb].
  - destruct (IH (len + 1)) as (len' & b & -> & Hb & Hx); [lia..|by apply same_more with i|].
    exists len', b. split; [done|]. split; [lia|]. destruct b; [split; [lia|apply Hx]|split; [lia|apply Hx]].
  - exists (len + 1), true. split_and!; (done || lia).
Qed.

Lemma match_more_spec fuel inp ip ref maxlen len :
  0 < ref < ip -> 0 <= len -> ip + maxlen <= zlen inp -> same inp ref ip (len + 1) ->
  Z.max 0 (maxlen - len - 1) < Z.of_nat fuel ->
  exists n, match_more fuel inp ip ref maxlen len = Some n /\ len + 1 <= n <= Z.max (len + 1) maxlen /\ same inp ref ip n.
Proof.
  intros Hr. revert len. induction fuel as [|fuel IH]; intros len Hl Hlen Hs Hf; [lia|]. cbn [match_more].
  destruct (Z.ltb_spec (len + 1) maxlen); [|exists (len + 1); split_and!; done || lia].
  destruct (bget_lt inp (ref + (len + 1))) as [r E]; [lia|]. destruct (bget_lt inp (ip + (len + 1))) as [i F]; [lia|].
  rewrite E, F. cbn [mbind option_bind]. destruct (Z.eqb_spec r i) as [->|].
  - destruct (IH (len + 1)) as (n & -> & Hn & Hsn); [lia..|by apply same_more with i|lia|]. exists n. split_and!; (done || lia).
  - exists (len + 1). split_and!; (done || lia).
Qed.

Lemma match_len_spec inp ip ref maxlen :
  0 < ref < ip -> 1 <= maxlen <= 264 -> ip + maxlen + 2 <= zlen inp -> same inp ref ip 3 ->
  exists n, match_len inp ip ref maxlen = Some n /\ 3 <= n <= 264 /\ n <= maxlen + 2 /\ same inp ref ip n.
Proof.
  intros Hr Hm Hlen Hs. unfold match_len. change (Z.to_nat MAX_REF) with 264%nat.
  rewrite Z.gtb_ltb. destruct (Z.ltb_spec 16 maxlen); cbn [mbind option_bind].
  - destruct (unrolled_spec 16 inp ip ref 2) as (len & b & -> & Hl & Hb); [done|lia..|done|].
    cbn [mbind option_bind]. destruct b.
    + exists len. split_and!; [done|lia..|apply Hb].
    + destruct Hb as [-> Hs']. destruct (match_more_spec 264 inp ip ref maxlen (2 + Z.of_nat 16)) as (n & -> & Hn & Hsn); [done|lia..|done|lia|].
      exists n. split_and!; (done || lia).
  - destruct (match_more_spec 264 inp ip ref maxlen 2) as (n & -> & Hn & Hsn); [done|lia..|done|lia|].
    exists n. split_and!; (done || lia).
Qed.

(** A match is a reference of the format. *)
Lemma same_copies p q rest ref off : ref = zlen p - off - 1 -> 0 <= off ->
  same (p ++ q ++ rest) ref (zlen p) (zlen q) -> copies off p q.
Proof.
  intros Href Hoff Hs k Hk. rewrite length_app in Hk. specialize (Hs (k - zlen p)).
  rewrite app_assoc, !(bget_left (p ++ q)) in Hs by (rewrite length_app; lia).
  replace (zlen p + (k - zlen p)) with k in Hs by lia. rewrite <- Hs by lia. f_equal. lia.
Qed.

(** ** The invariant of the compressor

    The output starts with a code [c] of the input [p] before the current run,
    then a byte for the header of the run, and the literals [l] of the run. *)
Definition inv (inp : bytes) (out_len : Z) (s : lzf) : Prop :=
  exists c p l rest w t,
    codes c p /\ 32 * zlen c <= 33 * zlen p /\ inp = p ++ l ++ rest /\ out s = c ++ w /\ drop 1 w = l ++ t /\
    zlen l < 32 /\ ip s = zlen p + zlen l /\ lit s = zlen l /\ op s = zlen c + 1 + zlen l /\
    zlen (out s) = out_len /\ forall i, in_u 32 (htab s i).

(** The room that the output never runs out of. *)
Lemma inv_op inp out_len s : inv inp out_len s -> 0 <= lit s < 32 /\ 1 <= op s <= ip s + ip s / 32 + 1 /\ lit s <= ip s <= zlen inp.
Proof.
  intros (c & p & l & rest & w & t & Hc & Hb & -> & _ & _ & Hl & -> & -> & -> & _).
  rewrite !length_app. Z.to_euclidean_division_equations; lia.
Qed.

Lemma stop_run_spec c w l t s : out s = c ++ w -> drop 1 w = l ++ t -> lit s = zlen l -> op s = zlen c + 1 + zlen l ->
  zlen c < zlen (out s) ->
  stop_run s = Some {| ip := ip s; op := op s; lit := lit s; hval := hval s; htab := htab s;
                       out := c ++ uwrap 8 (lit s - 1) :: l ++ t |}.
Proof.
  intros Ho Hw Hl Hop Hlen. rewrite Ho, length_app in Hlen. destruct w as [|h w]; [cbn in Hlen; lia|].
  change (w = l ++ t) in Hw. subst w. unfold stop_run. rewrite Ho, bset_app by lia. done.
Qed.

Lemma literal_spec inp out_len s : inv inp out_len s -> ip s < zlen inp -> op s < out_len -> Forall byte_ok inp ->
  exists s', literal inp s = Some s' /\ inv inp out_len s' /\ ip s' = ip s + 1 /\
    (if lit s =? 31 then op s' = op s + 2 /\ lit s' = 0 else op s' = op s + 1 /\ lit s' = lit s + 1).
Proof.
  intros (c & p & l & rest & w & t & Hc & Hb & -> & Ho & Hw & Hl & Hip & Hlit & Hop & Hol & Hh) Hi Hlt Hbytes.
  rewrite !length_app in Hi. destruct rest as [|x rest]; [cbn in Hi; lia|].
  assert (Hx : byte_ok x).
  { rewrite app_assoc in Hbytes. apply Forall_app in Hbytes as [_ Hbytes]. by inversion Hbytes. }
  rewrite <- Hol, Ho, length_app in Hlt. destruct w as [|h w]; [cbn in Hlt; lia|]. change (w = l ++ t) in Hw. subst w.
  cbn [length] in Hlt. rewrite length_app in Hlt. destruct t as [|y t]; [cbn in Hlt; lia|].
  unfold literal. rewrite app_assoc, bget_app by (rewrite length_app; lia). cbn [mbind option_bind].
  unfold emit. rewrite Ho. change (c ++ h :: l ++ y :: t) with (c ++ [h] ++ l ++ y :: t).
  rewrite !app_assoc, bset_app by (rewrite !length_app; cbn; lia). cbn [mbind option_bind ip op lit hval htab out].
  rewrite (uwrap_small 8 x) by exact Hx. change MAX_LIT with 32.
  set (s1 := {| ip := ip s + 1; op := op s + 1; lit := lit s + 1; hval := hval s; htab := htab s;
                out := ((c ++ [h]) ++ l) ++ x :: t |}).
  assert (E1 : out s1 = c ++ h :: (l ++ [x]) ++ t) by (cbn [s1 out]; by rewrite <- !app_assoc).
  assert (Hl1 : zlen (l ++ [x]) = zlen l + 1) by (rewrite length_app; cbn; lia).
  assert (Hol1 : zlen (out s1) = out_len).
  { rewrite E1, <- Hol, Ho, !length_app. cbn [length]. rewrite !length_app. cbn [length]. lia. }
  cbn [lit]. destruct (Z.eqb_spec (lit s + 1) 32), (Z.eqb_spec (lit s) 31); try lia.
  - rewrite (stop_run_spec c (h :: (l ++ [x]) ++ t) (l ++ [x]) t s1); [|done|done|cbn [s1 lit op]; lia..|].
    2: { rewrite E1, length_app. cbn [length]. lia. }
    cbn [mbind option_bind]. eexists. split; [done|]. split; [|cbn [s1 ip op lit start_run]; split_and!; lia].
    exists (c ++ (zlen (l ++ [x]) - 1) :: l ++ [x]), (p ++ l ++ [x]), [], rest, t, (drop 1 t).
    cbn [s1 ip op lit out htab start_run] in *.
    split_and!; try done.
    + apply codes_lit; [done|lia].
    + rewrite !length_app. cbn [length]. rewrite !length_app. cbn [length]. lia.
    + by rewrite <- !app_assoc.
    + rewrite uwrap_small by (unfold in_u; lia). replace (lit s + 1 - 1) with (zlen (l ++ [x]) - 1) by lia.
      by rewrite <- (app_assoc c).
    + rewrite !length_app. cbn [length]. lia.
    + rewrite !length_app. cbn [length]. rewrite !length_app. cbn [length]. lia.
    + rewrite <- Hol, Ho, !length_app. cbn [length]. rewrite !length_app. cbn [length]. lia.
  - eexists. split; [done|]. split; [|cbn [s1 ip op lit]; split_and!; lia].
    exists c, p, (l ++ [x]), rest, (h :: (l ++ [x]) ++ t), t.
    split_and!; try done; cbn [s1 ip op lit]; try lia. by rewrite <- !app_assoc.
Qed.

(** The end of a run: the output is a code of the input read so far. *)
Lemma close_run inp out_len s : inv inp out_len s -> op s - lit s <= out_len ->
  exists s1, stop_run s = Some s1 /\ exists c w,
    let s2 := undo_run s1 in
    codes c (take (Z.to_nat (ip s)) inp) /\ 32 * zlen c <= 33 * ip s + 31 /\
    out s2 = c ++ w /\ op s2 = zlen c /\ zlen (out s2) = out_len /\ op s2 = op s - (if lit s =? 0 then 1 else 0) /\
    ip s2 = ip s /\ htab s2 = htab s /\ hval s2 = hval s.
Proof.
  intros (c & p & l & rest & w & t & Hc & Hb & -> & Ho & Hw & Hl & Hip & Hlit & Hop & Hol & Hh) Hlt.
  rewrite (stop_run_spec c w l t s) by (done || lia). eexists. split; [done|].
  assert (El : zlen (c ++ uwrap 8 (lit s - 1) :: l ++ t) = out_len).
  { rewrite <- Hol, Ho, !length_app. destruct w as [|h w]; [rewrite <- Hol, Ho, app_nil_r in Hlt; lia|].
    change (w = l ++ t) in Hw. subst w. cbn [length]. rewrite !length_app. lia. }
  rewrite Hip. replace (Z.to_nat _) with (length (p ++ l)) by (rewrite length_app; lia). rewrite app_assoc, take_app_length.
  destruct l as [|x l].
  - cbn [length] in *. change (Z.of_nat 0) with 0 in *. rewrite Hlit in *.
    exists c, (uwrap 8 (0 - 1) :: t). cbn [undo_run ip op lit hval htab out app Z.eqb] in *. rewrite app_nil_r.
    split_and!; try done; lia.
  - exists (c ++ (zlen (x :: l) - 1) :: x :: l), t.
    cbn [undo_run ip op lit hval htab out] in *. cbn [length] in *.
    replace (lit s =? 0) with false by (symmetry; apply Z.eqb_neq; lia).
    rewrite uwrap_small in * by (unfold in_u; lia).
    split_and!; try done; try lia.
    + apply (codes_lit c p (x :: l)); [done|cbn [length]; lia].
    + rewrite !length_app. cbn [length]. lia.
    + rewrite Hlit. rewrite <- app_assoc. done.
    + rewrite length_app. cbn [length]. lia.
Qed.

Lemma emit_spec v s c x w : out s = c ++ x :: w -> op s = zlen c ->
  emit v s = Some {| ip := ip s; op := op s + 1; lit := lit s; hval := hval s; htab := htab s; out := (c ++ [uwrap 8 v]) ++ w |}.
Proof. intros Ho Hop. unfold emit. rewrite Ho, bset_app by done. cbn [mbind option_bind]. by rewrite <- app_assoc. Qed.

Lemma emit_ref off len s c w : out s = c ++ w -> op s = zlen c -> 3 <= zlen w -> 0 <= off < 8192 -> 1 <= len <= 262 ->
  exists s' w',
    (s ← (if len <? 7 then emit (Z.shiftr off 8 + Z.shiftl len 5) s
          else s ← emit (Z.shiftr off 8 + Z.shiftl 7 5) s; emit (len - 7) s);
     emit off s) = Some s' /\
    out s' = (c ++ ref_code off len) ++ w' /\ op s' = zlen (c ++ ref_code off len) /\ zlen (out s') = zlen (out s) /\
    ip s' = ip s /\ lit s' = lit s /\ hval s' = hval s /\ htab s' = htab s.
Proof.
  intros Ho Hop Hw Hoff Hlen. destruct w as [|x0 [|x1 [|x2 w]]]; cbn [length] in Hw; try lia.
  assert (D : Z.shiftr off 8 = off / 256) by by rewrite Z.shiftr_div_pow2.
  assert (0 <= off / 256 < 32) by (Z.to_euclidean_division_equations; lia).
  unfold ref_code. change (Z.shiftl 7 5) with 224. rewrite D. destruct (Z.ltb_spec len 7).
  - rewrite Z.shiftl_mul_pow2 by lia. change (2 ^ 5) with 32.
    rewrite (emit_spec _ s c x0 (x1 :: x2 :: w)) by done. cbn [mbind option_bind].
    rewrite (emit_spec _ _ (c ++ [uwrap 8 (off / 256 + len * 32)]) x1 (x2 :: w)); [|done|cbn [op]; rewrite length_app; cbn; lia].
    rewrite uwrap_small by (unfold in_u; lia). eexists _, (x2 :: w). split; [reflexivity|].
    cbn [ip op lit hval htab out]. rewrite Ho. split_and!; try done; rewrite ?length_app; cbn [length]; try lia.
    by rewrite <- !app_assoc.
  - rewrite (emit_spec _ s c x0 (x1 :: x2 :: w)) by done. cbn [mbind option_bind].
    rewrite (emit_spec _ _ (c ++ [uwrap 8 (off / 256 + 224)]) x1 (x2 :: w)); [|done|cbn [op]; rewrite length_app; cbn; lia].
    cbn [mbind option_bind ip op lit hval htab out].
    rewrite (emit_spec _ _ ((c ++ [uwrap 8 (off / 256 + 224)]) ++ [uwrap 8 (len - 7)]) x2 w);
      [|done|cbn [op]; rewrite !length_app; cbn; lia].
    rewrite !uwrap_small with (z := len - 7) by (unfold in_u; lia).
    rewrite !uwrap_small with (z := off / 256 + 224) by (unfold in_u; lia).
    eexists _, w. split; [reflexivity|].
    cbn [ip op lit hval htab out]. rewrite Ho. split_and!; try done; rewrite ?length_app; cbn [length]; try lia.
    by rewrite <- !app_assoc.
Qed.

Lemma rehash_byte_spec inp s : ip s + 2 < zlen inp -> 0 <= ip s ->
  exists h hv, rehash_byte inp s = Some {| ip := ip s + 1; op := op s; lit := lit s; hval := hv; htab := h; out := out s |} /\
    ((forall i, in_u 32 (htab s i)) -> forall i, in_u 32 (h i)).
Proof.
  intros Hi Hi0. unfold rehash_byte, NEXT. destruct (bget_lt inp (ip s + 2)) as [x ->]; [lia|]. cbn [mbind option_bind].
  eexists _, _. split; [reflexivity|]. intros Hh i. unfold set_slot. destruct (i =? _); [|apply Hh]. apply uwrap_range. lia.
Qed.

(** What a turn leaves: the invariant, with the input advanced; [return 0] only
    without enough room. *)
Definition turn_ok (inp : bytes) (out_len olen : Z) (s : lzf) (t : turn) : Prop :=
  match t with
  | Return0 => out_len < zlen inp + zlen inp / 32 + 4
  | Break s' => inv inp olen s' /\ zlen inp - 2 <= ip s'
  | Continue s' => inv inp olen s' /\ ip s < ip s'
  end.

Lemma start_inv inp olen s c w : codes c (take (Z.to_nat (ip s)) inp) -> 32 * zlen c <= 33 * ip s -> 0 <= ip s <= zlen inp ->
  out s = c ++ w -> op s = zlen c + 1 -> lit s = 0 -> zlen (out s) = olen -> (forall i, in_u 32 (htab s i)) -> inv inp olen s.
Proof.
  intros Hc Hb Hi Ho Hop Hl Hol Hh. assert (zlen (take (Z.to_nat (ip s)) inp) = ip s) by (rewrite length_take; lia).
  exists c, (take (Z.to_nat (ip s)) inp), [], (drop (Z.to_nat (ip s)) inp), w, (drop 1 w). cbn [app length].
  split_and!; try done; try lia. by rewrite take_drop.
Qed.

(** The branch of a match, once the reference is written. *)
Lemma after_ref inp out_len olen n s c w :
  codes c (take (Z.to_nat (ip s + n)) inp) -> 32 * zlen c <= 33 * (ip s + n) -> 0 <= ip s -> 3 <= n -> ip s + n <= zlen inp ->
  out s = c ++ w -> op s = zlen c -> zlen (out s) = olen -> (forall i, in_u 32 (htab s i)) ->
  exists t,
    (let s := start_run s in
     let s := set_ip (ip s + 1 + (n - 2 + 1)) s in
     if ip s >=? zlen inp - 2 then Some (Break s)
     else
       let s := set_ip (ip s - 1 - 1) s in
       h ← FRST inp (ip s);
       s ← rehash_byte inp (set_hval h s);
       s ← rehash_byte inp s;
       Some (Continue s)) = Some t /\ turn_ok inp out_len olen s t.
Proof.
  intros Hc Hb Hi Hn Hlen Ho Hop Hol Hh. cbv zeta. set (s1 := set_ip (ip (start_run s) + 1 + (n - 2 + 1)) (start_run s)).
  assert (Hi1 : ip s1 = ip s + n) by (cbn [s1 start_run set_ip ip]; lia).
  assert (I1 : forall s', ip s' = ip s1 -> op s' = op s1 -> lit s' = 0 -> out s' = out s -> (forall i, in_u 32 (htab s' i)) -> inv inp olen s').
  { intros s' Ei Eo El Eout Eh. rewrite Hi1 in Ei. cbn [s1 start_run set_ip op] in Eo. apply start_inv with c w; rewrite ?Ei, ?Eout; (done || lia). }
  rewrite Z.geb_leb. destruct (Z.leb_spec (zlen inp - 2) (ip s1)).
  { eexists. split; [done|]. split; [|done]. by apply I1. }
  set (s2 := set_ip (ip s1 - 1 - 1) s1). assert (Hi2 : ip s2 = ip s + n - 2) by (cbn [s2 set_ip ip]; lia).
  unfold FRST. destruct (bget_lt inp (ip s2)) as [a ->]; [lia|]. destruct (bget_lt inp (ip s2 + 1)) as [b ->]; [lia|].
  cbn [mbind option_bind]. set (s3 := set_hval (Z.lor (Z.shiftl a 8) b) s2). assert (Hi3 : ip s3 = ip s2) by done.
  destruct (rehash_byte_spec inp s3) as (h4 & v4 & -> & Hh4); [lia..|]. cbn [mbind option_bind].
  match goal with |- context [rehash_byte inp ?x] => set (s4 := x) end. assert (Hi4 : ip s4 = ip s2 + 1) by (cbn [s4 ip]; lia).
  destruct (rehash_byte_spec inp s4) as (h5 & v5 & -> & Hh5); [lia..|]. cbn [mbind option_bind].
  eexists. split; [done|]. cbn [turn_ok ip]. split; [|lia].
  apply I1; cbn [ip]; [lia|done|done|done|]. apply Hh5, Hh4, Hh.
Qed.

Lemma back_reference_spec inp out_len olen ref s :
  inv inp olen s -> out_len <= olen -> Forall byte_ok inp -> zlen inp < 2 ^ 32 -> ip s < zlen inp - 2 ->
  0 < ref < ip s -> ip s - ref - 1 < 8192 -> same inp ref (ip s) 3 ->
  exists t, back_reference inp (zlen inp) out_len ref s = Some t /\ turn_ok inp out_len olen s t.
Proof.
  intros Hinv Hol0 Hby Hlen Hip Hr Hoff Hsame. pose proof (inv_op _ _ _ Hinv) as (Hl & Hop & Hipb).
  assert (Hh : forall i, in_u 32 (htab s i)) by (by destruct Hinv as (? & ? & ? & ? & ? & ? & H); apply H).
  unfold back_reference. rewrite (uwrap_small 64) by (unfold in_u; lia). rewrite (uwrap_small 32) by (unfold in_u; lia).
  remember (ip s - ref - 1) as off eqn:Eoff. set (k := if lit s =? 0 then 1 else 0).
  assert (Hk : 0 <= k <= 1) by (subst k; destruct (lit s =? 0); lia).
  destruct ((op s + 3 + 1 >=? out_len) && (op s - k + 3 + 1 >=? out_len)) eqn:E.
  { eexists. split; [done|]. cbn. Z.to_euclidean_division_equations; lia. }
  change MAX_REF with 264. set (maxlen := if _ >? _ then _ else _).
  assert (Hm : 1 <= maxlen <= 264 /\ ip s + maxlen + 2 <= zlen inp).
  { subst maxlen. rewrite Z.gtb_ltb. destruct (Z.ltb_spec 264 (zlen inp - ip s - 2)); lia. }
  destruct (close_run inp olen s Hinv) as (s1 & -> & c & w & Hc & Hb & Ho & Hop2 & Hol & Eop & Eip & Eh & Ev); [lia|].
  cbn [mbind option_bind]. set (s2 := undo_run s1) in *. rewrite Eip.
  destruct (match_len_spec inp (ip s) ref maxlen) as (n & -> & Hn & Hnm & Hs); [done|lia..|done|].
  cbn [mbind option_bind]. change (if lit s =? 0 then 1 else 0) with k in Eop.
  destruct (emit_ref off (n - 2) s2 c w) as (s3 & w3 & E3 & Ho3 & Hop3 & Hol3 & Eip3 & _ & _ & Eh3); [done..| |lia|lia|].
  { rewrite Ho, length_app in Hol. lia. }
  destruct (if n - 2 <? 7 then _ else _) as [s3'|]; [|discriminate E3]. cbn [mbind option_bind] in *.
  rewrite E3. cbn [mbind option_bind]. assert (Eis : ip s = ip s3) by congruence. rewrite Eis in *.
  assert (Hq : codes (c ++ ref_code off (n - 2)) (take (Z.to_nat (ip s3 + n)) inp)).
  { set (p := take (Z.to_nat (ip s3)) inp) in *. set (q := take (Z.to_nat n) (drop (Z.to_nat (ip s3)) inp)).
    set (rest := drop (Z.to_nat n) (drop (Z.to_nat (ip s3)) inp)).
    assert (Einp : inp = p ++ q ++ rest) by (by subst p q rest; rewrite !take_drop).
    assert (Lp : zlen p = ip s3) by (subst p; rewrite length_take; lia).
    assert (Lq : zlen q = n) by (subst q; rewrite length_take, length_drop; lia).
    replace (take (Z.to_nat (ip s3 + n)) inp) with (p ++ q).
    2: { rewrite Einp, app_assoc. replace (Z.to_nat (ip s3 + n)) with (length (p ++ q)) by (rewrite length_app; lia).
         by rewrite take_app_length. }
    rewrite <- Lq. apply codes_ref; [done|lia|lia|lia|].
    apply (same_copies p q rest ref); [lia|lia|]. rewrite <- Einp, Lp, Lq. done. }
  destruct (after_ref inp out_len olen n s3 (c ++ ref_code off (n - 2)) w3) as (t & Et & Ht);
    [done| |lia|lia|lia|done|lia|congruence|intros; rewrite Eh3, Eh; apply Hh|].
  { rewrite length_app. unfold ref_code. destruct (Z.ltb_spec (n - 2) 7); cbn [length]; lia. }
  exists t. split; [exact Et|]. destruct t; [done|done|]. cbn [turn_ok] in *. split; [apply Ht|lia].
Qed.

(** ** The whole compressor *)

Lemma compress_turn_spec inp out_len olen s :
  inv inp olen s -> out_len <= olen -> Forall byte_ok inp -> zlen inp < 2 ^ 32 -> ip s < zlen inp - 2 ->
  exists t, compress_turn inp (zlen inp) out_len s = Some t /\ turn_ok inp out_len olen s t.
Proof.
  intros Hinv Hol0 Hby Hlen Hip. pose proof (inv_op _ _ _ Hinv) as (Hl & Hop & Hipb).
  assert (Hh : forall i, in_u 32 (htab s i)) by (by destruct Hinv as (? & ? & ? & ? & ? & ? & H); apply H).
  unfold compress_turn, NEXT. destruct (bget_lt inp (ip s + 2)) as [x ->]; [lia|]. cbn [mbind option_bind].
  set (h := Z.lor _ x). match goal with |- context [match_found inp (ip ?y)] => set (s1 := y) end.
  assert (Hinv1 : inv inp olen s1).
  { destruct Hinv as (c & p & l & rest & w & t & H). exists c, p, l, rest, w, t. cbn [s1 ip op lit out htab].
    destruct H as (? & ? & ? & ? & ? & ? & ? & ? & ? & ? & ?). split_and!; try done. intros i. unfold set_slot.
    destruct (i =? IDX h); [apply uwrap_range; lia|done]. }
  change (ip s1) with (ip s).
  destruct (match_found_spec inp (ip s) (htab s (IDX h))) as (b & -> & Hb); [done|lia|lia|done|].
  cbn [mbind option_bind]. destruct b.
  - destruct Hb as (Hr & Hoff & Hs); [done|]. by apply (back_reference_spec inp out_len olen _ s1).
  - rewrite Z.geb_leb. change (op s1) with (op s). destruct (Z.leb_spec out_len (op s)).
    + eexists. split; [done|]. cbn. Z.to_euclidean_division_equations; lia.
    + destruct (literal_spec inp olen s1) as (s2 & -> & Hinv2 & Hip2 & _); [done|cbn [s1 ip]; lia|cbn [s1 op]; lia|done|].
      cbn [mbind option_bind]. eexists. split; [done|]. split; [done|]. cbn [s1 ip] in Hip2. lia.
Qed.

Lemma compress_loop_spec fuel inp out_len olen s :
  inv inp olen s -> out_len <= olen -> Forall byte_ok inp -> zlen inp < 2 ^ 32 -> zlen inp - ip s <= Z.of_nat fuel ->
  exists t, compress_loop fuel inp (zlen inp) out_len s = Some t /\
    match t with Continue _ => False | _ => turn_ok inp out_len olen s t end.
Proof.
  revert s. induction fuel as [|fuel IH]; intros s Hinv Hol0 Hby Hlen Hf; cbn [compress_loop].
  { if_false. eexists. split; [done|]. split; [done|lia]. }
  destruct (Z.ltb_spec (ip s) (zlen inp - 2)); [|eexists; split; [done|split; [done|lia]]].
  destruct (compress_turn_spec inp out_len olen s) as (t & -> & Ht); [done..|]. cbn [mbind option_bind].
  destruct t as [|s'|s']; [by eexists..|]. destruct Ht as [Hinv' Hlt].
  destruct (IH s') as (t & -> & Ht); [done|done|done|done|lia|]. exists t. split; [done|]. by destruct t.
Qed.

Lemma last_literals_spec fuel inp out_len olen s :
  inv inp olen s -> out_len <= olen -> Forall byte_ok inp -> zlen inp - ip s <= Z.of_nat fuel -> zlen inp - ip s <= 31 ->
  op s + (zlen inp - ip s) + (if lit s + (zlen inp - ip s) >=? 32 then 1 else 0) <= out_len ->
  exists s', last_literals fuel inp (zlen inp) s = Some s' /\ inv inp olen s' /\ ip s' = zlen inp /\ op s' <= out_len.
Proof.
  revert s. induction fuel as [|fuel IH]; intros s Hinv Hol0 Hby Hf Hr Ho; cbn [last_literals];
    pose proof (inv_op _ _ _ Hinv) as (Hl & Hop & Hipb); rewrite Z.geb_leb in Ho.
  { if_false. exists s. split_and!; [done|done|lia|]. destruct (Z.leb_spec 32 (lit s + (zlen inp - ip s))); lia. }
  destruct (Z.ltb_spec (ip s) (zlen inp)).
  - destruct (literal_spec inp olen s) as (s1 & -> & Hinv1 & Hip1 & Hx); [done|done| |done|].
    { destruct (Z.leb_spec 32 (lit s + (zlen inp - ip s))); lia. }
    cbn [mbind option_bind]. apply IH; [done|done|done|lia|lia|]. rewrite Hip1, Z.geb_leb.
    destruct (Z.eqb_spec (lit s) 31), Hx as [-> ->];
    destruct (Z.leb_spec 32 (lit s + (zlen inp - ip s))); case_if_lia; lia.
  - exists s. split_and!; [done|done|lia|]. destruct (Z.leb_spec 32 (lit s + (zlen inp - ip s))); lia.
Qed.

Lemma inv_start inp out h htab0 : (forall i, in_u 32 (htab0 i)) ->
  inv inp (zlen out) {| ip := 0; op := 1; lit := 0; hval := h; htab := htab0; out := out |}.
Proof.
  intros Hh. apply start_inv with [] out; cbn [ip op lit Lzf.out htab]; try done; [apply codes_nil|lia].
Qed.

Lemma codes_nonempty c p : codes c p -> p <> [] -> c <> [].
Proof.
  destruct 1; [done|..]; intros _; [by destruct c|]. unfold ref_code. destruct (_ <? _); by destruct c.
Qed.

Lemma lzf_compress_codes htab0 inp out out_len :
  (forall i, in_u 32 (htab0 i)) -> Forall byte_ok inp -> 2 <= zlen inp < 2 ^ 32 -> 0 <= out_len <= zlen out ->
  (lzf_compress htab0 inp (zlen inp) out out_len = Some (0, None) /\ out_len < zlen inp + zlen inp / 32 + 4) \/
  exists c w, lzf_compress htab0 inp (zlen inp) out out_len = Some (zlen c, Some (c ++ w)) /\
    codes c inp /\ zlen (c ++ w) = zlen out /\ 0 < zlen c <= out_len.
Proof.
  intros Hh Hby Hlen Hol0. unfold lzf_compress. replace (zlen inp =? 0) with false by (symmetry; apply Z.eqb_neq; lia).
  destruct (Z.eqb_spec out_len 0); cbn [orb]; [left; split; [done|Z.to_euclidean_division_equations; lia]|].
  unfold FRST. destruct (bget_lt inp 0) as [a ->]; [lia|]. destruct (bget_lt inp (0 + 1)) as [b ->]; [lia|].
  cbn [mbind option_bind].
  pose proof (inv_start inp out (Z.lor (Z.shiftl a 8) b) htab0 Hh) as I0.
  match goal with |- context [compress_loop _ _ _ _ ?x] => set (s1 := x) end.
  destruct (compress_loop_spec (Z.to_nat (zlen inp)) inp out_len (zlen out) s1) as (t & -> & Ht); [done|lia|done|lia|change (ip s1) with 0; lia|].
  cbn [mbind option_bind]. destruct t as [|s|s]; [by left| |done]. destruct Ht as [Hinv Hip].
  pose proof (inv_op _ _ _ Hinv) as (Hl & Hop & Hipb). rewrite Z.gtb_ltb. destruct (Z.ltb_spec out_len (op s + 3)).
  { left. split; [done|]. Z.to_euclidean_division_equations; lia. }
  right. destruct (last_literals_spec (Z.to_nat (zlen inp)) inp out_len (zlen out) s) as (s2 & -> & Hinv2 & Hip2 & Hop2);
    [done|lia|done|lia|lia|case_if_lia; lia|]. cbn [mbind option_bind].
  pose proof (inv_op _ _ _ Hinv2) as (Hl2 & _).
  destruct (close_run _ _ _ Hinv2) as (s3 & -> & c & w & Hc & _ & Ho & Hop3 & Hol & Eop & _); [lia|]. cbn [mbind option_bind].
  exists c, w. rewrite Hip2, Nat2Z.id, firstn_all in Hc. rewrite Ho, Hop3. rewrite <- Ho.
  assert (c <> []) by (apply (codes_nonempty _ _ Hc); intros ->; cbn in Hlen; lia).
  split_and!; [done..| |].
  - destruct c; [done|]. cbn [length]. lia.
  - rewrite <- Hop3, Eop. case_if_lia; lia.
Qed.


Definition lzf_sample : bytes := of_string "aaaaaaaaaaaaaaaaaaaaaaaabcabcabcabcabcabc".

