(* ===== verification/Rio.v ===== *)
(** Streams: [rio.h], [rio.c].

    The backend (a buffer, a file, a socket) is an interface, [Backend], with
    the laws that its clients rely on ([BackendOk]); the in-memory buffer of
    [rio.c] is an instance. [rioWrite] and [rioRead] work in chunks, keep the
    checksum of what went through and remember errors; [writes] and [reads] say
    what a serialiser and a parser over a stream do, and compose. *)
From S2P Require Import Prelude Endian Util Crc CrcSpec Wire.
Open Scope Z_scope.

Definition RIO_FLAG_READ_ERROR : Z := Z.shiftl 1 0.
Definition RIO_FLAG_WRITE_ERROR : Z := Z.shiftl 1 1.

(** The functions [read] and [write] of a rio: the bytes read, if the read did
    not fail; whether the write did not fail. *)
Class Backend (W : Type) := {
  be_read : W -> Z -> option bytes * W;
  be_write : W -> bytes -> bool * W
}.

(** Where buffers are in memory: the alignment seen by [crc64]. *)
Class Placement := addr_of : bytes -> Z.

(** [update_cksum] is whether [rioGenericUpdateChecksum] is installed. *)
Record rio (W : Type) := {
  io : W; update_cksum : bool; cksum : Z; flags : Z; processed_bytes : Z; max_processing_chunk : Z
}.
Arguments io {W}. Arguments update_cksum {W}. Arguments cksum {W}. Arguments flags {W}.
Arguments processed_bytes {W}. Arguments max_processing_chunk {W}.

Section rio.
Context `{HH : Host} `{PL : Placement} {W : Type} `{BE : !Backend W}.

Definition set_io (w : W) (r : rio W) : rio W :=
  {| io := w; update_cksum := update_cksum r; cksum := cksum r; flags := flags r;
     processed_bytes := processed_bytes r; max_processing_chunk := max_processing_chunk r |}.
Definition set_cksum (c : Z) (r : rio W) : rio W :=
  {| io := io r; update_cksum := update_cksum r; cksum := c; flags := flags r;
     processed_bytes := processed_bytes r; max_processing_chunk := max_processing_chunk r |}.
Definition set_flags (f : Z) (r : rio W) : rio W :=
  {| io := io r; update_cksum := update_cksum r; cksum := cksum r; flags := f;
     processed_bytes := processed_bytes r; max_processing_chunk := max_processing_chunk r |}.
Definition add_processed (n : Z) (r : rio W) : rio W :=
  {| io := io r; update_cksum := update_cksum r; cksum := cksum r; flags := flags r;
     processed_bytes := uwrap 64 (processed_bytes r + n); max_processing_chunk := max_processing_chunk r |}.

Definition rioGenericUpdateChecksum (r : rio W) (buf : bytes) : option (rio W) :=
  c ← crc64 (cksum r) (addr_of buf) buf; Some (set_cksum c r).

(** [if (r->update_cksum) r->update_cksum(r,buf,n)] *)
Definition update (r : rio W) (buf : bytes) : option (rio W) :=
  if update_cksum r then rioGenericUpdateChecksum r buf else Some r.

Definition chunk_len (r : rio W) (len : Z) : Z :=
  if negb (max_processing_chunk r =? 0) && (max_processing_chunk r <? len) then max_processing_chunk r else len.

Fixpoint rio_write_loop (fuel : nat) (r : rio W) (buf : bytes) : option (bool * rio W) :=
  if zlen buf =? 0 then Some (true, r)
  else match fuel with
  | O => None
  | S fuel =>
    let bytes_to_write := chunk_len r (zlen buf) in
    chunk ← bslice buf 0 bytes_to_write;
    r ← update r chunk;
    let '(ok, w) := be_write (io r) chunk in
    let r := set_io w r in
    if negb ok then Some (false, set_flags (Z.lor (flags r) RIO_FLAG_WRITE_ERROR) r)
    else rio_write_loop fuel (add_processed bytes_to_write r) (drop (Z.to_nat bytes_to_write) buf)
  end.

(** Returns whether the write succeeded. *)
Definition rioWrite (r : rio W) (buf : bytes) : option (bool * rio W) :=
  if negb (Z.land (flags r) RIO_FLAG_WRITE_ERROR =? 0) then Some (false, r)
  else rio_write_loop (length buf) r buf.

Fixpoint rio_read_loop (fuel : nat) (r : rio W) (acc : bytes) (len : Z) : option (option bytes * rio W) :=
  if len =? 0 then Some (Some acc, r)
  else match fuel with
  | O => None
  | S fuel =>
    let bytes_to_read := chunk_len r len in
    let '(got, w) := be_read (io r) bytes_to_read in
    let r := set_io w r in
    match got with
    | None => Some (None, set_flags (Z.lor (flags r) RIO_FLAG_READ_ERROR) r)
    | Some chunk =>
      r ← update r chunk;
      rio_read_loop fuel (add_processed bytes_to_read r) (acc ++ chunk) (len - bytes_to_read)
    end
  end.

(** Returns the [len] bytes of the buffer filled, or a failure. *)
Definition rioRead (r : rio W) (len : Z) : option (option bytes * rio W) :=
  if negb (Z.land (flags r) RIO_FLAG_READ_ERROR =? 0) then Some (None, r)
  else rio_read_loop (Z.to_nat len) r [] len.

Definition rioGetReadError (r : rio W) : bool := negb (Z.land (flags r) RIO_FLAG_READ_ERROR =? 0).
Definition rioGetWriteError (r : rio W) : bool := negb (Z.land (flags r) RIO_FLAG_WRITE_ERROR =? 0).
Definition rioClearErrors (r : rio W) : rio W :=
  set_flags (Z.land (flags r) (Z.lnot (Z.lor RIO_FLAG_READ_ERROR RIO_FLAG_WRITE_ERROR))) r.

(** ** The Redis protocol on a stream, for the append only file *)
Context `{AA : Alloc}.

(** Returns the number of bytes, or 0. *)
Definition rioWriteBulkCount (r : rio W) (prefix count : Z) : option (Z * rio W) :=
  '(cbuf, l) ← header_buf 128 prefix count;
  b ← bslice cbuf 0 (1 + l + 2);
  '(ok, r) ← rioWrite r b;
  Some (if ok : bool then 1 + l + 2 else 0, r).

Definition rioWriteBulkString (r : rio W) (buf : bytes) : option (Z * rio W) :=
  let len := zlen buf in
  '(nwritten, r) ← rioWriteBulkCount r 36 len;
  if nwritten =? 0 then Some (0, r)
  else
    '(ok, r) ← (if len >? 0 then rioWrite r buf else Some (true, r));
    if negb ok then Some (0, r)
    else
      '(ok, r) ← rioWrite r CRLF;
      if negb ok then Some (0, r) else Some (nwritten + len + 2, r).

Definition rioWriteBulkLongLong (r : rio W) (l : Z) : option (Z * rio W) :=
  b ← int_text 32 l; rioWriteBulkString r b.
End rio.

(** ** The in-memory buffer *)

Record buffer := { ptr : bytes; pos : Z }.

Definition rioBufferWrite (b : buffer) (buf : bytes) : bool * buffer :=
  (true, {| ptr := ptr b ++ buf; pos := pos b + zlen buf |}).

Definition rioBufferRead (b : buffer) (len : Z) : option bytes * buffer :=
  if uwrap 64 (zlen (ptr b) - pos b) <? len then (None, b)
  else (bslice (ptr b) (pos b) len, {| ptr := ptr b; pos := pos b + len |}).

Instance BufferBackend : Backend buffer := {| be_read := rioBufferRead; be_write := rioBufferWrite |}.

Definition rioInitWithBuffer (s : bytes) : rio buffer :=
  {| io := {| ptr := s; pos := 0 |}; update_cksum := false; cksum := 0; flags := 0; processed_bytes := 0;
     max_processing_chunk := 0 |}.

(** * What clients rely on *)

(** The bytes written so far, and the bytes a read will return, when the state
    of the backend is sound. *)
Class BackendOk (W : Type) `{Backend W} := {
  written : W -> bytes;
  pending : W -> bytes;
  sound : W -> Prop;
  write_ok w b w' : be_write w b = (true, w') -> written w' = written w ++ b;
  pending_ok w : sound w -> Forall byte_ok (pending w);
  read_ok w n : sound w -> 0 < n <= zlen (pending w) ->
    exists b w', be_read w n = (Some b, w') /\ sound w' /\ zlen b = n /\ pending w = b ++ pending w';
  read_short w n : sound w -> zlen (pending w) < n -> exists w', be_read w n = (None, w') /\ sound w'
}.

#[refine] Instance BufferBackend_ok : BackendOk buffer :=
  {| written := ptr; pending b := drop (Z.to_nat (pos b)) (ptr b);
     sound b := 0 <= pos b <= zlen (ptr b) /\ zlen (ptr b) < 2 ^ 63 /\ Forall byte_ok (ptr b) |}.
Proof.
  - intros w b w' [= <-]. done.
  - intros w (_ & _ & Hb). by apply Forall_drop.
  - intros w n (Hp & Hl & Hb) Hn. rewrite length_drop in Hn. cbn. unfold rioBufferRead.
    rewrite uwrap_small by (unfold in_u; lia). if_false. unfold bslice. if_true.
    eexists _, _. split; [reflexivity|]. cbn [pos ptr]. split_and!; [lia|lia|done|done| |].
    + rewrite length_take, length_drop. lia.
    + rewrite <- (take_drop (Z.to_nat n) (drop (Z.to_nat (pos w)) (ptr w))) at 1. rewrite drop_drop. do 2 f_equal. lia.
  - intros w n (Hp & Hl & Hb) Hn. rewrite length_drop in Hn. cbn. unfold rioBufferRead.
    rewrite uwrap_small by (unfold in_u; lia). if_true. eauto 10.
Defined.

Section spec.
Context `{HH : Host} `{PL : Placement} {W : Type} `{BE : !Backend W} `{BO : !BackendOk W}.
Implicit Types r : rio W.

Definition cksum_of (r : rio W) (s : bytes) : Z := if update_cksum r then crc64_from (cksum r) s else cksum r.

(** The part of the state that is kept, and the checksum of the bytes [s] that went through. *)
Record passed (r r' : rio W) (s : bytes) : Prop := {
  pa_flags : flags r' = flags r;
  pa_update : update_cksum r' = update_cksum r;
  pa_chunk : max_processing_chunk r' = max_processing_chunk r;
  pa_cksum : cksum r' = cksum_of r s
}.

Lemma passed_nil r : passed r r [].
Proof. split; try done. unfold cksum_of. by destruct (update_cksum r). Qed.

Lemma passed_app r1 r2 r3 a b : passed r1 r2 a -> passed r2 r3 b -> passed r1 r3 (a ++ b).
Proof.
  intros [F1 U1 M1 C1] [F2 U2 M2 C2]. split; [congruence..|]. unfold cksum_of in *. rewrite C2, U1, C1.
  destruct (update_cksum r1); [|done]. by rewrite crc64_from_app.
Qed.

Lemma update_spec r s : in_u 64 (cksum r) -> Forall byte_ok s ->
  update r s = Some (set_cksum (cksum_of r s) r) /\ in_u 64 (cksum_of r s).
Proof.
  intros Hc Hs. unfold update, cksum_of, rioGenericUpdateChecksum. destruct (update_cksum r) eqn:E.
  - rewrite crc64_spec by done. split; [done|]. by apply crc64_from_range.
  - split; [by destruct r|done].
Qed.

Lemma chunk_len_bounds r len : 0 <= max_processing_chunk r -> 0 < len -> 0 < chunk_len r len <= len.
Proof.
  intros Hm Hl. unfold chunk_len. destruct (Z.eqb_spec (max_processing_chunk r) 0); cbn [negb andb]; [lia|].
  destruct (Z.ltb_spec (max_processing_chunk r) len); lia.
Qed.

(** ** Writing *)

Definition writable (r : rio W) : Prop :=
  rioGetWriteError r = false /\ in_u 64 (cksum r) /\ 0 <= max_processing_chunk r.

Record wrote (r r' : rio W) (s : bytes) : Prop := {
  wr_passed : passed r r' s;
  wr_written : written (io r') = written (io r) ++ s;
  wr_writable : writable r'
}.

Lemma wrote_nil r : writable r -> wrote r r [].
Proof. intros H. split; [apply passed_nil|by rewrite app_nil_r|done]. Qed.

Lemma wrote_app r1 r2 r3 a b : wrote r1 r2 a -> wrote r2 r3 b -> wrote r1 r3 (a ++ b).
Proof.
  intros [P1 W1 _] [P2 W2 H]. split; [by apply passed_app with r2|by rewrite W2, W1, app_assoc|done].
Qed.

Lemma write_error_flag f : Z.land (Z.lor f RIO_FLAG_WRITE_ERROR) RIO_FLAG_WRITE_ERROR <> 0.
Proof.
  intros E. assert (X : Z.testbit (Z.land (Z.lor f RIO_FLAG_WRITE_ERROR) RIO_FLAG_WRITE_ERROR) 1 = false) by by rewrite E.
  rewrite Z.land_spec, Z.lor_spec in X. change (Z.testbit RIO_FLAG_WRITE_ERROR 1) with true in X.
  by rewrite orb_true_r in X.
Qed.

Lemma read_error_flag f : Z.land (Z.lor f RIO_FLAG_READ_ERROR) RIO_FLAG_READ_ERROR <> 0.
Proof.
  intros E. assert (X : Z.testbit (Z.land (Z.lor f RIO_FLAG_READ_ERROR) RIO_FLAG_READ_ERROR) 0 = false) by by rewrite E.
  rewrite Z.land_spec, Z.lor_spec in X. change (Z.testbit RIO_FLAG_READ_ERROR 0) with true in X.
  by rewrite orb_true_r in X.
Qed.

Lemma rio_write_loop_spec fuel r s : writable r -> Forall byte_ok s -> (length s <= fuel)%nat ->
  exists ok r', rio_write_loop fuel r s = Some (ok, r') /\ if ok : bool then wrote r r' s else rioGetWriteError r' = true.
Proof.
  revert r s. induction fuel as [|fuel IH]; intros r s Hr Hs Hf; cbn [rio_write_loop].
  { destruct s; [|cbn in Hf; lia]. exists true, r. split; [done|by apply wrote_nil]. }
  destruct (Z.eqb_spec (zlen s) 0) as [E|E].
  { destruct s; [|cbn in E; lia]. exists true, r. split; [done|by apply wrote_nil]. }
  destruct Hr as (Hfl & Hck & Hmax). pose proof (chunk_len_bounds r (zlen s) Hmax ltac:(lia)) as Hn.
  set (n := chunk_len r (zlen s)) in *.
  destruct (split_at s (Z.to_nat n)) as (a & b & -> & Ha); [lia|]. rewrite (bslice_head a b) by lia. cbn [mbind option_bind].
  apply Forall_app in Hs as [Hsa Hsb]. destruct (update_spec r a Hck Hsa) as [-> Hck']. cbn [mbind option_bind].
  change (io (set_cksum _ r)) with (io r). destruct (be_write (io r) a) as [ok w] eqn:Ew. destruct ok; cbn [negb].
  2: { eexists false, _. split; [reflexivity|]. apply negb_true_iff, Z.eqb_neq, write_error_flag. }
  apply write_ok in Ew. rewrite drop_app_length' by lia.
  set (r1 := add_processed n _). assert (P1 : wrote r r1 a) by (split; [by split|done|by split_and!]).
  destruct (IH r1 b) as (ok & r' & -> & Hok); [apply P1|done|rewrite length_app in Hf; lia|].
  exists ok, r'. split; [done|]. destruct ok; [|done]. by apply wrote_app with r1.
Qed.

Lemma rioWrite_spec r s : writable r -> Forall byte_ok s ->
  exists ok r', rioWrite r s = Some (ok, r') /\ if ok : bool then wrote r r' s else rioGetWriteError r' = true.
Proof.
  intros Hr Hs. unfold rioWrite. pose proof Hr as (Hf & _). unfold rioGetWriteError in Hf. rewrite Hf.
  by apply rio_write_loop_spec.
Qed.

(** ** Reading *)

Definition readable (r : rio W) : Prop :=
  rioGetReadError r = false /\ in_u 64 (cksum r) /\ 0 <= max_processing_chunk r /\ sound (io r).

Record consumed (r r' : rio W) (s : bytes) : Prop := {
  co_passed : passed r r' s;
  co_pending : pending (io r) = s ++ pending (io r');
  co_readable : readable r'
}.

Lemma consumed_nil r : readable r -> consumed r r [].
Proof. intros H. split; [apply passed_nil|done|done]. Qed.

Lemma consumed_app r1 r2 r3 a b : consumed r1 r2 a -> consumed r2 r3 b -> consumed r1 r3 (a ++ b).
Proof.
  intros [P1 R1 _] [P2 R2 H]. split; [by apply passed_app with r2|by rewrite R1, R2, app_assoc|done].
Qed.

(** A read returns the next bytes, or fails when there are not enough. *)
Lemma rio_read_loop_spec fuel r acc len : readable r -> 0 <= len <= Z.of_nat fuel ->
  exists got r', rio_read_loop fuel r acc len = Some (got, r') /\
    match got with
    | Some s => exists b, s = acc ++ b /\ zlen b = len /\ consumed r r' b
    | None => zlen (pending (io r)) < len /\ rioGetReadError r' = true
    end.
Proof.
  revert r acc len. induction fuel as [|fuel IH]; intros r acc len Hr Hf; cbn [rio_read_loop].
  { replace len with 0 by lia. exists (Some acc), r. split; [done|]. exists []. rewrite app_nil_r. by auto using consumed_nil. }
  destruct (Z.eqb_spec len 0) as [->|Hn0].
  { exists (Some acc), r. split; [done|]. exists []. rewrite app_nil_r. by auto using consumed_nil. }
  destruct Hr as (Hfl & Hck & Hmax & Hs). pose proof (chunk_len_bounds r len Hmax ltac:(lia)) as Hn.
  set (n := chunk_len r len) in *. destruct (Z.lt_ge_cases (zlen (pending (io r))) n).
  { destruct (read_short (io r) n Hs) as (w & -> & _); [done|]. eexists None, _. split; [reflexivity|]. split; [lia|].
    apply negb_true_iff, Z.eqb_neq, read_error_flag. }
  destruct (read_ok (io r) n Hs) as (a & w & -> & Hw & Ha & Hp); [lia|].
  assert (Hab : Forall byte_ok a) by (pose proof (pending_ok _ Hs) as X; rewrite Hp in X; by apply Forall_app in X as [X _]).
  destruct (update_spec (set_io w r) a Hck Hab) as [-> Hck']. cbn [mbind option_bind].
  set (r1 := add_processed n _).
  assert (P1 : consumed r r1 a) by (split; [by split|done|by split_and!]).
  destruct (IH r1 (acc ++ a) (len - n)) as (got & r' & -> & Hgot); [apply P1|lia|]. exists got, r'. split; [done|].
  destruct got as [s|].
  - destruct Hgot as (b & -> & Hb & Hc). exists (a ++ b). rewrite app_assoc, length_app. split_and!; [done|lia|].
    by apply consumed_app with r1.
  - destruct Hgot as [Hl He]. split; [|done]. rewrite (co_pending _ _ _ P1), length_app. lia.
Qed.

Lemma rioRead_spec r n : readable r -> 0 <= n ->
  exists got r', rioRead r n = Some (got, r') /\
    match got with
    | Some s => zlen s = n /\ consumed r r' s
    | None => zlen (pending (io r)) < n /\ rioGetReadError r' = true
    end.
Proof.
  intros Hr Hn. unfold rioRead. pose proof Hr as (Hf & _). unfold rioGetReadError in Hf. rewrite Hf.
  destruct (rio_read_loop_spec (Z.to_nat n) r [] n Hr) as (got & r' & E & H); [lia|]. exists got, r'. split; [done|].
  destruct got; [|done]. by destruct H as (b & -> & ? & ?).
Qed.

Lemma rioRead_exact r s rest : readable r -> pending (io r) = s ++ rest ->
  exists r', rioRead r (zlen s) = Some (Some s, r') /\ consumed r r' s /\ pending (io r') = rest.
Proof.
  intros Hr Hp. destruct (rioRead_spec r (zlen s) Hr) as (got & r' & E & H); [lia|]. exists r'.
  destruct got as [s'|].
  - destruct H as [Hl Hc]. pose proof (co_pending _ _ _ Hc) as Hp'. rewrite Hp in Hp'.
    apply app_inj_1 in Hp' as [<- Hr']; [|lia]. done.
  - destruct H as [Hl _]. rewrite Hp, length_app in Hl. lia.
Qed.

(** ** The protocol on a stream *)
Context `{AA : Alloc}.

Lemma decimal_byte_ok v : in_s 64 v -> Forall byte_ok (decimal v).
Proof.
  intros Hv. destruct (decimal_canon v Hv) as (d & _ & ->).
  assert (Hd : forall w, Forall byte_ok (dec d w)).
  { intros w. eapply Forall_impl; [apply dec_isdig|]. unfold isdig, byte_ok. lia. }
  unfold canon. destruct (v <? 0); [|done]. constructor; [unfold byte_ok; lia|done].
Qed.

(** A result of 0 reports a write error; otherwise it is the length of [s], which was written. *)
Definition bulk_written r (s : bytes) (n : Z) r' : Prop :=
  (n = zlen s /\ wrote r r' s) \/ (n = 0 /\ rioGetWriteError r' = true).

Lemma rioWriteBulkCount_spec r prefix v : writable r -> byte_ok prefix -> in_s 64 v ->
  exists n r', rioWriteBulkCount r prefix v = Some (n, r') /\ bulk_written r (prefix :: decimal v ++ CRLF) n r'.
Proof.
  intros Hr Hp Hv. unfold rioWriteBulkCount. destruct (header_ok 128 prefix v) as (post & ->); [lia|done|]. cbn [mbind option_bind].
  assert (El : zlen (prefix :: decimal v ++ CRLF) = 1 + zlen (decimal v) + 2) by (cbn [length]; rewrite length_app; cbn; lia).
  rewrite bslice_head by lia. cbn [mbind option_bind].
  assert (Hb : Forall byte_ok (prefix :: decimal v ++ CRLF)).
  { constructor; [done|]. apply Forall_app. split; [by apply decimal_byte_ok|]. repeat constructor; unfold byte_ok; lia. }
  destruct (rioWrite_spec r _ Hr Hb) as (ok & r' & -> & H). cbn [mbind option_bind]. eexists _, r'. split; [done|].
  destruct ok; [left; by rewrite El|by right].
Qed.

(** [rioWriteBulkString] writes the bulk string of the protocol. *)
Lemma rioWriteBulkString_spec r s : writable r -> Forall byte_ok s -> in_s 64 (zlen s) ->
  exists n r', rioWriteBulkString r s = Some (n, r') /\ bulk_written r (bulk s) n r'.
Proof.
  intros Hr Hs Hl. unfold rioWriteBulkString. destruct (rioWriteBulkCount_spec r 36 (zlen s) Hr) as (n & r1 & -> & H1);
    [unfold byte_ok; lia|done|]. cbn [mbind option_bind].
  destruct H1 as [[-> W1]|[-> E1]]; [|eexists 0, r1; split; [done|by right]].
  replace (zlen (36 :: _) =? 0) with false by (symmetry; apply Z.eqb_neq; cbn [length]; lia).
  assert (X : exists ok r2, (if zlen s >? 0 then rioWrite r1 s else Some (true, r1)) = Some (ok, r2) /\
    if ok : bool then wrote r1 r2 s else rioGetWriteError r2 = true).
  { destruct (Z.gtb_spec (zlen s) 0); [apply rioWrite_spec; [apply W1|done]|].
    destruct s; [|cbn in *; lia]. exists true, r1. split; [done|]. apply wrote_nil, W1. }
  destruct X as (ok & r2 & -> & H2). cbn [mbind option_bind]. destruct ok; cbn [negb]; [|eexists 0, r2; split; [done|by right]].
  destruct (rioWrite_spec r2 CRLF) as (ok & r3 & -> & H3); [apply H2|repeat constructor; unfold byte_ok; lia|]. cbn [mbind option_bind].
  destruct ok; cbn [negb]; [|eexists 0, r3; split; [done|by right]]. eexists _, r3. split; [done|]. left. split.
  - unfold bulk. cbn [length]. rewrite !length_app. cbn. lia.
  - unfold bulk. replace (36 :: decimal (zlen s) ++ CRLF ++ s ++ CRLF) with (((36 :: decimal (zlen s) ++ CRLF) ++ s) ++ CRLF)
      by (cbn [app]; by rewrite <- !app_assoc).
    apply wrote_app with r2; [|done]. by apply wrote_app with r1.
Qed.
End spec.
