(* ===== verification/Rdb.v ===== *)
(** Serialisation of lengths, integers and strings in RDB files and payloads:
    [rdb.c], over the streams of [Rio.v], with the integer encoding of
    [util.c] and LZF compression.

    A save function returns the number of bytes, -1 on a write error; the
    stream is optional ([NULL] computes the length only). A load function
    returns an outcome: a value, a read error, or a corrupted payload (after
    [rdbReportCorruptRDB], which returns or exits depending on the context). *)
From S2P Require Import Prelude Endian Util Crc CrcSpec Wire Sds Lzf Rio.
Open Scope Z_scope.

Definition RDB_6BITLEN : Z := 0.
Definition RDB_14BITLEN : Z := 1.
Definition RDB_32BITLEN : Z := 0x80.
Definition RDB_64BITLEN : Z := 0x81.
Definition RDB_ENCVAL : Z := 3.
Definition RDB_LENERR : Z := ULLONG_MAX.
Definition RDB_ENC_INT8 : Z := 0.
Definition RDB_ENC_INT16 : Z := 1.
Definition RDB_ENC_INT32 : Z := 2.
Definition RDB_ENC_LZF : Z := 3.
Definition RDB_LOAD_NONE : Z := 0.
Definition RDB_LOAD_ENC : Z := Z.shiftl 1 0.
Definition RDB_LOAD_PLAIN : Z := Z.shiftl 1 1.
Definition RDB_LOAD_SDS : Z := Z.shiftl 1 2.

Definition OBJ_ENCODING_EMBSTR_SIZE_LIMIT : Z := 44.

(** [strtoll(s, &endptr, 10)] of the C library, on a string that ends with a
    zero byte: the value, clamped to [long long], and the offset of [endptr]. *)
Definition isspace (c : Z) : bool := (c =? 32) || ((9 <=? c) && (c <=? 13)).

Fixpoint skip_space (s : bytes) (i : Z) : option (Z * bytes) :=
  match s with
  | [] => None
  | c :: s' => if isspace c then skip_space s' (i + 1) else Some (i, s)
  end.

Fixpoint scan_digits (s : bytes) (i acc : Z) : option (Z * Z) :=
  match s with
  | [] => None
  | c :: s' => if isdigit c then scan_digits s' (i + 1) (acc * 10 + (c - 48)) else Some (i, acc)
  end.

Definition strtoll (s : bytes) : option (Z * Z) :=
  '(i, s) ← skip_space s 0;
  c ← s.[0];
  let neg := c =? 45 in
  let '(start, s) := if neg || (c =? 43) then (i + 1, drop 1 s) else (i, s) in
  '(e, v) ← scan_digits s start 0;
  if e =? start then Some (0, 0)
  else Some (Z.max LLONG_MIN (Z.min LLONG_MAX (if neg then - v else v)), e).

(** [htonl], [ntohl] *)
Definition htonl `{Host} (v : Z) : Z := if big_endian then uwrap 32 v else byteswap 4 v.
Definition ntohl `{Host} (v : Z) : Z := htonl v.

(** Whether [ztrymalloc] of a size succeeds. *)
Class TryAlloc := try_alloc : Z -> bool.

(** The stack memory where [lzf_compress] puts its hash table. *)
Class StackJunk := { stack_htab : LZF_STATE; stack_htab_ok : forall i, in_u 32 (stack_htab i) }.

(** What a load returns, or that an assertion fails, which aborts the server. *)
Inductive outcome (A : Type) := Loaded (a : A) | ReadError | Corrupt | Aborted.
Arguments Loaded {A}. Arguments ReadError {A}. Arguments Corrupt {A}. Arguments Aborted {A}.

(** A string as the flags ask for it. *)
Inductive loaded := LPlain (s : bytes) | LSds (s : bytes) | LObj (o : robj).

Definition rdbEncodeInteger (value : Z) : bytes :=
  if (value >=? - Z.shiftl 1 7) && (value <=? Z.shiftl 1 7 - 1) then
    [Z.lor (Z.shiftl RDB_ENCVAL 6) RDB_ENC_INT8; Z.land value 0xFF]
  else if (value >=? - Z.shiftl 1 15) && (value <=? Z.shiftl 1 15 - 1) then
    [Z.lor (Z.shiftl RDB_ENCVAL 6) RDB_ENC_INT16; Z.land value 0xFF; Z.land (Z.shiftr value 8) 0xFF]
  else if (value >=? - Z.shiftl 1 31) && (value <=? Z.shiftl 1 31 - 1) then
    [Z.lor (Z.shiftl RDB_ENCVAL 6) RDB_ENC_INT32; Z.land value 0xFF; Z.land (Z.shiftr value 8) 0xFF;
     Z.land (Z.shiftr value 16) 0xFF; Z.land (Z.shiftr value 24) 0xFF]
  else [].

Section rdb.
Context `{HH : Host} `{PL : Placement} {W : Type} `{BE : !Backend W}.
Context `{AA : Alloc} `{TA : TryAlloc} `{SJ : StackJunk}.

(** ** Saving *)

Abbreviation stream := (option (rio W)).
Definition saver : Type := stream -> option (Z * stream).

(** [if ((n = f) == -1) return -1; if ((m = g) == -1) return -1; return n + m;] *)
Definition and_then (f g : saver) : saver := fun rdb =>
  '(n, rdb) ← f rdb;
  if n =? -1 then Some (-1, rdb)
  else
    '(m, rdb) ← g rdb;
    if m =? -1 then Some (-1, rdb) else Some (n + m, rdb).

Definition rdbWriteRaw (p : bytes) : saver := fun rdb =>
  match rdb with
  | Some r => '(ok, r) ← rioWrite r p; Some (if ok : bool then zlen p else -1, Some r)
  | None => Some (zlen p, None)
  end.

Definition rdbSaveType (type : Z) : saver := rdbWriteRaw [uwrap 8 type].

Definition rdbSaveLen (len : Z) : saver :=
  if len <? Z.shiftl 1 6 then rdbWriteRaw [Z.lor (Z.land len 0xFF) (Z.shiftl RDB_6BITLEN 6)]
  else if len <? Z.shiftl 1 14 then
    rdbWriteRaw [Z.lor (Z.land (Z.shiftr len 8) 0xFF) (Z.shiftl RDB_14BITLEN 6); Z.land len 0xFF]
  else if len <=? 2 ^ 32 - 1 then
    and_then (rdbWriteRaw [RDB_32BITLEN]) (rdbWriteRaw (host_bytes 4 (htonl len)))
  else
    and_then (rdbWriteRaw [RDB_64BITLEN])
      (fun rdb => len ← htonu64 len; rdbWriteRaw (host_bytes 8 len) rdb).

Definition rdbSaveMillisecondTime (t : Z) : saver := fun rdb =>
  t64 ← memrev64ifbe (host_bytes 8 t) 0; rdbWriteRaw t64 rdb.

(** The bytes of the [double], as its 64-bit pattern. *)
Definition rdbSaveBinaryDoubleValue (val : Z) : saver := fun rdb =>
  v ← memrev64ifbe (host_bytes 8 val) 0; rdbWriteRaw v rdb.
Definition rdbSaveBinaryFloatValue (val : Z) : saver := fun rdb =>
  v ← memrev32ifbe (host_bytes 4 val) 0; rdbWriteRaw v rdb.

(** [s] is the memory that starts at the string. *)
Definition rdbTryIntegerEncoding (s : bytes) (len : Z) : option bytes :=
  '(value, endptr) ← strtoll s;
  c ← s.[endptr];
  if negb (c =? 0) then Some []
  else
    '(_, buf) ← ll2string (zmalloc 32) 32 value;
    n ← strlen buf;
    if negb (n =? len) then Some []
    else
      a ← bslice buf 0 len; b ← bslice s 0 len;
      if bool_decide (a = b) then Some (rdbEncodeInteger value) else Some [].

Definition rdbSaveLzfBlob (data : bytes) (compress_len original_len : Z) : saver :=
  and_then (rdbWriteRaw [Z.lor (Z.shiftl RDB_ENCVAL 6) RDB_ENC_LZF])
  (and_then (rdbSaveLen compress_len)
  (and_then (rdbSaveLen original_len)
  (fun rdb => d ← bslice data 0 compress_len; rdbWriteRaw d rdb))).

(** 0 if the string was not compressed. *)
Definition rdbSaveLzfStringObject (s : bytes) (len : Z) : saver := fun rdb =>
  if len <=? 4 then Some (0, rdb)
  else
    let outlen := len - 4 in
    let out := zmalloc (outlen + 1) in
    d ← bslice s 0 len;
    '(comprlen, out) ← lzf_compress stack_htab d (uwrap 32 len) out (uwrap 32 outlen);
    if comprlen =? 0 then Some (0, rdb) else out ← out; rdbSaveLzfBlob out comprlen len rdb.

Definition rdbSaveRawString (rdb_compression : bool) (s : bytes) (len : Z) : saver := fun rdb =>
  enc ← (if len <=? 11 then rdbTryIntegerEncoding s len else Some []);
  if zlen enc >? 0 then rdbWriteRaw enc rdb
  else
    '(n, rdb) ← (if rdb_compression && (len >? 20) then rdbSaveLzfStringObject s len rdb else Some (0, rdb));
    if n =? -1 then Some (-1, rdb)
    else if n >? 0 then Some (n, rdb)
    else
      and_then (rdbSaveLen len)
        (fun rdb => if len >? 0 then d ← bslice s 0 len; rdbWriteRaw d rdb else Some (0, rdb)) rdb.

Definition rdbSaveLongLongAsStringObject (value : Z) : saver := fun rdb =>
  let enc := rdbEncodeInteger value in
  if zlen enc >? 0 then rdbWriteRaw enc rdb
  else
    '(enclen, buf) ← ll2string (zmalloc 32) 32 value;
    if enclen <? 32 then and_then (rdbSaveLen enclen) (fun rdb => d ← bslice buf 0 enclen; rdbWriteRaw d rdb) rdb
    else None.

(** The sds of a string object is followed by its terminator. *)
Definition rdbSaveStringObject (rdb_compression : bool) (obj : robj) : saver :=
  match obj with
  | IntObj v => rdbSaveLongLongAsStringObject v
  | StrObj s => rdbSaveRawString rdb_compression (s ++ [0]) (zlen s)
  end.

(** ** Loading *)

Definition loader (A : Type) : Type := rio W -> option (outcome A * rio W).

#[global] Instance loader_ret : MRet loader := fun A a r => Some (Loaded a, r).
#[global] Instance loader_bind : MBind loader := fun A B f m r =>
  '(o, r) ← m r;
  match o with
  | Loaded a => f a r
  | ReadError => Some (ReadError, r)
  | Corrupt => Some (Corrupt, r)
  | Aborted => Some (Aborted, r)
  end.

Definition fail {A} (o : outcome A) : loader A := fun r => Some (o, r).
Definition run {A} (o : option A) : loader A := fun r => a ← o; Some (Loaded a, r).

(** [if (rioRead(rdb,buf,n) == 0) return error;] *)
Definition read_raw (n : Z) : loader bytes := fun r =>
  '(got, r) ← rioRead r n;
  match got with Some s => Some (Loaded s, r) | None => Some (ReadError, r) end.

Definition byte (b : bytes) (i : Z) : loader Z := run (b.[i]).

Definition rdbLoadType : loader Z := b ← read_raw 1; byte b 0.

(** [*isencoded] and [*lenptr]. *)
Definition rdbLoadLenByRef : loader (bool * Z) :=
  buf ← read_raw 1;
  b0 ← byte buf 0;
  let type := Z.shiftr (Z.land b0 0xC0) 6 in
  if type =? RDB_ENCVAL then mret (true, Z.land b0 0x3F)
  else if type =? RDB_6BITLEN then mret (false, Z.land b0 0x3F)
  else if type =? RDB_14BITLEN then
    buf ← read_raw 1;
    b1 ← byte buf 0;
    mret (false, Z.lor (Z.shiftl (Z.land b0 0x3F) 8) b1)
  else if b0 =? RDB_32BITLEN then
    len ← read_raw 4;
    mret (false, ntohl (host_val len))
  else if b0 =? RDB_64BITLEN then
    len ← read_raw 8;
    len ← run (ntohu64 (host_val len));
    mret (false, len)
  else fail Corrupt.

(** With the test of the callers, [if (len == RDB_LENERR) return NULL;]. *)
Definition rdbLoadLen : loader (bool * Z) :=
  '(isencoded, len) ← rdbLoadLenByRef;
  if len =? RDB_LENERR then fail ReadError else mret (isencoded : bool, len).

Definition rdbLoadMillisecondTime (rdbver : Z) : loader Z :=
  t64 ← read_raw 8;
  t64 ← (if rdbver >=? 9 then run (memrev64ifbe t64 0) else mret t64);
  mret (swrap 64 (host_val t64)).

Definition rdbLoadBinaryDoubleValue : loader Z :=
  v ← read_raw 8; v ← run (memrev64ifbe v 0); mret (host_val v).
Definition rdbLoadBinaryFloatValue : loader Z :=
  v ← read_raw 4; v ← run (memrev32ifbe v 0); mret (host_val v).

Definition has_flag (flags f : Z) : bool := negb (Z.land flags f =? 0).

(** [createStringObjectFromLongLongForValue] returns an integer object, shared or not. *)
Definition rdbLoadIntegerObject (enctype flags : Z) : loader loaded :=
  let plain := has_flag flags RDB_LOAD_PLAIN in
  let sds := has_flag flags RDB_LOAD_SDS in
  let encode := has_flag flags RDB_LOAD_ENC in
  val ← (if enctype =? RDB_ENC_INT8 then
           enc ← read_raw 1; e0 ← byte enc 0; mret (swrap 8 e0)
         else if enctype =? RDB_ENC_INT16 then
           enc ← read_raw 2; e0 ← byte enc 0; e1 ← byte enc 1; mret (swrap 16 (Z.lor e0 (Z.shiftl e1 8)))
         else if enctype =? RDB_ENC_INT32 then
           enc ← read_raw 4; e0 ← byte enc 0; e1 ← byte enc 1; e2 ← byte enc 2; e3 ← byte enc 3;
           mret (swrap 32 (Z.lor (Z.lor (Z.lor e0 (Z.shiftl e1 8)) (Z.shiftl e2 16)) (Z.shiftl e3 24)))
         else fail Corrupt);
  if plain || sds then
    s ← run (int_text LONG_STR_SIZE val); mret (if plain then LPlain s else LSds s)
  else if encode then mret (LObj (IntObj val))
  else
    s ← run ('(len, buf) ← sdsll2str (zmalloc SDS_LLSTR_SIZE) val; bslice buf 0 len);
    mret (LObj (StrObj s)).

(** [sdstrynewlen(SDS_NOINIT,initlen)], that is [_sdsnewlen] with [trymalloc]:
    whether the result is not NULL. *)
Definition sdstrynewlen (initlen : Z) : loader bool :=
  let type := sdsReqType initlen in
  let type := if (type =? SDS_TYPE_5) && (initlen =? 0) then SDS_TYPE_8 else type in
  let hdrlen := sdsHdrSize type in
  if negb (uwrap 64 (initlen + hdrlen + 1) >? initlen) then fail Aborted
  else mret (try_alloc (hdrlen + initlen + 1)).

(** The result of [lzf_decompress] as a number, and the target. *)
Definition rdbLoadLzfStringObject (flags : Z) : loader loaded :=
  let plain := has_flag flags RDB_LOAD_PLAIN in
  let sds := has_flag flags RDB_LOAD_SDS in
  '(_, clen) ← rdbLoadLen;
  '(_, len) ← rdbLoadLen;
  if negb (try_alloc clen) then fail ReadError
  else
    target ← (if plain then mret (try_alloc len) else sdstrynewlen len);
    if negb target then fail ReadError
    else
    let val := zmalloc len in
    c ← read_raw clen;
    r ← run (lzf_decompress c (uwrap 32 clen) val (uwrap 32 len));
    let '(n, val) := match r with LzfDone n o => (n, o) | LzfFail _ => (0, val) end in
    if negb (n =? len) then fail Corrupt
    else mret (if plain then LPlain val else if sds then LSds val else LObj (StrObj val)).

(** [tryCreateStringObject] and [tryCreateRawStringObject]: a short string is
    embedded in the object, which [zmalloc] allocates. *)
Definition tryCreateStringObject (len : Z) : loader bool :=
  if len <=? OBJ_ENCODING_EMBSTR_SIZE_LIMIT then mret true else sdstrynewlen len.
Definition tryCreateRawStringObject (len : Z) : loader bool := sdstrynewlen len.

Definition rdbGenericLoadStringObject (flags : Z) : loader loaded :=
  let encode := has_flag flags RDB_LOAD_ENC in
  let plain := has_flag flags RDB_LOAD_PLAIN in
  let sds := has_flag flags RDB_LOAD_SDS in
  '(isencoded, len) ← rdbLoadLen;
  if isencoded : bool then
    if (len =? RDB_ENC_INT8) || (len =? RDB_ENC_INT16) || (len =? RDB_ENC_INT32) then rdbLoadIntegerObject len flags
    else if len =? RDB_ENC_LZF then rdbLoadLzfStringObject flags
    else fail Corrupt
  else
    buf ← (if plain then mret (try_alloc len) else if sds then sdstrynewlen len
           else if encode then tryCreateStringObject len else tryCreateRawStringObject len);
    if negb buf then fail ReadError
    else
    s ← (if negb (len =? 0) then read_raw len else mret []);
    mret (if plain then LPlain s else if sds then LSds s else LObj (StrObj s)).

Definition rdbLoadStringObject : loader loaded := rdbGenericLoadStringObject RDB_LOAD_NONE.
Definition rdbLoadEncodedStringObject : loader loaded := rdbGenericLoadStringObject RDB_LOAD_ENC.
End rdb.
