(* ===== verification/RdbSpec.v ===== *)
(** The RDB encodings of [Rdb.v]: what is saved is loaded back, through any
    stream and in any chunks; loading returns on every input.

    [saves f s] says that [f] writes exactly [s] (or reports a write error), and
    [loads f s a] that [f] reads exactly [s] and returns [a]. Both keep the
    checksum of the stream, and both compose. *)
From S2P Require Import Prelude Endian Util Crc CrcSpec Wire Sds SdsSpec SdsOps SdsText Lzf LzfSpec Rio Rdb.
Open Scope Z_scope.

Section combinators.
Context `{HH : Host} `{PL : Placement} {W : Type} `{BE : !Backend W} `{BO : !BackendOk W}.

Definition saves (f : saver (W := W)) (s : bytes) : Prop :=
  f None = Some (zlen s, None) /\
  forall r, writable r -> exists n r', f (Some r) = Some (n, Some r') /\
    ((n = zlen s /\ wrote r r' s) \/ (n = -1 /\ rioGetWriteError r' = true)).

Definition loads {A} (f : loader (W := W) A) (s : bytes) (a : A) : Prop :=
  forall r rest, readable r -> pending (io r) = s ++ rest ->
    exists r', f r = Some (Loaded a, r') /\ consumed r r' s /\ pending (io r') = rest.

(** [f] returns on every stream, with a value that satisfies [P] if any. *)
Definition returns {A} (P : A -> Prop) (f : loader (W := W) A) : Prop :=
  forall r, readable r -> exists o r', f r = Some (o, r') /\ o <> Aborted /\ forall a, o = Loaded a -> P a /\ readable r'.

(** ** Saving *)

Lemma saves_raw s : Forall byte_ok s -> saves (rdbWriteRaw s) s.
Proof.
  intros Hs. split; [done|]. intros r Hr. destruct (rioWrite_spec r s Hr Hs) as (ok & r' & E & H).
  cbn. rewrite E. cbn. destruct ok; eauto 10.
Qed.

Lemma saves_and_then f g a b : saves f a -> saves g b -> saves (and_then f g) (a ++ b).
Proof.
  intros [Fn Fs] [Gn Gs]. unfold and_then. split.
  - rewrite Fn. cbn. if_false. rewrite Gn. cbn. if_false. do 2 f_equal. rewrite length_app. lia.
  - intros r Hr. destruct (Fs r Hr) as (n & r1 & -> & [[-> W1]|[-> E1]]); cbn [mbind option_bind].
    2: { eexists (-1), r1. split; [done|]. by right. }
    if_false. destruct (Gs r1 (wr_writable _ _ _ W1)) as (m & r2 & -> & [[-> W2]|[-> E2]]); cbn [mbind option_bind].
    2: { eexists (-1), r2. split; [done|]. by right. }
    if_false. eexists _, r2. split; [done|]. left. split; [rewrite length_app; lia|]. by apply wrote_app with r1.
Qed.

Lemma saves_ext f g s : (forall rdb, f rdb = g rdb) -> saves g s -> saves f s.
Proof. intros E [Hn Hs]. split; [by rewrite E|]. intros r Hr. rewrite E. auto. Qed.

(** ** Loading *)

Lemma loads_ret {A} (a : A) : loads (mret a) [] a.
Proof. intros r rest Hr Hp. exists r. split; [done|]. split; [by apply consumed_nil|done]. Qed.

Lemma loads_bind {A B} (f : loader A) (g : A -> loader B) s t a b :
  loads f s a -> loads (g a) t b -> loads (x ← f; g x) (s ++ t) b.
Proof.
  intros Hf Hg r rest Hr Hp. destruct (Hf r (t ++ rest) Hr) as (r1 & E1 & C1 & P1); [by rewrite Hp, app_assoc|].
  destruct (Hg r1 rest (co_readable _ _ _ C1) P1) as (r2 & E2 & C2 & P2). exists r2. split_and!; [|by apply consumed_app with r1|done].
  unfold mbind, loader_bind. rewrite E1. cbn. exact E2.
Qed.

(** The last step reads nothing. *)
Lemma loads_then {A B} (f : loader A) (g : A -> loader B) s a b :
  loads f s a -> loads (g a) [] b -> loads (x ← f; g x) s b.
Proof. intros Hf Hg. rewrite <- (app_nil_r s). by apply loads_bind with a. Qed.

Lemma loads_bind_run {A B} (o : option A) (g : A -> loader B) s a b :
  o = Some a -> loads (g a) s b -> loads (x ← run o; g x) s b.
Proof. intros -> Hg. intros r rest Hr Hp. by apply Hg. Qed.

Lemma loads_read s n : n = zlen s -> loads (read_raw n) s s.
Proof.
  intros ->. intros r rest Hr Hp. destruct (rioRead_exact r s rest Hr Hp) as (r' & E & C & P).
  exists r'. unfold read_raw. by rewrite E.
Qed.

Lemma returns_ret {A} (P : A -> Prop) a : P a -> returns P (mret a).
Proof. intros Ha r Hr. eexists _, r. split; [done|]. split; [done|]. by intros ? [= <-]. Qed.

Lemma returns_fail {A} (P : A -> Prop) o : (forall a, o <> Loaded a) -> o <> Aborted -> returns P (fail o).
Proof. intros Ho Hn r Hr. eexists _, r. split; [done|]. split; [done|]. intros a ->. by destruct (Ho a). Qed.

Lemma returns_bind {A B} (P : A -> Prop) (Q : B -> Prop) (f : loader A) (g : A -> loader B) :
  returns P f -> (forall a, P a -> returns Q (g a)) -> returns Q (x ← f; g x).
Proof.
  intros Hf Hg r Hr. destruct (Hf r Hr) as (o & r1 & E1 & Hn & H1). unfold mbind, loader_bind. rewrite E1. cbn.
  destruct o as [a| | |]; [|eexists _, _; split; [done|]; done..|done]. destruct (H1 a eq_refl) as [Ha Hr1]. by apply Hg.
Qed.

Lemma returns_run {A B} (P : A -> Prop) (Q : B -> Prop) (o : option A) (g : A -> loader B) :
  (exists a, o = Some a /\ P a) -> (forall a, P a -> returns Q (g a)) -> returns Q (x ← run o; g x).
Proof. intros (a & -> & Ha) Hg. by apply Hg. Qed.

Lemma returns_read n : 0 <= n -> returns (fun s => zlen s = n /\ Forall byte_ok s) (read_raw n).
Proof.
  intros Hn r Hr. destruct (rioRead_spec r n Hr Hn) as (got & r' & E & H). unfold read_raw. rewrite E. cbn.
  destruct got as [s|]; eexists _, _; (split; [reflexivity|]); (split; [done|]); [|done]. intros a [= <-]. destruct H as [Hl Hc].
  pose proof (pending_ok (io r)) as Hp. rewrite (co_pending _ _ _ Hc) in Hp. split; [split; [done|]|apply Hc].
  destruct Hr as (_ & _ & _ & Hsound). specialize (Hp Hsound). by apply Forall_app in Hp as [Hp _].
Qed.

(** ** Lengths *)

Definition len_code (len : Z) : bytes :=
  if len <? 64 then [len]
  else if len <? 16384 then [64 + len / 256; len mod 256]
  else if len <? 2 ^ 32 then 128 :: be_bytes 4 len
  else 129 :: be_bytes 8 len.

Lemma be_bytes_ok n v : Forall byte_ok (be_bytes n v).
Proof. apply Forall_reverse, le_bytes_ok. Qed.

Lemma host_bytes_swap n v : big_endian = false -> host_bytes n (byteswap n v) = be_bytes n v.
Proof.
  intros E. unfold host_bytes. rewrite E. unfold byteswap. rewrite <- (length_be_bytes n v) at 1.
  apply le_bytes_val, be_bytes_ok.
Qed.

Lemma be_bytes_mod n v : be_bytes n (v mod 2 ^ (8 * Z.of_nat n)) = be_bytes n v.
Proof. unfold be_bytes. f_equal. apply le_bytes_cong. apply Z.mod_mod. lia. Qed.

Lemma htonl_bytes v : host_bytes 4 (htonl v) = be_bytes 4 v.
Proof.
  unfold htonl. destruct big_endian eqn:E; [|by apply host_bytes_swap].
  unfold host_bytes. rewrite E. apply (be_bytes_mod 4).
Qed.

Lemma htonu64_bytes v : exists v', htonu64 v = Some v' /\ host_bytes 8 v' = be_bytes 8 v.
Proof.
  unfold htonu64. destruct big_endian eqn:E.
  - exists v. split; [done|]. unfold host_bytes. by rewrite E.
  - exists (byteswap 8 v). split; [apply intrev64_swap|]. by apply host_bytes_swap.
Qed.

Lemma ntohl_bytes v : ntohl (host_val (be_bytes 4 v)) = v mod 2 ^ 32.
Proof.
  unfold ntohl, htonl, host_val. destruct big_endian.
  - rewrite be_val_bytes. apply Z.mod_mod. lia.
  - change (le_val (be_bytes 4 v)) with (byteswap 4 v). apply byteswap_involutive.
Qed.

Lemma ntohu64_bytes v : ntohu64 (host_val (be_bytes 8 v)) = Some (v mod 2 ^ 64).
Proof.
  unfold ntohu64, host_val. destruct big_endian.
  - by rewrite be_val_bytes.
  - rewrite intrev64_swap. change (le_val (be_bytes 8 v)) with (byteswap 8 v). f_equal. apply byteswap_involutive.
Qed.

Lemma land_low x n : 0 <= n -> Z.land x (2 ^ n - 1) = x mod 2 ^ n.
Proof. intros Hn. rewrite <- Z.land_ones by done. rewrite Z.ones_equiv. done. Qed.

Lemma lor_shift n a b : 0 <= n -> in_u n a -> Z.lor a (Z.shiftl b n) = b * 2 ^ n + a.
Proof.
  intros Hn Ha. rewrite Z.add_comm, <- Z.shiftl_mul_pow2 by done.
  assert (E : Z.land a (Z.shiftl b n) = 0).
  { apply Z.bits_inj'. intros i Hi. rewrite Z.land_spec, Z.bits_0. destruct (Z.lt_ge_cases i n).
    - rewrite (Z.shiftl_spec_low b) by lia. apply andb_false_r.
    - by rewrite (in_u_high n a). }
  by rewrite Z.add_nocarry_lxor, Z.lxor_lor.
Qed.

Lemma lor_64 a : 0 <= a < 64 -> Z.lor a 64 = 64 + a.
Proof. intros Ha. change 64 with (Z.shiftl 1 6) at 1. rewrite lor_shift by (done || lia). lia. Qed.

Lemma saves_len len : 0 <= len < 2 ^ 64 -> saves (rdbSaveLen len) (len_code len).
Proof.
  intros Hl. unfold rdbSaveLen, len_code. change (Z.shiftl 1 6) with 64. change (Z.shiftl 1 14) with 16384.
  destruct (Z.ltb_spec len 64).
  { change (Z.shiftl RDB_6BITLEN 6) with 0. rewrite Z.lor_0_r. change 255 with (2 ^ 8 - 1).
    rewrite land_low, Z.mod_small by lia. apply saves_raw. repeat constructor; lia. }
  destruct (Z.ltb_spec len 16384).
  { change (Z.shiftl RDB_14BITLEN 6) with 64. change 255 with (2 ^ 8 - 1). rewrite !land_low by lia.
    rewrite Z.shiftr_div_pow2 by lia. change (2 ^ 8) with 256.
    assert (0 <= len / 256 < 64) by (Z.to_euclidean_division_equations; lia).
    rewrite (Z.mod_small (len / 256)), lor_64 by lia. apply saves_raw. pose proof (Z.mod_pos_bound len 256).
    repeat constructor; lia. }
  destruct (Z.leb_spec len (2 ^ 32 - 1)), (Z.ltb_spec len (2 ^ 32)); try lia.
  - rewrite htonl_bytes. apply (saves_and_then _ _ [128]); apply saves_raw; [by repeat constructor|apply be_bytes_ok].
  - apply (saves_and_then _ _ [129]); [apply saves_raw; by repeat constructor|].
    destruct (htonu64_bytes len) as (v & E & Ev). apply saves_ext with (rdbWriteRaw (host_bytes 8 v)).
    + intros rdb. by rewrite E.
    + rewrite Ev. apply saves_raw, be_bytes_ok.
Qed.

Lemma loads_byte {A} (b : Z) (g : Z -> loader (W := W) A) s a : loads (g b) s a -> loads (x ← read_raw 1; y ← byte x 0; g y) (b :: s) a.
Proof.
  intros Hg. apply (loads_bind _ _ [b] s [b]); [by apply loads_read|]. by apply loads_bind_run with b.
Qed.

Lemma kind_bits b : byte_ok b -> Z.shiftr (Z.land b 0xC0) 6 = b / 64 /\ Z.land b 0x3F = b mod 64.
Proof.
  intros Hb. split; [|apply (land_low b 6); lia]. unfold byte_ok in Hb.
  rewrite Z.shiftr_land. change (Z.shiftr 0xC0 6) with (Z.ones 2). rewrite Z.land_ones, Z.shiftr_div_pow2 by lia.
  apply Z.mod_small. change (2 ^ 6) with 64. Z.to_euclidean_division_equations; lia.
Qed.

Lemma loads_lenref len : 0 <= len < 2 ^ 64 -> loads rdbLoadLenByRef (len_code len) (false, len).
Proof.
  intros Hl. unfold rdbLoadLenByRef, len_code. destruct (Z.ltb_spec len 64).
  { apply loads_byte. destruct (kind_bits len) as [-> ->]; [unfold byte_ok; lia|]. rewrite Z.div_small, Z.mod_small by lia. apply loads_ret. }
  destruct (Z.ltb_spec len 16384).
  { apply loads_byte. assert (Hd : 0 <= len / 256 < 64) by (Z.to_euclidean_division_equations; lia).
    destruct (kind_bits (64 + len / 256)) as [-> ->]; [unfold byte_ok; lia|].
    replace ((64 + len / 256) / 64) with 1 by (Z.to_euclidean_division_equations; lia).
    replace ((64 + len / 256) mod 64) with (len / 256) by (Z.to_euclidean_division_equations; lia).
    change (1 =? RDB_ENCVAL) with false. change (1 =? RDB_6BITLEN) with false. change (1 =? RDB_14BITLEN) with true. cbn iota.
    apply loads_byte. pose proof (Z.mod_pos_bound len 256). rewrite lor_bytes by (unfold byte_ok; lia).
    replace (len / 256 * 256 + len mod 256) with len by (Z.to_euclidean_division_equations; lia). apply loads_ret. }
  destruct (Z.ltb_spec len (2 ^ 32)); apply loads_byte;
    [change (Z.shiftr (Z.land 128 0xC0) 6) with 2|change (Z.shiftr (Z.land 129 0xC0) 6) with 2];
    change (2 =? RDB_ENCVAL) with false; change (2 =? RDB_6BITLEN) with false; change (2 =? RDB_14BITLEN) with false;
    [change (128 =? RDB_32BITLEN) with true|change (129 =? RDB_32BITLEN) with false; change (129 =? RDB_64BITLEN) with true];
    cbv iota; (eapply loads_then; [by apply loads_read; rewrite length_be_bytes|]); cbn beta.
  - rewrite ntohl_bytes, Z.mod_small by lia. apply loads_ret.
  - apply loads_bind_run with len; [|apply loads_ret]. rewrite ntohu64_bytes. f_equal. by apply Z.mod_small.
Qed.

Lemma loads_len len : 0 <= len < ULLONG_MAX -> loads rdbLoadLen (len_code len) (false, len).
Proof.
  unfold ULLONG_MAX. intros Hl. unfold rdbLoadLen. eapply loads_then; [apply loads_lenref; lia|]. cbn beta iota.
  replace (len =? RDB_LENERR) with false by (symmetry; apply Z.eqb_neq; unfold RDB_LENERR, ULLONG_MAX; lia). apply loads_ret.
Qed.

(** The header of an encoded string. *)
Lemma loads_enc e : 0 <= e < 64 -> loads rdbLoadLen [192 + e] (true, e).
Proof.
  intros He. unfold rdbLoadLen. eapply loads_then with (a := (true, e)).
  - unfold rdbLoadLenByRef. apply loads_byte. destruct (kind_bits (192 + e)) as [-> ->]; [unfold byte_ok; lia|].
    replace ((192 + e) / 64) with 3 by (Z.to_euclidean_division_equations; lia).
    replace ((192 + e) mod 64) with e by (Z.to_euclidean_division_equations; lia). apply loads_ret.
  - cbn beta iota. replace (e =? RDB_LENERR) with false by (symmetry; apply Z.eqb_neq; unfold RDB_LENERR, ULLONG_MAX; lia). apply loads_ret.
Qed.
End combinators.

(** ** Strings *)

Definition content (l : loaded) : bytes := match l with LPlain s | LSds s => s | LObj o => text o end.

Lemma decimal_unique n v : canonical n v -> decimal v = n.
Proof.
  intros (Hv & d & Hd & ->). destruct (decimal_canon v Hv) as (d' & Hd' & ->). by rewrite (ndigits_unique _ _ _ Hd Hd').
Qed.

Lemma decimal_byte v : in_s 64 v -> Forall byte_ok (decimal v) /\ (0 ∉ decimal v).
Proof.
  intros Hv. destruct (decimal_canon v Hv) as (d & Hd & ->). split; [apply canon_bytes|].
  unfold canon. assert (Hn : forall w, 0 ∉ dec d w).
  { intros w Hin. pose proof (dec_isdig d w) as Hf. rewrite Forall_forall in Hf. specialize (Hf 0 Hin). unfold isdig in Hf. lia. }
  destruct (v <? 0); [|apply Hn]. apply not_elem_of_cons. split; [lia|apply Hn].
Qed.

Lemma lor_bytes4 a b c d : byte_ok a -> byte_ok b -> byte_ok c -> byte_ok d ->
  Z.lor (Z.lor (Z.lor a (Z.shiftl b 8)) (Z.shiftl c 16)) (Z.shiftl d 24) = a + 256 * b + 65536 * c + 16777216 * d.
Proof.
  unfold byte_ok. intros. rewrite (lor_shift 8), (lor_shift 16), (lor_shift 24) by (unfold in_u; lia). lia.
Qed.

Lemma land255_mod x : Z.land x 255 = x mod 256.
Proof. apply (land_low x 8). lia. Qed.

Lemma mod256_byte x : byte_ok (x mod 256).
Proof. apply Z.mod_pos_bound. lia. Qed.

Lemma swrap_of_mod w v : 1 <= w -> in_s w v -> swrap w (v mod 2 ^ w) = v.
Proof. intros Hw Hv. by rewrite swrap_mod, swrap_small. Qed.

Section strings.
Context `{HH : Host} `{PL : Placement} {W : Type} `{BE : !Backend W} `{BO : !BackendOk W}.
Context `{AA : Alloc} `{TA : TryAlloc} `{SJ : StackJunk}.

(** The integer that the encoded bytes stand for. *)
Lemma encode_integer_code v : zlen (rdbEncodeInteger v) > 0 ->
  in_s 32 v /\ Forall byte_ok (rdbEncodeInteger v) /\
  ((in_s 8 v /\ rdbEncodeInteger v = [192; v mod 256]) \/
   (in_s 16 v /\ rdbEncodeInteger v = [193; v mod 256; (v / 256) mod 256]) \/
   rdbEncodeInteger v = [194; v mod 256; (v / 256) mod 256; (v / 65536) mod 256; (v / 16777216) mod 256]).
Proof.
  unfold rdbEncodeInteger. change (Z.shiftl 1 7) with 128. change (Z.shiftl 1 15) with 32768. change (Z.shiftl 1 31) with 2147483648.
  rewrite !land255_mod, !Z.shiftr_div_pow2 by lia.
  change (Z.lor (Z.shiftl RDB_ENCVAL 6) RDB_ENC_INT8) with 192. change (Z.lor (Z.shiftl RDB_ENCVAL 6) RDB_ENC_INT16) with 193.
  change (Z.lor (Z.shiftl RDB_ENCVAL 6) RDB_ENC_INT32) with 194.
  change (2 ^ 8) with 256. change (2 ^ 16) with 65536. change (2 ^ 24) with 16777216. rewrite !Z.geb_leb.
  assert (B : forall x, byte_ok (x mod 256)) by (intros; apply mod256_byte).
  repeat case_if_lia; cbn [length]; intros Hl; try lia; unfold in_s;
    (split; [cbn; lia|]; split; [repeat constructor; try apply B; unfold byte_ok; lia|]); [left|right; left|right; right]; try done;
    (split; [cbn; lia|done]).
Qed.

(** What is returned for the integer [v]. *)
Lemma loads_int_result flags v : in_s 32 v ->
  exists l, content l = decimal v /\ forall f s, loads (W := W) f s v ->
  loads (val ← f;
    if has_flag flags RDB_LOAD_PLAIN || has_flag flags RDB_LOAD_SDS then
      s ← run (int_text LONG_STR_SIZE val); mret (if has_flag flags RDB_LOAD_PLAIN then LPlain s else LSds s)
    else if has_flag flags RDB_LOAD_ENC then mret (LObj (IntObj val))
    else
      s ← run ('(len, buf) ← sdsll2str (zmalloc SDS_LLSTR_SIZE) val; bslice buf 0 len);
      mret (LObj (StrObj s))) s l.
Proof.
  intros Hv. assert (Hv64 : in_s 64 v) by (unfold in_s in *; cbn in *; lia).
  destruct (has_flag flags RDB_LOAD_PLAIN || has_flag flags RDB_LOAD_SDS).
  { eexists. split; [|intros f s Hf; eapply loads_then; [done|]; cbn beta; eapply loads_bind_run; [by apply int_text_ok|apply loads_ret]].
    by destruct (has_flag flags RDB_LOAD_PLAIN). }
  destruct (has_flag flags RDB_LOAD_ENC).
  { exists (LObj (IntObj v)). split; [done|]. intros f s Hf. eapply loads_then; [done|]. apply loads_ret. }
  destruct (sdsll2str_ok (zmalloc SDS_LLSTR_SIZE) v Hv64) as (n & rest & E & Hn).
  { unfold LLONG_MIN, in_s in *. cbn in *. lia. }
  { unfold zmalloc. rewrite zlen_zrealloc; unfold SDS_LLSTR_SIZE; lia. }
  exists (LObj (StrObj n)). split; [by rewrite (decimal_unique n v Hn)|]. intros f s Hf. eapply loads_then; [done|]. cbn beta.
  eapply loads_bind_run; [|apply loads_ret]. rewrite E. cbn [mbind option_bind]. by apply bslice_head.
Qed.

Lemma loads_byte_at (b : bytes) i x {A} (g : Z -> loader (W := W) A) s a :
  b.[i] = Some x -> loads (g x) s a -> loads (y ← byte b i; g y) s a.
Proof. intros E Hg. by apply loads_bind_run with x. Qed.

Lemma loads_generic_enc flags e s l : 0 <= e <= 2 -> loads (rdbLoadIntegerObject (W := W) e flags) s l ->
  loads (rdbGenericLoadStringObject flags) ((192 + e) :: s) l.
Proof.
  intros He Hl. unfold rdbGenericLoadStringObject. cbv zeta. eapply (loads_bind _ _ [192 + e]); [apply loads_enc; lia|].
  cbn beta iota. replace (_ || _ || (e =? RDB_ENC_INT32)) with true; [done|].
  unfold RDB_ENC_INT8, RDB_ENC_INT16, RDB_ENC_INT32. symmetry. lia.
Qed.

Lemma loads_integer flags v : zlen (rdbEncodeInteger v) > 0 ->
  exists l, loads (rdbGenericLoadStringObject (W := W) flags) (rdbEncodeInteger v) l /\ content l = decimal v.
Proof.
  intros Hz. destruct (encode_integer_code v Hz) as (Hv & _ & Hc). destruct (loads_int_result flags v Hv) as (l & Hl & L).
  exists l. split; [|done]. clear Hz Hl.
  assert (Hv' : -2147483648 <= v < 2147483648) by (unfold in_s in Hv; cbn in Hv; lia).
  destruct Hc as [[H8 ->]|[[H16 ->]| ->]].
  - apply (loads_generic_enc flags 0); [lia|]. apply L. unfold rdbLoadIntegerObject. apply loads_byte.
    rewrite (swrap_of_mod 8) by (done || lia). apply loads_ret.
  - apply (loads_generic_enc flags 1); [lia|]. apply L.
    eapply (loads_then _ _ _ [_; _]); [by apply loads_read|]. cbn beta.
    apply (loads_byte_at _ _ (v mod 256)); [done|]. apply (loads_byte_at _ _ ((v / 256) mod 256)); [done|].
    rewrite (lor_shift 8) by (lia || apply mod256_byte).
    replace ((v / 256) mod 256 * 2 ^ 8 + v mod 256) with (v mod 2 ^ 16) by (Z.to_euclidean_division_equations; lia).
    rewrite swrap_of_mod by (done || lia). apply loads_ret.
  - apply (loads_generic_enc flags 2); [lia|]. apply L.
    eapply (loads_then _ _ _ [_; _; _; _]); [by apply loads_read|]. cbn beta.
    apply (loads_byte_at _ _ (v mod 256)); [done|]. apply (loads_byte_at _ _ ((v / 256) mod 256)); [done|].
    apply (loads_byte_at _ _ ((v / 65536) mod 256)); [done|]. apply (loads_byte_at _ _ ((v / 16777216) mod 256)); [done|].
    rewrite lor_bytes4 by apply mod256_byte.
    replace (_ + _ + _ + _) with (v mod 2 ^ 32) by (Z.to_euclidean_division_equations; lia).
    rewrite swrap_of_mod by (done || lia). apply loads_ret.
Qed.

Definition shape (flags : Z) (s : bytes) : loaded :=
  if has_flag flags RDB_LOAD_PLAIN then LPlain s else if has_flag flags RDB_LOAD_SDS then LSds s else LObj (StrObj s).

Lemma content_shape flags s : content (shape flags s) = s.
Proof. unfold shape. by repeat case_if_lia. Qed.

(** The size of the header of an sds is at most 17. *)
Lemma hdr_size_range len : 1 <= sdsHdrSize (if (sdsReqType len =? SDS_TYPE_5) && (len =? 0) then SDS_TYPE_8 else sdsReqType len) <= 17.
Proof. unfold sdsReqType. repeat (match goal with |- context [if ?c then _ else _] => destruct c end); vm_compute; split; discriminate. Qed.

Lemma loads_trynew len : 0 <= len < 2 ^ 64 - 18 -> (forall n, 0 <= n <= len + 18 -> try_alloc n = true) -> loads (W := W) (sdstrynewlen len) [] true.
Proof.
  intros Hl Ha. unfold sdstrynewlen. cbv zeta. pose proof (hdr_size_range len). set (h := sdsHdrSize _) in *.
  rewrite uwrap_small by (unfold in_u; lia). replace (_ >? len) with true by (symmetry; apply Z.gtb_lt; lia). cbn [negb].
  rewrite Ha by lia. apply loads_ret.
Qed.

Lemma loads_if {A} (b : bool) (f g : loader (W := W) A) s a : loads f s a -> loads g s a -> loads (if b then f else g) s a.
Proof. by destruct b. Qed.

Lemma loads_verbatim flags s : zlen s < 2 ^ 64 - 18 -> (forall n, 0 <= n <= zlen s + 18 -> try_alloc n = true) ->
  loads (rdbGenericLoadStringObject (W := W) flags) (len_code (zlen s) ++ s) (shape flags s).
Proof.
  intros Hl Ha. unfold rdbGenericLoadStringObject. cbv zeta. eapply loads_bind; [apply loads_len; unfold ULLONG_MAX; lia|]. cbn beta iota.
  pose proof (loads_trynew (zlen s) ltac:(lia) Ha) as Hnew. apply (loads_bind _ _ [] s true).
  { rewrite (Ha (zlen s)) by lia. unfold tryCreateStringObject, tryCreateRawStringObject. 
    repeat match goal with |- loads (if _ then _ else _) _ _ => apply loads_if end; exact Hnew || apply loads_ret. }
  cbn [negb]. eapply loads_then; [|apply loads_ret]. destruct (Z.eqb_spec (zlen s) 0) as [E|E]; cbn [negb].
  - destruct s; [|cbn in E; lia]. apply loads_ret.
  - by apply loads_read.
Qed.

Lemma len_code_ok len : 0 <= len < 2 ^ 64 -> Forall byte_ok (len_code len).
Proof.
  intros Hl. unfold len_code. repeat case_if_lia; repeat constructor; try apply be_bytes_ok; try apply mod256_byte; unfold byte_ok; try lia;
  Z.to_euclidean_division_equations; lia.
Qed.

Lemma saves_verbatim s after : Forall byte_ok s -> zlen s < 2 ^ 64 ->
  saves (and_then (rdbSaveLen (W := W) (zlen s))
    (fun rdb => if zlen s >? 0 then d ← bslice (s ++ after) 0 (zlen s); rdbWriteRaw d rdb else Some (0, rdb)))
    (len_code (zlen s) ++ s).
Proof.
  intros Hs Hl. apply saves_and_then; [apply saves_len; lia|]. destruct (Z.gtb_spec (zlen s) 0).
  - apply saves_ext with (rdbWriteRaw s); [|by apply saves_raw]. intros rdb. by rewrite bslice_head.
  - destruct s; [|cbn in *; lia]. split; [done|]. intros r Hr. exists 0, r. split; [done|]. left. split; [done|by apply wrote_nil].
Qed.

(** ** Integer encoding of strings *)

Lemma skip_space_spec s i : 0 ∈ s ->
  exists k, skip_space s i = Some (i + Z.of_nat k, drop k s) /\ (k < length s)%nat /\ 0 ∈ drop k s.
Proof.
  revert i. induction s as [|c s IH]; intros i Hin; [by apply elem_of_nil in Hin|]. cbn [skip_space].
  destruct (isspace c) eqn:E; [|exists 0%nat; cbn; split_and!; [do 2 f_equal; lia|lia|done]].
  apply elem_of_cons in Hin as [<-|Hin]; [done|]. destruct (IH (i + 1) Hin) as (k & -> & Hk & Hd).
  exists (S k). cbn. split_and!; [do 2 f_equal; lia|lia|done].
Qed.

Lemma scan_digits_spec s i acc : 0 ∈ s ->
  exists k v, scan_digits s i acc = Some (i + Z.of_nat k, v) /\ (k < length s)%nat.
Proof.
  revert i acc. induction s as [|c s IH]; intros i acc Hin; [by apply elem_of_nil in Hin|]. cbn [scan_digits].
  destruct (isdigit c) eqn:E; [|exists 0%nat, acc; cbn; split; [do 2 f_equal; lia|lia]].
  apply elem_of_cons in Hin as [<-|Hin]; [done|]. destruct (IH (i + 1) (acc * 10 + (c - 48)) Hin) as (k & v & -> & Hk).
  exists (S k), v. cbn [length]. split; [do 2 f_equal; lia|lia].
Qed.

(** [strtoll] stays in a terminated string. *)
Lemma strtoll_total s : 0 ∈ s -> exists v e, strtoll s = Some (v, e) /\ in_s 64 v /\ 0 <= e < zlen s.
Proof.
  intros H0. unfold strtoll. destruct (skip_space_spec s 0 H0) as (k & -> & Hk & Hd). cbn [mbind option_bind].
  pose proof (length_drop s k) as Hdl. destruct (drop k s) as [|c s'] eqn:E; [by apply elem_of_nil in Hd|].
  change ((c :: s').[0]) with (Some c). cbn [mbind option_bind].
  assert (Hclamp : forall x, in_s 64 (Z.max LLONG_MIN (Z.min LLONG_MAX x))) by (intros; unfold in_s, LLONG_MIN, LLONG_MAX; lia).
  assert (F : forall st t, 0 ∈ t -> 0 <= st -> st + zlen t <= zlen s -> forall neg : bool, exists v e,
    ('(e, v) ← scan_digits t st 0; if e =? st then Some (0, 0)
     else Some (Z.max LLONG_MIN (Z.min LLONG_MAX (if neg then - v else v)), e)) = Some (v, e) /\ in_s 64 v /\ 0 <= e < zlen s).
  { intros st t Ht Hst Hlen neg. destruct (scan_digits_spec t st 0 Ht) as (j & v & -> & Hj). cbn [mbind option_bind].
    destruct (_ =? st); eexists _, _; (split; [reflexivity|]); [split; [unfold in_s|]; lia|split; [apply Hclamp|lia]]. }
  cbn [length] in Hdl. destruct ((c =? 45) || (c =? 43)) eqn:Ec.
  - assert (Hin : 0 ∈ s') by (apply elem_of_cons in Hd as [<-|Hd]; [done|done]). change (drop 1 (c :: s')) with s'. apply F; [done|lia|lia].
  - apply F; [done|lia|cbn [length]; lia].
Qed.

(** A string is encoded as an integer only if it is its decimal form. *)
Lemma try_integer_spec s after : Forall byte_ok s ->
  exists enc, rdbTryIntegerEncoding (s ++ 0 :: after) (zlen s) = Some enc /\
    (enc = [] \/ exists v, enc = rdbEncodeInteger v /\ s = decimal v).
Proof.
  intros Hs. unfold rdbTryIntegerEncoding. destruct (strtoll_total (s ++ 0 :: after)) as (v & e & -> & Hv & He).
  { apply elem_of_app. right. left. }
  cbn [mbind option_bind]. destruct (bget_lt (s ++ 0 :: after) e) as [c ->]; [lia|]. cbn [mbind option_bind].
  destruct (c =? 0); cbn [negb]; [|exists []; by eauto].
  assert (E32 : zlen (zmalloc 32) = 32) by (unfold zmalloc; by rewrite zlen_zrealloc).
  destruct (ll2string_decimal (zmalloc 32) v Hv) as (post & E & _); [lia|]. rewrite E32 in E. rewrite E. cbn [mbind option_bind].
  rewrite strlen_app by by apply decimal_byte. cbn [mbind option_bind].
  destruct (Z.eqb_spec (zlen (decimal v)) (zlen s)) as [El|]; cbn [negb]; [|exists []; by eauto].
  rewrite !bslice_head by done. cbn [mbind option_bind]. case_bool_decide; [|exists []; by eauto]. exists (rdbEncodeInteger v). eauto.
Qed.

(** ** Compressed strings *)

Lemma saves_lzf (s c w : bytes) : zlen c <= zlen s < 2 ^ 64 -> Forall byte_ok c ->
  saves (rdbSaveLzfBlob (W := W) (c ++ w) (zlen c) (zlen s)) (195 :: len_code (zlen c) ++ len_code (zlen s) ++ c).
Proof.
  intros Hl Hc. unfold rdbSaveLzfBlob. apply (saves_and_then _ _ [195]); [by apply saves_raw; repeat constructor|].
  apply saves_and_then; [apply saves_len; lia|]. apply saves_and_then; [apply saves_len; lia|].
  apply saves_ext with (rdbWriteRaw c); [|by apply saves_raw]. intros rdb. by rewrite bslice_head.
Qed.

Lemma loads_lzf flags (s c : bytes) : codes c s -> zlen c <= zlen s < 2 ^ 32 -> (forall n, 0 <= n <= zlen s + 18 -> try_alloc n = true) ->
  loads (rdbGenericLoadStringObject (W := W) flags) (195 :: len_code (zlen c) ++ len_code (zlen s) ++ c) (shape flags s).
Proof.
  intros Hc Hl Ha. unfold rdbGenericLoadStringObject. cbv zeta.
  eapply (loads_bind _ _ [195]); [apply (loads_enc 3); lia|]. cbn beta iota.
  change (_ || _ || (3 =? RDB_ENC_INT32)) with false. change (3 =? RDB_ENC_LZF) with true. cbv iota.
  unfold rdbLoadLzfStringObject. cbv zeta. eapply loads_bind; [apply loads_len; unfold ULLONG_MAX; lia|]. cbn beta iota.
  eapply loads_bind; [apply loads_len; unfold ULLONG_MAX; lia|]. cbn beta iota. rewrite !Ha by lia. cbn [negb].
  apply (loads_bind _ _ [] c true); [apply loads_if; [apply loads_ret|apply loads_trynew; [lia|done]]|]. cbn [negb].
  eapply loads_then; [by apply loads_read|]. cbn beta. rewrite !(uwrap_small 32) by (unfold in_u; lia).
  assert (E : zlen (zmalloc (zlen s)) = zlen s) by (unfold zmalloc; apply zlen_zrealloc; lia).
  destruct (decompress_done c s Hc [] (zmalloc (zlen s))) as (v & Ed & Hv); [lia|].
  rewrite app_nil_r, E in Ed. rewrite length_app in Hv. destruct v; [|cbn in *; lia]. rewrite app_nil_r in Ed.
  eapply loads_bind_run; [exact Ed|]. cbn beta iota. rewrite Z.eqb_refl. cbn [negb]. apply loads_ret.
Qed.

Lemma codes_bytes c s : codes c s -> Forall byte_ok s -> Forall byte_ok c.
Proof.
  induction 1 as [|c p l Hc IH Hl|c p q off Hc IH Hq Hoff Hp Hcp]; intros Hs; [done| |];
    apply Forall_app in Hs as [Hs1 Hs2]; apply Forall_app; (split; [by apply IH|]).
  - constructor; [unfold byte_ok; lia|done].
  - unfold ref_code. assert (0 <= off / 256 < 32) by (Z.to_euclidean_division_equations; lia).
    case_if_lia; repeat constructor; try apply mod256_byte; unfold byte_ok; lia.
Qed.

(** ** Any string *)

(** The three encodings of a string. *)
Inductive string_code (s : bytes) : bytes -> Prop :=
| code_verbatim : string_code s (len_code (zlen s) ++ s)
| code_integer v : s = decimal v -> zlen (rdbEncodeInteger v) > 0 -> string_code s (rdbEncodeInteger v)
| code_lzf c : codes c s -> zlen c <= zlen s -> string_code s (195 :: len_code (zlen c) ++ len_code (zlen s) ++ c).

Lemma loads_string flags s enc : string_code s enc -> zlen s < 2 ^ 32 -> (forall n, 0 <= n <= zlen s + 18 -> try_alloc n = true) ->
  exists l, loads (rdbGenericLoadStringObject (W := W) flags) enc l /\ content l = s.
Proof.
  intros Hc Hl Ha. destruct Hc as [|v -> Hv|c Hc Hcl].
  - exists (shape flags s). split; [apply loads_verbatim; [lia|done]|apply content_shape].
  - by apply loads_integer.
  - exists (shape flags s). split; [by apply loads_lzf|apply content_shape].
Qed.

Lemma saves_lzf_string s after : Forall byte_ok s -> zlen s < 2 ^ 32 ->
  (forall rdb, rdbSaveLzfStringObject (W := W) (s ++ after) (zlen s) rdb = Some (0, rdb)) \/
  exists enc, string_code s enc /\ 0 < zlen enc /\ saves (rdbSaveLzfStringObject (W := W) (s ++ after) (zlen s)) enc.
Proof.
  intros Hs Hl. unfold rdbSaveLzfStringObject. destruct (Z.leb_spec (zlen s) 4); [by left|].
  rewrite bslice_head by done. cbn [mbind option_bind]. rewrite !(uwrap_small 32) by (unfold in_u; lia).
  destruct (lzf_compress_codes stack_htab s (zmalloc (zlen s - 4 + 1)) (zlen s - 4)) as [[-> _]|(c & w & -> & Hc & _ & Hcl)].
  { apply stack_htab_ok. }
  { done. }
  { lia. }
  { unfold zmalloc. rewrite zlen_zrealloc; lia. }
  - left. done.
  - right. exists (195 :: len_code (zlen c) ++ len_code (zlen s) ++ c). split; [apply code_lzf; [done|lia]|]. split; [cbn [length]; lia|].
    cbn [mbind option_bind]. replace (zlen c =? 0) with false by (symmetry; apply Z.eqb_neq; lia).
    apply saves_lzf; [lia|]. by apply codes_bytes with s.
Qed.

Lemma saves_raw_string compression s after : Forall byte_ok s -> zlen s < 2 ^ 32 ->
  exists enc, string_code s enc /\ saves (rdbSaveRawString (W := W) compression (s ++ 0 :: after) (zlen s)) enc.
Proof.
  intros Hs Hl. unfold rdbSaveRawString.
  assert (X : exists enc, (if zlen s <=? 11 then rdbTryIntegerEncoding (s ++ 0 :: after) (zlen s) else Some []) = Some enc /\
    (enc = [] \/ exists v, enc = rdbEncodeInteger v /\ s = decimal v)).
  { destruct (zlen s <=? 11); [by apply try_integer_spec|]. exists []. by auto. }
  destruct X as (enc & -> & Hx). cbn [mbind option_bind]. destruct (Z.gtb_spec (zlen enc) 0) as [Hp|Hp].
  { destruct Hx as [->|(v & -> & Hv)]; [cbn in Hp; lia|]. exists (rdbEncodeInteger v). split; [apply code_integer; [done|lia]|].
    apply saves_raw. apply encode_integer_code. lia. }
  pose proof (saves_verbatim s (0 :: after) Hs ltac:(lia)) as SV.
  destruct (compression && (zlen s >? 20)).
  - destruct (saves_lzf_string s (0 :: after) Hs Hl) as [E|(code & Hc & Hlen & [Sn Ss])].
    + exists (len_code (zlen s) ++ s). split; [constructor|]. eapply saves_ext; [|exact SV]. intros rdb. by rewrite E.
    + exists code. split; [done|]. split.
      * rewrite Sn. cbn [mbind option_bind]. if_false. by if_true.
      * intros r Hr. destruct (Ss r Hr) as (n & r' & -> & H). cbn [mbind option_bind]. exists n, r'. split; [|done].
        destruct H as [[-> _]|[-> _]]; [|done]. if_false. by if_true.
  - exists (len_code (zlen s) ++ s). split; [constructor|]. exact SV.
Qed.

Lemma saves_long_long v : in_s 64 v ->
  exists enc, string_code (decimal v) enc /\ saves (rdbSaveLongLongAsStringObject (W := W) v) enc.
Proof.
  intros Hv. unfold rdbSaveLongLongAsStringObject. destruct (Z.gtb_spec (zlen (rdbEncodeInteger v)) 0).
  { exists (rdbEncodeInteger v). split; [apply code_integer; [done|lia]|]. apply saves_raw. apply encode_integer_code. lia. }
  exists (len_code (zlen (decimal v)) ++ decimal v). split; [constructor|].
  assert (E32 : zlen (zmalloc 32) = 32) by (unfold zmalloc; by rewrite zlen_zrealloc).
  destruct (ll2string_decimal (zmalloc 32) v Hv) as (post & E & _); [lia|]. rewrite E32 in E. rewrite E. cbn [mbind option_bind].
  pose proof (decimal_length v Hv). if_true. apply saves_and_then; [apply saves_len; lia|].
  apply saves_ext with (rdbWriteRaw (decimal v)); [|apply saves_raw; by apply decimal_byte]. intros rdb. by rewrite bslice_head.
Qed.

Definition rdb_obj_ok (o : robj) : Prop :=
  match o with StrObj s => Forall byte_ok s /\ zlen s < 2 ^ 32 | IntObj v => in_s 64 v end.

Lemma saves_object compression o : rdb_obj_ok o ->
  exists enc, string_code (text o) enc /\ saves (rdbSaveStringObject (W := W) compression o) enc /\ zlen (text o) < 2 ^ 32.
Proof.
  destruct o as [s|v]; cbn [rdb_obj_ok text rdbSaveStringObject].
  - intros [Hs Hl]. destruct (saves_raw_string compression s [] Hs Hl) as (enc & Hc & S). by eauto.
  - intros Hv. destruct (saves_long_long v Hv) as (enc & Hc & S). exists enc. split_and!; [done..|]. pose proof (decimal_length v Hv). lia.
Qed.
End strings.

(** C11: A string object that is saved to an RDB stream (as an integer, compressed
    or verbatim, with compression on or off) is loaded back with the same
    content and the same number of bytes consumed, on a machine of any byte
    order, for any flags of the load, any chunk size and backend of the two
    streams, whatever the memory of the compressor held; and both sides
    compute the same checksum. A save that cannot write returns -1. *)
Theorem rdb_string_roundtrip
    {H1 : Host} {P1 : Placement} {W1} {B1 : Backend W1} {O1 : BackendOk W1} {A1 : Alloc} {J1 : StackJunk}
    {H2 : Host} {P2 : Placement} {W2} {B2 : Backend W2} {O2 : BackendOk W2} {A2 : Alloc} {T2 : TryAlloc}
    compression flags o :
  rdb_obj_ok o -> (forall n, 0 <= n <= zlen (text o) + 18 -> try_alloc n = true) ->
  exists enc l,
    saves (W := W1) (rdbSaveStringObject (HH := H1) (PL := P1) (AA := A1) compression o) enc /\
    loads (W := W2) (rdbGenericLoadStringObject (HH := H2) (PL := P2) (AA := A2) flags) enc l /\ content l = text o.
Proof.
  intros Ho Ha. destruct (saves_object (HH := H1) (PL := P1) (W := W1) (AA := A1) compression o Ho) as (enc & Hc & S & Hl).
  destruct (loads_string (HH := H2) (PL := P2) (W := W2) (AA := A2) flags (text o) enc Hc Hl Ha) as (l & L & E). by exists enc, l.
Qed.

(** ** Any bytes *)

Section safety.
Context `{HH : Host} `{PL : Placement} {W : Type} `{BE : !Backend W} `{BO : !BackendOk W}.
Context `{AA : Alloc} `{TA : TryAlloc}.

Lemma returns_weaken {A} (P Q : A -> Prop) (f : loader (W := W) A) : returns P f -> (forall a, P a -> Q a) -> returns Q f.
Proof.
  intros Hf H r Hr. destruct (Hf r Hr) as (o & r' & E & Hn & Ho). exists o, r'. split; [done|]. split; [done|]. intros a Ea.
  destruct (Ho a Ea). auto.
Qed.

Lemma returns_byte {A} (Q : A -> Prop) (b : bytes) i (g : Z -> loader (W := W) A) :
  0 <= i < zlen b -> Forall byte_ok b -> (forall x, byte_ok x -> returns Q (g x)) -> returns Q (y ← byte b i; g y).
Proof.
  intros Hi Hb Hg. destruct (bget_lt b i Hi) as [x E]. apply returns_run with byte_ok; [|done]. exists x.
  split; [done|]. by apply bget_byte with b i.
Qed.

(** [b ← read_raw 1; x ← byte b 0; g x] *)
Lemma returns_read_byte {A} (Q : A -> Prop) (g : Z -> loader (W := W) A) :
  (forall x, byte_ok x -> returns Q (g x)) -> returns Q (b ← read_raw 1; x ← byte b 0; g x).
Proof.
  intros Hg. eapply returns_bind; [by apply returns_read|]. intros b [Hl Hb]. apply returns_byte; [lia|done|done].
Qed.

Lemma byteswap_range n v : 0 <= byteswap n v < 2 ^ (8 * Z.of_nat n).
Proof.
  unfold byteswap. pose proof (le_val_range (be_bytes n v) (be_bytes_ok n v)) as H. by rewrite length_be_bytes in H.
Qed.

Lemma returns_len : returns (fun p => 0 <= snd p < 2 ^ 64) (rdbLoadLen (W := W)).
Proof.
  unfold rdbLoadLen. eapply returns_bind with (P := fun p => 0 <= snd p < 2 ^ 64).
  2: { intros [e len] Hp. destruct (len =? RDB_LENERR); [by apply returns_fail|by apply returns_ret]. }
  unfold rdbLoadLenByRef. apply returns_read_byte. intros b Hb. cbv zeta. destruct (kind_bits b Hb) as [-> ->].
  pose proof (Z.mod_pos_bound b 64).
  repeat (match goal with |- returns _ (if ?c then _ else _) => destruct c end); try (apply returns_ret; cbn [snd]; lia); [| | |by apply returns_fail].
  - apply returns_read_byte. intros x Hx. apply returns_ret. cbn [snd]. rewrite lor_bytes by (done || (unfold byte_ok; lia)).
    unfold byte_ok in Hx. lia.
  - eapply returns_bind; [by apply returns_read|]. intros s [Hl Hs]. apply returns_ret. cbn [snd]. unfold ntohl, htonl.
    destruct big_endian; [pose proof (uwrap_range 32 (host_val s))|pose proof (byteswap_range 4 (host_val s))]; unfold in_u in *; cbn in *; lia.
  - eapply returns_bind; [by apply returns_read|]. intros s [Hl Hs]. pose proof (host_val_range s Hs) as Hv. rewrite Hl in Hv.
    apply returns_run with (fun v => 0 <= v < 2 ^ 64); [|intros v Hv'; by apply returns_ret].
    unfold ntohu64. destruct big_endian; [by eauto|]. rewrite intrev64_swap. eexists. split; [done|]. apply (byteswap_range 8).
Qed.

Lemma returns_integer e flags : returns (fun _ => True) (rdbLoadIntegerObject (W := W) e flags).
Proof.
  unfold rdbLoadIntegerObject. cbv zeta. eapply returns_bind with (P := in_s 32).
  - repeat (match goal with |- returns _ (if ?c then _ else _) => destruct c end); [| | |by apply returns_fail].
    + apply returns_read_byte. intros x _. apply returns_ret. pose proof (swrap_range 8 x). unfold in_s in *. cbn in *. lia.
    + eapply returns_bind; [by apply returns_read|]. intros b [Hl Hb]. do 2 (apply returns_byte; [lia|done|intros ? _]).
      apply returns_ret. match goal with |- in_s _ (swrap _ ?x) => pose proof (swrap_range 16 x) end. unfold in_s in *. cbn in *. lia.
    + eapply returns_bind; [by apply returns_read|]. intros b [Hl Hb]. do 4 (apply returns_byte; [lia|done|intros ? _]).
      apply returns_ret. apply swrap_range. lia.
  - intros v Hv. assert (Hv64 : in_s 64 v) by (unfold in_s in *; cbn in *; lia).
    destruct (_ || _); [|destruct (has_flag flags RDB_LOAD_ENC); [by apply returns_ret|]].
    + apply returns_run with (fun _ => True); [|intros; by apply returns_ret]. eexists. split; [by apply int_text_ok|done].
    + apply returns_run with (fun _ => True); [|intros; by apply returns_ret].
      destruct (sdsll2str_ok (zmalloc SDS_LLSTR_SIZE) v Hv64) as (n & rest & E & Hn).
      { unfold LLONG_MIN, in_s in *. cbn in *. lia. }
      { unfold zmalloc. rewrite zlen_zrealloc; unfold SDS_LLSTR_SIZE; lia. }
      rewrite E. cbn [mbind option_bind]. rewrite bslice_head by done. by eauto.
Qed.

(** The rest of [rdbLoadLzfStringObject], once both buffers are allocated. *)
Lemma returns_decompress flags clen len : 0 <= clen < 2 ^ 64 -> 0 <= len < 2 ^ 64 ->
  returns (fun _ => True) (c ← read_raw (W := W) clen;
    r ← run (lzf_decompress c (uwrap 32 clen) (zmalloc len) (uwrap 32 len));
    let '(n, val) := match r with LzfDone n o => (n, o) | LzfFail _ => (0, zmalloc len) end in
    if negb (n =? len) then fail Corrupt
    else mret (if has_flag flags RDB_LOAD_PLAIN then LPlain val else if has_flag flags RDB_LOAD_SDS then LSds val else LObj (StrObj val))).
Proof.
  intros Hc Hl. eapply returns_bind; [apply returns_read; lia|]. intros c [Hcl Hcb].
  apply returns_run with (fun _ => True).
  - assert (E : zlen (zmalloc len) = len) by (unfold zmalloc; apply zlen_zrealloc; lia).
    assert (U : forall x, 0 <= x -> 0 <= uwrap 32 x <= x).
    { intros x Hx. unfold uwrap. pose proof (Z.mod_pos_bound x (2 ^ 32)). pose proof (Z.mod_le x (2 ^ 32)). lia. }
    destruct (decompress_loop_safe (Z.to_nat (uwrap 32 clen)) c (uwrap 32 clen) (uwrap 32 len) 0 0 (zmalloc len)) as (r & Er & _);
      [done|specialize (U clen); lia|lia|specialize (U clen); lia|specialize (U len); lia|specialize (U len); lia|].
    exists r. split; [exact Er|done].
  - intros r _. destruct (match r with LzfFail _ => _ | LzfDone _ _ => _ end) as [n v].
    destruct (negb (n =? len)); [by apply returns_fail|by apply returns_ret].
Qed.

(** The allocation of an sds aborts for the lengths that overflow. *)
Lemma trynew_cases len r : 0 <= len < 2 ^ 64 ->
  (2 ^ 64 - 18 <= len /\ sdstrynewlen (W := W) len r = Some (Aborted, r)) \/
  (len < 2 ^ 64 - 18 /\ exists b, sdstrynewlen (W := W) len r = Some (Loaded b, r)).
Proof.
  intros Hl. unfold sdstrynewlen. cbv zeta. pose proof (hdr_size_range len) as Hh. destruct (Z.lt_ge_cases len (2 ^ 64 - 18)) as [H|H].
  - right. split; [done|]. set (h := sdsHdrSize _) in *. rewrite uwrap_small by (unfold in_u; lia).
    replace (_ >? len) with true by (symmetry; apply Z.gtb_lt; lia). by eexists.
  - left. split; [done|]. assert (E : sdsReqType len = SDS_TYPE_64).
    { unfold sdsReqType. change (Z.shiftl 1 5) with 32. change (Z.shiftl 1 8) with 256. change (Z.shiftl 1 16) with 65536.
      change (Z.shiftl 1 32) with 4294967296. by rewrite !(proj2 (Z.ltb_ge len _)) by lia. }
    rewrite E. change (sdsHdrSize _) with 17. assert (Ew : uwrap 64 (len + 17 + 1) = len + 18 - 2 ^ 64).
    { unfold uwrap. symmetry. apply Z.mod_unique with 1; lia. }
    rewrite Ew. replace (_ >? len) with false by (symmetry; rewrite Z.gtb_ltb; apply Z.ltb_ge; lia). done.
Qed.

(** The stream [r] announces a string of [len] bytes that is not an integer:
    verbatim, or compressed. *)
Definition announces (r : rio W) (len : Z) : Prop :=
  (exists r1, rdbLoadLen r = Some (Loaded (false, len), r1)) \/
  (exists r1 e1 clen r2 e2 r3, rdbLoadLen r = Some (Loaded (true, RDB_ENC_LZF), r1) /\ rdbLoadLen r1 = Some (Loaded (e1, clen), r2) /\
     try_alloc clen = true /\ rdbLoadLen r2 = Some (Loaded (e2, len), r3)).

(** [f] at [r] returns, unless [C] holds: then it aborts. *)
Definition returns_unless {A} (C : Prop) (f : loader (W := W) A) (r : rio W) : Prop :=
  exists o r', f r = Some (o, r') /\ (o = Aborted <-> C).

Lemma returns_unless_false {A} (P : A -> Prop) (C : Prop) f r : returns P f -> readable r -> ~ C -> returns_unless C f r.
Proof. intros Hf Hr HC. destruct (Hf r Hr) as (o & r' & E & Hn & _). exists o, r'. split; [done|]. tauto. Qed.

Lemma returns_unless_iff {A} (C D : Prop) (f : loader A) r : (D <-> C) -> returns_unless D f r -> returns_unless C f r.
Proof. intros H (o & r' & E & Ho). exists o, r'. split; [done|]. by rewrite Ho. Qed.

(** Keep the condition folded. *)
Ltac name_condition C := assert (exists cond, cond <-> C) as [cond HC] by (by eexists); apply (returns_unless_iff _ cond _ _ HC).

(** A test of an allocation, and what comes after it. *)
Lemma alloc_step {A} (P : A -> Prop) (C : Prop) (m : loader (W := W) bool) (f : loader A) r :
  readable r -> returns P f -> ((exists b, m r = Some (Loaded b, r)) /\ ~ C) \/ (m r = Some (Aborted, r) /\ C) ->
  returns_unless C (b ← m; if negb b then fail ReadError else f) r.
Proof.
  intros Hr Hf [[[b E] HC]|[E HC]]; unfold returns_unless, mbind, loader_bind; rewrite E; cbn.
  - destruct b; cbn [negb]; [by eapply returns_unless_false|]. by exists ReadError, r.
  - by exists Aborted, r.
Qed.

Lemma lzf_returns flags r : readable r ->
  returns_unless (has_flag flags RDB_LOAD_PLAIN = false /\ exists len e1 clen r2 e2 r3, rdbLoadLen r = Some (Loaded (e1, clen), r2) /\
    try_alloc clen = true /\ rdbLoadLen r2 = Some (Loaded (e2, len), r3) /\ 2 ^ 64 - 18 <= len) (rdbLoadLzfStringObject flags) r.
Proof.
  intros Hr. unfold rdbLoadLzfStringObject. cbv zeta. destruct (returns_len r Hr) as (o1 & r2 & E1 & Hn1 & H1).
  destruct o1 as [[e1 clen]| | |]; [|unfold returns_unless, mbind, loader_bind; rewrite E1; eexists _, _; (split; [done|]);
    split; [done|intros (_ & ? & ? & ? & ? & ? & ? & ? & _); congruence]..|done].
  destruct (H1 _ eq_refl) as [Hc Hr2]. cbn [snd] in Hc. destruct (returns_len r2 Hr2) as (o2 & r3 & E2 & Hn2 & H2).
  match goal with |- returns_unless ?C _ _ => name_condition C end.
  unfold returns_unless, mbind at 1, loader_bind at 1. rewrite E1. cbn -[try_alloc rdbLoadLen sdstrynewlen]. unfold mbind at 1, loader_bind at 1. rewrite E2.
  destruct o2 as [[e2 len]| | |]; [|eexists _, _; (split; [done|]); rewrite HC; split; [done|intros (_ & ? & ? & ? & ? & ? & ? & ? & ? & ? & _); congruence]..|done].
  destruct (H2 _ eq_refl) as [Hl Hr3]. cbn [snd] in Hl. cbn -[try_alloc rdbLoadLen sdstrynewlen read_raw lzf_decompress].
  destruct (try_alloc clen) eqn:Ea; cbn [negb].
  2: { eexists _, _. split; [done|]. rewrite HC. split; [done|]. intros (_ & ? & ? & ? & ? & ? & ? & ? & ? & _). congruence. }
  assert (D : (exists len0 e1 clen r2 e2 r3, rdbLoadLen r = Some (Loaded (e1, clen), r2) /\
    try_alloc clen = true /\ rdbLoadLen r2 = Some (Loaded (e2, len0), r3) /\ 2 ^ 64 - 18 <= len0) <-> 2 ^ 64 - 18 <= len).
  { split; [|naive_solver]. intros (? & ? & ? & ? & ? & ? & ? & ? & ? & ?). congruence. }
  rewrite D in HC. apply (alloc_step (fun _ => True)); [done|by apply returns_decompress|]. rewrite HC. destruct (has_flag flags RDB_LOAD_PLAIN).
  - left. split; [by eexists|]. by intros [? _].
  - destruct (trynew_cases len r3 Hl) as [[H E]|[H E]]; [by right|left]. split; [done|lia].
Qed.

Definition load_verbatim (flags len : Z) : loader (W := W) loaded :=
  s ← (if negb (len =? 0) then read_raw len else mret []);
  mret (if has_flag flags RDB_LOAD_PLAIN then LPlain s else if has_flag flags RDB_LOAD_SDS then LSds s else LObj (StrObj s)).

Lemma returns_verbatim flags len : 0 <= len -> returns (fun _ => True) (load_verbatim flags len).
Proof.
  intros Hl. eapply returns_bind with (P := fun _ => True); [|intros; by apply returns_ret].
  destruct (negb (len =? 0)); [|by apply returns_ret]. eapply returns_weaken; [apply returns_read; lia|done].
Qed.

(** C26: Loading a string from any stream of bytes, valid or not, for any flags
    and any allocator, never reads or writes outside a buffer, and returns a
    value, a read error or a report of corruption, except in one case: the
    string is loaded as an sds or an object, and the stream announces a length
    of 2^64 - 18 or more (of a verbatim string, or of a compressed string whose
    compressed bytes could be allocated). Then, and only then, the overflow
    assertion of [_sdsnewlen] fails and the server aborts. *)
Theorem rdb_load_returns flags r : readable r ->
  exists o r', rdbGenericLoadStringObject (W := W) flags r = Some (o, r') /\
    (o = Aborted <-> has_flag flags RDB_LOAD_PLAIN = false /\ exists len, announces r len /\ 2 ^ 64 - 18 <= len).
Proof.
  intros Hr. change (returns_unless (has_flag flags RDB_LOAD_PLAIN = false /\ exists len, announces r len /\ 2 ^ 64 - 18 <= len) (rdbGenericLoadStringObject flags) r).
  unfold rdbGenericLoadStringObject. cbv zeta. destruct (returns_len r Hr) as (o1 & r1 & E1 & Hn1 & H1).
  destruct o1 as [[e len]| | |]; [|unfold returns_unless, mbind, loader_bind; rewrite E1; eexists _, _; (split; [done|]);
    split; [done|intros (_ & ? & [[? ?]|(? & ? & ? & ? & ? & ? & ? & _)] & _); congruence]..|done].
  destruct (H1 _ eq_refl) as [Hl Hr1]. cbn [snd] in Hl. match goal with |- returns_unless ?C _ _ => name_condition C end.
  unfold returns_unless, mbind at 1, loader_bind at 1. rewrite E1. cbn -[rdbLoadIntegerObject rdbLoadLzfStringObject sdstrynewlen].
  destruct e.
  - assert (D : (exists len0, announces r len0 /\ 2 ^ 64 - 18 <= len0) <-> len = RDB_ENC_LZF /\
        exists len0 e1 clen r2 e2 r3, rdbLoadLen r1 = Some (Loaded (e1, clen), r2) /\
        try_alloc clen = true /\ rdbLoadLen r2 = Some (Loaded (e2, len0), r3) /\ 2 ^ 64 - 18 <= len0).
    { split.
      - intros (n & [[? ?]|(r1' & e1 & clen & r2 & e2 & r3 & ? & ? & ? & ?)] & ?); [congruence|]. assert (r1' = r1) as -> by congruence.
        split; [congruence|]. by exists n, e1, clen, r2, e2, r3.
      - intros (-> & n & e1 & clen & r2 & e2 & r3 & ? & ? & ? & ?). exists n. split; [|done]. right. by exists r1, e1, clen, r2, e2, r3. }
    rewrite D in HC. destruct (Z.eqb_spec len RDB_ENC_LZF) as [->|Hne].
    + change (_ || _ || _) with false. cbv iota. destruct (lzf_returns flags r1 Hr1) as (o & r' & E & Ho). exists o, r'. split; [done|]. rewrite HC, Ho. tauto.
    + eapply (returns_unless_false (fun _ => True)); [|exact Hr1|naive_solver].
      destruct (_ || _); [apply returns_integer|by apply returns_fail].
  - assert (D : (exists len0, announces r len0 /\ 2 ^ 64 - 18 <= len0) <-> 2 ^ 64 - 18 <= len).
    { split; [|intros ?; exists len; split; [left; by exists r1|done]].
      intros (n & [[? ?]|(? & ? & ? & ? & ? & ? & ? & _)] & ?); congruence. }
    rewrite D in HC. apply (alloc_step (fun _ => True)); [done|apply returns_verbatim; lia|]. rewrite HC.
    destruct (has_flag flags RDB_LOAD_PLAIN); [left; split; [by eexists|by intros [? _]]|].
    assert (T : ((exists b, sdstrynewlen (W := W) len r1 = Some (Loaded b, r1)) /\ ~ (false = false /\ 2 ^ 64 - 18 <= len)) \/
      (sdstrynewlen (W := W) len r1 = Some (Aborted, r1) /\ false = false /\ 2 ^ 64 - 18 <= len)).
    { destruct (trynew_cases len r1 Hl) as [[H E]|[H E]]; [by right|left]. split; [done|lia]. }
    destruct (has_flag flags RDB_LOAD_SDS); [done|]. destruct (has_flag flags RDB_LOAD_ENC); [|done].
    unfold tryCreateStringObject. destruct (Z.leb_spec len OBJ_ENCODING_EMBSTR_SIZE_LIMIT) as [Hs|Hs]; [|done].
    left. split; [by eexists|]. unfold OBJ_ENCODING_EMBSTR_SIZE_LIMIT in Hs. lia.
Qed.
End safety.

(** ** Examples *)

Definition sample_junk : StackJunk.
Proof.
  refine {| stack_htab := fun i => Z.land (i * 7) 63 |}. intros i. change 63 with (Z.ones 6). rewrite Z.land_ones by lia.
  pose proof (Z.mod_pos_bound (i * 7) (2 ^ 6)). unfold in_u. lia.
Defined.

Definition any_alloc : TryAlloc := fun _ => true.
Definition any_place : Placement := fun b => zlen b.

(** A compressible string from a little-endian writer, to a big-endian reader. *)
Lemma rdb_string_roundtrip_witness :
  (r ← rdbSaveStringObject (HH := LittleHost) (PL := any_place) (AA := FillAlloc) (SJ := sample_junk) true (StrObj lzf_sample)
         (Some (rioInitWithBuffer [])); Some (fst r <? zlen lzf_sample)) = Some true /\
  exists enc l,
    saves (W := buffer) (rdbSaveStringObject (HH := LittleHost) (PL := any_place) (AA := FillAlloc) (SJ := sample_junk) true
      (StrObj lzf_sample)) enc /\
    loads (W := buffer) (rdbGenericLoadStringObject (HH := BigHost) (PL := any_place) (AA := FillAlloc) (TA := any_alloc) RDB_LOAD_NONE) enc l /\
    content l = text (StrObj lzf_sample).
Proof.
  split; [vm_compute; reflexivity|].
  apply (rdb_string_roundtrip (H1 := LittleHost) (P1 := any_place) (A1 := FillAlloc) (J1 := sample_junk)
           (H2 := BigHost) (P2 := any_place) (A2 := FillAlloc) (T2 := any_alloc) true RDB_LOAD_NONE (StrObj lzf_sample)).
  - split; [vm_compute; repeat constructor; discriminate|vm_compute; reflexivity].
  - reflexivity.
Defined.

(** A length of 2^64 - 2, loaded as an object. *)
Definition huge_string : bytes := [0x81; 255; 255; 255; 255; 255; 255; 255; 254].

Lemma rdb_load_returns_witness :
  exists o r', rdbGenericLoadStringObject (HH := LittleHost) (PL := any_place) (AA := FillAlloc) (TA := any_alloc) RDB_LOAD_NONE
    (rioInitWithBuffer huge_string) = Some (o, r') /\ o = Aborted.
Proof.
  destruct (rdb_load_returns (HH := LittleHost) (PL := any_place) (AA := FillAlloc) (TA := any_alloc) RDB_LOAD_NONE (rioInitWithBuffer huge_string)) as (o & r' & E & H).
  - split_and!; [reflexivity|unfold in_u; cbn; lia|cbn; lia|]. split_and!; [done|cbn; lia|cbn; lia|]. repeat constructor; done.
  - exists o, r'. split; [exact E|]. apply H. split; [reflexivity|]. exists (2 ^ 64 - 2). split; [|lia]. left. eexists. vm_compute. reflexivity.
Defined.
