(* ===== verification/Replication.v ===== *)
(** The replication backlog and partial resynchronization: [replication.c].

    The backlog is a circular buffer of the last bytes of the replication
    stream. The theorems relate it to the stream: what a replica receives after
    a partial resynchronization is exactly what it misses. *)
From S2P Require Import Prelude Util Sds Wire.
Open Scope Z_scope.

Definition CONFIG_REPL_BACKLOG_MIN_SIZE : Z := 16384.

(** * The backlog *)

Record backlog := mkBacklog {
  repl_backlog : option bytes;
  repl_backlog_size : Z;
  repl_backlog_idx : Z;
  repl_backlog_histlen : Z;
  repl_backlog_off : Z;
  master_repl_offset : Z
}.

Section backlog.
Context `{Alloc}.

Definition createReplicationBacklog (b : backlog) : option backlog :=
  match repl_backlog b with
  | Some _ => None (* assert *)
  | None =>
    off ← signed64 (master_repl_offset b + 1);
    Some (mkBacklog (Some (zmalloc (repl_backlog_size b))) (repl_backlog_size b) 0 0 off (master_repl_offset b))
  end.

Definition resizeReplicationBacklog (b : backlog) (newsize : Z) : option backlog :=
  let newsize := if newsize <? CONFIG_REPL_BACKLOG_MIN_SIZE then CONFIG_REPL_BACKLOG_MIN_SIZE else newsize in
  if repl_backlog_size b =? newsize then Some b
  else match repl_backlog b with
  | Some _ =>
    off ← signed64 (master_repl_offset b + 1);
    Some (mkBacklog (Some (zmalloc newsize)) newsize 0 0 off (master_repl_offset b))
  | None => Some (mkBacklog None newsize (repl_backlog_idx b) (repl_backlog_histlen b) (repl_backlog_off b) (master_repl_offset b))
  end.

(** [nslaves] is the number of replicas. *)
Definition freeReplicationBacklog (b : backlog) (nslaves : nat) : option backlog :=
  match nslaves with
  | O => Some (mkBacklog None (repl_backlog_size b) (repl_backlog_idx b) (repl_backlog_histlen b) (repl_backlog_off b) (master_repl_offset b))
  | S _ => None (* assert *)
  end.

(** [while(len)]: the buffer, the index and the history length, both a
    [long long] to which a [size_t] is added. *)
Fixpoint feed_loop (fuel : nat) (size : Z) (buf : bytes) (idx histlen : Z) (p : bytes) : option (bytes * Z * Z) :=
  match p with
  | [] => Some (buf, idx, histlen)
  | _ =>
    match fuel with
    | O => None
    | S fuel =>
      let thislen := uwrap 64 (size - idx) in
      let thislen := if thislen >? zlen p then zlen p else thislen in
      s ← bslice p 0 thislen;
      buf ← bwrite buf idx s;
      let idx := swrap 64 (idx + thislen) in
      let idx := if idx =? size then 0 else idx in
      feed_loop fuel size buf idx (swrap 64 (histlen + thislen)) (drop (Z.to_nat thislen) p)
    end
  end.

(** An iteration writes at least one byte. *)
Definition feedReplicationBacklog (b : backlog) (p : bytes) : option backlog :=
  let moff := swrap 64 (master_repl_offset b + zlen p) in
  buf ← repl_backlog b;
  '(buf, idx, histlen) ← feed_loop (length p) (repl_backlog_size b) buf (repl_backlog_idx b) (repl_backlog_histlen b) p;
  let histlen := if histlen >? repl_backlog_size b then repl_backlog_size b else histlen in
  first ← signed64 (moff - histlen);
  off ← signed64 (first + 1);
  Some (mkBacklog (Some buf) (repl_backlog_size b) idx histlen off moff).

(** [while(len)]: the bytes added to the reply; two iterations are enough. *)
Fixpoint reply_loop (fuel : nat) (size : Z) (buf : bytes) (j len : Z) : option bytes :=
  if len =? 0 then Some []
  else match fuel with
  | O => None
  | S fuel =>
    let thislen := if size - j <? len then size - j else len in
    s ← bslice buf j thislen;
    rest ← reply_loop fuel size buf 0 (len - thislen);
    Some (s ++ rest)
  end.

(** The bytes added to the reply and the returned length. *)
Definition addReplyReplicationBacklog (b : backlog) (offset : Z) : option (bytes * Z) :=
  if repl_backlog_histlen b =? 0 then Some ([], 0)
  else
    skip ← signed64 (offset - repl_backlog_off b);
    j ← signed64 (repl_backlog_idx b + (repl_backlog_size b - repl_backlog_histlen b));
    j ← signed64 (Z.rem j (repl_backlog_size b) + skip);
    len ← signed64 (repl_backlog_histlen b - skip);
    buf ← repl_backlog b;
    s ← reply_loop 2 (repl_backlog_size b) buf (Z.rem j (repl_backlog_size b)) len;
    Some (s, len).
End backlog.

(** * The stream behind the backlog *)

(** The last bytes of the stream are in the buffer, at their position modulo
    its size. *)
Definition ring (size : Z) (buf hist : bytes) : Prop :=
  zlen buf = size /\ forall i, 0 <= i < zlen hist -> zlen hist - size <= i -> buf.[i mod size] = hist.[i].

(** The offsets of a stream that starts at [base], and the one after its end, are
    [long long]s that did not overflow. *)
Definition offsets_ok (base : Z) (hist : bytes) : Prop := 0 <= base /\ base + zlen hist < 2 ^ 63 - 1.

(** [base] is the offset of the stream when the backlog was created, and [hist]
    the bytes fed since. *)
Record backlog_rep (b : backlog) (base : Z) (hist : bytes) : Prop := {
  br_range : offsets_ok base hist;
  br_size : 0 < repl_backlog_size b < 2 ^ 63;
  br_ring : exists buf, repl_backlog b = Some buf /\ ring (repl_backlog_size b) buf hist;
  br_idx : repl_backlog_idx b = zlen hist mod repl_backlog_size b;
  br_histlen : repl_backlog_histlen b = Z.min (repl_backlog_size b) (zlen hist);
  br_offset : master_repl_offset b = base + zlen hist;
  br_off : repl_backlog_off b = master_repl_offset b - repl_backlog_histlen b + 1
}.

Lemma signed64_ok v : - 2 ^ 63 <= v < 2 ^ 63 -> signed64 v = Some v.
Proof. intros H. unfold signed64. by replace (_ && _) with true by lia. Qed.

Lemma mod_at size q r x : 0 <= r < size -> x = q * size + r -> x mod size = r.
Proof. intros Hr ->. symmetry. apply (Z.mod_unique _ _ q); lia. Qed.

Lemma bget_lookup b i : 0 <= i -> b.[i] = b !! Z.to_nat i.
Proof. intros Hi. unfold bget. by rewrite (proj2 (Z.leb_le 0 i)) by lia. Qed.

Lemma bwrite_get b off s b' i : bwrite b off s = Some b' -> 0 <= i ->
  b'.[i] = if (off <=? i) && (i <? off + zlen s) then s.[i - off] else b.[i].
Proof.
  unfold bwrite. case_if_lia; [|done]. intros [= <-] Hi. rewrite !(bget_lookup _ i) by lia.
  destruct (Z.leb_spec off i); cbn [andb].
  - rewrite lookup_app_r by (rewrite length_take; lia). rewrite length_take. destruct (Z.ltb_spec i (off + zlen s)).
    + rewrite lookup_app_l by lia. rewrite bget_lookup by lia. f_equal. lia.
    + rewrite lookup_app_r by lia. rewrite lookup_drop. f_equal. lia.
  - rewrite lookup_app_l by (rewrite length_take; lia). apply lookup_take_lt. lia.
Qed.

(** Writing a chunk that does not cross the end of the buffer. *)
Lemma ring_write size buf hist s buf' : 0 < size -> ring size buf hist -> zlen hist mod size + zlen s <= size ->
  bwrite buf (zlen hist mod size) s = Some buf' -> ring size buf' (hist ++ s).
Proof.
  intros Hsz [Hl Hg] Hs Hw. split; [by rewrite (zlen_bwrite _ _ _ _ Hw)|]. rewrite length_app. intros i Hi Hlo.
  pose proof (Z.mod_pos_bound (zlen hist) size Hsz) as Hm. pose proof (Z.div_mod (zlen hist) size ltac:(lia)) as Hdm.
  pose proof (Z.mod_pos_bound i size Hsz) as Hmi. rewrite (bwrite_get _ _ _ _ _ Hw) by lia.
  set (r := zlen hist mod size) in *. set (q := zlen hist / size) in *. destruct (Z.lt_ge_cases i (zlen hist)) as [Hlt|Hge].
  - assert (Hout : i mod size < r \/ r + zlen s <= i mod size).
    { destruct (Z.lt_ge_cases (i - q * size) 0) as [Hneg|Hpos].
      - right. rewrite (mod_at size (q - 1) (i - q * size + size) i); lia.
      - left. rewrite (mod_at size q (i - q * size) i); lia. }
    replace (_ && _) with false by lia. rewrite Hg by lia. rewrite !bget_lookup by lia. symmetry. apply lookup_app_l. lia.
  - rewrite (mod_at size q (r + (i - zlen hist)) i) by lia. replace (_ && _) with true by lia.
    rewrite !bget_lookup by lia. rewrite lookup_app_r by lia. f_equal. lia.
Qed.

Lemma feed_loop_ok size : 0 < size < 2 ^ 63 -> forall fuel p buf hist histlen, ring size buf hist -> (length p <= fuel)%nat ->
  0 <= histlen -> histlen + zlen p < 2 ^ 63 ->
  exists buf', feed_loop fuel size buf (zlen hist mod size) histlen p = Some (buf', zlen (hist ++ p) mod size, histlen + zlen p)
    /\ ring size buf' (hist ++ p).
Proof.
  intros Hsz. induction fuel as [|fuel IH]; intros p buf hist histlen Hr Hf Hh0 Hh; (destruct p as [|c p]; [exists buf; cbn [feed_loop length]; rewrite app_nil_r, Z.add_0_r; done|]);
    [cbn in Hf; lia|]. cbn [feed_loop]. set (P := c :: p) in *.
  pose proof (Z.mod_pos_bound (zlen hist) size ltac:(lia)) as Hm. pose proof (Z.div_mod (zlen hist) size ltac:(lia)) as Hdm.
  rewrite uwrap_small by (unfold in_u; lia). set (r := zlen hist mod size) in *.
  set (n := if size - r >? zlen P then zlen P else size - r).
  assert (Hn : n = Z.min (zlen P) (size - r)) by (unfold n; destruct (Z.gtb_spec (size - r) (zlen P)); lia).
  assert (HP : 0 < zlen P) by (unfold P; cbn [length]; lia).
  destruct (bslice_exists P 0 n) as (pre & s & post & EP & Hpre & Hsl); [lia|lia|lia|]. destruct pre; [|cbn in Hpre; lia]. cbn [app] in EP.
  rewrite EP, bslice_head by done. cbn [mbind option_bind].
  destruct (Hr) as [Hl _]. assert (Hw : exists buf', bwrite buf r s = Some buf').
  { unfold bwrite. destruct ((0 <=? r) && (r + zlen s <=? zlen buf)) eqn:E; [eauto|lia]. }
  destruct Hw as (buf1 & Hw). rewrite Hw. cbn [mbind option_bind].
  pose proof (ring_write size buf hist s buf1 ltac:(lia) Hr ltac:(lia) Hw) as Hr1.
  assert (Ei : (if r + n =? size then 0 else r + n) = zlen (hist ++ s) mod size).
  { rewrite length_app. destruct (Z.eqb_spec (r + n) size).
    - symmetry. apply (mod_at size (zlen hist / size + 1)); lia.
    - symmetry. apply (mod_at size (zlen hist / size)); lia. }
  assert (Hnp : 0 <= n <= zlen P) by lia. rewrite !swrap_small by (unfold in_s; lia).
  rewrite Ei. replace (drop (Z.to_nat n) (s ++ post)) with post by (rewrite <- Hsl, Nat2Z.id, drop_app_length; done).
  apply (f_equal length) in EP. rewrite length_app in EP.
  destruct (IH post buf1 (hist ++ s) (histlen + n) Hr1) as (buf' & E & Hr'); [lia..|].
  exists buf'. rewrite <- app_assoc in E, Hr'. split; [|done]. rewrite E. do 2 f_equal. rewrite length_app. lia.
Qed.

Lemma feed_ok b base hist p : backlog_rep b base hist -> offsets_ok base (hist ++ p) -> exists b', feedReplicationBacklog b p = Some b' /\ backlog_rep b' base (hist ++ p).
Proof.
  intros [_ Hsz (buf & Eb & Hr) Hi Hh Ho Hof] Hok. pose proof Hok as [Hb0 Hb1]. rewrite length_app in Hb1. unfold feedReplicationBacklog. rewrite Eb, Hi. cbn [mbind option_bind].
  destruct (feed_loop_ok (repl_backlog_size b) Hsz (length p) p buf hist (repl_backlog_histlen b) Hr) as (buf' & -> & Hr'); [lia..|]. cbn [mbind option_bind].
  rewrite swrap_small by (unfold in_s; lia). set (h := if _ >? _ then _ else _).
  assert (Eh : h = Z.min (repl_backlog_size b) (zlen (hist ++ p))) by (unfold h; rewrite length_app; destruct (Z.gtb_spec (repl_backlog_histlen b + zlen p) (repl_backlog_size b)); lia).
  rewrite length_app in Eh. rewrite signed64_ok by lia. cbn [mbind option_bind]. rewrite signed64_ok by lia. cbn [mbind option_bind].
  eexists. split; [done|]. split; cbn [repl_backlog repl_backlog_size repl_backlog_idx repl_backlog_histlen repl_backlog_off master_repl_offset]; try done.
  - by exists buf'.
  - by rewrite length_app.
  - rewrite length_app. lia.
Qed.

(** Reading back a chunk that does not cross the end of the buffer. *)
Lemma ring_read size buf hist i n : 0 < size -> ring size buf hist -> 0 <= i -> 0 <= n -> zlen hist - size <= i -> i + n <= zlen hist ->
  i mod size + n <= size -> bslice buf (i mod size) n = Some (take (Z.to_nat n) (drop (Z.to_nat i) hist)).
Proof.
  intros Hsz [Hl Hg] Hi Hn Hlo Hhi Hb. pose proof (Z.mod_pos_bound i size Hsz) as Hm. unfold bslice. if_true. f_equal.
  apply list_eq. intros k. destruct (decide (k < Z.to_nat n)%nat) as [Hk|Hk].
  - rewrite !lookup_take_lt, !lookup_drop by lia. specialize (Hg (i + Z.of_nat k) ltac:(lia) ltac:(lia)).
    rewrite (mod_at size (i / size) (i mod size + Z.of_nat k)) in Hg by (pose proof (Z.div_mod i size); lia).
    rewrite !bget_lookup in Hg by lia. replace (Z.to_nat (i mod size) + k)%nat with (Z.to_nat (i mod size + Z.of_nat k)) by lia.
    replace (Z.to_nat i + k)%nat with (Z.to_nat (i + Z.of_nat k)) by lia. done.
  - rewrite !lookup_take_ge by lia. done.
Qed.

Lemma reply_ok b base hist offset : backlog_rep b base hist -> repl_backlog_off b <= offset <= repl_backlog_off b + repl_backlog_histlen b ->
  addReplyReplicationBacklog b offset = Some (drop (Z.to_nat (offset - 1 - base)) hist, base + zlen hist + 1 - offset).
Proof.
  intros [[Hb0 Hb1] Hsz (buf & Eb & Hr) Hi Hh Ho Hof] Hoff. unfold addReplyReplicationBacklog. destruct (Z.eqb_spec (repl_backlog_histlen b) 0) as [H0|H0].
  { rewrite drop_ge by lia. do 2 f_equal. lia. }
  rewrite (signed64_ok (offset - _)) by lia. cbn [mbind option_bind]. set (size := repl_backlog_size b) in *. set (skip := offset - repl_backlog_off b). set (s := offset - 1 - base).
  assert (Hs : s = zlen hist - repl_backlog_histlen b + skip) by (unfold s, skip; lia).
  pose proof (Z.mod_pos_bound (zlen hist) size ltac:(lia)) as Hm. pose proof (Z.div_mod (zlen hist) size ltac:(lia)) as Hdm.
  assert (Hidx : 0 <= repl_backlog_idx b + (size - repl_backlog_histlen b) <= size).
  { rewrite Hi, Hh. destruct (Z.le_gt_cases size (zlen hist)); [lia|]. rewrite Z.mod_small by lia. lia. }
  rewrite (signed64_ok (repl_backlog_idx b + _)) by lia. cbn [mbind option_bind].
  assert (Hj : 0 <= Z.rem (repl_backlog_idx b + (size - repl_backlog_histlen b)) size + skip < 2 ^ 63).
  { rewrite Z.rem_mod_nonneg by lia. rewrite Hi. destruct (Z.le_gt_cases size (zlen hist)).
    - replace (zlen hist mod size + (size - repl_backlog_histlen b)) with (zlen hist mod size) by lia. rewrite Z.mod_mod by lia.
      pose proof (Z.div_le_lower_bound (zlen hist) size 1). unfold skip. nia.
    - rewrite (Z.mod_small (zlen hist)) by lia. replace (zlen hist + (size - repl_backlog_histlen b)) with size by lia. rewrite Z.mod_same by lia. unfold skip. lia. }
  rewrite (signed64_ok (Z.rem _ _ + _)), (signed64_ok (repl_backlog_histlen b - skip)) by (unfold skip in *; lia). cbn [mbind option_bind].
  assert (Ej : Z.rem (Z.rem (repl_backlog_idx b + (size - repl_backlog_histlen b)) size + skip) size = s mod size).
  { rewrite Hi, !Z.rem_mod_nonneg by (rewrite ?Z.rem_mod_nonneg by lia; try (pose proof (Z.mod_pos_bound (zlen hist mod size + (size - repl_backlog_histlen b)) size)); unfold skip; lia).
    rewrite Zplus_mod_idemp_l. replace (zlen hist mod size + (size - repl_backlog_histlen b) + skip) with (s + (1 - zlen hist / size) * size) by lia.
    apply Z.mod_add. lia. }
  rewrite Ej, Eb. cbn [mbind option_bind]. replace (repl_backlog_histlen b - skip) with (zlen hist - s) by lia.
  pose proof (Z.mod_pos_bound s size ltac:(lia)) as Hms. pose proof (Z.div_mod s size ltac:(lia)) as Hdms.
  assert (Er : reply_loop 2 size buf (s mod size) (zlen hist - s) = Some (drop (Z.to_nat s) hist)).
  { cbn [reply_loop]. destruct (Z.eqb_spec (zlen hist - s) 0) as [He|He]; [rewrite drop_ge by lia; done|].
    destruct (Z.ltb_spec (size - s mod size) (zlen hist - s)) as [Hc|Hc].
    - rewrite (ring_read size buf hist s (size - s mod size) ltac:(lia) Hr) by lia. cbn [mbind option_bind].
      replace (zlen hist - s - (size - s mod size) =? 0) with false by lia.
      replace (size - 0 <? zlen hist - s - (size - s mod size)) with false by lia.
      set (s2 := s + (size - s mod size)). assert (E2 : s2 mod size = 0) by (unfold s2; apply (mod_at size (s / size + 1)); lia).
      replace (bslice buf 0 (zlen hist - s - (size - s mod size))) with (bslice buf (s2 mod size) (zlen hist - s2)) by (f_equal; lia).
      rewrite (ring_read size buf hist s2 (zlen hist - s2) ltac:(lia) Hr) by lia. cbn [mbind option_bind].
      replace (zlen hist - s - (size - s mod size) - (zlen hist - s - (size - s mod size)) =? 0) with true by lia. cbn [mbind option_bind].
      rewrite app_nil_r. f_equal. rewrite (take_ge (drop (Z.to_nat s2) hist)) by (rewrite length_drop; lia).
      rewrite <- (take_drop (Z.to_nat (size - s mod size)) (drop (Z.to_nat s) hist)) at 2. f_equal. rewrite drop_drop. f_equal. lia.
    - rewrite (ring_read size buf hist s (zlen hist - s) ltac:(lia) Hr) by lia. cbn [mbind option_bind].
      replace (zlen hist - s - (zlen hist - s) =? 0) with true by lia. cbn [mbind option_bind]. rewrite app_nil_r. f_equal.
      apply take_ge. rewrite length_drop. lia. }
  rewrite Er. cbn [mbind option_bind]. do 2 f_equal. unfold s. lia.
Qed.

(** * Feeding the replicas *)

(** A replica: whether it only wants the RDB file, whether it still waits for
    a BGSAVE to start, whether it is about to be closed ([CLIENT_CLOSE_ASAP]),
    whether it gets no replies ([CLIENT_REPLY_OFF] or [CLIENT_REPLY_SKIP]) or no
    more of them ([CLIENT_CLOSE_AFTER_REPLY]), and what is queued for it. *)
Record replica := mkReplica { rp_rdbonly : bool; rp_wait_bgsave_start : bool; rp_close_asap : bool; rp_mute : bool; rp_out : bytes }.

Record repl := mkRepl {
  bl : backlog;
  replid : bytes;
  replid2 : bytes;
  second_replid_offset : Z;
  masterhost : bool;
  slaveseldb : Z;
  slaves : list replica
}.

Definition set_bl (s : repl) (b : backlog) : repl :=
  mkRepl b (replid s) (replid2 s) (second_replid_offset s) (masterhost s) (slaveseldb s) (slaves s).
Definition set_slaves (s : repl) (l : list replica) : repl :=
  mkRepl (bl s) (replid s) (replid2 s) (second_replid_offset s) (masterhost s) (slaveseldb s) l.
Definition set_slaveseldb (s : repl) (db : Z) : repl :=
  mkRepl (bl s) (replid s) (replid2 s) (second_replid_offset s) (masterhost s) db (slaves s).

Definition canFeedReplicaReplBuffer (r : replica) : bool := negb (rp_rdbonly r) && negb (rp_wait_bgsave_start r).

(** Nothing is queued when [prepareClientToWrite] refuses, or the client is to be
    closed after its reply. *)
Definition addReplyProto (r : replica) (data : bytes) : replica :=
  if rp_close_asap r || rp_mute r then r
  else mkReplica (rp_rdbonly r) (rp_wait_bgsave_start r) (rp_close_asap r) (rp_mute r) (rp_out r ++ data).

(** [while((ln = listNext(&li)))]: queue the bytes for every replica that can
    be fed. *)
Definition queue (data : bytes) (l : list replica) : list replica :=
  (fun r => if canFeedReplicaReplBuffer r then addReplyProto r data else r) <$> l.

(** [*2\r\n$6\r\nSELECT\r\n$%d\r\n%s\r\n] *)
Definition select_cmd (dictid : Z) : bytes :=
  [42; 50; 13; 10; 36; 54; 13; 10; 83; 69; 76; 69; 67; 84; 13; 10; 36] ++ decimal (zlen (decimal dictid)) ++ CRLF ++ decimal dictid ++ CRLF.

Section feeding.
Context `{Alloc}.

Definition feedReplicationBacklogWithObject (b : backlog) (o : robj) : option backlog :=
  s ← match o with IntObj v => int_text LONG_STR_SIZE v | StrObj s => Some s end;
  feedReplicationBacklog b s.

(** [for (j = 0; j < argc; j++)] on the backlog. *)
Fixpoint feed_args (b : backlog) (argv : list robj) : option backlog :=
  match argv with
  | [] => Some b
  | o :: argv =>
    objlen ← stringObjectLen o;
    '(aux, len) ← header_buf (LONG_STR_SIZE + 3) 36 objlen;
    h ← bslice aux 0 (len + 3);
    b ← feedReplicationBacklog b h;
    b ← feedReplicationBacklogWithObject b o;
    crlf ← bslice aux (len + 1) 2;
    b ← feedReplicationBacklog b crlf;
    feed_args b argv
  end.

Definition feed_command (b : backlog) (argv : list robj) : option backlog :=
  '(aux, len) ← header_buf (LONG_STR_SIZE + 3) 42 (zlen argv);
  h ← bslice aux 0 (len + 3);
  b ← feedReplicationBacklog b h;
  feed_args b argv.

(** What is queued for a replica. *)
Definition reply_command (argv : list robj) : option bytes :=
  h ← addReplyArrayLen (zlen argv);
  args ← mapM addReplyBulk argv;
  Some (h ++ concat args).

Definition replicationFeedSlaves (s : repl) (dictid : Z) (argv : list robj) : option repl :=
  if masterhost s then Some s
  else match repl_backlog (bl s), slaves s with
  | None, [] => Some s
  | None, _ => None (* assert *)
  | Some _, _ =>
    s ← (if negb (slaveseldb s =? dictid) then
           b ← feedReplicationBacklogWithObject (bl s) (StrObj (select_cmd dictid));
           Some (set_slaves (set_bl s b) (queue (select_cmd dictid) (slaves s)))
         else Some s);
    let s := set_slaveseldb s dictid in
    b ← feed_command (bl s) argv;
    data ← reply_command argv;
    Some (set_slaves (set_bl s b) (queue data (slaves s)))
  end.

Definition replicationFeedSlavesFromMasterStream (s : repl) (buf : bytes) : option repl :=
  b ← match repl_backlog (bl s) with Some _ => feedReplicationBacklog (bl s) buf | None => Some (bl s) end;
  Some (set_slaves (set_bl s b) (queue buf (slaves s))).

(** * Replication IDs and partial resynchronization *)

(** [newid] is what [getRandomHexChars] gives. *)
Definition changeReplicationId (s : repl) (newid : bytes) : repl :=
  mkRepl (bl s) newid (replid2 s) (second_replid_offset s) (masterhost s) (slaveseldb s) (slaves s).

Definition clearReplicationId2 (s : repl) : repl :=
  mkRepl (bl s) (replid s) (replicate 40 48) (-1) (masterhost s) (slaveseldb s) (slaves s).

Definition shiftReplicationId (s : repl) (newid : bytes) : option repl :=
  second ← signed64 (master_repl_offset (bl s) + 1);
  Some (changeReplicationId (mkRepl (bl s) (replid s) (replid s) second (masterhost s) (slaveseldb s) (slaves s)) newid).

(** [strcasecmp(a,b) == 0]. *)
Definition strcaseeq (a b : bytes) : bool := bool_decide (tolower <$> a = tolower <$> b).

(** [strcasecmp(arg,lit) == 0]: the argument ends at its first zero byte. *)
Fixpoint c_str (b : bytes) : bytes :=
  match b with
  | [] => []
  | c :: b => if c =? 0 then [] else c :: c_str b
  end.
Definition arg_is (a : bytes) (lit : String.string) : bool := strcaseeq (c_str a) (of_string lit).

(** [C_ERR]; [C_OK] when the answer could not be written and the client is
    freed; or [C_OK] with the line written to the socket. *)
Inductive psync_answer := NeedFullResync | WriteFailed | Continue (line : bytes).

(** [id] is the argument, which ends at its first zero byte for [strcasecmp];
    [psync2] is the capability of the replica, [mute] tells that its client gets no
    replies, [write_ok] whether the line could be written. *)
Definition masterTryPartialResynchronization (s : repl) (id : bytes) (psync_offset : Z) (psync2 mute write_ok : bool) : option (repl * psync_answer) :=
  let master_replid := c_str id in
  if negb (strcaseeq master_replid (replid s)) && (negb (strcaseeq master_replid (replid2 s)) || (psync_offset >? second_replid_offset s)) then Some (s, NeedFullResync)
  else match repl_backlog (bl s) with
  | None => Some (s, NeedFullResync)
  | Some _ =>
    if psync_offset <? repl_backlog_off (bl s) then Some (s, NeedFullResync)
    else
      last ← signed64 (repl_backlog_off (bl s) + repl_backlog_histlen (bl s));
      if psync_offset >? last then Some (s, NeedFullResync)
      else
        let line := if psync2 then of_string "+CONTINUE " ++ replid s ++ CRLF else of_string "+CONTINUE" ++ CRLF in
        if negb write_ok then Some (set_slaves s (slaves s ++ [mkReplica false false true mute []]), WriteFailed)
        else
          '(data, _) ← addReplyReplicationBacklog (bl s) psync_offset;
          Some (set_slaves s (slaves s ++ [addReplyProto (mkReplica false false false mute []) data]), Continue line)
  end.
End feeding.

(** The whole stream since the offset [origin]: the backlog holds its end. *)
Definition stream_rep (b : backlog) (origin : Z) (stream : bytes) : Prop :=
  0 <= origin /\ exists prev hist, stream = prev ++ hist /\ backlog_rep b (origin + zlen prev) hist.

Lemma offsets_app origin stream p : offsets_ok origin (stream ++ p) -> offsets_ok origin stream.
Proof. unfold offsets_ok. rewrite length_app. lia. Qed.

Lemma stream_feed b origin stream p : stream_rep b origin stream -> offsets_ok origin (stream ++ p) ->
  exists b', feedReplicationBacklog b p = Some b' /\ stream_rep b' origin (stream ++ p).
Proof.
  intros (Ho & prev & hist & -> & Hb) Hok. destruct (feed_ok _ _ _ p Hb) as (b' & E & Hb').
  - unfold offsets_ok in *. rewrite !length_app in *. lia.
  - exists b'. split; [done|]. split; [done|]. exists prev, (hist ++ p). by rewrite app_assoc.
Qed.

Lemma stream_offset b origin stream : stream_rep b origin stream ->
  master_repl_offset b = origin + zlen stream /\ offsets_ok origin stream /\ exists buf, repl_backlog b = Some buf.
Proof.
  intros (Ho & prev & hist & -> & Hb). pose proof (br_range _ _ _ Hb). unfold offsets_ok in *. rewrite length_app, (br_offset _ _ _ Hb).
  split; [lia|]. split; [lia|]. destruct (br_ring _ _ _ Hb) as (buf & E & _). eauto.
Qed.

(** For every offset that a partial resynchronization accepts, exactly the
    bytes of the stream from that offset to the end are sent, wherever they are
    in the circular buffer. *)
Lemma backlog_replays b origin stream offset : stream_rep b origin stream ->
  repl_backlog_off b <= offset <= repl_backlog_off b + repl_backlog_histlen b ->
  0 <= offset - 1 - origin <= zlen stream /\
  addReplyReplicationBacklog b offset = Some (drop (Z.to_nat (offset - 1 - origin)) stream, origin + zlen stream + 1 - offset).
Proof.
  intros (_ & prev & hist & -> & Hb) Ho. rewrite (reply_ok _ _ _ _ Hb Ho). rewrite length_app. destruct Hb as [_ _ _ _ Hh Hm Hof].
  split; [lia|]. do 2 f_equal; [|lia]. rewrite drop_app_ge by lia. f_equal. lia.
Qed.

Section sync.
Context `{Alloc}.

Lemma feed_obj_ok b origin stream o : stream_rep b origin stream -> obj_ok o -> offsets_ok origin (stream ++ text o) ->
  exists b', feedReplicationBacklogWithObject b o = Some b' /\ stream_rep b' origin (stream ++ text o).
Proof.
  intros Hs Ho Hr. unfold feedReplicationBacklogWithObject. destruct o as [s|v]; cbn [mbind option_bind text]; [by apply stream_feed|].
  rewrite int_text_ok by (done || (unfold LONG_STR_SIZE; lia)). cbn [mbind option_bind]. by apply stream_feed.
Qed.

Lemma feed_args_ok argv : forall b origin stream, stream_rep b origin stream -> Forall obj_ok argv -> offsets_ok origin (stream ++ concat (bulk <$> (text <$> argv))) ->
  exists b', feed_args b argv = Some b' /\ stream_rep b' origin (stream ++ concat (bulk <$> (text <$> argv))).
Proof.
  induction argv as [|o argv IH]; intros b origin stream Hs Ho Hr; cbn [feed_args fmap list_fmap concat] in *; [exists b; by rewrite app_nil_r|].
  assert (E : stream ++ bulk (text o) ++ concat (bulk <$> (text <$> argv)) =
    (((stream ++ 36 :: decimal (zlen (text o)) ++ CRLF) ++ text o) ++ CRLF) ++ concat (bulk <$> (text <$> argv))).
  { unfold bulk at 1. cbn [app]. by rewrite <- !app_assoc; cbn [app]; rewrite <- !app_assoc. }
  rewrite E in *. clear E. pose proof (offsets_app _ _ _ Hr) as Hr3. pose proof (offsets_app _ _ _ Hr3) as Hr2. pose proof (offsets_app _ _ _ Hr2) as Hr1.
  apply Forall_cons in Ho as [Ho Hos]. destruct (text_ok o Ho) as (_ & _ & -> & Hl). cbn [mbind option_bind].
  destruct (header_ok (LONG_STR_SIZE + 3) 36 (zlen (text o)) ltac:(unfold LONG_STR_SIZE; lia) Hl) as (post & ->). cbn [mbind option_bind].
  rewrite bslice_head by (cbn [length]; rewrite length_app; cbn; lia). cbn [mbind option_bind].
  destruct (stream_feed _ _ _ (36 :: decimal (zlen (text o)) ++ CRLF) Hs Hr1) as (b1 & -> & Hs1). cbn [mbind option_bind].
  destruct (feed_obj_ok _ _ _ o Hs1 Ho Hr2) as (b2 & -> & Hs2). cbn [mbind option_bind].
  replace ((36 :: decimal (zlen (text o)) ++ CRLF) ++ post) with ((36 :: decimal (zlen (text o))) ++ CRLF ++ post) by (cbn; by rewrite <- app_assoc).
  rewrite bslice_app_at by (cbn [length]; lia || done). cbn [mbind option_bind].
  destruct (stream_feed _ _ _ CRLF Hs2 Hr3) as (b3 & -> & Hs3). cbn [mbind option_bind].
  destruct (IH b3 origin _ Hs3 Hos Hr) as (b' & -> & Hs'). by exists b'.
Qed.

Lemma feed_command_ok b origin stream argv : stream_rep b origin stream -> Forall obj_ok argv -> in_s 64 (zlen argv) -> offsets_ok origin (stream ++ encode (text <$> argv)) ->
  exists b', feed_command b argv = Some b' /\ stream_rep b' origin (stream ++ encode (text <$> argv)).
Proof.
  intros Hs Ho Hl Hr. assert (E : stream ++ encode (text <$> argv) = (stream ++ 42 :: decimal (zlen argv) ++ CRLF) ++ concat (bulk <$> (text <$> argv))).
  { unfold encode. rewrite length_fmap, <- app_assoc. cbn [app]. by rewrite <- app_assoc. }
  rewrite E in *. clear E. unfold feed_command. destruct (header_ok (LONG_STR_SIZE + 3) 42 (zlen argv) ltac:(unfold LONG_STR_SIZE; lia) Hl) as (post & ->). cbn [mbind option_bind].
  rewrite bslice_head by (cbn [length]; rewrite length_app; cbn; lia). cbn [mbind option_bind].
  destruct (stream_feed _ _ _ (42 :: decimal (zlen argv) ++ CRLF) Hs (offsets_app _ _ _ Hr)) as (b1 & -> & Hs1). cbn [mbind option_bind].
  by apply feed_args_ok.
Qed.

Lemma reply_command_ok argv : Forall obj_ok argv -> in_s 64 (zlen argv) -> reply_command argv = Some (encode (text <$> argv)).
Proof.
  intros Ho Hl. unfold reply_command, addReplyArrayLen. replace (zlen argv >=? 0) with true by lia. rewrite prefix_ok by done. cbn [mbind option_bind].
  assert (E : mapM addReplyBulk argv = Some (bulk <$> (text <$> argv))).
  { clear Hl. induction Ho as [|o argv Ho _ IH]; [done|]. cbn. rewrite addReplyBulk_ok by done. cbn. rewrite IH. done. }
  rewrite E. cbn [mbind option_bind]. f_equal. unfold encode. rewrite length_fmap. cbn. by rewrite <- app_assoc.
Qed.

Lemma select_encode db : in_s 64 db -> select_cmd db = encode [of_string "SELECT"; decimal db].
Proof. intros Hd. unfold select_cmd, encode, bulk. cbn [fmap list_fmap concat]. cbn -[decimal CRLF]. rewrite app_nil_r. done. Qed.

(** ** Replicas and the stream *)

(** What a replica has received, followed by what is queued for it, is the
    stream. *)
Definition in_sync (stream : bytes) (r : replica) (got : bytes) : Prop :=
  canFeedReplicaReplBuffer r = true -> rp_close_asap r = false -> rp_mute r = false -> got ++ rp_out r = stream.

Record synced (s : repl) (origin : Z) (stream : bytes) (gots : list bytes) : Prop := {
  sy_stream : stream_rep (bl s) origin stream;
  sy_slaves : Forall2 (in_sync stream) (slaves s) gots
}.

Inductive repl_op :=
| OpCommand (dictid : Z) (argv : list robj)
| OpProxy (buf : bytes)
| OpResize (newsize : Z)
| OpShift (newid : bytes)
| OpPsync (id : bytes) (offset : Z) (psync2 mute write_ok : bool) (got : bytes)
| OpSent (i k : nat).

(** The socket takes [k] bytes of the queue of a replica. *)
Definition sent (k : nat) (r : replica) : replica := mkReplica (rp_rdbonly r) (rp_wait_bgsave_start r) (rp_close_asap r) (rp_mute r) (drop k (rp_out r)).

Definition run_repl (s : repl) (op : repl_op) : option repl :=
  match op with
  | OpCommand dictid argv => replicationFeedSlaves s dictid argv
  | OpProxy buf => replicationFeedSlavesFromMasterStream s buf
  | OpResize newsize => b ← resizeReplicationBacklog (bl s) newsize; Some (set_bl s b)
  | OpShift newid => shiftReplicationId s newid
  | OpPsync id offset psync2 mute write_ok _ => '(s, _) ← masterTryPartialResynchronization s id offset psync2 mute write_ok; Some s
  | OpSent i k => Some (set_slaves s (alter (sent k) i (slaves s)))
  end.

(** The bytes an operation adds to the stream. *)
Definition stream_of (s : repl) (op : repl_op) : bytes :=
  match op with
  | OpCommand dictid argv =>
    if masterhost s then []
    else (if slaveseldb s =? dictid then [] else encode [of_string "SELECT"; decimal dictid]) ++ encode (text <$> argv)
  | OpProxy buf => buf
  | _ => []
  end.

(** What the replicas have received after an operation that leads to [s']. *)
Definition gots_of (s s' : repl) (gots : list bytes) (op : repl_op) : list bytes :=
  match op with
  | OpPsync _ _ _ _ _ got => if (length (slaves s) <? length (slaves s'))%nat then gots ++ [got] else gots
  | OpSent i k => match slaves s !! i with Some r => alter (fun g => g ++ take k (rp_out r)) i gots | None => gots end
  | _ => gots
  end.

(** The offsets do not overflow. A replica that names an ID has a prefix of the
    history with that ID: our stream, or a stream that is ours up to
    [second_replid_offset]. *)
Definition op_ok (s : repl) (origin : Z) (stream : bytes) (op : repl_op) : Prop :=
  offsets_ok origin (stream ++ stream_of s op) /\
  match op with
  | OpCommand dictid argv => in_s 64 dictid /\ Forall obj_ok argv /\ in_s 64 (zlen argv)
  | OpResize newsize => newsize < 2 ^ 63
  | OpPsync id offset _ _ _ got =>
    zlen got = offset - 1 - origin /\ (strcaseeq (c_str id) (replid s) = true -> got `prefix_of` stream)
    /\ (strcaseeq (c_str id) (replid s) = false -> strcaseeq (c_str id) (replid2 s) = true -> exists old, got `prefix_of` old
          /\ take (Z.to_nat (second_replid_offset s - 1 - origin)) old = take (Z.to_nat (second_replid_offset s - 1 - origin)) stream)
  | _ => True
  end.

Lemma queue_sync stream l gots data : Forall2 (in_sync stream) l gots -> Forall2 (in_sync (stream ++ data)) (queue data l) gots.
Proof.
  induction 1 as [|r g l gots Hr _ IH]; [constructor|]. constructor; [|exact IH]. unfold in_sync in *. unfold addReplyProto.
  destruct (canFeedReplicaReplBuffer r) eqn:Ec; [|by rewrite Ec]. destruct (rp_close_asap r || rp_mute r) eqn:Ea.
  - intros _ H1 H2. by rewrite H1, H2 in Ea.
  - apply orb_false_iff in Ea as [Ea Em]. cbn. intros _ _ _. by rewrite app_assoc, Hr.
Qed.

Lemma resize_ok b origin stream n : stream_rep b origin stream -> n < 2 ^ 63 ->
  exists b', resizeReplicationBacklog b n = Some b' /\ stream_rep b' origin stream.
Proof.
  intros Hs Hn. unfold resizeReplicationBacklog. set (m := if n <? CONFIG_REPL_BACKLOG_MIN_SIZE then CONFIG_REPL_BACKLOG_MIN_SIZE else n).
  assert (Hm : 0 < m < 2 ^ 63) by (unfold m, CONFIG_REPL_BACKLOG_MIN_SIZE; destruct (Z.ltb_spec n 16384); lia).
  destruct (_ =? m); [by exists b|]. destruct (stream_offset _ _ _ Hs) as (Ho & [Hr0 Hr1] & buf & ->). rewrite signed64_ok by lia. cbn [mbind option_bind].
  eexists. split; [done|]. split; [done|]. exists stream, []. rewrite app_nil_r. split; [done|].
  split; cbn [repl_backlog repl_backlog_size repl_backlog_idx repl_backlog_histlen repl_backlog_off master_repl_offset length]; try (unfold offsets_ok; cbn [length]; lia).
  - eexists. split; [done|]. split; [apply zlen_zrealloc; lia|]. cbn. lia.
  - by rewrite Z.mod_0_l by lia.
Qed.

Lemma create_ok b : repl_backlog b = None -> 0 < repl_backlog_size b < 2 ^ 63 -> offsets_ok (master_repl_offset b) [] ->
  exists b', createReplicationBacklog b = Some b' /\ stream_rep b' (master_repl_offset b) [].
Proof.
  intros Hn Hs Hr. pose proof Hr as [Hr0 Hr1]. cbn [length] in Hr1. unfold createReplicationBacklog. rewrite Hn, signed64_ok by lia. cbn [mbind option_bind].
  eexists. split; [done|]. split; [done|]. exists [], []. split; [done|].
  split; cbn [repl_backlog repl_backlog_size repl_backlog_idx repl_backlog_histlen repl_backlog_off master_repl_offset length]; try (unfold offsets_ok; cbn [length]; lia).
  - eexists. split; [done|]. split; [apply zlen_zrealloc; lia|]. cbn. lia.
  - by rewrite Z.mod_0_l by lia.
Qed.

Lemma take_of_prefix (l k : bytes) : l `prefix_of` k -> take (length l) k = l.
Proof. intros [x ->]. apply take_app_length. Qed.

Lemma proxy_sync s origin stream gots data : synced s origin stream gots -> offsets_ok origin (stream ++ data) ->
  exists s', replicationFeedSlavesFromMasterStream s data = Some s' /\ synced s' origin (stream ++ data) gots.
Proof.
  intros [Hst Hsl] Hr. unfold replicationFeedSlavesFromMasterStream. destruct (stream_offset _ _ _ Hst) as (_ & _ & buf & ->).
  destruct (stream_feed _ _ _ data Hst Hr) as (b1 & -> & Hs1). cbn [mbind option_bind]. eexists. split; [done|]. split; [done|]. by apply queue_sync.
Qed.

Lemma command_sync s origin stream gots db argv : synced s origin stream gots -> in_s 64 db -> Forall obj_ok argv -> in_s 64 (zlen argv) ->
  offsets_ok origin (stream ++ stream_of s (OpCommand db argv)) ->
  exists s', replicationFeedSlaves s db argv = Some s' /\ synced s' origin (stream ++ stream_of s (OpCommand db argv)) gots
    /\ masterhost s' = masterhost s /\ (masterhost s = false -> slaveseldb s' = db).
Proof.
  intros [Hst Hsl] Hdb Ho Hl. destruct (stream_offset _ _ _ Hst) as (Hof & _ & buf & Eb). cbn [stream_of].
  unfold replicationFeedSlaves. destruct (masterhost s) eqn:Em; [exists s; by rewrite app_nil_r|]. rewrite Eb, app_assoc. intros Hr.
  assert (Hsel : exists s1, (if negb (slaveseldb s =? db) then
      b ← feedReplicationBacklogWithObject (bl s) (StrObj (select_cmd db)); Some (set_slaves (set_bl s b) (queue (select_cmd db) (slaves s))) else Some s) = Some s1
    /\ masterhost s1 = masterhost s /\ synced s1 origin (stream ++ if slaveseldb s =? db then [] else encode [of_string "SELECT"; decimal db]) gots).
  { destruct (slaveseldb s =? db); cbn [negb]; [exists s; rewrite app_nil_r; by split|].
    unfold feedReplicationBacklogWithObject. cbn [mbind option_bind].
    rewrite select_encode in * by done. destruct (stream_feed _ _ _ (encode [of_string "SELECT"; decimal db]) Hst (offsets_app _ _ _ Hr)) as (b1 & -> & Hs1). cbn [mbind option_bind]. eexists. split; [done|]. split; [done|]. split; [done|]. by apply queue_sync. }
  destruct Hsel as (s1 & -> & Hm1 & [Hst1 Hsl1]). cbn [mbind option_bind set_slaveseldb bl slaves].
  destruct (feed_command_ok _ _ _ argv Hst1 Ho Hl Hr) as (b2 & -> & Hst2). cbn [mbind option_bind]. rewrite reply_command_ok by done. cbn [mbind option_bind].
  eexists. split; [done|]. split; [split; [done|]; by apply queue_sync|]. cbn. by rewrite Hm1, Em.
Qed.

Lemma sync_add s origin stream gots got c : synced s origin stream gots -> in_sync stream c got ->
  synced (set_slaves s (slaves s ++ [c])) origin stream
    (if (length (slaves s) <? length (slaves (set_slaves s (slaves s ++ [c]))))%nat then gots ++ [got] else gots).
Proof.
  intros [Hst Hsl] Hc. cbn [slaves set_slaves]. rewrite length_app. cbn [length]. replace (_ <? _)%nat with true by lia.
  split; [done|]. cbn. apply Forall2_app; [done|]. by constructor.
Qed.

Lemma psync_sync s origin stream gots id off p2 mute wok got : synced s origin stream gots -> op_ok s origin stream (OpPsync id off p2 mute wok got) ->
  exists s' a, masterTryPartialResynchronization s id off p2 mute wok = Some (s', a) /\ synced s' origin stream (gots_of s s' gots (OpPsync id off p2 mute wok got)).
Proof.
  intros Hsy (_ & Hlen & Hid1 & Hid2). pose proof (sy_stream _ _ _ _ Hsy) as Hst. destruct (stream_offset _ _ _ Hst) as (Hof & [Hr0 Hr1] & buf & Eb).
  unfold masterTryPartialResynchronization. rewrite Eb. cbn [gots_of].
  assert (Hsame : synced s origin stream (if (length (slaves s) <? length (slaves s))%nat then gots ++ [got] else gots)) by by rewrite Nat.ltb_irrefl.
  destruct (_ && _) eqn:Eid; [by eexists _, _|]. destruct (off <? _) eqn:Elo; [by eexists _, _|].
  assert (Hend : repl_backlog_off (bl s) + repl_backlog_histlen (bl s) = master_repl_offset (bl s) + 1).
  { destruct Hst as (_ & prev & hist & _ & Hb). rewrite (br_off _ _ _ Hb). lia. }
  rewrite signed64_ok by lia. cbn [mbind option_bind]. destruct (off >? _ + _) eqn:Ehi; [by eexists _, _|].
  destruct wok; cbn [negb]; [|eexists _, _; split; [done|]; apply sync_add; [done|]; by intros _ ?].
  destruct (backlog_replays _ _ _ off Hst ltac:(lia)) as [Hb ->]. cbn [mbind option_bind]. eexists _, _. split; [done|]. apply sync_add; [done|].
  destruct mute; [by intros _ _|]. intros _ _ _. cbn [addReplyProto rp_close_asap rp_mute orb rp_out app].
  assert (Hg : got = take (Z.to_nat (off - 1 - origin)) stream); [|by rewrite Hg, take_drop].
  destruct (strcaseeq (c_str id) (replid s)) eqn:E1; cbn [negb andb] in Eid.
  - rewrite <- (take_of_prefix got stream) by auto. f_equal. lia.
  - destruct (strcaseeq (c_str id) (replid2 s)) eqn:E2; [|done]. cbn [negb orb] in Eid. destruct (Hid2 eq_refl eq_refl) as (old & Hp & Hag).
    rewrite <- (take_of_prefix got old) by done. replace (length got) with (Z.to_nat (off - 1 - origin)) by lia.
    apply (f_equal (take (Z.to_nat (off - 1 - origin)))) in Hag. rewrite !take_take in Hag. by replace (_ `min` _)%nat with (Z.to_nat (off - 1 - origin)) in Hag by lia.
Qed.

Lemma sent_sync stream l gots i k : Forall2 (in_sync stream) l gots ->
  Forall2 (in_sync stream) (alter (sent k) i l) (match l !! i with Some r => alter (fun g => g ++ take k (rp_out r)) i gots | None => gots end).
Proof.
  intros Hsl. destruct (l !! i) as [r|] eqn:Ei.
  - revert i Ei. induction Hsl as [|r' g l gots Hr Hl IH]; intros [|i] Ei; [done|done| |].
    + injection Ei as ->. constructor; [|done]. intros Hc Ha Hm. cbn. rewrite <- app_assoc, take_drop. by apply Hr.
    + constructor; [done|]. by apply IH.
  - replace (alter (sent k) i l) with l; [done|]. symmetry. clear -Ei. revert i Ei. induction l as [|r l IH]; intros [|i] Ei; [done..|]. cbn. f_equal. by apply IH.
Qed.

(** C8: the replication stream is the same for everybody. Every operation
    (propagating a command, relaying the stream of a master, resizing the
    backlog, changing the replication ID, a PSYNC request, sending queued bytes)
    succeeds, as long as the offsets of the stream do not overflow, and afterwards
    the end of the backlog and every online replica agree with the stream: what a
    replica received and what is queued for it is the stream, byte for byte. In
    particular a replica accepted by a partial resynchronization, with the first
    or the second replication ID, is sent exactly what it misses, and a replica
    with another history is refused. *)
Theorem replicas_in_sync s origin stream gots op : synced s origin stream gots -> op_ok s origin stream op ->
  exists s', run_repl s op = Some s' /\ synced s' origin (stream ++ stream_of s op) (gots_of s s' gots op).
Proof.
  intros Hsy Hop. pose proof Hop as [Hr Hop']. pose proof Hsy as [Hst Hsl]. destruct (stream_offset _ _ _ Hst) as (Hof & [Hr0 Hr1] & buf & Eb).
  destruct op as [db argv|data|n|newid|id off p2 mute wok got|i k]; cbn [run_repl stream_of gots_of] in *; rewrite ?app_nil_r.
  - destruct Hop' as (Hdb & Ho & Hl). destruct (command_sync s origin stream gots db argv Hsy Hdb Ho Hl Hr) as (s' & E & Hs' & _). by exists s'.
  - by apply proxy_sync.
  - destruct (resize_ok _ _ _ n Hst Hop') as (b & -> & Hb). cbn [mbind option_bind]. eexists. split; [done|]. by split.
  - unfold shiftReplicationId. rewrite signed64_ok by lia. cbn [mbind option_bind]. eexists. split; [done|]. by split.
  - destruct (psync_sync _ _ _ _ _ _ _ _ _ _ Hsy Hop) as (s' & a & -> & Hs'). cbn [mbind option_bind]. by exists s'.
  - eexists. split; [done|]. split; [done|]. by apply sent_sync.
Qed.
End sync.

(** A backlog of 4 bytes that wrapped around, and a replica that has received
    3 of the 5 bytes of the stream. *)
Definition sample_repl : repl :=
  mkRepl (mkBacklog (Some [5; 2; 3; 4]) 4 1 4 2 5) (of_string "ab") (of_string "cd") (-1) false 0 [mkReplica false false false false [4; 5]].

Lemma sample_synced : synced sample_repl 0 [1; 2; 3; 4; 5] [[1; 2; 3]].
Proof.
  split; [|repeat constructor]. split; [done|]. exists [], [1; 2; 3; 4; 5]. split; [done|]. split; try (vm_compute; done).
  exists [5; 2; 3; 4]. split; [done|]. split; [done|]. intros i Hi Hlo. cbn in Hi, Hlo.
  assert (Hc : i = 1 \/ i = 2 \/ i = 3 \/ i = 4) by lia. destruct Hc as [->|[->|[->| ->]]]; reflexivity.
Qed.

Lemma replicas_in_sync_witness :
  let op := OpPsync (of_string "AB") 3 true false true [1; 2] in
  op_ok sample_repl 0 [1; 2; 3; 4; 5] op /\
  exists s', run_repl (H := FillAlloc) sample_repl op = Some s' /\ synced s' 0 ([1; 2; 3; 4; 5] ++ stream_of sample_repl op) (gots_of sample_repl s' [[1; 2; 3]] op).
Proof.
  cbv zeta. assert (Hop : op_ok sample_repl 0 [1; 2; 3; 4; 5] (OpPsync (of_string "AB") 3 true false true [1; 2])).
  { split; [by split; vm_compute|]. split; [done|]. split; [intros _; by exists [3; 4; 5]|]. intros Hc. vm_compute in Hc. done. }
  split; [exact Hop|]. apply (replicas_in_sync (H := FillAlloc) sample_repl 0 [1; 2; 3; 4; 5] [[1; 2; 3]] (OpPsync (of_string "AB") 3 true false true [1; 2]) sample_synced Hop).
Defined.
