(* ===== verification/Protocol.v ===== *)
(** The request parser and the command loop: [networking.c].

    A client accumulates what it reads in its query buffer; commands are parsed
    (inline or RESP), executed, and for the link with a master the bytes that
    were applied are relayed to the backlog and the replicas ([Replication.v]).
    The query buffer and the arguments are the contents of their sds;
    [sdsrange(s,n,-1)] drops the first [n] bytes ([SdsOps.v]), and making room
    does not change the contents. A failed assertion, an access outside an
    object, or a signed overflow is [None]. *)
From S2P Require Import Prelude Endian Util Sds SdsSpec SdsOps SdsText SdsArgs Wire Replication.
Open Scope Z_scope.

Definition PROTO_IOBUF_LEN : Z := 1024 * 16.
Definition PROTO_INLINE_MAX_SIZE : Z := 1024 * 64.
Definition PROTO_MBULK_BIG_ARG : Z := 1024 * 32.
Definition PROTO_REQ_INLINE : Z := 1.
Definition PROTO_REQ_MULTIBULK : Z := 2.

Definition CLIENT_SLAVE : Z := 2 ^ 0.
Definition CLIENT_MASTER : Z := 2 ^ 1.
Definition CLIENT_MONITOR : Z := 2 ^ 2.
Definition CLIENT_MULTI : Z := 2 ^ 3.
Definition CLIENT_BLOCKED : Z := 2 ^ 4.
Definition CLIENT_CLOSE_AFTER_REPLY : Z := 2 ^ 6.
Definition CLIENT_UNBLOCKED : Z := 2 ^ 7.
Definition CLIENT_LUA : Z := 2 ^ 8.
Definition CLIENT_ASKING : Z := 2 ^ 9.
Definition CLIENT_CLOSE_ASAP : Z := 2 ^ 10.
Definition CLIENT_PUBSUB : Z := 2 ^ 18.
Definition CLIENT_REPLY_SKIP_NEXT : Z := 2 ^ 23.
Definition CLIENT_REPLY_SKIP : Z := 2 ^ 24.
Definition CLIENT_PENDING_READ : Z := 2 ^ 29.
Definition CLIENT_PENDING_COMMAND : Z := 2 ^ 30.
Definition CLIENT_TRACKING_CACHING : Z := 2 ^ 36.
Definition CLIENT_PROTOCOL_ERROR : Z := 2 ^ 39.

Definition CLIENT_TYPE_NORMAL : Z := 0.
Definition CLIENT_TYPE_SLAVE : Z := 1.
Definition CLIENT_TYPE_PUBSUB : Z := 2.
Definition CLIENT_TYPE_MASTER : Z := 3.

(** The command procedures that [resetClient] looks for. *)
Inductive cmd_proc := askingCommand | clientCommand | otherCommand.

(** The fields of a client that the parser uses. [argc] is the length of
    [argv], [argv_size] the number of elements allocated for it; [errors] are
    the messages given to [addReplyError]. *)
Record client := mkClient {
  querybuf : bytes;
  pending_querybuf : bytes;
  qb_pos : Z;
  querybuf_peak : Z;
  reqtype : Z;
  argv : list bytes;
  argv_size : Z;
  argv_len_sum : Z;
  cmd : option cmd_proc;
  multibulklen : Z;
  bulklen : Z;
  flags : Z;
  deferred_reply_errors : option (list bytes);
  errors : list bytes;
  authenticated : bool;
  repl_ack_time : Z;
  lastinteraction : Z;
  read_reploff : Z;
  reploff : Z
}.

Definition set_querybuf (v : bytes) (c : client) : client :=
  mkClient v (pending_querybuf c) (qb_pos c) (querybuf_peak c) (reqtype c) (argv c) (argv_size c) (argv_len_sum c) (cmd c) (multibulklen c) (bulklen c) (flags c) (deferred_reply_errors c) (errors c) (authenticated c) (repl_ack_time c) (lastinteraction c) (read_reploff c) (reploff c).
Definition set_pending_querybuf (v : bytes) (c : client) : client :=
  mkClient (querybuf c) v (qb_pos c) (querybuf_peak c) (reqtype c) (argv c) (argv_size c) (argv_len_sum c) (cmd c) (multibulklen c) (bulklen c) (flags c) (deferred_reply_errors c) (errors c) (authenticated c) (repl_ack_time c) (lastinteraction c) (read_reploff c) (reploff c).
Definition set_qb_pos (v : Z) (c : client) : client :=
  mkClient (querybuf c) (pending_querybuf c) v (querybuf_peak c) (reqtype c) (argv c) (argv_size c) (argv_len_sum c) (cmd c) (multibulklen c) (bulklen c) (flags c) (deferred_reply_errors c) (errors c) (authenticated c) (repl_ack_time c) (lastinteraction c) (read_reploff c) (reploff c).
Definition set_querybuf_peak (v : Z) (c : client) : client :=
  mkClient (querybuf c) (pending_querybuf c) (qb_pos c) v (reqtype c) (argv c) (argv_size c) (argv_len_sum c) (cmd c) (multibulklen c) (bulklen c) (flags c) (deferred_reply_errors c) (errors c) (authenticated c) (repl_ack_time c) (lastinteraction c) (read_reploff c) (reploff c).
Definition set_reqtype (v : Z) (c : client) : client :=
  mkClient (querybuf c) (pending_querybuf c) (qb_pos c) (querybuf_peak c) v (argv c) (argv_size c) (argv_len_sum c) (cmd c) (multibulklen c) (bulklen c) (flags c) (deferred_reply_errors c) (errors c) (authenticated c) (repl_ack_time c) (lastinteraction c) (read_reploff c) (reploff c).
Definition set_argv (v : list bytes) (c : client) : client :=
  mkClient (querybuf c) (pending_querybuf c) (qb_pos c) (querybuf_peak c) (reqtype c) v (argv_size c) (argv_len_sum c) (cmd c) (multibulklen c) (bulklen c) (flags c) (deferred_reply_errors c) (errors c) (authenticated c) (repl_ack_time c) (lastinteraction c) (read_reploff c) (reploff c).
Definition set_argv_size (v : Z) (c : client) : client :=
  mkClient (querybuf c) (pending_querybuf c) (qb_pos c) (querybuf_peak c) (reqtype c) (argv c) v (argv_len_sum c) (cmd c) (multibulklen c) (bulklen c) (flags c) (deferred_reply_errors c) (errors c) (authenticated c) (repl_ack_time c) (lastinteraction c) (read_reploff c) (reploff c).
Definition set_argv_len_sum (v : Z) (c : client) : client :=
  mkClient (querybuf c) (pending_querybuf c) (qb_pos c) (querybuf_peak c) (reqtype c) (argv c) (argv_size c) v (cmd c) (multibulklen c) (bulklen c) (flags c) (deferred_reply_errors c) (errors c) (authenticated c) (repl_ack_time c) (lastinteraction c) (read_reploff c) (reploff c).
Definition set_cmd (v : option cmd_proc) (c : client) : client :=
  mkClient (querybuf c) (pending_querybuf c) (qb_pos c) (querybuf_peak c) (reqtype c) (argv c) (argv_size c) (argv_len_sum c) v (multibulklen c) (bulklen c) (flags c) (deferred_reply_errors c) (errors c) (authenticated c) (repl_ack_time c) (lastinteraction c) (read_reploff c) (reploff c).
Definition set_multibulklen (v : Z) (c : client) : client :=
  mkClient (querybuf c) (pending_querybuf c) (qb_pos c) (querybuf_peak c) (reqtype c) (argv c) (argv_size c) (argv_len_sum c) (cmd c) v (bulklen c) (flags c) (deferred_reply_errors c) (errors c) (authenticated c) (repl_ack_time c) (lastinteraction c) (read_reploff c) (reploff c).
Definition set_bulklen (v : Z) (c : client) : client :=
  mkClient (querybuf c) (pending_querybuf c) (qb_pos c) (querybuf_peak c) (reqtype c) (argv c) (argv_size c) (argv_len_sum c) (cmd c) (multibulklen c) v (flags c) (deferred_reply_errors c) (errors c) (authenticated c) (repl_ack_time c) (lastinteraction c) (read_reploff c) (reploff c).
Definition set_flags (v : Z) (c : client) : client :=
  mkClient (querybuf c) (pending_querybuf c) (qb_pos c) (querybuf_peak c) (reqtype c) (argv c) (argv_size c) (argv_len_sum c) (cmd c) (multibulklen c) (bulklen c) v (deferred_reply_errors c) (errors c) (authenticated c) (repl_ack_time c) (lastinteraction c) (read_reploff c) (reploff c).
Definition set_deferred_reply_errors (v : option (list bytes)) (c : client) : client :=
  mkClient (querybuf c) (pending_querybuf c) (qb_pos c) (querybuf_peak c) (reqtype c) (argv c) (argv_size c) (argv_len_sum c) (cmd c) (multibulklen c) (bulklen c) (flags c) v (errors c) (authenticated c) (repl_ack_time c) (lastinteraction c) (read_reploff c) (reploff c).
Definition set_errors (v : list bytes) (c : client) : client :=
  mkClient (querybuf c) (pending_querybuf c) (qb_pos c) (querybuf_peak c) (reqtype c) (argv c) (argv_size c) (argv_len_sum c) (cmd c) (multibulklen c) (bulklen c) (flags c) (deferred_reply_errors c) v (authenticated c) (repl_ack_time c) (lastinteraction c) (read_reploff c) (reploff c).
Definition set_repl_ack_time (v : Z) (c : client) : client :=
  mkClient (querybuf c) (pending_querybuf c) (qb_pos c) (querybuf_peak c) (reqtype c) (argv c) (argv_size c) (argv_len_sum c) (cmd c) (multibulklen c) (bulklen c) (flags c) (deferred_reply_errors c) (errors c) (authenticated c) v (lastinteraction c) (read_reploff c) (reploff c).
Definition set_lastinteraction (v : Z) (c : client) : client :=
  mkClient (querybuf c) (pending_querybuf c) (qb_pos c) (querybuf_peak c) (reqtype c) (argv c) (argv_size c) (argv_len_sum c) (cmd c) (multibulklen c) (bulklen c) (flags c) (deferred_reply_errors c) (errors c) (authenticated c) (repl_ack_time c) v (read_reploff c) (reploff c).
Definition set_read_reploff (v : Z) (c : client) : client :=
  mkClient (querybuf c) (pending_querybuf c) (qb_pos c) (querybuf_peak c) (reqtype c) (argv c) (argv_size c) (argv_len_sum c) (cmd c) (multibulklen c) (bulklen c) (flags c) (deferred_reply_errors c) (errors c) (authenticated c) (repl_ack_time c) (lastinteraction c) v (reploff c).
Definition set_reploff (v : Z) (c : client) : client :=
  mkClient (querybuf c) (pending_querybuf c) (qb_pos c) (querybuf_peak c) (reqtype c) (argv c) (argv_size c) (argv_len_sum c) (cmd c) (multibulklen c) (bulklen c) (flags c) (deferred_reply_errors c) (errors c) (authenticated c) (repl_ack_time c) (lastinteraction c) (read_reploff c) v.

Definition has (c : client) (f : Z) : bool := negb (Z.land (flags c) f =? 0).
Definition set_flag (f : Z) (c : client) : client := set_flags (Z.lor (flags c) f) c.
Definition clear_flag (f : Z) (c : client) : client := set_flags (Z.ldiff (flags c) f) c.

Definition getClientType (c : client) : Z :=
  if has c CLIENT_MASTER then CLIENT_TYPE_MASTER
  else if has c CLIENT_SLAVE && negb (has c CLIENT_MONITOR) then CLIENT_TYPE_SLAVE
  else if has c CLIENT_PUBSUB then CLIENT_TYPE_PUBSUB
  else CLIENT_TYPE_NORMAL.

Definition freeClientArgv (c : client) : client := set_argv_len_sum 0 (set_cmd None (set_argv [] c)).

Definition resetClient (c : client) : client :=
  let prevcmd := cmd c in
  let c := freeClientArgv c in
  let c := set_bulklen (-1) (set_multibulklen 0 (set_reqtype 0 c)) in
  let c := set_deferred_reply_errors None c in
  let c := if negb (has c CLIENT_MULTI) && negb (match prevcmd with Some askingCommand => true | _ => false end)
           then clear_flag CLIENT_ASKING c else c in
  let c := if negb (has c CLIENT_MULTI) && negb (match prevcmd with Some clientCommand => true | _ => false end)
           then clear_flag CLIENT_TRACKING_CACHING c else c in
  let c := clear_flag CLIENT_REPLY_SKIP c in
  if has c CLIENT_REPLY_SKIP_NEXT then clear_flag CLIENT_REPLY_SKIP_NEXT (set_flag CLIENT_REPLY_SKIP c) else c.

Definition addReplyError (c : client) (msg : bytes) : client := set_errors (errors c ++ [msg]) c.

(** Without the log line. *)
Definition setProtocolError (c : client) : client := set_flag (Z.lor CLIENT_CLOSE_AFTER_REPLY CLIENT_PROTOCOL_ERROR) c.

Definition freeClientAsync (c : client) : client :=
  if has c CLIENT_CLOSE_ASAP || has c CLIENT_LUA then c else set_flag CLIENT_CLOSE_ASAP c.

(** [c->argv[c->argc++] = ...; c->argv_len_sum += ...] *)
Definition push_arg (c : client) (a : bytes) : option client :=
  if zlen (argv c) <? argv_size c then Some (set_argv_len_sum (argv_len_sum c + zlen a) (set_argv (argv c ++ [a]) c)) else None.

(** The unread bytes: what is at [c->querybuf+c->qb_pos]. *)
Definition unread (c : client) : bytes := drop (Z.to_nat (qb_pos c)) (querybuf c).
(** [sdslen(c->querybuf)-c->qb_pos] *)
Definition unread_len (c : client) : Z := uwrap 64 (zlen (querybuf c) - qb_pos c).
(** [sdsrange(c->querybuf,c->qb_pos,-1); c->qb_pos = 0;] *)
Definition trim_querybuf (c : client) : client := set_qb_pos 0 (set_querybuf (unread c) c).


(** The part of the server that the parser uses; [srv_rest] is what the
    commands work on. [default_user_auth] tells that the default user is not an
    active user without password. *)
Record server (W : Type) := mkServer {
  lua_timedout : bool;
  gopher_enabled : bool;
  io_threads_active : bool;
  io_threads_do_reads : bool;
  ProcessingEventsWhileBlocked : bool;
  default_user_auth : bool;
  proto_max_bulk_len : Z;
  client_max_querybuf_len : Z;
  unixtime : Z;
  srv_repl : repl;
  srv_rest : W
}.
Arguments mkServer {W}.
Arguments lua_timedout {W}.
Arguments gopher_enabled {W}.
Arguments io_threads_active {W}.
Arguments io_threads_do_reads {W}.
Arguments ProcessingEventsWhileBlocked {W}.
Arguments default_user_auth {W}.
Arguments proto_max_bulk_len {W}.
Arguments client_max_querybuf_len {W}.
Arguments unixtime {W}.
Arguments srv_repl {W}.
Arguments srv_rest {W}.

Definition set_srv_repl {W} (r : repl) (s : server W) : server W :=
  mkServer (lua_timedout s) (gopher_enabled s) (io_threads_active s) (io_threads_do_reads s) (ProcessingEventsWhileBlocked s) (default_user_auth s)
    (proto_max_bulk_len s) (client_max_querybuf_len s) (unixtime s) r (srv_rest s).

(** The execution of commands: [processCommand] gives the new server and
    client, whether it returned [C_OK], and whether the client was freed. *)
Class Exec (W : Type) := {
  processCommand : server W -> client -> server W * client * bool * bool;
  processGopherRequest : server W -> client -> server W
}.

Section parser.
Context `{HH : Host, AA : SdsAlloc} {W : Type} `{EE : Exec W}.

Definition authRequired (s : server W) (c : client) : bool := default_user_auth s && negb (authenticated c).

(** * Inline commands *)

Definition sds_content (t : sds) : option bytes := l ← sdslen t; bslice (sbuf t) 0 l.

(** [for (c->argc = 0, j = 0; j < argc; j++)] *)
Fixpoint inline_args (c : client) (args : list sds) : option client :=
  match args with
  | [] => Some c
  | a :: args => a ← sds_content a; c ← push_arg c a; inline_args c args
  end.

(** The client, and whether the result is [C_OK]. *)
Definition processInlineBuffer (s : server W) (c : client) : option (client * bool) :=
  newline ← strchr (unread c ++ [0]) 10;
  match newline with
  | None =>
    if unread_len c >? PROTO_INLINE_MAX_SIZE then
      Some (setProtocolError (addReplyError c (of_string "Protocol error: too big inline request")), false)
    else Some (c, false)
  | Some newline =>
    prev ← (if newline =? 0 then Some 0 else (unread c).[newline - 1]);
    let '(querylen, linefeed_chars) := if negb (newline =? 0) && (prev =? 13) then (newline - 1, 2) else (newline, 1) in
    t ← bslice (unread c) 0 querylen;
    aux ← sdsnewlen (Init t) querylen;
    n ← strlen (sbuf aux);
    line ← bslice (sbuf aux) 0 n;
    args ← sdssplitargs line;
    _ ← sdsfree aux;
    match args with
    | None => Some (setProtocolError (addReplyError c (of_string "Protocol error: unbalanced quotes in request")), false)
    | Some args =>
      let c := if (querylen =? 0) && (getClientType c =? CLIENT_TYPE_SLAVE) then set_repl_ack_time (unixtime s) c else c in
      if negb (querylen =? 0) && has c CLIENT_MASTER then
        _ ← sdsfreesplitres args;
        Some (setProtocolError c, false)
      else
        let c := set_qb_pos (qb_pos c + (querylen + linefeed_chars)) c in
        let c := if negb (zlen args =? 0) then set_argv_len_sum 0 (set_argv_size (zlen args) c) else c in
        c ← inline_args (set_argv [] c) args;
        Some (c, true)
    end
  end.

(** * RESP commands *)

(** The search of a header line: no [\r], no room for a [\n] after it, or its
    length. *)
Inductive line := NoLine | ShortLine | Line (n : Z).

Definition find_line (c : client) : option line :=
  newline ← strchr (unread c ++ [0]) 13;
  match newline with
  | None => Some NoLine
  | Some n => if n >? swrap 64 (unread_len c - 2) then Some ShortLine else Some (Line n)
  end.

(** The number after the first character of a line of [n] characters. *)
Definition line_number (c : client) (n : Z) : option (option Z) := string2ll (take (Z.to_nat (n - 1)) (drop 1 (unread c))) (uwrap 64 (n - 1)).

(** A step of the parser: return [C_ERR] (waiting for more data, or after a
    protocol error), or go on. *)
Inductive pstep := PStop (c : client) | PGo (c : client).

(** [if (c->bulklen == -1)]: read the bulk length. *)
Definition read_bulklen (s : server W) (c : client) : option pstep :=
  l ← find_line c;
  match l with
  | NoLine =>
    if unread_len c >? PROTO_INLINE_MAX_SIZE then
      Some (PStop (setProtocolError (addReplyError c (of_string "Protocol error: too big bulk count string"))))
    else Some (PStop c)
  | ShortLine => Some (PStop c)
  | Line n =>
    x ← (unread c).[0];
    if negb (x =? 36) then
      Some (PStop (setProtocolError (addReplyError c (of_string "Protocol error: expected '$', got '" ++ [if (x =? 13) || (x =? 10) then 32 else x; 39]))))
    else
      ll ← line_number c n;
      match ll with
      | Some ll =>
        if (ll <? 0) || negb (has c CLIENT_MASTER) && (ll >? proto_max_bulk_len s) then
          Some (PStop (setProtocolError (addReplyError c (of_string "Protocol error: invalid bulk length"))))
        else if (ll >? 16384) && authRequired s c then
          Some (PStop (setProtocolError (addReplyError c (of_string "Protocol error: unauthenticated bulk length"))))
        else
          let c := set_qb_pos (qb_pos c + n + 2) c in
          c ← (if ll >=? PROTO_MBULK_BIG_ARG then
                 if unread_len c <=? uwrap 64 (ll + 2) then _ ← signed64 (ll + 2); Some (trim_querybuf c) else Some c
               else Some c);
          Some (PGo (set_bulklen ll c))
      | None => Some (PStop (setProtocolError (addReplyError c (of_string "Protocol error: invalid bulk length"))))
      end
  end.

(** Read the bulk argument. *)
Definition read_bulk (c : client) : option pstep :=
  need ← signed64 (bulklen c + 2);
  if unread_len c <? uwrap 64 need then Some (PStop c)
  else
    c ← (if (qb_pos c =? 0) && (bulklen c >=? PROTO_MBULK_BIG_ARG) && (zlen (querybuf c) =? uwrap 64 need) then
           a ← bslice (querybuf c) 0 (zlen (querybuf c) - 2);
           c ← push_arg c a;
           Some (set_querybuf [] c)
         else
           a ← bslice (unread c) 0 (bulklen c);
           c ← push_arg c a;
           Some (set_qb_pos (qb_pos c + need) c));
    Some (PGo (set_multibulklen (multibulklen c - 1) (set_bulklen (-1) c))).

(** [while(c->multibulklen)]: an iteration reads an argument or stops. *)
Fixpoint multibulk_loop (fuel : nat) (s : server W) (c : client) : option (client * bool) :=
  if multibulklen c =? 0 then Some (c, true)
  else match fuel with
  | O => None
  | S fuel =>
    st ← (if bulklen c =? -1 then read_bulklen s c else Some (PGo c));
    match st with
    | PStop c => Some (c, false)
    | PGo c =>
      st ← read_bulk c;
      match st with PStop c => Some (c, false) | PGo c => multibulk_loop fuel s c end
    end
  end.

(** [if (c->multibulklen == 0)]: read the number of arguments; the result
    [inl] is returned at once. *)
Definition read_multibulklen (s : server W) (c : client) : option (client * bool + client) :=
  if zlen (argv c) =? 0 then
    l ← find_line c;
    match l with
    | NoLine =>
      if unread_len c >? PROTO_INLINE_MAX_SIZE then
        Some (inl (setProtocolError (addReplyError c (of_string "Protocol error: too big mbulk count string")), false))
      else Some (inl (c, false))
    | ShortLine => Some (inl (c, false))
    | Line n =>
      x ← (unread c).[0];
      if negb (x =? 42) then None (* assert *)
      else
        ll ← line_number c n;
        match ll with
        | Some ll =>
          if ll >? 1024 * 1024 then
            Some (inl (setProtocolError (addReplyError c (of_string "Protocol error: invalid multibulk length")), false))
          else if (ll >? 10) && authRequired s c then
            Some (inl (setProtocolError (addReplyError c (of_string "Protocol error: unauthenticated multibulk length")), false))
          else
            let c := set_qb_pos (qb_pos c + n + 2) c in
            if ll <=? 0 then Some (inl (c, true))
            else Some (inr (set_argv_len_sum 0 (set_argv_size ll (set_multibulklen ll c))))
        | None => Some (inl (setProtocolError (addReplyError c (of_string "Protocol error: invalid multibulk length")), false))
        end
    end
  else None (* assert *).

Definition processMultibulkBuffer (s : server W) (c : client) : option (client * bool) :=
  r ← (if multibulklen c =? 0 then read_multibulklen s c else Some (inr c));
  match r with
  | inl r => Some r
  | inr c => if multibulklen c >? 0 then multibulk_loop (Z.to_nat (multibulklen c)) s c else None (* assert *)
  end.

(** * The command loop *)

Definition commandProcessed (s : server W) (c : client) : option (server W * client) :=
  if has c CLIENT_BLOCKED then Some (s, c)
  else
    let c := resetClient c in
    let prev_offset := reploff c in
    let c := if has c CLIENT_MASTER && negb (has c CLIENT_MULTI)
             then set_reploff (swrap 64 (read_reploff c - zlen (querybuf c) + qb_pos c)) c else c in
    if has c CLIENT_MASTER then
      applied ← signed64 (reploff c - prev_offset);
      if negb (applied =? 0) then
        buf ← bslice (pending_querybuf c) 0 applied;
        r ← replicationFeedSlavesFromMasterStream (srv_repl s) buf;
        Some (set_srv_repl r s, set_pending_querybuf (drop (Z.to_nat applied) (pending_querybuf c)) c)
      else Some (s, c)
    else Some (s, c).

(** The last component tells that the client is still valid. *)
Definition processCommandAndResetClient (s : server W) (c : client) : option (server W * client * bool) :=
  let '(s, c, ok, deadclient) := processCommand s c in
  '(s, c) ← (if ok : bool then commandProcessed s c else Some (s, c));
  Some (s, c, negb deadclient).

Definition processPendingCommandsAndResetClient (s : server W) (c : client) : option (server W * client * bool) :=
  if has c CLIENT_PENDING_COMMAND then processCommandAndResetClient s (clear_flag CLIENT_PENDING_COMMAND c)
  else Some (s, c, true).

(** The result of the body of the loop: leave the loop, return, or go on. *)
Inductive lstep := LBreak (s : server W) (c : client) | LReturn (s : server W) (c : client) | LNext (s : server W) (c : client).

(** [c->argc == 1 && ((char* )(c->argv[0]->ptr))[0] == '/' || c->argc == 0] *)
Definition gopher_args (args : list bytes) : bool :=
  match args with
  | [] => true
  | [a] => match a with x :: _ => x =? 47 | [] => false end
  | _ => false
  end.

(** After a request was read: [if (c->argc == 0)] and what follows. *)
Definition run_request (s : server W) (c : client) : option lstep :=
  if zlen (argv c) =? 0 then Some (LNext s (resetClient c))
  else if has c CLIENT_PENDING_READ then Some (LBreak s (set_flag CLIENT_PENDING_COMMAND c))
  else
    '(s, c, alive) ← processCommandAndResetClient s c;
    Some (if alive : bool then LNext s c else LReturn s c).

Definition input_step (s : server W) (c : client) : option lstep :=
  if has c CLIENT_BLOCKED then Some (LBreak s c)
  else if has c CLIENT_PENDING_COMMAND then Some (LBreak s c)
  else if lua_timedout s && has c CLIENT_MASTER then Some (LBreak s c)
  else if has c (Z.lor CLIENT_CLOSE_AFTER_REPLY CLIENT_CLOSE_ASAP) then Some (LBreak s c)
  else
    c ← (if reqtype c =? 0 then
           x ← (unread c).[0];
           Some (set_reqtype (if x =? 42 then PROTO_REQ_MULTIBULK else PROTO_REQ_INLINE) c)
         else Some c);
    if reqtype c =? PROTO_REQ_INLINE then
      '(c, ok) ← processInlineBuffer s c;
      if negb ok then Some (LBreak s c)
      else if gopher_enabled s && negb (io_threads_do_reads s) && gopher_args (argv c) then
        Some (LBreak (processGopherRequest s c) (set_flag CLIENT_CLOSE_AFTER_REPLY (resetClient c)))
      else run_request s c
    else if reqtype c =? PROTO_REQ_MULTIBULK then
      '(c, ok) ← processMultibulkBuffer s c;
      if negb ok then Some (LBreak s c) else run_request s c
    else None (* panic *).

(** [while(c->qb_pos < sdslen(c->querybuf))], and the trimming after it. *)
Fixpoint input_loop (fuel : nat) (s : server W) (c : client) : option (server W * client * bool) :=
  let leave s c := Some (s, if negb (qb_pos c =? 0) then trim_querybuf c else c, true) in
  if qb_pos c <? zlen (querybuf c) then
    match fuel with
    | O => None
    | S fuel =>
      st ← input_step s c;
      match st with
      | LBreak s c => leave s c
      | LReturn s c => Some (s, c, false)
      | LNext s c => input_loop fuel s c
      end
    end
  else leave s c.

(** An iteration that goes on has consumed a byte. *)
Definition processInputBuffer (s : server W) (c : client) : option (server W * client * bool) :=
  input_loop (length (querybuf c)) s c.

(** An iteration of the loop of [processUnblockedClients], on a client taken
    from the list. *)
Definition processUnblockedClient (s : server W) (c : client) : option (server W * client * bool) :=
  let c := clear_flag CLIENT_UNBLOCKED c in
  if has c CLIENT_BLOCKED then Some (s, c, true)
  else
    '(s, c, alive) ← processPendingCommandsAndResetClient s c;
    if negb alive then Some (s, c, false)
    else if zlen (querybuf c) >? 0 then processInputBuffer s c
    else Some (s, c, true).

(** [unblockClient], without the structures of the wait; [pause] is
    [c->btype == BLOCKED_PAUSE]. *)
Definition unblockClient (pause : bool) (c : client) : client :=
  let c := if pause then c else resetClient c in
  let c := clear_flag CLIENT_BLOCKED c in
  if has c CLIENT_UNBLOCKED then c else set_flag CLIENT_UNBLOCKED c.

(** An iteration of the last loop of
    [handleClientsWithPendingReadsUsingThreads], without the write handler. *)
Definition processPendingReadClient (s : server W) (c : client) : option (server W * client * bool) :=
  let c := clear_flag CLIENT_PENDING_READ c in
  if has c CLIENT_BLOCKED then None (* assert *)
  else
    '(s, c, alive) ← processPendingCommandsAndResetClient s c;
    if negb alive then Some (s, c, false) else processInputBuffer s c.

(** * Reading *)

(** What [connRead] gives: an error (with the connection still connected or
    not), the end of the stream, or bytes. *)
Inductive read_result := ReadError (connected : bool) | ReadEof | ReadData (data : bytes).

Definition postponeClientRead (s : server W) (c : client) : client * bool :=
  if io_threads_active s && io_threads_do_reads s && negb (ProcessingEventsWhileBlocked s)
     && negb (has c (Z.lor (Z.lor CLIENT_MASTER CLIENT_SLAVE) (Z.lor CLIENT_PENDING_READ CLIENT_BLOCKED)))
  then (set_flag CLIENT_PENDING_READ c, true) else (c, false).

(** The number of bytes asked for. *)
Definition readlen (c : client) : Z :=
  if (reqtype c =? PROTO_REQ_MULTIBULK) && negb (multibulklen c =? 0) && negb (bulklen c =? -1) && (bulklen c >=? PROTO_MBULK_BIG_ARG) then
    let remaining := swrap 64 (bulklen c + 2 - zlen (querybuf c)) in
    if (remaining >? 0) && (remaining <? PROTO_IOBUF_LEN) then remaining else PROTO_IOBUF_LEN
  else PROTO_IOBUF_LEN.

(** More bytes than asked for is a fault. *)
Definition readQueryFromClient (s : server W) (c : client) (r : read_result) : option (server W * client * bool) :=
  let '(c, postponed) := postponeClientRead s c in
  if postponed then Some (s, c, true)
  else
    let qblen := zlen (querybuf c) in
    let readlen := readlen c in
    let c := if querybuf_peak c <? qblen then set_querybuf_peak qblen c else c in
    match r with
    | ReadError connected => Some (s, if connected : bool then c else freeClientAsync c, true)
    | ReadEof => Some (s, freeClientAsync c, true)
    | ReadData data =>
      if zlen data >? readlen then None
      else
        let c := if has c CLIENT_MASTER then set_pending_querybuf (pending_querybuf c ++ data) c else c in
        let c := set_lastinteraction (unixtime s) (set_querybuf (querybuf c ++ data) c) in
        c ← (if has c CLIENT_MASTER then off ← signed64 (read_reploff c + zlen data); Some (set_read_reploff off c) else Some c);
        if zlen (querybuf c) >? client_max_querybuf_len s then Some (s, freeClientAsync c, true)
        else processInputBuffer s c
    end.

(** What happens to a client. *)
Inductive client_event := EvRead (r : read_result) | EvUnblock (pause : bool) | EvReprocess | EvThreadRead.

Definition client_step (s : server W) (c : client) (ev : client_event) : option (server W * client * bool) :=
  match ev with
  | EvRead r => readQueryFromClient s c r
  | EvUnblock pause => Some (s, unblockClient pause c, true)
  | EvReprocess => processUnblockedClient s c
  | EvThreadRead => processPendingReadClient s c
  end.
End parser.
