(* ===== verification/ProtocolSpec.v ===== *)
(** The request parser on arbitrary input: no assertion fails, no access is out
    of bounds, the loops end, and the state of the parser stays consistent, except
    for a bulk length or an inline request that overflows a C integer. *)
From S2P Require Import Prelude Endian Util Sds SdsSpec SdsOps SdsText SdsArgs Wire Replication Protocol.
Open Scope Z_scope.

(** * Flags *)

Lemma has_set c f g : has (set_flag f c) g = has c g || negb (Z.land f g =? 0).
Proof.
  unfold has, set_flag. cbn [flags set_flags]. rewrite Z.land_lor_distr_l.
  destruct (Z.eqb_spec (Z.land (flags c) g) 0) as [E|E], (Z.eqb_spec (Z.land f g) 0) as [E'|E']; cbn [negb orb].
  - by rewrite E, E'.
  - rewrite E, Z.lor_0_l. by destruct (Z.eqb_spec (Z.land f g) 0).
  - rewrite E', Z.lor_0_r. by destruct (Z.eqb_spec (Z.land (flags c) g) 0).
  - destruct (Z.eqb_spec (Z.lor (Z.land (flags c) g) (Z.land f g)) 0) as [E2|]; [|done]. apply Z.lor_eq_0_iff in E2 as [? ?]. done.
Qed.

Lemma has_clear c f g : Z.land f g = 0 -> has (clear_flag f c) g = has c g.
Proof.
  intros E. unfold has, clear_flag. cbn [flags set_flags]. do 2 f_equal. apply Z.bits_inj'. intros n Hn.
  apply (f_equal (fun z => Z.testbit z n)) in E. rewrite Z.bits_0, Z.land_spec in E.
  rewrite !Z.land_spec, Z.ldiff_spec. destruct (Z.testbit f n), (Z.testbit g n), (Z.testbit (flags c) n); done.
Qed.

(** The flags that [resetClient] may change. *)
Definition RESET_FLAGS : Z := Z.lor (Z.lor CLIENT_ASKING CLIENT_TRACKING_CACHING) (Z.lor CLIENT_REPLY_SKIP CLIENT_REPLY_SKIP_NEXT).

(** [resetClient] keeps what is not part of a request. *)
Definition same_link (c c' : client) : Prop :=
  querybuf c' = querybuf c /\ qb_pos c' = qb_pos c /\ pending_querybuf c' = pending_querybuf c
  /\ read_reploff c' = read_reploff c /\ reploff c' = reploff c.

Lemma resetClient_ok c : same_link c (resetClient c) /\ reqtype (resetClient c) = 0 /\ multibulklen (resetClient c) = 0
  /\ bulklen (resetClient c) = -1 /\ argv (resetClient c) = [] /\ errors (resetClient c) = errors c /\ authenticated (resetClient c) = authenticated c.
Proof. unfold resetClient, same_link. repeat match goal with |- context [if ?b then _ else _] => destruct b end; done. Qed.

Lemma resetClient_has c f : Z.land RESET_FLAGS f = 0 -> has (resetClient c) f = has c f.
Proof.
  intros Hf. assert (H4 : Z.land CLIENT_ASKING f = 0 /\ Z.land CLIENT_TRACKING_CACHING f = 0 /\ Z.land CLIENT_REPLY_SKIP f = 0 /\ Z.land CLIENT_REPLY_SKIP_NEXT f = 0).
  { unfold RESET_FLAGS in Hf. rewrite !Z.land_lor_distr_l in Hf. apply Z.lor_eq_0_iff in Hf as [H1 H2].
    apply Z.lor_eq_0_iff in H1 as [? ?]. by apply Z.lor_eq_0_iff in H2 as [? ?]. }
  destruct H4 as (H1 & H2 & H3 & H4). unfold resetClient.
  repeat match goal with |- context [if ?b then _ else _] => destruct b end; rewrite ?has_clear, ?has_set, ?has_clear by done;
    rewrite ?H3; cbn [Z.eqb negb]; rewrite ?orb_false_r, ?has_clear by done; done.
Qed.

(** * The state of the parser *)

Definition QUERYBUF_MAX : Z := 2 ^ 61.

Definition stopped (c : client) : bool :=
  has c CLIENT_BLOCKED || has c CLIENT_PENDING_COMMAND || has c (Z.lor CLIENT_CLOSE_AFTER_REPLY CLIENT_CLOSE_ASAP).

Lemma stopped_flags c c' : flags c' = flags c -> stopped c' = stopped c.
Proof. unfold stopped, has. by intros ->. Qed.

(** The position is in the query buffer. *)
Record buffer_ok (c : client) : Prop := {
  bo_pos : 0 <= qb_pos c <= zlen (querybuf c);
  bo_len : zlen (querybuf c) <= QUERYBUF_MAX;
  bo_bytes : Forall byte_ok (querybuf c)
}.

(** No request is being read. *)
Definition idle (c : client) : Prop := multibulklen c = 0 /\ bulklen c = -1 /\ argv c = [].

(** Between the arguments of a request. *)
Definition reading (c : client) : Prop :=
  reqtype c = PROTO_REQ_MULTIBULK /\ 0 < multibulklen c /\ zlen (argv c) + multibulklen c = argv_size c.

Definition bulklen_ok (c : client) : Prop := 0 <= bulklen c <= 2 ^ 63 - 3.

Definition request_ok (c : client) : Prop :=
  (idle c /\ (reqtype c = 0 \/ reqtype c = PROTO_REQ_INLINE \/ reqtype c = PROTO_REQ_MULTIBULK /\ (unread c).[0] = Some 42))
  \/ (reading c /\ (bulklen c = -1 \/ bulklen_ok c)).

Lemma resetClient_request c : request_ok (resetClient c).
Proof. destruct (resetClient_ok c) as (_ & Hr & Hm & Hb & Ha & _). left. split; [done|]. by left. Qed.

Lemma zlen_unread c : buffer_ok c -> zlen (unread c) = zlen (querybuf c) - qb_pos c.
Proof. intros [Hp _ _]. unfold unread. rewrite length_drop. lia. Qed.

Lemma unread_len_ok c : buffer_ok c -> unread_len c = zlen (unread c).
Proof. intros Hb. rewrite (zlen_unread c Hb). destruct Hb as [Hp Hl _]. unfold QUERYBUF_MAX in Hl. unfold unread_len. apply uwrap_small. unfold in_u. lia. Qed.

Lemma unread_bytes c : buffer_ok c -> Forall byte_ok (unread c).
Proof. intros [_ _ Hb]. by apply Forall_drop. Qed.

Lemma bget_0 (x : Z) l : (x :: l).[0] = Some x.
Proof. done. Qed.

(** Reading [n] bytes of the unread part. *)
Lemma buffer_skip c n : buffer_ok c -> 0 <= n <= zlen (unread c) ->
  buffer_ok (set_qb_pos (qb_pos c + n) c) /\ unread (set_qb_pos (qb_pos c + n) c) = drop (Z.to_nat n) (unread c).
Proof.
  intros Hb Hn. rewrite (zlen_unread c Hb) in Hn. destruct Hb as [Hp Hl Hbt]. split; [split; cbn; lia || done|].
  unfold unread. cbn [qb_pos set_qb_pos querybuf]. rewrite drop_drop. f_equal. lia.
Qed.

Lemma buffer_trim c : buffer_ok c -> buffer_ok (trim_querybuf c) /\ unread (trim_querybuf c) = unread c.
Proof.
  intros Hb. pose proof (zlen_unread c Hb) as Hz. pose proof (unread_bytes c Hb). destruct Hb as [Hp Hl Hbt].
  split; [|done]. split; cbn [qb_pos querybuf trim_querybuf set_qb_pos set_querybuf]; [lia|lia|done].
Qed.

Lemma strchr_ok (u : bytes) x : x <> 0 ->
  exists r, strchr (u ++ [0]) x = Some r /\ match r with
    | None => True
    | Some n => exists pre post, u = pre ++ x :: post /\ n = zlen pre /\ (0 ∉ pre) /\ (x ∉ pre)
    end.
Proof.
  intros Hx. induction u as [|y u (r & E & Hr)]; cbn [app strchr].
  - replace (0 =? x) with false by lia. by exists None.
  - destruct (Z.eqb_spec y x) as [->|Hy]; [exists (Some 0); split; [done|]; exists [], u; repeat split; apply not_elem_of_nil|]. destruct (Z.eqb_spec y 0) as [->|Hy0]; [by exists None|].
    rewrite E. cbn [mbind option_bind]. eexists. split; [done|]. destruct r as [n|]; [|done]. cbn [option_map].
    destruct Hr as (pre & post & -> & -> & H0 & Hxp). exists (y :: pre), post. split; [done|]. split; [cbn [length]; lia|]. split; by apply not_elem_of_cons.
Qed.

(** A line that was found, its [\r] and the byte after it are in the buffer. *)
Lemma find_line_ok c : buffer_ok c -> exists l, find_line c = Some l /\ match l with
  | Line n => exists pre post, unread c = pre ++ 13 :: post /\ n = zlen pre /\ (0 ∉ pre) /\ n + 2 <= zlen (unread c)
  | _ => True end.
Proof.
  intros Hb. unfold find_line. destruct (strchr_ok (unread c) 13 ltac:(lia)) as (r & -> & Hr). cbn [mbind option_bind]. destruct r as [n|]; [|by eexists].
  destruct Hr as (pre & post & E & -> & H0 & _). rewrite (unread_len_ok c Hb). pose proof (zlen_unread c Hb) as Hz. destruct Hb as [Hp Hl _]. unfold QUERYBUF_MAX in Hl.
  rewrite swrap_small by (unfold in_s; lia). destruct (Z.gtb_spec (zlen pre) (zlen (unread c) - 2)) as [Hg|Hg]; [by eexists|]. eexists. split; [done|]. exists pre, post. repeat split; try done. lia.
Qed.

(** The number in a line whose first character is [x]. *)
Lemma line_number_ok c x pre post : buffer_ok c -> unread c = (x :: pre) ++ 13 :: post ->
  exists r, line_number c (zlen (x :: pre)) = Some r /\ forall v, r = Some v <-> canonical pre v.
Proof.
  intros Hb E. pose proof (unread_bytes c Hb) as Hby. pose proof (zlen_unread c Hb) as Hz. destruct Hb as [Hp Hl _]. unfold QUERYBUF_MAX in Hl.
  unfold line_number. rewrite E in *. cbn [app drop length] in *. rewrite drop_0, length_app in *.
  replace (Z.of_nat (S (length pre)) - 1) with (zlen pre) by lia. rewrite uwrap_small by (unfold in_u; lia). rewrite Nat2Z.id, take_app_length.
  apply string2ll_spec. apply Forall_cons in Hby as [_ Hby]. by apply Forall_app in Hby as [? _].
Qed.

Lemma canonical_range s v : canonical s v -> in_s 64 v.
Proof. by intros [? _]. Qed.

(** A client that is neither a master nor the fake client of a script. *)
Record sane (c : client) : Prop := {
  sa_buffer : buffer_ok c;
  sa_master : has c CLIENT_MASTER = false;
  sa_lua : has c CLIENT_LUA = false
}.

(** After the parser stopped: more data can be read, unless the client is
    stopped. *)
Definition stop_ok (c : client) : Prop := sane c /\ (stopped c = false -> request_ok c).

Lemma error_stop c msg : sane c -> stop_ok (setProtocolError (addReplyError c msg)).
Proof.
  intros [Hb Hm Hl]. split.
  - split; [by destruct Hb|..]; unfold setProtocolError; rewrite has_set; apply orb_false_iff; by split.
  - intros Hs. exfalso. revert Hs. unfold stopped, setProtocolError. rewrite !has_set. by rewrite !orb_true_r.
Qed.

(** The parser goes on with the same flags. *)
Definition go_ok (c c' : client) : Prop := sane c' /\ flags c' = flags c /\ unread c' `suffix_of` unread c.

Lemma drop_suffix (n : nat) (l : bytes) : drop n l `suffix_of` l.
Proof. exists (take n l). by rewrite take_drop. Qed.

Lemma sane_flags c c' : sane c -> flags c' = flags c -> buffer_ok c' -> sane c'.
Proof. intros [Hb Hm Hl] Hf Hb'. split; [done|..]; unfold has in *; by rewrite Hf. Qed.

Lemma sane_same c c' : sane c -> flags c' = flags c -> buffer_ok c' -> unread c' `suffix_of` unread c -> go_ok c c'.
Proof. intros Hs Hf Hb' Hu. split; [by apply (sane_flags c)|done]. Qed.

Lemma go_refl c : sane c -> go_ok c c.
Proof. done. Qed.

Lemma go_trans c1 c2 c3 : go_ok c1 c2 -> go_ok c2 c3 -> go_ok c1 c3.
Proof. intros (_ & F1 & U1) (Hs & F2 & U2). split; [done|]. split; [congruence|by etransitivity]. Qed.

Lemma buffer_same c c' : buffer_ok c -> querybuf c' = querybuf c -> qb_pos c' = qb_pos c -> buffer_ok c'.
Proof. intros [H1 H2 H3] E1 E2. split; by rewrite ?E1, ?E2. Qed.

Lemma unread_same c c' : querybuf c' = querybuf c -> qb_pos c' = qb_pos c -> unread c' = unread c.
Proof. unfold unread. by intros -> ->. Qed.

Definition server_ok {W} (s : server W) : Prop := proto_max_bulk_len s <= 2 ^ 63 - 3 /\ client_max_querybuf_len s <= QUERYBUF_MAX.

(** * What overflows *)

(** The server after commands, whosever they are. *)
Inductive commands_lead {W} `{Exec W} (s : server W) : server W -> Prop :=
| lead_none : commands_lead s s
| lead_command s1 c s2 c2 ok dead : commands_lead s s1 -> processCommand s1 c = (s2, c2, ok, dead) -> commands_lead s s2
| lead_gopher s1 c : commands_lead s s1 -> commands_lead s (processGopherRequest s1 c).

(** Somewhere in the bytes a bulk length is announced: a dollar, the number, and
    the end of the line. *)
Definition bulk_announced (inp : bytes) (v : Z) : Prop := exists l n r, inp = l ++ (36 :: n) ++ 13 :: r /\ canonical n v.

(** The integers of the parser that can overflow: [ll+2], when a bulk length
    that is announced is at most the limit, and the [int] that counts the
    arguments of an inline request. *)
Definition overflows {W} `{Exec W} (s : server W) (inp : bytes) : Prop :=
  (exists v s1, bulk_announced inp v /\ 2 ^ 63 - 2 <= v /\ commands_lead s s1 /\ v <= proto_max_bulk_len s1) \/ INT32_MAX < zlen inp.

Section safety.
Context `{HH : Host, AA : SdsAlloc} {W : Type} `{EE : Exec W}.
(** The server at first, and the bytes that are parsed. *)
Context (s0 : server W) (inp : bytes).
Abbreviation safe := (or_fault (overflows s0 inp)).

Lemma read_bulklen_safe (s : server W) c : commands_lead s0 s -> unread c `suffix_of` inp -> stop_ok c -> reading c -> bulklen c = -1 ->
  safe (read_bulklen s c) (fun st => match st with
    | PStop c' => stop_ok c'
    | PGo c' => go_ok c c' /\ reading c' /\ bulklen_ok c' /\ multibulklen c' = multibulklen c /\ zlen (unread c') < zlen (unread c)
    end).
Proof.
  intros Hsv Hin Hst Hr Hbl. pose proof Hst as [Hs _]. pose proof (sa_buffer _ Hs) as Hb. unfold read_bulklen.
  destruct (find_line_ok c Hb) as (l & -> & Hl). cbn [mbind option_bind].
  destruct l as [| |n]; [destruct (_ >? _); apply or_fault_some; [by apply error_stop|done]|by apply or_fault_some|].
  destruct Hl as (pre & post & E & -> & H0 & Hlen). destruct (unread c) as [|x u] eqn:Eu; [by destruct pre|]. rewrite bget_0. cbn [mbind option_bind].
  destruct (Z.eqb_spec x 36) as [->|Hx]; cbn [negb]; [|apply or_fault_some; by apply error_stop].
  destruct pre as [|y pre]; [by injection E|]. injection E as <- E. rewrite E in Eu.
  destruct (line_number_ok c 36 pre post Hb Eu) as (r & -> & Hcan). cbn [mbind option_bind].
  destruct r as [ll|]; [|apply or_fault_some; by apply error_stop]. pose proof (proj1 (Hcan ll) eq_refl) as Hc. pose proof (canonical_range _ _ Hc) as Hll. unfold in_s in Hll.
  rewrite (sa_master _ Hs). cbn [negb andb]. destruct (_ || _) eqn:E1; [apply or_fault_some; by apply error_stop|].
  destruct (_ && _); [apply or_fault_some; by apply error_stop|].
  assert (Hz : zlen (unread c) = zlen (36 :: u)) by by rewrite Eu, E.
  destruct (buffer_skip c (zlen (36 :: pre) + 2) Hb) as [Hb1 Hu1]; [lia|]. rewrite Z.add_assoc in Hb1, Hu1.
  set (c1 := set_qb_pos (qb_pos c + zlen (36 :: pre) + 2) c) in *.
  assert (Hgo : forall c2, ll <= 2 ^ 63 - 3 -> querybuf c2 = querybuf c1 /\ qb_pos c2 = qb_pos c1 \/ querybuf c2 = unread c1 /\ qb_pos c2 = 0 -> flags c2 = flags c -> reading c2 -> bulklen c2 = ll -> multibulklen c2 = multibulklen c ->
    safe (Some (PGo c2)) (fun st => match st with PStop c' => stop_ok c' | PGo c' => go_ok c c' /\ reading c' /\ bulklen_ok c' /\ multibulklen c' = multibulklen c /\ zlen (unread c') < zlen (36 :: u) end)).
  { intros c2 Hmx Hq Hf Hr2 Hb2 Hm2. assert (Hb3 : buffer_ok c2 /\ unread c2 = unread c1).
    { destruct (buffer_trim c1 Hb1) as [Ht1 Ht2]. destruct Hq as [[Hq1 Hq2]|[Hq1 Hq2]].
      - split; [by apply (buffer_same c1)|by apply unread_same].
      - split; [by apply (buffer_same (trim_querybuf c1))|]. rewrite <- Ht2. by apply unread_same. }
    destruct Hb3 as [Hb3 Hu3]. apply or_fault_some. split; [apply sane_same; try done; rewrite Hu3, Hu1; apply drop_suffix|]. split; [done|]. split; [unfold bulklen_ok; lia|]. split; [done|].
    rewrite Hu3, Hu1, length_drop. lia. }
  destruct (Z.geb_spec ll PROTO_MBULK_BIG_ARG) as [Hbig|Hbig]; unfold PROTO_MBULK_BIG_ARG in Hbig; [|apply Hgo; [lia|by left|done..]].
  destruct (Z.le_gt_cases ll (2 ^ 63 - 3)) as [Hmx|Hmx].
  - destruct (_ <=? _); [|by apply Hgo; [|left|..]]. unfold signed64. replace (_ && _) with true by lia. by apply Hgo; [|right|..].
  - pose proof (zlen_unread c1 Hb1) as Hz1. pose proof (bo_pos _ Hb1) as Hp1. pose proof (bo_len _ Hb1) as Hl1. unfold QUERYBUF_MAX in Hl1. rewrite (unread_len_ok c1 Hb1), uwrap_small by (unfold in_u; lia).
    replace (_ <=? _) with true by lia. unfold signed64. replace (_ && _) with false by lia. right. split; [done|]. left. exists ll, s. split; [|split; [lia|split; [done|lia]]].
    destruct Hin as [l Hin]. exists l, pre, post. split; [|done]. by rewrite Hin, E.
Qed.

Lemma push_ok c a : zlen (argv c) < argv_size c ->
  exists c', push_arg c a = Some c' /\ argv c' = argv c ++ [a] /\ querybuf c' = querybuf c /\ qb_pos c' = qb_pos c /\ flags c' = flags c
    /\ reqtype c' = reqtype c /\ multibulklen c' = multibulklen c /\ bulklen c' = bulklen c /\ argv_size c' = argv_size c.
Proof. intros Ha. unfold push_arg. replace (_ <? _) with true by lia. by eexists. Qed.

Lemma read_bulk_safe c : stop_ok c -> reading c -> bulklen_ok c ->
  exists st, read_bulk c = Some st /\ match st with
    | PStop c' => stop_ok c'
    | PGo c' => go_ok c c' /\ reqtype c' = reqtype c /\ zlen (argv c') + multibulklen c' = argv_size c' /\ bulklen c' = -1
                /\ multibulklen c' = multibulklen c - 1 /\ zlen (unread c') < zlen (unread c)
    end.
Proof.
  intros Hst Hr Hbo. pose proof Hst as [Hs _]. pose proof (sa_buffer _ Hs) as Hb. pose proof (unread_len_ok c Hb) as Hul. pose proof (zlen_unread c Hb) as Hz.
  unfold bulklen_ok in Hbo. unfold read_bulk, signed64. replace ((_ <=? _) && (_ <? _)) with true by lia. cbn [mbind option_bind]. rewrite Hul, uwrap_small by (unfold in_u; lia).
  destruct (Z.ltb_spec (zlen (unread c)) (bulklen c + 2)) as [Hlt|Hge]; [by eexists|]. destruct Hr as (Hrt & Hm & Ha).
  destruct (_ && _ && _) eqn:Ebig.
  - unfold bslice. replace ((_ <=? _) && _ && _) with true by lia. cbn [mbind option_bind]. match goal with |- context [push_arg c ?a] => destruct (push_ok c a ltac:(lia)) as (c1 & -> & H1 & H2 & H3 & H4 & H5 & H6 & H7 & H8) end.
    cbn [mbind option_bind]. eexists. split; [done|]. cbn [reqtype argv multibulklen argv_size bulklen set_bulklen set_multibulklen set_querybuf]. rewrite H1, H6, H8, length_app. cbn [length].
    split; [apply sane_same; [done|done| |]|].
    + split; cbn [querybuf qb_pos set_bulklen set_multibulklen set_querybuf length]; [lia|unfold QUERYBUF_MAX; lia|done].
    + unfold unread at 1. cbn [querybuf qb_pos set_bulklen set_multibulklen set_querybuf]. rewrite drop_nil. apply suffix_nil.
    + split; [done|]. split; [lia|]. split; [done|]. split; [done|]. unfold unread at 1. cbn [querybuf qb_pos set_bulklen set_multibulklen set_querybuf]. rewrite drop_nil. cbn [length]. lia.
  - unfold bslice at 1. replace ((_ <=? _) && _ && _) with true by lia. cbn [mbind option_bind]. match goal with |- context [push_arg c ?a] => destruct (push_ok c a ltac:(lia)) as (c1 & -> & H1 & H2 & H3 & H4 & H5 & H6 & H7 & H8) end.
    cbn [mbind option_bind]. eexists. split; [done|]. cbn [reqtype argv multibulklen argv_size bulklen set_bulklen set_multibulklen set_qb_pos]. rewrite H1, H6, H8, length_app. cbn [length].
    destruct (buffer_skip c (bulklen c + 2) Hb ltac:(lia)) as [Hb1 Hu1].
    match goal with |- go_ok c ?x /\ _ => assert (Hux : unread x = drop (Z.to_nat (bulklen c + 2)) (unread c)) end.
    { rewrite (unread_same (set_qb_pos (qb_pos c + (bulklen c + 2)) c)) by (cbn; by rewrite ?H2, ?H3). exact Hu1. }
    split; [apply sane_same; [done|done| |]|].
    + by apply (buffer_same _ _ Hb1); cbn; rewrite ?H2, ?H3.
    + rewrite Hux. apply drop_suffix.
    + split; [done|]. split; [lia|]. split; [done|]. split; [done|]. rewrite Hux, length_drop. lia.
Qed.

Lemma multibulk_loop_safe : forall fuel (s : server W) c, commands_lead s0 s -> unread c `suffix_of` inp -> stop_ok c -> stopped c = false ->
  reqtype c = PROTO_REQ_MULTIBULK -> 0 <= multibulklen c ->
  zlen (argv c) + multibulklen c = argv_size c -> (bulklen c = -1 \/ (bulklen_ok c /\ 0 < multibulklen c)) -> multibulklen c <= Z.of_nat fuel ->
  safe (multibulk_loop fuel s c) (fun '(c', ok) =>
    if ok : bool then go_ok c c' /\ zlen (unread c') + multibulklen c <= zlen (unread c) else stop_ok c').
Proof.
  induction fuel as [|fuel IH]; intros s c Hsv Hin Hst Hns Hrt Hm Ha Hbl Hf; cbn [multibulk_loop]; pose proof (proj1 Hst) as Hs.
  - replace (_ =? _) with true by lia. apply or_fault_some. split; [by apply go_refl|lia].
  - destruct (Z.eqb_spec (multibulklen c) 0) as [E0|E0]; [apply or_fault_some; split; [by apply go_refl|lia]|].
    assert (Hrd : reading c) by (split; [done|]; lia).
    apply (or_fault_bind _ _ _ (fun st => match st with
       | PStop c' => stop_ok c' | PGo c' => go_ok c c' /\ reading c' /\ bulklen_ok c' /\ multibulklen c' = multibulklen c /\ zlen (unread c') <= zlen (unread c) end)).
    { destruct (Z.eqb_spec (bulklen c) (-1)) as [Eb|Eb].
      - apply (or_fault_mono _ _ _ _ (read_bulklen_safe s c Hsv Hin Hst Hrd Eb)). intros [c1|c1]; [done|]. intros (? & ? & ? & ? & ?). split_and!; [done..|lia].
      - apply or_fault_some. destruct Hbl as [?|[Hbl _]]; [done|]. split_and!; [by apply go_refl|done..]. }
    intros [c1|c1] H1; [by apply or_fault_some|]. destruct H1 as (Hg1 & Hrd1 & Hbo1 & Hm1 & Hu1). pose proof Hg1 as (Hs1 & Hf1 & Hsf1).
    destruct (read_bulk_safe c1) as (st & -> & H2); [split; [done|]; intros _; right; by split; [|right]|done|done|]. cbn [mbind option_bind].
    destruct st as [c2|c2]; [by apply or_fault_some|]. destruct H2 as (Hg2 & Hrt2 & Ha2 & Hb2 & Hm2 & Hu2). pose proof (go_trans _ _ _ Hg1 Hg2) as Hg. pose proof Hg as (Hs2 & Hf2 & Hsf2).
    destruct (Z.eq_dec (multibulklen c2) 0) as [E2|E2].
    + assert (El : multibulk_loop fuel s c2 = Some (c2, true)) by (destruct fuel; cbn [multibulk_loop]; by replace (_ =? _) with true by lia).
      rewrite El. apply or_fault_some. split; [done|lia].
    + apply (or_fault_mono _ _ _ _ (IH s c2 Hsv ltac:(by etransitivity) ltac:(split; [done|]; intros _; right; split; [|by left]; split; [by rewrite Hrt2; apply Hrd1|]; lia)
        ltac:(by rewrite (stopped_flags c)) ltac:(rewrite Hrt2; apply Hrd1) ltac:(lia) Ha2 (or_introl Hb2) ltac:(lia))).
      intros [c' [|]]; [|done]. intros [Hg' ?]. split; [by apply (go_trans _ c2)|lia].
Qed.

Lemma read_multibulklen_safe (s : server W) c : stop_ok c -> stopped c = false -> reqtype c = PROTO_REQ_MULTIBULK -> idle c -> (unread c).[0] = Some 42 ->
  exists r, read_multibulklen s c = Some r /\ match r with
    | inl (c', false) => stop_ok c'
    | inl (c', true) => go_ok c c' /\ zlen (unread c') < zlen (unread c)
    | inr c' => go_ok c c' /\ reading c' /\ bulklen c' = -1 /\ zlen (unread c') < zlen (unread c)
    end.
Proof.
  intros Hst Hns Hrt (Hm & Hbl & Ha) H42. pose proof Hst as [Hs _]. pose proof (sa_buffer _ Hs) as Hb. unfold read_multibulklen. rewrite Ha.
  cbn [length Z.of_nat Z.eqb]. destruct (find_line_ok c Hb) as (l & -> & Hl). cbn [mbind option_bind].
  destruct l as [| |n]; [destruct (_ >? _); eexists; split; try done; by apply error_stop|by eexists|].
  destruct Hl as (pre & post & E & -> & H0 & Hlen). rewrite H42. cbn [mbind option_bind Z.eqb Pos.eqb negb].
  destruct pre as [|y pre]; [rewrite E in H42; done|]. assert (Ey : y = 42) by (rewrite E in H42; by injection H42). subst y.
  destruct (line_number_ok c 42 pre post Hb E) as (r & -> & Hcan). cbn [mbind option_bind].
  destruct r as [ll|]; [|eexists; split; [done|]; by apply error_stop]. destruct (_ >? _); [eexists; split; [done|]; by apply error_stop|].
  destruct (_ && _); [eexists; split; [done|]; by apply error_stop|].
  destruct (buffer_skip c (zlen (42 :: pre) + 2) Hb) as [Hb1 Hu1]; [lia|]. rewrite Z.add_assoc in Hb1, Hu1.
  assert (Hdec : zlen (unread (set_qb_pos (qb_pos c + zlen (42 :: pre) + 2) c)) < zlen (unread c)) by (rewrite Hu1, length_drop; lia).
  assert (Hsuf : unread (set_qb_pos (qb_pos c + zlen (42 :: pre) + 2) c) `suffix_of` unread c) by (rewrite Hu1; apply drop_suffix).
  destruct (Z.leb_spec ll 0) as [Hle|Hgt]; eexists; (split; [done|]); cbn -[unread].
  - split; [by apply sane_same|done].
  - split; [apply sane_same; [done|done|by apply (buffer_same _ _ Hb1)|by rewrite (unread_same (set_qb_pos (qb_pos c + zlen (42 :: pre) + 2) c))]|].
    split; [split; [done|]; cbn; rewrite Ha; cbn; lia|]. split; [done|].
    by rewrite (unread_same (set_qb_pos (qb_pos c + zlen (42 :: pre) + 2) c)).
Qed.

Lemma processMultibulkBuffer_safe (s : server W) c : commands_lead s0 s -> unread c `suffix_of` inp -> stop_ok c -> stopped c = false -> reqtype c = PROTO_REQ_MULTIBULK ->
  safe (processMultibulkBuffer s c) (fun '(c', ok) => if ok : bool then go_ok c c' /\ zlen (unread c') < zlen (unread c) else stop_ok c').
Proof.
  intros Hsv Hin Hst Hns Hrt. pose proof Hst as [Hs Hrq]. specialize (Hrq Hns). unfold processMultibulkBuffer.
  assert (Hloop : forall c1, go_ok c c1 -> reading c1 -> (bulklen c1 = -1 \/ bulklen_ok c1) -> zlen (unread c1) <= zlen (unread c) ->
    safe (if multibulklen c1 >? 0 then multibulk_loop (Z.to_nat (multibulklen c1)) s c1 else None)
      (fun '(c', ok) => if ok : bool then go_ok c c' /\ zlen (unread c') < zlen (unread c) else stop_ok c')).
  { intros c1 Hg1 Hr1 Hb1 Hu1. pose proof Hg1 as (Hs1 & Hf1 & Hsf1). pose proof Hr1 as (Hrt1 & Hm1 & Ha1). replace (_ >? _) with true by lia.
    eapply or_fault_mono; [apply multibulk_loop_safe; try done; try lia|].
    - by etransitivity.
    - split; [done|]. intros _. by right.
    - by rewrite (stopped_flags c).
    - destruct Hb1 as [?|?]; [by left|by right].
    - intros [c' [|]]; [|done]. intros [Hg' ?]. split; [by apply (go_trans _ c1)|lia]. }
  destruct (Z.eqb_spec (multibulklen c) 0) as [E0|E0].
  - destruct Hrq as [[Hid Hq]|[(_ & ? & _) _]]; [|lia]. assert (H42 : (unread c).[0] = Some 42) by (destruct Hq as [Hq|[Hq|[_ Hq]]]; [by rewrite Hrt in Hq..|done]).
    destruct (read_multibulklen_safe s c Hst Hns Hrt Hid H42) as (r & -> & Hr). cbn [mbind option_bind]. destruct r as [[c' [|]]|c1].
    + by apply or_fault_some.
    + by apply or_fault_some.
    + destruct Hr as (? & ? & ? & ?). apply Hloop; [done|done|by left|lia].
  - cbn [mbind option_bind]. destruct Hrq as [[(? & _) _]|[Hr Hb]]; [done|]. apply Hloop; [by apply go_refl|done|done|lia].
Qed.

Lemma sds_content_ok t c : sds_rep t c -> sds_content t = Some c.
Proof.
  intros Ht. unfold sds_content. rewrite (rep_len _ _ Ht). cbn [mbind option_bind]. by apply rep_slice.
Qed.

Lemma inline_args_ok toks cs : Forall2 sds_rep toks cs -> forall c, zlen (argv c) + zlen toks <= argv_size c ->
  exists c', inline_args c toks = Some c' /\ argv c' = argv c ++ cs /\ querybuf c' = querybuf c /\ qb_pos c' = qb_pos c /\ flags c' = flags c.
Proof.
  induction 1 as [|t a toks cs Ht _ IH]; intros c Hc; cbn [inline_args]; [exists c; by rewrite app_nil_r|]. cbn [length] in Hc.
  rewrite (sds_content_ok _ _ Ht). cbn [mbind option_bind]. destruct (push_ok c a ltac:(lia)) as (c1 & -> & H1 & H2 & H3 & H4 & H5 & H6 & H7 & H8). cbn [mbind option_bind].
  destruct (IH c1) as (c' & -> & H1' & H2' & H3' & H4'); [rewrite H1, H8, length_app; cbn [length]; lia|]. exists c'. split; [done|].
  rewrite H1', H1, <- app_assoc. cbn [app]. repeat split; congruence.
Qed.

(** The line that was found, without its [\r]. *)
Lemma inline_line (pre : bytes) : cstring pre ->
  let prev := default 0 (pre !! Z.to_nat (zlen pre - 1)) in
  let q := if negb (zlen pre =? 0) && (prev =? 13) then (zlen pre - 1, 2) else (zlen pre, 1) in
  exists line, line `prefix_of` pre /\ cstring line /\ q.1 = zlen line /\ 0 < q.2 /\ q.1 + q.2 = zlen pre + 1.
Proof.
  intros Hc. cbv zeta. destruct (_ && _) eqn:E; cbn [fst snd]; [|exists pre; split; [done|]; split; [done|]; lia].
  exists (take (length pre - 1) pre). split; [by apply prefix_take|]. rewrite <- (take_drop (length pre - 1) pre) in Hc. apply cstring_app in Hc as [Hc _].
  split; [done|]. rewrite length_take. lia.
Qed.

Lemma processInlineBuffer_safe (s : server W) c : unread c `suffix_of` inp -> stop_ok c -> stopped c = false -> reqtype c = PROTO_REQ_INLINE -> idle c ->
  safe (processInlineBuffer s c) (fun '(c', ok) => if ok : bool then go_ok c c' /\ zlen (unread c') < zlen (unread c) else stop_ok c').
Proof.
  intros Hin Hst Hns Hrt (Hm & Hbl & Ha). pose proof Hst as [Hs _]. pose proof (sa_buffer _ Hs) as Hb. unfold processInlineBuffer.
  destruct (strchr_ok (unread c) 10 ltac:(lia)) as (r & -> & Hr). cbn [mbind option_bind].
  destruct r as [nl|]; [|destruct (_ >? _); apply or_fault_some; [by apply error_stop|done]].
  destruct Hr as (pre & post & E & -> & H0 & _).
  assert (Hcs : cstring pre). { split; [|done]. pose proof (unread_bytes c Hb) as Hby. rewrite E in Hby. by apply Forall_app in Hby as [? _]. }
  assert (Eprev : exists prev, (if zlen pre =? 0 then Some 0 else (unread c).[zlen pre - 1]) = Some prev /\ prev = default 0 (pre !! Z.to_nat (zlen pre - 1))).
  { destruct (Z.eqb_spec (zlen pre) 0) as [Ez|Ez]; [exists 0; split; [done|]; by destruct pre|].
    destruct (lookup_lt_is_Some_2 pre (Z.to_nat (zlen pre - 1))) as (p & Ep); [lia|]. exists p. rewrite Ep, E, bget_lookup, lookup_app_l by lia. done. }
  destruct Eprev as (prev & -> & Hprev). cbn [mbind option_bind]. pose proof (inline_line pre Hcs) as Hline. cbv zeta in Hline. rewrite <- Hprev in Hline.
  destruct (if negb (zlen pre =? 0) && (prev =? 13) then (zlen pre - 1, 2) else (zlen pre, 1)) as [ql lf]. cbn [fst snd] in Hline.
  destruct Hline as (line & [rest ->] & Hcl & -> & Hlf & Hsum). rewrite E, <- app_assoc, bslice_head by done. cbn [mbind option_bind].
  pose proof (zlen_unread c Hb) as Hz. pose proof (bo_len _ Hb) as Hmax. pose proof (bo_pos _ Hb) as Hpos. unfold QUERYBUF_MAX in Hmax. rewrite E in Hz. rewrite !length_app in Hz. cbn [length] in Hz.
  destruct (sdsnewlen_ok (Init line) (zlen line)) as (aux & c0 & -> & Haux & Hc0 & _); [lia|by split; [|apply Hcl]|]. cbn [init_contents] in Hc0. rewrite Nat2Z.id, take_ge in Hc0 by lia. subst c0. cbn [mbind option_bind].
  destruct (rep_buf _ _ Haux) as (tl & Ebuf). rewrite Ebuf, strlen_app by apply Hcl. cbn [mbind option_bind]. rewrite bslice_head by done. cbn [mbind option_bind].
  destruct (sdssplitargs_total line Hcl ltac:(lia)) as [(args & -> & Hargs)|[-> Hbig]].
  2: { right. split; [done|]. right. destruct Hin as [l ->]. rewrite E, !length_app. lia. }
  cbn [mbind option_bind]. rewrite (rep_free _ _ Haux). cbn [mbind option_bind].
  destruct args as [args|]; [|apply or_fault_some; by apply error_stop]. destruct Hargs as (cs & Hcs').
  set (c1 := if (zlen line =? 0) && _ then set_repl_ack_time (unixtime s) c else c).
  assert (Hc1 : flags c1 = flags c /\ querybuf c1 = querybuf c /\ qb_pos c1 = qb_pos c /\ argv c1 = argv c) by (unfold c1; by destruct (_ && _)).
  destruct Hc1 as (Hf1 & Hq1 & Hp1 & Ha1). replace (has c1 CLIENT_MASTER) with false by (unfold has; rewrite Hf1; symmetry; apply Hs). rewrite andb_false_r.
  set (c2 := if negb _ then _ else _). assert (Hc2 : flags c2 = flags c /\ querybuf c2 = querybuf c /\ qb_pos c2 = qb_pos c + (zlen line + lf) /\ (args <> [] -> argv_size c2 = zlen args)).
  { unfold c2. destruct (Z.eqb_spec (zlen args) 0) as [Ez|Ez]; cbn; rewrite ?Hf1, ?Hq1, ?Hp1; repeat split; intros Hne; try done. by destruct args. }
  destruct Hc2 as (Hf2 & Hq2 & Hp2 & Hsz2).
  assert (Hia : exists c', inline_args (set_argv [] c2) args = Some c' /\ querybuf c' = querybuf c /\ qb_pos c' = qb_pos c + (zlen line + lf) /\ flags c' = flags c).
  { destruct args as [|a args]; [exists (set_argv [] c2); done|]. destruct (inline_args_ok (a :: args) cs Hcs' (set_argv [] c2)) as (c' & E' & _ & Hq' & Hp' & Hf').
    - cbn [argv set_argv argv_size]. rewrite Hsz2 by done. cbn [length]. lia.
    - exists c'. rewrite Hq', Hp', Hf'. done. }
  destruct Hia as (c' & -> & Hq' & Hp' & Hf'). cbn [mbind option_bind]. apply or_fault_some.
  destruct (buffer_skip c (zlen line + lf) Hb) as [Hb3 Hu3]; [rewrite E, !length_app in *; cbn [length] in *; lia|].
  assert (Hu' : unread c' = drop (Z.to_nat (zlen line + lf)) (unread c)) by (rewrite <- Hu3; by apply unread_same).
  split; [apply sane_same; [done|done|by apply (buffer_same _ _ Hb3)|rewrite Hu'; apply drop_suffix]|].
  rewrite Hu', length_drop. rewrite E, !length_app in *. cbn [length] in *. lia.
Qed.
End safety.

(** * The command loop *)

(** What the execution of a command promises to the parser: it does not touch
    the query buffer and what the client is; an error means that the client is
    closed ([QUIT]) or was freed. It may change the server in any way, the limits
    of the configuration included ([CONFIG SET]). *)
Class ExecOk (W : Type) `{Exec W} := {
  exec_link : forall s c s' c' ok dead, processCommand s c = (s', c', ok, dead) -> same_link c c';
  exec_kind : forall s c s' c' ok dead f, processCommand s c = (s', c', ok, dead) -> f = CLIENT_MASTER \/ f = CLIENT_LUA -> has c' f = has c f;
  exec_error : forall s c s' c' dead, processCommand s c = (s', c', false, dead) -> dead = true \/ has c' CLIENT_CLOSE_AFTER_REPLY = true
}.

Lemma has_close c : has c CLIENT_CLOSE_AFTER_REPLY = true -> stopped c = true.
Proof.
  unfold stopped, has. intros Hc. rewrite Z.land_lor_distr_r. destruct (Z.eqb_spec (Z.lor (Z.land (flags c) CLIENT_CLOSE_AFTER_REPLY) (Z.land (flags c) CLIENT_CLOSE_ASAP)) 0) as [E|E].
  - apply Z.lor_eq_0_iff in E as [E _]. by rewrite E in Hc.
  - by rewrite orb_true_r.
Qed.

Lemma reset_sane c : sane c -> stop_ok (resetClient c).
Proof.
  intros [Hb Hm Hl]. destruct (resetClient_ok c) as ((E1 & E2 & _) & _). split; [|intros _; apply resetClient_request].
  split; [by apply (buffer_same c)|..]; by rewrite resetClient_has.
Qed.

Section loop.
Context `{HH : Host, AA : SdsAlloc} {W : Type} `{EE : Exec W, EO : !ExecOk W}.
Context (s0 : server W) (inp : bytes).
Abbreviation safe := (or_fault (overflows s0 inp)).

Lemma processCommandAndResetClient_safe (s : server W) c : commands_lead s0 s -> sane c ->
  exists s' c' alive, processCommandAndResetClient s c = Some (s', c', alive) /\ commands_lead s0 s' /\ (alive = true -> stop_ok c' /\ unread c' = unread c).
Proof.
  intros Hsv [Hb Hm Hl]. unfold processCommandAndResetClient. destruct (processCommand s c) as [[[s1 c1] ok] dead] eqn:E.
  pose proof (exec_link _ _ _ _ _ _ E) as (Eq & Ep & _). pose proof (lead_command _ _ _ _ _ _ _ Hsv E) as Hsv1.
  assert (Hs1 : sane c1). { split; [by apply (buffer_same c)|..]; rewrite (exec_kind _ _ _ _ _ _ _ E) by auto; done. }
  assert (Hu1 : unread c1 = unread c) by by apply unread_same. destruct ok.
  - unfold commandProcessed. destruct (has c1 CLIENT_BLOCKED) eqn:Ebl; cbn [mbind option_bind].
    + eexists _, _, _. split; [done|]. split; [done|]. intros _. split; [|done]. split; [done|]. unfold stopped. by rewrite Ebl.
    + destruct (resetClient_ok c1) as ((Eq2 & Ep2 & _) & _). pose proof (reset_sane c1 Hs1) as Hr. rewrite (sa_master _ (proj1 Hr)). cbn [andb]. rewrite (sa_master _ (proj1 Hr)). cbn [mbind option_bind].
      eexists _, _, _. split; [done|]. split; [done|]. intros _. split; [done|]. rewrite <- Hu1. by apply unread_same.
  - cbn [mbind option_bind]. eexists _, _, _. split; [done|]. split; [done|]. intros Hal. split; [|done]. split; [done|]. intros Hns.
    destruct (exec_error _ _ _ _ _ E) as [->|Hc]; [done|]. rewrite (has_close _ Hc) in Hns. done.
Qed.

Lemma set_flag_sane c f : sane c -> Z.land f CLIENT_MASTER = 0 -> Z.land f CLIENT_LUA = 0 -> sane (set_flag f c).
Proof. intros [Hb Hm Hl] H1 H2. split; [by destruct Hb|..]; rewrite has_set, ?Hm, ?Hl, ?H1, ?H2; done. Qed.

(** How the body of the loop ends. *)
Definition step_ok (c : client) (st : lstep) : Prop :=
  match st with
  | LBreak s' c' => commands_lead s0 s' /\ stop_ok c'
  | LReturn s' _ => commands_lead s0 s'
  | LNext s' c' => commands_lead s0 s' /\ stop_ok c' /\ unread c' `suffix_of` unread c /\ zlen (unread c') < zlen (unread c)
  end.

Lemma run_request_safe (s : server W) c c0 : commands_lead s0 s -> sane c -> unread c `suffix_of` unread c0 -> zlen (unread c) < zlen (unread c0) ->
  exists st, run_request s c = Some st /\ step_ok c0 st.
Proof.
  intros Hsv Hs Hu Hn. unfold run_request. destruct (_ =? _).
  - eexists. split; [done|]. split; [done|]. split; [by apply reset_sane|]. destruct (resetClient_ok c) as ((E1 & E2 & _) & _). by rewrite (unread_same c).
  - destruct (has c CLIENT_PENDING_READ).
    + eexists. split; [done|]. split; [done|]. split; [by apply set_flag_sane|]. unfold stopped. rewrite !has_set. cbn. by rewrite !orb_true_r.
    + destruct (processCommandAndResetClient_safe s c Hsv Hs) as (s' & c' & alive & -> & Hsv' & Hc'). cbn [mbind option_bind]. eexists. split; [done|].
      destruct alive; [|done]. destruct (Hc' eq_refl) as [? E]. cbn [step_ok]. by rewrite E.
Qed.

(** The type of a new request. *)
Lemma request_type c : stop_ok c -> stopped c = false -> qb_pos c < zlen (querybuf c) ->
  exists c1, (if reqtype c =? 0 then x ← (unread c).[0]; Some (set_reqtype (if x =? 42 then PROTO_REQ_MULTIBULK else PROTO_REQ_INLINE) c) else Some c) = Some c1
    /\ stop_ok c1 /\ stopped c1 = false /\ unread c1 = unread c /\ (reqtype c1 = PROTO_REQ_INLINE /\ idle c1 \/ reqtype c1 = PROTO_REQ_MULTIBULK).
Proof.
  intros Hst Hns Hlt. pose proof Hst as [Hs Hrq]. specialize (Hrq Hns). pose proof (zlen_unread c (sa_buffer _ Hs)) as Hz. destruct (Z.eqb_spec (reqtype c) 0) as [E0|E0].
  - destruct Hrq as [[Hid _]|[(Hrt & _) _]]; [|by rewrite Hrt in E0]. destruct (unread c) as [|x u] eqn:Eu; [cbn in Hz; lia|]. rewrite bget_0. cbn [mbind option_bind].
    eexists. split; [done|]. split; [|split; [by rewrite (stopped_flags c)|split; [done|cbn; destruct (x =? 42); [by right|by left]]]].
    split; [apply (sane_flags c); [done|done|by apply (buffer_same c); [apply Hs|..]]|]. intros _. left. split; [done|]. right. cbn [reqtype set_reqtype].
    destruct (Z.eqb_spec x 42) as [->|Hx]; [right|by left]. split; [done|]. by rewrite (unread_same c), Eu.
  - exists c. split; [done|]. split; [done|]. split; [done|]. split; [done|]. destruct Hrq as [[Hid [?|[?|[? _]]]]|[(? & _) _]]; [done|by left|by right..].
Qed.

Lemma input_step_safe (s : server W) c : commands_lead s0 s -> unread c `suffix_of` inp -> stop_ok c -> qb_pos c < zlen (querybuf c) ->
  safe (input_step s c) (step_ok c).
Proof.
  intros Hsv Hin Hst Hlt. unfold input_step. destruct (has c CLIENT_BLOCKED) eqn:E1; [by apply or_fault_some|]. destruct (has c CLIENT_PENDING_COMMAND) eqn:E2; [by apply or_fault_some|].
  destruct (_ && _); [by apply or_fault_some|]. destruct (has c (Z.lor _ _)) eqn:E3; [by apply or_fault_some|].
  assert (Hns : stopped c = false) by (unfold stopped; by rewrite E1, E2, E3).
  destruct (request_type c Hst Hns Hlt) as (c1 & -> & Hst1 & Hns1 & Hu1 & Hrt1). cbn [mbind option_bind]. rewrite <- Hu1 in Hin.
  assert (Hrun : forall c2, go_ok c1 c2 -> zlen (unread c2) < zlen (unread c1) -> safe (run_request s c2) (step_ok c)).
  { intros c2 (Hs2 & _ & Hsf2) Hu2. rewrite Hu1 in Hu2, Hsf2. left. by apply run_request_safe. }
  destruct Hrt1 as [[Hrt1 Hid1]|Hrt1]; rewrite Hrt1.
  - cbn [Z.eqb PROTO_REQ_INLINE Pos.eqb]. apply (or_fault_bind _ _ _ _ _ (processInlineBuffer_safe s0 inp s c1 Hin Hst1 Hns1 Hrt1 Hid1)). intros [c2 ok] Hp.
    destruct ok; cbn [negb]; [|by apply or_fault_some]. destruct Hp as [Hgo Hu2]. destruct (_ && _); [|by apply Hrun]. apply or_fault_some. split; [by apply lead_gopher|].
    destruct (reset_sane c2 (proj1 Hgo)) as [Hs3 _]. split; [by apply set_flag_sane|]. intros Hns3. exfalso. revert Hns3. unfold stopped. rewrite !has_set. by rewrite !orb_true_r.
  - change (PROTO_REQ_MULTIBULK =? PROTO_REQ_INLINE) with false. rewrite Z.eqb_refl. cbn [negb].
    apply (or_fault_bind _ _ _ _ _ (processMultibulkBuffer_safe s0 inp s c1 Hsv Hin Hst1 Hns1 Hrt1)). intros [c2 ok] Hp.
    destruct ok; cbn [negb]; [|by apply or_fault_some]. destruct Hp as [Hgo Hu2]. by apply Hrun.
Qed.

Lemma trim_stop c : stop_ok c -> stop_ok (if negb (qb_pos c =? 0) then trim_querybuf c else c).
Proof.
  intros [Hs Hr]. destruct (negb _); [|done]. destruct (buffer_trim c (sa_buffer _ Hs)) as [Hb Hu]. split; [by apply (sane_flags c)|].
  intros Hns. rewrite (stopped_flags c) in Hns by done. destruct (Hr Hns) as [[Hid Hq]|Hq]; [left|by right]. split; [done|]. by rewrite Hu.
Qed.

(** What is left of a client after an event. *)
Definition result_ok (closing : client -> Prop) (res : server W * client * bool) : Prop :=
  let '(s', c', alive) := res in commands_lead s0 s' /\ (alive = true -> closing c' \/ stop_ok c').
Abbreviation open := (fun _ : client => False).

Lemma input_loop_safe : forall fuel (s : server W) c, commands_lead s0 s -> unread c `suffix_of` inp -> stop_ok c -> (length (unread c) <= fuel)%nat ->
  safe (input_loop fuel s c) (result_ok open).
Proof.
  induction fuel as [|fuel IH]; intros s c Hsv Hin Hst Hf; cbn [input_loop]; pose proof (zlen_unread c (sa_buffer _ (proj1 Hst))) as Hz;
    (destruct (Z.ltb_spec (qb_pos c) (zlen (querybuf c))) as [Hlt|Hge]; [|apply or_fault_some; split; [done|]; intros _; right; by apply trim_stop]); [lia|].
  apply (or_fault_bind _ _ _ _ _ (input_step_safe s c Hsv Hin Hst Hlt)). intros [s1 c1|s1 c1|s1 c1] Hp.
  - destruct Hp as [Hsv1 Hst1]. apply or_fault_some. split; [done|]. intros _. right. by apply trim_stop.
  - by apply or_fault_some.
  - destruct Hp as (Hsv1 & Hst1 & Hsf1 & Hu1). apply IH; [done|by etransitivity|done|lia].
Qed.

Lemma processInputBuffer_safe (s : server W) c : commands_lead s0 s -> unread c `suffix_of` inp -> stop_ok c -> safe (processInputBuffer s c) (result_ok open).
Proof. intros Hsv Hin Hst. apply input_loop_safe; [done|done|done|]. unfold unread. rewrite length_drop. lia. Qed.

Lemma stop_flags c c' : stop_ok c -> querybuf c' = querybuf c -> qb_pos c' = qb_pos c -> request_ok c' = request_ok c ->
  has c' CLIENT_MASTER = has c CLIENT_MASTER -> has c' CLIENT_LUA = has c CLIENT_LUA -> (stopped c' = false -> stopped c = false) -> stop_ok c'.
Proof.
  intros [[Hb Hm Hl] Hr] Hq Hp Er H1 H2 H3. split; [split; [by apply (buffer_same c)|by rewrite H1|by rewrite H2]|]. intros Hns. rewrite Er. auto.
Qed.

(** What the environment guarantees: a read gives bytes, at most as many as
    were asked for, and there is memory for a query buffer of 2^61 bytes at most; only a blocked client is unblocked, and a paused one has a
    pending command ([blockClient]); the threads do not block clients. *)
Definition event_ok (c : client) (ev : client_event) : Prop :=
  match ev with
  | EvRead (ReadData data) => Forall byte_ok data /\ zlen data <= readlen c /\ zlen (querybuf c) + zlen data <= QUERYBUF_MAX
  | EvUnblock pause => has c CLIENT_BLOCKED = true /\ (pause = true -> has c CLIENT_PENDING_COMMAND = true)
  | EvThreadRead => has c CLIENT_BLOCKED = false
  | _ => True
  end.

Lemma readlen_bound c : readlen c <= PROTO_IOBUF_LEN.
Proof.
  unfold readlen. destruct (_ && _ && _ && _); [|lia]. destruct (_ && _) eqn:E; lia.
Qed.

(** Appending to the query buffer. *)
Lemma append_stop c c' data : stop_ok c -> Forall byte_ok data -> querybuf c' = querybuf c ++ data -> zlen (querybuf c') <= QUERYBUF_MAX -> qb_pos c' = qb_pos c ->
  flags c' = flags c -> reqtype c' = reqtype c -> multibulklen c' = multibulklen c -> bulklen c' = bulklen c -> argv c' = argv c -> argv_size c' = argv_size c -> stop_ok c'.
Proof.
  intros [Hs Hr] Hd Hq Hl Hp Hf H1 H2 H3 H4 H5. pose proof (sa_buffer _ Hs) as Hb. assert (Eu : unread c' = unread c ++ data).
  { unfold unread. rewrite Hq, Hp. destruct Hb as [Hp0 _ _]. rewrite drop_app_le by lia. done. }
  split; [apply (sane_flags c); [done|done|]|].
  - destruct Hb as [Hp0 _ Hby]. split; rewrite ?Hp; [rewrite Hq, length_app; lia|done|]. rewrite Hq. by apply Forall_app.
  - rewrite (stopped_flags c) by done. intros Hns. specialize (Hr Hns). unfold request_ok, idle, reading, bulklen_ok in *. rewrite H1, H2, H3, H4, H5, Eu.
    destruct Hr as [[Hid [Hq0|[Hq0|[Hq0 H42]]]]|Hr]; [left; by split; [|left]|left; by split; [|right; left]|left; split; [done|]; right; right; split; [done|]|by right].
    rewrite bget_lookup in * by lia. by apply lookup_app_l_Some.
Qed.

Lemma reprocess_safe (s : server W) c (k : server W -> client -> option (server W * client * bool)) : commands_lead s0 s -> unread c `suffix_of` inp -> stop_ok c ->
  (forall s c, commands_lead s0 s -> unread c `suffix_of` inp -> stop_ok c -> safe (k s c) (result_ok open)) ->
  safe ('(s, c, alive) ← processPendingCommandsAndResetClient s c; if negb alive then Some (s, c, false) else k s c) (result_ok open).
Proof.
  intros Hsv Hin Hst Hk. unfold processPendingCommandsAndResetClient. destruct (has c CLIENT_PENDING_COMMAND).
  - destruct (processCommandAndResetClient_safe s (clear_flag CLIENT_PENDING_COMMAND c) Hsv) as (s1 & c1 & alive & -> & Hsv1 & Hc1).
    { destruct Hst as [[Hb Hm Hl] _]. split; [by destruct Hb|..]; by rewrite has_clear. }
    cbn [mbind option_bind]. destruct alive; cbn [negb]; [|by apply or_fault_some]. destruct (Hc1 eq_refl) as [Hst1 E]. apply Hk; [done|by rewrite E|done].
  - cbn [mbind option_bind negb]. by apply Hk.
Qed.

Lemma clear_stop c f : stop_ok c -> Z.land f CLIENT_MASTER = 0 -> Z.land f CLIENT_LUA = 0 -> Z.land f CLIENT_BLOCKED = 0 -> Z.land f CLIENT_PENDING_COMMAND = 0 ->
  Z.land f (Z.lor CLIENT_CLOSE_AFTER_REPLY CLIENT_CLOSE_ASAP) = 0 -> stop_ok (clear_flag f c).
Proof.
  intros Hst H1 H2 H3 H4 H5. apply (stop_flags c); [done|done|done|done|by apply has_clear|by apply has_clear|]. unfold stopped. by rewrite !has_clear.
Qed.

Lemma unblock_stop c pause : stop_ok c -> (pause = true -> has c CLIENT_PENDING_COMMAND = true) -> stop_ok (unblockClient pause c).
Proof.
  intros Hst Hpc. unfold unblockClient. set (c1 := if pause then c else resetClient c).
  assert (H1 : stop_ok (clear_flag CLIENT_BLOCKED c1)).
  { assert (Hc1 : stop_ok c1 /\ (request_ok c1 \/ has c1 CLIENT_PENDING_COMMAND = true)).
    { unfold c1. destruct pause; [split; auto|]. split; [apply reset_sane; by destruct Hst|]. left. apply resetClient_request. }
    destruct Hc1 as [[[Hb Hm Hl] _] Hrq]. split; [split; [by destruct Hb|..]; by rewrite has_clear|].
    unfold stopped. rewrite (has_clear _ _ CLIENT_PENDING_COMMAND) by done. destruct Hrq as [Hrq| ->]; [done|]. by rewrite orb_true_r. }
  destruct (has _ CLIENT_UNBLOCKED); [done|]. apply (stop_flags (clear_flag CLIENT_BLOCKED c1)); [done|done|done|done|..]; [by rewrite has_set, orb_false_r..|].
  unfold stopped. rewrite !(has_set _ CLIENT_UNBLOCKED). cbn -[has]. by rewrite !orb_false_r.
Qed.

(** The bytes to parse at an event. *)
Definition input (c : client) (ev : client_event) : bytes :=
  unread c ++ match ev with EvRead (ReadData data) => data | _ => [] end.

Lemma readQueryFromClient_safe (s : server W) c r : commands_lead s0 s -> input c (EvRead r) `suffix_of` inp -> stop_ok c -> event_ok c (EvRead r) ->
  safe (readQueryFromClient s c r) (result_ok (fun c' => has c' CLIENT_CLOSE_ASAP = true)).
Proof.
  intros Hsv Hin Hst Hev. unfold readQueryFromClient. unfold postponeClientRead. destruct (_ && _).
  { apply or_fault_some. split; [done|]. intros _. right. apply (stop_flags c); [done|done|done|done|by rewrite has_set, orb_false_r..|].
    unfold stopped. rewrite !has_set. cbn -[has]. by rewrite !orb_false_r. }
  set (c1 := if querybuf_peak c <? _ then set_querybuf_peak _ c else c).
  assert (Hc1 : flags c1 = flags c /\ querybuf c1 = querybuf c /\ qb_pos c1 = qb_pos c /\ reqtype c1 = reqtype c /\ multibulklen c1 = multibulklen c
    /\ bulklen c1 = bulklen c /\ argv c1 = argv c /\ argv_size c1 = argv_size c) by (unfold c1; by destruct (_ <? _)).
  assert (Hm1 : has c1 CLIENT_MASTER = false /\ has c1 CLIENT_LUA = false) by (unfold has; destruct Hc1 as [-> _]; by destruct Hst as [[? ? ?] _]).
  destruct Hc1 as (Hf & Hq & Hp & H1 & H2 & H3 & H4 & H5), Hm1 as [Hm1 Hl1].
  assert (Hfree : forall c2, has c2 CLIENT_LUA = false -> has (freeClientAsync c2) CLIENT_CLOSE_ASAP = true).
  { intros c2 Hl2. unfold freeClientAsync. rewrite Hl2, orb_false_r. destruct (has c2 CLIENT_CLOSE_ASAP) eqn:E; [done|]. rewrite has_set. by rewrite orb_true_r. }
  assert (Hst1 : stop_ok c1). { apply (append_stop c c1 []); try done; rewrite ?app_nil_r, ?Hq; try done. apply Hst. }
  destruct r as [connected| |data].
  - apply or_fault_some. split; [done|]. intros _. destruct connected; [by right|left; by apply Hfree].
  - apply or_fault_some. split; [done|]. intros _. left. by apply Hfree.
  - destruct Hev as (Hd & Hlen & Hmem). destruct (Z.gtb_spec (zlen data) (readlen c)) as [?|_]; [lia|]. rewrite Hm1. cbn zeta. cbn [mbind option_bind].
    change (has (set_lastinteraction (unixtime s) (set_querybuf (querybuf c1 ++ data) c1)) CLIENT_MASTER) with (has c1 CLIENT_MASTER). rewrite Hm1. cbn [mbind option_bind].
    match goal with |- context [processInputBuffer s ?x] => set (c2 := x) end.
    assert (Hc2 : querybuf c2 = querybuf c1 ++ data /\ qb_pos c2 = qb_pos c1 /\ flags c2 = flags c1 /\ reqtype c2 = reqtype c1 /\ multibulklen c2 = multibulklen c1
      /\ bulklen c2 = bulklen c1 /\ argv c2 = argv c1 /\ argv_size c2 = argv_size c1) by done.
    destruct Hc2 as (G1 & G2 & G3 & G4 & G5 & G6 & G7 & G8).
    destruct (Z.gtb_spec (zlen (querybuf c2)) (client_max_querybuf_len s)) as [Hg|Hle].
    + apply or_fault_some. split; [done|]. intros _. left. apply Hfree. unfold has. by rewrite G3.
    + eapply or_fault_mono; [apply processInputBuffer_safe; [done|..]|].
      * replace (unread c2) with (input c (EvRead (ReadData data))); [done|]. unfold input, unread. rewrite G1, G2, Hp, Hq. destruct Hst as [[[Hp0 _ _] _ _] _]. by rewrite drop_app_le by lia.
      * apply (append_stop c1 c2 data); try done. rewrite G1, Hq, length_app. lia.
      * intros [[s' c'] alive] [? Hr]. split; [done|]. intros Ha. destruct (Hr Ha) as [[]|?]. by right.
Qed.
End loop.

Section safe.
Context `{HH : Host, AA : SdsAlloc} {W : Type} `{EE : Exec W, EO : !ExecOk W}.

(** C7: the parser is safe on arbitrary input, up to two overflows. Whatever
    bytes a client that is not a master sends, in whatever pieces, whenever it is
    unblocked or handled by an I/O thread, whatever limits are configured and
    whatever the commands do to the server: every handler returns, no assertion
    fails, nothing is read or written outside the query buffer and the argument
    vector, no signed addition overflows; and unless the client is to be closed or
    was freed, its parse state is consistent again (the announced number of
    arguments fits the vector, a multibulk request still starts with an asterisk,
    a request in progress has a valid bulk length). A fault is only possible when
    the bytes to parse announce a bulk length of 2^63-2 or more, and the limit
    proto-max-bulk-len of the server, or of the server after some commands, allows
    it ([ll+2] overflows), or when they are more than INT_MAX (the [int] that
    counts the arguments of an inline request can overflow). *)
Theorem parser_safe (s : server W) c ev : stop_ok c -> event_ok c ev ->
  (exists s' c' alive, client_step s c ev = Some (s', c', alive) /\ (alive = true -> has c' CLIENT_CLOSE_ASAP = true \/ stop_ok c')) \/
  (client_step s c ev = None /\ overflows s (input c ev)).
Proof.
  intros Hst Hev. assert (H : or_fault (overflows s (input c ev)) (client_step s c ev) (result_ok s (fun c' => has c' CLIENT_CLOSE_ASAP = true))).
  2: { destruct H as [([[s' c'] alive] & E & _ & Hr)|H]; [left; by exists s', c', alive|by right]. }
  assert (Hsv := lead_none s). assert (Hin : input c ev `suffix_of` input c ev) by done.
  assert (Hweak : forall o : option (server W * client * bool), or_fault (overflows s (input c ev)) o (result_ok s (fun _ => False)) ->
    or_fault (overflows s (input c ev)) o (result_ok s (fun c' => has c' CLIENT_CLOSE_ASAP = true))).
  { intros o Ho. apply (or_fault_mono _ _ _ _ Ho). intros [[s' c'] alive] [? Hr]. split; [done|]. intros Ha. destruct (Hr Ha) as [[]|?]. by right. }
  destruct ev as [r|pause| |]; cbn [client_step].
  - by apply readQueryFromClient_safe.
  - destruct Hev as [_ Hpc]. apply or_fault_some. split; [done|]. intros _. right. by apply unblock_stop.
  - apply Hweak. unfold processUnblockedClient. destruct (has (clear_flag _ c) CLIENT_BLOCKED); [apply or_fault_some; split; [done|]; intros _; right; by apply clear_stop|].
    apply (reprocess_safe s _ s _ (fun s c => if zlen (querybuf c) >? 0 then processInputBuffer s c else Some (s, c, true))); [done|unfold input; by rewrite app_nil_r|by apply clear_stop|].
    intros s1 c1 Hsv1 Hin1 Hst1. destruct (_ >? _); [by apply processInputBuffer_safe|]. apply or_fault_some. split; [done|]. by right.
  - apply Hweak. unfold processPendingReadClient. rewrite has_clear by done. cbn in Hev. rewrite Hev. apply reprocess_safe; [done|unfold input; by rewrite app_nil_r|by apply clear_stop|].
    intros s1 c1 Hsv1 Hin1 Hst1. by apply processInputBuffer_safe.
Qed.
End safe.

(** * An instance *)

#[local] Existing Instance LittleHost.
#[local] Existing Instance RoundAlloc.

Definition set_rest {W} (w : W) (s : server W) : server W :=
  mkServer (lua_timedout s) (gopher_enabled s) (io_threads_active s) (io_threads_do_reads s) (ProcessingEventsWhileBlocked s) (default_user_auth s)
    (proto_max_bulk_len s) (client_max_querybuf_len s) (unixtime s) (srv_repl s) w.

(** A server whose commands are recorded, and [QUIT]. *)
#[export] Instance LogExec : Exec (list (list bytes)) := {|
  processCommand s c :=
    if match argv c with a :: _ => strcaseeq a (of_string "quit") | [] => false end then (s, set_flag CLIENT_CLOSE_AFTER_REPLY c, false, false)
    else (set_rest (srv_rest s ++ [argv c]) s, c, true, false);
  processGopherRequest s c := s
|}.

#[export] Instance LogExec_ok : ExecOk (list (list bytes)).
Proof.
  split; cbn [processCommand LogExec processGopherRequest]; [intros s c s' c' ok dead|intros s c s' c' ok dead f|intros s c s' c' dead];
    destruct (match argv c with a :: _ => strcaseeq a (of_string "quit") | [] => false end); intros E; simplify_eq; try done.
  - by intros [->| ->]; rewrite has_set, orb_false_r.
  - right. rewrite has_set. by rewrite orb_true_r.
Qed.

Definition sample_server : server (list (list bytes)) := mkServer false false false false false false (512 * 1024 * 1024) (1024 * 1024 * 1024) 0 sample_repl [].

(** As [createClient] leaves it. *)
Definition sample_client (flags : Z) : client := mkClient [] [] 0 0 0 [] 0 0 None 0 (-1) flags None [] true 0 0 5 5.

Lemma sample_client_ok : stop_ok (sample_client 0).
Proof.
  split; [|intros _; left; split; [done|by left]]. split; [|done|done]. split; cbn; [lia|unfold QUERYBUF_MAX; lia|constructor].
Qed.

(** An inline request, and the beginning of another one. *)
Definition sample_input : bytes := of_string "GET 'a b'" ++ [13; 10] ++ of_string "*1" ++ [13; 10; 36; 52].

Lemma parser_safe_witness :
  (exists s' c' alive, client_step sample_server (sample_client 0) (EvRead (ReadData sample_input)) = Some (s', c', alive) /\
     (alive = true -> has c' CLIENT_CLOSE_ASAP = true \/ stop_ok c')) \/
  (client_step sample_server (sample_client 0) (EvRead (ReadData sample_input)) = None /\ overflows sample_server (input (sample_client 0) (EvRead (ReadData sample_input)))).
Proof.
  apply (parser_safe sample_server (sample_client 0)).
  - apply sample_client_ok.
  - split; [unfold sample_input; vm_compute of_string; bytes_compute|split; vm_compute; discriminate].
Defined.

(** The commands that were run, and what is left in the buffer. *)
Lemma parser_sample : (fun '(s, c, _) => (srv_rest s, querybuf c, multibulklen c)) <$>
  client_step sample_server (sample_client 0) (EvRead (ReadData sample_input))
  = Some ([[of_string "GET"; of_string "a b"]], [36; 52], 1).
Proof. vm_compute. reflexivity. Qed.

(** The server after [CONFIG SET proto-max-bulk-len 9223372036854775807]. *)
Definition unlimited_server : server (list (list bytes)) := mkServer false false false false false false LLONG_MAX (1024 * 1024 * 1024) 0 sample_repl [].

(** A bulk length that overflows [ll+2]. *)
Lemma bulk_length_overflows :
  client_step unlimited_server (sample_client 0) (EvRead (ReadData (of_string "*1" ++ [13; 10] ++ of_string "$9223372036854775807" ++ [13; 10]))) = None.
Proof. vm_compute. reflexivity. Qed.
