(* ===== verification/ProtocolRun.v ===== *)
(** The parser on well-formed input: any stream of encoded commands, cut into
    reads in any way, runs exactly these commands; on the link with a master
    the bytes that were applied reach the backlog and the replicas. *)
From S2P Require Import Prelude Endian Util Sds SdsSpec SdsOps SdsText SdsArgs Wire Replication Protocol ProtocolSpec.
Open Scope Z_scope.

(** * Header lines *)

Lemma strchr_at h t x : x ∉ h -> 0 ∉ h -> strchr (h ++ x :: t) x = Some (Some (zlen h)).
Proof.
  intros Hx H0. induction h as [|y h IH]; cbn [app strchr]; [by rewrite Z.eqb_refl|]. apply not_elem_of_cons in Hx as [? ?], H0 as [? ?].
  replace (y =? x) with false by lia. replace (y =? 0) with false by lia. rewrite IH by done. cbn [mbind option_bind option_map length]. do 2 f_equal. lia.
Qed.

Lemma strchr_none u x : x <> 0 -> x ∉ u -> 0 ∉ u -> strchr (u ++ [0]) x = Some None.
Proof.
  intros Hx0 Hx H0. induction u as [|y u IH]; cbn [app strchr]; [by replace (0 =? x) with false by lia|]. apply not_elem_of_cons in Hx as [? ?], H0 as [? ?].
  replace (y =? x) with false by lia. replace (y =? 0) with false by lia. by rewrite IH.
Qed.

(** A header line [h] is at the start of the input, of which the last part
    [fut] was not read yet. *)
Lemma line_cases c fut h rest : buffer_ok c -> unread c ++ fut = h ++ CRLF ++ rest -> 13 ∉ h -> 0 ∉ h ->
  (exists rest', unread c = h ++ 13 :: 10 :: rest' /\ rest' ++ fut = rest /\ find_line c = Some (Line (zlen h)))
  \/ (zlen (unread c) < zlen h + 2 /\ fut <> [] /\ (find_line c = Some ShortLine \/ find_line c = Some NoLine)).
Proof.
  intros Hb E H13 H0. pose proof (unread_len_ok c Hb) as Hul. pose proof (zlen_unread c Hb) as Hz. pose proof (bo_len c Hb) as Hlen. pose proof (bo_pos c Hb) as Hpos. unfold QUERYBUF_MAX in Hlen.
  assert (Hfull : forall rest', unread c = h ++ 13 :: 10 :: rest' -> find_line c = Some (Line (zlen h))).
  { intros rest' Eu. unfold find_line. rewrite Eu, <- app_assoc. cbn [app]. rewrite strchr_at by done. cbn [mbind option_bind]. rewrite Hul, swrap_small by (unfold in_s; lia).
    replace (_ >? _) with false; [done|]. rewrite Eu, length_app. cbn [length]. lia. }
  rewrite (app_assoc h) in E. apply app_eq_inv in E as [(k & Eu & Er)|(k & Eh & Ef)].
  { left. exists k. rewrite <- app_assoc in Eu. split; [done|]. split; [done|]. by apply (Hfull k). }
  destruct k as [|x k].
  { left. exists []. rewrite app_nil_r in Eh. split; [done|]. split; [by rewrite Ef|]. by apply (Hfull []). }
  right. split; [apply (f_equal length) in Eh; rewrite !length_app in Eh; cbn in Eh; lia|]. split; [by rewrite Ef|].
  apply app_eq_inv in Eh as [(j & Ej & _)|(j & Ej & Ec)].
  - right. unfold find_line. rewrite strchr_none; [done|done|..]; intros Hin; [apply H13|apply H0]; rewrite Ej; apply elem_of_app; by left.
  - destruct j as [|y j].
    + right. rewrite app_nil_r in Ej. unfold find_line. by rewrite Ej, strchr_none.
    + destruct j as [|z j]; [|by destruct j]. injection Ec as <- _. left. unfold find_line. rewrite Ej, <- app_assoc. cbn [app]. rewrite strchr_at by done. cbn [mbind option_bind].
      rewrite Hul, swrap_small by (unfold in_s; lia). replace (_ >? _) with true; [done|]. rewrite Ej, length_app. cbn [length]. lia.
Qed.

Lemma header_chars x v y : in_s 64 v -> 0 <= v -> x <> y -> ~ 48 <= y <= 57 -> y ∉ x :: decimal v.
Proof.
  intros Hv Hp Hx Hy. apply not_elem_of_cons. split; [done|]. intros Hin. destruct (decimal_canon v Hv) as (d & _ & E). rewrite E in Hin.
  unfold canon in Hin. replace (v <? 0) with false in Hin by lia. pose proof (proj1 (Forall_forall _ _) (dec_isdig d v) _ Hin) as Hd. unfold isdig in Hd. lia.
Qed.

Lemma decimal_canonical v : in_s 64 v -> canonical (decimal v) v.
Proof. intros Hv. split; [done|]. destruct (decimal_canon v Hv) as (d & Hd & E). by exists d. Qed.

(** * Requests *)

(** What the parser of a request does not change. *)
Definition frame (c c' : client) : Prop :=
  flags c' = flags c /\ errors c' = errors c /\ authenticated c' = authenticated c /\ pending_querybuf c' = pending_querybuf c
  /\ read_reploff c' = read_reploff c /\ reploff c' = reploff c.

Lemma client_frame_refl c : frame c c.
Proof. done. Qed.

Lemma client_frame_trans c1 c2 c3 : frame c1 c2 -> frame c2 c3 -> frame c1 c3.
Proof. unfold frame. intros (? & ? & ? & ? & ? & ?) (? & ? & ? & ? & ? & ?). repeat split; congruence. Qed.

(** The number in a header that is in the buffer. *)
Lemma header_number c x v rest : buffer_ok c -> in_s 64 v -> unread c = (x :: decimal v) ++ 13 :: rest -> line_number c (zlen (x :: decimal v)) = Some (Some v).
Proof.
  intros Hb Hv E. destruct (line_number_ok c x (decimal v) rest Hb E) as (r & -> & Hr). f_equal. apply Hr. by apply decimal_canonical.
Qed.

Section run.
Context `{HH : Host, AA : SdsAlloc} {W : Type} `{EE : Exec W}.

(** The limits on an argument: of the configuration, and [M] for the query
    buffer. *)
Definition arg_ok (s : server W) (M : Z) (a : bytes) : Prop := zlen a <= proto_max_bulk_len s /\ zlen a + 2 <= M.

Lemma read_bulklen_run (s : server W) c fut a rest M : server_ok s -> buffer_ok c -> authRequired s c = false -> arg_ok s M a -> unread c ++ fut = bulk a ++ rest ->
  (read_bulklen s c = Some (PStop c) /\ fut <> [] /\ zlen (unread c) <= 32)
  \/ exists c', read_bulklen s c = Some (PGo c') /\ frame c c' /\ buffer_ok c' /\ unread c' ++ fut = a ++ CRLF ++ rest /\ bulklen c' = zlen a
      /\ reqtype c' = reqtype c /\ multibulklen c' = multibulklen c /\ argv c' = argv c /\ argv_size c' = argv_size c.
Proof.
  intros [Hmax _] Hb Hau [Ha _] E. assert (Hin : in_s 64 (zlen a)) by (unfold in_s; lia). pose proof (decimal_length _ Hin) as Hdl.
  unfold bulk in E. rewrite app_comm_cons, <- !app_assoc in E. unfold read_bulklen.
  destruct (line_cases c fut (36 :: decimal (zlen a)) _ Hb E) as [(rest' & Eu & Er & ->)|(Hsh & Hfut & Hfl)]; [apply header_chars; lia || done..| |]; cbn [mbind option_bind].
  2: { left. cbn [length] in Hsh. split; [|split; [done|lia]]. destruct Hfl as [-> | ->]; [done|]. cbn [mbind option_bind]. rewrite unread_len_ok by done.
       unfold PROTO_INLINE_MAX_SIZE. by replace (_ >? _) with false by lia. }
  right. replace ((unread c).[0]) with (Some 36) by by rewrite Eu. cbn [mbind option_bind Z.eqb Pos.eqb negb]. rewrite (header_number c 36 (zlen a) (10 :: rest')) by done.
  cbn [mbind option_bind]. replace (_ || _) with false by (destruct (has c CLIENT_MASTER); cbn; lia). rewrite Hau, andb_false_r.
  set (n := zlen (36 :: decimal (zlen a))) in *.
  destruct (buffer_skip c (n + 2) Hb) as [Hb1 Hu1]; [unfold n; rewrite Eu, length_app; cbn [length]; lia|]. rewrite Z.add_assoc in Hb1, Hu1.
  set (c1 := set_qb_pos (qb_pos c + n + 2) c) in *. assert (Hu2 : unread c1 ++ fut = a ++ CRLF ++ rest).
  { rewrite Hu1, Eu. replace (Z.to_nat (n + 2)) with (length ((36 :: decimal (zlen a)) ++ [13; 10])) by (rewrite length_app; unfold n; cbn [length]; lia).
    change (13 :: 10 :: rest') with ([13; 10] ++ rest'). rewrite app_assoc, drop_app_length. by rewrite Er. }
  destruct (buffer_trim c1 Hb1) as [Hb2 Hu3].
  assert (Hgo : forall c2, frame c c2 -> unread c2 = unread c1 -> buffer_ok c2 -> bulklen c2 = zlen a -> reqtype c2 = reqtype c -> multibulklen c2 = multibulklen c -> argv c2 = argv c -> argv_size c2 = argv_size c ->
    exists c', Some (PGo c2) = Some (PGo c') /\ frame c c' /\ buffer_ok c' /\ unread c' ++ fut = a ++ CRLF ++ rest /\ bulklen c' = zlen a
      /\ reqtype c' = reqtype c /\ multibulklen c' = multibulklen c /\ argv c' = argv c /\ argv_size c' = argv_size c).
  { intros c2 Hf Hu Hbo H1 H2 H3 H4 H5. exists c2. rewrite Hu. by repeat split; try done; apply Hf || apply Hbo. }
  destruct (zlen a >=? PROTO_MBULK_BIG_ARG); [|apply Hgo; try done; by apply (buffer_same c1)].
  destruct (_ <=? _); [|apply Hgo; try done; by apply (buffer_same c1)]. unfold signed64. replace (_ && _) with true by lia. cbn [mbind option_bind].
  apply Hgo; try done. by apply (buffer_same (trim_querybuf c1)).
Qed.

Lemma read_bulk_run c fut a rest : buffer_ok c -> bulklen c = zlen a -> zlen a <= 2 ^ 63 - 3 -> zlen (argv c) < argv_size c -> unread c ++ fut = a ++ CRLF ++ rest ->
  (read_bulk c = Some (PStop c) /\ fut <> [] /\ zlen (unread c) < zlen a + 2)
  \/ exists c', read_bulk c = Some (PGo c') /\ frame c c' /\ buffer_ok c' /\ unread c' ++ fut = rest /\ argv c' = argv c ++ [a]
      /\ multibulklen c' = multibulklen c - 1 /\ bulklen c' = -1 /\ reqtype c' = reqtype c /\ argv_size c' = argv_size c.
Proof.
  intros Hb Hbl Ha Hsz E. unfold read_bulk, signed64. rewrite Hbl. replace ((_ <=? _) && _) with true by lia. cbn [mbind option_bind].
  rewrite unread_len_ok by done. rewrite uwrap_small by (unfold in_u; lia). pose proof (zlen_unread c Hb) as Hz.
  rewrite (app_assoc a) in E. destruct (Z.ltb_spec (zlen (unread c)) (zlen a + 2)) as [Hlt|Hge].
  { left. split; [done|]. split; [|done]. intros ->. rewrite app_nil_r in E. rewrite E, !length_app in Hlt. cbn in Hlt. lia. }
  assert (Hk : exists k, unread c = a ++ 13 :: 10 :: k /\ k ++ fut = rest).
  { apply app_eq_inv in E as [(k & Eu & Er)|(k & Eu & Ef)]; [exists k; by rewrite Eu, <- app_assoc|].
    assert (k = []) as ->. { apply (f_equal length) in Eu. rewrite !length_app in Eu. cbn in Eu. destruct k; [done|cbn in Eu; lia]. }
    rewrite app_nil_r in Eu. exists []. by rewrite <- Eu, Ef. }
  destruct Hk as (k & Eu & Er). right. destruct (_ && _ && _) eqn:Ebig.
  - assert (Eq : querybuf c = a ++ [13; 10] /\ k = []).
    { assert (Eqq : querybuf c = unread c) by (unfold unread; by replace (qb_pos c) with 0 by lia). assert (k = []) as -> by (destruct k; [done|]; rewrite Eqq, Eu, length_app in Ebig; cbn [length] in Ebig; lia).
      by rewrite Eqq, Eu. }
    destruct Eq as [Eq ->]. rewrite Eq, length_app. cbn [length]. replace (Z.of_nat (length a + 2) - 2) with (zlen a) by lia. rewrite bslice_head by done. cbn [mbind option_bind].
    unfold push_arg. replace (_ <? _) with true by lia. cbn [mbind option_bind]. eexists. split; [done|]. cbn -[unread]. split; [done|].
    split; [split; cbn; [lia|unfold QUERYBUF_MAX; lia|done]|]. split; [unfold unread; cbn [querybuf set_multibulklen set_bulklen set_querybuf]; by rewrite drop_nil, <- Er|done].
  - rewrite Eu, bslice_head by done. cbn [mbind option_bind]. unfold push_arg. replace (_ <? _) with true by lia. cbn [mbind option_bind].
    destruct (buffer_skip c (zlen a + 2) Hb) as [Hb1 Hu1]; [lia|]. eexists. split; [done|]. cbn -[unread]. split; [done|]. split; [by apply (buffer_same _ _ Hb1)|].
    split; [|done]. rewrite (unread_same (set_qb_pos (qb_pos c + (zlen a + 2)) c)) by done. rewrite Hu1, Eu, <- Er.
    replace (Z.to_nat (zlen a + 2)) with (length (a ++ [13; 10])) by (rewrite length_app; cbn; lia). change (13 :: 10 :: k) with ([13; 10] ++ k). by rewrite app_assoc, drop_app_length.
Qed.

(** Between arguments, or waiting for the bytes of one; [tail] follows the
    request. *)
Definition mid (c : client) (fut : bytes) (args : list bytes) (tail : bytes) : Prop :=
  (bulklen c = -1 /\ unread c ++ fut = concat (bulk <$> args) ++ tail)
  \/ (exists a args', args = a :: args' /\ bulklen c = zlen a /\ unread c ++ fut = a ++ CRLF ++ concat (bulk <$> args') ++ tail).

(** A request is being read, of which [args] are missing. *)
Definition partial (c : client) (fut : bytes) (args : list bytes) (tail : bytes) : Prop :=
  reqtype c = PROTO_REQ_MULTIBULK /\ multibulklen c = zlen args /\ zlen (argv c) + zlen args = argv_size c /\ mid c fut args tail.

Lemma multibulk_loop_run M : 32 <= M -> forall fuel (s : server W) c fut args tail, server_ok s -> buffer_ok c -> authRequired s c = false -> Forall (arg_ok s M) args ->
  partial c fut args tail -> (length args <= fuel)%nat ->
  (exists c' args', multibulk_loop fuel s c = Some (c', false) /\ frame c c' /\ buffer_ok c' /\ argv c' ++ args' = argv c ++ args /\ partial c' fut args' tail
     /\ args' <> [] /\ fut <> [] /\ zlen (unread c') <= M /\ zlen (unread c') <= zlen (unread c))
  \/ (exists c', multibulk_loop fuel s c = Some (c', true) /\ frame c c' /\ buffer_ok c' /\ argv c' = argv c ++ args /\ unread c' ++ fut = tail).
Proof.
  intros HM. induction fuel as [|fuel IH]; intros s c fut args tail Hsv Hb Hau Hargs (Hrt & Hm & Hsz & Hmid) Hf.
  { destruct args; [|cbn in Hf; lia]. cbn [multibulk_loop]. replace (_ =? _) with true by (cbn in Hm; lia). right. exists c. rewrite app_nil_r.
    destruct Hmid as [[_ E]|(? & ? & ? & _)]; [|done]. by repeat split; try done; apply Hb. }
  cbn [multibulk_loop]. destruct args as [|a args].
  { replace (_ =? _) with true by (cbn in Hm; lia). right. exists c. rewrite app_nil_r. destruct Hmid as [[_ E]|(? & ? & ? & _)]; [|done]. by repeat split; try done; apply Hb. }
  cbn [length] in Hm, Hf. replace (multibulklen c =? 0) with false by lia. pose proof (proj1 (Forall_cons _ _ _) Hargs) as [Ha Hargs'].
  pose proof Hsv as [Hmx _]. pose proof Ha as [Ha1 Ha2].
  assert (H1 : ((if bulklen c =? -1 then read_bulklen s c else Some (PGo c)) = Some (PStop c) /\ fut <> [] /\ zlen (unread c) <= M)
    \/ exists c1, (if bulklen c =? -1 then read_bulklen s c else Some (PGo c)) = Some (PGo c1) /\ frame c c1 /\ buffer_ok c1 /\ unread c1 ++ fut = a ++ CRLF ++ concat (bulk <$> args) ++ tail
       /\ bulklen c1 = zlen a /\ reqtype c1 = reqtype c /\ multibulklen c1 = multibulklen c /\ argv c1 = argv c /\ argv_size c1 = argv_size c).
  { destruct Hmid as [[Ebl E]|(a' & args' & [= <- <-] & Ebl & E)].
    - rewrite Ebl. cbn [Z.eqb Pos.eqb]. cbn [fmap list_fmap concat] in E. rewrite <- app_assoc in E.
      destruct (read_bulklen_run s c fut a _ M Hsv Hb Hau Ha E) as [(-> & ? & ?)|H1]; [left; split; [done|]; split; [done|lia]|by right].
    - right. replace (bulklen c =? -1) with false by lia. exists c. by repeat split; try done; apply Hb. }
  destruct H1 as [(-> & Hfut & Hsm)|(c1 & -> & Hf1 & Hb1 & Hu1 & Hbl1 & Hrt1 & Hm1 & Hav1 & Hsz1)]; cbn [mbind option_bind].
  { left. exists c, (a :: args). by repeat split; try done; try apply Hb. }
  assert (Hle1 : zlen (unread c1) <= zlen (unread c)).
  { assert (Hl : (length (unread c1 ++ fut) <= length (unread c ++ fut))%nat); [|rewrite !length_app in Hl; lia]. rewrite Hu1.
    destruct Hmid as [[_ E]|(? & ? & [= <- <-] & _ & E)]; rewrite E; [|lia]. rewrite fmap_cons. cbn [concat]. unfold bulk at 2. rewrite !length_app. cbn [length]. rewrite !length_app. lia. }
  cbn [length] in Hsz. destruct (read_bulk_run c1 fut a _ Hb1 Hbl1 ltac:(lia) ltac:(rewrite Hav1, Hsz1; lia) Hu1) as [(-> & Hfut & Hsm)|(c2 & -> & Hf2 & Hb2 & Hu2 & Hav2 & Hm2 & Hbl2 & Hrt2 & Hsz2)]; cbn [mbind option_bind].
  { left. exists c1, (a :: args). split; [done|]. split; [done|]. split; [done|]. rewrite Hav1. split; [done|]. split; [|split; [done|split; [done|split; [lia|done]]]].
    split; [congruence|]. split; [cbn [length]; lia|]. split; [rewrite Hav1, Hsz1; cbn [length]; lia|]. right. by exists a, args. }
  assert (Hle2 : zlen (unread c2) <= zlen (unread c1)).
  { assert (Hl : (length (unread c2 ++ fut) <= length (unread c1 ++ fut))%nat); [|rewrite !length_app in Hl; lia]. rewrite Hu1, Hu2, !length_app. lia. }
  pose proof (client_frame_trans _ _ _ Hf1 Hf2) as Hf3. assert (Hau2 : authRequired s c2 = false) by (unfold authRequired in *; destruct Hf3 as (_ & _ & -> & _); done).
  destruct (IH s c2 fut args tail Hsv Hb2 Hau2 Hargs') as [(c' & args' & -> & Hf4 & Hb4 & Hav4 & Hp4 & Hne4 & Hfut4 & Hs4 & Hle4)|(c' & -> & Hf4 & Hb4 & Hav4 & Hu4)].
  - split; [congruence|]. split; [lia|]. split; [rewrite Hav2, Hav1, Hsz2, Hsz1, length_app; cbn [length]; lia|]. by left.
  - lia.
  - left. exists c', args'. split; [done|]. split; [by eapply client_frame_trans|]. split; [done|]. split; [by rewrite Hav4, Hav2, Hav1, <- app_assoc|]. do 4 (split; [done|]). lia.
  - right. exists c'. split; [done|]. split; [by eapply client_frame_trans|]. split; [done|]. split; [|done]. by rewrite Hav4, Hav2, Hav1, <- app_assoc.
Qed.

Definition cmd_ok (s : server W) (M : Z) (cmd : list bytes) : Prop := 0 < zlen cmd <= 1024 * 1024 /\ Forall (arg_ok s M) cmd.

(** What is left when [cmds] and then [T] are to come. *)
Definition left_over (cmds : list (list bytes)) (T : bytes) : bytes := concat (encode <$> cmds) ++ T.

(** The state of the parser when the input that is left, read or not, is
    [cmds] and then [T]; the first command may be read in part. *)
Definition expects (T : bytes) (c : client) (fut : bytes) (cmds : list (list bytes)) : Prop :=
  (idle c /\ (reqtype c = 0 \/ reqtype c = PROTO_REQ_MULTIBULK /\ unread c <> []) /\ unread c ++ fut = left_over cmds T)
  \/ (exists args cmds', cmds = (argv c ++ args) :: cmds' /\ args <> [] /\ partial c fut args (left_over cmds' T)).

Lemma processMultibulkBuffer_run T M (s : server W) c fut cmd cmds : 32 <= M -> server_ok s -> buffer_ok c -> authRequired s c = false -> cmd_ok s M cmd ->
  reqtype c = PROTO_REQ_MULTIBULK -> expects T c fut (cmd :: cmds) ->
  (exists c', processMultibulkBuffer s c = Some (c', false) /\ frame c c' /\ buffer_ok c' /\ reqtype c' = PROTO_REQ_MULTIBULK /\ expects T c' fut (cmd :: cmds) /\ fut <> [] /\ zlen (unread c') <= M
     /\ zlen (unread c') <= zlen (unread c) /\ (idle c' -> c' = c))
  \/ (exists c', processMultibulkBuffer s c = Some (c', true) /\ frame c c' /\ buffer_ok c' /\ argv c' = cmd /\ unread c' ++ fut = left_over cmds T).
Proof.
  intros HM Hsv Hb Hau [Hcl Hargs] Hrt Hex. unfold processMultibulkBuffer.
  assert (Hloop : forall c1 args, frame c c1 -> zlen (unread c1) <= zlen (unread c) -> buffer_ok c1 -> cmd = argv c1 ++ args -> args <> [] -> Forall (arg_ok s M) args -> partial c1 fut args (left_over cmds T) ->
    (exists c', (if multibulklen c1 >? 0 then multibulk_loop (Z.to_nat (multibulklen c1)) s c1 else None) = Some (c', false) /\ frame c c' /\ buffer_ok c' /\ reqtype c' = PROTO_REQ_MULTIBULK
      /\ expects T c' fut (cmd :: cmds) /\ fut <> [] /\ zlen (unread c') <= M /\ zlen (unread c') <= zlen (unread c) /\ (idle c' -> c' = c))
    \/ (exists c', (if multibulklen c1 >? 0 then multibulk_loop (Z.to_nat (multibulklen c1)) s c1 else None) = Some (c', true) /\ frame c c' /\ buffer_ok c' /\ argv c' = cmd /\ unread c' ++ fut = left_over cmds T)).
  { intros c1 args Hf1 Hle1 Hb1 Ecmd Hne Ha1 Hp1. pose proof Hp1 as (_ & Hm1 & _). assert (0 < zlen args) by (destruct args; [done|cbn; lia]). replace (_ >? _) with true by lia.
    assert (Hau1 : authRequired s c1 = false) by (unfold authRequired in *; destruct Hf1 as (_ & _ & -> & _); done).
    destruct (multibulk_loop_run M HM (Z.to_nat (multibulklen c1)) s c1 fut args _ Hsv Hb1 Hau1 Ha1 Hp1 ltac:(lia)) as [(c' & args' & -> & Hf' & Hb' & Hav & Hp' & Hne' & Hfut & Hsm & Hle')|(c' & -> & Hf' & Hb' & Hav & Hu)].
    - left. exists c'. split; [done|]. split; [by eapply client_frame_trans|]. split; [done|]. split; [apply Hp'|]. split; [right; exists args', cmds; by rewrite Hav, Ecmd|]. split; [done|]. split; [done|]. split; [lia|].
      intros (Hid & _). destruct Hp' as (_ & Hm' & _). destruct args'; [done|cbn in Hm'; lia].
    - right. exists c'. split; [done|]. split; [by eapply client_frame_trans|]. split; [done|]. by rewrite Hav, Ecmd. }
  pose proof Hex as Hex0. destruct Hex as [((Hm & Hbl & Hav) & _ & E)|(args & cmds' & [= Ecmd <-] & Hne & Hp)].
  2: { pose proof Hp as (_ & Hm & _). replace (multibulklen c =? 0) with false by (destruct args; [done|cbn in Hm; lia]). cbn [mbind option_bind].
       apply (Hloop c args); try done. rewrite Ecmd in Hargs. by apply Forall_app in Hargs as [_ ?]. }
  rewrite Hm. cbn [Z.eqb]. assert (Hin : in_s 64 (zlen cmd)) by (unfold in_s; lia). pose proof (decimal_length _ Hin) as Hdl. unfold read_multibulklen. rewrite Hav. cbn [length Z.of_nat Z.eqb].
  assert (Eenc : left_over (cmd :: cmds) T = (42 :: decimal (zlen cmd)) ++ CRLF ++ concat (bulk <$> cmd) ++ left_over cmds T).
  { unfold left_over. rewrite fmap_cons. cbn [concat]. unfold encode at 1. by rewrite app_comm_cons, <- !app_assoc. }
  rewrite Eenc in E.
  destruct (line_cases c fut (42 :: decimal (zlen cmd)) _ Hb E) as [(rest' & Eu & Er & ->)|(Hsh & Hfut & Hfl)]; [apply header_chars; lia || done..| |]; cbn [mbind option_bind].
  2: { left. cbn [length] in Hsh. exists c. split; [|split; [done|split; [done|split; [done|split; [|split; [done|split; [lia|split; [lia|done]]]]]]]].
       - destruct Hfl as [-> | ->]; [done|]. cbn [mbind option_bind]. rewrite unread_len_ok by done. unfold PROTO_INLINE_MAX_SIZE. by replace (_ >? _) with false by lia.
       - exact Hex0. }
  replace ((unread c).[0]) with (Some 42) by by rewrite Eu. cbn [mbind option_bind Z.eqb Pos.eqb negb]. rewrite (header_number c 42 (zlen cmd) (10 :: rest')) by done.
  cbn [mbind option_bind]. replace (_ >? _) with false by lia. rewrite Hau, andb_false_r. replace (zlen cmd <=? 0) with false by lia. cbn [mbind option_bind].
  set (n := zlen (42 :: decimal (zlen cmd))) in *. destruct (buffer_skip c (n + 2) Hb) as [Hb1 Hu1]; [unfold n; rewrite Eu, length_app; cbn [length]; lia|]. rewrite Z.add_assoc in Hb1, Hu1.
  eapply (Hloop _ cmd); [done| |by apply (buffer_same _ _ Hb1)|cbn; by rewrite Hav|intros ->; cbn in Hcl; lia|done|];
    [rewrite (unread_same (set_qb_pos (qb_pos c + n + 2) c)) by done; rewrite Hu1, length_drop; lia|]. split; [done|]. split; [done|]. split; [cbn; by rewrite Hav|]. left. split; [done|].
  rewrite (unread_same (set_qb_pos (qb_pos c + n + 2) c)) by done. rewrite Hu1, Eu. replace (Z.to_nat (n + 2)) with (length ((42 :: decimal (zlen cmd)) ++ [13; 10])) by (rewrite length_app; unfold n; cbn [length]; lia).
  change (13 :: 10 :: rest') with ([13; 10] ++ rest'). rewrite app_assoc, drop_app_length. by rewrite Er.
Qed.
End run.

(** * Running commands *)

(** The flags that stop the parser or divert a read. *)
Definition CALM_FLAGS : Z :=
  Z.lor (Z.lor (Z.lor CLIENT_BLOCKED CLIENT_PENDING_COMMAND) (Z.lor CLIENT_CLOSE_AFTER_REPLY CLIENT_CLOSE_ASAP)) (Z.lor CLIENT_PENDING_READ CLIENT_LUA).
Definition calm (c : client) : Prop := has c CALM_FLAGS = false.

Lemma calm_has c f : calm c -> Z.land CALM_FLAGS f = f -> has c f = false.
Proof.
  unfold calm, has. intros Hc Hf. destruct (Z.eqb_spec (Z.land (flags c) CALM_FLAGS) 0) as [E|]; [|done].
  rewrite <- Hf, Z.land_assoc, E, Z.land_0_l. done.
Qed.

Lemma calm_flags c c' : flags c' = flags c -> calm c -> calm c'.
Proof. unfold calm, has. by intros ->. Qed.

Definition same_config {W} (s s' : server W) : Prop :=
  lua_timedout s' = lua_timedout s /\ io_threads_active s' = io_threads_active s /\ default_user_auth s' = default_user_auth s
  /\ proto_max_bulk_len s' = proto_max_bulk_len s /\ client_max_querybuf_len s' = client_max_querybuf_len s.

Lemma same_config_trans {W} (s1 s2 s3 : server W) : same_config s1 s2 -> same_config s2 s3 -> same_config s1 s3.
Proof. unfold same_config. intros (? & ? & ? & ? & ?) (? & ? & ? & ? & ?). repeat split; congruence. Qed.

(** The link with a master, since the offset [origin]: [recv] was received, of
    which a prefix was applied and relayed to the backlog and to the replicas
    (that have received [gots]); the offsets did not overflow. *)
Record link {W} (s : server W) (c : client) (origin : Z) (recv : bytes) (gots : list bytes) : Prop := {
  lk_stream : exists stream, synced (srv_repl s) origin stream gots /\ recv = stream ++ pending_querybuf c /\ reploff c = origin + zlen stream;
  lk_read : read_reploff c = origin + zlen recv;
  lk_unread : zlen (unread c) <= zlen (pending_querybuf c);
  lk_idle : idle c -> has c CLIENT_MULTI = false -> zlen (unread c) = zlen (pending_querybuf c);
  lk_range : offsets_ok origin recv
}.

Definition linked {W} (s : server W) (c : client) (origin : Z) (recv : bytes) (gots : list bytes) : Prop :=
  has c CLIENT_MASTER = true -> link s c origin recv gots.

Section quiet.
Context `{HH : Host, AA : SdsAlloc} {W : Type} `{EE : Exec W}.

(** The commands of interest, and the commands a server has run. *)
Variable P : list bytes -> Prop.
Variable trace : W -> list (list bytes).

(** Such a command is executed: it is added to the trace, the client is not
    blocked, closed, ..., and the input is not touched; a command from a master
    is not propagated by the execution itself. *)
Definition quiet_exec : Prop := forall (s : server W) c, P (argv c) -> exists s' c', processCommand s c = (s', c', true, false)
  /\ same_link c c' /\ errors c' = errors c /\ authenticated c' = authenticated c /\ (calm c -> calm c') /\ has c' CLIENT_MASTER = has c CLIENT_MASTER
  /\ same_config s s' /\ trace (srv_rest s') = trace (srv_rest s) ++ [argv c] /\ (has c CLIENT_MASTER = true -> srv_repl s' = srv_repl s).

Hypothesis Hquiet : quiet_exec.

(** What follows the commands. *)
Variable T : bytes.

(** The state between two events, when the input left is [cmds] and [T]. *)
Record running (s : server W) (c : client) (fut : bytes) (cmds : list (list bytes)) (origin : Z) (recv : bytes) (gots : list bytes) (errs : list bytes) : Prop := {
  ru_server : server_ok s;
  ru_lua : lua_timedout s = false;
  ru_io : io_threads_active s = false;
  ru_auth : authRequired s c = false;
  ru_calm : calm c;
  ru_buffer : buffer_ok c;
  ru_expects : expects T c fut cmds;
  ru_link : linked s c origin recv gots;
  ru_errors : errors c = errs
}.

Lemma reset_summary c : exists c1, resetClient c = c1 /\ same_link c c1 /\ reqtype c1 = 0 /\ idle c1 /\ errors c1 = errors c /\ authenticated c1 = authenticated c
  /\ forall f, Z.land RESET_FLAGS f = 0 -> has c1 f = has c f.
Proof.
  destruct (resetClient_ok c) as (Hl & Hrt & Hm & Hbl & Hav & Her & Hau). exists (resetClient c). do 6 (split; [done|]). intros f. apply resetClient_has.
Qed.

(** The offset of what was parsed. *)
Lemma commandProcessed_run (s : server W) c origin recv gots : calm c -> buffer_ok c ->
  (has c CLIENT_MASTER = true -> (exists stream, synced (srv_repl s) origin stream gots /\ recv = stream ++ pending_querybuf c /\ reploff c = origin + zlen stream)
     /\ read_reploff c = origin + zlen recv /\ zlen (unread c) <= zlen (pending_querybuf c) /\ offsets_ok origin recv) ->
  exists s' c', commandProcessed s c = Some (s', c') /\ same_config s s' /\ srv_rest s' = srv_rest s /\ idle c' /\ reqtype c' = 0 /\ unread c' = unread c
    /\ calm c' /\ buffer_ok c' /\ errors c' = errors c /\ authenticated c' = authenticated c /\ has c' CLIENT_MASTER = has c CLIENT_MASTER /\ linked s' c' origin recv gots.
Proof.
  intros Hc Hb Hl. unfold commandProcessed. rewrite (calm_has c CLIENT_BLOCKED) by done.
  destruct (reset_summary c) as (c1 & -> & (Eq & Ep & Epd & Er & Eo) & Hrt & Hid1 & Her & Hau & Hm1).
  assert (Hc1 : calm c1) by (unfold calm; by rewrite Hm1). assert (Hb1 : buffer_ok c1) by by apply (buffer_same c).
  assert (Hu1 : unread c1 = unread c) by by apply unread_same. pose proof (zlen_unread c1 Hb1) as Hz.
  assert (Hfin : forall s' c', same_config s s' -> srv_rest s' = srv_rest s -> querybuf c' = querybuf c1 -> qb_pos c' = qb_pos c1 -> flags c' = flags c1 -> idle c' -> reqtype c' = 0 ->
    errors c' = errors c1 -> authenticated c' = authenticated c1 -> (unread c' = unread c -> linked s' c' origin recv gots) ->
    exists s'' c'', Some (s', c') = Some (s'', c'') /\ same_config s s'' /\ srv_rest s'' = srv_rest s /\ idle c'' /\ reqtype c'' = 0 /\ unread c'' = unread c
      /\ calm c'' /\ buffer_ok c'' /\ errors c'' = errors c /\ authenticated c'' = authenticated c /\ has c'' CLIENT_MASTER = has c CLIENT_MASTER /\ linked s'' c'' origin recv gots).
  { intros s' c' G1 G2 G3 G4 G5 G6 G7 G8 G9 G10. assert (Hu' : unread c' = unread c) by (rewrite <- Hu1; by apply unread_same). exists s', c'. do 6 (split; [done|]).
    split; [by apply (calm_flags c1)|]. split; [by apply (buffer_same c1)|]. split; [congruence|]. split; [congruence|].
    split; [rewrite <- (Hm1 CLIENT_MASTER) by done; unfold has; by rewrite G5|]. by apply G10. }
  rewrite <- (Hm1 CLIENT_MASTER) in Hl by done. destruct (has c1 CLIENT_MASTER) eqn:Ema; cbn [andb].
  2: { rewrite Ema. apply Hfin; try done. intros _. unfold linked. by rewrite Ema. }
  destruct (Hl eq_refl) as ((stream & Hsy & Erecv & Eoff) & Eread & Hun & Hrg). destruct (has c1 CLIENT_MULTI) eqn:Emu; cbn [negb].
  - rewrite Ema, Z.sub_diag. cbn [signed64 Z.eqb negb mbind option_bind]. apply Hfin; try done. intros _ _. split; [|congruence|rewrite Hu1; congruence|by rewrite Emu|done]. exists stream. by rewrite Epd, Eo.
  - assert (Ero : read_reploff c1 - zlen (querybuf c1) + qb_pos c1 = origin + zlen recv - zlen (unread c)) by (rewrite Er, Eread, <- Hu1; lia).
    assert (Elen : zlen recv = zlen stream + zlen (pending_querybuf c)) by (rewrite Erecv, length_app; lia). pose proof Hrg as [Hr0 Hr1].
    assert (Eap : read_reploff c1 - zlen (querybuf c1) + qb_pos c1 - reploff c1 = zlen (pending_querybuf c) - zlen (unread c)) by (rewrite Ero, Eo, Eoff; lia).
    rewrite swrap_small by (unfold in_s; lia). set (c2 := set_reploff _ c1). assert (Em2 : has c2 CLIENT_MASTER = true) by exact Ema. rewrite Em2. cbn [reploff set_reploff c2].
    rewrite Eap, signed64_ok by lia. cbn [mbind option_bind]. change (pending_querybuf c2) with (pending_querybuf c1). rewrite Epd. destruct (Z.eqb_spec (zlen (pending_querybuf c) - zlen (unread c)) 0) as [E0|E0]; cbn [negb].
    + apply Hfin; try done. intros Hu2 _. split; [|cbn; congruence|..]; [exists stream; cbn [pending_querybuf reploff c2 set_reploff]; rewrite Epd; split; [done|]; split; [done|lia]|..|done];
        [|intros _ _]; rewrite Hu2; cbn; rewrite Epd; lia.
    + destruct (bslice_exists (pending_querybuf c) 0 (zlen (pending_querybuf c) - zlen (unread c))) as (pre & ap & post & Epp & Hpre & Hap); [lia..|]. destruct pre; [|cbn in Hpre; lia]. cbn [app] in Epp.
      assert (Esl : bslice (pending_querybuf c) 0 (zlen (pending_querybuf c) - zlen (unread c)) = Some ap) by (rewrite <- Hap, Epp; by apply bslice_head).
      rewrite Esl. cbn [mbind option_bind]. destruct (proxy_sync _ _ _ _ ap Hsy) as (r' & -> & Hsy'); [apply (offsets_app _ _ post); by rewrite <- app_assoc, <- Epp, <- Erecv|]. cbn [mbind option_bind].
      assert (Edrop : drop (Z.to_nat (zlen (pending_querybuf c) - zlen (unread c))) (pending_querybuf c) = post) by (rewrite <- Hap, Nat2Z.id, Epp; apply drop_app_length).
      rewrite Edrop. assert (Hpost : zlen post = zlen (unread c)) by (rewrite Epp, length_app in Hap; lia). apply Hfin; try done. intros Hu2 _. split; [|cbn; congruence|..|done].
      * exists (stream ++ ap). cbn [pending_querybuf reploff c2 set_reploff set_pending_querybuf srv_repl set_srv_repl]. split; [done|]. split; [by rewrite <- app_assoc, <- Epp|]. rewrite length_app. lia.
      * rewrite Hu2. cbn. lia.
      * intros _ _. rewrite Hu2. cbn. lia.
Qed.

Lemma bulk_nonempty a : (1 <= length (bulk a))%nat.
Proof. cbn. lia. Qed.

Lemma encode_nonempty cmd : (1 <= length (encode cmd))%nat.
Proof. cbn. lia. Qed.

Lemma partial_length c fut args tail : args <> [] -> partial c fut args tail -> (length tail < length (unread c ++ fut))%nat.
Proof.
  intros Hne (_ & _ & _ & [[_ ->]|(a & args' & -> & _ & ->)]).
  - destruct args as [|a args]; [done|]. rewrite fmap_cons. cbn [concat]. rewrite !length_app. pose proof (bulk_nonempty a). lia.
  - rewrite !length_app. cbn. lia.
Qed.

Lemma expects_length c fut cmd cmds : expects T c fut (cmd :: cmds) -> (length (left_over cmds T) < length (unread c ++ fut))%nat.
Proof.
  intros [(_ & _ & ->)|(args & cmds' & [= -> <-] & Hne & Hp)]; [unfold left_over; rewrite fmap_cons; cbn [concat]; rewrite !length_app; pose proof (encode_nonempty cmd); lia|]. by apply (partial_length c fut args).
Qed.

(** No command is left when all the input was read. *)
Lemma expects_done c cmds : expects T c [] cmds -> unread c = [] -> cmds = [] /\ T = [].
Proof.
  intros He Hu. destruct cmds as [|cmd cmds]; [destruct He as [(_ & _ & E)|(? & ? & ? & _)]; [by rewrite Hu in E|done]|]. apply expects_length in He. rewrite Hu in He. cbn in He. lia.
Qed.

(** A command that was read is run. *)
Lemma run_request_run (s : server W) c cmds fut origin recv gots errs : P (argv c) -> argv c <> [] -> server_ok s -> lua_timedout s = false -> io_threads_active s = false ->
  authRequired s c = false -> calm c -> buffer_ok c -> unread c ++ fut = left_over cmds T -> errors c = errs ->
  (has c CLIENT_MASTER = true -> (exists stream, synced (srv_repl s) origin stream gots /\ recv = stream ++ pending_querybuf c /\ reploff c = origin + zlen stream)
     /\ read_reploff c = origin + zlen recv /\ zlen (unread c) <= zlen (pending_querybuf c) /\ offsets_ok origin recv) ->
  exists s' c', run_request s c = Some (LNext s' c') /\ running s' c' fut cmds origin recv gots errs /\ trace (srv_rest s') = trace (srv_rest s) ++ [argv c]
    /\ same_config s s' /\ has c' CLIENT_MASTER = has c CLIENT_MASTER /\ unread c' = unread c.
Proof.
  intros HP Hne Hsv Hlua Hio Hau Hc Hb Hu He Hl. unfold run_request. replace (zlen (argv c) =? 0) with false by (destruct (argv c); [done|cbn [length]; lia]).
  rewrite (calm_has c CLIENT_PENDING_READ) by done. unfold processCommandAndResetClient.
  destruct (Hquiet s c HP) as (s1 & c1 & -> & (Eq & Ep & Epd & Er & Eo) & Her & Hau1 & Hc1 & Hma & Hcf & Htr & Hrp).
  assert (Hu1 : unread c1 = unread c) by by apply unread_same.
  destruct (commandProcessed_run s1 c1 origin recv gots) as (s2 & c2 & -> & Hcf2 & Hrest & Hid & Hrt & Hu2 & Hc2 & Hb2 & Her2 & Hau2 & Hma2 & Hl2).
  - by apply Hc1.
  - by apply (buffer_same c).
  - rewrite Hma. intros Hm. destruct (Hl Hm) as ((stream & H1 & H2 & H3) & H4 & H5 & H6). rewrite (Hrp Hm), Epd, Eo, Er, Hu1. split; [by exists stream|done].
  - cbn [mbind option_bind negb]. exists s2, c2. split; [done|]. pose proof (same_config_trans _ _ _ Hcf Hcf2) as (G1 & G2 & G3 & G4 & G5).
    split; [|split; [by rewrite Hrest, Htr|split; [done|split; congruence]]]. split; try done; try congruence.
    + unfold server_ok. by rewrite G4, G5.
    + unfold authRequired in *. by rewrite G3, Hau2, Hau1.
    + left. split; [done|]. split; [by left|]. by rewrite Hu2, Hu1.
Qed.

Variable M : Z.
Hypothesis HM : 32 <= M.

Lemma input_step_run s c fut cmds origin recv gots errs : running s c fut cmds origin recv gots errs -> Forall (cmd_ok s M) cmds -> Forall P cmds -> unread c <> [] -> cmds <> [] ->
  (exists c', input_step s c = Some (LBreak s c') /\ running s c' fut cmds origin recv gots errs /\ fut <> [] /\ zlen (unread c') <= M /\ has c' CLIENT_MASTER = has c CLIENT_MASTER)
  \/ (exists s' c' cmd cmds', cmds = cmd :: cmds' /\ input_step s c = Some (LNext s' c') /\ running s' c' fut cmds' origin recv gots errs
       /\ trace (srv_rest s') = trace (srv_rest s) ++ [cmd] /\ same_config s s' /\ has c' CLIENT_MASTER = has c CLIENT_MASTER /\ (length (unread c') < length (unread c))%nat).
Proof.
  intros [Hsv Hlua Hio Hau Hc Hb Hex Hl He] Hok HP Hne Hcm. unfold input_step.
  rewrite (calm_has c CLIENT_BLOCKED), (calm_has c CLIENT_PENDING_COMMAND), Hlua, (calm_has c (Z.lor _ _)) by done. cbn [andb].
  destruct cmds as [|cmd cmds]; [done|].
  apply Forall_cons in Hok as [Hok Hoks]. apply Forall_cons in HP as [Hp Hps].
  assert (Hreq : exists c1, (if reqtype c =? 0 then x ← (unread c).[0]; Some (set_reqtype (if x =? 42 then PROTO_REQ_MULTIBULK else PROTO_REQ_INLINE) c) else Some c) = Some c1
    /\ frame c c1 /\ buffer_ok c1 /\ unread c1 = unread c /\ reqtype c1 = PROTO_REQ_MULTIBULK /\ expects T c1 fut (cmd :: cmds) /\ (idle c1 -> idle c)).
  { destruct Hex as [(Hid & Hrt & E)|(args & cmds' & E & Hna & Hpt)].
    - destruct Hrt as [Hrt|[Hrt _]]; rewrite Hrt; [|exists c; split; [done|]; do 4 (split; [done|]); split; [|done]; left; split; [done|]; by split; [right|]].
      destruct (unread c) as [|x u] eqn:Eu; [done|]. rewrite bget_0. cbn [Z.eqb mbind option_bind]. pose proof E as E'. unfold left_over in E'. rewrite fmap_cons in E'. cbn in E'. injection E' as -> _. cbn [Z.eqb Pos.eqb].
      exists (set_reqtype PROTO_REQ_MULTIBULK c). split; [done|]. split; [done|]. split; [by apply (buffer_same c)|]. split; [by rewrite (unread_same c), Eu|]. split; [done|]. split; [|done].
      left. split; [done|]. rewrite (unread_same c), Eu by done. split; [by right|done].
    - pose proof Hpt as (Hrt & _). rewrite Hrt. exists c. split; [done|]. do 4 (split; [done|]). split; [|done]. right. by exists args, cmds'. }
  destruct Hreq as (c1 & -> & Hf1 & Hb1 & Hu1 & Hrt1 & Hex1 & Hid1). cbn [mbind option_bind]. rewrite Hrt1. change (PROTO_REQ_MULTIBULK =? PROTO_REQ_INLINE) with false. rewrite Z.eqb_refl.
  assert (Hau1 : authRequired s c1 = false) by (unfold authRequired in *; destruct Hf1 as (_ & _ & -> & _); done).
  destruct (processMultibulkBuffer_run T M s c1 fut cmd cmds HM Hsv Hb1 Hau1 Hok Hrt1 Hex1) as [(c' & -> & Hf' & Hb' & Hrt' & Hex' & Hfut & Hsm & Hle & Hid')|(c' & -> & Hf' & Hb' & Hav & Hu')];
    cbn [mbind option_bind negb]; pose proof (client_frame_trans _ _ _ Hf1 Hf') as (F1 & F2 & F3 & F4 & F5 & F6); assert (Hma : has c' CLIENT_MASTER = has c CLIENT_MASTER) by (unfold has; by rewrite F1).
  - left. exists c'. split; [done|]. split; [|done]. split; try done; [|by apply (calm_flags c)| |congruence].
    + unfold authRequired in *. by rewrite F3.
    + intros Hm. rewrite Hma in Hm. destruct (Hl Hm) as [L1 L2 L3 L4 L5]. split; [by rewrite F4, F6|by rewrite F5|rewrite F4, <- Hu1 in *; lia| |done].
      intros Hidle Hmul. pose proof (Hid' Hidle) as E. rewrite E, Hu1 in *. rewrite F4. apply L4; [auto|]. unfold has in *. by rewrite <- F1.
  - right. pose proof (expects_length _ _ _ _ Hex1) as Hlen. rewrite <- Hu', Hu1, !length_app in Hlen.
    destruct (run_request_run s c' cmds fut origin recv gots errs) as (s2 & c2 & -> & Hr2 & Htr2 & Hcf2 & Hma2 & Hu2); try done; try congruence.
    + rewrite Hav. destruct Hok as [? _]. intros ->. cbn in *. lia.
    + unfold authRequired in *. by rewrite F3.
    + by apply (calm_flags c).
    + rewrite Hma. intros Hm. destruct (Hl Hm) as [L1 L2 L3 _ L5]. rewrite F4, F5, F6. split; [done|]. split; [done|]. split; [lia|done].
    + exists s2, c2, cmd, cmds. rewrite Hu2. split; [done|]. split; [done|]. split; [done|]. split; [by rewrite Htr2, Hav|]. split; [done|]. split; [congruence|]. lia.
Qed.

Lemma trim_run s c fut cmds origin recv gots errs : running s c fut cmds origin recv gots errs ->
  exists c', (if negb (qb_pos c =? 0) then trim_querybuf c else c) = c' /\ running s c' fut cmds origin recv gots errs /\ qb_pos c' = 0 /\ querybuf c' = unread c
    /\ has c' CLIENT_MASTER = has c CLIENT_MASTER.
Proof.
  intros Hr. eexists. split; [done|]. destruct (Z.eqb_spec (qb_pos c) 0) as [E|E]; cbn [negb].
  - split; [done|]. split; [done|]. split; [|done]. unfold unread. by rewrite E.
  - destruct Hr as [Hsv Hlua Hio Hau Hc Hb Hex Hl He]. destruct (buffer_trim c Hb) as [Hb' Hu']. split; [|done]. split; try done.
    intros Hm. destruct (Hl Hm) as [L1 L2 L3 L4 L5]. split; [done|done|by rewrite Hu'|by rewrite Hu'|done].
Qed.

Lemma cmd_ok_config (s s' : server W) cmds : same_config s s' -> Forall (cmd_ok s M) cmds -> Forall (cmd_ok s' M) cmds.
Proof.
  intros (_ & _ & _ & E & _) Hok. eapply Forall_impl; [exact Hok|]. unfold cmd_ok. intros x [Hx1 Hx2]. split; [done|]. eapply Forall_impl; [exact Hx2|]. unfold arg_ok. by rewrite E.
Qed.

(** The loop ends with what was read, or reaches [T]. *)
Lemma input_loop_run fut origin recv gots errs : forall fuel s c cmds, running s c fut cmds origin recv gots errs -> Forall (cmd_ok s M) cmds -> Forall P cmds -> (length (unread c) <= fuel)%nat ->
  (exists s' c' done cmds', input_loop fuel s c = Some (s', c', true) /\ cmds = done ++ cmds' /\ running s' c' fut cmds' origin recv gots errs
    /\ trace (srv_rest s') = trace (srv_rest s) ++ done /\ same_config s s' /\ has c' CLIENT_MASTER = has c CLIENT_MASTER /\ qb_pos c' = 0 /\ zlen (querybuf c') <= M
    /\ (fut = [] -> cmds' = [] /\ querybuf c' = [] /\ T = []))
  \/ (exists s' c' fuel', input_loop fuel s c = input_loop fuel' s' c' /\ running s' c' fut [] origin recv gots errs /\ unread c' <> [] /\ (length (unread c') <= fuel')%nat
    /\ trace (srv_rest s') = trace (srv_rest s) ++ cmds /\ same_config s s' /\ has c' CLIENT_MASTER = has c CLIENT_MASTER).
Proof.
  induction fuel as [|fuel IH]; intros s c cmds Hr Hok HP Hf; pose proof (zlen_unread c (ru_buffer _ _ _ _ _ _ _ _ Hr)) as Hz; pose proof (bo_pos c (ru_buffer _ _ _ _ _ _ _ _ Hr)) as Hpos;
    (destruct (Z.ltb_spec (qb_pos c) (zlen (querybuf c))) as [Hlt|Hge];
      [|left; cbn [input_loop]; replace (_ <? _) with false by lia; assert (Hu0 : unread c = []) by (destruct (unread c); [done|cbn [length] in Hz; lia]);
        destruct (trim_run _ _ _ _ _ _ _ _ Hr) as (c' & -> & Hr' & Hq' & Hqb' & Hm'); exists s, c', [], cmds; split; [done|]; split; [done|]; split; [done|]; split; [by rewrite app_nil_r|];
        split; [done|]; split; [done|]; split; [done|]; rewrite Hqb', Hu0; split; [cbn; lia|]; intros ->; destruct (expects_done c cmds) as [-> ->]; [apply Hr|done|done]]); [lia|].
  assert (Hne : unread c <> []) by (intros E; rewrite E in Hz; cbn in Hz; lia).
  destruct (decide (cmds = [])) as [->|Hcm]; [right; exists s, c, (S fuel); rewrite app_nil_r; done|].
  cbn [input_loop]. replace (qb_pos c <? zlen (querybuf c)) with true by lia.
  destruct (input_step_run s c fut cmds origin recv gots errs Hr Hok HP Hne Hcm) as [(c1 & -> & Hr1 & Hfut & Hsm & Hm1)|(s1 & c1 & cmd & cmds1 & -> & -> & Hr1 & Htr1 & Hcf1 & Hm1 & Hlt1)].
  - left. cbn [mbind option_bind]. destruct (trim_run _ _ _ _ _ _ _ _ Hr1) as (c' & -> & Hr' & Hq' & Hqb' & Hm'). exists s, c', [], cmds. rewrite app_nil_r, Hqb'.
    do 5 (split; [done|]). split; [congruence|]. split; [done|]. split; [done|]. by intros ->.
  - cbn [mbind option_bind]. apply Forall_cons in Hok as [Hok1 Hok], HP as [HP1 HP].
    assert (Hok' : Forall (cmd_ok s1 M) cmds1) by (by apply (cmd_ok_config s)).
    destruct (IH s1 c1 cmds1 Hr1 Hok' HP ltac:(lia)) as [(s' & c' & dn & cmds' & -> & -> & Hr' & Htr' & Hcf' & Hm' & Hrest)|(s' & c' & fuel' & -> & Hr' & Hne' & Hf' & Htr' & Hcf' & Hm')].
    + left. exists s', c', (cmd :: dn), cmds'. split; [done|]. split; [done|]. split; [done|]. split; [rewrite Htr', Htr1, <- app_assoc; done|]. split; [by eapply same_config_trans|].
      split; [congruence|done].
    + right. exists s', c', fuel'. split; [done|]. split; [done|]. split; [done|]. split; [done|]. split; [rewrite Htr', Htr1, <- app_assoc; done|]. split; [by eapply same_config_trans|congruence].
Qed.


(** A read gives some of the bytes to come. *)
Lemma read_append s c data fut cmds origin recv gots errs : running s c (data ++ fut) cmds origin recv gots errs -> Forall byte_ok data ->
  qb_pos c = 0 -> zlen (querybuf c) <= M -> M + PROTO_IOBUF_LEN <= client_max_querybuf_len s -> zlen data <= readlen c ->
  (has c CLIENT_MASTER = true -> offsets_ok origin (recv ++ data)) ->
  exists c2, readQueryFromClient s c (ReadData data) = input_loop (length (querybuf c2)) s c2 /\ running s c2 fut cmds origin (recv ++ data) gots errs
    /\ has c2 CLIENT_MASTER = has c CLIENT_MASTER /\ (length (unread c2) <= length (querybuf c2))%nat.
Proof.
  intros [Hsv Hlua Hio Hau Hc Hb Hex Hl He] Hd Hq0 Hqb Hmax Hrl Hrg. unfold readQueryFromClient, postponeClientRead. rewrite Hio. cbn [andb].
  set (c1 := if querybuf_peak c <? _ then set_querybuf_peak _ c else c). destruct (Z.gtb_spec (zlen data) (readlen c)) as [?|_]; [lia|].
  pose proof (readlen_bound c) as Hrb.
  assert (Hc2 : exists c2, (c ← (let c := if has c1 CLIENT_MASTER then set_pending_querybuf (pending_querybuf c1 ++ data) c1 else c1 in
      let c := set_lastinteraction (unixtime s) (set_querybuf (querybuf c ++ data) c) in
      if has c CLIENT_MASTER then off ← signed64 (read_reploff c + zlen data); Some (set_read_reploff off c) else Some c); Some c) = Some c2
    /\ querybuf c2 = querybuf c ++ data /\ qb_pos c2 = qb_pos c /\ flags c2 = flags c /\ errors c2 = errors c /\ authenticated c2 = authenticated c /\ reqtype c2 = reqtype c
    /\ multibulklen c2 = multibulklen c /\ bulklen c2 = bulklen c /\ argv c2 = argv c /\ argv_size c2 = argv_size c /\ reploff c2 = reploff c
    /\ (has c CLIENT_MASTER = true -> pending_querybuf c2 = pending_querybuf c ++ data /\ read_reploff c2 = read_reploff c + zlen data)).
  { assert (Hc1 : has c1 CLIENT_MASTER = has c CLIENT_MASTER) by (unfold c1; by destruct (_ <? _)). destruct (has c CLIENT_MASTER) eqn:Em; rewrite Hc1; cbv zeta.
    - set (c2 := set_lastinteraction _ _). change (has c2 CLIENT_MASTER) with (has c1 CLIENT_MASTER). rewrite Hc1.
      assert (Er : read_reploff c2 = read_reploff c) by (unfold c2, c1; by destruct (_ <? _)). destruct (Hrg eq_refl) as [R0 R1]. rewrite length_app in R1.
      pose proof (lk_read _ _ _ _ _ (Hl Em)). rewrite Er, signed64_ok by lia. eexists. split; [done|]. unfold c2, c1. by destruct (_ <? _).
    - set (c2 := set_lastinteraction _ _). change (has c2 CLIENT_MASTER) with (has c1 CLIENT_MASTER). rewrite Hc1. eexists. split; [done|]. unfold c2, c1. by destruct (_ <? _). }
  destruct Hc2 as (c2 & E2 & Hc2). cbv zeta in E2 |- *.
  match type of E2 with (?o ≫= _) = _ => destruct o as [c3|] eqn:E3; [|done] end. injection E2 as ->. cbn [mbind option_bind].
  destruct Hc2 as (G1 & G2 & G3 & G4 & G5 & G6 & G7 & G8 & G9 & G10 & G11 & G12). rewrite G1, length_app.
  replace (_ >? _) with false by lia. assert (Hu2 : unread c2 = unread c ++ data) by (unfold unread; by rewrite G1, G2, Hq0).
  assert (Hr2 : running s c2 fut cmds origin (recv ++ data) gots errs).
  { split; try done; try congruence.
    - unfold authRequired in *. by rewrite G5.
    - by apply (calm_flags c).
    - destruct Hb as [_ _ Hby]. destruct Hsv as [_ Hsv]. split; rewrite G1; [rewrite G2, Hq0; lia|rewrite length_app; lia|]. by apply Forall_app.
    - unfold expects, partial, mid, idle in *. rewrite G6, G7, G8, G9, G10, Hu2, <- app_assoc. destruct Hex as [(Hid & Hrt & E)|Hex]; [left|right; exact Hex].
      split; [done|]. split; [|done]. destruct Hrt as [?|[? Hn]]; [by left|right]. split; [done|]. intros E2. by apply app_eq_nil in E2 as [? _].
    - intros Hm. assert (Hm' : has c CLIENT_MASTER = true) by (unfold has in *; by rewrite <- G3). destruct (Hl Hm') as [(st & L1 & L1' & L1'') L2 L3 L4 _]. destruct (G12 Hm') as [E1 E4].
      split; [exists st; rewrite E1, G11, L1', <- app_assoc; done|rewrite E4, L2, length_app; lia|rewrite Hu2, E1, !length_app; lia| |by apply Hrg].
      unfold idle, has in *. rewrite G3, G7, G8, G9, Hu2, E1, !length_app. intros Hi Hmu. specialize (L4 Hi Hmu). lia. }
  exists c2. split; [done|]. split; [done|]. split; [unfold has; by rewrite G3|]. unfold unread. rewrite length_drop. lia.
Qed.
End quiet.

Section deliver.
Context `{HH : Host, AA : SdsAlloc} {W : Type} `{EE : Exec W}.

(** The bytes of [input] arrive in pieces of at most [sizes]. *)
Fixpoint deliver (s : server W) (c : client) (input : bytes) (sizes : list Z) : option (server W * client * bytes) :=
  match sizes with
  | [] => Some (s, c, input)
  | n :: sizes =>
    if zlen input =? 0 then Some (s, c, input)
    else
      let k := Z.to_nat (Z.min n (readlen c)) in
      '(s, c, alive) ← readQueryFromClient s c (ReadData (take k input));
      if alive : bool then deliver s c (drop k input) sizes else Some (s, c, drop k input)
  end.

Lemma readlen_pos c : 1 <= readlen c.
Proof. unfold readlen, PROTO_IOBUF_LEN. destruct (_ && _ && _ && _); [|lia]. destruct (_ && _) eqn:E; lia. Qed.

End deliver.

Section roundtrip.
Context `{HH : Host, AA : SdsAlloc} {W : Type} `{EE : Exec W}.
Variable P : list bytes -> Prop.
Variable trace : W -> list (list bytes).
Hypothesis Hquiet : quiet_exec P trace.
Variable M : Z.
Hypothesis HM : 32 <= M.

Lemma read_run (s : server W) c data fut cmds origin recv gots errs : running [] s c (data ++ fut) cmds origin recv gots errs -> Forall (cmd_ok s M) cmds -> Forall P cmds -> Forall byte_ok data ->
  qb_pos c = 0 -> zlen (querybuf c) <= M -> M + PROTO_IOBUF_LEN <= client_max_querybuf_len s -> zlen data <= readlen c ->
  (has c CLIENT_MASTER = true -> offsets_ok origin (recv ++ data)) ->
  exists s' c' done cmds', readQueryFromClient s c (ReadData data) = Some (s', c', true) /\ cmds = done ++ cmds' /\ running [] s' c' fut cmds' origin (recv ++ data) gots errs
    /\ trace (srv_rest s') = trace (srv_rest s) ++ done /\ same_config s s' /\ has c' CLIENT_MASTER = has c CLIENT_MASTER /\ qb_pos c' = 0 /\ zlen (querybuf c') <= M
    /\ (fut = [] -> cmds' = [] /\ querybuf c' = []).
Proof.
  intros Hr Hok HP Hd Hq Hqb Hmax Hrl Hrg. destruct (read_append [] M s c data fut cmds origin recv gots errs Hr Hd Hq Hqb Hmax Hrl Hrg) as (c2 & -> & Hr2 & Hm2 & Hf2).
  destruct (input_loop_run P trace Hquiet [] M HM fut origin (recv ++ data) gots errs _ s c2 cmds Hr2 Hok HP Hf2)
    as [(s' & c' & dn & cmds' & E & H1 & H2 & H3 & H4 & H5 & H6 & H7 & H8)|(s' & c' & ? & _ & H1 & H2 & _)].
  - exists s', c', dn, cmds'. do 5 (split; [done|]). split; [congruence|]. split; [done|]. split; [done|]. intros Hfut. by destruct (H8 Hfut) as (? & ? & _).
  - destruct (ru_expects _ _ _ _ _ _ _ _ _ H1) as [(_ & _ & E)|(? & ? & ? & _)]; [|done]. by apply app_eq_nil in E as [? _].
Qed.

Lemma deliver_run origin gots errs : forall sizes (s : server W) c input cmds recv, running [] s c input cmds origin recv gots errs -> Forall (cmd_ok s M) cmds -> Forall P cmds -> Forall byte_ok input ->
  qb_pos c = 0 -> zlen (querybuf c) <= M -> M + PROTO_IOBUF_LEN <= client_max_querybuf_len s -> Forall (fun n => 0 < n) sizes -> (length input <= length sizes)%nat ->
  (input = [] -> cmds = [] /\ querybuf c = []) -> (has c CLIENT_MASTER = true -> offsets_ok origin (recv ++ input)) ->
  exists s' c', deliver s c input sizes = Some (s', c', []) /\ running [] s' c' [] [] origin (recv ++ input) gots errs /\ trace (srv_rest s') = trace (srv_rest s) ++ cmds
    /\ same_config s s' /\ has c' CLIENT_MASTER = has c CLIENT_MASTER /\ qb_pos c' = 0 /\ querybuf c' = [].
Proof.
  assert (Hend : forall (s : server W) c input cmds recv, input = [] -> running [] s c input cmds origin recv gots errs -> qb_pos c = 0 -> (input = [] -> cmds = [] /\ querybuf c = []) ->
    exists s' c', Some (s, c, input) = Some (s', c', []) /\ running [] s' c' [] [] origin (recv ++ input) gots errs /\ trace (srv_rest s') = trace (srv_rest s) ++ cmds
    /\ same_config s s' /\ has c' CLIENT_MASTER = has c CLIENT_MASTER /\ qb_pos c' = 0 /\ querybuf c' = []).
  { intros s c input cmds recv -> Hr Hq Hn. destruct (Hn eq_refl) as [-> Hqb]. exists s, c. rewrite !app_nil_r. done. }
  induction sizes as [|n sizes IH]; intros s c input cmds recv Hr Hok HP Hby Hq Hqb Hmax Hsz Hlen Hnil Hrg; cbn [deliver].
  { apply Hend; try done. destruct input; [done|cbn in Hlen; lia]. }
  destruct (Z.eqb_spec (zlen input) 0) as [E0|E0]; [apply Hend; try done; destruct input; [done|cbn [length] in E0; lia]|]. apply Forall_cons in Hsz as [Hn Hsz].
  set (k := Z.to_nat (Z.min n (readlen c))). pose proof (readlen_pos c) as Hrp. cbn [length] in Hlen.
  destruct (read_run s c (take k input) (drop k input) cmds origin recv gots errs) as (s1 & c1 & dn & cmds1 & -> & -> & Hr1 & Htr1 & Hcf1 & Hm1 & Hq1 & Hqb1 & Hnil1); try done.
  - by rewrite take_drop.
  - by apply Forall_take.
  - rewrite length_take. unfold k. lia.
  - intros Hm. apply (offsets_app _ _ (drop k input)). rewrite <- app_assoc, take_drop. auto.
  - cbn [mbind option_bind]. apply Forall_app in Hok as [_ Hok], HP as [_ HP]. pose proof Hcf1 as (_ & _ & _ & E1 & E2).
    destruct (IH s1 c1 (drop k input) cmds1 (recv ++ take k input) Hr1) as (s' & c' & -> & Hr' & Htr' & Hcf' & Hm' & Hrest); try done.
    + by apply (cmd_ok_config M s).
    + by apply Forall_drop.
    + by rewrite E2.
    + rewrite length_drop. unfold k. lia.
    + rewrite Hm1, <- app_assoc, take_drop. done.
    + exists s', c'. split; [done|]. rewrite <- app_assoc, take_drop in Hr'. split; [done|]. split; [by rewrite Htr', Htr1, <- app_assoc|]. split; [by eapply same_config_trans|].
      split; [congruence|done].
Qed.

(** A connected client that sent nothing yet, or whose requests were all
    processed. *)
Definition ready (s : server W) (c : client) : Prop :=
  server_ok s /\ lua_timedout s = false /\ io_threads_active s = false /\ authRequired s c = false /\ calm c /\ idle c /\ reqtype c = 0 /\ querybuf c = [] /\ qb_pos c = 0.

Lemma decimal_bytes v : in_s 64 v -> 0 <= v -> Forall byte_ok (decimal v).
Proof.
  intros Hv Hp. destruct (decimal_canon v Hv) as (d & _ & ->). unfold canon. replace (v <? 0) with false by lia.
  eapply Forall_impl; [apply (dec_isdig d v)|]. unfold isdig, byte_ok. lia.
Qed.

Lemma encode_bytes (s : server W) cmds : server_ok s -> Forall (cmd_ok s M) cmds -> Forall (Forall (Forall byte_ok)) cmds -> Forall byte_ok (concat (encode <$> cmds)).
Proof.
  intros [Hmx _] Hok Hby. induction cmds as [|cmd cmds IH]; [done|]. apply Forall_cons in Hok as [[Hl Ha] Hok], Hby as [Hb Hby]. rewrite fmap_cons. cbn [concat].
  apply Forall_app. split; [|by apply IH]. assert (Hc : Forall byte_ok CRLF) by bytes_compute. unfold encode. constructor; [unfold byte_ok; lia|].
  apply Forall_app. split; [apply decimal_bytes; unfold in_s; lia|]. apply Forall_app. split; [done|]. clear Hl.
  induction cmd as [|a cmd IHc]; [done|]. apply Forall_cons in Ha as [[Ha1 _] Ha], Hb as [Hb1 Hb]. rewrite fmap_cons. cbn [concat]. apply Forall_app. split; [|by apply IHc].
  unfold bulk. constructor; [unfold byte_ok; lia|]. apply Forall_app. split; [apply decimal_bytes; unfold in_s; lia|]. do 2 (apply Forall_app; split; [done|]). done.
Qed.

Lemma commands_run (s : server W) c cmds sizes origin recv gots : ready s c -> linked s c origin recv gots -> Forall (cmd_ok s M) cmds -> Forall P cmds -> Forall (Forall (Forall byte_ok)) cmds ->
  M + PROTO_IOBUF_LEN <= client_max_querybuf_len s -> Forall (fun n => 0 < n) sizes -> (length (concat (encode <$> cmds)) <= length sizes)%nat ->
  (has c CLIENT_MASTER = true -> offsets_ok origin (recv ++ concat (encode <$> cmds))) ->
  exists s' c', deliver s c (concat (encode <$> cmds)) sizes = Some (s', c', []) /\ trace (srv_rest s') = trace (srv_rest s) ++ cmds
    /\ ready s' c' /\ errors c' = errors c /\ linked s' c' origin (recv ++ concat (encode <$> cmds)) gots
    /\ (has c CLIENT_MASTER = true -> has c' CLIENT_MULTI = false ->
         synced (srv_repl s') origin (recv ++ concat (encode <$> cmds)) gots /\ reploff c' = origin + zlen (recv ++ concat (encode <$> cmds))).
Proof.
  intros (Hsv & Hlua & Hio & Hau & Hc & Hid & Hrt & Hqb & Hq) Hl Hok HP Hby Hmax Hsz Hlen Hrg.
  destruct (deliver_run origin gots (errors c) sizes s c (concat (encode <$> cmds)) cmds recv) as (s' & c' & E & Hr & Htr & Hcf & Hm & Hq' & Hqb'); try done.
  - split; try done; [split; rewrite ?Hqb, ?Hq; [cbn; lia|cbn; unfold QUERYBUF_MAX; lia|done]|]. left. split; [done|]. split; [by left|]. unfold unread, left_over. by rewrite Hqb, drop_nil, app_nil_r.
  - by apply (encode_bytes s).
  - rewrite Hqb. cbn. lia.
  - intros E. split; [|done]. destruct cmds as [|cmd cmds]; [done|]. apply (f_equal length) in E. rewrite fmap_cons in E. cbn in E. lia.
  - assert (Hu' : unread c' = []) by (unfold unread; by rewrite Hqb', drop_nil). destruct Hr as [R1 R2 R3 R4 R5 R6 R7 R8 R9].
    assert (Hid' : idle c' /\ reqtype c' = 0).
    { destruct R7 as [(Hid' & [?|[_ Hn]] & _)|(? & ? & ? & _)]; [done|by rewrite Hu' in Hn|done]. }
    exists s', c'. split; [done|]. split; [done|]. split; [do 5 (split; [done|]); by destruct Hid'|]. split; [done|]. split; [done|].
    intros Hma Hmu. rewrite <- Hm in Hma. destruct (R8 Hma) as [(st & L1 & L1' & L1'') _ _ L4 _]. specialize (L4 (proj1 Hid') Hmu). rewrite Hu' in L4.
    assert (Ep : pending_querybuf c' = []) by (destruct (pending_querybuf c'); [done|cbn in L4; lia]). rewrite Ep, app_nil_r in L1'. by rewrite L1'.
Qed.

(** C10: a stream of commands in the wire format, received in pieces of any
    size, makes the parser run exactly these commands in their order (whatever
    bytes the arguments hold, and however a header or a large argument is cut);
    no error is replied and the client is ready again. When the client is the
    link with a master, whose offsets do not overflow, and no transaction is open
    at the end, the bytes that
    were received are the replication stream of this server too: its backlog and
    its replicas hold them byte for byte, and the offset is that of the master. *)
Theorem commands_roundtrip (s : server W) c cmds sizes origin recv gots : ready s c -> linked s c origin recv gots -> Forall (cmd_ok s M) cmds -> Forall P cmds -> Forall (Forall (Forall byte_ok)) cmds ->
  M + PROTO_IOBUF_LEN <= client_max_querybuf_len s -> Forall (fun n => 0 < n) sizes -> (length (concat (encode <$> cmds)) <= length sizes)%nat ->
  (has c CLIENT_MASTER = true -> offsets_ok origin (recv ++ concat (encode <$> cmds))) ->
  exists s' c', deliver s c (concat (encode <$> cmds)) sizes = Some (s', c', []) /\ trace (srv_rest s') = trace (srv_rest s) ++ cmds
    /\ ready s' c' /\ errors c' = errors c /\ linked s' c' origin (recv ++ concat (encode <$> cmds)) gots
    /\ (has c CLIENT_MASTER = true -> has c' CLIENT_MULTI = false ->
         synced (srv_repl s') origin (recv ++ concat (encode <$> cmds)) gots /\ reploff c' = origin + zlen (recv ++ concat (encode <$> cmds))).
Proof. apply commands_run. Qed.
End roundtrip.

(** * From a master to a replica *)

Section propagation.
Context `{HH : Host, AA : SdsAlloc}.

Fixpoint feed_all (s : repl) (l : list (Z * list robj)) : option repl :=
  match l with
  | [] => Some s
  | (dictid, argv) :: l => s ← replicationFeedSlaves s dictid argv; feed_all s l
  end.

(** What a replica is to run, when the database of the stream is [db]. *)
Fixpoint propagated (db : Z) (l : list (Z * list robj)) : list (list bytes) :=
  match l with
  | [] => []
  | (dictid, argv) :: l => (if db =? dictid then [] else [[of_string "SELECT"; decimal dictid]]) ++ [text <$> argv] ++ propagated dictid l
  end.

Definition same_kind (r r' : replica) : Prop := canFeedReplicaReplBuffer r' = canFeedReplicaReplBuffer r /\ rp_close_asap r' = rp_close_asap r /\ rp_mute r' = rp_mute r.

Lemma queue_kind data l i r : queue data l !! i = Some r -> exists r0, l !! i = Some r0 /\ same_kind r0 r.
Proof.
  unfold queue. rewrite list_lookup_fmap. destruct (l !! i) as [r0|]; [|done]. cbn. intros [= <-]. exists r0. split; [done|].
  destruct r0 as [[|] [|] [|] [|] out]; done.
Qed.

Lemma feed_kind s dictid argv s' i r : replicationFeedSlaves s dictid argv = Some s' -> slaves s' !! i = Some r -> exists r0, slaves s !! i = Some r0 /\ same_kind r0 r.
Proof.
  unfold replicationFeedSlaves. destruct (masterhost s); [intros [= <-]; eauto; by exists r|]. destruct (repl_backlog (bl s)); [|destruct (slaves s) eqn:E; [intros [= <-]; rewrite E; done|done]].
  assert (Hsel : forall s1, (if negb (slaveseldb s =? dictid) then b ← feedReplicationBacklogWithObject (bl s) (StrObj (select_cmd dictid)); Some (set_slaves (set_bl s b) (queue (select_cmd dictid) (slaves s))) else Some s) = Some s1 ->
    forall r, slaves s1 !! i = Some r -> exists r0, slaves s !! i = Some r0 /\ same_kind r0 r).
  { intros s1. destruct (negb _); [|intros [= <-] r' Hr'; by exists r']. destruct (feedReplicationBacklogWithObject _ _); [|done]. cbn [mbind option_bind]. intros [= <-] r'. apply queue_kind. }
  destruct (if negb (slaveseldb s =? dictid) then _ else _) as [s1|]; [|done]. cbn [mbind option_bind set_slaveseldb bl slaves]. destruct (feed_command (bl s1) argv); [|done]. cbn [mbind option_bind].
  destruct (reply_command argv); [|done]. cbn [mbind option_bind]. intros [= <-] Hr. cbn [slaves set_slaves] in Hr. apply queue_kind in Hr as (r1 & Hr1 & H1). destruct (Hsel s1 eq_refl r1 Hr1) as (r0 & Hr0 & H0).
  exists r0. split; [done|]. unfold same_kind in *. intuition congruence.
Qed.

Definition feedable (x : Z * list robj) : Prop := in_s 64 x.1 /\ Forall obj_ok x.2 /\ in_s 64 (zlen x.2).

Lemma feed_all_sync l : forall s origin stream gots, synced s origin stream gots -> masterhost s = false -> Forall feedable l ->
  offsets_ok origin (stream ++ concat (encode <$> propagated (slaveseldb s) l)) ->
  exists s', feed_all s l = Some s' /\ synced s' origin (stream ++ concat (encode <$> propagated (slaveseldb s) l)) gots
    /\ forall i r, slaves s' !! i = Some r -> exists r0, slaves s !! i = Some r0 /\ same_kind r0 r.
Proof.
  induction l as [|[db argv] l IH]; intros s origin stream gots Hs Hm Hl Hrg; cbn [feed_all propagated] in *.
  - exists s. cbn. rewrite app_nil_r. split; [done|]. split; [done|]. intros i r Hr. by exists r.
  - assert (E : stream ++ concat (encode <$> (if slaveseldb s =? db then [] else [[of_string "SELECT"; decimal db]]) ++ [text <$> argv] ++ propagated db l) =
      (stream ++ stream_of s (OpCommand db argv)) ++ concat (encode <$> propagated db l)).
    { cbn [stream_of]. rewrite Hm. rewrite !fmap_app, !concat_app. destruct (slaveseldb s =? db); cbn [fmap list_fmap concat app]; by rewrite ?app_nil_r, <- !app_assoc. }
    rewrite E in *. apply Forall_cons in Hl as [(H1 & H2 & H3) Hl].
    destruct (command_sync s origin stream gots db argv Hs H1 H2 H3 (offsets_app _ _ _ Hrg)) as (s1 & E1 & Hs1 & Hm1 & Hdb). specialize (Hdb Hm). rewrite E1. cbn [mbind option_bind].
    destruct (IH s1 origin _ gots Hs1) as (s' & -> & Hs' & Hk); [congruence|done|by rewrite Hdb|]. exists s'. split; [done|]. split; [by rewrite Hdb in Hs'|].
    intros i r Hr. destruct (Hk i r Hr) as (r1 & Hr1 & K1). destruct (feed_kind _ _ _ _ _ _ E1 Hr1) as (r0 & Hr0 & K0). exists r0. split; [done|]. unfold same_kind in *. intuition congruence.
Qed.

(** C3: the commands a master propagates are the commands its replica runs.
    Commands executed on a master are written, with the [SELECT]s the stream
    needs, to the output of every online replica; a replica that had received
    everything so far, and reads this output in pieces of any size, runs exactly
    these commands in this order, and relays the same bytes to its own backlog
    and replicas. The offsets of the two streams are assumed not to overflow. *)
Theorem replica_runs_commands {W} `{EE : Exec W} (P : list bytes -> Prop) (trace : W -> list (list bytes)) M m origin stream gots i r l (s : server W) c origin' recv gots' sizes :
  quiet_exec P trace -> 32 <= M -> synced m origin stream gots -> masterhost m = false -> Forall feedable l ->
  slaves m !! i = Some r -> canFeedReplicaReplBuffer r = true -> rp_close_asap r = false -> rp_mute r = false -> gots !! i = Some stream ->
  offsets_ok origin (stream ++ concat (encode <$> propagated (slaveseldb m) l)) -> offsets_ok origin' (recv ++ concat (encode <$> propagated (slaveseldb m) l)) ->
  ready s c -> has c CLIENT_MASTER = true -> linked s c origin' recv gots' ->
  Forall (cmd_ok s M) (propagated (slaveseldb m) l) -> Forall P (propagated (slaveseldb m) l) -> Forall (Forall (Forall byte_ok)) (propagated (slaveseldb m) l) ->
  M + PROTO_IOBUF_LEN <= client_max_querybuf_len s -> Forall (fun n => 0 < n) sizes -> (length (concat (encode <$> propagated (slaveseldb m) l)) <= length sizes)%nat ->
  exists m' r' s' c', feed_all m l = Some m' /\ slaves m' !! i = Some r' /\ deliver s c (rp_out r') sizes = Some (s', c', [])
    /\ trace (srv_rest s') = trace (srv_rest s) ++ propagated (slaveseldb m) l
    /\ (has c' CLIENT_MULTI = false -> synced (srv_repl s') origin' (recv ++ rp_out r') gots').
Proof.
  intros Hq HM Hs Hm Hl Hi Hcf Hca Hmu0 Hg Hrg Hrg' Hrd Hma Hlk Hok HP Hby Hmax Hsz Hlen.
  destruct (feed_all_sync l m origin stream gots Hs Hm Hl Hrg) as (m' & E & Hs' & Hk).
  destruct (Forall2_lookup_r _ _ _ _ _ (sy_slaves _ _ _ _ Hs') Hg) as (r' & Hi' & Hsy). destruct (Hk i r' Hi') as (r0 & Hi0 & (K1 & K2 & K3)). rewrite Hi in Hi0. injection Hi0 as <-.
  assert (Eout : rp_out r' = concat (encode <$> propagated (slaveseldb m) l)) by (apply (app_inv_head stream), Hsy; congruence).
  destruct (commands_run P trace Hq M HM s c _ sizes origin' recv gots' Hrd Hlk Hok HP Hby Hmax Hsz Hlen (fun _ => Hrg')) as (s' & c' & Ed & Htr & _ & _ & _ & Hfin).
  exists m', r', s', c'. rewrite Eout. split; [done|]. split; [done|]. split; [done|]. split; [done|]. intros Hmu. by apply Hfin.
Qed.
End propagation.

(** * Instances *)

#[local] Existing Instance LittleHost.
#[local] Existing Instance RoundAlloc.

Definition not_quit (cmd : list bytes) : Prop := match cmd with a :: _ => strcaseeq a (of_string "quit") = false | [] => True end.

Lemma LogExec_quiet : quiet_exec not_quit (fun w => w).
Proof.
  intros s c Hp. cbn [processCommand LogExec]. exists (set_rest (srv_rest s ++ [argv c]) s), c.
  split; [|repeat split; done]. unfold not_quit in Hp. destruct (argv c) as [|a l]; [done|]. by rewrite Hp.
Qed.

Definition sample_link : client := sample_client CLIENT_MASTER.

Lemma sample_link_ready : ready sample_server sample_link.
Proof. split; [split; vm_compute; discriminate|]. by repeat split. Qed.

Lemma sample_linked : linked sample_server sample_link 0 [1; 2; 3; 4; 5] [[1; 2; 3]].
Proof.
  intros _. split; [|done|vm_compute; discriminate|done|by split; vm_compute]. exists [1; 2; 3; 4; 5]. split; [apply sample_synced|done].
Qed.

(** A command within the limits. *)
Ltac small_cmd := split; [cbn; lia|]; repeat (constructor; [split; vm_compute; discriminate|]); constructor.

Ltac eval_bytes := match goal with |- Forall byte_ok ?l => let l' := eval vm_compute in l in change (Forall byte_ok l'); bytes_compute end.
Ltac small_bytes := repeat (apply Forall_cons; split; [repeat (apply Forall_cons; split; [eval_bytes|]); apply Forall_nil_2|]); apply Forall_nil_2.

Definition sample_cmds : list (list bytes) := [[of_string "SET"; of_string "k"; [13; 10; 0]]; [of_string "PING"]].

Lemma commands_roundtrip_witness : exists s' c',
  deliver sample_server sample_link (concat (encode <$> sample_cmds)) (replicate 60 7) = Some (s', c', []) /\ srv_rest s' = [] ++ sample_cmds
    /\ ready s' c' /\ errors c' = [] /\ linked s' c' 0 ([1; 2; 3; 4; 5] ++ concat (encode <$> sample_cmds)) [[1; 2; 3]]
    /\ (has sample_link CLIENT_MASTER = true -> has c' CLIENT_MULTI = false ->
         synced (srv_repl s') 0 ([1; 2; 3; 4; 5] ++ concat (encode <$> sample_cmds)) [[1; 2; 3]] /\ reploff c' = 0 + zlen ([1; 2; 3; 4; 5] ++ concat (encode <$> sample_cmds))).
Proof.
  apply (commands_roundtrip not_quit (fun w => w) LogExec_quiet 64 ltac:(lia) sample_server sample_link sample_cmds).
  - apply sample_link_ready.
  - apply sample_linked.
  - repeat (apply Forall_cons; split; [small_cmd|]). apply Forall_nil_2.
  - repeat constructor.
  - small_bytes.
  - vm_compute. discriminate.
  - vm_compute. repeat constructor.
  - vm_compute. repeat constructor.
  - intros _. by split; vm_compute.
Defined.

Definition sample_master : repl := set_slaves sample_repl [mkReplica false false false false []].

Lemma sample_master_synced : synced sample_master 0 [1; 2; 3; 4; 5] [[1; 2; 3; 4; 5]].
Proof. split; [apply sample_synced|]. repeat constructor. Qed.

Lemma replica_runs_commands_witness : exists m' r' s' c',
  feed_all sample_master [(0, [StrObj (of_string "INCR"); StrObj (of_string "a")]); (3, [StrObj (of_string "SETEX"); StrObj (of_string "b"); IntObj (-7)])] = Some m'
  /\ slaves m' !! 0%nat = Some r' /\ deliver sample_server sample_link (rp_out r') (replicate 120 1) = Some (s', c', [])
  /\ srv_rest s' = [] ++ [[of_string "INCR"; of_string "a"]; [of_string "SELECT"; of_string "3"]; [of_string "SETEX"; of_string "b"; of_string "-7"]]
  /\ (has c' CLIENT_MULTI = false -> synced (srv_repl s') 0 ([1; 2; 3; 4; 5] ++ rp_out r') [[1; 2; 3]]).
Proof.
  apply (replica_runs_commands not_quit (fun w => w) 64 sample_master 0 [1; 2; 3; 4; 5] [[1; 2; 3; 4; 5]] 0%nat (mkReplica false false false false [])).
  - apply LogExec_quiet.
  - lia.
  - apply sample_master_synced.
  - reflexivity.
  - repeat (constructor; [split; [unfold in_s; cbn; lia|]; split; [repeat (constructor; [unfold obj_ok, in_s; cbn; lia|]); constructor|unfold in_s; cbn; lia]|]). constructor.
  - reflexivity.
  - reflexivity.
  - reflexivity.
  - reflexivity.
  - reflexivity.
  - by split; vm_compute.
  - by split; vm_compute.
  - apply sample_link_ready.
  - reflexivity.
  - apply sample_linked.
  - repeat (apply Forall_cons; split; [small_cmd|]). apply Forall_nil_2.
  - repeat constructor.
  - small_bytes.
  - vm_compute. discriminate.
  - vm_compute. repeat constructor.
  - vm_compute. repeat constructor.
Defined.
