(* ===== verification/ProtocolErrors.v ===== *)
(** The parser on malformed input: after an invalid request one error is
    replied, the client is to be closed, and nothing that follows is run. *)
From S2P Require Import Prelude Endian Util Sds SdsSpec SdsOps SdsText SdsArgs Wire Replication Protocol ProtocolSpec ProtocolRun.
Open Scope Z_scope.

Section errors.
Context `{HH : Host, AA : SdsAlloc} {W : Type} `{EE : Exec W}.

(** * After the error *)

(** An error was replied: nothing more is parsed. *)
Record closed (c : client) (errs : list bytes) : Prop := {
  cl_close : has c CLIENT_CLOSE_AFTER_REPLY = true;
  cl_error : has c CLIENT_PROTOCOL_ERROR = true;
  cl_pos : qb_pos c = 0;
  cl_master : has c CLIENT_MASTER = false;
  cl_errors : errors c = errs
}.

Lemma has_lor c f g : has c f = true -> has c (Z.lor f g) = true.
Proof.
  unfold has. rewrite Z.land_lor_distr_r. destruct (Z.eqb_spec (Z.land (flags c) f) 0) as [|Hn]; [done|]. intros _.
  destruct (Z.eqb_spec (Z.lor (Z.land (flags c) f) (Z.land (flags c) g)) 0) as [E|]; [|done]. by apply Z.lor_eq_0_iff in E as [? _].
Qed.

Lemma closed_step (s : server W) c errs : closed c errs -> input_step s c = Some (LBreak s c).
Proof.
  intros [Hc _ _ _ _]. unfold input_step. destruct (has c CLIENT_BLOCKED); [done|]. destruct (has c CLIENT_PENDING_COMMAND); [done|]. destruct (_ && _); [done|].
  by rewrite (has_lor _ _ _ Hc).
Qed.

Lemma closed_same c c' errs : closed c errs -> flags c' = flags c -> qb_pos c' = qb_pos c -> errors c' = errors c -> closed c' errs.
Proof. intros [H1 H2 H3 H4 H5] Hf Hq He. split; unfold has in *; congruence. Qed.

Lemma closed_free c errs : closed c errs -> closed (freeClientAsync c) errs.
Proof.
  intros Hc. unfold freeClientAsync. destruct (_ || _); [done|]. destruct Hc as [H1 H2 H3 H4 H5]. split; [by rewrite has_set, H1|by rewrite has_set, H2|done|by rewrite has_set, H4|done].
Qed.

Lemma closed_loop fuel (s : server W) c errs : closed c errs -> (length (querybuf c) <= fuel)%nat -> input_loop fuel s c = Some (s, c, true).
Proof.
  intros Hc Hf. pose proof (cl_pos _ _ Hc) as Hq. destruct fuel as [|fuel]; cbn [input_loop]; rewrite Hq; [by replace (0 <? _) with false by lia|].
  destruct (0 <? _); [rewrite (closed_step s c errs) by done; cbn [mbind option_bind]; by rewrite Hq|done].
Qed.

Lemma closed_read (s : server W) c errs data : closed c errs -> io_threads_active s = false -> zlen data <= readlen c ->
  exists c', readQueryFromClient s c (ReadData data) = Some (s, c', true) /\ closed c' errs.
Proof.
  intros Hc Hio Hd. unfold readQueryFromClient, postponeClientRead. rewrite Hio. cbn [andb]. destruct (Z.gtb_spec (zlen data) (readlen c)) as [?|_]; [lia|].
  set (c1 := if querybuf_peak c <? _ then set_querybuf_peak _ c else c).
  assert (Hm1 : has c1 CLIENT_MASTER = false) by (unfold c1; destruct (_ <? _); apply (cl_master _ _ Hc)). rewrite Hm1. cbv zeta.
  change (has (set_lastinteraction (unixtime s) (set_querybuf (querybuf c1 ++ data) c1)) CLIENT_MASTER) with (has c1 CLIENT_MASTER). rewrite Hm1. cbn [mbind option_bind].
  match goal with |- context [processInputBuffer s ?x] => set (c2 := x) end.
  assert (Hc2 : closed c2 errs).
  { apply (closed_same c); [done|..]; unfold c2, c1; repeat match goal with |- context [if ?b then _ else _] => destruct b end; done. }
  destruct (_ >? client_max_querybuf_len s); [eexists; split; [done|]; by apply closed_free|]. exists c2. split; [|done]. by apply (closed_loop _ s c2 errs).
Qed.

Lemma deliver_closed errs : forall sizes (s : server W) c input, closed c errs -> io_threads_active s = false -> Forall (fun n => 0 < n) sizes -> (length input <= length sizes)%nat ->
  exists c', deliver s c input sizes = Some (s, c', []) /\ closed c' errs.
Proof.
  induction sizes as [|n sizes IH]; intros s c input Hc Hio Hsz Hlen; cbn [deliver]; [destruct input; [by exists c|cbn in Hlen; lia]|].
  destruct (Z.eqb_spec (zlen input) 0) as [E0|E0]; [destruct input; [by exists c|cbn [length] in E0; lia]|]. apply Forall_cons in Hsz as [Hn Hsz]. pose proof (readlen_pos c) as Hrp. cbn [length] in Hlen.
  set (k := Z.to_nat (Z.min n (readlen c))). destruct (closed_read s c errs (take k input) Hc Hio) as (c1 & -> & Hc1); [rewrite length_take; unfold k; lia|]. cbn [mbind option_bind].
  apply IH; [done|done|done|]. rewrite length_drop. unfold k. lia.
Qed.

(** * The invalid request *)

Variable P : list bytes -> Prop.
Variable trace : W -> list (list bytes).
Hypothesis Hquiet : quiet_exec P trace.
Variable M : Z.
Hypothesis HM : 32 <= M <= PROTO_INLINE_MAX_SIZE.

(** A multibulk header whose count [h] is not a number, or is too large,
    followed by anything. *)
Variables h garbage : bytes.
Hypothesis Hbad : forall v, canonical h v -> v > 1024 * 1024.
Hypothesis Hline : (13 ∉ h) /\ (0 ∉ h).
Hypothesis Hlen : zlen h + 3 <= M.

Definition bad_request : bytes := (42 :: h) ++ CRLF ++ garbage.

Definition invalid_multibulk : bytes := of_string "Protocol error: invalid multibulk length".

Lemma bad_header (s : server W) c fut : buffer_ok c -> idle c -> reqtype c = PROTO_REQ_MULTIBULK -> unread c ++ fut = bad_request ->
  (processMultibulkBuffer s c = Some (c, false) /\ fut <> [] /\ zlen (unread c) <= M)
  \/ processMultibulkBuffer s c = Some (setProtocolError (addReplyError c invalid_multibulk), false).
Proof.
  intros Hb (Hm & Hbl & Hav) Hrt E. unfold processMultibulkBuffer. rewrite Hm. cbn [Z.eqb]. unfold read_multibulklen. rewrite Hav. cbn [length Z.of_nat Z.eqb].
  destruct Hline as [H13 H0]. destruct (line_cases c fut (42 :: h) (garbage) Hb E) as [(rest' & Eu & Er & ->)|(Hsh & Hfut & Hfl)]; [apply not_elem_of_cons; done..| |].
  - right. cbn [mbind option_bind]. replace ((unread c).[0]) with (Some 42) by by rewrite Eu. cbn [mbind option_bind Z.eqb Pos.eqb negb].
    destruct (line_number_ok c 42 h (10 :: rest') Hb Eu) as (r & -> & Hr). cbn [mbind option_bind]. destruct r as [v|]; [|done].
    pose proof (Hbad v (proj1 (Hr v) eq_refl)). by replace (v >? 1024 * 1024) with true by lia.
  - left. cbn [length] in Hsh. split; [|split; [done|lia]]. destruct Hfl as [-> | ->]; [done|]. cbn [mbind option_bind]. rewrite unread_len_ok by done.
    by replace (_ >? _) with false by lia.
Qed.

Lemma bad_step (s : server W) c fut origin recv gots errs : running bad_request s c fut [] origin recv gots errs -> unread c <> [] ->
  exists c', input_step s c = Some (LBreak s c') /\ has c' CLIENT_MASTER = has c CLIENT_MASTER /\
    ((running bad_request s c' fut [] origin recv gots errs /\ fut <> [] /\ zlen (unread c') <= M)
     \/ (has c' CLIENT_CLOSE_AFTER_REPLY = true /\ has c' CLIENT_PROTOCOL_ERROR = true /\ errors c' = errs ++ [invalid_multibulk])).
Proof.
  intros [Hsv Hlua Hio Hau Hc Hb Hex Hl He] Hne. unfold input_step.
  rewrite (calm_has c CLIENT_BLOCKED), (calm_has c CLIENT_PENDING_COMMAND), Hlua, (calm_has c (Z.lor _ _)) by done. cbn [andb].
  destruct Hex as [(Hid & Hrt & E)|(? & ? & ? & _)]; [|done]. change (left_over [] bad_request) with bad_request in E.
  assert (Hx : exists c1, (if reqtype c =? 0 then x ← (unread c).[0]; Some (set_reqtype (if x =? 42 then PROTO_REQ_MULTIBULK else PROTO_REQ_INLINE) c) else Some c) = Some c1
    /\ reqtype c1 = PROTO_REQ_MULTIBULK /\ (c1 = c \/ c1 = set_reqtype PROTO_REQ_MULTIBULK c)).
  { destruct Hrt as [Hrt|[Hrt _]]; rewrite Hrt; [|exists c; split; [done|]; split; [done|]; by left].
    destruct (unread c) as [|x u] eqn:Eu; [done|]. pose proof E as E'. unfold bad_request in E'. injection E' as -> _. rewrite bget_0. cbn [Z.eqb Pos.eqb mbind option_bind].
    eexists. split; [done|]. split; [done|]. by right. }
  destruct Hx as (c1 & -> & Hrt1 & Hc1). cbn [mbind option_bind]. rewrite Hrt1. change (PROTO_REQ_MULTIBULK =? PROTO_REQ_INLINE) with false. rewrite Z.eqb_refl.
  assert (Hr1 : running bad_request s c1 fut [] origin recv gots errs /\ idle c1 /\ unread c1 = unread c).
  { destruct Hc1 as [->| ->].
    - split; [|done]. split; try done. left. split; [done|]. by split; [right|].
    - assert (Hu : unread (set_reqtype PROTO_REQ_MULTIBULK c) = unread c) by by apply unread_same. split; [|done]. split; try done; [by apply (buffer_same c)|left; split; [done|]; rewrite Hu; by split; [right|]|].
      intros Hm. destruct (Hl Hm) as [L1 L2 L3 L4 L5]. split; [done|done|by rewrite Hu|by rewrite Hu|done]. }
  destruct Hr1 as (Hr1 & Hid1 & Hu1). rewrite <- Hu1 in E, Hne.
  destruct (bad_header s c1 fut (ru_buffer _ _ _ _ _ _ _ _ _ Hr1) Hid1 Hrt1 E) as [(-> & Hfut & Hsm)| ->]; cbn [mbind option_bind negb].
  - exists c1. split; [done|]. split; [by destruct Hc1 as [->| ->]|]. by left.
  - eexists. split; [done|]. split; [unfold setProtocolError; rewrite has_set, orb_false_r; by destruct Hc1 as [->| ->]|].
    right. unfold setProtocolError. rewrite !has_set, !orb_true_r. split; [done|]. split; [done|]. cbn. by rewrite (ru_errors _ _ _ _ _ _ _ _ _ Hr1).
Qed.

Lemma read_bad (s : server W) c data fut cmds origin recv gots errs : running bad_request s c (data ++ fut) cmds origin recv gots errs -> Forall (cmd_ok s M) cmds -> Forall P cmds -> Forall byte_ok data ->
  qb_pos c = 0 -> zlen (querybuf c) <= M -> M + PROTO_IOBUF_LEN <= client_max_querybuf_len s -> zlen data <= readlen c -> has c CLIENT_MASTER = false ->
  exists s' c', readQueryFromClient s c (ReadData data) = Some (s', c', true) /\ same_config s s'
    /\ ((exists done cmds', cmds = done ++ cmds' /\ running bad_request s' c' fut cmds' origin (recv ++ data) gots errs
           /\ trace (srv_rest s') = trace (srv_rest s) ++ done /\ qb_pos c' = 0 /\ zlen (querybuf c') <= M /\ has c' CLIENT_MASTER = false /\ fut <> [])
        \/ (closed c' (errs ++ [invalid_multibulk]) /\ trace (srv_rest s') = trace (srv_rest s) ++ cmds)).
Proof.
  intros Hr Hok HP Hd Hq Hqb Hmax Hrl Hma. destruct (read_append bad_request M s c data fut cmds origin recv gots errs Hr Hd Hq Hqb Hmax Hrl ltac:(by rewrite Hma)) as (c2 & -> & Hr2 & Hm2 & Hf2).
  rewrite Hma in Hm2. destruct (input_loop_run P trace Hquiet bad_request M (proj1 HM) fut origin (recv ++ data) gots errs _ s c2 cmds Hr2 Hok HP Hf2)
    as [(s' & c' & dn & cmds' & -> & H1 & H2 & H3 & H4 & H5 & H6 & H7 & H8)|(s' & c' & fuel & -> & H1 & H2 & H3 & H4 & H5 & Hm')].
  - exists s', c'. split; [done|]. split; [done|]. left. exists dn, cmds'. do 5 (split; [done|]). split; [congruence|]. intros Hfut. by destruct (H8 Hfut) as (_ & _ & ?).
  - pose proof (zlen_unread c' (ru_buffer _ _ _ _ _ _ _ _ _ H1)) as Hz. destruct fuel as [|fuel]; [destruct (unread c'); [done|cbn in H3; lia]|]. cbn [input_loop].
    replace (_ <? _) with true by (destruct (unread c'); [done|cbn [length] in Hz; lia]). destruct (bad_step s' c' fut origin (recv ++ data) gots errs H1 H2) as (c3 & -> & Hm3 & H6). cbn [mbind option_bind].
    destruct H6 as [(Hr3 & Hfut & Hsm)|(Hc1 & Hc2 & Hc3)].
    + destruct (trim_run _ _ _ _ _ _ _ _ _ Hr3) as (c4 & -> & Hr4 & Hq4 & Hqb4 & Hm4). exists s', c4. split; [done|]. split; [done|]. left. exists cmds, []. rewrite app_nil_r, Hqb4.
      do 5 (split; [done|]). split; [congruence|done].
    + eexists s', _. split; [done|]. split; [done|]. right. split; [|done]. rewrite Hm', Hm2 in Hm3. destruct (Z.eqb_spec (qb_pos c3) 0); by split.
Qed.

Lemma deliver_bad origin gots errs : forall sizes (s : server W) c input cmds recv, running bad_request s c input cmds origin recv gots errs -> Forall (cmd_ok s M) cmds -> Forall P cmds -> Forall byte_ok input ->
  qb_pos c = 0 -> zlen (querybuf c) <= M -> M + PROTO_IOBUF_LEN <= client_max_querybuf_len s -> Forall (fun n => 0 < n) sizes -> (length input <= length sizes)%nat -> input <> [] -> has c CLIENT_MASTER = false ->
  exists s' c', deliver s c input sizes = Some (s', c', []) /\ closed c' (errs ++ [invalid_multibulk]) /\ trace (srv_rest s') = trace (srv_rest s) ++ cmds.
Proof.
  induction sizes as [|n sizes IH]; intros s c input cmds recv Hr Hok HP Hby Hq Hqb Hmax Hsz Hlen' Hne Hma; cbn [deliver]; [destruct input; [done|cbn in Hlen'; lia]|].
  replace (zlen input =? 0) with false by (destruct input; [done|cbn [length]; lia]). apply Forall_cons in Hsz as [Hn Hsz]. pose proof (readlen_pos c) as Hrp. cbn [length] in Hlen'.
  set (k := Z.to_nat (Z.min n (readlen c))). destruct (read_bad s c (take k input) (drop k input) cmds origin recv gots errs) as (s1 & c1 & -> & Hcf & Hcase); try done.
  - by rewrite take_drop.
  - by apply Forall_take.
  - rewrite length_take. unfold k. lia.
  - cbn [mbind option_bind]. assert (Hl1 : (length (drop k input) <= length sizes)%nat) by (rewrite length_drop; unfold k; lia). destruct Hcase as [(dn & cmds1 & -> & Hr1 & Htr1 & Hq1 & Hqb1 & Hma1 & Hfut)|[Hc1 Htr1]].
    + apply Forall_app in Hok as [_ Hok], HP as [_ HP]. pose proof Hcf as (_ & _ & _ & _ & E2).
      destruct (IH s1 c1 (drop k input) cmds1 _ Hr1) as (s' & c' & -> & Hc' & Htr'); try done; [by apply (cmd_ok_config M s)|by apply Forall_drop|by rewrite E2|].
      exists s', c'. split; [done|]. split; [done|]. by rewrite Htr', Htr1, <- app_assoc.
    + destruct (deliver_closed _ sizes s1 c1 (drop k input) Hc1) as (c' & -> & Hc'); [|done|done|]; [destruct Hcf as (_ & -> & _); apply Hr|]. by exists s1, c'.
Qed.

(** C18: an invalid request is fatal for the connection, and only for it. When
    well-formed commands are followed by a multibulk request whose count is not a
    number or is larger than a million, and then by arbitrary bytes, and
    whatever the pieces in which they are received: the commands before are
    run, exactly one error is replied, the client is marked to be closed with a
    protocol error, and nothing that follows is run (it may look like
    commands). *)
Theorem bad_request_closes (s : server W) c cmds sizes : ready s c -> has c CLIENT_MASTER = false -> Forall (cmd_ok s M) cmds -> Forall P cmds -> Forall (Forall (Forall byte_ok)) cmds ->
  Forall byte_ok bad_request -> M + PROTO_IOBUF_LEN <= client_max_querybuf_len s -> Forall (fun n => 0 < n) sizes -> (length (left_over cmds bad_request) <= length sizes)%nat ->
  exists s' c', deliver s c (left_over cmds bad_request) sizes = Some (s', c', []) /\ trace (srv_rest s') = trace (srv_rest s) ++ cmds
    /\ errors c' = errors c ++ [invalid_multibulk] /\ has c' CLIENT_CLOSE_AFTER_REPLY = true /\ has c' CLIENT_PROTOCOL_ERROR = true.
Proof.
  intros (Hsv & Hlua & Hio & Hau & Hc & Hid & Hrt & Hqb & Hq) Hma Hok HP Hby Hbb Hmax Hsz Hle.
  destruct (deliver_bad 0 [] (errors c) sizes s c (left_over cmds bad_request) cmds []) as (s' & c' & E & [H1 H2 _ _ H3] & Htr); try done.
  - split; try done; [split; rewrite ?Hqb, ?Hq; [cbn; lia|cbn; unfold QUERYBUF_MAX; lia|done]| |by unfold linked; rewrite Hma]. left. split; [done|]. split; [by left|]. unfold unread. by rewrite Hqb, drop_nil.
  - unfold left_over. apply Forall_app. split; [|done]. by apply (encode_bytes M s).
  - rewrite Hqb. cbn. lia.
  - unfold left_over, bad_request. intros E. apply app_eq_nil in E as [_ E]. done.
  - by exists s', c'.
Qed.
End errors.

#[local] Existing Instance LittleHost.
#[local] Existing Instance RoundAlloc.

(** [PING], [*12x], and [FLUSHALL]. *)
Lemma bad_request_closes_witness : exists s' c',
  deliver sample_server (sample_client 0) (left_over [[of_string "PING"]] (bad_request (of_string "12x") (encode [of_string "FLUSHALL"]))) (replicate 60 3) = Some (s', c', [])
  /\ srv_rest s' = [] ++ [[of_string "PING"]] /\ errors c' = [] ++ [invalid_multibulk] /\ has c' CLIENT_CLOSE_AFTER_REPLY = true /\ has c' CLIENT_PROTOCOL_ERROR = true.
Proof.
  apply (bad_request_closes not_quit (fun w => w) LogExec_quiet 64 ltac:(unfold PROTO_INLINE_MAX_SIZE; lia) (of_string "12x") (encode [of_string "FLUSHALL"])).
  - intros v Hv. exfalso. assert (Hb : Forall byte_ok (of_string "12x")) by eval_bytes. destruct (string2ll_spec _ Hb) as (r & E & Hr). apply Hr in Hv. rewrite Hv in E. vm_compute in E. discriminate.
  - split; apply (bool_decide_unpack _); vm_compute; exact I.
  - vm_compute. discriminate.
  - split; [split; vm_compute; discriminate|]. by repeat split.
  - reflexivity.
  - apply Forall_cons; split; [small_cmd|apply Forall_nil_2].
  - repeat constructor.
  - small_bytes.
  - eval_bytes.
  - vm_compute. discriminate.
  - vm_compute. repeat constructor.
  - vm_compute. repeat constructor.
Defined.
