(* ===== verification/Cluster.v ===== *)
(** The cluster bus ([cluster.c], [cluster.h]): the table of the nodes, the
    owners of the hash slots, the failure reports, the configuration epochs,
    the election of a replica and the processing of every packet of the bus.

    A [clusterNode *] is a number, and [cs_heap] gives the node it points to: a
    pointer that is not in the heap was freed, and following it is [None], like
    a [serverAssert] that fails. The dict [nodes] gives the pointer of every
    name. What a handler does outside of [server.cluster] (messages queued on a
    link, calls of the replication code, the configuration file) is the list of
    its [effect]s, in order. Times are milliseconds that do not overflow, the
    epochs are 64 bits wide, and a handler reads the clock once. *)
From stdpp Require Import gmap.
From S2P Require Import Prelude Sds Replication.

Abbreviation name := (list Z) (only parsing).
Abbreviation ptr := Z (only parsing).

Definition CLUSTER_SLOTS : Z := 16384.
Definition CLUSTER_OK : Z := 0.
Definition CLUSTER_FAIL : Z := 1.
Definition CLUSTER_NAMELEN : nat := 40.
Definition CLUSTER_FAIL_REPORT_VALIDITY_MULT : Z := 2.
Definition CLUSTER_FAIL_UNDO_TIME_MULT : Z := 2.
Definition CLUSTER_MF_TIMEOUT : Z := 5000.
Definition CLUSTER_MF_PAUSE_MULT : Z := 2.
Definition CLUSTER_BLACKLIST_TTL : Z := 60.
Definition CLUSTER_MAX_REJOIN_DELAY : Z := 5000.
Definition CLUSTER_MIN_REJOIN_DELAY : Z := 500.
Definition CLUSTER_WRITABLE_DELAY : Z := 2000.

Definition CLUSTER_NODE_MASTER : Z := 1.
Definition CLUSTER_NODE_SLAVE : Z := 2.
Definition CLUSTER_NODE_PFAIL : Z := 4.
Definition CLUSTER_NODE_FAIL : Z := 8.
Definition CLUSTER_NODE_MYSELF : Z := 16.
Definition CLUSTER_NODE_HANDSHAKE : Z := 32.
Definition CLUSTER_NODE_NOADDR : Z := 64.
Definition CLUSTER_NODE_MEET : Z := 128.
Definition CLUSTER_NODE_MIGRATE_TO : Z := 256.
Definition CLUSTER_NODE_NOFAILOVER : Z := 512.
Definition CLUSTER_NODE_NULL_NAME : name := replicate CLUSTER_NAMELEN 0.

Definition CLUSTER_CANT_FAILOVER_NONE : Z := 0.
Definition CLUSTER_CANT_FAILOVER_DATA_AGE : Z := 1.
Definition CLUSTER_CANT_FAILOVER_WAITING_DELAY : Z := 2.
Definition CLUSTER_CANT_FAILOVER_EXPIRED : Z := 3.
Definition CLUSTER_CANT_FAILOVER_WAITING_VOTES : Z := 4.
Definition CLUSTER_CANT_FAILOVER_RELOG_PERIOD : Z := 60 * 5.

Definition CLUSTER_TODO_HANDLE_FAILOVER : Z := 1.
Definition CLUSTER_TODO_UPDATE_STATE : Z := 2.
Definition CLUSTER_TODO_SAVE_CONFIG : Z := 4.
Definition CLUSTER_TODO_FSYNC_CONFIG : Z := 8.
Definition CLUSTER_TODO_HANDLE_MANUALFAILOVER : Z := 16.

Definition CLUSTERMSG_TYPE_PING : Z := 0.
Definition CLUSTERMSG_TYPE_PONG : Z := 1.
Definition CLUSTERMSG_TYPE_MEET : Z := 2.
Definition CLUSTERMSG_TYPE_FAIL : Z := 3.
Definition CLUSTERMSG_TYPE_PUBLISH : Z := 4.
Definition CLUSTERMSG_TYPE_FAILOVER_AUTH_REQUEST : Z := 5.
Definition CLUSTERMSG_TYPE_FAILOVER_AUTH_ACK : Z := 6.
Definition CLUSTERMSG_TYPE_UPDATE : Z := 7.
Definition CLUSTERMSG_TYPE_MFSTART : Z := 8.
Definition CLUSTERMSG_TYPE_MODULE : Z := 9.

Definition CLUSTER_MODULE_FLAG_NO_FAILOVER : Z := 2.
Definition CLUSTER_MODULE_FLAG_NO_REDIRECTION : Z := 4.
Definition CLUSTERMSG_FLAG0_PAUSED : Z := 1.
Definition CLUSTERMSG_FLAG0_FORCEACK : Z := 2.
Definition CLUSTER_BROADCAST_ALL : Z := 0.
Definition CLUSTER_BROADCAST_LOCAL_SLAVES : Z := 1.

(** ** Data *)

(** The address of a node. *)
Record address := mkAddr { ip : bytes; port : Z; pport : Z; cport : Z }.
#[global] Instance address_eq_dec : EqDecision address.
Proof. solve_decision. Defined.

Definition no_addr : address := mkAddr [] 0 0 0.

(** [slots] is the bitmap read as one number: bit [j & 7] of byte [j / 8] is
    its bit [j]. [numslaves] is the length of [slaves], and a link is known by
    a number. *)
Record clusterNode := mkNode {
  cn_name : name; cn_ctime : Z; cn_flags : Z; cn_configEpoch : Z; cn_slots : Z; cn_numslots : Z;
  cn_slaves : list ptr; cn_slaveof : option ptr;
  cn_ping_sent : Z; cn_pong_received : Z; cn_data_received : Z; cn_fail_time : Z; cn_voted_time : Z;
  cn_repl_offset_time : Z; cn_orphaned_time : Z; cn_repl_offset : Z;
  cn_addr : address; cn_link : option Z; cn_fail_reports : list (ptr * Z)
}.

#[global] Instance clusterNode_eta : Settable clusterNode := fun n =>
  mkNode (cn_name n) (cn_ctime n) (cn_flags n) (cn_configEpoch n) (cn_slots n) (cn_numslots n)
    (cn_slaves n) (cn_slaveof n) (cn_ping_sent n) (cn_pong_received n) (cn_data_received n) (cn_fail_time n)
    (cn_voted_time n) (cn_repl_offset_time n) (cn_orphaned_time n) (cn_repl_offset n) (cn_addr n) (cn_link n)
    (cn_fail_reports n).

(** The counters of messages and of nodes in PFAIL are left out. The last
    fields are the static variables of the functions, and the allocator. *)
Record clusterState := mkState {
  cs_myself : ptr; cs_currentEpoch : Z; cs_state : Z; cs_size : Z;
  cs_nodes : gmap name ptr; cs_nodes_black_list : gmap name Z;
  cs_migrating_slots_to : gmap Z ptr; cs_importing_slots_from : gmap Z ptr; cs_slots : gmap Z ptr;
  cs_failover_auth_time : Z; cs_failover_auth_count : Z; cs_failover_auth_sent : Z;
  cs_failover_auth_rank : Z; cs_failover_auth_epoch : Z; cs_cant_failover_reason : Z;
  cs_mf_end : Z; cs_mf_slave : option ptr; cs_mf_master_offset : Z; cs_mf_can_start : bool;
  cs_lastVoteEpoch : Z; cs_todo_before_sleep : Z;
  cs_among_minority_time : Z; cs_first_call_time : Z; cs_lastlog_time : Z;
  cs_heap : gmap ptr clusterNode; cs_next : ptr
}.

#[global] Instance clusterState_eta : Settable clusterState := fun s =>
  mkState (cs_myself s) (cs_currentEpoch s) (cs_state s) (cs_size s) (cs_nodes s) (cs_nodes_black_list s)
    (cs_migrating_slots_to s) (cs_importing_slots_from s) (cs_slots s)
    (cs_failover_auth_time s) (cs_failover_auth_count s) (cs_failover_auth_sent s)
    (cs_failover_auth_rank s) (cs_failover_auth_epoch s) (cs_cant_failover_reason s)
    (cs_mf_end s) (cs_mf_slave s) (cs_mf_master_offset s) (cs_mf_can_start s)
    (cs_lastVoteEpoch s) (cs_todo_before_sleep s)
    (cs_among_minority_time s) (cs_first_call_time s) (cs_lastlog_time s) (cs_heap s) (cs_next s).

(** An entry of the gossip section. *)
Record gossip := mkGossip { g_nodename : name; g_pong_received : Z; g_addr : address; g_flags : Z }.

Inductive clusterMsgData :=
  | DataNone
  | DataPing (entries : list gossip)
  | DataFail (nodename : name)
  | DataPublish (channel message : bytes)
  | DataUpdate (configEpoch : Z) (nodename : name) (slots : Z)
  | DataModule (module_id type : Z) (payload : bytes).

Record clusterMsg := mkMsg {
  m_type : Z; m_currentEpoch : Z; m_configEpoch : Z; m_offset : Z; m_sender : name; m_myslots : Z;
  m_slaveof : name; m_addr : address; m_flags : Z; m_state : Z; m_mflags0 : Z; m_data : clusterMsgData
}.
#[global] Instance clusterMsg_eta : Settable clusterMsg := fun m =>
  mkMsg (m_type m) (m_currentEpoch m) (m_configEpoch m) (m_offset m) (m_sender m) (m_myslots m)
    (m_slaveof m) (m_addr m) (m_flags m) (m_state m) (m_mflags0 m) (m_data m).

(** The link a packet comes from: [node] is NULL for an incoming connection;
    [peer_ip] is what [connPeerToString] gives, [sock_ip] what [connSockName]
    gives. *)
Record clusterLink := mkLink { l_id : Z; l_node : option ptr; l_peer_ip : bytes; l_sock_ip : option bytes }.

Inductive effect :=
  | SendMessage (to : name) (m : clusterMsg)
  | Reply (link : Z) (m : clusterMsg)
  | FreeLink (link : Z)
  | Connect (link : Z) (a : address)
  | EmptyDb
  | SaveConfig
  | ReplicationSetMaster (a : address)
  | ReplicationUnsetMaster
  | CheckClientPause
  | PauseClients (until : Z)
  | DelKeysInSlot (slot : Z)
  | PubsubPublish (channel message : bytes)
  | ModuleReceive (sender : name) (module_id type : Z) (payload : bytes).

(** What the code reads from the rest of the server during one call.
    [sv_random_name] is what [getRandomHexChars] gives; [sv_gossip] is the
    random choice of the nodes [clusterSendPing] gossips about, any list. *)
Record redisServer := mkServer {
  sv_mstime : Z; sv_unixtime : Z; sv_random : Z; sv_random_name : name;
  sv_node_timeout : Z; sv_slave_no_failover : bool; sv_slave_validity_factor : Z; sv_repl_ping_slave_period : Z;
  sv_require_full_coverage : bool; sv_allow_replica_migration : bool; sv_module_flags : Z;
  sv_repl_connected : bool; sv_lastinteraction : Z; sv_repl_down_since : Z;
  sv_slave_offset : Z; sv_master_repl_offset : Z; sv_countKeysInSlot : Z -> Z; sv_has_subscribers : bool;
  sv_announce_ip : option bytes; sv_announced_ports : Z * Z * Z;
  sv_gossip : clusterState -> list gossip
}.

(** ** State, errors and effects *)

Definition cl (A : Type) : Type := clusterState -> option (A * clusterState * list effect).

#[global] Instance cl_ret : MRet cl := fun A a s => Some (a, s, []).
#[global] Instance cl_bind : MBind cl := fun A B f m s =>
  match m s with
  | Some (a, s, e) => match f a s with Some (b, s, e') => Some (b, s, e ++ e') | None => None end
  | None => None
  end.

Definition getS : cl clusterState := fun s => Some (s, s, []).
Definition modify (f : clusterState -> clusterState) : cl unit := fun s => Some (tt, f s, []).
Definition emit (e : effect) : cl unit := fun s => Some (tt, s, [e]).

(** [*p] and an update of it. *)
Definition deref (p : ptr) : cl clusterNode := fun s => n ← cs_heap s !! p; Some (n, s, []).
Definition update (p : ptr) (f : clusterNode -> clusterNode) : cl unit := fun s =>
  n ← cs_heap s !! p; Some (tt, s <| cs_heap := <[p := f n]> (cs_heap s) |>, []).

Definition serverAssert (b : bool) : cl unit := fun s => if b then Some (tt, s, []) else None.

Definition when (b : bool) (m : cl unit) : cl unit := if b then m else mret tt.

(** Loops: over the elements of a list, and with an accumulator. *)
Fixpoint for_each {A} (l : list A) (body : A -> cl unit) : cl unit :=
  match l with
  | [] => mret tt
  | x :: l => body x;; for_each l body
  end.
Fixpoint fold_each {A B} (l : list A) (b : B) (body : B -> A -> cl B) : cl B :=
  match l with
  | [] => mret b
  | x :: l => b ← body b x; fold_each l b body
  end.

(** [for (j = 0; j < CLUSTER_SLOTS; j++)] *)
Definition slot_range : list Z := seqZ 0 CLUSTER_SLOTS.

(** The nodes of the dict, in the order of an iterator. *)
Definition node_ptrs (s : clusterState) : list ptr := snd <$> map_to_list (cs_nodes s).

(** ** Nodes *)

Definition has (n : clusterNode) (flag : Z) : bool := negb (Z.land (cn_flags n) flag =? 0).
Definition nodeIsMaster n := has n CLUSTER_NODE_MASTER.
Definition nodeIsSlave n := has n CLUSTER_NODE_SLAVE.
Definition nodeInHandshake n := has n CLUSTER_NODE_HANDSHAKE.
Definition nodeTimedOut n := has n CLUSTER_NODE_PFAIL.
Definition nodeFailed n := has n CLUSTER_NODE_FAIL.
Definition nodeCantFailover n := has n CLUSTER_NODE_NOFAILOVER.

(** [flags |= f] and [flags &= ~f]. *)
Definition set_flag (f : Z) (n : clusterNode) : clusterNode := n <| cn_flags := Z.lor (cn_flags n) f |>.
Definition clear_flag (f : Z) (n : clusterNode) : clusterNode := n <| cn_flags := Z.ldiff (cn_flags n) f |>.

Definition bitmapTestBit (bitmap pos : Z) : bool := Z.testbit bitmap pos.
Definition bitmapSetBit (bitmap pos : Z) : Z := Z.setbit bitmap pos.
Definition bitmapClearBit (bitmap pos : Z) : Z := Z.clearbit bitmap pos.

Definition clusterDoBeforeSleep (flags : Z) : cl unit :=
  modify (fun s => s <| cs_todo_before_sleep := Z.lor (cs_todo_before_sleep s) flags |>).

Definition clusterLookupNode (nm : name) : cl (option ptr) := s ← getS; mret (cs_nodes s !! nm).

(** The name of a node created without one is random. *)
Definition createClusterNode (sv : redisServer) (nodename : option name) (flags : Z) : cl ptr :=
  s ← getS;
  let p := cs_next s in
  let nm := match nodename with Some nm => nm | None => sv_random_name sv end in
  modify (fun s => s <| cs_next := p + 1 |> <| cs_heap := <[p :=
    mkNode nm (sv_mstime sv) flags 0 0 0 [] None 0 0 0 0 0 0 0 0 no_addr None []]> (cs_heap s) |>);;
  mret p.

Definition clusterAddNode (p : ptr) : cl unit :=
  n ← deref p; s ← getS;
  serverAssert (bool_decide (cs_nodes s !! cn_name n = None));;
  modify (fun s => s <| cs_nodes := <[cn_name n := p]> (cs_nodes s) |>).

(** [dictDelete] answers [DICT_OK] when the key is there. *)
Definition dict_delete_node (nm : name) : cl unit :=
  s ← getS;
  serverAssert (negb (bool_decide (cs_nodes s !! nm = None)));;
  modify (fun s => s <| cs_nodes := delete nm (cs_nodes s) |>).

Definition clusterRenameNode (p : ptr) (newname : name) : cl unit :=
  n ← deref p;
  dict_delete_node (cn_name n);;
  update p (fun n => n <| cn_name := newname |>);;
  clusterAddNode p.

(** The link of [node], if any, is closed. *)
Definition freeNodeLink (p : ptr) : cl unit :=
  n ← deref p;
  match cn_link n with
  | Some l => update p (fun n => n <| cn_link := None |>);; emit (FreeLink l)
  | None => mret tt
  end.

Definition freeClusterLink (l : clusterLink) : cl unit :=
  match l_node l with
  | Some p => update p (fun n => n <| cn_link := None |>)
  | None => mret tt
  end;;
  emit (FreeLink (l_id l)).

(** ** Replicas of a node *)

(** Remove the first occurrence. *)
Fixpoint remove_first (p : ptr) (l : list ptr) : list ptr :=
  match l with
  | [] => []
  | q :: l => if q =? p then l else q :: remove_first p l
  end.

(** [true] is [C_OK]. *)
Definition clusterNodeRemoveSlave (master slave : ptr) : cl bool :=
  m ← deref master;
  if bool_decide (slave ∈ cn_slaves m) then
    update master (fun m =>
      let m := m <| cn_slaves := remove_first slave (cn_slaves m) |> in
      if bool_decide (cn_slaves m = []) then clear_flag CLUSTER_NODE_MIGRATE_TO m else m);;
    mret true
  else mret false.

Definition clusterNodeAddSlave (master slave : ptr) : cl bool :=
  m ← deref master;
  if bool_decide (slave ∈ cn_slaves m) then mret false
  else
    update master (fun m => set_flag CLUSTER_NODE_MIGRATE_TO (m <| cn_slaves := cn_slaves m ++ [slave] |>));;
    mret true.

Definition clusterCountNonFailingSlaves (p : ptr) : cl Z :=
  n ← deref p;
  fold_each (cn_slaves n) 0 (fun okslaves q =>
    r ← deref q; mret (if nodeFailed r then okslaves else okslaves + 1)).

Definition clusterSetNodeAsMaster (p : ptr) : cl unit :=
  n ← deref p;
  if nodeIsMaster n then mret tt
  else
    match cn_slaveof n with
    | Some q =>
        clusterNodeRemoveSlave q p;;
        s ← getS;
        when (negb (p =? cs_myself s)) (update p (set_flag CLUSTER_NODE_MIGRATE_TO))
    | None => mret tt
    end;;
    update p (fun n => set_flag CLUSTER_NODE_MASTER (clear_flag CLUSTER_NODE_SLAVE n) <| cn_slaveof := None |>);;
    clusterDoBeforeSleep (Z.lor CLUSTER_TODO_SAVE_CONFIG CLUSTER_TODO_UPDATE_STATE).

(** ** Failure reports *)

Section Server.
Context (sv : redisServer).

Definition clusterNodeAddFailureReport (failing sender : ptr) : cl bool :=
  n ← deref failing;
  if bool_decide (sender ∈ (cn_fail_reports n).*1) then
    update failing (fun n => n <| cn_fail_reports :=
      (fun r => if r.1 =? sender then (r.1, sv_mstime sv) else r) <$> cn_fail_reports n |>);;
    mret false
  else
    update failing (fun n => n <| cn_fail_reports := cn_fail_reports n ++ [(sender, sv_mstime sv)] |>);;
    mret true.

Definition clusterNodeCleanupFailureReports (p : ptr) : cl unit :=
  let maxtime := sv_node_timeout sv * CLUSTER_FAIL_REPORT_VALIDITY_MULT in
  update p (fun n => n <| cn_fail_reports :=
    filter (fun r => ~ sv_mstime sv - r.2 > maxtime) (cn_fail_reports n) |>).

(** Remove the first report of [sender]. *)
Fixpoint del_report (sender : ptr) (l : list (ptr * Z)) : list (ptr * Z) :=
  match l with
  | [] => []
  | r :: l => if r.1 =? sender then l else r :: del_report sender l
  end.

Definition clusterNodeDelFailureReport (p sender : ptr) : cl bool :=
  n ← deref p;
  if bool_decide (sender ∈ (cn_fail_reports n).*1) then
    update p (fun n => n <| cn_fail_reports := del_report sender (cn_fail_reports n) |>);;
    clusterNodeCleanupFailureReports p;;
    mret true
  else mret false.

Definition clusterNodeFailureReportsCount (p : ptr) : cl Z :=
  clusterNodeCleanupFailureReports p;;
  n ← deref p;
  mret (zlen (cn_fail_reports n)).

(** ** Hash slots *)

Definition clusterMastersHaveSlaves : cl bool :=
  s ← getS;
  slaves ← fold_each (node_ptrs s) 0 (fun slaves p =>
    n ← deref p; mret (if nodeIsSlave n then slaves else slaves + zlen (cn_slaves n)));
  mret (negb (slaves =? 0)).

Definition clusterNodeSetSlotBit (p : ptr) (slot : Z) : cl bool :=
  n ← deref p;
  let old := bitmapTestBit (cn_slots n) slot in
  update p (fun n => n <| cn_slots := bitmapSetBit (cn_slots n) slot |>);;
  when (negb old) (
    update p (fun n => n <| cn_numslots := cn_numslots n + 1 |>);;
    n ← deref p;
    b ← (if cn_numslots n =? 1 then clusterMastersHaveSlaves else mret false);
    when b (update p (set_flag CLUSTER_NODE_MIGRATE_TO)));;
  mret old.

Definition clusterNodeClearSlotBit (p : ptr) (slot : Z) : cl bool :=
  n ← deref p;
  let old := bitmapTestBit (cn_slots n) slot in
  update p (fun n => n <| cn_slots := bitmapClearBit (cn_slots n) slot |>);;
  when old (update p (fun n => n <| cn_numslots := cn_numslots n - 1 |>));;
  mret old.

Definition clusterNodeGetSlotBit (p : ptr) (slot : Z) : cl bool :=
  n ← deref p; mret (bitmapTestBit (cn_slots n) slot).

Definition clusterAddSlot (p : ptr) (slot : Z) : cl bool :=
  s ← getS;
  match cs_slots s !! slot with
  | Some _ => mret false
  | None =>
      clusterNodeSetSlotBit p slot;;
      modify (fun s => s <| cs_slots := <[slot := p]> (cs_slots s) |>);;
      mret true
  end.

Definition clusterDelSlot (slot : Z) : cl bool :=
  s ← getS;
  match cs_slots s !! slot with
  | None => mret false
  | Some p =>
      old ← clusterNodeClearSlotBit p slot;
      serverAssert old;;
      modify (fun s => s <| cs_slots := delete slot (cs_slots s) |>);;
      mret true
  end.

Definition clusterDelNodeSlots (p : ptr) : cl Z :=
  fold_each slot_range 0 (fun deleted j =>
    b ← clusterNodeGetSlotBit p j;
    if b : bool then clusterDelSlot j;; mret (deleted + 1) else mret deleted).

Definition clusterCloseAllSlots : cl unit :=
  modify (fun s => s <| cs_migrating_slots_to := ∅ |> <| cs_importing_slots_from := ∅ |>).

(** ** Removal of a node *)

Definition freeClusterNode (p : ptr) : cl unit :=
  n ← deref p;
  for_each (cn_slaves n) (fun q => update q (fun r => r <| cn_slaveof := None |>));;
  n ← deref p;
  match cn_slaveof n with
  | Some q => when (nodeIsSlave n) (clusterNodeRemoveSlave q p;; mret tt)
  | None => mret tt
  end;;
  n ← deref p;
  dict_delete_node (cn_name n);;
  freeNodeLink p;;
  modify (fun s => s <| cs_heap := delete p (cs_heap s) |>).

Definition drop_slot_refs (p : ptr) (j : Z) (m : gmap Z ptr) : gmap Z ptr :=
  if bool_decide (m !! j = Some p) then delete j m else m.

Definition clusterDelNode (delnode : ptr) : cl unit :=
  for_each slot_range (fun j =>
    modify (fun s => s <| cs_importing_slots_from := drop_slot_refs delnode j (cs_importing_slots_from s) |>);;
    modify (fun s => s <| cs_migrating_slots_to := drop_slot_refs delnode j (cs_migrating_slots_to s) |>);;
    s ← getS;
    when (bool_decide (cs_slots s !! j = Some delnode)) (clusterDelSlot j;; mret tt));;
  s ← getS;
  for_each (node_ptrs s) (fun p =>
    when (negb (p =? delnode)) (clusterNodeDelFailureReport p delnode;; mret tt));;
  freeClusterNode delnode.

(** ** Epochs *)

Definition clusterGetMaxEpoch : cl Z :=
  s ← getS;
  max ← fold_each (node_ptrs s) 0 (fun max p =>
    n ← deref p; mret (if cn_configEpoch n >? max then cn_configEpoch n else max));
  mret (if max <? cs_currentEpoch s then cs_currentEpoch s else max).

(** [currentEpoch++] and the new epoch becomes the one of [myself]. *)
Definition take_next_epoch : cl unit :=
  modify (fun s => s <| cs_currentEpoch := uwrap 64 (cs_currentEpoch s + 1) |>);;
  s ← getS;
  update (cs_myself s) (fun n => n <| cn_configEpoch := cs_currentEpoch s |>).

Definition clusterBumpConfigEpochWithoutConsensus : cl bool :=
  maxEpoch ← clusterGetMaxEpoch;
  s ← getS;
  me ← deref (cs_myself s);
  if (cn_configEpoch me =? 0) || negb (cn_configEpoch me =? maxEpoch) then
    take_next_epoch;;
    clusterDoBeforeSleep (Z.lor CLUSTER_TODO_SAVE_CONFIG CLUSTER_TODO_FSYNC_CONFIG);;
    mret true
  else mret false.

Definition clusterHandleConfigEpochCollision (sender : ptr) : cl unit :=
  s ← getS;
  n ← deref sender;
  me ← deref (cs_myself s);
  if negb (cn_configEpoch n =? cn_configEpoch me) || negb (nodeIsMaster n) || negb (nodeIsMaster me) then mret tt
  else if memcmp (cn_name n) (cn_name me) <=? 0 then mret tt
  else take_next_epoch;; emit SaveConfig.

(** ** Black list *)

Definition clusterBlacklistCleanup : cl unit :=
  modify (fun s => s <| cs_nodes_black_list := filter (fun e => ~ e.2 < sv_unixtime sv) (cs_nodes_black_list s) |>).

Definition clusterBlacklistAddNode (p : ptr) : cl unit :=
  n ← deref p;
  clusterBlacklistCleanup;;
  modify (fun s => s <| cs_nodes_black_list :=
    <[cn_name n := sv_unixtime sv + CLUSTER_BLACKLIST_TTL]> (cs_nodes_black_list s) |>).

Definition clusterBlacklistExists (nodeid : name) : cl bool :=
  clusterBlacklistCleanup;;
  s ← getS;
  mret (negb (bool_decide (cs_nodes_black_list s !! nodeid = None))).

(** ** Messages *)

Definition clusterBuildMessageHdr (type : Z) : cl clusterMsg :=
  s ← getS;
  me ← deref (cs_myself s);
  master ← match cn_slaveof me with
           | Some q => if nodeIsSlave me then deref q else mret me
           | None => mret me
           end;
  slaveof ← match cn_slaveof me with
            | Some q => n ← deref q; mret (cn_name n)
            | None => mret CLUSTER_NODE_NULL_NAME
            end;
  let '(port, pport, cport) := sv_announced_ports sv in
  mret (mkMsg type (cs_currentEpoch s) (cn_configEpoch master)
          (if nodeIsSlave me then sv_slave_offset sv else sv_master_repl_offset sv)
          (cn_name me) (cn_slots master) slaveof
          (mkAddr (match sv_announce_ip sv with Some ip => ip | None => [] end) port pport cport)
          (cn_flags me) (cs_state s)
          (if nodeIsMaster me && negb (cs_mf_end s =? 0) then CLUSTERMSG_FLAG0_PAUSED else 0) DataNone).

(** On the link of a node of the table. *)
Definition clusterSendMessage (p : ptr) (m : clusterMsg) : cl unit :=
  n ← deref p; emit (SendMessage (cn_name n) m).

Definition linked (n : clusterNode) : bool := match cn_link n with Some _ => true | None => false end.

Definition clusterBroadcastMessage (m : clusterMsg) : cl unit :=
  s ← getS;
  for_each (node_ptrs s) (fun p =>
    n ← deref p;
    when (linked n && negb (has n (Z.lor CLUSTER_NODE_MYSELF CLUSTER_NODE_HANDSHAKE))) (clusterSendMessage p m)).

(** A PING, PONG or MEET. *)
Definition ping_message (node : option ptr) (type : Z) : cl clusterMsg :=
  match node with
  | Some p => when (type =? CLUSTERMSG_TYPE_PING) (update p (fun n => n <| cn_ping_sent := sv_mstime sv |>))
  | None => mret tt
  end;;
  m ← clusterBuildMessageHdr type;
  s ← getS;
  mret (m <| m_data := DataPing (sv_gossip sv s) |>).

Definition clusterSendPing (p : ptr) (type : Z) : cl unit :=
  m ← ping_message (Some p) type; clusterSendMessage p m.

(** On the link a packet came from. *)
Definition clusterReplyPing (l : clusterLink) (type : Z) : cl unit :=
  m ← ping_message (l_node l) type; emit (Reply (l_id l) m).

Definition clusterBroadcastPong (target : Z) : cl unit :=
  s ← getS;
  for_each (node_ptrs s) (fun p =>
    n ← deref p;
    me ← deref (cs_myself s);
    let local_slave := nodeIsSlave n &&
      match cn_slaveof n with
      | Some q => (q =? cs_myself s) || bool_decide (Some q = cn_slaveof me)
      | None => false
      end in
    when (linked n && negb (p =? cs_myself s) && negb (nodeInHandshake n) &&
          (negb (target =? CLUSTER_BROADCAST_LOCAL_SLAVES) || local_slave))
      (clusterSendPing p CLUSTERMSG_TYPE_PONG)).

Definition clusterSendFail (nodename : name) : cl unit :=
  m ← clusterBuildMessageHdr CLUSTERMSG_TYPE_FAIL;
  clusterBroadcastMessage (m <| m_data := DataFail nodename |>).

(** An UPDATE about [node] on the link of [to]. *)
Definition clusterSendUpdate (to node : ptr) : cl unit :=
  t ← deref to;
  when (linked t) (
    m ← clusterBuildMessageHdr CLUSTERMSG_TYPE_UPDATE;
    n ← deref node;
    clusterSendMessage to (m <| m_data := DataUpdate (cn_configEpoch n) (cn_name n) (cn_slots n) |>)).

Definition clusterRequestFailoverAuth : cl unit :=
  m ← clusterBuildMessageHdr CLUSTERMSG_TYPE_FAILOVER_AUTH_REQUEST;
  s ← getS;
  clusterBroadcastMessage
    (if negb (cs_mf_end s =? 0) then m <| m_mflags0 := Z.lor (m_mflags0 m) CLUSTERMSG_FLAG0_FORCEACK |> else m).

Definition clusterSendFailoverAuth (p : ptr) : cl unit :=
  n ← deref p;
  when (linked n) (
    m ← clusterBuildMessageHdr CLUSTERMSG_TYPE_FAILOVER_AUTH_ACK;
    clusterSendMessage p m).

Definition clusterSendMFStart (p : ptr) : cl unit :=
  n ← deref p;
  when (linked n) (
    m ← clusterBuildMessageHdr CLUSTERMSG_TYPE_MFSTART;
    clusterSendMessage p m).

(** ** Detection of failures *)

Definition markNodeAsFailingIfNeeded (p : ptr) : cl unit :=
  s ← getS;
  let needed_quorum := Z.quot (cs_size s) 2 + 1 in
  n ← deref p;
  if negb (nodeTimedOut n) then mret tt
  else if nodeFailed n then mret tt
  else
    reports ← clusterNodeFailureReportsCount p;
    me ← deref (cs_myself s);
    let failures := if nodeIsMaster me then reports + 1 else reports in
    if failures <? needed_quorum then mret tt
    else
      update p (fun n => set_flag CLUSTER_NODE_FAIL (clear_flag CLUSTER_NODE_PFAIL n) <| cn_fail_time := sv_mstime sv |>);;
      n ← deref p;
      clusterSendFail (cn_name n);;
      clusterDoBeforeSleep (Z.lor CLUSTER_TODO_UPDATE_STATE CLUSTER_TODO_SAVE_CONFIG).

Definition clearNodeFailureIfNeeded (p : ptr) : cl unit :=
  n ← deref p;
  serverAssert (nodeFailed n);;
  when (nodeIsSlave n || (cn_numslots n =? 0)) (
    update p (clear_flag CLUSTER_NODE_FAIL);;
    clusterDoBeforeSleep (Z.lor CLUSTER_TODO_UPDATE_STATE CLUSTER_TODO_SAVE_CONFIG));;
  n ← deref p;
  when (nodeIsMaster n && (cn_numslots n >? 0) &&
        (sv_mstime sv - cn_fail_time n >? sv_node_timeout sv * CLUSTER_FAIL_UNDO_TIME_MULT)) (
    update p (clear_flag CLUSTER_NODE_FAIL);;
    clusterDoBeforeSleep (Z.lor CLUSTER_TODO_UPDATE_STATE CLUSTER_TODO_SAVE_CONFIG)).

(** ** State of the cluster *)

(** Is every slot served by a node that did not fail? *)
Fixpoint full_coverage (l : list Z) : cl bool :=
  match l with
  | [] => mret true
  | j :: l =>
      s ← getS;
      match cs_slots s !! j with
      | None => mret false
      | Some p => n ← deref p; if nodeFailed n then mret false else full_coverage l
      end
  end.

Definition clusterUpdateState : cl unit :=
  modify (fun s => s <| cs_todo_before_sleep := Z.ldiff (cs_todo_before_sleep s) CLUSTER_TODO_UPDATE_STATE |>);;
  modify (fun s => if cs_first_call_time s =? 0 then s <| cs_first_call_time := sv_mstime sv |> else s);;
  s ← getS;
  me ← deref (cs_myself s);
  if nodeIsMaster me && (cs_state s =? CLUSTER_FAIL) &&
     (sv_mstime sv - cs_first_call_time s <? CLUSTER_WRITABLE_DELAY) then mret tt
  else
    covered ← (if sv_require_full_coverage sv then full_coverage slot_range else mret true);
    let new_state := if covered : bool then CLUSTER_OK else CLUSTER_FAIL in
    s ← getS;
    counts ← fold_each (node_ptrs s) (0, 0) (fun c p =>
      n ← deref p;
      mret (if nodeIsMaster n && negb (cn_numslots n =? 0) then
              (c.1 + 1, if has n (Z.lor CLUSTER_NODE_FAIL CLUSTER_NODE_PFAIL) then c.2 else c.2 + 1)
            else c));
    modify (fun s => s <| cs_size := counts.1 |>);;
    let needed_quorum := Z.quot counts.1 2 + 1 in
    new_state ← (if counts.2 <? needed_quorum then
                   modify (fun s => s <| cs_among_minority_time := sv_mstime sv |>);; mret CLUSTER_FAIL
                 else mret new_state);
    s ← getS;
    if new_state =? cs_state s then mret tt
    else
      let rejoin_delay := sv_node_timeout sv in
      let rejoin_delay := if rejoin_delay >? CLUSTER_MAX_REJOIN_DELAY then CLUSTER_MAX_REJOIN_DELAY else rejoin_delay in
      let rejoin_delay := if rejoin_delay <? CLUSTER_MIN_REJOIN_DELAY then CLUSTER_MIN_REJOIN_DELAY else rejoin_delay in
      if (new_state =? CLUSTER_OK) && nodeIsMaster me &&
         (sv_mstime sv - cs_among_minority_time s <? rejoin_delay) then mret tt
      else modify (fun s => s <| cs_state := new_state |>).

(** ** Manual failover *)

Definition resetManualFailover : cl unit :=
  s ← getS;
  when (negb (cs_mf_end s =? 0)) (emit CheckClientPause);;
  modify (fun s => s <| cs_mf_end := 0 |> <| cs_mf_can_start := false |> <| cs_mf_slave := None |>
                     <| cs_mf_master_offset := -1 |>).

Definition manualFailoverCheckTimeout : cl unit :=
  s ← getS;
  when (negb (cs_mf_end s =? 0) && (cs_mf_end s <? sv_mstime sv)) resetManualFailover.

Definition clusterHandleManualFailover : cl unit :=
  s ← getS;
  if cs_mf_end s =? 0 then mret tt
  else if cs_mf_can_start s then mret tt
  else if cs_mf_master_offset s =? -1 then mret tt
  else if cs_mf_master_offset s =? sv_slave_offset sv then
    modify (fun s => s <| cs_mf_can_start := true |>);;
    clusterDoBeforeSleep CLUSTER_TODO_HANDLE_FAILOVER
  else clusterDoBeforeSleep CLUSTER_TODO_HANDLE_MANUALFAILOVER.

(** ** Roles *)

Definition clusterSetMaster (p : ptr) : cl unit :=
  s ← getS;
  let myself := cs_myself s in
  serverAssert (negb (p =? myself));;
  me ← deref myself;
  serverAssert (cn_numslots me =? 0);;
  (if nodeIsMaster me then
     update myself (fun n => set_flag CLUSTER_NODE_SLAVE
       (clear_flag (Z.lor CLUSTER_NODE_MASTER CLUSTER_NODE_MIGRATE_TO) n));;
     clusterCloseAllSlots
   else
     match cn_slaveof me with
     | Some q => clusterNodeRemoveSlave q myself;; mret tt
     | None => mret tt
     end);;
  update myself (fun n => n <| cn_slaveof := Some p |>);;
  clusterNodeAddSlave p myself;;
  n ← deref p;
  emit (ReplicationSetMaster (cn_addr n));;
  resetManualFailover.

(** What the loop over the claimed slots accumulates. *)
Record claims := mkClaims { c_newmaster : bool; c_sender_slots : Z; c_migrated_our_slots : Z; c_dirty_slots : list Z }.

Definition rebind_slot (sender : ptr) (curmaster : option ptr) (senderConfigEpoch slots : Z) (c : claims) (j : Z) : cl claims :=
  if negb (bitmapTestBit slots j) then mret c
  else
    let c := mkClaims (c_newmaster c) (c_sender_slots c + 1) (c_migrated_our_slots c) (c_dirty_slots c) in
    s ← getS;
    let owner := cs_slots s !! j in
    if bool_decide (owner = Some sender) then mret c
    else if negb (bool_decide (cs_importing_slots_from s !! j = None)) then mret c
    else
      take ← match owner with
             | None => mret true
             | Some p => n ← deref p; mret (cn_configEpoch n <? senderConfigEpoch)
             end;
      if take : bool then
        let dirty := bool_decide (owner = Some (cs_myself s)) && negb (sv_countKeysInSlot sv j =? 0) &&
                     negb (sender =? cs_myself s) in
        let ours := bool_decide (owner = curmaster) in
        clusterDelSlot j;;
        clusterAddSlot sender j;;
        clusterDoBeforeSleep (Z.lor (Z.lor CLUSTER_TODO_SAVE_CONFIG CLUSTER_TODO_UPDATE_STATE) CLUSTER_TODO_FSYNC_CONFIG);;
        mret (mkClaims (c_newmaster c || ours) (c_sender_slots c)
                (if ours then c_migrated_our_slots c + 1 else c_migrated_our_slots c)
                (if dirty then c_dirty_slots c ++ [j] else c_dirty_slots c))
      else mret c.

Definition clusterUpdateSlotsConfigWith (sender : ptr) (senderConfigEpoch slots : Z) : cl unit :=
  s ← getS;
  me ← deref (cs_myself s);
  let curmaster := if nodeIsMaster me then Some (cs_myself s) else cn_slaveof me in
  if sender =? cs_myself s then mret tt
  else
    c ← fold_each slot_range (mkClaims false 0 0 []) (rebind_slot sender curmaster senderConfigEpoch slots);
    if negb (Z.land (sv_module_flags sv) CLUSTER_MODULE_FLAG_NO_REDIRECTION =? 0) then mret tt
    else
      (* [curmaster->numslots] is read only when [newmaster] is set *)
      demoted ← (if c_newmaster c then
                   match curmaster with
                   | Some q => m ← deref q; mret (cn_numslots m =? 0)
                   | None => fun _ => None
                   end
                 else mret false);
      if demoted && (sv_allow_replica_migration sv || (c_sender_slots c =? c_migrated_our_slots c)) then
        clusterSetMaster sender;;
        clusterDoBeforeSleep (Z.lor (Z.lor CLUSTER_TODO_SAVE_CONFIG CLUSTER_TODO_UPDATE_STATE) CLUSTER_TODO_FSYNC_CONFIG)
      else for_each (c_dirty_slots c) (fun j => emit (DelKeysInSlot j)).

(** ** Election of a replica *)

(** Does a slot of [slots] have an owner with a greater epoch? *)
Fixpoint claims_older_slot (l : list Z) (slots epoch : Z) : cl bool :=
  match l with
  | [] => mret false
  | j :: l =>
      if negb (bitmapTestBit slots j) then claims_older_slot l slots epoch
      else
        s ← getS;
        match cs_slots s !! j with
        | None => claims_older_slot l slots epoch
        | Some p =>
            n ← deref p;
            if cn_configEpoch n <=? epoch then claims_older_slot l slots epoch else mret true
        end
  end.

Definition clusterSendFailoverAuthIfNeeded (node : ptr) (request : clusterMsg) : cl unit :=
  s ← getS;
  n ← deref node;
  me ← deref (cs_myself s);
  let force_ack := negb (Z.land (m_mflags0 request) CLUSTERMSG_FLAG0_FORCEACK =? 0) in
  if nodeIsSlave me || (cn_numslots me =? 0) then mret tt
  else if m_currentEpoch request <? cs_currentEpoch s then mret tt
  else if cs_lastVoteEpoch s =? cs_currentEpoch s then mret tt
  else if nodeIsMaster n then mret tt
  else match cn_slaveof n with
  | None => mret tt
  | Some master =>
      m ← deref master;
      if negb (nodeFailed m) && negb force_ack then mret tt
      else if sv_mstime sv - cn_voted_time m <? sv_node_timeout sv * 2 then mret tt
      else
        older ← claims_older_slot slot_range (m_myslots request) (m_configEpoch request);
        if older : bool then mret tt
        else
          modify (fun s => s <| cs_lastVoteEpoch := cs_currentEpoch s |>);;
          update master (fun m => m <| cn_voted_time := sv_mstime sv |>);;
          clusterDoBeforeSleep (Z.lor CLUSTER_TODO_SAVE_CONFIG CLUSTER_TODO_FSYNC_CONFIG);;
          clusterSendFailoverAuth node
  end.

Definition clusterGetSlaveRank : cl Z :=
  s ← getS;
  me ← deref (cs_myself s);
  serverAssert (nodeIsSlave me);;
  match cn_slaveof me with
  | None => mret 0
  | Some master =>
      m ← deref master;
      fold_each (cn_slaves m) 0 (fun rank p =>
        if p =? cs_myself s then mret rank
        else
          n ← deref p;
          mret (if negb (nodeCantFailover n) && (cn_repl_offset n >? sv_slave_offset sv) then rank + 1 else rank))
  end.

(** The text of the log is left out; when it is emitted is not. *)
Definition clusterLogCantFailover (reason : Z) : cl unit :=
  s ← getS;
  let nolog_fail_time := sv_node_timeout sv + 5000 in
  if (reason =? cs_cant_failover_reason s) &&
     (sv_unixtime sv - cs_lastlog_time s <? CLUSTER_CANT_FAILOVER_RELOG_PERIOD) then mret tt
  else
    modify (fun s => s <| cs_cant_failover_reason := reason |>);;
    me ← deref (cs_myself s);
    silent ← match cn_slaveof me with
             | Some q => m ← deref q; mret (nodeFailed m && (sv_mstime sv - cn_fail_time m <? nolog_fail_time))
             | None => mret false
             end;
    if silent : bool then mret tt
    else modify (fun s => s <| cs_lastlog_time := sv_unixtime sv |>).

Definition clusterFailoverReplaceYourMaster : cl unit :=
  s ← getS;
  let myself := cs_myself s in
  me ← deref myself;
  match cn_slaveof me with
  | None => mret tt
  | Some oldmaster =>
      if nodeIsMaster me then mret tt
      else
        clusterSetNodeAsMaster myself;;
        emit ReplicationUnsetMaster;;
        for_each slot_range (fun j =>
          b ← clusterNodeGetSlotBit oldmaster j;
          when b (clusterDelSlot j;; clusterAddSlot myself j;; mret tt));;
        clusterUpdateState;;
        emit SaveConfig;;
        clusterBroadcastPong CLUSTER_BROADCAST_ALL;;
        resetManualFailover
  end.

(** The preconditions of [clusterHandleSlaveFailover]; [false] is a return. *)
Definition failover_conditions (manual_failover : bool) : cl bool :=
  s ← getS;
  me ← deref (cs_myself s);
  if nodeIsMaster me then mret false
  else match cn_slaveof me with
  | None => mret false
  | Some q =>
      m ← deref q;
      mret (negb ((negb (nodeFailed m) && negb manual_failover) ||
                  (sv_slave_no_failover sv && negb manual_failover) ||
                  (cn_numslots m =? 0)))
  end.

(** The time without the master, and is it too long? *)
Definition data_age : Z :=
  let age := (if sv_repl_connected sv then sv_unixtime sv - sv_lastinteraction sv
              else sv_unixtime sv - sv_repl_down_since sv) * 1000 in
  if age >? sv_node_timeout sv then age - sv_node_timeout sv else age.
Definition data_too_old : bool :=
  negb (sv_slave_validity_factor sv =? 0) &&
  (data_age >? sv_repl_ping_slave_period sv * 1000 + sv_node_timeout sv * sv_slave_validity_factor sv).

(** A new attempt is scheduled. *)
Definition schedule_election : cl unit :=
  modify (fun s => s <| cs_failover_auth_time := sv_mstime sv + 500 + Z.rem (sv_random sv) 500 |>
                     <| cs_failover_auth_count := 0 |> <| cs_failover_auth_sent := 0 |>);;
  rank ← clusterGetSlaveRank;
  modify (fun s => s <| cs_failover_auth_rank := rank |>
                     <| cs_failover_auth_time := cs_failover_auth_time s + rank * 1000 |>);;
  s ← getS;
  when (negb (cs_mf_end s =? 0)) (
    modify (fun s => s <| cs_failover_auth_time := sv_mstime sv |> <| cs_failover_auth_rank := 0 |>);;
    clusterDoBeforeSleep CLUSTER_TODO_HANDLE_FAILOVER);;
  clusterBroadcastPong CLUSTER_BROADCAST_LOCAL_SLAVES.

(** The delay grows with the rank while the votes are not asked for. *)
Definition update_rank : cl unit :=
  s ← getS;
  when ((cs_failover_auth_sent s =? 0) && (cs_mf_end s =? 0)) (
    newrank ← clusterGetSlaveRank;
    when (newrank >? cs_failover_auth_rank s) (
      modify (fun s => s <| cs_failover_auth_time := cs_failover_auth_time s + (newrank - cs_failover_auth_rank s) * 1000 |>
                         <| cs_failover_auth_rank := newrank |>))).

(** The votes are asked for, in a new epoch. *)
Definition start_election : cl unit :=
  modify (fun s => s <| cs_currentEpoch := uwrap 64 (cs_currentEpoch s + 1) |>);;
  modify (fun s => s <| cs_failover_auth_epoch := cs_currentEpoch s |>);;
  clusterRequestFailoverAuth;;
  modify (fun s => s <| cs_failover_auth_sent := 1 |>);;
  clusterDoBeforeSleep (Z.lor (Z.lor CLUSTER_TODO_SAVE_CONFIG CLUSTER_TODO_UPDATE_STATE) CLUSTER_TODO_FSYNC_CONFIG).

(** The quorum was reached. *)
Definition win_election : cl unit :=
  s ← getS;
  me ← deref (cs_myself s);
  when (cn_configEpoch me <? cs_failover_auth_epoch s)
    (update (cs_myself s) (fun n => n <| cn_configEpoch := cs_failover_auth_epoch s |>));;
  clusterFailoverReplaceYourMaster.

(** The result tells whether the election was won. *)
Definition clusterHandleSlaveFailover : cl bool :=
  s ← getS;
  let auth_age := sv_mstime sv - cs_failover_auth_time s in
  let needed_quorum := Z.quot (cs_size s) 2 + 1 in
  let manual_failover := negb (cs_mf_end s =? 0) && cs_mf_can_start s in
  modify (fun s => s <| cs_todo_before_sleep := Z.ldiff (cs_todo_before_sleep s) CLUSTER_TODO_HANDLE_FAILOVER |>);;
  let auth_timeout := if sv_node_timeout sv * 2 <? 2000 then 2000 else sv_node_timeout sv * 2 in
  let auth_retry_time := auth_timeout * 2 in
  go ← failover_conditions manual_failover;
  if negb go then modify (fun s => s <| cs_cant_failover_reason := CLUSTER_CANT_FAILOVER_NONE |>);; mret false
  else if data_too_old && negb manual_failover then clusterLogCantFailover CLUSTER_CANT_FAILOVER_DATA_AGE;; mret false
  else if auth_age >? auth_retry_time then schedule_election;; mret false
  else
    update_rank;;
    s ← getS;
    if sv_mstime sv <? cs_failover_auth_time s then
      clusterLogCantFailover CLUSTER_CANT_FAILOVER_WAITING_DELAY;; mret false
    else if auth_age >? auth_timeout then clusterLogCantFailover CLUSTER_CANT_FAILOVER_EXPIRED;; mret false
    else if cs_failover_auth_sent s =? 0 then start_election;; mret false
    else if cs_failover_auth_count s >=? needed_quorum then win_election;; mret true
    else clusterLogCantFailover CLUSTER_CANT_FAILOVER_WAITING_VOTES;; mret false.

(** ** Packets *)

(** The IP a node announces, or else the one of its connection. *)
Definition nodeIp2String (l : clusterLink) (announced_ip : bytes) : bytes :=
  match announced_ip with [] => l_peer_ip l | _ => announced_ip end.

Definition nodeUpdateAddressIfNeeded (p : ptr) (l : clusterLink) (hdr : clusterMsg) : cl bool :=
  n ← deref p;
  if bool_decide (cn_link n = Some (l_id l)) then mret false
  else
    let a := mkAddr (nodeIp2String l (ip (m_addr hdr))) (port (m_addr hdr)) (pport (m_addr hdr)) (cport (m_addr hdr)) in
    if bool_decide (cn_addr n = a) then mret false
    else
      update p (fun n => n <| cn_addr := a |>);;
      freeNodeLink p;;
      update p (clear_flag CLUSTER_NODE_NOADDR);;
      s ← getS;
      me ← deref (cs_myself s);
      when (nodeIsSlave me && bool_decide (cn_slaveof me = Some p)) (emit (ReplicationSetMaster a));;
      mret true.

(** One entry about a node of the table. *)
Definition gossip_known (sender : option ptr) (g : gossip) (p : ptr) : cl unit :=
  let failing := negb (Z.land (g_flags g) (Z.lor CLUSTER_NODE_FAIL CLUSTER_NODE_PFAIL) =? 0) in
  s ← getS;
  match sender with
  | Some q =>
      r ← deref q;
      when (nodeIsMaster r && negb (p =? cs_myself s)) (
        if failing then clusterNodeAddFailureReport p q;; markNodeAsFailingIfNeeded p
        else clusterNodeDelFailureReport p q;; mret tt)
  | None => mret tt
  end;;
  n ← deref p;
  quiet ← (if negb failing && (cn_ping_sent n =? 0) then
             reports ← clusterNodeFailureReportsCount p; mret (reports =? 0)
           else mret false);
  when quiet (
    let pongtime := g_pong_received g * 1000 in
    n ← deref p;
    when ((pongtime <=? sv_mstime sv + 500) && (pongtime >? cn_pong_received n))
      (update p (fun n => n <| cn_pong_received := pongtime |>)));;
  n ← deref p;
  when (has n (Z.lor CLUSTER_NODE_FAIL CLUSTER_NODE_PFAIL) && (Z.land (g_flags g) CLUSTER_NODE_NOADDR =? 0) &&
        negb failing &&
        (negb (strcaseeq (ip (cn_addr n)) (ip (g_addr g))) || negb (port (cn_addr n) =? port (g_addr g)) ||
         negb (cport (cn_addr n) =? cport (g_addr g)))) (
    freeNodeLink p;;
    update p (fun n => clear_flag CLUSTER_NODE_NOADDR (n <| cn_addr := g_addr g |>))).

(** One entry about a node that is not in the table. *)
Definition gossip_unknown (sender : option ptr) (g : gossip) : cl unit :=
  if bool_decide (sender = None) || negb (Z.land (g_flags g) CLUSTER_NODE_NOADDR =? 0) then mret tt
  else
    b ← clusterBlacklistExists (g_nodename g);
    when (negb b) (
      p ← createClusterNode sv (Some (g_nodename g)) (g_flags g);
      update p (fun n => n <| cn_addr := g_addr g |>);;
      clusterAddNode p).

Definition gossip_entries (hdr : clusterMsg) : list gossip :=
  match m_data hdr with DataPing es => es | _ => [] end.

Definition clusterProcessGossipSection (hdr : clusterMsg) (l : clusterLink) : cl unit :=
  sender ← match l_node l with Some p => mret (Some p) | None => clusterLookupNode (m_sender hdr) end;
  for_each (gossip_entries hdr) (fun g =>
    node ← clusterLookupNode (g_nodename g);
    match node with
    | Some p => gossip_known sender g p
    | None => gossip_unknown sender g
    end).

(** What every packet of a known node tells: the epochs and the offset. *)
Definition process_header (p : ptr) (hdr : clusterMsg) : cl unit :=
  update p (fun n => n <| cn_data_received := sv_mstime sv |>);;
  n ← deref p;
  when (negb (nodeInHandshake n)) (
    modify (fun s => if m_currentEpoch hdr >? cs_currentEpoch s then s <| cs_currentEpoch := m_currentEpoch hdr |> else s);;
    n ← deref p;
    when (m_configEpoch hdr >? cn_configEpoch n) (
      update p (fun n => n <| cn_configEpoch := m_configEpoch hdr |>);;
      clusterDoBeforeSleep (Z.lor CLUSTER_TODO_SAVE_CONFIG CLUSTER_TODO_FSYNC_CONFIG));;
    update p (fun n => n <| cn_repl_offset := m_offset hdr |> <| cn_repl_offset_time := sv_mstime sv |>);;
    s ← getS;
    me ← deref (cs_myself s);
    when (negb (cs_mf_end s =? 0) && nodeIsSlave me && bool_decide (cn_slaveof me = Some p) &&
          negb (Z.land (m_mflags0 hdr) CLUSTERMSG_FLAG0_PAUSED =? 0) && (cs_mf_master_offset s =? -1)) (
      modify (fun s => s <| cs_mf_master_offset := m_offset hdr |>);;
      clusterDoBeforeSleep CLUSTER_TODO_HANDLE_MANUALFAILOVER)).

(** PING and MEET: learn our address, add the sender of a MEET, answer. *)
Definition process_ping (l : clusterLink) (sender : option ptr) (hdr : clusterMsg) : cl unit :=
  s ← getS;
  me ← deref (cs_myself s);
  when (((m_type hdr =? CLUSTERMSG_TYPE_MEET) || bool_decide (ip (cn_addr me) = [])) &&
        bool_decide (sv_announce_ip sv = None))
    match l_sock_ip l with
    | Some i =>
        when (negb (bool_decide (i = ip (cn_addr me)))) (
          update (cs_myself s) (fun n => n <| cn_addr := mkAddr i (port (cn_addr n)) (pport (cn_addr n)) (cport (cn_addr n)) |>);;
          clusterDoBeforeSleep CLUSTER_TODO_SAVE_CONFIG)
    | None => mret tt
    end;;
  when (bool_decide (sender = None) && (m_type hdr =? CLUSTERMSG_TYPE_MEET)) (
    p ← createClusterNode sv None CLUSTER_NODE_HANDSHAKE;
    update p (fun n => n <| cn_addr := mkAddr (nodeIp2String l (ip (m_addr hdr))) (port (m_addr hdr))
                                         (pport (m_addr hdr)) (cport (m_addr hdr)) |>);;
    clusterAddNode p;;
    clusterDoBeforeSleep CLUSTER_TODO_SAVE_CONFIG;;
    clusterProcessGossipSection hdr l);;
  clusterReplyPing l CLUSTERMSG_TYPE_PONG.

(** The node of the link: [false] when the link is gone. *)
Definition process_link_node (l : clusterLink) (sender : option ptr) (hdr : clusterMsg) : cl bool :=
  match l_node l with
  | None => mret true
  | Some p =>
      n ← deref p;
      if nodeInHandshake n then
        match sender with
        | Some q =>
            b ← nodeUpdateAddressIfNeeded q l hdr;
            when b (clusterDoBeforeSleep (Z.lor CLUSTER_TODO_SAVE_CONFIG CLUSTER_TODO_UPDATE_STATE));;
            clusterDelNode p;;
            mret false
        | None =>
            clusterRenameNode p (m_sender hdr);;
            update p (fun n => set_flag (Z.land (m_flags hdr) (Z.lor CLUSTER_NODE_MASTER CLUSTER_NODE_SLAVE))
                                 (clear_flag CLUSTER_NODE_HANDSHAKE n));;
            clusterDoBeforeSleep CLUSTER_TODO_SAVE_CONFIG;;
            mret true
        end
      else if negb (bool_decide (cn_name n = m_sender hdr)) then
        update p (fun n => set_flag CLUSTER_NODE_NOADDR (n <| cn_addr := no_addr |>));;
        freeClusterLink l;;
        clusterDoBeforeSleep CLUSTER_TODO_SAVE_CONFIG;;
        mret false
      else mret true
  end.

(** A PONG on the link of a node: it is alive. *)
Definition process_pong (l : clusterLink) (hdr : clusterMsg) : cl unit :=
  match l_node l with
  | Some p =>
      when (m_type hdr =? CLUSTERMSG_TYPE_PONG) (
        update p (fun n => n <| cn_pong_received := sv_mstime sv |> <| cn_ping_sent := 0 |>);;
        n ← deref p;
        if nodeTimedOut n then
          update p (clear_flag CLUSTER_NODE_PFAIL);;
          clusterDoBeforeSleep (Z.lor CLUSTER_TODO_SAVE_CONFIG CLUSTER_TODO_UPDATE_STATE)
        else if nodeFailed n then clearNodeFailureIfNeeded p
        else mret tt)
  | None => mret tt
  end.

(** The role the sender announces. *)
Definition process_role (sender : ptr) (hdr : clusterMsg) : cl unit :=
  if bool_decide (m_slaveof hdr = CLUSTER_NODE_NULL_NAME) then clusterSetNodeAsMaster sender
  else
    master ← clusterLookupNode (m_slaveof hdr);
    n ← deref sender;
    when (nodeIsMaster n) (
      clusterDelNodeSlots sender;;
      update sender (fun n => set_flag CLUSTER_NODE_SLAVE
        (clear_flag (Z.lor CLUSTER_NODE_MASTER CLUSTER_NODE_MIGRATE_TO) n));;
      clusterDoBeforeSleep (Z.lor CLUSTER_TODO_SAVE_CONFIG CLUSTER_TODO_UPDATE_STATE));;
    n ← deref sender;
    match master with
    | Some q =>
        when (negb (bool_decide (cn_slaveof n = Some q))) (
          match cn_slaveof n with
          | Some r => clusterNodeRemoveSlave r sender;; mret tt
          | None => mret tt
          end;;
          clusterNodeAddSlave q sender;;
          update sender (fun n => n <| cn_slaveof := Some q |>);;
          clusterDoBeforeSleep CLUSTER_TODO_SAVE_CONFIG)
    | None => mret tt
    end.

(** The first claimed slot whose owner has a greater epoch than the sender. *)
Fixpoint newer_owner (l : list Z) (sender : ptr) (slots epoch : Z) : cl (option ptr) :=
  match l with
  | [] => mret None
  | j :: l =>
      if negb (bitmapTestBit slots j) then newer_owner l sender slots epoch
      else
        s ← getS;
        match cs_slots s !! j with
        | None => newer_owner l sender slots epoch
        | Some p =>
            if p =? sender then newer_owner l sender slots epoch
            else
              n ← deref p;
              if cn_configEpoch n >? epoch then mret (Some p) else newer_owner l sender slots epoch
        end
  end.

(** That owner is made known to the sender. *)
Definition tell_newer_owner (sender : ptr) (slots epoch : Z) : cl unit :=
  owner ← newer_owner slot_range sender slots epoch;
  match owner with
  | Some p => clusterSendUpdate sender p
  | None => mret tt
  end.

(** The slots the sender claims. [senderConfigEpoch] is zero for a sender in
    handshake. *)
Definition process_slots (sender : ptr) (senderConfigEpoch : Z) (hdr : clusterMsg) : cl unit :=
  n ← deref sender;
  let sender_master := if nodeIsMaster n then Some sender else cn_slaveof n in
  dirty_slots ← match sender_master with
                | Some q => m ← deref q; mret (negb (cn_slots m =? m_myslots hdr))
                | None => mret false
                end;
  when (nodeIsMaster n && dirty_slots) (clusterUpdateSlotsConfigWith sender senderConfigEpoch (m_myslots hdr));;
  when dirty_slots (tell_newer_owner sender (m_myslots hdr) senderConfigEpoch);;
  s ← getS;
  me ← deref (cs_myself s);
  n ← deref sender;
  when (nodeIsMaster me && nodeIsMaster n && (senderConfigEpoch =? cn_configEpoch me))
    (clusterHandleConfigEpochCollision sender).

(** The configuration part of a PING, PONG or MEET. *)
Definition process_config (l : clusterLink) (sender : option ptr) (senderConfigEpoch : Z) (hdr : clusterMsg) : cl bool :=
  alive ← process_link_node l sender hdr;
  if negb alive then mret false
  else
    match sender with
    | Some q =>
        update q (fun n => set_flag (Z.land (m_flags hdr) CLUSTER_NODE_NOFAILOVER) (clear_flag CLUSTER_NODE_NOFAILOVER n));;
        n ← deref q;
        when ((m_type hdr =? CLUSTERMSG_TYPE_PING) && negb (nodeInHandshake n)) (
          b ← nodeUpdateAddressIfNeeded q l hdr;
          when b (clusterDoBeforeSleep (Z.lor CLUSTER_TODO_SAVE_CONFIG CLUSTER_TODO_UPDATE_STATE)))
    | None => mret tt
    end;;
    process_pong l hdr;;
    match sender with
    | Some q =>
        process_role q hdr;;
        process_slots q senderConfigEpoch hdr;;
        clusterProcessGossipSection hdr l
    | None => mret tt
    end;;
    mret true.

Definition process_fail (sender : option ptr) (nodename : name) : cl unit :=
  match sender with
  | None => mret tt
  | Some _ =>
      failing ← clusterLookupNode nodename;
      match failing with
      | None => mret tt
      | Some p =>
          n ← deref p;
          when (negb (has n (Z.lor CLUSTER_NODE_FAIL CLUSTER_NODE_MYSELF))) (
            update p (fun n => clear_flag CLUSTER_NODE_PFAIL (set_flag CLUSTER_NODE_FAIL n <| cn_fail_time := sv_mstime sv |>));;
            clusterDoBeforeSleep (Z.lor CLUSTER_TODO_SAVE_CONFIG CLUSTER_TODO_UPDATE_STATE))
      end
  end.

(** A vote. *)
Definition process_auth_ack (sender : ptr) (senderCurrentEpoch : Z) : cl unit :=
  n ← deref sender;
  s ← getS;
  when (nodeIsMaster n && (cn_numslots n >? 0) && (senderCurrentEpoch >=? cs_failover_auth_epoch s)) (
    modify (fun s => s <| cs_failover_auth_count := cs_failover_auth_count s + 1 |>);;
    clusterDoBeforeSleep CLUSTER_TODO_HANDLE_FAILOVER).

Definition process_mfstart (l : clusterLink) (sender : ptr) : cl unit :=
  n ← deref sender;
  s ← getS;
  when (bool_decide (cn_slaveof n = Some (cs_myself s))) (
    resetManualFailover;;
    modify (fun s => s <| cs_mf_end := sv_mstime sv + CLUSTER_MF_TIMEOUT |> <| cs_mf_slave := Some sender |>);;
    emit (PauseClients (sv_mstime sv + CLUSTER_MF_TIMEOUT * CLUSTER_MF_PAUSE_MULT));;
    clusterReplyPing l CLUSTERMSG_TYPE_PING).

Definition process_update (reportedConfigEpoch : Z) (nodename : name) (slots : Z) : cl unit :=
  node ← clusterLookupNode nodename;
  match node with
  | None => mret tt
  | Some p =>
      n ← deref p;
      if cn_configEpoch n >=? reportedConfigEpoch then mret tt
      else
        when (nodeIsSlave n) (clusterSetNodeAsMaster p);;
        update p (fun n => n <| cn_configEpoch := reportedConfigEpoch |>);;
        clusterDoBeforeSleep (Z.lor CLUSTER_TODO_SAVE_CONFIG CLUSTER_TODO_FSYNC_CONFIG);;
        clusterUpdateSlotsConfigWith p reportedConfigEpoch slots
  end.

(** The packets about something else than the configuration of the sender, by
    type. The payload of another type is a read of the wrong member of the
    union. *)
Definition process_other (l : clusterLink) (sender : option ptr) (senderCurrentEpoch : Z) (hdr : clusterMsg) : cl unit :=
  let type := m_type hdr in
  let known (f : ptr -> cl unit) : cl unit := match sender with Some p => f p | None => mret tt end in
  if type =? CLUSTERMSG_TYPE_FAIL then
    match m_data hdr with DataFail nodename => process_fail sender nodename | _ => fun _ => None end
  else if type =? CLUSTERMSG_TYPE_PUBLISH then
    match m_data hdr with
    | DataPublish channel message => when (sv_has_subscribers sv) (emit (PubsubPublish channel message))
    | _ => fun _ => None
    end
  else if type =? CLUSTERMSG_TYPE_FAILOVER_AUTH_REQUEST then
    known (fun p => clusterSendFailoverAuthIfNeeded p hdr)
  else if type =? CLUSTERMSG_TYPE_FAILOVER_AUTH_ACK then
    known (fun p => process_auth_ack p senderCurrentEpoch)
  else if type =? CLUSTERMSG_TYPE_MFSTART then known (process_mfstart l)
  else if type =? CLUSTERMSG_TYPE_UPDATE then
    match m_data hdr with
    | DataUpdate epoch nodename slots => known (fun _ => process_update epoch nodename slots)
    | _ => fun _ => None
    end
  else if type =? CLUSTERMSG_TYPE_MODULE then
    match m_data hdr with
    | DataModule id mtype payload => known (fun p => n ← deref p; emit (ModuleReceive (cn_name n) id mtype payload))
    | _ => fun _ => None
    end
  else mret tt.

(** A packet whose version and length passed the checks. The result is [false]
    when the link was freed. *)
Definition clusterProcessPacket (l : clusterLink) (hdr : clusterMsg) : cl bool :=
  sender ← clusterLookupNode (m_sender hdr);
  epochs ← match sender with
           | Some p =>
               process_header p hdr;;
               n ← deref p;
               mret (if nodeInHandshake n then (0, 0) else (m_currentEpoch hdr, m_configEpoch hdr))
           | None => mret (0, 0)
           end;
  let type := m_type hdr in
  when ((type =? CLUSTERMSG_TYPE_PING) || (type =? CLUSTERMSG_TYPE_MEET)) (process_ping l sender hdr);;
  if (type =? CLUSTERMSG_TYPE_PING) || (type =? CLUSTERMSG_TYPE_PONG) || (type =? CLUSTERMSG_TYPE_MEET) then
    process_config l sender epochs.2 hdr
  else process_other l sender epochs.1 hdr;; mret true.

Definition clusterBeforeSleep : cl bool :=
  s ← getS;
  let flags := cs_todo_before_sleep s in
  let todo f := negb (Z.land flags f =? 0) in
  modify (fun s => s <| cs_todo_before_sleep := 0 |>);;
  me ← deref (cs_myself s);
  won ← (if todo CLUSTER_TODO_HANDLE_MANUALFAILOVER then
           if nodeIsSlave me then
             clusterHandleManualFailover;;
             if Z.land (sv_module_flags sv) CLUSTER_MODULE_FLAG_NO_FAILOVER =? 0 then clusterHandleSlaveFailover
             else mret false
           else mret false
         else if todo CLUSTER_TODO_HANDLE_FAILOVER then clusterHandleSlaveFailover
         else mret false);
  when (todo CLUSTER_TODO_UPDATE_STATE) clusterUpdateState;;
  when (todo CLUSTER_TODO_SAVE_CONFIG) (emit SaveConfig);;
  mret won.

End Server.
