(* ===== verification/ClusterCron.v ===== *)
(** The periodic work of the cluster bus and its start: [clusterInit] without a
    configuration file, [clusterReset], the handshakes, the migration of the
    replicas, [clusterCron], and the check of the keys against the slots. *)
From stdpp Require Import gmap.
From S2P Require Import Prelude Sds Replication Cluster.

Definition CLUSTER_SLAVE_MIGRATION_DELAY : Z := 5000.
Definition CLUSTER_PORT_INCR : Z := 10000.

(** What the periodic work reads besides [redisServer]. The first four fields
    stand for the connections: whether [connConnect] to a node starts, the number
    of the new link, the time a link was created, and whether the connection of a
    link is established when its handler runs. [ci_random_key] is
    [dictGetRandomKey] at its [j]th call, [ci_announce_ip] the new value of
    [cluster-announce-ip] when the option changed since the last call. *)
Record cronInput := mkCron {
  ci_connect : ptr -> bool; ci_new_link : ptr -> Z; ci_link_ctime : Z -> Z; ci_connected : bool;
  ci_iteration : Z; ci_random_key : Z -> gmap name ptr -> ptr; ci_announce_ip : option (option bytes);
  ci_masterhost : bool; ci_migration_barrier : Z; ci_db0_size : Z; ci_other_dbs_empty : bool;
  ci_norm_ip : bytes -> option bytes
}.

Section Cron.
Context (sv : redisServer) (ci : cronInput).

(** ** Start *)

Definition clusterUpdateMyselfFlags : cl unit :=
  s ← getS;
  me ← deref (cs_myself s);
  let nofailover := if sv_slave_no_failover sv then CLUSTER_NODE_NOFAILOVER else 0 in
  update (cs_myself s) (clear_flag CLUSTER_NODE_NOFAILOVER);;
  update (cs_myself s) (set_flag nofailover);;
  me' ← deref (cs_myself s);
  when (negb (cn_flags me' =? cn_flags me))
    (clusterDoBeforeSleep (Z.lor CLUSTER_TODO_SAVE_CONFIG CLUSTER_TODO_UPDATE_STATE)).

(** The fields [clusterInit] sets. The others keep what [zmalloc] gives:
    [raw] is any state. *)
Definition init_fields (raw : clusterState) : clusterState :=
  raw <| cs_myself := 0 |> <| cs_currentEpoch := 0 |> <| cs_state := CLUSTER_FAIL |> <| cs_size := 1 |>
      <| cs_todo_before_sleep := 0 |> <| cs_nodes := ∅ |> <| cs_nodes_black_list := ∅ |>
      <| cs_failover_auth_time := 0 |> <| cs_failover_auth_count := 0 |> <| cs_failover_auth_rank := 0 |>
      <| cs_failover_auth_epoch := 0 |> <| cs_cant_failover_reason := CLUSTER_CANT_FAILOVER_NONE |>
      <| cs_lastVoteEpoch := 0 |> <| cs_slots := ∅ |> <| cs_heap := ∅ |> <| cs_next := 1 |>.

Definition clusterInit : cl unit :=
  modify init_fields;;
  clusterCloseAllSlots;;
  p ← createClusterNode sv None (Z.lor CLUSTER_NODE_MYSELF CLUSTER_NODE_MASTER);
  modify (fun s => s <| cs_myself := p |>);;
  clusterAddNode p;;
  emit SaveConfig;;
  let '(port, pport, cport) := sv_announced_ports sv in
  update p (fun n => n <| cn_addr := mkAddr (ip (cn_addr n)) port pport cport |>);;
  modify (fun s => s <| cs_mf_end := 0 |>);;
  resetManualFailover;;
  clusterUpdateMyselfFlags.

(** Only for a hard reset: epochs to 0 and a new name. *)
Definition hard_reset : cl unit :=
  modify (fun s => s <| cs_currentEpoch := 0 |> <| cs_lastVoteEpoch := 0 |>);;
  s ← getS;
  update (cs_myself s) (fun n => n <| cn_configEpoch := 0 |>);;
  me ← deref (cs_myself s);
  modify (fun s => s <| cs_nodes := delete (cn_name me) (cs_nodes s) |>);;
  update (cs_myself s) (fun n => n <| cn_name := sv_random_name sv |>);;
  clusterAddNode (cs_myself s).

Definition clusterReset (hard : bool) : cl unit :=
  s ← getS;
  me ← deref (cs_myself s);
  when (nodeIsSlave me) (clusterSetNodeAsMaster (cs_myself s);; emit ReplicationUnsetMaster;; emit EmptyDb);;
  clusterCloseAllSlots;;
  resetManualFailover;;
  for_each slot_range (fun j => clusterDelSlot j;; mret tt);;
  s ← getS;
  for_each (node_ptrs s) (fun p => when (negb (p =? cs_myself s)) (clusterDelNode sv p));;
  when hard hard_reset;;
  clusterDoBeforeSleep (Z.lor (Z.lor CLUSTER_TODO_SAVE_CONFIG CLUSTER_TODO_UPDATE_STATE) CLUSTER_TODO_FSYNC_CONFIG).

(** ** Handshakes *)

Definition clusterHandshakeInProgress (a : bytes) (p_port p_cport : Z) : cl bool :=
  s ← getS;
  fold_each (node_ptrs s) false (fun found p =>
    if found : bool then mret true
    else
      n ← deref p;
      mret (nodeInHandshake n && strcaseeq (ip (cn_addr n)) a && (port (cn_addr n) =? p_port) && (cport (cn_addr n) =? p_cport))).

(** [EINVAL] and [EAGAIN] are the two errors. *)
Inductive handshake := HandshakeStarted | HandshakeInval | HandshakeAgain.

(** [ci_norm_ip] is [inet_ntop] of what [inet_pton] reads, [None] when the
    string is not an address. *)
Definition clusterStartHandshake (a : bytes) (p_port p_cport : Z) : cl handshake :=
  match ci_norm_ip ci a with
  | None => mret HandshakeInval
  | Some norm_ip =>
      if (p_port <=? 0) || (p_port >? 65535) || (p_cport <=? 0) || (p_cport >? 65535) then mret HandshakeInval
      else
        busy ← clusterHandshakeInProgress norm_ip p_port p_cport;
        if busy : bool then mret HandshakeAgain
        else
          p ← createClusterNode sv None (Z.lor CLUSTER_NODE_HANDSHAKE CLUSTER_NODE_MEET);
          update p (fun n => n <| cn_addr := mkAddr norm_ip p_port (pport (cn_addr n)) p_cport |>);;
          clusterAddNode p;;
          mret HandshakeStarted
  end.

(** The handler of a connection to [l_node l]: the first packet is a MEET or a PING. *)
Definition clusterLinkConnectHandler (l : clusterLink) (p : ptr) : cl unit :=
  if negb (ci_connected ci) then freeClusterLink l
  else
    n ← deref p;
    clusterSendPing sv p (if has n CLUSTER_NODE_MEET then CLUSTERMSG_TYPE_MEET else CLUSTERMSG_TYPE_PING);;
    when (negb (cn_ping_sent n =? 0)) (update p (fun m => m <| cn_ping_sent := cn_ping_sent n |>));;
    update p (clear_flag CLUSTER_NODE_MEET).

(** ** Migration of a replica *)

(** The replica with the smallest name. *)
Definition smaller_name (candidate p : ptr) : cl ptr :=
  n ← deref p; c ← deref candidate;
  mret (if memcmp (cn_name n) (cn_name c) <? 0 then p else candidate).

(** One node of the dict: an orphaned master is a target, and the replicas of a
    master with the most replicas are candidates. *)
Definition migration_node (max_slaves : Z) (acc : option ptr * ptr) (p : ptr) : cl (option ptr * ptr) :=
  let '(target, candidate) := acc in
  n ← deref p;
  okslaves ← (if nodeIsMaster n then clusterCountNonFailingSlaves p else mret 0);
  let is_orphaned := negb (nodeIsSlave n || nodeFailed n) && has n CLUSTER_NODE_MIGRATE_TO && negb (okslaves >? 0) in
  update p (fun n => n <| cn_orphaned_time :=
    if is_orphaned then if cn_orphaned_time n =? 0 then sv_mstime sv else cn_orphaned_time n else 0 |>);;
  candidate ← (if okslaves =? max_slaves then fold_each (cn_slaves n) candidate smaller_name else mret candidate);
  mret (match target with
        | Some _ => target
        | None => if is_orphaned && (cn_numslots n >? 0) then Some p else None
        end, candidate).

Definition clusterHandleSlaveMigration (max_slaves : Z) : cl unit :=
  s ← getS;
  me ← deref (cs_myself s);
  if negb (cs_state s =? CLUSTER_OK) then mret tt
  else match cn_slaveof me with
  | None => mret tt
  | Some mymaster =>
      m ← deref mymaster;
      okslaves ← fold_each (cn_slaves m) 0 (fun k p =>
        n ← deref p; mret (if negb (nodeFailed n) && negb (nodeTimedOut n) then k + 1 else k));
      if okslaves <=? ci_migration_barrier ci then mret tt
      else
        r ← fold_each (node_ptrs s) (None, cs_myself s) (migration_node max_slaves);
        match r.1 with
        | None => mret tt
        | Some target =>
            n ← deref target;
            when (bool_decide (r.2 = cs_myself s) && (sv_mstime sv - cn_orphaned_time n >? CLUSTER_SLAVE_MIGRATION_DELAY) &&
                  (Z.land (sv_module_flags sv) CLUSTER_MODULE_FLAG_NO_FAILOVER =? 0))
              (clusterSetMaster target)
        end
  end.

(** ** The cron *)

Definition cron_announce : cl unit :=
  match ci_announce_ip ci with
  | None => mret tt
  | Some curr_ip =>
      s ← getS;
      update (cs_myself s) (fun n => n <| cn_addr :=
        mkAddr (match curr_ip with Some a => take 45 a | None => [] end) (port (cn_addr n)) (pport (cn_addr n)) (cport (cn_addr n)) |>)
  end.

(** Drop the handshakes that are too old, connect to the nodes without a link. *)
Definition cron_connect (p : ptr) : cl unit :=
  let handshake_timeout := if sv_node_timeout sv <? 1000 then 1000 else sv_node_timeout sv in
  n ← deref p;
  if has n (Z.lor CLUSTER_NODE_MYSELF CLUSTER_NODE_NOADDR) then mret tt
  else if nodeInHandshake n && (sv_mstime sv - cn_ctime n >? handshake_timeout) then clusterDelNode sv p
  else if linked n then mret tt
  else if ci_connect ci p then
    emit (Connect (ci_new_link ci p) (cn_addr n));;
    update p (fun n => n <| cn_link := Some (ci_new_link ci p) |>)
  else
    when (cn_ping_sent n =? 0) (update p (fun n => n <| cn_ping_sent := sv_mstime sv |>));;
    freeClusterLink (mkLink (ci_new_link ci p) (Some p) [] None).

(** Ping the one of five random nodes that answered the longest time ago. *)
Definition cron_ping_random : cl unit :=
  s ← getS;
  best ← fold_each [0; 1; 2; 3; 4] None (fun (best : option (ptr * Z)) j =>
    let this := ci_random_key ci j (cs_nodes s) in
    n ← deref this;
    mret (if negb (linked n) || negb (cn_ping_sent n =? 0) then best
          else if has n (Z.lor CLUSTER_NODE_MYSELF CLUSTER_NODE_HANDSHAKE) then best
          else match best with
               | Some (_, min_pong) => if min_pong >? cn_pong_received n then Some (this, cn_pong_received n) else best
               | None => Some (this, cn_pong_received n)
               end));
  match best with
  | Some (p, _) => clusterSendPing sv p CLUSTERMSG_TYPE_PING
  | None => mret tt
  end.

(** The counters of the scan: orphaned masters, most working replicas of a
    master, those of our master, and whether a node was flagged. *)
Record scan := mkScan { orphaned_masters : Z; max_slaves : Z; this_slaves : Z; update_state : bool }.
#[global] Instance scan_eta : Settable scan := fun c =>
  mkScan (orphaned_masters c) (max_slaves c) (this_slaves c) (update_state c).

Definition scan_replicas (acc : scan) (p : ptr) : cl scan :=
  s ← getS;
  me ← deref (cs_myself s);
  n ← deref p;
  if nodeIsSlave me && nodeIsMaster n && negb (nodeFailed n) then
    okslaves ← clusterCountNonFailingSlaves p;
    mret (mkScan
      (if (okslaves =? 0) && (cn_numslots n >? 0) && has n CLUSTER_NODE_MIGRATE_TO then orphaned_masters acc + 1 else orphaned_masters acc)
      (if okslaves >? max_slaves acc then okslaves else max_slaves acc)
      (if bool_decide (cn_slaveof me = Some p) then okslaves else this_slaves acc)
      (update_state acc))
  else mret acc.

Definition cron_node (acc : scan) (p : ptr) : cl scan :=
  n ← deref p;
  if has n (Z.lor (Z.lor CLUSTER_NODE_MYSELF CLUSTER_NODE_NOADDR) CLUSTER_NODE_HANDSHAKE) then mret acc
  else
    acc ← scan_replicas acc p;
    let now := sv_mstime sv in
    let half := Z.quot (sv_node_timeout sv) 2 in
    let ping_delay := now - cn_ping_sent n in
    let data_delay := now - cn_data_received n in
    when (match cn_link n with Some l => now - ci_link_ctime ci l >? sv_node_timeout sv | None => false end &&
          negb (cn_ping_sent n =? 0) && (ping_delay >? half) && (data_delay >? half)) (freeNodeLink p);;
    n ← deref p;
    s ← getS;
    me ← deref (cs_myself s);
    if linked n && (cn_ping_sent n =? 0) && (now - cn_pong_received n >? half) then
      clusterSendPing sv p CLUSTERMSG_TYPE_PING;; mret acc
    else if negb (cs_mf_end s =? 0) && nodeIsMaster me && bool_decide (cs_mf_slave s = Some p) && linked n then
      clusterSendPing sv p CLUSTERMSG_TYPE_PING;; mret acc
    else if cn_ping_sent n =? 0 then mret acc
    else
      let node_delay := if ping_delay <? data_delay then ping_delay else data_delay in
      if (node_delay >? sv_node_timeout sv) && negb (has n (Z.lor CLUSTER_NODE_PFAIL CLUSTER_NODE_FAIL)) then
        update p (set_flag CLUSTER_NODE_PFAIL);; mret (acc <| update_state := true |>)
      else mret acc.

(** A replica without replication starts it. *)
Definition cron_replication : cl unit :=
  s ← getS;
  me ← deref (cs_myself s);
  when (nodeIsSlave me && negb (ci_masterhost ci))
    match cn_slaveof me with
    | Some q => n ← deref q; when (negb (has n CLUSTER_NODE_NOADDR)) (emit (ReplicationSetMaster (cn_addr n)))
    | None => mret tt
    end.

(** The failover and the migration of a replica. *)
Definition cron_slave (acc : scan) : cl bool :=
  s ← getS;
  me ← deref (cs_myself s);
  if nodeIsSlave me then
    clusterHandleManualFailover sv;;
    won ← (if Z.land (sv_module_flags sv) CLUSTER_MODULE_FLAG_NO_FAILOVER =? 0 then clusterHandleSlaveFailover sv else mret false);
    when (negb (orphaned_masters acc =? 0) && (max_slaves acc >=? 2) && (this_slaves acc =? max_slaves acc) && sv_allow_replica_migration sv)
      (clusterHandleSlaveMigration (max_slaves acc));;
    mret won
  else mret false.

(** The result tells whether an election was won. *)
Definition clusterCron : cl bool :=
  cron_announce;;
  clusterUpdateMyselfFlags;;
  s ← getS;
  for_each (node_ptrs s) cron_connect;;
  when (ci_iteration ci mod 10 =? 0) cron_ping_random;;
  s ← getS;
  acc ← fold_each (node_ptrs s) (mkScan 0 0 0 false) cron_node;
  cron_replication;;
  manualFailoverCheckTimeout sv;;
  won ← cron_slave acc;
  s ← getS;
  when (update_state acc || (cs_state s =? CLUSTER_FAIL)) (clusterUpdateState sv);;
  mret won.

(** ** Keys and slots *)

(** The result is [C_ERR] as [false]. *)
Definition verifyClusterConfigWithData : cl bool :=
  s ← getS;
  me ← deref (cs_myself s);
  if negb (Z.land (sv_module_flags sv) CLUSTER_MODULE_FLAG_NO_REDIRECTION =? 0) then mret true
  else if nodeIsSlave me then mret true
  else if negb (ci_other_dbs_empty ci) then mret false
  else
    update_config ← fold_each slot_range false (fun changed j =>
      s ← getS;
      if (sv_countKeysInSlot sv j =? 0) || bool_decide (cs_slots s !! j = Some (cs_myself s)) ||
         negb (bool_decide (cs_importing_slots_from s !! j = None)) then mret changed
      else
        match cs_slots s !! j with
        | None => clusterAddSlot (cs_myself s) j;; mret tt
        | Some q => modify (fun s => s <| cs_importing_slots_from := <[j := q]> (cs_importing_slots_from s) |>)
        end;;
        mret true);
    when update_config (emit SaveConfig);;
    mret true.

End Cron.
