(* ===== verification/ClusterCommand.v ===== *)
(** The CLUSTER command ([clusterCommand] in [cluster.c]).

    The arguments are byte strings and the answer is a value. The reports whose
    text is not modelled are [ReplyReport]: they change nothing. *)
From stdpp Require Import gmap.
From Stdlib Require Import String.
From S2P Require Import Prelude Util Crc Sds Replication Cluster ClusterCron.
Open Scope string_scope.
Open Scope list_scope.
Open Scope Z_scope.

(** A node in the reply of SLOTS: its address, the port a client is told, its name. *)
Definition node_entry : Type := bytes * Z * name.

Inductive report := Help | Nodes | Replicas (p : ptr) | SaveConfigResult | KeysInSlot (slot maxkeys : Z).

Inductive argument := AStr (b : bytes) | AInt (n : Z).

Inductive reply :=
  | ReplyOk
  | ReplyError (fmt : string) (args : list argument)
  | ReplySyntaxError
  | ReplySubcommandSyntaxError
  | ReplyInt (n : Z)
  | ReplyBulk (b : bytes)
  | ReplyEpoch (bumped : bool) (epoch : Z)
  | ReplySlots (l : list (Z * Z * list node_entry))
  | ReplyInfo (state assigned ok pfail fail known size currentEpoch myEpoch : Z)
  | ReplyReport (r : report).

Definition lift {A} (o : option A) : cl A := fun s => a ← o; Some (a, s, []).

(** [getLongLongFromObject]: [None] is [C_ERR]. *)
Definition getLongLongFromObject (a : bytes) : cl (option Z) := lift (string2ll a (zlen a)).

(** [clusterLookupNode] copies 40 bytes from the argument, whose buffer holds
    its bytes and a zero. *)
Definition lookup_arg (a : bytes) : cl (option ptr) :=
  if (CLUSTER_NAMELEN <=? length a + 1)%nat then clusterLookupNode (take CLUSTER_NAMELEN (a ++ [0])) else fun _ => None.

Definition err (fmt : string) (args : list argument) : cl reply := mret (ReplyError fmt args).

Definition INVALID_SLOT : reply := ReplyError "Invalid or out of range slot" [].
Definition NOT_INTEGER : reply := ReplyError "value is not an integer or out of range" [].

(** The slot, or [None] after the error. *)
Definition getSlotOrReply (a : bytes) : cl (option Z) :=
  r ← getLongLongFromObject a;
  mret (match r with
        | Some slot => if (slot <? 0) || (slot >=? CLUSTER_SLOTS) then None else Some slot
        | None => None
        end).

Section Command.
Context (sv : redisServer) (ci : cronInput).

(** ** MEET *)

(** The two ports are [long long], and [int] for [clusterStartHandshake]. *)
Definition meet_with (a p_port : bytes) (port cport : Z) : cl reply :=
  r ← clusterStartHandshake sv ci (c_str a) (swrap 32 port) (swrap 32 cport);
  match r with
  | HandshakeInval => err "Invalid node address specified: %s:%s" [AStr a; AStr p_port]
  | _ => mret ReplyOk
  end.

Definition cluster_meet (a p_port : bytes) (bus : option bytes) : cl reply :=
  r ← getLongLongFromObject p_port;
  match r with
  | None => err "Invalid TCP base port specified: %s" [AStr p_port]
  | Some port =>
      match bus with
      | Some b =>
          r ← getLongLongFromObject b;
          match r with
          | None => err "Invalid TCP bus port specified: %s" [AStr b]
          | Some cport => meet_with a p_port port cport
          end
      | None =>
          if port + CLUSTER_PORT_INCR >? LLONG_MAX then fun _ => None
          else meet_with a p_port port (port + CLUSTER_PORT_INCR)
      end
  end.

(** ** Slots *)

Definition cluster_flushslots : cl reply :=
  if negb (ci_db0_size ci =? 0) then err "DB must be empty to perform CLUSTER FLUSHSLOTS." []
  else
    s ← getS;
    clusterDelNodeSlots (cs_myself s);;
    clusterDoBeforeSleep (Z.lor CLUSTER_TODO_UPDATE_STATE CLUSTER_TODO_SAVE_CONFIG);;
    mret ReplyOk.

(** The first loop of ADDSLOTS and DELSLOTS: the slots, or an error. *)
Fixpoint parse_slots (del : bool) (args : list bytes) (seen : list Z) : cl (reply + list Z) :=
  match args with
  | [] => mret (inr seen)
  | a :: args =>
      r ← getSlotOrReply a;
      match r with
      | None => mret (inl INVALID_SLOT)
      | Some slot =>
          s ← getS;
          let assigned := negb (bool_decide (cs_slots s !! slot = None)) in
          if del && negb assigned then mret (inl (ReplyError "Slot %d is already unassigned" [AInt slot]))
          else if negb del && assigned then mret (inl (ReplyError "Slot %d is already busy" [AInt slot]))
          else if bool_decide (slot ∈ seen) then mret (inl (ReplyError "Slot %d specified multiple times" [AInt slot]))
          else parse_slots del args (slot :: seen)
      end
  end.

(** The second loop. *)
Definition change_slot (del : bool) (slots : list Z) (j : Z) : cl unit :=
  when (bool_decide (j ∈ slots)) (
    modify (fun s => s <| cs_importing_slots_from := delete j (cs_importing_slots_from s) |>);;
    s ← getS;
    retval ← (if del then clusterDelSlot j else clusterAddSlot (cs_myself s) j);
    serverAssert retval).

Definition cluster_addslots (del : bool) (args : list bytes) : cl reply :=
  r ← parse_slots del args [];
  match r with
  | inl e => mret e
  | inr slots =>
      for_each slot_range (change_slot del slots);;
      clusterDoBeforeSleep (Z.lor CLUSTER_TODO_UPDATE_STATE CLUSTER_TODO_SAVE_CONFIG);;
      mret ReplyOk
  end.

(** SETSLOT slot NODE: [None] is no error. *)
Definition setslot_node (slot : Z) (a : bytes) : cl (option reply) :=
  r ← lookup_arg a;
  match r with
  | None => mret (Some (ReplyError "Unknown node %s" [AStr a]))
  | Some n =>
      s ← getS;
      if bool_decide (cs_slots s !! slot = Some (cs_myself s)) && negb (n =? cs_myself s) && negb (sv_countKeysInSlot sv slot =? 0) then
        mret (Some (ReplyError "Can't assign hashslot %d to a different node while I still hold keys for this hash slot." [AInt slot]))
      else
        when (sv_countKeysInSlot sv slot =? 0)
          (modify (fun s => s <| cs_migrating_slots_to := delete slot (cs_migrating_slots_to s) |>));;
        clusterDelSlot slot;;
        clusterAddSlot n slot;;
        s ← getS;
        when ((n =? cs_myself s) && negb (bool_decide (cs_importing_slots_from s !! slot = None))) (
          clusterBumpConfigEpochWithoutConsensus;;
          modify (fun s => s <| cs_importing_slots_from := delete slot (cs_importing_slots_from s) |>);;
          clusterBroadcastPong sv CLUSTER_BROADCAST_ALL);;
        mret None
  end.

(** SETSLOT slot MIGRATING and IMPORTING. *)
Definition setslot_migrating (slot : Z) (a : bytes) : cl (option reply) :=
  s ← getS;
  if negb (bool_decide (cs_slots s !! slot = Some (cs_myself s))) then mret (Some (ReplyError "I'm not the owner of hash slot %u" [AInt slot]))
  else
    r ← lookup_arg a;
    match r with
    | None => mret (Some (ReplyError "I don't know about node %s" [AStr a]))
    | Some n => modify (fun s => s <| cs_migrating_slots_to := <[slot := n]> (cs_migrating_slots_to s) |>);; mret None
    end.

Definition setslot_importing (slot : Z) (a : bytes) : cl (option reply) :=
  s ← getS;
  if bool_decide (cs_slots s !! slot = Some (cs_myself s)) then mret (Some (ReplyError "I'm already the owner of hash slot %u" [AInt slot]))
  else
    r ← lookup_arg a;
    match r with
    | None => mret (Some (ReplyError "I don't know about node %s" [AStr a]))
    | Some n => modify (fun s => s <| cs_importing_slots_from := <[slot := n]> (cs_importing_slots_from s) |>);; mret None
    end.

Definition setslot_stable (slot : Z) : cl (option reply) :=
  modify (fun s => s <| cs_importing_slots_from := delete slot (cs_importing_slots_from s) |>
                     <| cs_migrating_slots_to := delete slot (cs_migrating_slots_to s) |>);;
  mret None.

Definition setslot_action (slot : Z) (args : list bytes) : cl (option reply) :=
  match args with
  | [action; a] =>
      if arg_is action "migrating" then setslot_migrating slot a
      else if arg_is action "importing" then setslot_importing slot a
      else if arg_is action "node" then setslot_node slot a
      else mret (Some (ReplyError "Invalid CLUSTER SETSLOT action or number of arguments. Try CLUSTER HELP" []))
  | [action] =>
      if arg_is action "stable" then setslot_stable slot
      else mret (Some (ReplyError "Invalid CLUSTER SETSLOT action or number of arguments. Try CLUSTER HELP" []))
  | _ => mret (Some (ReplyError "Invalid CLUSTER SETSLOT action or number of arguments. Try CLUSTER HELP" []))
  end.

Definition cluster_setslot (a : bytes) (args : list bytes) : cl reply :=
  s ← getS;
  me ← deref (cs_myself s);
  if nodeIsSlave me then err "Please use SETSLOT only with masters." []
  else
    r ← getSlotOrReply a;
    match r with
    | None => mret INVALID_SLOT
    | Some slot =>
        e ← setslot_action slot args;
        match e with
        | Some e => mret e
        | None =>
            clusterDoBeforeSleep (Z.lor CLUSTER_TODO_SAVE_CONFIG CLUSTER_TODO_UPDATE_STATE);;
            mret ReplyOk
        end
    end.

(** The loop of [clusterReplyMultiBulkSlots] from slot [i]: [n] owns the slots
    from [start], and [l] has the owners of the slots from [i]. *)
Fixpoint slot_ranges (l : list (option ptr)) (i : Z) (n : option ptr) (start : Z) : list (Z * Z * ptr) :=
  match n, l with
  | None, [] => []
  | None, o :: l => slot_ranges l (i + 1) o i
  | Some n, [] => [(start, i - 1, n)]
  | Some n, o :: l =>
      if bool_decide (o = Some n) then slot_ranges l (i + 1) (Some n) start
      else (start, i - 1, n) :: slot_ranges l (i + 1) o i
  end.

Definition owners (s : clusterState) : list (option ptr) := (fun j => cs_slots s !! j) <$> slot_range.

Definition entry (use_pport : bool) (n : clusterNode) : node_entry :=
  (ip (cn_addr n), if use_pport && negb (pport (cn_addr n) =? 0) then pport (cn_addr n) else port (cn_addr n), cn_name n).

Definition addNodeReplyForClusterSlot (use_pport : bool) (p : ptr) : cl (list node_entry) :=
  n ← deref p;
  slaves ← fold_each (cn_slaves n) [] (fun l q =>
    m ← deref q; mret (if nodeFailed m then l else l ++ [entry use_pport m]));
  mret (entry use_pport n :: slaves).

Definition clusterReplyMultiBulkSlots (use_pport : bool) : cl (list (Z * Z * list node_entry)) :=
  s ← getS;
  fold_each (slot_ranges (owners s) 0 None (-1)) [] (fun l r =>
    nodes ← addNodeReplyForClusterSlot use_pport r.2;
    mret (l ++ [(r.1.1, r.1.2, nodes)])).

(** ** Nodes *)

Definition cluster_bumpepoch : cl reply :=
  b ← clusterBumpConfigEpochWithoutConsensus;
  s ← getS;
  me ← deref (cs_myself s);
  mret (ReplyEpoch b (cn_configEpoch me)).

(** The slots of the nodes that are fine, in PFAIL and in FAIL. *)
Definition count_states : cl (Z * Z * Z) :=
  s ← getS;
  fold_each slot_range (0, 0, 0) (fun '(ok, pfail, fail) j =>
    match cs_slots s !! j with
    | None => mret (ok, pfail, fail)
    | Some p =>
        n ← deref p;
        mret (if nodeFailed n then (ok, pfail, fail + 1) else if nodeTimedOut n then (ok, pfail + 1, fail) else (ok + 1, pfail, fail))
    end).

Definition cluster_info : cl reply :=
  c ← count_states;
  let '(ok, pfail, fail) := c in
  s ← getS;
  me ← deref (cs_myself s);
  m ← match cn_slaveof me with
      | Some q => if nodeIsSlave me then deref q else mret me
      | None => mret me
      end;
  mret (ReplyInfo (cs_state s) (ok + pfail + fail) ok pfail fail (Z.of_nat (size (cs_nodes s))) (cs_size s) (cs_currentEpoch s) (cn_configEpoch m)).

Definition cluster_countkeysinslot (a : bytes) : cl reply :=
  r ← getLongLongFromObject a;
  match r with
  | None => mret NOT_INTEGER
  | Some slot => if (slot <? 0) || (slot >=? CLUSTER_SLOTS) then err "Invalid slot" [] else mret (ReplyInt (sv_countKeysInSlot sv slot))
  end.

Definition cluster_getkeysinslot (a b : bytes) : cl reply :=
  r ← getLongLongFromObject a;
  match r with
  | None => mret NOT_INTEGER
  | Some slot =>
      r ← getLongLongFromObject b;
      match r with
      | None => mret NOT_INTEGER
      | Some maxkeys =>
          if (slot <? 0) || (slot >=? CLUSTER_SLOTS) || (maxkeys <? 0) then err "Invalid slot or number of keys" []
          else mret (ReplyReport (KeysInSlot slot (if maxkeys >? sv_countKeysInSlot sv slot then sv_countKeysInSlot sv slot else maxkeys)))
      end
  end.

Definition cluster_forget (a : bytes) : cl reply :=
  r ← lookup_arg a;
  match r with
  | None => err "Unknown node %s" [AStr a]
  | Some p =>
      s ← getS;
      me ← deref (cs_myself s);
      if p =? cs_myself s then err "I tried hard but I can't forget myself..." []
      else if nodeIsSlave me && bool_decide (cn_slaveof me = Some p) then err "Can't forget my master!" []
      else
        clusterBlacklistAddNode sv p;;
        clusterDelNode sv p;;
        clusterDoBeforeSleep (Z.lor CLUSTER_TODO_UPDATE_STATE CLUSTER_TODO_SAVE_CONFIG);;
        mret ReplyOk
  end.

Definition cluster_replicate (a : bytes) : cl reply :=
  r ← lookup_arg a;
  match r with
  | None => err "Unknown node %s" [AStr a]
  | Some p =>
      s ← getS;
      n ← deref p;
      me ← deref (cs_myself s);
      if p =? cs_myself s then err "Can't replicate myself" []
      else if nodeIsSlave n then err "I can only replicate a master, not a replica." []
      else if nodeIsMaster me && (negb (cn_numslots me =? 0) || negb (ci_db0_size ci =? 0)) then
        err "To set a master the node must be empty and without assigned slots." []
      else
        clusterSetMaster p;;
        clusterDoBeforeSleep (Z.lor CLUSTER_TODO_UPDATE_STATE CLUSTER_TODO_SAVE_CONFIG);;
        mret ReplyOk
  end.

Definition cluster_slaves (a : bytes) : cl reply :=
  r ← lookup_arg a;
  match r with
  | None => err "Unknown node %s" [AStr a]
  | Some p =>
      n ← deref p;
      if nodeIsSlave n then err "The specified node is not a master" [] else mret (ReplyReport (Replicas p))
  end.

Definition cluster_count_failure_reports (a : bytes) : cl reply :=
  r ← lookup_arg a;
  match r with
  | None => err "Unknown node %s" [AStr a]
  | Some p => k ← clusterNodeFailureReportsCount sv p; mret (ReplyInt k)
  end.

(** ** FAILOVER, SET-CONFIG-EPOCH and RESET *)

Definition start_manual_failover (force takeover : bool) (master : ptr) : cl unit :=
  resetManualFailover;;
  modify (fun s => s <| cs_mf_end := sv_mstime sv + CLUSTER_MF_TIMEOUT |>);;
  if takeover then clusterBumpConfigEpochWithoutConsensus;; clusterFailoverReplaceYourMaster sv
  else if force then modify (fun s => s <| cs_mf_can_start := true |>)
  else clusterSendMFStart sv master.

Definition failover_with (force takeover : bool) : cl reply :=
  s ← getS;
  me ← deref (cs_myself s);
  if nodeIsMaster me then err "You should send CLUSTER FAILOVER to a replica" []
  else match cn_slaveof me with
  | None => err "I'm a replica but my master is unknown to me" []
  | Some q =>
      m ← deref q;
      if negb force && (nodeFailed m || negb (linked m)) then err "Master is down or failed, please use CLUSTER FAILOVER FORCE" []
      else start_manual_failover force takeover q;; mret ReplyOk
  end.

Definition cluster_failover (arg : option bytes) : cl reply :=
  match arg with
  | None => failover_with false false
  | Some a =>
      if arg_is a "force" then failover_with true false
      else if arg_is a "takeover" then failover_with true true
      else mret ReplySyntaxError
  end.

Definition cluster_set_config_epoch (a : bytes) : cl reply :=
  r ← getLongLongFromObject a;
  match r with
  | None => mret NOT_INTEGER
  | Some epoch =>
      s ← getS;
      me ← deref (cs_myself s);
      if epoch <? 0 then err "Invalid config epoch specified: %lld" [AInt epoch]
      else if (1 <? size (cs_nodes s))%nat then
        err "The user can assign a config epoch only when the node does not know any other node." []
      else if negb (cn_configEpoch me =? 0) then err "Node config epoch is already non-zero" []
      else
        update (cs_myself s) (fun n => n <| cn_configEpoch := epoch |>);;
        modify (fun s => if cs_currentEpoch s <? epoch then s <| cs_currentEpoch := epoch |> else s);;
        clusterDoBeforeSleep (Z.lor CLUSTER_TODO_UPDATE_STATE CLUSTER_TODO_SAVE_CONFIG);;
        mret ReplyOk
  end.

Definition reset_with (hard : bool) : cl reply :=
  s ← getS;
  me ← deref (cs_myself s);
  if nodeIsMaster me && negb (ci_db0_size ci =? 0) then err "CLUSTER RESET can't be called with master nodes containing keys" []
  else clusterReset sv hard;; mret ReplyOk.

Definition cluster_reset (arg : option bytes) : cl reply :=
  match arg with
  | None => reset_with false
  | Some a =>
      if arg_is a "hard" then reset_with true
      else if arg_is a "soft" then reset_with false
      else mret ReplySyntaxError
  end.

(** ** Dispatch *)

(** The number of arguments is part of the test of every subcommand. [use_pport]
    tells whether the client speaks plain TCP to a TLS cluster. *)
Definition command_0 (use_pport : bool) (sub : bytes) : cl reply :=
  if arg_is sub "help" then mret (ReplyReport Help)
  else if arg_is sub "nodes" then mret (ReplyReport Nodes)
  else if arg_is sub "myid" then s ← getS; me ← deref (cs_myself s); mret (ReplyBulk (cn_name me))
  else if arg_is sub "slots" then l ← clusterReplyMultiBulkSlots use_pport; mret (ReplySlots l)
  else if arg_is sub "flushslots" then cluster_flushslots
  else if arg_is sub "bumpepoch" then cluster_bumpepoch
  else if arg_is sub "info" then cluster_info
  else if arg_is sub "saveconfig" then emit SaveConfig;; mret (ReplyReport SaveConfigResult)
  else if arg_is sub "failover" then cluster_failover None
  else if arg_is sub "reset" then cluster_reset None
  else mret ReplySubcommandSyntaxError.

Definition command_1 (sub a : bytes) : cl reply :=
  if arg_is sub "keyslot" then slot ← lift (keyHashSlot a (zlen a)); mret (ReplyInt slot)
  else if arg_is sub "countkeysinslot" then cluster_countkeysinslot a
  else if arg_is sub "forget" then cluster_forget a
  else if arg_is sub "replicate" then cluster_replicate a
  else if arg_is sub "slaves" || arg_is sub "replicas" then cluster_slaves a
  else if arg_is sub "count-failure-reports" then cluster_count_failure_reports a
  else if arg_is sub "failover" then cluster_failover (Some a)
  else if arg_is sub "set-config-epoch" then cluster_set_config_epoch a
  else if arg_is sub "reset" then cluster_reset (Some a)
  else mret ReplySubcommandSyntaxError.

(** [argv] without the name of the command. *)
Definition clusterCommand (use_pport : bool) (argv : list bytes) : cl reply :=
  match argv with
  | [] => mret ReplySubcommandSyntaxError
  | [sub] => command_0 use_pport sub
  | sub :: args =>
      if arg_is sub "addslots" then cluster_addslots false args
      else if arg_is sub "delslots" then cluster_addslots true args
      else match args with
      | [a] => command_1 sub a
      | a :: b :: rest =>
          if arg_is sub "meet" && (length rest <=? 1)%nat then cluster_meet a b (head rest)
          else if arg_is sub "setslot" then cluster_setslot a (b :: rest)
          else if arg_is sub "getkeysinslot" && (length rest =? 0)%nat then cluster_getkeysinslot a b
          else mret ReplySubcommandSyntaxError
      | [] => mret ReplySubcommandSyntaxError
      end
  end.

End Command.
