(* ===== verification/ClusterInv.v ===== *)
(** The invariant of the cluster state: the dict of the nodes, the owners of the
    slots and their bitmaps, the lists of replicas and of failure reports agree,
    and no pointer dangles. A small program logic for the handlers of
    [Cluster.v], and the proof that each of them keeps the invariant and does
    not fail an assertion. *)
From stdpp Require Import gmap.
From S2P Require Import Prelude Sds Replication Cluster.

(** ** Program logic

    [wp t m Q s]: run from [s], [m] ends with a result and a state in [Q]; when
    [t] does not hold, it may also fail. *)

Section wp.
Context (t : Prop).

Definition wp {A} (m : cl A) (Q : A -> clusterState -> Prop) (s : clusterState) : Prop :=
  match m s with
  | Some (a, s', _) => Q a s'
  | None => ~ t
  end.

Lemma wp_mono {A} (m : cl A) (Q Q' : A -> clusterState -> Prop) s :
  wp m Q s -> (forall a s', Q a s' -> Q' a s') -> wp m Q' s.
Proof. unfold wp. destruct (m s) as [[[a s'] e]|]; auto. Qed.

Lemma wp_bind {A B} (m : cl A) (f : A -> cl B) Q s :
  wp m (fun a s' => wp (f a) Q s') s -> wp (m ≫= f) Q s.
Proof.
  unfold wp, mbind, cl_bind. destruct (m s) as [[[a s'] e]|]; [|done].
  by destruct (f a s') as [[[b s''] e']|].
Qed.

Lemma wp_bind_inv {A B} (m : cl A) (f : A -> cl B) Q s :
  wp (m ≫= f) Q s -> wp m (fun a s' => wp (f a) Q s') s.
Proof.
  unfold wp, mbind, cl_bind. destruct (m s) as [[[a s'] e]|]; [|done].
  by destruct (f a s') as [[[b s''] e']|].
Qed.

Lemma wp_ret {A} (a : A) (Q : A -> clusterState -> Prop) s : Q a s -> wp (mret a) Q s.
Proof. done. Qed.

Lemma wp_getS (Q : clusterState -> clusterState -> Prop) s : Q s s -> wp getS Q s.
Proof. done. Qed.

Lemma wp_modify f (Q : unit -> clusterState -> Prop) s : Q tt (f s) -> wp (modify f) Q s.
Proof. done. Qed.

Lemma wp_emit e (Q : unit -> clusterState -> Prop) s : Q tt s -> wp (emit e) Q s.
Proof. done. Qed.

Lemma wp_assert (b : bool) (Q : unit -> clusterState -> Prop) s :
  (t -> b = true) -> (b = true -> Q tt s) -> wp (serverAssert b) Q s.
Proof. unfold wp, serverAssert. destruct b; [auto|]. intros Ht _ ?. by apply Ht in H. Qed.

Lemma wp_fail {A} (Q : A -> clusterState -> Prop) s : ~ t -> wp (fun _ => None) Q s.
Proof. done. Qed.

Lemma wp_deref p (Q : clusterNode -> clusterState -> Prop) s :
  (t -> is_Some (cs_heap s !! p)) -> (forall n, cs_heap s !! p = Some n -> Q n s) -> wp (deref p) Q s.
Proof.
  unfold wp, deref. destruct (cs_heap s !! p) as [n|]; cbn; [auto|].
  intros Ht _ ?. by apply Ht in H as [? [=]].
Qed.

Lemma wp_update p f (Q : unit -> clusterState -> Prop) s :
  (t -> is_Some (cs_heap s !! p)) ->
  (forall n, cs_heap s !! p = Some n -> Q tt (s <| cs_heap := <[p := f n]> (cs_heap s) |>)) -> wp (update p f) Q s.
Proof.
  unfold wp, update. destruct (cs_heap s !! p) as [n|]; cbn; [auto|].
  intros Ht _ ?. by apply Ht in H as [? [=]].
Qed.

Lemma wp_when (b : bool) m (Q : unit -> clusterState -> Prop) s :
  (b = true -> wp m Q s) -> (b = false -> Q tt s) -> wp (when b m) Q s.
Proof. unfold when. destruct b; intros; [auto|apply wp_ret; auto]. Qed.

Lemma wp_for_each {A} (l : list A) body (I : clusterState -> Prop) s :
  I s -> (forall x s, x ∈ l -> I s -> wp (body x) (fun _ s' => I s') s) -> wp (for_each l body) (fun _ s' => I s') s.
Proof.
  revert s. induction l as [|x l IH]; intros s Hs Hb; cbn [for_each]; [by apply wp_ret|].
  apply wp_bind. eapply wp_mono; [apply Hb; [set_solver|done]|]. intros a s' Hs'.
  apply IH; [done|]. intros. apply Hb; [set_solver|done].
Qed.

Lemma wp_fold_each {A B} (l : list A) (b : B) body (I : B -> clusterState -> Prop) s :
  I b s -> (forall x b s, x ∈ l -> I b s -> wp (body b x) (fun b s' => I b s') s) ->
  wp (fold_each l b body) (fun b s' => I b s') s.
Proof.
  revert b s. induction l as [|x l IH]; intros b s Hs Hb; cbn [fold_each]; [by apply wp_ret|].
  apply wp_bind. eapply wp_mono; [apply Hb; [set_solver|done]|]. intros b' s' Hs'.
  apply IH; [done|]. intros. apply Hb; [set_solver|done].
Qed.

End wp.

(** Step through the primitives of the monad; stops at a call. *)
Ltac wp_step :=
  lazymatch goal with
  | |- wp _ (_ ≫= _) _ _ => apply wp_bind
  | |- wp _ (mret _) _ _ => apply wp_ret
  | |- wp _ getS _ _ => apply wp_getS
  | |- wp _ (modify _) _ _ => apply wp_modify
  | |- wp _ (emit _) _ _ => apply wp_emit
  | |- wp _ (clusterDoBeforeSleep _) _ _ => apply wp_modify
  | |- wp _ (when _ _) _ _ => apply wp_when; intros ?
  | |- wp _ (deref _) _ _ => apply wp_deref; [|intros ? ?]
  | |- wp _ (update _ _) _ _ => apply wp_update; [|intros ? ?]
  | |- wp _ (serverAssert _) _ _ => apply wp_assert; [|intros ?]
  | |- wp _ (if ?b then _ else _) _ _ => destruct b eqn:?
  end.

(** ** The invariant *)

(** The number of slots of a bitmap. *)
Definition count_slots (bitmap : Z) : Z := zlen (filter (fun j => Z.testbit bitmap j = true) slot_range).

(** [wf_dict]: the dict and the heap hold the same nodes, under their names.
    [wf_slots], [wf_count]: a slot is owned by the node whose bitmap has it, and
    [numslots] counts the bitmap. [wf_repl]: the replicas of a node are the
    nodes that have it as a master. [wf_hs]: a node in handshake takes part in no
    replication and owns no slot. *)
Record wf (s : clusterState) : Prop := {
  wf_next : forall p n, cs_heap s !! p = Some n -> p < cs_next s;
  wf_dict : forall nm p, cs_nodes s !! nm = Some p <-> exists n, cs_heap s !! p = Some n /\ cn_name n = nm;
  wf_me : exists me, cs_heap s !! cs_myself s = Some me /\ nodeInHandshake me = false /\
          (nodeIsMaster me = true /\ cn_slaveof me = None \/
           nodeIsMaster me = false /\ nodeIsSlave me = true /\ cn_numslots me = 0);
  wf_slots : forall j p, cs_slots s !! j = Some p <->
             0 <= j < CLUSTER_SLOTS /\ exists n, cs_heap s !! p = Some n /\ Z.testbit (cn_slots n) j = true;
  wf_count : forall p n, cs_heap s !! p = Some n -> cn_numslots n = count_slots (cn_slots n);
  wf_repl : forall p q, (exists m, cs_heap s !! q = Some m /\ p ∈ cn_slaves m) <->
                        (exists n, cs_heap s !! p = Some n /\ cn_slaveof n = Some q);
  wf_nodup : forall p n, cs_heap s !! p = Some n -> NoDup (cn_slaves n);
  wf_hs : forall p n, cs_heap s !! p = Some n -> nodeInHandshake n = true ->
          cn_slaveof n = None /\ cn_slaves n = [] /\ cn_numslots n = 0;
  wf_reports : forall p n, cs_heap s !! p = Some n ->
               NoDup (cn_fail_reports n).*1 /\ forall q, q ∈ (cn_fail_reports n).*1 -> is_Some (cs_heap s !! q);
  wf_open : forall j p, cs_importing_slots_from s !! j = Some p \/ cs_migrating_slots_to s !! j = Some p ->
            0 <= j < CLUSTER_SLOTS /\ is_Some (cs_heap s !! p)
}.

(** What the invariant sees of a node, and the states it does not tell apart. *)
Definition view (n : clusterNode) :=
  (cn_name n, (nodeInHandshake n, nodeIsMaster n, nodeIsSlave n), (cn_slots n, cn_numslots n),
   (cn_slaves n, cn_slaveof n), cn_fail_reports n).

Record sim (s s' : clusterState) : Prop := {
  sim_myself : cs_myself s' = cs_myself s;
  sim_nodes : cs_nodes s' = cs_nodes s;
  sim_slots : cs_slots s' = cs_slots s;
  sim_importing : cs_importing_slots_from s' = cs_importing_slots_from s;
  sim_migrating : cs_migrating_slots_to s' = cs_migrating_slots_to s;
  sim_next : cs_next s' = cs_next s;
  sim_heap : forall p, view <$> cs_heap s' !! p = view <$> cs_heap s !! p
}.

#[global] Instance sim_equiv : Equivalence sim.
Proof.
  split.
  - intros s. by split.
  - intros s s' []. by split.
  - intros s1 s2 s3 [] []. split; congruence.
Qed.

Lemma sim_lookup s s' p n : sim s s' -> cs_heap s !! p = Some n -> exists n', cs_heap s' !! p = Some n' /\ view n' = view n.
Proof.
  intros H Hp. pose proof (sim_heap _ _ H p) as E. rewrite Hp in E.
  destruct (cs_heap s' !! p) as [n'|]; [|done]. exists n'. split; [done|]. exact (Some_inj _ _ E).
Qed.

Lemma sim_is_Some s s' p : sim s s' -> is_Some (cs_heap s' !! p) <-> is_Some (cs_heap s !! p).
Proof. intros H. rewrite <- !(fmap_is_Some view). by rewrite (sim_heap _ _ H). Qed.

Lemma view_eq n n' : view n' = view n ->
  cn_name n' = cn_name n /\ nodeInHandshake n' = nodeInHandshake n /\ nodeIsMaster n' = nodeIsMaster n /\
  nodeIsSlave n' = nodeIsSlave n /\ cn_slots n' = cn_slots n /\ cn_numslots n' = cn_numslots n /\
  cn_slaves n' = cn_slaves n /\ cn_slaveof n' = cn_slaveof n /\ cn_fail_reports n' = cn_fail_reports n.
Proof. intros [=]. by repeat split. Qed.

(** A property of a node that only depends on what the invariant sees. *)
Lemma sim_node (P : clusterNode -> Prop) s s' p :
  (forall n n', view n' = view n -> P n -> P n') -> sim s s' ->
  (exists n, cs_heap s' !! p = Some n /\ P n) <-> (exists n, cs_heap s !! p = Some n /\ P n).
Proof.
  intros HP H. split; intros (n & Hn & Pn).
  - destruct (sim_lookup s' s p n) as (n' & ? & ?); [by symmetry|done|]. eauto.
  - destruct (sim_lookup s s' p n) as (n' & ? & ?); [done|done|]. eauto.
Qed.

Ltac view_tac := let E := fresh in intros ? ? E; apply view_eq in E; intuition congruence.

Lemma wf_sim s s' : sim s s' -> wf s -> wf s'.
Proof.
  intros H Hw.
  assert (back : forall p n', cs_heap s' !! p = Some n' -> exists n, cs_heap s !! p = Some n /\ view n = view n').
  { intros p n'. apply sim_lookup. by symmetry. }
  split.
  - intros p n' (n & Hn & _)%back. rewrite (sim_next _ _ H). by eapply wf_next.
  - intros nm p. rewrite (sim_nodes _ _ H), (wf_dict s Hw). symmetry. apply sim_node; [view_tac|done].
  - rewrite (sim_myself _ _ H). apply (sim_node (fun me => _ /\ _) s); [view_tac|done|]. by apply wf_me.
  - intros j p. rewrite (sim_slots _ _ H), (wf_slots s Hw). f_equiv. symmetry. apply sim_node; [view_tac|done].
  - intros p n' (n & Hn & E)%back. apply view_eq in E as (_ & _ & _ & _ & <- & <- & _). by eapply wf_count.
  - intros p q. etrans; [apply (sim_node (fun m => p ∈ cn_slaves m) s); [view_tac|done]|].
    rewrite (wf_repl s Hw). symmetry. apply sim_node; [view_tac|done].
  - intros p n' (n & Hn & E)%back. apply view_eq in E as (_ & _ & _ & _ & _ & _ & <- & _). by eapply wf_nodup.
  - intros p n' (n & Hn & E)%back. apply view_eq in E as (_ & <- & _ & _ & _ & <- & <- & <- & _). by eapply wf_hs.
  - intros p n' (n & Hn & E)%back. apply view_eq in E as (_ & _ & _ & _ & _ & _ & _ & _ & <-).
    destruct (wf_reports s Hw p n Hn). split; [done|]. intros. rewrite (sim_is_Some s); auto.
  - intros j p. rewrite (sim_importing _ _ H), (sim_migrating _ _ H), (sim_is_Some s) by done. apply wf_open, Hw.
Qed.

#[global] Instance wf_proper : Proper (sim ==> iff) wf.
Proof. intros s s' H. split; apply wf_sim; [done|by symmetry]. Qed.

(** ** What most of the operations keep

    The names and the nodes stay; a node in handshake stays one. *)

Definition valid (s : clusterState) (p : ptr) : Prop := is_Some (cs_heap s !! p).

Definition ident (n : clusterNode) := (cn_name n, nodeInHandshake n).

Record same (s s' : clusterState) : Prop := {
  same_myself : cs_myself s' = cs_myself s;
  same_nodes : cs_nodes s' = cs_nodes s;
  same_ident : forall p, ident <$> cs_heap s' !! p = ident <$> cs_heap s !! p
}.

#[global] Instance same_equiv : Equivalence same.
Proof. split; [by split|by intros ? ? []|by intros ? ? ? [] []; split; congruence]. Qed.

Lemma sim_same s s' : sim s s' -> same s s'.
Proof.
  intros H. split; [apply H|apply H|]. intros p. pose proof (sim_heap _ _ H p) as E.
  destruct (cs_heap s' !! p), (cs_heap s !! p); try done. apply Some_inj, view_eq in E as (E1 & E2 & _).
  cbn. unfold ident. congruence.
Qed.

Lemma same_valid s s' p : same s s' -> valid s' p <-> valid s p.
Proof. intros H. unfold valid. rewrite <- !(fmap_is_Some ident). by rewrite (same_ident _ _ H). Qed.

Lemma same_lookup s s' p n : same s s' -> cs_heap s !! p = Some n ->
  exists n', cs_heap s' !! p = Some n' /\ cn_name n' = cn_name n /\ nodeInHandshake n' = nodeInHandshake n.
Proof.
  intros H Hp. pose proof (same_ident _ _ H p) as E. rewrite Hp in E.
  destruct (cs_heap s' !! p) as [n'|]; [|done]. exists n'. split; [done|]. by injection E.
Qed.

(** Nodes may be added. *)
Record grow (s s' : clusterState) : Prop := {
  grow_myself : cs_myself s' = cs_myself s;
  grow_ident : forall p n, cs_heap s !! p = Some n -> exists n', cs_heap s' !! p = Some n' /\ ident n' = ident n
}.

Lemma same_grow s s' : same s s' -> grow s s'.
Proof.
  intros H. split; [apply H|]. intros p n Hn. destruct (same_lookup _ _ _ _ H Hn) as (n' & ? & ? & ?).
  exists n'. split; [done|]. unfold ident. congruence.
Qed.

#[global] Instance grow_trans : Transitive grow.
Proof.
  intros s1 s2 s3 [E1 H1] [E2 H2]. split; [congruence|]. intros p n Hn. destruct (H1 p n Hn) as (n2 & Hn2 & <-). eauto.
Qed.

(** [inv R s s']: the invariant holds of the new state, and it relates to the
    old one by [R], between [sim] and [grow]. *)
Definition inv (R : relation clusterState) (s s' : clusterState) : Prop := wf s' /\ R s s'.

Class Keep (R : relation clusterState) := {
  keep_trans : Transitive R;
  keep_sim : forall s s', sim s s' -> R s s';
  keep_grow : forall s s', R s s' -> grow s s'
}.
#[global] Instance keep_sim_sim : Keep sim.
Proof. split; [apply _|done|]. intros. by apply same_grow, sim_same. Qed.
#[global] Instance keep_same_same : Keep same.
Proof. split; [apply _|apply sim_same|apply same_grow]. Qed.
#[global] Instance keep_grow_grow : Keep grow.
Proof. split; [apply _| |done]. intros. by apply same_grow, sim_same. Qed.

Lemma inv_refl R `{Keep R} s : wf s -> inv R s s.
Proof. intros. split; [done|]. by apply keep_sim. Qed.
Lemma inv_trans R `{Keep R} s1 s2 s3 : inv R s1 s2 -> inv R s2 s3 -> inv R s1 s3.
Proof. intros [_ H1] [Hw H2]. split; [done|]. by eapply keep_trans. Qed.
Lemma inv_of_sim R `{Keep R} s s' : inv sim s s' -> inv R s s'.
Proof. intros [Hw ?]. split; [done|]. by apply keep_sim. Qed.
Lemma inv_same_grow s s' : inv same s s' -> inv grow s s'.
Proof. intros [Hw ?]. split; [done|]. by apply same_grow. Qed.
Lemma inv_valid R `{Keep R} s s' p : inv R s s' -> valid s p -> valid s' p.
Proof. intros [_ H1] [n Hn]. apply keep_grow in H1 as [_ H1]. destruct (H1 p n Hn) as (n' & ? & _). by exists n'. Qed.
Lemma inv_wf R s s' : inv R s s' -> wf s'.
Proof. by intros []. Qed.
Lemma inv_sim s s' : wf s -> sim s s' -> inv sim s s'.
Proof. intros Hw H. split; [by rewrite <- H|done]. Qed.

Lemma lookup_valid s p n : cs_heap s !! p = Some n -> valid s p.
Proof. intros H. by exists n. Qed.

Lemma wf_myself s : wf s -> valid s (cs_myself s).
Proof. intros H. destruct (wf_me s H) as (me & ? & _). by exists me. Qed.

Lemma wf_node_ptrs s p : wf s -> p ∈ node_ptrs s -> valid s p.
Proof.
  intros H ((nm, q) & -> & Hq)%list_elem_of_fmap. apply elem_of_map_to_list in Hq.
  apply (wf_dict s H) in Hq as (n & Hn & _). by exists n.
Qed.

Lemma wf_lookup_node s nm p : wf s -> cs_nodes s !! nm = Some p -> valid s p.
Proof. intros H (n & Hn & _)%(wf_dict s H). by exists n. Qed.

Lemma wf_slaveof s p n q : wf s -> cs_heap s !! p = Some n -> cn_slaveof n = Some q -> valid s q.
Proof. intros H Hn Hq. destruct (proj2 (wf_repl s H p q)) as (m & ? & _); [by eauto|]. by exists m. Qed.

Lemma wf_slaves s q m p : wf s -> cs_heap s !! q = Some m -> p ∈ cn_slaves m -> valid s p.
Proof. intros H Hn Hq. destruct (proj1 (wf_repl s H p q)) as (n & ? & _); [by eauto|]. by exists n. Qed.

Lemma wf_owner s j p : wf s -> cs_slots s !! j = Some p -> valid s p.
Proof. intros H (_ & n & ? & _)%(wf_slots s H). by exists n. Qed.

(** Flags. *)
Lemma has_set_flag f n g : has (set_flag f n) g = has n g || negb (Z.land f g =? 0).
Proof.
  unfold has, set_flag. cbn. rewrite Z.land_lor_distr_l.
  destruct (Z.eqb_spec (Z.land (cn_flags n) g) 0) as [->|Hn]; cbn; [by rewrite Z.lor_0_l|].
  destruct (Z.eqb_spec (Z.lor (Z.land (cn_flags n) g) (Z.land f g)) 0) as [E|]; [|done].
  apply Z.lor_eq_0_iff in E. lia.
Qed.

Lemma has_clear_flag f n g : Z.land f g = 0 -> has (clear_flag f n) g = has n g.
Proof.
  intros E. unfold has, clear_flag. cbn. do 2 f_equal. apply Z.bits_inj'. intros i Hi.
  rewrite !Z.land_spec, Z.ldiff_spec. apply (f_equal (fun z => Z.testbit z i)) in E.
  rewrite Z.land_spec, Z.testbit_0_l in E. by destruct (Z.testbit (cn_flags n) i), (Z.testbit f i), (Z.testbit g i).
Qed.

Lemma has_cleared f n g : Z.ldiff g f = 0 -> has (clear_flag f n) g = false.
Proof.
  intros E. unfold has, clear_flag. cbn. apply negb_false_iff, Z.eqb_eq. apply Z.bits_inj'. intros i Hi.
  rewrite Z.land_spec, Z.ldiff_spec, Z.testbit_0_l. apply (f_equal (fun z => Z.testbit z i)) in E.
  rewrite Z.ldiff_spec, Z.testbit_0_l in E. by destruct (Z.testbit (cn_flags n) i), (Z.testbit f i), (Z.testbit g i).
Qed.

Definition ROLE : Z := Z.lor (Z.lor CLUSTER_NODE_MASTER CLUSTER_NODE_SLAVE) CLUSTER_NODE_HANDSHAKE.

Lemma land_role f : Z.land f ROLE = 0 ->
  Z.land f CLUSTER_NODE_MASTER = 0 /\ Z.land f CLUSTER_NODE_SLAVE = 0 /\ Z.land f CLUSTER_NODE_HANDSHAKE = 0.
Proof.
  unfold ROLE. rewrite !Z.land_lor_distr_r. intros [[??]%Z.lor_eq_0_iff ?]%Z.lor_eq_0_iff. done.
Qed.

Lemma view_set_flag f n : Z.land f ROLE = 0 -> view (set_flag f n) = view n.
Proof.
  intros (E1 & E2 & E3)%land_role. unfold view, nodeInHandshake, nodeIsMaster, nodeIsSlave.
  rewrite !has_set_flag, E1, E2, E3. cbn [Z.eqb negb]. rewrite !orb_false_r. done.
Qed.

Lemma view_clear_flag f n : Z.land f ROLE = 0 -> view (clear_flag f n) = view n.
Proof.
  intros (E1 & E2 & E3)%land_role. unfold view, nodeInHandshake, nodeIsMaster, nodeIsSlave.
  rewrite !has_clear_flag by done. done.
Qed.

(** ** Steps that keep the invariant *)

Lemma sim_update s p n n' : cs_heap s !! p = Some n -> view n' = view n ->
  sim s (s <| cs_heap := <[p := n']> (cs_heap s) |>).
Proof.
  intros Hn E. split; try done. intros q. cbn. destruct (decide (q = p)) as [->|].
  - rewrite lookup_insert_eq, Hn. cbn. by f_equal.
  - by rewrite lookup_insert_ne.
Qed.

Section steps.
Context (t : Prop).

Lemma wp_update_inv p f (Q : unit -> clusterState -> Prop) s :
  wf s -> (t -> valid s p) -> (forall n, view (f n) = view n) ->
  (forall s', inv sim s s' -> Q tt s') -> wp t (update p f) Q s.
Proof.
  intros Hw Hv Hf HQ. apply wp_update; [done|]. intros n Hn. apply HQ, inv_sim; [done|].
  by apply (sim_update s p n).
Qed.

Lemma wp_modify_inv f (Q : unit -> clusterState -> Prop) s :
  wf s -> sim s (f s) -> (forall s', inv sim s s' -> Q tt s') -> wp t (modify f) Q s.
Proof. intros Hw Hf HQ. apply wp_modify, HQ. by apply inv_sim. Qed.

(** A call whose specification is known. *)
Lemma wp_call {A} R (m : cl A) (Q : A -> clusterState -> Prop) s :
  wp t m (fun _ s' => inv R s s') s -> (forall a s', inv R s s' -> Q a s') -> wp t m Q s.
Proof. intros Hm HQ. eapply wp_mono; [apply Hm|]. intros. by apply HQ. Qed.

(** A loop. *)
Lemma wp_for_each_inv {A} R `{Keep R} (l : list A) body s :
  wf s -> (forall x s', x ∈ l -> inv R s s' -> wp t (body x) (fun _ s'' => inv R s' s'') s') ->
  wp t (for_each l body) (fun _ s' => inv R s s') s.
Proof.
  intros Hw Hb. apply wp_for_each; [by apply inv_refl|]. intros x s' Hx Hs'.
  apply (wp_call R); [by apply Hb|]. intros _ s''. by apply inv_trans.
Qed.

Lemma wp_fold_each_inv {A B} R `{Keep R} (l : list A) (b : B) body s :
  wf s -> (forall x b s', x ∈ l -> inv R s s' -> wp t (body b x) (fun _ s'' => inv R s' s'') s') ->
  wp t (fold_each l b body) (fun _ s' => inv R s s') s.
Proof.
  intros Hw Hb. apply (wp_fold_each t l b body (fun _ s' => inv R s s')); [by apply inv_refl|].
  intros x b' s' Hx Hs'. apply (wp_call R); [by apply Hb|]. intros b'' s''. by apply inv_trans.
Qed.

End steps.

(** Show that an update is not seen by the invariant. *)
Ltac view_done :=
  intros; cbn beta;
  repeat first [rewrite view_set_flag by (first [reflexivity | rewrite <- ?Z.land_assoc; apply Z.land_0_r])
               |rewrite view_clear_flag by reflexivity
               |match goal with |- view (set_field _ ?n) = ?v => change (view n = v) end];
  reflexivity.

Ltac sim_done := repeat case_match; by split.

(** Move on to the state after a step that keeps the invariant. *)
Ltac advance :=
  lazymatch goal with
  | H0 : inv ?R0 ?s0 ?s, H1 : inv ?R1 ?s ?s1 |- _ =>
      repeat match goal with Hv : valid s ?p |- _ => apply (inv_valid R1 s s1 p H1) in Hv end;
      repeat match goal with Hw : wf s |- _ => clear Hw end;
      let Hw := fresh "Hw" in
      pose proof (inv_wf _ _ _ H1) as Hw;
      first [constr_eq R0 R1 | constr_eq R1 sim; apply (inv_of_sim R0) in H1 | apply inv_same_grow in H1];
      apply (inv_trans R0 _ _ _ H0) in H1; clear H0
  end.

(** Note which pointers are valid in the current state. *)
Ltac note H :=
  let T := type of H in
  lazymatch goal with
  | _ : T |- _ => fail
  | _ => let Hv := fresh "Hv" in pose proof H as Hv
  end.
Ltac learn :=
  repeat match goal with
  | Hw : wf ?s, Hn : cs_heap ?s !! ?p = Some ?n |- _ => note (lookup_valid s p n Hn)
  | Hw : wf ?s, Hn : cs_heap ?s !! ?p = Some ?n, E : cn_slaveof ?n = Some ?q |- _ => note (wf_slaveof s p n q Hw Hn E)
  | Hw : wf ?s, Hn : cs_heap ?s !! ?p = Some ?n, E : ?q ∈ cn_slaves ?n |- _ => note (wf_slaves s p n q Hw Hn E)
  | Hw : wf ?s, E : cs_nodes ?s !! ?nm = Some ?p |- _ => note (wf_lookup_node s nm p Hw E)
  | Hw : wf ?s, E : cs_slots ?s !! ?j = Some ?p |- _ => note (wf_owner s j p Hw E)
  | Hw : wf ?s, E : ?p ∈ node_ptrs ?s |- _ => note (wf_node_ptrs s p Hw E)
  | Hw : wf ?s |- _ => note (wf_myself s Hw)
  end.

(** Start a specification, and the body of a loop. *)
Ltac cl_start :=
  intros;
  lazymatch goal with Hw : wf ?s |- wp _ _ (fun _ s' => inv ?R _ s') ?s => learn; pose proof (inv_refl R s Hw) end.
Ltac cl_loop :=
  lazymatch goal with
  | H : inv ?R ?s ?s' |- wp _ _ _ ?s' =>
      learn;
      repeat match goal with Hv : valid s ?p |- _ => apply (inv_valid R s s' p H) in Hv end;
      let Hw := fresh "Hw" in
      pose proof (inv_wf _ _ _ H) as Hw;
      repeat match goal with H' : inv _ _ _ |- _ => clear H' end;
      pose proof (inv_refl R s' Hw)
  end.

Ltac valid_done := intros _; lazymatch goal with |- is_Some (cs_heap ?s !! ?p) => change (valid s p) | _ => idtac end; assumption.

(** The steps of a handler that only makes changes the invariant does not see;
    [tac] deals with the calls. *)
Ltac cl_step tac :=
  lazymatch goal with
  | |- inv _ _ _ => eassumption
  | |- wp _ (_ ≫= _) _ _ => apply wp_bind
  | |- wp _ (mret _) _ _ => apply wp_ret; try eassumption
  | |- wp _ getS _ _ => apply wp_getS
  | |- wp _ (emit _) _ _ => apply wp_emit; try eassumption
  | |- wp _ (clusterLookupNode _) _ _ => unfold clusterLookupNode
  | |- wp _ (modify _) _ _ => apply wp_modify_inv; [eassumption|sim_done|intros ? ?; advance]
  | |- wp _ (clusterDoBeforeSleep _) _ _ => apply wp_modify_inv; [eassumption|by split|intros ? ?; advance]
  | |- wp _ (when _ _) _ _ => apply wp_when; intros ?
  | |- wp _ (deref _) _ _ => apply wp_deref; [valid_done|intros ? ?]
  | |- wp _ (update _ _) _ _ => apply wp_update_inv; [eassumption|valid_done|view_done|intros ? ?; advance]
  | |- wp _ (if ?b then _ else _) _ _ => destruct b eqn:?
  | |- wp _ (match ?x with Some _ => _ | None => _ end) _ _ => destruct x eqn:?
  | |- wp _ (let '(_, _) := ?x in _) _ _ => destruct x as [? ?] eqn:?
  | H : inv ?R _ ?s |- wp _ (for_each _ _) _ ?s =>
      apply (wp_call _ R); [apply wp_for_each_inv; [apply _|eassumption|intros ? ? ? ?; cl_loop]|intros ? ? ?; advance]
  | H : inv ?R _ ?s |- wp _ (fold_each _ _ _) _ ?s =>
      apply (wp_call _ R); [apply wp_fold_each_inv; [apply _|eassumption|intros ? ? ? ? ?; cl_loop]|intros ? ? ?; advance]
  | |- wp _ _ _ _ => eapply wp_call; [tac|intros ? ? ?; advance]
  end; learn.

(** The calls already specified. *)
Create HintDb calls.
Ltac call_done := solve [eauto with calls].
Ltac cl_auto := repeat cl_step call_done.
