(* ===== verification/ClusterOps.v ===== *)
(** Every handler of [Cluster.v] keeps the invariant of [ClusterInv.v]. *)
From stdpp Require Import gmap.
From S2P Require Import Prelude Sds Replication Cluster ClusterInv.

Section ops.
Context (t : Prop) (sv : redisServer).

(** ** Messages and state *)

Lemma clusterBuildMessageHdr_ok s type : wf s -> wp t (clusterBuildMessageHdr sv type) (fun _ s' => inv sim s s') s.
Proof. cl_start. unfold clusterBuildMessageHdr. cl_auto. Qed.
Hint Resolve clusterBuildMessageHdr_ok : calls.

Lemma clusterSendMessage_ok s p m : wf s -> valid s p -> wp t (clusterSendMessage p m) (fun _ s' => inv sim s s') s.
Proof. cl_start. unfold clusterSendMessage. cl_auto. Qed.
Hint Resolve clusterSendMessage_ok : calls.

Lemma clusterBroadcastMessage_ok s m : wf s -> wp t (clusterBroadcastMessage m) (fun _ s' => inv sim s s') s.
Proof. cl_start. unfold clusterBroadcastMessage. cl_auto. Qed.
Hint Resolve clusterBroadcastMessage_ok : calls.

Lemma freeNodeLink_ok s p : wf s -> valid s p -> wp t (freeNodeLink p) (fun _ s' => inv sim s s') s.
Proof. cl_start. unfold freeNodeLink. cl_auto. Qed.
Hint Resolve freeNodeLink_ok : calls.

Lemma ping_message_ok s p type : wf s -> valid s p -> wp t (ping_message sv (Some p) type) (fun _ s' => inv sim s s') s.
Proof. cl_start. unfold ping_message. cl_auto. Qed.
Hint Resolve ping_message_ok : calls.

Lemma clusterSendPing_ok s p type : wf s -> valid s p -> wp t (clusterSendPing sv p type) (fun _ s' => inv sim s s') s.
Proof. cl_start. unfold clusterSendPing. cl_auto. Qed.
Hint Resolve clusterSendPing_ok : calls.

Lemma clusterBroadcastPong_ok s target : wf s -> wp t (clusterBroadcastPong sv target) (fun _ s' => inv sim s s') s.
Proof. cl_start. unfold clusterBroadcastPong. cl_auto. Qed.
Hint Resolve clusterBroadcastPong_ok : calls.

Lemma clusterSendFail_ok s nm : wf s -> wp t (clusterSendFail sv nm) (fun _ s' => inv sim s s') s.
Proof. cl_start. unfold clusterSendFail. cl_auto. Qed.
Hint Resolve clusterSendFail_ok : calls.

Lemma clusterSendUpdate_ok s p q : wf s -> valid s p -> valid s q -> wp t (clusterSendUpdate sv p q) (fun _ s' => inv sim s s') s.
Proof. cl_start. unfold clusterSendUpdate. cl_auto. Qed.
Hint Resolve clusterSendUpdate_ok : calls.

Lemma clusterRequestFailoverAuth_ok s : wf s -> wp t (clusterRequestFailoverAuth sv) (fun _ s' => inv sim s s') s.
Proof. cl_start. unfold clusterRequestFailoverAuth. cl_auto. Qed.
Hint Resolve clusterRequestFailoverAuth_ok : calls.

Lemma clusterSendFailoverAuth_ok s p : wf s -> valid s p -> wp t (clusterSendFailoverAuth sv p) (fun _ s' => inv sim s s') s.
Proof. cl_start. unfold clusterSendFailoverAuth. cl_auto. Qed.
Hint Resolve clusterSendFailoverAuth_ok : calls.

Lemma clusterSendMFStart_ok s p : wf s -> valid s p -> wp t (clusterSendMFStart sv p) (fun _ s' => inv sim s s') s.
Proof. cl_start. unfold clusterSendMFStart. cl_auto. Qed.
Hint Resolve clusterSendMFStart_ok : calls.

Lemma clearNodeFailureIfNeeded_ok s p : wf s -> (t -> forall n, cs_heap s !! p = Some n -> nodeFailed n = true) -> valid s p -> wp t (clearNodeFailureIfNeeded sv p) (fun _ s' => inv sim s s') s.
Proof.
  cl_start. unfold clearNodeFailureIfNeeded. do 2 cl_step fail. apply wp_bind, wp_assert; [by eauto|intros _].
  cl_auto.
Qed.
Hint Resolve clearNodeFailureIfNeeded_ok : calls.

Lemma clusterGetMaxEpoch_ok s : wf s -> wp t clusterGetMaxEpoch (fun _ s' => inv sim s s') s.
Proof. cl_start. unfold clusterGetMaxEpoch. cl_auto. Qed.
Hint Resolve clusterGetMaxEpoch_ok : calls.

Lemma take_next_epoch_ok s : wf s -> wp t take_next_epoch (fun _ s' => inv sim s s') s.
Proof. cl_start. unfold take_next_epoch. cl_auto. Qed.
Hint Resolve take_next_epoch_ok : calls.

Lemma clusterBumpConfigEpochWithoutConsensus_ok s : wf s -> wp t clusterBumpConfigEpochWithoutConsensus (fun _ s' => inv sim s s') s.
Proof. cl_start. unfold clusterBumpConfigEpochWithoutConsensus. cl_auto. Qed.
Hint Resolve clusterBumpConfigEpochWithoutConsensus_ok : calls.

Lemma clusterHandleConfigEpochCollision_ok s p : wf s -> valid s p -> wp t (clusterHandleConfigEpochCollision p) (fun _ s' => inv sim s s') s.
Proof. cl_start. unfold clusterHandleConfigEpochCollision. cl_auto. Qed.
Hint Resolve clusterHandleConfigEpochCollision_ok : calls.

Lemma clusterBlacklistCleanup_ok s : wf s -> wp t (clusterBlacklistCleanup sv) (fun _ s' => inv sim s s') s.
Proof. cl_start. unfold clusterBlacklistCleanup. cl_auto. Qed.
Hint Resolve clusterBlacklistCleanup_ok : calls.

Lemma clusterBlacklistAddNode_ok s p : wf s -> valid s p -> wp t (clusterBlacklistAddNode sv p) (fun _ s' => inv sim s s') s.
Proof. cl_start. unfold clusterBlacklistAddNode. cl_auto. Qed.
Hint Resolve clusterBlacklistAddNode_ok : calls.

Lemma clusterBlacklistExists_ok s nm : wf s -> wp t (clusterBlacklistExists sv nm) (fun _ s' => inv sim s s') s.
Proof. cl_start. unfold clusterBlacklistExists. cl_auto. Qed.
Hint Resolve clusterBlacklistExists_ok : calls.

Lemma resetManualFailover_ok s : wf s -> wp t resetManualFailover (fun _ s' => inv sim s s') s.
Proof. cl_start. unfold resetManualFailover. cl_auto. Qed.
Hint Resolve resetManualFailover_ok : calls.

Lemma manualFailoverCheckTimeout_ok s : wf s -> wp t (manualFailoverCheckTimeout sv) (fun _ s' => inv sim s s') s.
Proof. cl_start. unfold manualFailoverCheckTimeout. cl_auto. Qed.
Hint Resolve manualFailoverCheckTimeout_ok : calls.

Lemma clusterHandleManualFailover_ok s : wf s -> wp t (clusterHandleManualFailover sv) (fun _ s' => inv sim s s') s.
Proof. cl_start. unfold clusterHandleManualFailover. cl_auto. Qed.
Hint Resolve clusterHandleManualFailover_ok : calls.

Lemma clusterMastersHaveSlaves_ok s : wf s -> wp t clusterMastersHaveSlaves (fun _ s' => inv sim s s') s.
Proof. cl_start. unfold clusterMastersHaveSlaves. cl_auto. Qed.
Hint Resolve clusterMastersHaveSlaves_ok : calls.

Lemma clusterCountNonFailingSlaves_ok s p : wf s -> valid s p -> wp t (clusterCountNonFailingSlaves p) (fun _ s' => inv sim s s') s.
Proof. cl_start. unfold clusterCountNonFailingSlaves. cl_auto. Qed.
Hint Resolve clusterCountNonFailingSlaves_ok : calls.

Lemma clusterLogCantFailover_ok s r : wf s -> wp t (clusterLogCantFailover sv r) (fun _ s' => inv sim s s') s.
Proof. cl_start. unfold clusterLogCantFailover. cl_auto. Qed.
Hint Resolve clusterLogCantFailover_ok : calls.

Lemma failover_conditions_ok s b : wf s -> wp t (failover_conditions sv b) (fun _ s' => inv sim s s') s.
Proof. cl_start. unfold failover_conditions. cl_auto. Qed.
Hint Resolve failover_conditions_ok : calls.

Lemma full_coverage_ok s l : wf s -> wp t (full_coverage l) (fun _ s' => inv sim s s') s.
Proof. induction l as [|j l IH]; cl_start; cbn [full_coverage]; cl_auto. Qed.
Hint Resolve full_coverage_ok : calls.

Lemma claims_older_slot_ok s l slots epoch : wf s -> wp t (claims_older_slot l slots epoch) (fun _ s' => inv sim s s') s.
Proof. induction l as [|j l IH]; cl_start; cbn [claims_older_slot]; cl_auto. Qed.
Hint Resolve claims_older_slot_ok : calls.

Lemma newer_owner_spec s l p slots epoch : wf s ->
  wp t (newer_owner l p slots epoch) (fun o s' => s' = s /\ forall q, o = Some q -> valid s q) s.
Proof.
  intros Hw. induction l as [|j l IH]; cbn [newer_owner]; [by apply wp_ret|].
  destruct (negb _); [done|]. apply wp_bind, wp_getS. destruct (cs_slots s !! j) as [q|] eqn:Eq; [|done].
  destruct (q =? p); [done|]. pose proof (wf_owner s j q Hw Eq) as Hv. apply wp_bind, wp_deref; [done|]. intros n Hn.
  destruct (_ >? _); [|done]. apply wp_ret. split; [done|]. by intros ? [= <-].
Qed.

Lemma tell_newer_owner_ok s p slots epoch : wf s -> valid s p ->
  wp t (tell_newer_owner sv p slots epoch) (fun _ s' => inv sim s s') s.
Proof.
  intros Hw Hv. unfold tell_newer_owner. apply wp_bind. eapply wp_mono; [by apply newer_owner_spec|].
  intros o s' [-> Ho]. destruct o as [q|]; [|apply wp_ret; exact (inv_refl sim s Hw)].
  apply clusterSendUpdate_ok; auto.
Qed.
Hint Resolve tell_newer_owner_ok : calls.

Lemma clusterUpdateState_ok s : wf s -> wp t (clusterUpdateState sv) (fun _ s' => inv sim s s') s.
Proof. cl_start. unfold clusterUpdateState. cl_auto. Qed.
Hint Resolve clusterUpdateState_ok : calls.

(** ** Elections *)

Definition is_slave (s : clusterState) : Prop :=
  exists me, cs_heap s !! cs_myself s = Some me /\ nodeIsSlave me = true.

Lemma is_slave_sim s s' : inv sim s s' -> is_slave s -> is_slave s'.
Proof.
  intros [_ H] (me & Hme & ?). destruct (sim_lookup _ _ _ _ H Hme) as (me' & ? & E).
  rewrite <- (sim_myself _ _ H) in *. apply view_eq in E as (_ & _ & _ & E & _). exists me'. split; congruence.
Qed.
Hint Resolve is_slave_sim : calls.

Lemma clusterGetSlaveRank_ok s : wf s -> is_slave s -> wp t (clusterGetSlaveRank sv) (fun _ s' => inv sim s s') s.
Proof.
  cl_start. unfold clusterGetSlaveRank. do 4 cl_step fail. apply wp_bind, wp_assert; [|intros _; cl_auto].
  intros _. destruct H0 as (me & ? & ?). congruence.
Qed.
Hint Resolve clusterGetSlaveRank_ok : calls.

Lemma clusterSendFailoverAuthIfNeeded_ok s p hdr : wf s -> valid s p -> wp t (clusterSendFailoverAuthIfNeeded sv p hdr) (fun _ s' => inv sim s s') s.
Proof. cl_start. unfold clusterSendFailoverAuthIfNeeded. cl_auto. Qed.
Hint Resolve clusterSendFailoverAuthIfNeeded_ok : calls.

Lemma start_election_ok s : wf s -> wp t (start_election sv) (fun _ s' => inv sim s s') s.
Proof. cl_start. unfold start_election. cl_auto. Qed.
Hint Resolve start_election_ok : calls.

Lemma process_header_ok s p hdr : wf s -> valid s p -> wp t (process_header sv p hdr) (fun _ s' => inv sim s s') s.
Proof. cl_start. unfold process_header. cl_auto. Qed.
Hint Resolve process_header_ok : calls.

Lemma nodeUpdateAddressIfNeeded_ok s p l hdr : wf s -> valid s p -> wp t (nodeUpdateAddressIfNeeded p l hdr) (fun _ s' => inv sim s s') s.
Proof. cl_start. unfold nodeUpdateAddressIfNeeded. cl_auto. Qed.
Hint Resolve nodeUpdateAddressIfNeeded_ok : calls.

Lemma process_fail_ok s p nm : wf s -> wp t (process_fail sv p nm) (fun _ s' => inv sim s s') s.
Proof. cl_start. unfold process_fail. cl_auto. Qed.
Hint Resolve process_fail_ok : calls.

Lemma process_auth_ack_ok s p e : wf s -> valid s p -> wp t (process_auth_ack p e) (fun _ s' => inv sim s s') s.
Proof. cl_start. unfold process_auth_ack. cl_auto. Qed.
Hint Resolve process_auth_ack_ok : calls.

(** The node of a link is a valid pointer. *)
Definition link_ok (l : clusterLink) (s : clusterState) : Prop := forall p, l_node l = Some p -> valid s p.

Lemma link_ok_inv R `{Keep R} l s s' : inv R s s' -> link_ok l s -> link_ok l s'.
Proof. intros Hi Hl p Hp. apply (inv_valid R s); [done|]. by apply Hl. Qed.

Lemma clusterReplyPing_ok s l type : wf s -> (t -> link_ok l s) ->
  wp t (clusterReplyPing sv l type) (fun _ s' => inv sim s s') s.
Proof.
  cl_start. unfold clusterReplyPing, ping_message. do 2 apply wp_bind. destruct (l_node l) eqn:E; [|cl_auto].
  apply wp_when; intros _; [|cl_auto].
  apply wp_update_inv; [done|intros Ht; by apply H0|view_done|intros s' Hs'; advance; learn]. cl_auto.
Qed.
Hint Resolve clusterReplyPing_ok : calls.

Lemma process_mfstart_ok s l p : wf s -> valid s p -> (t -> link_ok l s) ->
  wp t (process_mfstart sv l p) (fun _ s' => inv sim s s') s.
Proof.
  cl_start. unfold process_mfstart.
  assert (Hl : forall s', inv sim s s' -> t -> link_ok l s') by (intros; eapply link_ok_inv; eauto; apply _).
  cl_auto.
Qed.
Hint Resolve process_mfstart_ok : calls.

Lemma process_pong_ok s l hdr : wf s -> (t -> link_ok l s) ->
  wp t (process_pong sv l hdr) (fun _ s' => inv sim s s') s.
Proof.
  cl_start. unfold process_pong. destruct (l_node l) as [p|] eqn:E; [|cl_auto].
  apply wp_when; intros _; [|cl_auto]. apply wp_bind.
  destruct (cs_heap s !! p) as [n|] eqn:En; [learn|].
  - do 3 cl_step fail. cl_step fail; [cl_auto|]. cl_step fail; [|cl_auto].
    apply (wp_call _ sim); [|intros ? ? ?; advance; done]. apply clearNodeFailureIfNeeded_ok; [done| |done].
    intros _ ? ?. congruence.
  - apply wp_update; [by intros Ht; apply H0|]. intros. congruence.
Qed.
Hint Resolve process_pong_ok : calls.

End ops.

#[export] Hint Resolve clusterBuildMessageHdr_ok clusterSendMessage_ok clusterBroadcastMessage_ok freeNodeLink_ok
  ping_message_ok clusterSendPing_ok clusterBroadcastPong_ok clusterSendFail_ok
  clusterSendUpdate_ok clusterRequestFailoverAuth_ok clusterSendFailoverAuth_ok clusterSendMFStart_ok
  clearNodeFailureIfNeeded_ok clusterGetMaxEpoch_ok take_next_epoch_ok clusterBumpConfigEpochWithoutConsensus_ok
  clusterHandleConfigEpochCollision_ok clusterBlacklistCleanup_ok clusterBlacklistAddNode_ok clusterBlacklistExists_ok
  resetManualFailover_ok manualFailoverCheckTimeout_ok clusterHandleManualFailover_ok clusterMastersHaveSlaves_ok
  clusterCountNonFailingSlaves_ok clusterLogCantFailover_ok failover_conditions_ok full_coverage_ok
  claims_older_slot_ok tell_newer_owner_ok clusterUpdateState_ok is_slave_sim
  clusterGetSlaveRank_ok clusterSendFailoverAuthIfNeeded_ok start_election_ok process_header_ok
  nodeUpdateAddressIfNeeded_ok process_fail_ok process_auth_ack_ok clusterReplyPing_ok
  process_mfstart_ok process_pong_ok : calls.
