(* ===== verification/ClusterSlots.v ===== *)
(** The operations of the cluster that change what the invariant is about: the
    failure reports, the table of the nodes, the lists of replicas and the
    owners of the slots. *)
From stdpp Require Import gmap.
From S2P Require Import Prelude Sds Replication Cluster ClusterInv ClusterOps.

(** ** Framing

    An operation changes some of the fields of some nodes; the clauses of the
    invariant about the other fields still hold. *)

Definition agree {T} (v : clusterNode -> T) (s s' : clusterState) : Prop :=
  forall p, v <$> cs_heap s' !! p = v <$> cs_heap s !! p.

Lemma agree_refl {T} (v : clusterNode -> T) s s' : cs_heap s' = cs_heap s -> agree v s s'.
Proof. intros E p. by rewrite E. Qed.

Lemma agree_sym {T} (v : clusterNode -> T) s s' : agree v s s' -> agree v s' s.
Proof. intros E p. by rewrite E. Qed.

Lemma agree_trans {T} (v : clusterNode -> T) s1 s2 s3 : agree v s1 s2 -> agree v s2 s3 -> agree v s1 s3.
Proof. intros E1 E2 p. by rewrite E2. Qed.

Lemma agree_insert {T} (v : clusterNode -> T) s s' p n n' : cs_heap s !! p = Some n -> v n' = v n ->
  cs_heap s' = <[p := n']> (cs_heap s) -> agree v s s'.
Proof.
  intros Hn E Eh q. rewrite Eh. destruct (decide (q = p)) as [->|].
  - rewrite lookup_insert_eq, Hn. cbn. by rewrite E.
  - by rewrite lookup_insert_ne.
Qed.

Lemma agree_lookup {T} (v : clusterNode -> T) s s' p n : agree v s s' -> cs_heap s !! p = Some n ->
  exists n', cs_heap s' !! p = Some n' /\ v n' = v n.
Proof.
  intros H Hp. specialize (H p). rewrite Hp in H. destruct (cs_heap s' !! p) as [n'|]; [|done].
  exists n'. split; [done|]. exact (Some_inj _ _ H).
Qed.

Lemma agree_node {T} (v : clusterNode -> T) (P : clusterNode -> Prop) s s' p :
  (forall n n', v n' = v n -> P n -> P n') -> agree v s s' ->
  (exists n, cs_heap s' !! p = Some n /\ P n) <-> (exists n, cs_heap s !! p = Some n /\ P n).
Proof.
  intros HP H. split; intros (n & Hn & Pn).
  - destruct (agree_lookup v s' s p n) as (n' & ? & ?); [by apply agree_sym|done|]. eauto.
  - destruct (agree_lookup v s s' p n) as (n' & ? & ?); [done|done|]. eauto.
Qed.

Lemma agree_valid {T} (v : clusterNode -> T) s s' p : agree v s s' -> valid s' p <-> valid s p.
Proof. intros H. unfold valid. rewrite <- !(fmap_is_Some v). by rewrite H. Qed.

Section frame.
Context (s s' : clusterState) (Hw : wf s).

Lemma frame_next {T} (v : clusterNode -> T) : agree v s s' -> cs_next s' = cs_next s ->
  forall p n, cs_heap s' !! p = Some n -> p < cs_next s'.
Proof.
  intros H E p n Hn. destruct (agree_lookup v s' s p n) as (n' & Hn' & _); [by apply agree_sym|done|].
  rewrite E. by eapply wf_next.
Qed.

Lemma frame_dict : agree cn_name s s' -> cs_nodes s' = cs_nodes s ->
  forall nm p, cs_nodes s' !! nm = Some p <-> exists n, cs_heap s' !! p = Some n /\ cn_name n = nm.
Proof. intros H E nm p. rewrite E, (wf_dict s Hw). symmetry. eapply agree_node; [|done]. naive_solver. Qed.

Definition role (n : clusterNode) := (nodeInHandshake n, nodeIsMaster n, nodeIsSlave n, cn_numslots n, cn_slaveof n).

Lemma frame_me : agree role s s' -> cs_myself s' = cs_myself s ->
  exists me, cs_heap s' !! cs_myself s' = Some me /\ nodeInHandshake me = false /\
          (nodeIsMaster me = true /\ cn_slaveof me = None \/
           nodeIsMaster me = false /\ nodeIsSlave me = true /\ cn_numslots me = 0).
Proof.
  intros H E. rewrite E. apply (agree_node role (fun me => _ /\ _) s); [|done|by apply wf_me].
  by intros n n' [= -> -> -> -> ->].
Qed.

Lemma frame_slots : agree cn_slots s s' -> cs_slots s' = cs_slots s ->
  forall j p, cs_slots s' !! j = Some p <->
             0 <= j < CLUSTER_SLOTS /\ exists n, cs_heap s' !! p = Some n /\ Z.testbit (cn_slots n) j = true.
Proof.
  intros H E j p. rewrite E, (wf_slots s Hw). f_equiv. symmetry. eapply agree_node; [|done].
  intros ? ? ->. done.
Qed.

Lemma frame_count : agree (fun n => (cn_slots n, cn_numslots n)) s s' ->
  forall p n, cs_heap s' !! p = Some n -> cn_numslots n = count_slots (cn_slots n).
Proof.
  intros H p n Hn. destruct (agree_lookup _ s' s p n (agree_sym _ _ _ H) Hn) as (n' & Hn' & [= <- <-]).
  by eapply wf_count.
Qed.

Definition links_of (n : clusterNode) := (cn_slaves n, cn_slaveof n).

Lemma frame_repl : agree links_of s s' ->
  forall p q, (exists m, cs_heap s' !! q = Some m /\ p ∈ cn_slaves m) <->
              (exists n, cs_heap s' !! p = Some n /\ cn_slaveof n = Some q).
Proof.
  intros H p q. etrans; [apply (agree_node links_of (fun m => p ∈ cn_slaves m) s); [|done]|].
  { intros ? ? [=]. congruence. }
  rewrite (wf_repl s Hw). symmetry. apply (agree_node links_of); [|done]. intros ? ? [=]. congruence.
Qed.

Lemma frame_nodup : agree cn_slaves s s' -> forall p n, cs_heap s' !! p = Some n -> NoDup (cn_slaves n).
Proof.
  intros H p n Hn. destruct (agree_lookup _ s' s p n (agree_sym _ _ _ H) Hn) as (n' & Hn' & <-). by eapply wf_nodup.
Qed.

Lemma frame_hs : agree nodeInHandshake s s' -> agree links_of s s' -> agree cn_numslots s s' ->
  forall p n, cs_heap s' !! p = Some n -> nodeInHandshake n = true -> cn_slaveof n = None /\ cn_slaves n = [] /\ cn_numslots n = 0.
Proof.
  intros H1 H2 H3 p n Hn. destruct (agree_lookup _ s' s p n (agree_sym _ _ _ H1) Hn) as (n1 & Hn1 & <-).
  destruct (agree_lookup _ s' s p n (agree_sym _ _ _ H2) Hn) as (n2 & Hn2 & [= <- <-]).
  destruct (agree_lookup _ s' s p n (agree_sym _ _ _ H3) Hn) as (n3 & Hn3 & <-).
  rewrite Hn1 in Hn2, Hn3. injection Hn2 as <-. injection Hn3 as <-. by eapply wf_hs.
Qed.

Lemma frame_reports : agree cn_fail_reports s s' -> forall p n, cs_heap s' !! p = Some n ->
  NoDup (cn_fail_reports n).*1 /\ forall q, q ∈ (cn_fail_reports n).*1 -> is_Some (cs_heap s' !! q).
Proof.
  intros H p n Hn. destruct (agree_lookup _ s' s p n (agree_sym _ _ _ H) Hn) as (n' & Hn' & <-).
  destruct (wf_reports s Hw p n' Hn'). split; [done|]. intros. apply (agree_valid _ _ _ q H). by apply H1.
Qed.

Lemma frame_open {T} (v : clusterNode -> T) : agree v s s' ->
  cs_importing_slots_from s' = cs_importing_slots_from s -> cs_migrating_slots_to s' = cs_migrating_slots_to s ->
  forall j p, cs_importing_slots_from s' !! j = Some p \/ cs_migrating_slots_to s' !! j = Some p ->
  0 <= j < CLUSTER_SLOTS /\ is_Some (cs_heap s' !! p).
Proof.
  intros H E1 E2 j p Hj. rewrite E1, E2 in Hj. destruct (wf_open s Hw j p Hj). split; [done|].
  by apply (agree_valid _ _ _ p H).
Qed.

End frame.

(** Close the clauses of the invariant that one updated node does not touch. *)
Ltac agree_done Hn := eapply agree_insert; [exact Hn| |reflexivity]; solve [reflexivity|assumption].
Ltac frames Hw Hn :=
  split;
  [try (eapply (frame_next _ _ Hw cn_slots); [agree_done Hn|reflexivity])
  |try (eapply (frame_dict _ _ Hw); [agree_done Hn|reflexivity])
  |try (eapply (frame_me _ _ Hw); [agree_done Hn|reflexivity])
  |try (eapply (frame_slots _ _ Hw); [agree_done Hn|reflexivity])
  |try (eapply (frame_count _ _ Hw); agree_done Hn)
  |try (eapply (frame_repl _ _ Hw); agree_done Hn)
  |try (eapply (frame_nodup _ _ Hw); agree_done Hn)
  |try (eapply (frame_hs _ _ Hw); [agree_done Hn|agree_done Hn|agree_done Hn])
  |try (eapply (frame_reports _ _ Hw); agree_done Hn)
  |try (eapply (frame_open _ _ Hw cn_name); [agree_done Hn|reflexivity|reflexivity])].

Lemma same_insert s s' p n n' : cs_heap s !! p = Some n -> ident n' = ident n ->
  cs_myself s' = cs_myself s -> cs_nodes s' = cs_nodes s -> cs_heap s' = <[p := n']> (cs_heap s) -> same s s'.
Proof. intros Hn E E1 E2 Eh. split; [done|done|]. by eapply agree_insert. Qed.

Ltac same_done Hn := eapply same_insert; [exact Hn| |reflexivity|reflexivity|reflexivity]; try reflexivity.

(** ** Failure reports *)

Lemma inv_set_reports s p n r : wf s -> cs_heap s !! p = Some n ->
  NoDup r.*1 -> (forall q, q ∈ r.*1 -> valid s q) ->
  inv same s (s <| cs_heap := <[p := n <| cn_fail_reports := r |>]> (cs_heap s) |>).
Proof.
  intros Hw Hn Hr Hv. split; [|same_done Hn].
  frames Hw Hn. intros q m Hm.
  assert (Hall : forall q, valid s q -> is_Some (<[p := n <| cn_fail_reports := r |>]> (cs_heap s) !! q)).
  { intros x Hx. destruct (decide (x = p)) as [->|]; [by rewrite lookup_insert_eq|by rewrite lookup_insert_ne]. }
  cbn in Hm |- *. destruct (decide (q = p)) as [->|].
  - rewrite lookup_insert_eq in Hm. injection Hm as <-. cbn. auto.
  - rewrite lookup_insert_ne in Hm by done. destruct (wf_reports s Hw q m Hm). split; [done|]. intros. apply Hall.
    by apply H0.
Qed.

Section ops.
Context (t : Prop) (sv : redisServer).

Lemma clusterNodeAddFailureReport_ok s p q : wf s -> valid s p -> valid s q ->
  wp t (clusterNodeAddFailureReport sv p q) (fun _ s' => inv same s s') s.
Proof.
  intros Hw Hv Hq. unfold clusterNodeAddFailureReport. apply wp_bind, wp_deref; [done|]. intros n Hn.
  destruct (wf_reports s Hw p n Hn) as [Hd Hr]. case_bool_decide.
  - apply wp_bind, wp_update; [done|]. intros n' Hn'. replace n' with n by congruence. apply wp_ret.
    assert (E : ((fun r => if r.1 =? q then (r.1, sv_mstime sv) else r) <$> cn_fail_reports n).*1 = (cn_fail_reports n).*1).
    { rewrite <- list_fmap_compose. apply list_fmap_ext. intros _ [x y] _. cbn. by case_match. }
    apply inv_set_reports; [done|done|by rewrite E|by rewrite E].
  - apply wp_bind, wp_update; [done|]. intros n' Hn'. replace n' with n by congruence. apply wp_ret.
    apply inv_set_reports; [done|done| |].
    + rewrite fmap_app. apply NoDup_app. split; [done|]. split; [|apply NoDup_singleton]. set_solver.
    + rewrite fmap_app. intros x [Hx| ->%list_elem_of_singleton]%elem_of_app; [by apply Hr|done].
Qed.
Hint Resolve clusterNodeAddFailureReport_ok : calls.

Lemma clusterNodeCleanupFailureReports_ok s p : wf s -> valid s p ->
  wp t (clusterNodeCleanupFailureReports sv p) (fun _ s' => inv same s s') s.
Proof.
  intros Hw Hv. unfold clusterNodeCleanupFailureReports. apply wp_update; [done|]. intros n Hn.
  destruct (wf_reports s Hw p n Hn) as [Hd Hr]. apply inv_set_reports; [done|done| |].
  - eapply sublist_NoDup; [exact Hd|]. apply fmap_sublist, sublist_filter.
  - intros q (x & -> & Hx)%list_elem_of_fmap. apply Hr. apply list_elem_of_filter in Hx as [_ Hx].
    apply list_elem_of_fmap. eauto.
Qed.
Hint Resolve clusterNodeCleanupFailureReports_ok : calls.

Lemma del_report_sublist q l : del_report q l `sublist_of` l.
Proof. induction l as [|r l IH]; cbn; [done|]. case_match; [by apply sublist_cons|by apply sublist_skip]. Qed.

Lemma clusterNodeDelFailureReport_ok s p q : wf s -> valid s p ->
  wp t (clusterNodeDelFailureReport sv p q) (fun _ s' => inv same s s') s.
Proof.
  intros Hw Hv. unfold clusterNodeDelFailureReport. apply wp_bind, wp_deref; [done|]. intros n Hn.
  destruct (wf_reports s Hw p n Hn) as [Hd Hr]. case_bool_decide; [|apply wp_ret; exact (inv_refl same s Hw)].
  apply wp_bind, wp_update; [done|]. intros n' Hn'. replace n' with n by congruence.
  pose proof (del_report_sublist q (cn_fail_reports n)) as Hs.
  pose proof (inv_set_reports s p n (del_report q (cn_fail_reports n)) Hw Hn) as Hi.
  destruct Hi as [Hw' Hs'].
  { eapply sublist_NoDup; [exact Hd|]. by apply fmap_sublist. }
  { intros x Hx. apply Hr. eapply (sublist_subseteq _ _ (fmap_sublist fst _ _ Hs)), Hx. }
  apply wp_bind, (wp_call _ same); [apply clusterNodeCleanupFailureReports_ok; [done|]|].
  - by apply (same_valid s).
  - intros _ s'' Hs''. apply wp_ret. eapply inv_trans; [apply _|split; [exact Hw'|exact Hs']|done].
Qed.
Hint Resolve clusterNodeDelFailureReport_ok : calls.

Lemma clusterNodeFailureReportsCount_ok s p : wf s -> valid s p ->
  wp t (clusterNodeFailureReportsCount sv p) (fun _ s' => inv same s s') s.
Proof. cl_start. unfold clusterNodeFailureReportsCount. cl_auto. Qed.
Hint Resolve clusterNodeFailureReportsCount_ok : calls.

Lemma markNodeAsFailingIfNeeded_ok s p : wf s -> valid s p ->
  wp t (markNodeAsFailingIfNeeded sv p) (fun _ s' => inv same s s') s.
Proof. cl_start. unfold markNodeAsFailingIfNeeded. cl_auto. Qed.
Hint Resolve markNodeAsFailingIfNeeded_ok : calls.
End ops.

(** ** Hash slots *)

Lemma slot_range_elem j : j ∈ slot_range <-> 0 <= j < CLUSTER_SLOTS.
Proof. unfold slot_range. rewrite elem_of_seqZ. lia. Qed.

Lemma filter_agree (P P' : Z -> bool) (l : list Z) : (forall i, i ∈ l -> P' i = P i) ->
  filter (fun i => P' i = true) l = filter (fun i => P i = true) l.
Proof.
  induction l as [|x l IH]; intros H; [done|]. rewrite !filter_cons, IH by set_solver.
  rewrite (H x) by set_solver. done.
Qed.

Lemma filter_flip (P P' : Z -> bool) j (l : list Z) : NoDup l -> j ∈ l -> P j = false -> P' j = true ->
  (forall i, i <> j -> P' i = P i) ->
  length (filter (fun i => P' i = true) l) = S (length (filter (fun i => P i = true) l)).
Proof.
  intros Hd Hj HP HP' Hi. induction Hd as [|x l Hx Hd IH]; [set_solver|]. rewrite !filter_cons.
  destruct (decide (x = j)) as [->|Hn].
  - rewrite decide_True, decide_False by congruence. cbn. do 2 f_equal. apply filter_agree.
    intros i Hil. apply Hi. congruence.
  - rewrite Hi by done. destruct (decide (P x = true)); cbn; rewrite IH by set_solver; done.
Qed.

Lemma count_slots_set b b' j : 0 <= j < CLUSTER_SLOTS -> Z.testbit b j = false ->
  (forall i, Z.testbit b' i = if decide (i = j) then true else Z.testbit b i) -> count_slots b' = count_slots b + 1.
Proof.
  intros Hj Hb Hb'. unfold count_slots.
  rewrite (filter_flip (Z.testbit b) (Z.testbit b') j); [lia|apply NoDup_seqZ|by apply slot_range_elem|done| |].
  - rewrite Hb'. by rewrite decide_True.
  - intros i Hi. rewrite Hb'. by rewrite decide_False.
Qed.

(** What an operation on slots does not change. *)
Definition slot_frame (n : clusterNode) :=
  (cn_name n, cn_configEpoch n, (nodeInHandshake n, nodeIsMaster n, nodeIsSlave n), (cn_slaves n, cn_slaveof n),
   cn_fail_reports n).

Record slots_only (s s' : clusterState) : Prop := {
  so_myself : cs_myself s' = cs_myself s;
  so_nodes : cs_nodes s' = cs_nodes s;
  so_importing : cs_importing_slots_from s' = cs_importing_slots_from s;
  so_migrating : cs_migrating_slots_to s' = cs_migrating_slots_to s;
  so_next : cs_next s' = cs_next s;
  so_heap : agree slot_frame s s'
}.

#[global] Instance slots_only_equiv : Equivalence slots_only.
Proof.
  split.
  - intros s. by split.
  - intros s s' []. split; try done. by apply agree_sym.
  - intros s1 s2 s3 [] []. split; congruence.
Qed.

Lemma agree_weaken {T U} (v : clusterNode -> T) (u : clusterNode -> U) s s' :
  (forall n n', v n' = v n -> u n' = u n) -> agree v s s' -> agree u s s'.
Proof.
  intros Hu H p. specialize (H p). destruct (cs_heap s' !! p), (cs_heap s !! p); try done.
  cbn. f_equal. apply Hu. exact (Some_inj _ _ H).
Qed.

Lemma slots_only_same s s' : slots_only s s' -> same s s'.
Proof.
  intros []. split; [done|done|]. eapply (agree_weaken slot_frame); [|done]. intros n n' [= E1 _ E2]. unfold ident. congruence.
Qed.

Lemma slot_frame_eq n n' : slot_frame n' = slot_frame n ->
  cn_name n' = cn_name n /\ cn_configEpoch n' = cn_configEpoch n /\ nodeInHandshake n' = nodeInHandshake n /\
  nodeIsMaster n' = nodeIsMaster n /\ nodeIsSlave n' = nodeIsSlave n /\ cn_slaves n' = cn_slaves n /\
  cn_slaveof n' = cn_slaveof n /\ cn_fail_reports n' = cn_fail_reports n.
Proof. intros [=]. by repeat split. Qed.

(** Slot [j] is given to [p], or taken from it. *)
Lemma wf_slot_change s s' p n n' j (b : bool) : wf s -> cs_heap s !! p = Some n -> 0 <= j < CLUSTER_SLOTS ->
  (forall q m, cs_heap s !! q = Some m -> q <> p -> Z.testbit (cn_slots m) j = false) ->
  cs_heap s' = <[p := n']> (cs_heap s) -> slot_frame n' = slot_frame n ->
  (forall i, Z.testbit (cn_slots n') i = if decide (i = j) then b else Z.testbit (cn_slots n) i) ->
  cn_numslots n' = count_slots (cn_slots n') ->
  cs_slots s' = (if b then <[j := p]> (cs_slots s) else delete j (cs_slots s)) ->
  cs_myself s' = cs_myself s -> cs_nodes s' = cs_nodes s -> cs_next s' = cs_next s ->
  cs_importing_slots_from s' = cs_importing_slots_from s -> cs_migrating_slots_to s' = cs_migrating_slots_to s ->
  (p = cs_myself s -> nodeIsMaster n = true /\ cn_slaveof n = None) -> nodeInHandshake n = false -> wf s'.
Proof.
  intros Hw Hn Hj Ho Eh Ef Hbit Hc Es Em En Ex Ei Eg Hme Hset.
  pose proof (slot_frame_eq _ _ Ef) as (E1 & _ & E2 & E3 & E4 & E5 & E6 & E7).
  assert (Ag : forall T (v : clusterNode -> T), v n' = v n -> agree v s s') by (intros; by eapply agree_insert).
  split.
  - by apply (frame_next _ _ Hw cn_name), Ex; apply Ag.
  - apply (frame_dict _ _ Hw); [by apply Ag|done].
  - rewrite Em. destruct (wf_me s Hw) as (me & Hmy & ? & ?). rewrite Eh.
    destruct (decide (cs_myself s = p)) as [E|].
    + rewrite E, lookup_insert_eq. exists n'. assert (me = n) as -> by congruence.
      split; [done|]. split; [congruence|]. left. rewrite E3, E6. auto.
    + rewrite lookup_insert_ne by done. eauto.
  - intros i q. destruct (decide (i = j)) as [->|Hi].
    + transitivity (b = true /\ q = p).
      * rewrite Es. destruct b; [rewrite lookup_insert_eq|rewrite lookup_delete_eq]; naive_solver.
      * rewrite Eh. destruct (decide (q = p)) as [->|Hq].
        -- rewrite lookup_insert_eq. specialize (Hbit j). rewrite decide_True in Hbit by done. naive_solver.
        -- rewrite lookup_insert_ne by done. split; [naive_solver|]. intros (_ & m & Hm & Ht). rewrite (Ho q m) in Ht; done.
    + transitivity (cs_slots s !! i = Some q).
      { rewrite Es. destruct b; [by rewrite lookup_insert_ne|by rewrite lookup_delete_ne]. }
      rewrite (wf_slots s Hw). f_equiv. rewrite Eh. destruct (decide (q = p)) as [->|Hq].
      * rewrite lookup_insert_eq, Hn. specialize (Hbit i). rewrite decide_False in Hbit by done.
        split; intros (m & [= <-] & Ht); eexists; (split; [done|]); congruence.
      * by rewrite lookup_insert_ne.
  - intros q m. rewrite Eh. destruct (decide (q = p)) as [->|].
    + rewrite lookup_insert_eq. by intros [= <-].
    + rewrite lookup_insert_ne by done. by apply wf_count.
  - apply (frame_repl _ _ Hw), Ag. unfold links_of. congruence.
  - by apply (frame_nodup _ _ Hw), Ag.
  - intros q m. rewrite Eh, lookup_insert_Some. intros [[<- <-]|[_ Hm]] Hh; [congruence|by eapply wf_hs].
  - by apply (frame_reports _ _ Hw), Ag.
  - by apply (frame_open _ _ Hw cn_name); [apply Ag|..].
Qed.

(** Nodes in handshake stay nodes in handshake. *)
Lemma settled_frame s s' p : slots_only s s' -> (forall n, cs_heap s !! p = Some n -> nodeInHandshake n = false) ->
  forall n, cs_heap s' !! p = Some n -> nodeInHandshake n = false.
Proof.
  intros Ho H n Hn. destruct (agree_lookup _ _ _ _ _ (agree_sym _ _ _ (so_heap _ _ Ho)) Hn) as (m & Hm & E%slot_frame_eq).
  specialize (H m Hm). intuition congruence.
Qed.

(** An update of a node that was just updated. *)
Lemma wp_update_twice t p f s n (Q : unit -> clusterState -> Prop) :
  cs_heap s !! p = Some n -> Q tt (s <| cs_heap := <[p := f n]> (cs_heap s) |>) -> wp t (update p f) Q s.
Proof. intros Hn HQ. apply wp_update; [by eexists|]. intros n' Hn'. by assert (n' = n) as -> by congruence. Qed.

Lemma clearbit_testbit b j i : 0 <= j ->
  Z.testbit (Z.clearbit b j) i = if decide (i = j) then false else Z.testbit b i.
Proof.
  intros Hj. destruct (decide (i = j)) as [->|]; [by apply Z.clearbit_eq|].
  destruct (Z.lt_ge_cases i 0); [by rewrite !Z.testbit_neg_r|]. by rewrite Z.clearbit_neq by done.
Qed.

Lemma setbit_testbit b j i : 0 <= j ->
  Z.testbit (Z.setbit b j) i = if decide (i = j) then true else Z.testbit b i.
Proof.
  intros Hj. destruct (decide (i = j)) as [->|]; [by apply Z.setbit_eq|].
  destruct (Z.lt_ge_cases i 0); [by rewrite !Z.testbit_neg_r|]. by rewrite Z.setbit_neq by done.
Qed.

Lemma count_slots_clear b j : 0 <= j < CLUSTER_SLOTS -> Z.testbit b j = true ->
  count_slots b = count_slots (Z.clearbit b j) + 1.
Proof.
  intros Hj Hb. apply (count_slots_set _ _ j); [done|by apply Z.clearbit_eq|].
  intros i. rewrite clearbit_testbit by lia. by destruct (decide (i = j)) as [->|].
Qed.

Lemma count_slots_nonneg b : 0 <= count_slots b.
Proof. unfold count_slots. lia. Qed.

(** The owner of a slot is not in handshake. *)
Lemma owner_settled s j p n : wf s -> cs_slots s !! j = Some p -> cs_heap s !! p = Some n -> nodeInHandshake n = false.
Proof.
  intros Hw (Hj & m & Hm & Ht)%(wf_slots s Hw) Hn. assert (m = n) as -> by congruence.
  destruct (nodeInHandshake n) eqn:Hh; [|done]. destruct (wf_hs s Hw p n Hn Hh) as (_ & _ & H0).
  rewrite (wf_count s Hw p n Hn), (count_slots_clear _ j) in H0 by done.
  pose proof (count_slots_nonneg (Z.clearbit (cn_slots n) j)). lia.
Qed.

Section slot_ops.
Context (t : Prop) (sv : redisServer).

Lemma clusterDelSlot_spec s j : wf s ->
  wp t (clusterDelSlot j) (fun b s' => wf s' /\ slots_only s s' /\ cs_slots s' = delete j (cs_slots s)) s.
Proof.
  intros Hw. unfold clusterDelSlot. apply wp_bind, wp_getS. destruct (cs_slots s !! j) as [p|] eqn:Hp.
  2: { apply wp_ret. split; [done|]. split; [done|]. by rewrite delete_id. }
  pose proof (proj1 (wf_slots s Hw j p) Hp) as (Hj & n & Hn & Ht).
  unfold clusterNodeClearSlotBit. do 2 apply wp_bind. apply wp_deref; [done|]. intros n1 Hn1.
  assert (n1 = n) as -> by congruence. apply wp_bind, (wp_update_twice _ _ _ _ n); [done|].
  unfold bitmapTestBit, bitmapClearBit. rewrite Ht. cbn [when].
  apply wp_bind, (wp_update_twice _ _ _ _ (n <| cn_slots := Z.clearbit (cn_slots n) j |>)); [by apply lookup_insert_eq|].
  apply wp_ret, wp_bind, wp_assert; [done|intros _]. apply wp_bind, wp_modify, wp_ret.
  assert (Hb : forall i, Z.testbit (Z.clearbit (cn_slots n) j) i = if decide (i = j) then false else Z.testbit (cn_slots n) i)
    by (intros; apply clearbit_testbit; lia).
  split; [|split; [|done]].
  - eapply (wf_slot_change s _ p n (n <| cn_slots := Z.clearbit (cn_slots n) j |> <| cn_numslots := cn_numslots n - 1 |>) j false);
      try done.
    + intros q m Hm Hq. destruct (Z.testbit (cn_slots m) j) eqn:E; [|done].
      assert (cs_slots s !! j = Some q); [|congruence]. apply (wf_slots s Hw). eauto.
    + apply insert_insert_eq.
    + cbn. rewrite (wf_count s Hw p n Hn), (count_slots_clear _ j); [lia|done|done].
    + intros ->. destruct (wf_me s Hw) as (me & Hm & _ & [[]|(_ & _ & H0)]); [split; congruence|]. exfalso.
      assert (me = n) as -> by congruence. rewrite (wf_count s Hw _ n Hn), (count_slots_clear _ j) in H0 by done.
      pose proof (count_slots_nonneg (Z.clearbit (cn_slots n) j)). lia.
    + by eapply owner_settled.
  - split; try done. eapply agree_insert; [done| |apply insert_insert_eq]. done.
Qed.

(** Reads every node of the table. *)
Lemma clusterMastersHaveSlaves_run s : (forall p, p ∈ node_ptrs s -> valid s p) ->
  wp t clusterMastersHaveSlaves (fun _ s' => s' = s) s.
Proof.
  intros Hv. unfold clusterMastersHaveSlaves. apply wp_bind, wp_getS, wp_bind.
  eapply wp_mono; [apply (wp_fold_each t _ _ _ (fun _ s' => s' = s))|].
  - done.
  - intros p b s' Hp ->. apply wp_bind, wp_deref; [intros _; by apply Hv|]. intros n Hn. by apply wp_ret.
  - intros b s' ->. by apply wp_ret.
Qed.

Lemma clusterNodeSetSlotBit_spec s p n j : wf s -> cs_heap s !! p = Some n -> Z.testbit (cn_slots n) j = false ->
  wp t (clusterNodeSetSlotBit p j) (fun b s' => exists n', s' = s <| cs_heap := <[p := n']> (cs_heap s) |> /\
    slot_frame n' = slot_frame n /\ cn_slots n' = Z.setbit (cn_slots n) j /\ cn_numslots n' = cn_numslots n + 1) s.
Proof.
  intros Hw Hn Ht. unfold clusterNodeSetSlotBit. apply wp_bind, wp_deref; [done|]. intros n1 Hn1.
  assert (n1 = n) as -> by congruence. apply wp_bind, (wp_update_twice _ _ _ _ n); [done|].
  unfold bitmapTestBit, bitmapSetBit. rewrite Ht. cbn [when negb].
  apply wp_bind, wp_bind, (wp_update_twice _ _ _ _ (n <| cn_slots := Z.setbit (cn_slots n) j |>)); [by apply lookup_insert_eq|].
  set (n2 := n <| cn_slots := Z.setbit (cn_slots n) j |> <| cn_numslots := cn_numslots n + 1 |>).
  match goal with |- wp _ _ _ ?x => replace x with (s <| cs_heap := <[p := n2]> (cs_heap s) |>) end.
  2: { unfold set_field. cbn. by rewrite insert_insert_eq. }
  set (s2 := s <| cs_heap := <[p := n2]> (cs_heap s) |>).
  assert (Hn2 : cs_heap s2 !! p = Some n2) by apply lookup_insert_eq.
  apply wp_bind, wp_deref; [by eexists|]. intros n3 Hn3. assert (n3 = n2) as -> by congruence.
  apply wp_bind. eapply (wp_mono _ _ (fun _ s' => s' = s2)).
  - destruct (_ =? _); [|by apply wp_ret]. apply clusterMastersHaveSlaves_run. intros q Hq.
    change (node_ptrs s2) with (node_ptrs s) in Hq. apply (agree_valid cn_name s); [|by apply wf_node_ptrs].
    by eapply (agree_insert cn_name s s2 p n n2).
  - intros b s' ->. apply wp_when; intros _; [|apply wp_ret; by exists n2].
    apply (wp_update_twice _ _ _ _ n2); [done|]. apply wp_ret. exists (set_flag CLUSTER_NODE_MIGRATE_TO n2).
    split; [unfold set_field; cbn; by rewrite insert_insert_eq|]. split; [|done].
    pose proof (view_set_flag CLUSTER_NODE_MIGRATE_TO n2 eq_refl) as (E1 & E2 & E3 & E4 & _ & _ & E5 & E6 & E7)%view_eq.
    transitivity (slot_frame n2); [|done]. unfold slot_frame. by rewrite E1, E2, E3, E4, E5, E6, E7.
Qed.

Lemma clusterAddSlot_spec s p j : wf s -> valid s p -> 0 <= j < CLUSTER_SLOTS -> cs_slots s !! j = None ->
  (forall me, p = cs_myself s -> cs_heap s !! p = Some me -> nodeIsMaster me = true /\ cn_slaveof me = None) ->
  (forall n, cs_heap s !! p = Some n -> nodeInHandshake n = false) ->
  wp t (clusterAddSlot p j) (fun b s' => wf s' /\ slots_only s s' /\ cs_slots s' = <[j := p]> (cs_slots s)) s.
Proof.
  intros Hw [n Hn] Hj Hs Hme Hset. unfold clusterAddSlot. apply wp_bind, wp_getS. rewrite Hs.
  assert (Hfree : forall q m, cs_heap s !! q = Some m -> Z.testbit (cn_slots m) j = false).
  { intros q m Hm. destruct (Z.testbit (cn_slots m) j) eqn:E; [|done].
    assert (cs_slots s !! j = Some q); [|congruence]. apply (wf_slots s Hw). eauto. }
  apply wp_bind. eapply wp_mono; [by apply (clusterNodeSetSlotBit_spec s p n); eauto|].
  intros b s' (n' & -> & Ef & Es & Ec). apply wp_bind, wp_modify, wp_ret.
  assert (Hb : forall i, Z.testbit (cn_slots n') i = if decide (i = j) then true else Z.testbit (cn_slots n) i)
    by (intros; rewrite Es; apply setbit_testbit; lia).
  split; [|split; [|done]].
  - eapply (wf_slot_change s _ p n n' j true); try done; [by eauto| |by eauto|by eauto].
    rewrite Ec, (wf_count s Hw p n Hn). symmetry. apply (count_slots_set _ _ j); eauto.
  - split; try done. by eapply (agree_insert _ s _ p n n').
Qed.

(** Loops, with the elements already done. *)
Lemma wp_fold_each_done {A B} (l : list A) (b : B) body (I : list A -> B -> clusterState -> Prop) s :
  I [] b s ->
  (forall done x b s, x ∈ l -> I done b s -> wp t (body b x) (fun b s' => I (done ++ [x]) b s') s) ->
  wp t (fold_each l b body) (fun b s' => I l b s') s.
Proof.
  intros H0 Hb. change l with ([] ++ l) at 2. revert H0. generalize (@nil A) as pre. revert b s.
  induction l as [|x l IH]; intros b s pre H0; cbn [fold_each].
  - apply wp_ret. by rewrite app_nil_r.
  - apply wp_bind. eapply wp_mono; [apply (Hb pre); [set_solver|done]|]. intros b' s' H'. cbn beta in H'.
    rewrite cons_middle, app_assoc. apply IH; [|done]. intros. apply Hb; [set_solver|done].
Qed.

Lemma wp_for_each_done {A} (l : list A) body (I : list A -> clusterState -> Prop) s :
  I [] s ->
  (forall done x s, x ∈ l -> I done s -> wp t (body x) (fun _ s' => I (done ++ [x]) s') s) ->
  wp t (for_each l body) (fun _ s' => I l s') s.
Proof.
  intros H0 Hb. change l with ([] ++ l) at 2. revert H0. generalize (@nil A) as pre. revert s.
  induction l as [|x l IH]; intros s pre H0; cbn [for_each].
  - apply wp_ret. by rewrite app_nil_r.
  - apply wp_bind. eapply wp_mono; [apply (Hb pre); [set_solver|done]|]. intros b' s' H'. cbn beta in H'.
    rewrite cons_middle, app_assoc. apply IH; [|done]. intros. apply Hb; [set_solver|done].
Qed.

Lemma wf_no_slots s p n : wf s -> cs_heap s !! p = Some n -> (forall j, cs_slots s !! j <> Some p) -> cn_numslots n = 0.
Proof.
  intros Hw Hn Hs. rewrite (wf_count s Hw p n Hn). unfold count_slots.
  destruct (filter _ slot_range) as [|j l] eqn:E; [done|]. exfalso.
  assert (Hj : j ∈ filter (fun j => Z.testbit (cn_slots n) j = true) slot_range) by (rewrite E; set_solver).
  apply list_elem_of_filter in Hj as [Ht Hj%slot_range_elem]. apply (Hs j), (wf_slots s Hw). eauto.
Qed.

(** The slots whose owner satisfies [P] and that are in [l] become unassigned. *)
Definition slots_cleared (P : ptr -> Prop) (l : list Z) (s s' : clusterState) : Prop :=
  wf s' /\ slots_only s s' /\
  forall j p, cs_slots s' !! j = Some p <-> cs_slots s !! j = Some p /\ ~ (j ∈ l /\ P p).

Lemma clusterDelNodeSlots_spec s p : wf s -> valid s p ->
  wp t (clusterDelNodeSlots p) (fun _ s' => wf s' /\ slots_only s s' /\
    forall j q, cs_slots s' !! j = Some q <-> cs_slots s !! j = Some q /\ q <> p) s.
Proof.
  intros Hw Hv. unfold clusterDelNodeSlots.
  eapply wp_mono; [apply (wp_fold_each_done slot_range 0 _ (fun l _ s' => slots_cleared (eq p) l s s'))|].
  - split; [done|]. split; [done|]. intros. set_solver.
  - intros l j b s1 Hj (Hw1 & Ho & Hs). unfold clusterNodeGetSlotBit.
    assert (Hv1 : valid s1 p) by (by apply (agree_valid _ _ _ _ (so_heap _ _ Ho))).
    apply wp_bind, wp_bind, wp_deref; [done|]. intros n Hn. apply wp_ret. unfold bitmapTestBit.
    destruct (Z.testbit (cn_slots n) j) eqn:Ht.
    + assert (Hjp : cs_slots s1 !! j = Some p) by (apply (wf_slots s1 Hw1); apply slot_range_elem in Hj; eauto).
      apply wp_bind. eapply wp_mono; [by apply clusterDelSlot_spec|]. intros _ s2 (Hw2 & Ho2 & Hs2). apply wp_ret.
      split; [done|]. split; [by trans s1|]. intros i q. rewrite Hs2. destruct (decide (i = j)) as [->|].
      * rewrite lookup_delete_eq. split; [done|]. intros [Hq Hn']. exfalso. apply Hn'. split; [set_solver|].
        apply Hs in Hjp as [Hjp _]. congruence.
      * rewrite lookup_delete_ne by done. rewrite Hs. set_solver.
    + apply wp_ret. split; [done|]. split; [done|]. intros i q. rewrite Hs. split; [|set_solver].
      intros [Hi Hl]. split; [done|]. intros [[Hil| ->%list_elem_of_singleton]%elem_of_app <-]; [set_solver|].
      assert (cs_slots s1 !! j = Some p) as (_ & m & Hm & Hmt)%(wf_slots s1 Hw1) by (by apply Hs). congruence.
  - intros _ s' (Hw' & Ho & Hs). split; [done|]. split; [done|]. intros j q. rewrite Hs. split; intros [Hq Hp]; (split; [done|]).
    + intros ->. apply Hp. split; [|done]. apply slot_range_elem. by apply (wf_slots s Hw) in Hq as [].
    + naive_solver.
Qed.

End slot_ops.
