(* ===== verification/ClusterRoles.v ===== *)
(** Changes of role: the lists of replicas, a node that becomes a master or a
    replica, the slots that move with it, and the removal of a node. *)
From stdpp Require Import gmap.
From S2P Require Import Prelude Sds Replication Cluster ClusterInv ClusterOps ClusterSlots.

(** ** Lists of replicas *)

(** The fields of the state that only the operations on slots and on the table
    change. *)
Record tables (s s' : clusterState) : Prop := {
  tb_myself : cs_myself s' = cs_myself s;
  tb_nodes : cs_nodes s' = cs_nodes s;
  tb_slots : cs_slots s' = cs_slots s;
  tb_importing : cs_importing_slots_from s' = cs_importing_slots_from s;
  tb_migrating : cs_migrating_slots_to s' = cs_migrating_slots_to s;
  tb_next : cs_next s' = cs_next s
}.

#[global] Instance tables_equiv : Equivalence tables.
Proof. split; [by split|by intros ? ? []; split|by intros ? ? ? [] []; split; congruence]. Qed.

(** What a change of role keeps of a node. *)
Definition base (n : clusterNode) := (ident n, (cn_slots n, cn_numslots n), cn_fail_reports n).

Lemma base_eq n n' : base n' = base n -> ident n' = ident n /\ cn_name n' = cn_name n /\
  nodeInHandshake n' = nodeInHandshake n /\ cn_slots n' = cn_slots n /\ cn_numslots n' = cn_numslots n /\
  cn_fail_reports n' = cn_fail_reports n.
Proof. intros [=]. unfold ident. repeat split; congruence. Qed.

(** [changes v F s s']: [v] of node [x] becomes [F x v]. *)
Definition changes {T} (v : clusterNode -> T) (F : ptr -> T -> T) (s s' : clusterState) : Prop :=
  forall x, v <$> cs_heap s' !! x = (fun n => F x (v n)) <$> cs_heap s !! x.

Lemma changes_trans {T} (v : clusterNode -> T) F G s1 s2 s3 :
  changes v F s1 s2 -> changes v G s2 s3 -> changes v (fun x l => G x (F x l)) s1 s3.
Proof.
  intros H1 H2 x. rewrite H2. specialize (H1 x). destruct (cs_heap s2 !! x), (cs_heap s1 !! x); try done.
  cbn in *. apply Some_inj in H1. by rewrite H1.
Qed.

Lemma changes_id {T} (v : clusterNode -> T) s s' : agree v s s' -> changes v (fun _ l => l) s s'.
Proof. done. Qed.

Lemma changes_lookup {T} (v : clusterNode -> T) F s s' x n' : changes v F s s' -> cs_heap s' !! x = Some n' ->
  exists n, cs_heap s !! x = Some n /\ v n' = F x (v n).
Proof.
  intros H Hn. specialize (H x). rewrite Hn in H. destruct (cs_heap s !! x) as [n|]; [|done].
  exists n. split; [done|]. exact (Some_inj _ _ H).
Qed.

Lemma changes_fwd {T} (v : clusterNode -> T) F s s' x n : changes v F s s' -> cs_heap s !! x = Some n ->
  exists n', cs_heap s' !! x = Some n' /\ v n' = F x (v n).
Proof.
  intros H Hn. specialize (H x). rewrite Hn in H. destruct (cs_heap s' !! x) as [n'|]; [|done].
  exists n'. split; [done|]. exact (Some_inj _ _ H).
Qed.

Lemma changes_insert {T} (v : clusterNode -> T) F s s' p n n' : cs_heap s !! p = Some n ->
  cs_heap s' = <[p := n']> (cs_heap s) -> v n' = F p (v n) -> (forall x l, x <> p -> F x l = l) -> changes v F s s'.
Proof.
  intros Hn Eh Hv HF x. rewrite Eh. destruct (decide (x = p)) as [->|].
  - rewrite lookup_insert_eq, Hn. cbn. by rewrite Hv.
  - rewrite lookup_insert_ne by done. destruct (cs_heap s !! x); cbn; [|done]. by rewrite HF.
Qed.

Lemma remove_first_elem p q l : NoDup l -> q ∈ remove_first p l <-> q ∈ l /\ q <> p.
Proof.
  induction 1 as [|x l Hx Hd IH]; cbn; [set_solver|]. destruct (Z.eqb_spec x p) as [->|]; [set_solver|].
  rewrite !elem_of_cons, IH. split; [intros [->|[]]; auto|intros [[->|] ?]; auto].
Qed.

Lemma remove_first_sublist p l : remove_first p l `sublist_of` l.
Proof. induction l as [|x l IH]; cbn; [done|]. case_match; [by apply sublist_cons|by apply sublist_skip]. Qed.

Lemma remove_first_id p l : (p ∉ l) -> remove_first p l = l.
Proof. induction l as [|x l IH]; cbn; [done|]. intros. destruct (Z.eqb_spec x p); [set_solver|]. f_equal. set_solver. Qed.

(** How the lists of replicas change when the master of [p] goes from [old] to
    [new]. *)
Definition move_replica (p : ptr) (old new : option ptr) (x : ptr) (l : list ptr) : list ptr :=
  let l := if decide (old = Some x) then remove_first p l else l in
  if decide (new = Some x) then l ++ [p] else l.

Lemma move_replica_elem p old new x l q : NoDup l ->
  q ∈ move_replica p old new x l <-> (new = Some x /\ q = p) \/ (q ∈ l /\ ~ (old = Some x /\ q = p)).
Proof.
  intros Hd. unfold move_replica.
  assert (E : q ∈ (if decide (old = Some x) then remove_first p l else l) <-> q ∈ l /\ ~ (old = Some x /\ q = p)).
  { destruct (decide _); [rewrite remove_first_elem by done|]; naive_solver. }
  destruct (decide (new = Some x)); [rewrite elem_of_app, list_elem_of_singleton|]; rewrite E; naive_solver.
Qed.

Ltac base_tac := intros ? ? ?%base_eq; intuition congruence.

Section move.
Context (s s' : clusterState) (p : ptr) (n : clusterNode) (new : option ptr).
Context (Hw : wf s) (Hn : cs_heap s !! p = Some n) (Ht : tables s s') (Hb : agree base s s').
Context (Hsl : changes cn_slaves (move_replica p (cn_slaveof n) new) s s').
Context (Hso : changes cn_slaveof (fun x o => if decide (x = p) then new else o) s s').
Context (Hnew : forall q, new = Some q -> exists m, cs_heap s !! q = Some m /\ nodeInHandshake m = false).

Lemma move_old q m : cs_heap s !! q = Some m -> p ∈ cn_slaves m -> cn_slaveof n = Some q.
Proof. intros Hm Hp. destruct (proj1 (wf_repl s Hw p q)) as (n' & ? & ?); [by eauto|]. congruence. Qed.

Lemma move_slaves x q : (exists m, cs_heap s' !! q = Some m /\ x ∈ cn_slaves m) <->
  (new = Some q /\ x = p) \/ (x <> p /\ exists m, cs_heap s !! q = Some m /\ x ∈ cn_slaves m).
Proof.
  split.
  - intros (m' & Hm' & Hx). destruct (changes_lookup _ _ _ _ _ _ Hsl Hm') as (m & Hm & E). rewrite E in Hx.
    apply move_replica_elem in Hx as [[]|[Hx Ho]]; [auto| |by eapply wf_nodup]. right. split; [|eauto].
    intros ->. apply Ho. split; [|done]. by eapply move_old.
  - intros Hor. assert (exists m, cs_heap s !! q = Some m) as (m & Hm).
    { destruct Hor as [[E _]|(_ & m & ? & _)]; [|eauto]. destruct (Hnew q E) as (m & ? & _). eauto. }
    destruct (changes_fwd _ _ _ _ _ _ Hsl Hm) as (m' & Hm' & E). exists m'. split; [done|]. rewrite E.
    apply move_replica_elem; [by eapply wf_nodup|]. destruct Hor as [|(? & m1 & ? & ?)]; [auto|].
    right. assert (m1 = m) as -> by congruence. naive_solver.
Qed.

Lemma move_master x q : (exists m, cs_heap s' !! x = Some m /\ cn_slaveof m = Some q) <->
  (new = Some q /\ x = p) \/ (x <> p /\ exists m, cs_heap s !! x = Some m /\ cn_slaveof m = Some q).
Proof.
  split.
  - intros (m' & Hm' & Hx). destruct (changes_lookup _ _ _ _ _ _ Hso Hm') as (m & Hm & E). rewrite Hx in E.
    destruct (decide (x = p)); [auto|]. right. eauto.
  - intros Hor. assert (exists m, cs_heap s !! x = Some m) as (m & Hm).
    { destruct Hor as [[_ ->]|(_ & m & ? & _)]; eauto. }
    destruct (changes_fwd _ _ _ _ _ _ Hso Hm) as (m' & Hm' & E). exists m'. split; [done|]. rewrite E.
    destruct Hor as [[<- ->]|(? & m1 & ? & ?)]; [by rewrite decide_True|]. rewrite decide_False by done. congruence.
Qed.

Lemma wf_move_replica :
  (forall me, cs_heap s' !! cs_myself s = Some me ->
     nodeIsMaster me = true /\ cn_slaveof me = None \/
           nodeIsMaster me = false /\ nodeIsSlave me = true /\ cn_numslots me = 0) ->
  (new <> None -> nodeInHandshake n = false) -> inv same s s'.
Proof.
  intros Hme Hhs.
  assert (Hid : agree ident s s') by (eapply agree_weaken; [|exact Hb]; base_tac).
  split; [|by split; [apply Ht|apply Ht|]]. split.
  - apply (frame_next _ _ Hw base); [done|apply Ht].
  - apply (frame_dict _ _ Hw); [|apply Ht]. eapply agree_weaken; [|exact Hb]. base_tac.
  - rewrite (tb_myself _ _ Ht). destruct (wf_me s Hw) as (me & Hmy & Hh & _).
    destruct (agree_lookup _ _ _ _ _ Hid Hmy) as (me' & Hmy' & [= _ E]). exists me'. split; [done|]. split; [congruence|]. auto.
  - apply (frame_slots _ _ Hw); [|apply Ht]. eapply agree_weaken; [|exact Hb]. base_tac.
  - apply (frame_count _ _ Hw). eapply agree_weaken; [|exact Hb]. intros ? ? (?&?&?&?&?&?)%base_eq. congruence.
  - intros x q. rewrite move_slaves, move_master, (wf_repl s Hw). done.
  - intros x m' Hm'. destruct (changes_lookup _ _ _ _ _ _ Hsl Hm') as (m & Hm & ->). unfold move_replica.
    pose proof (wf_nodup s Hw x m Hm) as Hd.
    assert (Hd' : forall y, NoDup (remove_first y (cn_slaves m))) by (intros; eapply sublist_NoDup; [done|apply remove_first_sublist]).
    destruct (decide (new = Some x)); [|by destruct (decide _)].
    apply NoDup_app. split; [by destruct (decide _)|]. split; [|apply NoDup_singleton].
    intros y Hy ->%list_elem_of_singleton. destruct (decide (cn_slaveof n = Some x)) as [|Ho].
    + by apply remove_first_elem in Hy as [].
    + apply Ho. by eapply move_old.
  - intros x m' Hm' Hh. destruct (changes_lookup _ _ _ _ _ _ Hsl Hm') as (m & Hm & ->).
    destruct (changes_lookup _ _ _ _ _ _ Hso Hm') as (m1 & Hm1 & ->). assert (m1 = m) as -> by congruence.
    destruct (agree_lookup _ _ _ _ _ (agree_sym _ _ _ Hid) Hm') as (m2 & Hm2 & [= _ E]). assert (m2 = m) as -> by congruence.
    destruct (wf_hs s Hw x m Hm) as (E1 & E2 & E3); [congruence|]. unfold move_replica. rewrite E1, E2. split; [|split].
    3: { destruct (agree_lookup _ _ _ _ _ (agree_sym _ _ _ Hb) Hm') as (m4 & Hm4 & (_ & _ & _ & _ & E5 & _)%base_eq). congruence. }
    + destruct (decide (x = p)) as [->|]; [|done]. destruct new; [|done]. assert (m = n) as -> by congruence.
      rewrite Hhs in E; congruence.
    + destruct (decide (new = Some x)) as [Ex|]; [|by destruct (decide _)]. destruct (Hnew x Ex) as (? & ? & ?). congruence.
  - apply (frame_reports _ _ Hw). eapply agree_weaken; [|exact Hb]. base_tac.
  - apply (frame_open _ _ Hw base); [done|apply Ht|apply Ht].
Qed.
End move.

(** How an operation changes the replicas, the master and the role of nodes. *)
Definition flags_of (n : clusterNode) := (nodeIsMaster n, nodeIsSlave n).

Record role_op (F : ptr -> list ptr -> list ptr) (G : ptr -> option ptr -> option ptr) (H : ptr -> bool * bool -> bool * bool)
    (s s' : clusterState) : Prop := {
  ro_tables : tables s s';
  ro_base : agree base s s';
  ro_slaves : changes cn_slaves F s s';
  ro_slaveof : changes cn_slaveof G s s';
  ro_flags : changes flags_of H s s'
}.

Definition nothing {T} : ptr -> T -> T := fun _ l => l.
Definition at_ptr {T} (p : ptr) (f : T -> T) : ptr -> T -> T := fun x l => if decide (x = p) then f l else l.

Lemma role_op_trans F1 G1 H1 F2 G2 H2 s1 s2 s3 : role_op F1 G1 H1 s1 s2 -> role_op F2 G2 H2 s2 s3 ->
  role_op (fun x l => F2 x (F1 x l)) (fun x l => G2 x (G1 x l)) (fun x l => H2 x (H1 x l)) s1 s3.
Proof.
  intros [] []. split; [by trans s2|by eapply agree_trans|by eapply changes_trans..].
Qed.

Lemma role_op_sim s s' : sim s s' -> role_op nothing nothing nothing s s'.
Proof.
  intros Hs. assert (E : agree view s s') by exact (sim_heap _ _ Hs).
  assert (Hv : forall T (v : clusterNode -> T), (forall n n', view n' = view n -> v n' = v n) -> changes v nothing s s')
    by (intros T v Hv; exact (agree_weaken view v s s' Hv E)).
  split; [by split; apply Hs|by apply Hv; intros ? ? ?%view_eq; unfold base, ident; intuition congruence|apply Hv..];
    intros ? ? ?%view_eq; unfold flags_of; intuition congruence.
Qed.

Lemma changes_at {T} (v : clusterNode -> T) f s p n n' : cs_heap s !! p = Some n -> v n' = f (v n) ->
  changes v (at_ptr p f) s (s <| cs_heap := <[p := n']> (cs_heap s) |>).
Proof.
  intros Hn E. eapply changes_insert; [done|reflexivity|unfold at_ptr; by rewrite decide_True|].
  intros x l Hx. unfold at_ptr. by rewrite decide_False.
Qed.

Lemma role_op_insert f g h s p n n' : cs_heap s !! p = Some n -> base n' = base n -> cn_slaves n' = f (cn_slaves n) ->
  cn_slaveof n' = g (cn_slaveof n) -> flags_of n' = h (flags_of n) ->
  role_op (at_ptr p f) (at_ptr p g) (at_ptr p h) s (s <| cs_heap := <[p := n']> (cs_heap s) |>).
Proof.
  intros Hn E1 E2 E3 E4. split; [by split|by eapply agree_insert|by apply (changes_at _ _ _ _ n)..].
Qed.

Lemma changes_ext {T} (v : clusterNode -> T) F F' s s' :
  (forall x n, cs_heap s !! x = Some n -> F x (v n) = F' x (v n)) -> changes v F s s' -> changes v F' s s'.
Proof. intros E H x. rewrite H. destruct (cs_heap s !! x) eqn:Hx; [|done]. cbn. by rewrite (E x). Qed.

Lemma role_op_ext F F' G G' H H' s s' : role_op F G H s s' -> (forall x l, F x l = F' x l) -> (forall x l, G x l = G' x l) ->
  (forall x l, H x l = H' x l) -> role_op F' G' H' s s'.
Proof. intros [] EF EG EH. split; [done|done|by eapply changes_ext; [|done]; auto..]. Qed.

(** The role of [myself]. *)
Definition me_role (s : clusterState) :=
  (fun n => (flags_of n, cn_slaveof n)) <$> cs_heap s !! cs_myself s.

Lemma me_role_op F G H s s' : role_op F G H s s' -> (forall b, H (cs_myself s) b = b) -> (forall o, G (cs_myself s) o = o) ->
  me_role s' = me_role s.
Proof.
  intros [Ht _ _ HG HH] E1 E2. unfold me_role. rewrite (tb_myself _ _ Ht). specialize (HG (cs_myself s)). specialize (HH (cs_myself s)).
  destruct (cs_heap s' !! cs_myself s), (cs_heap s !! cs_myself s); try done. apply Some_inj in HG, HH.
  cbn. rewrite HG, HH, E1, E2. done.
Qed.

Lemma at_ptr_ne {T} p (f : T -> T) x l : x <> p -> at_ptr p f x l = l.
Proof. intros. unfold at_ptr. by rewrite decide_False. Qed.

Lemma at_ptr_id {T} p x (l : T) : at_ptr p id x l = nothing x l.
Proof. unfold at_ptr, nothing. by destruct (decide _). Qed.

Lemma flag_base f n (b : bool) : Z.land f ROLE = 0 -> let n' := if b then set_flag f n else clear_flag f n in
  base n' = base n /\ flags_of n' = flags_of n.
Proof.
  intros Hf. assert (E : view (if b then set_flag f n else clear_flag f n) = view n)
    by (destruct b; [by apply view_set_flag|by apply view_clear_flag]).
  apply view_eq in E. cbn zeta. unfold base, ident, flags_of. intuition congruence.
Qed.

(** A change of master of [p], whatever the steps it takes. *)
Lemma inv_role_op s s' p n new F G H : wf s -> cs_heap s !! p = Some n -> role_op F G H s s' ->
  (forall x l, F x l = move_replica p (cn_slaveof n) new x l) ->
  (forall x o, G x o = if decide (x = p) then new else o) ->
  (forall x b, x <> p -> H x b = b) ->
  (p = cs_myself s ->
     H p (flags_of n) = (true, false) /\ new = None \/ H p (flags_of n) = (false, true) /\ cn_numslots n = 0) ->
  (new <> None -> nodeInHandshake n = false) ->
  (forall q, new = Some q -> exists m, cs_heap s !! q = Some m /\ nodeInHandshake m = false) ->
  inv same s s'.
Proof.
  intros Hw Hn Hr HF HG HH Hrole Hhs Hnew. apply (wf_move_replica s s' p n new); try done; try apply Hr.
  - eapply changes_ext; [|apply Hr]. auto.
  - eapply changes_ext; [|apply Hr]. auto.
  - intros me' Hme'. destruct (changes_lookup _ _ _ _ _ _ (ro_flags _ _ _ _ _ Hr) Hme') as (me & Hme & E).
    destruct (agree_lookup _ _ _ _ _ (agree_sym _ _ _ (ro_base _ _ _ _ _ Hr)) Hme') as (m2 & Hm2 & E2).
    assert (m2 = me) as -> by congruence. apply base_eq in E2 as (_ & _ & _ & _ & <- & _).
    destruct (changes_lookup _ _ _ _ _ _ (ro_slaveof _ _ _ _ _ Hr) Hme') as (m3 & Hm3 & E3).
    assert (m3 = me) as -> by congruence. rewrite HG in E3.
    destruct (decide (cs_myself s = p)) as [Ep|].
    + rewrite Ep in *. assert (me = n) as -> by congruence. rewrite <- E in Hrole. rewrite E3.
      destruct Hrole as [[[= -> ->] ->]|[[= -> ->] ->]]; auto.
    + rewrite HH in E by done. injection E as -> ->. rewrite E3. destruct (wf_me s Hw) as (m4 & Hm4 & _ & ?).
      by assert (m4 = me) as -> by congruence.
Qed.

Section roles.
Context (t : Prop) (sv : redisServer).

Lemma clusterNodeRemoveSlave_spec s q p : valid s q ->
  wp t (clusterNodeRemoveSlave q p) (fun _ s' => role_op (at_ptr q (remove_first p)) (at_ptr q id) (at_ptr q id) s s') s.
Proof.
  intros Hv. unfold clusterNodeRemoveSlave. apply wp_bind, wp_deref; [done|]. intros m Hm. case_bool_decide.
  - apply wp_bind, (wp_update_twice _ _ _ _ m); [done|]. apply wp_ret.
    pose proof (flag_base CLUSTER_NODE_MIGRATE_TO (m <| cn_slaves := remove_first p (cn_slaves m) |>) false eq_refl) as [E1 E2].
    apply (role_op_insert _ _ _ s q m); [done|by case_bool_decide..].
  - apply wp_ret.
    replace s with (s <| cs_heap := <[q := m]> (cs_heap s) |>) at 2 by (unfold set_field; cbn; rewrite insert_id by done; by destruct s).
    apply (role_op_insert _ _ _ s q m); try done. by rewrite remove_first_id.
Qed.

Lemma clusterNodeAddSlave_spec s q m p : cs_heap s !! q = Some m -> (p ∉ cn_slaves m) ->
  wp t (clusterNodeAddSlave q p) (fun _ s' => role_op (at_ptr q (.++ [p])) (at_ptr q id) (at_ptr q id) s s') s.
Proof.
  intros Hm Hp. unfold clusterNodeAddSlave. apply wp_bind, wp_deref; [done|]. intros m' Hm'.
  assert (m' = m) as -> by congruence. rewrite bool_decide_eq_false_2 by done.
  apply wp_bind, (wp_update_twice _ _ _ _ m); [done|]. apply wp_ret.
  pose proof (flag_base CLUSTER_NODE_MIGRATE_TO (m <| cn_slaves := cn_slaves m ++ [p] |>) true eq_refl) as [E1 E2].
  by apply (role_op_insert _ _ _ s q m).
Qed.

(** [old] as the list of operations on the old master, if there is one. *)
Definition drop_from (old : option ptr) (p : ptr) : ptr -> list ptr -> list ptr :=
  match old with Some q => at_ptr q (remove_first p) | None => nothing end.

Lemma drop_from_move old p x l : drop_from old p x l = move_replica p old None x l.
Proof.
  unfold drop_from, move_replica, at_ptr, nothing. destruct old as [q|]; repeat destruct (decide _); congruence.
Qed.

(** The flags of a node that becomes a master, or a replica. *)
Lemma master_flags n : let n' := set_flag CLUSTER_NODE_MASTER (clear_flag CLUSTER_NODE_SLAVE n) in
  nodeInHandshake n' = nodeInHandshake n /\ nodeIsMaster n' = true /\ nodeIsSlave n' = false.
Proof.
  cbn zeta. unfold nodeInHandshake, nodeIsMaster, nodeIsSlave. rewrite !has_set_flag.
  rewrite (has_cleared _ _ CLUSTER_NODE_SLAVE) by done. rewrite (has_clear_flag _ _ CLUSTER_NODE_HANDSHAKE) by done.
  by rewrite orb_false_r, orb_true_r.
Qed.

Lemma slave_flags n :
  let n' := set_flag CLUSTER_NODE_SLAVE (clear_flag (Z.lor CLUSTER_NODE_MASTER CLUSTER_NODE_MIGRATE_TO) n) in
  nodeInHandshake n' = nodeInHandshake n /\ nodeIsMaster n' = false /\ nodeIsSlave n' = true.
Proof.
  cbn zeta. unfold nodeInHandshake, nodeIsMaster, nodeIsSlave. rewrite !has_set_flag.
  rewrite (has_cleared _ _ CLUSTER_NODE_MASTER) by done. rewrite (has_clear_flag _ _ CLUSTER_NODE_HANDSHAKE) by done.
  by rewrite orb_false_r, orb_true_r.
Qed.

Lemma clusterSetNodeAsMaster_ok s p : wf s -> valid s p ->
  wp t (clusterSetNodeAsMaster p) (fun _ s' => inv same s s' /\ tables s s' /\
    (p <> cs_myself s -> me_role s' = me_role s) /\
    exists n, cs_heap s' !! p = Some n /\ nodeIsMaster n = true) s.
Proof.
  intros Hw [n Hn]. unfold clusterSetNodeAsMaster. apply wp_bind, wp_deref; [done|]. intros n' Hn'.
  assert (n' = n) as -> by congruence. clear Hn'. destruct (nodeIsMaster n) eqn:Em.
  { apply wp_ret. split; [exact (inv_refl same s Hw)|]. split; [done|]. split; [done|]. eauto. }
  apply wp_bind. apply (wp_mono _ _ (fun _ s' => role_op (drop_from (cn_slaveof n) p) nothing nothing s s')).
  { unfold drop_from. destruct (cn_slaveof n) as [q|] eqn:Eq; [|apply wp_ret; by apply role_op_sim].
    apply wp_bind. eapply wp_mono; [apply clusterNodeRemoveSlave_spec; by eapply wf_slaveof|]. intros ? s1 Hr.
    apply wp_bind, wp_getS, wp_when; intros _.
    - destruct (agree_lookup _ _ _ _ _ (ro_base _ _ _ _ _ Hr) Hn) as (n1 & Hn1 & _).
      apply (wp_update_twice _ _ _ _ n1); [done|].
      assert (sim s1 (s1 <| cs_heap := <[p := set_flag CLUSTER_NODE_MIGRATE_TO n1]> (cs_heap s1) |>))
        as Hs by (by apply (sim_update s1 p n1); [|apply view_set_flag]).
      eapply role_op_ext; [exact (role_op_trans _ _ _ _ _ _ _ _ _ Hr (role_op_sim _ _ Hs))|done|..]; intros; apply at_ptr_id.
    - eapply role_op_ext; [exact Hr|done|..]; intros; apply at_ptr_id. }
  intros ? s1 Hr. destruct (agree_lookup _ _ _ _ _ (ro_base _ _ _ _ _ Hr) Hn) as (n1 & Hn1 & E1).
  apply wp_bind, (wp_update_twice _ _ _ _ n1); [done|]. apply wp_modify.
  set (n2 := set_flag CLUSTER_NODE_MASTER (clear_flag CLUSTER_NODE_SLAVE (n1 <| cn_slaveof := None |>))).
  pose proof (master_flags (n1 <| cn_slaveof := None |>)) as (F1 & F2 & F3). fold n2 in F1, F2, F3.
  match goal with |- inv _ _ ?x /\ _ => set (s2 := x) end.
  assert (Hr2 : role_op (at_ptr p id) (at_ptr p (fun _ => None)) (at_ptr p (fun _ => (true, false))) s1 s2).
  { eapply role_op_ext; [eapply (role_op_trans _ _ _ nothing nothing nothing)|done..].
    - apply (role_op_insert id (fun _ => None) (fun _ => (true, false)) s1 p n1 n2); [done| |done|done|].
      + unfold base, ident. by rewrite F1.
      + unfold flags_of. by rewrite F2, F3.
    - by apply role_op_sim. }
  pose proof (role_op_trans _ _ _ _ _ _ _ _ _ Hr Hr2) as Hr3. split; [|split; [|split]].
  - apply (inv_role_op s s2 p n None _ _ _ Hw Hn Hr3); [|done|..].
    + intros x l. rewrite at_ptr_id. apply drop_from_move.
    + intros x b Hx. unfold at_ptr. by rewrite decide_False.
    + left. unfold at_ptr. by rewrite decide_True.
    + done.
    + done.
  - apply Hr3.
  - intros Hp. apply (me_role_op _ _ _ _ _ Hr3); intros; by apply at_ptr_ne.
  - exists n2. split; [apply lookup_insert_eq|done].
Qed.

(** The master of [p] becomes [q]: the two orders of the code. *)
Lemma add_to_move old q p x l : at_ptr q (.++ [p]) x (drop_from old p x l) = move_replica p old (Some q) x l.
Proof.
  unfold drop_from, move_replica, at_ptr, nothing. destruct old as [r|]; repeat destruct (decide _); congruence.
Qed.

(** The old master, if any, forgets [p]. *)
Lemma drop_old_ok s p n : wf s -> cs_heap s !! p = Some n ->
  wp t (match cn_slaveof n with Some r => clusterNodeRemoveSlave r p;; mret tt | None => mret tt end)
    (fun _ s' => role_op (drop_from (cn_slaveof n) p) nothing nothing s s') s.
Proof.
  intros Hw Hn. unfold drop_from. destruct (cn_slaveof n) as [q|] eqn:Eq; [|apply wp_ret; by apply role_op_sim].
  apply wp_bind. eapply wp_mono; [apply clusterNodeRemoveSlave_spec; by eapply wf_slaveof|]. intros ? s1 Hr. apply wp_ret.
  eapply role_op_ext; [exact Hr|done|..]; intros; apply at_ptr_id.
Qed.

(** After that, [p] is in no list. *)
Lemma drop_old_notin s s' p n q m : wf s -> cs_heap s !! p = Some n ->
  changes cn_slaves (drop_from (cn_slaveof n) p) s s' -> cs_heap s' !! q = Some m -> (p ∉ cn_slaves m).
Proof.
  intros Hw Hn Hr Hm Hp. destruct (changes_lookup _ _ _ _ _ _ Hr Hm) as (m1 & Hm1 & E).
  rewrite E, drop_from_move, move_replica_elem in Hp by (by eapply wf_nodup). destruct Hp as [[]|[Hp Hq]]; [done|].
  apply Hq. split; [|done]. by eapply move_old.
Qed.

(** The rest of a change of master, once the old one forgot [p]. *)
Lemma join_ok s s1 p n q H (first : bool) (Q : unit -> clusterState -> Prop) : wf s -> cs_heap s !! p = Some n ->
  nodeInHandshake n = false -> (exists m, cs_heap s !! q = Some m /\ nodeInHandshake m = false) ->
  role_op (drop_from (cn_slaveof n) p) nothing H s s1 ->
  (forall x b, x <> p -> H x b = b) -> (p = cs_myself s -> H p (flags_of n) = (false, true) /\ cn_numslots n = 0) ->
  (forall s', inv same s s' -> tables s s' -> (p <> cs_myself s -> me_role s' = me_role s) -> Q tt s') ->
  wp t (if first then update p (fun n => n <| cn_slaveof := Some q |>);; clusterNodeAddSlave q p;; mret tt
        else clusterNodeAddSlave q p;; update p (fun n => n <| cn_slaveof := Some q |>)) Q s1.
Proof.
  intros Hw Hn Hh (m & Hm & Hmh) Hr HH Hrole HQ.
  assert (Hend : forall s', role_op (at_ptr q (.++ [p])) (at_ptr p (fun _ => Some q)) nothing s1 s' -> Q tt s').
  { intros s' Hr'. pose proof (role_op_trans _ _ _ _ _ _ _ _ _ Hr Hr') as Hr2.
    apply HQ; [|apply Hr2|intros Hp; apply (me_role_op _ _ _ _ _ Hr2); intros; [by apply HH|by apply at_ptr_ne]].
    apply (inv_role_op s s' p n (Some q) _ _ _ Hw Hn Hr2); [|done|done| |done|].
    - intros. apply add_to_move.
    - intros E. right. by apply Hrole.
    - intros ? [= <-]. eauto. }
  assert (Hset : forall s2 n2, cs_heap s2 !! p = Some n2 ->
    role_op nothing (at_ptr p (fun _ => Some q)) nothing s2 (s2 <| cs_heap := <[p := n2 <| cn_slaveof := Some q |>]> (cs_heap s2) |>)).
  { intros s2 n2 Hn2. eapply role_op_ext; [by apply (role_op_insert id (fun _ => Some q) id s2 p n2)|..]; try done; intros; apply at_ptr_id. }
  destruct (agree_lookup _ _ _ _ _ (ro_base _ _ _ _ _ Hr) Hn) as (n1 & Hn1 & _).
  destruct (agree_lookup _ _ _ _ _ (ro_base _ _ _ _ _ Hr) Hm) as (m1 & Hm1 & _).
  pose proof (drop_old_notin s s1 p n q m1 Hw Hn (ro_slaves _ _ _ _ _ Hr) Hm1) as Hnot.
  destruct first.
  - apply wp_bind, (wp_update_twice _ _ _ _ n1); [done|]. specialize (Hset s1 n1 Hn1).
    destruct (changes_fwd _ _ _ _ _ _ (ro_slaves _ _ _ _ _ Hset) Hm1) as (m2 & Hm2 & E2).
    apply wp_bind. eapply wp_mono; [apply (clusterNodeAddSlave_spec _ q m2); [done|by rewrite E2]|].
    intros ? s3 Hr3. apply wp_ret, Hend.
    eapply role_op_ext; [exact (role_op_trans _ _ _ _ _ _ _ _ _ Hset Hr3)|done|..]; intros; apply at_ptr_id.
  - apply wp_bind. eapply wp_mono; [by apply (clusterNodeAddSlave_spec _ q m1)|]. intros ? s2 Hr2.
    destruct (agree_lookup _ _ _ _ _ (ro_base _ _ _ _ _ Hr2) Hn1) as (n2 & Hn2 & _).
    apply (wp_update_twice _ _ _ _ n2); [done|]. apply Hend.
    eapply role_op_ext; [exact (role_op_trans _ _ _ _ _ _ _ _ _ Hr2 (Hset s2 n2 Hn2))|done|..]; intros; unfold nothing; by rewrite at_ptr_id.
Qed.

Lemma wf_myself_role s me : wf s -> cs_heap s !! cs_myself s = Some me ->
  if nodeIsMaster me then cn_slaveof me = None else flags_of me = (false, true) /\ cn_numslots me = 0.
Proof.
  intros Hw Hm. destruct (wf_me s Hw) as (me' & Hm' & _ & Hr). assert (me' = me) as -> by congruence.
  unfold flags_of. destruct (nodeIsMaster me); naive_solver congruence.
Qed.

(** [myself] leaves its role, and gets ready to be a replica. *)
Definition close_slots (s : clusterState) : clusterState :=
  s <| cs_migrating_slots_to := ∅ |> <| cs_importing_slots_from := ∅ |>.

Lemma close_slots_inv s : wf s -> inv same s (close_slots s).
Proof.
  intros Hw. split; [|by split]. destruct Hw. split; try done. intros j p [?|?]; by cbn in *.
Qed.

Definition leave_role (me : clusterNode) (myself : ptr) : cl unit :=
  if nodeIsMaster me then
    update myself (fun n => set_flag CLUSTER_NODE_SLAVE
      (clear_flag (Z.lor CLUSTER_NODE_MASTER CLUSTER_NODE_MIGRATE_TO) n));;
    clusterCloseAllSlots
  else match cn_slaveof me with Some q => clusterNodeRemoveSlave q myself;; mret tt | None => mret tt end.

Lemma leave_role_ok s me : wf s -> cs_heap s !! cs_myself s = Some me ->
  wp t (leave_role me (cs_myself s)) (fun _ s1 => exists s0 H, inv same s s0 /\ cs_heap s0 = cs_heap s /\
    cs_slots s0 = cs_slots s /\ role_op (drop_from (cn_slaveof me) (cs_myself s)) nothing H s0 s1 /\
    H (cs_myself s) (flags_of me) = (false, true) /\ forall x b, x <> cs_myself s -> H x b = b) s.
Proof.
  intros Hw Hm. pose proof (wf_myself_role s me Hw Hm) as Hr. unfold leave_role. destruct (nodeIsMaster me).
  - apply wp_bind, (wp_update_twice _ _ _ _ me); [done|]. apply wp_modify.
    pose proof (slave_flags me) as (F1 & F2 & F3). cbn zeta in F1, F2, F3.
    exists (close_slots s), (at_ptr (cs_myself s) (fun _ => (false, true))). split; [by apply close_slots_inv|].
    split; [done|]. split; [done|]. split; [|split].
    + rewrite Hr. eapply role_op_ext; [apply (role_op_insert id id (fun _ => (false, true)) (close_slots s) _ me)|..]; try done.
      * unfold base, ident. by rewrite F1.
      * unfold flags_of. by rewrite F2, F3.
      * intros. apply at_ptr_id.
      * intros. apply at_ptr_id.
    + unfold at_ptr. by rewrite decide_True.
    + intros x b Hx. unfold at_ptr. by rewrite decide_False.
  - eapply wp_mono; [by apply drop_old_ok|]. intros ? s1 Ho. exists s, nothing.
    split; [exact (inv_refl same s Hw)|]. split; [done|]. split; [done|]. split; [done|]. split; [apply Hr|done].
Qed.

Lemma clusterSetMaster_ok s p m : wf s -> cs_heap s !! p = Some m -> nodeInHandshake m = false ->
  (t -> p <> cs_myself s) -> (t -> forall me, cs_heap s !! cs_myself s = Some me -> cn_numslots me = 0) ->
  wp t (clusterSetMaster p) (fun _ s' => inv same s s' /\ cs_slots s' = cs_slots s) s.
Proof.
  intros Hw Hp Hh Hne Hns. unfold clusterSetMaster. apply wp_bind, wp_getS.
  apply wp_bind, wp_assert; [intros Ht; specialize (Hne Ht); lia|]. intros Hpm.
  destruct (wf_me s Hw) as (me & Hme & Hmh & _).
  apply wp_bind, wp_deref; [by eexists|]. intros me' Hme'. assert (me' = me) as -> by congruence.
  apply wp_bind, wp_assert; [intros Ht; specialize (Hns Ht me Hme); lia|]. intros Hnum.
  apply wp_bind. eapply wp_mono; [by apply leave_role_ok|].
  intros ? s1 (s0 & H & [Hw0 Hs0] & Eh0 & Es0 & Hr & HH1 & HH2). cbn beta.
  rewrite <- (same_myself _ _ Hs0), <- Eh0 in *.
  apply wp_bind. eapply wp_mono.
  { eapply wp_bind_inv, (join_ok s0 s1 (cs_myself s0) me p H true (fun _ s' => inv same s0 s' /\ cs_slots s' = cs_slots s)); eauto.
    - intros _. split; [done|lia].
    - intros s' Hi Ht _. split; [done|]. rewrite <- Es0. apply Ht. }
  intros ? s2 Hs2. apply wp_bind. eapply wp_mono; [apply wp_bind_inv, Hs2|]. intros ? s3 [Hi3 Es3].
  pose proof (inv_wf _ _ _ Hi3) as Hw3.
  assert (Hv : valid s3 p) by (eapply (inv_valid same); [done|by eexists]).
  apply wp_bind, wp_deref; [done|]. intros m3 Hm3. apply wp_bind, wp_emit.
  eapply wp_mono; [by apply resetManualFailover_ok|]. intros ? s4 Hi4. split.
  - eapply (inv_trans same); [split; [exact Hw0|exact Hs0]|]. eapply (inv_trans same); [exact Hi3|by apply (inv_of_sim same)].
  - destruct Hi4 as [_ Hi4]. by rewrite (sim_slots _ _ Hi4).
Qed.

End roles.
