(* ===== verification/ClusterConfig.v ===== *)
(** The slots a node claims ([clusterUpdateSlotsConfigWith]), and the failover
    that moves the slots of a master to its replica. *)
From stdpp Require Import gmap.
From S2P Require Import Prelude Sds Replication Cluster ClusterInv ClusterOps ClusterSlots ClusterRoles.

(** ** Claims on slots *)

(** A claimed slot changes hands: it is not being imported, and it has no owner,
    or one with a smaller epoch. *)
Definition takes_slot (s : clusterState) (sender : ptr) (senderConfigEpoch slots j : Z) : bool :=
  (0 <=? j) && (j <? CLUSTER_SLOTS) && bitmapTestBit slots j && bool_decide (cs_importing_slots_from s !! j = None) &&
  match cs_slots s !! j with
  | None => true
  | Some p => negb (p =? sender) &&
              match cs_heap s !! p with Some n => cn_configEpoch n <? senderConfigEpoch | None => false end
  end.

Section config.
Context (t : Prop) (sv : redisServer).

Definition rebound (s : clusterState) sender epoch slots (l : list Z) (s' : clusterState) : Prop :=
  wf s' /\ slots_only s s' /\
  forall j, cs_slots s' !! j = if bool_decide (j ∈ l) && takes_slot s sender epoch slots j then Some sender else cs_slots s !! j.

(** What the code tests in the middle of the loop is what holds at its start. *)
Lemma takes_slot_frame s s1 sender epoch slots j : wf s -> slots_only s s1 -> cs_slots s1 !! j = cs_slots s !! j ->
  takes_slot s1 sender epoch slots j = takes_slot s sender epoch slots j.
Proof.
  intros Hw Ho E. unfold takes_slot. rewrite E, (so_importing _ _ Ho). f_equal. destruct (cs_slots s !! j) as [p|] eqn:Ep; [|done].
  destruct (wf_owner s j p Hw Ep) as [n Hn]. destruct (agree_lookup _ _ _ _ _ (so_heap _ _ Ho) Hn) as (n1 & Hn1 & E1).
  apply slot_frame_eq in E1 as (_ & E1 & _). by rewrite Hn, Hn1, E1.
Qed.

(** One slot changes hands. *)
Lemma rebind_one s j p : wf s -> valid s p -> 0 <= j < CLUSTER_SLOTS -> p <> cs_myself s ->
  (forall n, cs_heap s !! p = Some n -> nodeInHandshake n = false) ->
  wp t (clusterDelSlot j) (fun _ s1 => wp t (clusterAddSlot p j) (fun _ s2 =>
    wf s2 /\ slots_only s s2 /\ cs_slots s2 = <[j := p]> (cs_slots s)) s1) s.
Proof.
  intros Hw Hv Hj Hp Hset. eapply wp_mono; [by apply clusterDelSlot_spec|]. intros ? s1 (Hw1 & Ho1 & Es1).
  eapply wp_mono; [apply clusterAddSlot_spec; try done|].
  - by apply (agree_valid _ _ _ _ (so_heap _ _ Ho1)).
  - rewrite Es1. apply lookup_delete_eq.
  - rewrite (so_myself _ _ Ho1). congruence.
  - by eapply settled_frame.
  - intros ? s2 (Hw2 & Ho2 & Es2). split; [done|]. split; [by trans s1|]. by rewrite Es2, Es1, insert_delete_eq.
Qed.

Lemma rebound_skip s sender epoch slots l j s1 : rebound s sender epoch slots l s1 ->
  (takes_slot s sender epoch slots j = true -> j ∈ l) -> rebound s sender epoch slots (l ++ [j]) s1.
Proof.
  intros (Hw1 & Ho & Hs) Hno. split; [done|]. split; [done|]. intros i. rewrite Hs.
  destruct (takes_slot s sender epoch slots i) eqn:Et; [|by rewrite !andb_false_r].
  rewrite !andb_true_r, (bool_decide_ext (i ∈ l ++ [j]) (i ∈ l)); [done|].
  rewrite elem_of_app, list_elem_of_singleton. split; [|auto]. intros [?| ->]; auto.
Qed.

Lemma rebound_take s sender epoch slots l j s1 s2 : rebound s sender epoch slots l s1 ->
  takes_slot s sender epoch slots j = true -> wf s2 -> slots_only s1 s2 -> cs_slots s2 = <[j := sender]> (cs_slots s1) ->
  rebound s sender epoch slots (l ++ [j]) s2.
Proof.
  intros (_ & Ho & Hs) Ht Hw2 Ho2 Es2. split; [done|]. split; [by trans s1|]. intros i. rewrite Es2.
  destruct (decide (i = j)) as [->|Hij].
  - by rewrite lookup_insert_eq, Ht, bool_decide_eq_true_2 by set_solver.
  - rewrite lookup_insert_ne, Hs by done. rewrite (bool_decide_ext (i ∈ l ++ [j]) (i ∈ l)); [done|].
    rewrite elem_of_app, list_elem_of_singleton. naive_solver.
Qed.

Lemma rebind_slot_ok s sender curmaster epoch slots l c j s1 : wf s -> valid s sender -> sender <> cs_myself s ->
  (forall n, cs_heap s !! sender = Some n -> nodeInHandshake n = false) -> j ∈ slot_range -> rebound s sender epoch slots l s1 ->
  wp t (rebind_slot sv sender curmaster epoch slots c j) (fun _ s2 => rebound s sender epoch slots (l ++ [j]) s2) s1.
Proof.
  intros Hw Hv Hne Hset Hj Hrb. pose proof Hrb as (Hw1 & Ho & Hs). apply slot_range_elem in Hj.
  unfold rebind_slot. destruct (bitmapTestBit slots j) eqn:Eb; cbn [negb].
  2: { apply wp_ret, rebound_skip; [done|]. unfold takes_slot. by rewrite Eb, andb_false_r. }
  apply wp_bind, wp_getS. case_bool_decide as Eo.
  { apply wp_ret, rebound_skip; [done|]. intros Ht. rewrite Hs in Eo.
    destruct (bool_decide (j ∈ l)) eqn:El; [by apply bool_decide_eq_true in El|].
    unfold takes_slot in Ht. cbn in Eo. by rewrite Eo, Z.eqb_refl, andb_false_r in Ht. }
  assert (Hnow : takes_slot s1 sender epoch slots j = takes_slot s sender epoch slots j).
  { apply takes_slot_frame; [done|done|]. rewrite Hs in *. by destruct (bool_decide (j ∈ l) && _). }
  case_bool_decide as Ei; cbn [negb].
  2: { apply wp_ret, rebound_skip; [done|]. rewrite <- Hnow. unfold takes_slot.
       by rewrite (bool_decide_eq_false_2 _ Ei), andb_false_r. }
  apply wp_bind. eapply (wp_mono _ _ (fun b s' => s' = s1 /\ b = takes_slot s1 sender epoch slots j)).
  { unfold takes_slot. rewrite Eb, (bool_decide_eq_true_2 _ Ei), !(proj2 (Z.leb_le _ _)), (proj2 (Z.ltb_lt _ _)) by lia.
    destruct (cs_slots s1 !! j) as [p|] eqn:Ep; [|by apply wp_ret].
    destruct (wf_owner s1 j p Hw1 Ep) as [n Hn]. apply wp_bind, wp_deref; [by eexists|]. intros n' Hn'. apply wp_ret.
    split; [done|]. rewrite Hn'. destruct (Z.eqb_spec p sender); [congruence|done]. }
  intros b s' [-> ->]. rewrite Hnow.
  destruct (takes_slot s sender epoch slots j) eqn:Et; [|apply wp_ret, rebound_skip; [done|congruence]].
  apply wp_bind. eapply wp_mono; [apply (rebind_one s1 j sender)|]; [done| |done| |by eapply settled_frame|].
  - by apply (agree_valid _ _ _ _ (so_heap _ _ Ho)).
  - by rewrite (so_myself _ _ Ho).
  - intros ? s2 H2. apply wp_bind. eapply wp_mono; [exact H2|]. intros ? s3 (Hw3 & Ho3 & Es3).
    apply wp_bind, wp_modify, wp_ret. eapply rebound_take; [done|done| | |exact Es3].
    + eapply wf_sim; [|exact Hw3]. by split.
    + trans s3; [done|]. by split.
Qed.

(** The claims of [sender] are applied: every slot it claims goes to it, except
    those being imported and those whose owner has a greater or equal epoch. *)
Lemma clusterUpdateSlotsConfigWith_spec s sender n epoch slots : wf s -> cs_heap s !! sender = Some n ->
  nodeInHandshake n = false ->
  (t -> forall me, cs_heap s !! cs_myself s = Some me -> nodeIsMaster me = true \/ cn_slaveof me <> None) ->
  wp t (clusterUpdateSlotsConfigWith sv sender epoch slots) (fun _ s' => inv same s s' /\
    forall j, cs_slots s' !! j = if negb (sender =? cs_myself s) && takes_slot s sender epoch slots j
                                 then Some sender else cs_slots s !! j) s.
Proof.
  intros Hw Hn Hh Hcur. unfold clusterUpdateSlotsConfigWith. apply wp_bind, wp_getS.
  destruct (wf_me s Hw) as (me & Hme & _). apply wp_bind, wp_deref; [by eexists|]. intros me' Hme'.
  assert (me' = me) as -> by congruence. clear Hme'. specialize (fun Ht => Hcur Ht me Hme).
  destruct (Z.eqb_spec sender (cs_myself s)) as [|Hne]; cbn [negb andb].
  { apply wp_ret. split; [exact (inv_refl same s Hw)|done]. }
  set (curmaster := if nodeIsMaster me then Some (cs_myself s) else cn_slaveof me).
  apply wp_bind. eapply wp_mono.
  { apply (wp_fold_each_done t slot_range _ _ (fun l _ s' => rebound s sender epoch slots l s')).
    - split; [done|]. split; [done|]. intros. by rewrite bool_decide_eq_false_2 by set_solver.
    - intros. apply rebind_slot_ok; try done; [by eexists|congruence]. }
  intros c s1 (Hw1 & Ho & Hs).
  assert (Hi1 : inv same s s1) by (split; [done|by apply slots_only_same]).
  assert (Hs1 : forall j, cs_slots s1 !! j = if takes_slot s sender epoch slots j then Some sender else cs_slots s !! j).
  { intros j. rewrite Hs. destruct (takes_slot s sender epoch slots j) eqn:Et; [|by rewrite andb_false_r].
    rewrite bool_decide_eq_true_2; [done|]. apply slot_range_elem. unfold takes_slot in Et. lia. }
  clear Hs. destruct (negb (Z.land (sv_module_flags sv) _ =? 0)); [by apply wp_ret|].
  destruct (agree_lookup _ _ _ _ _ (so_heap _ _ Ho) Hme) as (me1 & Hme1 & E1). rewrite <- (so_myself _ _ Ho) in Hme1.
  apply slot_frame_eq in E1 as (_ & _ & _ & Em & _ & _ & Eslv & _).
  destruct (agree_lookup _ _ _ _ _ (so_heap _ _ Ho) Hn) as (n1 & Hn1 & En). apply slot_frame_eq in En as (_ & _ & En & _).
  apply wp_bind. eapply (wp_mono _ _ (fun b s' => s' = s1 /\ (b = true -> cn_numslots me1 = 0))).
  { destruct (c_newmaster c); [|by apply wp_ret]. unfold curmaster in *.
    pose proof (wf_myself_role s1 me1 Hw1 Hme1) as Hrole. rewrite Em in Hrole. destruct (nodeIsMaster me).
    - rewrite <- (so_myself _ _ Ho). apply wp_bind, wp_deref; [by eexists|]. intros m Hm. apply wp_ret.
      assert (m = me1) as -> by congruence. split; [done|lia].
    - destruct (cn_slaveof me) as [q|] eqn:Eq; [|apply wp_fail; intros Ht; by destruct (Hcur Ht)].
      apply wp_bind, wp_deref; [intros _; eapply (wf_slaveof s1 _ me1); [done..|congruence]|]. intros m Hm. apply wp_ret.
      split; [done|]. intros _. apply Hrole. }
  intros b s' [-> Hb]. destruct (b && _) eqn:Eb.
  - apply andb_prop in Eb as [-> _]. apply wp_bind.
    eapply wp_mono; [apply (clusterSetMaster_ok t s1 sender n1 Hw1 Hn1); [congruence| |]|].
    + intros _. by rewrite (so_myself _ _ Ho).
    + intros _ me2 Hme2. assert (me2 = me1) as -> by congruence. auto.
    + intros ? s2 [Hi2 Es2]. apply wp_modify. split; [|intros j; by cbn; rewrite Es2].
      eapply (inv_trans same); [exact Hi1|]. eapply (inv_trans same); [exact Hi2|].
      apply (inv_of_sim same), inv_sim; [by eapply inv_wf|by split].
  - eapply wp_mono; [apply (wp_for_each t _ _ (fun s' => s' = s1)); [done|]|].
    + intros j s' _ ->. by apply wp_emit.
    + intros ? s' ->. done.
Qed.

(** ** Failover *)

(** The slots of [old] in [l] went to [new]. *)
Definition moved (old new : ptr) (l : list Z) (s s' : clusterState) : Prop :=
  wf s' /\ slots_only s s' /\
  forall j, cs_slots s' !! j = if bool_decide (j ∈ l /\ cs_slots s !! j = Some old) then Some new else cs_slots s !! j.

Lemma claim_slot_ok s old j l s1 : wf s -> valid s old -> j ∈ slot_range ->
  (forall me, cs_heap s !! cs_myself s = Some me -> nodeIsMaster me = true) ->
  moved old (cs_myself s) l s s1 ->
  wp t (b ← clusterNodeGetSlotBit old j; when b (clusterDelSlot j;; clusterAddSlot (cs_myself s) j;; mret tt))
    (fun _ s2 => moved old (cs_myself s) (l ++ [j]) s s2) s1.
Proof.
  intros Hw Hv Hj Hme (Hw1 & Ho & Hs). apply slot_range_elem in Hj.
  assert (Hv1 : valid s1 old) by (by apply (agree_valid _ _ _ _ (so_heap _ _ Ho))).
  apply wp_bind, wp_bind, wp_deref; [done|]. intros n Hn. apply wp_ret, wp_when; unfold bitmapTestBit; intros Hb.
  - assert (Hold : cs_slots s1 !! j = Some old) by (apply (wf_slots s1 Hw1); eauto).
    assert (Hold0 : cs_slots s !! j = Some old).
    { rewrite Hs in Hold. case_bool_decide as E; [by destruct E|done]. }
    apply wp_bind. eapply wp_mono; [by apply clusterDelSlot_spec|]. intros ? s2 (Hw2 & Ho2 & Es2).
    assert (Ho' : slots_only s s2) by (by trans s1).
    apply wp_bind. eapply wp_mono; [apply clusterAddSlot_spec; [done| |done| | |]|].
    + apply (agree_valid _ _ _ _ (so_heap _ _ Ho')). by apply wf_myself.
    + rewrite Es2. apply lookup_delete_eq.
    + intros me2 _ Hme2. destruct (wf_me s2 Hw2) as (me3 & Hme3 & _ & Hr). rewrite (so_myself _ _ Ho') in Hme3.
      assert (me3 = me2) as -> by congruence.
      destruct (agree_lookup _ _ _ _ _ (agree_sym _ _ _ (so_heap _ _ Ho')) Hme2) as (me & Hme0 & E).
      apply slot_frame_eq in E as (_ & _ & _ & E & _). specialize (Hme _ Hme0). destruct Hr as [|[]]; congruence.
    + intros me2 Hme2. destruct (wf_me s2 Hw2) as (me3 & Hme3 & ? & _). rewrite (so_myself _ _ Ho') in Hme3. congruence.
    + intros ? s3 (Hw3 & Ho3 & Es3). apply wp_ret. split; [done|]. split; [by trans s2|]. intros i. rewrite Es3, Es2.
      destruct (decide (i = j)) as [->|].
      * rewrite lookup_insert_eq, bool_decide_eq_true_2; [done|]. set_solver.
      * rewrite lookup_insert_ne, lookup_delete_ne, Hs by done. erewrite bool_decide_ext; [done|]. set_solver.
  - split; [done|]. split; [done|]. intros i. rewrite Hs. destruct (decide (i = j)) as [->|].
    + destruct (decide (cs_slots s !! j = Some old)) as [E|E].
      * rewrite (bool_decide_eq_true_2 (_ ∈ l ++ _ /\ _)) by set_solver. case_bool_decide as El; [done|].
        assert (cs_slots s1 !! j = Some old) as (_ & m & Hm & Hmt)%(wf_slots s1 Hw1); [|congruence].
        rewrite Hs. by rewrite bool_decide_eq_false_2.
      * by rewrite !bool_decide_eq_false_2 by naive_solver.
    + erewrite bool_decide_ext; [done|]. set_solver.
Qed.

(** The replica takes the slots of its master. *)
Lemma clusterFailoverReplaceYourMaster_spec s me : wf s -> cs_heap s !! cs_myself s = Some me ->
  wp t (clusterFailoverReplaceYourMaster sv) (fun _ s' => inv same s s' /\
    forall j, cs_slots s' !! j =
      if nodeIsMaster me then cs_slots s !! j
      else match cn_slaveof me with
           | Some old => if bool_decide (cs_slots s !! j = Some old) then Some (cs_myself s) else cs_slots s !! j
           | None => cs_slots s !! j
           end) s.
Proof.
  intros Hw Hme. unfold clusterFailoverReplaceYourMaster. apply wp_bind, wp_getS.
  apply wp_bind, wp_deref; [by eexists|]. intros me' Hme'. assert (me' = me) as -> by congruence. clear Hme'.
  assert (Hskip : inv same s s) by exact (inv_refl same s Hw).
  destruct (cn_slaveof me) as [old|] eqn:Eo; [|apply wp_ret; split; [done|by destruct (nodeIsMaster me)]].
  destruct (nodeIsMaster me) eqn:Em; [by apply wp_ret|].
  assert (Hold : valid s old) by (by eapply wf_slaveof).
  apply wp_bind. eapply wp_mono; [apply clusterSetNodeAsMaster_ok; [done|by apply wf_myself]|].
  intros ? s1 (Hi1 & Ht1 & _ & me1 & Hme1 & Emm). pose proof (inv_wf _ _ _ Hi1) as Hw1.
  apply wp_bind, wp_emit, wp_bind. rewrite <- (tb_myself _ _ Ht1). eapply wp_mono.
  { apply (wp_for_each_done t slot_range _ (fun l s' => moved old (cs_myself s1) l s1 s')).
    - split; [done|]. split; [done|]. intros. by rewrite bool_decide_eq_false_2 by set_solver.
    - intros l j s2 Hj Hm. apply claim_slot_ok; [done|by eapply (inv_valid same)|done| |done].
      intros m Hm'. rewrite (tb_myself _ _ Ht1) in Hm'. congruence. }
  intros ? s2 (Hw2 & Ho2 & Hs2). cbn beta.
  assert (Hi2 : inv same s s2) by (eapply (inv_trans same); [exact Hi1|split; [done|by apply slots_only_same]]).
  assert (Hend : wp t (clusterUpdateState sv;; emit SaveConfig;; clusterBroadcastPong sv CLUSTER_BROADCAST_ALL;; resetManualFailover)
                   (fun _ s' => inv sim s2 s') s2) by (cl_start; cl_auto).
  eapply wp_mono; [exact Hend|]. intros ? s3 Hi3. split; [eapply (inv_trans same); [exact Hi2|by apply (inv_of_sim same)]|].
  intros j. destruct Hi3 as [_ Hi3]. rewrite (sim_slots _ _ Hi3), Hs2, (tb_slots _ _ Ht1).
  erewrite bool_decide_ext; [done|]. split; [by intros []|]. intros E. split; [|done].
  apply slot_range_elem. by apply (wf_slots s Hw) in E as [].
Qed.

End config.
