(* ===== verification/ClusterRemove.v ===== *)
(** The removal of a node ([clusterDelNode], [freeClusterNode]) keeps the
    invariant: no slot, no report and no replica refers to it any more. *)
From stdpp Require Import gmap.
From S2P Require Import Prelude Sds Replication Cluster ClusterInv ClusterOps ClusterSlots ClusterRoles.

(** What the first steps keep of a node. *)
Definition who (n : clusterNode) := (ident n, flags_of n, cn_slaves n, cn_slaveof n).

(** Nothing refers to [p] as the owner or the peer of a slot of [l]. *)
Definition unowned (p : ptr) (l : list Z) (s : clusterState) : Prop :=
  forall j, j ∈ l -> cs_slots s !! j <> Some p /\ cs_importing_slots_from s !! j <> Some p /\ cs_migrating_slots_to s !! j <> Some p.

Lemma drop_slot_refs_lookup p j m i q : drop_slot_refs p j m !! i = Some q <-> m !! i = Some q /\ ~ (i = j /\ q = p).
Proof.
  unfold drop_slot_refs. case_bool_decide as E.
  - destruct (decide (i = j)) as [->|]; [rewrite lookup_delete_eq|rewrite lookup_delete_ne by done]; naive_solver.
  - split; [|naive_solver]. intros Hi. split; [done|]. intros [-> ->]. done.
Qed.

Lemma inv_fewer_open s imp mig : wf s ->
  (forall j p, imp !! j = Some p -> cs_importing_slots_from s !! j = Some p) ->
  (forall j p, mig !! j = Some p -> cs_migrating_slots_to s !! j = Some p) ->
  inv same s (s <| cs_importing_slots_from := imp |> <| cs_migrating_slots_to := mig |>).
Proof.
  intros Hw H1 H2. split; [|by split]. pose proof (wf_open s Hw) as Ho. destruct Hw. split; try done. cbn. intros j p [?|?]; auto.
Qed.

(** Slots only lose their owner, and open slots are only closed. *)
Definition shrink (s s' : clusterState) : Prop :=
  cs_slots s' ⊆ cs_slots s /\ cs_importing_slots_from s' ⊆ cs_importing_slots_from s /\ cs_migrating_slots_to s' ⊆ cs_migrating_slots_to s.

#[global] Instance shrink_preorder : PreOrder shrink.
Proof. split; [by intros s|]. intros s1 s2 s3 (? & ? & ?) (? & ? & ?). split_and!; by etrans. Qed.

Lemma shrink_tables s s' : tables s s' -> shrink s s'.
Proof. intros [_ _ E1 E2 E3 _]. unfold shrink. by rewrite E1, E2, E3. Qed.

Section ops.
Context (t : Prop) (sv : redisServer).

Lemma clear_slots_ok s p : wf s ->
  wp t (for_each slot_range (fun j =>
    modify (fun s => s <| cs_importing_slots_from := drop_slot_refs p j (cs_importing_slots_from s) |>);;
    modify (fun s => s <| cs_migrating_slots_to := drop_slot_refs p j (cs_migrating_slots_to s) |>);;
    s ← getS;
    when (bool_decide (cs_slots s !! j = Some p)) (clusterDelSlot j;; mret tt)))
  (fun _ s' => inv same s s' /\ (agree who s s' /\ shrink s s') /\ unowned p slot_range s') s.
Proof.
  intros Hw. apply (wp_for_each_done t slot_range _ (fun l s' => inv same s s' /\ (agree who s s' /\ shrink s s') /\ unowned p l s')).
  { split; [exact (inv_refl same s Hw)|]. split; [done|]. intros j ?. set_solver. }
  intros l j s1 Hj (Hi1 & (Ha1 & Hk1) & Hu). apply wp_bind, wp_modify, wp_bind, wp_modify, wp_bind, wp_getS.
  match goal with |- wp _ _ _ ?x => set (s2 := x) end.
  assert (Hi2 : inv same s1 s2).
  { apply (inv_fewer_open s1 (drop_slot_refs p j (cs_importing_slots_from s1)) (drop_slot_refs p j (cs_migrating_slots_to s1)));
      [exact (inv_wf _ _ _ Hi1)|..]; by intros i q [? _]%drop_slot_refs_lookup. }
  pose proof (inv_trans same _ _ _ Hi1 Hi2) as Hi. pose proof (inv_wf _ _ _ Hi) as Hw2.
  assert (Hk2 : shrink s s2).
  { etrans; [exact Hk1|]. split; [done|]. split; apply map_subseteq_spec; by intros i q [? _]%drop_slot_refs_lookup. }
  assert (Hopen : forall i q, i ∈ l ++ [j] ->
    (cs_importing_slots_from s2 !! i = Some q -> q <> p) /\ (cs_migrating_slots_to s2 !! i = Some q -> q <> p)).
  { intros i q Hil. split; intros [Hq Hn]%drop_slot_refs_lookup ->;
      (apply elem_of_app in Hil as [Hil| ->%list_elem_of_singleton]; [by destruct (Hu i Hil) as (? & ? & ?)|by apply Hn]). }
  apply wp_when; intros Hb.
  - apply wp_bind. eapply wp_mono; [by apply clusterDelSlot_spec|]. intros ? s3 (Hw3 & Ho3 & Es3). apply wp_ret. split.
    { eapply (inv_trans same); [exact Hi|]. split; [done|by apply slots_only_same]. }
    split; [split|].
    + eapply agree_trans; [exact Ha1|]. apply (agree_weaken slot_frame); [|apply (so_heap _ _ Ho3)].
      intros m m' E%slot_frame_eq. unfold who, ident, flags_of. intuition congruence.
    + etrans; [exact Hk2|]. split; [rewrite Es3; apply delete_subseteq|]. by rewrite (so_importing _ _ Ho3), (so_migrating _ _ Ho3).
    + intros i Hil. rewrite (so_importing _ _ Ho3), (so_migrating _ _ Ho3). split; [|split; intros E; by apply (Hopen i p Hil) in E].
      rewrite Es3. destruct (decide (i = j)) as [->|]; [by rewrite lookup_delete_eq|]. rewrite lookup_delete_ne by done.
      apply elem_of_app in Hil as [Hil|?%list_elem_of_singleton]; [|done]. by destruct (Hu i Hil).
  - split; [done|]. split; [by split|]. intros i Hil. split; [|split; intros E; by apply (Hopen i p Hil) in E].
    apply bool_decide_eq_false in Hb. apply elem_of_app in Hil as [Hil| ->%list_elem_of_singleton]; [|done]. by destruct (Hu i Hil).
Qed.

(** Reports are only removed. *)
Record fewer_reports (s s' : clusterState) : Prop := {
  fr_tables : tables s s';
  fr_who : agree who s s';
  fr_reports : forall x n', cs_heap s' !! x = Some n' ->
    exists n, cs_heap s !! x = Some n /\ (cn_fail_reports n').*1 ⊆ (cn_fail_reports n).*1
}.

Lemma fewer_reports_trans s1 s2 s3 : fewer_reports s1 s2 -> fewer_reports s2 s3 -> fewer_reports s1 s3.
Proof.
  intros [T1 A1 H1] [T2 A2 H2]. split; [by trans s2|by eapply agree_trans|]. intros x n3 (n2 & Hn2 & E2)%H2. destruct (H1 x n2 Hn2) as (n1 & ? & ?).
  exists n1. split; [done|]. by trans (cn_fail_reports n2).*1.
Qed.

Lemma fewer_reports_set s q n r : cs_heap s !! q = Some n -> r.*1 ⊆ (cn_fail_reports n).*1 ->
  fewer_reports s (s <| cs_heap := <[q := n <| cn_fail_reports := r |>]> (cs_heap s) |>).
Proof.
  intros Hn Hr. split; [by split|by apply (agree_insert _ _ _ q n (n <| cn_fail_reports := r |>))|]. cbn. intros x n'. rewrite lookup_insert_Some. intros [[<- <-]|[_ ?]]; eauto.
Qed.

Lemma del_report_notin q l : NoDup l.*1 -> q ∉ (del_report q l).*1.
Proof.
  induction l as [|[x y] l IH]; cbn; [set_solver|]. rewrite NoDup_cons. intros [Hx Hd]. destruct (Z.eqb_spec x q) as [->|]; [done|].
  cbn. set_solver.
Qed.

Lemma clusterNodeDelFailureReport_spec s q p : wf s -> valid s q ->
  wp t (clusterNodeDelFailureReport sv q p) (fun _ s' => inv same s s' /\ fewer_reports s s' /\
    forall n, cs_heap s' !! q = Some n -> p ∉ (cn_fail_reports n).*1) s.
Proof.
  intros Hw [n Hn]. unfold clusterNodeDelFailureReport. apply wp_bind, wp_deref; [by eexists|]. intros n' Hn'.
  assert (n' = n) as -> by congruence. clear Hn'. destruct (wf_reports s Hw q n Hn) as [Hd Hr]. case_bool_decide as Hin.
  2: { apply wp_ret. split; [exact (inv_refl same s Hw)|]. split; [|congruence]. split; [done..|]. intros x m Hm. eauto. }
  set (r := del_report p (cn_fail_reports n)). pose proof (del_report_sublist p (cn_fail_reports n)) as Hs.
  apply (fmap_sublist fst) in Hs.
  apply wp_bind, (wp_update_twice _ _ _ _ n); [done|]. unfold clusterNodeCleanupFailureReports.
  apply wp_bind, (wp_update_twice _ _ _ _ (n <| cn_fail_reports := r |>)); [apply lookup_insert_eq|]. apply wp_ret.
  set (r' := filter _ _). assert (Hs' : r'.*1 `sublist_of` r.*1) by (apply fmap_sublist, sublist_filter).
  match goal with |- inv _ _ ?x /\ _ => replace x with (s <| cs_heap := <[q := n <| cn_fail_reports := r' |>]> (cs_heap s) |>) end.
  2: { unfold set_field. cbn. by rewrite insert_insert_eq. }
  split; [|split].
  - apply inv_set_reports; [done|done| |].
    + eapply sublist_NoDup; [exact Hd|]. by etrans.
    + intros x Hx. apply Hr. eapply (sublist_subseteq _ _ Hs), (sublist_subseteq _ _ Hs'), Hx.
  - apply fewer_reports_set; [done|]. etrans; [apply (sublist_subseteq _ _ Hs')|apply (sublist_subseteq _ _ Hs)].
  - cbn. rewrite lookup_insert_eq. intros m [= <-] Hx%(sublist_subseteq _ _ Hs'). by apply (del_report_notin p (cn_fail_reports n)).
Qed.

Lemma clear_reports_ok s p : wf s ->
  wp t (for_each (node_ptrs s) (fun q => when (negb (q =? p)) (clusterNodeDelFailureReport sv q p;; mret tt)))
    (fun _ s' => inv same s s' /\ tables s s' /\ agree who s s' /\
       forall q n, q <> p -> cs_heap s' !! q = Some n -> p ∉ (cn_fail_reports n).*1) s.
Proof.
  intros Hw. eapply wp_mono.
  { apply (wp_for_each_done t _ _ (fun l s' => inv same s s' /\ fewer_reports s s' /\
      forall q n, q ∈ l -> q <> p -> cs_heap s' !! q = Some n -> p ∉ (cn_fail_reports n).*1)).
    - split; [exact (inv_refl same s Hw)|]. split; [|intros q n Hq; set_solver]. split; [done..|]. eauto.
    - intros l q s1 Hq (Hi1 & Hf1 & Hl1).
      assert (Hv : valid s1 q) by (eapply (inv_valid same); [exact Hi1|by apply wf_node_ptrs]).
      apply wp_when; intros Hb.
      + apply wp_bind. eapply wp_mono; [apply clusterNodeDelFailureReport_spec; [exact (inv_wf _ _ _ Hi1)|done]|].
        intros ? s2 (Hi2 & Hf2 & Hn2). apply wp_ret. split; [by eapply (inv_trans same)|].
        split; [by eapply fewer_reports_trans|]. intros x m [Hx| ->%list_elem_of_singleton]%elem_of_app Hne Hm; [|by eapply Hn2].
        destruct (fr_reports _ _ Hf2 x m Hm) as (m1 & Hm1 & Hsub). intros Hp%Hsub. by eapply Hl1.
      + split; [done|]. split; [done|]. intros x m [Hx| ->%list_elem_of_singleton]%elem_of_app Hne Hm; [by eapply Hl1|lia]. }
  intros ? s' (Hi & Hf & Hl). split; [done|]. split; [apply Hf|]. split; [apply Hf|]. intros q n Hne Hn. eapply Hl; [|done|done].
  destruct (same_lookup s' s q n) as (n0 & Hn0 & _); [symmetry; apply Hi|done|].
  apply list_elem_of_fmap. exists (cn_name n0, q). split; [done|]. apply elem_of_map_to_list, (wf_dict s Hw). eauto.
Qed.

(** The node itself stays, with its name. *)
Definition me_same (s s' : clusterState) : Prop :=
  cs_myself s' = cs_myself s /\ cn_name <$> cs_heap s' !! cs_myself s' = cn_name <$> cs_heap s !! cs_myself s.

Lemma me_same_trans s1 s2 s3 : me_same s1 s2 -> me_same s2 s3 -> me_same s1 s3.
Proof. intros [E1 H1] [E2 H2]. split; congruence. Qed.

Lemma inv_me_same R `{Keep R} s s' : wf s -> inv R s s' -> me_same s s'.
Proof.
  intros Hw [_ H1]. apply keep_grow in H1 as [E H1]. split; [done|]. rewrite E.
  destruct (wf_me s Hw) as (me & Hme & _). destruct (H1 _ _ Hme) as (me' & Hme' & [= E1 _]). rewrite Hme, Hme'. cbn. by f_equal.
Qed.

Lemma wf_hs_not_me s p n : wf s -> cs_heap s !! p = Some n -> nodeInHandshake n = true -> p <> cs_myself s.
Proof. intros Hw Hn Hh ->. destruct (wf_me s Hw) as (me & ? & ? & _). congruence. Qed.

(** The replicas of [p] lose their master, and its master loses a replica. *)
Definition orphan (p : ptr) (o : option ptr) : option ptr := if decide (o = Some p) then None else o.

(** The node [m'] at [x] when [p] was removed, from the node [m]. *)
Definition leftover (p : ptr) (n : clusterNode) (x : ptr) (m m' : clusterNode) : Prop :=
  base m' = base m /\ cn_slaves m' = move_replica p (cn_slaveof n) None x (cn_slaves m) /\
  cn_slaveof m' = orphan p (cn_slaveof m) /\ flags_of m' = flags_of m.

Lemma role_op_back F G H s s' x m' : role_op F G H s s' -> cs_heap s' !! x = Some m' ->
  exists m, cs_heap s !! x = Some m /\ base m' = base m /\ cn_slaves m' = F x (cn_slaves m) /\
            cn_slaveof m' = G x (cn_slaveof m) /\ flags_of m' = H x (flags_of m).
Proof.
  intros [_ Hb HF HG HH] Hm'. destruct (changes_lookup _ _ _ _ _ _ HF Hm') as (m & Hm & E1).
  destruct (changes_lookup _ _ _ _ _ _ HG Hm') as (m2 & Hm2 & E2). destruct (changes_lookup _ _ _ _ _ _ HH Hm') as (m3 & Hm3 & E3).
  destruct (agree_lookup _ _ _ _ _ (agree_sym _ _ _ Hb) Hm') as (m4 & Hm4 & E4). exists m. split; [done|]. split; [congruence|]. intuition congruence.
Qed.

Lemma role_op_fwd F G H s s' x m : role_op F G H s s' -> cs_heap s !! x = Some m -> exists m', cs_heap s' !! x = Some m'.
Proof. intros [_ _ HF _ _] Hm. destruct (changes_fwd _ _ _ _ _ _ HF Hm) as (m' & ? & _). eauto. Qed.

Section del.
Context (s s' : clusterState) (p : ptr) (n : clusterNode).
Context (Hw : wf s) (Hn : cs_heap s !! p = Some n) (Hne : p <> cs_myself s) (Hu : unowned p slot_range s).
Context (Hr : forall q m, q <> p -> cs_heap s !! q = Some m -> p ∉ (cn_fail_reports m).*1).
Context (del_back : forall x m', cs_heap s' !! x = Some m' -> x <> p /\ exists m, cs_heap s !! x = Some m /\ leftover p n x m m').
Context (del_fwd : forall x m, x <> p -> cs_heap s !! x = Some m -> exists m', cs_heap s' !! x = Some m').
Context (En : cs_nodes s' = delete (cn_name n) (cs_nodes s)) (Em : cs_myself s' = cs_myself s).
Context (Es : cs_slots s' = cs_slots s) (Ei : cs_importing_slots_from s' = cs_importing_slots_from s).
Context (Eg : cs_migrating_slots_to s' = cs_migrating_slots_to s) (Ex : cs_next s' = cs_next s).

Lemma del_repl x q : (exists m, cs_heap s' !! q = Some m /\ x ∈ cn_slaves m) <->
                     (exists m, cs_heap s' !! x = Some m /\ cn_slaveof m = Some q).
Proof.
  assert (Hp : forall q m, cs_heap s !! q = Some m -> p ∈ cn_slaves m -> cn_slaveof n = Some q).
  { intros q' m Hm Hin. destruct (proj1 (wf_repl s Hw p q')) as (n' & ? & ?); [by eauto|]. congruence. }
  split.
  - intros (m' & (Hq & m & Hm & _ & E & _)%del_back & Hx). rewrite E in Hx.
    apply move_replica_elem in Hx as [[]|[Hx Hold]]; [done| |by eapply wf_nodup].
    assert (Hxp : x <> p) by (intros ->; apply Hold; split; [by eapply Hp|done]).
    destruct (proj1 (wf_repl s Hw x q)) as (nx & Hnx & Ex'); [by eauto|]. destruct (del_fwd x nx Hxp Hnx) as (nx' & Hnx').
    exists nx'. split; [done|]. apply del_back in Hnx' as (_ & m2 & Hm2 & _ & _ & -> & _). assert (m2 = nx) as -> by congruence.
    unfold orphan. rewrite Ex', decide_False by congruence. done.
  - intros (m' & (Hx & m & Hm & _ & _ & E & _)%del_back & Eq). rewrite E in Eq. unfold orphan in Eq. destruct (decide _) as [|Ho]; [done|].
    assert (Hq : q <> p) by congruence. destruct (proj2 (wf_repl s Hw x q)) as (mq & Hmq & Hin); [by eauto|].
    destruct (del_fwd q mq Hq Hmq) as (mq' & Hmq'). exists mq'. split; [done|].
    apply del_back in Hmq' as (_ & m2 & Hm2 & _ & -> & _). assert (m2 = mq) as -> by congruence.
    apply move_replica_elem; [by eapply wf_nodup|]. right. split; [done|]. by intros [_ ->].
Qed.

Lemma wf_del_node : wf s'.
Proof.
  assert (Hv : forall q, q <> p -> is_Some (cs_heap s !! q) -> is_Some (cs_heap s' !! q)).
  { intros q Hq [m Hm]. destruct (del_fwd q m Hq Hm) as (m' & ?). by exists m'. }
  split.
  - intros q m (_ & m0 & Hm & _)%del_back. rewrite Ex. by eapply wf_next.
  - intros nm q. rewrite En, lookup_delete_Some, (wf_dict s Hw). split.
    + intros (Hd & m & Hm & E). destruct (del_fwd q m) as (m' & Hm'); [congruence|done|]. exists m'. split; [done|].
      apply del_back in Hm' as (_ & m0 & Hm0 & (_ & -> & _)%base_eq & _). congruence.
    + intros (m & (Hq & m0 & Hm & (_ & E0 & _)%base_eq & _)%del_back & E). split; [|exists m0; split; [done|congruence]]. intros E2. apply Hq.
      assert (cs_nodes s !! nm = Some q) by (apply (wf_dict s Hw); exists m0; split; [done|congruence]).
      assert (cs_nodes s !! nm = Some p) by (apply (wf_dict s Hw); eauto). congruence.
  - destruct (wf_me s Hw) as (me & Hme & Hh & Hrole). destruct (del_fwd _ me (not_eq_sym Hne) Hme) as (me' & Hme').
    exists me'. rewrite Em. split; [done|]. apply del_back in Hme' as (_ & m0 & Hm0 & (_ & _ & -> & _ & -> & _)%base_eq & _ & -> & [= -> ->]).
    assert (m0 = me) as -> by congruence. split; [done|]. destruct Hrole as [[? E]|?]; [left|by right]. split; [done|]. by rewrite E.
  - intros j q. rewrite Es. split.
    + intros E. pose proof E as (Hj & m & Hm & Ht)%(wf_slots s Hw). split; [done|].
      destruct (del_fwd q m) as (m' & Hm'); [intros ->; by destruct (Hu j) as [? _]; [apply slot_range_elem|]|done|].
      exists m'. split; [done|]. apply del_back in Hm' as (_ & m0 & Hm0 & (_ & _ & _ & -> & _)%base_eq & _). congruence.
    + intros (Hj & m & (_ & m0 & Hm & (_ & _ & _ & E & _)%base_eq & _)%del_back & Ht). rewrite E in Ht. apply (wf_slots s Hw). eauto.
  - intros q m (_ & m0 & Hm & (_ & _ & _ & -> & -> & _)%base_eq & _)%del_back. by eapply wf_count.
  - apply del_repl.
  - intros q m (_ & m0 & Hm & _ & -> & _)%del_back. pose proof (wf_nodup s Hw q m0 Hm). unfold move_replica.
    rewrite (decide_False (P := None = Some q)) by done. cbv zeta.
    destruct (decide (_ = Some q)); [|done]. eapply sublist_NoDup; [done|apply remove_first_sublist].
  - intros q m (_ & m0 & Hm & (_ & _ & -> & _ & -> & _)%base_eq & -> & -> & _)%del_back Hh. destruct (wf_hs s Hw q m0 Hm Hh) as (-> & -> & ->).
    split; [done|]. split; [|done]. unfold move_replica. rewrite (decide_False (P := None = Some q)) by done. cbv zeta. by destruct (decide (_ = Some q)).
  - intros q m (Hq & m0 & Hm & (_ & _ & _ & _ & _ & ->)%base_eq & _)%del_back. destruct (wf_reports s Hw q m0 Hm) as [Hd Hin].
    split; [done|]. intros x Hx. apply Hv; [|by apply Hin]. intros ->. by apply (Hr q m0 Hq Hm).
  - intros j q Hj. rewrite Ei, Eg in Hj. destruct (wf_open s Hw j q Hj) as [? ?]. split; [done|]. apply Hv; [|done].
    intros ->. destruct (Hu j) as (_ & ? & ?); [by apply slot_range_elem|]. by destruct Hj.
Qed.

End del.

(** What is left of the others. *)
Definition removed (p : ptr) (s s' : clusterState) : Prop :=
  cs_myself s' = cs_myself s /\
  forall x, (fun n => (ident n, flags_of n, cn_slaveof n)) <$> cs_heap s' !! x =
    if decide (x = p) then None else (fun n => (ident n, flags_of n, orphan p (cn_slaveof n))) <$> cs_heap s !! x.

Lemma clear_masters_ok s p n : wf s -> cs_heap s !! p = Some n ->
  wp t (for_each (cn_slaves n) (fun q => update q (fun r => r <| cn_slaveof := None |>)))
    (fun _ s' => role_op nothing (fun x => orphan p) nothing s s') s.
Proof.
  intros Hw Hn.
  eapply wp_mono.
  { apply (wp_for_each_done t (cn_slaves n) _ (fun l s' =>
      role_op nothing (fun x o => if decide (x ∈ l) then None else o) nothing s s')).
    - eapply role_op_ext; [by apply role_op_sim|done| |done]. intros x o. by rewrite decide_False by set_solver.
    - intros l q s1 Hq H1. assert (Hv : valid s q) by (by eapply wf_slaves).
      destruct Hv as [r Hr]. destruct (role_op_fwd _ _ _ _ _ _ _ H1 Hr) as (r1 & Hr1).
      apply (wp_update_twice _ _ _ _ r1); [done|].
      eapply role_op_ext; [eapply role_op_trans; [exact H1|apply (role_op_insert id (fun _ => None) id s1 q r1); done]|..].
      + intros x o. apply at_ptr_id.
      + intros x o. cbn. unfold at_ptr. repeat destruct (decide _); set_solver.
      + intros x o. apply at_ptr_id. }
  intros ? s' [H1 H2 H3 H4 H5]. split; try done. eapply changes_ext; [|exact H4].
  intros x m Hm. cbn. unfold orphan.
  assert (x ∈ cn_slaves n <-> cn_slaveof m = Some p) as Hiff.
  { pose proof (wf_repl s Hw x p) as E. split; intros Hx.
    - destruct (proj1 E) as (m' & ? & ?); [by eauto|]. congruence.
    - destruct (proj2 E) as (m' & ? & ?); [by eauto|]. congruence. }
  destruct (decide (x ∈ _)), (decide (_ = _)); tauto.
Qed.

(** [n] is off the list of its master. *)
Lemma leave_master_ok s p n : wf s -> cs_heap s !! p = Some n -> (cn_slaveof n <> None -> nodeIsSlave n = true) ->
  forall s1 n1, role_op nothing (fun x => orphan p) nothing s s1 -> cs_heap s1 !! p = Some n1 ->
  wp t (match cn_slaveof n1 with
        | Some q => when (nodeIsSlave n1) (clusterNodeRemoveSlave q p;; mret tt)
        | None => mret tt
        end)
    (fun _ s2 => tables s s2 /\ (forall x m, cs_heap s !! x = Some m -> exists m', cs_heap s2 !! x = Some m') /\
       forall x m', cs_heap s2 !! x = Some m' -> exists m, cs_heap s !! x = Some m /\ base m' = base m /\
         (x <> p -> leftover p n x m m')) s1.
Proof.
  intros Hw Hn Hs s1 n1 H1 Hn1. destruct (role_op_back _ _ _ _ _ _ _ H1 Hn1) as (n0 & Hn0 & Eb & _ & Eo & [= _ Ef]).
  assert (n0 = n) as -> by congruence. clear Hn0. unfold orphan in Eo. destruct (cn_slaveof n1) as [q|] eqn:Eq.
  - destruct (decide _) as [|Hne]; [done|]. rewrite <- Eo in *. rewrite Ef, (Hs ltac:(done)). cbn [when].
    assert (Hv : valid s1 q). { destruct (wf_slaveof s p n q Hw Hn (eq_sym Eo)) as [r Hr]. exact (role_op_fwd _ _ _ _ _ _ _ H1 Hr). }
    apply wp_bind. eapply wp_mono; [by apply clusterNodeRemoveSlave_spec|]. intros ? s2 H2. apply wp_ret.
    pose proof (role_op_trans _ _ _ _ _ _ _ _ _ H1 H2) as H3. split; [apply H3|]. split; [intros x m; by apply (role_op_fwd _ _ _ _ _ _ _ H3)|].
    intros x m' Hm'. destruct (role_op_back _ _ _ _ _ _ _ H3 Hm') as (m & Hm & E1 & E2 & E3 & E4). exists m. split; [done|]. split; [done|].
    intros Hx. split; [done|]. rewrite at_ptr_id in E3. rewrite at_ptr_id in E4. split; [|done]. rewrite E2, <- Eo. unfold at_ptr, nothing, move_replica.
    rewrite (decide_False (P := None = Some x)) by done. cbv zeta. destruct (decide (x = q)), (decide (Some q = Some x)); congruence.
  - apply wp_ret. split; [apply H1|]. split; [intros x m; by apply (role_op_fwd _ _ _ _ _ _ _ H1)|].
    intros x m' Hm'. destruct (role_op_back _ _ _ _ _ _ _ H1 Hm') as (m & Hm & E1 & E2 & E3 & E4). exists m. split; [done|]. split; [done|].
    intros Hx. split; [done|]. split; [|done]. rewrite E2. unfold nothing, move_replica.
    rewrite (decide_False (P := None = Some x)) by done. cbv zeta. destruct (decide (_ = Some x)) as [E|]; [|done]. exfalso.
    rewrite E in Eo. destruct (decide (Some x = Some p)) as [[= ->]|]; done.
Qed.

Lemma removed_leftover s s' p n : cs_myself s' = cs_myself s ->
  (forall x m', cs_heap s' !! x = Some m' -> x <> p /\ exists m, cs_heap s !! x = Some m /\ leftover p n x m m') ->
  (forall x m, x <> p -> cs_heap s !! x = Some m -> exists m', cs_heap s' !! x = Some m') -> removed p s s'.
Proof.
  intros Em Hb Hf. split; [done|]. intros x. destruct (cs_heap s' !! x) as [m'|] eqn:Hm'.
  - destruct (Hb x m' Hm') as (Hx & m & Hm & (E1 & _)%base_eq & _ & E2 & E3). rewrite decide_False, Hm by done. cbn. by rewrite E1, E2, E3.
  - destruct (decide (x = p)) as [|Hx]; [done|]. destruct (cs_heap s !! x) as [m|] eqn:Hm; [|done].
    destruct (Hf x m Hx Hm) as (m' & ?). congruence.
Qed.

Lemma freeClusterNode_ok s p n : wf s -> cs_heap s !! p = Some n -> p <> cs_myself s ->
  (cn_slaveof n <> None -> nodeIsSlave n = true) -> unowned p slot_range s ->
  (forall q m, q <> p -> cs_heap s !! q = Some m -> p ∉ (cn_fail_reports m).*1) ->
  wp t (freeClusterNode p) (fun _ s' => wf s' /\ removed p s s' /\ cs_nodes s' = delete (cn_name n) (cs_nodes s) /\ shrink s s') s.
Proof.
  intros Hw Hn Hne Hs Hu Hr. unfold freeClusterNode.
  apply wp_bind, wp_deref; [by eexists|]. intros n' Hn'. assert (n' = n) as -> by congruence. clear Hn'.
  apply wp_bind. eapply wp_mono; [by apply clear_masters_ok|]. intros ? s1 H1.
  destruct (role_op_fwd _ _ _ _ _ _ _ H1 Hn) as (n1 & Hn1). apply wp_bind, wp_deref; [by eexists|]. intros n' Hn'.
  assert (n' = n1) as -> by congruence. clear Hn'. apply wp_bind. eapply wp_mono; [by apply (leave_master_ok s p n)|].
  intros ? s2 (Ht & Hf & Hb). destruct (Hf p n Hn) as (n2 & Hn2). apply wp_bind, wp_deref; [by eexists|]. intros n' Hn'.
  assert (n' = n2) as -> by congruence. clear Hn'. destruct (Hb p n2 Hn2) as (n0 & Hn0 & (_ & Enm & _)%base_eq & _).
  assert (n0 = n) as -> by congruence. clear Hn0. rewrite Enm.
  assert (Hd : cs_nodes s2 !! cn_name n = Some p) by (rewrite (tb_nodes _ _ Ht); apply (wf_dict s Hw); eauto).
  unfold dict_delete_node. apply wp_bind, wp_bind, wp_getS, wp_bind, wp_assert; [intros _; by rewrite Hd|].
  intros _. apply wp_modify, wp_bind. set (s3 := s2 <| cs_nodes := delete (cn_name n) (cs_nodes s2) |>).
  apply (wp_mono _ _ (fun _ s4 => exists n4, s4 = s3 <| cs_heap := <[p := n4]> (cs_heap s2) |>)).
  { unfold freeNodeLink. apply wp_bind, wp_deref; [by eexists|]. intros n' Hn'. destruct (cn_link n').
    - apply wp_bind, (wp_update_twice _ _ _ _ n'); [done|]. apply wp_emit. eauto.
    - apply wp_ret. exists n2. unfold s3, set_field. cbn. by rewrite insert_id. }
  intros ? s4 (n4 & ->). apply wp_modify. unfold s3, set_field. cbn. rewrite delete_insert_eq.
  match goal with |- wf ?x /\ _ => set (s5 := x) end. destruct Ht.
  assert (Hb5 : forall x m', cs_heap s5 !! x = Some m' -> x <> p /\ exists m, cs_heap s !! x = Some m /\ leftover p n x m m').
  { intros x m'. cbn. rewrite lookup_delete_Some. intros [Hx Hm']. split; [done|]. destruct (Hb x m' Hm') as (m & ? & ? & ?). eauto. }
  assert (Hf5 : forall x m, x <> p -> cs_heap s !! x = Some m -> exists m', cs_heap s5 !! x = Some m').
  { intros x m Hx Hm. cbn. rewrite lookup_delete_ne by done. eauto. }
  split; [|split; [by eapply removed_leftover|split; [cbn; congruence|unfold shrink; cbn; by rewrite tb_slots, tb_importing, tb_migrating]]]. eapply (wf_del_node s s5 p n); try done. cbn. congruence.
Qed.

Lemma agree_who_lookup s s' x n' : agree who s s' -> cs_heap s' !! x = Some n' -> exists n, cs_heap s !! x = Some n /\ who n = who n'.
Proof. intros H Hn. destruct (agree_lookup _ _ _ _ _ (agree_sym _ _ _ H) Hn) as (n & ? & ?). eauto. Qed.

Lemma removed_agree p s1 s2 s3 : cs_myself s2 = cs_myself s1 -> agree who s1 s2 -> removed p s2 s3 -> removed p s1 s3.
Proof.
  intros Em Ha [Em' H]. split; [congruence|]. intros x. rewrite H. destruct (decide _); [done|]. specialize (Ha x).
  destruct (cs_heap s2 !! x), (cs_heap s1 !! x); try done. apply Some_inj in Ha. injection Ha as E1 E2 E3 E4 E5 E6.
  cbn. unfold ident, flags_of. congruence.
Qed.

Lemma clusterDelNode_ok s p n : wf s -> cs_heap s !! p = Some n -> p <> cs_myself s ->
  (cn_slaveof n <> None -> nodeIsSlave n = true) ->
  wp t (clusterDelNode sv p) (fun _ s' => wf s' /\ removed p s s' /\ cs_nodes s' = delete (cn_name n) (cs_nodes s) /\ shrink s s') s.
Proof.
  intros Hw Hn Hne Hs. unfold clusterDelNode. apply wp_bind. eapply wp_mono; [by apply clear_slots_ok|].
  intros ? s1 (Hi1 & (Ha1 & Hk1) & Hu1). pose proof (inv_wf _ _ _ Hi1) as Hw1.
  apply wp_bind, wp_getS, wp_bind. eapply wp_mono; [by apply clear_reports_ok|]. intros ? s2 (Hi2 & Ht2 & Ha2 & Hr2).
  pose proof (inv_trans same _ _ _ Hi1 Hi2) as Hi. pose proof (agree_trans _ _ _ _ Ha1 Ha2) as Ha.
  destruct (agree_lookup _ _ _ _ _ Ha Hn) as (n2 & Hn2 & [= E1 E2 E3 E4 E5 E6]).
  eapply wp_mono; [apply (freeClusterNode_ok s2 p n2); [exact (inv_wf _ _ _ Hi)|done| | | |done]|].
  - by rewrite (same_myself _ _ (proj2 Hi)).
  - by rewrite E6, E4.
  - intros j Hj. rewrite (tb_slots _ _ Ht2), (tb_importing _ _ Ht2), (tb_migrating _ _ Ht2). by apply Hu1.
  - intros ? s3 (Hw3 & Hm3 & En & Hk3). split; [done|]. split; [by eapply removed_agree; [apply Hi|..]|].
    split; [by rewrite En, E1, (same_nodes _ _ (proj2 Hi))|]. etrans; [exact Hk1|]. etrans; [by apply shrink_tables|done].
Qed.

Lemma removed_me s s' p : p <> cs_myself s -> removed p s s' -> me_same s s'.
Proof.
  intros Hne [Em H]. split; [done|]. rewrite Em. specialize (H (cs_myself s)). rewrite decide_False in H by done.
  destruct (cs_heap s' !! _), (cs_heap s !! _); try done. apply Some_inj in H. injection H as ? _. cbn. by f_equal.
Qed.

End ops.
