(* ===== verification/ClusterPackets.v ===== *)
(** The handlers of the cluster bus keep the invariant: the failover of a
    replica, [clusterBeforeSleep] and the processing of every packet. *)
From stdpp Require Import gmap.
From S2P Require Import Prelude Sds Replication Cluster ClusterInv ClusterOps ClusterSlots ClusterRoles ClusterConfig ClusterRemove.

#[export] Hint Resolve clusterNodeAddFailureReport_ok clusterNodeDelFailureReport_ok clusterNodeFailureReportsCount_ok
  markNodeAsFailingIfNeeded_ok : calls.

Lemma sim_todo s v : sim s (s <| cs_todo_before_sleep := v |>).
Proof. by split. Qed.

(** ** New nodes *)

(** A node without slots, replicas, master and reports. *)
Definition blank (n : clusterNode) : Prop :=
  cn_slots n = 0 /\ cn_numslots n = 0 /\ cn_slaves n = [] /\ cn_slaveof n = None /\ cn_fail_reports n = [].

Lemma wf_add_node s n : wf s -> blank n -> cs_nodes s !! cn_name n = None ->
  inv grow s (s <| cs_next := cs_next s + 1 |> <| cs_heap := <[cs_next s := n]> (cs_heap s) |>
                <| cs_nodes := <[cn_name n := cs_next s]> (cs_nodes s) |>).
Proof.
  intros Hw (B1 & B2 & B3 & B4 & B5) Hnm. set (q := cs_next s).
  assert (Hfresh : cs_heap s !! q = None).
  { destruct (cs_heap s !! q) eqn:E; [|done]. pose proof (wf_next s Hw q _ E). lia. }
  assert (Hold : forall p m, cs_heap s !! p = Some m -> p <> q) by (intros p m ? ->; congruence).
  assert (Hkeep : forall p m, cs_heap s !! p = Some m -> <[q := n]> (cs_heap s) !! p = Some m)
    by (intros p m ?; by rewrite lookup_insert_ne by (intros <-; congruence)).
  assert (Hinv : forall p m, <[q := n]> (cs_heap s) !! p = Some m -> p = q /\ m = n \/ p <> q /\ cs_heap s !! p = Some m).
  { intros p m. rewrite lookup_insert_Some. naive_solver. }
  split; [|by split; eauto]. split; cbn.
  - intros p m [[-> ->]|[_ H]]%Hinv; [lia|]. pose proof (wf_next s Hw p m H). lia.
  - intros nm p. rewrite lookup_insert_Some. split.
    + intros [[<- <-]|[Hne (m & Hm & E)%(wf_dict s Hw)]]; [exists n; by rewrite lookup_insert_eq|]. exists m. eauto.
    + intros (m & [[-> ->]|[Hq Hm]]%Hinv & <-); [auto|]. right.
      assert (cs_nodes s !! cn_name m = Some p) by (apply (wf_dict s Hw); eauto). split; [congruence|done].
  - destruct (wf_me s Hw) as (me & Hme & ?). exists me. auto.
  - intros j p. rewrite (wf_slots s Hw). f_equiv. split; intros (m & Hm & Ht).
    + eauto.
    + apply Hinv in Hm as [[-> ->]|[]]; [|eauto]. by rewrite B1, Z.testbit_0_l in Ht.
  - intros p m [[-> ->]|[_ H]]%Hinv; [rewrite B1, B2; symmetry|by eapply wf_count].
    unfold count_slots. rewrite (filter_agree (fun _ => false) (Z.testbit 0)) by (intros; apply Z.testbit_0_l).
    induction slot_range as [|x l IH]; [done|]. by rewrite filter_cons_False.
  - intros p r. split.
    + intros (m & [[-> ->]|[_ Hm]]%Hinv & Hp); [rewrite B3 in Hp; set_solver|].
      destruct (proj1 (wf_repl s Hw p r)) as (m' & ? & ?); [by eauto|]. eauto.
    + intros (m & [[-> ->]|[_ Hm]]%Hinv & Hp); [congruence|].
      destruct (proj2 (wf_repl s Hw p r)) as (m' & ? & ?); [by eauto|]. eauto.
  - intros p m [[-> ->]|[_ H]]%Hinv; [rewrite B3; constructor|by eapply wf_nodup].
  - intros p m [[-> ->]|[_ H]]%Hinv; [done|by eapply wf_hs].
  - intros p m [[-> ->]|[_ H]]%Hinv.
    + rewrite B5. split; [constructor|set_solver].
    + destruct (wf_reports s Hw p m H) as [H1 H2]. split; [done|]. intros r [m' Hm']%H2. eauto.
  - intros j p Hj. destruct (wf_open s Hw j p Hj) as [? [m Hm]]. eauto.
Qed.

Section ops.
Context (t : Prop) (sv : redisServer).

Lemma add_node_ok s nodename flags g : wf s ->
  (t -> cs_nodes s !! match nodename with Some nm => nm | None => sv_random_name sv end = None) ->
  wp t (createClusterNode sv nodename flags) (fun p s1 => wp t (update p (fun n => n <| cn_addr := g (cn_addr n) |>))
    (fun _ s2 => wp t (clusterAddNode p) (fun _ s3 => inv grow s s3) s2) s1) s.
Proof.
  intros Hw Hfree. unfold createClusterNode. set (nm := match nodename with Some nm => nm | None => sv_random_name sv end) in *.
  apply wp_bind, wp_getS, wp_bind, wp_modify, wp_ret.
  set (n0 := mkNode nm _ _ _ _ _ _ _ _ _ _ _ _ _ _ _ _ _ _).
  apply (wp_update_twice _ _ _ _ n0); [apply lookup_insert_eq|]. unfold clusterAddNode.
  set (n1 := n0 <| cn_addr := g (cn_addr n0) |>).
  match goal with |- wp _ _ _ ?x => set (s1 := x) end.
  assert (Hn1 : cs_heap s1 !! cs_next s = Some n1) by apply lookup_insert_eq.
  apply wp_bind, wp_deref; [by eexists|]. intros n2 Hn2. assert (n2 = n1) as -> by congruence.
  apply wp_bind, wp_getS, wp_bind, wp_assert.
  { intros Ht. apply bool_decide_eq_true_2, Hfree, Ht. }
  intros Hb%bool_decide_eq_true. apply wp_modify.
  replace (s1 <| cs_nodes := _ |>) with (s <| cs_next := cs_next s + 1 |> <| cs_heap := <[cs_next s := n1]> (cs_heap s) |>
                <| cs_nodes := <[cn_name n1 := cs_next s]> (cs_nodes s) |>).
  - by apply wf_add_node.
  - unfold s1, set_field. cbn. by rewrite insert_insert_eq.
Qed.

Lemma failover_conditions_spec s b : wf s ->
  wp t (failover_conditions sv b) (fun go s' => s' = s /\ (go = true -> is_slave s)) s.
Proof.
  intros Hw. unfold failover_conditions. apply wp_bind, wp_getS. destruct (wf_me s Hw) as (me & Hme & _).
  apply wp_bind, wp_deref; [by eexists|]. intros me' Hme'. assert (me' = me) as -> by congruence.
  pose proof (wf_myself_role s me Hw Hme) as Hr. destruct (nodeIsMaster me); [by apply wp_ret|].
  destruct (cn_slaveof me) as [q|] eqn:Eq; [|by apply wp_ret].
  apply wp_bind, wp_deref; [intros _; by eapply wf_slaveof|]. intros m Hm. apply wp_ret. split; [done|].
  intros _. exists me. split; [done|]. by destruct Hr as [[=] _].
Qed.

Lemma schedule_election_ok s : wf s -> is_slave s -> wp t (schedule_election sv) (fun _ s' => inv sim s s') s.
Proof.
  intros Hw Hs. unfold schedule_election. apply wp_bind, wp_modify.
  match goal with |- wp _ _ _ ?x => set (s1 := x) end.
  assert (Hi : inv sim s s1) by (apply inv_sim; [done|by split]). pose proof (inv_wf _ _ _ Hi).
  assert (is_slave s1) by exact Hs. learn. cl_auto.
Qed.
Hint Resolve schedule_election_ok : calls.

Lemma update_rank_ok s : wf s -> is_slave s -> wp t (update_rank sv) (fun _ s' => inv sim s s') s.
Proof. cl_start. unfold update_rank. cl_auto. Qed.
Hint Resolve update_rank_ok : calls.

Lemma clusterFailoverReplaceYourMaster_ok s : wf s -> wp t (clusterFailoverReplaceYourMaster sv) (fun _ s' => inv same s s') s.
Proof.
  intros Hw. destruct (wf_me s Hw) as (me & Hme & _).
  eapply wp_mono; [by apply (clusterFailoverReplaceYourMaster_spec _ _ s me)|]. by intros ? s' [].
Qed.
Hint Resolve clusterFailoverReplaceYourMaster_ok : calls.

Lemma clusterSetNodeAsMaster_inv s p : wf s -> valid s p -> wp t (clusterSetNodeAsMaster p) (fun _ s' => inv same s s') s.
Proof. intros. eapply wp_mono; [by apply clusterSetNodeAsMaster_ok|]. by intros ? s' []. Qed.
Hint Resolve clusterSetNodeAsMaster_inv : calls.

Lemma win_election_ok s : wf s -> wp t (win_election sv) (fun _ s' => inv same s s') s.
Proof. cl_start. unfold win_election. cl_auto. Qed.
Hint Resolve win_election_ok : calls.

Lemma clusterHandleSlaveFailover_ok s : wf s -> wp t (clusterHandleSlaveFailover sv) (fun _ s' => inv same s s') s.
Proof.
  intros Hw. unfold clusterHandleSlaveFailover. apply wp_bind, wp_getS, wp_bind, wp_modify.
  match goal with |- wp _ _ _ ?x => set (s1 := x) end.
  assert (Hi : inv sim s s1) by (apply inv_sim; [done|by split]). apply (inv_of_sim same) in Hi.
  pose proof (inv_wf _ _ _ Hi) as Hw1. apply wp_bind. eapply wp_mono; [by apply failover_conditions_spec|].
  intros go s2 [-> Hgo]. clearbody s1. destruct go; cbn [negb]; [|cl_auto]. specialize (Hgo eq_refl).
  do 2 (cl_step fail; [cl_auto|]). cl_auto.
Qed.
Hint Resolve clusterHandleSlaveFailover_ok : calls.

Lemma clusterBeforeSleep_ok s : wf s -> wp t (clusterBeforeSleep sv) (fun _ s' => inv same s s') s.
Proof. cl_start. unfold clusterBeforeSleep. cl_auto. Qed.

(** ** Gossip *)

(** A pointer that may be NULL, and is otherwise valid. *)
Definition opt_valid (s : clusterState) (o : option ptr) : Prop := forall q, o = Some q -> valid s q.

Lemma opt_valid_inv R `{Keep R} s s' o : inv R s s' -> opt_valid s o -> opt_valid s' o.
Proof. intros Hi Ho q Hq. eapply (inv_valid R); [done|]. by apply Ho. Qed.

Lemma gossip_known_ok s sender g p : wf s -> (t -> opt_valid s sender) -> valid s p ->
  wp t (gossip_known sv sender g p) (fun _ s' => inv same s s') s.
Proof.
  intros Hw Hs Hp. unfold gossip_known.
  destruct sender as [q|]; [destruct (cs_heap s !! q) as [r|] eqn:Eq|].
  - pose proof (inv_refl same s Hw). learn. cl_auto.
  - apply wp_bind, wp_getS, wp_bind, wp_bind, wp_deref; [intros Ht; by apply Hs|]. intros. congruence.
  - pose proof (inv_refl same s Hw). learn. cl_auto.
Qed.
Hint Resolve gossip_known_ok : calls.

Lemma gossip_unknown_ok s sender g : wf s -> cs_nodes s !! g_nodename g = None ->
  wp t (gossip_unknown sv sender g) (fun _ s' => inv grow s s') s.
Proof.
  intros Hw Hnm. unfold gossip_unknown. destruct (_ || _); [apply wp_ret; exact (inv_refl grow s Hw)|].
  apply wp_bind. eapply wp_mono; [by apply clusterBlacklistExists_ok|]. intros b s1 Hi1.
  pose proof (inv_wf _ _ _ Hi1) as Hw1. assert (cs_nodes s1 !! g_nodename g = None) as Hnm1.
  { destruct Hi1 as [_ Hi1]. by rewrite (sim_nodes _ _ Hi1). }
  apply (inv_of_sim grow) in Hi1. apply wp_when; intros _; [|done].
  apply wp_bind. eapply wp_mono; [by apply (add_node_ok s1 (Some (g_nodename g)) (g_flags g) (fun _ => g_addr g))|].
  intros p s2 H2. apply wp_bind. eapply wp_mono; [exact H2|]. intros ? s3 H3. eapply wp_mono; [exact H3|].
  intros ? s4 H4. by eapply (inv_trans grow).
Qed.

Lemma clusterProcessGossipSection_ok s hdr l : wf s -> (t -> link_ok l s) ->
  wp t (clusterProcessGossipSection sv hdr l) (fun _ s' => inv grow s s') s.
Proof.
  intros Hw Hl. unfold clusterProcessGossipSection. apply wp_bind.
  eapply (wp_mono _ _ (fun o s' => s' = s /\ (t -> opt_valid s o))).
  { destruct (l_node l) as [p|] eqn:Ep; [apply wp_ret; split; [done|]; intros Ht q [= <-]; by apply Hl|].
    unfold clusterLookupNode. apply wp_bind, wp_getS, wp_ret. split; [done|]. intros _ q Hq. by eapply wf_lookup_node. }
  intros sender s' [-> Hs]. apply wp_for_each_inv; [apply _|done|]. intros g s1 _ Hi1. pose proof (inv_wf _ _ _ Hi1) as Hw1.
  assert (Hs1 : t -> opt_valid s1 sender) by (intros Ht; eapply (opt_valid_inv grow); eauto).
  apply wp_bind. unfold clusterLookupNode. apply wp_bind, wp_getS, wp_ret.
  destruct (cs_nodes s1 !! g_nodename g) as [p|] eqn:Ep; [|by apply gossip_unknown_ok].
  eapply wp_mono; [apply gossip_known_ok; [done|done|by eapply wf_lookup_node]|]. intros ? s2. apply inv_same_grow.
Qed.

Lemma process_ping_ok s l sender hdr : wf s -> (t -> link_ok l s) -> (t -> cs_nodes s !! sv_random_name sv = None) ->
  wp t (process_ping sv l sender hdr) (fun _ s' => inv grow s s' /\ (sender <> None \/ m_type hdr <> CLUSTERMSG_TYPE_MEET -> inv sim s s')) s.
Proof.
  intros Hw Hl Hr. unfold process_ping. apply wp_bind, wp_getS.
  apply wp_bind, wp_deref; [intros _; by apply wf_myself|]. intros me Hme.
  apply wp_bind, (wp_call _ sim); [pose proof (inv_refl sim s Hw); learn; cl_auto|]. intros ? s1 Hi1.
  pose proof (inv_wf _ _ _ Hi1) as Hw1.
  assert (Hl1 : t -> link_ok l s1) by (intros Ht; eapply (link_ok_inv sim); eauto).
  apply wp_bind. destruct (bool_decide (sender = None) && (m_type hdr =? CLUSTERMSG_TYPE_MEET)) eqn:Eb; cbn [when].
  2: { apply wp_ret. eapply wp_mono; [by apply clusterReplyPing_ok|]. intros ? s2 Hi2.
    pose proof (inv_trans sim _ _ _ Hi1 Hi2). split; [by apply (inv_of_sim grow)|done]. }
  apply andb_prop in Eb as [Eb1%bool_decide_eq_true Eb2].
  apply (wp_mono _ _ (fun _ s2 => inv grow s s2)).
  2: { intros ? s2 Hi2. eapply wp_mono; [apply clusterReplyPing_ok; [by eapply inv_wf|]|].
       - intros Ht. eapply (link_ok_inv grow); eauto.
       - intros ? s3 Hi3. split; [eapply (inv_trans grow); [exact Hi2|by apply (inv_of_sim grow)]|].
         intros [|]; [done|lia]. }
  apply wp_bind. eapply wp_mono; [apply (add_node_ok s1 None CLUSTER_NODE_HANDSHAKE (fun _ => mkAddr (nodeIp2String l (ip (m_addr hdr))) (port (m_addr hdr))
    (pport (m_addr hdr)) (cport (m_addr hdr)))); [done|]|].
  { destruct Hi1 as [_ Hi1]. by rewrite (sim_nodes _ _ Hi1). }
  intros p s2 H2. apply wp_bind. eapply wp_mono; [exact H2|]. intros ? s3 H3. apply wp_bind.
  eapply wp_mono; [exact H3|]. intros ? s4 H4. apply (inv_of_sim grow) in Hi1. pose proof (inv_trans grow _ _ _ Hi1 H4) as Hi4.
  pose proof (inv_wf _ _ _ Hi4) as Hw4. apply wp_bind, wp_modify_inv; [done|by split|]. intros s5 Hi5.
  apply (inv_of_sim grow) in Hi5. pose proof (inv_trans grow _ _ _ Hi4 Hi5) as Hi6.
  eapply wp_mono; [apply clusterProcessGossipSection_ok; [by eapply inv_wf|]|].
  - intros Ht. eapply (link_ok_inv grow); eauto.
  - intros ? s7 Hi7. by eapply (inv_trans grow).
Qed.

(** ** Roles announced by a packet *)

(** The flags of a node change. *)
Lemma inv_set_flags s p n n' : wf s -> cs_heap s !! p = Some n -> base n' = base n -> links_of n' = links_of n ->
  (p = cs_myself s -> flags_of n' = (false, true) /\ cn_numslots n = 0) ->
  inv same s (s <| cs_heap := <[p := n']> (cs_heap s) |>).
Proof.
  intros Hw Hn (E0 & E1 & E2 & E3 & E4 & E5)%base_eq Er Hrole. injection Er as E6 E7.
  assert (Es : (cn_slots n', cn_numslots n') = (cn_slots n, cn_numslots n)) by congruence.
  assert (Er : links_of n' = links_of n) by (unfold links_of; congruence).
  split; [|eapply same_insert; eauto]. frames Hw Hn. cbn.
  destruct (wf_me s Hw) as (me & Hme & Hh & Hr). destruct (decide (cs_myself s = p)) as [E|].
  - rewrite E, lookup_insert_eq. exists n'. assert (me = n) as -> by congruence. split; [done|]. split; [congruence|].
    right. destruct (Hrole (eq_sym E)) as [[= -> ->] ?]. split; [done|]. split; [done|congruence].
  - rewrite lookup_insert_ne by done. eauto.
Qed.

(** No node in handshake has the name [nm]. *)
Definition settled (s : clusterState) (nm : name) : Prop :=
  forall p n, cs_nodes s !! nm = Some p -> cs_heap s !! p = Some n -> nodeInHandshake n = false.

Lemma settled_same s s' nm : same s s' -> settled s nm -> settled s' nm.
Proof.
  intros H Hs p n' Hp Hn'. rewrite (same_nodes _ _ H) in Hp.
  destruct (same_lookup s' s p n') as (n & Hn & _ & E); [by symmetry|done|]. rewrite <- E. by eapply Hs.
Qed.

Lemma me_role_agree {T} (v : clusterNode -> T) s s' : cs_myself s' = cs_myself s -> agree v s s' ->
  (forall n n', v n' = v n -> flags_of n' = flags_of n /\ cn_slaveof n' = cn_slaveof n) -> me_role s' = me_role s.
Proof.
  intros E H Hv. unfold me_role. rewrite E. apply (agree_weaken v); [|done]. intros n n' [-> ->]%Hv. done.
Qed.

Lemma me_role_slots s s' : slots_only s s' -> me_role s' = me_role s.
Proof.
  intros H. apply (me_role_agree slot_frame); [apply H|apply H|]. intros n n' E%slot_frame_eq. unfold flags_of. intuition congruence.
Qed.

Lemma me_role_sim s s' : sim s s' -> me_role s' = me_role s.
Proof.
  intros H. apply (me_role_agree view); [apply H|exact (sim_heap _ _ H)|].
  intros n n' E%view_eq. unfold flags_of. intuition congruence.
Qed.

(** [myself] is a master, or knows its master. *)
Definition knows_master (s : clusterState) : Prop :=
  forall me, cs_heap s !! cs_myself s = Some me -> nodeIsMaster me = true \/ cn_slaveof me <> None.

Lemma knows_master_role s s' : me_role s' = me_role s -> knows_master s -> knows_master s'.
Proof.
  unfold me_role, knows_master. intros E H me' Hme'. rewrite Hme' in E. destruct (cs_heap s !! cs_myself s) as [me|]; [|done].
  apply Some_inj in E. injection E as E1 E2 E3. rewrite E1, E3. auto.
Qed.

(** A master that is now a replica loses its slots. *)
Lemma demote_ok s p n : wf s -> cs_heap s !! p = Some n ->
  wp t (when (nodeIsMaster n) (
      clusterDelNodeSlots p;;
      update p (fun n => set_flag CLUSTER_NODE_SLAVE (clear_flag (Z.lor CLUSTER_NODE_MASTER CLUSTER_NODE_MIGRATE_TO) n));;
      clusterDoBeforeSleep (Z.lor CLUSTER_TODO_SAVE_CONFIG CLUSTER_TODO_UPDATE_STATE)))
    (fun _ s' => inv same s s' /\ (p <> cs_myself s -> me_role s' = me_role s) /\
       forall n', cs_heap s' !! p = Some n' -> nodeIsMaster n' = false) s.
Proof.
  intros Hw Hn. apply wp_when; intros Em; [|split; [exact (inv_refl same s Hw)|split; [done|congruence]]].
  apply wp_bind. eapply wp_mono; [by apply clusterDelNodeSlots_spec; [|eexists]|]. intros ? s1 (Hw1 & Ho & Hs).
  destruct (agree_lookup _ _ _ _ _ (so_heap _ _ Ho) Hn) as (n1 & Hn1 & _).
  apply wp_bind, (wp_update_twice _ _ _ _ n1); [done|]. apply wp_modify.
  pose proof (slave_flags n1) as (F1 & F2 & F3). cbn zeta in F1, F2, F3.
  assert (Hi : inv same s1 (s1 <| cs_heap := <[p := set_flag CLUSTER_NODE_SLAVE
     (clear_flag (Z.lor CLUSTER_NODE_MASTER CLUSTER_NODE_MIGRATE_TO) n1)]> (cs_heap s1) |>)).
  { apply (inv_set_flags s1 p n1); [done|done| |done|].
    - unfold base, ident. by rewrite F1.
    - intros _. split; [unfold flags_of; by rewrite F2, F3|]. apply (wf_no_slots s1 p n1); [done|done|].
      intros j [_ ?]%Hs. done. }
  split; [|split].
  - eapply (inv_trans same); [split; [exact Hw1|by apply slots_only_same]|]. eapply (inv_trans same); [exact Hi|].
    apply (inv_of_sim same), inv_sim; [by eapply inv_wf|by split].
  - intros Hp. rewrite <- (me_role_slots s s1 Ho). unfold me_role. cbn. rewrite lookup_insert_ne; [done|].
    by rewrite (so_myself _ _ Ho).
  - intros n' Hn'. pose proof (eq_trans (eq_sym Hn') (lookup_insert_eq (cs_heap s1) p _)) as E.
    apply Some_inj in E as ->. exact F2.
Qed.

Lemma process_role_ok s p hdr : wf s -> valid s p ->
  (forall n, cs_heap s !! p = Some n -> nodeInHandshake n = false) -> settled s (m_slaveof hdr) ->
  wp t (process_role p hdr) (fun _ s' => inv same s s' /\ (p <> cs_myself s -> me_role s' = me_role s)) s.
Proof.
  intros Hw [n Hn] Hh Hset. unfold process_role. case_bool_decide.
  { eapply wp_mono; [by apply clusterSetNodeAsMaster_ok; [|eexists]|]. by intros ? s' (? & _ & ? & _). }
  unfold clusterLookupNode. apply wp_bind, wp_bind, wp_getS, wp_ret. apply wp_bind, wp_deref; [by eexists|].
  intros n' Hn'. assert (n' = n) as -> by congruence. clear Hn'.
  apply wp_bind. eapply wp_mono; [by apply (demote_ok s p n)|]. intros ? s1 (Hi1 & Hme1 & Hnm).
  pose proof (inv_wf _ _ _ Hi1) as Hw1. destruct (same_lookup _ _ _ _ (proj2 Hi1) Hn) as (n1 & Hn1 & _ & E1).
  apply wp_bind, wp_deref; [by eexists|]. intros n' Hn'. assert (n' = n1) as -> by congruence. clear Hn'.
  destruct (cs_nodes s !! m_slaveof hdr) as [q|] eqn:Eq; [|by apply wp_ret].
  apply wp_when; intros _; [|done]. apply wp_bind. eapply wp_mono; [by apply drop_old_ok|]. intros ? s2 Hr2.
  pose proof Eq as Eq'. apply (wf_dict s Hw) in Eq' as (m & Hm & _).
  destruct (same_lookup _ _ _ _ (proj2 Hi1) Hm) as (m1 & Hm1 & _ & E2).
  assert (Hjoin : wp t (clusterNodeAddSlave q p;; update p (fun n => n <| cn_slaveof := Some q |>)) 
    (fun _ s' => inv same s1 s' /\ (p <> cs_myself s1 -> me_role s' = me_role s1)) s2).
  { apply (join_ok t s1 s2 p n1 q nothing false); [done|done| | |done|done| |done].
    - rewrite E1. by apply Hh.
    - exists m1. split; [done|]. rewrite E2. by eapply Hset.
    - intros ->. pose proof (wf_myself_role s1 n1 Hw1 Hn1) as Hr. rewrite (Hnm n1 Hn1) in Hr. done. }
  apply wp_bind. eapply wp_mono; [exact (wp_bind_inv _ _ _ _ _ Hjoin)|]. intros ? s3 H3. apply wp_bind.
  eapply wp_mono; [exact H3|]. intros ? s4 [Hi4 Hme4]. apply wp_modify. split.
  - eapply (inv_trans same); [exact Hi1|]. eapply (inv_trans same); [exact Hi4|].
    apply (inv_of_sim same), inv_sim; [exact (inv_wf _ _ _ Hi4)|by split].
  - intros Hp. rewrite <- (Hme1 Hp), <- Hme4; [done|]. by rewrite (same_myself _ _ (proj2 Hi1)).
Qed.

(** ** Slots announced by a packet *)

Lemma clusterUpdateSlotsConfigWith_ok s p epoch slots : wf s -> valid s p ->
  (forall n, cs_heap s !! p = Some n -> nodeInHandshake n = false) -> (t -> knows_master s) ->
  wp t (clusterUpdateSlotsConfigWith sv p epoch slots) (fun _ s' => inv same s s') s.
Proof.
  intros Hw [n Hn] Hh Hk. eapply wp_mono; [apply (clusterUpdateSlotsConfigWith_spec t sv s p n); [done|done|by apply Hh|]|].
  - intros Ht me. by apply Hk.
  - by intros ? s' [].
Qed.
Hint Resolve clusterUpdateSlotsConfigWith_ok : calls.

Lemma process_slots_ok s p epoch hdr : wf s -> valid s p ->
  (forall n, cs_heap s !! p = Some n -> nodeInHandshake n = false) -> (t -> knows_master s) ->
  wp t (process_slots sv p epoch hdr) (fun _ s' => inv same s s') s.
Proof. cl_start. unfold process_slots. do 2 cl_step fail. destruct (nodeIsMaster n) eqn:Em; cl_auto. Qed.

Lemma process_update_ok s epoch nm slots : wf s -> settled s nm -> (t -> knows_master s) ->
  wp t (process_update sv epoch nm slots) (fun _ s' => inv same s s') s.
Proof.
  intros Hw Hset Hk. unfold process_update, clusterLookupNode. apply wp_bind, wp_bind, wp_getS, wp_ret.
  destruct (cs_nodes s !! nm) as [p|] eqn:Ep; [|apply wp_ret; exact (inv_refl same s Hw)].
  pose proof (wf_lookup_node s nm p Hw Ep) as Hv. apply wp_bind, wp_deref; [done|]. intros n Hn.
  destruct (_ >=? _); [apply wp_ret; exact (inv_refl same s Hw)|]. pose proof (Hset p n Ep Hn) as Hh.
  apply wp_bind. eapply (wp_mono _ _ (fun _ s1 => inv same s s1 /\ (t -> knows_master s1))).
  { apply wp_when; intros _; [|split; [exact (inv_refl same s Hw)|done]].
    eapply wp_mono; [by apply clusterSetNodeAsMaster_ok|]. intros ? s1 (Hi1 & Ht1 & Hr1 & n1 & Hn1 & Em). split; [done|].
    intros Ht. destruct (decide (p = cs_myself s)) as [->|Hp]; [|apply (knows_master_role s); auto].
    intros me Hme. rewrite (tb_myself _ _ Ht1) in Hme. left. congruence. }
  intros ? s1 [Hi1 Hk1]. pose proof (inv_wf _ _ _ Hi1) as Hw1.
  destruct (same_lookup _ _ _ _ (proj2 Hi1) Hn) as (n1 & Hn1 & _ & E1).
  apply wp_bind, (wp_update_twice _ _ _ _ n1); [done|]. apply wp_bind, wp_modify.
  match goal with |- wp _ _ _ ?x => set (s2 := x) end.
  assert (Hs2 : sim s1 s2).
  { transitivity (s1 <| cs_heap := <[p := n1 <| cn_configEpoch := epoch |>]> (cs_heap s1) |>).
    - by apply (sim_update s1 p n1).
    - apply sim_todo. }
  pose proof (inv_sim s1 s2 Hw1 Hs2) as Hi2. apply (inv_of_sim same) in Hi2.
  eapply wp_mono; [apply clusterUpdateSlotsConfigWith_ok; [by apply Hi2| | |]|].
  - eapply (inv_valid same); [exact Hi2|by eexists].
  - intros n2 Hn2. destruct (sim_lookup _ _ _ _ Hs2 Hn1) as (n3 & Hn3 & (_ & E3 & _)%view_eq). congruence.
  - intros Ht. eapply knows_master_role; [by apply me_role_sim|auto].
  - intros ? s3 Hi3. eapply (inv_trans same); [exact Hi1|]. by eapply (inv_trans same).
Qed.

(** ** End of a handshake *)

(** What a rename and a change of flags keep. *)
Definition rest (n : clusterNode) := ((cn_slots n, cn_numslots n), (cn_slaves n, cn_slaveof n), cn_fail_reports n).

Lemma wf_rename_node s s' p n n' : wf s -> cs_heap s !! p = Some n -> nodeInHandshake n = true ->
  delete (cn_name n) (cs_nodes s) !! cn_name n' = None -> rest n' = rest n ->
  cs_heap s' = <[p := n']> (cs_heap s) -> cs_nodes s' = <[cn_name n' := p]> (delete (cn_name n) (cs_nodes s)) ->
  cs_myself s' = cs_myself s -> cs_slots s' = cs_slots s -> cs_importing_slots_from s' = cs_importing_slots_from s ->
  cs_migrating_slots_to s' = cs_migrating_slots_to s -> cs_next s' = cs_next s -> wf s'.
Proof.
  intros Hw Hn Hh Hfree Er Eh En Em Es Ei Eg Ex. pose proof (wf_hs_not_me s p n Hw Hn Hh) as Hne.
  destruct (wf_hs s Hw p n Hn Hh) as (Hso & Hsl & Hns). injection Er as E1 E2 E3 E4 E5.
  assert (Ag : forall T (v : clusterNode -> T), v n' = v n -> agree v s s') by (intros; by eapply agree_insert).
  assert (Hin : forall q m, cs_heap s' !! q = Some m <-> q = p /\ m = n' \/ q <> p /\ cs_heap s !! q = Some m).
  { intros q m. rewrite Eh, lookup_insert_Some. naive_solver. }
  split.
  - apply (frame_next _ _ Hw cn_slots); [by apply Ag|done].
  - intros nm q. rewrite En, lookup_insert_Some, lookup_delete_Some, (wf_dict s Hw). split.
    + intros [[<- <-]|(Hd1 & Hd2 & m & Hm & E)]; [exists n'; split; [apply Hin; auto|done]|].
      exists m. split; [|done]. apply Hin. right. split; [|done]. intros ->. congruence.
    + intros (m & [[-> ->]|[Hq Hm]]%Hin & <-); [auto|]. right.
      assert (Hmq : cs_nodes s !! cn_name m = Some q) by (apply (wf_dict s Hw); eauto).
      assert (Hnp : cs_nodes s !! cn_name n = Some p) by (apply (wf_dict s Hw); eauto).
      assert (cn_name n <> cn_name m) by congruence. split; [|split; eauto].
      intros E. rewrite E, lookup_delete_ne in Hfree by done. congruence.
  - destruct (wf_me s Hw) as (me & Hme & ?). exists me. rewrite Em. split; [|done]. apply Hin. auto.
  - apply (frame_slots _ _ Hw); [by apply Ag|done].
  - apply (frame_count _ _ Hw), Ag. congruence.
  - apply (frame_repl _ _ Hw), Ag. unfold links_of. congruence.
  - by apply (frame_nodup _ _ Hw), Ag.
  - intros q m [[-> ->]|[Hq Hm]]%Hin; [intros _; split_and!; congruence|by eapply wf_hs].
  - by apply (frame_reports _ _ Hw), Ag.
  - by apply (frame_open _ _ Hw cn_slots); [apply Ag|..].
Qed.

Lemma end_handshake_ok s p n nm f : wf s -> cs_heap s !! p = Some n -> nodeInHandshake n = true -> (t -> cs_nodes s !! nm = None) ->
  (forall n, cn_name (f n) = cn_name n /\ rest (f n) = rest n) ->
  wp t (clusterRenameNode p nm) (fun _ s1 => wp t (update p f) (fun _ s2 =>
    wf s2 /\ me_same s s2 /\ forall q, valid s q -> valid s2 q) s1) s.
Proof.
  intros Hw Hn Hh Hnm Hf. pose proof (wf_hs_not_me s p n Hw Hn Hh) as Hne. unfold clusterRenameNode.
  apply wp_bind, wp_deref; [by eexists|]. intros n' Hn'. assert (n' = n) as -> by congruence. clear Hn'.
  assert (Hd : cs_nodes s !! cn_name n = Some p) by (apply (wf_dict s Hw); eauto).
  unfold dict_delete_node. apply wp_bind, wp_bind, wp_getS, wp_bind, wp_assert.
  { intros _. rewrite Hd. done. }
  intros _. apply wp_modify, wp_bind, (wp_update_twice _ _ _ _ n); [done|].
  set (n1 := n <| cn_name := nm |>). unfold clusterAddNode. apply wp_bind, wp_deref.
  { intros _. exists n1. apply lookup_insert_eq. }
  intros n' Hn'. assert (n' = n1) as ->.
  { apply Some_inj. rewrite <- Hn'. apply lookup_insert_eq. }
  apply wp_bind, wp_getS, wp_bind, wp_assert.
  { intros Ht. apply bool_decide_eq_true_2, lookup_delete_None. auto. }
  intros Hfree%bool_decide_eq_true. apply wp_modify.
  apply (wp_update_twice _ _ _ _ n1); [apply lookup_insert_eq|]. destruct (Hf n1) as [F1 F2].
  match goal with |- wf ?x /\ _ => set (s3 := x) end.
  assert (Eh : cs_heap s3 = <[p := f n1]> (cs_heap s)) by apply insert_insert_eq. split; [|split].
  - eapply (wf_rename_node s s3 p n (f n1)); try done.
    + by rewrite F1.
    + unfold s3. cbn. by rewrite F1.
  - split; [done|]. rewrite Eh. change (cs_myself s3) with (cs_myself s). by rewrite lookup_insert_ne.
  - intros q [m Hm]. unfold valid. rewrite Eh. destruct (decide (q = p)) as [->|]; [by rewrite lookup_insert_eq|].
    rewrite lookup_insert_ne by done. by eexists.
Qed.

Lemma process_link_node_ok s l sender hdr : wf s -> (t -> link_ok l s) -> opt_valid s sender ->
  (t -> sender = None -> l_node l <> None -> cs_nodes s !! m_sender hdr = None) ->
  wp t (process_link_node sv l sender hdr) (fun alive s' => wf s' /\ me_same s s' /\
    (alive = true -> (forall q, valid s q -> valid s' q) /\ (sender <> None -> s' = s))) s.
Proof.
  intros Hw Hl Hs Hnew. unfold process_link_node. assert (Hid : me_same s s) by done.
  destruct (l_node l) as [p|] eqn:El; [|by apply wp_ret].
  apply wp_bind, wp_deref; [intros Ht; by apply Hl|]. intros n Hn. destruct (nodeInHandshake n) eqn:Hh.
  - destruct sender as [q|].
    + apply wp_bind. eapply wp_mono; [apply nodeUpdateAddressIfNeeded_ok; [done|by apply Hs]|].
      intros b s1 Hi1. pose proof (inv_wf _ _ _ Hi1) as Hw1. apply wp_bind, (wp_call _ sim).
      { pose proof (inv_refl sim s1 Hw1). cl_auto. }
      intros ? s2 Hi2. pose proof (inv_trans sim _ _ _ Hi1 Hi2) as Hi. pose proof (inv_wf _ _ _ Hi) as Hw2.
      destruct (sim_lookup _ _ _ _ (proj2 Hi) Hn) as (n2 & Hn2 & (_ & E2 & _)%view_eq).
      assert (Hne : p <> cs_myself s2) by (eapply wf_hs_not_me; [done|exact Hn2|congruence]).
      apply wp_bind. eapply wp_mono; [apply (clusterDelNode_ok t sv s2 p n2); [done|done|done|]|].
      { intros E. destruct (wf_hs s2 Hw2 p n2 Hn2); congruence. }
      intros ? s3 (Hw3 & Hm3 & _). apply wp_ret. split; [done|]. split; [|done].
      eapply me_same_trans; [by apply (inv_me_same sim)|by eapply removed_me].
    + apply wp_bind. eapply wp_mono; [apply (end_handshake_ok s p n (m_sender hdr) (fun n =>
        set_flag (Z.land (m_flags hdr) (Z.lor CLUSTER_NODE_MASTER CLUSTER_NODE_SLAVE)) (clear_flag CLUSTER_NODE_HANDSHAKE n)));
        [done|done|done|intros Ht; by apply Hnew|done]|].
      intros ? s1 H1. apply wp_bind. eapply wp_mono; [exact H1|]. intros ? s2 (Hw2 & Hm2 & Hv2).
      apply wp_bind, wp_modify, wp_ret. split; [|split].
      * eapply wf_sim; [|exact Hw2]. apply sim_todo.
      * exact Hm2.
      * done.
  - destruct (negb _); [|by apply wp_ret]. apply wp_bind, wp_update_inv; [done|intros Ht; by apply Hl|view_done|].
    intros s1 Hi1. pose proof (inv_wf _ _ _ Hi1) as Hw1. apply wp_bind, (wp_call _ sim).
    { unfold freeClusterLink. rewrite El.
      assert (Hv : valid s1 p) by (eapply (inv_valid sim); [exact Hi1|by eexists]). pose proof (inv_refl sim s1 Hw1). cl_auto. }
    intros ? s2 Hi2. apply wp_bind, wp_modify_inv; [by eapply inv_wf|by split|]. intros s3 Hi3. apply wp_ret.
    pose proof (inv_trans sim _ _ _ Hi1 (inv_trans sim _ _ _ Hi2 Hi3)) as Hi. split; [by apply Hi|].
    split; [by apply (inv_me_same sim)|done].
Qed.

(** ** Packets *)

(** The name of a node in handshake is random, and no packet has it. *)
Record names_ok (hdr : clusterMsg) (s : clusterState) : Prop := {
  no_sender : settled s (m_sender hdr);
  no_slaveof : settled s (m_slaveof hdr);
  no_update : forall e nm slots, m_data hdr = DataUpdate e nm slots -> settled s nm
}.

Lemma names_ok_same s s' hdr : same s s' -> names_ok hdr s -> names_ok hdr s'.
Proof. intros H []. split; [by eapply settled_same..|]. intros. eapply settled_same; eauto. Qed.

(** What makes a packet harmless: the link it comes from is alive, the node
    knows its master, the packet is not its own, a MEET comes from an incoming
    connection, the name of a new node is new, and the payload is the one of the
    type. *)
Definition data_ok (hdr : clusterMsg) : Prop :=
  match m_data hdr with
  | DataFail _ => True
  | _ => m_type hdr <> CLUSTERMSG_TYPE_FAIL
  end /\
  match m_data hdr with
  | DataPublish _ _ => True
  | _ => m_type hdr <> CLUSTERMSG_TYPE_PUBLISH
  end /\
  match m_data hdr with
  | DataUpdate _ _ _ => True
  | _ => m_type hdr <> CLUSTERMSG_TYPE_UPDATE
  end /\
  match m_data hdr with
  | DataModule _ _ _ => True
  | _ => m_type hdr <> CLUSTERMSG_TYPE_MODULE
  end.

Record packet_ok (l : clusterLink) (hdr : clusterMsg) (s : clusterState) : Prop := {
  po_link : link_ok l s;
  po_master : knows_master s;
  po_other : cs_nodes s !! m_sender hdr <> Some (cs_myself s);
  po_meet : m_type hdr = CLUSTERMSG_TYPE_MEET -> l_node l = None;
  po_fresh : cs_nodes s !! sv_random_name sv = None;
  po_data : data_ok hdr
}.

Lemma process_config_ok s l sender epoch hdr : wf s -> (sender <> None -> names_ok hdr s) -> (t -> link_ok l s) ->
  (sender <> None -> sender = cs_nodes s !! m_sender hdr) ->
  (t -> sender = None -> l_node l <> None -> cs_nodes s !! m_sender hdr = None) ->
  (t -> sender <> None -> knows_master s /\ cs_nodes s !! m_sender hdr <> Some (cs_myself s)) ->
  wp t (process_config sv l sender epoch hdr) (fun _ s' => wf s' /\ me_same s s') s.
Proof.
  intros Hw Hnames Hl Hs Hnew Hk. unfold process_config.
  assert (Hov : opt_valid s sender) by (intros q ->; eapply wf_lookup_node; [done|symmetry; by apply Hs]).
  apply wp_bind. eapply wp_mono; [by apply process_link_node_ok|]. intros alive s0 (Hw0 & Hm0 & Halive).
  destruct alive; cbn [negb]; [|by apply wp_ret]. destruct (Halive eq_refl) as [Hv0 Hsame]. clear Halive.
  assert (Hl0 : t -> link_ok l s0) by (intros Ht p Hp; by apply Hv0, Hl).
  destruct sender as [q|].
  - rewrite (Hsame ltac:(done)) in *. clear Hv0 Hsame Hnew Hl0 Hw0 Hm0. specialize (Hov q eq_refl). symmetry in Hs. specialize (Hs ltac:(done)).
    apply wp_bind, (wp_call _ sim); [pose proof (inv_refl sim s Hw); learn; cl_auto|]. intros ? s1 Hi1.
    apply wp_bind. eapply wp_mono; [apply process_pong_ok; [by eapply inv_wf|intros Ht; eapply (link_ok_inv sim); eauto]|].
    intros ? s2 Hi2. pose proof (inv_trans sim _ _ _ Hi1 Hi2) as Hi. clear s1 Hi1 Hi2. pose proof (inv_wf _ _ _ Hi) as Hw2.
    pose proof (proj2 (inv_of_sim same _ _ Hi)) as Hsm.
    pose proof (names_ok_same _ _ _ Hsm (Hnames ltac:(done))) as [Hn1 Hn2 _].
    assert (Hv2 : valid s2 q) by (eapply (inv_valid sim); eauto).
    assert (Hq : cs_nodes s2 !! m_sender hdr = Some q) by (rewrite (same_nodes _ _ Hsm); done).
    apply wp_bind. apply wp_bind. eapply wp_mono; [apply process_role_ok; [done|done|intros n Hn; by eapply Hn1|done]|].
    intros ? s3 [Hi3 Hme3]. pose proof (inv_wf _ _ _ Hi3) as Hw3. apply wp_bind. eapply wp_mono; [apply process_slots_ok; [done| | |]|].
    + by eapply (inv_valid same).
    + intros n3 Hn3. destruct (same_lookup s3 s2 q n3) as (n2 & Hn2' & _ & E); [symmetry; apply Hi3|done|].
      rewrite <- E. by eapply Hn1.
    + intros Ht. destruct (Hk Ht ltac:(done)) as [Hk1 Hk2]. eapply knows_master_role; [apply Hme3|eapply knows_master_role; [|exact Hk1]].
      * rewrite (same_myself _ _ Hsm). congruence.
      * apply me_role_sim, Hi.
    + intros ? s4 Hi4. pose proof (inv_trans same _ _ _ Hi3 Hi4) as Hi5.
      eapply wp_mono; [apply clusterProcessGossipSection_ok; [by eapply inv_wf|]|].
      * intros Ht. eapply (link_ok_inv same); [exact Hi5|]. eapply (link_ok_inv sim); [exact Hi|auto].
      * intros ? s6 Hi6. apply wp_ret. split; [exact (inv_wf _ _ _ Hi6)|].
        eapply me_same_trans; [exact (inv_me_same sim _ _ Hw Hi)|].
        eapply me_same_trans; [exact (inv_me_same same _ _ Hw2 Hi5)|exact (inv_me_same grow _ _ (inv_wf _ _ _ Hi4) Hi6)].
  - apply wp_bind, wp_ret, wp_bind. eapply wp_mono; [by apply process_pong_ok|]. intros ? s1 Hi1.
    apply wp_bind, wp_ret, wp_ret. split; [exact (inv_wf _ _ _ Hi1)|]. eapply me_same_trans; [exact Hm0|exact (inv_me_same sim _ _ Hw0 Hi1)].
Qed.

Lemma process_other_ok s l sender epoch hdr : wf s -> names_ok hdr s -> (t -> link_ok l s) -> opt_valid s sender ->
  (t -> knows_master s) -> (t -> data_ok hdr) ->
  wp t (process_other sv l sender epoch hdr) (fun _ s' => inv same s s') s.
Proof.
  intros Hw [_ _ Hup] Hl Hov Hk Hd. unfold process_other.
  assert (Hr : inv same s s) by exact (inv_refl same s Hw).
  assert (Hsim : forall (m : cl unit), wp t m (fun _ s' => inv sim s s') s -> wp t m (fun _ s' => inv same s s') s).
  { intros m Hm. eapply wp_mono; [exact Hm|]. intros ? s'. apply (inv_of_sim same). }
  assert (Hknown : forall f : ptr -> cl unit, (forall p, sender = Some p -> valid s p -> wp t (f p) (fun _ s' => inv same s s') s) ->
    wp t (match sender with Some p => f p | None => mret tt end) (fun _ s' => inv same s s') s).
  { intros f Hf. destruct sender as [p|]; [|by apply wp_ret]. apply Hf; [done|by apply Hov]. }
  assert (Hbad : (~ data_ok hdr) -> wp t (A:=unit) (fun _ : clusterState => None) (fun _ s' => inv same s s') s).
  { intros Hn. apply wp_fail. auto. }
  unfold data_ok in Hbad.
  destruct (Z.eqb_spec (m_type hdr) CLUSTERMSG_TYPE_FAIL) as [E1|].
  { destruct (m_data hdr); try (apply Hbad; tauto). apply Hsim, process_fail_ok. done. }
  destruct (Z.eqb_spec (m_type hdr) CLUSTERMSG_TYPE_PUBLISH) as [E2|].
  { destruct (m_data hdr); try (apply Hbad; tauto). apply wp_when; intros _; [|done]. by apply wp_emit. }
  destruct (_ =? CLUSTERMSG_TYPE_FAILOVER_AUTH_REQUEST).
  { apply Hknown. intros p _ Hp. by apply Hsim, clusterSendFailoverAuthIfNeeded_ok. }
  destruct (_ =? CLUSTERMSG_TYPE_FAILOVER_AUTH_ACK).
  { apply Hknown. intros p _ Hp. by apply Hsim, process_auth_ack_ok. }
  destruct (_ =? CLUSTERMSG_TYPE_MFSTART).
  { apply Hknown. intros p _ Hp. by apply Hsim, process_mfstart_ok. }
  destruct (Z.eqb_spec (m_type hdr) CLUSTERMSG_TYPE_UPDATE) as [E3|].
  { destruct (m_data hdr) eqn:Ed; try (apply Hbad; tauto). apply Hknown. intros p _ Hp. apply process_update_ok; [done|by eapply Hup|done]. }
  destruct (Z.eqb_spec (m_type hdr) CLUSTERMSG_TYPE_MODULE) as [E4|]; [|by apply wp_ret].
  destruct (m_data hdr); try (apply Hbad; tauto). apply Hknown. intros p _ Hp. apply wp_bind, wp_deref; [done|]. intros ? ?. by apply wp_emit.
Qed.

Lemma packet_ok_sim s s' l hdr : inv sim s s' -> packet_ok l hdr s -> packet_ok l hdr s'.
Proof.
  intros Hi []. pose proof (proj2 (inv_of_sim same _ _ Hi)) as Hsm. pose proof (same_nodes _ _ Hsm) as En.
  split; try done; [by eapply (link_ok_inv sim)| | |].
  - eapply knows_master_role; [apply me_role_sim, Hi|done].
  - rewrite En, (same_myself _ _ Hsm). done.
  - by rewrite En.
Qed.

Lemma process_dispatch_ok s l sender e hdr : wf s -> names_ok hdr s -> sender = cs_nodes s !! m_sender hdr -> (t -> packet_ok l hdr s) ->
  wp t (when ((m_type hdr =? CLUSTERMSG_TYPE_PING) || (m_type hdr =? CLUSTERMSG_TYPE_MEET)) (process_ping sv l sender hdr);;
        if (m_type hdr =? CLUSTERMSG_TYPE_PING) || (m_type hdr =? CLUSTERMSG_TYPE_PONG) || (m_type hdr =? CLUSTERMSG_TYPE_MEET)
        then process_config sv l sender e.2 hdr
        else process_other sv l sender e.1 hdr;; mret true)
    (fun _ s' => wf s' /\ me_same s s') s.
Proof.
  intros Hw Hn Hs Hp. apply wp_bind.
  eapply (wp_mono _ _ (fun _ s1 => inv grow s s1 /\ (sender <> None \/ m_type hdr <> CLUSTERMSG_TYPE_MEET -> inv sim s s1))).
  { apply wp_when; intros _; [apply process_ping_ok; [done|apply Hp..]|split; [exact (inv_refl grow s Hw)|intros _; exact (inv_refl sim s Hw)]]. }
  intros ? s1 [Hi1 Hsim]. pose proof (inv_wf _ _ _ Hi1) as Hw1.
  destruct (_ || _ || _) eqn:Et.
  - eapply wp_mono; [apply process_config_ok; [done| | | | |]|].
    + intros Hs0. eapply names_ok_same; [|exact Hn]. apply (inv_of_sim same), Hsim. by left.
    + intros Ht. eapply (link_ok_inv grow); [exact Hi1|apply Hp, Ht].
    + intros Hs0. rewrite Hs. rewrite (same_nodes s s1); [done|]. apply (inv_of_sim same), Hsim. by left.
    + intros Ht Hs0 Hlk. rewrite <- Hs0, Hs. rewrite (same_nodes s s1); [done|]. apply (inv_of_sim same), Hsim. right. intros Hm. apply Hlk, (Hp Ht), Hm.
    + intros Ht Hs0. destruct (packet_ok_sim _ _ _ _ (Hsim (or_introl Hs0)) (Hp Ht)). done.
    + intros ? s2 [Hw2 Hm2]. split; [done|]. eapply me_same_trans; [exact (inv_me_same grow _ _ Hw Hi1)|done].
  - specialize (Hsim ltac:(lia)). apply wp_bind. eapply wp_mono; [apply process_other_ok|].
    + done.
    + eapply names_ok_same; [|exact Hn]. apply (inv_of_sim same), Hsim.
    + intros Ht. apply (packet_ok_sim _ _ _ _ Hsim (Hp Ht)).
    + intros q ->. eapply wf_lookup_node; [done|]. rewrite (same_nodes s s1); [done|]. apply (inv_of_sim same), Hsim.
    + intros Ht. apply (packet_ok_sim _ _ _ _ Hsim (Hp Ht)).
    + intros Ht. apply (Hp Ht).
    + intros ? s2 Hi2. apply wp_ret. split; [exact (inv_wf _ _ _ Hi2)|].
      eapply me_same_trans; [exact (inv_me_same sim _ _ Hw Hsim)|exact (inv_me_same same _ _ Hw1 Hi2)].
Qed.

Lemma clusterProcessPacket_ok s l hdr : wf s -> names_ok hdr s -> (t -> packet_ok l hdr s) ->
  wp t (clusterProcessPacket sv l hdr) (fun _ s' => wf s' /\ me_same s s') s.
Proof.
  intros Hw Hn Hp. unfold clusterProcessPacket, clusterLookupNode. apply wp_bind, wp_bind, wp_getS, wp_ret, wp_bind.
  eapply (wp_mono _ _ (fun _ s1 => inv sim s s1)).
  - pose proof (inv_refl sim s Hw). destruct (cs_nodes s !! m_sender hdr) as [p|] eqn:Ep; [|by apply wp_ret].
    assert (valid s p) by (by eapply wf_lookup_node). apply wp_bind. eapply wp_mono; [by apply process_header_ok|].
    intros ? s1 Hi1. apply wp_bind, wp_deref; [intros _; exact (inv_valid sim _ _ _ Hi1 H0)|]. intros n _. by apply wp_ret.
  - intros e s1 Hi1. pose proof (proj2 (inv_of_sim same _ _ Hi1)) as Hsm.
    eapply wp_mono; [apply (process_dispatch_ok s1)|].
    + exact (inv_wf _ _ _ Hi1).
    + by eapply names_ok_same.
    + symmetry. by rewrite (same_nodes _ _ Hsm).
    + intros Ht. by eapply packet_ok_sim; [|apply Hp].
    + intros ? s2 [Hw2 Hm2]. split; [done|]. eapply me_same_trans; [exact (inv_me_same sim _ _ Hw Hi1)|done].
Qed.

End ops.

#[export] Hint Resolve update_rank_ok clusterSetNodeAsMaster_inv clusterFailoverReplaceYourMaster_ok win_election_ok
  clusterHandleSlaveFailover_ok clusterBeforeSleep_ok : calls.
