(* ===== verification/ClusterCronInv.v ===== *)
(** The periodic work of [ClusterCron.v] keeps the invariant, and the start
    establishes it. *)
From stdpp Require Import gmap.
From S2P Require Import Prelude Sds Replication Cluster ClusterCron ClusterInv ClusterOps ClusterSlots ClusterRoles ClusterConfig ClusterRemove ClusterPackets.

Section cron.
Context (t : Prop) (sv : redisServer) (ci : cronInput).

Lemma clusterUpdateMyselfFlags_ok s : wf s -> wp t (clusterUpdateMyselfFlags sv) (fun _ s' => inv sim s s') s.
Proof. cl_start. unfold clusterUpdateMyselfFlags. destruct (sv_slave_no_failover sv); cl_auto. Qed.
Hint Resolve clusterUpdateMyselfFlags_ok : calls.

Lemma cron_announce_ok s : wf s -> wp t (cron_announce ci) (fun _ s' => inv sim s s') s.
Proof. cl_start. unfold cron_announce. cl_auto. Qed.
Hint Resolve cron_announce_ok : calls.

Lemma cron_ping_random_ok s : wf s -> (t -> forall j, ci_random_key ci j (cs_nodes s) ∈ node_ptrs s) ->
  wp t (cron_ping_random sv ci) (fun _ s' => inv sim s s') s.
Proof.
  intros Hw Hr. unfold cron_ping_random. apply wp_bind, wp_getS, wp_bind.
  eapply (wp_mono _ _ (fun best s' => s' = s /\ forall p z, best = Some (p, z) -> valid s p)).
  - apply (wp_fold_each _ _ _ _ (fun best s' => s' = s /\ forall p z, best = Some (p, z) -> valid s p)); [done|].
    intros j best s' _ [-> Hb]. apply wp_bind, wp_deref; [intros Ht; apply wf_node_ptrs; [done|by apply Hr]|].
    intros n Hn. apply wp_ret. split; [done|]. assert (Hv : valid s (ci_random_key ci j (cs_nodes s))) by (by eexists).
    intros p z. repeat case_match; naive_solver.
  - intros best s' [-> Hb]. pose proof (inv_refl sim s Hw). destruct best as [[p z]|]; [|by apply wp_ret].
    apply clusterSendPing_ok; [done|by eapply Hb].
Qed.

Lemma scan_replicas_ok s acc p : wf s -> valid s p -> wp t (scan_replicas acc p) (fun _ s' => inv sim s s') s.
Proof. cl_start. unfold scan_replicas. cl_auto. Qed.
Hint Resolve scan_replicas_ok : calls.

Lemma cron_node_ok s acc p : wf s -> valid s p -> wp t (cron_node sv ci acc p) (fun _ s' => inv sim s s') s.
Proof. cl_start. unfold cron_node. cl_auto. Qed.
Hint Resolve cron_node_ok : calls.

Lemma cron_replication_ok s : wf s -> wp t (cron_replication ci) (fun _ s' => inv sim s s') s.
Proof. cl_start. unfold cron_replication. cl_auto. Qed.
Hint Resolve cron_replication_ok : calls.

(** ** Migration *)

(** A target owns slots and is not a replica. *)
Definition target_ok (s : clusterState) (p : ptr) : Prop :=
  exists n, cs_heap s !! p = Some n /\ cn_numslots n > 0 /\ nodeIsSlave n = false.

Lemma target_ok_sim s s' p : sim s s' -> target_ok s p -> target_ok s' p.
Proof.
  intros Hs (n & Hn & H1 & H2). destruct (sim_lookup _ _ _ _ Hs Hn) as (n' & Hn' & E%view_eq). exists n'.
  split; [done|]. destruct E as (_ & _ & _ & -> & _ & -> & _). done.
Qed.

Definition choice_ok (s : clusterState) (r : option ptr * ptr) : Prop :=
  valid s r.2 /\ forall p, r.1 = Some p -> target_ok s p.

Lemma choice_ok_sim s s' r : inv sim s s' -> choice_ok s r -> choice_ok s' r.
Proof.
  intros Hi [H1 H2]. split; [by apply (inv_valid sim s)|]. intros p Hp. apply (target_ok_sim s); [apply Hi|auto].
Qed.

Lemma smaller_name_ok s l c : wf s -> valid s c -> (forall p, p ∈ l -> valid s p) ->
  wp t (fold_each l c smaller_name) (fun c' s' => s' = s /\ valid s c') s.
Proof.
  intros Hw Hc Hl. apply (wp_fold_each _ _ _ _ (fun c' s' => s' = s /\ valid s c')); [done|].
  intros p c' s' Hp [-> Hc']. unfold smaller_name. apply wp_bind, wp_deref; [intros _; by apply Hl|]. intros n Hn.
  apply wp_bind, wp_deref; [done|]. intros m Hm. apply wp_ret. split; [done|]. destruct (_ <? 0); [by eexists|done].
Qed.

Lemma migration_node_ok s k r p : wf s -> valid s p -> choice_ok s r ->
  wp t (migration_node sv k r p) (fun r' s' => inv sim s s' /\ choice_ok s' r') s.
Proof.
  intros Hw Hp Hr. unfold migration_node. destruct r as [target candidate]. apply wp_bind, wp_deref; [done|]. intros n Hn.
  apply wp_bind. eapply (wp_mono _ _ (fun _ s' => inv sim s s')).
  { pose proof (inv_refl sim s Hw). destruct (nodeIsMaster n); [by apply clusterCountNonFailingSlaves_ok|by apply wp_ret]. }
  intros ok s1 Hi1. pose proof (inv_wf _ _ _ Hi1) as Hw1.
  apply wp_bind, wp_update_inv; [done|intros _; by apply (inv_valid sim s s1 p Hi1)|view_done|]. intros s2 Hi2.
  pose proof (inv_trans sim _ _ _ Hi1 Hi2) as Hi. pose proof (choice_ok_sim _ _ _ Hi Hr) as [Hc Ht]. cbn in Hc, Ht.
  apply wp_bind. eapply (wp_mono _ _ (fun c' s' => s' = s2 /\ valid s2 c')).
  { destruct (ok =? k); [|by apply wp_ret]. apply smaller_name_ok; [by apply Hi|done|].
    intros q Hq. apply (inv_valid sim s s2 q Hi). by eapply wf_slaves. }
  intros c' s' [-> Hc']. apply wp_ret. split; [done|]. split; [done|]. cbn. intros q. destruct target as [q'|].
  - intros [= ->]. by apply Ht.
  - destruct (_ && _) eqn:Eb; [|done]. intros [= <-]. apply (target_ok_sim s); [apply Hi|]. exists n. split; [done|].
    destruct (nodeIsSlave n); cbn in Eb; [done|]. split; [lia|done].
Qed.

Lemma clusterHandleSlaveMigration_ok s k : wf s -> wp t (clusterHandleSlaveMigration sv ci k) (fun _ s' => inv same s s') s.
Proof.
  intros Hw. unfold clusterHandleSlaveMigration. pose proof (inv_refl same s Hw) as Hr. apply wp_bind, wp_getS.
  destruct (wf_me s Hw) as (me & Hme & _ & Hrole). apply wp_bind, wp_deref; [by eexists|]. intros me' Hme'.
  assert (me' = me) as -> by congruence. clear Hme'.
  destruct (negb _); [by apply wp_ret|]. destruct (cn_slaveof me) as [q|] eqn:Eq; [|by apply wp_ret].
  destruct Hrole as [[]|(_ & Hsl & Hns)]; [done|].
  apply wp_bind, wp_deref; [intros _; by eapply wf_slaveof|]. intros m Hm.
  apply wp_bind. eapply (wp_mono _ _ (fun _ s' => s' = s)).
  { apply (wp_fold_each _ _ _ _ (fun _ s' => s' = s)); [done|]. intros p c s' Hp ->.
    apply wp_bind, wp_deref; [intros _; by eapply wf_slaves|]. intros n Hn. by apply wp_ret. }
  intros ok s' ->. destruct (_ <=? _); [by apply wp_ret|]. apply wp_bind.
  eapply (wp_mono _ _ (fun r s1 => inv sim s s1 /\ choice_ok s1 r)).
  { apply (wp_fold_each _ _ _ _ (fun r s1 => inv sim s s1 /\ choice_ok s1 r)).
    - split; [exact (inv_refl sim s Hw)|]. split; [by eexists|done].
    - intros p r s1 Hp [Hi1 Hc]. eapply wp_mono; [apply migration_node_ok; [by apply Hi1| |done]|].
      + apply (inv_valid sim s s1 p Hi1). by apply wf_node_ptrs.
      + intros r' s2 [Hi2 Hc2]. split; [by eapply (inv_trans sim)|done]. }
  intros [target candidate] s1 [Hi1 [_ Ht]]. cbn in *. pose proof (inv_of_sim same _ _ Hi1) as Hs1. pose proof (inv_wf _ _ _ Hi1) as Hw1.
  destruct target as [p|]; [|by apply wp_ret]. destruct (Ht p eq_refl) as (n & Hn & Hnum & Hnsl).
  apply wp_bind, wp_deref; [by eexists|]. intros n' Hn'. assert (n' = n) as -> by congruence. clear Hn'.
  apply wp_when; intros _; [|done].
  destruct (sim_lookup _ _ _ _ (proj2 Hi1) Hme) as (me1 & Hme1 & E%view_eq). rewrite <- (sim_myself _ _ (proj2 Hi1)) in Hme1.
  eapply wp_mono; [apply (clusterSetMaster_ok t s1 p n)|].
  - done.
  - done.
  - destruct (nodeInHandshake n) eqn:Hh; [|done]. destruct (wf_hs s1 Hw1 p n Hn Hh) as (_ & _ & ?). lia.
  - intros _ ->. assert (me1 = n) as -> by congruence. intuition congruence.
  - intros _ me2 Hme2. assert (me2 = me1) as -> by congruence. intuition congruence.
  - intros ? s2 [Hi2 _]. by eapply (inv_trans same).
Qed.

(** ** The cron *)

Lemma cron_slave_ok s acc : wf s -> wp t (cron_slave sv ci acc) (fun _ s' => inv same s s') s.
Proof.
  cl_start. unfold cron_slave. pose proof clusterHandleSlaveMigration_ok. cl_auto.
Qed.

(** The handshakes that are too old go, the other nodes stay. *)
Definition kept (l : list ptr) (s s' : clusterState) : Prop :=
  wf s' /\ me_same s s' /\ forall p, p ∉ l -> valid s p -> valid s' p.

Lemma cron_connect_ok s l p s1 : wf s -> valid s p -> p ∉ l -> kept l s s1 ->
  wp t (cron_connect sv ci p) (fun _ s2 => kept (l ++ [p]) s s2) s1.
Proof.
  intros Hw Hp Hl (Hw1 & Hm1 & Hv1). assert (Hp1 : valid s1 p) by auto.
  assert (Hsim : forall m : cl unit, wp t m (fun _ s2 => inv sim s1 s2) s1 -> wp t m (fun _ s2 => kept (l ++ [p]) s s2) s1).
  { intros m H. eapply wp_mono; [exact H|]. intros ? s2 Hi. split; [by apply Hi|].
    split; [eapply me_same_trans; [done|exact (inv_me_same sim _ _ Hw1 Hi)]|].
    intros q Hq Hvq. apply (inv_valid sim _ _ _ Hi), Hv1; set_solver. }
  unfold cron_connect. apply wp_bind, wp_deref; [done|]. intros n Hn.
  destruct (has n _); [apply Hsim; cl_start; cl_auto|]. destruct (nodeInHandshake n && _) eqn:Eh.
  - apply andb_true_iff in Eh as [Hh _]. pose proof (wf_hs_not_me s1 p n Hw1 Hn Hh) as Hne.
    destruct (wf_hs s1 Hw1 p n Hn Hh) as (Hso & _).
    eapply wp_mono; [apply (clusterDelNode_ok t sv s1 p n); [done|done|done|congruence]|].
    intros ? s2 (Hw2 & Hr & _). split; [done|]. split; [eapply me_same_trans; [done|by eapply removed_me]|].
    intros q Hq Hvq. assert (Hv : valid s1 q) by (apply Hv1; set_solver). destruct Hr as [_ Hr]. specialize (Hr q).
    rewrite decide_False in Hr by set_solver. destruct Hv as [m Hm]. rewrite Hm in Hr. unfold valid.
    destruct (cs_heap s2 !! q); [by eexists|done].
  - destruct (linked n); [apply Hsim; cl_start; cl_auto|].
    destruct (ci_connect ci p); apply Hsim; cl_start; unfold freeClusterLink; cbn [l_node]; cl_auto.
Qed.

Lemma node_ptrs_NoDup s : wf s -> NoDup (node_ptrs s).
Proof.
  intros Hw. unfold node_ptrs. apply NoDup_fmap_2_strong; [|apply NoDup_map_to_list].
  intros [nm p] [nm' p'] Hp%elem_of_map_to_list Hp'%elem_of_map_to_list. cbn. intros ->. f_equal.
  apply (wf_dict s Hw) in Hp as (n & Hn & <-). apply (wf_dict s Hw) in Hp' as (n' & Hn' & <-). congruence.
Qed.

(** A loop over a list without duplicates: the element was not seen yet. *)
Lemma wp_for_each_new {A} (l : list A) body (I : list A -> clusterState -> Prop) s : NoDup l -> I [] s ->
  (forall seen x s, x ∈ l -> x ∉ seen -> I seen s -> wp t (body x) (fun _ s' => I (seen ++ [x]) s') s) ->
  wp t (for_each l body) (fun _ s' => I l s') s.
Proof.
  intros Hd H0 Hb. change l with ([] ++ l) at 2. revert H0.
  assert (Hsep : forall x, x ∈ l -> x ∉ @nil A) by set_solver. revert Hsep. generalize (@nil A) as pre. revert s.
  induction Hd as [|x l Hx Hd IH]; intros s pre Hsep H0; cbn [for_each].
  - apply wp_ret. by rewrite app_nil_r.
  - apply wp_bind. eapply wp_mono; [apply (Hb pre); [set_solver|apply Hsep; set_solver|done]|]. intros b' s' H'. cbn beta in H'.
    rewrite cons_middle, app_assoc. apply IH; [|set_solver|done]. intros. apply Hb; [set_solver|done|done].
Qed.

(** [dictGetRandomKey] gives an entry of a dict that is not empty. *)
Definition random_ok : Prop := forall j nodes, nodes <> ∅ -> exists nm, nodes !! nm = Some (ci_random_key ci j nodes).

Lemma random_key_valid s j : random_ok -> wf s -> ci_random_key ci j (cs_nodes s) ∈ node_ptrs s.
Proof.
  intros Hr Hw. destruct (Hr j (cs_nodes s)) as (nm & E).
  - intros E. destruct (wf_me s Hw) as (me & Hme & _). assert (Hd : cs_nodes s !! cn_name me = Some (cs_myself s)) by (apply (wf_dict s Hw); eauto).
    by rewrite E, lookup_empty in Hd.
  - apply list_elem_of_fmap. exists (nm, ci_random_key ci j (cs_nodes s)). split; [done|]. by apply elem_of_map_to_list.
Qed.

(** From here on nothing is removed. *)
Lemma cron_rest_ok s : wf s -> (t -> random_ok) ->
  wp t (when (ci_iteration ci mod 10 =? 0) (cron_ping_random sv ci);;
        s ← getS;
        acc ← fold_each (node_ptrs s) (mkScan 0 0 0 false) (cron_node sv ci);
        cron_replication ci;;
        manualFailoverCheckTimeout sv;;
        won ← cron_slave sv ci acc;
        s ← getS;
        when (update_state acc || (cs_state s =? CLUSTER_FAIL)) (clusterUpdateState sv);;
        mret won) (fun _ s' => inv same s s') s.
Proof.
  intros Hw Hr. apply wp_bind. eapply (wp_mono _ _ (fun _ s' => inv sim s s')).
  { apply wp_when; intros _; [|exact (inv_refl sim s Hw)]. apply cron_ping_random_ok; [done|]. intros Ht j. by apply random_key_valid; [apply Hr|]. }
  intros ? s1 Hi1. apply (inv_of_sim same) in Hi1. pose proof (inv_wf _ _ _ Hi1). pose proof cron_slave_ok. learn. cl_auto.
Qed.

Lemma clusterCron_ok s : wf s -> (t -> random_ok) -> wp t (clusterCron sv ci) (fun _ s' => wf s' /\ me_same s s') s.
Proof.
  intros Hw Hr. unfold clusterCron. apply wp_bind. eapply wp_mono; [by apply cron_announce_ok|]. intros ? s1 Hi1.
  apply wp_bind. eapply wp_mono; [apply clusterUpdateMyselfFlags_ok, Hi1|]. intros ? s2 Hi2.
  pose proof (inv_trans sim _ _ _ Hi1 Hi2) as Hi. pose proof (inv_wf _ _ _ Hi) as Hw2. apply wp_bind, wp_getS, wp_bind.
  eapply wp_mono; [apply (wp_for_each_new _ _ (fun l s' => kept l s2 s')); [by apply node_ptrs_NoDup|done|]|].
  { intros l p s3 Hp Hl Hk. apply cron_connect_ok; [done|by apply wf_node_ptrs|done|done]. }
  intros ? s3 (Hw3 & Hm3 & _). eapply wp_mono; [by apply cron_rest_ok|]. intros ? s4 Hi4. split; [exact (inv_wf _ _ _ Hi4)|].
  eapply me_same_trans; [exact (inv_me_same sim _ _ Hw Hi)|]. eapply me_same_trans; [done|exact (inv_me_same same _ _ Hw3 Hi4)].
Qed.

(** ** Handshakes and connections *)

Lemma clusterHandshakeInProgress_ok s a x y : wf s -> wp t (clusterHandshakeInProgress a x y) (fun _ s' => inv sim s s') s.
Proof. cl_start. unfold clusterHandshakeInProgress. cl_auto. Qed.

Lemma clusterStartHandshake_ok s a x y : wf s -> (t -> cs_nodes s !! sv_random_name sv = None) ->
  wp t (clusterStartHandshake sv ci a x y) (fun _ s' => inv grow s s') s.
Proof.
  intros Hw Hr. unfold clusterStartHandshake. pose proof (inv_refl grow s Hw) as Hid.
  destruct (ci_norm_ip ci a) as [norm|]; [|by apply wp_ret]. destruct (_ || _); [by apply wp_ret|].
  apply wp_bind. eapply wp_mono; [by apply clusterHandshakeInProgress_ok|]. intros busy s1 Hi1.
  destruct busy; [apply wp_ret; by apply (inv_of_sim grow)|]. apply wp_bind.
  eapply wp_mono; [apply (add_node_ok t sv s1 None (Z.lor CLUSTER_NODE_HANDSHAKE CLUSTER_NODE_MEET) (fun b => mkAddr norm x (pport b) y));
    [by apply Hi1|intros Ht; rewrite (sim_nodes _ _ (proj2 Hi1)); auto]|].
  intros p s2 H2. apply wp_bind. eapply wp_mono; [exact H2|]. intros ? s3 H3. apply wp_bind.
  eapply wp_mono; [exact H3|]. intros ? s4 H4. apply wp_ret. eapply (inv_trans grow); [by apply (inv_of_sim grow)|done].
Qed.

Lemma clusterLinkConnectHandler_ok s l p : wf s -> valid s p -> l_node l = Some p ->
  wp t (clusterLinkConnectHandler sv ci l p) (fun _ s' => inv sim s s') s.
Proof. intros Hw Hp Hl. revert Hw Hp. cl_start. unfold clusterLinkConnectHandler, freeClusterLink. rewrite Hl. cl_auto. Qed.

End cron.
