(* ===== verification/ClusterStart.v ===== *)
(** [clusterInit] establishes the invariant, [clusterReset] forgets every other
    node and every slot, [verifyClusterConfigWithData] keeps the invariant. *)
From stdpp Require Import gmap.
From S2P Require Import Prelude Sds Replication Cluster ClusterCron ClusterInv ClusterOps ClusterSlots ClusterRoles ClusterConfig ClusterRemove ClusterPackets ClusterCronInv.

(** A node that knows no other one. *)
Lemma count_slots_none b : (forall j, 0 <= j < CLUSTER_SLOTS -> Z.testbit b j = false) -> count_slots b = 0.
Proof.
  intros H. unfold count_slots. destruct (filter _ slot_range) as [|j l] eqn:E; [done|]. exfalso.
  assert (Hj : j ∈ filter (fun j => Z.testbit b j = true) slot_range) by (rewrite E; set_solver).
  apply list_elem_of_filter in Hj as [Ht Hj%slot_range_elem]. by rewrite H in Ht.
Qed.

(** Only [n] is known, and no slot. *)
Record lonely (s : clusterState) (n : clusterNode) : Prop := {
  ln_heap : cs_heap s = {[cs_myself s := n]};
  ln_nodes : cs_nodes s = {[cn_name n := cs_myself s]};
  ln_next : cs_myself s < cs_next s;
  ln_role : nodeInHandshake n = false /\ (nodeIsMaster n = true \/ nodeIsMaster n = false /\ nodeIsSlave n = true) /\
            cn_slaveof n = None /\ cn_slaves n = [];
  ln_reports : NoDup (cn_fail_reports n).*1 /\ forall q, q ∈ (cn_fail_reports n).*1 -> q = cs_myself s;
  ln_bits : (forall j, 0 <= j < CLUSTER_SLOTS -> Z.testbit (cn_slots n) j = false) /\ cn_numslots n = 0;
  ln_slots : cs_slots s = ∅ /\ cs_importing_slots_from s = ∅ /\ cs_migrating_slots_to s = ∅
}.

Lemma wf_lonely s n : lonely s n -> wf s.
Proof.
  intros [Eh En Hx (R1 & R2 & R3 & R4) [D1 D2] [B1 B2] (S1 & S2 & S3)].
  assert (Hin : forall p m, cs_heap s !! p = Some m <-> p = cs_myself s /\ m = n).
  { intros p m. rewrite Eh, lookup_singleton_Some. naive_solver. }
  split.
  - by intros p m [-> ->]%Hin.
  - intros nm p. rewrite En, lookup_singleton_Some. split.
    + intros [<- <-]. exists n. split; [by apply Hin|done].
    + intros (m & [-> ->]%Hin & <-). done.
  - exists n. split; [by apply Hin|]. split; [done|]. destruct R2 as [|[]]; auto.
  - intros j p. rewrite S1, lookup_empty. split; [done|]. intros (Hj & m & [_ ->]%Hin & Ht). by rewrite B1 in Ht.
  - intros p m [_ ->]%Hin. by rewrite B2, count_slots_none.
  - intros p q. split; [intros (m & [_ ->]%Hin & Hp); rewrite R4 in Hp; set_solver|intros (m & [_ ->]%Hin & Hp); congruence].
  - intros p m [_ ->]%Hin. rewrite R4. constructor.
  - intros p m [_ ->]%Hin. congruence.
  - intros p m [_ ->]%Hin. split; [done|]. intros q ->%D2. exists n. by apply Hin.
  - intros j p. rewrite S2, S3, !lookup_empty. intros [|]; done.
Qed.

(** A master that knows no other node. *)
Definition alone (s : clusterState) (n : clusterNode) : Prop := lonely s n /\ nodeIsMaster n = true.

Lemma wf_alone s n : alone s n -> wf s.
Proof. intros [H _]. by eapply wf_lonely. Qed.

Lemma alone_sim s s' n : sim s s' -> alone s n -> exists n', alone s' n' /\ cn_name n' = cn_name n.
Proof.
  intros H [[Eh En Hx (R1 & R2 & R3 & R4) [D1 D2] [B1 B2] (S1 & S2 & S3)] Hm].
  destruct (sim_lookup s s' (cs_myself s) n H) as (n' & Hn' & E%view_eq); [by rewrite Eh, lookup_singleton_eq|].
  destruct E as (E1 & E2 & E3 & E4 & E5 & E6 & E7 & E8 & E9). pose proof H as [F1 F2 F3 F4 F5 F6 F7].
  exists n'. split; [|done]. split; [|congruence]. split; rewrite ?F1, ?F2, ?F3, ?F4, ?F5, ?F6, ?E1, ?E2, ?E3, ?E4, ?E5, ?E6, ?E7, ?E8, ?E9; try done.
  apply map_eq. intros p. specialize (F7 p). rewrite Eh in F7. destruct (decide (p = cs_myself s)) as [->|Hp].
  - by rewrite lookup_singleton_eq.
  - rewrite lookup_singleton_ne in F7 |- * by done. by destruct (cs_heap s' !! p).
Qed.

Section start.
Context (t : Prop) (sv : redisServer) (ci : cronInput).

(** The node is alone, and its name is the random one. *)
Lemma clusterInit_ok raw :
  wp t (clusterInit sv) (fun _ s => exists n, alone s n /\ cn_name n = sv_random_name sv) raw.
Proof.
  unfold clusterInit. apply wp_bind, wp_modify, wp_bind, wp_modify, wp_bind. unfold createClusterNode.
  apply wp_bind, wp_getS, wp_bind, wp_modify, wp_ret, wp_bind, wp_modify, wp_bind.
  cbn [cs_next init_fields set_field]. set (n0 := mkNode _ _ _ _ _ _ _ _ _ _ _ _ _ _ _ _ _ _ _).
  unfold clusterAddNode. apply wp_bind, wp_deref; [by eexists|]. intros n Hn. assert (n = n0) as ->.
  { change (<[1 := n0]> (∅ : gmap ptr clusterNode) !! 1 = Some n) in Hn. rewrite lookup_insert_eq in Hn. by injection Hn. }
  clear Hn.
  apply wp_bind, wp_getS, wp_bind, wp_assert; [done|]. intros _. apply wp_modify.
  match goal with |- wp _ _ _ ?x => set (s1 := x) end.
  assert (Ha : alone s1 n0).
  { split; [|done]. split; try done; [split; [done|]; split; [by left|done]|split; [constructor|set_solver]|].
    split; [|done]. intros j _. apply Z.testbit_0_l. }
  pose proof (wf_alone _ _ Ha) as Hw. eapply (wp_mono _ _ (fun _ s' => inv sim s1 s')).
  - pose proof (inv_refl sim s1 Hw). pose proof clusterUpdateMyselfFlags_ok. destruct (sv_announced_ports sv) as [[? ?] ?].
    assert (valid s1 (cs_next (raw <| cs_next := 1 |>))) by (by eexists). learn. cl_auto.
  - intros ? s' Hi. destruct (alone_sim _ _ _ (proj2 Hi) Ha) as (n & Hal & E). by exists n.
Qed.

(** ** Reset *)

(** A node with a master is flagged as a replica. *)
Definition roles_ok (s : clusterState) : Prop :=
  forall p n, cs_heap s !! p = Some n -> cn_slaveof n <> None -> nodeIsSlave n = true.

Lemma roles_agree {T} (v : clusterNode -> T) s s' : agree v s s' ->
  (forall n n', v n' = v n -> nodeIsSlave n' = nodeIsSlave n /\ cn_slaveof n' = cn_slaveof n) -> roles_ok s -> roles_ok s'.
Proof.
  intros H Hv Hr p n' Hn'. destruct (agree_lookup _ _ _ _ _ (agree_sym _ _ _ H) Hn') as (n & Hn & E).
  apply eq_sym, Hv in E as [-> ->]. by eapply Hr.
Qed.

Lemma roles_removed p s s' : removed p s s' -> roles_ok s -> roles_ok s'.
Proof.
  intros [_ H] Hr x n' Hn'. specialize (H x). rewrite Hn' in H. destruct (decide (x = p)) as [|Hxp]; [done|].
  destruct (cs_heap s !! x) as [n|] eqn:Hn; [|done]. apply Some_inj in H. injection H as _ _ _ E1 E2. rewrite E1, E2.
  unfold orphan. destruct (decide _); [done|]. by eapply Hr.
Qed.

Lemma roles_insert s p n n' : cs_heap s !! p = Some n -> (cn_slaveof n' <> None -> nodeIsSlave n' = true) -> roles_ok s ->
  roles_ok (s <| cs_heap := <[p := n']> (cs_heap s) |>).
Proof. intros Hn Hn' Hr x m. cbn. rewrite lookup_insert_Some. intros [[<- <-]|[_ ?]]; [done|by eapply Hr]. Qed.

Lemma flag_slave f n : Z.land f CLUSTER_NODE_SLAVE = 0 -> nodeIsSlave (set_flag f n) = nodeIsSlave n /\ nodeIsSlave (clear_flag f n) = nodeIsSlave n.
Proof. intros E. unfold nodeIsSlave. rewrite has_set_flag, has_clear_flag, E by done. by rewrite orb_false_r. Qed.

Lemma clusterSetNodeAsMaster_roles s p : roles_ok s -> wp False (clusterSetNodeAsMaster p) (fun _ s' => roles_ok s') s.
Proof.
  intros Hr. unfold clusterSetNodeAsMaster. apply wp_bind, wp_deref; [done|]. intros n Hn. destruct (nodeIsMaster n); [by apply wp_ret|].
  assert (Hf : forall m, nodeIsSlave (set_flag CLUSTER_NODE_MIGRATE_TO m) = nodeIsSlave m /\ nodeIsSlave (clear_flag CLUSTER_NODE_MIGRATE_TO m) = nodeIsSlave m)
    by (intros; by apply flag_slave).
  apply wp_bind. apply (wp_mono _ _ (fun _ s' => roles_ok s')).
  - destruct (cn_slaveof n) as [q|]; [|by apply wp_ret]. unfold clusterNodeRemoveSlave. apply wp_bind, wp_bind, wp_deref; [done|].
    intros m Hm. apply (wp_mono _ _ (fun _ s' => roles_ok s')).
    + case_bool_decide; [|by apply wp_ret]. apply wp_bind, wp_update; [done|]. intros m' Hm'. apply wp_ret.
      eapply roles_insert; [done| |done]. assert (m' = m) as -> by congruence. specialize (Hr q m Hm).
      destruct (bool_decide _); [|exact Hr]. rewrite (proj2 (Hf _)). exact Hr.
    + intros ? s1 Hr1. apply wp_bind, wp_getS, wp_when; intros _; [|done]. apply wp_update; [done|]. intros m' Hm'.
      eapply roles_insert; [done| |done]. rewrite (proj1 (Hf _)). exact (Hr1 p m' Hm').
  - intros ? s1 Hr1. apply wp_bind, wp_update; [done|]. intros m' Hm'. apply wp_modify. change (roles_ok (s1 <| cs_heap := <[p :=
      set_flag CLUSTER_NODE_MASTER (clear_flag CLUSTER_NODE_SLAVE m') <| cn_slaveof := None |>]> (cs_heap s1) |>)).
    by eapply roles_insert.
Qed.

Lemma wp_conj {A} (m : cl A) (P Q : A -> clusterState -> Prop) s : wp t m P s -> wp False m Q s -> wp t m (fun a s' => P a s' /\ Q a s') s.
Proof. unfold wp. destruct (m s) as [[[a s'] e]|]; [auto|]. tauto. Qed.

(** Every slot is unassigned. *)
Lemma del_slots_ok s : wf s ->
  wp t (for_each slot_range (fun j => clusterDelSlot j;; mret tt)) (fun _ s' => wf s' /\ slots_only s s' /\ cs_slots s' = ∅) s.
Proof.
  intros Hw. eapply wp_mono.
  { apply (wp_for_each_done t slot_range _ (fun l s' => wf s' /\ slots_only s s' /\ forall j, j ∈ l -> cs_slots s' !! j = None)).
    - split; [done|]. split; [done|]. set_solver.
    - intros l j s1 Hj (Hw1 & Ho & Hs). apply wp_bind. eapply wp_mono; [by apply clusterDelSlot_spec|].
      intros ? s2 (Hw2 & Ho2 & Es). apply wp_ret. split; [done|]. split; [by trans s1|]. intros i Hi. rewrite Es.
      destruct (decide (i = j)) as [->|]; [apply lookup_delete_eq|]. rewrite lookup_delete_ne by done. apply Hs. set_solver. }
  intros ? s' (Hw' & Ho & Hs). split; [done|]. split; [done|]. apply map_eq. intros j. rewrite lookup_empty.
  destruct (cs_slots s' !! j) as [p|] eqn:E; [|done]. rewrite <- E. apply Hs, slot_range_elem. by apply (wf_slots s' Hw') in E as [? _].
Qed.

(** The loop that forgets the other nodes, after [l]. *)
Record forgot (s : clusterState) (l : list ptr) (s' : clusterState) : Prop := {
  fg_wf : wf s';
  fg_roles : roles_ok s';
  fg_shrink : shrink s s';
  fg_me : cs_myself s' = cs_myself s /\ (fun n => (ident n, flags_of n)) <$> cs_heap s' !! cs_myself s = (fun n => (ident n, flags_of n)) <$> cs_heap s !! cs_myself s;
  fg_back : forall x, valid s' x -> valid s x /\ (x ∈ l -> x = cs_myself s);
  fg_fwd : forall x, x ∉ l -> valid s x -> valid s' x
}.

Lemma forget_ok s l p s1 : wf s -> valid s p -> p ∉ l -> forgot s l s1 ->
  wp t (when (negb (p =? cs_myself s)) (clusterDelNode sv p)) (fun _ s' => forgot s (l ++ [p]) s') s1.
Proof.
  intros Hw Hp Hl [Hw1 Hr1 Hk [Em Hme] Hb Hf]. apply wp_when; intros Hne.
  - destruct (Hf p Hl Hp) as [n Hn]. eapply wp_mono; [apply (clusterDelNode_ok t sv s1 p n); [done|done|rewrite Em; lia|by eapply Hr1]|].
    intros ? s2 (Hw2 & Hrm & _ & Hk2). pose proof Hrm as [Em2 H2].
    assert (Hx : forall x, valid s2 x <-> x <> p /\ valid s1 x).
    { intros x. specialize (H2 x). unfold valid. destruct (decide (x = p)); destruct (cs_heap s2 !! x), (cs_heap s1 !! x); try done;
        split; try (intros [? [? ?]]; done); intros [? ?]; try done; by split; [|eexists]. }
    split; [done|by eapply roles_removed|by trans s1| | |].
    + split; [congruence|]. rewrite <- Hme. specialize (H2 (cs_myself s)). rewrite decide_False in H2 by lia.
      destruct (cs_heap s2 !! cs_myself s), (cs_heap s1 !! cs_myself s); try done. apply Some_inj in H2. injection H2 as E1 E2 E3 E4 E5.
      cbn. unfold ident, flags_of. congruence.
    + intros x [Hxp Hv]%Hx. destruct (Hb x Hv) as [? Hin]. split; [done|]. set_solver.
    + intros x Hxl Hv. apply Hx. split; [set_solver|]. apply Hf; set_solver.
  - split; try done. + intros x Hv. destruct (Hb x Hv) as [? Hin]. split; [done|]. intros [?|E%list_elem_of_singleton]%elem_of_app; [auto|lia].
    + intros x Hxl Hv. apply Hf; [set_solver|done].
Qed.

(** Only [myself] is left. *)
Lemma forgot_alone s s' me : wf s -> forgot s (node_ptrs s) s' -> cs_slots s = ∅ -> cs_importing_slots_from s = ∅ -> cs_migrating_slots_to s = ∅ ->
  cs_heap s !! cs_myself s = Some me -> nodeIsMaster me = true -> exists n, alone s' n /\ cn_name n = cn_name me.
Proof.
  intros Hw [Hw' _ (K1 & K2 & K3) [Em Hme] Hb _] S1 S2 S3 Hm Hma. rewrite Hm in Hme.
  destruct (cs_heap s' !! cs_myself s) as [n|] eqn:Hn; [|done]. apply Some_inj in Hme. injection Hme as E1 E2 E3 E4.
  destruct (wf_me s' Hw') as (n' & Hn' & Hh & Hrole). rewrite Em in Hn'. assert (n' = n) as -> by congruence.
  destruct Hrole as [[R1 R2]|[R1 _]]; [|congruence]. rewrite S1, S2, S3 in *.
  assert (Hsub : forall m : gmap Z ptr, m ⊆ ∅ -> m = ∅).
  { intros m H. apply map_eq. intros i. rewrite lookup_empty. destruct (m !! i) eqn:E; [|done].
    apply (proj1 (map_subseteq_spec _ _) H) in E. by rewrite lookup_empty in E. }
  assert (Hall : forall x, valid s' x -> x = cs_myself s).
  { intros x Hv. destruct (Hb x Hv) as [[m Hmx] Hin]. apply Hin, list_elem_of_fmap. exists (cn_name m, x). split; [done|].
    apply elem_of_map_to_list, (wf_dict s Hw). eauto. }
  exists n. split; [|done]. split; [|done]. split; rewrite ?Em.
  - apply map_eq. intros x. destruct (decide (x = cs_myself s)) as [->|Hx]; [by rewrite lookup_singleton_eq|].
    rewrite lookup_singleton_ne by done. destruct (cs_heap s' !! x) eqn:E; [|done]. destruct Hx. apply Hall. by eexists.
  - apply map_eq. intros nm. destruct (decide (nm = cn_name n)) as [->|Hx].
    + rewrite lookup_singleton_eq. apply (wf_dict s' Hw'). eauto.
    + rewrite lookup_singleton_ne by done. destruct (cs_nodes s' !! nm) as [q|] eqn:E; [|done]. exfalso.
      apply (wf_dict s' Hw') in E as (m & Hq & <-). assert (q = cs_myself s) as -> by (apply Hall; by eexists). congruence.
  - by eapply wf_next.
  - split; [done|]. split; [by left|]. split; [done|]. destruct (cn_slaves n) as [|x l] eqn:El; [done|]. exfalso.
    destruct (proj1 (wf_repl s' Hw' x (cs_myself s))) as (m & Hx & E); [exists n; split; [done|]; rewrite El; set_solver|].
    assert (x = cs_myself s) as -> by (apply Hall; by eexists). congruence.
  - destruct (wf_reports s' Hw' _ n Hn) as [? Hv]. split; [done|]. intros q Hq%Hv. by apply Hall.
  - assert (Hno : forall j, cs_slots s' !! j <> Some (cs_myself s)) by (intros j; rewrite (Hsub _ K1); done).
    split; [|by eapply wf_no_slots]. intros j Hj. destruct (Z.testbit (cn_slots n) j) eqn:E; [|done].
    destruct (Hno j). apply (wf_slots s' Hw'). eauto.
  - auto.
Qed.

Lemma hard_reset_ok s n : alone s n ->
  wp t (hard_reset sv) (fun _ s' => exists n', alone s' n' /\ cs_myself s' = cs_myself s /\ cn_name n' = sv_random_name sv /\
    cn_configEpoch n' = 0 /\ cs_currentEpoch s' = 0 /\ cs_lastVoteEpoch s' = 0) s.
Proof.
  intros [[Eh En Hx Hrole Hrep Hbits Hslots] Hmas]. unfold hard_reset. apply wp_bind, wp_modify, wp_bind, wp_getS.
  set (s1 := s <| cs_currentEpoch := 0 |> <| cs_lastVoteEpoch := 0 |>). set (p := cs_myself s) in *.
  apply wp_bind, (wp_update_twice _ _ _ _ n); [by change (cs_heap s !! p = Some n); rewrite Eh, lookup_singleton_eq|].
  set (n1 := n <| cn_configEpoch := 0 |>). apply wp_bind, wp_deref; [intros _; eexists; apply lookup_insert_eq|].
  intros m Hm. assert (m = n1) as -> by (cbn in Hm; rewrite lookup_insert_eq in Hm; by injection Hm). clear Hm.
  apply wp_bind, wp_modify, wp_bind, (wp_update_twice _ _ _ _ n1); [apply lookup_insert_eq|]. set (n2 := n1 <| cn_name := _ |>).
  unfold clusterAddNode. apply wp_bind, wp_deref; [intros _; eexists; apply lookup_insert_eq|].
  intros m Hm. assert (m = n2) as -> by (cbn in Hm; rewrite lookup_insert_eq in Hm; by injection Hm). clear Hm.
  assert (E : delete (cn_name n1) (cs_nodes s) = ∅) by (rewrite En; apply delete_singleton_eq).
  apply wp_bind, wp_getS, wp_bind, wp_assert; [intros _; apply bool_decide_eq_true_2; change (delete (cn_name n1) (cs_nodes s) !! cn_name n2 = None); by rewrite E|]. intros _.
  apply wp_modify. exists n2. split; [|done]. split; [|done]. split; try done.
  - cbn. by rewrite !insert_insert_eq, Eh, insert_singleton_eq.
  - change (<[cn_name n2 := p]> (delete (cn_name n1) (cs_nodes s)) = {[cn_name n2 := p]}). by rewrite E.
Qed.

Lemma clusterReset_ok s hard me : wf s -> roles_ok s -> cs_heap s !! cs_myself s = Some me ->
  wp t (clusterReset sv hard) (fun _ s' => exists n, alone s' n /\ cs_myself s' = cs_myself s /\
    cn_name n = (if hard then sv_random_name sv else cn_name me) /\
    (hard = true -> cn_configEpoch n = 0 /\ cs_currentEpoch s' = 0 /\ cs_lastVoteEpoch s' = 0)) s.
Proof.
  intros Hw Hr Hme. unfold clusterReset. apply wp_bind, wp_getS, wp_bind, wp_deref; [by eexists|]. intros m Hm.
  assert (m = me) as -> by congruence. clear Hm. apply wp_bind.
  apply (wp_mono _ _ (fun _ s1 => (inv same s s1 /\ exists n, cs_heap s1 !! cs_myself s = Some n /\ nodeIsMaster n = true) /\ roles_ok s1)).
  { apply wp_when; intros Hs.
    - apply wp_bind. eapply wp_mono; [apply wp_conj; [apply clusterSetNodeAsMaster_ok; [done|by eexists]|by apply clusterSetNodeAsMaster_roles]|].
      intros ? s1 ((Hi & _ & _ & Hn) & Hr1). by apply wp_bind, wp_emit, wp_emit.
    - split; [|done]. split; [exact (inv_refl same s Hw)|]. exists me. split; [done|]. destruct (wf_me s Hw) as (m & ? & _ & [[]|(_ & ? & _)]); congruence. }
  intros ? s1 [[Hi1 (n1 & Hn1 & Hm1)] Hr1]. pose proof (inv_wf _ _ _ Hi1) as Hw1. apply wp_bind, wp_modify.
  match goal with |- wp _ _ _ ?x => set (s2 := x) end.
  assert (Hi2 : inv same s1 s2) by (apply (inv_fewer_open s1 ∅ ∅ Hw1); intros j p; by rewrite lookup_empty).
  apply wp_bind. eapply wp_mono; [apply resetManualFailover_ok, Hi2|]. intros ? s3 Hi3. pose proof (inv_wf _ _ _ Hi3) as Hw3.
  apply wp_bind. eapply wp_mono; [by apply del_slots_ok|]. intros ? s4 (Hw4 & Ho4 & Es4).
  pose proof (proj2 Hi3) as Hs3. pose proof (same_myself _ _ (proj2 Hi1)) as Em1.
  assert (Em4 : cs_myself s4 = cs_myself s) by (rewrite (so_myself _ _ Ho4), (sim_myself _ _ Hs3); exact Em1).
  apply wp_bind, wp_getS, wp_bind. eapply wp_mono.
  { apply (wp_for_each_new t _ _ (fun l s' => forgot s4 l s')); [by apply node_ptrs_NoDup| |].
    - split; try done; [|set_solver]. eapply (roles_agree slot_frame); [apply (so_heap _ _ Ho4)|intros ? ? ?%slot_frame_eq; intuition|].
      eapply (roles_agree view); [exact (sim_heap _ _ Hs3)|intros ? ? ?%view_eq; intuition|exact Hr1].
    - intros l p s5 Hp Hl Hf. apply forget_ok; [done|by apply wf_node_ptrs|done|done]. }
  intros ? s5 Hf. destruct (sim_lookup s2 s3 (cs_myself s) n1 Hs3 Hn1) as (n3 & Hn3 & E3%view_eq).
  destruct (agree_lookup _ _ _ _ _ (so_heap _ _ Ho4) Hn3) as (n4 & Hn4 & E4%slot_frame_eq).
  destruct (forgot_alone s4 s5 n4) as (n5 & Hal & En5); try done; [| |by rewrite Em4|intuition congruence|].
  { rewrite (so_importing _ _ Ho4), (sim_importing _ _ Hs3). done. }
  { rewrite (so_migrating _ _ Ho4), (sim_migrating _ _ Hs3). done. }
  assert (En : cn_name n5 = cn_name me).
  { destruct (same_lookup s s1 _ me (proj2 Hi1) Hme) as (m1 & ? & ? & _). intuition congruence. }
  assert (Em5 : cs_myself s5 = cs_myself s) by (rewrite (proj1 (fg_me _ _ _ Hf)); done).
  apply wp_bind. destruct hard; cbn [when].
  - eapply wp_mono; [by apply (hard_reset_ok s5 n5)|]. intros ? s6 (n6 & Hal6 & Em6 & En6 & Ec & Ee & Ev). apply wp_modify.
    exists n6. split; [split; [by split; apply Hal6|apply Hal6]|]. split; [cbn; congruence|]. done.
  - apply wp_ret, wp_modify. exists n5. split; [split; [by split; apply Hal|apply Hal]|]. done.
Qed.

(** ** Keys and slots *)

Lemma verifyClusterConfigWithData_ok s : wf s -> wp t (verifyClusterConfigWithData sv ci) (fun _ s' => inv same s s') s.
Proof.
  intros Hw. unfold verifyClusterConfigWithData. pose proof (inv_refl same s Hw) as Hid. apply wp_bind, wp_getS.
  destruct (wf_me s Hw) as (me & Hme & Hh & Hrole). apply wp_bind, wp_deref; [by eexists|]. intros m Hm. assert (m = me) as -> by congruence.
  destruct (negb _); [by apply wp_ret|]. destruct (nodeIsSlave me) eqn:Es; [by apply wp_ret|]. destruct (negb _); [by apply wp_ret|].
  destruct Hrole as [[R1 R2]|(_ & ? & _)]; [|congruence].
  apply wp_bind. eapply (wp_mono _ _ (fun _ s1 => inv same s s1 /\ me_role s1 = me_role s)).
  - apply (wp_fold_each _ _ _ _ (fun _ s1 => inv same s s1 /\ me_role s1 = me_role s)); [done|].
    intros j b s1 Hj [Hi1 Hr1]. apply slot_range_elem in Hj. pose proof (inv_wf _ _ _ Hi1) as Hw1. apply wp_bind, wp_getS. destruct (_ || _); [by apply wp_ret|].
    apply wp_bind. eapply (wp_mono _ _ (fun _ s2 => inv same s s2 /\ me_role s2 = me_role s)); [|intros ? s2 ?; by apply wp_ret].
    destruct (cs_slots s1 !! j) as [q|] eqn:Eq.
    + apply wp_modify. split; [|done]. eapply (inv_trans same); [exact Hi1|]. split; [|by split]. pose proof (wf_open s1 Hw1) as Ho.
      pose proof (wf_owner s1 j q Hw1 Eq) as Hv. destruct Hw1. split; try done. cbn. intros i p [Hp|Hp]; [|by eauto].
      apply lookup_insert_Some in Hp as [[<- <-]|[_ Hp]]; eauto.
    + apply wp_bind. eapply wp_mono; [apply clusterAddSlot_spec; [done|by apply wf_myself|done|done| |]|].
      * intros m1 _ Hm1. unfold me_role in Hr1. rewrite Hme, Hm1 in Hr1. apply Some_inj in Hr1. injection Hr1 as -> _ ->. done.
      * intros m1 Hm1. destruct (wf_me s1 Hw1) as (m2 & ? & ? & _). congruence.
      * intros ? s2 (Hw2 & Ho2 & _). apply wp_ret. split.
        -- eapply (inv_trans same); [exact Hi1|]. split; [done|by apply slots_only_same].
        -- rewrite (me_role_slots _ _ Ho2). done.
  - intros b s1 [Hi1 _]. apply wp_bind, wp_when; intros _; [apply wp_emit|]; by apply wp_ret.
Qed.

End start.
