(* ===== verification/ClusterCommandInv.v ===== *)
(** The CLUSTER command keeps the invariant, and what its subcommands that
    change slots do. *)
From stdpp Require Import gmap.
From Stdlib Require Import String.
From S2P Require Import Prelude Util Crc CrcSpec Sds Replication Cluster ClusterCron ClusterCommand ClusterInv ClusterOps ClusterSlots ClusterRoles ClusterConfig ClusterRemove ClusterPackets ClusterCronInv ClusterStart.
Open Scope string_scope.
Open Scope list_scope.
Open Scope Z_scope.

Section command.
Context (t : Prop) (sv : redisServer) (ci : cronInput).

(** ** Arguments *)

Lemma wp_lift {A} (o : option A) (Q : A -> clusterState -> Prop) s : (t -> o <> None) -> (forall a, o = Some a -> Q a s) -> wp t (lift o) Q s.
Proof. intros Ht HQ. unfold wp, lift. destruct o as [a|]; cbn; [by apply HQ|]. intros H. by apply Ht in H. Qed.

Lemma getLongLong_ok a s : (t -> Forall byte_ok a) ->
  wp t (getLongLongFromObject a) (fun r s' => s' = s /\ (Forall byte_ok a -> forall v, r = Some v <-> canonical a v)) s.
Proof.
  intros Ha. apply wp_lift.
  - intros Ht. destruct (string2ll_spec a (Ha Ht)) as (r & -> & _). done.
  - intros r E. split; [done|]. intros Hok. destruct (string2ll_spec a Hok) as (r' & E' & H). rewrite E in E'. by injection E' as <-.
Qed.

Lemma getSlotOrReply_ok a s : (t -> Forall byte_ok a) ->
  wp t (getSlotOrReply a) (fun r s' => s' = s /\ forall j, r = Some j -> 0 <= j < CLUSTER_SLOTS /\ (Forall byte_ok a -> canonical a j)) s.
Proof.
  intros Ha. unfold getSlotOrReply. apply wp_bind. eapply wp_mono; [by apply getLongLong_ok|]. intros r s' [-> Hr]. apply wp_ret.
  split; [done|]. destruct r as [v|]; [|done]. destruct (_ || _) eqn:E; [done|]. intros j [= ->]. split; [lia|]. intros Hok. by apply Hr.
Qed.

(** The name a lookup by an argument uses. *)
Definition name_of_arg (a : bytes) : name := take CLUSTER_NAMELEN (a ++ [0]).

Lemma lookup_arg_ok a s : (t -> (CLUSTER_NAMELEN <= length a + 1)%nat) ->
  wp t (lookup_arg a) (fun r s' => s' = s /\ r = cs_nodes s !! name_of_arg a) s.
Proof.
  intros Ha. unfold lookup_arg. destruct (Nat.leb_spec CLUSTER_NAMELEN (length a + 1)) as [|Hl].
  - unfold clusterLookupNode. by apply wp_bind, wp_getS, wp_ret.
  - apply wp_fail. intros Ht%Ha. lia.
Qed.

(** ** Slots *)

Lemma inv_slots s s' : wf s' -> slots_only s s' -> inv same s s'.
Proof. intros Hw Ho. split; [done|by apply slots_only_same]. Qed.

Lemma cluster_flushslots_ok s : wf s -> wp t (cluster_flushslots ci) (fun _ s' => inv same s s') s.
Proof.
  intros Hw. unfold cluster_flushslots. pose proof (inv_refl same s Hw) as Hid. destruct (negb _); [by apply wp_ret|].
  apply wp_bind, wp_getS, wp_bind. eapply wp_mono; [apply clusterDelNodeSlots_spec; [done|by apply wf_myself]|].
  intros ? s1 (Hw1 & Ho & _). pose proof (inv_slots _ _ Hw1 Ho) as Hi. apply wp_bind, wp_modify, wp_ret.
  eapply (inv_trans same); [exact Hi|]. apply (inv_of_sim same), inv_sim; [done|apply sim_todo].
Qed.

(** What the first loop of ADDSLOTS and DELSLOTS checks. *)
Definition slots_ok (del : bool) (s : clusterState) (slots : list Z) : Prop :=
  NoDup slots /\ forall j, j ∈ slots -> 0 <= j < CLUSTER_SLOTS /\ (cs_slots s !! j = None <-> del = false).

Lemma parse_slots_ok del s args : (t -> Forall (Forall byte_ok) args) -> forall seen, slots_ok del s seen ->
  wp t (parse_slots del args seen) (fun r s' => s' = s /\
    match r with
    | inl e => e <> ReplyOk
    | inr slots => slots_ok del s slots /\ (Forall (Forall byte_ok) args -> exists l, Forall2 canonical args l /\ slots = reverse l ++ seen)
    end) s.
Proof.
  induction args as [|a args IH]; intros Ha seen Hs; cbn [parse_slots].
  - apply wp_ret. split; [done|]. split; [done|]. intros _. exists []. split; [constructor|done].
  - apply wp_bind. eapply wp_mono; [apply getSlotOrReply_ok; intros Ht; by apply Ha in Ht; inversion Ht|].
    intros r s' [-> Hr]. destruct r as [slot|]; [|by apply wp_ret]. destruct (Hr slot eq_refl) as [Hj Hc]. clear Hr.
    apply wp_bind, wp_getS. destruct (del && _) eqn:E1; [by apply wp_ret|]. destruct (negb del && _) eqn:E2; [by apply wp_ret|].
    destruct (bool_decide (slot ∈ seen)) eqn:Hin; [by apply wp_ret|]. apply bool_decide_eq_false in Hin.
    assert (Hs' : slots_ok del s (slot :: seen)).
    { destruct Hs as [Hd Hs]. split; [by constructor|]. intros j [->|Hj']%elem_of_cons; [|by apply Hs]. split; [done|].
      destruct del, (bool_decide_reflect (cs_slots s !! slot = None)); cbn in *; split; congruence. }
    eapply wp_mono; [apply IH; [intros Ht; by apply Ha in Ht; inversion Ht|done]|]. intros [e|slots] s1 [-> H]; [done|].
    split; [done|]. destruct H as [H1 H2]. split; [done|]. intros Hok. inversion Hok as [|? ? Hok1 Hok2]; subst.
    destruct (H2 Hok2) as (l & Hl & ->). exists (slot :: l). split; [by constructor; [apply Hc|]|]. by rewrite reverse_cons, <- app_assoc.
Qed.

Lemma clusterAddSlot_result s p j : wp False (clusterAddSlot p j) (fun b _ => cs_slots s !! j = None -> b = true) s.
Proof.
  unfold clusterAddSlot. apply wp_bind, wp_getS. destruct (cs_slots s !! j); [by apply wp_ret|].
  unfold wp, mbind, cl_bind. destruct (clusterNodeSetSlotBit p j s) as [[[? ?] ?]|]; cbn; [done|tauto].
Qed.

Lemma clusterDelSlot_result s j : wp False (clusterDelSlot j) (fun b _ => cs_slots s !! j <> None -> b = true) s.
Proof.
  unfold clusterDelSlot. apply wp_bind, wp_getS. destruct (cs_slots s !! j) as [p|]; [|by apply wp_ret].
  unfold wp, mbind, cl_bind. destruct (clusterNodeClearSlotBit p j s) as [[[[] ?] ?]|]; cbn; try done; tauto.
Qed.

(** The second loop after the slots of [seen]. *)
Record changed (del : bool) (slots : list Z) (s : clusterState) (seen : list Z) (s' : clusterState) : Prop := {
  ch_inv : inv same s s';
  ch_role : me_role s' = me_role s;
  ch_slots : forall j, cs_slots s' !! j =
    if bool_decide (j ∈ seen) && bool_decide (j ∈ slots) then if del then None else Some (cs_myself s) else cs_slots s !! j
}.

Lemma forget_import_ok s j : wf s -> let s' := s <| cs_importing_slots_from := delete j (cs_importing_slots_from s) |> in
  inv same s s' /\ me_role s' = me_role s.
Proof.
  intros Hw s'. split; [|done].
  apply (inv_fewer_open s (delete j (cs_importing_slots_from s)) (cs_migrating_slots_to s) Hw); [|done].
  intros i p [_ ?]%lookup_delete_Some. done.
Qed.

Lemma change_slot_ok del slots s seen j s1 : wf s -> slots_ok del s slots -> j ∉ seen -> changed del slots s seen s1 ->
  (del = false -> forall me, cs_heap s !! cs_myself s = Some me -> nodeIsMaster me = true) ->
  wp t (change_slot del slots j) (fun _ s2 => changed del slots s (seen ++ [j]) s2) s1.
Proof.
  intros Hw [_ Hok] Hj [Hi1 Hr1 Hs1] Hme. pose proof (inv_wf _ _ _ Hi1) as Hw1. unfold change_slot.
  assert (Em1 : cs_myself s1 = cs_myself s) by apply Hi1.
  assert (Hskip : forall i, i <> j -> bool_decide (i ∈ seen ++ [j]) = bool_decide (i ∈ seen)).
  { intros i Hi. apply bool_decide_ext. set_solver. }
  apply wp_when; intros Hb.
  2: { split; try done. intros i. rewrite Hs1. destruct (decide (i = j)) as [->|Hi]; [|by rewrite Hskip].
       by rewrite Hb, !andb_false_r. }
  apply bool_decide_eq_true in Hb. destruct (Hok j Hb) as [Hjr Hjs].
  apply wp_bind, wp_modify, wp_bind, wp_getS. destruct (forget_import_ok s1 j Hw1) as [Hi2 Hr2].
  match goal with |- wp _ _ _ ?x => set (s2 := x) in * end. pose proof (inv_wf _ _ _ Hi2) as Hw2.
  assert (Ej : cs_slots s2 !! j = cs_slots s !! j).
  { change (cs_slots s1 !! j = cs_slots s !! j). rewrite Hs1, bool_decide_eq_false_2 by done. done. }
  assert (Hdone : forall (b : bool) s3, b = true -> wf s3 /\ slots_only s2 s3 /\
      cs_slots s3 = (if del then delete j (cs_slots s2) else <[j := cs_myself s]> (cs_slots s2)) ->
      wp t (serverAssert b) (fun _ s4 => changed del slots s (seen ++ [j]) s4) s3).
  { intros b s3 -> (Hw3 & Ho3 & Es3). apply wp_assert; [done|]. intros _. split.
    - eapply (inv_trans same); [exact Hi1|]. eapply (inv_trans same); [exact Hi2|]. by apply inv_slots.
    - rewrite (me_role_slots _ _ Ho3), Hr2. done.
    - intros i. rewrite Es3. destruct (decide (i = j)) as [->|Hi].
      + rewrite !bool_decide_eq_true_2 by set_solver. cbn. destruct del; [apply lookup_delete_eq|apply lookup_insert_eq].
      + rewrite Hskip by done. rewrite <- Hs1. destruct del; [by rewrite lookup_delete_ne|by rewrite lookup_insert_ne]. }
  apply wp_bind. destruct del.
  - eapply wp_mono; [apply wp_conj; [by apply clusterDelSlot_spec|apply clusterDelSlot_result]|]. intros b s3 [H3 Hb3].
    apply Hdone; [|done]. apply Hb3. rewrite Ej. naive_solver.
  - change (cs_myself s2) with (cs_myself s1). rewrite Em1.
    eapply wp_mono; [apply wp_conj; [apply clusterAddSlot_spec; [done| |done| | |]|apply clusterAddSlot_result]|].
    + change (valid s1 (cs_myself s)). rewrite <- Em1. by apply wf_myself.
    + rewrite Ej. by apply Hjs.
    + intros me2 _ Hme2. destruct (wf_me s Hw) as (me & Hm & _ & Hrole). specialize (Hme eq_refl me Hm).
      destruct Hrole as [[R1 R2]|[R1 _]]; [|congruence]. unfold me_role in Hr1. change (cs_heap s1 !! cs_myself s = Some me2) in Hme2.
      rewrite Em1, Hm, Hme2 in Hr1. apply Some_inj in Hr1. injection Hr1 as -> _ ->. done.
    + intros me2 Hme2. destruct (wf_me s2 Hw2) as (m & Hm & ? & _). change (cs_heap s1 !! cs_myself s1 = Some m) in Hm.
      rewrite Em1 in Hm. change (cs_heap s1 !! cs_myself s = Some me2) in Hme2. congruence.
    + intros b s3 [H3 Hb3]. apply Hdone; [|done]. apply Hb3. rewrite Ej. by apply Hjs.
Qed.

(** ADDSLOTS and DELSLOTS: an error changes nothing; otherwise the slots named by
    the arguments, all different, change owner. *)
Lemma cluster_addslots_ok del s args : wf s -> (t -> Forall (Forall byte_ok) args) ->
  (del = false -> forall me, cs_heap s !! cs_myself s = Some me -> nodeIsMaster me = true) ->
  wp t (cluster_addslots del args) (fun r s' => inv same s s' /\
    (r <> ReplyOk -> s' = s) /\
    (r = ReplyOk -> exists slots, slots_ok del s slots /\ (Forall (Forall byte_ok) args -> Forall2 canonical args slots) /\
       forall j, cs_slots s' !! j = if bool_decide (j ∈ slots) then if del then None else Some (cs_myself s) else cs_slots s !! j)) s.
Proof.
  intros Hw Ha Hme. unfold cluster_addslots. apply wp_bind.
  eapply wp_mono; [apply parse_slots_ok; [done|]; split; [constructor|set_solver]|]. intros [e|slots] s' [-> H].
  - apply wp_ret. split; [exact (inv_refl same s Hw)|done].
  - destruct H as [Hok Hargs]. apply wp_bind.
    eapply wp_mono; [apply (wp_for_each_new t _ _ (fun l s' => changed del slots s l s')); [apply NoDup_seqZ| |]|].
    + split; [exact (inv_refl same s Hw)|done|]. intros j. by rewrite bool_decide_eq_false_2 by set_solver.
    + intros seen j s1 _ Hj Hc. by apply change_slot_ok.
    + intros ? s1 [Hi1 Hr1 Hs1]. apply wp_bind, wp_modify, wp_ret. split; [|split; [done|intros _]].
      * eapply (inv_trans same); [exact Hi1|]. apply (inv_of_sim same), inv_sim; [exact (inv_wf _ _ _ Hi1)|apply sim_todo].
      * exists (reverse slots). split; [|split].
        -- destruct Hok as [Hd Hin]. split; [by rewrite reverse_Permutation|]. intros j. rewrite elem_of_reverse. apply Hin.
        -- intros Hby. destruct (Hargs Hby) as (l & Hl & ->). by rewrite app_nil_r, reverse_involutive.
        -- intros j. change (cs_slots s1 !! j = if bool_decide (j ∈ reverse slots) then if del then None else Some (cs_myself s) else cs_slots s !! j).
           rewrite Hs1, (bool_decide_ext (j ∈ reverse slots) (j ∈ slots)) by apply elem_of_reverse.
           destruct (bool_decide (j ∈ slots)) eqn:Ej; [|by rewrite andb_false_r]. apply bool_decide_eq_true in Ej.
           rewrite bool_decide_eq_true_2; [done|]. apply slot_range_elem. by apply Hok.
Qed.

(** Open slots. *)
Lemma inv_open s imp mig : wf s ->
  (forall j p, imp !! j = Some p \/ mig !! j = Some p -> 0 <= j < CLUSTER_SLOTS /\ valid s p) ->
  inv same s (s <| cs_importing_slots_from := imp |> <| cs_migrating_slots_to := mig |>).
Proof. intros Hw H. split; [|by split]. destruct Hw. split; try done. Qed.

Lemma inv_importing s imp : wf s -> (forall j p, imp !! j = Some p -> 0 <= j < CLUSTER_SLOTS /\ valid s p) ->
  inv same s (s <| cs_importing_slots_from := imp |>).
Proof. intros Hw H. apply (inv_open s imp (cs_migrating_slots_to s) Hw). intros j p [?|?]; [by apply H|]. apply (wf_open s Hw). auto. Qed.

Lemma inv_migrating s mig : wf s -> (forall j p, mig !! j = Some p -> 0 <= j < CLUSTER_SLOTS /\ valid s p) ->
  inv same s (s <| cs_migrating_slots_to := mig |>).
Proof. intros Hw H. apply (inv_open s (cs_importing_slots_from s) mig Hw). intros j p [?|?]; [|by apply H]. apply (wf_open s Hw). auto. Qed.

Lemma del_migrating_ok s j : wf s -> inv same s (s <| cs_migrating_slots_to := delete j (cs_migrating_slots_to s) |>).
Proof. intros Hw. apply inv_migrating; [done|]. intros i p [_ ?]%lookup_delete_Some. apply (wf_open s Hw). auto. Qed.

Lemma del_importing_ok s j : wf s -> inv same s (s <| cs_importing_slots_from := delete j (cs_importing_slots_from s) |>).
Proof. intros Hw. apply inv_importing; [done|]. intros i p [_ ?]%lookup_delete_Some. apply (wf_open s Hw). auto. Qed.

Definition arg_len (a : bytes) : Prop := (CLUSTER_NAMELEN <= length a + 1)%nat.

Lemma setslot_migrating_ok s slot a : wf s -> 0 <= slot < CLUSTER_SLOTS -> (t -> arg_len a) ->
  wp t (setslot_migrating slot a) (fun _ s' => inv same s s') s.
Proof.
  intros Hw Hj Ha. unfold setslot_migrating. pose proof (inv_refl same s Hw). apply wp_bind, wp_getS. destruct (negb _); [by apply wp_ret|].
  apply wp_bind. eapply wp_mono; [by apply lookup_arg_ok|]. intros r s' [-> ->]. destruct (cs_nodes s !! _) as [p|] eqn:Ep; [|by apply wp_ret].
  apply wp_bind, wp_modify, wp_ret, inv_migrating; [done|]. intros i q [[<- <-]|[_ ?]]%lookup_insert_Some; [split; [done|by eapply wf_lookup_node]|].
  apply (wf_open s Hw). auto.
Qed.

Lemma setslot_importing_ok s slot a : wf s -> 0 <= slot < CLUSTER_SLOTS -> (t -> arg_len a) ->
  wp t (setslot_importing slot a) (fun _ s' => inv same s s') s.
Proof.
  intros Hw Hj Ha. unfold setslot_importing. pose proof (inv_refl same s Hw). apply wp_bind, wp_getS. destruct (bool_decide _); [by apply wp_ret|].
  apply wp_bind. eapply wp_mono; [by apply lookup_arg_ok|]. intros r s' [-> ->]. destruct (cs_nodes s !! _) as [p|] eqn:Ep; [|by apply wp_ret].
  apply wp_bind, wp_modify, wp_ret, inv_importing; [done|]. intros i q [[<- <-]|[_ ?]]%lookup_insert_Some; [split; [done|by eapply wf_lookup_node]|].
  apply (wf_open s Hw). auto.
Qed.

Lemma setslot_stable_ok s slot : wf s -> wp t (setslot_stable slot) (fun _ s' => inv same s s') s.
Proof.
  intros Hw. apply wp_bind, wp_modify, wp_ret. apply inv_open; [done|].
  intros i q [[_ ?]%lookup_delete_Some|[_ ?]%lookup_delete_Some]; apply (wf_open s Hw); auto.
Qed.

(** The slot goes to the node of the argument. *)
Lemma give_slot_ok s slot p me : wf s -> 0 <= slot < CLUSTER_SLOTS -> valid s p ->
  (forall n, cs_heap s !! p = Some n -> nodeInHandshake n = false) -> cs_heap s !! cs_myself s = Some me -> nodeIsSlave me = false ->
  wp t (clusterDelSlot slot) (fun _ s1 => wp t (clusterAddSlot p slot) (fun _ s2 => inv same s s2 /\ cs_slots s2 = <[slot := p]> (cs_slots s)) s1) s.
Proof.
  intros Hw Hj Hv Hset Hme Hsl. eapply wp_mono; [by apply clusterDelSlot_spec|]. intros ? s1 (Hw1 & Ho1 & Es1).
  eapply wp_mono; [apply clusterAddSlot_spec; [done| |done| | |]|].
  - by apply (agree_valid _ _ _ _ (so_heap _ _ Ho1)).
  - rewrite Es1. apply lookup_delete_eq.
  - intros me1 -> Hme1. rewrite (so_myself _ _ Ho1) in Hme1.
    destruct (agree_lookup _ _ _ _ _ (so_heap _ _ Ho1) Hme) as (m & Hm & E%slot_frame_eq). assert (m = me1) as -> by congruence.
    destruct (wf_me s Hw) as (m0 & ? & _ & [[]|(_ & ? & _)]); [|congruence]. assert (m0 = me) as -> by congruence. intuition congruence.
  - by eapply settled_frame.
  - intros ? s2 (Hw2 & Ho2 & Es2). split; [apply inv_slots; [done|by trans s1]|]. by rewrite Es2, Es1, insert_delete_eq.
Qed.

Lemma setslot_node_ok s slot a me : wf s -> 0 <= slot < CLUSTER_SLOTS -> (t -> arg_len a) -> settled s (name_of_arg a) ->
  cs_heap s !! cs_myself s = Some me -> nodeIsSlave me = false ->
  wp t (setslot_node sv slot a) (fun r s' => inv same s s' /\ (r <> None -> s' = s) /\
    (r = None -> exists p, cs_nodes s !! name_of_arg a = Some p /\ cs_slots s' = <[slot := p]> (cs_slots s))) s.
Proof.
  intros Hw Hj Ha Hset Hme Hsl. unfold setslot_node. pose proof (inv_refl same s Hw) as Hid. apply wp_bind.
  eapply wp_mono; [by apply lookup_arg_ok|]. intros r s' [-> ->]. destruct (cs_nodes s !! _) as [p|] eqn:Ep; [|by apply wp_ret].
  apply wp_bind, wp_getS. destruct (_ && _); [by apply wp_ret|]. apply wp_bind.
  apply (wp_mono _ _ (fun _ s1 => inv same s s1 /\ cs_heap s1 = cs_heap s /\ cs_slots s1 = cs_slots s)).
  { apply wp_when; intros _; [|done]. apply wp_modify. split; [by apply del_migrating_ok|done]. }
  intros ? s1 (Hi1 & Eh1 & Es1). pose proof (inv_wf _ _ _ Hi1) as Hw1. pose proof (same_myself _ _ (proj2 Hi1)) as Em1.
  apply wp_bind. eapply wp_mono; [apply (give_slot_ok s1 slot p me); try done|].
  - unfold valid. rewrite Eh1. by eapply wf_lookup_node.
  - intros n. rewrite Eh1. by apply Hset.
  - by rewrite Eh1, Em1.
  - intros ? s2 H2. apply wp_bind. eapply wp_mono; [exact H2|]. intros ? s3 [Hi3 Es3]. pose proof (inv_trans same _ _ _ Hi1 Hi3) as Hi.
    apply wp_bind, wp_getS, wp_bind. apply (wp_mono _ _ (fun _ s4 => inv same s s4 /\ cs_slots s4 = <[slot := p]> (cs_slots s))).
    + apply wp_when; intros _; [|split; [done|congruence]]. apply wp_bind.
      eapply wp_mono; [by apply clusterBumpConfigEpochWithoutConsensus_ok, Hi|]. intros ? s4 Hi4.
      apply wp_bind, wp_modify. pose proof (del_importing_ok s4 slot (inv_wf _ _ _ Hi4)) as Hi5.
      eapply wp_mono; [apply clusterBroadcastPong_ok, Hi5|]. intros ? s6 Hi6. split.
      * eapply (inv_trans same); [exact Hi|]. eapply (inv_trans same); [exact (inv_of_sim same _ _ Hi4)|].
        eapply (inv_trans same); [exact Hi5|exact (inv_of_sim same _ _ Hi6)].
      * rewrite (sim_slots _ _ (proj2 Hi6)). change (cs_slots s4 = <[slot := p]> (cs_slots s)).
        rewrite (sim_slots _ _ (proj2 Hi4)). congruence.
    + intros ? s4 [Hi4 Es4]. apply wp_ret. split; [done|]. split; [done|]. intros _. by exists p.
Qed.

(** SETSLOT of a node with the arguments [args]. *)
Definition setslot_args (args : list bytes) : list bytes := match args with [_; a] => [a] | _ => [] end.

Lemma cluster_setslot_ok s a args : wf s -> (t -> Forall byte_ok a) -> (t -> Forall arg_len (setslot_args args)) ->
  Forall (fun b => settled s (name_of_arg b)) (setslot_args args) ->
  wp t (cluster_setslot sv a args) (fun _ s' => inv same s s') s.
Proof.
  intros Hw Ha Hlen Hset. unfold cluster_setslot. pose proof (inv_refl same s Hw) as Hid. apply wp_bind, wp_getS.
  destruct (wf_me s Hw) as (me & Hme & _). apply wp_bind, wp_deref; [by eexists|]. intros m Hm. assert (m = me) as -> by congruence.
  destruct (nodeIsSlave me) eqn:Es; [by apply wp_ret|]. apply wp_bind. eapply wp_mono; [by apply getSlotOrReply_ok|].
  intros r s' [-> Hr]. destruct r as [slot|]; [|by apply wp_ret]. destruct (Hr slot eq_refl) as [Hj _].
  apply wp_bind. apply (wp_mono _ _ (fun _ s1 => inv same s s1)).
  - unfold setslot_action. destruct args as [|action [|b [|? ?]]]; try (by apply wp_ret).
    + destruct (arg_is action _); [by apply setslot_stable_ok|by apply wp_ret].
    + assert (Hlen' : t -> arg_len b) by (intros Ht%Hlen; by inversion Ht). inversion Hset as [|? ? Hset' _]; subst.
      destruct (arg_is action _); [by apply setslot_migrating_ok|]. destruct (arg_is action _); [by apply setslot_importing_ok|].
      destruct (arg_is action _); [|by apply wp_ret]. eapply wp_mono; [by eapply setslot_node_ok|]. by intros ? s' [].
  - intros [e|] s1 Hi1; [by apply wp_ret|]. apply wp_bind, wp_modify, wp_ret. eapply (inv_trans same); [exact Hi1|].
    apply (inv_of_sim same), inv_sim; [exact (inv_wf _ _ _ Hi1)|apply sim_todo].
Qed.

(** ** Nodes *)

Lemma meet_with_ok s a b x y : wf s -> (t -> cs_nodes s !! sv_random_name sv = None) ->
  wp t (meet_with sv ci a b x y) (fun _ s' => inv grow s s') s.
Proof.
  intros Hw Hr. unfold meet_with. apply wp_bind. eapply wp_mono; [by apply clusterStartHandshake_ok|].
  intros r s' Hi. destruct r; by apply wp_ret.
Qed.

Lemma cluster_meet_ok s a b bus : wf s -> (t -> cs_nodes s !! sv_random_name sv = None) ->
  (t -> Forall byte_ok b) -> (t -> forall c, bus = Some c -> Forall byte_ok c) ->
  (t -> bus = None -> forall v, canonical b v -> v + CLUSTER_PORT_INCR <= LLONG_MAX) ->
  wp t (cluster_meet sv ci a b bus) (fun _ s' => inv grow s s') s.
Proof.
  intros Hw Hr Hb Hc Hv. unfold cluster_meet. pose proof (inv_refl grow s Hw). apply wp_bind.
  eapply wp_mono; [by apply getLongLong_ok|]. intros r s' [-> Hcan]. destruct r as [port|]; [|by apply wp_ret].
  destruct bus as [c|].
  - apply wp_bind. eapply wp_mono; [apply getLongLong_ok; intros Ht; by apply Hc|]. intros r s' [-> _].
    destruct r; [by apply meet_with_ok|by apply wp_ret].
  - destruct (Z.gtb_spec (port + CLUSTER_PORT_INCR) LLONG_MAX); [|by apply meet_with_ok].
    apply wp_fail. intros Ht. assert (Hp : canonical b port) by (apply Hcan; auto). apply (Hv Ht eq_refl) in Hp. lia.
Qed.

Lemma cluster_forget_ok s a : wf s -> roles_ok s -> (t -> arg_len a) ->
  wp t (cluster_forget sv a) (fun _ s' => wf s' /\ me_same s s') s.
Proof.
  intros Hw Hr Ha. unfold cluster_forget. assert (Hid : wf s /\ me_same s s) by done. apply wp_bind.
  eapply wp_mono; [by apply lookup_arg_ok|]. intros r s' [-> ->]. destruct (cs_nodes s !! _) as [p|] eqn:Ep; [|by apply wp_ret].
  apply wp_bind, wp_getS, wp_bind, wp_deref; [intros _; by apply wf_myself|]. intros me Hme.
  destruct (Z.eqb_spec p (cs_myself s)) as [|Hpm]; [by apply wp_ret|]. destruct (_ && _); [by apply wp_ret|].
  assert (Hv : valid s p) by (by eapply wf_lookup_node). apply wp_bind. eapply wp_mono; [by apply clusterBlacklistAddNode_ok|].
  intros ? s1 Hi1. pose proof (inv_wf _ _ _ Hi1) as Hw1. destruct (inv_valid sim _ _ _ Hi1 Hv) as [n Hn].
  assert (Hr1 : roles_ok s1) by (eapply (roles_agree view); [exact (sim_heap _ _ (proj2 Hi1))|intros ? ? ?%view_eq; intuition|done]).
  assert (Hne : p <> cs_myself s1) by (by rewrite (sim_myself _ _ (proj2 Hi1))).
  apply wp_bind. eapply wp_mono; [apply (clusterDelNode_ok t sv s1 p n); [done|done|done|by eapply Hr1]|].
  intros ? s2 (Hw2 & Hrm & _). apply wp_bind, wp_modify, wp_ret. split; [eapply wf_sim; [apply sim_todo|done]|].
  eapply me_same_trans; [exact (inv_me_same sim _ _ Hw Hi1)|]. by eapply (removed_me _ s2); [|exact Hrm].
Qed.

Lemma cluster_replicate_ok s a : wf s -> settled s (name_of_arg a) -> (t -> arg_len a) ->
  wp t (cluster_replicate ci a) (fun _ s' => inv same s s') s.
Proof.
  intros Hw Hset Ha. unfold cluster_replicate. pose proof (inv_refl same s Hw) as Hid. apply wp_bind.
  eapply wp_mono; [by apply lookup_arg_ok|]. intros r s' [-> ->]. destruct (cs_nodes s !! _) as [p|] eqn:Ep; [|by apply wp_ret].
  assert (Hv : valid s p) by (by eapply wf_lookup_node).
  apply wp_bind, wp_getS, wp_bind, wp_deref; [done|]. intros n Hn. destruct (wf_me s Hw) as (me & Hme & _ & Hrole).
  apply wp_bind, wp_deref; [by eexists|]. intros m Hm. assert (m = me) as -> by congruence.
  destruct (Z.eqb_spec p (cs_myself s)) as [|Hpm]; [by apply wp_ret|]. destruct (nodeIsSlave n); [by apply wp_ret|].
  destruct (_ && _) eqn:Eb; [by apply wp_ret|]. apply wp_bind. eapply wp_mono; [apply (clusterSetMaster_ok t s p n)|].
  - done.
  - done.
  - by eapply Hset.
  - done.
  - intros _ m' Hm'. assert (m' = me) as -> by congruence. destruct Hrole as [[R _]|(_ & _ & R)]; [|done]. rewrite R in Eb. lia.
  - intros ? s1 [Hi1 _]. apply wp_bind, wp_modify, wp_ret. eapply (inv_trans same); [exact Hi1|].
    apply (inv_of_sim same), inv_sim; [exact (inv_wf _ _ _ Hi1)|apply sim_todo].
Qed.

Lemma cluster_count_failure_reports_ok s a : wf s -> (t -> arg_len a) ->
  wp t (cluster_count_failure_reports sv a) (fun _ s' => inv same s s') s.
Proof.
  intros Hw Ha. unfold cluster_count_failure_reports. apply wp_bind. eapply wp_mono; [by apply lookup_arg_ok|]. intros r s' [-> ->].
  destruct (cs_nodes s !! _) as [p|] eqn:Ep; [|apply wp_ret; exact (inv_refl same s Hw)].
  pose proof (inv_refl same s Hw). learn. cl_auto.
Qed.

Lemma cluster_slaves_ok s a : wf s -> (t -> arg_len a) -> wp t (cluster_slaves a) (fun _ s' => s' = s) s.
Proof.
  intros Hw Ha. unfold cluster_slaves. apply wp_bind. eapply wp_mono; [by apply lookup_arg_ok|]. intros r s' [-> ->].
  destruct (cs_nodes s !! _) as [p|] eqn:Ep; [|by apply wp_ret]. apply wp_bind, wp_deref; [intros _; by eapply wf_lookup_node|].
  intros n _. by destruct (nodeIsSlave n); apply wp_ret.
Qed.

(** ** FAILOVER and the other subcommands *)

Lemma start_manual_failover_ok s f k p : wf s -> valid s p -> wp t (start_manual_failover sv f k p) (fun _ s' => inv same s s') s.
Proof. cl_start. unfold start_manual_failover. cl_auto. Qed.
Hint Resolve start_manual_failover_ok : calls.

Lemma failover_with_ok s f k : wf s -> wp t (failover_with sv f k) (fun _ s' => inv same s s') s.
Proof. cl_start. unfold failover_with, err. cl_auto. Qed.

Lemma cluster_set_config_epoch_ok s a : wf s -> (t -> Forall byte_ok a) -> wp t (cluster_set_config_epoch a) (fun _ s' => inv sim s s') s.
Proof.
  intros Hw Ha. unfold cluster_set_config_epoch. apply wp_bind. eapply wp_mono; [by apply getLongLong_ok|]. intros r s' [-> _].
  pose proof (inv_refl sim s Hw). learn. unfold err. cl_auto.
Qed.

Lemma cluster_bumpepoch_ok s : wf s -> wp t cluster_bumpepoch (fun _ s' => inv sim s s') s.
Proof. cl_start. unfold cluster_bumpepoch. cl_auto. Qed.

Lemma cluster_info_ok s : wf s -> wp t cluster_info (fun _ s' => inv sim s s') s.
Proof.
  cl_start. unfold cluster_info, count_states. apply wp_bind, wp_bind, wp_getS.
  eapply wp_mono; [apply (wp_fold_each_inv _ sim); [done|]|].
  - intros j [[x y] z] s' _ Hi. destruct (cs_slots s !! j) as [p|] eqn:Ep; [|apply wp_ret; exact (inv_refl sim s' (inv_wf _ _ _ Hi))].
    apply wp_bind, wp_deref; [intros _; apply (inv_valid sim s s' p Hi); by eapply wf_owner|]. intros n Hn. apply wp_ret.
    exact (inv_refl sim s' (inv_wf _ _ _ Hi)).
  - intros [[x y] z] s1 Hi. pose proof (inv_wf _ _ _ Hi). learn. cl_auto.
Qed.

(** ** SLOTS *)

(** The nodes of a range in the reply: the owner, then its replicas that did not fail. *)
Definition node_entries (use_pport : bool) (s : clusterState) (p : ptr) : list node_entry :=
  match cs_heap s !! p with
  | Some n => entry use_pport n :: (entry use_pport <$> filter (fun m => nodeFailed m = false) (omap (fun q => cs_heap s !! q) (cn_slaves n)))
  | None => []
  end.

Lemma addNodeReplyForClusterSlot_ok s b p : wf s -> valid s p ->
  wp t (addNodeReplyForClusterSlot b p) (fun r s' => s' = s /\ r = node_entries b s p) s.
Proof.
  intros Hw Hp. unfold addNodeReplyForClusterSlot, node_entries. apply wp_bind, wp_deref; [done|]. intros n Hn. rewrite Hn. apply wp_bind.
  eapply wp_mono; [apply (wp_fold_each_done t (cn_slaves n) [] _ (fun l r s' => s' = s /\
    r = entry b <$> filter (fun m => nodeFailed m = false) (omap (fun q => cs_heap s !! q) l))); [done|]|].
  - intros l q r s' Hq [-> ->]. apply wp_bind, wp_deref; [intros _; by eapply wf_slaves|]. intros m Hm. apply wp_ret. split; [done|].
    rewrite omap_app. cbn. rewrite Hm. cbn. rewrite filter_app, fmap_app.
    destruct (nodeFailed m) eqn:E; [rewrite filter_cons_False by congruence|rewrite filter_cons_True by congruence]; [by rewrite app_nil_r|done].
  - intros r s' [-> ->]. by apply wp_ret.
Qed.

Lemma slot_ranges_cover l : forall i n start j p, (n <> None -> start < i) ->
  (exists x y, (x, y, p) ∈ slot_ranges l i n start /\ x <= j <= y) <->
  (n = Some p /\ start <= j < i) \/ (i <= j /\ l !! Z.to_nat (j - i) = Some (Some p)).
Proof.
  induction l as [|o l IH]; intros i n start j p Hst; cbn [slot_ranges].
  - destruct n as [q|].
    + split.
      * intros (x & y & [= -> -> ->]%list_elem_of_singleton & ?). left. split; [done|lia].
      * intros [[[= ->] ?]|[_ ?]]; [|done]. exists start, (i - 1). split; [set_solver|lia].
    + split; [intros (x & y & ? & _); set_solver|intros [[? _]|[_ ?]]; done].
  - assert (Hnext : (i <= j /\ (o :: l) !! Z.to_nat (j - i) = Some (Some p)) <->
      (o = Some p /\ j = i) \/ (i + 1 <= j /\ l !! Z.to_nat (j - (i + 1)) = Some (Some p))).
    { destruct (decide (j = i)) as [->|Hj].
      - replace (i - i) with 0 by lia. cbn. split; [intros [_ [= ->]]; auto|intros [[-> _]|[? _]]; [done|lia]].
      - split.
        + intros [Hi H]. right. split; [lia|]. replace (Z.to_nat (j - i)) with (S (Z.to_nat (j - (i + 1)))) in H by lia. done.
        + intros [[_ ?]|[Hi H]]; [lia|]. split; [lia|]. replace (Z.to_nat (j - i)) with (S (Z.to_nat (j - (i + 1)))) by lia. done. }
    rewrite Hnext. destruct n as [q|].
    + case_bool_decide as Eo.
      * rewrite IH by (intros _; specialize (Hst ltac:(done)); lia). subst o. split.
        -- intros [[[= ->] ?]|?]; [|auto]. destruct (decide (j = i)); [auto|left; split; [done|lia]].
        -- intros [[[= ->] ?]|[[[= ->] ->]|?]]; [left; split; [done|lia]| |auto]. left. split; [done|]. specialize (Hst ltac:(done)). lia.
      * transitivity ((p = q /\ start <= j < i) \/ exists x y, (x, y, p) ∈ slot_ranges l (i + 1) o i /\ x <= j <= y).
        -- split.
           ++ intros (x & y & [[= -> -> ->]|Hin]%elem_of_cons & ?); [left; split; [done|lia]|eauto].
           ++ intros [[-> ?]|(x & y & ? & ?)]; [exists start, (i - 1); split; [set_solver|lia]|exists x, y; split; [set_solver|done]].
        -- rewrite IH by lia. split.
           ++ intros [[-> ?]|[[-> ?]|?]]; [auto| |auto]. right. left. split; [done|lia].
           ++ intros [[[= ->] ?]|[[-> ->]|?]]; [auto| |auto]. right. left. split; [done|lia].
    + rewrite IH by lia. split.
      * intros [[-> ?]|?]; [|auto]. right. left. split; [done|lia].
      * intros [[? _]|[[-> ->]|?]]; [done| |auto]. left. split; [done|lia].
Qed.

(** The ranges follow each other. *)
Definition range_before (r r' : Z * Z * ptr) : Prop := r.1.2 < r'.1.1.

Lemma slot_ranges_sorted l : forall i n start, (n <> None -> start < i) ->
  StronglySorted range_before (slot_ranges l i n start) /\
  Forall (fun r => match n with Some _ => start | None => i end <= r.1.1 /\ r.1.1 <= r.1.2) (slot_ranges l i n start).
Proof.
  induction l as [|o l IH]; intros i n start Hst; cbn [slot_ranges].
  - destruct n; [|by split; constructor]. specialize (Hst ltac:(done)). split; [repeat constructor|].
    constructor; [cbn; lia|constructor].
  - assert (Ho : forall k, k <= i -> Forall (fun r => match o with Some _ => i | None => i + 1 end <= r.1.1 /\ r.1.1 <= r.1.2) (slot_ranges l (i + 1) o i) ->
      Forall (fun r => k <= r.1.1 /\ r.1.1 <= r.1.2) (slot_ranges l (i + 1) o i)).
    { intros k Hk H. eapply Forall_impl; [exact H|]. intros r. cbn beta. destruct o; lia. }
    destruct n as [q|].
    + specialize (Hst ltac:(done)). case_bool_decide; [apply IH; lia|]. destruct (IH (i + 1) o i) as [H1 H2]; [lia|]. split.
      * constructor; [done|]. eapply Forall_impl; [apply (Ho i); [lia|exact H2]|]. intros r. unfold range_before. cbn. lia.
      * constructor; [cbn; lia|]. apply Ho; [lia|done].
    + destruct (IH (i + 1) o i) as [H1 H2]; [lia|]. split; [done|]. apply Ho; [lia|done].
Qed.

(** The ranges of slots of the table. *)
Lemma owners_lookup s j : 0 <= j < CLUSTER_SLOTS -> owners s !! Z.to_nat j = Some (cs_slots s !! j).
Proof.
  intros Hj. unfold owners, slot_range. rewrite list_lookup_fmap, lookup_seqZ_lt by (unfold CLUSTER_SLOTS in *; lia). cbn. do 2 f_equal. lia.
Qed.

Lemma owned_ranges s j p : wf s -> (exists x y, (x, y, p) ∈ slot_ranges (owners s) 0 None (-1) /\ x <= j <= y) <-> cs_slots s !! j = Some p.
Proof.
  intros Hw. rewrite slot_ranges_cover by done. rewrite Z.sub_0_r. split.
  - intros [[? _]|[Hj H]]; [done|]. destruct (Z.lt_ge_cases j CLUSTER_SLOTS).
    + rewrite owners_lookup in H by lia. by injection H.
    + rewrite lookup_ge_None_2 in H; [done|]. unfold owners, slot_range. rewrite length_fmap, length_seqZ. unfold CLUSTER_SLOTS in *. lia.
  - intros E. pose proof E as [Hj _]%(wf_slots s Hw). right. split; [lia|]. by rewrite owners_lookup, E.
Qed.

Lemma clusterReplyMultiBulkSlots_ok s b : wf s ->
  wp t (clusterReplyMultiBulkSlots b) (fun r s' => s' = s /\
    r = (fun x => (x.1.1, x.1.2, node_entries b s x.2)) <$> slot_ranges (owners s) 0 None (-1)) s.
Proof.
  intros Hw. unfold clusterReplyMultiBulkSlots. apply wp_bind, wp_getS.
  apply (wp_fold_each_done t _ [] _ (fun l r s' => s' = s /\ r = (fun x => (x.1.1, x.1.2, node_entries b s x.2)) <$> l)); [done|].
  intros l [[x y] p] r s' Hin [-> ->]. apply wp_bind.
  assert (Hp : cs_slots s !! x = Some p).
  { apply owned_ranges; [done|]. exists x, y. split; [done|]. destruct (slot_ranges_sorted (owners s) 0 None (-1)) as [_ H]; [done|].
    rewrite Forall_forall in H. apply H in Hin. cbn in Hin. lia. }
  eapply wp_mono; [apply addNodeReplyForClusterSlot_ok; [done|by eapply wf_owner]|]. intros e s' [-> ->]. apply wp_ret.
  split; [done|]. by rewrite fmap_app.
Qed.

(** ** Dispatch *)

(** The arguments that name nodes. *)
Definition names_node (sub : bytes) : bool :=
  arg_is sub "forget" || arg_is sub "replicate" || arg_is sub "slaves" || arg_is sub "replicas" || arg_is sub "count-failure-reports".

Definition node_args (argv : list bytes) : list bytes :=
  match argv with
  | [sub; a] => if names_node sub then [a] else []
  | sub :: _ :: args => if arg_is sub "setslot" then setslot_args args else []
  | _ => []
  end.

Definition is_addslots (argv : list bytes) : bool := match argv with sub :: _ => arg_is sub "addslots" | [] => false end.
Definition is_hard_reset (argv : list bytes) : bool := match argv with [sub; a] => arg_is sub "reset" && arg_is a "hard" | _ => false end.
Definition meet_port (argv : list bytes) : list bytes := match argv with [sub; _; b] => if arg_is sub "meet" then [b] else [] | _ => [] end.

(** What the subcommands need to keep the invariant: no argument is the random
    name of a node in handshake, a replica is not given slots. *)
Record command_ok (argv : list bytes) (s : clusterState) : Prop := {
  co_roles : roles_ok s;
  co_settled : Forall (fun a => settled s (name_of_arg a)) (node_args argv);
  co_master : is_addslots argv = true -> forall me, cs_heap s !! cs_myself s = Some me -> nodeIsMaster me = true
}.

(** And to return: the arguments are bytes and the names are long enough, the
    name of a new node is new, the port of the bus does not overflow. *)
Record command_safe (argv : list bytes) (s : clusterState) : Prop := {
  csf_bytes : Forall (Forall byte_ok) argv;
  csf_len : Forall arg_len (node_args argv);
  csf_fresh : cs_nodes s !! sv_random_name sv = None;
  csf_port : Forall (fun b => forall v, canonical b v -> v + CLUSTER_PORT_INCR <= LLONG_MAX) (meet_port argv)
}.

(** The name of [myself] changes only on request. *)
Definition command_post (argv : list bytes) (s s' : clusterState) : Prop :=
  wf s' /\ cs_myself s' = cs_myself s /\ (is_hard_reset argv = false -> me_same s s').

Lemma post_inv R `{Keep R} argv s s' : wf s -> inv R s s' -> command_post argv s s'.
Proof. intros Hw Hi. pose proof (inv_me_same R s s' Hw Hi) as Hm. split; [apply Hi|]. split; [apply Hm|done]. Qed.

Lemma wp_post R `{Keep R} {A} argv (m : cl A) s : wf s -> wp t m (fun _ s' => inv R s s') s -> wp t m (fun _ s' => command_post argv s s') s.
Proof. intros Hw Hm. eapply wp_mono; [exact Hm|]. intros ? s' Hi. by apply (post_inv R). Qed.

Lemma wp_post_same {A} argv (m : cl A) s : wf s -> wp t m (fun _ s' => s' = s) s -> wp t m (fun _ s' => command_post argv s s') s.
Proof. intros Hw Hm. eapply wp_mono; [exact Hm|]. intros ? s' ->. by apply (post_inv sim), (inv_refl sim). Qed.

Lemma reset_with_ok argv s hard : wf s -> roles_ok s -> (hard = true -> is_hard_reset argv = true) ->
  wp t (reset_with sv ci hard) (fun _ s' => command_post argv s s') s.
Proof.
  intros Hw Hr Hh. unfold reset_with. destruct (wf_me s Hw) as (me & Hme & _). apply wp_bind, wp_getS, wp_bind, wp_deref; [by eexists|].
  intros m Hm. assert (m = me) as -> by congruence. destruct (_ && _); [apply wp_ret; by apply (post_inv sim), (inv_refl sim)|].
  apply wp_bind. eapply wp_mono; [by apply clusterReset_ok|]. intros ? s' (n & Hal & Em & En & _). apply wp_ret.
  split; [by eapply wf_alone|]. split; [done|]. intros Hnot. split; [done|]. rewrite (ln_heap _ _ (proj1 Hal)), lookup_singleton_eq, Hme. cbn. f_equal.
  destruct hard; [by rewrite Hh in Hnot|done].
Qed.

Lemma command_0_ok s b sub : wf s -> roles_ok s -> wp t (command_0 sv ci b sub) (fun _ s' => command_post [sub] s s') s.
Proof.
  intros Hw Hr. unfold command_0.
  assert (Hret : forall r : reply, wp t (mret r) (fun _ s' => command_post [sub] s s') s)
    by (intros r; apply wp_ret; by apply (post_inv sim), (inv_refl sim)).
  destruct (arg_is sub "help"); [apply Hret|]. destruct (arg_is sub "nodes"); [apply Hret|].
  destruct (arg_is sub "myid"); [apply wp_bind, wp_getS, wp_bind, wp_deref; [intros _; by apply wf_myself|intros ? _; apply Hret]|].
  destruct (arg_is sub "slots").
  { apply wp_bind. eapply wp_mono; [by apply clusterReplyMultiBulkSlots_ok|]. intros l s' [-> _]. apply Hret. }
  destruct (arg_is sub "flushslots"); [by apply (wp_post same), cluster_flushslots_ok|].
  destruct (arg_is sub "bumpepoch"); [by apply (wp_post sim), cluster_bumpepoch_ok|].
  destruct (arg_is sub "info"); [by apply (wp_post sim), cluster_info_ok|].
  destruct (arg_is sub "saveconfig"); [apply wp_bind, wp_emit, Hret|].
  destruct (arg_is sub "failover"); [by apply (wp_post same), failover_with_ok|].
  destruct (arg_is sub "reset"); [by apply reset_with_ok|apply Hret].
Qed.

Lemma countkeys_ok s a : (t -> Forall byte_ok a) -> wp t (cluster_countkeysinslot sv a) (fun _ s' => s' = s) s.
Proof.
  intros Ha. unfold cluster_countkeysinslot. apply wp_bind. eapply wp_mono; [by apply getLongLong_ok|]. intros [v|] s' [-> _]; [|by apply wp_ret].
  by destruct (_ || _); apply wp_ret.
Qed.

Lemma getkeys_ok s a b : (t -> Forall byte_ok a) -> (t -> Forall byte_ok b) -> wp t (cluster_getkeysinslot sv a b) (fun _ s' => s' = s) s.
Proof.
  intros Ha Hb. unfold cluster_getkeysinslot. apply wp_bind. eapply wp_mono; [by apply getLongLong_ok|]. intros [v|] s' [-> _]; [|by apply wp_ret].
  apply wp_bind. eapply wp_mono; [by apply getLongLong_ok|]. intros [k|] s' [-> _]; [|by apply wp_ret]. by destruct (_ || _); apply wp_ret.
Qed.

Lemma command_1_ok s sub a : wf s -> command_ok [sub; a] s -> (t -> command_safe [sub; a] s) ->
  wp t (command_1 sv ci sub a) (fun _ s' => command_post [sub; a] s s') s.
Proof.
  intros Hw [Hr Hset _] Hsafe. unfold command_1.
  assert (Ha : t -> Forall byte_ok a) by (intros Ht; destruct (Hsafe Ht) as [Hb _ _ _]; by inversion Hb as [|? ? _ Hb']; inversion Hb').
  assert (Hret : forall r : reply, wp t (mret r) (fun _ s' => command_post [sub; a] s s') s)
    by (intros r; apply wp_ret; by apply (post_inv sim), (inv_refl sim)).
  assert (Hn : names_node sub = true -> settled s (name_of_arg a) /\ (t -> arg_len a)).
  { intros E. cbn in Hset. rewrite E in Hset. split; [by inversion Hset|]. intros Ht. destruct (Hsafe Ht) as [_ Hl _ _]. cbn in Hl.
    rewrite E in Hl. by inversion Hl. }
  destruct (arg_is sub "keyslot").
  { apply wp_bind, wp_lift; [|intros; apply Hret]. intros Ht. destruct (keyHashSlot_value a (Ha Ht)) as (v & -> & _). done. }
  destruct (arg_is sub "countkeysinslot"); [by apply wp_post_same, countkeys_ok|].
  unfold names_node in Hn. destruct (arg_is sub "forget").
  { eapply wp_mono; [apply cluster_forget_ok; [done|done|by apply Hn]|]. intros ? s' [Hw' Hm]. split; [done|]. split; [apply Hm|done]. }
  destruct (arg_is sub "replicate"); [by apply (wp_post same), cluster_replicate_ok; [| |apply Hn..]|].
  destruct (arg_is sub "slaves"); [by apply wp_post_same, cluster_slaves_ok; [| |apply Hn]|].
  destruct (arg_is sub "replicas"); [by apply wp_post_same, cluster_slaves_ok; [| |apply Hn]|]. cbn [orb].
  destruct (arg_is sub "count-failure-reports"); [by apply (wp_post same), cluster_count_failure_reports_ok; [| |apply Hn]|].
  destruct (arg_is sub "failover").
  { unfold cluster_failover. destruct (arg_is a "force"); [by apply (wp_post same), failover_with_ok|].
    destruct (arg_is a "takeover"); [by apply (wp_post same), failover_with_ok|apply Hret]. }
  destruct (arg_is sub "set-config-epoch"); [by apply (wp_post sim), cluster_set_config_epoch_ok|].
  destruct (arg_is sub "reset") eqn:Er; [|apply Hret]. unfold cluster_reset. destruct (arg_is a "hard") eqn:Eh.
  - apply reset_with_ok; [done|done|]. intros _. cbn. by rewrite Er, Eh.
  - destruct (arg_is a "soft"); [by apply reset_with_ok|apply Hret].
Qed.

Lemma clusterCommand_ok s b argv : wf s -> command_ok argv s -> (t -> command_safe argv s) ->
  wp t (clusterCommand sv ci b argv) (fun _ s' => command_post argv s s') s.
Proof.
  intros Hw Hok Hsafe. unfold clusterCommand.
  assert (Hret : forall (r : reply) argv, wp t (mret r) (fun _ s' => command_post argv s s') s)
    by (intros; apply wp_ret; by apply (post_inv sim), (inv_refl sim)).
  destruct argv as [|sub [|a args]]; [apply Hret|apply command_0_ok; [done|apply Hok]|].
  assert (Hby : t -> Forall (Forall byte_ok) (a :: args)) by (intros Ht; destruct (Hsafe Ht) as [Hb _ _ _]; by inversion Hb).
  destruct (arg_is sub "addslots") eqn:E1.
  { apply (wp_post same); [done|]. eapply wp_mono; [apply cluster_addslots_ok; [done|done|intros _; by apply (co_master _ _ Hok)]|]. by intros ? s' []. }
  destruct (arg_is sub "delslots").
  { apply (wp_post same); [done|]. eapply wp_mono; [by apply cluster_addslots_ok|]. by intros ? s' []. }
  destruct args as [|c rest]; [by apply command_1_ok|].
  destruct (arg_is sub "meet" && _) eqn:E2.
  { apply andb_true_iff in E2 as [E2 El%Nat.leb_le]. apply (wp_post grow); [done|]. apply cluster_meet_ok; [done| | | |].
    - intros Ht. apply (Hsafe Ht).
    - intros Ht. apply Hby in Ht. by inversion Ht as [|? ? _ Ht']; inversion Ht'.
    - intros Ht x Hx. apply Hby in Ht. inversion Ht as [|? ? _ Ht']; inversion Ht' as [|? ? _ Ht'']; subst. destruct rest; inversion Ht''; naive_solver.
    - intros Ht Hnone v Hv. destruct rest; [|done]. destruct (Hsafe Ht) as [_ _ _ Hp]. cbn in Hp. rewrite E2 in Hp. inversion Hp; eauto. }
  destruct (arg_is sub "setslot") eqn:E3.
  { apply (wp_post same); [done|]. apply cluster_setslot_ok; [done| | |].
    - intros Ht. apply Hby in Ht. by inversion Ht.
    - intros Ht. destruct (Hsafe Ht) as [_ Hl _ _]. cbn in Hl. by rewrite E3 in Hl.
    - destruct Hok as [_ Hset _]. cbn in Hset. by rewrite E3 in Hset. }
  destruct (arg_is sub "getkeysinslot" && _); [|apply Hret]. apply wp_post_same; [done|]. apply getkeys_ok; intros Ht; apply Hby in Ht;
    [by inversion Ht|by inversion Ht as [|? ? _ Ht']; inversion Ht'].
Qed.

End command.
