(* ===== verification/ClusterSafety.v ===== *)
(** A node of the cluster as a state machine: it starts with [clusterInit], and
    then handles packets, commands, connections, its cron and the work before it
    sleeps. Every state it reaches satisfies the invariant, and no handler reads
    memory that was freed or fails an assertion. *)
From stdpp Require Import gmap.
From Stdlib Require Import String.
From S2P Require Import Prelude Util Sds Replication Cluster ClusterCron ClusterCommand ClusterInv ClusterOps ClusterSlots ClusterRoles ClusterConfig ClusterRemove ClusterPackets ClusterCronInv ClusterStart ClusterCommandInv.
Open Scope string_scope.
Open Scope list_scope.
Open Scope Z_scope.

Inductive event :=
  | EvPacket (l : clusterLink) (hdr : clusterMsg)
  | EvCommand (use_pport : bool) (argv : list bytes)
  | EvConnected (l : clusterLink) (p : ptr)
  | EvVerify
  | EvCron
  | EvBeforeSleep.

Definition handle (sv : redisServer) (ci : cronInput) (e : event) : cl unit :=
  match e with
  | EvPacket l hdr => clusterProcessPacket sv l hdr;; mret tt
  | EvCommand b argv => clusterCommand sv ci b argv;; mret tt
  | EvConnected l p => clusterLinkConnectHandler sv ci l p
  | EvVerify => verifyClusterConfigWithData sv ci;; mret tt
  | EvCron => clusterCron sv ci;; mret tt
  | EvBeforeSleep => clusterBeforeSleep sv;; mret tt
  end.

(** What an event needs to keep the invariant, and to be handled without a fault. *)
Definition admissible (sv : redisServer) (ci : cronInput) (e : event) (s : clusterState) : Prop :=
  match e with
  | EvPacket l hdr => names_ok hdr s /\ packet_ok sv l hdr s
  | EvCommand _ argv => command_ok argv s /\ command_safe sv argv s
  | EvConnected l p => valid s p /\ l_node l = Some p
  | EvCron => random_ok ci
  | EvVerify | EvBeforeSleep => True
  end.

Lemma wp_void {A} t (m : cl A) (P : clusterState -> Prop) s : wp t m (fun _ s' => P s') s -> wp t (m;; mret tt) (fun _ s' => P s') s.
Proof. intros H. apply wp_bind. eapply wp_mono; [exact H|]. intros ? s' ?. by apply wp_ret. Qed.

Lemma handle_ok t sv ci e s : wf s -> admissible sv ci e s -> wp t (handle sv ci e) (fun _ s' => wf s') s.
Proof.
  intros Hw Ha. destruct e as [l hdr|b argv|l p| | |]; cbn [handle admissible] in *.
  - destruct Ha as [Hn Hp]. apply wp_void. eapply wp_mono; [by apply clusterProcessPacket_ok|]. by intros ? s' [].
  - destruct Ha as [H1 H2]. apply wp_void. eapply wp_mono; [by apply clusterCommand_ok|]. by intros ? s' [].
  - destruct Ha as [H1 H2]. eapply wp_mono; [by apply clusterLinkConnectHandler_ok|]. by intros ? s' [].
  - apply wp_void. eapply wp_mono; [by apply verifyClusterConfigWithData_ok|]. by intros ? s' [].
  - apply wp_void. eapply wp_mono; [by apply clusterCron_ok|]. by intros ? s' [].
  - apply wp_void. eapply wp_mono; [by apply clusterBeforeSleep_ok|]. by intros ? s' [].
Qed.

(** The states of a node: the fields not set by [clusterInit] are arbitrary, and
    the rest of the server may be different at every event. *)
Inductive reachable : clusterState -> Prop :=
  | reach_init sv raw s es : clusterInit sv raw = Some (tt, s, es) -> reachable s
  | reach_step sv ci e s s' es : reachable s -> admissible sv ci e s -> handle sv ci e s = Some (tt, s', es) -> reachable s'.

Lemma wp_run {A} (m : cl A) (Q : A -> clusterState -> Prop) s : wp True m Q s -> exists a s' es, m s = Some (a, s', es) /\ Q a s'.
Proof. unfold wp. destruct (m s) as [[[a s'] es]|]; [by eauto|tauto]. Qed.

Lemma wp_result {A} t (m : cl A) (Q : A -> clusterState -> Prop) s a s' es : wp t m Q s -> m s = Some (a, s', es) -> Q a s'.
Proof. unfold wp. by intros H E; rewrite E in H. Qed.

(** C4: A node of the cluster is safe. Every state a node reaches from its start,
    through packets, commands, connections, its cron and the work before it
    sleeps, satisfies the invariant [wf] (the dictionary of nodes, the owners of
    the slots, the bitmaps and their counters, the lists of replicas and of
    failure reports describe each other, and no pointer dangles); and in every
    such state each admissible event is handled to its end, without a read of
    memory that was freed and without a failed assertion. *)
Theorem cluster_node_safe s : reachable s ->
  wf s /\ forall sv ci e, admissible sv ci e s -> exists s' es, handle sv ci e s = Some (tt, s', es) /\ reachable s'.
Proof.
  intros Hr. assert (Hw : wf s).
  { induction Hr as [sv raw s es E|sv ci e s s' es Hr IH Ha E].
    - destruct (wp_result True _ _ _ _ _ _ (clusterInit_ok True sv raw) E) as (n & Hal & _). by eapply wf_alone.
    - exact (wp_result True _ _ _ _ _ _ (handle_ok True sv ci e s IH Ha) E). }
  split; [done|]. intros sv ci e Ha. destruct (wp_run _ _ _ (handle_ok True sv ci e s Hw Ha)) as ([] & s' & es & E & _).
  exists s', es. split; [done|]. by eapply reach_step.
Qed.

(** ** Examples *)

Definition hex_name (c : Z) : name := replicate 40 c.

(** A server at time [ms], where the next random name is made of [c]. *)
Definition example_server (ms c : Z) : redisServer :=
  mkServer ms (ms / 1000) 0 (hex_name c) 15000 false 10 10 true true 0 false 0 0 0 0 (fun _ => 0) false None (7000, 0, 17000) (fun _ => []).

Definition example_cron : cronInput :=
  mkCron (fun _ => true) (fun p => p) (fun _ => 0) true 1 (fun _ nodes => default 0 (head (snd <$> map_to_list nodes))) None false 1 0 true (fun a => Some a).

Definition zero_state : clusterState := mkState 0 0 0 0 ∅ ∅ ∅ ∅ ∅ 0 0 0 0 0 0 0 None 0 false 0 0 0 0 0 ∅ 0.

Definition args (l : list string) : list bytes := of_string <$> l.

(** The node "a" is started. *)
Lemma example_start : exists s es n, clusterInit (example_server 1000 97) zero_state = Some (tt, s, es) /\ alone s n /\ cn_name n = hex_name 97.
Proof.
  destruct (wp_run _ _ _ (clusterInit_ok True (example_server 1000 97) zero_state)) as ([] & s & es & E & n & H). by exists s, es, n.
Qed.

Lemma alone_master s n : alone s n -> forall me, cs_heap s !! cs_myself s = Some me -> nodeIsMaster me = true.
Proof. intros [[Eh _ _ _ _ _ _] R] me. rewrite Eh, lookup_singleton_eq. intros E. apply Some_inj in E as <-. exact R. Qed.

Lemma alone_roles s n : alone s n -> roles_ok s.
Proof.
  intros [[Eh _ _ (_ & _ & R & _) _ _ _] _] p m. rewrite Eh, lookup_singleton_Some. intros [_ <-] Hs. destruct (Hs R).
Qed.

Lemma cluster_node_safe_witness : exists s es0 s' es, clusterInit (example_server 1000 97) zero_state = Some (tt, s, es0) /\
  handle (example_server 2000 98) example_cron (EvCommand false (args ["ADDSLOTS"; "0"; "1"; "16383"])) s = Some (tt, s', es) /\ reachable s'.
Proof.
  destruct example_start as (s & es0 & n & E & Hal & Ename).
  destruct (cluster_node_safe s (reach_init _ _ _ _ E)) as [_ H].
  destruct (H (example_server 2000 98) example_cron (EvCommand false (args ["ADDSLOTS"; "0"; "1"; "16383"]))) as (s' & es & E' & Hr).
  - split; split.
    + exact (alone_roles s n Hal).
    + constructor.
    + intros _. exact (alone_master s n Hal).
    + vm_compute. repeat constructor; discriminate.
    + constructor.
    + rewrite (ln_nodes _ _ (proj1 Hal)), Ename. apply lookup_singleton_ne. discriminate.
    + constructor.
  - by exists s, es0, s', es.
Defined.

(** ** Slots *)

(** C15: When a node claims slots with an epoch, a slot changes hands exactly when
    it is claimed, is not being imported, and has no owner or an owner with a
    smaller epoch; all the other slots keep their owner, the call returns, and
    the invariant holds after it. *)
Theorem clusterUpdateSlotsConfigWith_correct sv s sender n epoch slots : wf s -> cs_heap s !! sender = Some n ->
  nodeInHandshake n = false -> knows_master s ->
  exists s' es, clusterUpdateSlotsConfigWith sv sender epoch slots s = Some (tt, s', es) /\ wf s' /\
    forall j, cs_slots s' !! j =
      if negb (sender =? cs_myself s) && takes_slot s sender epoch slots j then Some sender else cs_slots s !! j.
Proof.
  intros Hw Hn Hh Hk. destruct (wp_run (clusterUpdateSlotsConfigWith sv sender epoch slots) _ s
    (clusterUpdateSlotsConfigWith_spec True sv s sender n epoch slots Hw Hn Hh (fun _ => Hk))) as ([] & s' & es & E & Hi & Hs).
  exists s', es. split; [done|]. split; [exact (inv_wf _ _ _ Hi)|done].
Qed.

(** A master "B". *)
Definition example_master : clusterNode := mkNode (hex_name 66) 0 CLUSTER_NODE_MASTER 1 0 0 [] None 0 0 0 0 0 0 0 0 no_addr None [].

Lemma clusterUpdateSlotsConfigWith_correct_witness : exists s sender s' es, sender <> cs_myself s /\
  clusterUpdateSlotsConfigWith (example_server 2000 0) sender 3 5 s = Some (tt, s', es) /\ wf s' /\
    forall j, cs_slots s' !! j = if negb (sender =? cs_myself s) && takes_slot s sender 3 5 j then Some sender else cs_slots s !! j.
Proof.
  destruct example_start as (s & es0 & n & E & Hal & Ename). pose proof (wf_alone _ _ Hal) as Hw.
  assert (Hfree : cs_nodes s !! hex_name 66 = None) by (rewrite (ln_nodes _ _ (proj1 Hal)), Ename; apply lookup_singleton_ne; discriminate).
  pose proof (wf_add_node s example_master Hw (conj eq_refl (conj eq_refl (conj eq_refl (conj eq_refl eq_refl)))) Hfree) as Hi.
  match type of Hi with inv _ _ ?x => set (s2 := x) in Hi end. pose proof (ln_next _ _ (proj1 Hal)) as Hlt.
  destruct (clusterUpdateSlotsConfigWith_correct (example_server 2000 0) s2 (cs_next s) example_master 3 5) as (s' & es & H).
  - exact (inv_wf _ _ _ Hi).
  - apply lookup_insert_eq.
  - reflexivity.
  - intros me Hme. left. apply (alone_master s n Hal). change (<[cs_next s := example_master]> (cs_heap s) !! cs_myself s = Some me) in Hme.
    rewrite lookup_insert_ne in Hme by lia. exact Hme.
  - exists s2, (cs_next s), s', es. split; [|exact H]. intros E2. change (cs_next s = cs_myself s) in E2. lia.
Defined.

(** [myself] owns the slots of [old]. *)
Definition taken_over (s s' : clusterState) (old : ptr) : Prop :=
  forall j, cs_slots s' !! j = if bool_decide (cs_slots s !! j = Some old) then Some (cs_myself s) else cs_slots s !! j.

(** C29: A replica that replaces its master owns exactly the slots its master
    owned; no other slot moves, the call returns, and the invariant holds. *)
Theorem takeover_correct sv s me old : wf s -> cs_heap s !! cs_myself s = Some me -> nodeIsMaster me = false -> cn_slaveof me = Some old ->
  exists s' es, clusterFailoverReplaceYourMaster sv s = Some (tt, s', es) /\ wf s' /\ taken_over s s' old.
Proof.
  intros Hw Hme Hm Ho. destruct (wp_run (clusterFailoverReplaceYourMaster sv) _ s (clusterFailoverReplaceYourMaster_spec True sv s me Hw Hme))
    as ([] & s' & es & E & Hi & Hs). rewrite Hm, Ho in Hs. exists s', es. split; [done|]. split; [exact (inv_wf _ _ _ Hi)|done].
Qed.

(** "a" is a replica of "B", which owns slot 0. *)
Definition replica_me : clusterNode :=
  mkNode (hex_name 97) 0 (Z.lor CLUSTER_NODE_MYSELF CLUSTER_NODE_SLAVE) 1 0 0 [] (Some 2) 0 0 0 0 0 0 0 0 no_addr None [].
Definition replica_master : clusterNode := mkNode (hex_name 66) 0 CLUSTER_NODE_MASTER 1 1 1 [1] None 0 0 0 0 0 0 0 0 no_addr None [].
Definition replica_state : clusterState :=
  zero_state <| cs_myself := 1 |> <| cs_heap := {[1 := replica_me; 2 := replica_master]} |> <| cs_next := 3 |>
    <| cs_nodes := {[hex_name 97 := 1; hex_name 66 := 2]} |> <| cs_slots := {[0 := 2]} |>.

Lemma replica_lookup p n : cs_heap replica_state !! p = Some n <-> p = 1 /\ n = replica_me \/ p = 2 /\ n = replica_master.
Proof.
  cbn [replica_state cs_heap set_field]. change (({[1 := replica_me; 2 := replica_master]} : gmap ptr clusterNode) !! p = Some n <-> p = 1 /\ n = replica_me \/ p = 2 /\ n = replica_master).
  rewrite lookup_insert_Some, lookup_singleton_Some. split; [intros [[<- <-]|[? [<- <-]]]; auto|intros [[-> ->]|[-> ->]]; [auto|right; split; [lia|auto]]].
Qed.

Lemma replica_me_lookup : cs_heap replica_state !! cs_myself replica_state = Some replica_me.
Proof. apply replica_lookup. left. split; reflexivity. Qed.

Lemma replica_wf : wf replica_state.
Proof.
  assert (C : count_slots 1 = 1).
  { rewrite (count_slots_set 0 1 0), count_slots_none; [done|intros; apply Z.testbit_0_l|done|done|].
    intros i. destruct (decide (i = 0)) as [->|]; [done|]. rewrite Z.testbit_0_l. destruct i as [|[]|]; done. }
  assert (C0 : count_slots 0 = 0) by (apply count_slots_none; intros; apply Z.testbit_0_l).
  split.
  - intros p n [[-> _]|[-> _]]%replica_lookup; cbn; lia.
  - intros nm p. change (({[hex_name 97 := 1; hex_name 66 := 2]} : gmap name ptr) !! nm = Some p <->
      exists n, cs_heap replica_state !! p = Some n /\ cn_name n = nm). setoid_rewrite replica_lookup.
    rewrite lookup_insert_Some, lookup_singleton_Some. split.
    + intros [[E <-]|[_ [E <-]]]; [exists replica_me|exists replica_master]; (split; [auto|exact E]).
    + intros (n & [[-> ->]|[-> ->]] & E); [left; split; [exact E|reflexivity]|right; split; [rewrite <- E; discriminate|split; [exact E|reflexivity]]].
  - exists replica_me. split; [exact replica_me_lookup|]. split; [reflexivity|]. right. split; [reflexivity|split; reflexivity].
  - intros j p. change (({[0 := 2]} : gmap Z ptr) !! j = Some p <-> 0 <= j < CLUSTER_SLOTS /\ exists n, cs_heap replica_state !! p = Some n /\ Z.testbit (cn_slots n) j = true).
    setoid_rewrite replica_lookup. rewrite lookup_singleton_Some. split.
    + intros [<- <-]. split; [unfold CLUSTER_SLOTS; lia|]. exists replica_master. split; [auto|reflexivity].
    + intros (Hj & n & [[-> ->]|[-> ->]] & Hb); cbn in Hb; [rewrite Z.testbit_0_l in Hb; discriminate|]. split; [|reflexivity].
      destruct j as [|[]|]; [reflexivity|discriminate..].
  - intros p n [[_ ->]|[_ ->]]%replica_lookup; cbn; congruence.
  - intros p q. setoid_rewrite replica_lookup. split.
    + intros (m & [[-> ->]|[-> ->]] & Hp); cbn in Hp; [inversion Hp|]. apply list_elem_of_singleton in Hp as ->. exists replica_me. split; [auto|reflexivity].
    + intros (n & [[-> ->]|[-> ->]] & Hp); cbn in Hp; [|discriminate]. injection Hp as <-. exists replica_master. split; [auto|]. by apply list_elem_of_singleton.
  - intros p n [[_ ->]|[_ ->]]%replica_lookup; cbn; [constructor|apply NoDup_singleton].
  - intros p n [[_ ->]|[_ ->]]%replica_lookup; discriminate.
  - intros p n [[_ ->]|[_ ->]]%replica_lookup; (split; [constructor|intros q Hq; inversion Hq]).
  - intros j p [H|H]; change ((∅ : gmap Z ptr) !! j = Some p) in H; by rewrite lookup_empty in H.
Qed.

Lemma takeover_correct_witness : exists s' es,
  clusterFailoverReplaceYourMaster (example_server 2000 0) replica_state = Some (tt, s', es) /\ wf s' /\ taken_over replica_state s' 2.
Proof.
  apply (takeover_correct (example_server 2000 0) replica_state replica_me 2); [exact replica_wf|exact replica_me_lookup|reflexivity|reflexivity].
Defined.

(** The slots of [slots] were free, or assigned when they are deleted, and are so no more. *)
Definition slots_changed (del : bool) (slots : list Z) (s s' : clusterState) : Prop :=
  NoDup slots /\ (forall j, j ∈ slots -> 0 <= j < CLUSTER_SLOTS /\ (cs_slots s !! j = None <-> del = false)) /\
  forall j, cs_slots s' !! j = if bool_decide (j ∈ slots) then if del then None else Some (cs_myself s) else cs_slots s !! j.

(** C30: ADDSLOTS and DELSLOTS are all or nothing. A reply other than OK leaves
    the whole state as it was; the reply OK means that the arguments are the
    canonical decimals of distinct slots in range, all free for ADDSLOTS and all
    assigned for DELSLOTS, and that exactly those slots were changed. *)
Theorem cluster_addslots_correct (del : bool) s argv : wf s -> Forall (Forall byte_ok) argv ->
  (del = false -> forall me, cs_heap s !! cs_myself s = Some me -> nodeIsMaster me = true) ->
  exists r s' es, cluster_addslots del argv s = Some (r, s', es) /\ wf s' /\ (r <> ReplyOk -> s' = s) /\
    (r = ReplyOk -> exists slots, Forall2 canonical argv slots /\ slots_changed del slots s s').
Proof.
  intros Hw Ha Hm. destruct (wp_run (cluster_addslots del argv) _ s (cluster_addslots_ok True del s argv Hw (fun _ => Ha) Hm))
    as (r & s' & es & E & Hi & He & Hok). exists r, s', es. split; [done|]. split; [exact (inv_wf _ _ _ Hi)|]. split; [done|].
  intros Hr. destruct (Hok Hr) as (slots & [H1 H2] & H3 & H4). exists slots. split; [auto|]. by split.
Qed.

Lemma cluster_addslots_correct_witness : exists r s' es,
  cluster_addslots true (args ["0"]) replica_state = Some (r, s', es) /\ wf s' /\ (r <> ReplyOk -> s' = replica_state) /\
    (r = ReplyOk -> exists slots, Forall2 canonical (args ["0"]) slots /\ slots_changed true slots replica_state s').
Proof.
  apply (cluster_addslots_correct true replica_state (args ["0"])); [exact replica_wf|vm_compute; repeat constructor; discriminate|discriminate].
Defined.

(** The ranges are in order and hold the slots with an owner, under their owner. *)
Definition ranges_of (s : clusterState) (ranges : list (Z * Z * ptr)) : Prop :=
  StronglySorted range_before ranges /\
  forall j p, (exists x y, (x, y, p) ∈ ranges /\ x <= j <= y) <-> cs_slots s !! j = Some p.

(** C38: The reply of CLUSTER SLOTS consists of ranges in increasing order; a slot
    lies in a range of a node exactly when that node owns it. The state does not
    change. *)
Theorem cluster_slots_reply_correct use_pport s : wf s ->
  exists ranges es, clusterReplyMultiBulkSlots use_pport s = Some ((fun r => (r.1.1, r.1.2, node_entries use_pport s r.2)) <$> ranges, s, es) /\
    ranges_of s ranges.
Proof.
  intros Hw. destruct (wp_run (clusterReplyMultiBulkSlots use_pport) _ s (clusterReplyMultiBulkSlots_ok True s use_pport Hw)) as (r & s' & es & E & -> & ->).
  exists (slot_ranges (owners s) 0 None (-1)), es. split; [done|]. split; [by apply slot_ranges_sorted|]. intros. by apply owned_ranges.
Qed.

Lemma cluster_slots_reply_correct_witness : exists ranges es,
  clusterReplyMultiBulkSlots false replica_state = Some ((fun r => (r.1.1, r.1.2, node_entries false replica_state r.2)) <$> ranges, replica_state, es) /\
    ranges_of replica_state ranges.
Proof. apply (cluster_slots_reply_correct false replica_state). exact replica_wf. Defined.

(** ** Reset *)

(** C39: After CLUSTER RESET the node knows only itself and is a master without
    slots or replicas. A soft reset keeps its name; a hard reset gives it a new
    name and sets its epochs to 0. *)
Theorem clusterReset_correct sv s hard me : wf s -> roles_ok s -> cs_heap s !! cs_myself s = Some me ->
  exists s' es n, clusterReset sv hard s = Some (tt, s', es) /\ alone s' n /\ cs_myself s' = cs_myself s /\
    cn_name n = (if hard then sv_random_name sv else cn_name me) /\
    (hard = true -> cn_configEpoch n = 0 /\ cs_currentEpoch s' = 0 /\ cs_lastVoteEpoch s' = 0).
Proof.
  intros Hw Hr Hme. destruct (wp_run (clusterReset sv hard) _ s (clusterReset_ok True sv s hard me Hw Hr Hme)) as ([] & s' & es & E & n & H).
  by exists s', es, n.
Qed.

Lemma clusterReset_correct_witness : exists s' es n,
  clusterReset (example_server 3000 100) true replica_state = Some (tt, s', es) /\ alone s' n /\ cs_myself s' = cs_myself replica_state /\
    cn_name n = hex_name 100 /\ (true = true -> cn_configEpoch n = 0 /\ cs_currentEpoch s' = 0 /\ cs_lastVoteEpoch s' = 0).
Proof.
  apply (clusterReset_correct (example_server 3000 100) replica_state true replica_me); [exact replica_wf| |exact replica_me_lookup].
  intros p n [[_ ->]|[_ ->]]%replica_lookup; [reflexivity|]. intros H. destruct (H eq_refl).
Defined.
