(* ===== verification/ClusterFaults.v ===== *)
(** Two ways to bring a node of the cluster down that the code does not guard
    against: slots added to a replica, and a replica without a master. *)
From stdpp Require Import gmap.
From Stdlib Require Import String.
From S2P Require Import Prelude Util Sds Replication Cluster ClusterCron ClusterCommand ClusterInv ClusterOps ClusterSlots ClusterRoles ClusterConfig ClusterRemove ClusterPackets ClusterCronInv ClusterStart ClusterCommandInv ClusterSafety.
Open Scope string_scope.
Open Scope list_scope.
Open Scope Z_scope.

(** A run that cannot return. *)
Lemma wp_faults {A} (m : cl A) s : wp False m (fun _ _ => False) s -> m s = None.
Proof. unfold wp. destruct (m s) as [[[a s'] e]|]; tauto. Qed.

Lemma wp_any {A} (m : cl A) s : wp False m (fun _ _ => True) s.
Proof. unfold wp. destruct (m s) as [[[a s'] e]|]; tauto. Qed.

(** ** A replica without a master *)

Section orphan.
Context (sv : redisServer) (sender : ptr) (epoch slots j : Z).

Lemma rebind_slot_mono curmaster c x s :
  wp False (rebind_slot sv sender curmaster epoch slots c x) (fun c' _ => c_newmaster c = true -> c_newmaster c' = true) s.
Proof.
  unfold rebind_slot. destruct (negb _); [by apply wp_ret|]. apply wp_bind, wp_getS. destruct (bool_decide _); [by apply wp_ret|].
  destruct (negb _); [by apply wp_ret|]. apply wp_bind. eapply wp_mono; [apply wp_any|]. intros take s1 _. destruct take; [|by apply wp_ret].
  apply wp_bind. eapply wp_mono; [apply wp_any|]. intros ? s2 _. apply wp_bind. eapply wp_mono; [apply wp_any|]. intros ? s3 _.
  apply wp_bind, wp_modify, wp_ret. cbn. by intros ->.
Qed.

Lemma rebind_slot_sets c s : Z.testbit slots j = true -> cs_slots s !! j = None -> cs_importing_slots_from s !! j = None ->
  wp False (rebind_slot sv sender None epoch slots c j) (fun c' _ => c_newmaster c' = true) s.
Proof.
  intros Hb Hs Hi. unfold rebind_slot, bitmapTestBit. rewrite Hb. cbn [negb]. apply wp_bind, wp_getS. rewrite Hs, Hi.
  rewrite bool_decide_eq_false_2 by done. rewrite (bool_decide_eq_true_2 (None = None)) by done. cbn [negb]. apply wp_bind, wp_ret.
  apply wp_bind. eapply wp_mono; [apply wp_any|]. intros ? s2 _. apply wp_bind. eapply wp_mono; [apply wp_any|]. intros ? s3 _.
  apply wp_bind, wp_modify, wp_ret. cbn. apply orb_true_r.
Qed.

Lemma claims_of_orphan s : wf s -> valid s sender -> sender <> cs_myself s ->
  (forall n, cs_heap s !! sender = Some n -> nodeInHandshake n = false) ->
  0 <= j < CLUSTER_SLOTS -> Z.testbit slots j = true -> cs_slots s !! j = None -> cs_importing_slots_from s !! j = None ->
  wp False (fold_each slot_range (mkClaims false 0 0 []) (rebind_slot sv sender None epoch slots)) (fun c _ => c_newmaster c = true) s.
Proof.
  intros Hw Hv Hne Hset Hj Hb Hs Hi.
  eapply wp_mono; [apply (wp_fold_each_done False slot_range _ _ (fun l c s' => rebound s sender epoch slots l s' /\ (j ∈ l -> c_newmaster c = true)))|].
  - split; [|set_solver]. split; [done|]. split; [done|]. intros i. by rewrite bool_decide_eq_false_2 by set_solver.
  - intros l x c s1 Hx [Hrb Hnew]. eapply wp_mono.
    { apply (wp_conj False _ (fun _ s2 => rebound s sender epoch slots (l ++ [x]) s2) (fun c' _ => j ∈ l ++ [x] -> c_newmaster c' = true)); [by apply rebind_slot_ok|]. destruct (decide (j ∈ l)) as [Hin|Hout].
      - eapply wp_mono; [apply rebind_slot_mono|]. intros c' s2 H _. auto.
      - destruct (decide (x = j)) as [->|Hxj].
        + eapply wp_mono; [apply rebind_slot_sets; [done| |]|].
          * destruct Hrb as (_ & _ & Hsl). by rewrite Hsl, bool_decide_eq_false_2.
          * destruct Hrb as (_ & Ho & _). by rewrite (so_importing _ _ Ho).
          * by intros c' s2 H _.
        + eapply wp_mono; [apply wp_any|]. intros c' s2 _. set_solver. }
    intros c' s2 [H1 H2]. split; [exact H1|exact H2].
  - intros c s' [_ H]. apply H. by apply slot_range_elem.
Qed.

End orphan.

(** C31: A replica without a master does not survive the claim of a slot nobody
    owns: [clusterUpdateSlotsConfigWith] compares the owner of the slot, NULL,
    with its master, also NULL, takes the claimant for its new master and reads
    the number of slots of the old one through NULL. *)
Theorem orphan_replica_faults sv s me sender n epoch slots j : wf s -> cs_heap s !! cs_myself s = Some me ->
  nodeIsMaster me = false -> cn_slaveof me = None ->
  cs_heap s !! sender = Some n -> nodeInHandshake n = false -> sender <> cs_myself s ->
  0 <= j < CLUSTER_SLOTS -> Z.testbit slots j = true -> cs_slots s !! j = None -> cs_importing_slots_from s !! j = None ->
  Z.land (sv_module_flags sv) CLUSTER_MODULE_FLAG_NO_REDIRECTION = 0 ->
  clusterUpdateSlotsConfigWith sv sender epoch slots s = None.
Proof.
  intros Hw Hme Hm Ho Hn Hh Hne Hj Hb Hs Hi Hmod. apply wp_faults. unfold clusterUpdateSlotsConfigWith.
  apply wp_bind, wp_getS, wp_bind, wp_deref; [done|]. intros me' Hme'. assert (me' = me) as -> by congruence. rewrite Hm, Ho.
  destruct (Z.eqb_spec sender (cs_myself s)); [done|]. apply wp_bind.
  eapply wp_mono; [apply (claims_of_orphan sv sender epoch slots j s); try done; [by eexists|congruence]|].
  intros c s1 Hc. rewrite Hmod, Hc. cbn [negb Z.eqb]. apply wp_bind, wp_fail. tauto.
Qed.

(** A replica "a" that lost its master, and a master "B". *)
Definition orphan_me : clusterNode := replica_me <| cn_slaveof := None |>.
Definition orphan_alone : clusterState :=
  zero_state <| cs_myself := 1 |> <| cs_heap := {[1 := orphan_me]} |> <| cs_next := 2 |> <| cs_nodes := {[hex_name 97 := 1]} |>.
Definition orphan_state : clusterState :=
  orphan_alone <| cs_next := 3 |> <| cs_heap := <[2 := example_master]> (cs_heap orphan_alone) |>
    <| cs_nodes := <[hex_name 66 := 2]> (cs_nodes orphan_alone) |>.

Lemma orphan_wf : wf orphan_state.
Proof.
  assert (H : lonely orphan_alone orphan_me).
  { split; try reflexivity.
    - split; [reflexivity|]. split; [right; split; reflexivity|split; reflexivity].
    - split; [constructor|intros q Hq; inversion Hq].
    - split; [intros; apply Z.testbit_0_l|reflexivity].
    - split; [reflexivity|split; reflexivity]. }
  apply (wf_add_node orphan_alone example_master); [by eapply wf_lonely|repeat split|].
  change (({[hex_name 97 := 1]} : gmap name ptr) !! hex_name 66 = None). apply lookup_singleton_ne. discriminate.
Qed.

Lemma orphan_replica_faults_witness : clusterUpdateSlotsConfigWith (example_server 2000 0) 2 3 1 orphan_state = None.
Proof.
  apply (orphan_replica_faults (example_server 2000 0) orphan_state orphan_me 2 example_master 3 1 0); try reflexivity.
  - exact orphan_wf.
  - discriminate.
  - split; [discriminate|reflexivity].
Defined.

(** ** Slots added to a replica *)

(** The effect of the command on [me]. *)
Definition with_slot (s : clusterState) (me : clusterNode) (s' : clusterState) : Prop :=
  cs_myself s' = cs_myself s /\ cs_nodes s' = cs_nodes s /\ (forall x, x <> cs_myself s -> cs_heap s' !! x = cs_heap s !! x) /\
  exists me', cs_heap s' !! cs_myself s = Some me' /\ nodeIsMaster me' = nodeIsMaster me /\ cn_numslots me' = cn_numslots me + 1.

Lemma addslots_one s me a j : wf s -> cs_heap s !! cs_myself s = Some me -> Forall byte_ok a -> canonical a j ->
  0 <= j < CLUSTER_SLOTS -> cs_slots s !! j = None ->
  wp True (cluster_addslots false [a]) (fun r s' => r = ReplyOk /\ with_slot s me s') s.
Proof.
  intros Hw Hme Ha Hc Hj Hs. unfold cluster_addslots. apply wp_bind.
  eapply (wp_mono _ _ (fun r s' => r = inr [j] /\ s' = s)).
  { cbn [parse_slots]. apply wp_bind. unfold getSlotOrReply. apply wp_bind. eapply wp_mono; [by apply getLongLong_ok|].
    intros r s' [-> Hr]. apply wp_ret. rewrite (proj2 (Hr Ha j) Hc).
    destruct (_ || _) eqn:E; [lia|]. apply wp_bind, wp_getS. rewrite Hs. cbn [andb negb]. rewrite (bool_decide_eq_true_2 (None = None)) by done. cbn [negb].
    rewrite bool_decide_eq_false_2 by set_solver. by apply wp_ret. }
  intros r s' [-> ->]. apply wp_bind. eapply wp_mono.
  { apply (wp_for_each_new True slot_range _ (fun l s' => if bool_decide (j ∈ l) then with_slot s me s' else s' = s)); [apply NoDup_seqZ| |].
    - by rewrite bool_decide_eq_false_2 by set_solver.
    - intros l x s1 Hx Hl H. unfold change_slot. destruct (decide (x = j)) as [->|Hxj].
      + rewrite bool_decide_eq_false_2 in H by done. subst s1. rewrite (bool_decide_eq_true_2 (j ∈ l ++ [j])) by set_solver.
        rewrite (bool_decide_eq_true_2 (j ∈ [j])) by set_solver. cbn [when]. apply wp_bind, wp_modify, wp_bind, wp_getS, wp_bind.
        set (s1 := s <| cs_importing_slots_from := _ |>). unfold clusterAddSlot. apply wp_bind, wp_getS.
        change (cs_slots s1 !! j) with (cs_slots s !! j). rewrite Hs. destruct (forget_import_ok s j Hw) as [Hi1 _]. fold s1 in Hi1.
        apply wp_bind. eapply wp_mono; [apply (clusterNodeSetSlotBit_spec True s1 (cs_myself s) me j); [exact (inv_wf _ _ _ Hi1)|done|]|].
        * destruct (Z.testbit (cn_slots me) j) eqn:E; [|done]. assert (cs_slots s !! j = Some (cs_myself s)); [|congruence].
          apply (wf_slots s Hw). eauto.
        * intros b s2 (n' & -> & Ef & _ & Ec). apply wp_bind, wp_modify, wp_ret, wp_assert; [done|]. intros _. split; [done|]. split; [done|].
          split; [intros x Hne; by apply lookup_insert_ne|]. exists n'. split; [apply lookup_insert_eq|]. apply slot_frame_eq in Ef. intuition.
      + rewrite (bool_decide_eq_false_2 (x ∈ [j])) by set_solver. cbn [when]. apply wp_ret.
        rewrite (bool_decide_ext (j ∈ l ++ [x]) (j ∈ l)) by set_solver. exact H. }
  intros ? s1 H. rewrite bool_decide_eq_true_2 in H by (by apply slot_range_elem). by apply wp_bind, wp_modify, wp_ret.
Qed.

Lemma replicate_with_slots_faults ci s me b p n : cs_heap s !! cs_myself s = Some me -> nodeIsMaster me = false -> cn_numslots me <> 0 ->
  cs_nodes s !! name_of_arg b = Some p -> cs_heap s !! p = Some n -> p <> cs_myself s -> nodeIsSlave n = false ->
  cluster_replicate ci b s = None.
Proof.
  intros Hme Hm Hnum Hp Hn Hne Hsl. apply wp_faults. unfold cluster_replicate. apply wp_bind.
  eapply wp_mono; [by apply (lookup_arg_ok False)|]. intros r s' [-> ->]. rewrite Hp.
  apply wp_bind, wp_getS, wp_bind, wp_deref; [done|]. intros n' Hn'. assert (n' = n) as -> by congruence.
  apply wp_bind, wp_deref; [done|]. intros me' Hme'. assert (me' = me) as -> by congruence.
  destruct (Z.eqb_spec p (cs_myself s)); [done|]. rewrite Hsl, Hm. cbn [andb]. apply wp_bind. unfold clusterSetMaster.
  apply wp_bind, wp_getS, wp_bind, wp_assert; [done|]. intros _. apply wp_bind, wp_deref; [done|]. intros m Hm'. assert (m = me) as -> by congruence.
  apply wp_bind, wp_assert; [done|]. intros E. lia.
Qed.

(** C40: CLUSTER ADDSLOTS with a free slot is accepted by a replica, although a
    replica owns no slots; CLUSTER REPLICATE of a known master then fails an
    assertion and stops the server. *)
Theorem replica_addslots_faults ci s me a j b p n : wf s -> cs_heap s !! cs_myself s = Some me -> nodeIsMaster me = false ->
  Forall byte_ok a -> canonical a j -> 0 <= j < CLUSTER_SLOTS -> cs_slots s !! j = None ->
  cs_nodes s !! name_of_arg b = Some p -> cs_heap s !! p = Some n -> p <> cs_myself s -> nodeIsSlave n = false ->
  exists s' es, cluster_addslots false [a] s = Some (ReplyOk, s', es) /\ cluster_replicate ci b s' = None.
Proof.
  intros Hw Hme Hm Ha Hc Hj Hs Hp Hn Hne Hsl.
  destruct (wp_run _ _ _ (addslots_one s me a j Hw Hme Ha Hc Hj Hs)) as (r & s' & es & E & -> & Em & En & Hoth & me' & Hme' & Em' & Ec).
  exists s', es. split; [done|]. destruct (wf_me s Hw) as (m & ? & _ & [[]|(_ & _ & H0)]); [congruence|]. assert (m = me) as -> by congruence.
  apply (replicate_with_slots_faults ci s' me' b p n); rewrite ?Em, ?En; try done; [congruence|lia|]. by rewrite Hoth.
Qed.

Lemma replica_addslots_faults_witness : exists s' es,
  cluster_addslots false [of_string "7"] replica_state = Some (ReplyOk, s', es) /\ cluster_replicate example_cron (hex_name 66) s' = None.
Proof.
  apply (replica_addslots_faults example_cron replica_state replica_me (of_string "7") 7 (hex_name 66) 2 replica_master); try reflexivity.
  - exact replica_wf.
  - repeat constructor; discriminate.
  - split; [unfold in_s; lia|]. exists 1%nat. split; [|reflexivity]. split; [cbn; lia|left; reflexivity].
  - split; [discriminate|reflexivity].
  - discriminate.
Defined.
