(* ===== verification/ClusterCalm.v ===== *)
(** What has no part in an election. A computation is calm when it leaves the
    votes of the node alone, given and received, and sends no request for a vote
    and no vote. All the functions of the cluster are calm, except the two that
    answer a request and count a vote, and the one that runs the election. *)
From stdpp Require Import gmap.
From Stdlib Require Import String.
From S2P Require Import Prelude Util Sds Replication Cluster ClusterCron ClusterCommand ClusterCommandInv.
Open Scope string_scope.
Open Scope list_scope.
Open Scope Z_scope.

(** A request for a vote, or a vote. *)
Definition ballot (m : clusterMsg) : bool :=
  (m_type m =? CLUSTERMSG_TYPE_FAILOVER_AUTH_REQUEST) || (m_type m =? CLUSTERMSG_TYPE_FAILOVER_AUTH_ACK).

Definition quiet (e : effect) : Prop :=
  match e with SendMessage _ m | Reply _ m => ballot m = false | _ => True end.

(** The votes: the last one given, the epoch of the election of the node, whether
    it asked for votes, and how many it got. *)
Definition votes (s : clusterState) : Z * Z * Z * Z :=
  (cs_lastVoteEpoch s, cs_failover_auth_epoch s, cs_failover_auth_sent s, cs_failover_auth_count s).

(** What a calm computation keeps besides the votes: the size of the cluster, and
    the current epoch. *)
Record keep := mkKeep { k_size : bool; k_epoch : bool }.
Definition kept_fields (k : keep) (s : clusterState) : Z * Z :=
  (if k_size k then cs_size s else 0, if k_epoch k then cs_currentEpoch s else 0).

(** ** Runs with their effects *)

Definition trace {A} (m : cl A) (s : clusterState) (Q : A -> clusterState -> list effect -> Prop) : Prop :=
  match m s with Some (a, s', es) => Q a s' es | None => True end.

Lemma trace_bind {A B} (m : cl A) (f : A -> cl B) s Q :
  trace m s (fun a s1 es1 => trace (f a) s1 (fun b s2 es2 => Q b s2 (es1 ++ es2))) -> trace (m ≫= f) s Q.
Proof.
  unfold trace, mbind, cl_bind. destruct (m s) as [[[a s1] e1]|]; [|done]. by destruct (f a s1) as [[[b s2] e2]|].
Qed.

Lemma trace_mono {A} (m : cl A) s (Q Q' : A -> clusterState -> list effect -> Prop) :
  trace m s Q -> (forall a s' es, Q a s' es -> Q' a s' es) -> trace m s Q'.
Proof. unfold trace. destruct (m s) as [[[a s1] e1]|]; auto. Qed.

Lemma trace_result {A} (m : cl A) s Q a s' es : trace m s Q -> m s = Some (a, s', es) -> Q a s' es.
Proof. unfold trace. by intros H E; rewrite E in H. Qed.

(** ** Calm computations *)

Definition stable (k : keep) (s s' : clusterState) : Prop := votes s' = votes s /\ kept_fields k s' = kept_fields k s.

#[export] Instance stable_refl k : Reflexive (stable k).
Proof. by intros s. Qed.
#[export] Instance stable_trans k : Transitive (stable k).
Proof. intros s1 s2 s3 [] []. split; congruence. Qed.

Definition calm {A} (k : keep) (m : cl A) : Prop := forall s, trace m s (fun _ s' es => stable k s s' /\ Forall quiet es).

Section rules.
Context (k : keep).

Lemma calm_ret {A} (a : A) : calm k (mret a).
Proof. intros s. by split. Qed.
Lemma calm_bind {A B} (m : cl A) (f : A -> cl B) : calm k m -> (forall a, calm k (f a)) -> calm k (m ≫= f).
Proof.
  intros Hm Hf s. apply trace_bind. eapply trace_mono; [apply Hm|]. intros a s1 es1 [E1 H1].
  eapply trace_mono; [apply Hf|]. intros b s2 es2 [E2 H2]. split; [by etransitivity|by apply Forall_app].
Qed.
Lemma calm_getS : calm k getS.
Proof. intros s. by split. Qed.
Lemma calm_modify f : (forall s, stable k s (f s)) -> calm k (modify f).
Proof. intros H s. by split; [apply H|]. Qed.
Lemma calm_emit e : quiet e -> calm k (emit e).
Proof. intros H s. by split; [|apply Forall_singleton]. Qed.
Lemma calm_deref p : calm k (deref p).
Proof. intros s. unfold trace, deref. destruct (cs_heap s !! p); by cbn. Qed.
Lemma calm_update p f : calm k (update p f).
Proof. intros s. unfold trace, update. destruct (cs_heap s !! p); by cbn. Qed.
Lemma calm_assert b : calm k (serverAssert b).
Proof. intros s. unfold trace, serverAssert. by destruct b. Qed.
Lemma calm_when b m : calm k m -> calm k (when b m).
Proof. intros H. destruct b; [done|apply calm_ret]. Qed.
Lemma calm_fail {A} : calm k (fun _ => None : option (A * clusterState * list effect)).
Proof. intros s. done. Qed.
Lemma calm_lift {A} (o : option A) : calm k (lift o).
Proof. intros s. unfold trace, lift. by destruct o. Qed.
Lemma calm_for_each {A} (l : list A) body : (forall x, calm k (body x)) -> calm k (for_each l body).
Proof. intros H. induction l; cbn [for_each]; [apply calm_ret|by apply calm_bind]. Qed.
Lemma calm_fold_each {A B} (l : list A) (b : B) body : (forall b x, calm k (body b x)) -> calm k (fold_each l b body).
Proof. intros H. revert b. induction l; intros b; cbn [fold_each]; [apply calm_ret|by apply calm_bind]. Qed.

End rules.

(** ** Messages *)

(** What an operation that only reads gives. *)
Lemma trace_getS (Q : clusterState -> clusterState -> list effect -> Prop) s : Q s s [] -> trace getS s Q.
Proof. done. Qed.
Lemma trace_ret {A} (a : A) (Q : A -> clusterState -> list effect -> Prop) s : Q a s [] -> trace (mret a) s Q.
Proof. done. Qed.
Lemma trace_modify f (Q : unit -> clusterState -> list effect -> Prop) s : Q tt (f s) [] -> trace (modify f) s Q.
Proof. done. Qed.
Lemma trace_deref p (Q : clusterNode -> clusterState -> list effect -> Prop) s :
  (forall n, cs_heap s !! p = Some n -> Q n s []) -> trace (deref p) s Q.
Proof. unfold trace, deref. destruct (cs_heap s !! p); cbn; auto. Qed.

Definition header (type : Z) (s : clusterState) (m : clusterMsg) : Prop :=
  m_type m = type /\ m_currentEpoch m = cs_currentEpoch s /\ Some (m_sender m) = cn_name <$> cs_heap s !! cs_myself s /\
  m_data m = DataNone /\ forall me, cs_heap s !! cs_myself s = Some me -> cn_slaveof me = None -> m_slaveof m = CLUSTER_NODE_NULL_NAME.

Lemma clusterBuildMessageHdr_trace sv type s :
  trace (clusterBuildMessageHdr sv type) s (fun m s' es => s' = s /\ es = [] /\ header type s m).
Proof.
  unfold clusterBuildMessageHdr. apply trace_bind, trace_getS, trace_bind, trace_deref. intros me Hme. apply trace_bind.
  apply (trace_mono _ _ (fun _ s' es => s' = s /\ es = [])).
  { destruct (cn_slaveof me); [destruct (nodeIsSlave me)|]; [apply trace_deref|apply trace_ret|apply trace_ret]; auto. }
  intros master ? ? [-> ->]. apply trace_bind.
  apply (trace_mono _ _ (fun nm s' es => s' = s /\ es = [] /\ (cn_slaveof me = None -> nm = CLUSTER_NODE_NULL_NAME))).
  { destruct (cn_slaveof me); [|by apply trace_ret]. apply trace_bind, trace_deref. intros. by apply trace_ret. }
  intros slaveof ? ? (-> & -> & Hnull). destruct (sv_announced_ports sv) as [[? ?] ?]. apply trace_ret.
  unfold header. cbn. rewrite Hme. split_and!; try done. intros me' [= <-]. done.
Qed.

(** A header has the type it is asked for. *)
Lemma calm_hdr {B} k sv type (f : clusterMsg -> cl B) :
  (forall m, m_type m = type -> calm k (f m)) -> calm k (clusterBuildMessageHdr sv type ≫= f).
Proof.
  intros Hf s. apply trace_bind. eapply trace_mono; [apply clusterBuildMessageHdr_trace|].
  intros m ? ? (-> & -> & E & _). by apply Hf.
Qed.

Lemma calm_ping {B} k sv node type (f : clusterMsg -> cl B) :
  (forall m, m_type m = type -> calm k (f m)) -> calm k (ping_message sv node type ≫= f).
Proof.
  intros Hf s. apply trace_bind. unfold ping_message. apply trace_bind.
  apply (trace_mono _ _ (fun _ s' es => stable k s s' /\ Forall quiet es)).
  { destruct node; [apply calm_when, calm_update|by apply trace_ret]. }
  intros ? s1 es1 [E1 H1]. apply trace_bind. eapply trace_mono; [apply clusterBuildMessageHdr_trace|].
  intros m ? ? (-> & -> & E & _). apply trace_bind, trace_getS, trace_ret. eapply trace_mono; [by apply Hf|].
  intros b s2 es2 [E2 H2]. cbn. split; [by etransitivity|]. by rewrite app_nil_r, Forall_app.
Qed.

Create HintDb calm.

(** A message that is not a ballot. *)
Ltac quiet :=
  first [exact I|assumption|unfold quiet, ballot; cbn;
    match goal with H : m_type _ = _ |- _ => rewrite H; repeat case_match; reflexivity end].

(** A function of the code is unfolded. *)
Ltac head_of m := lazymatch m with ?f _ => head_of f | _ => m end.
Ltac calm_unfold := lazymatch goal with |- calm _ ?m => let f := head_of m in unfold f end.

(** The shape of the computation decides the rule. *)
Ltac calm_step :=
  lazymatch goal with
  | |- forall _, _ => intros ?
  | |- calm _ (mret _) => apply calm_ret
  | |- calm _ (clusterBuildMessageHdr _ _ ≫= _) => apply calm_hdr
  | |- calm _ (ping_message _ _ _ ≫= _) => apply calm_ping
  | |- calm _ (_ ≫= _) => apply calm_bind
  | |- calm _ getS => apply calm_getS
  | |- calm _ (modify _) => apply calm_modify; intros ?; repeat case_match; split; reflexivity
  | |- calm _ (emit _) => apply calm_emit; quiet
  | |- calm _ (deref _) => apply calm_deref
  | |- calm _ (update _ _) => apply calm_update
  | |- calm _ (serverAssert _) => apply calm_assert
  | |- calm _ (when false _) => apply calm_ret
  | |- calm _ (when _ _) => apply calm_when
  | |- calm _ (fun _ => None) => apply calm_fail
  | |- calm _ (lift _) => apply calm_lift
  | |- calm _ (for_each _ _) => apply calm_for_each
  | |- calm _ (fold_each _ _ _) => apply calm_fold_each
  | |- calm _ (match ?x with _ => _ end) => destruct x
  | |- calm _ (let '_ := ?x in _) => destruct x
  | |- calm _ _ => first [solve [auto 3 with calm nocore]|calm_unfold]
  end.
Ltac calm_auto := repeat (cbn zeta beta; calm_step).

(** ** The functions of the cluster *)

Section server.
Context (sv : redisServer).

Lemma markNodeAsFailingIfNeeded_calm k p : calm k (markNodeAsFailingIfNeeded sv p).
Proof. calm_auto. Qed.
Lemma clusterBroadcastPong_calm k target : calm k (clusterBroadcastPong sv target).
Proof. calm_auto. Qed.
#[local] Hint Resolve markNodeAsFailingIfNeeded_calm clusterBroadcastPong_calm : calm.
Lemma clusterDelNode_calm k p : calm k (clusterDelNode sv p).
Proof. calm_auto. Qed.
Lemma full_coverage_calm k l : calm k (full_coverage l).
Proof. induction l; cbn [full_coverage]; calm_auto. Qed.
Lemma claims_older_slot_calm k l slots epoch : calm k (claims_older_slot l slots epoch).
Proof. induction l; cbn [claims_older_slot]; calm_auto. Qed.
Lemma newer_owner_calm k l sender slots epoch : calm k (newer_owner l sender slots epoch).
Proof. induction l; cbn [newer_owner]; calm_auto. Qed.
#[local] Hint Resolve clusterDelNode_calm full_coverage_calm claims_older_slot_calm newer_owner_calm : calm.
Lemma clusterUpdateState_calm e : calm (mkKeep false e) (clusterUpdateState sv).
Proof. calm_auto. Qed.
#[local] Hint Resolve clusterUpdateState_calm : calm.
Lemma clusterUpdateSlotsConfigWith_calm k p epoch slots : calm k (clusterUpdateSlotsConfigWith sv p epoch slots).
Proof. calm_auto. Qed.
Lemma clusterFailoverReplaceYourMaster_calm e : calm (mkKeep false e) (clusterFailoverReplaceYourMaster sv).
Proof. calm_auto. Qed.
#[local] Hint Resolve clusterUpdateSlotsConfigWith_calm clusterFailoverReplaceYourMaster_calm : calm.
Lemma process_header_calm z p hdr : calm (mkKeep z false) (process_header sv p hdr).
Proof. calm_auto. Qed.
Lemma clusterProcessGossipSection_calm k l hdr : calm k (clusterProcessGossipSection sv l hdr).
Proof. calm_auto. Qed.
#[local] Hint Resolve clusterProcessGossipSection_calm : calm.
Lemma process_ping_calm k l sender hdr : calm k (process_ping sv l sender hdr).
Proof. calm_auto. Qed.
Lemma process_config_calm z l sender epoch hdr : calm (mkKeep z false) (process_config sv l sender epoch hdr).
Proof. calm_auto. Qed.
Lemma process_other_calm k l sender epoch hdr : ballot hdr = false -> calm k (process_other sv l sender epoch hdr).
Proof.
  unfold ballot. intros [E1 E2]%orb_false_iff. unfold process_other. rewrite E1, E2. calm_auto.
Qed.

Context (ci : cronInput).

Lemma cron_node_calm k acc p : calm k (cron_node sv ci acc p).
Proof. calm_auto. Qed.
Lemma cron_connect_calm k p : calm k (cron_connect sv ci p).
Proof. calm_auto. Qed.
Lemma clusterHandleSlaveMigration_calm k max : calm k (clusterHandleSlaveMigration sv ci max).
Proof. calm_auto. Qed.
Lemma clusterLinkConnectHandler_calm k l p : calm k (clusterLinkConnectHandler sv ci l p).
Proof. calm_auto. Qed.
Lemma verifyClusterConfigWithData_calm k : calm k (verifyClusterConfigWithData sv ci).
Proof. calm_auto. Qed.
Lemma parse_slots_calm k del args seen : calm k (parse_slots del args seen).
Proof. revert seen. induction args; intros seen; cbn [parse_slots]; calm_auto. Qed.
#[local] Hint Resolve parse_slots_calm : calm.
Lemma reset_soft_calm : calm (mkKeep false false) (reset_with sv ci false).
Proof. calm_auto. Qed.
#[local] Hint Resolve reset_soft_calm : calm.
Lemma count_states_calm k : calm k count_states.
Proof. unfold count_states. do 3 calm_step. intros [[ok pfail] fail] j. calm_auto. Qed.
#[local] Hint Resolve count_states_calm : calm.
Lemma clusterCommand_calm b argv : is_hard_reset argv = false -> calm (mkKeep false false) (clusterCommand sv ci b argv).
Proof.
  intros H. assert (H1 : forall sub a, arg_is sub "reset" && arg_is a "hard" = false -> calm (mkKeep false false) (command_1 sv ci sub a)).
  { intros sub a E. unfold command_1, cluster_reset. destruct (arg_is sub "reset"), (arg_is a "hard"); try done; calm_auto. }
  destruct argv as [|sub [|a [|a2 rest]]]; [calm_auto|calm_auto| |unfold clusterCommand; calm_auto].
  cbn [clusterCommand]. destruct (arg_is sub "addslots"); [calm_auto|]. destruct (arg_is sub "delslots"); [calm_auto|]. by apply H1.
Qed.
End server.
