(* ===== verification/ClusterElection.v ===== *)
(** The election of a replica, seen from one node: which of its votes change, and
    which ballots it sends, when it is asked for a vote, when it gets one, and
    when it runs its own election. *)
From stdpp Require Import gmap.
From S2P Require Import Prelude Util Sds Replication Cluster ClusterCron ClusterCommand ClusterInv ClusterOps ClusterSlots ClusterRoles ClusterConfig ClusterRemove ClusterPackets ClusterCronInv ClusterStart ClusterCommandInv ClusterCalm.

(** The ballots sent, with the name of the node they are for. *)
Definition as_ballot (e : effect) : option (name * clusterMsg) :=
  match e with SendMessage to m => if ballot m then Some (to, m) else None | _ => None end.
Definition ballots (es : list effect) : list (name * clusterMsg) := omap as_ballot es.

Lemma ballots_app es1 es2 : ballots (es1 ++ es2) = ballots es1 ++ ballots es2.
Proof. apply omap_app. Qed.

Lemma ballots_quiet es : Forall quiet es -> ballots es = [].
Proof.
  induction 1 as [|e es He Hes IH]; [done|]. unfold ballots in *. cbn [omap list_omap].
  destruct e as [to m|? m| | | | | | | | | | |]; cbn in *; try exact IH. by rewrite He.
Qed.

(** ** Calm steps, whose specification is known *)

Lemma trace_calm {A B} k (m : cl A) (f : A -> cl B) s Q : calm k m ->
  (forall a s1 es1, stable k s s1 -> ballots es1 = [] -> trace (f a) s1 (fun b s2 es2 => Q b s2 (es1 ++ es2))) -> trace (m ≫= f) s Q.
Proof.
  intros Hm Hf. apply trace_bind. eapply trace_mono; [apply Hm|]. intros a s1 es1 [Hs Hq]. apply Hf; [done|by apply ballots_quiet].
Qed.

Lemma trace_wp {A} (m : cl A) s (P : A -> clusterState -> Prop) Q : wp False m P s ->
  trace m s Q -> trace m s (fun a s' es => P a s' /\ Q a s' es).
Proof. unfold wp, trace. destruct (m s) as [[[a s'] es]|]; auto. Qed.

Lemma trace_call {A B} k (m : cl A) (f : A -> cl B) s P Q : calm k m -> wp False m P s ->
  (forall a s1 es1, stable k s s1 -> ballots es1 = [] -> P a s1 -> trace (f a) s1 (fun b s2 es2 => Q b s2 (es1 ++ es2))) ->
  trace (m ≫= f) s Q.
Proof.
  intros Hm Hw Hf. apply trace_bind. eapply trace_mono; [exact (trace_wp _ _ _ _ Hw (Hm s))|].
  intros a s1 es1 [Hp [Hs Hq]]. apply Hf; [done|by apply ballots_quiet|done].
Qed.

Definition all : keep := mkKeep true true.

Lemma stable_all s s' : stable all s s' -> votes s' = votes s /\ cs_size s' = cs_size s /\ cs_currentEpoch s' = cs_currentEpoch s.
Proof. intros [E [= ? ?]]. auto. Qed.

Lemma votes_eq s s' : votes s' = votes s -> cs_lastVoteEpoch s' = cs_lastVoteEpoch s /\ cs_failover_auth_epoch s' = cs_failover_auth_epoch s /\
  cs_failover_auth_sent s' = cs_failover_auth_sent s /\ cs_failover_auth_count s' = cs_failover_auth_count s.
Proof. by intros [= ? ? ? ?]. Qed.

(** The calm outcome. *)
Definition idle (s s' : clusterState) (es : list effect) : Prop := votes s' = votes s /\ ballots es = [].

Lemma calm_idle {A} k (m : cl A) s : calm k m -> trace m s (fun _ s' es => idle s s' es).
Proof. intros H. eapply trace_mono; [apply H|]. intros ? s' es [[E _] Hq]. split; [done|by apply ballots_quiet]. Qed.

Section server.
Context (sv : redisServer).

(** ** A request for a vote *)

(** The vote is for the epoch of the node, which is at most the one of the
    request, and is the first one for it. *)
Record granted (nm : name) (request : clusterMsg) (s s' : clusterState) (es : list effect) : Prop := {
  g_first : cs_lastVoteEpoch s <> cs_currentEpoch s';
  g_epoch : cs_currentEpoch s' <= m_currentEpoch request;
  g_votes : votes s' = (cs_currentEpoch s', cs_failover_auth_epoch s, cs_failover_auth_sent s, cs_failover_auth_count s);
  g_ballots : ballots es = [] \/ exists m, ballots es = [(nm, m)] /\
                m_type m = CLUSTERMSG_TYPE_FAILOVER_AUTH_ACK /\ m_currentEpoch m = cs_currentEpoch s'
}.

Lemma clusterSendFailoverAuth_trace s nm p : wf s -> cs_nodes s !! nm = Some p ->
  trace (clusterSendFailoverAuth sv p) s (fun _ s' es => s' = s /\ (ballots es = [] \/ exists m, ballots es = [(nm, m)] /\
    m_type m = CLUSTERMSG_TYPE_FAILOVER_AUTH_ACK /\ m_currentEpoch m = cs_currentEpoch s)).
Proof.
  intros Hw Hp. apply (wf_dict s Hw) in Hp as (n & Hn & En). unfold clusterSendFailoverAuth. apply trace_bind, trace_deref.
  intros n' Hn'. assert (n' = n) as -> by congruence. unfold when. destruct (linked n); [|apply trace_ret; auto].
  apply trace_bind. eapply trace_mono; [apply clusterBuildMessageHdr_trace|]. intros m ? ? (-> & -> & Et & Ee & _).
  unfold clusterSendMessage. apply trace_bind, trace_deref. intros n' Hn2. assert (n' = n) as -> by congruence.
  split; [done|]. right. exists m. unfold ballots, omap. cbn. unfold ballot. by rewrite Et, En.
Qed.

Lemma clusterSendFailoverAuthIfNeeded_trace s nm p request : wf s -> cs_nodes s !! nm = Some p ->
  trace (clusterSendFailoverAuthIfNeeded sv p request) s (fun _ s' es =>
    cs_currentEpoch s' = cs_currentEpoch s /\ (idle s s' es \/ granted nm request s s' es)).
Proof.
  intros Hw Hp. unfold clusterSendFailoverAuthIfNeeded. apply trace_bind, trace_getS, trace_bind, trace_deref. intros n Hn.
  apply trace_bind, trace_deref. intros me Hme. assert (Hno : cs_currentEpoch s = cs_currentEpoch s /\ (idle s s [] \/ granted nm request s s [])) by (by split; [|left]).
  destruct (_ || _); [by apply trace_ret|]. destruct (_ <? _) eqn:E1; [by apply trace_ret|]. apply Z.ltb_ge in E1.
  destruct (_ =? _) eqn:E2; [by apply trace_ret|]. apply Z.eqb_neq in E2.
  destruct (nodeIsMaster n); [by apply trace_ret|]. destruct (cn_slaveof n) as [master|]; [|by apply trace_ret].
  apply trace_bind, trace_deref. intros m Hm. destruct (_ && _); [by apply trace_ret|]. destruct (_ <? _); [by apply trace_ret|].
  apply (trace_call all _ _ _ (fun _ s1 => inv sim s s1)); [apply claims_older_slot_calm|by apply claims_older_slot_ok|].
  intros older s1 es1 Hst1%stable_all Hb1 Hi1. destruct Hst1 as (V1 & _ & C1). destruct older.
  { apply trace_ret. split; [done|]. left. split; [done|]. by rewrite app_nil_r. }
  apply trace_bind, trace_modify. match goal with |- trace _ ?x _ => set (s2 := x) end.
  assert (Hi2 : inv sim s s2).
  { eapply (inv_trans sim); [exact Hi1|]. apply inv_sim; [exact (inv_wf _ _ _ Hi1)|by split]. }
  apply (trace_call all _ _ _ (fun _ s3 => inv sim s2 s3)); [apply calm_update| |].
  { apply (wp_update_inv False); [exact (inv_wf _ _ _ Hi2)|done|done|done]. }
  intros ? s3 es3 Hst3%stable_all Hb3 Hi3. destruct Hst3 as (V3 & _ & C3).
  apply (trace_call all _ _ _ (fun _ s4 => inv sim s3 s4)).
  { calm_auto. }
  { apply (wp_modify_inv False); [exact (inv_wf _ _ _ Hi3)|by split|done]. }
  intros ? s4 es4 Hst4%stable_all Hb4 Hi4. destruct Hst4 as (V4 & _ & C4).
  pose proof (inv_trans sim _ _ _ Hi2 (inv_trans sim _ _ _ Hi3 Hi4)) as Hi.
  eapply trace_mono; [apply (clusterSendFailoverAuth_trace s4 nm p); [exact (inv_wf _ _ _ Hi)|by rewrite (sim_nodes _ _ (proj2 Hi))]|].
  intros ? ? es5 [-> Hes]. assert (C : cs_currentEpoch s4 = cs_currentEpoch s) by (rewrite C4, C3; exact C1).
  split; [done|]. right. apply votes_eq in V1 as (_ & V1 & V1' & V1'').
  split; [by rewrite C|by rewrite C| |].
  - rewrite V4, V3. subst s2. unfold votes. cbn. rewrite C, V1, V1', V1'', C1. done.
  - rewrite !ballots_app, Hb1, Hb3, Hb4. cbn. exact Hes.
Qed.

(** ** A vote *)

Lemma process_auth_ack_trace s p epoch :
  trace (process_auth_ack p epoch) s (fun _ s' es => ballots es = [] /\ (votes s' = votes s \/ cs_failover_auth_epoch s <= epoch /\
    votes s' = (cs_lastVoteEpoch s, cs_failover_auth_epoch s, cs_failover_auth_sent s, cs_failover_auth_count s + 1))).
Proof.
  unfold process_auth_ack. apply trace_bind, trace_deref. intros n _. apply trace_bind, trace_getS. unfold when.
  destruct (_ && _) eqn:E; [|apply trace_ret; auto]. apply andb_true_iff in E as [_ E%Z.geb_le]. apply trace_bind, trace_modify. split; [done|]. by right.
Qed.

(** ** The election of the node *)

Definition my_name (s : clusterState) : option name := cn_name <$> cs_heap s !! cs_myself s.

(** A request of the node for the votes of its epoch. *)
Definition request_of (s s' : clusterState) (m : clusterMsg) : Prop :=
  m_type m = CLUSTERMSG_TYPE_FAILOVER_AUTH_REQUEST /\ m_currentEpoch m = cs_currentEpoch s' /\ Some (m_sender m) = my_name s.

(** The outcomes: nothing, perhaps because the election is won; a new election is
    scheduled; it starts, in a new epoch. *)
Inductive campaign (s s' : clusterState) : bool -> list effect -> Prop :=
  | camp_idle won es : idle s s' es ->
      (won = true -> cs_failover_auth_sent s <> 0 /\ Z.quot (cs_size s) 2 + 1 <= cs_failover_auth_count s) -> campaign s s' won es
  | camp_scheduled es : ballots es = [] -> votes s' = (cs_lastVoteEpoch s, cs_failover_auth_epoch s, 0, 0) -> campaign s s' false es
  | camp_started es : cs_failover_auth_sent s = 0 -> votes s' = (cs_lastVoteEpoch s, cs_currentEpoch s', 1, cs_failover_auth_count s) ->
      Forall (fun b => request_of s s' b.2) (ballots es) -> campaign s s' false es.

Lemma campaign_before s s1 s2 won es1 es2 : stable all s s1 -> my_name s1 = my_name s -> ballots es1 = [] ->
  campaign s1 s2 won es2 -> campaign s s2 won (es1 ++ es2).
Proof.
  intros (V & Ez & _)%stable_all En Hb H. pose proof (votes_eq _ _ V) as (V1 & V2 & V3 & V4).
  destruct H as [won es2 [V' Hb'] Hw|es2 Hb' V'|es2 Hs V' Hr].
  - apply camp_idle; [split; [congruence|by rewrite ballots_app, Hb]|]. by rewrite <- V3, <- V4, <- Ez.
  - apply camp_scheduled; [by rewrite ballots_app, Hb|congruence].
  - apply camp_started; [congruence|congruence|]. rewrite ballots_app, Hb. eapply Forall_impl; [exact Hr|]. intros b.
    unfold request_of. by rewrite En.
Qed.

Lemma campaign_after s s1 s2 won es1 es2 : stable (mkKeep false true) s1 s2 -> ballots es2 = [] ->
  campaign s s1 won es1 -> campaign s s2 won (es1 ++ es2).
Proof.
  intros [V K] Hb H. assert (Ee : cs_currentEpoch s2 = cs_currentEpoch s1) by exact (f_equal snd K). clear K. destruct H as [won es1 [V' Hb'] Hw|es1 Hb' V'|es1 Hs V' Hr].
  - apply camp_idle; [split; [congruence|by rewrite ballots_app, Hb', Hb]|done].
  - apply camp_scheduled; [by rewrite ballots_app, Hb', Hb|congruence].
  - apply camp_started; [done|congruence|]. rewrite ballots_app, Hb, app_nil_r. eapply Forall_impl; [exact Hr|]. intros b.
    unfold request_of. by rewrite Ee.
Qed.

(** A calm step before an election. *)
Lemma campaign_call {A} (m : cl A) (f : A -> cl bool) s : calm all m -> wp False m (fun _ s1 => wf s1 /\ me_same s s1) s ->
  (forall a s1, wf s1 -> trace (f a) s1 (fun won s' es => campaign s1 s' won es)) ->
  trace (m ≫= f) s (fun won s' es => campaign s s' won es).
Proof.
  intros Hm Hw Hf. apply (trace_call all _ _ _ _ _ Hm Hw). intros a s1 es1 Hst Hb [Hw1 [_ En]].
  eapply trace_mono; [by apply Hf|]. intros won s' es. by apply campaign_before.
Qed.

Lemma wp_me_same R `{Keep R} {A} (m : cl A) s : wf s -> wp False m (fun _ s1 => inv R s s1) s -> wp False m (fun _ s1 => wf s1 /\ me_same s s1) s.
Proof. intros Hw Hm. eapply wp_mono; [exact Hm|]. intros ? s1 Hi. split; [exact (inv_wf _ _ _ Hi)|exact (inv_me_same R _ _ Hw Hi)]. Qed.

Lemma trace_for_each {A} (l : list A) body s (I : clusterState -> list effect -> Prop) : I s [] ->
  (forall x s es, I s es -> trace (body x) s (fun _ s' es' => I s' (es ++ es'))) -> trace (for_each l body) s (fun _ s' es => I s' es).
Proof.
  intros H0 Hb. enough (H : forall es s, I s es -> trace (for_each l body) s (fun _ s' es' => I s' (es ++ es'))) by (exact (H [] s H0)).
  clear H0 s. induction l as [|x l IH]; intros es s Hs; cbn [for_each]; [apply trace_ret; by rewrite app_nil_r|].
  apply trace_bind. eapply trace_mono; [by apply Hb|]. intros ? s1 es1 H1. eapply trace_mono; [exact (IH _ _ H1)|].
  intros ? s2 es2. cbn beta. by rewrite <- app_assoc.
Qed.

Lemma clusterBroadcastMessage_trace s m :
  trace (clusterBroadcastMessage m) s (fun _ s' es => s' = s /\ Forall (fun b => b.2 = m) (ballots es)).
Proof.
  unfold clusterBroadcastMessage. apply trace_bind, trace_getS.
  apply (trace_for_each _ _ _ (fun s' es => s' = s /\ Forall (fun b => b.2 = m) (ballots es))); [by repeat constructor|].
  intros p ? es [-> H]. apply trace_bind, trace_deref. intros n _. unfold when. destruct (_ && _); [|apply trace_ret; by rewrite app_nil_r].
  unfold clusterSendMessage. apply trace_bind, trace_deref. intros n' _. split; [done|]. cbn. rewrite ballots_app, Forall_app.
  split; [done|]. unfold ballots. cbn. destruct (ballot m); repeat constructor.
Qed.

Lemma start_election_trace s :
  trace (start_election sv) s (fun _ s' es => cs_failover_auth_sent s = 0 -> campaign s s' false es).
Proof.
  unfold start_election. apply trace_bind, trace_modify, trace_bind, trace_modify, trace_bind.
  match goal with |- trace _ ?x _ => set (s1 := x) end. unfold clusterRequestFailoverAuth. apply trace_bind.
  eapply trace_mono; [apply clusterBuildMessageHdr_trace|]. intros m ? ? (-> & -> & Et & Ee & En & _). apply trace_bind, trace_getS.
  eapply trace_mono; [apply clusterBroadcastMessage_trace|]. intros ? ? es [-> Hm]. apply trace_bind, trace_modify. cbn.
  intros Hs. apply camp_started; [done|done|]. rewrite app_nil_r. eapply Forall_impl; [exact Hm|]. intros b ->.
  split_and!; destruct (negb _); assumption.
Qed.

Lemma schedule_election_trace s : trace (schedule_election sv) s (fun _ s' es => campaign s s' false es).
Proof.
  unfold schedule_election. apply trace_bind, trace_modify. match goal with |- trace _ ?x _ => set (s1 := x) end.
  eapply trace_mono; [apply (calm_idle all)|].
  { calm_auto. all: apply clusterBroadcastPong_calm. }
  intros ? s' es [V Hb]. by apply camp_scheduled.
Qed.

Lemma clusterHandleSlaveFailover_trace s : wf s -> trace (clusterHandleSlaveFailover sv) s (fun won s' es => campaign s s' won es).
Proof.
  intros Hw. unfold clusterHandleSlaveFailover. apply trace_bind, trace_getS, trace_bind, trace_modify.
  match goal with |- trace _ ?x _ => set (s1 := x) end.
  assert (Hi1 : inv sim s s1) by (apply inv_sim; [done|by split]). pose proof (inv_wf _ _ _ Hi1) as Hw1.
  assert (Hlog : forall r s2 es, ballots es = [] -> stable all s s2 -> my_name s2 = my_name s ->
    trace (clusterLogCantFailover sv r;; mret false) s2 (fun won s' es' => campaign s s' won (es ++ es'))).
  { intros r s2 es He Hst En. apply (trace_calm all); [calm_auto|]. intros ? s3 es3 H3 Hb3. apply trace_ret. rewrite app_nil_r.
    eapply campaign_before; [done|done|done|]. apply camp_idle; [|done]. split; [apply H3|done]. }
  apply (trace_call all _ _ _ (fun go s2 => s2 = s1 /\ (go = true -> is_slave s1))); [calm_auto|by apply failover_conditions_spec|].
  intros go ? es2 _ Hb2 [-> Hgo]. cbn [app]. assert (Hst1 : stable all s s1) by done.
  destruct go; cbn [negb].
  2:{ apply trace_bind, trace_modify, trace_ret. apply camp_idle; [|done]. split; [done|]. by rewrite app_nil_r. }
  destruct (_ && _); [by apply Hlog|]. specialize (Hgo eq_refl). destruct (_ >? _).
  { apply trace_bind. eapply trace_mono; [apply schedule_election_trace|]. intros ? s3 es3 H3. apply trace_ret. rewrite app_nil_r.
    by apply (campaign_before s s1). }
  apply (trace_call all _ _ _ (fun _ s2 => inv sim s1 s2)); [calm_auto|by apply update_rank_ok|].
  intros ? s3 es3 Hst3 Hb3 Hi3. pose proof (stable_trans all _ _ _ Hst1 Hst3) as Hst.
  assert (Hb : ballots (es2 ++ es3) = []) by (by rewrite ballots_app, Hb2, Hb3).
  assert (En : my_name s3 = my_name s) by (exact (proj2 (inv_me_same sim _ _ Hw (inv_trans sim _ _ _ Hi1 Hi3)))).
  assert (Hafter : forall m : cl bool, trace m s3 (fun won s' es => campaign s3 s' won es) ->
    trace m s3 (fun won s' es => campaign s s' won (es2 ++ es3 ++ es))).
  { intros m H. eapply trace_mono; [exact H|]. intros won s' es He. rewrite app_assoc. by apply (campaign_before s s3). }
  apply trace_bind, trace_getS. cbn [app]. apply Hafter. clear Hafter.
  assert (Hcalm : forall m : cl unit, calm (mkKeep false true) m -> trace (m;; mret false) s3 (fun won s' es => campaign s3 s' won es)).
  { intros m H. apply (trace_calm _ _ _ _ _ H). intros ? s4 es4 [V _] Hb4. apply trace_ret. rewrite app_nil_r. by apply camp_idle. }
  destruct (_ <? _); [apply Hcalm; calm_auto|]. destruct (_ >? _); [apply Hcalm; calm_auto|].
  destruct (_ =? 0) eqn:Es; [|destruct (_ >=? _) eqn:Ec; [|apply Hcalm; calm_auto]].
  - apply trace_bind. eapply trace_mono; [apply start_election_trace|]. intros ? s4 es4 H4. apply trace_ret. rewrite app_nil_r.
    apply H4. lia.
  - apply (trace_calm (mkKeep false true)).
    { unfold win_election. pose proof (clusterFailoverReplaceYourMaster_calm sv true). calm_auto. }
    intros ? s4 es4 [V _] Hb4. apply trace_ret. rewrite app_nil_r. apply camp_idle; [done|]. intros _.
    apply stable_all in Hst as (_ & Ez & _). rewrite Ez. lia.
Qed.

(** ** The handlers of the node *)

Lemma campaign_idle s s' : votes s' = votes s -> campaign s s' false [].
Proof. intros V. by apply camp_idle. Qed.

Lemma clusterBeforeSleep_trace s : wf s -> trace (clusterBeforeSleep sv) s (fun won s' es => campaign s s' won es).
Proof.
  intros Hw. unfold clusterBeforeSleep. apply trace_bind, trace_getS, trace_bind, trace_modify, trace_bind, trace_deref. intros me _.
  match goal with |- trace _ ?x _ => set (s1 := x) end.
  assert (Hi1 : inv sim s s1) by (apply inv_sim; [done|by split]). pose proof (inv_wf _ _ _ Hi1) as Hw1. cbn [app].
  apply trace_bind. apply (trace_mono _ _ (fun won s' es => campaign s1 s' won es)).
  - repeat case_match; try (by apply trace_ret, campaign_idle); try by apply clusterHandleSlaveFailover_trace.
    + apply (trace_call all _ _ _ (fun _ s2 => inv sim s1 s2)); [calm_auto|by apply clusterHandleManualFailover_ok|].
      intros ? s2 es2 Hst Hb Hi2. eapply trace_mono; [apply clusterHandleSlaveFailover_trace, Hi2|].
      intros won s3 es3 H3. eapply campaign_before; [done| |done|done]. exact (proj2 (inv_me_same sim _ _ Hw1 Hi2)).
    + apply (trace_calm all); [calm_auto|]. intros ? s2 es2 Hst Hb. apply trace_ret. rewrite app_nil_r. apply camp_idle; [|done]. by split; [apply Hst|].
  - intros won s2 es2 H2. apply (trace_calm (mkKeep false true)); [pose proof (clusterUpdateState_calm sv true); calm_auto|].
    intros ? s3 es3 Hst3 Hb3. apply (trace_calm (mkKeep false true)); [calm_auto|]. intros ? s4 es4 Hst4 Hb4. apply trace_ret.
    rewrite app_nil_r. apply (campaign_before s s1 _ _ []); [done|done|done|]. apply (campaign_after _ s2); [by etransitivity| |done].
    by rewrite ballots_app, Hb3, Hb4.
Qed.

(** A packet: only a request for a vote and a vote matter. *)
Inductive polled (hdr : clusterMsg) (s s' : clusterState) (es : list effect) : Prop :=
  | poll_idle : idle s s' es -> polled hdr s s' es
  | poll_request : m_type hdr = CLUSTERMSG_TYPE_FAILOVER_AUTH_REQUEST -> granted (m_sender hdr) hdr s s' es -> polled hdr s s' es
  | poll_vote : m_type hdr = CLUSTERMSG_TYPE_FAILOVER_AUTH_ACK -> ballots es = [] ->
      cs_failover_auth_epoch s <= m_currentEpoch hdr \/ cs_failover_auth_epoch s <= 0 ->
      votes s' = (cs_lastVoteEpoch s, cs_failover_auth_epoch s, cs_failover_auth_sent s, cs_failover_auth_count s + 1) -> polled hdr s s' es.

(** The dispatch on the type, with what the header gave. *)
Lemma process_type_trace s l hdr sender epochs : wf s -> sender = cs_nodes s !! m_sender hdr ->
  epochs.1 = 0 \/ epochs.1 = m_currentEpoch hdr ->
  trace (when ((m_type hdr =? CLUSTERMSG_TYPE_PING) || (m_type hdr =? CLUSTERMSG_TYPE_MEET)) (process_ping sv l sender hdr);;
         if (m_type hdr =? CLUSTERMSG_TYPE_PING) || (m_type hdr =? CLUSTERMSG_TYPE_PONG) || (m_type hdr =? CLUSTERMSG_TYPE_MEET) then
           process_config sv l sender epochs.2 hdr
         else process_other sv l sender epochs.1 hdr;; mret true) s (fun _ s' es => polled hdr s s' es).
Proof.
  intros Hw Hs He. destruct (ballot hdr) eqn:Hb.
  - unfold ballot in Hb. apply orb_true_iff in Hb as [Hb%Z.eqb_eq|Hb%Z.eqb_eq]; rewrite Hb; cbn; apply trace_bind, trace_ret, trace_bind;
      unfold process_other; rewrite Hb; cbn; (destruct sender as [p|]; [|by apply trace_ret, trace_ret, poll_idle]).
    + eapply trace_mono; [by apply clusterSendFailoverAuthIfNeeded_trace|]. intros ? s' es [_ H]. change (polled hdr s s' (es ++ [])). rewrite app_nil_r.
      destruct H; [by apply poll_idle|by apply poll_request].
    + eapply trace_mono; [apply process_auth_ack_trace|]. intros ? s' es [Hes H]. change (polled hdr s s' (es ++ [])). rewrite app_nil_r.
      destruct H as [H|[H1 H2]]; [by apply poll_idle|]. apply poll_vote; [done|done| |done]. destruct He as [He|He]; rewrite He in H1; auto.
  - eapply trace_mono; [apply (calm_idle (mkKeep true false))|].
    + pose proof (process_ping_calm sv). pose proof (process_config_calm sv). pose proof (fun k l s e => process_other_calm sv k l s e hdr Hb). calm_auto.
    + intros ? s' es H. by apply poll_idle.
Qed.

Lemma polled_before hdr s s1 s2 es1 es2 : votes s1 = votes s -> ballots es1 = [] -> polled hdr s1 s2 es2 -> polled hdr s s2 (es1 ++ es2).
Proof.
  intros V Hb H. pose proof (votes_eq _ _ V) as (V1 & V2 & V3 & V4). destruct H as [[V' Hb']|Ht [G1 G2 G3 G4]|Ht Hb' He V'].
  - apply poll_idle. split; [congruence|by rewrite ballots_app, Hb].
  - apply poll_request; [done|]. split; [congruence|done|congruence|by rewrite ballots_app, Hb].
  - apply poll_vote; [done|by rewrite ballots_app, Hb|by rewrite <- V2|congruence].
Qed.

Lemma clusterProcessPacket_trace s l hdr : wf s -> trace (clusterProcessPacket sv l hdr) s (fun _ s' es => polled hdr s s' es).
Proof.
  intros Hw. unfold clusterProcessPacket, clusterLookupNode. apply trace_bind, trace_bind, trace_getS, trace_ret. cbn [app].
  apply (trace_call (mkKeep true false) _ _ _ (fun epochs s1 => inv sim s s1 /\ (epochs.1 = 0 \/ epochs.1 = m_currentEpoch hdr))).
  - pose proof (process_header_calm sv). calm_auto.
  - destruct (cs_nodes s !! m_sender hdr) as [p|] eqn:Ep; [|apply wp_ret; split; [by apply (inv_refl sim)|by left]].
    apply wp_bind. eapply wp_mono; [apply process_header_ok; [done|by eapply wf_lookup_node]|]. intros ? s1 Hi1.
    apply wp_bind, wp_deref; [done|]. intros n _. apply wp_ret. split; [done|]. destruct (nodeInHandshake n); auto.
  - intros epochs s1 es1 [V _] Hb [Hi1 He]. eapply trace_mono.
    + apply process_type_trace; [exact (inv_wf _ _ _ Hi1)| |exact He]. by rewrite (sim_nodes _ _ (proj2 Hi1)).
    + intros ? s' es. by apply polled_before.
Qed.

Section cron.
Context (ci : cronInput).

Lemma cron_slave_trace s acc : wf s -> trace (cron_slave sv ci acc) s (fun won s' es => campaign s s' won es).
Proof.
  intros Hw. unfold cron_slave. apply trace_bind, trace_getS, trace_bind, trace_deref. intros me _. cbn [app].
  destruct (nodeIsSlave me); [|by apply trace_ret, campaign_idle].
  apply campaign_call; [calm_auto|apply (wp_me_same sim), clusterHandleManualFailover_ok; done|]. intros ? s2 Hw2. apply trace_bind.
  apply (trace_mono _ _ (fun won s' es => campaign s2 s' won es)).
  { destruct (_ =? 0); [by apply clusterHandleSlaveFailover_trace|by apply trace_ret, campaign_idle]. }
  intros won s3 es3 H3. apply (trace_calm (mkKeep false true)); [pose proof (clusterHandleSlaveMigration_calm sv ci); calm_auto|].
  intros ? s4 es4 Hst4 Hb4. apply trace_ret. rewrite app_nil_r. by apply (campaign_after _ s3).
Qed.

Lemma cron_connect_all_ok s : wf s -> wp False (for_each (node_ptrs s) (cron_connect sv ci)) (fun _ s1 => wf s1 /\ me_same s s1) s.
Proof.
  intros Hw. eapply wp_mono; [apply (wp_for_each_new _ _ _ (fun l s' => kept l s s')); [by apply node_ptrs_NoDup|done|]|].
  - intros l p s3 Hp Hl Hk. apply cron_connect_ok; [done|by apply wf_node_ptrs|done|done].
  - intros ? s3 (? & ? & _). done.
Qed.

Lemma cron_ping_ok s : wf s -> wp False (when (ci_iteration ci mod 10 =? 0) (cron_ping_random sv ci)) (fun _ s1 => wf s1 /\ me_same s s1) s.
Proof.
  intros Hw. apply wp_when; [|by intros _]. intros _. apply (wp_me_same sim); [done|]. by apply cron_ping_random_ok.
Qed.

Lemma cron_scan_ok s acc : wf s -> wp False (fold_each (node_ptrs s) acc (cron_node sv ci)) (fun _ s1 => wf s1 /\ me_same s s1) s.
Proof.
  intros Hw. apply (wp_me_same sim); [done|]. apply (wp_fold_each_inv False sim); [done|]. intros p acc' s' Hp Hi.
  apply cron_node_ok; [exact (inv_wf _ _ _ Hi)|]. apply (inv_valid sim s s' p Hi). by apply wf_node_ptrs.
Qed.

Lemma clusterCron_trace s : wf s -> trace (clusterCron sv ci) s (fun won s' es => campaign s s' won es).
Proof.
  intros Hw. unfold clusterCron.
  apply campaign_call; [calm_auto|by apply (wp_me_same sim), cron_announce_ok|]. intros _ s1 Hw1.
  apply campaign_call; [calm_auto|by apply (wp_me_same sim), clusterUpdateMyselfFlags_ok|]. intros _ s2 Hw2.
  apply trace_bind, trace_getS. apply campaign_call; [calm_auto|by apply cron_connect_all_ok|]. intros _ s3 Hw3.
  apply campaign_call; [calm_auto|by apply cron_ping_ok|]. intros _ s4 Hw4.
  apply trace_bind, trace_getS. apply campaign_call; [calm_auto|by apply cron_scan_ok|]. intros acc s5 Hw5.
  apply campaign_call; [calm_auto|by apply (wp_me_same sim), cron_replication_ok|]. intros _ s6 Hw6.
  apply campaign_call; [calm_auto|by apply (wp_me_same sim), manualFailoverCheckTimeout_ok|]. intros _ s7 Hw7.
  apply trace_bind. eapply trace_mono; [by apply cron_slave_trace|]. intros won s8 es8 H8. apply trace_bind, trace_getS.
  apply (trace_calm (mkKeep false true)); [pose proof (clusterUpdateState_calm sv true); calm_auto|].
  intros ? s9 es9 Hst9 Hb9. apply trace_ret. rewrite app_nil_r. by apply (campaign_after _ s8).
Qed.
End cron.
End server.
