(* ===== verification/ClusterVote.v ===== *)
(** The elections of a cluster: nodes that run the code, and the ballots they
    exchange over a network that delays, reorders and loses messages. Each node
    votes at most once in an epoch; when votes are timely, at most one replica
    wins in an epoch. *)
From stdpp Require Import gmap.
From S2P Require Import Prelude Util Sds Replication Cluster ClusterCron ClusterCommand ClusterInv ClusterOps ClusterSlots ClusterRoles ClusterConfig ClusterRemove ClusterPackets ClusterCronInv ClusterStart ClusterCommandInv ClusterSafety ClusterCalm ClusterElection.

(** A ballot on the bus of the cluster, from the node [pk_src] to the node [pk_dst]. *)
Record packet := mkPacket { pk_src : name; pk_dst : name; pk_msg : clusterMsg }.

Definition pk_epoch (pk : packet) : Z := m_currentEpoch (pk_msg pk).
Definition is_vote (pk : packet) : bool := m_type (pk_msg pk) =? CLUSTERMSG_TYPE_FAILOVER_AUTH_ACK.
Definition posted (src : name) (es : list effect) : list packet := (fun b => mkPacket src b.1 b.2) <$> ballots es.

(** The nodes by name, the ballots on their way, the votes delivered, the
    elections won (the winner, the epoch, and the size of the cluster it knew),
    and the ballots lost. *)
Record network := mkNetwork {
  nw_nodes : gmap name clusterState; nw_flight : list packet; nw_votes : list packet; nw_wins : list (name * Z * Z); nw_lost : list packet
}.

(** What a node does besides the ballots and its own election. A hard reset
    forgets the votes of the node, and gives it a new name. *)
Definition local_event (e : event) (s : clusterState) : Prop :=
  match e with
  | EvPacket l hdr => ballot hdr = false /\ names_ok hdr s
  | EvCommand _ argv => is_hard_reset argv = false /\ command_ok argv s
  | EvConnected l p => valid s p /\ l_node l = Some p
  | EvVerify => True
  | EvCron | EvBeforeSleep => False
  end.

(** The steps of the cluster. The epoch of a node is assumed not to overflow. In a
    [timely] network a vote comes before the next election of its node is
    scheduled. *)
Inductive step (timely : bool) (nw : network) : network -> Prop :=
  | step_deliver sv l pk l1 l2 s b s' es :
      nw_flight nw = l1 ++ pk :: l2 -> nw_nodes nw !! pk_dst pk = Some s -> names_ok (pk_msg pk) s ->
      (timely = true -> is_vote pk = true -> cs_failover_auth_sent s <> 0) ->
      clusterProcessPacket sv l (pk_msg pk) s = Some (b, s', es) -> cs_currentEpoch s <= cs_currentEpoch s' ->
      step timely nw (mkNetwork (<[pk_dst pk := s']> (nw_nodes nw)) ((l1 ++ l2) ++ posted (pk_dst pk) es)
        (if is_vote pk then pk :: nw_votes nw else nw_votes nw) (nw_wins nw) (nw_lost nw))
  | step_lose pk l1 l2 :
      nw_flight nw = l1 ++ pk :: l2 -> step timely nw (mkNetwork (nw_nodes nw) (l1 ++ l2) (nw_votes nw) (nw_wins nw) (pk :: nw_lost nw))
  | step_local sv ci e i s s' es :
      nw_nodes nw !! i = Some s -> local_event e s -> handle sv ci e s = Some (tt, s', es) -> cs_currentEpoch s <= cs_currentEpoch s' ->
      step timely nw (mkNetwork (<[i := s']> (nw_nodes nw)) (nw_flight nw ++ posted i es) (nw_votes nw) (nw_wins nw) (nw_lost nw))
  | step_run sv ci i s won s' es :
      nw_nodes nw !! i = Some s -> clusterCron sv ci s = Some (won, s', es) \/ clusterBeforeSleep sv s = Some (won, s', es) ->
      cs_currentEpoch s <= cs_currentEpoch s' ->
      step timely nw (mkNetwork (<[i := s']> (nw_nodes nw)) (nw_flight nw ++ posted i es) (nw_votes nw)
        (if won then (i, cs_failover_auth_epoch s, cs_size s) :: nw_wins nw else nw_wins nw) (nw_lost nw)).

(** The nodes start with no vote counted and nothing on its way. *)
Record starting (nw : network) : Prop := {
  st_flight : nw_flight nw = []; st_votes : nw_votes nw = []; st_wins : nw_wins nw = []; st_lost : nw_lost nw = [];
  st_node : forall i s, nw_nodes nw !! i = Some s -> wf s /\ my_name s = Some i /\ cs_failover_auth_count s = 0 /\
    0 <= cs_lastVoteEpoch s <= cs_currentEpoch s /\ cs_failover_auth_epoch s <= cs_currentEpoch s
}.

Inductive running (timely : bool) : network -> Prop :=
  | run_start nw : starting nw -> running timely nw
  | run_step nw nw' : running timely nw -> step timely nw nw' -> running timely nw'.

(** ** The invariant *)

(** The votes for [c] in the epoch [e]. *)
Definition votes_for (l : list packet) (c : name) (e : Z) : list packet := filter (fun pk => pk_dst pk = c /\ pk_epoch pk = e) l.
Definition tally (l : list packet) (c : name) (e : Z) : Z := zlen (votes_for l c e).

(** The votes that were sent: on their way, delivered or lost. *)
Definition cast_votes (nw : network) : list packet := filter (fun pk => is_vote pk = true) (nw_flight nw ++ nw_votes nw ++ nw_lost nw).

(** The count of a node is about its current election only if votes are timely. *)
Record election_ok (timely : bool) (nw : network) : Prop := {
  eo_node : forall i s, nw_nodes nw !! i = Some s -> wf s /\ my_name s = Some i /\
    0 <= cs_lastVoteEpoch s <= cs_currentEpoch s /\ cs_failover_auth_epoch s <= cs_currentEpoch s;
  eo_count : timely = true -> forall i s, nw_nodes nw !! i = Some s -> (cs_failover_auth_sent s = 0 -> cs_failover_auth_count s = 0) /\
    cs_failover_auth_count s <= tally (nw_votes nw) i (cs_failover_auth_epoch s);
  eo_request : forall pk, pk ∈ nw_flight nw -> is_vote pk = false ->
    exists s, nw_nodes nw !! m_sender (pk_msg pk) = Some s /\ pk_epoch pk <= cs_failover_auth_epoch s;
  eo_vote : forall pk, pk ∈ cast_votes nw -> 0 < pk_epoch pk /\
    (exists s, nw_nodes nw !! pk_src pk = Some s /\ pk_epoch pk <= cs_lastVoteEpoch s) /\
    (exists s, nw_nodes nw !! pk_dst pk = Some s /\ pk_epoch pk <= cs_failover_auth_epoch s);
  eo_once : NoDup ((fun pk => (pk_src pk, pk_epoch pk)) <$> cast_votes nw);
  eo_votes : Forall (fun pk => is_vote pk = true) (nw_votes nw);
  eo_wins : timely = true -> forall c e n, (c, e, n) ∈ nw_wins nw -> Z.quot n 2 + 1 <= tally (nw_votes nw) c e
}.

(** How a node moves. *)
Definition forward (s s' : clusterState) : Prop :=
  cs_lastVoteEpoch s <= cs_lastVoteEpoch s' <= cs_currentEpoch s' /\
  cs_failover_auth_epoch s <= cs_failover_auth_epoch s' <= cs_currentEpoch s'.

Lemma nodes_forward (nodes : gmap name clusterState) i s s' (f : clusterState -> Z) j x : nodes !! i = Some s -> f s <= f s' ->
  (exists t, nodes !! j = Some t /\ x <= f t) -> exists t, <[i := s']> nodes !! j = Some t /\ x <= f t.
Proof.
  intros Hi Hf (t & Ht & Hx). destruct (decide (i = j)) as [->|Hne].
  - rewrite lookup_insert_eq. exists s'. split; [done|]. assert (t = s) as -> by congruence. lia.
  - rewrite lookup_insert_ne by done. eauto.
Qed.

Lemma filter_submseteq {A} (P : A -> Prop) `{forall x, Decision (P x)} (l l' : list A) : l ⊆+ l' -> filter P l ⊆+ filter P l'.
Proof. intros [k ->]%submseteq_Permutation. rewrite filter_app. by apply submseteq_inserts_r. Qed.

Lemma NoDup_submseteq_l {A} (l l' : list A) : l ⊆+ l' -> NoDup l' -> NoDup l.
Proof. intros [k ->]%submseteq_Permutation. by intros [? _]%NoDup_app. Qed.

Lemma tally_mono l l' c e : l ⊆+ l' -> tally l c e <= tally l' c e.
Proof. intros H. unfold tally. apply inj_le, submseteq_length, (filter_submseteq _ _ _ H). Qed.

(** The ballots a node sends: requests for its own election, or one vote, later
    than its earlier ones, for a node whose election has reached that epoch. *)
Inductive sends (nodes : gmap name clusterState) (i : name) (s s' : clusterState) : list packet -> Prop :=
  | sends_requests l : Forall (fun pk => is_vote pk = false /\ m_sender (pk_msg pk) = i /\ pk_epoch pk <= cs_failover_auth_epoch s') l ->
      sends nodes i s s' l
  | sends_vote pk : is_vote pk = true -> pk_src pk = i -> cs_lastVoteEpoch s < pk_epoch pk <= cs_lastVoteEpoch s' ->
      (exists t, nodes !! pk_dst pk = Some t /\ pk_epoch pk <= cs_failover_auth_epoch t) -> sends nodes i s s' [pk].

(** A step of the node [i], after which [rest] is left of the ballots on their
    way and [done] are the votes delivered. *)
Record moves (timely : bool) (nw : network) (i : name) (s s' : clusterState) (rest new done : list packet) (wins : list (name * Z * Z)) : Prop := {
  mv_node : nw_nodes nw !! i = Some s;
  mv_wf : wf s' /\ my_name s' = Some i;
  mv_forward : forward s s';
  mv_new : sends (nw_nodes nw) i s s' new;
  mv_rest : rest ⊆ nw_flight nw;
  mv_known : rest ++ done ⊆+ nw_flight nw ++ nw_votes nw;
  mv_done : nw_votes nw ⊆+ done;
  mv_votes : Forall (fun pk => is_vote pk = true) done;
  mv_count : timely = true -> (cs_failover_auth_sent s' = 0 -> cs_failover_auth_count s' = 0) /\
             cs_failover_auth_count s' <= tally done i (cs_failover_auth_epoch s');
  mv_wins : timely = true -> forall c e n, (c, e, n) ∈ wins -> (c, e, n) ∈ nw_wins nw \/ Z.quot n 2 + 1 <= tally done c e
}.

Section moves.
Context (timely : bool) (nw : network) (i : name) (s s' : clusterState) (rest new done : list packet) (wins : list (name * Z * Z)).
Context (Hok : election_ok timely nw) (Hm : moves timely nw i s s' rest new done wins).

Let nw' := mkNetwork (<[i := s']> (nw_nodes nw)) (rest ++ new) done wins (nw_lost nw).

Lemma moves_known : exists new', cast_votes nw' ≡ₚ new' ++ filter (fun pk => is_vote pk = true) (rest ++ done ++ nw_lost nw) /\
  (new' = [] \/ exists pk, new' = [pk] /\ is_vote pk = true /\ pk_src pk = i /\ cs_lastVoteEpoch s < pk_epoch pk <= cs_lastVoteEpoch s' /\
     exists t, nw_nodes nw !! pk_dst pk = Some t /\ pk_epoch pk <= cs_failover_auth_epoch t).
Proof.
  exists (filter (fun pk => is_vote pk = true) new). split.
  - unfold cast_votes. cbn. rewrite !filter_app. solve_Permutation.
  - pose proof (mv_new _ _ _ _ _ _ _ _ _ Hm) as Hnew. clear Hm nw'. destruct Hnew as [l Hl|pk Hv Hs He Hd].
    + left. induction Hl as [|pk l (Hv & _ & _) _ IH]; [done|]. rewrite filter_cons_False; [exact IH|by rewrite Hv].
    + right. exists pk. rewrite filter_cons_True by done. done.
Qed.

Lemma moves_cast : rest ++ done ++ nw_lost nw ⊆+ nw_flight nw ++ nw_votes nw ++ nw_lost nw.
Proof. rewrite !(assoc_L (++)). apply submseteq_app; [apply (mv_known _ _ _ _ _ _ _ _ _ Hm)|reflexivity]. Qed.

Lemma old_vote pk : pk ∈ filter (fun pk => is_vote pk = true) (rest ++ done ++ nw_lost nw) -> pk ∈ cast_votes nw.
Proof. intros H. eapply elem_of_submseteq; [exact H|]. apply filter_submseteq, moves_cast. Qed.

Lemma moves_vote pk : pk ∈ cast_votes nw' -> 0 < pk_epoch pk /\
  (exists s, nw_nodes nw' !! pk_src pk = Some s /\ pk_epoch pk <= cs_lastVoteEpoch s) /\
  (exists s, nw_nodes nw' !! pk_dst pk = Some s /\ pk_epoch pk <= cs_failover_auth_epoch s).
Proof.
  pose proof (mv_node _ _ _ _ _ _ _ _ _ Hm) as Hi. destruct (mv_forward _ _ _ _ _ _ _ _ _ Hm) as ([F1 F2] & F3 & F4).
  destruct (eo_node _ _ Hok _ _ Hi) as (_ & _ & H0 & _). destruct moves_known as (new' & Ek & Hn). rewrite Ek, elem_of_app. intros [H|H].
  - destruct Hn as [->|(p & -> & Hv & Hs & He & Hd)]; [set_solver|]. apply list_elem_of_singleton in H as ->. split; [lia|].
    split; [|by apply (nodes_forward _ i s s' cs_failover_auth_epoch)].
    exists s'. cbn. rewrite Hs, lookup_insert_eq. split; [done|lia].
  - destruct (eo_vote _ _ Hok pk (old_vote _ H)) as (H1 & H2 & H3). split; [done|].
    split; [by apply (nodes_forward _ i s s' cs_lastVoteEpoch)|by apply (nodes_forward _ i s s' cs_failover_auth_epoch)].
Qed.

Lemma moves_once : NoDup ((fun pk => (pk_src pk, pk_epoch pk)) <$> cast_votes nw').
Proof.
  pose proof (mv_node _ _ _ _ _ _ _ _ _ Hm) as Hi. destruct moves_known as (new' & Ek & Hn). rewrite Ek.
  assert (Hold : NoDup ((fun pk => (pk_src pk, pk_epoch pk)) <$> filter (fun pk => is_vote pk = true) (rest ++ done ++ nw_lost nw))).
  { eapply NoDup_submseteq_l; [|apply (eo_once _ _ Hok)]. apply fmap_submseteq, filter_submseteq, moves_cast. }
  destruct Hn as [->|(p & -> & Hv & Hs & He & Hd)]; [done|]. rewrite fmap_app. cbn. apply NoDup_cons. split; [|done].
  intros (pk & [= E1 E2] & Hpk)%list_elem_of_fmap. destruct (eo_vote _ _ Hok pk (old_vote _ Hpk)) as (_ & (t & Ht & Hle) & _).
  rewrite <- E1, Hs, Hi in Ht. assert (t = s) as -> by congruence. lia.
Qed.

Lemma moves_request pk : pk ∈ rest ++ new -> is_vote pk = false ->
  exists t, nw_nodes nw' !! m_sender (pk_msg pk) = Some t /\ pk_epoch pk <= cs_failover_auth_epoch t.
Proof.
  pose proof (mv_node _ _ _ _ _ _ _ _ _ Hm) as Hi. destruct (mv_forward _ _ _ _ _ _ _ _ _ Hm) as (_ & F3 & F4).
  rewrite elem_of_app. intros [H|H] Hv.
  - apply (nodes_forward _ i s s' cs_failover_auth_epoch); [done|done|]. apply (eo_request _ _ Hok); [|done]. by apply (mv_rest _ _ _ _ _ _ _ _ _ Hm).
  - destruct (mv_new _ _ _ _ _ _ _ _ _ Hm) as [l Hl|p Hv' _ _ _].
    + rewrite Forall_forall in Hl. destruct (Hl pk H) as (_ & -> & Hle). exists s'. cbn. by rewrite lookup_insert_eq.
    + apply list_elem_of_singleton in H as ->. congruence.
Qed.

Lemma moves_ok : election_ok timely nw'.
Proof.
  pose proof (mv_node _ _ _ _ _ _ _ _ _ Hm) as Hi. destruct (mv_forward _ _ _ _ _ _ _ _ _ Hm) as ([F1 F2] & F3 & F4).
  pose proof (mv_done _ _ _ _ _ _ _ _ _ Hm) as Hdone. pose proof (eo_node _ _ Hok _ _ Hi) as (_ & _ & H0 & _). split.
  - intros j t. cbn. rewrite lookup_insert_Some. intros [[<- <-]|[_ Ht]]; [|by apply (eo_node _ _ Hok)].
    destruct (mv_wf _ _ _ _ _ _ _ _ _ Hm). split_and!; [done|done|lia..].
  - intros Htm j t. cbn. rewrite lookup_insert_Some. intros [[<- <-]|[_ Ht]]; [by apply (mv_count _ _ _ _ _ _ _ _ _ Hm)|].
    destruct (eo_count _ _ Hok Htm _ _ Ht) as [H1 H2]. split; [done|]. etransitivity; [exact H2|by apply tally_mono].
  - exact moves_request.
  - exact moves_vote.
  - exact moves_once.
  - apply (mv_votes _ _ _ _ _ _ _ _ _ Hm).
  - intros Htm c e n Hc. destruct (mv_wins _ _ _ _ _ _ _ _ _ Hm Htm c e n Hc) as [Hc'|?]; [|done].
    etransitivity; [by apply (eo_wins _ _ Hok)|]. by apply tally_mono.
Qed.
End moves.

(** ** Every step keeps the invariant *)

Lemma posted_idle i s s' es : idle s s' es -> posted i es = [].
Proof. intros [_ H]. unfold posted. by rewrite H. Qed.

Lemma idle_forward s s' : votes s' = votes s -> cs_lastVoteEpoch s <= cs_currentEpoch s -> cs_failover_auth_epoch s <= cs_currentEpoch s ->
  cs_currentEpoch s <= cs_currentEpoch s' -> forward s s'.
Proof. intros (V1 & V2 & V3 & V4)%votes_eq. unfold forward. rewrite V1, V2. lia. Qed.

Lemma is_vote_eq pk : is_vote pk = true <-> m_type (pk_msg pk) = CLUSTERMSG_TYPE_FAILOVER_AUTH_ACK.
Proof. unfold is_vote. by rewrite Z.eqb_eq. Qed.

Lemma tally_cons pk l c e : tally (pk :: l) c e = tally l c e + (if decide (pk_dst pk = c /\ pk_epoch pk = e) then 1 else 0).
Proof.
  unfold tally, votes_for. rewrite filter_cons. destruct (decide _); rewrite ?length_cons; lia.
Qed.

Section deliver.
Context (timely : bool) (nw : network) (sv : redisServer) (l : clusterLink) (pk : packet) (l1 l2 : list packet) (s s' : clusterState) (b : bool) (es : list effect).
Context (Hok : election_ok timely nw) (Hfl : nw_flight nw = l1 ++ pk :: l2) (Hs : nw_nodes nw !! pk_dst pk = Some s) (Hn : names_ok (pk_msg pk) s).
Context (Htime : timely = true -> is_vote pk = true -> cs_failover_auth_sent s <> 0) (Hrun : clusterProcessPacket sv l (pk_msg pk) s = Some (b, s', es)).
Context (Hmono : cs_currentEpoch s <= cs_currentEpoch s').

Let done := if is_vote pk then pk :: nw_votes nw else nw_votes nw.

Lemma deliver_sends : forward s s' /\ sends (nw_nodes nw) (pk_dst pk) s s' (posted (pk_dst pk) es) /\
  (timely = true -> (cs_failover_auth_sent s' = 0 -> cs_failover_auth_count s' = 0) /\
   cs_failover_auth_count s' <= tally done (pk_dst pk) (cs_failover_auth_epoch s')).
Proof.
  destruct (eo_node _ _ Hok _ _ Hs) as (Hw & _ & [H0 H1] & H2). pose proof (fun Htm => eo_count _ _ Hok Htm _ _ Hs) as C.
  assert (Hin : pk ∈ nw_flight nw) by (rewrite Hfl; set_solver).
  assert (Ht : tally (nw_votes nw) (pk_dst pk) (cs_failover_auth_epoch s) <= tally done (pk_dst pk) (cs_failover_auth_epoch s)).
  { apply tally_mono. subst done. destruct (is_vote pk); [by apply submseteq_cons|done]. }
  destruct (trace_result _ _ _ _ _ _ (clusterProcessPacket_trace sv s l (pk_msg pk) Hw) Hrun) as [Hid|Hty [G1 G2 G3 G4]|Hty Hb He V].
  - rewrite (posted_idle _ _ _ _ Hid). destruct Hid as [V _]. pose proof (votes_eq _ _ V) as (V1 & V2 & V3 & V4). rewrite V2, V3, V4.
    split_and!; [by apply idle_forward|by apply sends_requests|]. intros Htm. destruct (C Htm). split; [done|lia].
  - injection G3 as V1 V2 V3 V4. rewrite V2, V3, V4. destruct (eo_request _ _ Hok pk Hin) as (t & Hnt & Hle).
    { destruct (is_vote pk) eqn:E; [|done]. apply is_vote_eq in E. rewrite Hty in E. discriminate. }
    split_and!; [unfold forward; lia| |intros Htm; destruct (C Htm); split; [done|lia]]. unfold posted. destruct G4 as [->|(m & -> & Hm & Em)]; [by apply sends_requests|].
    cbn. apply sends_vote; [by apply is_vote_eq|done|unfold pk_epoch; cbn; lia|]. exists t. split; [done|]. unfold pk_epoch in *. cbn in *. lia.
  - apply is_vote_eq in Hty. injection V as V1 V2 V3 V4. rewrite V2, V3, V4. unfold posted. rewrite Hb.
    split_and!; [unfold forward; lia|by apply sends_requests|]. intros Htm. destruct (C Htm) as [C1 C2]. split; [intros; by apply (Htime Htm) in Hty|].
    destruct (eo_vote _ _ Hok pk) as (He0 & _ & (t & Hnt & Hle)).
    { apply list_elem_of_filter. split; [done|set_solver]. }
    assert (t = s) as -> by congruence. unfold pk_epoch in *. subst done. rewrite Hty, tally_cons, decide_True by (unfold pk_epoch; split; [done|lia]). lia.
Qed.

Lemma deliver_moves : moves timely nw (pk_dst pk) s s' (l1 ++ l2) (posted (pk_dst pk) es) done (nw_wins nw).
Proof.
  destruct deliver_sends as (D1 & D2 & D3). destruct (eo_node _ _ Hok _ _ Hs) as (Hw & Hname & _).
  assert (Hp : is_vote pk = true -> (l1 ++ l2) ++ done ≡ₚ nw_flight nw ++ nw_votes nw).
  { intros E. subst done. rewrite Hfl, E. solve_Permutation. }
  split; [done| |done|done| | | | |done|auto].
  - destruct (wp_result False _ _ _ _ _ _ (clusterProcessPacket_ok False sv s l (pk_msg pk) Hw Hn ltac:(done)) Hrun) as [Hw' [_ Em]].
    split; [done|]. unfold my_name. by rewrite Em.
  - rewrite Hfl. set_solver.
  - destruct (is_vote pk) eqn:E; [by rewrite Hp|]. subst done. rewrite Hfl. apply submseteq_app; [|done].
    apply submseteq_app; [done|]. by apply submseteq_cons.
  - subst done. destruct (is_vote pk); [by apply submseteq_cons|done].
  - pose proof (eo_votes _ _ Hok). subst done. destruct (is_vote pk) eqn:E; [by constructor|done].
Qed.
End deliver.

Lemma handle_calm sv ci e s : local_event e s -> calm (mkKeep false false) (handle sv ci e).
Proof.
  pose proof (process_header_calm sv). pose proof (process_ping_calm sv). pose proof (process_config_calm sv).
  pose proof (process_other_calm sv). pose proof (clusterCommand_calm sv ci). pose proof (verifyClusterConfigWithData_calm sv ci).
  destruct e as [l hdr|u argv|l p| | |]; cbn [handle local_event]; intros He; [destruct He as [He1 He2]..| |done|done].
  - unfold clusterProcessPacket. calm_auto.
  - calm_auto.
  - apply clusterLinkConnectHandler_calm.
  - calm_auto.
Qed.

Lemma handle_local_ok sv ci e s : wf s -> local_event e s -> wp False (handle sv ci e) (fun _ s' => wf s' /\ me_same s s') s.
Proof.
  intros Hw He. destruct e as [l hdr|u argv|l p| | |]; cbn [handle local_event] in *; [destruct He as [He1 He2]..| |done|done].
  - apply wp_void. by apply clusterProcessPacket_ok.
  - apply wp_void. eapply wp_mono; [by apply clusterCommand_ok|]. intros ? s' (? & ? & ?). auto.
  - apply (wp_me_same sim); [done|]. by apply clusterLinkConnectHandler_ok.
  - apply wp_void. apply (wp_me_same same); [done|]. by apply verifyClusterConfigWithData_ok.
Qed.

(** A step of a node on its own. *)
Lemma own_moves timely nw i s s' es wins : election_ok timely nw -> nw_nodes nw !! i = Some s -> wf s' -> me_same s s' -> forward s s' ->
  sends (nw_nodes nw) i s s' (posted i es) -> (timely = true -> (cs_failover_auth_sent s' = 0 -> cs_failover_auth_count s' = 0) /\
    cs_failover_auth_count s' <= tally (nw_votes nw) i (cs_failover_auth_epoch s')) ->
  (timely = true -> forall c e n, (c, e, n) ∈ wins -> (c, e, n) ∈ nw_wins nw \/ Z.quot n 2 + 1 <= tally (nw_votes nw) c e) ->
  moves timely nw i s s' (nw_flight nw) (posted i es) (nw_votes nw) wins.
Proof.
  intros Hok Hi Hw [_ Em] Hf Hs Hc Hwins. destruct (eo_node _ _ Hok _ _ Hi) as (_ & En & _). unfold my_name in *.
  split; [done|split; [done|by unfold my_name; rewrite Em]|done|done|done|done|done|apply (eo_votes _ _ Hok)|done|done].
Qed.

Lemma idle_moves timely nw i s s' es wins : election_ok timely nw -> nw_nodes nw !! i = Some s -> wf s' -> me_same s s' -> idle s s' es ->
  cs_currentEpoch s <= cs_currentEpoch s' ->
  (timely = true -> forall c e n, (c, e, n) ∈ wins -> (c, e, n) ∈ nw_wins nw \/ Z.quot n 2 + 1 <= tally (nw_votes nw) c e) ->
  moves timely nw i s s' (nw_flight nw) (posted i es) (nw_votes nw) wins.
Proof.
  intros Hok Hi Hw Hme Hid Hm Hwins. destruct (eo_node _ _ Hok _ _ Hi) as (_ & _ & [_ H1] & H2). pose proof (fun Htm => eo_count _ _ Hok Htm _ _ Hi) as C.
  rewrite (posted_idle i _ _ _ Hid). destruct Hid as [V _]. pose proof (votes_eq _ _ V) as (V1 & V2 & V3 & V4).
  apply (own_moves timely nw i s s' []); [done|done|done|done|by apply idle_forward|by apply sends_requests|by rewrite V2, V3, V4|done].
Qed.

Lemma campaign_moves timely nw i s s' won es : election_ok timely nw -> nw_nodes nw !! i = Some s -> wf s' -> me_same s s' -> campaign s s' won es ->
  cs_currentEpoch s <= cs_currentEpoch s' ->
  moves timely nw i s s' (nw_flight nw) (posted i es) (nw_votes nw)
    (if won then (i, cs_failover_auth_epoch s, cs_size s) :: nw_wins nw else nw_wins nw).
Proof.
  intros Hok Hi Hw Hme Hc Hm. destruct (eo_node _ _ Hok _ _ Hi) as (_ & En & [_ H1] & H2). pose proof (fun Htm => eo_count _ _ Hok Htm _ _ Hi) as C.
  destruct Hc as [won es Hid Hwon|es Hb V|es Hs V Hr].
  - apply idle_moves; [done..|]. intros Htm. destruct (C Htm). destruct won; [|by left]. intros c e n [[= -> -> ->]|?]%elem_of_cons; [|by left].
    right. destruct (Hwon eq_refl). lia.
  - injection V as V1 V2 V3 V4. apply own_moves; [done..|unfold forward; lia| | |by left].
    + unfold posted. rewrite Hb. by apply sends_requests.
    + intros _. rewrite V4. unfold tally. split; [done|lia].
  - injection V as V1 V2 V3 V4. apply own_moves; [done..|unfold forward; lia| | |by left].
    + apply sends_requests. unfold posted. apply Forall_fmap. eapply Forall_impl; [exact Hr|]. intros b (E1 & E2 & E3).
      unfold is_vote, pk_epoch. cbn. rewrite E1, E2, V2. rewrite En in E3. by injection E3 as ->.
    + intros Htm. destruct (C Htm) as [C1 _]. rewrite V4, C1 by done. unfold tally. split; [done|lia].
Qed.

Lemma lose_ok timely nw pk l1 l2 : election_ok timely nw -> nw_flight nw = l1 ++ pk :: l2 ->
  election_ok timely (mkNetwork (nw_nodes nw) (l1 ++ l2) (nw_votes nw) (nw_wins nw) (pk :: nw_lost nw)).
Proof.
  intros Hok Hfl. destruct nw as [nodes flight votes wins lost]. cbn in *. subst flight. destruct Hok as [K1 K2 K3 K4 K5 K6 K7]. cbn in *.
  assert (Hp : cast_votes (mkNetwork nodes (l1 ++ l2) votes wins (pk :: lost)) ≡ₚ cast_votes (mkNetwork nodes (l1 ++ pk :: l2) votes wins lost)).
  { apply filter_Permutation. cbn. solve_Permutation. }
  split; cbn; [done|done| | | |done|done].
  - intros p Hp'. apply K3. set_solver.
  - intros p. rewrite Hp. apply K4.
  - rewrite Hp. apply K5.
Qed.

Lemma step_ok timely nw nw' : election_ok timely nw -> step timely nw nw' -> election_ok timely nw'.
Proof.
  intros Hok Hst. destruct Hst as [sv l pk l1 l2 s b s' es Hfl Hs Hn Ht Hr Hm|pk l1 l2 Hfl|sv ci e i s s' es Hi He Hr Hm|sv ci i s won s' es Hi Hr Hm].
  - eapply moves_ok; [done|]. eapply deliver_moves; eauto.
  - by eapply lose_ok.
  - destruct (eo_node _ _ Hok _ _ Hi) as (Hw & _). destruct (wp_result False _ _ _ _ _ _ (handle_local_ok sv ci e s Hw He) Hr) as [Hw' Hme].
    eapply moves_ok; [done|]. apply (idle_moves timely nw i s s' es); [done..| |done|by left].
    exact (trace_result _ _ _ _ _ _ (calm_idle _ _ s (handle_calm sv ci e s He)) Hr).
  - destruct (eo_node _ _ Hok _ _ Hi) as (Hw & _). assert (H : wf s' /\ me_same s s' /\ campaign s s' won es).
    { destruct Hr as [Hr|Hr].
      - destruct (wp_result False _ _ _ _ _ _ (clusterCron_ok False sv ci s Hw ltac:(done)) Hr). split_and!; [done|done|].
        exact (trace_result _ _ _ _ _ _ (clusterCron_trace sv ci s Hw) Hr).
      - pose proof (wp_result False _ _ _ _ _ _ (clusterBeforeSleep_ok False sv s Hw) Hr) as Hi'. cbn in Hi'.
        split_and!; [exact (inv_wf _ _ _ Hi')|exact (inv_me_same same _ _ Hw Hi')|].
        exact (trace_result _ _ _ _ _ _ (clusterBeforeSleep_trace sv s Hw) Hr). }
    destruct H as (Hw' & Hme & Hc). eapply moves_ok; [done|]. by apply campaign_moves.
Qed.

Lemma running_ok timely nw : running timely nw -> election_ok timely nw.
Proof.
  induction 1 as [nw [Ef Ev Ew El Hn]|nw nw' _ IH Hst]; [|by eapply step_ok].
  split; unfold cast_votes; rewrite ?Ef, ?Ev, ?Ew, ?El; cbn.
  - intros i s Hi. destruct (Hn i s Hi) as (? & ? & ? & ? & ?). done.
  - intros _ i s Hi. destruct (Hn i s Hi) as (? & ? & -> & ? & ?). split; [done|]. unfold tally. lia.
  - set_solver.
  - set_solver.
  - constructor.
  - constructor.
  - set_solver.
Qed.

(** ** Votes and winners *)

(** Two replicas that won the elections of an epoch, when the voters are among at
    most as many masters as each of them knew. *)
Definition one_winner_per_epoch (nw : network) : Prop := forall c1 c2 e n1 n2 (masters : gset name),
  (c1, e, n1) ∈ nw_wins nw -> (c2, e, n2) ∈ nw_wins nw ->
  (forall pk, pk ∈ nw_votes nw -> pk_epoch pk = e -> pk_src pk ∈ masters) ->
  Z.of_nat (size masters) <= n1 -> Z.of_nat (size masters) <= n2 -> c1 = c2.

Lemma votes_known timely nw : running timely nw -> NoDup ((fun pk => (pk_src pk, pk_epoch pk)) <$> nw_votes nw).
Proof.
  intros Hok%running_ok. eapply NoDup_submseteq_l; [|apply (eo_once _ _ Hok)]. apply fmap_submseteq. unfold cast_votes.
  transitivity (filter (fun pk => is_vote pk = true) (nw_votes nw)).
  - induction (eo_votes _ _ Hok) as [|pk l Hv _ IH]; [done|]. rewrite filter_cons_True by done. by apply submseteq_skip.
  - rewrite !filter_app. etrans; [|apply submseteq_inserts_l; reflexivity]. by apply submseteq_inserts_r.
Qed.

(** In a list without two votes of a voter in an epoch, those for two replicas
    are of different voters. *)
Lemma voters_NoDup (l : list packet) c1 c2 (e : Z) : NoDup ((fun pk => (pk_src pk, pk_epoch pk)) <$> l) -> c1 <> c2 ->
  NoDup (pk_src <$> votes_for l c1 e ++ votes_for l c2 e).
Proof.
  intros Hl Hne. induction l as [|pk l IH]; [constructor|]. cbn [fmap list_fmap] in Hl. apply NoDup_cons in Hl as [Hpk Hl]. specialize (IH Hl).
  assert (Hnew : pk_epoch pk = e -> pk_src pk ∉ pk_src <$> votes_for l c1 e ++ votes_for l c2 e).
  { intros He (p & Ep & Hp)%list_elem_of_fmap. apply Hpk, list_elem_of_fmap. exists p.
    apply elem_of_app in Hp as [[[_ Hp] Hin]%list_elem_of_filter|[[_ Hp] Hin]%list_elem_of_filter]; split; congruence. }
  unfold votes_for in *. rewrite !filter_cons. destruct (decide (pk_dst pk = c1 /\ _)) as [[E1 E1']|N1].
  - rewrite decide_False by (intros [? _]; congruence). cbn. apply NoDup_cons. split; [by apply Hnew|done].
  - destruct (decide (pk_dst pk = c2 /\ _)) as [[E2 E2']|N2]; [|done].
    rewrite <- Permutation_middle. cbn. apply NoDup_cons. split; [by apply Hnew|done].
Qed.

Lemma voters_bound (l : list packet) (c1 c2 : name) (e : Z) (masters : gset name) : NoDup ((fun pk => (pk_src pk, pk_epoch pk)) <$> l) -> c1 <> c2 ->
  (forall pk, pk ∈ l -> pk_epoch pk = e -> pk_src pk ∈ masters) -> tally l c1 e + tally l c2 e <= Z.of_nat (size masters).
Proof.
  intros Hl Hne Hm. pose proof (voters_NoDup l c1 c2 e Hl Hne) as Hd.
  assert (Hsub : (pk_src <$> votes_for l c1 e ++ votes_for l c2 e) ⊆+ elements masters).
  { apply NoDup_submseteq; [done|]. intros x (p & -> & Hp)%list_elem_of_fmap. apply elem_of_elements.
    apply elem_of_app in Hp as [[[_ Hp] Hin]%list_elem_of_filter|[[_ Hp] Hin]%list_elem_of_filter]; by apply Hm. }
  apply submseteq_length in Hsub. rewrite length_fmap, length_app in Hsub. unfold tally, size, set_size. cbn. lia.
Qed.
