(* ===== verification/ClusterProgress.v ===== *)
(** The progress of an election: a replica that asked for votes wins once the
    votes of a majority can reach it. *)
From stdpp Require Import gmap.
From S2P Require Import Prelude Util Sds Replication Cluster ClusterCron ClusterCommand ClusterInv ClusterOps ClusterSlots ClusterRoles ClusterConfig ClusterRemove ClusterPackets ClusterCronInv ClusterStart ClusterCommandInv ClusterSafety ClusterCalm ClusterElection ClusterVote.

(** ** Runs that return *)

Definition runs {A} (m : cl A) (s : clusterState) (Q : A -> clusterState -> list effect -> Prop) : Prop :=
  match m s with Some (a, s', es) => Q a s' es | None => False end.

Lemma runs_result {A} (m : cl A) s Q : runs m s Q -> exists a s' es, m s = Some (a, s', es) /\ Q a s' es.
Proof. unfold runs. destruct (m s) as [[[a s'] es]|]; [eauto|done]. Qed.

Lemma runs_bind {A B} (m : cl A) (f : A -> cl B) s Q :
  runs m s (fun a s1 es1 => runs (f a) s1 (fun b s2 es2 => Q b s2 (es1 ++ es2))) -> runs (m ≫= f) s Q.
Proof. unfold runs, mbind, cl_bind. destruct (m s) as [[[a s1] e1]|]; [|done]. by destruct (f a s1) as [[[b s2] e2]|]. Qed.

Lemma runs_mono {A} (m : cl A) s (Q Q' : A -> clusterState -> list effect -> Prop) :
  runs m s Q -> (forall a s' es, Q a s' es -> Q' a s' es) -> runs m s Q'.
Proof. unfold runs. destruct (m s) as [[[a s1] e1]|]; auto. Qed.

Lemma runs_ret {A} (a : A) s (Q : A -> clusterState -> list effect -> Prop) : Q a s [] -> runs (mret a) s Q.
Proof. done. Qed.
Lemma runs_getS s (Q : clusterState -> clusterState -> list effect -> Prop) : Q s s [] -> runs getS s Q.
Proof. done. Qed.
Lemma runs_modify f s (Q : unit -> clusterState -> list effect -> Prop) : Q tt (f s) [] -> runs (modify f) s Q.
Proof. done. Qed.
Lemma runs_deref p n s (Q : clusterNode -> clusterState -> list effect -> Prop) : cs_heap s !! p = Some n -> Q n s [] -> runs (deref p) s Q.
Proof. unfold runs, deref. by intros ->. Qed.
Lemma runs_update p f n s (Q : unit -> clusterState -> list effect -> Prop) : cs_heap s !! p = Some n ->
  Q tt (s <| cs_heap := <[p := f n]> (cs_heap s) |>) [] -> runs (update p f) s Q.
Proof. unfold runs, update. by intros ->. Qed.

Lemma runs_deref_any p s (Q : clusterNode -> clusterState -> list effect -> Prop) : is_Some (cs_heap s !! p) ->
  (forall n, Q n s []) -> runs (deref p) s Q.
Proof. intros [n Hn] H. by eapply runs_deref. Qed.

(** A computation that is known to return, and to be calm. *)
Lemma runs_wp {A} (m : cl A) s P Q : wp True m P s -> trace m s Q -> runs m s (fun a s' es => P a s' /\ Q a s' es).
Proof. unfold wp, trace, runs. destruct (m s) as [[[a s'] es]|]; [auto|tauto]. Qed.

Lemma runs_and {A} (m : cl A) s P Q : wp True m P s -> runs m s Q -> runs m s (fun a s' es => P a s' /\ Q a s' es).
Proof. unfold wp, runs. destruct (m s) as [[[a s'] es]|]; auto. Qed.

Lemma state_ext s s' : cs_myself s = cs_myself s' -> cs_currentEpoch s = cs_currentEpoch s' -> cs_state s = cs_state s' ->
  cs_size s = cs_size s' -> cs_nodes s = cs_nodes s' -> cs_nodes_black_list s = cs_nodes_black_list s' ->
  cs_migrating_slots_to s = cs_migrating_slots_to s' -> cs_importing_slots_from s = cs_importing_slots_from s' ->
  cs_slots s = cs_slots s' -> cs_failover_auth_time s = cs_failover_auth_time s' -> cs_failover_auth_count s = cs_failover_auth_count s' ->
  cs_failover_auth_sent s = cs_failover_auth_sent s' -> cs_failover_auth_rank s = cs_failover_auth_rank s' ->
  cs_failover_auth_epoch s = cs_failover_auth_epoch s' -> cs_cant_failover_reason s = cs_cant_failover_reason s' ->
  cs_mf_end s = cs_mf_end s' -> cs_mf_slave s = cs_mf_slave s' -> cs_mf_master_offset s = cs_mf_master_offset s' ->
  cs_mf_can_start s = cs_mf_can_start s' -> cs_lastVoteEpoch s = cs_lastVoteEpoch s' -> cs_todo_before_sleep s = cs_todo_before_sleep s' ->
  cs_among_minority_time s = cs_among_minority_time s' -> cs_first_call_time s = cs_first_call_time s' -> cs_lastlog_time s = cs_lastlog_time s' ->
  cs_heap s = cs_heap s' -> cs_next s = cs_next s' -> s = s'.
Proof. destruct s, s'; cbn. intros. subst. reflexivity. Qed.

Lemma insert_thrice {A} (h : gmap ptr A) p x y z : <[p := x]> (<[p := y]> (<[p := z]> h)) = <[p := x]> h.
Proof. by rewrite !insert_insert_eq. Qed.

Section server.
Context (sv : redisServer).

(** ** The header of a packet *)

(** What it changes in its sender and in the state. *)
Definition heard_node (hdr : clusterMsg) (n : clusterNode) : clusterNode :=
  n <| cn_data_received := sv_mstime sv |>
    <| cn_configEpoch := if m_configEpoch hdr >? cn_configEpoch n then m_configEpoch hdr else cn_configEpoch n |>
    <| cn_repl_offset := m_offset hdr |> <| cn_repl_offset_time := sv_mstime sv |>.

Definition heard (hdr : clusterMsg) (p : ptr) (n : clusterNode) (mo todo : Z) (s : clusterState) : clusterState :=
  s <| cs_heap := <[p := heard_node hdr n]> (cs_heap s) |>
    <| cs_currentEpoch := if m_currentEpoch hdr >? cs_currentEpoch s then m_currentEpoch hdr else cs_currentEpoch s |>
    <| cs_mf_master_offset := mo |> <| cs_todo_before_sleep := todo |>.

Lemma process_header_runs s p n hdr : wf s -> cs_heap s !! p = Some n -> nodeInHandshake n = false ->
  runs (process_header sv p hdr) s (fun _ s' es => es = [] /\ exists mo todo, s' = heard hdr p n mo todo s).
Proof.
  intros Hw Hn Hh. destruct (wf_me s Hw) as (me & Hme & _). unfold process_header.
  apply runs_bind, (runs_update p _ n); [done|]. set (n1 := n <| cn_data_received := _ |>). set (s1 := s <| cs_heap := _ |>).
  apply runs_bind, (runs_deref p n1); [apply lookup_insert_eq|]. change (nodeInHandshake n1) with (nodeInHandshake n). rewrite Hh. cbn [negb when].
  apply runs_bind, runs_modify. unfold heard, heard_node. change (cs_currentEpoch s1) with (cs_currentEpoch s).
  destruct (m_currentEpoch hdr >? cs_currentEpoch s);
    (apply runs_bind, (runs_deref p n1); [apply lookup_insert_eq|]); change (cn_configEpoch n1) with (cn_configEpoch n);
    (destruct (m_configEpoch hdr >? cn_configEpoch n); cbn [when]; [apply runs_bind, runs_bind, (runs_update p _ n1), runs_modify; [apply lookup_insert_eq|]|apply runs_bind, runs_ret]).
  all: apply runs_bind.
  all: eapply runs_update; [apply lookup_insert_eq|].
  all: apply runs_bind, runs_getS, runs_bind, runs_deref_any; [cbn; rewrite ?lookup_insert_is_Some'; eauto 10|intros me'].
  all: match goal with |- runs (when ?b _) _ _ => destruct b end; cbn [when]; [apply runs_bind, runs_modify, runs_modify|apply runs_ret].
  all: split; [reflexivity|]; eexists _, _; apply state_ext; try reflexivity.
  all: cbn [cs_heap]; first [exact (insert_thrice _ _ _ _ _)|exact (insert_insert_eq _ _ _ _)].
Qed.

(** The other fields of the nodes stay. *)
Lemma heard_lookup hdr p n mo todo s k m : cs_heap s !! p = Some n -> cs_heap s !! k = Some m ->
  cs_heap (heard hdr p n mo todo s) !! k = Some (if decide (p = k) then heard_node hdr m else m).
Proof.
  intros Hn Hm. change (<[p := heard_node hdr n]> (cs_heap s) !! k = Some (if decide (p = k) then heard_node hdr m else m)).
  destruct (decide (p = k)) as [<-|Hne]; [|by rewrite lookup_insert_ne]. rewrite lookup_insert_eq. congruence.
Qed.

Definition alike (n n' : clusterNode) : Prop :=
  cn_flags n' = cn_flags n /\ cn_numslots n' = cn_numslots n /\ cn_slaveof n' = cn_slaveof n /\ cn_link n' = cn_link n /\
  cn_voted_time n' = cn_voted_time n /\ cn_name n' = cn_name n.

Lemma heard_alike hdr p n mo todo s k x : cs_heap s !! p = Some n -> cs_heap s !! k = Some x ->
  exists x', cs_heap (heard hdr p n mo todo s) !! k = Some x' /\ alike x x' /\
    (cn_configEpoch x <= m_configEpoch hdr -> cn_configEpoch x' <= m_configEpoch hdr).
Proof.
  intros Hn Hx. rewrite (heard_lookup _ _ _ _ _ _ _ _ Hn Hx). eexists. split; [done|]. destruct (decide (p = k)); [|done].
  split; [done|]. unfold heard_node. cbn. destruct (_ >? _); lia.
Qed.

(** A ballot: the header, then the vote. *)
Lemma ballot_runs s l hdr p n (Q : clusterState -> list effect -> Prop) : wf s -> cs_nodes s !! m_sender hdr = Some p ->
  cs_heap s !! p = Some n -> nodeInHandshake n = false -> ballot hdr = true ->
  (forall mo todo, wf (heard hdr p n mo todo s) ->
    if m_type hdr =? CLUSTERMSG_TYPE_FAILOVER_AUTH_REQUEST
    then runs (clusterSendFailoverAuthIfNeeded sv p hdr) (heard hdr p n mo todo s) (fun _ s' es => Q s' es)
    else runs (process_auth_ack p (m_currentEpoch hdr)) (heard hdr p n mo todo s) (fun _ s' es => Q s' es)) ->
  runs (clusterProcessPacket sv l hdr) s (fun _ s' es => Q s' es).
Proof.
  intros Hw Hp Hn Hh Hb H. unfold clusterProcessPacket, clusterLookupNode. apply runs_bind, runs_bind, runs_getS, runs_ret, runs_bind.
  rewrite Hp. apply runs_bind. eapply runs_mono.
  { apply runs_and; [apply (process_header_ok True sv s p hdr Hw); by eexists|by apply process_header_runs]. }
  intros ? s1 es1 (Hi & -> & mo & todo & ->). specialize (H mo todo (inv_wf _ _ _ Hi)).
  apply runs_bind, (runs_deref p (heard_node hdr n)).
  { rewrite (heard_lookup _ _ _ _ _ _ p n) by done. by rewrite decide_True. }
  change (nodeInHandshake (heard_node hdr n)) with (nodeInHandshake n). rewrite Hh. apply runs_ret. cbn [app fst snd].
  unfold ballot in Hb. apply orb_true_iff in Hb as [Hb%Z.eqb_eq|Hb%Z.eqb_eq]; rewrite Hb in *; cbn in H; cbn [Z.eqb orb when];
    apply runs_bind, runs_ret, runs_bind; unfold process_other; rewrite Hb; (eapply runs_mono; [exact H|]);
    intros ? s' es HQ; apply runs_ret; cbn; by rewrite app_nil_r.
Qed.

(** ** A vote is given *)

(** The node gives its vote: it serves slots, did not vote in the epoch, knows the
    replica and its master, which failed or agrees, did not vote about that
    master for a while, and knows no newer owner of the slots. *)
Record would_vote (hdr : clusterMsg) (s : clusterState) : Prop := {
  wv_names : names_ok hdr s;
  wv_me : exists me, cs_heap s !! cs_myself s = Some me /\ nodeIsMaster me = true /\ nodeIsSlave me = false /\ cn_numslots me <> 0;
  wv_epoch : cs_currentEpoch s <= m_currentEpoch hdr /\ cs_lastVoteEpoch s <> m_currentEpoch hdr;
  wv_sender : exists p n q m, cs_nodes s !! m_sender hdr = Some p /\ cs_heap s !! p = Some n /\ nodeInHandshake n = false /\
    nodeIsMaster n = false /\ linked n = true /\ cn_slaveof n = Some q /\ cs_heap s !! q = Some m /\
    (nodeFailed m = true \/ Z.land (m_mflags0 hdr) CLUSTERMSG_FLAG0_FORCEACK <> 0) /\
    sv_node_timeout sv * 2 <= sv_mstime sv - cn_voted_time m;
  wv_slots : forall j p n, Z.testbit (m_myslots hdr) j = true -> cs_slots s !! j = Some p -> cs_heap s !! p = Some n ->
    cn_configEpoch n <= m_configEpoch hdr
}.

Lemma claims_older_slot_runs l slots epoch s : wf s ->
  (forall j p n, Z.testbit slots j = true -> cs_slots s !! j = Some p -> cs_heap s !! p = Some n -> cn_configEpoch n <= epoch) ->
  runs (claims_older_slot l slots epoch) s (fun older s' es => older = false /\ s' = s /\ es = []).
Proof.
  intros Hw H. induction l as [|j l IH]; cbn [claims_older_slot]; [by apply runs_ret|]. unfold bitmapTestBit.
  destruct (Z.testbit slots j) eqn:Eb; cbn [negb]; [|done]. apply runs_bind, runs_getS. destruct (cs_slots s !! j) as [p|] eqn:Es; [|done].
  destruct (proj1 (wf_slots s Hw j p) Es) as (_ & n & Hn & _). apply runs_bind, (runs_deref p n); [done|].
  rewrite (proj2 (Z.leb_le _ _)) by eauto. done.
Qed.

(** The vote, on its link. *)
Definition vote_for (hdr : clusterMsg) (s : clusterState) (es : list effect) : Prop :=
  exists m, ballots es = [(m_sender hdr, m)] /\ m_type m = CLUSTERMSG_TYPE_FAILOVER_AUTH_ACK /\ m_currentEpoch m = m_currentEpoch hdr /\
    Some (m_sender m) = my_name s /\ m_slaveof m = CLUSTER_NODE_NULL_NAME /\ m_data m = DataNone.

Lemma clusterSendFailoverAuth_runs s nm p n me : wf s -> cs_nodes s !! nm = Some p -> cs_heap s !! p = Some n -> linked n = true ->
  cs_heap s !! cs_myself s = Some me -> cn_slaveof me = None ->
  runs (clusterSendFailoverAuth sv p) s (fun _ s' es => s' = s /\ exists m, es = [SendMessage nm m] /\
    header CLUSTERMSG_TYPE_FAILOVER_AUTH_ACK s m /\ m_slaveof m = CLUSTER_NODE_NULL_NAME).
Proof.
  intros Hw Hp Hn Hl Hme Hso. apply (wf_dict s Hw) in Hp as (n' & Hn' & <-). assert (n' = n) as -> by congruence.
  unfold clusterSendFailoverAuth. apply runs_bind, (runs_deref p n); [done|]. rewrite Hl. cbn [when]. apply runs_bind.
  eapply runs_mono; [exact (runs_wp _ _ _ _ (clusterBuildMessageHdr_ok True sv s _ Hw) (clusterBuildMessageHdr_trace sv _ s))|].
  intros m ? ? (_ & -> & -> & Hh). unfold clusterSendMessage. apply runs_bind, (runs_deref p n); [done|].
  split; [done|]. exists m. split; [done|]. split; [done|]. by apply (proj2 (proj2 (proj2 (proj2 Hh))) me).
Qed.

Lemma vote_runs s l hdr : wf s -> m_type hdr = CLUSTERMSG_TYPE_FAILOVER_AUTH_REQUEST -> would_vote hdr s ->
  runs (clusterProcessPacket sv l hdr) s (fun _ s' es => cs_currentEpoch s <= cs_currentEpoch s' /\ vote_for hdr s es).
Proof.
  intros Hw Ht [_ (me & Hme & Hm & Hsl & Hnum) [He1 He2] (p & n & q & m & Hp & Hn & Hh & Hnm & Hlk & Hso & Hq & Hfail & Hvt) Hslots].
  apply (ballot_runs s l hdr p n); [done..|by unfold ballot; rewrite Ht|]. intros mo todo Hw1. rewrite Ht. cbn [Z.eqb Pos.eqb].
  set (s1 := heard hdr p n mo todo s) in *.
  destruct (heard_alike hdr p n mo todo s _ _ Hn Hme) as (me1 & Hme1 & (A1 & A2 & A3 & _ & _ & A6) & _).
  destruct (heard_alike hdr p n mo todo s _ _ Hn Hn) as (n1 & Hn1 & (B1 & _ & B3 & B4 & _) & _).
  destruct (heard_alike hdr p n mo todo s _ _ Hn Hq) as (m1 & Hm1 & (D1 & _ & _ & _ & D5 & _) & _).
  fold s1 in Hme1, Hn1, Hm1. change (cs_myself s) with (cs_myself s1) in Hme1.
  assert (Ec : cs_currentEpoch s1 = m_currentEpoch hdr).
  { change ((if m_currentEpoch hdr >? cs_currentEpoch s then m_currentEpoch hdr else cs_currentEpoch s) = m_currentEpoch hdr).
    destruct (Z.gtb_spec (m_currentEpoch hdr) (cs_currentEpoch s)); lia. }
  unfold clusterSendFailoverAuthIfNeeded. apply runs_bind, runs_getS, runs_bind, (runs_deref p n1), runs_bind, (runs_deref _ me1); [done..|].
  unfold nodeIsSlave, nodeIsMaster, has in *. rewrite A1, A2, B1, B3, Hsl, Hnm, Hso, Ec. cbn [orb].
  rewrite (proj2 (Z.eqb_neq _ _)) by done. rewrite Z.ltb_irrefl. change (cs_lastVoteEpoch s1) with (cs_lastVoteEpoch s).
  rewrite (proj2 (Z.eqb_neq (cs_lastVoteEpoch s) _)) by done. apply runs_bind, (runs_deref q m1); [done|].
  unfold nodeFailed, has in *. rewrite D1, D5. destruct (_ && _) eqn:Ef; [|clear Ef].
  { destruct Hfail as [Hf|Hf]; [rewrite Hf in Ef|rewrite (proj2 (Z.eqb_neq _ _) Hf) in Ef; rewrite andb_comm in Ef]; discriminate. }
  rewrite (proj2 (Z.ltb_ge _ _)) by lia. apply runs_bind. eapply runs_mono.
  { apply (claims_older_slot_runs slot_range (m_myslots hdr) (m_configEpoch hdr) s1 Hw1). intros j k x' Hj Hk Hx'. change (cs_slots s1) with (cs_slots s) in Hk.
    destruct (proj1 (wf_slots s Hw j k) Hk) as (_ & x & Hx & _).
    destruct (heard_alike hdr p n mo todo s k x Hn Hx) as (x'' & Hx'' & _ & Hle). fold s1 in Hx''. assert (x'' = x') as -> by congruence. eauto. }
  intros older ? ? (-> & -> & ->). apply runs_bind, runs_modify, runs_bind, (runs_update q _ m1), runs_bind, runs_modify; [done|].
  match goal with |- runs _ ?x _ => set (s2 := x) end.
  assert (Hs2 : sim s1 s2).
  { transitivity (s1 <| cs_lastVoteEpoch := cs_currentEpoch s1 |>); [by split|].
    etransitivity; [apply (sim_update _ q m1 (m1 <| cn_voted_time := sv_mstime sv |>)); [exact Hm1|done]|]. by split. }
  assert (Hw2 : wf s2) by (apply (wf_sim s1); done).
  assert (L2 : forall k x, cs_heap s1 !! k = Some x -> exists x', cs_heap s2 !! k = Some x' /\ cn_link x' = cn_link x /\ cn_slaveof x' = cn_slaveof x /\ cn_name x' = cn_name x).
  { intros k x Hx. change (cs_heap s2) with (<[q := m1 <| cn_voted_time := sv_mstime sv |>]> (cs_heap s1)). destruct (decide (q = k)) as [<-|Hne].
    - rewrite lookup_insert_eq. assert (x = m1) as -> by congruence. by eexists.
    - rewrite lookup_insert_ne by done. eauto. }
  destruct (L2 _ _ Hn1) as (n2 & Hn2 & El2 & _). destruct (L2 _ _ Hme1) as (me2 & Hme2 & _ & Eso2 & Enm2). change (cs_myself s1) with (cs_myself s2) in Hme2.
  eapply runs_mono; [apply (clusterSendFailoverAuth_runs s2 (m_sender hdr) p n2 me2)|].
  - done.
  - exact Hp.
  - done.
  - unfold linked in *. by rewrite El2, B4.
  - done.
  - rewrite Eso2, A3. destruct (wf_me s Hw) as (me' & Hme' & _ & [[_ ?]|[? _]]); [congruence|]. unfold nodeIsMaster, has in *. congruence.
  - intros ? ? es (-> & v & -> & (V1 & V2 & V3 & V4 & _) & V5). split; [change (cs_currentEpoch s <= cs_currentEpoch s1); lia|].
    exists v. split_and!; [|done|by rewrite V2|rewrite V3|done|done].
    + unfold ballots, omap. cbn. unfold ballot. by rewrite V1.
    + rewrite Hme2. cbn. rewrite Enm2, A6. unfold my_name. by rewrite Hme.
Qed.

(** ** A vote is counted *)

Definition auth_timeout : Z := if sv_node_timeout sv * 2 <? 2000 then 2000 else sv_node_timeout sv * 2.

(** The replica asked for votes, in time, and may still fail over. *)
Record asked (s : clusterState) : Prop := {
  as_wf : wf s;
  as_sent : cs_failover_auth_sent s <> 0;
  as_time : 0 <= sv_mstime sv - cs_failover_auth_time s <= auth_timeout;
  as_failover : exists me q m, cs_heap s !! cs_myself s = Some me /\ nodeIsMaster me = false /\ nodeIsSlave me = true /\
    cn_slaveof me = Some q /\ cs_heap s !! q = Some m /\ cn_numslots m <> 0 /\
    (negb (cs_mf_end s =? 0) && cs_mf_can_start s = true \/
     nodeFailed m = true /\ sv_slave_no_failover sv = false /\ data_too_old sv = false)
}.

(** A voter that the replica knows. *)
Definition knows_voter (s : clusterState) (v : name) : Prop :=
  exists p n, cs_nodes s !! v = Some p /\ cs_heap s !! p = Some n /\ nodeInHandshake n = false /\ nodeIsMaster n = true /\ 0 < cn_numslots n.

(** What a vote leaves as it was. *)
Record alike_state (s s' : clusterState) : Prop := {
  al_voters : forall v, knows_voter s v -> knows_voter s' v;
  al_null : settled s CLUSTER_NODE_NULL_NAME -> settled s' CLUSTER_NODE_NULL_NAME;
  al_size : cs_size s' = cs_size s;
  al_epoch : cs_failover_auth_epoch s' = cs_failover_auth_epoch s
}.

Lemma heard_back hdr p n mo todo s k x' : cs_heap s !! p = Some n -> cs_heap (heard hdr p n mo todo s) !! k = Some x' ->
  exists x, cs_heap s !! k = Some x /\ alike x x'.
Proof.
  intros Hn. change (<[p := heard_node hdr n]> (cs_heap s) !! k = Some x' -> exists x, cs_heap s !! k = Some x /\ alike x x').
  rewrite lookup_insert_Some. intros [[<- <-]|[_ H]]; [by exists n|by exists x'].
Qed.

Lemma count_runs s l hdr p n : asked s -> m_type hdr = CLUSTERMSG_TYPE_FAILOVER_AUTH_ACK -> cs_failover_auth_epoch s <= m_currentEpoch hdr ->
  cs_nodes s !! m_sender hdr = Some p -> cs_heap s !! p = Some n -> nodeInHandshake n = false -> nodeIsMaster n = true -> 0 < cn_numslots n ->
  runs (clusterProcessPacket sv l hdr) s (fun _ s' es => cs_currentEpoch s <= cs_currentEpoch s' /\ ballots es = [] /\ asked s' /\ alike_state s s' /\
    cs_failover_auth_count s' = cs_failover_auth_count s + 1 /\ Z.testbit (cs_todo_before_sleep s') 0 = true).
Proof.
  intros [Hw Hs Htm (me & q & m & Hme & Hm1 & Hm2 & Hso & Hq & Hnum & Hok)] Ht He Hp Hn Hh Hnm Hns.
  apply (ballot_runs s l hdr p n); [done..|by unfold ballot; rewrite Ht, orb_true_r|]. intros mo todo Hw1. rewrite Ht. cbn [Z.eqb Pos.eqb].
  set (s1 := heard hdr p n mo todo s) in *.
  destruct (heard_alike hdr p n mo todo s _ _ Hn Hme) as (me1 & Hme1 & (A1 & A2 & A3 & _) & _).
  destruct (heard_alike hdr p n mo todo s _ _ Hn Hn) as (n1 & Hn1 & (B1 & B2 & _) & _).
  destruct (heard_alike hdr p n mo todo s _ _ Hn Hq) as (m1 & Hq1 & (D1 & D2 & _) & _). fold s1 in Hme1, Hn1, Hq1.
  unfold process_auth_ack. apply runs_bind, (runs_deref p n1), runs_bind, runs_getS; [done|].
  unfold nodeIsMaster, has in *. rewrite B1, B2, Hnm. change (cs_failover_auth_epoch s1) with (cs_failover_auth_epoch s).
  rewrite (proj2 (Z.gtb_lt _ _)) by lia. rewrite (proj2 (Z.geb_le _ _)) by lia. cbn [andb when]. apply runs_bind, runs_modify, runs_modify.
  match goal with |- _ <= cs_currentEpoch ?x /\ _ => set (s2 := x) end. cbn [app]. split_and!; [|done| | |done|].
  - change (cs_currentEpoch s <= if m_currentEpoch hdr >? cs_currentEpoch s then m_currentEpoch hdr else cs_currentEpoch s).
    destruct (Z.gtb_spec (m_currentEpoch hdr) (cs_currentEpoch s)); lia.
  - split; [apply (wf_sim s1); [by split|done]|exact Hs|exact Htm|]. exists me1, q, m1. unfold nodeIsMaster, nodeIsSlave, nodeFailed, has in *.
    rewrite A1, A3, D1, D2. split_and!; done.
  - split; [| |done|done].
    + intros v (k & x & Hk & Hx & X1 & X2 & X3). destruct (heard_alike hdr p n mo todo s _ _ Hn Hx) as (x' & Hx' & (Y1 & Y2 & _) & _).
      exists k, x'. unfold nodeInHandshake, nodeIsMaster, has in *. rewrite Y1, Y2. done.
    + intros H k x' Hk Hx'. destruct (heard_back hdr p n mo todo s k x' Hn Hx') as (x & Hx & Y1 & _).
      unfold nodeInHandshake, has. rewrite Y1. by apply (H k x).
  - change (Z.testbit (Z.lor (cs_todo_before_sleep s1) CLUSTER_TODO_HANDLE_FAILOVER) 0 = true). rewrite Z.lor_spec. apply orb_true_r.
Qed.

(** ** The election is won *)

Lemma asked_conditions s : asked s -> trace (failover_conditions sv (negb (cs_mf_end s =? 0) && cs_mf_can_start s)) s (fun go s' es => go = true /\ s' = s).
Proof.
  intros [_ _ _ (me & q & m & Hme & Hm1 & Hm2 & Hso & Hq & Hnum & Hok)]. unfold failover_conditions.
  apply trace_bind, trace_getS, trace_bind, trace_deref. intros me' Hme'. assert (me' = me) as -> by congruence. rewrite Hm1, Hso.
  apply trace_bind, trace_deref. intros m' Hm'. assert (m' = m) as -> by congruence. apply trace_ret. split; [|done].
  rewrite (proj2 (Z.eqb_neq _ _) Hnum). destruct Hok as [->|(-> & -> & _)]; [|done]. by rewrite !andb_false_r.
Qed.

Lemma asked_sim s s' : sim s s' -> cs_heap s' = cs_heap s -> votes s' = votes s -> cs_failover_auth_time s' = cs_failover_auth_time s ->
  cs_mf_end s' = cs_mf_end s -> (cs_mf_can_start s = true -> cs_mf_can_start s' = true) -> asked s -> asked s'.
Proof.
  intros Hsim Eh V Et Ee Ec [Hw Hs Htm (me & q & m & Hme & Hm1 & Hm2 & Hso & Hq & Hnum & Hok)].
  apply votes_eq in V as (_ & _ & V & _). split; [by eapply wf_sim|by rewrite V|by rewrite Et|].
  exists me, q, m. rewrite Eh, (sim_myself _ _ Hsim), Ee. split_and!; try done.
  destruct Hok as [[H1 H2]%andb_true_iff|]; [left|by right]. by rewrite H1, Ec.
Qed.

Definition won_same_epoch (s : clusterState) (won : bool) (s' : clusterState) : Prop := won = true /\ cs_currentEpoch s' = cs_currentEpoch s.

Lemma clusterHandleSlaveFailover_wins s : asked s -> Z.quot (cs_size s) 2 + 1 <= cs_failover_auth_count s ->
  trace (clusterHandleSlaveFailover sv) s (fun won s' _ => won_same_epoch s won s').
Proof.
  intros Ha Hc. unfold clusterHandleSlaveFailover. apply trace_bind, trace_getS, trace_bind, trace_modify.
  match goal with |- trace _ ?x _ => set (s1 := x) end.
  assert (Ha1 : asked s1) by (apply (asked_sim s); done). apply trace_bind.
  eapply trace_mono; [exact (asked_conditions s1 Ha1)|]. intros go ? es [-> ->]. cbn [negb].
  destruct Ha1 as [Hw Hs [Ht1 Ht2] (me & q & m & Hme & Hm1 & Hm2 & Hso & Hq & Hnum & Hok)].
  change (cs_failover_auth_time s1) with (cs_failover_auth_time s) in *. change (cs_failover_auth_sent s1) with (cs_failover_auth_sent s) in *.
  destruct (data_too_old sv && _) eqn:Eo.
  { destruct Hok as [Hok|(_ & _ & Hok)]; [|by rewrite Hok in Eo]. change (negb (cs_mf_end s =? 0) && cs_mf_can_start s = true) in Hok.
    rewrite Hok, andb_false_r in Eo. discriminate. }
  assert (Hto : auth_timeout = if sv_node_timeout sv * 2 <? 2000 then 2000 else sv_node_timeout sv * 2) by done. rewrite <- Hto.
  destruct (_ >? auth_timeout * 2) eqn:Er; [destruct (_ <? 2000) eqn:E2 in Hto; lia|]. clear Er.
  apply trace_bind. unfold update_rank. apply trace_bind, trace_getS. change (cs_failover_auth_sent s1) with (cs_failover_auth_sent s).
  rewrite (proj2 (Z.eqb_neq _ _) Hs). cbn [andb when]. apply trace_ret, trace_bind, trace_getS.
  change (cs_failover_auth_time s1) with (cs_failover_auth_time s). change (cs_failover_auth_count s1) with (cs_failover_auth_count s).
  change (cs_failover_auth_sent s1) with (cs_failover_auth_sent s).
  rewrite (proj2 (Z.ltb_ge _ _)) by lia. destruct (_ >? auth_timeout) eqn:E; [lia|]. rewrite (proj2 (Z.eqb_neq _ _) Hs), (proj2 (Z.geb_le _ _)) by done.
  apply (trace_calm (mkKeep false true)).
  { unfold win_election. pose proof (clusterFailoverReplaceYourMaster_calm sv true). calm_auto. }
  intros ? s3 es3 [_ K] _. apply trace_ret. split; [done|]. exact (f_equal snd K).
Qed.

Lemma won_trans s s1 won s' : cs_currentEpoch s1 = cs_currentEpoch s -> won_same_epoch s1 won s' -> won_same_epoch s won s'.
Proof. intros E [-> E']. split; congruence. Qed.

Lemma land_one_testbit x : Z.testbit x 0 = true -> (Z.land x 1 =? 0) = false.
Proof.
  intros H. apply Z.eqb_neq. intros E. apply (f_equal (fun y => Z.testbit y 0)) in E. rewrite Z.land_spec, H in E. discriminate.
Qed.

Lemma win_runs s : asked s -> Z.quot (cs_size s) 2 + 1 <= cs_failover_auth_count s -> Z.testbit (cs_todo_before_sleep s) 0 = true ->
  Z.land (sv_module_flags sv) CLUSTER_MODULE_FLAG_NO_FAILOVER = 0 ->
  runs (clusterBeforeSleep sv) s (fun won s' _ => won_same_epoch s won s').
Proof.
  intros Ha Hc Ht Hmod. eapply runs_mono; [refine (runs_wp _ _ _ (fun won s' _ => won_same_epoch s won s') (clusterBeforeSleep_ok True sv s (as_wf s Ha)) _)|by intros ? ? ? []].
  unfold clusterBeforeSleep. apply trace_bind, trace_getS, trace_bind, trace_modify, trace_bind, trace_deref. intros me Hme.
  match goal with |- trace _ ?x _ => set (s1 := x) in * end. assert (Ha1 : asked s1) by (by apply (asked_sim s)).
  apply trace_bind. apply (trace_mono _ _ (fun won s' _ => won_same_epoch s1 won s')).
  - change CLUSTER_TODO_HANDLE_FAILOVER with 1. rewrite (land_one_testbit _ Ht), Hmod. cbn [negb Z.eqb].
    destruct (negb (Z.land _ CLUSTER_TODO_HANDLE_MANUALFAILOVER =? 0)); [|by apply clusterHandleSlaveFailover_wins].
    assert (Hsl : nodeIsSlave me = true).
    { destruct (as_failover s Ha) as (me' & q & m & Hme' & _ & Hsl & _). change (cs_heap s !! cs_myself s = Some me) in Hme. congruence. }
    rewrite Hsl. assert (H : forall s2, asked s2 -> cs_size s2 = cs_size s -> cs_failover_auth_count s2 = cs_failover_auth_count s ->
      cs_currentEpoch s2 = cs_currentEpoch s -> trace (clusterHandleSlaveFailover sv) s2 (fun won s' _ => won_same_epoch s1 won s')).
    { intros s2 Ha2 E1 E2 E3. eapply trace_mono; [apply clusterHandleSlaveFailover_wins; [done|by rewrite E1, E2]|]. intros won s' ?. by apply won_trans. }
    unfold clusterHandleManualFailover. apply trace_bind, trace_bind, trace_getS. change (cs_mf_end s1) with (cs_mf_end s).
    repeat case_match; first [apply trace_ret|apply trace_bind, trace_modify, trace_modify|apply trace_modify]; apply H; try done;
      apply (asked_sim s1); try done; by split.
  - intros won s2 es2 H2. apply (trace_calm (mkKeep false true)); [pose proof (clusterUpdateState_calm sv true); calm_auto|].
    intros ? s3 es3 [_ K3] _. apply (trace_calm (mkKeep false true)); [calm_auto|]. intros ? s4 es4 [_ K4] _. apply trace_ret.
    destruct H2 as [-> E2]. split; [done|]. apply (f_equal snd) in K3, K4. cbn in K3, K4. rewrite K4, K3. exact E2.
Qed.
End server.

(** ** The network *)

Section network.
Context (sv : name -> redisServer).

(** The request of [c] is on its way to [v], which will vote. *)
Definition will_vote (nw : network) (c : name) (e : Z) (v : name) : Prop :=
  exists pk t, pk ∈ nw_flight nw /\ pk_dst pk = v /\ m_type (pk_msg pk) = CLUSTERMSG_TYPE_FAILOVER_AUTH_REQUEST /\
    m_sender (pk_msg pk) = c /\ pk_epoch pk = e /\ nw_nodes nw !! v = Some t /\ would_vote (sv v) (pk_msg pk) t.

(** The candidate asked for votes, and the voters it knows will answer. *)
Record candidate (nw : network) (c : name) (s : clusterState) (voters : list name) : Prop := {
  ca_running : running true nw;
  ca_node : nw_nodes nw !! c = Some s;
  ca_asked : asked (sv c) s;
  ca_null : settled s CLUSTER_NODE_NULL_NAME;
  ca_failover : Z.land (sv_module_flags (sv c)) CLUSTER_MODULE_FLAG_NO_FAILOVER = 0;
  ca_nodup : NoDup voters;
  ca_other : c ∉ voters;
  ca_voters : forall v, v ∈ voters -> will_vote nw c (cs_failover_auth_epoch s) v /\ knows_voter s v
}.

Definition a_link : clusterLink := mkLink 0 None [] None.

Lemma deliver_request nw c s v voters : candidate nw c s (v :: voters) ->
  exists nw' ack l1, step true nw nw' /\ nw_flight nw' = l1 ++ [ack] /\ pk_dst ack = c /\ is_vote ack = true /\ m_sender (pk_msg ack) = v /\
    pk_epoch ack = cs_failover_auth_epoch s /\ m_slaveof (pk_msg ack) = CLUSTER_NODE_NULL_NAME /\ m_data (pk_msg ack) = DataNone /\
    nw_nodes nw' !! c = Some s /\ (forall w, w ∈ voters -> exists pk t, pk ∈ l1 /\ pk_dst pk = w /\
      m_type (pk_msg pk) = CLUSTERMSG_TYPE_FAILOVER_AUTH_REQUEST /\ m_sender (pk_msg pk) = c /\ pk_epoch pk = cs_failover_auth_epoch s /\
      nw_nodes nw' !! w = Some t /\ would_vote (sv w) (pk_msg pk) t).
Proof.
  intros [Hr Hc Ha Hnull Hmod Hnd Hoth Hvot]. destruct (Hvot v) as [(pk & t & Hin & Hd & Ht & Hs & He & Hv & Hwv) _]; [set_solver|].
  destruct (eo_node _ _ (running_ok _ _ Hr) _ _ Hv) as (Hw & Hname & _).
  destruct (runs_result _ _ _ (vote_runs (sv v) t a_link (pk_msg pk) Hw Ht Hwv)) as (b & t' & es & E & Hmono & m & Hb & Hty & Hep & Hse & Hso & Hda).
  rewrite Hname in Hse. injection Hse as Hse. rewrite Hs in Hb.
  apply list_elem_of_split in Hin as (l1 & l2 & Hfl). subst v.
  eexists _, (mkPacket (pk_dst pk) c m), (l1 ++ l2). split.
  { apply (step_deliver true nw (sv (pk_dst pk)) a_link pk l1 l2 t b t' es); [done|done|apply Hwv| |done|done].
    intros _ Hvt%is_vote_eq. rewrite Ht in Hvt. discriminate. }
  cbn. unfold posted. rewrite Hb. apply NoDup_cons in Hnd as [Hnd1 Hnd]. split_and!; try done.
  - by apply is_vote_eq.
  - unfold pk_epoch in *. cbn. congruence.
  - rewrite lookup_insert_ne by set_solver. done.
  - intros w Hw'. destruct (Hvot w) as [(pk' & t2 & Hin & Hd & Ht2 & Hs2 & He2 & Hv2 & Hwv2) _]; [set_solver|]. exists pk', t2.
    rewrite lookup_insert_ne by congruence. split; [|done]. rewrite Hfl in Hin. assert (pk' <> pk) by congruence. set_solver.
Qed.

Lemma deliver_vote nw c s v voters : candidate nw c s (v :: voters) -> exists nw' s', rtc (step true) nw nw' /\ candidate nw' c s' voters /\
  cs_failover_auth_epoch s' = cs_failover_auth_epoch s /\ cs_size s' = cs_size s /\
  cs_failover_auth_count s' = cs_failover_auth_count s + 1 /\ Z.testbit (cs_todo_before_sleep s') 0 = true.
Proof.
  intros Hca. destruct (deliver_request nw c s v voters Hca) as (nw1 & ack & l1 & Hst & Hfl & Hd & Hvt & Hse & Hep & Hso & Hda & Hc & Hrest).
  destruct Hca as [Hr _ Ha Hnull Hmod Hnd Hoth Hvot]. destruct (Hvot v) as [_ (p & n & Hp & Hn & Hh & Hm & Hns)]; [set_solver|].
  assert (Hrun : runs (clusterProcessPacket (sv c) a_link (pk_msg ack)) s (fun _ s' es => cs_currentEpoch s <= cs_currentEpoch s' /\ ballots es = [] /\
    asked (sv c) s' /\ alike_state s s' /\ cs_failover_auth_count s' = cs_failover_auth_count s + 1 /\ Z.testbit (cs_todo_before_sleep s') 0 = true)).
  { apply (count_runs (sv c) s a_link (pk_msg ack) p n); [done|by apply is_vote_eq|unfold pk_epoch in Hep; lia|by rewrite Hse|done..]. }
  destruct (runs_result _ _ _ Hrun) as (b & s' & es & E & Hmono & Hb & Ha' & [A1 A2 A3 A4] & Hcount & Htodo).
  subst c. assert (Hn0 : names_ok (pk_msg ack) s).
  { split; [rewrite Hse; intros ? ? ? ?; congruence|by rewrite Hso|intros ? ? ?; by rewrite Hda]. }
  eexists _, s'. split.
  { eapply rtc_l; [exact Hst|]. apply rtc_once. apply (step_deliver true nw1 (sv (pk_dst ack)) a_link ack l1 [] s b s' es); [done|done|done| |done|done].
    intros _ _. apply (as_sent _ _ Ha). }
  split; [|done]. assert (Hr1 : running true nw1) by (by eapply run_step). apply NoDup_cons in Hnd as [Hnd1 Hnd]. split; try done.
  - eapply run_step; [exact Hr1|]. apply (step_deliver true nw1 (sv (pk_dst ack)) a_link ack l1 [] s b s' es); [done|done|done| |done|done].
    intros _ _. apply (as_sent _ _ Ha).
  - cbn. apply lookup_insert_eq.
  - auto.
  - set_solver.
  - intros w Hw. split; [|apply A1, Hvot; set_solver]. destruct (Hrest w Hw) as (pk' & t & Hin & Hd' & Ht & Hs' & He & Hnw & Hwv).
    exists pk', t. cbn. rewrite A4, lookup_insert_ne by (intros <-; apply Hoth; by apply list_elem_of_further).
    split; [rewrite !elem_of_app; auto|done].
Qed.

Lemma candidate_wins nw c s voters : candidate nw c s voters -> voters <> [] \/ Z.testbit (cs_todo_before_sleep s) 0 = true ->
  Z.quot (cs_size s) 2 + 1 <= cs_failover_auth_count s + zlen voters ->
  exists nw', rtc (step true) nw nw' /\ running true nw' /\ (c, cs_failover_auth_epoch s, cs_size s) ∈ nw_wins nw'.
Proof.
  revert nw s. induction voters as [|v voters IH]; intros nw s Hca Htodo Hq.
  - destruct Htodo as [|Htodo]; [done|]. destruct Hca as [Hr Hc Ha _ Hmod _ _ _]. change (zlen (@nil name)) with 0 in Hq.
    destruct (runs_result _ _ _ (win_runs (sv c) s Ha ltac:(lia) Htodo Hmod)) as (won & s' & es & E & -> & Em).
    assert (Hst : step true nw (mkNetwork (<[c := s']> (nw_nodes nw)) (nw_flight nw ++ posted c es) (nw_votes nw)
      ((c, cs_failover_auth_epoch s, cs_size s) :: nw_wins nw) (nw_lost nw))).
    { apply (step_run true nw (sv c) example_cron c s true s' es Hc); [by right|lia]. }
    eexists. split; [by apply rtc_once|]. split; [by eapply run_step|]. cbn. set_solver.
  - destruct (deliver_vote nw c s v voters Hca) as (nw1 & s1 & Hst & Hca1 & E1 & E2 & E3 & Ht). rewrite length_cons in Hq.
    destruct (IH nw1 s1 Hca1 (or_intror Ht)) as (nw2 & Hst2 & Hr2 & Hwin); [rewrite E2, E3; lia|]. exists nw2.
    split; [by etransitivity|]. split; [done|]. by rewrite <- E1, <- E2.
Qed.
End network.
