(* ===== verification/ClusterRuns.v ===== *)
(** The elections of a cluster: one vote of a node in an epoch, at most one winner when the votes are
    timely, a winner when a majority can vote, and two winners in an epoch when a
    vote comes late. The steps of a cluster are executable, and an example
    cluster of five nodes is run. *)
From stdpp Require Import gmap.
From S2P Require Import Prelude Util Sds Replication Cluster ClusterCron ClusterCommand ClusterInv ClusterOps ClusterSlots ClusterRoles ClusterConfig ClusterRemove ClusterPackets ClusterCronInv ClusterStart ClusterCommandInv ClusterSafety ClusterCalm ClusterElection ClusterVote ClusterProgress.

(** ** Executable steps *)

(** The cron of a node, its work before it sleeps, the delivery of the [k]th
    ballot on its way, or its loss. *)
Inductive act :=
  | ActCron (sv : redisServer) (ci : cronInput) (i : name)
  | ActSleep (sv : redisServer) (i : name)
  | ActDeliver (sv : redisServer) (k : nat)
  | ActLose (k : nat).

Definition settledb (s : clusterState) (nm : name) : bool :=
  match cs_nodes s !! nm with
  | Some p => match cs_heap s !! p with Some n => negb (nodeInHandshake n) | None => true end
  | None => true
  end.

Definition names_okb (hdr : clusterMsg) (s : clusterState) : bool :=
  settledb s (m_sender hdr) && settledb s (m_slaveof hdr) &&
  match m_data hdr with DataUpdate _ nm _ => settledb s nm | _ => true end.

Definition remove_at {A} (k : nat) (l : list A) : list A := take k l ++ drop (S k) l.

Definition after_run (nw : network) (i : name) (s : clusterState) (r : option (bool * clusterState * list effect)) : option network :=
  '(won, s', es) ← r;
  if cs_currentEpoch s <=? cs_currentEpoch s' then
    Some (mkNetwork (<[i := s']> (nw_nodes nw)) (nw_flight nw ++ posted i es) (nw_votes nw)
            (if won : bool then (i, cs_failover_auth_epoch s, cs_size s) :: nw_wins nw else nw_wins nw) (nw_lost nw))
  else None.

Definition execute (timely : bool) (nw : network) (a : act) : option network :=
  match a with
  | ActCron sv ci i => s ← nw_nodes nw !! i; after_run nw i s (clusterCron sv ci s)
  | ActSleep sv i => s ← nw_nodes nw !! i; after_run nw i s (clusterBeforeSleep sv s)
  | ActDeliver sv k =>
      pk ← nw_flight nw !! k;
      s ← nw_nodes nw !! pk_dst pk;
      '(_, s', es) ← clusterProcessPacket sv a_link (pk_msg pk) s;
      if names_okb (pk_msg pk) s && (negb timely || negb (is_vote pk) || negb (cs_failover_auth_sent s =? 0)) &&
         (cs_currentEpoch s <=? cs_currentEpoch s') then
        Some (mkNetwork (<[pk_dst pk := s']> (nw_nodes nw)) (remove_at k (nw_flight nw) ++ posted (pk_dst pk) es)
                (if is_vote pk then pk :: nw_votes nw else nw_votes nw) (nw_wins nw) (nw_lost nw))
      else None
  | ActLose k =>
      pk ← nw_flight nw !! k; Some (mkNetwork (nw_nodes nw) (remove_at k (nw_flight nw)) (nw_votes nw) (nw_wins nw) (pk :: nw_lost nw))
  end.

Fixpoint execute_all (timely : bool) (nw : network) (l : list act) : option network :=
  match l with
  | [] => Some nw
  | a :: l => nw ← execute timely nw a; execute_all timely nw l
  end.

Lemma settledb_spec s nm : settledb s nm = true -> settled s nm.
Proof.
  unfold settledb. intros H p n Hp Hn. rewrite Hp, Hn in H. by apply negb_true_iff.
Qed.

Lemma names_okb_spec hdr s : names_okb hdr s = true -> names_ok hdr s.
Proof.
  unfold names_okb. intros [[H1 H2]%andb_true_iff H3]%andb_true_iff. split; [by apply settledb_spec..|].
  intros e nm slots Hd. rewrite Hd in H3. by apply settledb_spec.
Qed.

Lemma flight_split {A} (l : list A) k x : l !! k = Some x -> exists l1 l2, l = l1 ++ x :: l2 /\ remove_at k l = l1 ++ l2.
Proof. intros H. exists (take k l), (drop (S k) l). split; [by rewrite take_drop_middle|done]. Qed.

Lemma execute_step timely nw a nw' : execute timely nw a = Some nw' -> step timely nw nw'.
Proof.
  destruct a as [sv ci i|sv i|sv k|k]; cbn [execute].
  - intros (s & Hs & ([[won s'] es] & Hr & H)%bind_Some)%bind_Some. destruct (Z.leb_spec (cs_currentEpoch s) (cs_currentEpoch s')); [|done].
    apply Some_inj in H as <-. eapply step_run; [done|by left|done].
  - intros (s & Hs & ([[won s'] es] & Hr & H)%bind_Some)%bind_Some. destruct (Z.leb_spec (cs_currentEpoch s) (cs_currentEpoch s')); [|done].
    apply Some_inj in H as <-. eapply (step_run _ _ sv example_cron); [done|by right|done].
  - intros (pk & Hpk & (s & Hs & ([[b s'] es] & Hr & H)%bind_Some)%bind_Some)%bind_Some. destruct (_ && _) eqn:E; [|done].
    apply Some_inj in H as <-. apply andb_true_iff in E as [[E1 E2]%andb_true_iff E3%Z.leb_le].
    destruct (flight_split _ _ _ Hpk) as (l1 & l2 & Hfl & ->). eapply step_deliver; [done|done|by apply names_okb_spec| |done|done].
    intros -> Hv. rewrite Hv in E2. apply negb_true_iff, Z.eqb_neq in E2. done.
  - intros (pk & Hpk & H)%bind_Some. apply Some_inj in H as <-. destruct (flight_split _ _ _ Hpk) as (l1 & l2 & Hfl & ->). by eapply step_lose.
Qed.

Lemma execute_running timely nw l nw' : running timely nw -> execute_all timely nw l = Some nw' -> running timely nw'.
Proof.
  revert nw. induction l as [|a l IH]; cbn [execute_all]; intros nw Hr; [by intros [= <-]|].
  intros (nw1 & H1 & H2)%bind_Some. eapply IH; [|exact H2]. eapply run_step; [exact Hr|]. by apply execute_step in H1.
Qed.

(** ** An example cluster *)

(** "M" failed, "A" and "B" are its replicas, "V" and "W" are the other masters.
    Each master serves one slot. *)
Definition ex_node (c flags slots numslots : Z) (slaves : list ptr) (slaveof : option ptr) : clusterNode :=
  mkNode (hex_name c) 0 flags 1 slots numslots slaves slaveof 0 0 0 0 0 0 0 0 no_addr (Some c) [].

Definition ex_table : list (ptr * clusterNode) :=
  [(1, ex_node 65 CLUSTER_NODE_SLAVE 0 0 [] (Some 3)); (2, ex_node 66 CLUSTER_NODE_SLAVE 0 0 [] (Some 3));
   (3, ex_node 77 (Z.lor CLUSTER_NODE_MASTER CLUSTER_NODE_FAIL) (2 ^ 0) 1 [1; 2] None);
   (4, ex_node 86 CLUSTER_NODE_MASTER (2 ^ 1) 1 [] None); (5, ex_node 87 CLUSTER_NODE_MASTER (2 ^ 2) 1 [] None)].

Definition ex_base : clusterState :=
  zero_state <| cs_myself := 1 |> <| cs_heap := list_to_map ex_table |> <| cs_next := 6 |>
    <| cs_nodes := list_to_map ((fun e => (cn_name e.2, e.1)) <$> ex_table) |> <| cs_slots := {[0 := 3; 1 := 4; 2 := 5]} |> <| cs_size := 3 |>.

Lemma ex_lookup p n : cs_heap ex_base !! p = Some n <-> (p, n) ∈ ex_table.
Proof.
  change ((list_to_map ex_table : gmap ptr clusterNode) !! p = Some n <-> (p, n) ∈ ex_table). symmetry. apply elem_of_list_to_map.
  repeat (apply NoDup_cons; split; [by intros ?; set_unfold; lia|]). constructor.
Qed.

Ltac ex_cases H :=
  apply ex_lookup in H; unfold ex_table in H; rewrite !elem_of_cons, elem_of_nil in H;
  destruct H as [H|[H|[H|[H|[H|[]]]]]]; injection H as -> ->.

Lemma ex_in p n : (p, n) ∈ ex_table -> cs_heap ex_base !! p = Some n.
Proof. apply ex_lookup. Qed.
Ltac ex_here := apply ex_in; unfold ex_table; repeat first [apply list_elem_of_here|apply list_elem_of_further].

Lemma ex_dict nm p : cs_nodes ex_base !! nm = Some p <-> exists n, cs_heap ex_base !! p = Some n /\ cn_name n = nm.
Proof.
  change ((list_to_map ((fun e => (cn_name e.2, e.1)) <$> ex_table) : gmap name ptr) !! nm = Some p <->
    exists n, cs_heap ex_base !! p = Some n /\ cn_name n = nm).
  rewrite <- elem_of_list_to_map.
  - rewrite list_elem_of_fmap. split; [intros ((k & n) & [= -> ->] & Hin); exists n; split; [by apply ex_in|done]|].
    intros (n & Hn%ex_lookup & <-). by exists (p, n).
  - repeat (apply NoDup_cons; split; [intros H; repeat (apply elem_of_cons in H as [H|H]; [discriminate|]); by apply elem_of_nil in H|]). constructor.
Qed.

Lemma ex_slots j p : cs_slots ex_base !! j = Some p <->
  0 <= j < CLUSTER_SLOTS /\ exists n, cs_heap ex_base !! p = Some n /\ Z.testbit (cn_slots n) j = true.
Proof.
  change (({[0 := 3; 1 := 4; 2 := 5]} : gmap Z ptr) !! j = Some p <->
    0 <= j < CLUSTER_SLOTS /\ exists n, cs_heap ex_base !! p = Some n /\ Z.testbit (cn_slots n) j = true).
  rewrite !lookup_insert_Some, lookup_singleton_Some. split.
  - intros [[<- <-]|[_ [[<- <-]|[_ [<- <-]]]]]; (split; [unfold CLUSTER_SLOTS; lia|]); eexists; (split; [ex_here|reflexivity]).
  - intros (Hj & n & Hn & Hb). ex_cases Hn; cbn [ex_node cn_slots] in Hb; rewrite ?Z.testbit_0_l in Hb; try discriminate;
      rewrite Z.pow2_bits_eqb in Hb by lia; lia.
Qed.

Lemma count_slots_one k : 0 <= k < CLUSTER_SLOTS -> count_slots (2 ^ k) = 1.
Proof.
  intros Hk. rewrite (count_slots_set 0 (2 ^ k) k), count_slots_none; [done|intros; apply Z.testbit_0_l|done|apply Z.testbit_0_l|].
  intros i. rewrite Z.testbit_0_l, Z.pow2_bits_eqb by lia. destruct (decide (i = k)) as [->|]; [by rewrite Z.eqb_refl|]. apply Z.eqb_neq. lia.
Qed.

Lemma ex_wf : wf ex_base.
Proof.
  assert (C0 : count_slots 0 = 0) by (apply count_slots_none; intros; apply Z.testbit_0_l).
  split; [|exact ex_dict| |exact ex_slots| | | | | |].
  - intros p n Hn. ex_cases Hn; cbn; lia.
  - eexists. split; [ex_here|]. split; [reflexivity|]. right. split; [reflexivity|split; reflexivity].
  - intros p n Hn. ex_cases Hn; cbn [ex_node cn_slots cn_numslots]; rewrite ?count_slots_one by (unfold CLUSTER_SLOTS; lia); congruence.
  - intros p q. split.
    + intros (m & Hm & Hp). ex_cases Hm; cbn in Hp; set_unfold in Hp; try tauto. destruct Hp as [->|[->|[]]]; eexists; (split; [ex_here|reflexivity]).
    + intros (n & Hn & Hq). ex_cases Hn; cbn in Hq; try discriminate Hq; injection Hq as <-; eexists; (split; [ex_here|cbn; rewrite !elem_of_cons; auto]).
  - intros p n Hn. ex_cases Hn; cbn; repeat constructor; rewrite ?elem_of_cons, elem_of_nil; lia.
  - intros p n Hn Hh. ex_cases Hn; discriminate Hh.
  - intros p n Hn. ex_cases Hn; (split; [constructor|intros q Hq; inversion Hq]).
  - intros j p [H|H]; change ((∅ : gmap Z ptr) !! j = Some p) in H; by rewrite lookup_empty in H.
Qed.

(** The state of the node [i]. *)
Definition ex_state (i : ptr) (n : clusterNode) (currentEpoch auth_time : Z) : clusterState :=
  ex_base <| cs_myself := i |> <| cs_heap := <[i := set_flag CLUSTER_NODE_MYSELF n <| cn_link := None |>]> (cs_heap ex_base) |>
    <| cs_currentEpoch := currentEpoch |> <| cs_failover_auth_time := auth_time |>.

Definition ex_network : network :=
  mkNetwork {[hex_name 65 := ex_state 1 (ex_node 65 CLUSTER_NODE_SLAVE 0 0 [] (Some 3)) 0 39500;
              hex_name 66 := ex_state 2 (ex_node 66 CLUSTER_NODE_SLAVE 0 0 [] (Some 3)) 1 100500;
              hex_name 86 := ex_state 4 (ex_node 86 CLUSTER_NODE_MASTER (2 ^ 1) 1 [] None) 0 0;
              hex_name 87 := ex_state 5 (ex_node 87 CLUSTER_NODE_MASTER (2 ^ 2) 1 [] None) 0 0]} [] [] [] [].

Definition at_time (ms : Z) : redisServer := example_server ms 0.

Lemma wf_become s p n : wf s -> cs_heap s !! p = Some n -> nodeInHandshake n = false ->
  nodeIsMaster n = true /\ cn_slaveof n = None \/ nodeIsMaster n = false /\ nodeIsSlave n = true /\ cn_numslots n = 0 -> wf (s <| cs_myself := p |>).
Proof. intros [W1 W2 W3 W4 W5 W6 W7 W8 W9 W10] Hn Hh Hr. split; try assumption. exists n. split; [exact Hn|]. by split. Qed.

Lemma ex_state_wf i n e t : cs_heap ex_base !! i = Some n -> nodeInHandshake n = false ->
  nodeIsMaster n = true /\ cn_slaveof n = None \/ nodeIsMaster n = false /\ nodeIsSlave n = true /\ cn_numslots n = 0 ->
  view (set_flag CLUSTER_NODE_MYSELF n <| cn_link := None |>) = view n -> wf (ex_state i n e t) /\ my_name (ex_state i n e t) = Some (cn_name n).
Proof.
  intros Hn Hh Hr Hv. split.
  - eapply (wf_sim (ex_base <| cs_myself := i |>)); [|by apply (wf_become ex_base i n ex_wf)].
    etransitivity; [by apply (sim_update _ i n)|]. by split.
  - unfold my_name. change (cn_name <$> <[i := set_flag CLUSTER_NODE_MYSELF n <| cn_link := None |>]> (cs_heap ex_base) !! i = Some (cn_name n)).
    by rewrite lookup_insert_eq.
Qed.

Lemma ex_starting : starting ex_network.
Proof.
  split; try reflexivity. intros i s. cbn [ex_network nw_nodes]. rewrite !lookup_insert_Some, lookup_singleton_Some.
  intros [[<- <-]|[_ [[<- <-]|[_ [[<- <-]|[_ [<- <-]]]]]]]; match goal with |- wf (ex_state ?i ?n ?e ?t) /\ _ => destruct (ex_state_wf i n e t) as [Hw En]; [ex_here|reflexivity| |reflexivity|] end.
  all: try (split; [exact Hw|split; [exact En|cbn; lia]]).
  all: first [left; split; reflexivity|right; split; [reflexivity|split; reflexivity]].
Qed.

(** Where a run of the example leads. *)
Definition reached (timely : bool) (l : list act) : network := default ex_network (execute_all timely ex_network l).

Lemma reached_running timely l : is_Some (execute_all timely ex_network l) -> running timely (reached timely l).
Proof. intros [nw E]. unfold reached. rewrite E. eapply execute_running; [apply run_start, ex_starting|exact E]. Qed.

(** "A" asks for votes in the epoch 1, "V" and "W" vote, the other requests are lost. *)
Definition asking : list act :=
  [ActCron (at_time 40000) example_cron (hex_name 65); ActDeliver (at_time 40010) 0; ActDeliver (at_time 40010) 0; ActLose 0; ActLose 0].

(** "A" gets the votes and wins. *)
Definition timely_run : list act :=
  asking ++ [ActDeliver (at_time 40100) 0; ActDeliver (at_time 40100) 0; ActCron (at_time 40200) example_cron (hex_name 65)].

(** The votes come after "A" scheduled its next election, which it wins with
    them in the epoch 2. Then "B" wins in the epoch 2 with the votes of that
    epoch. *)
Definition late_run : list act :=
  asking ++ [ActCron (at_time 100000) example_cron (hex_name 65); ActDeliver (at_time 100100) 0; ActDeliver (at_time 100100) 0;
    ActCron (at_time 100600) example_cron (hex_name 65); ActLose 0; ActLose 0; ActCron (at_time 100700) example_cron (hex_name 65);
    ActCron (at_time 100800) example_cron (hex_name 66); ActDeliver (at_time 100810) 0; ActDeliver (at_time 100810) 0; ActLose 0; ActLose 0;
    ActDeliver (at_time 100900) 0; ActDeliver (at_time 100900) 0; ActCron (at_time 101000) example_cron (hex_name 66)].

(** The winners of a run, and the voters. *)
Definition outcome (o : option network) : list (name * Z * Z) * list (name * Z) :=
  match o with Some nw => (nw_wins nw, (fun pk => (pk_src pk, pk_epoch pk)) <$> nw_votes nw) | None => ([], []) end.

Lemma timely_outcome : outcome (execute_all true ex_network timely_run) = ([(hex_name 65, 1, 3)], [(hex_name 86, 1); (hex_name 87, 1)]).
Proof. exact_no_check (eq_refl ([(hex_name 65, 1, 3)], [(hex_name 86, 1); (hex_name 87, 1)])). Qed.

Lemma late_outcome : outcome (execute_all false ex_network late_run) =
  ([(hex_name 66, 2, 3); (hex_name 65, 2, 3)], [(hex_name 86, 2); (hex_name 87, 2); (hex_name 86, 1); (hex_name 87, 1)]).
Proof.
  exact_no_check (eq_refl ([(hex_name 66, 2, 3); (hex_name 65, 2, 3)], [(hex_name 86, 2); (hex_name 87, 2); (hex_name 86, 1); (hex_name 87, 1)])).
Qed.

Lemma outcome_reached timely l w ws vs : outcome (execute_all timely ex_network l) = (w :: ws, vs) ->
  running timely (reached timely l) /\ nw_wins (reached timely l) = w :: ws /\
  (fun pk => (pk_src pk, pk_epoch pk)) <$> nw_votes (reached timely l) = vs.
Proof.
  intros H. split; [apply reached_running|]; unfold outcome, reached in *; destruct (execute_all timely ex_network l) as [nw|]; try done.
  cbn. by injection H as -> ->.
Qed.

(** ** A candidate, decided *)

Definition is_some_and {A} (o : option A) (f : A -> bool) : bool := match o with Some a => f a | None => false end.

Lemma is_some_and_true {A} (o : option A) f : is_some_and o f = true -> exists a, o = Some a /\ f a = true.
Proof. destruct o; [eauto|done]. Qed.

Definition failover_okb (sv : redisServer) (s : clusterState) (me : clusterNode) (q : ptr) : bool :=
  is_some_and (cs_heap s !! q) (fun m => negb (nodeIsMaster me) && nodeIsSlave me && negb (cn_numslots m =? 0) &&
    (negb (cs_mf_end s =? 0) && cs_mf_can_start s || nodeFailed m && negb (sv_slave_no_failover sv) && negb (data_too_old sv))).

Definition askedb (sv : redisServer) (s : clusterState) : bool :=
  negb (cs_failover_auth_sent s =? 0) && (0 <=? sv_mstime sv - cs_failover_auth_time s) &&
  (sv_mstime sv - cs_failover_auth_time s <=? auth_timeout sv) &&
  is_some_and (cs_heap s !! cs_myself s) (fun me => is_some_and (cn_slaveof me) (failover_okb sv s me)).

Lemma askedb_spec sv s : wf s -> askedb sv s = true -> asked sv s.
Proof.
  intros Hw. unfold askedb. intros [[[H1 H2]%andb_true_iff H3]%andb_true_iff H4]%andb_true_iff.
  apply is_some_and_true in H4 as (me & Hme & (q & Hq & (m & Hm & H5)%is_some_and_true)%is_some_and_true).
  split; [done|lia|lia|]. exists me, q, m. apply andb_true_iff in H5 as [[[E1 E2]%andb_true_iff E3]%andb_true_iff E4].
  apply negb_true_iff in E1, E3. apply Z.eqb_neq in E3. split_and!; try done.
  apply orb_true_iff in E4 as [E4|[[E4 E5]%andb_true_iff E6]%andb_true_iff]; [by left|right]. by apply negb_true_iff in E5, E6.
Qed.

Definition knows_voterb (s : clusterState) (v : name) : bool :=
  is_some_and (cs_nodes s !! v) (fun p => is_some_and (cs_heap s !! p) (fun n => negb (nodeInHandshake n) && nodeIsMaster n && (0 <? cn_numslots n))).

Lemma knows_voterb_spec s v : knows_voterb s v = true -> knows_voter s v.
Proof.
  intros (p & Hp & (n & Hn & [[H1 H2]%andb_true_iff H3]%andb_true_iff)%is_some_and_true)%is_some_and_true.
  exists p, n. apply negb_true_iff in H1. split_and!; try done. lia.
Qed.

Definition voterb (sv : redisServer) (hdr : clusterMsg) (s : clusterState) : bool :=
  is_some_and (cs_heap s !! cs_myself s) (fun me => nodeIsMaster me && negb (nodeIsSlave me) && negb (cn_numslots me =? 0)) &&
  (cs_currentEpoch s <=? m_currentEpoch hdr) && negb (cs_lastVoteEpoch s =? m_currentEpoch hdr) &&
  forallb (fun e => negb (Z.testbit (m_myslots hdr) e.1) ||
    match cs_heap s !! e.2 with Some n => cn_configEpoch n <=? m_configEpoch hdr | None => true end) (map_to_list (cs_slots s)).

Definition requesterb (sv : redisServer) (hdr : clusterMsg) (s : clusterState) : bool :=
  is_some_and (cs_nodes s !! m_sender hdr) (fun p => is_some_and (cs_heap s !! p) (fun n =>
    negb (nodeInHandshake n) && negb (nodeIsMaster n) && linked n && is_some_and (cn_slaveof n) (fun q => is_some_and (cs_heap s !! q) (fun m =>
      (nodeFailed m || negb (Z.land (m_mflags0 hdr) CLUSTERMSG_FLAG0_FORCEACK =? 0)) &&
      (sv_node_timeout sv * 2 <=? sv_mstime sv - cn_voted_time m))))).

Lemma would_voteb_spec sv hdr s : names_okb hdr s && voterb sv hdr s && requesterb sv hdr s = true -> would_vote sv hdr s.
Proof.
  intros [[H1 H2]%andb_true_iff H3]%andb_true_iff. unfold voterb in H2. apply andb_true_iff in H2 as [[[H2 H4]%andb_true_iff H5]%andb_true_iff H6].
  apply is_some_and_true in H2 as (me & Hme & [[M1 M2]%andb_true_iff M3]%andb_true_iff). apply negb_true_iff in M2, M3, H5. apply Z.eqb_neq in M3, H5.
  split; [by apply names_okb_spec|by exists me|lia| |].
  - apply is_some_and_true in H3 as (p & Hp & (n & Hn & H3)%is_some_and_true).
    apply andb_true_iff in H3 as [[[N1 N2]%andb_true_iff N3]%andb_true_iff (q & Hq & (m & Hm & [F1 F2]%andb_true_iff)%is_some_and_true)%is_some_and_true].
    apply negb_true_iff in N1, N2. exists p, n, q, m. split_and!; try done; [|lia].
    apply orb_true_iff in F1 as [F1|F1%negb_true_iff%Z.eqb_neq]; auto.
  - intros j p n Hj Hp Hn. rewrite forallb_forall in H6. specialize (H6 (j, p)). cbn in H6. rewrite Hj, Hn in H6. apply Z.leb_le, H6.
    apply list_elem_of_In. by apply elem_of_map_to_list.
Qed.

(** The request that is [k]th on its way. *)
Definition will_voteb (sv : redisServer) (nw : network) (c : name) (e : Z) (v : name) (k : nat) : bool :=
  is_some_and (nw_flight nw !! k) (fun pk => bool_decide (pk_dst pk = v) && (m_type (pk_msg pk) =? CLUSTERMSG_TYPE_FAILOVER_AUTH_REQUEST) &&
    bool_decide (m_sender (pk_msg pk) = c) && (pk_epoch pk =? e) && is_some_and (nw_nodes nw !! v) (fun t =>
      names_okb (pk_msg pk) t && voterb sv (pk_msg pk) t && requesterb sv (pk_msg pk) t)).

Lemma will_voteb_spec sv nw c e v k : will_voteb (sv v) nw c e v k = true -> will_vote sv nw c e v.
Proof.
  intros (pk & Hpk & [[[[H1 H2]%andb_true_iff H3]%andb_true_iff H4]%andb_true_iff H5]%andb_true_iff)%is_some_and_true.
  apply is_some_and_true in H5 as (t & Ht & H5%would_voteb_spec). apply bool_decide_eq_true in H1, H3. exists pk, t.
  split; [by eapply list_elem_of_lookup_2|]. split_and!; try done; lia.
Qed.

(** ** Safety *)

(** C19: A node votes at most once in an epoch, however long the network delays
    the ballots, in whatever order it delivers them and whichever it loses, and in
    whatever order the nodes run: of all the votes that were sent, delivered, still
    on their way or lost, no two are of the same node for the same epoch, not even
    for the same replica. Epochs are assumed not to overflow, and a node not to
    forget its votes by CLUSTER RESET HARD, which also gives it another name. *)
Theorem vote_once timely nw : running timely nw -> NoDup ((fun pk => (pk_src pk, pk_epoch pk)) <$> cast_votes nw).
Proof. intros Hr. apply (eo_once _ _ (running_ok _ _ Hr)). Qed.

Lemma vote_once_witness : NoDup ((fun pk => (pk_src pk, pk_epoch pk)) <$> cast_votes (reached false late_run)) /\
  length (nw_votes (reached false late_run)) = 4%nat.
Proof.
  destruct (outcome_reached false late_run _ _ _ late_outcome) as (Hr & _ & Hv). split; [exact (vote_once _ _ Hr)|].
  apply (f_equal length) in Hv. by rewrite length_fmap in Hv.
Defined.

(** C1: In a timely network, one that delivers a vote before the replica it is for
    schedules its next election, and may otherwise delay, reorder and lose ballots,
    at most one replica wins the election of an epoch: two winners of the same
    epoch are the same replica, when the masters that voted in the epoch are not
    more than the size of the cluster each winner knew. Epochs are assumed not to
    overflow, and nodes not to forget their votes by CLUSTER RESET HARD. *)
Theorem election_safety nw : running true nw -> one_winner_per_epoch nw.
Proof.
  intros Hr c1 c2 e n1 n2 masters H1 H2 Hm Hn1 Hn2. pose proof (votes_known _ nw Hr) as Hd. apply running_ok in Hr.
  destruct (decide (c1 = c2)) as [|Hne]; [done|exfalso]. pose proof (voters_bound _ _ _ _ _ Hd Hne Hm) as Hb.
  pose proof (eo_wins _ _ Hr eq_refl _ _ _ H1) as W1. pose proof (eo_wins _ _ Hr eq_refl _ _ _ H2) as W2.
  pose proof (Z.quot_rem' n1 2). pose proof (Z.quot_rem' n2 2).
  pose proof (Z.rem_bound_pos n1 2 ltac:(lia) ltac:(lia)). pose proof (Z.rem_bound_pos n2 2 ltac:(lia) ltac:(lia)). lia.
Qed.

Lemma election_safety_witness : one_winner_per_epoch (reached true timely_run) /\ nw_wins (reached true timely_run) = [(hex_name 65, 1, 3)].
Proof.
  destruct (outcome_reached true timely_run _ _ _ timely_outcome) as (Hr & Hw & _). split; [exact (election_safety _ Hr)|exact Hw].
Defined.

(** C22: Without the assumption that votes are timely, two replicas can win the
    election of the same epoch: a vote that comes after its replica scheduled the
    next election, and before it starts it, is counted for the next election. *)
Theorem late_votes_two_winners : exists nw, running false nw /\ ~ one_winner_per_epoch nw.
Proof.
  exists (reached false late_run). destruct (outcome_reached false late_run _ _ _ late_outcome) as (Hr & Hw & Hv). split; [done|]. intros H.
  assert (Hsize : Z.of_nat (size ({[hex_name 86; hex_name 87; hex_name 77]} : gset name)) <= 3) by (vm_compute; discriminate).
  specialize (H (hex_name 65) (hex_name 66) 2 3 3 {[hex_name 86; hex_name 87; hex_name 77]}). rewrite Hw in H.
  discriminate H; [right; left|left| |exact Hsize|exact Hsize].
  intros pk Hpk He. apply (list_elem_of_fmap_2 (fun pk => (pk_src pk, pk_epoch pk))) in Hpk. rewrite Hv in Hpk. cbn in Hpk.
  repeat (apply elem_of_cons in Hpk as [Hpk|Hpk]; [injection Hpk as Hs _; rewrite Hs; set_solver|]).
  destruct (not_elem_of_nil _ Hpk).
Qed.

(** ** Progress *)

(** C9: A replica that asked for votes can win: when its requests are on their way
    to voters that will vote for it, as many as miss for a majority, then the
    delivery of the requests and of the votes, and the work of the replica before
    it sleeps, lead to a cluster where it won the election of its epoch. *)
Theorem election_progress sv nw c s voters : candidate sv nw c s voters ->
  voters <> [] \/ Z.testbit (cs_todo_before_sleep s) 0 = true ->
  Z.quot (cs_size s) 2 + 1 <= cs_failover_auth_count s + zlen voters ->
  exists nw', rtc (step true) nw nw' /\ running true nw' /\ (c, cs_failover_auth_epoch s, cs_size s) ∈ nw_wins nw'.
Proof. apply candidate_wins. Qed.

(** "A" asked for votes, and "V" and "W" have its requests. *)
Definition ex_asking : network := reached true [ActCron (at_time 40000) example_cron (hex_name 65)].
Definition ex_candidate : clusterState := default zero_state (nw_nodes ex_asking !! hex_name 65).

Definition ex_checks : bool :=
  is_some_and (execute_all true ex_network [ActCron (at_time 40000) example_cron (hex_name 65)]) (fun _ => true) &&
  is_some_and (nw_nodes ex_asking !! hex_name 65) (fun _ => true) && askedb (at_time 41000) ex_candidate &&
  settledb ex_candidate CLUSTER_NODE_NULL_NAME &&
  will_voteb (at_time 41000) ex_asking (hex_name 65) (cs_failover_auth_epoch ex_candidate) (hex_name 86) 1 && knows_voterb ex_candidate (hex_name 86) &&
  will_voteb (at_time 41000) ex_asking (hex_name 65) (cs_failover_auth_epoch ex_candidate) (hex_name 87) 0 && knows_voterb ex_candidate (hex_name 87) &&
  (cs_size ex_candidate =? 3) && (cs_failover_auth_count ex_candidate =? 0) && (cs_failover_auth_epoch ex_candidate =? 1).

Lemma ex_checks_true : ex_checks = true.
Proof. exact_no_check (eq_refl true). Qed.

Lemma election_progress_witness : exists nw', rtc (step true) ex_asking nw' /\ running true nw' /\ (hex_name 65, 1, 3) ∈ nw_wins nw'.
Proof.
  pose proof ex_checks_true as H. unfold ex_checks in H.
  apply andb_true_iff in H as [H K10%Z.eqb_eq]. apply andb_true_iff in H as [H K9%Z.eqb_eq]. apply andb_true_iff in H as [H K8%Z.eqb_eq].
  apply andb_true_iff in H as [H K7]. apply andb_true_iff in H as [H K6]. apply andb_true_iff in H as [H K5]. apply andb_true_iff in H as [H K4].
  apply andb_true_iff in H as [H K3]. apply andb_true_iff in H as [H K2]. apply andb_true_iff in H as [H K1].
  apply is_some_and_true in H as (nw & Hnw & _). assert (Hr : running true ex_asking) by (apply reached_running; by exists nw).
  apply is_some_and_true in K1 as (s & Hs & _).
  assert (Es : ex_candidate = s) by (unfold ex_candidate; by rewrite Hs). rewrite Es in *. clear Es.
  rewrite <- K8, <- K10. apply (election_progress (fun _ => at_time 41000) ex_asking (hex_name 65) s [hex_name 86; hex_name 87]).
  - destruct (eo_node _ _ (running_ok _ _ Hr) _ _ Hs) as (Hw & _). split.
    + exact Hr.
    + exact Hs.
    + exact (askedb_spec _ _ Hw K2).
    + exact (settledb_spec _ _ K3).
    + reflexivity.
    + repeat (apply NoDup_cons; split; [intros X; repeat (apply elem_of_cons in X as [X|X]; [discriminate X|]); destruct (not_elem_of_nil _ X)|]). constructor.
    + intros X. repeat (apply elem_of_cons in X as [X|X]; [discriminate X|]). destruct (not_elem_of_nil _ X).
    + intros v [->|[->|X%not_elem_of_nil]%elem_of_cons]%elem_of_cons; [| |destruct X].
      * exact (conj (will_voteb_spec _ _ _ _ _ _ K4) (knows_voterb_spec _ _ K5)).
      * exact (conj (will_voteb_spec _ _ _ _ _ _ K6) (knows_voterb_spec _ _ K7)).
  - left. discriminate.
  - rewrite K8, K9. vm_compute. discriminate.
Defined.
