(* ===== verification/Keyspace.v ===== *)
(** The key space ([db.c], [expire.c]) and the keys that clients watch
    ([multi.c]).

    A database is a dict of values and a dict of expire times, here finite maps
    ([DictMap.v] shows that the code of [dict.c] is one), and the lists of the
    clients that watch its keys. A string object is the one of [Wire.v]; the
    contents of an object of another type are opaque. Objects are values: the
    code changes one in place only when nothing else refers to it. The clock may
    give any time at each reading. A failed assertion or a pointer to a client
    that was freed is a fault. LRU fields, notifications, client side caching,
    blocked clients and the slots of the keys are left out, and clients are not
    paused. *)
From stdpp Require Import gmap.
From Stdlib Require Import String.
From S2P Require Import Prelude Util Wire Replication.
Open Scope string_scope.
Open Scope list_scope.
Open Scope Z_scope.

Definition CLIENT_SLAVE_BIT : Z := 0.
Definition CLIENT_MASTER_BIT : Z := 1.
Definition CLIENT_MULTI_BIT : Z := 3.
Definition CLIENT_DIRTY_CAS_BIT : Z := 5.
Definition CLIENT_CLOSE_AFTER_REPLY_BIT : Z := 6.
Definition CLIENT_DIRTY_EXEC_BIT : Z := 12.
Definition CLIENT_DENY_BLOCKING_BIT : Z := 41.

Definition LLONG_MAX : Z := 2 ^ 63 - 1.
Definition LLONG_MIN : Z := - 2 ^ 63.

Inductive otherType := OBJ_LIST | OBJ_SET | OBJ_ZSET | OBJ_HASH | OBJ_STREAM.
Inductive value := VStr (o : robj) | VOther (type : otherType) (contents : bytes).

Record redisDb := mkDb { db_dict : gmap bytes value; db_expires : gmap bytes Z; db_watched_keys : gmap bytes (list Z) }.
#[export] Instance eta_db : Settable redisDb := fun d => mkDb (db_dict d) (db_expires d) (db_watched_keys d).

(** The functions of the command table. *)
Inductive proc :=
  | getCommand | getexCommand | getdelCommand | setCommand | setnxCommand | setexCommand | psetexCommand | appendCommand | strlenCommand
  | delCommand | unlinkCommand | existsCommand | setrangeCommand | getrangeCommand | incrCommand | decrCommand | mgetCommand
  | incrbyCommand | decrbyCommand | incrbyfloatCommand | getsetCommand | msetCommand | msetnxCommand | selectCommand | swapdbCommand | moveCommand
  | copyCommand | renameCommand | renamenxCommand | expireCommand | expireatCommand | pexpireCommand | pexpireatCommand | dbsizeCommand | typeCommand
  | multiCommand | execCommand | discardCommand | flushdbCommand | flushallCommand | ttlCommand | touchCommand | pttlCommand | persistCommand
  | watchCommand | unwatchCommand.
#[export] Instance proc_eq_dec : EqDecision proc.
Proof. solve_decision. Defined.

Definition CMD_WRITE : Z := 2 ^ 0.
Definition CMD_READONLY : Z := 2 ^ 1.
Definition CMD_DENYOOM : Z := 2 ^ 2.
Definition CMD_LOADING : Z := 2 ^ 9.
Definition CMD_STALE : Z := 2 ^ 10.

Record redisCommand := mkCommand { cmd_name : bytes; cmd_proc : proc; cmd_arity : Z; cmd_flags : Z }.

Inductive reply :=
  | RStatus (s : bytes) | RError (fmt : string) (args : list bytes) | RNull | RNullArray | RInt (n : Z) | RBulk (s : bytes) | RArrayLen (n : Z).
Definition ROk : reply := RStatus (of_string "OK").

Record multiCmd := mkMultiCmd { mc_argv : list robj; mc_cmd : redisCommand }.

(** The fields of a client these files use; [c_replies] is what was replied. *)
Record redisClient := mkRedisClient {
  c_db : Z; c_flags : Z; c_argv : list robj; c_cmd : option redisCommand; c_watched_keys : list (Z * bytes);
  c_commands : list multiCmd; c_cmd_flags : Z; c_cmd_inv_flags : Z; c_replies : list reply
}.
#[export] Instance eta_redisClient : Settable redisClient := fun c =>
  mkRedisClient (c_db c) (c_flags c) (c_argv c) (c_cmd c) (c_watched_keys c) (c_commands c) (c_cmd_flags c) (c_cmd_inv_flags c) (c_replies c).

(** [sv_propagated] are the commands given to the append only file and to the
    replicas, with their database; [sv_ticks] counts the readings of the clock. *)
Record kserver := mkKserver {
  sv_db : gmap Z redisDb; sv_clients : gmap Z redisClient; sv_dirty : Z; sv_ticks : nat; sv_mstime : Z; sv_fixed_time_expire : Z;
  sv_masterhost : bool; sv_loading : bool; sv_current_client : option Z; sv_master : option Z;
  sv_in_exec : bool; sv_propagate_in_transaction : bool; sv_propagated : list (Z * list robj)
}.
#[export] Instance eta_kserver : Settable kserver := fun s =>
  mkKserver (sv_db s) (sv_clients s) (sv_dirty s) (sv_ticks s) (sv_mstime s) (sv_fixed_time_expire s) (sv_masterhost s) (sv_loading s)
    (sv_current_client s) (sv_master s) (sv_in_exec s) (sv_propagate_in_transaction s) (sv_propagated s).

(** The configuration, the clock, and the sum of two long doubles given as
    strings: [None] when one is not a number, [Some None] when the sum is not
    finite. *)
Record conf := mkConf {
  dbnum : Z; cluster_enabled : bool; lazyfree_lazy_expire : bool; lazyfree_lazy_server_del : bool; lazyfree_lazy_user_del : bool;
  lazyfree_lazy_user_flush : bool; max_bulk_len : Z; repl_slave_ro : bool; clock : nat -> Z; add_longdouble : bytes -> bytes -> option (option bytes)
}.

(** ** State and faults *)

(** A result and the new state; behaviour that C does not define (a signed
    overflow, an allocation that is too large); or a fault. *)
Inductive outcome (A : Type) := Done (a : A) (s : kserver) | Undefined | Fault.
Arguments Done {A}.
Arguments Undefined {A}.
Arguments Fault {A}.

Definition sm (A : Type) : Type := kserver -> outcome A.
#[export] Instance sm_ret : MRet sm := fun A a s => Done a s.
#[export] Instance sm_bind : MBind sm := fun A B f m s => match m s with Done a s => f a s | Undefined => Undefined | Fault => Fault end.

Definition fault {A} : sm A := fun _ => Fault.
Definition undefined {A} : sm A := fun _ => Undefined.
Definition lift_opt {A} (o : option A) : sm A := match o with Some a => mret a | None => fault end.
Definition get_server : sm kserver := fun s => Done s s.
Definition modify_server (f : kserver -> kserver) : sm unit := fun s => Done tt (f s).
Definition assert (b : bool) : sm unit := if b then mret tt else fault.
Definition unless (b : bool) (m : sm unit) : sm unit := if b then mret tt else m.

Definition get_db (d : Z) : sm redisDb := fun s => match sv_db s !! d with Some db => Done db s | None => Fault end.
Definition update_db (d : Z) (f : redisDb -> redisDb) : sm unit := fun s =>
  match sv_db s !! d with Some db => Done tt (s <| sv_db := <[d := f db]> (sv_db s) |>) | None => Fault end.
Definition get_client (c : Z) : sm redisClient := fun s => match sv_clients s !! c with Some cl => Done cl s | None => Fault end.
Definition update_client (c : Z) (f : redisClient -> redisClient) : sm unit := fun s =>
  match sv_clients s !! c with Some cl => Done tt (s <| sv_clients := <[c := f cl]> (sv_clients s) |>) | None => Fault end.

Fixpoint each {A} (l : list A) (body : A -> sm unit) : sm unit :=
  match l with
  | [] => mret tt
  | x :: l => body x;; each l body
  end.

(** [c->flags & f], [c->flags |= f] and [c->flags &= ~f], by the number of the bit. *)
Definition has_bit (c : redisClient) (b : Z) : bool := Z.testbit (c_flags c) b.
Definition set_bit (b : Z) (c : redisClient) : redisClient := c <| c_flags := Z.setbit (c_flags c) b |>.
Definition clear_bit (b : Z) (c : redisClient) : redisClient := c <| c_flags := Z.clearbit (c_flags c) b |>.

Definition add_reply (c : Z) (r : reply) : sm unit := update_client c (fun cl => cl <| c_replies := c_replies cl ++ [r] |>).
Definition reply_error (c : Z) (fmt : string) : sm unit := add_reply c (RError fmt []).
Definition SYNTAX_ERR : string := "ERR syntax error".
Definition WRONGTYPE_ERR : string := "WRONGTYPE Operation against a key holding the wrong kind of value".

(** [c->argv[j]], and the same as an sds: reading [ptr] of an integer object as a string is a fault. *)
Definition arg (c : Z) (j : nat) : sm robj := cl ← get_client c; lift_opt (c_argv cl !! j).
Definition sds_of (o : robj) : sm bytes := match o with StrObj s => mret s | IntObj _ => fault end.
Definition sds_arg (c : Z) (j : nat) : sm bytes := o ← arg c j; sds_of o.
Definition argc (c : Z) : sm Z := cl ← get_client c; mret (zlen (c_argv cl)).
Definition current_db (c : Z) : sm Z := cl ← get_client c; mret (c_db cl).

Definition add_dirty (n : Z) : sm unit := modify_server (fun s => s <| sv_dirty := sv_dirty s + n |>).

Section keyspace.
Context (cf : conf).

Definition mstime : sm Z := fun s => Done (clock cf (sv_ticks s)) (s <| sv_ticks := S (sv_ticks s) |>).

(** ** Watched keys *)

Definition touchWatchedKey (d : Z) (key : bytes) : sm unit :=
  db ← get_db d;
  match db_watched_keys db !! key with
  | None => mret tt
  | Some clients => each clients (fun c => update_client c (set_bit CLIENT_DIRTY_CAS_BIT))
  end.

Definition touchAllWatchedKeysInDb (emptied : Z) (replaced_with : option Z) : sm unit :=
  e ← get_db emptied;
  r ← match replaced_with with Some d => db ← get_db d; mret (Some db) | None => mret None end;
  each (map_to_list (db_watched_keys e)) (fun '(key, clients) =>
    each clients (fun c =>
      if bool_decide (is_Some (db_dict e !! key)) then update_client c (set_bit CLIENT_DIRTY_CAS_BIT)
      else match r with
      | Some db => unless (bool_decide (db_dict db !! key = None)) (update_client c (set_bit CLIENT_DIRTY_CAS_BIT))
      | None => mret tt
      end)).

Definition watchForKey (c : Z) (key : bytes) : sm unit :=
  cl ← get_client c;
  unless (bool_decide ((c_db cl, key) ∈ c_watched_keys cl)) (
    update_db (c_db cl) (fun db => db <| db_watched_keys := <[key := default [] (db_watched_keys db !! key) ++ [c]]> (db_watched_keys db) |>);;
    update_client c (fun cl => cl <| c_watched_keys := c_watched_keys cl ++ [(c_db cl, key)] |>)).

(** [listDelNode(clients,listSearchKey(clients,c))]: the client has to be in the list. *)
Fixpoint remove_client (c : Z) (l : list Z) : option (list Z) :=
  match l with
  | [] => None
  | x :: l => if x =? c then Some l else l ← remove_client c l; Some (x :: l)
  end.

Definition unwatch_key (c : Z) (w : Z * bytes) : sm unit :=
  db ← get_db w.1;
  clients ← lift_opt (db_watched_keys db !! w.2);
  rest ← lift_opt (remove_client c clients);
  update_db w.1 (fun db => db <| db_watched_keys :=
    match rest with [] => delete w.2 (db_watched_keys db) | _ => <[w.2 := rest]> (db_watched_keys db) end |>);;
  update_client c (fun cl => cl <| c_watched_keys := tail (c_watched_keys cl) |>).

Definition unwatchAllKeys (c : Z) : sm unit := cl ← get_client c; each (c_watched_keys cl) (unwatch_key c).

(** ** Propagation *)

Definition shared (s : string) : robj := StrObj (of_string s).

(** The end of [propagate]: [feedAppendOnlyFile] and [replicationFeedSlaves]. *)
Definition feed (dbid : Z) (argv : list robj) : sm unit := modify_server (fun s => s <| sv_propagated := sv_propagated s ++ [(dbid, argv)] |>).

Definition beforePropagateMulti : sm unit :=
  s ← get_server;
  assert (negb (sv_propagate_in_transaction s));;
  modify_server (fun s => s <| sv_propagate_in_transaction := true |>).

Definition afterPropagateExec : sm unit :=
  s ← get_server;
  assert (sv_propagate_in_transaction s);;
  modify_server (fun s => s <| sv_propagate_in_transaction := false |>).

(** The call of [propagate] sees that MULTI was propagated. *)
Definition execCommandPropagateMulti (dbid : Z) : sm unit := beforePropagateMulti;; feed dbid [shared "MULTI"].

Definition propagate (dbid : Z) (argv : list robj) : sm unit :=
  s ← get_server;
  unless (negb (sv_in_exec s && negb (sv_propagate_in_transaction s))) (execCommandPropagateMulti dbid);;
  feed dbid argv.

(** ** Keys *)

Definition signalModifiedKey (d : Z) (key : bytes) : sm unit := touchWatchedKey d key.

(** The entry leaves the dictionary at once; the value may be freed later by
    another thread. *)
Definition dbSyncDelete (d : Z) (key : bytes) : sm bool :=
  db ← get_db d;
  update_db d (fun db => db <| db_expires := delete key (db_expires db) |>);;
  update_db d (fun db => db <| db_dict := delete key (db_dict db) |>);;
  mret (bool_decide (is_Some (db_dict db !! key))).
Definition dbAsyncDelete (d : Z) (key : bytes) : sm bool :=
  db ← get_db d;
  update_db d (fun db => db <| db_expires := delete key (db_expires db) |>);;
  update_db d (fun db => db <| db_dict := delete key (db_dict db) |>);;
  mret (bool_decide (is_Some (db_dict db !! key))).
Definition dbGenericDelete (lazy : bool) (d : Z) (key : bytes) : sm bool := if lazy then dbAsyncDelete d key else dbSyncDelete d key.
Definition dbDelete (d : Z) (key : bytes) : sm bool := dbGenericDelete (lazyfree_lazy_server_del cf) d key.

Definition getExpire (d : Z) (key : bytes) : sm Z :=
  db ← get_db d;
  match db_expires db !! key with
  | None => mret (-1)
  | Some w => assert (bool_decide (is_Some (db_dict db !! key)));; mret w
  end.

(** Writable replicas, which also remember the key, are not modelled. *)
Definition setExpire (d : Z) (key : bytes) (when : Z) : sm unit :=
  db ← get_db d;
  assert (bool_decide (is_Some (db_dict db !! key)));;
  update_db d (fun db => db <| db_expires := <[key := when]> (db_expires db) |>).

Definition removeExpire (d : Z) (key : bytes) : sm bool :=
  db ← get_db d;
  assert (bool_decide (is_Some (db_dict db !! key)));;
  update_db d (fun db => db <| db_expires := delete key (db_expires db) |>);;
  mret (bool_decide (is_Some (db_expires db !! key))).

Definition keyIsExpired (d : Z) (key : bytes) : sm bool :=
  when ← getExpire d key;
  s ← get_server;
  if when <? 0 then mret false
  else if sv_loading s then mret false
  else
    now ← (if sv_fixed_time_expire s >? 0 then mret (sv_mstime s) else mstime);
    mret (now >? when).

Definition propagateExpire (d : Z) (key : bytes) (lazy : bool) : sm unit := propagate d [shared (if lazy then "UNLINK" else "DEL"); StrObj key].

Definition deleteExpiredKeyAndPropagate (d : Z) (key : bytes) : sm unit :=
  dbGenericDelete (lazyfree_lazy_expire cf) d key;;
  signalModifiedKey d key;;
  propagateExpire d key (lazyfree_lazy_expire cf).

Definition expireIfNeeded (d : Z) (key : bytes) : sm bool :=
  expired ← keyIsExpired d key;
  if negb expired then mret false
  else
    s ← get_server;
    if sv_masterhost s then mret true
    else deleteExpiredKeyAndPropagate d key;; mret true.

Definition lookupKey (d : Z) (key : bytes) : sm (option value) := db ← get_db d; mret (db_dict db !! key).

(** [server.current_client && server.current_client != server.master &&
    server.current_client->cmd && server.current_client->cmd->flags & CMD_READONLY] *)
Definition reader_is_client : sm bool :=
  s ← get_server;
  match sv_current_client s with
  | None => mret false
  | Some c =>
      if bool_decide (sv_master s = Some c) then mret false
      else
        cl ← get_client c;
        mret (match c_cmd cl with Some cmd => negb (Z.land (cmd_flags cmd) CMD_READONLY =? 0) | None => false end)
  end.

Definition lookupKeyRead (d : Z) (key : bytes) : sm (option value) :=
  expired ← expireIfNeeded d key;
  s ← get_server;
  hidden ← (if negb expired then mret false else if negb (sv_masterhost s) then mret true else reader_is_client);
  if hidden : bool then mret None else lookupKey d key.

Definition lookupKeyWrite (d : Z) (key : bytes) : sm (option value) := expireIfNeeded d key;; lookupKey d key.

Definition lookupKeyReadOrReply (c : Z) (key : bytes) (r : reply) : sm (option value) :=
  d ← current_db c;
  o ← lookupKeyRead d key;
  unless (bool_decide (is_Some o)) (add_reply c r);;
  mret o.
Definition lookupKeyWriteOrReply (c : Z) (key : bytes) (r : reply) : sm (option value) :=
  d ← current_db c;
  o ← lookupKeyWrite d key;
  unless (bool_decide (is_Some o)) (add_reply c r);;
  mret o.

Definition dbAdd (d : Z) (key : bytes) (val : value) : sm unit :=
  db ← get_db d;
  assert (bool_decide (db_dict db !! key = None));;
  update_db d (fun db => db <| db_dict := <[key := val]> (db_dict db) |>).

Definition dbOverwrite (d : Z) (key : bytes) (val : value) : sm unit :=
  db ← get_db d;
  assert (bool_decide (is_Some (db_dict db !! key)));;
  update_db d (fun db => db <| db_dict := <[key := val]> (db_dict db) |>).

Definition genericSetKey (d : Z) (key : bytes) (val : value) (keepttl : bool) : sm unit :=
  o ← lookupKeyWrite d key;
  match o with None => dbAdd d key val | Some _ => dbOverwrite d key val end;;
  unless keepttl (removeExpire d key;; mret tt);;
  signalModifiedKey d key.

Definition setKey (d : Z) (key : bytes) (val : value) : sm unit := genericSetKey d key val false.

(** The contents of the string, which is then stored as a raw string. *)
Definition dbUnshareStringValue (d : Z) (key : bytes) (o : robj) : sm bytes :=
  dbOverwrite d key (VStr (StrObj (text o)));; mret (text o).

(** ** Databases *)

Definition db_range (dbid : Z) : list Z := if dbid =? -1 then seqZ 0 (dbnum cf) else [dbid].

Definition signalFlushedDb (dbid : Z) : sm unit := each (db_range dbid) (fun j => touchAllWatchedKeysInDb j None).

(** Emptying in another thread replaces the dictionaries at once. *)
Definition emptyDbStructure (dbid : Z) : sm Z :=
  s ← get_server;
  each (db_range dbid) (fun j => update_db j (fun db => db <| db_dict := ∅ |> <| db_expires := ∅ |>));;
  mret (foldr (fun j n => match sv_db s !! j with Some db => Z.of_nat (size (db_dict db)) + n | None => n end) 0 (db_range dbid)).

(** [None] is -1, for a database that is out of range. *)
Definition emptyDb (dbid : Z) : sm (option Z) :=
  if (dbid <? -1) || (dbid >=? dbnum cf) then mret None
  else signalFlushedDb dbid;; removed ← emptyDbStructure dbid; mret (Some removed).

Definition selectDb (c : Z) (id : Z) : sm bool :=
  if (id <? 0) || (id >=? dbnum cf) then mret false
  else update_client c (fun cl => cl <| c_db := id |>);; mret true.

Definition dbSwapDatabases (id1 id2 : Z) : sm bool :=
  if (id1 <? 0) || (id1 >=? dbnum cf) || (id2 <? 0) || (id2 >=? dbnum cf) then mret false
  else if id1 =? id2 then mret true
  else
    db1 ← get_db id1;
    db2 ← get_db id2;
    update_db id1 (fun db => db <| db_dict := db_dict db2 |> <| db_expires := db_expires db2 |>);;
    update_db id2 (fun db => db <| db_dict := db_dict db1 |> <| db_expires := db_expires db1 |>);;
    touchAllWatchedKeysInDb id1 (Some id2);;
    touchAllWatchedKeysInDb id2 (Some id1);;
    mret true.

(** [activeExpireCycleTryExpire] on the entry of a key, if it has one. *)
Definition activeExpireCycleTryExpire (d : Z) (key : bytes) (now : Z) : sm bool :=
  db ← get_db d;
  t ← lift_opt (db_expires db !! key);
  if now >? t then deleteExpiredKeyAndPropagate d key;; mret true else mret false.
End keyspace.
