(* ===== verification/Strings.v ===== *)
(** The commands on strings ([t_string.c]), and what they use of [object.c],
    [networking.c] and of the command table of [server.c].

    The flags of the options are booleans. A signed overflow is undefined, and
    so is an allocation of more than 2^63 bytes. Long doubles are a parameter. *)
From stdpp Require Import gmap.
From Stdlib Require Import String.
From S2P Require Import Prelude Util Wire Replication Keyspace.
Open Scope string_scope.
Open Scope list_scope.
Open Scope Z_scope.

(** ** The command table *)

Definition write : Z := CMD_WRITE.
Definition write_mem : Z := Z.lor CMD_WRITE CMD_DENYOOM.
Definition read_only : Z := CMD_READONLY.
Definition ok_always : Z := Z.lor CMD_LOADING CMD_STALE.

Definition redisCommandTable : list redisCommand := (fun '(n, p, a, f) => mkCommand (of_string n) p a f) <$> [
  ("get", getCommand, 2, read_only); ("getex", getexCommand, -2, write); ("getdel", getdelCommand, 2, write); ("set", setCommand, -3, write_mem);
  ("setnx", setnxCommand, 3, write_mem); ("setex", setexCommand, 4, write_mem); ("psetex", psetexCommand, 4, write_mem); ("append", appendCommand, 3, write_mem);
  ("strlen", strlenCommand, 2, read_only); ("del", delCommand, -2, write); ("unlink", unlinkCommand, -2, write); ("exists", existsCommand, -2, read_only);
  ("setrange", setrangeCommand, 4, write_mem); ("getrange", getrangeCommand, 4, read_only); ("substr", getrangeCommand, 4, read_only);
  ("incr", incrCommand, 2, write_mem); ("decr", decrCommand, 2, write_mem); ("mget", mgetCommand, -2, read_only); ("incrby", incrbyCommand, 3, write_mem);
  ("decrby", decrbyCommand, 3, write_mem); ("incrbyfloat", incrbyfloatCommand, 3, write_mem); ("getset", getsetCommand, 3, write_mem);
  ("mset", msetCommand, -3, write_mem); ("msetnx", msetnxCommand, -3, write_mem); ("select", selectCommand, 2, ok_always); ("swapdb", swapdbCommand, 3, write);
  ("move", moveCommand, 3, write); ("copy", copyCommand, -3, write_mem); ("rename", renameCommand, 3, write); ("renamenx", renamenxCommand, 3, write);
  ("expire", expireCommand, 3, write); ("expireat", expireatCommand, 3, write); ("pexpire", pexpireCommand, 3, write); ("pexpireat", pexpireatCommand, 3, write);
  ("dbsize", dbsizeCommand, 1, read_only); ("type", typeCommand, 2, read_only); ("multi", multiCommand, 1, ok_always); ("exec", execCommand, 1, ok_always);
  ("discard", discardCommand, 1, ok_always); ("flushdb", flushdbCommand, -1, write); ("flushall", flushallCommand, -1, write); ("ttl", ttlCommand, 2, read_only);
  ("touch", touchCommand, -2, read_only); ("pttl", pttlCommand, 2, read_only); ("persist", persistCommand, 2, write); ("watch", watchCommand, -2, ok_always);
  ("unwatch", unwatchCommand, 1, ok_always)].

(** The dictionary of the commands ignores the case of the names. *)
Definition lookupCommand (name : bytes) : option redisCommand := list_find (fun cmd => strcaseeq name (cmd_name cmd) = true) redisCommandTable ≫= fun x => Some x.2.

(** ** Objects *)

(** The result of [string2l], for a string of at most 20 bytes. *)
Definition tryObjectEncoding (o : robj) : sm robj :=
  match o with
  | IntObj v => mret (IntObj v)
  | StrObj s =>
      if zlen s <=? 20 then r ← lift_opt (string2l s (zlen s)); mret (match r with Some v => IntObj v | None => StrObj s end)
      else mret (StrObj s)
  end.

(** [None] is [C_ERR], NULL is 0. *)
Definition long_long_of (o : option robj) : sm (option Z) :=
  match o with
  | None => mret (Some 0)
  | Some (StrObj s) => lift_opt (string2ll s (zlen s))
  | Some (IntObj v) => mret (Some v)
  end.

Definition getLongLongFromObjectOrReply (c : Z) (o : option robj) (msg : string) : sm (option Z) :=
  r ← long_long_of o;
  unless (bool_decide (is_Some r)) (reply_error c msg);;
  mret r.
Definition NOT_AN_INTEGER : string := "value is not an integer or out of range".

(** [INT_MIN] and [INT_MAX] are within the range of a long. *)
Definition getIntFromObjectOrReply (c : Z) (o : robj) (msg : option string) : sm (option Z) :=
  r ← getLongLongFromObjectOrReply c (Some o) (default NOT_AN_INTEGER msg);
  match r with
  | None => mret None
  | Some v =>
      if (v <? - 2 ^ 31) || (v >? 2 ^ 31 - 1) then
        reply_error c (default "value is out of range, value must between -2147483648 and 2147483647" msg);; mret None
      else mret (Some v)
  end.

(** The string of a value, or [None] after the error. NULL passes the test. *)
Definition check_string (c : Z) (o : option value) : sm (option (option robj)) :=
  match o with
  | None => mret (Some None)
  | Some (VStr s) => mret (Some (Some s))
  | Some (VOther _ _) => reply_error c WRONGTYPE_ERR;; mret None
  end.

Definition add_ll (a b : Z) : sm Z := if (LLONG_MIN <=? a + b) && (a + b <=? LLONG_MAX) then mret (a + b) else undefined.

(** An allocation of [n] zero bytes. *)
Definition zeros (n : Z) : sm bytes := if n <? 2 ^ 63 then mret (replicate (Z.to_nat n) 0) else undefined.

(** ** Rewriting commands *)

Definition replaceClientCommandVector (c : Z) (argv : list robj) : sm unit :=
  name ← lift_opt (argv !! 0%nat);
  name ← sds_of name;
  assert (bool_decide (is_Some (lookupCommand name)));;
  update_client c (fun cl => cl <| c_argv := argv |> <| c_cmd := lookupCommand name |>).
Definition rewriteClientCommandVector (c : Z) (argv : list robj) : sm unit := replaceClientCommandVector c argv.

Definition rewriteClientCommandArgument (c : Z) (i : nat) (newval : robj) : sm unit :=
  cl ← get_client c;
  argv ← lift_opt (if (i <? length (c_argv cl))%nat then Some (<[i := newval]> (c_argv cl))
                   else if (i =? length (c_argv cl))%nat then Some (c_argv cl ++ [newval]) else None);
  update_client c (fun cl => cl <| c_argv := argv |>);;
  if (i =? 0)%nat then
    name ← sds_of newval;
    assert (bool_decide (is_Some (lookupCommand name)));;
    update_client c (fun cl => cl <| c_cmd := lookupCommand name |>)
  else mret tt.

Definition set_arg (c : Z) (i : nat) (o : robj) : sm unit := update_client c (fun cl => cl <| c_argv := <[i := o]> (c_argv cl) |>).

(** [c->argv[i] = tryObjectEncoding(c->argv[i])] *)
Definition encode_arg (c : Z) (i : nat) : sm robj := o ← arg c i; o ← tryObjectEncoding o; set_arg c i o;; mret o.

Definition cmd_name_of (c : Z) : sm bytes := cl ← get_client c; cmd ← lift_opt (c_cmd cl); mret (cmd_name cmd).
Definition invalid_expire (c : Z) : sm unit := name ← cmd_name_of c; add_reply c (RError "invalid expire time in %s" [name]).

(** ** Options of SET and GETEX *)

Record options := mkOptions {
  o_nx : bool; o_xx : bool; o_get : bool; o_keepttl : bool; o_persist : bool; o_ex : bool; o_px : bool; o_exat : bool; o_pxat : bool;
  o_milliseconds : bool; o_expire : option robj
}.
#[export] Instance eta_options : Settable options := fun o =>
  mkOptions (o_nx o) (o_xx o) (o_get o) (o_keepttl o) (o_persist o) (o_ex o) (o_px o) (o_exat o) (o_pxat o) (o_milliseconds o) (o_expire o).
Definition OBJ_NO_FLAGS : options := mkOptions false false false false false false false false false false None.

(** The arguments from [argv[j]]. The outer [None] is a fault, the inner one a syntax error. *)
Fixpoint parse_options (is_set : bool) (l : list robj) (o : options) : option (option options) :=
  match l with
  | [] => Some (Some o)
  | IntObj _ :: _ => None
  | StrObj opt :: l =>
      if arg_is opt "nx" && negb (o_xx o) && negb (o_get o) && is_set then parse_options is_set l (o <| o_nx := true |>)
      else if arg_is opt "xx" && negb (o_nx o) && is_set then parse_options is_set l (o <| o_xx := true |>)
      else if arg_is opt "get" && negb (o_nx o) && is_set then parse_options is_set l (o <| o_get := true |>)
      else if arg_is opt "keepttl" && negb (o_persist o || o_ex o || o_exat o || o_px o || o_pxat o) && is_set then
        parse_options is_set l (o <| o_keepttl := true |>)
      else if arg_is opt "persist" && negb is_set && negb (o_ex o || o_exat o || o_px o || o_pxat o || o_keepttl o) then
        parse_options is_set l (o <| o_persist := true |>)
      else match l with
      | [] => Some None
      | next :: l =>
          if arg_is opt "ex" && negb (o_keepttl o || o_persist o || o_exat o || o_px o || o_pxat o) then
            parse_options is_set l (o <| o_ex := true |> <| o_expire := Some next |>)
          else if arg_is opt "px" && negb (o_keepttl o || o_persist o || o_ex o || o_exat o || o_pxat o) then
            parse_options is_set l (o <| o_px := true |> <| o_milliseconds := true |> <| o_expire := Some next |>)
          else if arg_is opt "exat" && negb (o_keepttl o || o_persist o || o_ex o || o_px o || o_pxat o) then
            parse_options is_set l (o <| o_exat := true |> <| o_expire := Some next |>)
          else if arg_is opt "pxat" && negb (o_keepttl o || o_persist o || o_ex o || o_exat o || o_px o) then
            parse_options is_set l (o <| o_pxat := true |> <| o_milliseconds := true |> <| o_expire := Some next |>)
          else Some None
      end
  end.

Definition parseExtendedStringArgumentsOrReply (c : Z) (is_set : bool) : sm (option options) :=
  cl ← get_client c;
  r ← lift_opt (parse_options is_set (drop (if is_set then 3 else 2) (c_argv cl)) OBJ_NO_FLAGS);
  unless (bool_decide (is_Some r)) (reply_error c SYNTAX_ERR);;
  mret r.

(** ** The commands *)

Section strings.
Context (cf : conf).

Definition checkStringLength (c : Z) (size : Z) : sm bool :=
  cl ← get_client c;
  if negb (has_bit cl CLIENT_MASTER_BIT) && (size >? max_bulk_len cf) then
    reply_error c "string exceeds maximum allowed size (proto-max-bulk-len)";; mret false
  else mret true.

(** The expire time given by the client: in milliseconds as given, and as an
    absolute time. [None] after an error. *)
Definition expire_time (c : Z) (o : options) (expire : robj) : sm (option (Z * Z)) :=
  r ← getLongLongFromObjectOrReply c (Some expire) NOT_AN_INTEGER;
  match r with
  | None => mret None
  | Some ms =>
      if (ms <=? 0) || (negb (o_milliseconds o) && (ms >? Z.quot LLONG_MAX 1000)) then invalid_expire c;; mret None
      else
        let ms := if o_milliseconds o then ms else ms * 1000 in
        when ← (if o_px o || o_ex o then now ← mstime cf; add_ll ms now else mret ms);
        if when <=? 0 then invalid_expire c;; mret None else mret (Some (ms, when))
  end.

(** Whether it returned [C_OK]. *)
Definition getGenericCommand (c : Z) : sm bool :=
  key ← sds_arg c 1;
  o ← lookupKeyReadOrReply cf c key RNull;
  match o with
  | None => mret true
  | Some _ =>
      s ← check_string c o;
      match s with
      | Some (Some s) => add_reply c (RBulk (text s));; mret true
      | _ => mret false
      end
  end.

(** The loop that drops GET from the arguments, from [argv[3]]. *)
Fixpoint drop_get (l : list robj) : option (list robj) :=
  match l with
  | [] => Some []
  | IntObj _ :: _ => None
  | StrObj a :: l => l ← drop_get l; Some (if arg_is a "get" then l else StrObj a :: l)
  end.

Definition setGenericCommand (c : Z) (o : options) (key : bytes) (val : robj) (ok_reply abort_reply : reply) : sm unit :=
  d ← current_db c;
  when ← match o_expire o with
         | None => mret (Some None)
         | Some e => r ← expire_time c o e; mret (Some <$> r)
         end;
  match when with
  | None => mret tt
  | Some when =>
      abort ← (if o_nx o then v ← lookupKeyWrite cf d key; mret (bool_decide (is_Some v)) else mret false);
      abort ← (if abort : bool then mret true else if o_xx o then v ← lookupKeyWrite cf d key; mret (bool_decide (v = None)) else mret false);
      if abort : bool then add_reply c abort_reply
      else
        go ← (if o_get o then getGenericCommand c else mret true);
        unless (negb go) (
          genericSetKey cf d key (VStr val) (o_keepttl o);;
          add_dirty 1;;
          match when with
          | Some (ms, when) =>
              setExpire d key when;;
              rewriteClientCommandVector c [shared "SET"; StrObj key; val; shared (if o_pxat o || o_exat o then "PXAT" else "PX"); IntObj ms]
          | None => mret tt
          end;;
          unless (o_get o) (add_reply c ok_reply);;
          unless (negb (o_get o && bool_decide (o_expire o = None))) (
            cl ← get_client c;
            rest ← lift_opt (drop_get (drop 3 (c_argv cl)));
            replaceClientCommandVector c (take 3 (c_argv cl) ++ rest)))
  end.

Definition set_command (c : Z) : sm unit :=
  o ← parseExtendedStringArgumentsOrReply c true;
  match o with
  | None => mret tt
  | Some o => val ← encode_arg c 2; key ← sds_arg c 1; setGenericCommand c o key val ROk RNull
  end.
Definition setnx_command (c : Z) : sm unit :=
  val ← encode_arg c 2; key ← sds_arg c 1; setGenericCommand c (OBJ_NO_FLAGS <| o_nx := true |>) key val (RInt 1) (RInt 0).
Definition setex_command (c : Z) : sm unit :=
  val ← encode_arg c 3; key ← sds_arg c 1; expire ← arg c 2;
  setGenericCommand c (OBJ_NO_FLAGS <| o_ex := true |> <| o_expire := Some expire |>) key val ROk RNull.
Definition psetex_command (c : Z) : sm unit :=
  val ← encode_arg c 3; key ← sds_arg c 1; expire ← arg c 2;
  setGenericCommand c (OBJ_NO_FLAGS <| o_px := true |> <| o_milliseconds := true |> <| o_expire := Some expire |>) key val ROk RNull.

Definition get_command (c : Z) : sm unit := getGenericCommand c;; mret tt.

(** An expire time in the past, on a master that is not loading. *)
Definition checkAlreadyExpired (when : Z) : sm bool :=
  now ← mstime cf;
  s ← get_server;
  mret ((when <=? now) && negb (sv_loading s) && negb (sv_masterhost s)).

(** The key is deleted and the command propagated as DEL or UNLINK. *)
Definition delete_as (lazy : bool) (c d : Z) (key : bytes) : sm unit :=
  rewriteClientCommandVector c [shared (if lazy then "UNLINK" else "DEL"); StrObj key];;
  signalModifiedKey d key.

Definition getex_command (c : Z) : sm unit :=
  opts ← parseExtendedStringArgumentsOrReply c false;
  match opts with
  | None => mret tt
  | Some o =>
      d ← current_db c;
      key ← sds_arg c 1;
      v ← lookupKeyReadOrReply cf c key RNull;
      match v with
      | None => mret tt
      | Some _ =>
          s ← check_string c v;
          match s with
          | Some (Some s) =>
              when ← match o_expire o with
                     | None => mret (Some None)
                     | Some e => r ← expire_time c o e; mret (Some <$> r)
                     end;
              match when with
              | None => mret tt
              | Some when =>
                  add_reply c (RBulk (text s));;
                  let ms := match when with Some (ms, _) => ms | None => 0 end in
                  past ← (if o_pxat o || o_exat o then checkAlreadyExpired ms else mret false);
                  if past : bool then
                    deleted ← dbGenericDelete (lazyfree_lazy_expire cf) d key;
                    assert deleted;;
                    delete_as (lazyfree_lazy_expire cf) c d key;;
                    add_dirty 1
                  else match when with
                  | Some (ms, when) =>
                      setExpire d key when;;
                      rewriteClientCommandVector c [shared (if o_pxat o || o_exat o then "PEXPIREAT" else "PEXPIRE"); StrObj key; IntObj ms];;
                      signalModifiedKey d key;;
                      add_dirty 1
                  | None =>
                      unless (negb (o_persist o)) (
                        removed ← removeExpire d key;
                        unless (negb removed) (
                          signalModifiedKey d key;;
                          rewriteClientCommandVector c [shared "PERSIST"; StrObj key];;
                          add_dirty 1))
                  end
              end
          | _ => mret tt
          end
      end
  end.

Definition getdel_command (c : Z) : sm unit :=
  ok ← getGenericCommand c;
  unless (negb ok) (
    d ← current_db c;
    key ← sds_arg c 1;
    deleted ← dbGenericDelete (lazyfree_lazy_user_del cf) d key;
    unless (negb deleted) (delete_as (lazyfree_lazy_user_del cf) c d key;; add_dirty 1)).

Definition getset_command (c : Z) : sm unit :=
  ok ← getGenericCommand c;
  unless (negb ok) (
    val ← encode_arg c 2;
    d ← current_db c;
    key ← sds_arg c 1;
    setKey cf d key (VStr val);;
    add_dirty 1;;
    rewriteClientCommandArgument c 0 (shared "SET")).

(** [offset+sdslen(value)] is computed without sign, and checked as a signed number. *)
Definition setrange_command (c : Z) : sm unit :=
  value ← sds_arg c 3;
  o ← arg c 2;
  offset ← getLongLongFromObjectOrReply c (Some o) NOT_AN_INTEGER;
  match offset with
  | None => mret tt
  | Some offset =>
      if offset <? 0 then reply_error c "offset is out of range"
      else
        d ← current_db c;
        key ← sds_arg c 1;
        o ← lookupKeyWrite cf d key;
        let total := uwrap 64 (offset + zlen value) in
        old ← match o with
              | None =>
                  if zlen value =? 0 then add_reply c (RInt 0);; mret None
                  else
                    ok ← checkStringLength c (swrap 64 total);
                    if negb ok then mret None
                    else z ← zeros total; dbAdd d key (VStr (StrObj z));; mret (Some z)
              | Some _ =>
                  s ← check_string c o;
                  match s with
                  | Some (Some s) =>
                      if zlen value =? 0 then add_reply c (RInt (zlen (text s)));; mret None
                      else
                        ok ← checkStringLength c (swrap 64 total);
                        if negb ok then mret None else old ← dbUnshareStringValue d key s; mret (Some old)
                  | _ => mret None
                  end
              end;
        match old with
        | None => mret tt
        | Some old =>
            pad ← zeros (total - zlen old);
            new ← lift_opt (bwrite (old ++ pad) offset value);
            dbOverwrite d key (VStr (StrObj new));;
            signalModifiedKey d key;;
            add_dirty 1;;
            add_reply c (RInt (zlen new))
        end
  end.

Definition getrange_command (c : Z) : sm unit :=
  a ← arg c 2;
  start ← getLongLongFromObjectOrReply c (Some a) NOT_AN_INTEGER;
  match start with
  | None => mret tt
  | Some start =>
      b ← arg c 3;
      stop ← getLongLongFromObjectOrReply c (Some b) NOT_AN_INTEGER;
      match stop with
      | None => mret tt
      | Some stop =>
          key ← sds_arg c 1;
          o ← lookupKeyReadOrReply cf c key (RBulk []);
          match o with
          | None => mret tt
          | Some _ =>
              s ← check_string c o;
              match s with
              | Some (Some s) =>
                  let str := text s in
                  let strlen := zlen str in
                  if (start <? 0) && (stop <? 0) && (start >? stop) then add_reply c (RBulk [])
                  else
                    let start := if start <? 0 then strlen + start else start in
                    let stop := if stop <? 0 then strlen + stop else stop in
                    let start := if start <? 0 then 0 else start in
                    let stop := if stop <? 0 then 0 else stop in
                    let stop := if stop >=? strlen then strlen - 1 else stop in
                    if (start >? stop) || (strlen =? 0) then add_reply c (RBulk [])
                    else r ← lift_opt (bslice str start (stop - start + 1)); add_reply c (RBulk r)
              | _ => mret tt
              end
          end
      end
  end.

Definition mget_command (c : Z) : sm unit :=
  cl ← get_client c;
  add_reply c (RArrayLen (zlen (c_argv cl) - 1));;
  each (drop 1 (c_argv cl)) (fun k =>
    key ← sds_of k;
    o ← lookupKeyRead cf (c_db cl) key;
    add_reply c (match o with Some (VStr s) => RBulk (text s) | _ => RNull end)).

(** [for (j = 1; j < argc; j += 2)] over the keys that MSETNX checks. *)
Fixpoint any_exists (d : Z) (l : list robj) : sm bool :=
  match l with
  | k :: _ :: l =>
      key ← sds_of k;
      v ← lookupKeyWrite cf d key;
      if bool_decide (is_Some v) then mret true else any_exists d l
  | _ => mret false
  end.

(** The pairs from [argv[j]]. *)
Fixpoint mset_pairs (c d : Z) (j : nat) (l : list robj) : sm unit :=
  match l with
  | k :: _ :: l =>
      val ← encode_arg c (S j);
      key ← sds_of k;
      setKey cf d key (VStr val);;
      mset_pairs c d (S (S j)) l
  | _ => mret tt
  end.

Definition msetGenericCommand (c : Z) (nx : bool) : sm unit :=
  cl ← get_client c;
  if Z.even (zlen (c_argv cl)) then reply_error c "wrong number of arguments for MSET"
  else
    exists_ ← (if nx then any_exists (c_db cl) (drop 1 (c_argv cl)) else mret false);
    if exists_ : bool then add_reply c (RInt 0)
    else
      mset_pairs c (c_db cl) 1 (drop 1 (c_argv cl));;
      add_dirty (Z.quot (zlen (c_argv cl) - 1) 2);;
      add_reply c (if nx then RInt 1 else ROk).

(** An integer that is not shared and stays so is changed in place, otherwise
    the object is replaced: the value is the same. *)
Definition incrDecrCommand (c : Z) (incr : Z) : sm unit :=
  d ← current_db c;
  key ← sds_arg c 1;
  o ← lookupKeyWrite cf d key;
  s ← check_string c o;
  match s with
  | None => mret tt
  | Some s =>
      v ← getLongLongFromObjectOrReply c s NOT_AN_INTEGER;
      match v with
      | None => mret tt
      | Some oldvalue =>
          if ((incr <? 0) && (oldvalue <? 0) && (incr <? LLONG_MIN - oldvalue)) ||
             ((incr >? 0) && (oldvalue >? 0) && (incr >? LLONG_MAX - oldvalue)) then
            reply_error c "increment or decrement would overflow"
          else
            value ← add_ll oldvalue incr;
            match o with
            | Some _ => dbOverwrite d key (VStr (IntObj value))
            | None => dbAdd d key (VStr (IntObj value))
            end;;
            signalModifiedKey d key;;
            add_dirty 1;;
            add_reply c (RInt value)
      end
  end.

Definition incrby_command (c : Z) : sm unit :=
  o ← arg c 2;
  incr ← getLongLongFromObjectOrReply c (Some o) NOT_AN_INTEGER;
  match incr with Some incr => incrDecrCommand c incr | None => mret tt end.
(** [-incr] overflows for the smallest integer. *)
Definition decrby_command (c : Z) : sm unit :=
  o ← arg c 2;
  incr ← getLongLongFromObjectOrReply c (Some o) NOT_AN_INTEGER;
  match incr with Some incr => neg ← add_ll 0 (- incr); incrDecrCommand c neg | None => mret tt end.

Definition incrbyfloat_command (c : Z) : sm unit :=
  d ← current_db c;
  key ← sds_arg c 1;
  o ← lookupKeyWrite cf d key;
  s ← check_string c o;
  match s with
  | None => mret tt
  | Some s =>
      incr ← arg c 2;
      match add_longdouble cf (match s with Some s => text s | None => of_string "0" end) (text incr) with
      | None => reply_error c "value is not a valid float"
      | Some None => reply_error c "increment would produce NaN or Infinity"
      | Some (Some new) =>
          match o with
          | Some _ => dbOverwrite d key (VStr (StrObj new))
          | None => dbAdd d key (VStr (StrObj new))
          end;;
          signalModifiedKey d key;;
          add_dirty 1;;
          add_reply c (RBulk new);;
          rewriteClientCommandArgument c 0 (shared "SET");;
          rewriteClientCommandArgument c 2 (StrObj new);;
          rewriteClientCommandArgument c 3 (shared "KEEPTTL")
      end
  end.

Definition append_command (c : Z) : sm unit :=
  d ← current_db c;
  key ← sds_arg c 1;
  o ← lookupKeyWrite cf d key;
  totlen ← match o with
           | None => val ← encode_arg c 2; dbAdd d key (VStr val);; mret (Some (zlen (text val)))
           | Some _ =>
               s ← check_string c o;
               match s with
               | Some (Some s) =>
                   append ← sds_arg c 2;
                   ok ← checkStringLength c (zlen (text s) + zlen append);
                   if negb ok then mret None
                   else
                     old ← dbUnshareStringValue d key s;
                     dbOverwrite d key (VStr (StrObj (old ++ append)));;
                     mret (Some (zlen (old ++ append)))
               | _ => mret None
               end
           end;
  match totlen with
  | None => mret tt
  | Some n => signalModifiedKey d key;; add_dirty 1;; add_reply c (RInt n)
  end.

Definition strlen_command (c : Z) : sm unit :=
  key ← sds_arg c 1;
  o ← lookupKeyReadOrReply cf c key (RInt 0);
  match o with
  | None => mret tt
  | Some _ =>
      s ← check_string c o;
      match s with Some (Some s) => add_reply c (RInt (zlen (text s))) | _ => mret tt end
  end.
End strings.
