(* ===== verification/Keys.v ===== *)
(** The commands on keys and databases ([db.c]) and on expire times
    ([expire.c]). *)
From stdpp Require Import gmap.
From Stdlib Require Import String.
From S2P Require Import Prelude Util Wire Replication Keyspace Strings.
Open Scope string_scope.
Open Scope list_scope.
Open Scope Z_scope.

Section keys.
Context (cf : conf).

(** ** Databases *)

(** Whether the arguments are accepted; emptying in another thread only frees
    memory later. *)
Definition getFlushCommandFlags (c : Z) : sm bool :=
  cl ← get_client c;
  match c_argv cl with
  | [_] => mret true
  | [_; StrObj a] => if arg_is a "sync" || arg_is a "async" then mret true else reply_error c SYNTAX_ERR;; mret false
  | [_; IntObj _] => fault
  | _ => reply_error c SYNTAX_ERR;; mret false
  end.

(** The result of [emptyDb] is added to [server.dirty], -1 included. *)
Definition empty_and_count (dbid : Z) : sm unit := removed ← emptyDb cf dbid; add_dirty (default (-1) removed).

Definition flushdb_command (c : Z) : sm unit :=
  ok ← getFlushCommandFlags c;
  unless (negb ok) (d ← current_db c; empty_and_count d;; add_reply c ROk).

(** The RDB file that is saved, or the child that is killed, do not change the
    databases, and [server.dirty] is restored. *)
Definition flushAllDataAndResetRDB : sm unit := empty_and_count (-1);; add_dirty 1.
Definition flushall_command (c : Z) : sm unit :=
  ok ← getFlushCommandFlags c;
  unless (negb ok) (flushAllDataAndResetRDB;; add_reply c ROk).

Definition select_command (c : Z) : sm unit :=
  o ← arg c 1;
  id ← getIntFromObjectOrReply c o None;
  match id with
  | None => mret tt
  | Some id =>
      if cluster_enabled cf && negb (id =? 0) then reply_error c "SELECT is not allowed in cluster mode"
      else
        ok ← selectDb cf c id;
        if ok : bool then add_reply c ROk else reply_error c "DB index is out of range"
  end.

Definition swapdb_command (c : Z) : sm unit :=
  if cluster_enabled cf then reply_error c "SWAPDB is not allowed in cluster mode"
  else
    a ← arg c 1;
    id1 ← getIntFromObjectOrReply c a (Some "invalid first DB index");
    match id1 with
    | None => mret tt
    | Some id1 =>
        b ← arg c 2;
        id2 ← getIntFromObjectOrReply c b (Some "invalid second DB index");
        match id2 with
        | None => mret tt
        | Some id2 =>
            ok ← dbSwapDatabases cf id1 id2;
            if ok : bool then add_dirty 1;; add_reply c ROk else reply_error c "DB index is out of range"
        end
    end.

Definition dbsize_command (c : Z) : sm unit :=
  d ← current_db c; db ← get_db d; add_reply c (RInt (Z.of_nat (size (db_dict db)))).

(** ** Keys *)

(** The loop over the keys, with the number of keys deleted so far. *)
Fixpoint del_keys (lazy : bool) (d : Z) (l : list robj) (numdel : Z) : sm Z :=
  match l with
  | [] => mret numdel
  | k :: l =>
      key ← sds_of k;
      expireIfNeeded cf d key;;
      deleted ← dbGenericDelete lazy d key;
      if deleted : bool then signalModifiedKey d key;; add_dirty 1;; del_keys lazy d l (numdel + 1)
      else del_keys lazy d l numdel
  end.
Definition delGenericCommand (c : Z) (lazy : bool) : sm unit :=
  cl ← get_client c;
  numdel ← del_keys lazy (c_db cl) (drop 1 (c_argv cl)) 0;
  add_reply c (RInt numdel).

Fixpoint count_keys (d : Z) (l : list robj) (count : Z) : sm Z :=
  match l with
  | [] => mret count
  | k :: l => key ← sds_of k; v ← lookupKeyRead cf d key; count_keys d l (if bool_decide (is_Some v) then count + 1 else count)
  end.
(** EXISTS and TOUCH. *)
Definition exists_command (c : Z) : sm unit :=
  cl ← get_client c;
  n ← count_keys (c_db cl) (drop 1 (c_argv cl)) 0;
  add_reply c (RInt n).

Definition getObjectTypeName (o : option value) : bytes :=
  of_string (match o with
             | None => "none"
             | Some (VStr _) => "string"
             | Some (VOther OBJ_LIST _) => "list"
             | Some (VOther OBJ_SET _) => "set"
             | Some (VOther OBJ_ZSET _) => "zset"
             | Some (VOther OBJ_HASH _) => "hash"
             | Some (VOther OBJ_STREAM _) => "stream"
             end).
Definition type_command (c : Z) : sm unit :=
  d ← current_db c; key ← sds_arg c 1; o ← lookupKeyRead cf d key; add_reply c (RStatus (getObjectTypeName o)).

Definition renameGenericCommand (c : Z) (nx : bool) : sm unit :=
  src ← sds_arg c 1;
  dst ← sds_arg c 2;
  o ← lookupKeyWriteOrReply cf c src (RError "no such key" []);
  match o with
  | None => mret tt
  | Some o =>
      if bool_decide (src = dst) then add_reply c (if nx then RInt 0 else ROk)
      else
        d ← current_db c;
        expire ← getExpire d src;
        v ← lookupKeyWrite cf d dst;
        if bool_decide (is_Some v) && nx then add_reply c (RInt 0)
        else
          unless (bool_decide (v = None)) (dbDelete cf d dst;; mret tt);;
          dbAdd d dst o;;
          unless (expire =? -1) (setExpire d dst expire);;
          dbDelete cf d src;;
          signalModifiedKey d src;;
          signalModifiedKey d dst;;
          add_dirty 1;;
          add_reply c (if nx then RInt 1 else ROk)
  end.

(** A database given by its number: [None] after the error. *)
Definition target_db (c : Z) (o : robj) : sm (option Z) :=
  srcid ← current_db c;
  id ← getIntFromObjectOrReply c o None;
  match id with
  | None => mret None
  | Some id =>
      ok ← selectDb cf c id;
      if ok : bool then selectDb cf c srcid;; mret (Some id)
      else reply_error c "DB index is out of range";; mret None
  end.

Definition move_command (c : Z) : sm unit :=
  if cluster_enabled cf then reply_error c "MOVE is not allowed in cluster mode"
  else
    src ← current_db c;
    o ← arg c 2;
    dst ← target_db c o;
    match dst with
    | None => mret tt
    | Some dst =>
        if src =? dst then reply_error c "source and destination objects are the same"
        else
          key ← sds_arg c 1;
          o ← lookupKeyWrite cf src key;
          match o with
          | None => add_reply c (RInt 0)
          | Some o =>
              expire ← getExpire src key;
              v ← lookupKeyWrite cf dst key;
              if bool_decide (is_Some v) then add_reply c (RInt 0)
              else
                dbAdd dst key o;;
                unless (expire =? -1) (setExpire dst key expire);;
                dbDelete cf src key;;
                signalModifiedKey src key;;
                signalModifiedKey dst key;;
                add_dirty 1;;
                add_reply c (RInt 1)
          end
    end.

(** The options from [argv[j]]: the target database and REPLACE, [None] after an error. *)
Fixpoint copy_options (c : Z) (l : list robj) (dst : Z) (replace : bool) : sm (option (Z * bool)) :=
  match l with
  | [] => mret (Some (dst, replace))
  | o :: l =>
      opt ← sds_of o;
      if arg_is opt "replace" then copy_options c l dst true
      else match l with
      | [] => reply_error c SYNTAX_ERR;; mret None
      | next :: l =>
          if arg_is opt "db" then
            id ← target_db c next;
            match id with None => mret None | Some id => copy_options c l id replace end
          else reply_error c SYNTAX_ERR;; mret None
      end
  end.

Definition copy_command (c : Z) : sm unit :=
  cl ← get_client c;
  let src := c_db cl in
  r ← copy_options c (drop 3 (c_argv cl)) src false;
  match r with
  | None => mret tt
  | Some (dst, replace) =>
      if cluster_enabled cf && (negb (src =? 0) || negb (dst =? 0)) then
        reply_error c "Copying to another database is not allowed in cluster mode"
      else
        key ← sds_arg c 1;
        newkey ← sds_arg c 2;
        if (src =? dst) && bool_decide (key = newkey) then reply_error c "source and destination objects are the same"
        else
          o ← lookupKeyWrite cf src key;
          match o with
          | None => add_reply c (RInt 0)
          | Some o =>
              expire ← getExpire src key;
              v ← lookupKeyWrite cf dst newkey;
              if bool_decide (is_Some v) && negb replace then add_reply c (RInt 0)
              else
                unless (bool_decide (v = None)) (dbDelete cf dst newkey;; mret tt);;
                dbAdd dst newkey o;;
                unless (expire =? -1) (setExpire dst newkey expire);;
                signalModifiedKey dst newkey;;
                add_dirty 1;;
                add_reply c (RInt 1)
          end
  end.

(** ** Expire times *)

(** [seconds] is the unit. *)
Definition expireGenericCommand (c : Z) (basetime : Z) (seconds : bool) : sm unit :=
  key ← sds_arg c 1;
  param ← arg c 2;
  d ← current_db c;
  r ← getLongLongFromObjectOrReply c (Some param) NOT_AN_INTEGER;
  match r with
  | None => mret tt
  | Some n =>
      if seconds && ((n >? Z.quot LLONG_MAX 1000) || (n <? Z.quot LLONG_MIN 1000)) then invalid_expire c
      else
        let n := if seconds then n * 1000 else n in
        limit ← add_ll LLONG_MAX (- basetime);
        if n >? limit then invalid_expire c
        else
          when ← add_ll n basetime;
          o ← lookupKeyWrite cf d key;
          match o with
          | None => add_reply c (RInt 0)
          | Some _ =>
              past ← checkAlreadyExpired cf when;
              if past : bool then
                deleted ← dbGenericDelete (lazyfree_lazy_expire cf) d key;
                assert deleted;;
                add_dirty 1;;
                delete_as (lazyfree_lazy_expire cf) c d key;;
                add_reply c (RInt 1)
              else
                setExpire d key when;;
                add_reply c (RInt 1);;
                signalModifiedKey d key;;
                add_dirty 1
          end
  end.

Definition expire_command (c : Z) : sm unit := now ← mstime cf; expireGenericCommand c now true.
Definition expireat_command (c : Z) : sm unit := expireGenericCommand c 0 true.
Definition pexpire_command (c : Z) : sm unit := now ← mstime cf; expireGenericCommand c now false.
Definition pexpireat_command (c : Z) : sm unit := expireGenericCommand c 0 false.

Definition ttlGenericCommand (c : Z) (output_ms : bool) : sm unit :=
  d ← current_db c;
  key ← sds_arg c 1;
  o ← lookupKeyRead cf d key;
  match o with
  | None => add_reply c (RInt (-2))
  | Some _ =>
      expire ← getExpire d key;
      ttl ← (if expire =? -1 then mret (-1)
             else now ← mstime cf; ttl ← add_ll expire (- now); mret (if ttl <? 0 then 0 else ttl));
      if ttl =? -1 then add_reply c (RInt (-1))
      else if output_ms then add_reply c (RInt ttl)
      else rounded ← add_ll ttl 500; add_reply c (RInt (Z.quot rounded 1000))
  end.

Definition persist_command (c : Z) : sm unit :=
  d ← current_db c;
  key ← sds_arg c 1;
  o ← lookupKeyWrite cf d key;
  match o with
  | None => add_reply c (RInt 0)
  | Some _ =>
      removed ← removeExpire d key;
      if removed : bool then signalModifiedKey d key;; add_reply c (RInt 1);; add_dirty 1
      else add_reply c (RInt 0)
  end.
End keys.
