(* ===== verification/Transactions.v ===== *)
(** Transactions ([multi.c]) and the execution of commands ([server.c]:
    [call], [processCommand]).

    The checks of [processCommand] that depend on other parts of the server
    (authentication and access control, redirections of the cluster, memory,
    disk errors, replicas, publish/subscribe, a broken link with the master, slow
    scripts) are a parameter, [reject]; so is the access control of the commands
    of a transaction, [denied]. *)
From stdpp Require Import gmap.
From Stdlib Require Import String.
From S2P Require Import Prelude Util Wire Replication Keyspace Strings Keys.
Open Scope string_scope.
Open Scope list_scope.
Open Scope Z_scope.

Section transactions.
Context (cf : conf) (reject denied : kserver -> Z -> option string).

(** ** Transactions *)

Definition initClientMultiState (cl : redisClient) : redisClient := cl <| c_commands := [] |> <| c_cmd_flags := 0 |> <| c_cmd_inv_flags := 0 |>.

Definition queueMultiCommand (c : Z) : sm unit :=
  cl ← get_client c;
  unless (has_bit cl CLIENT_DIRTY_EXEC_BIT) (
    cmd ← lift_opt (c_cmd cl);
    update_client c (fun cl => cl <| c_commands := c_commands cl ++ [mkMultiCmd (c_argv cl) cmd] |>
      <| c_cmd_flags := Z.lor (c_cmd_flags cl) (cmd_flags cmd) |> <| c_cmd_inv_flags := Z.lor (c_cmd_inv_flags cl) (Z.lnot (cmd_flags cmd)) |>)).

Definition discardTransaction (c : Z) : sm unit :=
  update_client c (fun cl => clear_bit CLIENT_DIRTY_EXEC_BIT (clear_bit CLIENT_DIRTY_CAS_BIT (clear_bit CLIENT_MULTI_BIT (initClientMultiState cl))));;
  unwatchAllKeys c.

Definition flagTransaction (c : Z) : sm unit :=
  cl ← get_client c;
  unless (negb (has_bit cl CLIENT_MULTI_BIT)) (update_client c (set_bit CLIENT_DIRTY_EXEC_BIT)).

Definition multi_command (c : Z) : sm unit :=
  cl ← get_client c;
  if has_bit cl CLIENT_MULTI_BIT then reply_error c "MULTI calls can not be nested"
  else update_client c (set_bit CLIENT_MULTI_BIT);; add_reply c ROk.

Definition discard_command (c : Z) : sm unit :=
  cl ← get_client c;
  if negb (has_bit cl CLIENT_MULTI_BIT) then reply_error c "DISCARD without MULTI"
  else discardTransaction c;; add_reply c ROk.

Definition watch_command (c : Z) : sm unit :=
  cl ← get_client c;
  if has_bit cl CLIENT_MULTI_BIT then reply_error c "WATCH inside MULTI is not allowed"
  else each (drop 1 (c_argv cl)) (fun k => key ← sds_of k; watchForKey c key);; add_reply c ROk.

Definition unwatch_command (c : Z) : sm unit :=
  unwatchAllKeys c;; update_client c (clear_bit CLIENT_DIRTY_CAS_BIT);; add_reply c ROk.

Fixpoint any_expired (l : list (Z * bytes)) : sm bool :=
  match l with
  | [] => mret false
  | w :: l => e ← keyIsExpired cf w.1 w.2; if e : bool then mret true else any_expired l
  end.
Definition isWatchedKeyExpired (c : Z) : sm bool := cl ← get_client c; any_expired (c_watched_keys cl).

Definition execCommandAbort (c : Z) (error : string) : sm unit :=
  discardTransaction c;; add_reply c (RError "-EXECABORT Transaction discarded because of: %s" [of_string error]).

(** ** Commands *)

(** The functions of the table, EXEC apart. *)
Definition run_proc (p : proc) (c : Z) : sm unit :=
  match p with
  | getCommand => get_command cf c
  | getexCommand => getex_command cf c
  | getdelCommand => getdel_command cf c
  | setCommand => set_command cf c
  | setnxCommand => setnx_command cf c
  | setexCommand => setex_command cf c
  | psetexCommand => psetex_command cf c
  | appendCommand => append_command cf c
  | strlenCommand => strlen_command cf c
  | delCommand => delGenericCommand cf c (lazyfree_lazy_user_del cf)
  | unlinkCommand => delGenericCommand cf c true
  | existsCommand | touchCommand => exists_command cf c
  | setrangeCommand => setrange_command cf c
  | getrangeCommand => getrange_command cf c
  | incrCommand => incrDecrCommand cf c 1
  | decrCommand => incrDecrCommand cf c (-1)
  | mgetCommand => mget_command cf c
  | incrbyCommand => incrby_command cf c
  | decrbyCommand => decrby_command cf c
  | incrbyfloatCommand => incrbyfloat_command cf c
  | getsetCommand => getset_command cf c
  | msetCommand => msetGenericCommand cf c false
  | msetnxCommand => msetGenericCommand cf c true
  | selectCommand => select_command cf c
  | swapdbCommand => swapdb_command cf c
  | moveCommand => move_command cf c
  | copyCommand => copy_command cf c
  | renameCommand => renameGenericCommand cf c false
  | renamenxCommand => renameGenericCommand cf c true
  | expireCommand => expire_command cf c
  | expireatCommand => expireat_command cf c
  | pexpireCommand => pexpire_command cf c
  | pexpireatCommand => pexpireat_command cf c
  | dbsizeCommand => dbsize_command c
  | typeCommand => type_command cf c
  | multiCommand => multi_command c
  | execCommand => mret tt
  | discardCommand => discard_command c
  | flushdbCommand => flushdb_command cf c
  | flushallCommand => flushall_command cf c
  | ttlCommand => ttlGenericCommand cf c false
  | pttlCommand => ttlGenericCommand cf c true
  | persistCommand => persist_command cf c
  | watchCommand => watch_command c
  | unwatchCommand => unwatch_command c
  end.

(** The cached time is only updated when the call is not nested. *)
Definition begin_call : sm unit :=
  s ← get_server;
  unless (negb (sv_fixed_time_expire s =? 0)) (now ← mstime cf; modify_server (fun s => s <| sv_mstime := now |>));;
  modify_server (fun s => s <| sv_fixed_time_expire := sv_fixed_time_expire s + 1 |>).

(** What [call] does after the function: the command is propagated if
    [server.dirty] grew, unless the server is loading in a transaction
    ([CMD_CALL_NONE]). *)
Definition end_call (c : Z) (full : bool) (dirty0 : Z) : sm unit :=
  s ← get_server;
  unless (negb (full && (sv_dirty s >? dirty0))) (cl ← get_client c; propagate (c_db cl) (c_argv cl));;
  modify_server (fun s => s <| sv_fixed_time_expire := sv_fixed_time_expire s - 1 |>).

Definition call_with (body : Z -> sm unit) (c : Z) (full : bool) : sm unit :=
  s ← get_server;
  let dirty0 := sv_dirty s in
  begin_call;; body c;; end_call c full dirty0.

(** [c->cmd->proc(c)] for a command of a transaction: EXEC is never queued. *)
Definition queued_proc (c : Z) : sm unit :=
  cl ← get_client c;
  cmd ← lift_opt (c_cmd cl);
  assert (negb (bool_decide (cmd_proc cmd = execCommand)));;
  run_proc (cmd_proc cmd) c.

Definition exec_one (c : Z) (mc : multiCmd) : sm unit :=
  update_client c (fun cl => cl <| c_argv := mc_argv mc |> <| c_cmd := Some (mc_cmd mc) |>);;
  s ← get_server;
  match denied s c with
  | Some reason => add_reply c (RError "-NOPERM ACLs rules changed between the moment the transaction was accumulated and the EXEC call. This command is no longer allowed for the following reason: %s" [of_string reason])
  | None => call_with queued_proc c (negb (sv_loading s))
  end.

(** The end of EXEC: [server.repl_backlog] only matters when the server became
    a replica during the transaction, which no command here does. *)
Definition exec_end : sm unit :=
  s ← get_server;
  unless (negb (sv_propagate_in_transaction s)) (add_dirty 1;; afterPropagateExec);;
  modify_server (fun s => s <| sv_in_exec := false |>).

Definition exec_command (c : Z) : sm unit :=
  cl ← get_client c;
  if negb (has_bit cl CLIENT_MULTI_BIT) then reply_error c "EXEC without MULTI"
  else
    expired ← isWatchedKeyExpired c;
    unless (negb expired) (update_client c (set_bit CLIENT_DIRTY_CAS_BIT));;
    cl ← get_client c;
    if has_bit cl CLIENT_DIRTY_CAS_BIT || has_bit cl CLIENT_DIRTY_EXEC_BIT then
      add_reply c (if has_bit cl CLIENT_DIRTY_EXEC_BIT then RError "EXECABORT Transaction discarded because of previous errors." [] else RNullArray);;
      discardTransaction c
    else
      update_client c (set_bit CLIENT_DENY_BLOCKING_BIT);;
      unwatchAllKeys c;;
      modify_server (fun s => s <| sv_in_exec := true |>);;
      add_reply c (RArrayLen (zlen (c_commands cl)));;
      each (c_commands cl) (exec_one c);;
      unless (has_bit cl CLIENT_DENY_BLOCKING_BIT) (update_client c (clear_bit CLIENT_DENY_BLOCKING_BIT));;
      update_client c (fun cl' => cl' <| c_argv := c_argv cl |> <| c_cmd := c_cmd cl |>);;
      discardTransaction c;;
      exec_end.

Definition any_proc (c : Z) : sm unit :=
  cl ← get_client c;
  cmd ← lift_opt (c_cmd cl);
  if bool_decide (cmd_proc cmd = execCommand) then exec_command c else run_proc (cmd_proc cmd) c.

Definition rejectCommand (c : Z) (error : string) : sm unit :=
  flagTransaction c;;
  cl ← get_client c;
  match c_cmd cl with
  | Some cmd => if bool_decide (cmd_proc cmd = execCommand) then execCommandAbort c error else add_reply c (RError error [])
  | None => add_reply c (RError error [])
  end.

(** [c->cmd->flags & f], or for EXEC the flags of the queued commands. *)
Definition cmd_has (cl : redisClient) (cmd : redisCommand) (f : Z) : bool :=
  negb (Z.land (cmd_flags cmd) f =? 0) || (bool_decide (cmd_proc cmd = execCommand) && negb (Z.land (c_cmd_flags cl) f =? 0)).
Definition denies_loading (cl : redisClient) (cmd : redisCommand) : bool :=
  (Z.land (cmd_flags cmd) CMD_LOADING =? 0) || (bool_decide (cmd_proc cmd = execCommand) && negb (Z.land (c_cmd_inv_flags cl) CMD_LOADING =? 0)).

Definition queued_in_multi (p : proc) : bool :=
  negb (bool_decide (p = execCommand) || bool_decide (p = discardCommand) || bool_decide (p = multiCommand) || bool_decide (p = watchCommand)).

(** The arguments of the client are its command. QUIT, which closes the
    connection, and replicas, which send no commands on keys, are left out. *)
Definition processCommand (c : Z) : sm unit :=
  s ← get_server;
  assert (negb (sv_propagate_in_transaction s));;
  assert (negb (sv_in_exec s));;
  name ← sds_arg c 0;
  update_client c (fun cl => cl <| c_cmd := lookupCommand name |>);;
  cl ← get_client c;
  match c_cmd cl with
  | None => rejectCommand c "unknown command"
  | Some cmd =>
      let argc := zlen (c_argv cl) in
      if ((cmd_arity cmd >? 0) && negb (cmd_arity cmd =? argc)) || (argc <? - cmd_arity cmd) then rejectCommand c "wrong number of arguments"
      else
        s ← get_server;
        match reject s c with
        | Some error => rejectCommand c error
        | None =>
            if sv_masterhost s && repl_slave_ro cf && negb (has_bit cl CLIENT_MASTER_BIT) && cmd_has cl cmd CMD_WRITE then
              rejectCommand c "-READONLY You can't write against a read only replica."
            else if sv_loading s && denies_loading cl cmd then rejectCommand c "-LOADING Redis is loading the dataset in memory"
            else if has_bit cl CLIENT_MULTI_BIT && queued_in_multi (cmd_proc cmd) then
              queueMultiCommand c;; add_reply c (RStatus (of_string "QUEUED"))
            else call_with any_proc c true
        end
  end.

(** A client sends a command. *)
Definition serve (c : Z) (argv : list robj) : sm unit :=
  update_client c (fun cl => cl <| c_argv := argv |>);;
  modify_server (fun s => s <| sv_current_client := Some c |>);;
  processCommand c;;
  modify_server (fun s => s <| sv_current_client := None |>).

(** ** Clients *)

Definition createClient (c : Z) (flags : Z) : sm unit :=
  modify_server (fun s => s <| sv_clients := <[c := mkRedisClient 0 flags [] None [] [] 0 0 []]> (sv_clients s) |>).

(** The part of [freeClient] about watched keys and transactions. *)
Definition freeClient (c : Z) : sm unit :=
  unwatchAllKeys c;; modify_server (fun s => s <| sv_clients := delete c (sv_clients s) |>).
End transactions.
