(* ===== verification/KeyspaceLogic.v ===== *)
(** Reasoning about the commands: relations between the states before and after
    them, for the runs that end.

    [Steps R m] says that a run of [m] that ends relates its states by [R]. For
    a preorder it is enough to look at the parts of [m]; the tactic [steps]
    takes [m] apart, and the hints of [steps] give the parts. *)
From stdpp Require Import gmap.
From Stdlib Require Import String.
From S2P Require Import Prelude Util Wire Replication Keyspace Strings Keys Transactions.

Definition Steps {A} (R : kserver -> kserver -> Prop) (m : sm A) : Prop := forall s a s', m s = Done a s' -> R s s'.

Create HintDb steps discriminated.

Lemma done_bind {A B} (m : sm A) (f : A -> sm B) s b s' : (a ← m; f a) s = Done b s' -> exists a s1, m s = Done a s1 /\ f a s1 = Done b s'.
Proof. unfold mbind, sm_bind. destruct (m s) as [a s1| |] eqn:E; [|done|done]. eauto. Qed.

(** Lists of pairs. *)
Lemma pairs_ind {A} (P : list A -> Prop) : P [] -> (forall x, P [x]) -> (forall x y l, P l -> P (x :: y :: l)) -> forall l, P l.
Proof. intros H0 H1 H2. fix IH 1. intros [|x [|y l]]; [done|done|]. apply H2, IH. Qed.

(** ** Flags *)

Lemma has_set_bit cl b b' : 0 <= b -> has_bit (set_bit b cl) b' = (b =? b') || has_bit cl b'.
Proof. intros Hb. exact (Z.setbit_eqb (c_flags cl) b b' Hb). Qed.
Lemma has_clear_bit cl b b' : has_bit (clear_bit b cl) b' = has_bit cl b' && negb (b =? b').
Proof. exact (Z.clearbit_eqb (c_flags cl) b b'). Qed.

Section steps.
Context (R : kserver -> kserver -> Prop) `{!PreOrder R}.

Lemma steps_ret {A} (a : A) : Steps R (mret a).
Proof. intros s b s' [= _ <-]. reflexivity. Qed.
Lemma steps_bind {A B} (m : sm A) (f : A -> sm B) : Steps R m -> (forall a, Steps R (f a)) -> Steps R (a ← m; f a).
Proof. intros Hm Hf s b s' (a & s1 & E1 & E2)%done_bind. etrans; [by eapply Hm|by eapply Hf]. Qed.
Lemma steps_fault {A} : Steps R (fault (A:=A)).
Proof. by intros s a s'. Qed.
Lemma steps_undefined {A} : Steps R (undefined (A:=A)).
Proof. by intros s a s'. Qed.
Lemma steps_get_server : Steps R get_server.
Proof. intros s a s' [= _ <-]. reflexivity. Qed.
Lemma steps_get_db d : Steps R (get_db d).
Proof. intros s a s'. unfold get_db. destruct (sv_db s !! d); [|done]. intros [= _ <-]. reflexivity. Qed.
Lemma steps_get_client c : Steps R (get_client c).
Proof. intros s a s'. unfold get_client. destruct (sv_clients s !! c); [|done]. intros [= _ <-]. reflexivity. Qed.
Lemma steps_lift {A} (o : option A) : Steps R (lift_opt o).
Proof. destruct o; [apply steps_ret|apply steps_fault]. Qed.
Lemma steps_assert b : Steps R (assert b).
Proof. destruct b; [apply steps_ret|apply steps_fault]. Qed.
Lemma steps_unless b m : Steps R m -> Steps R (unless b m).
Proof. intros H. destruct b; [apply steps_ret|done]. Qed.
Lemma steps_each {A} (l : list A) body : (forall x, x ∈ l -> Steps R (body x)) -> Steps R (each l body).
Proof.
  induction l as [|x l IH]; intros H; [apply steps_ret|]. apply steps_bind; [apply H; left|]. intros _. apply IH. intros y Hy. apply H. by right.
Qed.
Lemma steps_modify f : (forall s, R s (f s)) -> Steps R (modify_server f).
Proof. intros H s a s' [= _ <-]. apply H. Qed.
Lemma steps_update_client c f : (forall s cl, sv_clients s !! c = Some cl -> R s (s <| sv_clients := <[c := f cl]> (sv_clients s) |>)) -> Steps R (update_client c f).
Proof. intros H s a s'. unfold update_client. destruct (sv_clients s !! c) as [cl|] eqn:E; [|done]. intros [= _ <-]. by apply H. Qed.
Lemma steps_update_db d f : (forall s db, sv_db s !! d = Some db -> R s (s <| sv_db := <[d := f db]> (sv_db s) |>)) -> Steps R (update_db d f).
Proof. intros H s a s'. unfold update_db. destruct (sv_db s !! d) as [db|] eqn:E; [|done]. intros [= _ <-]. by apply H. Qed.
End steps.

(** Take a program apart; [leaf] is tried on each part first. *)
Ltac steps_with leaf :=
  cbv beta zeta;
  first
  [ leaf
  | lazymatch goal with
    | |- Steps ?R (mret _) => apply (steps_ret R)
    | |- Steps ?R (mbind _ _) => apply (steps_bind R); [|intros ?]; steps_with leaf
    | |- Steps ?R fault => apply (steps_fault R)
    | |- Steps ?R undefined => apply (steps_undefined R)
    | |- Steps ?R get_server => apply (steps_get_server R)
    | |- Steps ?R (get_db _) => apply (steps_get_db R)
    | |- Steps ?R (get_client _) => apply (steps_get_client R)
    | |- Steps ?R (lift_opt _) => apply (steps_lift R)
    | |- Steps ?R (assert _) => apply (steps_assert R)
    | |- Steps ?R (unless _ _) => apply (steps_unless R); steps_with leaf
    | |- Steps ?R (each _ _) => apply (steps_each R); intros ? ?; steps_with leaf
    | |- Steps _ (match ?x with _ => _ end) => destruct x; steps_with leaf
    end
  | idtac ].
Ltac steps := steps_with ltac:(solve [eauto with steps]).
