(* ===== verification/Watch.v ===== *)
(** Optimistic locking with WATCH: between WATCH and an EXEC that is not aborted,
    no watched key changes. *)
From stdpp Require Import gmap.
From Stdlib Require Import String.
From S2P Require Import Prelude Util Wire Replication Keyspace Strings Keys Transactions KeyspaceLogic.

(** A key: its value, and its expire time if it has one. *)
Definition entry (s : kserver) (d : Z) (k : bytes) : option (value * option Z) :=
  db ← sv_db s !! d; v ← db_dict db !! k; Some (v, db_expires db !! k).

Definition watchers (s : kserver) (d : Z) (k : bytes) : list Z :=
  match sv_db s !! d with Some db => default [] (db_watched_keys db !! k) | None => [] end.

Definition client_has (s : kserver) (c b : Z) : bool := match sv_clients s !! c with Some cl => has_bit cl b | None => false end.

(** ** What a command does to a watched key *)

Section watched.
Context (c0 d0 : Z) (k0 : bytes).

Definition watching (s : kserver) : Prop := c0 ∈ watchers s d0 k0 /\ is_Some (sv_clients s !! c0).
Definition dirty (s : kserver) : Prop := client_has s c0 CLIENT_DIRTY_CAS_BIT = true.

(** The client goes on watching the key and stays marked. *)
Definition mono (s s' : kserver) : Prop := watching s -> watching s' /\ (dirty s -> dirty s').
(** Moreover the key is the same, or the client is marked. *)
Definition safe (s s' : kserver) : Prop :=
  watching s -> watching s' /\ (dirty s -> dirty s') /\ (entry s' d0 k0 = entry s d0 k0 \/ dirty s').
(** The client is marked. *)
Definition marks (s s' : kserver) : Prop := watching s -> watching s' /\ dirty s'.

#[export] Instance mono_preorder : PreOrder mono.
Proof. split; [intros s; by split|]. intros s1 s2 s3 H1 H2 Hw. destruct (H1 Hw) as [Hw2 ?]. destruct (H2 Hw2). auto. Qed.
#[export] Instance safe_preorder : PreOrder safe.
Proof.
  split; [intros s; split; auto|]. intros s1 s2 s3 H1 H2 Hw. destruct (H1 Hw) as (Hw2 & D1 & E1). destruct (H2 Hw2) as (Hw3 & D2 & E2).
  split; [done|]. split; [auto|]. destruct E2 as [E2|]; [|auto]. destruct E1 as [E1|]; [left; congruence|auto].
Qed.

Lemma mono_of_safe {A} (m : sm A) : Steps safe m -> Steps mono m.
Proof. intros H s a s' E Hw. destruct (H _ _ _ E Hw) as (? & ? & _). auto. Qed.
Lemma safe_of_marks {A} (m : sm A) : Steps marks m -> Steps safe m.
Proof. intros H s a s' E Hw. destruct (H _ _ _ E Hw). auto. Qed.
Lemma marks_left {A B} (m : sm A) (f : A -> sm B) : Steps marks m -> (forall a, Steps mono (f a)) -> Steps marks (a ← m; f a).
Proof.
  intros Hm Hf s b s' (a & s1 & E1 & E2)%done_bind Hw. destruct (Hm _ _ _ E1 Hw) as [Hw1 D]. destruct (Hf _ _ _ _ E2 Hw1). auto.
Qed.
Lemma marks_right {A B} (m : sm A) (f : A -> sm B) : Steps mono m -> (forall a, Steps marks (f a)) -> Steps marks (a ← m; f a).
Proof. intros Hm Hf s b s' (a & s1 & E1 & E2)%done_bind Hw. destruct (Hm _ _ _ E1 Hw) as [Hw1 D]. by eapply Hf. Qed.

(** States that differ in nothing the relations look at. *)
Lemma safe_same s s' : sv_db s' = sv_db s -> sv_clients s' = sv_clients s -> safe s s'.
Proof. unfold safe, watching, dirty, entry, watchers, client_has. intros -> -> ?. auto. Qed.

(** ** The parts of the commands *)

Lemma steps_client c f : (c = c0 -> forall cl, has_bit cl CLIENT_DIRTY_CAS_BIT = true -> has_bit (f cl) CLIENT_DIRTY_CAS_BIT = true) ->
  Steps safe (update_client c f).
Proof.
  intros Hf. apply steps_update_client. intros s cl E [Hw Hc]. split; [|split].
  - split; [done|]. change (is_Some (<[c := f cl]> (sv_clients s) !! c0)). destruct (decide (c = c0)) as [->|].
    + rewrite lookup_insert_eq. eauto.
    + by rewrite lookup_insert_ne.
  - unfold dirty, client_has. change (sv_clients (s <| sv_clients := <[c:=f cl]> (sv_clients s) |>)) with (<[c:=f cl]> (sv_clients s)).
    destruct (decide (c = c0)) as [->|]; [rewrite lookup_insert_eq, E; auto|by rewrite lookup_insert_ne].
  - by left.
Qed.

Lemma marks_client : Steps marks (update_client c0 (set_bit CLIENT_DIRTY_CAS_BIT)).
Proof.
  apply steps_update_client. intros s cl E [Hw Hc]. unfold watching, dirty, client_has.
  change (sv_clients (s <| sv_clients := <[c0:=set_bit CLIENT_DIRTY_CAS_BIT cl]> (sv_clients s) |>)) with (<[c0:=set_bit CLIENT_DIRTY_CAS_BIT cl]> (sv_clients s)).
  rewrite lookup_insert_eq. split; [split; [done|eauto]|]. by rewrite has_set_bit.
Qed.

Lemma steps_db d f : (forall db, db_watched_keys (f db) = db_watched_keys db) -> Steps mono (update_db d f).
Proof.
  intros Hf. apply steps_update_db. intros s db E [Hw Hc]. split; [|done]. split; [|done]. revert Hw. unfold watchers.
  change (sv_db (s <| sv_db := <[d:=f db]> (sv_db s) |>)) with (<[d:=f db]> (sv_db s)).
  destruct (decide (d = d0)) as [->|]; [rewrite lookup_insert_eq, E, Hf; done|by rewrite lookup_insert_ne].
Qed.

Lemma steps_db_other d f k : (forall db, db_watched_keys (f db) = db_watched_keys db) ->
  (forall db k', k' <> k -> db_dict (f db) !! k' = db_dict db !! k' /\ db_expires (f db) !! k' = db_expires db !! k') -> (d, k) <> (d0, k0) ->
  Steps safe (update_db d f).
Proof.
  intros Hf Hk Hn s a s' E Hw. destruct (steps_db d f Hf s a s' E Hw) as [Hw' D]. split; [done|]. split; [done|]. left. revert E.
  unfold update_db. destruct (sv_db s !! d) as [db|] eqn:E; [|done]. intros [= _ <-]. unfold entry.
  change (sv_db (s <| sv_db := <[d:=f db]> (sv_db s) |>)) with (<[d:=f db]> (sv_db s)).
  destruct (decide (d = d0)) as [->|]; [|by rewrite lookup_insert_ne]. rewrite lookup_insert_eq, E. cbn.
  destruct (Hk db k0) as [-> ->]; [congruence|done].
Qed.

Lemma steps_reply c r : Steps safe (add_reply c r).
Proof. apply steps_client. done. Qed.
Lemma steps_dirty n : Steps safe (add_dirty n).
Proof. apply steps_modify. intros s. by apply safe_same. Qed.
Lemma steps_mstime cf : Steps safe (mstime cf).
Proof. intros s a s' [= _ <-]. by apply safe_same. Qed.
Lemma steps_feed d argv : Steps safe (feed d argv).
Proof. apply steps_modify. intros s. by apply safe_same. Qed.
Lemma steps_propagate d argv : Steps safe (propagate d argv).
Proof.
  unfold propagate, execCommandPropagateMulti, beforePropagateMulti. steps; try apply steps_feed. apply steps_modify. intros s. by apply safe_same.
Qed.

Lemma set_cas_keeps c : Steps safe (update_client c (set_bit CLIENT_DIRTY_CAS_BIT)).
Proof. apply steps_client. intros _ cl _. by rewrite has_set_bit. Qed.

Lemma steps_touch d k : Steps safe (touchWatchedKey d k).
Proof. unfold touchWatchedKey. steps. apply set_cas_keeps. Qed.
Lemma steps_touch_all e r : Steps safe (touchAllWatchedKeysInDb e r).
Proof. unfold touchAllWatchedKeysInDb. steps; try apply set_cas_keeps. Qed.

(** A loop that marks each client of a list marks the ones of the list. *)
Lemma marks_each {A} (l : list A) body x : x ∈ l -> (forall y, Steps mono (body y)) -> Steps marks (body x) -> Steps marks (each l body).
Proof.
  intros Hx Hb Hm. induction l as [|y l IH]; [inversion Hx|]. cbn [each]. apply elem_of_cons in Hx as [<-|Hx].
  - apply marks_left; [done|]. intros _. apply steps_each; [apply mono_preorder|]. auto.
  - apply marks_right; [done|]. intros _. by apply IH.
Qed.

Lemma marks_touch : Steps marks (touchWatchedKey d0 k0).
Proof.
  intros s a s' E Hw. revert E. unfold touchWatchedKey, get_db, mbind, sm_bind. pose proof (proj1 Hw) as Hin. unfold watchers in Hin.
  destruct (sv_db s !! d0) as [db|]; [|done]. destruct (db_watched_keys db !! k0) as [l|] eqn:El; [|inversion Hin]. intros E.
  refine (marks_each l _ c0 _ _ _ s a s' E Hw); [done| |apply marks_client]. intros y. apply mono_of_safe, set_cas_keeps.
Qed.

Lemma steps_delete_other lazy d k : (d, k) <> (d0, k0) -> Steps safe (dbGenericDelete lazy d k).
Proof.
  intros Hn. unfold dbGenericDelete, dbAsyncDelete, dbSyncDelete. steps; apply (steps_db_other d _ k); try done;
    intros db k' Hk; cbn; split; try done; by rewrite lookup_delete_ne.
Qed.
Lemma steps_delete lazy d k : Steps mono (dbGenericDelete lazy d k).
Proof. unfold dbGenericDelete, dbAsyncDelete, dbSyncDelete. steps; by apply steps_db. Qed.

Lemma steps_set_expire_other d k w : (d, k) <> (d0, k0) -> Steps safe (setExpire d k w).
Proof. intros Hn. unfold setExpire. steps. apply (steps_db_other d _ k); try done. intros db k' Hk. cbn. by rewrite lookup_insert_ne. Qed.
Lemma steps_set_expire d k w : Steps mono (setExpire d k w).
Proof. unfold setExpire. steps. by apply steps_db. Qed.

Lemma steps_remove_expire_other d k : (d, k) <> (d0, k0) -> Steps safe (removeExpire d k).
Proof. intros Hn. unfold removeExpire. steps. apply (steps_db_other d _ k); try done. intros db k' Hk. cbn. by rewrite lookup_delete_ne. Qed.
Lemma steps_remove_expire d k : Steps mono (removeExpire d k).
Proof. unfold removeExpire. steps. by apply steps_db. Qed.

Lemma steps_add_other d k v : (d, k) <> (d0, k0) -> Steps safe (dbAdd d k v).
Proof. intros Hn. unfold dbAdd. steps. apply (steps_db_other d _ k); try done. intros db k' Hk. cbn. by rewrite lookup_insert_ne. Qed.
Lemma steps_add d k v : Steps mono (dbAdd d k v).
Proof. unfold dbAdd. steps. by apply steps_db. Qed.

Lemma steps_overwrite_other d k v : (d, k) <> (d0, k0) -> Steps safe (dbOverwrite d k v).
Proof. intros Hn. unfold dbOverwrite. steps. apply (steps_db_other d _ k); try done. intros db k' Hk. cbn. by rewrite lookup_insert_ne. Qed.
Lemma steps_overwrite d k v : Steps mono (dbOverwrite d k v).
Proof. unfold dbOverwrite. steps. by apply steps_db. Qed.

(** A test that removed nothing left the key as it was. *)
Lemma safe_test {A} (m : sm bool) (f : bool -> sm A) : Steps mono m ->
  (forall s s', m s = Done false s' -> entry s' d0 k0 = entry s d0 k0) -> Steps marks (f true) -> Steps safe (f false) -> Steps safe (b ← m; f b).
Proof.
  intros Hm He Ht Hf s a s' ([] & s1 & E1 & E2)%done_bind Hw; destruct (Hm _ _ _ E1 Hw) as [Hw1 D1].
  - destruct (Ht _ _ _ E2 Hw1). auto.
  - destruct (Hf _ _ _ E2 Hw1) as (Hw2 & D2 & E). split; [done|]. split; [auto|]. by rewrite <- (He _ _ E1).
Qed.

Lemma update_db_done d f s a s' : update_db d f s = Done a s' -> exists db, sv_db s !! d = Some db /\ s' = s <| sv_db := <[d := f db]> (sv_db s) |>.
Proof. unfold update_db. destruct (sv_db s !! d) as [db|]; [|done]. intros [= _ <-]. eauto. Qed.
Lemma get_db_done d s db s' : get_db d s = Done db s' -> sv_db s !! d = Some db /\ s' = s.
Proof. unfold get_db. destruct (sv_db s !! d); [|done]. by intros [= -> ->]. Qed.

Lemma sv_db_set s m : sv_db (s <| sv_db := m |>) = m.
Proof. reflexivity. Qed.
Lemma entry_update s d db m k : entry (s <| sv_db := <[d := db]> m |>) d k = (v ← db_dict db !! k; Some (v, db_expires db !! k)).
Proof. unfold entry. change (sv_db (s <| sv_db := <[d:=db]> m |>)) with (<[d:=db]> m). by rewrite lookup_insert_eq. Qed.

Lemma safe_removed {A} (f : bool -> sm A) : Steps marks (f true) -> Steps safe (f false) -> Steps safe (b ← removeExpire d0 k0; f b).
Proof.
  apply safe_test; [apply steps_remove_expire|]. intros s s'. unfold removeExpire.
  intros (db & s1 & [E ->]%get_db_done & (? & s2 & E2 & (? & s3 & (db' & E3 & ->)%update_db_done & E4)%done_bind)%done_bind)%done_bind.
  unfold assert in E2. destruct (bool_decide _); [|done]. injection E2 as _ <-. injection E4 as Hb <-. rewrite entry_update. unfold entry.
  rewrite E3. cbn. rewrite E in E3. injection E3 as <-. apply bool_decide_eq_false in Hb. destruct (db_dict db !! k0); [|done]. cbn.
  rewrite lookup_delete_eq. destruct (db_expires db !! k0); [destruct Hb; eauto|done].
Qed.

Lemma safe_deleted {A} lazy (f : bool -> sm A) : Steps marks (f true) -> Steps safe (f false) -> Steps safe (b ← dbGenericDelete lazy d0 k0; f b).
Proof.
  apply safe_test; [apply steps_delete|]. intros s s' E.
  assert (E' : dbSyncDelete d0 k0 s = Done false s') by (destruct lazy; exact E). clear E. unfold dbSyncDelete in E'.
  apply done_bind in E' as (db & s1 & [E ->]%get_db_done & (? & s2 & (db' & E3 & ->)%update_db_done & (? & s3 & (db2 & E4 & ->)%update_db_done & E5)%done_bind)%done_bind).
  injection E5 as Hb <-. rewrite entry_update. unfold entry. rewrite E. cbn. rewrite lookup_delete_eq. apply bool_decide_eq_false in Hb.
  destruct (db_dict db !! k0); [destruct Hb; eauto|done].
Qed.

(** Parts with an optional result, which have written the key only when there is one. *)
Definition May {A} (m : sm (option A)) : Prop :=
  forall s x s', m s = Done x s' -> match x with None => safe s s' | Some _ => mono s s' end.
Definition Must {A} (m : sm (option A)) : Prop := forall s x s', m s = Done x s' -> mono s s' /\ is_Some x.

Lemma must_ret {A} (a : A) : Must (mret (Some a)).
Proof. intros s x s' [= <- <-]. split; [reflexivity|eauto]. Qed.
Lemma must_bind {A B} (m : sm A) (f : A -> sm (option B)) : Steps mono m -> (forall a, Must (f a)) -> Must (a ← m; f a).
Proof. intros Hm Hf s x s' (a & s1 & E1 & E2)%done_bind. destruct (Hf _ _ _ _ E2). split; [|done]. etrans; [by eapply Hm|done]. Qed.
Lemma may_of_must {A} (m : sm (option A)) : Must m -> May m.
Proof. intros H s x s' E. destruct (H _ _ _ E) as [? [? ->]]. done. Qed.
Lemma may_none {A} : May (mret (@None A)).
Proof. intros s x s' [= <- <-]. reflexivity. Qed.
Lemma may_bind {A B} (m : sm A) (f : A -> sm (option B)) : Steps safe m -> (forall a, May (f a)) -> May (a ← m; f a).
Proof.
  intros Hm Hf s x s' (a & s1 & E1 & E2)%done_bind. specialize (Hm _ _ _ E1). specialize (Hf _ _ _ _ E2).
  destruct x; [|by etrans]. intros Hw. destruct (Hm Hw) as (Hw1 & ? & _). destruct (Hf Hw1). auto.
Qed.
Lemma safe_may {A B} (m : sm (option A)) (f : option A -> sm B) :
  May m -> Steps safe (f None) -> (forall a, Steps marks (f (Some a))) -> Steps safe (x ← m; f x).
Proof.
  intros Hm Hn Hs s b s' ([a|] & s1 & E1 & E2)%done_bind; specialize (Hm _ _ _ E1); cbn in Hm.
  - intros Hw. destruct (Hm Hw) as [Hw1 D]. destruct (Hs _ _ _ _ E2 Hw1). auto.
  - etrans; [exact Hm|by eapply Hn].
Qed.
End watched.

(** ** Automation *)

#[export] Hint Resolve steps_reply steps_dirty steps_mstime steps_feed steps_propagate steps_touch steps_touch_all : steps.
#[export] Hint Resolve steps_delete_other steps_set_expire_other steps_remove_expire_other steps_add_other steps_overwrite_other : steps.
#[export] Hint Resolve steps_delete steps_set_expire steps_remove_expire steps_add steps_overwrite : steps.
#[export] Hint Extern 1 (Steps (safe _ _ _) (update_client _ _)) => apply steps_client; done : steps.

(** [Steps mono]: also what is safe. *)
Ltac mono_leaf := first [solve [eauto with steps] | apply mono_of_safe; solve [eauto with steps]].
Ltac mono := steps_with mono_leaf.

(** [Steps marks]: a part marks the client, what comes before and after only
    has to keep the mark. *)
Ltac marks :=
  cbv beta zeta; try change (unless (negb true)) with (fun m : sm unit => m); cbv beta;
  first
  [ solve [eauto with marks]
  | lazymatch goal with
    | |- Steps _ (mbind _ _) => first [apply marks_left; [solve [marks]|intros ?; solve [mono]] | apply marks_right; [solve [mono]|intros ?; marks]]
    | |- Steps _ (match ?x with _ => _ end) => destruct x; marks
    end ].

Ltac must := first [apply must_ret | apply must_bind; [solve [mono]|intros ?; must]].
Create HintDb marks discriminated.
#[export] Hint Resolve marks_touch : marks.
#[export] Hint Extern 1 (Steps (marks _ _ _) (signalModifiedKey _ _)) => unfold signalModifiedKey; apply marks_touch : marks.
#[export] Hint Extern 1 (Steps (safe _ _ _) (signalModifiedKey _ _)) => unfold signalModifiedKey; apply steps_touch : steps.

(** Tell whether a key that is written is the watched one. *)
Ltac decide_key :=
  lazymatch goal with
  | |- Steps (safe ?c0 ?d0 ?k0) ?m =>
      let go d k :=
        lazymatch goal with
        | H : (d, k) <> (d0, k0) |- _ => fail
        | _ => first [constr_eq d d0; constr_eq k k0; fail 1 | destruct (decide ((d, k) = (d0, k0))) as [[= -> ->]|]]
        end in
      match m with
      | context [signalModifiedKey ?d ?k] => go d k
      | context [genericSetKey _ ?d ?k _ _] => go d k
      end
  end.
Ltac safe_leaf := first [solve [eauto with steps] | apply safe_of_marks; solve [marks]].
Ltac safe_auto :=
  let leaf := first
    [ safe_leaf
    | decide_key; safe_auto
    | lazymatch goal with
      | |- Steps (safe _ ?d0 ?k0) (mbind _ (removeExpire ?d0 ?k0)) => apply safe_removed; [solve [marks]|safe_auto]
      | |- Steps (safe _ ?d0 ?k0) (mbind _ (dbGenericDelete _ ?d0 ?k0)) => apply safe_deleted; [solve [marks]|safe_auto]
      | |- Steps (safe _ _ _) (mbind (A:=option _) _ (match _ with _ => _ end)) => apply safe_may; [solve [may_auto]|safe_auto|intros ?; solve [marks]]
      end ] in
  steps_with leaf
with may_auto :=
  cbv beta zeta;
  first
  [ apply may_none
  | apply may_of_must; solve [must]
  | lazymatch goal with
    | |- May _ _ _ (mbind _ _) => apply may_bind; [safe_auto|intros ?; may_auto]
    | |- May _ _ _ (match ?x with _ => _ end) => destruct x; may_auto
    end ].

Section commands.
Context (c0 d0 : Z) (k0 : bytes) (cf : conf).
Abbreviation Safe m := (Steps (safe c0 d0 k0) m).
Abbreviation Marks m := (Steps (marks c0 d0 k0) m).

Lemma safe_get_expire d k : Safe (getExpire d k).
Proof. unfold getExpire. safe_auto. Qed.
#[local] Hint Resolve safe_get_expire : steps.
Lemma safe_key_is_expired d k : Safe (keyIsExpired cf d k).
Proof. unfold keyIsExpired. safe_auto. Qed.
#[local] Hint Resolve safe_key_is_expired : steps.
Lemma safe_delete_expired d k : Safe (deleteExpiredKeyAndPropagate cf d k).
Proof. unfold deleteExpiredKeyAndPropagate, propagateExpire. safe_auto. Qed.
#[local] Hint Resolve safe_delete_expired : steps.
Lemma safe_expire_if_needed d k : Safe (expireIfNeeded cf d k).
Proof. unfold expireIfNeeded. safe_auto. Qed.
#[local] Hint Resolve safe_expire_if_needed : steps.
Lemma safe_lookup_write d k : Safe (lookupKeyWrite cf d k).
Proof. unfold lookupKeyWrite, lookupKey. safe_auto. Qed.
Lemma safe_lookup_read d k : Safe (lookupKeyRead cf d k).
Proof. unfold lookupKeyRead, lookupKey, reader_is_client. safe_auto. Qed.
#[local] Hint Resolve safe_lookup_write safe_lookup_read : steps.
Lemma safe_lookup_or_reply c k r : Safe (lookupKeyReadOrReply cf c k r) /\ Safe (lookupKeyWriteOrReply cf c k r).
Proof. unfold lookupKeyReadOrReply, lookupKeyWriteOrReply, current_db. split; safe_auto. Qed.
Lemma safe_lookup_read_reply c k r : Safe (lookupKeyReadOrReply cf c k r).
Proof. apply safe_lookup_or_reply. Qed.
Lemma safe_lookup_write_reply c k r : Safe (lookupKeyWriteOrReply cf c k r).
Proof. apply safe_lookup_or_reply. Qed.
#[local] Hint Resolve safe_lookup_read_reply safe_lookup_write_reply : steps.

Lemma marks_set_key v keep : Marks (genericSetKey cf d0 k0 v keep).
Proof. unfold genericSetKey. marks. Qed.
Lemma safe_set_key d k v keep : Safe (genericSetKey cf d k v keep).
Proof. unfold genericSetKey. safe_auto. Qed.
#[local] Hint Resolve marks_set_key : marks.
#[local] Hint Resolve safe_set_key : steps.

Lemma safe_arg c j : Safe (arg c j).
Proof. unfold arg. safe_auto. Qed.
Lemma safe_sds_of o : Safe (sds_of o).
Proof. unfold sds_of. safe_auto. Qed.
#[local] Hint Resolve safe_arg safe_sds_of : steps.
Lemma safe_sds_arg c j : Safe (sds_arg c j).
Proof. unfold sds_arg. safe_auto. Qed.
Lemma safe_current_db c : Safe (current_db c).
Proof. unfold current_db. safe_auto. Qed.
Lemma safe_reply_error c e : Safe (reply_error c e).
Proof. unfold reply_error. safe_auto. Qed.
#[local] Hint Resolve safe_sds_arg safe_current_db safe_reply_error : steps.
Lemma safe_long_long c o e : Safe (getLongLongFromObjectOrReply c o e).
Proof. unfold getLongLongFromObjectOrReply, long_long_of. safe_auto. Qed.
#[local] Hint Resolve safe_long_long : steps.
Lemma safe_int c o e : Safe (getIntFromObjectOrReply c o e).
Proof. unfold getIntFromObjectOrReply. safe_auto. Qed.
Lemma safe_check_string c o : Safe (check_string c o).
Proof. unfold check_string. safe_auto. Qed.
Lemma safe_add_ll a b : Safe (add_ll a b).
Proof. unfold add_ll. safe_auto. Qed.
Lemma safe_zeros n : Safe (zeros n).
Proof. unfold zeros. safe_auto. Qed.
Lemma safe_rewrite c argv : Safe (rewriteClientCommandVector c argv).
Proof. unfold rewriteClientCommandVector, replaceClientCommandVector. safe_auto. Qed.
Lemma safe_rewrite_arg c i o : Safe (rewriteClientCommandArgument c i o).
Proof. unfold rewriteClientCommandArgument. safe_auto. Qed.
Lemma safe_encode_arg c i : Safe (encode_arg c i).
Proof. unfold encode_arg, tryObjectEncoding, set_arg. safe_auto. Qed.
Lemma safe_invalid_expire c : Safe (invalid_expire c).
Proof. unfold invalid_expire, cmd_name_of. safe_auto. Qed.
#[local] Hint Resolve safe_int safe_check_string safe_add_ll safe_zeros safe_rewrite safe_rewrite_arg safe_encode_arg safe_invalid_expire : steps.
Lemma safe_options c b : Safe (parseExtendedStringArgumentsOrReply c b).
Proof. unfold parseExtendedStringArgumentsOrReply. safe_auto. Qed.
Lemma safe_expire_time c o e : Safe (expire_time cf c o e).
Proof. unfold expire_time. safe_auto. Qed.
Lemma safe_get_generic c : Safe (getGenericCommand cf c).
Proof. unfold getGenericCommand. safe_auto. Qed.
Lemma safe_length c n : Safe (checkStringLength cf c n).
Proof. unfold checkStringLength. safe_auto. Qed.
Lemma safe_already_expired w : Safe (checkAlreadyExpired cf w).
Proof. unfold checkAlreadyExpired. safe_auto. Qed.
#[local] Hint Resolve safe_options safe_expire_time safe_get_generic safe_length safe_already_expired : steps.

Lemma safe_set_generic c o k v r1 r2 : Safe (setGenericCommand cf c o k v r1 r2).
Proof. unfold setGenericCommand. safe_auto. Qed.
#[local] Hint Resolve safe_set_generic : steps.

Lemma safe_set_commands c : Safe (set_command cf c) /\ Safe (setnx_command cf c) /\ Safe (setex_command cf c) /\ Safe (psetex_command cf c).
Proof. unfold set_command, setnx_command, setex_command, psetex_command. split_and!; safe_auto. Qed.
Lemma safe_getex c : Safe (getex_command cf c).
Proof. unfold getex_command, delete_as. safe_auto. Qed.
Lemma safe_getdel c : Safe (getdel_command cf c).
Proof. unfold getdel_command, delete_as. safe_auto. Qed.
Lemma safe_getset c : Safe (getset_command cf c).
Proof. unfold getset_command, setKey. safe_auto. Qed.
Lemma safe_setrange c : Safe (setrange_command cf c).
Proof. unfold setrange_command, dbUnshareStringValue. safe_auto. Qed.
Lemma safe_getrange c : Safe (getrange_command cf c).
Proof. unfold getrange_command. safe_auto. Qed.
Lemma safe_mget c : Safe (mget_command cf c).
Proof. unfold mget_command. safe_auto. Qed.
Lemma safe_any_exists d l : Safe (any_exists cf d l).
Proof. induction l as [| |k v l IH] using pairs_ind; cbn [any_exists]; safe_auto. Qed.
Lemma safe_mset_pairs c d l : forall j, Safe (mset_pairs cf c d j l).
Proof. induction l as [| |k v l IH] using pairs_ind; intros j; cbn [mset_pairs]; unfold setKey; safe_auto. Qed.
#[local] Hint Resolve safe_any_exists safe_mset_pairs : steps.
Lemma safe_mset c nx : Safe (msetGenericCommand cf c nx).
Proof. unfold msetGenericCommand. safe_auto. Qed.
Lemma safe_incr c n : Safe (incrDecrCommand cf c n).
Proof. unfold incrDecrCommand. safe_auto. Qed.
#[local] Hint Resolve safe_incr : steps.
Lemma safe_incrby c : Safe (incrby_command cf c) /\ Safe (decrby_command cf c).
Proof. unfold incrby_command, decrby_command. split; safe_auto. Qed.
Lemma safe_incrbyfloat c : Safe (incrbyfloat_command cf c).
Proof. unfold incrbyfloat_command. safe_auto. Qed.
Lemma safe_append c : Safe (append_command cf c).
Proof. unfold append_command, dbUnshareStringValue. safe_auto. Qed.
Lemma safe_strlen c : Safe (strlen_command cf c).
Proof. unfold strlen_command. safe_auto. Qed.
Lemma safe_del_keys lazy d l : forall n, Safe (del_keys cf lazy d l n).
Proof. induction l as [|k l IH]; intros n; cbn [del_keys]; safe_auto. Qed.
Lemma safe_count_keys d l : forall n, Safe (count_keys cf d l n).
Proof. induction l as [|k l IH]; intros n; cbn [count_keys]; safe_auto. Qed.
#[local] Hint Resolve safe_del_keys safe_count_keys : steps.
Lemma safe_del c lazy : Safe (delGenericCommand cf c lazy).
Proof. unfold delGenericCommand. safe_auto. Qed.
Lemma safe_exists c : Safe (exists_command cf c).
Proof. unfold exists_command. safe_auto. Qed.
Lemma safe_type c : Safe (type_command cf c).
Proof. unfold type_command. safe_auto. Qed.
Lemma safe_rename c nx : Safe (renameGenericCommand cf c nx).
Proof. unfold renameGenericCommand, dbDelete. safe_auto. Qed.
Lemma safe_select_db c id : Safe (selectDb cf c id).
Proof. unfold selectDb. safe_auto. Qed.
#[local] Hint Resolve safe_select_db : steps.
Lemma safe_target_db c o : Safe (target_db cf c o).
Proof. unfold target_db. safe_auto. Qed.
#[local] Hint Resolve safe_target_db : steps.
Lemma safe_move c : Safe (move_command cf c).
Proof. unfold move_command, dbDelete. safe_auto. Qed.
Lemma safe_copy_options c l : forall d r, Safe (copy_options cf c l d r).
Proof.
  enough (H : forall n l, (length l < n)%nat -> forall d r, Safe (copy_options cf c l d r)) by eauto.
  intros n. induction n as [|n IH]; [lia|]. intros [|o l'] Hl d r; cbn [copy_options length] in *; [safe_auto|].
  assert (forall d r, Safe (copy_options cf c l' d r)) by (apply IH; lia). apply steps_bind; [typeclasses eauto|safe_auto|]. intros opt.
  destruct (arg_is opt _); [done|]. destruct l' as [|next l']; [safe_auto|]. cbn [length] in Hl.
  assert (forall d r, Safe (copy_options cf c l' d r)) by (apply IH; lia). safe_auto.
Qed.
#[local] Hint Resolve safe_copy_options : steps.
Lemma safe_copy c : Safe (copy_command cf c).
Proof. unfold copy_command, dbDelete. safe_auto. Qed.
Lemma safe_expire c b u : Safe (expireGenericCommand cf c b u).
Proof. unfold expireGenericCommand, delete_as. safe_auto. Qed.
#[local] Hint Resolve safe_expire : steps.
Lemma safe_ttl c b : Safe (ttlGenericCommand cf c b).
Proof. unfold ttlGenericCommand. safe_auto. Qed.
Lemma safe_persist c : Safe (persist_command cf c).
Proof. unfold persist_command. safe_auto. Qed.

(** *** Whole databases *)

Definition same_dbs (s s' : kserver) : Prop := sv_db s' = sv_db s.
#[local] Instance same_dbs_preorder : PreOrder same_dbs.
Proof. split; [done|]. intros s1 s2 s3. unfold same_dbs. congruence. Qed.

Lemma touch_all_same_dbs e r : Steps same_dbs (touchAllWatchedKeysInDb e r).
Proof. unfold touchAllWatchedKeysInDb. steps; try apply steps_update_client; done. Qed.

Definition has_key (s : kserver) (d : Z) : Prop := exists db v, sv_db s !! d = Some db /\ db_dict db !! k0 = Some v.

Lemma entry_has_key s d : entry s d k0 <> None -> has_key s d.
Proof. unfold entry. destruct (sv_db s !! d) as [db|] eqn:E; [|done]. cbn. destruct (db_dict db !! k0) eqn:E'; [|done]. intros _. by exists db, v. Qed.

Lemma marks_touch_all r s a s' : touchAllWatchedKeysInDb d0 r s = Done a s' ->
  (has_key s d0 \/ exists d, r = Some d /\ has_key s d) -> marks c0 d0 k0 s s'.
Proof.
  intros E Hk Hw. unfold touchAllWatchedKeysInDb in E. apply done_bind in E as (e & s1 & [Ee ->]%get_db_done & E).
  apply done_bind in E as (r' & s2 & E2 & E).
  assert (s2 = s /\ (has_key s d0 \/ exists db v, r' = Some db /\ db_dict db !! k0 = Some v)) as [-> Hk'].
  { destruct r as [d|]; [|injection E2 as <- <-; split; [done|]; destruct Hk as [?|(? & ? & _)]; [by left|done]].
    apply done_bind in E2 as (db & s3 & [Ed ->]%get_db_done & E3). injection E3 as <- <-. split; [done|].
    destruct Hk as [?|(d' & [= <-] & db' & v & Ed' & Ev)]; [by left|]. right. exists db, v. split; congruence. }
  pose proof (proj1 Hw) as Hin. unfold watchers in Hin. rewrite Ee in Hin.
  destruct (db_watched_keys e !! k0) as [l|] eqn:El; [|inversion Hin].
  refine (marks_each c0 d0 k0 (map_to_list (db_watched_keys e)) _ (k0, l) _ _ _ s a s' E Hw).
  - by apply elem_of_map_to_list.
  - intros [key clients]. apply mono_of_safe. steps; apply set_cas_keeps.
  - apply (marks_each c0 d0 k0 l _ c0); [done|intros c; apply mono_of_safe; steps; apply set_cas_keeps|].
    destruct (bool_decide _) eqn:Eb; [apply marks_client|]. apply bool_decide_eq_false in Eb.
    destruct Hk' as [(db & v & Ed & Ev)|(db & v & -> & Ev)]; [rewrite Ee in Ed; injection Ed as <-; destruct Eb; eauto|].
    rewrite Ev. cbn. apply marks_client.
Qed.

(** Databases that are emptied. *)
Definition shrinks (s s' : kserver) : Prop := mono c0 d0 k0 s s' /\ (entry s' d0 k0 = entry s d0 k0 \/ entry s' d0 k0 = None).
#[local] Instance shrinks_preorder : PreOrder shrinks.
Proof.
  split; [intros s; split; [reflexivity|auto]|]. intros s1 s2 s3 [M1 H1] [M2 H2]. split; [by etrans|]. destruct H2 as [->|]; auto.
Qed.

Lemma shrinks_empty dbid : Steps shrinks (emptyDbStructure cf dbid).
Proof.
  unfold emptyDbStructure. steps. intros s u s' E. split; [by refine (steps_db c0 d0 k0 x _ _ s u s' E)|]. apply update_db_done in E as (db & Ed & ->).
  destruct (decide (x = d0)) as [->|Hx]; [right; by rewrite entry_update|left]. unfold entry.
  change (sv_db (s <| sv_db := <[x := db <| db_dict := ∅ |> <| db_expires := ∅ |>]> (sv_db s) |>)) with (<[x := db <| db_dict := ∅ |> <| db_expires := ∅ |>]> (sv_db s)).
  by rewrite lookup_insert_ne.
Qed.

Lemma safe_empty_other dbid : d0 ∉ db_range cf dbid -> Steps (safe c0 d0 k0) (emptyDbStructure cf dbid).
Proof.
  intros Hd. unfold emptyDbStructure. steps. intros s u s' E Hw. assert (Hm : mono c0 d0 k0 s s') by (by refine (steps_db c0 d0 k0 x _ _ s u s' E)). destruct (Hm Hw) as [Hw' D].
  split; [done|]. split; [done|]. left. apply update_db_done in E as (db & Ed & ->). unfold entry.
  change (sv_db (s <| sv_db := <[x := db <| db_dict := ∅ |> <| db_expires := ∅ |>]> (sv_db s) |>)) with (<[x := db <| db_dict := ∅ |> <| db_expires := ∅ |>]> (sv_db s)).
  rewrite lookup_insert_ne; [done|]. set_solver.
Qed.

Lemma marks_flush l s a s' : each l (fun j => touchAllWatchedKeysInDb j None) s = Done a s' -> d0 ∈ l -> has_key s d0 -> marks c0 d0 k0 s s'.
Proof.
  revert s. induction l as [|j l IH]; intros s E Hin Hk; [inversion Hin|]. cbn [each] in E. apply done_bind in E as (u & s1 & E1 & E2).
  assert (Hm : mono c0 d0 k0 s1 s').
  { assert (H : Steps (mono c0 d0 k0) (each l (fun j => touchAllWatchedKeysInDb j None))) by mono. by eapply H. }
  destruct (decide (j = d0)) as [->|Hj].
  - intros Hw. destruct (marks_touch_all _ _ _ _ E1 (or_introl Hk) Hw) as [Hw1 D]. destruct (Hm Hw1). auto.
  - assert (Hs1 : same_dbs s s1) by exact (touch_all_same_dbs j None _ _ _ E1). unfold same_dbs in Hs1. intros Hw.
    destruct (steps_touch_all c0 d0 k0 j None _ _ _ E1 Hw) as (Hw1 & D & _). eapply (IH s1); [done|set_solver| |done]. unfold has_key. by rewrite Hs1.
Qed.

Lemma safe_empty_db dbid : Safe (emptyDb cf dbid).
Proof.
  unfold emptyDb. destruct (_ || _); [safe_auto|]. intros s b s' E.
  assert (Hm : Steps (mono c0 d0 k0) (emptyDbStructure cf dbid)) by (intros ? ? ? H; by eapply shrinks_empty in H as []).
  apply done_bind in E as (u & s1 & E1 & E2). assert (Hs1 : safe c0 d0 k0 s s1).
  { assert (H : Safe (signalFlushedDb cf dbid)) by (unfold signalFlushedDb; safe_auto). by eapply H. }
  apply done_bind in E2 as (n & s2 & E2 & E3). injection E3 as <- <-. intros Hw. destruct (Hs1 Hw) as (Hw1 & D1 & He1).
  destruct (Hm _ _ _ E2 Hw1) as [Hw2 D2]. destruct (decide (d0 ∈ db_range cf dbid)) as [Hin|Hout].
  2: { destruct (safe_empty_other dbid Hout _ _ _ E2 Hw1) as (_ & _ & He2). split; [done|]. split; [auto|]. destruct He1 as [He1|]; [|auto]. destruct He2; [left; congruence|auto]. }
  destruct (entry s d0 k0) as [x|] eqn:Ee.
  - destruct (marks_flush _ _ _ _ E1 Hin) as [_ D]; [apply entry_has_key; by rewrite Ee|done|]. auto.
  - split; [done|]. split; [auto|]. destruct He1 as [He1|]; [|auto]. left. destruct (shrinks_empty dbid _ _ _ E2) as [_ [->| ->]]; done.
Qed.

(** Databases that are exchanged: afterwards both are touched. *)
Lemma safe_swap_touched s s2 s3 s4 d1 d2 u1 u2 : mono c0 d0 k0 s s2 -> entry s2 d1 k0 = entry s d2 k0 -> entry s2 d2 k0 = entry s d1 k0 ->
  (forall d, d <> d1 -> d <> d2 -> entry s2 d k0 = entry s d k0) ->
  touchAllWatchedKeysInDb d1 (Some d2) s2 = Done u1 s3 -> touchAllWatchedKeysInDb d2 (Some d1) s3 = Done u2 s4 -> safe c0 d0 k0 s s4.
Proof.
  intros Hm E1 E2 Eo T1 T2 Hw. destruct (Hm Hw) as [Hw2 D2]. destruct (steps_touch_all c0 d0 k0 _ _ _ _ _ T1 Hw2) as (Hw3 & D3 & _).
  destruct (steps_touch_all c0 d0 k0 _ _ _ _ _ T2 Hw3) as (Hw4 & D4 & _). split; [done|]. split; [auto|].
  assert (S3 : sv_db s3 = sv_db s2) by exact (touch_all_same_dbs _ _ _ _ _ T1). assert (S4 : sv_db s4 = sv_db s3) by exact (touch_all_same_dbs _ _ _ _ _ T2).
  assert (Ent : forall d, entry s4 d k0 = entry s2 d k0) by (intros d; unfold entry; by rewrite S4, S3).
  assert (K3 : forall d, has_key s2 d -> has_key s3 d) by (intros d; unfold has_key; by rewrite S3).
  assert (Hboth : d0 = d1 \/ d0 = d2 -> entry s d1 k0 = None -> entry s d2 k0 = None -> entry s4 d0 k0 = entry s d0 k0).
  { intros [-> | ->] N1 N2; rewrite Ent; congruence. }
  destruct (decide (d0 = d1)) as [H1|H1].
  - destruct (entry s2 d1 k0) eqn:X1; [right; apply D4; apply (marks_touch_all (Some d2) s2 u1 s3); [by rewrite H1|left; rewrite H1; apply entry_has_key; congruence|done]|].
    destruct (entry s2 d2 k0) eqn:X2; [right; apply D4; apply (marks_touch_all (Some d2) s2 u1 s3); [by rewrite H1|right; exists d2; split; [done|]; apply entry_has_key; congruence|done]|].
    left. apply Hboth; [by left|congruence..].
  - destruct (decide (d0 = d2)) as [H2|H2]; [|left; by rewrite Ent, Eo].
    destruct (entry s2 d2 k0) eqn:X2; [right; apply (marks_touch_all (Some d1) s3 u2 s4); [by rewrite H2|left; rewrite H2; apply K3, entry_has_key; congruence|done]|].
    destruct (entry s2 d1 k0) eqn:X1; [right; apply (marks_touch_all (Some d1) s3 u2 s4); [by rewrite H2|right; exists d1; split; [done|]; apply K3, entry_has_key; congruence|done]|].
    left. apply Hboth; [by right|congruence..].
Qed.

Lemma safe_swap d1 d2 : Safe (dbSwapDatabases cf d1 d2).
Proof.
  unfold dbSwapDatabases. destruct (_ || _); [safe_auto|]. destruct (Z.eqb_spec d1 d2) as [|Hne]; [safe_auto|].
  intros s b s' (db1 & ? & [G1 ->]%get_db_done & (db2 & ? & [G2 ->]%get_db_done & (u1 & s1 & U1 & (u2 & s2 & U2 & (u3 & s3 & T1 & (u4 & s4 & T2 & E)%done_bind)%done_bind)%done_bind)%done_bind)%done_bind)%done_bind.
  injection E as _ <-.
  assert (Hm : mono c0 d0 k0 s s2).
  { transitivity s1; [by refine (steps_db c0 d0 k0 d1 _ _ s u1 s1 U1)|by refine (steps_db c0 d0 k0 d2 _ _ s1 u2 s2 U2)]. }
  apply update_db_done in U1 as (x1 & X1 & ->). apply update_db_done in U2 as (x2 & X2 & ->).
  match type of X1 with _ = Some ?x => assert (x = db1) as -> by congruence end. cbn [sv_db set_field] in X2.
  change (<[d1 := db1 <| db_dict := db_dict db2 |> <| db_expires := db_expires db2 |>]> (sv_db s) !! d2 = Some x2) in X2.
  rewrite lookup_insert_ne in X2 by done. assert (x2 = db2) as -> by congruence.
  eapply (safe_swap_touched _ _ _ _ d1 d2); [exact Hm| | | |exact T1|exact T2]; intros; unfold entry;
    rewrite !sv_db_set, ?lookup_insert_eq, ?(lookup_insert_ne _ d2 d1), ?lookup_insert_eq by done.
  - by rewrite G2.
  - by rewrite G1.
  - by rewrite !lookup_insert_ne.
Qed.
#[local] Hint Resolve safe_empty_db safe_swap : steps.

Lemma safe_flush_flags c : Safe (getFlushCommandFlags c).
Proof. unfold getFlushCommandFlags. safe_auto. Qed.
#[local] Hint Resolve safe_flush_flags : steps.
Lemma safe_flush c : Safe (flushdb_command cf c) /\ Safe (flushall_command cf c).
Proof. unfold flushdb_command, flushall_command, flushAllDataAndResetRDB, empty_and_count. split; safe_auto. Qed.
Lemma safe_select c : Safe (select_command cf c).
Proof. unfold select_command. safe_auto. Qed.
Lemma safe_swapdb c : Safe (swapdb_command cf c).
Proof. unfold swapdb_command. safe_auto. Qed.
Lemma safe_dbsize c : Safe (dbsize_command c).
Proof. unfold dbsize_command. safe_auto. Qed.

(** *** Transactions *)

Lemma safe_set_bit c b : 0 <= b -> Safe (update_client c (set_bit b)).
Proof. intros Hb. apply steps_client. intros _ cl H. rewrite has_set_bit by done. rewrite H. apply orb_true_r. Qed.
Lemma safe_multi c : Safe (multi_command c).
Proof. unfold multi_command. safe_auto. by apply safe_set_bit. Qed.

Lemma safe_watch_key c k : Safe (watchForKey c k).
Proof.
  unfold watchForKey. safe_auto. intros s u s' (db & E & ->)%update_db_done [Hin Hc]. split; [|split].
  - split; [|done]. revert Hin. unfold watchers. rewrite sv_db_set. destruct (decide (c_db a = d0)) as [Ed|]; [rewrite Ed in *|]; [|by rewrite lookup_insert_ne].
    rewrite lookup_insert_eq, E. cbn. destruct (decide (k = k0)) as [->|]; [rewrite lookup_insert_eq|by rewrite lookup_insert_ne].
    cbn. intros Hin. apply elem_of_app. by left.
  - done.
  - left. unfold entry. rewrite sv_db_set. destruct (decide (c_db a = d0)) as [Ed|]; [rewrite Ed in *|]; [by rewrite lookup_insert_eq, E|by rewrite lookup_insert_ne].
Qed.
#[local] Hint Resolve safe_watch_key : steps.
Lemma safe_watch c : Safe (watch_command c).
Proof. unfold watch_command. safe_auto. Qed.

Lemma remove_client_other c l l' : remove_client c l = Some l' -> c <> c0 -> c0 ∈ l -> c0 ∈ l'.
Proof.
  revert l'. induction l as [|x l IH]; intros l' E Hc Hin; [done|]. cbn in E. destruct (Z.eqb_spec x c) as [->|].
  - injection E as <-. apply elem_of_cons in Hin as [->|]; done.
  - destruct (remove_client c l) as [l2|]; [|done]. injection E as <-. apply elem_of_cons in Hin as [<-|Hin]; [by left|]. right. by apply IH.
Qed.

Lemma safe_unwatch_key c w : c <> c0 -> Safe (unwatch_key c w).
Proof.
  intros Hc s u s' (db & ? & [G ->]%get_db_done & (l & ? & E1 & (rest & ? & E2 & (u2 & s2 & (db' & G' & ->)%update_db_done & E3)%done_bind)%done_bind)%done_bind)%done_bind.
  destruct (db_watched_keys db !! w.2) as [l0|] eqn:El; [|done]. injection E1 as <- <-.
  destruct (remove_client c l0) as [rest0|] eqn:Er; [|done]. injection E2 as <- <-. assert (db' = db) as -> by congruence.
  match type of E3 with update_client _ _ ?x = _ => set (s1 := x) in * end. transitivity s1; [|by eapply (steps_client c0 d0 k0 c); [|exact E3]].
  intros [Hin Hcl]. split; [|split; [done|]].
  - split; [|done]. revert Hin. unfold watchers, s1. rewrite sv_db_set. destruct (decide (w.1 = d0)) as [Ed|]; [rewrite Ed in *|]; [|by rewrite lookup_insert_ne].
    rewrite lookup_insert_eq, G. cbn. destruct (decide (w.2 = k0)) as [Ek|]; [rewrite Ek in *|].
    + rewrite El. cbn. intros Hin. pose proof (remove_client_other c l0 rest0 Er Hc Hin). destruct rest0; [inversion H|by rewrite lookup_insert_eq].
    + destruct rest0; [by rewrite lookup_delete_ne|by rewrite lookup_insert_ne].
  - left. unfold entry, s1. rewrite sv_db_set. destruct (decide (w.1 = d0)) as [Ed|]; [rewrite Ed in *|]; [by rewrite lookup_insert_eq, G|by rewrite lookup_insert_ne].
Qed.
Lemma safe_unwatch_all c : c <> c0 -> Safe (unwatchAllKeys c).
Proof. intros Hc. unfold unwatchAllKeys. safe_auto. by apply safe_unwatch_key. Qed.
Lemma safe_discard_transaction c : c <> c0 -> Safe (discardTransaction c).
Proof. intros Hc. unfold discardTransaction. safe_auto. by apply safe_unwatch_all. Qed.
#[local] Hint Resolve safe_unwatch_all safe_discard_transaction : steps.

(** The commands that end what a client watches. *)
Definition unwatches (p : proc) : bool := bool_decide (p = execCommand) || bool_decide (p = discardCommand) || bool_decide (p = unwatchCommand).

Lemma safe_run_proc p c : c <> c0 \/ unwatches p = false -> Safe (run_proc cf p c).
Proof.
  intros Hc. destruct (safe_set_commands c) as (? & ? & ? & ?). destruct (safe_incrby c). destruct (safe_flush c).
  assert (c <> c0 -> Safe (discard_command c)) by (intros ?; unfold discard_command; safe_auto).
  assert (c <> c0 -> Safe (unwatch_command c)) by (intros ?; unfold unwatch_command; safe_auto).
  assert (Safe (get_command cf c)) by (unfold get_command; safe_auto).
  assert (Safe (expire_command cf c)) by (unfold expire_command; safe_auto). assert (Safe (pexpire_command cf c)) by (unfold pexpire_command; safe_auto).
  destruct p; cbn [run_proc]; try done; try (destruct Hc as [|[=]]; auto; done);
    first [apply safe_getex | apply safe_getdel | apply safe_append | apply safe_strlen | apply safe_del | apply safe_exists | apply safe_setrange
      | apply safe_getrange | apply safe_incr | apply safe_mget | apply safe_incrbyfloat | apply safe_getset | apply safe_mset | apply safe_select
      | apply safe_swapdb | apply safe_move | apply safe_copy | apply safe_rename | apply safe_expire | apply safe_dbsize | apply safe_type
      | apply safe_multi | apply safe_ttl | apply safe_persist | apply safe_watch | apply steps_ret; typeclasses eauto].
Qed.
End commands.

Lemma get_client_done c s cl s' : get_client c s = Done cl s' -> sv_clients s !! c = Some cl /\ s' = s.
Proof. unfold get_client. destruct (sv_clients s !! c); [|done]. by intros [= -> ->]. Qed.
Lemma update_client_done c f s u s' : update_client c f s = Done u s' ->
  exists cl, sv_clients s !! c = Some cl /\ s' = s <| sv_clients := <[c := f cl]> (sv_clients s) |>.
Proof. unfold update_client. destruct (sv_clients s !! c) as [cl|]; [|done]. intros [= _ <-]. eauto. Qed.
Lemma sv_clients_set s m : sv_clients (s <| sv_clients := m |>) = m.
Proof. reflexivity. Qed.

(** ** Commands of the clients *)

Lemma begin_call_clients cf s u s' : begin_call cf s = Done u s' -> sv_clients s' = sv_clients s.
Proof.
  unfold begin_call, unless. intros (? & ? & [= <- <-] & (? & s3 & E & E4)%done_bind)%done_bind. injection E4 as _ <-.
  destruct (negb _); injection E as _ <-; done.
Qed.

Section events.
Context (c0 d0 : Z) (k0 : bytes) (cf : conf) (reject denied : kserver -> Z -> option string).
Abbreviation Safe m := (Steps (safe c0 d0 k0) m).

Lemma safe_begin_call : Safe (begin_call cf).
Proof. unfold begin_call. safe_auto; apply steps_modify; intros s; by apply safe_same. Qed.
Lemma safe_end_call c full n : Safe (end_call c full n).
Proof. unfold end_call. safe_auto. apply steps_modify; intros s; by apply safe_same. Qed.
#[local] Hint Resolve safe_begin_call safe_end_call : steps.

(** EXEC of another client. *)
Lemma safe_queued c : c <> c0 -> Safe (queued_proc cf c).
Proof. intros Hc. unfold queued_proc. safe_auto. apply safe_run_proc. by left. Qed.
Lemma safe_call body c full : Safe (body c) -> Safe (call_with cf body c full).
Proof. intros Hb. unfold call_with. safe_auto. Qed.
Lemma safe_exec_one c mc : c <> c0 -> Safe (exec_one cf denied c mc).
Proof. intros Hc. unfold exec_one. safe_auto. by apply safe_call, safe_queued. Qed.
Lemma safe_exec c : c <> c0 -> Safe (exec_command cf denied c).
Proof.
  intros Hc. assert (Safe (unwatchAllKeys c)) by by apply safe_unwatch_all. assert (Safe (discardTransaction c)) by by apply safe_discard_transaction.
  assert (forall l, Safe (any_expired cf l)) by (intros l; induction l; cbn; safe_auto; apply safe_key_is_expired).
  unfold exec_command, isWatchedKeyExpired, exec_end, afterPropagateExec. safe_auto; try (by apply safe_exec_one); try (by apply safe_set_bit);
    apply steps_modify; intros s; by apply safe_same.
Qed.

Definition cmd_unwatches (s : kserver) (c : Z) : bool :=
  match sv_clients s !! c with Some cl => match c_cmd cl with Some cmd => unwatches (cmd_proc cmd) | None => false end | None => false end.

Lemma safe_any_proc c s u s' : c <> c0 \/ cmd_unwatches s c = false -> any_proc cf denied c s = Done u s' -> safe c0 d0 k0 s s'.
Proof.
  intros Hc. unfold any_proc. intros (cl & ? & [G ->]%get_client_done & (cmd & ? & E1 & E2)%done_bind)%done_bind.
  unfold cmd_unwatches in Hc. rewrite G in Hc. destruct (c_cmd cl) as [cmd'|]; [|done]. injection E1 as <- <-. revert E2.
  case_bool_decide as Hp; [|apply safe_run_proc; done]. apply safe_exec. destruct Hc as [|Hc]; [done|]. by rewrite Hp in Hc.
Qed.

Lemma safe_call_any c s u s' : c <> c0 \/ cmd_unwatches s c = false -> call_with cf (any_proc cf denied) c true s = Done u s' -> safe c0 d0 k0 s s'.
Proof.
  intros Hc (s0 & ? & [= <- <-] & (u1 & s1 & E1 & (u2 & s2 & E2 & E3)%done_bind)%done_bind)%done_bind.
  transitivity s1; [by eapply safe_begin_call|]. transitivity s2; [|by eapply safe_end_call]. eapply safe_any_proc; [|exact E2].
  destruct Hc as [|Hc]; [by left|right]. unfold cmd_unwatches. by rewrite (begin_call_clients _ _ _ _ E1).
Qed.

Lemma safe_flag_transaction c : Safe (flagTransaction c).
Proof. unfold flagTransaction. safe_auto. by apply safe_set_bit. Qed.

Lemma safe_abort c e : c <> c0 -> Safe (execCommandAbort c e).
Proof. intros Hc. unfold execCommandAbort. safe_auto. by apply safe_discard_transaction. Qed.

Lemma safe_reject c e s u s' : c <> c0 \/ cmd_unwatches s c = false -> rejectCommand c e s = Done u s' -> safe c0 d0 k0 s s'.
Proof.
  intros Hc (u1 & s1 & E1 & (cl & ? & [G ->]%get_client_done & E2)%done_bind)%done_bind. transitivity s1; [by eapply safe_flag_transaction|].
  assert (Hc' : c <> c0 \/ cmd_unwatches s1 c = false).
  { destruct Hc as [|Hc]; [by left|right]. revert E1. intros (cl1 & ? & [G1 ->]%get_client_done & E)%done_bind. unfold unless in E.
    destruct (negb _); [injection E as _ <-; done|]. apply update_client_done in E as (cl2 & G2 & ->). revert Hc. unfold cmd_unwatches.
    rewrite sv_clients_set, lookup_insert_eq, G2. done. }
  revert E2. destruct (c_cmd cl) as [cmd|] eqn:Ec; [|apply steps_reply]. case_bool_decide as Hp; [|apply steps_reply].
  destruct Hc' as [Hc'|Hc']; [|unfold cmd_unwatches in Hc'; rewrite G, Ec, Hp in Hc'; done].
  by apply safe_abort.
Qed.

(** The command of the arguments ends what its client watches. *)
Definition argv_unwatches (argv : list robj) : bool :=
  match argv with StrObj name :: _ => match lookupCommand name with Some cmd => unwatches (cmd_proc cmd) | None => false end | _ => false end.

Lemma safe_queue c : Safe (queueMultiCommand c).
Proof. unfold queueMultiCommand. safe_auto. Qed.

Lemma assert_done b s u s' : assert b s = Done u s' -> b = true /\ s' = s.
Proof. destruct b; [|done]. by intros [= _ <-]. Qed.

Lemma sds_arg_done c j s k s' : sds_arg c j s = Done k s' -> s' = s /\ exists cl, sv_clients s !! c = Some cl /\ c_argv cl !! j = Some (StrObj k).
Proof.
  intros (o & s1 & (cl & ? & [G ->]%get_client_done & E)%done_bind & E2)%done_bind. destruct (c_argv cl !! j) as [o'|] eqn:Ej; [|done].
  injection E as <- <-. destruct o'; [|done]. injection E2 as <- <-. eauto.
Qed.

(** What [processCommand] starts with. *)
Lemma process_done c s u s' : processCommand cf reject denied c s = Done u s' ->
  exists cl name, sv_clients s !! c = Some cl /\ c_argv cl !! 0%nat = Some (StrObj name) /\
    let cl := cl <| c_cmd := lookupCommand name |> in
    let s1 := s <| sv_clients := <[c := cl]> (sv_clients s) |> in
    sv_in_exec s = false /\
    ((exists e, rejectCommand c e s1 = Done u s') \/
     (exists cmd, lookupCommand name = Some cmd /\ has_bit cl CLIENT_MULTI_BIT = true /\ queued_in_multi (cmd_proc cmd) = true /\
        (queueMultiCommand c;; add_reply c (RStatus (of_string "QUEUED"))) s1 = Done u s') \/
     (exists cmd, lookupCommand name = Some cmd /\ call_with cf (any_proc cf denied) c true s1 = Done u s')).
Proof.
  intros (? & ? & [= <- <-] & (? & ? & [H1 ->]%assert_done & (? & ? & [H2 ->]%assert_done & (name & ? & [-> (cl & G & Ea)]%sds_arg_done & E)%done_bind)%done_bind)%done_bind)%done_bind.
  apply done_bind in E as (? & s1 & (cl' & G' & ->)%update_client_done & (cl2 & ? & [G2 ->]%get_client_done & E)%done_bind).
  assert (cl' = cl) as -> by congruence. rewrite sv_clients_set, lookup_insert_eq in G2. injection G2 as <-.
  exists cl, name. split; [done|]. split; [done|]. split; [by apply negb_true_iff in H2|]. cbn zeta in E.
  change (c_cmd (cl <| c_cmd := lookupCommand name |>)) with (lookupCommand name) in E. destruct (lookupCommand name) as [cmd|]; [|eauto].
  destruct (_ || _) in E; [eauto|]. apply done_bind in E as (? & ? & [= <- <-] & E). destruct (reject _ c) in E; [eauto|].
  destruct (_ && cmd_has _ _ _) in E; [eauto|]. destruct (_ && denies_loading _ _) in E; [eauto|].
  destruct (has_bit _ _ && _) eqn:Hm in E; [|eauto 6]. apply andb_true_iff in Hm as [??]. right; left. eauto 6.
Qed.

Lemma safe_process c s u s' : c <> c0 \/ (forall cl, sv_clients s !! c = Some cl -> argv_unwatches (c_argv cl) = false) ->
  processCommand cf reject denied c s = Done u s' -> safe c0 d0 k0 s s'.
Proof.
  intros Hc (cl & name & G & Ea & _ & E)%process_done. match type of E with context [rejectCommand _ _ ?x] => set (s1 := x) in * end.
  assert (safe c0 d0 k0 s s1) as H1.
  { refine (steps_client c0 d0 k0 c (fun cl => cl <| c_cmd := lookupCommand name |>) _ s tt s1 _); [done|]. unfold update_client. by rewrite G. }
  assert (Hc' : c <> c0 \/ cmd_unwatches s1 c = false).
  { destruct Hc as [|Hc]; [by left|right]. specialize (Hc _ G). unfold cmd_unwatches, s1. rewrite sv_clients_set, lookup_insert_eq.
    destruct (c_argv cl); [done|]. injection Ea as ->. exact Hc. }
  transitivity s1; [done|]. destruct E as [[e E]|[(cmd & _ & _ & _ & E)|(cmd & _ & E)]].
  - by eapply safe_reject.
  - apply done_bind in E as (? & ? & E1 & E2). etrans; [by eapply safe_queue|by eapply steps_reply].
  - by eapply safe_call_any.
Qed.

(** ** Events *)

(** What can happen to the server: a client sends a command, a connection is
    accepted or closed, the background cycle tries to expire a key. *)
Inductive event := Serve (c : Z) (argv : list robj) | Accept (c flags : Z) | Close (c : Z) | Expire (d : Z) (key : bytes) (now : Z).

Definition run_event (e : event) : sm unit :=
  match e with
  | Serve c argv => serve cf reject denied c argv
  | Accept c flags => createClient c flags
  | Close c => freeClient c
  | Expire d key now => activeExpireCycleTryExpire cf d key now;; mret tt
  end.

(** The client does not stop watching by itself. *)
Definition keeps_watch (e : event) : bool :=
  match e with
  | Serve c argv => negb (c =? c0) || negb (argv_unwatches argv)
  | Accept c _ | Close c => negb (c =? c0)
  | Expire _ _ _ => true
  end.

Lemma safe_event e : keeps_watch e = true -> Safe (run_event e).
Proof.
  destruct e as [c argv|c flags|c|d key now]; cbn [run_event keeps_watch]; intros Hk.
  - intros s u s' (? & s1 & E1 & (? & s2 & E2 & (? & s3 & E3 & E4)%done_bind)%done_bind)%done_bind. injection E2 as _ <-. injection E4 as _ <-.
    transitivity s1; [by eapply steps_client; [|exact E1]|]. match type of E3 with _ ?x = _ => transitivity x; [by apply safe_same|] end.
    transitivity s3; [|by apply safe_same]. refine (safe_process c _ _ _ _ E3). apply orb_true_iff in Hk as [Hk|Hk]; [left; lia|right].
    apply update_client_done in E1 as (cl & G & ->). intros cl' G'. change (<[c := cl <| c_argv := argv |>]> (sv_clients s) !! c = Some cl') in G'.
    rewrite lookup_insert_eq in G'. injection G' as <-. by apply negb_true_iff in Hk.
  - apply steps_modify. intros s [Hw Hcl]. split; [|split; [|by left]].
    + split; [done|]. rewrite sv_clients_set, lookup_insert_ne by lia. done.
    + unfold dirty, client_has. rewrite sv_clients_set, lookup_insert_ne by lia. done.
  - unfold freeClient. safe_auto; [apply safe_unwatch_all; lia|]. apply steps_modify. intros s [Hw Hcl]. split; [|split; [|by left]].
    + split; [done|]. rewrite sv_clients_set, lookup_delete_ne by lia. done.
    + unfold dirty, client_has. rewrite sv_clients_set, lookup_delete_ne by lia. done.
  - unfold activeExpireCycleTryExpire. safe_auto; apply safe_delete_expired.
Qed.

Lemma safe_events l : forallb keeps_watch l = true -> Safe (each l run_event).
Proof. intros H. apply steps_each; [typeclasses eauto|]. intros e He. apply safe_event. rewrite forallb_forall in H. apply H. by apply list_elem_of_In. Qed.
End events.

(** ** The transaction *)

Definition replies (s : kserver) (c : Z) : list reply := match sv_clients s !! c with Some cl => c_replies cl | None => [] end.

(** The client is sent no results of a transaction. *)
Definition no_results (c : Z) (s s' : kserver) : Prop := exists l, replies s' c = replies s c ++ l /\ Forall (fun r => forall n, r <> RArrayLen n) l.

#[export] Instance no_results_preorder c : PreOrder (no_results c).
Proof.
  split; [intros s; exists []; by rewrite app_nil_r|]. intros s1 s2 s3 (l1 & E1 & H1) (l2 & E2 & H2). exists (l1 ++ l2).
  rewrite E2, E1, app_assoc. split; [done|by apply Forall_app].
Qed.

Section transaction.
Context (cf : conf) (reject denied : kserver -> Z -> option string) (c : Z).
Abbreviation Quiet m := (Steps (no_results c) m).

Lemma quiet_same s s' : sv_clients s' = sv_clients s -> no_results c s s'.
Proof. intros H. exists []. unfold replies. by rewrite H, app_nil_r. Qed.
Lemma quiet_client c' f : (forall cl, c_replies (f cl) = c_replies cl) -> Quiet (update_client c' f).
Proof.
  intros Hf. apply steps_update_client. intros s cl E. exists []. unfold replies. rewrite sv_clients_set, app_nil_r. split; [|done].
  destruct (decide (c' = c)) as [->|]; [by rewrite lookup_insert_eq, E, Hf|by rewrite lookup_insert_ne].
Qed.
Lemma quiet_db d f : Quiet (update_db d f).
Proof. apply steps_update_db. intros. by apply quiet_same. Qed.
Lemma quiet_reply c' r : (forall n, r <> RArrayLen n) -> Quiet (add_reply c' r).
Proof.
  intros Hr. apply steps_update_client. intros s cl E. unfold no_results, replies. rewrite sv_clients_set. destruct (decide (c' = c)) as [->|].
  - rewrite lookup_insert_eq, E. exists [r]. auto.
  - rewrite lookup_insert_ne by done. exists []. by rewrite app_nil_r.
Qed.
Lemma quiet_error c' fmt args : Quiet (add_reply c' (RError fmt args)).
Proof. by apply quiet_reply. Qed.
#[local] Hint Resolve quiet_db quiet_error : steps.
#[local] Hint Extern 1 (Steps _ (update_client _ _)) => apply quiet_client; done : steps.
#[local] Hint Extern 1 (Steps _ (modify_server _)) => apply steps_modify; intros ?; by apply quiet_same : steps.

Lemma quiet_discard : Quiet (discardTransaction c).
Proof. unfold discardTransaction, unwatchAllKeys, unwatch_key. steps. Qed.
#[local] Hint Resolve quiet_discard : steps.
Lemma quiet_reject e : Quiet (rejectCommand c e).
Proof. unfold rejectCommand, execCommandAbort, flagTransaction. steps. Qed.
Lemma quiet_end full n : Quiet (end_call c full n).
Proof. unfold end_call, propagate, execCommandPropagateMulti, beforePropagateMulti, feed. steps. Qed.

(** The checks of EXEC do not change clients. *)
Lemma any_expired_clients l s b s' : any_expired cf l s = Done b s' -> sv_clients s' = sv_clients s.
Proof.
  intros E. revert E. enough (Steps (fun s s' => sv_clients s' = sv_clients s) (any_expired cf l)) as H by apply H.
  assert (PreOrder (fun s s' => sv_clients s' = sv_clients s)) by (split; [by intros ?|intros ??? -> ->; done]).
  induction l as [|w l IH]; cbn [any_expired]; unfold keyIsExpired, getExpire; steps. intros ??? [= _ <-]. done.
Qed.

(** EXEC of a marked client runs nothing. *)
Lemma exec_dirty s u s' : client_has s c CLIENT_DIRTY_CAS_BIT = true -> exec_command cf denied c s = Done u s' -> no_results c s s'.
Proof.
  intros Hd (cl & ? & [G ->]%get_client_done & E)%done_bind. destruct (negb _) in E; [by apply quiet_error in E|].
  unfold client_has in Hd. rewrite G in Hd.
  apply done_bind in E as (b & s1 & (? & ? & [G1 ->]%get_client_done & Ex)%done_bind & E). apply any_expired_clients in Ex.
  apply done_bind in E as (? & s2 & E2 & (cl2 & ? & [G2 ->]%get_client_done & E)%done_bind).
  transitivity s1; [by apply quiet_same|].
  assert (no_results c s1 s2 /\ has_bit cl2 CLIENT_DIRTY_CAS_BIT = true) as [Hq Hd2].
  { unfold unless in E2. destruct (negb b).
    - injection E2 as _ <-. split; [reflexivity|]. congruence.
    - split; [by eapply quiet_client; [|exact E2]|]. apply update_client_done in E2 as (cl3 & G3 & ->). rewrite sv_clients_set, lookup_insert_eq in G2.
      injection G2 as <-. by rewrite has_set_bit. }
  transitivity s2; [done|]. rewrite Hd2 in E. cbn [orb] in E. apply done_bind in E as (? & s3 & E3 & E4).
  transitivity s3; [|by eapply quiet_discard]. eapply quiet_reply; [|exact E3]. by destruct (has_bit cl2 CLIENT_DIRTY_EXEC_BIT).
Qed.

Lemma call_exec_dirty s u s' cl cmd : sv_clients s !! c = Some cl -> c_cmd cl = Some cmd -> cmd_proc cmd = execCommand ->
  has_bit cl CLIENT_DIRTY_CAS_BIT = true -> call_with cf (any_proc cf denied) c true s = Done u s' -> no_results c s s'.
Proof.
  intros G Ec Hp Hd (? & ? & [= <- <-] & (? & s1 & E1 & (? & s2 & E2 & E3)%done_bind)%done_bind)%done_bind. apply begin_call_clients in E1 as Hs.
  transitivity s1; [by apply quiet_same|]. transitivity s2; [|by eapply quiet_end].
  apply done_bind in E2 as (cl' & ? & [G' ->]%get_client_done & E). assert (cl' = cl) as -> by congruence. rewrite Ec in E.
  apply done_bind in E as (? & ? & [= <- <-] & E). rewrite bool_decide_true in E by done. eapply exec_dirty; [|exact E].
  unfold client_has. by rewrite G'.
Qed.

Lemma serve_exec_dirty argv name cmd s u s' :
  argv !! 0%nat = Some (StrObj name) -> lookupCommand name = Some cmd -> cmd_proc cmd = execCommand -> client_has s c CLIENT_DIRTY_CAS_BIT = true ->
  serve cf reject denied c argv s = Done u s' -> no_results c s s'.
Proof.
  intros Ha Hl Hp Hd (? & s1 & E1 & (? & s2 & E2 & (? & s3 & E3 & E4)%done_bind)%done_bind)%done_bind. injection E2 as _ <-. injection E4 as _ <-.
  transitivity s1; [by eapply quiet_client; [|exact E1]|]. apply update_client_done in E1 as (cl & G & ->).
  match type of E3 with processCommand _ _ _ _ ?x = _ => set (s2 := x) in *; transitivity s2; [by apply quiet_same|] end.
  transitivity s3; [|by apply quiet_same]. apply process_done in E3 as (cl2 & name' & G2 & En & _ & E).
  change (<[c := cl <| c_argv := argv |>]> (sv_clients s) !! c = Some cl2) in G2. rewrite lookup_insert_eq in G2. injection G2 as <-.
  change (argv !! 0%nat = Some (StrObj name')) in En. rewrite Ha in En. injection En as <-.
  assert (Hd' : has_bit cl CLIENT_DIRTY_CAS_BIT = true) by (unfold client_has in Hd; by rewrite G in Hd).
  match type of E with context [rejectCommand _ _ ?x] => set (s4 := x) in *; transitivity s4 end.
  { exists []. unfold replies, s4. rewrite sv_clients_set, lookup_insert_eq, app_nil_r. split; [|done].
    change (sv_clients s2) with (<[c := cl <| c_argv := argv |>]> (sv_clients s)). by rewrite lookup_insert_eq. }
  assert (client_has s4 c CLIENT_DIRTY_CAS_BIT = true) as Hd4 by (unfold client_has, s4; rewrite sv_clients_set, lookup_insert_eq; exact Hd').
  destruct E as [[e E]|[(cmd' & El & _ & Hq & _)|(cmd' & El & E)]].
  - by eapply quiet_reject.
  - assert (cmd' = cmd) as -> by congruence. by rewrite Hp in Hq.
  - eapply (call_exec_dirty s4 _ _ (cl <| c_argv := argv |> <| c_cmd := lookupCommand name |>) cmd); [apply lookup_insert_eq|done|done|done|exact E].
Qed.
End transaction.

(** C2: WATCH locks optimistically: let a client watch a key, and let any events
    of the model happen in which the client itself does not send EXEC, DISCARD or
    UNWATCH and stays connected - the string, key, database and transaction
    commands of this and of other clients on any database, FLUSHALL and SWAPDB,
    connections, keys expired by a look-up or by the background cycle. If the client's EXEC then runs its transaction (it is
    sent an array of results and not a null or an error), the key is the one it
    was: the same value with the same expire time, or still missing. *)
Theorem exec_cas cf reject denied c d k events s1 s2 s3 u u' argv name cmd results n :
  watching c d k s1 ->
  forallb (keeps_watch c) events = true -> each events (run_event cf reject denied) s1 = Done u s2 ->
  argv !! 0%nat = Some (StrObj name) -> lookupCommand name = Some cmd -> cmd_proc cmd = execCommand -> serve cf reject denied c argv s2 = Done u' s3 ->
  replies s3 c = replies s2 c ++ results -> RArrayLen n ∈ results ->
  entry s2 d k = entry s1 d k.
Proof.
  intros Hw Hk E Ha Hl Hp Ex Hr Hn. destruct (safe_events c d k cf reject denied events Hk s1 u s2 E Hw) as (_ & _ & [He|Hd]); [done|exfalso].
  destruct (serve_exec_dirty cf reject denied c argv name cmd s2 u' s3 Ha Hl Hp Hd Ex) as (l & El & Hf). assert (l = results) as -> by (apply (app_inv_head (replies s2 c)); congruence).
  rewrite Forall_forall in Hf. exact (Hf _ Hn n eq_refl).
Qed.

(** A run: client 2 watches [b] and queues a command on it, client 1 writes other keys. *)
Definition cas_conf : conf := mkConf 2 false false false false false 1000 true (fun n => 1000 + 10 * Z.of_nat n) (fun _ _ => None).
Definition cas_empty : kserver := mkKserver {[0 := mkDb ∅ ∅ ∅; 1 := mkDb ∅ ∅ ∅]} ∅ 0 0 0 0 false false None None false false [].
Definition cas_serve (c : Z) (argv : list string) : event := Serve c (List.map (fun a => StrObj (of_string a)) argv).
Definition cas_run (l : list event) (s : kserver) : kserver :=
  match each l (run_event cas_conf (fun _ _ => None) (fun _ _ => None)) s with Done _ s => s | _ => s end.
Definition cas_watching : kserver :=
  cas_run [Accept 1 0; Accept 2 0; cas_serve 1 ["SET"; "b"; "5"; "EX"; "10"]; cas_serve 2 ["WATCH"; "a"; "b"]] cas_empty.
Definition cas_events : list event :=
  [cas_serve 1 ["SET"; "c"; "1"]; cas_serve 1 ["FLUSHDB"; "SYNC"; "x"]; cas_serve 2 ["MULTI"]; cas_serve 1 ["GET"; "b"]; cas_serve 2 ["INCR"; "b"];
   Expire 0 (of_string "b") 20; Accept 3 0; cas_serve 3 ["RENAME"; "c"; "d"]; Close 3].
Definition cas_exec : list robj := [StrObj (of_string "exec")].

Lemma exec_cas_witness :
  entry (cas_run cas_events cas_watching) 0 (of_string "b") = entry cas_watching 0 (of_string "b") /\
  entry cas_watching 0 (of_string "b") = Some (VStr (IntObj 5), Some 11010).
Proof.
  split; [|vm_compute; reflexivity].
  refine (exec_cas cas_conf (fun _ _ => None) (fun _ _ => None) 2 0 (of_string "b") cas_events cas_watching (cas_run cas_events cas_watching)
    (cas_run [Serve 2 cas_exec] (cas_run cas_events cas_watching)) tt tt cas_exec (of_string "exec") _ [RArrayLen 1; RInt 6] 1 _ _ _ _ _ _ _ _ _).
  - split; [vm_compute; left|]. vm_compute. eexists. reflexivity.
  - vm_compute. reflexivity.
  - vm_compute. reflexivity.
  - vm_compute. reflexivity.
  - vm_compute. reflexivity.
  - vm_compute. reflexivity.
  - vm_compute. reflexivity.
  - vm_compute. reflexivity.
  - left.
Defined.
